(* ===== verification/_CoqProject ===== *)
-Q . S2P
Prelude.v
PyLib.v
PyText.v
PyJson.v
Graph.v
Effects.v
Journal.v
MapperQueue.v
RetryQueue.v
LocalTasks.v
WorkerStore.v
AgentContract.v
HubScheduler.v
HubGovernor.v
HubService.v
InferenceAdmission.v
AsyncQueue.v
HbpLedger.v
HbpFrame.v
PrismRecovery.v
PrismContracts.v
PrismAgents.v
PrismScheduler.v
PrismBudgets.v
PrismReducer.v
FabricScheduler.v
PlanDag.v
ConflictLanes.v
WorktreeQueue.v
FanoutWaves.v
MapService.v
MapBindings.v
LeaseStore.v
BudgetLedger.v
AttemptJournal.v
TypedRecovery.v
TechnicalDebt.v
ControlPolicy.v
Convergence.v
FlowSemantics.v
