(* ===== verification/Prelude.v ===== *)
(** * simplicio-loop: a verification of the coordination core

    simplicio-loop drives coding agents in a loop: work is taken from a source,
    planned, admitted to workers, executed, verified and either delivered or
    retried until the loop converges or stops. The part of the program that
    decides, under [src/simplicio_loop/], is a set of small in-memory
    schedulers, ledgers and state machines, with durable stores beside them
    that several processes share through one journal. This library models that
    part, operation by operation, and proves what each component promises. The
    rest of the program (command line, GitHub, subprocesses, rendering) calls
    it, and is listed as not modelled in the last part of this header.

    ** How to read it

    Shared files:
    - [Prelude]: the error monad [result], functional record update, the
      tactics and hints, sums over the values of a map.
    - [PyLib]: what the code calls of Python's run time: [str.strip],
      [sorted], ordered dicts, canonical JSON ([json.dumps] with sorted keys),
      [hashlib.sha256] (implemented, and run by the examples).
    - [PyText]: [str.join], [split], [partition], [posixpath.normpath]; truth,
      [str], [repr] and [float] of the values of JSON documents.
    - [PyJson]: [json.loads], and that it reads back what [json.dumps] wrote.
    - [Graph]: orders that respect dependencies, and acyclicity.
    - [Effects]: the state and exception monad [prog] of the methods that
      change their object before they raise, with [try_except], [zoom] into a
      part of an object, and a weakest precondition for outcome and state.
    - [Journal]: the interface of the durable journal (a type class with laws),
      the optimistic retry loop of the stores as a machine of concurrent
      processes, and the theorem [reachable_serial]: whatever they interleave,
      the turns that took effect are a serial run.

    Components, each one file of [src/simplicio_loop/]:
    - [MapperQueue] (mapper_operations.py, mapper_remote_queue.py): envelopes
      and receipts of operations, and the queue over an operations store.
    - [RetryQueue] (hub_queue_retry.py): the Hub's durable queue, with leases,
      retries and dead letters.
    - [LocalTasks] (local_task_queue.py): outcomes of local tasks, projected
      from a journal over the queue of [MapperQueue].
    - [WorkerStore] (hub_worker_store.py): task graphs delegated to workers,
      with the pages of events their clients read.
    - [AgentContract] (agent_contract.py): identities of remote agents, the
      context packs that cross to them, the receipts bound to both.
    - [HubScheduler] (hub_scheduler.py): the Hub's deficit round robin.
    - [HubGovernor] (hub_governor.py): leases against budgets, and the circuit
      breaker that pressure readings trip.
    - [HubService] (hub_service.py): the queue, the scheduler and the governor
      composed into one flow of submit, claim, complete and fail.
    - [InferenceAdmission] (inference_admission.py): fair admission, single
      flight of equivalent inferences, bounded retry.
    - [AsyncQueue] (async_bounded_queue.py): the bounded queue.
    - [HbpLedger] (hbp_ledger.py): the hash-chained evidence ledger and the
      completion oracle over it.
    - [PrismContracts] (prism_contracts.py, hbp_ledger.py): identities of
      prisms, slots and task ownerships; hierarchies; admission to a slot.
    - [PrismAgents] (prism_agents.py): which agent owns a transition, takeovers,
      mailboxes and receipts.
    - [HbpFrame] (prism_contracts.py): the binary frame contracts travel in.
    - [PrismRecovery] (prism_recovery.py): the journal of a prism as a file of
      such frames, the state recovered from it, orphaned effects.
    - [PrismScheduler] (prism_scheduler.py): ready sets over an admission
      controller, completion, cancellation of a hierarchy, execution.
    - [PrismBudgets] (prism_budgets.py): observed samples to budgets, and the
      fenced leases of devices.
    - [PrismReducer] (prism_reducer.py): results in any order to receipts.
    - [FabricScheduler] (fabric_scheduler.py): the asyncio execution fabric.
    - [PlanDag] (plan_dag.py): compilation of a plan to order and waves.
    - [ConflictLanes] and [WorktreeQueue] (worktree_queue.py): lanes of tasks
      that touch the same; worktrees for tasks, and the queue of candidates
      that are merged once a composed verification passed.
    - [FanoutWaves] (context_graph_fanout.py): tasks that contend or depend on
      each other to waves. [MapService] (map_service.py): identities of
      repositories, the views built of them, and who uses a view.
      [MapBindings] (context_graph_fanout.py): the views that the worktrees of
      tasks hold, over that registry.
    - [LeaseStore] (slot_lease.py) and [BudgetLedger] (budget.py): durable
      stores over [Journal].
    - [Convergence] (semantic_convergence.py): the controller of one loop.
    - [ControlPolicy] (control_policy.py, recovery_policy.py): a snapshot of a
      run to its next decision; [TypedRecovery] (typed_recovery.py): retries by
      class of failure, with fences and receipts; [AttemptJournal]
      (attempt_journal.py): typed observations exchanged between journals; [TechnicalDebt] (technical_debt.py): the notices
      of degradations that do not block, and the files that keep them.
    - [FlowSemantics] (flow_semantics.py): the converge and drain verdicts.

    Within a file the order is: data, operations under the names of the code,
    the specification the theorems speak of ([** Specification]), lemmas,
    properties, examples. A method [m] of a class is a definition [m] of the
    module named after the class; a private helper [_h] keeps its name when
    Rocq allows it.

    ** How the components interact

    [HubService] takes jobs from [HubScheduler], asks [HubGovernor] for
    capacity and leases the job from [RetryQueue]; its theorems are proved from
    the invariants of the three. [RetryQueue] keeps its state in [Journal] and
    guards claims with [MapperQueue], a client of the class [OperationsStore];
    inferences pass [InferenceAdmission] first. [WorkerStore] and [LocalTasks]
    hand out work beside it: the former over [Journal] too, the latter over
    [MapperQueue]. A plan compiled
    by [PlanDag] is executed by the Prism hierarchy: [PrismContracts] says who
    owns a task, [PrismScheduler] which tasks run together, within the budget
    [PrismBudgets] derives from samples, and [PrismReducer] turns what they
    return into receipts; [FabricScheduler] runs jobs as coroutines over a
    journal of its own, [PrismAgents] gives the transitions of a task to agents,
    and [PrismRecovery] rebuilds tasks, fences and effects
    of a prism from a file of [HbpFrame] frames. [WorktreeQueue] isolates tasks
    from each other by the lanes of [ConflictLanes], and [FanoutWaves] plans which
    of them run side by side. [AsyncQueue] carries work between coroutines.
    [LeaseStore] and [BudgetLedger] are the state that several processes share;
    both are clients of [Journal], proved against its laws alone, and its
    instance [MemJournal] shows that the laws can hold. [Convergence] and
    [FlowSemantics] decide when the loop is over, [ControlPolicy] how it goes on,
    excusing what [TechnicalDebt] says does not block. [TypedRecovery] runs one
    effect with retries, [AttemptJournal] records what was tried, and
    [AgentContract] bounds what a worker elsewhere is told; each is used by the
    driver, through its files or documents.

    ** Conventions

    - A call that may raise returns [result E A]; [E] has one constructor per
      exception (or per message, where callers tell them apart). A method that
      changes its object takes the state and returns the new one, also on
      errors where the code has already changed something.
    - Strings are their UTF-8 bytes, so that [encode("utf-8")] is the identity
      and code-point order is byte order. Unicode white space is that of
      Python's [str.strip]; the normal form C is a type class with its documented
      laws (the class [Nfc] of [HbpLedger]).
    - Python integers are [Z]. Floats are represented exactly by what they can
      hold in the code: integers, half units (deficits of [HubScheduler]),
      multiples of 1/[aging_ticks] (scores of [InferenceAdmission]), sixteenths
      (the numbers in a snapshot of [ControlPolicy]), rationals that are only compared
      (percentages, delays). Times that are floats in
      the code are integers of one unit.
    - Dicts are [gmap] where order is not observable and association lists
      ([PyLib], ordered dicts) where it is.
    - Clocks, random identifiers, sizes measured by the operating system and
      the outcome of workers are arguments, so theorems hold for all of them.
    - A method under a lock is one step. A coroutine is cut at its [await]s:
      each piece is one step, and an inductive relation lets the event loop
      interleave them in any order. Several processes over the journal are the
      machine of [Journal], where reading and appending are separate steps.

    ** Fuel, and why it is enough

    - [PlanDag] and [PrismReducer] visit a graph with as much fuel as it has
      nodes, plus one; the proofs show that every round places a node, and
      [compile_plan_exact] and [reduce_prism_exact] are equivalences: the
      result is returned whenever the code returns it.
    - [ConflictLanes] explores with one round for each edge, and one more;
      [FanoutWaves] plans with one round for each task; [lanes_exact] and
      [waves_exact] say that both loops return.
    - [HubScheduler.next] makes as many passes over the ring as the code does;
      [starvation_free] bounds the calls until a head is dispatched.
    - [PrismScheduler.execute] takes batches while there are any; its theorem
      says that it returns once its workers end, with fuel one more than the
      number of tasks.
    - The retry loops over the journal are steps of a machine, not fuelled
      functions; [LeaseStore] and [BudgetLedger] bound attempts as the code does.
    - [PyJson] parses with fuel the length of the text, and every call of the
      parser consumes a character first.

    ** What the theorems show

    - Invariants: counters, totals and quotas of [HubScheduler], [HubGovernor],
      [InferenceAdmission], [BudgetLedger]; what is in flight and leased of
      [HubService] against the claims it handed out; the chain of [HbpLedger]; the history of [LocalTasks]; exclusion and capacity of
      [PrismScheduler] and [FabricScheduler]; well-formedness of [Convergence];
      fencing of [LeaseStore], [RetryQueue] and [PrismBudgets].
    - Exactness: for an operation with a decision (admit, dispatch, compile,
      validate, reduce, drift, drain, transition) the condition under which it
      succeeds, as an equivalence, and what the result is.
    - Crash safety: [PrismRecovery] adds a row or none, wherever a write stops,
      and recovers exactly what consistent rows say.
    - Idempotence: a request submitted or delegated again, by any process,
      takes effect once ([RetryQueue], [WorkerStore]); a recorded success is
      final ([TypedRecovery]); an observation is appended once
      ([AttemptJournal]); a bound receipt stays bound ([AgentContract]).
    - Termination and liveness: no starvation in [HubScheduler], bounded
      overtaking in [InferenceAdmission], convergence of [PrismScheduler] and
      of the controller of [Convergence].
    - Refinement: [LeaseStore] implements atomic locks with fences.
    - Round trip: contracts survive the frame of [HbpFrame]; a journal that
      [AttemptJournal] exports is imported as it is, unless its last append made
      it unreadable.
    - Isolation: a context pack of [AgentContract] holds what its allow-lists
      admit, and is valid for one identity.
    - Worktrees: what [WorktreeQueue] accepts was queued at its commit and then
      passed a verification, what a takeover of [PrismAgents] replaced never acts
      again, and [MapBindings] leaves no reference of a view of [MapService] behind.
    - Errors: where the code does less than it means to, the theorem states
      what it does; the manifest lists these as findings. What callers have to keep
      for a theorem to hold, and the code does not check, is a hypothesis or a
      flag with a name ([orderly] of [HubScheduler], [strict] of [FabricScheduler],
      [distinct_ids] of [RetryQueue], [normal_binding] of [HbpLedger]), and a lemma
      or example shows what happens otherwise.

    ** Not modelled

    - Input and output: the command line (cli.py, cli_impl.py and the other
      *_cli.py), the daemon and worker processes (hub_daemon.py,
      worker_daemon.py, process_supervisor.py, the remote workers), GitHub and
      tracker clients, git and file system watchers, telemetry and rendering of
      reports. They call the operating system and services at every step; what
      they decide with, they take from the components above.
    - runner.py: the driver of one run, a sequence of subprocess calls and
      file writes. The agents, judges and planners it calls return model
      output, whose content no theorem can speak about.
    - MapperStore, the store behind mapper_operations.py, is not part of the
      repository: [Journal] states the laws of its event journal the stores
      rely on, and the class [OperationsStore] of [MapperQueue] those of its
      operations. Each has an instance in memory.
    - The validation of held admissions of the Hub (admit_held of
      hub_queue_retry.py and hub_service.py), whose content is a projection made by
      the command line; what an admission does to the queue is [insert_held] of
      [RetryQueue].
    - Copies of the same code under plugin/ and simplicio_loop/_bundle/; the
      hooks and scripts, which are entry points over files; the Rust engine and
      the site, which are other languages.
    - Of the modelled files: status reports and other projections of fields,
      wall-clock measurements, snapshots of the scheduler and of the reducer
      as untyped JSON, and objects of asyncio that only deliver wake-ups. *)
From Stdlib Require Export ZArith Lia.
From stdpp Require Export base gmap strings list sorting fin_maps.

(** ** The error monad

    A Python call either returns or raises; [result E A] keeps the exception
    as a value, and [let?] threads it the way an uncaught [raise] propagates. *)
Inductive result (E A : Type) : Type :=
| Ok (a : A)
| Err (e : E).
Arguments Ok {E A} a.
Arguments Err {E A} e.

Definition rbind {E A B} (m : result E A) (k : A → result E B) : result E B :=
  match m with
  | Ok a => k a
  | Err e => Err e
  end.
(** Conversion unfolds the operations before the bind between them. *)
#[global] Strategy 100 [rbind].

Definition is_ok {E A} (m : result E A) : bool :=
  match m with Ok _ => true | Err _ => false end.

Declare Scope py_scope.
Delimit Scope py_scope with py.
Notation "'let?' x := m 'in' k" := (rbind m (fun x => k))
  (at level 10, x pattern, k at level 200) : py_scope.

Lemma rbind_Ok {E A B} (m : result E A) (k : A → result E B) b :
  rbind m k = Ok b ↔ ∃ a, m = Ok a ∧ k a = Ok b.
Proof. destruct m; simpl; naive_solver. Qed.

(** [o] or the exception a failing dict subscript raises. *)
Definition or_raise {E A} (o : option A) (e : E) : result E A :=
  match o with Some a => Ok a | None => Err e end.

(** ** Functional record update

    [s <| f := v |>] is the object after [self.f = v]; [s <| f ::= g |>] after
    [self.f = g(self.f)]. A record becomes updatable by giving its eta
    expansion as an [Eta] instance; the setters are then derived. *)
Class Eta (R : Type) := eta : R → R.
Class Setter {R T : Type} (proj : R → T) := set_field : (T → T) → R → R.
Arguments set_field {R T} proj {_} _ _ /.

Ltac derive_setter :=
  match goal with
  | |- @Setter ?R ?T ?p =>
      let inst := constr:(_ : Eta R) in
      let e := eval hnf in inst in
      let e' := eval pattern p in e in
      match e' with
      | ?g p =>
          let r := eval cbv beta in (λ (f : T → T), g (λ x : R, f (p x))) in
          exact r
      end
  end.
#[export] Hint Extern 1 (Setter _) => derive_setter : typeclass_instances.

Notation "s <| p := v |>" := (set_field p (λ _, v) s)
  (at level 1, p at next level, v at level 200, left associativity).
Notation "s <| p ::= f |>" := (set_field p f s)
  (at level 1, p at next level, f at level 200, left associativity).

(** ** Automation

    [py_cases] destructs the tests and matches that stop a handler from
    computing, one innermost discriminee at a time. *)
Ltac py_case :=
  match goal with
  | H : context [match ?x with _ => _ end] |- _ =>
      lazymatch x with
      | context [match _ with _ => _ end] => fail
      | _ => let E := fresh "E" in destruct x eqn:E; simplify_eq/=
      end
  end.
Ltac py_goal_case :=
  match goal with
  | |- context [match ?x with _ => _ end] =>
      lazymatch x with
      | context [match _ with _ => _ end] => fail
      | _ => let E := fresh "E" in destruct x eqn:E; simplify_eq/=
      end
  end.
Ltac py_cases := repeat py_case.
Ltac py_goal_cases := repeat py_goal_case.

(** Turns the boolean comparisons the code uses into arithmetic facts. *)
Ltac zbool :=
  repeat match goal with
  | H : context [(_ && _)%bool = true] |- _ => rewrite andb_true_iff in H
  | H : context [(_ || _)%bool = false] |- _ => rewrite orb_false_iff in H
  | H : (_ <? _)%Z = true |- _ => apply Z.ltb_lt in H
  | H : (_ <? _)%Z = false |- _ => apply Z.ltb_ge in H
  | H : (_ <=? _)%Z = true |- _ => apply Z.leb_le in H
  | H : (_ <=? _)%Z = false |- _ => apply Z.leb_gt in H
  | H : (_ =? _)%Z = true |- _ => apply Z.eqb_eq in H
  | H : (_ =? _)%Z = false |- _ => apply Z.eqb_neq in H
  | H : bool_decide _ = true |- _ => apply bool_decide_eq_true_1 in H
  | H : bool_decide _ = false |- _ => apply bool_decide_eq_false_1 in H
  | H : negb _ = true |- _ => apply negb_true_iff in H
  | H : negb _ = false |- _ => apply negb_false_iff in H
  | H : _ ∧ _ |- _ => destruct H
  end.

(** Proves a closed decidable proposition by evaluating its decision. *)
Ltac by_compute := apply (bool_decide_unpack _); vm_compute; exact I.

(** ** Sums over the values of a map

    The counters the code keeps ([_client_total], [_usage], ...) are sums over
    a dict of live entries; [msum] is the specification they are checked
    against. *)
Section msum.
Context {K A : Type} `{Countable K}.
Local Open Scope Z_scope.
Implicit Types (f g : A → Z) (m : gmap K A).

Definition msum f m : Z := map_fold (λ _ x acc, f x + acc) 0 m.

Lemma msum_empty f : msum f ∅ = 0.
Proof. reflexivity. Qed.

Lemma msum_insert f m i x :
  m !! i = None → msum f (<[i:=x]> m) = f x + msum f m.
Proof. intros. unfold msum. rewrite map_fold_insert_L; [done| |done]. intros; lia. Qed.

Lemma msum_delete f m i x :
  m !! i = Some x → msum f (delete i m) = msum f m - f x.
Proof.
  intros Hi. unfold msum.
  rewrite (map_fold_delete_L _ _ i x m); [lia| |done]. intros; lia.
Qed.

Lemma msum_replace f m i x y :
  m !! i = Some x → msum f (<[i:=y]> m) = msum f m - f x + f y.
Proof.
  intros Hi. rewrite <- insert_delete_eq.
  rewrite msum_insert by apply lookup_delete_eq.
  rewrite (msum_delete f m i x) by done. lia.
Qed.

Lemma msum_ext f g m :
  (∀ i x, m !! i = Some x → f x = g x) → msum f m = msum g m.
Proof.
  induction m as [|i x m Hi IH] using map_ind; intros Hfg; [done|].
  rewrite !msum_insert by done. rewrite (Hfg i x) by apply lookup_insert_eq.
  f_equal. apply IH. intros j y Hj. apply (Hfg j y).
  rewrite lookup_insert_ne; [done|naive_solver].
Qed.

Lemma msum_le f g m :
  (∀ i x, m !! i = Some x → f x <= g x) → msum f m <= msum g m.
Proof.
  induction m as [|i x m Hi IH] using map_ind; intros Hfg; [done|].
  rewrite !msum_insert by done.
  assert (f x <= g x) by (apply (Hfg i x); apply lookup_insert_eq).
  assert (msum f m <= msum g m); [|lia]. apply IH. intros j y Hj.
  apply (Hfg j y). rewrite lookup_insert_ne; [done|naive_solver].
Qed.

Lemma msum_const0 m : msum (λ _, 0) m = 0.
Proof.
  induction m as [|i x m Hi IH] using map_ind; [done|].
  rewrite msum_insert by done. lia.
Qed.

Lemma msum_nonneg f m :
  (∀ i x, m !! i = Some x → 0 <= f x) → 0 <= msum f m.
Proof. intros Hf. trans (msum (λ _ : A, 0) m); [by rewrite msum_const0|by apply msum_le]. Qed.

Lemma msum_elem f m i x :
  (∀ j y, m !! j = Some y → 0 <= f y) → m !! i = Some x → f x <= msum f m.
Proof.
  intros Hf Hi. assert (0 <= msum f (delete i m)) as H0.
  { apply msum_nonneg. intros j y Hj. apply (Hf j y).
    by apply lookup_delete_Some in Hj as [_ ?]. }
  rewrite (msum_delete f m i x) in H0 by done. lia.
Qed.

Lemma msum_size m : msum (λ _, 1) m = Z.of_nat (size m).
Proof.
  induction m as [|i x m Hi IH] using map_ind; [done|].
  rewrite msum_insert by done. rewrite map_size_insert_None by done. lia.
Qed.
End msum.

(** The number of entries of [m] that satisfy [P]. *)
Definition mcount {K A} `{Countable K} (P : A → bool) (m : gmap K A) : Z :=
  msum (λ x, if P x then 1%Z else 0%Z) m.

Section mcount.
Context {K A : Type} `{Countable K}.
Local Open Scope Z_scope.
Implicit Types (P : A → bool) (m : gmap K A).

Lemma mcount_insert P m i x :
  m !! i = None → mcount P (<[i:=x]> m) = (if P x then 1 else 0) + mcount P m.
Proof. intros. unfold mcount. by rewrite msum_insert. Qed.

Lemma mcount_delete P m i x :
  m !! i = Some x → mcount P (delete i m) = mcount P m - (if P x then 1 else 0).
Proof. intros. unfold mcount. by rewrite (msum_delete _ m i x). Qed.

Lemma mcount_none P m :
  (∀ i x, m !! i = Some x → P x = false) → mcount P m = 0.
Proof.
  intros HP. trans (msum (λ _ : A, 0) m); [|apply msum_const0]. apply msum_ext.
  intros i x Hi. by rewrite (HP i x Hi).
Qed.

Lemma mcount_nonneg P m : 0 <= mcount P m.
Proof. apply msum_nonneg. intros i x _. destruct (P x); lia. Qed.

Lemma mcount_le_size P m : mcount P m <= Z.of_nat (size m).
Proof. rewrite <- msum_size. apply msum_le. intros i x _. by destruct (P x). Qed.

Lemma mcount_pos P m i x : m !! i = Some x → P x = true → 1 <= mcount P m.
Proof.
  intros Hi HP. unfold mcount.
  assert (1 <= (if P x then 1 else 0)) as H1 by (rewrite HP; lia).
  etrans; [apply H1|]. apply (msum_elem (λ x, if P x then 1 else 0) m i x); last done.
  intros j y _. destruct (P y); lia.
Qed.

(** Distinct keys whose entries satisfy [P] are all counted. *)
Lemma mcount_keys P m (l : list K) :
  NoDup l → (∀ k, k ∈ l → ∃ x, m !! k = Some x ∧ P x = true) →
  Z.of_nat (length l) <= mcount P m.
Proof.
  revert m. induction l as [|k l IH]; intros m Hnd Hl; [apply mcount_nonneg|].
  inv Hnd. destruct (Hl k) as (x & Hx & HP); [by left|].
  assert (Z.of_nat (length l) <= mcount P (delete k m)) as Hd.
  { apply IH; [done|]. intros k' Hk'. destruct (Hl k') as (x' & Hx' & HP'); [by right|].
    exists x'. split; [|done]. rewrite lookup_delete_ne; [done|]. intros ->. done. }
  rewrite (mcount_delete P m k x), HP in Hd by done. simpl. lia.
Qed.
End mcount.

(** [d.get(k, 0)] *)
Definition get0 {K} `{Countable K} (d : gmap K Z) (k : K) : Z := default 0%Z (d !! k).

Lemma get0_insert {K} `{Countable K} (d : gmap K Z) k k' v :
  get0 (<[k:=v]> d) k' = if decide (k = k') then v else get0 d k'.
Proof. unfold get0. rewrite lookup_insert. by case_decide. Qed.

Lemma get0_insert_eq {K} `{Countable K} (d : gmap K Z) k v : get0 (<[k:=v]> d) k = v.
Proof. rewrite get0_insert. by rewrite decide_True. Qed.

Lemma get0_insert_ne {K} `{Countable K} (d : gmap K Z) k k' v :
  k ≠ k' → get0 (<[k:=v]> d) k' = get0 d k'.
Proof. intros. rewrite get0_insert. by rewrite decide_False. Qed.

Lemma get0_Some {K} `{Countable K} (d : gmap K Z) k v : d !! k = Some v → get0 d k = v.
Proof. intros Hk. unfold get0. by rewrite Hk. Qed.

(** Lookups of updated dicts, by cases on the key. *)
Lemma insert_is_Some_iff {K A} `{Countable K} (m : gmap K A) i j x y :
  m !! i = Some y → is_Some (<[i:=x]> m !! j) ↔ is_Some (m !! j).
Proof.
  intros Hi. rewrite lookup_insert. case_decide as Hij; [subst|done].
  rewrite Hi. split; intros _; by eexists.
Qed.

(** ** Sums over lists *)
Definition zsum (l : list Z) : Z := foldr Z.add 0%Z l.

Lemma zsum_app l1 l2 : zsum (l1 ++ l2) = (zsum l1 + zsum l2)%Z.
Proof. induction l1; simpl; lia. Qed.

Lemma zsum_nonneg l : Forall (λ z, 0 <= z)%Z l → (0 <= zsum l)%Z.
Proof. induction 1; simpl; lia. Qed.

Lemma filter_all {A} (P : A → Prop) `{∀ x, Decision (P x)} (l : list A) :
  (∀ x, x ∈ l → P x) → filter P l = l.
Proof.
  induction l as [|a l IH]; intros HP; [done|].
  rewrite filter_cons_True by (apply HP; by left). f_equal. apply IH. intros x Hx.
  apply HP. by right.
Qed.

(** ** Removing one element of a duplicate-free list by its key *)
Lemma length_filter_key {A} (f : A → string) (t : string) (l : list A) :
  NoDup (f <$> l) → t ∈ f <$> l →
  (length (filter (λ x, f x ≠ t) l) + 1)%nat = length l.
Proof.
  induction l as [|a l IH]; simpl; intros Hnd Hin; [by apply not_elem_of_nil in Hin|].
  inv Hnd. rewrite filter_cons. case_decide as E.
  - apply elem_of_cons in Hin as [?|Hin]; [by subst|]. simpl. rewrite <- IH by done. done.
  - assert (f a = t) as <- by (by destruct (decide (f a = t))).
    rewrite filter_all; [simpl; lia|].
    intros x Hx Heq. apply H1. rewrite <- Heq. by apply list_elem_of_fmap_2.
Qed.

Lemma filter_key_id {A} (f : A → string) (t : string) (l : list A) :
  t ∉ f <$> l → filter (λ x, f x ≠ t) l = l.
Proof.
  intros Hin. apply filter_all. intros x Hx Heq. apply Hin. rewrite <- Heq.
  by apply list_elem_of_fmap_2.
Qed.

(** The value of a call on a concrete input, for examples: [d] if it raised. *)
Definition ok_or {E A} (d : A) (m : result E A) : A :=
  match m with Ok a => a | Err _ => d end.

Lemma NoDup_fmap_filter {A B} (f : A → B) (P : A → Prop) `{∀ x, Decision (P x)} (l : list A) :
  NoDup (f <$> l) → NoDup (f <$> filter P l).
Proof.
  induction l as [|a l IH]; intros Hnd; [done|]. simpl in Hnd. apply NoDup_cons in Hnd as [Ha Hnd].
  rewrite filter_cons. case_decide; [|auto]. simpl. constructor; [|auto].
  intros (b & Hb & Hin)%list_elem_of_fmap. apply list_elem_of_filter in Hin as [_ Hin].
  apply Ha. rewrite Hb. by apply list_elem_of_fmap_2.
Qed.

(** ** Hints

    [auto with py] proves the side conditions the components meet over and
    over, signs of sums and counts and duplicate-free keys; [autorewrite with
    py] computes lookups, sums and texts. The other shared files add to it. *)
Create HintDb py discriminated.
#[export] Hint Resolve msum_nonneg mcount_nonneg mcount_le_size zsum_nonneg NoDup_fmap_filter : py.
#[export] Hint Rewrite @msum_empty @msum_size @get0_insert_eq zsum_app : py.
