(* ===== verification/PyLib.v ===== *)
(** The parts of the Python run time the modelled code calls: [str.strip],
    [sorted] on sets of strings, [max] and [min] with a key, [hashlib.sha256]
    and hexadecimal [int]. Python strings are represented by their UTF-8
    bytes, so code-point order is byte order ([String.leb]) and
    [str.encode("utf-8")] is the identity. *)
From stdpp Require Import pretty.
From S2P Require Import Prelude.

(** ** [str.strip] *)
Module Str.
(** [str.isspace] of a character of one byte: the separators 9-13, 28-31 and 32. *)
Definition is_space (c : Ascii.ascii) : bool :=
  let n := Ascii.nat_of_ascii c in
  ((9 <=? n) && (n <=? 13) || (28 <=? n) && (n <=? 32))%nat.

(** Of two bytes: U+0085 and U+00A0. *)
Definition is_space2 (c d : Ascii.ascii) : bool :=
  let n := Ascii.nat_of_ascii c in let m := Ascii.nat_of_ascii d in
  ((n =? 194) && ((m =? 133) || (m =? 160)))%nat.

(** Of three: U+1680, U+2000 to U+200A, U+2028, U+2029, U+202F, U+205F and U+3000. *)
Definition is_space3 (c d e : Ascii.ascii) : bool :=
  let n := Ascii.nat_of_ascii c in let m := Ascii.nat_of_ascii d in let k := Ascii.nat_of_ascii e in
  ((n =? 225) && (m =? 154) && (k =? 128)
   || (n =? 226) && (m =? 128) && ((128 <=? k) && (k <=? 138) || (k =? 168) || (k =? 169) || (k =? 175))
   || (n =? 226) && (m =? 129) && (k =? 159)
   || (n =? 227) && (m =? 128) && (k =? 128))%nat.

(** What follows the white space character the string begins with. *)
Definition after_space (s : string) : option string :=
  match s with
  | EmptyString => None
  | String c s1 =>
      if is_space c then Some s1
      else match s1 with
           | EmptyString => None
           | String d s2 =>
               if is_space2 c d then Some s2
               else match s2 with
                    | EmptyString => None
                    | String e s3 => if is_space3 c d e then Some s3 else None
                    end
           end
  end.

(** A single white space character. *)
Definition is_blank (s : string) : bool := bool_decide (after_space s = Some "").

Fixpoint lstrip (s : string) : string :=
  match s with
  | EmptyString => EmptyString
  | String c s1 =>
      if is_space c then lstrip s1
      else match s1 with
           | EmptyString => s
           | String d s2 =>
               if is_space2 c d then lstrip s2
               else match s2 with
                    | EmptyString => s
                    | String e s3 => if is_space3 c d e then lstrip s3 else s
                    end
           end
  end.

(** A character goes when all that is left behind it is itself and it is white space. *)
Fixpoint rstrip (s : string) : string :=
  match s with
  | EmptyString => EmptyString
  | String c s' => let r := String c (rstrip s') in if is_blank r then EmptyString else r
  end.

(** [s.strip()] *)
Definition strip (s : string) : string := lstrip (rstrip s).

Lemma after_space_spec s s' : after_space s = Some s' →
  ∃ p, s = p +:+ s' ∧ (String.length s' < String.length s)%nat ∧ ∃ c r, s = String c r.
Proof.
  unfold after_space. intros H. repeat case_match; simplify_eq.
  all: match goal with
    | |- ∃ p, String ?c ?s' = p +:+ ?s' ∧ _ => exists (String c "")
    | |- ∃ p, String ?c (String ?d ?s') = p +:+ ?s' ∧ _ => exists (String c (String d ""))
    | |- ∃ p, String ?c (String ?d (String ?e ?s')) = p +:+ ?s' ∧ _ => exists (String c (String d (String e "")))
    end; split; [done|]; split; [cbn; lia|by do 2 eexists].
Qed.

Lemma lstrip_eq s : lstrip s = match after_space s with Some s' => lstrip s' | None => s end.
Proof. destruct s as [|c s]; [done|]. unfold after_space. cbn [lstrip]. by repeat case_match. Qed.

Lemma lstrip_ind (P : string → Prop) :
  (∀ s, after_space s = None → P s) → (∀ s s', after_space s = Some s' → P s' → P s) → ∀ s, P s.
Proof.
  intros Hn Hs s. remember (String.length s) as n eqn:En. revert s En.
  induction (lt_wf n) as [n _ IH]; intros s ->. destruct (after_space s) as [s'|] eqn:E; [|by apply Hn].
  apply (Hs s s' E). destruct (after_space_spec _ _ E) as (p & _ & Hlt & _). by eapply IH.
Qed.

Lemma lstrip_idemp s : lstrip (lstrip s) = lstrip s.
Proof. induction s as [s E|s s' E IH] using lstrip_ind; rewrite (lstrip_eq s), E; [by rewrite lstrip_eq, E|done]. Qed.

Lemma rstrip_idemp s : rstrip (rstrip s) = rstrip s.
Proof. induction s as [|c s IH]; [done|]. cbn [rstrip]. destruct (is_blank _) eqn:E; [done|]. cbn [rstrip]. by rewrite IH, E. Qed.

Lemma rstrip_tail c s : rstrip (String c s) = String c s → rstrip s = s.
Proof. cbn [rstrip]. destruct (is_blank _); [done|]. by intros [= ->]. Qed.

Lemma rstrip_app p s : rstrip (p +:+ s) = p +:+ s → rstrip s = s.
Proof.
  induction p as [|c p IH]; [done|]. change (String c p +:+ s) with (String c (p +:+ s)). intros H. apply IH. by apply (rstrip_tail c).
Qed.

Lemma rstrip_lstrip s : rstrip s = s → rstrip (lstrip s) = lstrip s.
Proof.
  induction s as [s E|s s' E IH] using lstrip_ind; intros H; rewrite (lstrip_eq s), E; [done|]. apply IH.
  destruct (after_space_spec _ _ E) as (p & -> & _). by apply (rstrip_app p).
Qed.

Lemma strip_idemp s : strip (strip s) = strip s.
Proof.
  unfold strip. rewrite (rstrip_lstrip (rstrip s)) by apply rstrip_idemp. apply lstrip_idemp.
Qed.

(** A byte that neither is white space nor begins a white space character. *)
Definition solid (c : Ascii.ascii) : bool :=
  let n := Ascii.nat_of_ascii c in negb (is_space c) && negb ((n =? 194) || (n =? 225) || (n =? 226) || (n =? 227))%nat.

Lemma solid_no_space c s : solid c = true → after_space (String c s) = None.
Proof.
  unfold solid. intros [Hs Hn]%andb_true_iff. apply negb_true_iff in Hs, Hn. rewrite !orb_false_iff in Hn.
  destruct Hn as [[[H1 H2] H3] H4]. unfold after_space, is_space2, is_space3. rewrite Hs, H1, H2, H3, H4. cbn. by repeat case_match.
Qed.

Lemma rstrip_solid c s : solid c = true → rstrip s = s → rstrip (String c s) = String c s.
Proof. intros Hc Hs. cbn [rstrip]. unfold is_blank. rewrite Hs, solid_no_space by done. done. Qed.

Lemma strip_solid c s : solid c = true → rstrip s = s → strip (String c s) = String c s.
Proof. intros Hc Hs. unfold strip. rewrite rstrip_solid by done. by rewrite lstrip_eq, solid_no_space. Qed.

(** A non-breaking space goes at the ends and stays inside; U+200B is no white space. *)
Example strip_unicode :
  let nbsp := String (Ascii.ascii_of_nat 194) (String (Ascii.ascii_of_nat 160) "") in
  let ideographic := String (Ascii.ascii_of_nat 227) (String (Ascii.ascii_of_nat 128) (String (Ascii.ascii_of_nat 128) "")) in
  let zwsp := String (Ascii.ascii_of_nat 226) (String (Ascii.ascii_of_nat 128) (String (Ascii.ascii_of_nat 139) "")) in
  strip (nbsp +:+ " a" +:+ nbsp +:+ "b " +:+ ideographic +:+ nbsp) = "a" +:+ nbsp +:+ "b" ∧ strip (zwsp +:+ "a") = zwsp +:+ "a" ∧
  strip (nbsp +:+ ideographic) = "".
Proof. vm_compute. done. Qed.

(** Truth value of a string. *)
Definition truthy (s : string) : bool := negb (String.eqb s "").

Lemma truthy_ne s : truthy s = true ↔ s ≠ "".
Proof. unfold truthy. rewrite negb_true_iff. apply String.eqb_neq. Qed.

Definition to_lower_ascii (c : Ascii.ascii) : Ascii.ascii :=
  let n := Ascii.nat_of_ascii c in
  if ((65 <=? n) && (n <=? 90))%nat then Ascii.ascii_of_nat (n + 32) else c.

(** [s.lower()] on the ASCII range. *)
Fixpoint lower (s : string) : string :=
  match s with
  | EmptyString => EmptyString
  | String c s' => String (to_lower_ascii c) (lower s')
  end.
End Str.

(** ** [sorted] and sets of strings *)

(** [sorted(l)] on strings; the order is total and antisymmetric, so the
    result does not depend on stability. *)
Definition py_sorted (l : list string) : list string := merge_sort String.le l.

(** [tuple(sorted(set(l)))]. *)
Definition sorted_set (l : list string) : list string := py_sorted (remove_dups l).

Lemma elem_of_py_sorted x l : x ∈ py_sorted l ↔ x ∈ l.
Proof. unfold py_sorted. by rewrite (merge_sort_Permutation String.le l). Qed.

Lemma py_sorted_sorted l : StronglySorted String.le (py_sorted l).
Proof. apply (StronglySorted_merge_sort String.le). Qed.

Lemma py_sorted_perm l1 l2 : l1 ≡ₚ l2 → py_sorted l1 = py_sorted l2.
Proof.
  intros Hp. apply (StronglySorted_unique String.le); [apply py_sorted_sorted..|].
  unfold py_sorted. by rewrite !(merge_sort_Permutation String.le).
Qed.

Lemma elem_of_sorted_set x l : x ∈ sorted_set l ↔ x ∈ l.
Proof. unfold sorted_set. by rewrite elem_of_py_sorted, elem_of_remove_dups. Qed.

Lemma NoDup_sorted_set l : NoDup (sorted_set l).
Proof.
  unfold sorted_set, py_sorted. rewrite (merge_sort_Permutation String.le).
  apply NoDup_remove_dups.
Qed.

Lemma sorted_set_perm l : NoDup l → sorted_set l ≡ₚ l.
Proof.
  intros Hl. unfold sorted_set, py_sorted. rewrite (merge_sort_Permutation String.le).
  apply NoDup_Permutation; [apply NoDup_remove_dups|done|]. intros x. by rewrite elem_of_remove_dups.
Qed.

(** A sorted set depends on the elements only, not on their order or number. *)
Lemma sorted_set_ext l1 l2 : (∀ x, x ∈ l1 ↔ x ∈ l2) → sorted_set l1 = sorted_set l2.
Proof.
  intros Hl. apply py_sorted_perm. apply NoDup_Permutation; [apply NoDup_remove_dups..|].
  intros x. by rewrite !elem_of_remove_dups.
Qed.

Lemma sorted_set_idemp l : sorted_set (sorted_set l) = sorted_set l.
Proof. apply sorted_set_ext. intros x. by rewrite elem_of_sorted_set. Qed.

(** ** Lists *)

Lemma list_nil_iff {A} (l : list A) : l = [] ↔ ∀ x, x ∉ l.
Proof. destruct l as [|a l]; split; [intros _ x; apply not_elem_of_nil|done|done|]. intros H. by destruct (H a); left. Qed.

Lemma elem_of_Listfilter {A} (P : A → bool) (l : list A) x : x ∈ List.filter P l ↔ x ∈ l ∧ P x = true.
Proof. by rewrite list_elem_of_In, filter_In, <- list_elem_of_In. Qed.

#[export] Instance Listfilter_Permutation {A} (P : A → bool) : Proper ((≡ₚ) ==> (≡ₚ)) (List.filter P).
Proof.
  intros l1 l2. induction 1 as [|x l1 l2 _ IH|x y l|l1 l2 l3 _ IH1 _ IH2]; cbn [List.filter]; [done| | |by etransitivity].
  - destruct (P x); [by constructor|done].
  - destruct (P x), (P y); [constructor|done|done|done].
Qed.

Lemma StronglySorted_Listfilter {A} (R : relation A) P (l : list A) : StronglySorted R l → StronglySorted R (List.filter P l).
Proof.
  induction 1 as [|x l Hl IH Hx]; cbn [List.filter]; [constructor|]. destruct (P x); [|done].
  constructor; [done|]. rewrite Forall_forall in *. intros y [Hy _]%elem_of_Listfilter. by apply Hx.
Qed.

Lemma Listfilter_all {A} (P : A → bool) (l : list A) : (∀ x, x ∈ l → P x = true) → List.filter P l = l.
Proof.
  induction l as [|a l IH]; intros H; [done|]. cbn [List.filter]. rewrite (H a) by by left.
  f_equal. apply IH. intros x Hx. apply H. by right.
Qed.

Lemma filter_nil {A} (P : A → bool) (l : list A) : List.filter P l = [] ↔ ∀ x, x ∈ l → P x = false.
Proof.
  split.
  - intros H x Hx. destruct (P x) eqn:E; [|done]. assert (x ∈ List.filter P l) as Hin by by apply elem_of_Listfilter. rewrite H in Hin. by apply not_elem_of_nil in Hin.
  - intros H. apply list_nil_iff. intros x [Hx Hp]%elem_of_Listfilter. rewrite H in Hp; done.
Qed.

Lemma sorted_set_nil l : sorted_set l = [] ↔ l = [].
Proof. rewrite !list_nil_iff. by setoid_rewrite elem_of_sorted_set. Qed.

Lemma Listfilter_sublist {A} (P : A → bool) (l : list A) : List.filter P l `sublist_of` l.
Proof. induction l as [|a l IH]; cbn [List.filter]; [constructor|]. destruct (P a); by constructor. Qed.

Lemma NoDup_Listfilter (l : list string) (P : string → bool) : NoDup l → NoDup (List.filter P l).
Proof. rewrite !NoDup_ListNoDup. apply List.NoDup_filter. Qed.

Lemma NoDup_Listfilter_fmap {A B} (f : A → B) (P : A → bool) (l : list A) :
  NoDup (f <$> l) → NoDup (f <$> List.filter P l).
Proof.
  intros H. eapply sublist_NoDup; [exact H|]. apply fmap_sublist. clear H.
  induction l as [|x l IH]; simpl; [constructor|]. destruct (P x); by constructor.
Qed.

(** The pairs of elements in the order of two nested loops: for every [x],
    the elements after it. *)
Fixpoint pairs (l : list string) : list (string * string) :=
  match l with
  | [] => []
  | x :: l' => ((λ y, (x, y)) <$> l') ++ pairs l'
  end.

Lemma elem_of_pairs (l : list string) x y : NoDup l → x ≠ y → x ∈ l → y ∈ l → (x, y) ∈ pairs l ∨ (y, x) ∈ pairs l.
Proof.
  induction l as [|z l IH]; intros Hnd Hne Hx Hy; [by apply not_elem_of_nil in Hx|].
  apply NoDup_cons in Hnd as [_ Hnd]. cbn [pairs]. rewrite !elem_of_app.
  apply elem_of_cons in Hx as [->|Hx], Hy as [Hy|Hy].
  - congruence.
  - left. left. by apply (list_elem_of_fmap_2 (λ y, (z, y))).
  - subst z. right. left. by apply (list_elem_of_fmap_2 (λ z, (y, z))).
  - destruct (IH Hnd Hne Hx Hy); auto.
Qed.

Lemma pairs_elem_of (l : list string) x y : NoDup l → (x, y) ∈ pairs l → x ∈ l ∧ y ∈ l ∧ x ≠ y.
Proof.
  induction l as [|z l IH]; intros Hnd H; [by apply not_elem_of_nil in H|].
  apply NoDup_cons in Hnd as [Hz Hnd]. cbn [pairs] in H. apply elem_of_app in H as [H|H].
  - apply list_elem_of_fmap in H as (y' & [= -> ->] & Hy). split; [by left|]. split; [by right|].
    intros E. by rewrite E in Hz.
  - destruct (IH Hnd H) as (? & ? & ?). split; [by right|]. split; [by right|done].
Qed.

(** The pairs of [for i, x in enumerate(l): for y in l[i + 1:]]. *)
Fixpoint all_pairs {A} (l : list A) : list (A * A) :=
  match l with
  | [] => []
  | x :: l' => ((x,.) <$> l') ++ all_pairs l'
  end.

Lemma elem_of_all_pairs {A} (l : list A) x y : (x, y) ∈ all_pairs l ↔ ∃ i j, (i < j)%nat ∧ l !! i = Some x ∧ l !! j = Some y.
Proof.
  induction l as [|z l IH]; cbn [all_pairs].
  - split; [by intros H%not_elem_of_nil|]. by intros (i & j & _ & H & _).
  - rewrite elem_of_app, list_elem_of_fmap, IH. split.
    + intros [(w & [= <- <-] & (j & Hj)%list_elem_of_lookup)|(i & j & Hij & Hi & Hj)].
      * exists 0%nat, (S j). split; [lia|]. done.
      * exists (S i), (S j). split; [lia|]. done.
    + intros ([|i] & [|j] & Hij & Hi & Hj); [lia| |lia|].
      * left. injection Hi as <-. exists y. split; [done|]. by eapply list_elem_of_lookup_2.
      * right. exists i, j. split; [lia|]. done.
Qed.

(** ** Dicts in insertion order: the lists of their items *)

Definition dget {V} (k : string) (d : list (string * V)) : option V :=
  snd <$> List.find (λ kv, String.eqb kv.1 k) d.
Fixpoint dput {V} (k : string) (v : V) (d : list (string * V)) : list (string * V) :=
  match d with
  | [] => [(k, v)]
  | (k', v') :: d' => if String.eqb k' k then (k, v) :: d' else (k', v') :: dput k v d'
  end.
Definition ddel {V} (k : string) (d : list (string * V)) : list (string * V) :=
  List.filter (λ kv, negb (String.eqb kv.1 k)) d.
#[global] Arguments dget : simpl never.
#[global] Arguments ddel : simpl never.

Section Dict.
Context {V : Type}.
Implicit Types d : list (string * V).

Lemma dget_nil k : dget (V:=V) k [] = None.
Proof. done. Qed.

Lemma dget_cons k k' (v : V) d : dget k ((k', v) :: d) = if decide (k' = k) then Some v else dget k d.
Proof. unfold dget. cbn [List.find fst]. destruct (String.eqb_spec k' k), (decide (k' = k)); done. Qed.

Lemma dget_None k d : dget k d = None ↔ k ∉ d.*1.
Proof.
  induction d as [|[k' v] d IH]; [split; [intros _; apply not_elem_of_nil|done]|].
  rewrite dget_cons, fmap_cons, not_elem_of_cons. cbn [fst]. case_decide; [naive_solver|]. rewrite IH. naive_solver.
Qed.

Lemma dget_Some_elem k d v : dget k d = Some v → k ∈ d.*1.
Proof. intros H. destruct (decide (k ∈ d.*1)) as [|Hn]; [done|]. apply dget_None in Hn. congruence. Qed.

Lemma dput_new k v d : k ∉ d.*1 → dput k v d = d ++ [(k, v)].
Proof.
  induction d as [|[k' v'] d IH]; intros H; [done|]. rewrite fmap_cons in H. apply not_elem_of_cons in H as [Hne H].
  cbn [dput]. rewrite (proj2 (String.eqb_neq _ _)) by (intros <-; done). by rewrite IH.
Qed.

Lemma dget_snoc k k' v d : k' ∉ d.*1 → dget k (d ++ [(k', v)]) = if decide (k = k') then Some v else dget k d.
Proof.
  intros H. induction d as [|[k2 v2] d IH].
  - cbn [app]. rewrite dget_cons. repeat case_decide; naive_solver.
  - rewrite fmap_cons in H. apply not_elem_of_cons in H as [Hne H]. cbn [app fst] in *. rewrite !dget_cons, IH by done.
    repeat case_decide; naive_solver.
Qed.

Lemma dget_app k (d e : list (string * V)) : dget k (d ++ e) = match dget k d with Some v => Some v | None => dget k e end.
Proof. induction d as [|[k' v] d IH]; [done|]. change (((k', v) :: d) ++ e) with ((k', v) :: (d ++ e)). rewrite !dget_cons. by destruct (decide _). Qed.

Lemma dget_del k k' d : dget k (ddel k' d) = if decide (k = k') then None else dget k d.
Proof.
  induction d as [|[k2 v2] d IH]; [by case_decide|]. unfold ddel. cbn [List.filter fst].
  destruct (String.eqb_spec k2 k') as [->|Hne]; cbn [negb]; fold (ddel k' d); rewrite ?dget_cons, IH;
    repeat case_decide; naive_solver.
Qed.

Lemma ddel_keys k d : (ddel k d).*1 = List.filter (λ i, negb (String.eqb i k)) d.*1.
Proof.
  induction d as [|[k2 v2] d IH]; [done|]. unfold ddel. cbn [List.filter fst fmap list_fmap].
  destruct (String.eqb k2 k); cbn [negb fmap list_fmap fst]; fold (ddel k d); by rewrite <- IH.
Qed.

Lemma length_ddel k d : (length (ddel k d) <= length d)%nat.
Proof. unfold ddel. induction d as [|x d IH]; [done|]. cbn [List.filter]. destruct (negb _); cbn [length]; lia. Qed.

Lemma dget_put k k' v d : dget k (dput k' v d) = if decide (k = k') then Some v else dget k d.
Proof.
  induction d as [|[k2 v2] d IH]; cbn [dput].
  - rewrite dget_cons. repeat case_decide; naive_solver.
  - destruct (String.eqb_spec k2 k') as [->|Hne]; rewrite !dget_cons, ?IH; repeat case_decide; naive_solver.
Qed.

Lemma dget_put_eq k v d : dget k (dput k v d) = Some v.
Proof. rewrite dget_put. by rewrite decide_True. Qed.

Lemma dget_put_ne k k' v d : k ≠ k' → dget k (dput k' v d) = dget k d.
Proof. intros. rewrite dget_put. by rewrite decide_False. Qed.

Lemma dget_Some_pair k d v : dget k d = Some v → (k, v) ∈ d.
Proof.
  unfold dget. intros H. apply fmap_Some in H as ([k' v'] & Hf & ->). apply find_some in Hf as [Hin Heq].
  apply String.eqb_eq in Heq. cbn in Heq. subst k'. by apply list_elem_of_In.
Qed.

Lemma elem_of_dget k v d : NoDup d.*1 → (k, v) ∈ d → dget k d = Some v.
Proof.
  induction d as [|[k' v'] d IH]; intros Hnd Hin; [by apply not_elem_of_nil in Hin|].
  rewrite fmap_cons in Hnd. apply NoDup_cons in Hnd as [Hk Hnd]. rewrite dget_cons.
  apply elem_of_cons in Hin as [[= -> ->]|Hin]; [by rewrite decide_True|].
  rewrite decide_False; [by apply IH|]. intros ->. apply Hk. by apply (list_elem_of_fmap_2 fst _ (k, v)).
Qed.

Lemma dput_keys k v d i : i ∈ (dput k v d).*1 ↔ i = k ∨ i ∈ d.*1.
Proof.
  induction d as [|[k' v'] d IH]; cbn [dput fmap list_fmap fst]; [rewrite list_elem_of_singleton, elem_of_nil; naive_solver|].
  destruct (String.eqb_spec k' k) as [->|Hne]; cbn [fmap list_fmap fst]; rewrite ?elem_of_cons, ?IH; naive_solver.
Qed.

Lemma dput_NoDup k v d : NoDup d.*1 → NoDup (dput k v d).*1.
Proof.
  induction d as [|[k' v'] d IH]; cbn [dput fmap list_fmap fst]; intros Hnd; [apply NoDup_singleton|].
  apply NoDup_cons in Hnd as [Hk Hnd]. destruct (String.eqb_spec k' k) as [->|Hne]; cbn [fmap list_fmap fst]; constructor; auto.
  rewrite dput_keys. naive_solver.
Qed.

Lemma dget_perm d e k : NoDup d.*1 → d ≡ₚ e → dget k d = dget k e.
Proof.
  intros Hnd Hp. assert (NoDup e.*1) as Hnd' by by rewrite <- Hp.
  destruct (dget k d) as [v|] eqn:E.
  - apply dget_Some_pair in E. symmetry. apply elem_of_dget; [done|]. by rewrite <- Hp.
  - apply dget_None in E. symmetry. apply dget_None. by rewrite <- Hp.
Qed.

(** [dict(sorted(d.items()))] *)
Definition sort_dict d : list (string * V) := omap (λ k, (λ v, (k, v)) <$> dget k d) (py_sorted d.*1).

Lemma sort_dict_keys d : (sort_dict d).*1 = py_sorted d.*1.
Proof.
  unfold sort_dict. assert (∀ k, k ∈ py_sorted d.*1 → is_Some (dget k d)) as Hin.
  { intros k Hk. rewrite elem_of_py_sorted in Hk. destruct (dget k d) as [v|] eqn:E; [by exists v|]. by apply dget_None in E. }
  induction (py_sorted d.*1) as [|k l IH]; [done|]. destruct (Hin k ltac:(by left)) as [v Hv]. cbn [omap list_omap]. rewrite Hv. cbn [fmap option_fmap option_map list_fmap fst].
  f_equal. apply IH. intros k' Hk'. apply Hin. by right.
Qed.

Lemma sort_dict_NoDup d : NoDup d.*1 → NoDup (sort_dict d).*1.
Proof. intros Hnd. rewrite sort_dict_keys. unfold py_sorted. by rewrite merge_sort_Permutation. Qed.

Lemma dget_sort_dict k d : NoDup d.*1 → dget k (sort_dict d) = dget k d.
Proof.
  intros Hnd. destruct (dget k d) as [v|] eqn:E.
  - apply elem_of_dget; [by apply sort_dict_NoDup|]. unfold sort_dict. apply list_elem_of_omap. exists k.
    split; [apply elem_of_py_sorted; by eapply dget_Some_elem|]. by rewrite E.
  - apply dget_None. rewrite sort_dict_keys, elem_of_py_sorted. by apply dget_None.
Qed.
End Dict.

Lemma ddel_snoc {V} k (v : V) d : k ∉ d.*1 → ddel k (d ++ [(k, v)]) = d.
Proof.
  intros H. unfold ddel. rewrite List.filter_app. cbn. rewrite String.eqb_refl. cbn. rewrite app_nil_r. apply Listfilter_all. intros [k' v'] Hin. cbn.
  apply negb_true_iff, String.eqb_neq. intros ->. apply H. apply list_elem_of_fmap. by exists (k, v').
Qed.

Lemma dput_same {V} k (v : V) d : dget k d = Some v → dput k v d = d.
Proof.
  induction d as [|[k' w] d IH]; [done|]. rewrite dget_cons. cbn [dput]. destruct (decide (k' = k)) as [->|Hne].
  - intros [= ->]. by rewrite String.eqb_refl.
  - intros H. rewrite (proj2 (String.eqb_neq _ _) Hne). by rewrite IH.
Qed.

Lemma dget_filter_key {V} (P : string → bool) k (d : list (string * V)) : dget k (List.filter (λ kv, P kv.1) d) = if P k then dget k d else None.
Proof.
  induction d as [|[k' v] d IH]; [by destruct (P k)|]. cbn [List.filter fst]. destruct (P k') eqn:Ep; rewrite ?dget_cons, IH; destruct (decide (k' = k)) as [->|]; by rewrite ?Ep.
Qed.

Lemma dget_app_some {V} k (d e : list (string * V)) : dget k d ≠ None → dget k (d ++ e) = dget k d.
Proof. rewrite dget_app. by destruct (dget k d). Qed.

Lemma dget_app_none {V} k (d e : list (string * V)) : dget k d = None → dget k (d ++ e) = dget k e.
Proof. rewrite dget_app. by intros ->. Qed.

Lemma ddel_app {V} k (d e : list (string * V)) : ddel k (d ++ e) = ddel k d ++ ddel k e.
Proof. unfold ddel. apply List.filter_app. Qed.

Lemma ddel_none {V} k (d : list (string * V)) : dget k d = None → ddel k d = d.
Proof.
  intros H%dget_None. unfold ddel. apply Listfilter_all. intros [k' v] Hin. cbn. apply negb_true_iff, String.eqb_neq. intros ->. apply H. apply list_elem_of_fmap. by exists (k, v).
Qed.

Lemma dput_app {V} k (v : V) d e : dget k d ≠ None → dput k v (d ++ e) = dput k v d ++ e.
Proof.
  induction d as [|[k' w] d IH]; [done|]. rewrite dget_cons. intros H. cbn [app dput]. destruct (String.eqb_spec k' k) as [->|Hne]; [done|]. rewrite decide_False in H by done. cbn. by rewrite IH.
Qed.

Lemma dput_keys_same {V} k (v : V) d : dget k d ≠ None → ∀ i, dget i (dput k v d) = None ↔ dget i d = None.
Proof. intros H i. rewrite dget_put. destruct (decide (i = k)) as [->|]; [|done]. split; [done|]. by intros E. Qed.

Lemma dput_dput {V} k (v w : V) d : dput k v (dput k w d) = dput k v d.
Proof. induction d as [|[k' u] d IH]; cbn [dput]; [by rewrite String.eqb_refl|]. destruct (String.eqb k' k) eqn:E; cbn [dput]; rewrite ?String.eqb_refl, ?E; [done|]. by rewrite IH. Qed.

Lemma dget_map {V W} (f : V → W) k (d : list (string * V)) : dget k ((λ kv, (kv.1, f kv.2)) <$> d) = f <$> dget k d.
Proof.
  induction d as [|[k' v] d IH]; [done|]. rewrite fmap_cons. cbn [fst snd]. rewrite !dget_cons. by destruct (decide (k' = k)).
Qed.
Lemma map_keys {V W} (f : V → W) (d : list (string * V)) : ((λ kv, (kv.1, f kv.2)) <$> d).*1 = d.*1.
Proof. rewrite <- list_fmap_compose. by apply list_fmap_ext. Qed.
(** ** Sums over the values of a dict *)

Definition dsum {V} (f : V → Z) (d : list (string * V)) : Z := zsum (f <$> d.*2).
Definition dval {V} (f : V → Z) (k : string) (d : list (string * V)) : Z := match dget k d with Some v => f v | None => 0%Z end.

Lemma dsum_nonneg {V} (f : V → Z) d : (∀ v, 0 <= f v)%Z → (0 <= dsum f d)%Z.
Proof. intros Hf. apply zsum_nonneg, Forall_fmap, Forall_true. intros v. apply Hf. Qed.
Lemma dsum_cons {V} (f : V → Z) k v d : dsum f ((k, v) :: d) = (f v + dsum f d)%Z.
Proof. done. Qed.
Lemma dsum_del {V} (f : V → Z) k d : NoDup d.*1 → dsum f (ddel k d) = (dsum f d - dval f k d)%Z.
Proof.
  unfold dval. induction d as [|[k' v] d IH]; intros Hd; [done|]. rewrite fmap_cons in Hd. apply NoDup_cons in Hd as [Hk Hd]. cbn [fst] in Hk.
  rewrite dget_cons. unfold ddel in *. cbn [List.filter fst]. destruct (String.eqb_spec k' k) as [->|Hne]; cbn [negb].
  - rewrite decide_True by done. rewrite IH by done. rewrite (proj2 (dget_None k d)) by done. rewrite dsum_cons. lia.
  - rewrite decide_False by done. rewrite !dsum_cons, IH by done. lia.
Qed.
Lemma dsum_put {V} (f : V → Z) k v d : NoDup d.*1 → dsum f (dput k v d) = (dsum f d - dval f k d + f v)%Z.
Proof.
  unfold dval. induction d as [|[k' w] d IH]; intros Hd; [cbn [dput]; rewrite dget_nil, dsum_cons; lia|]. rewrite fmap_cons in Hd. apply NoDup_cons in Hd as [Hk Hd]. cbn [fst] in Hk.
  cbn [dput]. rewrite dget_cons. destruct (String.eqb_spec k' k) as [->|Hne].
  - rewrite decide_True by done. rewrite !dsum_cons. lia.
  - rewrite decide_False by done. rewrite !dsum_cons, IH by done. lia.
Qed.
Lemma dsum_one {V} (d : list (string * V)) : dsum (λ _, 1%Z) d = Z.of_nat (length d).
Proof. induction d as [|[k v] d IH]; [done|]. rewrite dsum_cons, IH. cbn [length]. lia. Qed.

Lemma Listfind_none {A} (f : A → bool) l : List.find f l = None ↔ ∀ x, x ∈ l → f x = false.
Proof.
  split; [intros H x Hx; by apply (List.find_none _ _ H), list_elem_of_In|]. intros H. destruct (List.find f l) as [x|] eqn:E; [|done].
  apply List.find_some in E as [Hin E]. rewrite H in E; [done|by apply list_elem_of_In].
Qed.

Lemma Listfind_last {A} (f : A → bool) l x : (∀ y, y ∈ l → f y = false) → f x = true → List.find f (l ++ [x]) = Some x.
Proof.
  intros Hl Hx. induction l as [|y l IH]; cbn [app List.find]; [by rewrite Hx|]. rewrite (Hl y) by by left. apply IH. intros z Hz. apply Hl. by right.
Qed.

#[export] Hint Resolve dput_NoDup NoDup_sorted_set NoDup_Listfilter NoDup_Listfilter_fmap : py.
#[export] Hint Rewrite @dget_nil @dget_put_eq sorted_set_idemp : py.

(** ** [max(xs, key=...)]: the first element no later one beats. *)
Section py_max.
Context {A : Type} (gt : A → A → bool).

Fixpoint py_max_from (best : A) (l : list A) : A :=
  match l with
  | [] => best
  | x :: l' => py_max_from (if gt x best then x else best) l'
  end.

(** [None] is the [ValueError] of an empty argument. *)
Definition py_max (l : list A) : option A :=
  match l with
  | [] => None
  | x :: l' => Some (py_max_from x l')
  end.

Lemma py_max_from_elem best l : py_max_from best l = best ∨ py_max_from best l ∈ l.
Proof.
  revert best. induction l as [|x l IH]; intros best; simpl; [by left|].
  destruct (IH (if gt x best then x else best)) as [H|H].
  - rewrite H. destruct (gt x best); [right; by left|by left].
  - right. by right.
Qed.

Lemma py_max_elem l x : py_max l = Some x → x ∈ l.
Proof.
  destruct l as [|y l]; simpl; [done|]. intros [= <-].
  destruct (py_max_from_elem y l) as [->|?]; [by left|by right].
Qed.

Lemma py_max_None l : py_max l = None ↔ l = [].
Proof. destruct l; simpl; naive_solver. Qed.

(** With a strict weak order, nothing beats the result. *)
Context (gt_trans : ∀ x y z, gt x y = true → gt z y = false → gt z x = false)
        (gt_ntrans : ∀ x y z, gt x y = false → gt y z = false → gt x z = false)
        (gt_irrefl : ∀ x, gt x x = false).

Lemma py_max_from_ge best l y :
  y ∈ best :: l → gt y (py_max_from best l) = false.
Proof.
  revert best y. induction l as [|x l IH]; intros best y Hy; simpl.
  - rewrite list_elem_of_singleton in Hy. subst y. apply gt_irrefl.
  - assert (gt (if gt x best then x else best)
               (py_max_from (if gt x best then x else best) l) = false) as Hb.
    { apply IH. by left. }
    apply elem_of_cons in Hy as [->|Hy]; [|apply elem_of_cons in Hy as [->|Hy]].
    + destruct (gt x best) eqn:E; [|done].
      apply (gt_ntrans _ x); [|done]. by apply (gt_trans _ best).
    + destruct (gt x best) eqn:E; [done|]. by apply (gt_ntrans _ best).
    + apply IH. by right.
Qed.

Lemma py_max_ge l x y : py_max l = Some x → y ∈ l → gt y x = false.
Proof. destruct l; simpl; [done|]. intros [= <-]. apply py_max_from_ge. Qed.
End py_max.

(** ** [hashlib.sha256] (FIPS 180-4) *)
Module Sha256.
Local Open Scope Z_scope.

Definition w32 (x : Z) : Z := Z.land x 0xffffffff.
Definition add32 (x y : Z) : Z := w32 (x + y).
Definition rotr (n x : Z) : Z := w32 (Z.lor (Z.shiftr x n) (Z.shiftl x (32 - n))).
Definition xor3 (x y z : Z) : Z := Z.lxor x (Z.lxor y z).
Definition ch (x y z : Z) : Z := Z.lxor (Z.land x y) (Z.land (Z.lxor x 0xffffffff) z).
Definition maj (x y z : Z) : Z := xor3 (Z.land x y) (Z.land x z) (Z.land y z).
Definition Sigma0 (x : Z) : Z := xor3 (rotr 2 x) (rotr 13 x) (rotr 22 x).
Definition Sigma1 (x : Z) : Z := xor3 (rotr 6 x) (rotr 11 x) (rotr 25 x).
Definition sigma0 (x : Z) : Z := xor3 (rotr 7 x) (rotr 18 x) (Z.shiftr x 3).
Definition sigma1 (x : Z) : Z := xor3 (rotr 17 x) (rotr 19 x) (Z.shiftr x 10).

(** The round constants and the initial state, from the standard's definition:
    the first 32 bits of the fractional parts of the cube and square roots of
    the first primes. *)
Definition is_prime (n : nat) : bool :=
  forallb (λ d, negb (n mod d =? 0)%nat) (seq 2 (n - 2)).
Definition primes : list Z :=
  Eval vm_compute in map Z.of_nat (List.filter is_prime (seq 2 310)).
(** The largest [r] with [r ^ 3 <= x], bit by bit from bit [n]. *)
Fixpoint cube_root (n : nat) (r x : Z) : Z :=
  match n with
  | O => r
  | S n' =>
      let r' := r + Z.shiftl 1 (Z.of_nat n') in
      cube_root n' (if r' * r' * r' <=? x then r' else r) x
  end.
Definition K : list Z :=
  Eval vm_compute in map (λ p, w32 (cube_root 40 0 (Z.shiftl p 96))) primes.
Definition H0 : list Z :=
  Eval vm_compute in map (λ p, w32 (Z.sqrt (Z.shiftl p 64))) (take 8 primes).

(** Big-endian bytes of the low [n] bytes of [x]. *)
Fixpoint be_bytes (n : nat) (x : Z) : list Z :=
  match n with
  | O => []
  | S n' => Z.land (Z.shiftr x (8 * Z.of_nat n')) 255 :: be_bytes n' x
  end.

Definition be_word (bs : list Z) : Z := foldl (λ acc b, Z.lor (Z.shiftl acc 8) b) 0 bs.

Definition pad (msg : list Z) : list Z :=
  let len := length msg in
  let zeros := ((119 - len mod 64) mod 64)%nat in
  msg ++ [0x80] ++ replicate zeros 0 ++ be_bytes 8 (8 * Z.of_nat len).

(** Splits into chunks of [n] elements; [fuel] at least the length is enough. *)
Fixpoint chunks (fuel n : nat) (l : list Z) : list (list Z) :=
  match fuel, l with
  | S fuel', _ :: _ => take n l :: chunks fuel' n (drop n l)
  | _, _ => []
  end.

(** The message schedule, most recent word first. *)
Fixpoint extend (n : nat) (ws : list Z) : list Z :=
  match n with
  | O => ws
  | S n' =>
      let w i := nth i ws 0 in
      extend n' (w32 (sigma1 (w 1%nat) + w 6%nat + sigma0 (w 14%nat) + w 15%nat) :: ws)
  end.

Definition round (st : list Z) (kw : Z * Z) : list Z :=
  match st with
  | [a; b; c; d; e; f; g; h] =>
      let t1 := w32 (h + Sigma1 e + ch e f g + kw.1 + kw.2) in
      let t2 := w32 (Sigma0 a + maj a b c) in
      [add32 t1 t2; a; b; c; add32 d t1; e; f; g]
  | _ => st
  end.

Definition compress (st : list Z) (block : list Z) : list Z :=
  let w0 := map be_word (chunks 64 4 block) in
  let ws := rev (extend 48 (rev w0)) in
  zip_with add32 st (foldl round st (zip K ws)).

Definition sha256 (msg : list Z) : list Z :=
  let p := pad msg in
  mjoin (map (be_bytes 4) (foldl compress H0 (chunks (length p) 64 p))).

Definition bytes_of_string (s : string) : list Z :=
  map (λ c, Z.of_N (Ascii.N_of_ascii c)) (String.list_ascii_of_string s).

Definition hex_digit (d : Z) : Ascii.ascii :=
  Ascii.ascii_of_N (Z.to_N (if d <? 10 then 48 + d else 87 + d)).

Definition hex_bytes (bs : list Z) : string :=
  String.string_of_list_ascii (mjoin (map (λ b, [hex_digit (Z.shiftr b 4); hex_digit (Z.land b 15)]) bs)).

(** [hashlib.sha256(s.encode("utf-8")).hexdigest()] *)
Definition hexdigest (s : string) : string := hex_bytes (sha256 (bytes_of_string s)).

Definition hex_value (c : Ascii.ascii) : Z :=
  let n := Z.of_N (Ascii.N_of_ascii c) in
  if n <? 58 then n - 48 else n - 87.

(** [int(s, 16)] on a string of lower-case hexadecimal digits. *)
Definition int16 (s : string) : Z :=
  foldl (λ acc c, 16 * acc + hex_value c) 0 (String.list_ascii_of_string s).

(** The first two hexadecimal digits of a digest spell one byte. *)
Lemma be_bytes_byte n x : Forall (λ b, 0 <= b <= 255) (be_bytes n x).
Proof.
  induction n as [|n IH]; simpl; constructor; [|done].
  assert (255 = Z.ones 8) as -> by done. rewrite Z.land_ones by lia. change (Z.ones 8) with 255.
  pose proof (Z.mod_pos_bound (Z.shiftr x (8 * Z.of_nat n)) (2 ^ 8)). lia.
Qed.

Lemma int16_first_byte bs :
  Forall (λ b, 0 <= b <= 255) bs → 0 <= int16 (String.substring 0 2 (hex_bytes bs)) <= 255.
Proof.
  intros H. destruct H as [|b bs Hb _]; [vm_compute; split; discriminate|].
  assert (int16 (String.substring 0 2 (hex_bytes (b :: bs))) = int16 (hex_bytes [b])) as ->.
  { unfold hex_bytes. simpl. destruct (String.string_of_list_ascii _); reflexivity. }
  assert (Forall (λ b, 0 <= int16 (hex_bytes [b]) <= 255) (seqZ 0 256)) as Hall.
  { apply (bool_decide_unpack _). vm_compute. exact I. }
  rewrite Forall_forall in Hall. apply Hall. apply elem_of_seqZ. lia.
Qed.

Lemma sha256_bytes msg : Forall (λ b, 0 <= b <= 255) (sha256 msg).
Proof.
  unfold sha256. generalize (foldl compress H0 (chunks (length (pad msg)) 64 (pad msg))).
  intros l. induction l as [|x l IH]; [constructor|].
  change (mjoin (map (be_bytes 4) (x :: l))) with (be_bytes 4 x ++ mjoin (map (be_bytes 4) l)).
  apply Forall_app. split; [apply be_bytes_byte|done].
Qed.

Lemma round_length st kw : length st = 8%nat → length (round st kw) = 8%nat.
Proof. intros H. unfold round. by repeat case_match. Qed.

Lemma compress_length st block : length st = 8%nat → length (compress st block) = 8%nat.
Proof.
  intros H. unfold compress. rewrite length_zip_with.
  assert (∀ l, length (foldl round st l) = 8%nat) as ->; [|by rewrite H].
  intros l. revert st H. induction l as [|kw l IH]; intros st H; [done|]. cbn [foldl]. by apply IH, round_length.
Qed.

Lemma sha256_length msg : length (sha256 msg) = 32%nat.
Proof.
  unfold sha256. assert (∀ l, length (foldl compress H0 l) = 8%nat) as Hl.
  { intros l. assert (length H0 = 8%nat) as H by done. revert H. generalize H0.
    induction l as [|b l IH]; intros st H; [done|]. cbn [foldl]. by apply IH, compress_length. }
  specialize (Hl (chunks (length (pad msg)) 64 (pad msg))). destruct (foldl compress H0 _) as [|a [|b [|c [|d [|e [|f [|g [|h [|]]]]]]]]]; done.
Qed.

Lemma hexdigest_ne s : hexdigest s ≠ "".
Proof. unfold hexdigest. pose proof (sha256_length (bytes_of_string s)) as Hl. destruct (sha256 _) as [|b l]; [discriminate Hl|]. done. Qed.

Example sha256_empty :
  hexdigest "" = "e3b0c44298fc1c149afbf4c8996fb92427ae41e4649b934ca495991b7852b855".
Proof. vm_compute. reflexivity. Qed.

Example sha256_abc :
  hexdigest "abc" = "ba7816bf8f01cfea414140de5dae2223b00361a396177a9cb410ff61f20015ad".
Proof. vm_compute. reflexivity. Qed.

Example sha256_two_blocks :
  hexdigest "abcdbcdecdefdefgefghfghighijhijkijkljklmklmnlmnomnopnopq"
  = "248d6a61d20638b8e5c026930c3e6039a33ce45964ff2167f6ecedd419db06c1".
Proof. vm_compute. reflexivity. Qed.
End Sha256.

(** ** [json.dumps] with sorted keys and compact separators

    The documents the modelled code canonicalises hold strings, integers,
    booleans, nulls, lists, objects and, for times, floats; [Float z] is the
    float of the integer [z], whose [repr] below [10^16] is [z.0]. *)
Module Json.
Inductive json : Type :=
| Null
| Bool (b : bool)
| Int (z : Z)
| Float (z : Z)
| Str (s : string)
| List (l : list json)
| Obj (fields : list (string * json)).

Definition hex4 (n : N) : string :=
  "\u" +:+ Sha256.hex_bytes [Z.of_N (n / 256); Z.of_N (n mod 256)].

(** A code point above the basic plane is escaped as a surrogate pair. *)
Definition escape_unicode (n : N) : string :=
  if (n <? 0x10000)%N then hex4 n
  else let m := (n - 0x10000)%N in
       hex4 (0xd800 + m / 1024)%N +:+ hex4 (0xdc00 + m mod 1024)%N.

Definition quote_char : Ascii.ascii := Ascii.ascii_of_nat 34.

(** The escapes of one ASCII character; [None]: printed as it is. *)
Definition escape_ascii (n : N) : option string :=
  let bs c := String (Ascii.ascii_of_nat 92) (String c EmptyString) in
  if (n =? 34)%N then Some (bs quote_char)
  else if (n =? 92)%N then Some (bs (Ascii.ascii_of_nat 92))
  else if (n =? 10)%N then Some (bs (Ascii.ascii_of_nat 110))
  else if (n =? 13)%N then Some (bs (Ascii.ascii_of_nat 114))
  else if (n =? 9)%N then Some (bs (Ascii.ascii_of_nat 116))
  else if (n =? 12)%N then Some (bs (Ascii.ascii_of_nat 102))
  else if (n =? 8)%N then Some (bs (Ascii.ascii_of_nat 98))
  else if (n <? 32)%N then Some (hex4 n)
  else None.

(** The rest of a UTF-8 sequence of [k] more bytes, decoded into [acc]. *)
Fixpoint decode_tail (k : nat) (acc : N) (s : string) : N * string :=
  match k, s with
  | S k', String c s' => decode_tail k' (acc * 64 + N.land (Ascii.N_of_ascii c) 63)%N s'
  | _, _ => (acc, s)
  end.

(** [encode_basestring_ascii]; the fuel is the number of bytes. *)
Fixpoint escape_all_ascii (fuel : nat) (s : string) : string :=
  match fuel, s with
  | S fuel', String c s' =>
      let n := Ascii.N_of_ascii c in
      match escape_ascii n with
      | Some e => e +:+ escape_all_ascii fuel' s'
      | None =>
          if (n <? 127)%N then String c (escape_all_ascii fuel' s')
          else if (n =? 127)%N then hex4 n +:+ escape_all_ascii fuel' s'
          else
            let '(cp, rest) :=
              if (n <? 0xe0)%N then decode_tail 1 (N.land n 31) s'
              else if (n <? 0xf0)%N then decode_tail 2 (N.land n 15) s'
              else decode_tail 3 (N.land n 7) s' in
            escape_unicode cp +:+ escape_all_ascii fuel' rest
      end
  | _, _ => EmptyString
  end.

(** [encode_basestring]: everything else is printed as it is. *)
Fixpoint escape_controls (s : string) : string :=
  match s with
  | EmptyString => EmptyString
  | String c s' =>
      match escape_ascii (Ascii.N_of_ascii c) with
      | Some e => e +:+ escape_controls s'
      | None => String c (escape_controls s')
      end
  end.

Definition quote (ensure_ascii : bool) (s : string) : string :=
  let q := String quote_char EmptyString in
  q +:+ (if ensure_ascii then escape_all_ascii (String.length s) s else escape_controls s) +:+ q.

Definition key_le (x y : string * string) : Prop := String.le x.1 y.1.
#[export] Instance key_le_dec x y : Decision (key_le x y) := _.

Fixpoint join (l : list string) : string :=
  match l with
  | [] => EmptyString
  | [x] => x
  | x :: l' => x +:+ "," +:+ join l'
  end.

Fixpoint dumps (ensure_ascii : bool) (v : json) : string :=
  match v with
  | Null => "null"
  | Bool b => if b then "true" else "false"
  | Int z => pretty z
  | Float z => pretty z +:+ ".0"
  | Str s => quote ensure_ascii s
  | List l => "[" +:+ join (map (dumps ensure_ascii) l) +:+ "]"
  | Obj fields =>
      let items := map (λ '(k, v), (k, dumps ensure_ascii v)) fields in
      "{" +:+ join ((λ '(k, v), quote ensure_ascii k +:+ ":" +:+ v) <$> merge_sort key_le items) +:+ "}"
  end.

Example dumps_example :
  dumps true (Obj [("b", List [Int (-3); Null]); ("a", Str "x")]) =
  "{" +:+ quote true "a" +:+ ":" +:+ quote true "x" +:+ "," +:+ quote true "b" +:+ ":[-3,null]}".
Proof. vm_compute. reflexivity. Qed.

(** The four-byte UTF-8 form of U+1F600 and the two-byte form of U+00E9. *)
Example dumps_unicode :
  escape_all_ascii 9 (String.string_of_list_ascii (map Ascii.ascii_of_nat [240; 159; 152; 128; 195; 169]))
  = "\ud83d\ude00\u00e9".
Proof. vm_compute. reflexivity. Qed.
End Json.
