(* ===== verification/PyText.v ===== *)
(** More of the Python run time: the [str] methods that cut and join text,
    [posixpath.normpath], and truth, [str] and [float] of the values JSON
    documents are made of, over the same representation as [PyLib]. *)
From stdpp Require Import pretty.
From S2P Require Import Prelude PyLib.

Module Text.
(** [sep.join(l)] *)
Fixpoint join (sep : string) (l : list string) : string :=
  match l with
  | [] => ""
  | [x] => x
  | x :: l' => x +:+ sep +:+ join sep l'
  end.

(** [s.split(c)] for one character: one piece more than there are separators. *)
Fixpoint split_on (c : Ascii.ascii) (s : string) : list string :=
  match s with
  | EmptyString => [""]
  | String d s' =>
      match split_on c s' with
      | [] => []
      | p :: ps => if Ascii.eqb d c then "" :: p :: ps else String d p :: ps
      end
  end.

(** [s.partition(c)]: [None] when there is no separator. *)
Fixpoint partition (c : Ascii.ascii) (s : string) : option (string * string) :=
  match s with
  | EmptyString => None
  | String d s' =>
      if Ascii.eqb d c then Some ("", s')
      else match partition c s' with Some (a, b) => Some (String d a, b) | None => None end
  end.

(** [s.replace(a, b)] for characters. *)
Fixpoint replace (a b : Ascii.ascii) (s : string) : string :=
  match s with
  | EmptyString => ""
  | String d s' => String (if Ascii.eqb d a then b else d) (replace a b s')
  end.

Definition startswith (p s : string) : bool := String.prefix p s.

(** [s.lstrip(c)], [s.rstrip(c)] for one character. *)
Fixpoint lstrip_char (c : Ascii.ascii) (s : string) : string :=
  match s with
  | String d s' => if Ascii.eqb d c then lstrip_char c s' else s
  | EmptyString => ""
  end.
Fixpoint rstrip_char (c : Ascii.ascii) (s : string) : string :=
  match s with
  | EmptyString => ""
  | String d s' =>
      match rstrip_char c s' with
      | EmptyString => if Ascii.eqb d c then "" else String d ""
      | r => String d r
      end
  end.

(** [s.split()]: the pieces between runs of white space; [cur] is the piece
    being read. *)
Definition flush (cur : string) (l : list string) : list string := if Str.truthy cur then cur :: l else l.
Fixpoint split_ws_from (cur : string) (s : string) : list string :=
  match s with
  | EmptyString => flush cur []
  | String c s1 =>
      if Str.is_space c then flush cur (split_ws_from "" s1)
      else match s1 with
           | EmptyString => split_ws_from (cur +:+ String c "") s1
           | String d s2 =>
               if Str.is_space2 c d then flush cur (split_ws_from "" s2)
               else match s2 with
                    | EmptyString => split_ws_from (cur +:+ String c "") s1
                    | String e s3 =>
                        if Str.is_space3 c d e then flush cur (split_ws_from "" s3)
                        else split_ws_from (cur +:+ String c "") s1
                    end
           end
  end.
Definition split_ws (s : string) : list string := split_ws_from "" s.

(** [s.upper()] on the ASCII range. *)
Definition upper_ascii (c : Ascii.ascii) : Ascii.ascii :=
  let n := Ascii.nat_of_ascii c in if ((97 <=? n) && (n <=? 122))%nat then Ascii.ascii_of_nat (n - 32) else c.
Definition upper (s : string) : string := String.string_of_list_ascii (upper_ascii <$> String.list_ascii_of_string s).

(** The characters of a text, each the bytes of its UTF-8 sequence. *)
Fixpoint characters (s : string) : list string :=
  match s with
  | EmptyString => []
  | String c s' =>
      match characters s' with
      | [] => [String c ""]
      | x :: l =>
          match x with
          | String d _ => if ((128 <=? Ascii.nat_of_ascii d) && (Ascii.nat_of_ascii d <? 192))%nat then String c x :: l
                          else String c "" :: x :: l
          | EmptyString => String c "" :: l
          end
      end
  end.

Definition slash : Ascii.ascii := Ascii.ascii_of_nat 47.
Definition backslash : Ascii.ascii := Ascii.ascii_of_nat 92.
Definition colon : Ascii.ascii := Ascii.ascii_of_nat 58.

(** One component of [normpath]; the components kept are in reverse. *)
Definition norm_comp (absolute : bool) (acc : list string) (comp : string) : list string :=
  if bool_decide (comp ∈ [""; "."]) then acc
  else if negb (String.eqb comp "..") || (negb absolute && bool_decide (acc = []))
          || bool_decide (head acc = Some "..") then comp :: acc
  else tail acc.

(** [posixpath.normpath] *)
Definition normpath (path : string) : string :=
  if negb (Str.truthy path) then "."
  else
    let initial := if startswith "/" path
                   then (if startswith "//" path && negb (startswith "///" path) then "//" else "/") else "" in
    let comps := reverse (foldl (norm_comp (Str.truthy initial)) [] (split_on slash path)) in
    let r := initial +:+ join "/" comps in
    if Str.truthy r then r else ".".

Example normpath_examples :
  normpath "/a/./b//../c/" = "/a/c" ∧ normpath "/../x" = "/x" ∧ normpath "//a" = "//a" ∧ normpath "a/../../b" = "../b".
Proof. repeat split; vm_compute; reflexivity. Qed.

Example split_examples :
  split_on slash "a//b" = ["a"; ""; "b"] ∧ split_ws "  fix   the bug " = ["fix"; "the"; "bug"] ∧
  partition colon "file:a:b" = Some ("file", "a:b").
Proof. repeat split; vm_compute; reflexivity. Qed.
(** Whether all characters have a property. *)
Definition all_chars (p : Ascii.ascii → bool) (s : string) : bool := forallb p (String.list_ascii_of_string s).

Lemma all_chars_cons p c s : all_chars p (String c s) = p c && all_chars p s.
Proof. done. Qed.

Lemma partition_first c a b : all_chars (λ d, negb (Ascii.eqb d c)) a = true → partition c (a +:+ String c b) = Some (a, b).
Proof.
  induction a as [|d a IH]; [change (("" +:+ String c b)) with (String c b); cbn [partition]; by rewrite Ascii.eqb_refl|]; change (String d a +:+ String c b) with (String d (a +:+ String c b)); cbn [partition].
  rewrite all_chars_cons, andb_true_iff, negb_true_iff. intros [Hd Ha]. by rewrite Hd, IH.
Qed.

Lemma partition_none c a : all_chars (λ d, negb (Ascii.eqb d c)) a = true → partition c a = None.
Proof.
  induction a as [|d a IH]; [done|]. cbn [partition]. rewrite all_chars_cons, andb_true_iff, negb_true_iff. intros [Hd Ha]. by rewrite Hd, IH.
Qed.

Lemma all_chars_weaken (p q : Ascii.ascii → bool) s : (∀ c, p c = true → q c = true) → all_chars p s = true → all_chars q s = true.
Proof. unfold all_chars. rewrite !forallb_forall. naive_solver. Qed.

Lemma all_chars_app p a b : all_chars p (a +:+ b) = all_chars p a && all_chars p b.
Proof. induction a as [|c a IH]; [done|]. change (String c a +:+ b) with (String c (a +:+ b)). by rewrite !all_chars_cons, IH, andb_assoc. Qed.

Lemma strip_all_chars s : all_chars Str.solid s = true → Str.strip s = s.
Proof.
  intros H. assert (∀ s, all_chars Str.solid s = true → Str.rstrip s = s) as Hr.
  { clear. intros s. induction s as [|c s IH]; [done|]. rewrite all_chars_cons, andb_true_iff. intros [Hc Hs]. by apply Str.rstrip_solid, IH. }
  destruct s as [|c s]; [done|]. rewrite all_chars_cons, andb_true_iff in H. destruct H as [Hc Hs]. by apply Str.strip_solid, Hr.
Qed.
End Text.

(** ** Values of JSON documents *)
Module Val.
Import Json.

(** [d.get(key)]: [None] ([Null]) when the key is missing. *)
Definition get (key : string) (d : list (string * json)) : json := default Null (dget key d).

(** [bool(v)] *)
Definition truthy (v : json) : bool :=
  match v with
  | Null => false
  | Bool b => b
  | Int z | Float z => negb (z =? 0)%Z
  | Str s => Str.truthy s
  | List l => negb (Nat.eqb (length l) 0)
  | Obj d => negb (Nat.eqb (length d) 0)
  end.

(** [v or w] *)
Definition or_else (v w : json) : json := if truthy v then v else w.

(** [repr] of a string: single quotes unless only those occur in it; bytes from
    128 on belong to characters that are taken to be printable. *)
Definition single : Ascii.ascii := Ascii.ascii_of_nat 39.
Definition has_char (c : Ascii.ascii) (s : string) : bool :=
  existsb (Ascii.eqb c) (String.list_ascii_of_string s).
Definition repr_char (q c : Ascii.ascii) : string :=
  let n := Ascii.nat_of_ascii c in
  let bs := String Text.backslash in
  if Ascii.eqb c q || Ascii.eqb c Text.backslash then bs (String c "")
  else if (n =? 9)%nat then bs "t"
  else if (n =? 10)%nat then bs "n"
  else if (n =? 13)%nat then bs "r"
  else if (n <? 32)%nat || (n =? 127)%nat then bs ("x" +:+ Sha256.hex_bytes [Z.of_nat n])
  else String c "".
Fixpoint repr_chars (q : Ascii.ascii) (s : string) : string :=
  match s with
  | EmptyString => ""
  | String c s' => repr_char q c +:+ repr_chars q s'
  end.
Definition repr_string (s : string) : string :=
  let q := if has_char single s && negb (has_char Json.quote_char s) then Json.quote_char else single in
  String q "" +:+ repr_chars q s +:+ String q "".

Fixpoint repr (v : json) : string :=
  match v with
  | Null => "None"
  | Bool b => if b then "True" else "False"
  | Int z => pretty z
  | Float z => pretty z +:+ ".0"
  | Str s => repr_string s
  | List l => "[" +:+ Text.join ", " (map repr l) +:+ "]"
  | Obj d => "{" +:+ Text.join ", " (map (λ '(k, v), repr_string k +:+ ": " +:+ repr v) d) +:+ "}"
  end.

(** [str(v)] *)
Definition str (v : json) : string := match v with Str s => s | _ => repr v end.

(** [str(v or "")] *)
Definition text (v : json) : string := if truthy v then str v else "".

(** [v is None] *)
Definition is_none (v : json) : bool := match v with Null => true | _ => false end.

(** What [for x in v] goes through; [None] is an exception. *)
Definition iter (v : json) : option (list json) :=
  match v with
  | List l => Some l
  | Str s => Some (Str <$> Text.characters s)
  | Obj d => Some (Str <$> d.*1)
  | _ => None
  end.

Lemma pretty_N_go_nonempty x s : s ≠ "" → pretty_N_go x s ≠ "".
Proof.
  revert s. induction (N.lt_wf_0 x) as [x _ IH]; intros s Hs.
  destruct (decide (x = 0)%N) as [->|Hx]; [by rewrite pretty_N_go_0|].
  rewrite pretty_N_go_step by lia. apply IH; [apply N.div_lt; lia|done].
Qed.

Lemma pretty_N_nonempty (x : N) : pretty x ≠ "".
Proof.
  unfold pretty, pretty_N. destruct (decide (x = 0)%N) as [|Hx]; [done|].
  rewrite pretty_N_go_step by lia. by apply pretty_N_go_nonempty.
Qed.

Lemma pretty_Z_nonempty (z : Z) : pretty z ≠ "".
Proof. destruct z as [|p|p]; [done|apply (pretty_N_nonempty (Npos p))|done]. Qed.

Lemma str_nonempty v : truthy v = true → str v ≠ "".
Proof.
  destruct v as [|[]|z|z|s|l|d]; cbn [truthy str]; try done.
  - intros _. apply pretty_Z_nonempty.
  - intros _ H. cbn in H. destruct (pretty z); done.
  - intros H. by apply Str.truthy_ne.
Qed.

Lemma text_nonempty v : truthy v = true → text v ≠ "".
Proof. unfold text. intros H. rewrite H. by apply str_nonempty. Qed.

(** [float(v)] on numbers, booleans and decimal integers; [None] is an
    exception. Numerals with a fraction or an exponent are left out. *)
Fixpoint digits (acc : Z) (s : string) : option Z :=
  match s with
  | EmptyString => Some acc
  | String c s' =>
      let n := Z.of_N (Ascii.N_of_ascii c) in
      if (48 <=? n)%Z && (n <=? 57)%Z then digits (10 * acc + (n - 48))%Z s' else None
  end.
Definition decimal (s : string) : option Z :=
  match s with
  | String c s' =>
      if Ascii.eqb c (Ascii.ascii_of_nat 45) then (if Str.truthy s' then Z.opp <$> digits 0 s' else None) else digits 0 s
  | EmptyString => None
  end.
Definition to_float (v : json) : option Z :=
  match v with
  | Int z | Float z => Some z
  | Bool b => Some (if b then 1 else 0)%Z
  | Str s => decimal (Str.strip s)
  | _ => None
  end.

(** [d.get(key, default)]: the default only for a missing key. *)
Definition get_or (key : string) (d : list (string * json)) (default : json) : json :=
  match dget key d with Some v => v | None => default end.

(** [v == w]: numbers and booleans compare by value, dicts without order. *)
Definition number (v : json) : option Z :=
  match v with Int z | Float z => Some z | Bool b => Some (if b then 1 else 0)%Z | _ => None end.
Fixpoint eq (v w : json) : bool :=
  match v, w with
  | Null, Null => true
  | Str s, Str t => String.eqb s t
  | List l, List m =>
      (fix go l m := match l, m with
                     | [], [] => true
                     | x :: l', y :: m' => eq x y && go l' m'
                     | _, _ => false
                     end) l m
  | Obj d, Obj e =>
      Nat.eqb (length d) (length e) &&
      (fix go d := match d with
                   | [] => true
                   | (k, x) :: d' => match dget k e with Some y => eq x y | None => false end && go d'
                   end) d
  | _, _ => match number v, number w with Some a, Some b => (a =? b)%Z | _, _ => false end
  end.

Lemma text_Str s : text (Str s) = s.
Proof. unfold text. cbn [truthy str]. by destruct s. Qed.

Lemma eq_Str_iff v s : eq v (Str s) = true ↔ v = Str s.
Proof. destruct v; cbn [eq number]; try done. rewrite String.eqb_eq. split; [by intros ->|by intros [= ->]]. Qed.

Lemma get_put_eq k v d : get k (dput k v d) = v.
Proof. unfold get. by rewrite dget_put_eq. Qed.
Lemma get_put_ne k k' v d : k ≠ k' → get k (dput k' v d) = get k d.
Proof. intros Hne. unfold get. by rewrite dget_put_ne. Qed.

Lemma eq_list_refl l : (∀ v, v ∈ l → eq v v = true) → eq (List l) (List l) = true.
Proof.
  induction l as [|v l IH]; intros H; [done|]. change (eq v v && eq (List l) (List l) = true). rewrite H by by left. apply IH. intros w Hw. apply H. by right.
Qed.

Lemma eq_obj d e : eq (Obj d) (Obj e) =
  Nat.eqb (length d) (length e) && forallb (λ kx, match dget kx.1 e with Some y => eq kx.2 y | None => false end) d.
Proof. cbn [eq]. f_equal. induction d as [|[k x] d IH]; [done|]. cbn [forallb fst snd]. by rewrite IH. Qed.

Lemma eq_obj_refl d : NoDup d.*1 → (∀ k v, (k, v) ∈ d → eq v v = true) → eq (Obj d) (Obj d) = true.
Proof.
  intros Hnd H. rewrite eq_obj, Nat.eqb_refl. cbn [andb]. apply forallb_forall. intros [k v] Hin%list_elem_of_In. cbn [fst snd].
  rewrite (elem_of_dget k v d Hnd Hin). by apply (H k).
Qed.

Example repr_examples :
  str (List [Str "it's"; Int 3; Null; Obj [("k", Bool true)]]) = "[" +:+ String Json.quote_char "it's" +:+ String Json.quote_char ", 3, None, {'k': True}]"
  ∧ to_float (Str " -12 ") = Some (-12)%Z.
Proof. split; vm_compute; reflexivity. Qed.
End Val.
