(* ===== verification/PyJson.v ===== *)
(** [json.loads], over the representation of [PyLib] and [PyText], and that it
    reads back what [json.dumps] writes. The texts are UTF-8 bytes; a lone
    surrogate that an escape may spell is its three-byte generalised form, which
    [utf8_valid] refuses as [str.encode] does. The recursion limit of the C
    scanner and the limit of 4300 digits of [int] are not modelled. *)
From Stdlib Require Import Ascii.
From stdpp Require Import pretty.
From S2P Require Import Prelude PyLib PyText.
Import Json.

(** ** Scanning *)
Definition code (c : ascii) : N := N_of_ascii c.
Definition byte (n : N) : ascii := ascii_of_N n.

Definition is_ws (c : ascii) : bool :=
  (code c =? 32)%N || (code c =? 9)%N || (code c =? 10)%N || (code c =? 13)%N.

Fixpoint skip_ws (s : string) : string :=
  match s with
  | String c s' => if is_ws c then skip_ws s' else s
  | EmptyString => ""
  end.

(** The longest prefix of characters in [p], and the rest. *)
Fixpoint span (p : ascii → bool) (s : string) : string * string :=
  match s with
  | String c s' => if p c then let '(a, r) := span p s' in (String c a, r) else ("", s)
  | EmptyString => ("", "")
  end.

(** [s] without the prefix [p]. *)
Fixpoint strip_prefix (p s : string) : option string :=
  match p, s with
  | EmptyString, _ => Some s
  | String c p', String d s' => if Ascii.eqb c d then strip_prefix p' s' else None
  | _, EmptyString => None
  end.

Definition is_digit (c : ascii) : bool := (48 <=? code c)%N && (code c <=? 57)%N.

Definition hex_digit_value (c : ascii) : option N :=
  let n := code c in
  if is_digit c then Some (n - 48)%N
  else if (97 <=? n)%N && (n <=? 102)%N then Some (n - 87)%N
  else if (65 <=? n)%N && (n <=? 70)%N then Some (n - 55)%N
  else None.

Definition hex4_value (a b c d : ascii) : option N :=
  match hex_digit_value a, hex_digit_value b, hex_digit_value c, hex_digit_value d with
  | Some a, Some b, Some c, Some d => Some (((a * 16 + b) * 16 + c) * 16 + d)%N
  | _, _, _, _ => None
  end.

(** The UTF-8 bytes of a code point, surrogates included. *)
Definition utf8_encode (n : N) (s : string) : string :=
  let tail k := byte (128 + n / k mod 64)%N in
  if (n <? 128)%N then String (byte n) s
  else if (n <? 2048)%N then String (byte (192 + n / 64)) (String (tail 1%N) s)
  else if (n <? 65536)%N then String (byte (224 + n / 4096)) (String (tail 64%N) (String (tail 1%N) s))
  else String (byte (240 + n / 262144)) (String (tail 4096%N) (String (tail 64%N) (String (tail 1%N) s))).

Definition high_surrogate (n : N) : bool := (0xd800 <=? n)%N && (n <=? 0xdbff)%N.
Definition low_surrogate (n : N) : bool := (0xdc00 <=? n)%N && (n <=? 0xdfff)%N.

Definition unescape (c : ascii) : option ascii :=
  let n := code c in
  if (n =? 34)%N || (n =? 92)%N || (n =? 47)%N then Some c
  else if (n =? 98)%N then Some (byte 8)
  else if (n =? 102)%N then Some (byte 12)
  else if (n =? 110)%N then Some (byte 10)
  else if (n =? 114)%N then Some (byte 13)
  else if (n =? 116)%N then Some (byte 9)
  else None.

Definition cons_char (c : ascii) (m : option (string * string)) : option (string * string) :=
  '(a, r) ← m; Some (String c a, r).
Definition cons_code (n : N) (m : option (string * string)) : option (string * string) :=
  '(a, r) ← m; Some (utf8_encode n a, r).

(** [scanstring] in its strict mode, after the opening quote. *)
Fixpoint scan_string (s : string) : option (string * string) :=
  match s with
  | EmptyString => None
  | String c s' =>
      if (code c =? 34)%N then Some ("", s')
      else if (code c =? 92)%N then
        match s' with
        | String e r =>
            if (code e =? 117)%N then
              match r with
              | String h1 (String h2 (String h3 (String h4 r))) =>
                  n ← hex4_value h1 h2 h3 h4;
                  if high_surrogate n then
                    match r with
                    | String b (String u (String l1 (String l2 (String l3 (String l4 r2))))) =>
                        match (if (code b =? 92)%N && (code u =? 117)%N then hex4_value l1 l2 l3 l4 else None) with
                        | Some m =>
                            if low_surrogate m
                            then cons_code (0x10000 + (n - 0xd800) * 1024 + (m - 0xdc00))%N (scan_string r2)
                            else cons_code n (scan_string r)
                        | None => cons_code n (scan_string r)
                        end
                    | _ => cons_code n (scan_string r)
                    end
                  else cons_code n (scan_string r)
              | _ => None
              end
            else c' ← unescape e; cons_char c' (scan_string r)
        | EmptyString => None
        end
      else if (code c <? 32)%N then None
      else cons_char c (scan_string s')
  end.

(** ** [json.loads] *)
Section Loads.
(** [float] on the text of a numeral with a fraction or an exponent, and on
    [NaN], [Infinity] and [-Infinity]. *)
Context (parse_float : string → Z).

(** The numeral at the start of [s]: a sign, an integer without leading zeros,
    then a fraction and an exponent if they are complete. *)
Definition int_part (s : string) : option (string * string) :=
  match s with
  | String c s' =>
      if (code c =? 48)%N then Some (String c "", s')
      else if is_digit c then Some (span is_digit s) else None
  | EmptyString => None
  end.
Definition frac_part (s : string) : string * string :=
  match s with
  | String c s' =>
      let '(ds, r) := span is_digit s' in
      if (code c =? 46)%N && Str.truthy ds then (String c ds, r) else ("", s)
  | EmptyString => ("", s)
  end.
Definition sign_part (s : string) : string * string :=
  match s with
  | String c s' => if (code c =? 45)%N || (code c =? 43)%N then (String c "", s') else ("", s)
  | EmptyString => ("", s)
  end.
Definition exp_part (s : string) : string * string :=
  match s with
  | String c s' =>
      let '(sg, s2) := sign_part s' in
      let '(ds, r) := span is_digit s2 in
      if ((code c =? 101)%N || (code c =? 69)%N) && Str.truthy ds then (String c (sg +:+ ds), r) else ("", s)
  | EmptyString => ("", s)
  end.
Definition number (s : string) : option (json * string) :=
  let '(sg, s1) := match s with
                   | String c s' => if (code c =? 45)%N then ("-", s') else ("", s)
                   | EmptyString => ("", s)
                   end in
  '(i, s2) ← int_part s1;
  let '(f, s3) := frac_part s2 in
  let '(e, s4) := exp_part s3 in
  if Str.truthy f || Str.truthy e then Some (Float (parse_float (sg +:+ i +:+ f +:+ e)), s4)
  else Some (Int (default 0%Z (Val.decimal (sg +:+ i))), s4).

(** The constants, and what each stands for. *)
Definition constants : list (string * json) :=
  [("null", Null); ("true", Bool true); ("false", Bool false);
   ("NaN", Float (parse_float "NaN")); ("Infinity", Float (parse_float "Infinity"));
   ("-Infinity", Float (parse_float "-Infinity"))].
Fixpoint constant (cs : list (string * json)) (s : string) : option (json * string) :=
  match cs with
  | [] => None
  | (name, v) :: cs' =>
      match strip_prefix name s with Some r => Some (v, r) | None => constant cs' s end
  end.

(** [scan_once], the loop of an array after its bracket, and the loop of an
    object after its brace, with the dict read so far. *)
Fixpoint value (n : nat) (s : string) : option (json * string) :=
  match n with
  | O => None
  | S n' =>
      match s with
      | EmptyString => None
      | String c s' =>
          if (code c =? 34)%N then '(x, r) ← scan_string s'; Some (Str x, r)
          else if (code c =? 123)%N then
            match strip_prefix "}" (skip_ws s') with
            | Some r => Some (Obj [], r)
            | None => '(d, r) ← members n' [] (skip_ws s'); Some (Obj d, r)
            end
          else if (code c =? 91)%N then
            match strip_prefix "]" (skip_ws s') with
            | Some r => Some (List [], r)
            | None => '(l, r) ← elements n' (skip_ws s'); Some (List l, r)
            end
          else match constant constants s with
               | Some vr => Some vr
               | None => number s
               end
      end
  end
with elements (n : nat) (s : string) : option (list json * string) :=
  match n with
  | O => None
  | S n' =>
      '(v, r) ← value n' s;
      match skip_ws r with
      | String c r' =>
          if (code c =? 93)%N then Some ([v], r')
          else if (code c =? 44)%N then '(l, r'') ← elements n' (skip_ws r'); Some (v :: l, r'')
          else None
      | EmptyString => None
      end
  end
with members (n : nat) (acc : list (string * json)) (s : string) : option (list (string * json) * string) :=
  match n with
  | O => None
  | S n' =>
      match s with
      | String c s' =>
          if (code c =? 34)%N then
            '(k, r) ← scan_string s';
            r ← strip_prefix ":" (skip_ws r);
            '(v, r) ← value n' (skip_ws r);
            let acc := dput k v acc in
            match skip_ws r with
            | String c r' =>
                if (code c =? 125)%N then Some (acc, r')
                else if (code c =? 44)%N then members n' acc (skip_ws r')
                else None
            | EmptyString => None
            end
          else None
      | EmptyString => None
      end
  end.

(** Twice the length and one: a call that does not consume a character is
    followed by one that does. *)
Definition fuel (s : string) : nat := 2 * String.length s + 1.

Definition bom : string := String (byte 239) (String (byte 187) (String (byte 191) "")).

(** [json.loads(s)]; [None] is [JSONDecodeError]. *)
Definition loads (s : string) : option json :=
  match strip_prefix bom s with
  | Some _ => None
  | None =>
      '(v, r) ← value (fuel s) (skip_ws s);
      if Str.truthy (skip_ws r) then None else Some v
  end.
End Loads.

(** ** UTF-8 *)
Definition cont (lo hi : N) (c : ascii) : bool := (lo <=? code c)%N && (code c <=? hi)%N.

(** [bytes.decode("utf-8")] succeeds. *)
Fixpoint utf8_valid (s : string) : bool :=
  match s with
  | EmptyString => true
  | String a s1 =>
      let n := code a in
      if (n <? 0x80)%N then utf8_valid s1
      else if (n <? 0xc2)%N then false
      else match s1 with
      | EmptyString => false
      | String b s2 =>
          if (n <? 0xe0)%N then cont 128 191 b && utf8_valid s2
          else match s2 with
          | EmptyString => false
          | String c s3 =>
              if (n <? 0xf0)%N then
                cont (if (n =? 0xe0)%N then 160 else 128) (if (n =? 0xed)%N then 159 else 191) b
                && cont 128 191 c && utf8_valid s3
              else match s3 with
              | EmptyString => false
              | String d s4 =>
                  (n <? 0xf5)%N
                  && cont (if (n =? 0xf0)%N then 144 else 128) (if (n =? 0xf4)%N then 143 else 191) b
                  && cont 128 191 c && cont 128 191 d && utf8_valid s4
              end
          end
      end
  end.

Definition q (s : string) : string := String quote_char (s +:+ String quote_char "").
Example loads_examples :
  let f := λ _, 7%Z in
  loads f (" { " +:+ q "a" +:+ " : [1, -20 ,0, true], " +:+ q "b" +:+ ":{}, " +:+ q "a" +:+ ": null }") = Some (Obj [("a", Null); ("b", Obj [])]) ∧
  loads f "[1.5, 2e3, NaN, -Infinity]" = Some (List [Float 7; Float 7; Float 7; Float 7]) ∧
  loads f "[1,]" = None ∧ loads f "01" = None ∧ loads f "" = None ∧ loads f "-" = None ∧
  loads f (q "\u00e9\ud83d\ude00\n") = Some (Str (String.string_of_list_ascii (map byte [195; 169; 240; 159; 152; 128; 10]%N))) ∧
  loads f (q "\ud83d") = Some (Str (String.string_of_list_ascii (map byte [237; 160; 189]%N))) ∧
  utf8_valid (String.string_of_list_ascii (map byte [195; 169; 240; 159; 152; 128; 10]%N)) = true ∧
  utf8_valid (String.string_of_list_ascii (map byte [237; 160; 189]%N)) = false.
Proof. repeat split; vm_compute; reflexivity. Qed.

(** * Specification *)

(** The document with the items of every object sorted by key, as [json.dumps]
    writes them: the same Python value, since dicts compare without order. *)
Definition field_le (x y : string * json) : Prop := String.le x.1 y.1.
#[export] Instance field_le_dec x y : Decision (field_le x y) := _.
Fixpoint canon (v : json) : json :=
  match v with
  | List l => List (map canon l)
  | Obj d => Obj (merge_sort field_le (map (λ kv, (kv.1, canon kv.2)) d))
  | _ => v
  end.

(** A value of Python without floats: the keys of a dict are distinct. *)
Fixpoint plain (v : json) : bool :=
  match v with
  | Float _ => false
  | List l => forallb plain l
  | Obj d => bool_decide (NoDup d.*1) && forallb (λ kv, plain kv.2) d
  | _ => true
  end.

(** Nothing at the start of [s] continues a numeral. *)
Definition stops (s : string) : bool :=
  match s with
  | EmptyString => true
  | String c _ => negb (is_digit c || (code c =? 46) || (code c =? 101) || (code c =? 69))%N
  end.

(** One character of a string as [json.dumps] writes it. *)
Definition escaped (c : ascii) : string := default (String c "") (escape_ascii (code c)).

(** The first byte of a document: no white space, bracket, colon or comma. *)
Definition starts (s : string) : bool :=
  match s with
  | String c _ => negb (is_ws c || (code c =? 93) || (code c =? 125) || (code c =? 239))%N
  | EmptyString => false
  end.

(** One item of an object. *)
Definition item (kv : string * json) : string := quote false kv.1 +:+ ":" +:+ dumps false kv.2.

(** No control characters, so no line ends. *)
Definition printable (s : string) : bool := forallb (λ c, 32 <=? code c)%N (String.list_ascii_of_string s).

(** The parser reads the text of [v] back, whatever follows it that no numeral goes on with. *)
Definition reads (pf : string → Z) (v : json) : Prop := ∀ n r,
  plain v = true → (2 * String.length (dumps false v) <= S n)%nat → stops r = true →
  value pf n (dumps false v +:+ r) = Some (canon v, r).

(** * Lemmas *)

(** ** Documents *)
Section JsonInd.
Context (P : json → Prop).
Context (Hnull : P Null) (Hbool : ∀ b, P (Bool b)) (Hint : ∀ z, P (Int z)) (Hfloat : ∀ z, P (Float z))
        (Hstr : ∀ s, P (Str s)) (Hlist : ∀ l, Forall P l → P (List l))
        (Hobj : ∀ d, Forall (λ kv, P kv.2) d → P (Obj d)).
Fixpoint json_nested_ind (v : json) : P v :=
  match v with
  | Null => Hnull
  | Bool b => Hbool b
  | Int z => Hint z
  | Float z => Hfloat z
  | Str s => Hstr s
  | List l => Hlist l ((fix go l : Forall P l :=
      match l with [] => Forall_nil_2 P | x :: l' => Forall_cons_2 P x l' (json_nested_ind x) (go l') end) l)
  | Obj d => Hobj d ((fix go d : Forall (λ kv, P kv.2) d :=
      match d with
      | [] => Forall_nil_2 _
      | (k, x) :: d' => Forall_cons_2 (λ kv, P kv.2) (k, x) d' (json_nested_ind x) (go d')
      end) d)
  end.
End JsonInd.

Lemma forallb_Forall {A} (p : A → bool) l : forallb p l = true ↔ Forall (λ x, p x = true) l.
Proof. rewrite forallb_forall, Forall_forall. split; intros H x Hx; apply H; by apply list_elem_of_In. Qed.

(** ** Text *)
Lemma sapp_cons c a b : String c a +:+ b = String c (a +:+ b).
Proof. done. Qed.
Lemma sapp_assoc a b c : (a +:+ b) +:+ c = a +:+ (b +:+ c).
Proof. induction a as [|x a IH]; [done|exact (f_equal (String x) IH)]. Qed.
Lemma sapp_nil a : a +:+ "" = a.
Proof. induction a as [|x a IH]; [done|exact (f_equal (String x) IH)]. Qed.
Lemma slength_app a b : String.length (a +:+ b) = (String.length a + String.length b)%nat.
Proof. induction a as [|x a IH]; [done|exact (f_equal S IH)]. Qed.

#[export] Hint Rewrite sapp_assoc sapp_nil slength_app : py.

Lemma list_ascii_app a b :
  String.list_ascii_of_string (a +:+ b) = String.list_ascii_of_string a ++ String.list_ascii_of_string b.
Proof. induction a as [|x a IH]; [done|exact (f_equal (cons x) IH)]. Qed.

Lemma strip_prefix_app p s : strip_prefix p (p +:+ s) = Some s.
Proof. induction p as [|c p IH]; [by destruct s|]. rewrite sapp_cons. cbn. by rewrite Ascii.eqb_refl. Qed.

Lemma span_app p a r : forallb p (String.list_ascii_of_string a) = true →
  match r with String c _ => p c = false | EmptyString => True end → span p (a +:+ r) = (a, r).
Proof.
  intros Ha Hr. induction a as [|c a IH]; cbn in *.
  - change (EmptyString +:+ r) with r. destruct r as [|c r]; [done|]. cbn. by rewrite Hr.
  - apply andb_true_iff in Ha as [Hc Ha]. rewrite sapp_cons. cbn [span]. rewrite Hc. by rewrite (IH Ha).
Qed.

(** ** Sorting before or after a map that keeps the order *)
Section MapSort.
Context {A B : Type} (R : relation A) (R' : relation B) `{∀ x y, Decision (R x y)} `{∀ x y, Decision (R' x y)}.
Context (f : A → B) (Hf : ∀ x y, R x y ↔ R' (f x) (f y)).

Lemma list_merge_map l1 l2 : list_merge R' (map f l1) (map f l2) = map f (list_merge R l1 l2).
Proof using Hf.
  revert l2. induction l1 as [|x l1 IH1]; intros l2; [by destruct l2|].
  induction l2 as [|y l2 IH2]; [done|]. cbn [list_merge map]. cbn [list_merge map] in IH2.
  rewrite (decide_ext _ (R x y)) by (by rewrite Hf). case_decide; cbn; f_equal; [by apply (IH1 (y :: l2))|done].
Qed.

Lemma merge_list_to_stack_map st l :
  merge_list_to_stack R' (map (option_map (map f)) st) (map f l) = map (option_map (map f)) (merge_list_to_stack R st l).
Proof using Hf.
  revert l. induction st as [|[l'|] st IH]; intros l; [done| |done]. cbn. rewrite list_merge_map. by rewrite IH.
Qed.

Lemma merge_stack_map st : merge_stack R' (map (option_map (map f)) st) = map f (merge_stack R st).
Proof using Hf. induction st as [|[l'|] st IH]; cbn; [done| |done]. by rewrite IH, list_merge_map. Qed.

Lemma merge_sort_map l : merge_sort R' (map f l) = map f (merge_sort R l).
Proof using Hf.
  unfold merge_sort. change (@nil (option (list B))) with (map (option_map (map f)) []).
  generalize (@nil (option (list A))) as st. induction l as [|x l IH]; intros st; cbn; [apply merge_stack_map|].
  rewrite <- IH. f_equal. apply (merge_list_to_stack_map st [x]).
Qed.
End MapSort.

Lemma dumps_Obj b d : dumps b (Obj d) =
  "{" +:+ join (map (λ kv, quote b kv.1 +:+ ":" +:+ dumps b kv.2) (merge_sort field_le d)) +:+ "}".
Proof.
  cbn [dumps]. f_equal. f_equal. f_equal.
  rewrite (map_ext (λ '(k, v), (k, dumps b v)) (λ kv, (kv.1, dumps b kv.2))) by (by intros []).
  rewrite (merge_sort_map field_le key_le (λ kv : string * json, (kv.1, dumps b kv.2))) by done.
  change (@fmap list list_fmap) with @map. rewrite map_map. by apply map_ext.
Qed.

(** ** Strings *)
Lemma code_byte n : (n < 256)%N → code (byte n) = n.
Proof. intros H. unfold code, byte. apply N_ascii_embedding. lia. Qed.
Lemma byte_code c : byte (code c) = c.
Proof. apply ascii_N_embedding. Qed.

Lemma code_lt c : (code c < 256)%N.
Proof. destruct c as [[] [] [] [] [] [] [] []]; vm_compute; reflexivity. Qed.

(** Every byte, for a statement that is decided by running over all of them. *)
Lemma all_bytes (P : ascii → bool) : forallb (λ n, P (byte (N.of_nat n))) (seq 0 256) = true → ∀ c, P c = true.
Proof.
  intros H c. rewrite forallb_forall in H. rewrite <- (byte_code c). pose proof (code_lt c).
  rewrite <- (N2Nat.id (code c)). apply H. apply in_seq. lia.
Qed.

Lemma escape_controls_cons c s : escape_controls (String c s) = escaped c +:+ escape_controls s.
Proof. cbn [escape_controls]. unfold escaped, code. by destruct (escape_ascii _). Qed.

(** One escaped character is read back, whatever follows it. *)
Lemma scan_escaped c s : scan_string (escaped c +:+ s) = cons_char c (scan_string s).
Proof. destruct c as [[] [] [] [] [] [] [] []]; reflexivity. Qed.

Lemma scan_escape_controls s r : scan_string (escape_controls s +:+ String quote_char r) = Some (s, r).
Proof.
  induction s as [|c s IH]; [done|]. rewrite escape_controls_cons, sapp_assoc, scan_escaped, IH. done.
Qed.

Lemma quote_app s r : quote false s +:+ r = String quote_char (escape_controls s +:+ String quote_char r).
Proof. unfold quote. cbv zeta. by rewrite !sapp_assoc. Qed.

(** ** Numerals *)
Lemma pretty_N_go_digits x : ∃ p,
  (∀ s, pretty_N_go x s = p +:+ s) ∧ forallb is_digit (String.list_ascii_of_string p) = true ∧
  (∃ k, ∀ a s, Val.digits a (p +:+ s) = Val.digits (a * 10 ^ Z.of_nat k + Z.of_N x)%Z s) ∧
  (x ≠ 0%N → ∃ c p', p = String c p' ∧ (code c =? 48)%N = false).
Proof.
  induction (N.lt_wf_0 x) as [x _ IH]. destruct (decide (x = 0)%N) as [->|Hx].
  { exists "". split; [intros s; by rewrite pretty_N_go_0|]. split; [done|]. split; [|done].
    exists 0%nat. intros a s. change ("" +:+ s) with s. f_equal. lia. }
  destruct (IH (x / 10)%N) as (p & Hp & Hd & Hk & Hh); [apply N.div_lt; lia|].
  assert (x mod 10 < 10)%N as Hm by (apply N.mod_lt; lia).
  pose proof (N.div_mod x 10 ltac:(done)) as Hdm.
  assert (∀ s, pretty_N_go x s = pretty_N_go (x / 10) (String (pretty_N_char (x mod 10)) s)) as Hgo
    by (intros s; by rewrite pretty_N_go_step by lia).
  generalize dependent (x mod 10)%N. generalize dependent (x / 10)%N. intros d Hp (k & Hk) Hh m Hm Hdm Hgo. clear IH.
  assert (∃ c, pretty_N_char m = c ∧ code c = 48 + m)%N as (c & Hc & Hcc).
  { eexists. split; [done|]. clear -Hm.
    assert (m = 0 ∨ m = 1 ∨ m = 2 ∨ m = 3 ∨ m = 4 ∨ m = 5 ∨ m = 6 ∨ m = 7 ∨ m = 8 ∨ m = 9)%N as Hcs by lia.
    by destruct Hcs as [->|[->|[->|[->|[->|[->|[->|[->|[->| ->]]]]]]]]]. }
  exists (p +:+ String c ""). split; [|split; [|split]].
  - intros s. by rewrite Hgo, Hp, Hc, sapp_assoc.
  - rewrite list_ascii_app, forallb_app, Hd. cbn [String.list_ascii_of_string forallb andb]. unfold is_digit. rewrite Hcc.
    rewrite andb_true_r. apply andb_true_iff. split; apply N.leb_le; lia.
  - exists (S k). intros a s. rewrite sapp_assoc, Hk. change (String c "" +:+ s) with (String c s). cbn [Val.digits].
    unfold code in Hcc. rewrite Hcc.
    rewrite (proj2 (Z.leb_le _ _)), (proj2 (Z.leb_le _ _)) by lia. cbn [andb]. f_equal.
    rewrite Nat2Z.inj_succ, Z.pow_succ_r by lia. subst x. lia.
  - intros _. destruct (decide (d = 0)%N) as [H0|H0].
    + specialize (Hp ""). rewrite H0, pretty_N_go_0, sapp_nil in Hp. subst p. exists c, "". split; [done|].
      apply N.eqb_neq. lia.
    + destruct (Hh H0) as (c' & p' & -> & Hc'). by exists c', (p' +:+ String c "").
Qed.

(** The numeral of a natural number: decimal digits without a leading zero. *)
Lemma pretty_N_digits x : ∃ c p,
  pretty x = String c p ∧ forallb is_digit (String.list_ascii_of_string (String c p)) = true ∧
  Val.digits 0 (String c p) = Some (Z.of_N x) ∧ ((code c =? 48)%N = true → p = "").
Proof.
  unfold pretty, pretty_N. destruct (decide (x = 0)%N) as [->|Hx].
  { exists "0"%char, "". done. }
  destruct (pretty_N_go_digits x) as (p & Hp & Hd & (k & Hk) & Hh). destruct (Hh Hx) as (c & p' & -> & Hc).
  exists c, p'. rewrite Hp, sapp_nil. split; [done|]. split; [done|]. split; [|by rewrite Hc].
  specialize (Hk 0%Z ""). rewrite sapp_nil in Hk. exact Hk.
Qed.

Lemma stops_digit r : stops r = true → match r with String c _ => is_digit c = false | EmptyString => True end.
Proof. destruct r as [|c r]; [done|]. cbn. intros H. apply negb_true_iff in H. by repeat (apply orb_false_iff in H as [H _]). Qed.

Lemma int_part_digits c p r :
  forallb is_digit (String.list_ascii_of_string (String c p)) = true → ((code c =? 48)%N = true → p = "") →
  stops r = true → int_part (String c p +:+ r) = Some (String c p, r).
Proof.
  intros Hd H0 Hr. rewrite sapp_cons. cbn [int_part]. destruct (code c =? 48)%N eqn:Hc; [by rewrite H0 by done|].
  pose proof (proj1 (proj1 (andb_true_iff _ _) Hd)) as Hc'. cbn in Hc'. rewrite Hc'.
  change (Some (span is_digit (String c p +:+ r)) = Some (String c p, r)). f_equal. apply span_app; [done|by apply stops_digit].
Qed.

Lemma stops_parts r : stops r = true → frac_part r = ("", r) ∧ exp_part r = ("", r).
Proof.
  destruct r as [|c r]; [done|]. cbn. intros H. apply negb_true_iff in H.
  apply orb_false_iff in H as [H He']. apply orb_false_iff in H as [H He]. apply orb_false_iff in H as [_ Hf].
  rewrite Hf. cbn. split; [by destruct (span is_digit r)|]. destruct (sign_part r) as [sg s2]. destruct (span is_digit s2).
  rewrite He, He'. done.
Qed.

Lemma is_digit_not c n : is_digit c = true → (n < 48 ∨ 57 < n)%N → (code c =? n)%N = false.
Proof. unfold is_digit. intros H Hn. apply andb_true_iff in H as [H1%N.leb_le H2%N.leb_le]. apply N.eqb_neq. lia. Qed.

Lemma number_pretty (pf : string → Z) (z : Z) r :
  stops r = true → number pf (pretty z +:+ r) = Some (Int z, r).
Proof.
  intros Hr. destruct (stops_parts r Hr) as [Hf He].
  assert (∀ x : N, number pf (pretty x +:+ r) = Some (Int (Z.of_N x), r) ∧
                   number pf (String "-" (pretty x +:+ r)) = Some (Int (- Z.of_N x), r)) as HN.
  { intros x. destruct (pretty_N_digits x) as (c & p & -> & Hd & Hv & H0).
    pose proof (proj1 (proj1 (andb_true_iff _ _) Hd)) as Hc. cbn beta in Hc.
    pose proof (is_digit_not c 45 Hc ltac:(lia)) as Hm.
    split; unfold number.
    - rewrite sapp_cons at 1. rewrite Hm. cbn [mbind option_bind].
      rewrite (int_part_digits c p r) by done. cbn [mbind option_bind]. rewrite Hf, He. cbn [Str.truthy orb].
      unfold Str.truthy. cbn [String.eqb negb orb]. change ("" +:+ String c p) with (String c p).
      unfold Val.decimal. replace (Ascii.eqb c (ascii_of_nat 45)) with false.
      + by rewrite Hv.
      + symmetry. apply Ascii.eqb_neq. intros ->. done.
    - change (code "-" =? 45)%N with true. cbv iota.
      rewrite (int_part_digits c p r) by done. cbn [mbind option_bind]. rewrite Hf, He.
      unfold Str.truthy. cbn [String.eqb negb orb]. change ("-" +:+ String c p) with (String "-" (String c p)).
      unfold Val.decimal. change (Ascii.eqb "-" (ascii_of_nat 45)) with true. cbv iota.
      unfold Str.truthy. cbn [String.eqb negb]. by rewrite Hv. }
  destruct z as [|n|n].
  - exact (proj1 (HN 0%N)).
  - exact (proj1 (HN (Npos n))).
  - exact (proj2 (HN (Npos n))).
Qed.

(** ** Reading back *)
Section RoundTrip.
Context (pf : string → Z).

Lemma elements_S n s : elements pf (S n) s =
  ('(v, r) ← value pf n s;
   match skip_ws r with
   | String c r' =>
       if (code c =? 93)%N then Some ([v], r')
       else if (code c =? 44)%N then '(l, r'') ← elements pf n (skip_ws r'); Some (v :: l, r'')
       else None
   | EmptyString => None
   end).
Proof. done. Qed.

Lemma starts_skip s r : starts s = true → skip_ws (s +:+ r) = s +:+ r.
Proof.
  destruct s as [|c s]; [done|]. cbn [starts]. intros H. apply negb_true_iff in H.
  do 3 (apply orb_false_iff in H as [H _]). rewrite sapp_cons. cbn [skip_ws]. by rewrite H.
Qed.

Lemma starts_not p c s r :
  p = String c "" → (code c = 93 ∨ code c = 125)%N → starts s = true → strip_prefix p (s +:+ r) = None.
Proof.
  intros -> Hc. destruct s as [|d s]; [done|]. cbn [starts]. intros H. rewrite sapp_cons. cbn [strip_prefix].
  destruct (Ascii.eqb_spec c d) as [->|]; [|done]. apply negb_true_iff in H. apply orb_false_iff in H as [H _].
  apply orb_false_iff in H as [H H1]. apply orb_false_iff in H as [_ H2]. rewrite N.eqb_neq in *. lia.
Qed.

Lemma starts_digit c s : is_digit c = true → starts (String c s) = true.
Proof.
  intros H. cbn [starts]. unfold is_ws. by rewrite !(is_digit_not c) by (done || lia).
Qed.

Lemma pretty_Z_starts (z : Z) : starts (pretty z) = true.
Proof.
  destruct z as [|p|p]; [done| |done]. change (pretty (Z.pos p)) with (pretty (Npos p)).
  destruct (pretty_N_digits (Npos p)) as (c & s & -> & Hd & _). apply starts_digit.
  exact (proj1 (proj1 (andb_true_iff _ _) Hd)).
Qed.

Lemma dumps_starts v : starts (dumps false v) = true.
Proof.
  destruct v as [|[]|z|z|s|l|d]; try done.
  - apply pretty_Z_starts.
  - pose proof (pretty_Z_starts z) as H. cbn [dumps]. destruct (pretty z); done.
Qed.

(** A numeral is no constant. *)
Lemma constant_pretty (z : Z) r : constant (constants pf) (pretty z +:+ r) = None.
Proof.
  assert (∀ c, is_digit c = true → ∀ d, (d = "n" ∨ d = "t" ∨ d = "f" ∨ d = "N" ∨ d = "I" ∨ d = "-")%char →
    Ascii.eqb d c = false) as Hne.
  { intros c Hc d Hd. apply Ascii.eqb_neq. intros <-. by destruct Hd as [->|[->|[->|[->|[->| ->]]]]]. }
  assert (∀ x : N, constant (constants pf) (pretty x +:+ r) = None ∧
                   constant (constants pf) (String "-" (pretty x +:+ r)) = None) as HN.
  { intros x. destruct (pretty_N_digits x) as (c & s & -> & Hd & _).
    pose proof (proj1 (proj1 (andb_true_iff _ _) Hd)) as Hc. cbn beta in Hc. rewrite sapp_cons.
    unfold constants. cbn [constant strip_prefix]. rewrite !(Hne c Hc) by tauto. done. }
  destruct z as [|p|p]; [exact (proj1 (HN 0%N))|exact (proj1 (HN (Npos p)))|exact (proj2 (HN (Npos p)))].
Qed.

(** The first byte of a numeral opens no string, array or object. *)
Lemma pretty_Z_head (z : Z) : ∃ c s, pretty z = String c s ∧
  (code c =? 34)%N = false ∧ (code c =? 123)%N = false ∧ (code c =? 91)%N = false.
Proof.
  assert (∀ x : N, ∃ c s, pretty x = String c s ∧
    (code c =? 34)%N = false ∧ (code c =? 123)%N = false ∧ (code c =? 91)%N = false) as HN.
  { intros x. destruct (pretty_N_digits x) as (c & s & -> & Hd & _).
    pose proof (proj1 (proj1 (andb_true_iff _ _) Hd)) as Hc. exists c, s. by rewrite !(is_digit_not c) by (done || lia). }
  destruct z as [|p|p]; [by exists "0"%char, ""|apply (HN (Npos p))|by exists "-"%char, (pretty (Npos p))].
Qed.

Lemma value_int n z r : stops r = true → value pf (S n) (pretty z +:+ r) = Some (Int z, r).
Proof.
  intros Hr. pose proof (constant_pretty z r) as Hc. pose proof (number_pretty pf z r Hr) as Hn.
  destruct (pretty_Z_head z) as (c & s & Hz & H1 & H2 & H3). rewrite Hz in *. rewrite sapp_cons in *.
  cbn [value]. by rewrite H1, H2, H3, Hc, Hn.
Qed.

Lemma value_str n s r : value pf (S n) (quote false s +:+ r) = Some (Str s, r).
Proof. rewrite quote_app. cbn [value]. change (code quote_char =? 34)%N with true. cbv iota. by rewrite scan_escape_controls. Qed.

Lemma dumps_length v : (1 <= String.length (dumps false v))%nat.
Proof. pose proof (dumps_starts v) as H. destruct (dumps false v); [done|cbn; lia]. Qed.

Lemma elements_join l : l ≠ [] → Forall (reads pf) l → forallb plain l = true → ∀ n r,
  (2 * String.length (join (map (dumps false) l)) <= n)%nat →
  elements pf n (join (map (dumps false) l) +:+ String "]" r) = Some (map canon l, r).
Proof.
  induction l as [|v l IH]; intros Hne Hl Hp n r Hn; [done|]. apply Forall_cons in Hl as [Hv Hl].
  cbn [forallb] in Hp. apply andb_true_iff in Hp as [Hpv Hp]. pose proof (dumps_length v).
  destruct l as [|w l].
  - cbn [map join] in *. destruct n as [|n]; [lia|]. rewrite elements_S, (Hv n) by (done || lia).
    cbn [mbind option_bind]. done.
  - change (join (map (dumps false) (v :: w :: l))) with
      (dumps false v +:+ "," +:+ join (map (dumps false) (w :: l))) in *.
    rewrite !slength_app in Hn. change (String.length ",") with 1%nat in Hn. destruct n as [|n]; [lia|].
    rewrite !sapp_assoc, elements_S, (Hv n) by (done || lia). cbn [mbind option_bind].
    change ("," +:+ ?x) with (String "," x). cbn [skip_ws]. change (is_ws ",") with false. cbv iota.
    change (code "," =? 93)%N with false. change (code "," =? 44)%N with true. cbv iota.
    assert (starts (join (map (dumps false) (w :: l))) = true) as Hs.
    { pose proof (dumps_starts w) as Hw. cbn [map join]. destruct l; [done|]. cbn [map].
      by destruct (dumps false w). }
    rewrite starts_skip by done. rewrite IH by (done || lia). done.
Qed.

Lemma members_join d : d ≠ [] → Forall (λ kv, reads pf kv.2) d → forallb (λ kv, plain kv.2) d = true → ∀ n acc r,
  NoDup (acc.*1 ++ d.*1) → (2 * String.length (join (map item d)) <= n)%nat →
  members pf n acc (join (map item d) +:+ String "}" r) = Some (acc ++ map (λ kv, (kv.1, canon kv.2)) d, r).
Proof.
  assert (∀ n acc k v r, reads pf v → plain v = true → (2 * String.length (item (k, v)) <= S n)%nat → stops r = true →
    members pf (S n) acc (item (k, v) +:+ r) =
    match skip_ws r with
    | String c r' =>
        if (code c =? 125)%N then Some (dput k (canon v) acc, r')
        else if (code c =? 44)%N then members pf n (dput k (canon v) acc) (skip_ws r')
        else None
    | EmptyString => None
    end) as Hitem.
  { intros n acc k v r Hv Hp Hn Hr. unfold item in *. cbn [fst snd] in *. rewrite !slength_app in Hn.
    change (String.length ":") with 1%nat in Hn. rewrite sapp_assoc, quote_app. cbn [members].
    change (code quote_char =? 34)%N with true. cbv iota. rewrite scan_escape_controls. cbn [mbind option_bind].
    change ((":" +:+ dumps false v) +:+ r) with (String ":" (dumps false v +:+ r)). cbn [skip_ws].
    change (is_ws ":") with false. cbv iota. change (strip_prefix ":" (String ":" ?x)) with (Some (A:=string) x).
    cbn [mbind option_bind].
    rewrite starts_skip by apply dumps_starts. rewrite Hv by (done || lia). done. }
  induction d as [|[k v] d IH]; intros Hne Hd Hp n acc r Hnd Hn; [done|]. apply Forall_cons in Hd as [Hv Hd].
  cbn [forallb] in Hp. apply andb_true_iff in Hp as [Hpv Hp]. cbn [snd] in *.
  assert (k ∉ acc.*1) as Hk.
  { rewrite fmap_cons in Hnd. apply NoDup_app in Hnd as (_ & Hnd & _). intros Hin. apply (Hnd k Hin). by left. }
  assert (1 <= String.length (item (k, v)))%nat by (unfold item; rewrite quote_app; cbn [String.length]; lia).
  destruct d as [|kv d].
  - cbn [map join] in *. destruct n as [|n]; [lia|]. rewrite Hitem by (done || lia). cbn [skip_ws].
    change (is_ws "}") with false. cbv iota. change (code "}" =? 125)%N with true. cbv iota. by rewrite dput_new.
  - change (join (map item ((k, v) :: kv :: d))) with (item (k, v) +:+ "," +:+ join (map item (kv :: d))) in *.
    rewrite !slength_app in Hn. change (String.length ",") with 1%nat in Hn. destruct n as [|n]; [lia|].
    rewrite !sapp_assoc, Hitem by (done || lia). change ("," +:+ ?x) with (String "," x). cbn [skip_ws].
    change (is_ws ",") with false. cbv iota. change (code "," =? 125)%N with false. change (code "," =? 44)%N with true. cbv iota.
    assert (starts (join (map item (kv :: d))) = true) as Hs by (cbn [map join]; by destruct d).
    rewrite starts_skip by done. rewrite dput_new by done. rewrite IH; [by rewrite <- app_assoc|done|done|done| |lia].
    rewrite fmap_app, <- app_assoc. exact Hnd.
Qed.

Lemma Forall_sorted {A} (P : A → Prop) (R : relation A) `{∀ x y, Decision (R x y)} l : Forall P l → Forall P (merge_sort R l).
Proof. intros Hl. by rewrite (merge_sort_Permutation R l). Qed.

Lemma value_dumps v : reads pf v.
Proof.
  induction v as [|b|z|z|s|l IH|d IH] using json_nested_ind; match goal with |- reads _ ?v => pose proof (dumps_length v) as Hlen end;
    intros [|n] r Hp Hn Hr; try lia.
  - done.
  - by destruct b.
  - by apply value_int.
  - done.
  - apply value_str.
  - cbn [plain] in Hp. cbn [dumps] in *.
    rewrite !slength_app in Hn. change (String.length "[") with 1%nat in Hn.
    rewrite sapp_assoc. change ("[" +:+ ?x) with (String "[" x). cbn [value].
    change (code "[" =? 34)%N with false. change (code "[" =? 123)%N with false. change (code "[" =? 91)%N with true. cbv iota.
    rewrite sapp_assoc. change ("]" +:+ r) with (String "]" r). destruct l as [|v l]; [done|].
    assert (starts (join (map (dumps false) (v :: l))) = true) as Hs.
    { pose proof (dumps_starts v) as Hw. cbn [map join]. destruct l; [done|]. cbn [map]. by destruct (dumps false v). }
    rewrite starts_skip by done. rewrite (starts_not "]" "]") by auto.
    rewrite elements_join by (done || lia). done.
  - clear Hlen. cbn [plain] in Hp. apply andb_true_iff in Hp as [Hnd%bool_decide_eq_true_1 Hp]. rewrite dumps_Obj in *.
    change (map (λ kv : string * json, quote false kv.1 +:+ ":" +:+ dumps false kv.2)) with (map item) in *.
    rewrite !slength_app in Hn. change (String.length "{") with 1%nat in Hn.
    rewrite sapp_assoc. change ("{" +:+ ?x) with (String "{" x). cbn [value].
    change (code "{" =? 34)%N with false. change (code "{" =? 123)%N with true. cbv iota.
    rewrite sapp_assoc. change ("}" +:+ r) with (String "}" r). cbn [canon].
    rewrite (merge_sort_map field_le field_le (λ kv : string * json, (kv.1, canon kv.2))) by done.
    pose proof (merge_sort_Permutation field_le d) as Hperm.
    assert (Forall (λ kv, reads pf kv.2) (merge_sort field_le d)) as IH' by (by rewrite Hperm).
    assert (forallb (λ kv, plain kv.2) (merge_sort field_le d) = true) as Hp'.
    { rewrite forallb_Forall in *. by rewrite Hperm. }
    assert (NoDup (merge_sort field_le d).*1) as Hnd' by (by rewrite Hperm).
    generalize dependent (merge_sort field_le d). intros e Hn _ IH' Hp' Hnd'. destruct e as [|kv e]; [done|].
    assert (starts (join (map item (kv :: e))) = true) as Hs by (cbn [map join]; by destruct e).
    rewrite starts_skip by done. rewrite (starts_not "}" "}") by auto.
    rewrite members_join by (done || lia). done.
Qed.

(** [json.loads] reads what [json.dumps] wrote, in sorted order. *)
Lemma loads_dumps v : plain v = true → loads pf (dumps false v) = Some (canon v).
Proof.
  intros Hp. unfold loads. pose proof (dumps_starts v) as Hs.
  assert (strip_prefix bom (dumps false v) = None) as ->.
  { destruct (dumps false v) as [|c s]; [done|]. unfold bom. cbn [strip_prefix starts] in *.
    destruct (Ascii.eqb_spec (byte 239) c) as [<-|]; done. }
  pose proof (starts_skip (dumps false v) "" Hs) as Hk. rewrite sapp_nil in Hk. rewrite Hk.
  pose proof (value_dumps v (fuel (dumps false v)) "" Hp ltac:(unfold fuel; lia) eq_refl) as Hv.
  rewrite sapp_nil in Hv. rewrite Hv. done.
Qed.
End RoundTrip.

(** ** The fuel is enough *)
Lemma skip_ws_length s : (String.length (skip_ws s) <= String.length s)%nat.
Proof. induction s as [|c s IH]; [done|]. cbn [skip_ws String.length]. destruct (is_ws c); cbn [String.length]; lia. Qed.

Lemma strip_prefix_length p s r : strip_prefix p s = Some r → (String.length r + String.length p = String.length s)%nat.
Proof.
  revert s. induction p as [|c p IH]; intros s; [intros [= <-]; cbn; lia|].
  destruct s as [|d s]; [done|]. cbn [strip_prefix String.length]. destruct (Ascii.eqb c d); [|done]. intros H%IH. lia.
Qed.

Lemma span_length p s a r : span p s = (a, r) → (String.length r + String.length a = String.length s)%nat.
Proof.
  revert a r. induction s as [|c s IH]; intros a r; cbn [span]; [by intros [= <- <-]|].
  destruct (p c); [|by intros [= <- <-]]. destruct (span p s) as [a' r'] eqn:E. intros [= <- <-].
  specialize (IH _ _ eq_refl). cbn [String.length]. lia.
Qed.

Lemma cons_char_Some c m x r : cons_char c m = Some (x, r) → ∃ y, m = Some (y, r).
Proof. destruct m as [[y r']|]; [|done]. intros [= <- <-]. by exists y. Qed.
Lemma cons_code_Some n m x r : cons_code n m = Some (x, r) → ∃ y, m = Some (y, r).
Proof. destruct m as [[y r']|]; [|done]. intros [= <- <-]. by exists y. Qed.

Lemma scan_string_length s x r : scan_string s = Some (x, r) → (String.length r < String.length s)%nat.
Proof.
  remember (String.length s) as n eqn:Hn. revert s x Hn. induction (lt_wf n) as [n _ IH]. intros s x ->.
  assert (∀ s' x', (String.length s' < String.length s)%nat → scan_string s' = Some (x', r) →
    (String.length r < String.length s)%nat) as IH'.
  { intros s' x' Hs Hx. specialize (IH _ Hs s' x' eq_refl Hx). lia. }
  clear IH. destruct s as [|c s]; [done|]. cbn [scan_string].
  destruct (code c =? 34)%N; [intros [= <- <-]; cbn [String.length]; lia|].
  destruct (code c =? 92)%N; cycle 1.
  { destruct (code c <? 32)%N; [done|]. intros [y Hy]%cons_char_Some. eapply IH', Hy. cbn [String.length]. lia. }
  destruct s as [|e s]; [done|]. destruct (code e =? 117)%N; cycle 1.
  { destruct (unescape e); [|done]. intros [y Hy]%cons_char_Some. eapply IH', Hy. cbn [String.length]. lia. }
  destruct s as [|h1 [|h2 [|h3 [|h4 s]]]]; try done. destruct (hex4_value h1 h2 h3 h4) as [n|]; [|done].
  cbn [mbind option_bind].
  assert (cons_code n (scan_string s) = Some (x, r) → (String.length r < S (S (S (S (S (S (String.length s)))))))%nat) as Hc.
  { intros [y Hy]%cons_code_Some. eapply IH', Hy. cbn [String.length]. lia. }
  destruct (high_surrogate n); [|exact Hc]. destruct s as [|b [|u [|l1 [|l2 [|l3 [|l4 s]]]]]]; try exact Hc.
  case_match; [|exact Hc]. destruct (low_surrogate _); [|exact Hc].
  intros [y Hy]%cons_code_Some. eapply IH', Hy. cbn [String.length]. lia.
Qed.

Lemma number_length pf s v r : number pf s = Some (v, r) → (String.length r < String.length s)%nat.
Proof.
  assert (∀ s i r, int_part s = Some (i, r) → (String.length r < String.length s)%nat) as Hi.
  { intros [|c t] i r'; [done|]. cbn [int_part]. repeat case_match; try done.
    - intros [= <- <-]. cbn [String.length]. lia.
    - cbn [span]. destruct (is_digit c); [|done]. destruct (span is_digit t) as [a r1] eqn:E. intros [= <- <-].
      apply span_length in E. cbn [String.length]. lia. }
  assert (∀ s f r, frac_part s = (f, r) → (String.length r <= String.length s)%nat) as Hf.
  { intros [|c t] f r'; cbn [frac_part]; [by intros [= <- <-]|]. destruct (span is_digit t) as [a r1] eqn:E.
    apply span_length in E. case_match; intros [= <- <-]; cbn [String.length]; lia. }
  assert (∀ s f r, sign_part s = (f, r) → (String.length r <= String.length s)%nat) as Hs.
  { intros [|c t] f r'; cbn [sign_part]; [by intros [= <- <-]|].
    case_match; intros [= <- <-]; cbn [String.length]; lia. }
  assert (∀ s f r, exp_part s = (f, r) → (String.length r <= String.length s)%nat) as He.
  { intros [|c t] f r'; cbn [exp_part]; [by intros [= <- <-]|]. destruct (sign_part t) as [sg s2] eqn:E2.
    destruct (span is_digit s2) as [a r1] eqn:E. apply Hs in E2.
    apply span_length in E. case_match; intros [= <- <-]; cbn [String.length]; lia. }
  unfold number. destruct (match s with String c s' => if (code c =? 45)%N then ("-", s') else ("", s) | EmptyString => ("", s) end)
    as [sg s1] eqn:E1.
  assert (String.length s1 <= String.length s)%nat as H1.
  { destruct s; [by simplify_eq|]. case_match; simplify_eq; cbn [String.length]; lia. }
  destruct (int_part s1) as [[i s2]|] eqn:E2; [|done]. cbn [mbind option_bind]. apply Hi in E2.
  destruct (frac_part s2) as [f s3] eqn:E3. apply Hf in E3. destruct (exp_part s3) as [e s4] eqn:E4. apply He in E4.
  destruct (Str.truthy f || Str.truthy e); intros [= <- <-]; lia.
Qed.

Lemma constant_length cs s v r : Forall (λ kv : string * json, kv.1 ≠ "") cs →
  constant cs s = Some (v, r) → (String.length r < String.length s)%nat.
Proof.
  induction 1 as [|[k w] cs Hk _ IH]; [done|]. cbn [constant]. destruct (strip_prefix k s) as [r'|] eqn:E; [|done].
  intros [= <- <-]. apply strip_prefix_length in E. destruct k; [done|]. cbn [String.length] in E. lia.
Qed.

Section Fuel.
Context (pf : string → Z).

(** Every parser consumes a character. *)
Lemma parsers_consume n :
  (∀ s v r, value pf n s = Some (v, r) → (String.length r < String.length s)%nat) ∧
  (∀ s v r, elements pf n s = Some (v, r) → (String.length r < String.length s)%nat) ∧
  (∀ acc s v r, members pf n acc s = Some (v, r) → (String.length r < String.length s)%nat).
Proof.
  induction n as [|n (IHv & IHe & IHm)]; [done|]. split; [|split].
  - intros [|c s] v r; [done|]. cbn [value]. pose proof (skip_ws_length s). cbn [String.length].
    destruct (code c =? 34)%N.
    { destruct (scan_string s) as [[x r']|] eqn:E; [|done]. intros [= <- <-]. by apply scan_string_length in E; lia. }
    destruct (code c =? 123)%N.
    { destruct (strip_prefix "}" (skip_ws s)) as [r'|] eqn:E.
      - intros [= <- <-]. apply strip_prefix_length in E. lia.
      - destruct (members pf n [] (skip_ws s)) as [[d r']|] eqn:E'; [|done]. intros [= <- <-]. apply IHm in E'. lia. }
    destruct (code c =? 91)%N.
    { destruct (strip_prefix "]" (skip_ws s)) as [r'|] eqn:E.
      - intros [= <- <-]. apply strip_prefix_length in E. lia.
      - destruct (elements pf n (skip_ws s)) as [[d r']|] eqn:E'; [|done]. intros [= <- <-]. apply IHe in E'. lia. }
    destruct (constant (constants pf) (String c s)) as [[w r']|] eqn:E.
    { intros [= <- <-]. apply constant_length in E; [exact E|by repeat constructor]. }
    apply number_length.
  - intros s v r. rewrite elements_S. destruct (value pf n s) as [[x r1]|] eqn:E; [|done]. cbn [mbind option_bind].
    apply IHv in E. pose proof (skip_ws_length r1). destruct (skip_ws r1) as [|c r2] eqn:E2; [done|].
    cbn [String.length] in *. pose proof (skip_ws_length r2).
    destruct (code c =? 93)%N; [intros [= <- <-]; lia|]. destruct (code c =? 44)%N; [|done].
    destruct (elements pf n (skip_ws r2)) as [[l r3]|] eqn:E3; [|done]. intros [= <- <-]. apply IHe in E3. lia.
  - intros acc [|c s] v r; [done|]. cbn [members]. destruct (code c =? 34)%N; [|done].
    destruct (scan_string s) as [[k r1]|] eqn:E1; [|done]. cbn [mbind option_bind]. apply scan_string_length in E1.
    pose proof (skip_ws_length r1). destruct (strip_prefix ":" (skip_ws r1)) as [r2|] eqn:E2; [|done].
    cbn [mbind option_bind]. apply strip_prefix_length in E2. pose proof (skip_ws_length r2).
    destruct (value pf n (skip_ws r2)) as [[x r3]|] eqn:E3; [|done]. cbn [mbind option_bind]. apply IHv in E3.
    pose proof (skip_ws_length r3). destruct (skip_ws r3) as [|d r4] eqn:E4; [done|]. cbn [String.length] in *.
    pose proof (skip_ws_length r4). destruct (code d =? 125)%N; [intros [= <- <-]; lia|].
    destruct (code d =? 44)%N; [|done]. intros H9%IHm. lia.
Qed.

(** More fuel than twice the length changes nothing: [loads] fails only where
    the text is no document. *)
Lemma fuel_enough n :
  (∀ m s, (2 * String.length s < n)%nat → (2 * String.length s < m)%nat → value pf n s = value pf m s) ∧
  (∀ m s, (2 * String.length s + 1 < n)%nat → (2 * String.length s + 1 < m)%nat → elements pf n s = elements pf m s) ∧
  (∀ m acc s, (2 * String.length s < n)%nat → (2 * String.length s < m)%nat → members pf n acc s = members pf m acc s).
Proof.
  induction n as [|n (IHv & IHe & IHm)]; [split; [|split]; intros; lia|]. split; [|split].
  - intros [|m] s Hn Hm; [lia|]. destruct s as [|c s]; [done|]. cbn [value String.length] in *.
    pose proof (skip_ws_length s). by rewrite (IHm m) , (IHe m) by lia.
  - intros [|m] s Hn Hm; [lia|]. rewrite !elements_S. rewrite (IHv m) by lia.
    destruct (value pf m s) as [[x r1]|] eqn:E; [|done]. cbn [mbind option_bind].
    apply parsers_consume in E. pose proof (skip_ws_length r1). destruct (skip_ws r1) as [|c r2] eqn:E2; [done|].
    cbn [String.length] in *. pose proof (skip_ws_length r2). by rewrite (IHe m) by lia.
  - intros [|m] acc s Hn Hm; [lia|]. destruct s as [|c s]; [done|]. cbn [members String.length] in *.
    destruct (code c =? 34)%N; [|done].
    destruct (scan_string s) as [[k r1]|] eqn:E1; [|done]. cbn [mbind option_bind]. apply scan_string_length in E1.
    pose proof (skip_ws_length r1). destruct (strip_prefix ":" (skip_ws r1)) as [r2|] eqn:E2; [|done].
    cbn [mbind option_bind]. apply strip_prefix_length in E2. pose proof (skip_ws_length r2).
    rewrite (IHv m) by lia. destruct (value pf m (skip_ws r2)) as [[x r3]|] eqn:E3; [|done]. cbn [mbind option_bind].
    apply parsers_consume in E3.
    pose proof (skip_ws_length r3). destruct (skip_ws r3) as [|d r4] eqn:E4; [done|]. cbn [String.length] in *.
    pose proof (skip_ws_length r4). by rewrite (IHm m) by lia.
Qed.
End Fuel.

(** ** Canonical documents *)
Lemma field_sorted_unique (l1 l2 : list (string * json)) :
  l1 ≡ₚ l2 → NoDup l1.*1 → StronglySorted field_le l1 → StronglySorted field_le l2 → l1 = l2.
Proof.
  revert l2. induction l1 as [|x l1 IH]; intros l2 Hp Hnd H1 H2; [by apply Permutation_nil_l in Hp|].
  destruct l2 as [|y l2]; [by symmetry in Hp; apply Permutation_nil_l in Hp|].
  apply StronglySorted_inv in H1 as [H1 Hx], H2 as [H2 Hy]. rewrite Forall_forall in Hx, Hy.
  assert (x = y) as ->.
  { assert (x ∈ y :: l2) as Hxl by (rewrite <- Hp; by left). apply elem_of_cons in Hxl as [->|Hxl]; [done|].
    assert (y ∈ x :: l1) as Hyl by (rewrite Hp; by left). apply elem_of_cons in Hyl as [->|Hyl]; [done|exfalso].
    rewrite fmap_cons in Hnd. apply NoDup_cons in Hnd as [Hnx _]. apply Hnx.
    rewrite (anti_symm String.le x.1 y.1 (Hx y Hyl) (Hy x Hxl)). by apply list_elem_of_fmap_2. }
  f_equal. apply IH; [by eapply Permutation_cons_inv| |done|done]. rewrite fmap_cons in Hnd. by apply NoDup_cons in Hnd as [_ Hnd].
Qed.

#[export] Instance field_le_total : Total field_le.
Proof. intros x y. apply (total String.le). Qed.
#[export] Instance field_le_trans : Transitive field_le.
Proof. intros x y z. apply (transitivity (R := String.le)). Qed.

Lemma merge_sort_field_idemp d : NoDup d.*1 → merge_sort field_le (merge_sort field_le d) = merge_sort field_le d.
Proof.
  intros Hd. apply field_sorted_unique; [apply (merge_sort_Permutation field_le)| |apply (StronglySorted_merge_sort field_le)..].
  by rewrite !(merge_sort_Permutation field_le).
Qed.

Lemma canon_Obj d : canon (Obj d) = Obj (map (λ kv, (kv.1, canon kv.2)) (merge_sort field_le d)).
Proof. cbn [canon]. by rewrite (merge_sort_map field_le field_le (λ kv : string * json, (kv.1, canon kv.2))). Qed.

Lemma dget_canon d k : NoDup d.*1 → dget k (map (λ kv, (kv.1, canon kv.2)) (merge_sort field_le d)) = canon <$> dget k d.
Proof.
  intros Hnd. rewrite <- (dget_perm (merge_sort field_le d) d k); [|by rewrite merge_sort_Permutation|apply merge_sort_Permutation].
  induction (merge_sort field_le d) as [|[k' v] l IH]; [done|]. cbn [map fst snd]. rewrite !dget_cons, IH. by case_decide.
Qed.

Lemma map_canon_keys (d : list (string * json)) : (map (λ kv, (kv.1, canon kv.2)) d).*1 = d.*1.
Proof. change @map with (@fmap list list_fmap). rewrite <- list_fmap_compose. by apply list_fmap_ext. Qed.

Lemma plain_canon v : plain v = true → plain (canon v) = true.
Proof.
  induction v as [| | | | |l IH|d IH] using json_nested_ind; try done; intros Hp.
  - cbn [plain canon] in *. rewrite forallb_Forall in *. rewrite Forall_forall in *. intros x Hx.
    change @map with (@fmap list list_fmap) in Hx. apply list_elem_of_fmap in Hx as (y & -> & Hy). auto.
  - rewrite canon_Obj. cbn [plain] in *. apply andb_true_iff in Hp as [Hnd%bool_decide_eq_true_1 Hp].
    apply andb_true_iff. split; [apply bool_decide_eq_true_2|].
    + rewrite map_canon_keys. by rewrite (merge_sort_Permutation field_le).
    + rewrite forallb_Forall in *. rewrite Forall_forall in *. intros x Hx.
      change @map with (@fmap list list_fmap) in Hx. apply list_elem_of_fmap in Hx as (y & -> & Hy).
      rewrite (merge_sort_Permutation field_le) in Hy. cbn. auto.
Qed.

Lemma dumps_canon {b} v : plain v = true → dumps b (canon v) = dumps b v.
Proof.
  induction v as [| | | | |l IH|d IH] using json_nested_ind; try done; intros Hp.
  - cbn [plain canon dumps] in *. rewrite map_map. do 3 f_equal. apply map_ext_Forall.
    rewrite forallb_Forall in Hp. rewrite Forall_forall in *. auto.
  - cbn [plain] in Hp. apply andb_true_iff in Hp as [Hnd%bool_decide_eq_true_1 Hp].
    rewrite canon_Obj, !dumps_Obj. rewrite (merge_sort_map field_le field_le (λ kv : string * json, (kv.1, canon kv.2))) by done.
    rewrite merge_sort_field_idemp by done. rewrite map_map. do 3 f_equal. apply map_ext_Forall.
    rewrite forallb_Forall in Hp. apply Forall_sorted. rewrite Forall_forall in *.
    intros x Hx. cbn. by rewrite IH by auto.
Qed.

Lemma canon_idemp v : plain v = true → canon (canon v) = canon v.
Proof.
  induction v as [| | | | |l IH|d IH] using json_nested_ind; try done; intros Hp.
  - cbn [plain canon] in *. rewrite map_map. f_equal. apply map_ext_Forall.
    rewrite forallb_Forall in Hp. rewrite Forall_forall in *. auto.
  - cbn [plain] in Hp. apply andb_true_iff in Hp as [Hnd%bool_decide_eq_true_1 Hp].
    rewrite canon_Obj, canon_Obj. rewrite (merge_sort_map field_le field_le (λ kv : string * json, (kv.1, canon kv.2))) by done.
    rewrite merge_sort_field_idemp by done. rewrite map_map. f_equal. apply map_ext_Forall.
    rewrite forallb_Forall in Hp. apply Forall_sorted. rewrite Forall_forall in *.
    intros x Hx. cbn. f_equal. auto.
Qed.

(** What is read back from two documents is equal exactly if their texts are. *)
Lemma dumps_inj v w : plain v = true → plain w = true → dumps false v = dumps false w → canon v = canon w.
Proof.
  intros Hv Hw E. pose proof (loads_dumps (λ _, 0%Z) v Hv) as H. rewrite E, loads_dumps in H by done. by injection H.
Qed.

(** ** The text of a document is one line *)
Lemma printable_app a b : printable (a +:+ b) = printable a && printable b.
Proof. unfold printable. by rewrite list_ascii_app, forallb_app. Qed.

Lemma printable_escape s : printable (escape_controls s) = true.
Proof.
  induction s as [|c s IH]; [done|]. rewrite escape_controls_cons, printable_app, IH, andb_true_r.
  by destruct c as [[] [] [] [] [] [] [] []].
Qed.

Lemma printable_quote s : printable (quote false s) = true.
Proof. unfold quote. cbv zeta. by rewrite !printable_app, printable_escape. Qed.

Lemma printable_join l : Forall (λ s, printable s = true) l → printable (join l) = true.
Proof.
  induction 1 as [|x l Hx _ IH]; [done|]. cbn [join]. destruct l; [done|]. by rewrite !printable_app, Hx, IH.
Qed.

Lemma printable_pretty (z : Z) : printable (pretty z) = true.
Proof.
  assert (∀ x : N, printable (pretty x) = true) as HN.
  { intros x. destruct (pretty_N_digits x) as (c & p & -> & Hd & _). unfold printable. rewrite forallb_forall in *.
    intros d Hd'. specialize (Hd d Hd'). unfold is_digit in Hd. apply andb_true_iff in Hd as [Hd%N.leb_le _].
    apply N.leb_le. lia. }
  destruct z as [|p|p]; [done|apply (HN (Npos p))|apply (HN (Npos p))].
Qed.

Lemma printable_dumps v : printable (dumps false v) = true.
Proof.
  induction v as [|[]|z|z|s|l IH|d IH] using json_nested_ind; try done.
  - apply printable_pretty.
  - cbn [dumps]. by rewrite printable_app, printable_pretty.
  - apply printable_quote.
  - cbn [dumps]. rewrite !printable_app. rewrite printable_join; [done|]. change @map with (@fmap list list_fmap).
    by rewrite Forall_fmap.
  - rewrite dumps_Obj, !printable_app. rewrite printable_join; [done|]. change @map with (@fmap list list_fmap).
    rewrite Forall_fmap. apply Forall_sorted. eapply Forall_impl; [exact IH|]. intros [k v] Hv.
    change (printable (quote false k +:+ ":" +:+ dumps false v) = true). cbn [snd] in Hv.
    by rewrite !printable_app, printable_quote, Hv.
Qed.
