(* ===== verification/Graph.v ===== *)
(** Dependency graphs over string ids, for the components that order tasks:
    what it means for an order to respect the dependencies, and for a set of
    tasks to have no cycle. *)
From S2P Require Import Prelude.

Section Graph.
Context (deps : string → list string).

(** Every dependency of an element that is in the list comes before it. *)
Definition causal (l : list string) : Prop :=
  ∀ k i d, l !! k = Some i → d ∈ deps i → d ∈ l → d ∈ take k l.

(** Every non-empty set of tasks has one that depends on none of the others. *)
Definition acyclic (P : gset string) : Prop :=
  ∀ Q : gset string, Q ⊆ P → Q ≠ ∅ → ∃ i, i ∈ Q ∧ ∀ d, d ∈ deps i → d ∉ Q.

Lemma acyclic_subseteq P Q : Q ⊆ P → acyclic P → acyclic Q.
Proof. intros HQ H R HR. apply H. by transitivity Q. Qed.

Lemma causal_nil : causal [].
Proof. intros k i d H. by rewrite lookup_nil in H. Qed.

(** A block of elements that depend on nothing of the whole may come first. *)
Lemma causal_app l1 l2 :
  (∀ i d, i ∈ l1 → d ∈ deps i → d ∉ l1 ++ l2) → causal l2 → causal (l1 ++ l2).
Proof.
  intros H1 H2 k i d Hk Hd Hin. apply lookup_app_Some in Hk as [Hk|[Hge Hk]].
  - apply list_elem_of_lookup_2 in Hk. by destruct (H1 i d Hk Hd).
  - rewrite take_app_ge by done. apply elem_of_app. apply elem_of_app in Hin as [?|?]; [by left|right].
    by apply (H2 _ i).
Qed.

(** An element nothing depends on may come last. *)
Lemma causal_snoc l x : causal l → (∀ i, i ∈ l ++ [x] → x ∉ deps i) → causal (l ++ [x]).
Proof.
  intros Hl Hx k i d Hk Hd Hin.
  assert (d ∈ l) as Hdl.
  { apply elem_of_app in Hin as [|Hin%list_elem_of_singleton]; [done|]. subst d.
    by destruct (Hx i (list_elem_of_lookup_2 _ _ _ Hk)). }
  apply lookup_app_Some in Hk as [Hk|[Hge Hk]].
  - rewrite take_app_le by (apply lookup_lt_Some in Hk; lia). by apply (Hl k i).
  - rewrite take_app_ge by done. apply elem_of_app. by left.
Qed.

(** A list that holds the dependencies of its elements, each before the
    element, has no cycle. *)
Lemma causal_acyclic l : causal l → acyclic (list_to_set l).
Proof.
  intros Hl Q HQ Hne. apply set_choose_L in Hne as [x Hx].
  destruct (list_find_elem_of (.∈ Q) l x) as [[k i] Hk]; [by apply (elem_of_list_to_set (C:=gset string)), HQ|done|].
  apply list_find_Some in Hk as (Hk & Hi & Hfirst). exists i. split; [done|]. intros d Hd Hin.
  assert (d ∈ take k l) as Htake.
  { apply (Hl k i); [done|done|]. by apply (elem_of_list_to_set (C:=gset string)), HQ. }
  apply list_elem_of_lookup in Htake as [m Hm]. apply lookup_take_Some in Hm as [Hm Hlt].
  by destruct (Hfirst m d Hm Hlt).
Qed.

Lemma acyclic_perm l1 l2 : l1 ≡ₚ l2 → acyclic (list_to_set l1) → acyclic (list_to_set l2).
Proof. intros Hp. by rewrite (list_to_set_perm_L l1 l2 Hp). Qed.
End Graph.
