(* ===== verification/Effects.v ===== *)
(** Programs with state and exceptions. A method that changes its object, calls
    others and may raise half-way is a [prog]: it takes the state and returns
    the state it leaves, also when it raises. Weakest preconditions state what
    such a program does; they compute through its binds. *)
From S2P Require Import Prelude.

Definition prog (S E A : Type) : Type := S → S * result E A.

Section Prog.
Context {S E : Type}.
Implicit Types (s : S) (e : E).

#[export] Instance prog_ret : MRet (prog S E) := λ A a s, (s, Ok a).
#[export] Instance prog_bind : MBind (prog S E) := λ A B k m s,
  match m s with
  | (s', Ok a) => k a s'
  | (s', Err e) => (s', Err e)
  end.

Definition raise {A} e : prog S E A := λ s, (s, Err e).
Definition get_state : prog S E S := λ s, (s, Ok s).
Definition put_state s' : prog S E unit := λ _, (s', Ok tt).
Definition raise_if (b : bool) e : prog S E unit := if b then raise e else mret tt.
Definition of_result {A} (r : result E A) : prog S E A := λ s, (s, r).

(** [try: m except ...: h]; [h] says which exceptions it takes. *)
Definition try_except {A} (m : prog S E A) (h : E → option (prog S E A)) : prog S E A := λ s,
  match m s with
  | (s', Ok a) => (s', Ok a)
  | (s', Err e) => match h e with Some k => k s' | None => (s', Err e) end
  end.
End Prog.

(** [raise F(...) from exc] around a whole program. *)
Definition rescue {S E F A} (f : E → F) (m : prog S E A) : prog S F A := λ s,
  match m s with
  | (s', Ok a) => (s', Ok a)
  | (s', Err e) => (s', Err (f e))
  end.

(** A program on one object inside a larger state. *)
Definition zoom {S T E A} (proj : S → T) (set : T → S → S) (m : prog T E A) : prog S E A := λ s,
  let (t, r) := m (proj s) in (set t s, r).

(** [for x in l: f(x)] *)
Fixpoint for_each {S E X} (f : X → prog S E unit) (l : list X) : prog S E unit :=
  match l with
  | [] => mret tt
  | x :: l' => f x ≫= λ _, for_each f l'
  end.

(** ** Weakest preconditions *)

Definition wp {S E A} (m : prog S E A) (Q : result E A → S → Prop) (s : S) : Prop := Q (m s).2 (m s).1.

Section Wp.
Context {S E : Type}.
Implicit Types s : S.

Lemma wp_ret {A} (a : A) (Q : result E A → S → Prop) s : wp (mret a) Q s ↔ Q (Ok a) s.
Proof. done. Qed.

Lemma wp_raise {A} (e : E) (Q : result E A → S → Prop) s : wp (raise e) Q s ↔ Q (Err e) s.
Proof. done. Qed.

Lemma wp_bind {A B} (m : prog S E A) (k : A → prog S E B) Q s :
  wp (m ≫= k) Q s ↔ wp m (λ r s', match r with Ok a => wp (k a) Q s' | Err e => Q (Err e) s' end) s.
Proof. unfold wp, mbind, prog_bind. destruct (m s) as [s' [a|e]]; done. Qed.

Lemma wp_mono {A} (m : prog S E A) (Q Q' : result E A → S → Prop) s :
  wp m Q s → (∀ r s', Q r s' → Q' r s') → wp m Q' s.
Proof. unfold wp. auto. Qed.

#[export] Instance wp_proper {A} (m : prog S E A) :
  Proper (pointwise_relation _ (pointwise_relation _ iff) ==> eq ==> iff) (wp m).
Proof. intros Q Q' HQ s ? <-. unfold wp. apply HQ. Qed.

Lemma wp_raise_if (b : bool) (e : E) Q s :
  wp (raise_if b e) Q s ↔ (b = true → Q (Err e) s) ∧ (b = false → Q (Ok tt) s).
Proof. destruct b; cbn; unfold wp; cbn; naive_solver. Qed.

Lemma wp_run {A} (m : prog S E A) Q s : wp m Q s ↔ ∃ s' r, m s = (s', r) ∧ Q r s'.
Proof. unfold wp. destruct (m s) as [s' r]. cbn. naive_solver. Qed.

Lemma wp_try {A} (m : prog S E A) h Q s :
  wp (try_except m h) Q s ↔ wp m (λ r s', match r with
    | Ok a => Q (Ok a) s'
    | Err e => match h e with Some k => wp k Q s' | None => Q (Err e) s' end end) s.
Proof. unfold wp, try_except. destruct (m s) as [s' [a|e]]; cbn; [done|]. destruct (h e); done. Qed.

Lemma bind_ok {A B} (m : prog S E A) (k : A → prog S E B) s s' a : m s = (s', Ok a) → (m ≫= k) s = k a s'.
Proof. intros H. unfold mbind, prog_bind. by rewrite H. Qed.

Lemma bind_err {A B} (m : prog S E A) (k : A → prog S E B) s s' e : m s = (s', Err e) → (m ≫= k) s = (s', Err e).
Proof. intros H. unfold mbind, prog_bind. by rewrite H. Qed.

Lemma bind_run {A B} (m : prog S E A) (f : A → prog S E B) s :
  (m ≫= f) s = let (s', x) := m s in match x with Ok a => f a s' | Err e => (s', Err e) end.
Proof. unfold mbind, prog_bind. by destruct (m s) as [s' [a|e]]. Qed.
Lemma bind_get {A} (f : S → prog S E A) s : (get_state ≫= f) s = f s s.
Proof. done. Qed.
Lemma bind_raise_if {A} (b : bool) (x : E) (f : unit → prog S E A) s : (raise_if b x ≫= f) s = if b then (s, Err x) else f tt s.
Proof. by destruct b. Qed.

Lemma bind_assoc {A B C} (m : prog S E A) (k : A → prog S E B) (h : B → prog S E C) s :
  ((m ≫= k) ≫= h) s = (m ≫= λ a, k a ≫= h) s.
Proof. unfold mbind, prog_bind. destruct (m s) as [s' [a|e]]; done. Qed.

(** A relation between the states before and after, whatever is returned. *)
Definition moves (R : relation S) {A} (m : prog S E A) : Prop := ∀ s, R s (m s).1.

Lemma moves_ret R `{!Reflexive R} {A} (a : A) : moves R (mret a).
Proof. intros s. cbn. done. Qed.
Lemma moves_raise R `{!Reflexive R} {A} (e : E) : moves R (raise (A := A) e).
Proof. intros s. cbn. done. Qed.
Lemma moves_raise_if R `{!Reflexive R} (b : bool) (e : E) : moves R (raise_if b e).
Proof. intros s. by destruct b. Qed.
Lemma moves_bind R `{!Transitive R} {A B} (m : prog S E A) (k : A → prog S E B) :
  moves R m → (∀ a, moves R (k a)) → moves R (m ≫= k).
Proof.
  intros Hm Hk s. unfold mbind, prog_bind. specialize (Hm s). destruct (m s) as [s' [a|e]]; cbn in *; [|done].
  etransitivity; [exact Hm|apply Hk].
Qed.
Lemma moves_try R `{!Transitive R} {A} (m : prog S E A) h :
  moves R m → (∀ e k, h e = Some k → moves R k) → moves R (try_except m h).
Proof.
  intros Hm Hh s. unfold try_except. specialize (Hm s). destruct (m s) as [s' [a|e]]; cbn in *; [done|].
  destruct (h e) as [k|] eqn:E1; [|done]. etransitivity; [exact Hm|by apply (Hh e)].
Qed.
Lemma moves_for_each R `{!Reflexive R} `{!Transitive R} {X} (f : X → prog S E unit) l :
  (∀ x, moves R (f x)) → moves R (for_each f l).
Proof. intros Hf. induction l as [|x l IH]; [by apply moves_ret|]. apply moves_bind; [done|done|auto]. Qed.

Lemma wp_moves R {A} (m : prog S E A) Q s : moves R m → (∀ r s', R s s' → Q r s') → wp m Q s.
Proof. intros Hm HQ. unfold wp. apply HQ, Hm. Qed.

Lemma wp_of_result {A B} (r : result E A) (k : A → prog S E B) Q s :
  wp (of_result r ≫= k) Q s ↔ match r with Ok a => wp (k a) Q s | Err e => Q (Err e) s end.
Proof. by destruct r. Qed.

Lemma wp_bind_ret (m : prog S E unit) Q s : wp (m ≫= λ u, mret u) Q s ↔ wp m Q s.
Proof. unfold wp, mbind, prog_bind. by destruct (m s) as [s' [[]|e]]. Qed.
End Wp.

Lemma wp_rescue {S E F A} (f : E → F) (m : prog S E A) Q (s : S) :
  wp (rescue f m) Q s ↔ wp m (λ r s', match r with Ok a => Q (Ok a) s' | Err e => Q (Err (f e)) s' end) s.
Proof. unfold wp, rescue. destruct (m s) as [s' [a|e]]; done. Qed.

Lemma wp_zoom {S T E A} (proj : S → T) set (m : prog T E A) Q (s : S) :
  wp (zoom proj set m) Q s ↔ wp m (λ r t, Q r (set t s)) (proj s).
Proof. unfold wp, zoom. destruct (m (proj s)); done. Qed.

(** Programs that keep a part of their state. *)
Definition keeps {S T E A} (f : S → T) (m : prog S E A) : Prop := moves (λ s s', f s' = f s) m.

Section Keeps.
Context {S T E : Type} (f : S → T).

#[export] Instance keeps_preorder : PreOrder (λ s s' : S, f s' = f s).
Proof. split; [done|]. intros x y z. cbn. congruence. Qed.

Lemma keeps_ret {A} (a : A) : keeps f (mret a : prog S E A).
Proof. done. Qed.
Lemma keeps_raise {A} (e : E) : keeps f (raise (A := A) e).
Proof. done. Qed.
Lemma keeps_raise_if (b : bool) (e : E) : keeps f (raise_if b e).
Proof. intros s. by destruct b. Qed.
Lemma keeps_bind {A B} (m : prog S E A) (k : A → prog S E B) : keeps f m → (∀ a, keeps f (k a)) → keeps f (m ≫= k).
Proof. unfold keeps. intros Hm Hk. apply moves_bind; [apply _|done|done]. Qed.

(** What follows a program that keeps the part starts from the same part. *)
Lemma wp_keeps_bind {A B} (m : prog S E A) (k : A → prog S E B) Q s :
  keeps f m → (∀ a s', f s' = f s → wp (k a) Q s') → (∀ e s', f s' = f s → Q (Err e) s') → wp (m ≫= k) Q s.
Proof.
  intros Hm Hk He. rewrite wp_bind. apply (wp_moves (λ s s', f s' = f s)); [exact Hm|]. intros [a|e] s' Hs; [by apply Hk|by apply He].
Qed.
Lemma wp_keeps {A} (m : prog S E A) Q s : keeps f m → (∀ r s', f s' = f s → Q r s') → wp m Q s.
Proof. intros Hm HQ. by apply (wp_moves (λ s s', f s' = f s)). Qed.
End Keeps.

#[export] Hint Resolve moves_ret moves_raise moves_raise_if keeps_ret keeps_raise keeps_raise_if : py.

(** Steps a program that [moved] shows to move its state by a reflexive and
    transitive relation only, keeping how the state is related to that of
    [base]; what it raises must close the goal. *)
Ltac quietly_by R moved base :=
  rewrite ?wp_bind; apply (wp_moves R);
    [moved
    |let r := fresh "r" in let w' := fresh "w'" in let Hq := fresh "Hq" in
     intros r w' Hq;
     assert (R base w') by first [exact Hq|etransitivity; [eassumption|exact Hq]]; clear Hq;
     destruct r as [?|?]; [cbn beta iota|first [by left|by split|left; by split]]].
