(* ===== verification/Journal.v ===== *)
(** The operations journal that Loop's durable stores project their state from.
    The journal itself belongs to MapperStore, which is not part of the
    repository: it is a type class with the laws the stores rely on, replay and
    compare-and-swap append. On top of it, the optimistic loop the stores share
    ([_replay], [_state], decide, [_append] with the expected sequence number,
    retry on conflict) as a machine of concurrent processes, and the theorem
    that it refines the one-process specification. *)
From S2P Require Import Prelude.
Local Open Scope Z_scope.
Local Open Scope py_scope.

(** * The interface *)

(** What [replay] returns: validity of the hash chain, the events with their
    sequence numbers, the last number compaction has dropped. *)
Record Replay (E : Type) := mkReplay {
  rp_valid : bool;
  rp_events : list (Z * E);
  rp_through : option Z;
}.
Arguments mkReplay {E}.
Arguments rp_valid {E}.
Arguments rp_events {E}.
Arguments rp_through {E}.

Definition last_seq_from {E} (base : Z) (evs : list (Z * E)) : Z :=
  match last evs with Some (s, _) => s | None => base end.

(** [_last_seq] *)
Definition last_seq {E} (r : Replay E) : Z := last_seq_from (default 0 (rp_through r)) (rp_events r).

(** [append_event] fails with a [JOURNAL_CONFLICT] or for another reason. *)
Inductive AppendError : Type :=
| JournalConflict
| JournalFailed (msg : string).

Class JournalOps (J E : Type) := {
  replay : J → Replay E;
  append_event : J → E → Z → result AppendError J;
}.

Class JournalLaws (J E : Type) `{JournalOps J E} := {
  append_event_ok (j j' : J) (e : E) q : append_event j e q = Ok j' →
    q = last_seq (replay j) ∧ ∃ s, last_seq (replay j) < s ∧
      replay j' = mkReplay (rp_valid (replay j)) (rp_events (replay j) ++ [(s, e)]) (rp_through (replay j));
  append_event_conflict (j : J) (e : E) q : append_event j e q = Err JournalConflict → q ≠ last_seq (replay j);
}.

(** * The optimistic client *)

(** What one turn of a store's loop decides on the projected state: to return,
    or to append an event and then return or go on with another operation. *)
Inductive TurnOutcome (E Out Op : Type) : Type :=
| Return (o : Out)
| Append (e : E) (next : Out + Op).
Arguments Return {E Out Op}.
Arguments Append {E Out Op}.

(** A store: its empty state and how an event changes it, the check of an
    operation's arguments before its loop, one turn of the loop at the time it reads, how
    often it tries ([None]: until it succeeds), and its exceptions. *)
Record Client (E S X Op Out : Type) := mkClient {
  initial : S;
  apply : S → E → result X S;
  check : Op → result X Op;
  turn : Op → S → Z → result X (TurnOutcome E Out Op);
  tries : Op → option nat;
  exn_invalid : X;
  exn_contended : Op → X;
  exn_failed : string → X;
}.
Arguments mkClient {E S X Op Out}.
Arguments initial {E S X Op Out}.
Arguments apply {E S X Op Out}.
Arguments check {E S X Op Out}.
Arguments turn {E S X Op Out}.
Arguments tries {E S X Op Out}.
Arguments exn_invalid {E S X Op Out}.
Arguments exn_contended {E S X Op Out}.
Arguments exn_failed {E S X Op Out}.

(** [_state]: the projection of the events. *)
Definition project {E S X Op Out} (c : Client E S X Op Out) (evs : list (Z * E)) : result X S :=
  foldl (λ acc e, let? s := acc in apply c s e.2) (Ok (initial c)) evs.

Section Machine.
Context {J E S X Op Out : Type} `{!JournalOps J E} (c : Client E S X Op Out).

(** The turn of [op] on a replay. *)
Definition attempt (op : Op) (r : Replay E) (now : Z) : result X (TurnOutcome E Out Op) :=
  if rp_valid r then let? s := project c (rp_events r) in turn c op s now else Err (exn_invalid c).

(** A process inside an operation: the tries left and, between replay and
    append, the sequence number and event it is going to append. *)
Record Proc := mkProc {
  p_op : Op;
  p_tries : option nat;
  p_pending : option (Z * Z * E * (Out + Op));
}.

(** An effective turn: its process, operation, time and decision. *)
Record Action := mkAction {
  a_pid : positive;
  a_op : Op;
  a_now : Z;
  a_decision : result X (TurnOutcome E Out Op);
}.

Record World := mkWorld {
  w_journal : J;
  w_procs : gmap positive Proc;
  w_log : list Action;
  w_results : list (positive * result X Out);
}.

Definition exhausted (t : option nat) : bool := match t with Some O => true | _ => false end.
Definition one_less (t : option nat) : option nat := Nat.pred <$> t.

(** A process begins, is refused, replays, appends or gives up. *)
Inductive jstep : World → World → Prop :=
| jstep_start j ps log res pid op op' : ps !! pid = None → check c op = Ok op' →
    jstep (mkWorld j ps log res) (mkWorld j (<[pid := mkProc op' (tries c op') None]> ps) log res)
| jstep_refused j ps log res pid op x : ps !! pid = None → check c op = Err x →
    jstep (mkWorld j ps log res) (mkWorld j ps log (res ++ [(pid, Err x)]))
| jstep_contended j ps log res pid op t : ps !! pid = Some (mkProc op t None) → exhausted t = true →
    jstep (mkWorld j ps log res) (mkWorld j (delete pid ps) log (res ++ [(pid, Err (exn_contended c op))]))
| jstep_raise j ps log res pid op t now x : ps !! pid = Some (mkProc op t None) → exhausted t = false →
    attempt op (replay j) now = Err x →
    jstep (mkWorld j ps log res)
      (mkWorld j (delete pid ps) (log ++ [mkAction pid op now (Err x)]) (res ++ [(pid, Err x)]))
| jstep_return j ps log res pid op t now o : ps !! pid = Some (mkProc op t None) → exhausted t = false →
    attempt op (replay j) now = Ok (Return o) →
    jstep (mkWorld j ps log res)
      (mkWorld j (delete pid ps) (log ++ [mkAction pid op now (Ok (Return o))]) (res ++ [(pid, Ok o)]))
| jstep_replay j ps log res pid op t now e next : ps !! pid = Some (mkProc op t None) → exhausted t = false →
    attempt op (replay j) now = Ok (Append e next) →
    jstep (mkWorld j ps log res)
      (mkWorld j (<[pid := mkProc op t (Some (last_seq (replay j), now, e, next))]> ps) log res)
| jstep_commit j j' ps log res pid op t q now e next : ps !! pid = Some (mkProc op t (Some (q, now, e, next))) →
    append_event j e q = Ok j' →
    jstep (mkWorld j ps log res)
      (match next with
       | inl o => mkWorld j' (delete pid ps) (log ++ [mkAction pid op now (Ok (Append e next))]) (res ++ [(pid, Ok o)])
       | inr op' => mkWorld j' (<[pid := mkProc op' (tries c op') None]> ps) (log ++ [mkAction pid op now (Ok (Append e next))]) res
       end)
| jstep_conflict j ps log res pid op t q now e next : ps !! pid = Some (mkProc op t (Some (q, now, e, next))) →
    append_event j e q = Err JournalConflict →
    jstep (mkWorld j ps log res) (mkWorld j (<[pid := mkProc op (one_less t) None]> ps) log res)
| jstep_failed j ps log res pid op t q now e next msg : ps !! pid = Some (mkProc op t (Some (q, now, e, next))) →
    append_event j e q = Err (JournalFailed msg) →
    jstep (mkWorld j ps log res) (mkWorld j (delete pid ps) log (res ++ [(pid, Err (exn_failed c msg))])).

Definition start_world (j : J) : World := mkWorld j ∅ [] [].

(** * The specification *)

(** The store used by one process at a time: each action decides on the state
    its predecessors left. *)
Inductive serial : list (Z * E) → list Action → list (Z * E) → Prop :=
| serial_nil evs : serial evs [] evs
| serial_quiet evs evs' a log : serial evs log evs' →
    (let? s := project c evs' in turn c (a_op a) s (a_now a)) = a_decision a →
    (∀ e next, a_decision a ≠ Ok (Append e next)) → serial evs (log ++ [a]) evs'
| serial_append evs evs' a log e next s : serial evs log evs' →
    (let? st := project c evs' in turn c (a_op a) st (a_now a)) = a_decision a →
    a_decision a = Ok (Append e next) → serial evs (log ++ [a]) (evs' ++ [(s, e)]).

(** The operations a process can be in: checked, or continued after an append. *)
Inductive issued : Op → Prop :=
| issued_check op op' : check c op = Ok op' → issued op'
| issued_next op s now e op' : issued op → turn c op s now = Ok (Append e (inr op')) → issued op'.

(** A journal nobody has written to, and the worlds reached from one. *)
Definition fresh (j : J) : Prop := rp_valid (replay j) = true ∧ rp_events (replay j) = [].
Definition reachable (w : World) : Prop := ∃ j, fresh j ∧ rtc jstep (start_world j) w.

(** One turn with no other process in between. *)
Definition run_turn (j : J) (op : Op) (now : Z) : J * result X (Out + Op) :=
  match attempt op (replay j) now with
  | Err x => (j, Err x)
  | Ok (Return o) => (j, Ok (inl o))
  | Ok (Append e next) =>
      match append_event j e (last_seq (replay j)) with
      | Ok j' => (j', Ok next)
      | Err JournalConflict => (j, Err (exn_contended c op))
      | Err (JournalFailed msg) => (j, Err (exn_failed c msg))
      end
  end.

(** A whole operation with no other process, its clock constant; the fuel
    bounds the turns of the loops that go on after an append. *)
Fixpoint run_alone (fuel : nat) (j : J) (op : Op) (now : Z) : J * result X Out :=
  match fuel with
  | O => (j, Err (exn_contended c op))
  | Datatypes.S fuel' =>
      match run_turn j op now with
      | (j', Err x) => (j', Err x)
      | (j', Ok (inl o)) => (j', Ok o)
      | (j', Ok (inr op')) => run_alone fuel' j' op' now
      end
  end.

(** Whole operations one after the other, in the machine. *)
Definition start (w : World) (pid : positive) (op : Op) : World :=
  mkWorld (w_journal w) (<[pid := mkProc op (tries c op) None]> (w_procs w)) (w_log w) (w_results w).

Fixpoint play_op (fuel : nat) (w : World) (pid : positive) (op : Op) (now : Z) : World :=
  match fuel with
  | O => start w pid op
  | Datatypes.S fuel' =>
      let '(mkWorld j ps log res) := w in
      match attempt op (replay j) now with
      | Err x => mkWorld j (delete pid ps) (log ++ [mkAction pid op now (Err x)]) (res ++ [(pid, Err x)])
      | Ok (Return o) => mkWorld j (delete pid ps) (log ++ [mkAction pid op now (Ok (Return o))]) (res ++ [(pid, Ok o)])
      | Ok (Append e next) =>
          match append_event j e (last_seq (replay j)) with
          | Ok j' =>
              let log' := log ++ [mkAction pid op now (Ok (Append e next))] in
              match next with
              | inl o => mkWorld j' (delete pid ps) log' (res ++ [(pid, Ok o)])
              | inr op' => play_op fuel' (mkWorld j' ps log' res) pid op' now
              end
          | Err _ => start w pid op
          end
      end
  end.

Definition play (fuel : nat) (w : World) (calls : list (positive * Op * Z)) : World :=
  foldl (λ w '(pid, op, now),
           match decide (w_procs w !! pid = None), check c op with
           | left _, Ok op' => play_op fuel w pid op' now
           | _, _ => w
           end) w calls.
End Machine.

(** * Lemmas *)

Section Refinement.
Context {J E S X Op Out : Type} `{JournalLaws J E} (c : Client E S X Op Out).

(** Sequence numbers grow. *)
Fixpoint seqs_ok (base : Z) (evs : list (Z * E)) : Prop :=
  match evs with
  | [] => True
  | (s, _) :: evs' => base < s ∧ seqs_ok s evs'
  end.

Lemma last_seq_from_cons base s e (evs : list (Z * E)) : last_seq_from base ((s, e) :: evs) = last_seq_from s evs.
Proof. unfold last_seq_from. rewrite last_cons. by destruct (last evs) as [[]|]. Qed.

Lemma last_seq_from_ge base evs : seqs_ok base evs → base <= last_seq_from base evs ∧ (evs ≠ [] → base < last_seq_from base evs).
Proof.
  revert base. induction evs as [|[s e] evs IH]; intros base Hok; [unfold last_seq_from; simpl; split; [lia|done]|].
  destruct Hok as [Hs Hok]. rewrite last_seq_from_cons. destruct (IH s Hok). split; [lia|]. intros _. lia.
Qed.

Lemma seqs_ok_app base evs1 evs2 : seqs_ok base (evs1 ++ evs2) ↔ seqs_ok base evs1 ∧ seqs_ok (last_seq_from base evs1) evs2.
Proof.
  revert base. induction evs1 as [|[s e] evs1 IH]; intros base; [unfold last_seq_from; simpl; tauto|].
  cbn [app seqs_ok]. rewrite IH, last_seq_from_cons. tauto.
Qed.

(** A replay is current exactly if its last number is. *)
Lemma prefix_current base evs1 evs2 :
  seqs_ok base (evs1 ++ evs2) → last_seq_from base evs1 = last_seq_from base (evs1 ++ evs2) → evs2 = [].
Proof.
  intros [_ Hok]%seqs_ok_app Heq. destruct evs2 as [|[s e] evs2]; [done|exfalso].
  assert (last_seq_from base (evs1 ++ (s, e) :: evs2) = last_seq_from (last_seq_from base evs1) ((s, e) :: evs2)) as Hl.
  { unfold last_seq_from. rewrite last_app, !last_cons. by destruct (last evs2) as [[]|]. }
  destruct (last_seq_from_ge _ _ Hok) as [_ Hlt]. rewrite <- Hl, <- Heq in Hlt. specialize (Hlt ltac:(done)). lia.
Qed.

(** The events of the journal, and the replay a pending append was decided on. *)
Definition pending_ok (base : Z) (evs : list (Z * E)) (p : Proc (E:=E) (Op:=Op) (Out:=Out)) : Prop :=
  match p_pending p with
  | None => True
  | Some (q, now, e, next) => ∃ evs1 evs2, evs = evs1 ++ evs2 ∧ q = last_seq_from base evs1 ∧
      (let? s := project c evs1 in turn c (p_op p) s now) = Ok (Append e next)
  end.

Definition world_ok (j0 : J) (w : World (J:=J) (E:=E) (X:=X) (Op:=Op) (Out:=Out)) : Prop :=
  let base := default 0 (rp_through (replay j0)) in
  rp_valid (replay (w_journal w)) = true ∧ rp_through (replay (w_journal w)) = rp_through (replay j0) ∧
  seqs_ok base (rp_events (replay (w_journal w))) ∧
  serial c (rp_events (replay j0)) (w_log w) (rp_events (replay (w_journal w))) ∧
  map_Forall (λ _ p, pending_ok base (rp_events (replay (w_journal w))) p) (w_procs w) ∧
  map_Forall (λ _ p, issued c (p_op p)) (w_procs w) ∧ ∀ a, a ∈ w_log w → issued c (a_op a).

Lemma pending_ok_app base evs evs' p : pending_ok base evs p → pending_ok base (evs ++ evs') p.
Proof.
  unfold pending_ok. destruct (p_pending p) as [[[[q now] e] next]|]; [|done].
  intros (evs1 & evs2 & -> & Hq & Hd). exists evs1, (evs2 ++ evs'). by rewrite app_assoc.
Qed.

(** A commit lands on the events its turn was decided on. *)
Lemma commit_current base evs p q now e next :
  p_pending p = Some (q, now, e, next) → pending_ok base evs p → seqs_ok base evs → q = last_seq_from base evs →
  (let? s := project c evs in turn c (p_op p) s now) = Ok (Append e next).
Proof.
  unfold pending_ok. intros -> (evs1 & evs2 & -> & -> & Hd) Hok Hq.
  apply prefix_current in Hq as ->; [|done]. by rewrite app_nil_r.
Qed.

Lemma attempt_valid op r now : rp_valid r = true → attempt c op r now = let? s := project c (rp_events r) in turn c op s now.
Proof. unfold attempt. by intros ->. Qed.

Lemma log_issued_snoc (log : list (Action (E:=E) (X:=X) (Op:=Op) (Out:=Out))) a :
  (∀ a, a ∈ log → issued c (a_op a)) → issued c (a_op a) → ∀ a', a' ∈ log ++ [a] → issued c (a_op a').
Proof. intros Hl Ha a' [H1|H1%list_elem_of_singleton]%elem_of_app; [by apply Hl|by subst a']. Qed.

Lemma turn_of_attempt (evs : list (Z * E)) op now d e next :
  d = Ok (Append e next) → (let? s := project c evs in turn c op s now) = d → ∃ s, turn c op s now = Ok (Append e next).
Proof. intros -> Hd. destruct (project c evs) as [s|]; [by exists s|done]. Qed.

Lemma world_ok_commit j0 j j' ps log res pid op t q now e next :
  world_ok j0 (mkWorld j ps log res) → ps !! pid = Some (mkProc op t (Some (q, now, e, next))) → append_event j e q = Ok j' →
  world_ok j0 (match next with
    | inl o => mkWorld j' (delete pid ps) (log ++ [mkAction pid op now (Ok (Append e next))]) (res ++ [(pid, Ok o)])
    | inr op' => mkWorld j' (<[pid := mkProc op' (tries c op') None]> ps) (log ++ [mkAction pid op now (Ok (Append e next))]) res
    end).
Proof.
  intros (Hv & Ht & Hok & Hser & Hps & His & Hlog) Hp Happ; cbn [w_journal w_procs w_log] in *.
  destruct (append_event_ok _ _ _ _ Happ) as (Hq & s & Hs & Hr). unfold last_seq in Hq, Hs. rewrite Ht in Hq, Hs.
  pose proof (commit_current _ _ (mkProc op t (Some (q, now, e, next))) _ _ _ _ eq_refl (Hps _ _ Hp) Hok Hq) as Hd; cbn [p_op] in Hd.
  pose proof (His _ _ Hp) as Hop. cbn [p_op] in Hop.
  assert (serial c (rp_events (replay j0)) (log ++ [mkAction pid op now (Ok (Append e next))])
            (rp_events (replay j) ++ [(s, e)])) as Hser' by (eapply serial_append; done).
  assert (map_Forall (λ _ p, pending_ok (default 0 (rp_through (replay j0))) (rp_events (replay j) ++ [(s, e)]) p) ps) as Hps'.
  { intros i p Hi. by apply pending_ok_app, (Hps i). }
  assert (seqs_ok (default 0 (rp_through (replay j0))) (rp_events (replay j) ++ [(s, e)])) as Hok'.
  { apply seqs_ok_app. split; [done|]. by split. }
  pose proof (log_issued_snoc log (mkAction pid op now (Ok (Append e next))) Hlog Hop) as Hlog'.
  destruct next as [o|op']; unfold world_ok; cbn [w_journal w_procs w_log]; rewrite Hr; cbn [rp_valid rp_events rp_through];
    repeat (split; [done|]).
  - split; [by apply map_Forall_delete|]. split; [by apply map_Forall_delete|done].
  - destruct (turn_of_attempt _ _ _ _ _ _ eq_refl Hd) as [st Hst].
    split; [by apply map_Forall_insert_2|]. split; [apply map_Forall_insert_2; [by eapply issued_next|done]|done].
Qed.

Lemma world_ok_step j0 w w' : world_ok j0 w → jstep c w w' → world_ok j0 w'.
Proof.
  intros Hw Hstep.
  destruct Hstep as [j ps log res pid op op' Hp Hc|j ps log res pid op x Hp Hc|j ps log res pid op t Hp Ht
    |j ps log res pid op t now x Hp Hx Ha|j ps log res pid op t now o Hp Hx Ha|j ps log res pid op t now e next Hp Hx Ha
    |j j' ps log res pid op t q now e next Hp Ha|j ps log res pid op t q now e next Hp Ha
    |j ps log res pid op t q now e next msg Hp Ha]; [..|by eapply world_ok_commit| |];
    destruct Hw as (Hv & Hth & Hok & Hser & Hps & His & Hlog); unfold world_ok; cbn [w_journal w_procs w_log w_results] in *;
    try (rewrite attempt_valid in Ha by done); try (pose proof (His _ _ Hp) as Hop; cbn [p_op] in Hop);
    repeat (split; [done|]).
  - split; [by apply map_Forall_insert_2|]. split; [apply map_Forall_insert_2; [by eapply issued_check|done]|done].
  - done.
  - split; [by apply map_Forall_delete|]. split; [by apply map_Forall_delete|done].
  - split; [by apply serial_quiet|]. split; [by apply map_Forall_delete|]. split; [by apply map_Forall_delete|].
    by apply log_issued_snoc.
  - split; [by apply serial_quiet|]. split; [by apply map_Forall_delete|]. split; [by apply map_Forall_delete|].
    by apply log_issued_snoc.
  - split; [|split; [by apply map_Forall_insert_2|done]]. apply map_Forall_insert_2; [|done].
    eexists _, []. rewrite app_nil_r. split; [done|]. split; [|done]. unfold last_seq. by rewrite Hth.
  - split; [by apply map_Forall_insert_2|]. split; [by apply map_Forall_insert_2|done].
  - split; [by apply map_Forall_delete|]. split; [by apply map_Forall_delete|done].
Qed.

(** Whatever the processes interleave, the turns that take effect, in the order
    of the log, are a run of the store by one process at a time. *)
Lemma optimistic_world_ok j0 w :
  rp_valid (replay j0) = true → seqs_ok (default 0 (rp_through (replay j0))) (rp_events (replay j0)) →
  rtc (jstep c) (start_world j0) w → world_ok j0 w.
Proof.
  intros Hv Hok Hr. revert Hr. apply (rtc_ind_r (λ w, world_ok j0 w)).
  - repeat (split; [done|]). split; [apply serial_nil|]. split; [apply map_Forall_empty|]. split; [apply map_Forall_empty|].
    intros a Ha. by apply not_elem_of_nil in Ha.
  - intros w1 w2 _ Hstep Hw. by apply (world_ok_step j0 w1).
Qed.

(** A successful reply is that of a turn that took effect. *)
Lemma results_backed j0 w : rtc (jstep c) (start_world j0) w →
  ∀ pid o, (pid, Ok o) ∈ w_results w →
  ∃ a, a ∈ w_log w ∧ a_pid a = pid ∧ (a_decision a = Ok (Return o) ∨ ∃ e, a_decision a = Ok (Append e (inl o))).
Proof.
  apply (rtc_ind_r (λ w, ∀ pid o, (pid, Ok o) ∈ w_results w → ∃ a, a ∈ w_log w ∧ a_pid a = pid ∧ _)).
  { intros pid o Hin. by apply not_elem_of_nil in Hin. }
  assert (∀ (log : list (Action (E:=E) (X:=X) (Op:=Op) (Out:=Out))) log' pid o, (∃ a, a ∈ log ∧ a_pid a = pid ∧
    (a_decision a = Ok (Return o) ∨ ∃ e, a_decision a = Ok (Append e (inl o)))) → ∃ a, a ∈ log ++ log' ∧ a_pid a = pid ∧
    (a_decision a = Ok (Return o) ∨ ∃ e, a_decision a = Ok (Append e (inl o)))) as Hmore.
  { intros log log' pid o (a & Ha & Hd). exists a. split; [apply elem_of_app; by left|done]. }
  intros w1 w2 _ Hstep IH pid o Hin. inv Hstep; try destruct next as [o'|op']; cbn [w_results w_log] in *;
    try (apply elem_of_app in Hin as [Hin|Hin%list_elem_of_singleton]); try discriminate Hin;
    try (apply Hmore; by apply IH); try (by apply IH); injection Hin as <- <-;
    (eexists; split; [apply elem_of_app; right; by left|split; [done|by eauto]]).
Qed.

(** What the clients use of a reachable world. *)
Lemma reachable_serial (w : World (J:=J) (E:=E) (X:=X) (Op:=Op) (Out:=Out)) : reachable c w →
  serial c [] (w_log w) (rp_events (replay (w_journal w))) ∧ rp_valid (replay (w_journal w)) = true ∧
  (∀ a, a ∈ w_log w → issued c (a_op a)) ∧
  (∀ pid o, (pid, Ok o) ∈ w_results w →
     ∃ a, a ∈ w_log w ∧ a_pid a = pid ∧ (a_decision a = Ok (Return o) ∨ ∃ e, a_decision a = Ok (Append e (inl o)))).
Proof.
  intros (j & [Hv Hn] & Hr).
  assert (seqs_ok (default 0 (rp_through (replay j))) (rp_events (replay j))) as Hok by by rewrite Hn.
  destruct (optimistic_world_ok j w Hv Hok Hr) as (Hv' & _ & _ & Hser & _ & _ & Hlog). rewrite Hn in Hser.
  split; [done|]. split; [done|]. split; [done|]. by apply (results_backed j).
Qed.

Lemma project_snoc (evs : list (Z * E)) q e : project c (evs ++ [(q, e)]) = let? s := project c evs in apply c s e.
Proof. unfold project. by rewrite foldl_snoc. Qed.

(** Induction over a serial run: an invariant of the log and the projected state. *)
Lemma serial_inv (I : list (Action (E:=E) (X:=X) (Op:=Op) (Out:=Out)) → S → Prop) log evs :
  serial c [] log evs → (∀ a, a ∈ log → issued c (a_op a)) → I [] (initial c) →
  (∀ log s a, issued c (a_op a) → I log s → turn c (a_op a) s (a_now a) = a_decision a →
     match a_decision a with
     | Ok (Append e _) => ∃ s', apply c s e = Ok s' ∧ I (log ++ [a]) s'
     | _ => I (log ++ [a]) s
     end) →
  ∃ s, project c evs = Ok s ∧ I log s.
Proof.
  remember [] as evs0 eqn:Hevs0. intros Hser Hiss Hinit Hstep.
  induction Hser as [evs|evs evs' a log Hser IH Ha Hq|evs evs' a log e next q Hser IH Ha Hd]; [subst; by exists (initial c)|..].
  all: destruct (IH Hevs0 (λ a' Ha', Hiss a' (proj2 (elem_of_app _ _ _) (or_introl Ha')))) as (s & Hs & HI).
  all: assert (issued c (a_op a)) as Hop by (apply Hiss, elem_of_app; right; by left).
  all: rewrite Hs in Ha; cbn [rbind] in Ha; pose proof (Hstep log s a Hop HI Ha) as Hnext.
  - exists s. split; [done|]. destruct (a_decision a) as [[o|e next]|x]; [done| |done]. by destruct (Hq e next).
  - rewrite Hd in Hnext. destruct Hnext as (s' & Happ & HI'). exists s'. split; [|done]. by rewrite project_snoc, Hs.
Qed.

Lemma play_op_reachable fuel w pid op now :
  (∀ op, exhausted (tries c op) = false) → rtc (jstep c) (start c w pid op) (play_op c fuel w pid op now).
Proof.
  intros Htries. revert w op. induction fuel as [|fuel IH]; intros [j ps log res] op; [done|].
  unfold start at 1. cbn [play_op w_journal w_procs w_log w_results].
  set (ps1 := <[pid := mkProc op (tries c op) None]> ps).
  assert (ps1 !! pid = Some (mkProc op (tries c op) None)) as Hp by apply lookup_insert_eq.
  assert (∀ p, <[pid := p]> ps1 = <[pid := p]> ps) as Hins by (intros p; apply insert_insert_eq).
  assert (delete pid ps1 = delete pid ps) as Hdel by apply delete_insert_eq.
  destruct (attempt c op (replay j) now) as [[o|e next]|x] eqn:Ea.
  - rewrite <- Hdel. apply rtc_once. by apply (jstep_return c _ _ _ _ pid op (tries c op)).
  - destruct (append_event j e (last_seq (replay j))) as [j'|err] eqn:Eapp; [|done].
    eapply rtc_l; [by apply (jstep_replay c _ _ _ _ pid op (tries c op) now e next)|]. rewrite Hins.
    pose proof (jstep_commit c j j' (<[pid := mkProc op (tries c op) (Some (last_seq (replay j), now, e, next))]> ps)
                  log res pid op (tries c op) _ now e next (lookup_insert_eq _ _ _) Eapp) as Hc.
    destruct next as [o|op'].
    + rewrite delete_insert_eq in Hc. by apply rtc_once.
    + rewrite insert_insert_eq in Hc. eapply rtc_l; [exact Hc|]. apply (IH (mkWorld j' ps _ res) op').
  - rewrite <- Hdel. apply rtc_once. by apply (jstep_raise c _ _ _ _ pid op (tries c op)).
Qed.

Lemma play_reachable fuel w calls : (∀ op, exhausted (tries c op) = false) → rtc (jstep c) w (play c fuel w calls).
Proof.
  intros Htries. revert w. induction calls as [|[[pid op] now] calls IH]; intros w; [done|].
  unfold play. cbn [foldl]. destruct (decide (w_procs w !! pid = None)) as [Hp|]; [|apply IH].
  destruct (check c op) as [op'|] eqn:Ec; [|apply IH].
  eapply rtc_l; [|etransitivity; [by apply (play_op_reachable fuel w pid op' now)|apply IH]].
  destruct w as [j ps log res]. by apply (jstep_start c _ _ _ _ _ op).
Qed.
End Refinement.

(** * A journal in memory *)

(** The instance the examples run on: a list numbered from one. *)
Record MemJournal (E : Type) := mkMem { mem_events : list (Z * E) }.
Arguments mkMem {E}.
Arguments mem_events {E}.

#[export] Instance mem_ops E : JournalOps (MemJournal E) E := {
  replay j := mkReplay true (mem_events j) None;
  append_event j e q :=
    if q =? last_seq_from 0 (mem_events j) then Ok (mkMem (mem_events j ++ [(q + 1, e)])) else Err JournalConflict;
}.

#[export] Instance mem_laws E : JournalLaws (MemJournal E) E.
Proof.
  split; intros j; intros; unfold append_event, mem_ops in *;
    match goal with H : context [?q =? ?l] |- _ => destruct (Z.eqb_spec q l) as [Hq|Hq]; try done; injection H as <- end.
  split; [done|]. exists (q + 1). split; [|done]. change (last_seq_from 0 (mem_events j) < q + 1). lia.
Qed.
