(* ===== verification/MapperQueue.v ===== *)
(** The queue operations of MapperStore as Loop uses them: the adapter over the
    installed store ([simplicio_loop/mapper_operations.py]) and the queue
    facade over the adapter ([simplicio_loop/mapper_remote_queue.py]). The
    store is not part of the repository: it is the type class
    [OperationsStore] of its methods, each a program on its state that may
    raise. *)
From stdpp Require Import pretty.
From S2P Require Import Prelude PyLib PyText PyJson Effects.
Import Json.
Local Open Scope Z_scope.
Local Open Scope py_scope.

(** * Definitions *)

Notation dict := (list (string * json)).

(** ** The installed store *)

(** What a method of the store raises: its own error with a reason code, an
    error of the operating system, anything else. *)
Inductive StoreExn : Type :=
| OperationsStoreError (reason_code : option string) (detail : string)
| StoreOSError (detail : string)
| StoreOtherError (detail : string).

Class OperationsStore (M : Type) := {
  store_enqueue : string → dict → string → Z → prog M StoreExn json;
  store_claim_task : string → string → string → Z → prog M StoreExn (option dict);
  store_heartbeat : string → string → Z → prog M StoreExn dict;
  store_assert_active : string → string → prog M StoreExn json;
  store_release : string → string → prog M StoreExn json;
  store_complete : string → string → string → dict → prog M StoreExn dict;
  store_requeue : string → prog M StoreExn json;
  store_reclaim_expired : prog M StoreExn json;
  store_request_cancel : string → string → prog M StoreExn json;
  store_list_ready : Z → prog M StoreExn dict;
  store_status : string → prog M StoreExn dict;
}.

(** ** MapperOperationsAdapter *)

(** [QueueConflict], [QueueUnavailable] and [MapperOperationsError]; the errors
    of the run time for a missing key and a value of the wrong form. *)
Inductive MapperExn : Type :=
| QueueConflict (msg : string)
| QueueUnavailable (msg : string)
| MapperOperationsError (reason_code detail : string)
| KeyError (key : string)
| ValueError (msg : string).

Record OperationLease := mkOperationLease {
  op_task_id : string;
  op_attempt_id : string;
  op_fence_token : string;
  op_lease_id : string;
  op_worker_id : string;
  op_payload : dict;
  op_expires_at : option Z;
  op_cancelled : bool;
}.
#[export] Instance OperationLease_eta : Eta OperationLease := λ l,
  mkOperationLease (op_task_id l) (op_attempt_id l) (op_fence_token l) (op_lease_id l) (op_worker_id l)
    (op_payload l) (op_expires_at l) (op_cancelled l).

Definition CONFLICT_CODES : list string :=
  ["STALE_FENCE"; "LEASE_NOT_ACTIVE"; "LEASE_EXPIRED"; "SLOT_CAPACITY"; "IDEMPOTENCY_CONFLICT";
   "RECEIPT_REQUIRED"; "EFFECT_RECONCILIATION_PENDING"].
Definition NOT_FOUND_CODES : list string := ["TASK_NOT_FOUND"; "SLOT_NOT_FOUND"; "EFFECT_NOT_FOUND"].

Definition raise_operation_error (reason_code : option string) (detail : string) : MapperExn :=
  let reason := default "MAPPER_OPERATION_FAILED" reason_code in
  if bool_decide (reason ∈ CONFLICT_CODES) then QueueConflict (reason +:+ ": " +:+ detail)
  else if bool_decide (reason ∈ NOT_FOUND_CODES) then KeyError detail
  else MapperOperationsError reason detail.

Definition translate (e : StoreExn) : MapperExn :=
  match e with
  | OperationsStoreError reason detail => raise_operation_error reason detail
  | StoreOSError detail => QueueUnavailable ("MapperStore unavailable: " +:+ detail)
  | StoreOtherError detail => MapperOperationsError "MAPPER_OPERATION_FAILED" detail
  end.

(** [_call] *)
Definition call {M A} (m : prog M StoreExn A) : prog M MapperExn A := rescue translate m.

(** [value[key]] of a dict *)
Definition item (d : dict) (key : string) : result MapperExn json := or_raise (dget key d) (KeyError key).
(** [float(v)] *)
Definition as_float (v : json) : result MapperExn Z := or_raise (Val.to_float v) (ValueError "could not convert to float").

(** [_lease]; a payload is an object. *)
Definition lease_of (value : dict) : result MapperExn OperationLease :=
  let? t := item value "task_id" in
  let? a := item value "attempt_id" in
  let? f := item value "fence_token" in
  let? l := item value "lease_id" in
  let? w := item value "worker_id" in
  let? payload := match Val.or_else (Val.get "payload" value) (Obj []) with
                  | Obj d => Ok d
                  | _ => Err (ValueError "dictionary update sequence")
                  end in
  let? expires := match Val.get "expires_at" value with
                  | Null => Ok None
                  | v => let? x := as_float v in Ok (Some x)
                  end in
  Ok (mkOperationLease (Val.str t) (Val.str a) (Val.str f) (Val.str l) (Val.str w) payload expires
        (Val.truthy (Val.get_or "cancelled" value (Bool false)))).

Module Adapter.
Section Adapter.
Context {M : Type} `{!OperationsStore M}.

Definition enqueue (task_id : string) (payload : dict) (idempotency_key : string) (priority : Z) : prog M MapperExn json :=
  call (store_enqueue task_id payload idempotency_key priority).
Definition claim_task (task_id worker_id slot_id : string) (lease_seconds : Z) : prog M MapperExn (option OperationLease) :=
  value ← call (store_claim_task task_id worker_id slot_id lease_seconds);
  match value with
  | Some v => l ← of_result (lease_of v); mret (Some l)
  | None => mret None
  end.
Definition list_ready (limit : Z) : prog M MapperExn dict := call (store_list_ready limit).
Definition heartbeat (lease : OperationLease) (lease_seconds : Z) : prog M MapperExn OperationLease :=
  value ← call (store_heartbeat (op_attempt_id lease) (op_fence_token lease) lease_seconds);
  expires ← of_result (let? v := item value "expires_at" in as_float v);
  mret (lease <| op_expires_at := Some expires |>
              <| op_cancelled := Val.truthy (Val.get_or "cancelled" value (Bool (op_cancelled lease))) |>).
Definition assert_active (lease : OperationLease) : prog M MapperExn json :=
  call (store_assert_active (op_attempt_id lease) (op_fence_token lease)).
Definition request_cancel (task_id reason : string) : prog M MapperExn json := call (store_request_cancel task_id reason).
Definition release (lease : OperationLease) : prog M MapperExn json :=
  call (store_release (op_attempt_id lease) (op_fence_token lease)).
Definition complete (lease : OperationLease) (receipt : dict) (status : string) : prog M MapperExn dict :=
  call (store_complete (op_attempt_id lease) (op_fence_token lease) status receipt).
Definition requeue (task_id : string) : prog M MapperExn json := call (store_requeue task_id).
Definition reclaim_expired : prog M MapperExn json := call store_reclaim_expired.
Definition status (task_id : string) : prog M MapperExn dict := call (store_status task_id).
End Adapter.
End Adapter.

(** ** MapperRemoteQueue *)

Definition MAPPER_QUEUE_SCHEMA : string := "simplicio.loop.mapper-remote-queue/v1".
Definition MAPPER_RECEIPT_SCHEMA : string := "simplicio.mapper-store.queue-receipt/v1".

(** The [Lease] of remote_queue.py; MapperStore's tokens are strings. *)
Record Lease := mkLease {
  task_id : string;
  agent_id : string;
  lease_id : string;
  fencing_token : string;
  expires_at : Z;
  idempotency_key : string;
  identity : dict;
  capabilities : list string;
  cancelled : bool;
  attempt_id : string;
}.
#[export] Instance Lease_eta : Eta Lease := λ l,
  mkLease (task_id l) (agent_id l) (lease_id l) (fencing_token l) (expires_at l) (idempotency_key l)
    (identity l) (capabilities l) (cancelled l) (attempt_id l).

(** [_lease_from_json] of what [_lease_json] wrote. *)
Definition lease_from_json (l : Lease) : result MapperExn Lease :=
  if negb (Str.truthy (Str.strip (fencing_token l))) then Err (ValueError "fencing_token must not be empty") else Ok l.

Definition digest (body : dict) : string := "sha256:" +:+ Sha256.hexdigest (dumps false (Obj body)).

Definition receipt_body (task_id agent_id fencing_token receipt_ref : string) (detail : dict) : dict :=
  [("schema", Str MAPPER_RECEIPT_SCHEMA); ("task_id", Str task_id); ("agent_id", Str agent_id);
   ("fencing_token", Str fencing_token); ("receipt_ref", Str receipt_ref)]
  ++ match detail with [] => [] | _ => [("detail", Obj detail)] end.

(** [build_mapper_completion_receipt] *)
Definition build_completion_receipt (task_id agent_id fencing_token receipt_ref : string) (detail : dict) : dict :=
  let body := receipt_body task_id agent_id fencing_token receipt_ref detail in
  body ++ [("receipt_sha", Str (digest body))].

Definition operation_to_lease (value : OperationLease) (idempotency_key : string) : result MapperExn Lease :=
  match op_expires_at value with
  | None => Err (QueueUnavailable "MapperStore returned a lease without expiry")
  | Some e => Ok (mkLease (op_task_id value) (op_worker_id value) (op_lease_id value) (op_fence_token value) e
                    idempotency_key [("agent_id", Str (op_worker_id value))] [] (op_cancelled value) (op_attempt_id value))
  end.

Definition operation_lease (l : Lease) : OperationLease :=
  mkOperationLease (task_id l) (attempt_id l) (fencing_token l) (lease_id l) (agent_id l) [] (Some (expires_at l)) (cancelled l).

(** What [for value in v] goes through. *)
Definition iterate (v : json) : result MapperExn (list json) :=
  match v with
  | List l => Ok l
  | Str s => Ok (Str <$> Text.characters s)
  | Obj d => Ok (Str <$> d.*1)
  | _ => Err (ValueError "object is not iterable")
  end.

(** [sorted({str(value).strip() for value in v if str(value).strip()})] *)
Definition names (v : json) : result MapperExn (list string) :=
  let? l := iterate v in Ok (sorted_set (List.filter Str.truthy ((λ x, Str.strip (Val.str x)) <$> l))).

Record ReadyTask := mkReady {
  rt_task_id : string;
  rt_required_capabilities : list string;
  rt_depends_on : list string;
  rt_updated_at : json;
}.

(** A summary of the store's [list_ready] and the payload of the item. *)
Definition ready_item (v : json) : result MapperExn (dict * dict) :=
  match v with
  | Obj d =>
      match Val.or_else (Val.get "payload" d) (Obj []) with
      | Obj p => Ok (d, p)
      | _ => Err (ValueError "dictionary update sequence")
      end
  | _ => Err (ValueError "task is not an object")
  end.

Section Queue.
Context {M : Type} `{!OperationsStore M}.

(** The loop over [dependencies] that stops at the first unmet one. *)
Fixpoint unmet (deps : list string) : prog M MapperExn bool :=
  match deps with
  | [] => mret false
  | dep :: deps' =>
      state ← try_except (d ← Adapter.status dep; mret (Val.get "state" d))
        (λ e, match e with KeyError _ => Some (mret Null) | _ => None end);
      if Val.eq state (Str "completed") then unmet deps' else mret true
  end.

(** One round of the loop of [pull]. *)
Definition pull_item (allowed : list string) (v : json) : prog M MapperExn (option ReadyTask) :=
  '(d, payload) ← of_result (ready_item v);
  deps ← of_result (names (Val.get_or "depends_on" payload (List [])));
  blocked ← unmet deps;
  if (blocked : bool) then mret None
  else
    required ← of_result (names (Val.get_or "required_capabilities" payload (List [])));
    if negb (forallb (λ c, bool_decide (c ∈ allowed)) required) then mret None
    else
      t ← of_result (item d "task_id");
      mret (Some (mkReady (Val.str t) required deps (Val.get "updated_at" d))).

Fixpoint pull_items (allowed : list string) (l : list json) : prog M MapperExn (list ReadyTask) :=
  match l with
  | [] => mret []
  | v :: l' =>
      r ← pull_item allowed v;
      rest ← pull_items allowed l';
      mret (match r with Some t => t :: rest | None => rest end)
  end.

Definition pull (allowed : list string) (limit : Z) : prog M MapperExn (list ReadyTask) :=
  let allowed := List.filter Str.truthy (Str.strip <$> allowed) in
  result ← Adapter.list_ready limit;
  tasks ← of_result (iterate (Val.get_or "tasks" result (List [])));
  pull_items allowed tasks.

Definition enqueue (t : string) (payload : dict) (idempotency_key : string) (priority : Z) : prog M MapperExn unit :=
  let key := Str.strip (if Str.truthy idempotency_key then idempotency_key else "loop:task:" +:+ t) in
  _ ← Adapter.enqueue t payload key priority;
  mret tt.

(** [claim]; [slot_id] is the facade's own. *)
Definition claim (slot_id t agent key : string) (ttl : Z) (who : option dict) (caps : list string) :
    prog M MapperExn Lease :=
  _ ← raise_if (match who with
                | Some d => negb (String.eqb (Val.text (Val.get "agent_id" d)) agent)
                | None => false
                end) (QueueConflict "agent_id does not match distributed identity");
  operation ← Adapter.claim_task t agent slot_id ttl;
  match operation with
  | None => raise (QueueConflict "task is not ready or is already leased")
  | Some op =>
      lease ← of_result (operation_to_lease op key);
      mret (mkLease (task_id lease) (agent_id lease) (lease_id lease) (fencing_token lease) (expires_at lease)
              (idempotency_key lease) (default (identity lease) who) caps
              (cancelled lease) (attempt_id lease))
  end.

Definition heartbeat (l : Lease) (ttl : Z) : prog M MapperExn Lease :=
  operation ← Adapter.heartbeat (operation_lease l) ttl;
  mret (l <| expires_at := default 0 (op_expires_at operation) |> <| cancelled := op_cancelled operation |>).

(** The checks of [complete] that the receipt is about the lease. *)
Definition receipt_refused (l : Lease) (receipt_ref : string) (receipt : dict) : option string :=
  let field k := Val.text (Val.get k receipt) in
  if negb (String.eqb (field "task_id") (task_id l)) then Some "receipt task_id does not match the active lease"
  else if negb (String.eqb (field "agent_id") (agent_id l)) then Some "receipt agent_id does not match the active lease"
  else if negb (String.eqb (field "fencing_token") (fencing_token l)) then Some "receipt fencing_token does not match the active lease"
  else if negb (String.eqb (field "receipt_ref") receipt_ref) then Some "receipt_ref does not match the completion request"
  else None.

Definition complete (l : Lease) (receipt_ref : string) (receipt : dict) (status : string) : prog M MapperExn dict :=
  match receipt with
  | [] => raise (QueueConflict "RECEIPT_REQUIRED")
  | _ =>
      match receipt_refused l receipt_ref receipt with
      | Some msg => raise (QueueConflict msg)
      | None =>
          operation ← Adapter.complete (operation_lease l) receipt status;
          mret (foldl (λ d '(k, v), dput k v d) [("schema", Str MAPPER_QUEUE_SCHEMA); ("task_id", Str (task_id l))] operation)
      end
  end.

Definition assert_active (l : Lease) : prog M MapperExn unit :=
  _ ← Adapter.assert_active (operation_lease l); mret tt.
Definition request_cancel (t reason : string) : prog M MapperExn json := Adapter.request_cancel t reason.
Definition requeue (t : string) : prog M MapperExn json := Adapter.requeue t.
Definition release (l : Lease) : prog M MapperExn json := Adapter.release (operation_lease l).
End Queue.

(** * Specification *)

(** A store whose reads leave it alone. *)
Class StoreReads (M : Type) `{OperationsStore M} := {
  status_of : M → string → result StoreExn dict;
  ready_of : M → Z → dict;
  store_status_read m t : store_status t m = (m, status_of m t);
  store_list_ready_read m limit : store_list_ready limit m = (m, Ok (ready_of m limit));
}.

Section Spec.
Context {M : Type} `{StoreReads M}.

(** The recorded state of a task the store knows. *)
Definition completed (m : M) (t : string) : bool :=
  match status_of m t with Ok d => Val.eq (Val.get "state" d) (Str "completed") | Err _ => false end.

(** The status of [t] can be read: it answers or the task is not found. *)
Definition readable (m : M) (t : string) : Prop :=
  match status_of m t with Ok _ => True | Err e => ∃ k, translate e = KeyError k end.

(** A listed task: what [pull] reads of it. *)
Record Listed := mkListed {
  li_item : dict;
  li_id : json;
  li_depends_on : list string;
  li_required : list string;
}.

Definition listed (v : json) : option Listed :=
  match ready_item v with
  | Ok (d, p) =>
      match names (Val.get_or "depends_on" p (List [])), names (Val.get_or "required_capabilities" p (List [])), item d "task_id" with
      | Ok deps, Ok required, Ok t => Some (mkListed d t deps required)
      | _, _, _ => None
      end
  | Err _ => None
  end.

(** The task may be offered to a worker with these capabilities. *)
Definition offered (m : M) (allowed : list string) (x : Listed) : Prop :=
  (∀ dep, dep ∈ li_depends_on x → completed m dep = true) ∧ ∀ c, c ∈ li_required x → c ∈ allowed.
#[export] Instance offered_dec m allowed x : Decision (offered m allowed x).
Proof.
  refine (cast_if (decide (Forall (λ dep, completed m dep = true) (li_depends_on x) ∧ Forall (λ c, c ∈ allowed) (li_required x))));
    abstract (unfold offered; rewrite !Forall_forall in *; done).
Defined.

Definition summary (x : Listed) : ReadyTask :=
  mkReady (Val.str (li_id x)) (li_required x) (li_depends_on x) (Val.get "updated_at" (li_item x)).

Definition usable (allowed : list string) : list string := List.filter Str.truthy (Str.strip <$> allowed).
End Spec.

(** ** A store in memory

    A model of the interface, for the examples: a task is queued, leased until a
    time under the fence of its last attempt, or ended. *)
Module Mem.
Record Task := mkTask {
  payload : dict;
  state : string;
  attempts : Z;
  worker : string;
  until : Z;
}.
Record Store := mkStore { tasks : list (string * Task); now : Z }.

Definition attempt_name (t : string) (n : Z) : string := t +:+ "#" +:+ pretty n.
Definition token (n : Z) : string := "fence-" +:+ pretty n.
Definition missing {A} (m : Store) : Store * result StoreExn A := (m, Err (OperationsStoreError (Some "TASK_NOT_FOUND") "unknown task")).
Definition stale {A} (m : Store) : Store * result StoreExn A := (m, Err (OperationsStoreError (Some "LEASE_NOT_ACTIVE") "no such lease")).
Definition set_task (t : string) (x : Task) (m : Store) : Store := mkStore (dput t x (tasks m)) (now m).

(** The leased task an attempt and its fence stand for. *)
Definition find_attempt (a f : string) (m : Store) : option (string * Task) :=
  List.find (λ '(t, x), String.eqb (attempt_name t (attempts x)) a && String.eqb (token (attempts x)) f
                        && String.eqb (state x) "leased" && (now m <? until x)) (tasks m).
Definition on_attempt (a f : string) (g : Task → Task) (answer : string → Task → dict) : prog Store StoreExn dict := λ m,
  match find_attempt a f m with
  | Some (t, x) => (set_task t (g x) m, Ok (answer t (g x)))
  | None => stale m
  end.
Definition lease_dict (t : string) (x : Task) : dict :=
  [("task_id", Str t); ("attempt_id", Str (attempt_name t (attempts x))); ("fence_token", Str (token (attempts x)));
   ("lease_id", Str ("lease-" +:+ attempt_name t (attempts x))); ("worker_id", Str (worker x)); ("payload", Obj (payload x));
   ("expires_at", Float (until x))].
Definition in_state (st : string) (x : Task) : Task := mkTask (payload x) st (attempts x) (worker x) (until x).
Definition to_obj {A} (m : prog Store StoreExn A) : prog Store StoreExn json := λ s,
  match m s with (s', Ok _) => (s', Ok (Obj [])) | (s', Err e) => (s', Err e) end.

#[global] Instance store : OperationsStore Store := {|
  store_enqueue t p _ _ := λ m,
    match dget t (tasks m) with
    | Some _ => (m, Ok (Obj []))
    | None => (set_task t (mkTask p "queued" 0 "" 0) m, Ok (Obj []))
    end;
  store_claim_task t w _ ttl := λ m,
    match dget t (tasks m) with
    | None => missing m
    | Some x =>
        if String.eqb (state x) "queued" then
          let x' := mkTask (payload x) "leased" (attempts x + 1) w (now m + ttl) in
          (set_task t x' m, Ok (Some (lease_dict t x')))
        else (m, Ok None)
    end;
  store_heartbeat a f ttl := λ m,
    on_attempt a f (λ x, mkTask (payload x) (state x) (attempts x) (worker x) (now m + ttl)) lease_dict m;
  store_assert_active a f := to_obj (on_attempt a f id lease_dict);
  store_release a f := to_obj (on_attempt a f (in_state "queued") lease_dict);
  store_complete a f st _ := on_attempt a f (in_state st) (λ t x, [("task_id", Str t); ("state", Str (state x))]);
  store_requeue t := λ m,
    match dget t (tasks m) with
    | Some x => (set_task t (in_state "queued" x) m, Ok (Obj []))
    | None => missing m
    end;
  store_reclaim_expired := λ m,
    (mkStore ((λ '(t, x), (t, if String.eqb (state x) "leased" && (until x <=? now m) then in_state "queued" x else x)) <$> tasks m) (now m),
     Ok (Obj []));
  store_request_cancel t _ := λ m, (m, Ok (Obj []));
  store_list_ready limit := λ m,
    (m, Ok [("tasks", List (take (Z.to_nat limit)
      ((λ '(t, x), Obj [("task_id", Str t); ("payload", Obj (payload x))]) <$> List.filter (λ tx, String.eqb (state tx.2) "queued") (tasks m))))]);
  store_status t := λ m,
    (m, match dget t (tasks m) with
        | Some x => Ok [("task_id", Str t); ("state", Str (state x)); ("payload", Obj (payload x))]
        | None => Err (OperationsStoreError (Some "TASK_NOT_FOUND") "unknown task")
        end);
|}.

#[global] Instance store_reads : StoreReads Store.
Proof.
  refine {| status_of := λ m t, match dget t (tasks m) with
              | Some x => Ok [("task_id", Str t); ("state", Str (state x)); ("payload", Obj (payload x))]
              | None => Err (OperationsStoreError (Some "TASK_NOT_FOUND") "unknown task")
              end;
            ready_of := λ m limit, match store_list_ready limit m with (_, Ok d) => d | _ => [] end |}; done.
Defined.

(** Four tasks: one done, one after it, one that needs a capability, one after
    a task the store does not know. *)
Definition task (p : dict) (st : string) : Task := mkTask p st 0 "" 0.
Definition demo : Store := mkStore [
  ("done", task [] "completed");
  ("next", task [("depends_on", List [Str " done "])] "queued");
  ("gpu", task [("required_capabilities", List [Str "gpu"])] "queued");
  ("lost", task [("depends_on", List [Str "ghost"])] "queued")] 100.
End Mem.

(** * Lemmas *)

Section Lemmas.
Context {M : Type} `{StoreReads M}.

Lemma status_call m t : Adapter.status t m = (m, match status_of m t with Ok d => Ok d | Err e => Err (translate e) end).
Proof. unfold Adapter.status, call, rescue. rewrite store_status_read. by destruct (status_of m t). Qed.

Lemma unmet_exact m deps : (∀ dep, dep ∈ deps → readable m dep) →
  unmet deps m = (m, Ok (negb (forallb (completed m) deps))).
Proof.
  induction deps as [|dep deps IH]; intros Hr; [done|]. cbn [unmet forallb].
  assert (try_except (d ← Adapter.status dep; mret (Val.get "state" d))
            (λ e, match e with KeyError _ => Some (mret Null) | _ => None end) m
          = (m, Ok (match status_of m dep with Ok d => Val.get "state" d | Err _ => Null end))) as Ht.
  { unfold try_except, mbind, prog_bind. rewrite status_call. specialize (Hr dep ltac:(by left)). unfold readable in Hr.
    destruct (status_of m dep) as [d|e]; [done|]. destruct Hr as [k ->]. done. }
  rewrite (bind_ok _ _ _ _ _ Ht). unfold completed at 1. destruct (status_of m dep) as [d|e]; [|done].
  destruct (Val.eq (Val.get "state" d) (Str "completed")); [|done]. apply IH. intros x Hx. apply Hr. by right.
Qed.

Lemma forallb_all {A} (f : A → bool) l : forallb f l = true ↔ ∀ x, x ∈ l → f x = true.
Proof. rewrite forallb_forall. split; intros Hx x Hin; apply Hx; by apply list_elem_of_In. Qed.

Lemma pull_item_exact m allowed v x : listed v = Some x → (∀ dep, dep ∈ li_depends_on x → readable m dep) →
  pull_item allowed v m = (m, Ok (if decide (offered m allowed x) then Some (summary x) else None)).
Proof.
  unfold listed, pull_item. destruct (ready_item v) as [[d p]|]; [|done].
  destruct (names (Val.get_or "depends_on" p (List []))) as [deps|] eqn:Ed; [|done].
  destruct (names (Val.get_or "required_capabilities" p (List []))) as [req|] eqn:Er; [|done].
  destruct (item d "task_id") as [t|] eqn:Et; [|done]. intros [= <-] Hr; cbn [li_depends_on] in Hr.
  erewrite bind_ok by reflexivity. cbn beta iota. erewrite bind_ok by (rewrite Ed; reflexivity). cbn beta iota.
  erewrite bind_ok by (by apply unmet_exact). cbn beta iota.
  unfold offered, summary; cbn [li_depends_on li_required li_item li_id].
  destruct (forallb (completed m) deps) eqn:Ec; cbn [negb].
  - erewrite bind_ok by (rewrite Er; reflexivity). cbn beta iota.
    destruct (forallb (λ c, bool_decide (c ∈ allowed)) req) eqn:Ea; cbn [negb].
    + erewrite bind_ok by (rewrite Et; reflexivity). cbn beta iota. rewrite decide_True; [done|]. split; [by apply forallb_all|].
      intros c Hc. by apply (bool_decide_eq_true_1 _ (proj1 (forallb_all _ _) Ea c Hc)).
    + rewrite decide_False; [done|]. intros [_ Hc]. apply (proj2 (not_true_iff_false _)) in Ea. apply Ea. apply forallb_all.
      intros c Hin. by apply bool_decide_eq_true_2, Hc.
  - rewrite decide_False; [done|]. intros [Hd _]. apply not_true_iff_false in Ec. apply Ec. by apply forallb_all.
Qed.

Lemma pull_items_exact m allowed vs xs :
  Forall2 (λ v x, listed v = Some x) vs xs → (∀ x dep, x ∈ xs → dep ∈ li_depends_on x → readable m dep) →
  pull_items allowed vs m = (m, Ok (summary <$> filter (offered m allowed) xs)).
Proof.
  induction 1 as [|v x vs xs Hx Hxs IH]; intros Hr; [done|]. cbn [pull_items].
  erewrite bind_ok by (apply pull_item_exact; [exact Hx|]; intros dep; apply Hr; by left). cbn beta.
  erewrite bind_ok by (apply IH; intros y dep Hy; apply Hr; by right). cbn beta. rewrite filter_cons.
  by destruct (decide (offered m allowed x)).
Qed.

Lemma text_str s : Val.text (Str s) = s.
Proof. unfold Val.text; cbn. by destruct s. Qed.

Lemma receipt_refused_built l ref t a f r d :
  receipt_refused l ref (build_completion_receipt t a f r d) = None ↔
  t = task_id l ∧ a = agent_id l ∧ f = fencing_token l ∧ r = ref.
Proof.
  unfold receipt_refused, build_completion_receipt, receipt_body, Val.get. rewrite <- app_assoc. cbn [app].
  repeat (rewrite dget_cons; first [rewrite decide_True by done|rewrite decide_False by done]). cbn [default from_option id].
  rewrite !text_str.
  destruct (String.eqb_spec t (task_id l)), (String.eqb_spec a (agent_id l)), (String.eqb_spec f (fencing_token l)),
    (String.eqb_spec r ref); cbn [negb]; naive_solver.
Qed.
End Lemmas.

(** * Properties *)

(** [pull] offers exactly the listed tasks whose dependencies the store
    reports completed and whose required capabilities the worker has (after
    stripping), in the store's order, as summaries without payload, and it
    claims nothing: the store is left as it was. A dependency the store does not
    know blocks its task. *)
Theorem pull_exact {M} `{StoreReads M} (m : M) (allowed : list string) (limit : Z) vs xs :
  iterate (Val.get_or "tasks" (ready_of m limit) (List [])) = Ok vs → Forall2 (λ v x, listed v = Some x) vs xs →
  (∀ x dep, x ∈ xs → dep ∈ li_depends_on x → readable m dep) →
  pull allowed limit m = (m, Ok (summary <$> filter (offered m (usable allowed)) xs)).
Proof.
  intros Hvs Hxs Hr. unfold pull. erewrite bind_ok; cycle 1.
  { unfold Adapter.list_ready, call, rescue. rewrite store_list_ready_read. reflexivity. }
  cbn beta. erewrite bind_ok by (rewrite Hvs; reflexivity). by apply pull_items_exact.
Qed.

(** A completion receipt reaches the store exactly when it was built for
    the lease it is presented with: same task, agent, fencing token and
    reference. Any other is a [QueueConflict] and the store is not called. *)
Theorem receipt_binds {M} `{OperationsStore M} (m : M) (l : Lease) ref t a f r detail st :
  let receipt := build_completion_receipt t a f r detail in
  (t = task_id l ∧ a = agent_id l ∧ f = fencing_token l ∧ r = ref →
   (complete l ref receipt st m).1 = (store_complete (attempt_id l) (fencing_token l) st receipt m).1) ∧
  (¬ (t = task_id l ∧ a = agent_id l ∧ f = fencing_token l ∧ r = ref) →
   ∃ msg, complete l ref receipt st m = (m, Err (QueueConflict msg))).
Proof.
  cbv zeta. pose proof (receipt_refused_built l ref t a f r detail) as Hb. split; intros Hm.
  - apply Hb in Hm. unfold complete. rewrite Hm. cbn [build_completion_receipt receipt_body app].
    unfold Adapter.complete, call, rescue, mbind, prog_bind. cbn [operation_lease op_attempt_id op_fence_token].
    by destruct (store_complete _ _ _ _ m) as [m' [d|e]].
  - rewrite <- Hb in Hm. unfold complete. cbn [build_completion_receipt receipt_body app].
    destruct (receipt_refused l ref _) as [msg|] eqn:E; [|exfalso; by apply Hm]. by exists msg.
Qed.

(** * Examples *)

Lemma pull_exact_witness :
  ∃ vs xs, iterate (Val.get_or "tasks" (ready_of Mem.demo 20) (List [])) = Ok vs ∧ Forall2 (λ v x, listed v = Some x) vs xs ∧
    pull [] 20 Mem.demo = (Mem.demo, Ok (summary <$> filter (offered Mem.demo (usable [])) xs)) ∧
    summary <$> filter (offered Mem.demo (usable [])) xs = [mkReady "next" [] ["done"] Null].
Proof.
  set (t0 := mkListed [("task_id", Str "next"); ("payload", Obj [("depends_on", List [Str " done "])])] (Str "next") ["done"] []).
  set (t1 := mkListed [("task_id", Str "gpu"); ("payload", Obj [("required_capabilities", List [Str "gpu"])])] (Str "gpu") [] ["gpu"]).
  set (t2 := mkListed [("task_id", Str "lost"); ("payload", Obj [("depends_on", List [Str "ghost"])])] (Str "lost") ["ghost"] []).
  eexists _, [t0; t1; t2]. split; [reflexivity|]. assert (Hx : Forall2 (λ v x, listed v = Some x)
    [Obj (li_item t0); Obj (li_item t1); Obj (li_item t2)] [t0; t1; t2]) by (repeat constructor).
  split; [exact Hx|]. split; [|vm_compute; reflexivity].
  eapply (pull_exact Mem.demo [] 20); [reflexivity|exact Hx|].
  intros x dep Hxin Hd. rewrite !elem_of_cons, elem_of_nil in Hxin.
  destruct Hxin as [->|[->|[->|[]]]]; cbn in Hd; rewrite ?elem_of_cons, ?elem_of_nil in Hd; destruct Hd as [->|[]] || destruct Hd; [exact I|by eexists].
Defined.

(** A lease claimed, renewed and completed; its receipt does not fit another. *)
Example lease_cycle :
  let m0 := (enqueue "t" [] "" 0 (Mem.mkStore [] 100)).1 in
  let (m1, r) := claim "s" "t" "w" "k" 30 None [] m0 in
  match r with
  | Ok l =>
      let receipt := build_completion_receipt "t" "w" (fencing_token l) "ref" [] in
      is_ok (heartbeat l 60 m1).2 = true ∧ is_ok (complete l "ref" receipt "completed" m1).2 = true ∧
      is_ok (complete (l <| agent_id := "v" |>) "ref" receipt "completed" m1).2 = false ∧
      is_ok (complete (l <| fencing_token := "fence-0" |>) "ref" receipt "completed" m1).2 = false ∧
      (claim "s" "t" "v" "k" 30 None [] m1).2 = Err (QueueConflict "task is not ready or is already leased")
  | Err _ => False
  end.
Proof. vm_compute. repeat split; reflexivity. Qed.
