(* ===== verification/RetryQueue.v ===== *)
(** The Hub's retry queue ([simplicio_loop/hub_queue_retry.py]): jobs, their
    attempts and dead letters, projected from the snapshots in a journal, with
    the leases themselves taken from MapperStore. Every method reads the
    snapshot, calls the store, changes the snapshot and saves it, under one
    lock of the process. *)
From stdpp Require Import pretty.
From S2P Require Import Prelude PyLib PyText PyJson Effects Journal MapperQueue.
Import Json.
Local Open Scope Z_scope.
Local Open Scope py_scope.

(** * Definitions *)

Definition DEFAULT_SCHEDULER_POLICY : string := "fair-drr-v2".
Definition SCHEDULER_MANIFEST_SCHEMA : string := "simplicio.hub-scheduler-policy/v1".

(** [QueueRetryError] and its subclasses, what MapperStore raises through the
    methods, and the [TypeError] of a missing value. *)
Inductive QueueExn : Type :=
| QueueRetryError (msg : string)
| QueueLeaseError (msg : string)
| QueueCorruptionError (msg : string)
| MapperRaised (e : MapperExn)
| TypeError.

Inductive JobState : Type := queued | leased | completed | dead_letter | admitted_held.
#[export] Instance JobState_eq_dec : EqDecision JobState.
Proof. solve_decision. Defined.

Record RetryLease := mkRetryLease {
  task_id : string;
  lease_id : string;
  fence : Z;
  expires_at : Z;
  mapper_attempt_id : string;
  mapper_fence : string;
}.

Record Job := mkJob {
  job_task_id : string;
  job_key : string;
  job_payload : json;
  max_attempts : Z;
  attempts : Z;
  job_state : JobState;
  next_attempt_at : Z;
  job_lease_id : option string;
  job_fence : Z;
  lease_expires_at : option Z;
  error_code : option string;
  updated_at : Z;
  client_id : string;
  workspace_id : string;
  weight : Z;
  cost : Z;
  scheduler_policy : string;
  mapper_lease : option Lease;
}.
#[export] Instance Job_eta : Eta Job := λ j,
  mkJob (job_task_id j) (job_key j) (job_payload j) (max_attempts j) (attempts j) (job_state j) (next_attempt_at j)
    (job_lease_id j) (job_fence j) (lease_expires_at j) (error_code j) (updated_at j) (client_id j) (workspace_id j)
    (weight j) (cost j) (scheduler_policy j) (mapper_lease j).

Record DeadLetter := mkDeadLetter {
  dl_task_id : string;
  dl_payload : json;
  dl_attempts : Z;
  dl_error_code : string;
  dl_moved_at : Z;
}.

(** The held admissions are opaque: only [admit_held] reads and writes them. *)
Record QueueState := mkQueue {
  jobs : list (string * Job);
  dead_letters : list (string * DeadLetter);
  admissions : list (string * json);
  scheduler_manifest : json;
}.
#[export] Instance QueueState_eta : Eta QueueState := λ s,
  mkQueue (jobs s) (dead_letters s) (admissions s) (scheduler_manifest s).

(** [_initial_state] *)
Definition initial_state : QueueState := mkQueue [] [] [] Null.

(** ** [_clone]: through [json.dumps] with sorted keys and back *)

Definition entry_le {V} (x y : string * V) : Prop := String.le x.1 y.1.
#[export] Instance entry_le_dec {V} (x y : string * V) : Decision (entry_le x y) := _.
Definition sort_keys {V} (d : list (string * V)) : list (string * V) := merge_sort entry_le d.

Definition clone_job (j : Job) : Job :=
  mkJob (job_task_id j) (job_key j) (canon (job_payload j)) (max_attempts j) (attempts j) (job_state j) (next_attempt_at j)
    (job_lease_id j) (job_fence j) (lease_expires_at j) (error_code j) (updated_at j) (client_id j) (workspace_id j)
    (weight j) (cost j) (scheduler_policy j) (mapper_lease j).
Definition clone_letter (d : DeadLetter) : DeadLetter :=
  mkDeadLetter (dl_task_id d) (canon (dl_payload d)) (dl_attempts d) (dl_error_code d) (dl_moved_at d).
Definition clone (s : QueueState) : QueueState :=
  mkQueue (sort_keys (prod_map id clone_job <$> jobs s)) (sort_keys (prod_map id clone_letter <$> dead_letters s))
    (sort_keys (prod_map id canon <$> admissions s)) (canon (scheduler_manifest s)).

(** ** The journal and the store *)

(** An event of the queue's run: a snapshot, or an event of another schema. *)
Inductive QueueEvent : Type :=
| Snapshot (state : QueueState)
| ForeignEvent.

Record Hub (J M : Type) := mkHub {
  hub_journal : J;
  hub_store : M;
  hub_reads : nat;
}.
Arguments mkHub {J M}.
Arguments hub_journal {J M}.
Arguments hub_store {J M}.
Arguments hub_reads {J M}.

Section Queue.
Context {J M : Type} `{!JournalOps J QueueEvent} `{!OperationsStore M}.
(** The values successive calls of [time.time()] return. *)
Context (clock : nat → Z).
Notation Q := (prog (Hub J M) QueueExn).

Definition time : Q Z := λ w, (mkHub (hub_journal w) (hub_store w) (S (hub_reads w)), Ok (clock (hub_reads w))).

(** A call of [self._mapper], and one whose [QueueConflict] and [KeyError] are caught. *)
Definition mapper {A} (m : prog M MapperExn A) : Q A :=
  rescue MapperRaised (zoom hub_store (λ s w, mkHub (hub_journal w) s (hub_reads w)) m).

(** The fold of [_state] over the events of a valid replay. *)
Definition replayed (evs : list (Z * QueueEvent)) : result QueueExn QueueState :=
  foldl (λ acc e, let? _ := acc in
           match e.2 with
           | Snapshot s => Ok (clone s)
           | ForeignEvent => Err (QueueCorruptionError "hub retry journal contains an unknown event")
           end) (Ok initial_state) evs.

Definition state_of (j : J) : result QueueExn QueueState :=
  if rp_valid (replay j) then replayed (rp_events (replay j))
  else Err (QueueCorruptionError "hub retry journal failed validation").

(** [_state] *)
Definition load : Q QueueState := λ w, (w, state_of (hub_journal w)).

(** [_commit] *)
Definition commit (q : Z) (s : QueueState) : Q unit := λ w,
  match append_event (hub_journal w) (Snapshot (clone s)) q with
  | Ok j' => (mkHub j' (hub_store w) (hub_reads w), Ok tt)
  | Err _ => (w, Err (QueueRetryError "hub retry journal append failed"))
  end.

(** [_save]: the number it expects is that of a replay of its own. *)
Definition save (s : QueueState) : Q unit := λ w, commit (last_seq (replay (hub_journal w))) s w.

(** ** Jobs *)

(** [_job] *)
Definition job_of (s : QueueState) (t : string) : result QueueExn Job := or_raise (dget t (jobs s)) (QueueRetryError "unknown task").
Definition put_job (t : string) (j : Job) (s : QueueState) : QueueState := s <| jobs ::= dput t j |>.

(** [str] of a value that may be [None] *)
Definition str_or_none (o : option string) : string := default "None" o.

(** [_lease_from_job] *)
Definition lease_from_job (j : Job) : result QueueExn RetryLease :=
  let? e := or_raise (lease_expires_at j) TypeError in
  Ok (mkRetryLease (job_task_id j) (str_or_none (job_lease_id j)) (job_fence j) e
        (match mapper_lease j with Some l => attempt_id l | None => "" end)
        (match mapper_lease j with Some l => fencing_token l | None => "" end)).

(** [_mapper_lease] *)
Definition mapper_lease_of (j : Job) : result QueueExn Lease :=
  let? l := or_raise (mapper_lease j) TypeError in
  match lease_from_json l with Ok l => Ok l | Err e => Err (MapperRaised e) end.

Definition STALE : QueueExn := QueueLeaseError "lease is stale, expired, or missing".

(** [_owned] *)
Definition owned (s : QueueState) (lease : RetryLease) : Q Job :=
  j ← of_result (job_of s (task_id lease));
  now ← time;
  _ ← raise_if (negb (bool_decide (job_state j = leased)) || negb (String.eqb (str_or_none (job_lease_id j)) (lease_id lease))
                || negb (job_fence j =? fence lease) || (default 0 (lease_expires_at j) <=? now)) STALE;
  _ ← try_except (l ← of_result (mapper_lease_of j); mapper (assert_active l))
        (λ e, match e with MapperRaised (QueueConflict _) | MapperRaised (KeyError _) => Some (raise STALE) | _ => None end);
  mret j.

(** ** Submission *)

(** [_effective_client_id] *)
Definition effective_client_id (payload : dict) (explicit_client_id : json) : string :=
  match explicit_client_id with
  | Str c => if Str.truthy c then c else match Val.get "client_id" payload with Str c' => c' | _ => "" end
  | _ => match Val.get "client_id" payload with Str c' => c' | _ => "" end
  end.

Definition task_id_of (key : string) : string := "hub-" +:+ String.substring 0 32 (Sha256.hexdigest key).

Definition new_job (t key : string) (payload : dict) (max now : Z) (client : string) (ws : string) (w c : Z) (policy : string) : Job :=
  mkJob t key (canon (Obj payload)) max 0 queued now None 0 None None now client ws w c policy None.

Definition submit (payload : dict) (key : string) (max : Z) (client : json) (ws : string) (w c : Z) (policy : string) : Q string :=
  _ ← raise_if (negb (Str.truthy key) || (max <? 1)) (QueueRetryError "idempotency_key and positive max_attempts required");
  _ ← raise_if (negb (Str.truthy policy)) (QueueRetryError "scheduler_policy must be non-empty");
  s ← load;
  match List.find (λ kj, String.eqb (job_key kj.2) key) (jobs s) with
  | Some (_, j) =>
      if bool_decide (job_state j = admitted_held) then raise (QueueRetryError "held admission cannot be submitted")
      else mret (job_task_id j)
  | None =>
      let t := task_id_of key in
      let client := effective_client_id payload client in
      _ ← mapper (enqueue t payload ("hub:" +:+ key) 0);
      now ← time;
      _ ← save (put_job t (new_job t key payload max now client ws w c policy) s);
      mret t
  end.

(** ** Held admissions *)

Definition held_id_of (key : string) : string := "hub-held-" +:+ String.substring 0 32 (Sha256.hexdigest key).

Definition held_job (t key : string) (job : dict) (now : Z) (client ws : string) (w c : Z) : Job :=
  mkJob t key (canon (Obj job)) 1 0 admitted_held now None 0 None None now client ws w c DEFAULT_SCHEDULER_POLICY None.

(** What [admit_held] does to the queue once its input has been validated; the
    [entry] it stores, with its receipt, is built from the time of the call. An
    admission that is already stored is only read and compared. *)
Definition insert_held (job : dict) (key client ws : string) (w c : Z) (entry : Z → json) : Q unit :=
  s ← load;
  let queued := List.find (λ kj, String.eqb (job_key kj.2) key) (jobs s) in
  match queued, dget key (admissions s) with
  | Some _, None => raise (QueueRetryError "idempotency key collides with a non-admission job")
  | _, Some _ => mret tt
  | None, None =>
      let t := held_id_of key in
      now ← time;
      _ ← mapper (enqueue t job ("hub-held:" +:+ key) 0);
      save ((put_job t (held_job t key job now client ws w c) s) <| admissions ::= dput key (entry now) |>)
  end.

(** ** Claims *)

Definition SLOT_ID : string := "hub-retry-queue".

Definition claimed (j : Job) (l : Lease) (now : Z) : Job :=
  mkJob (job_task_id j) (job_key j) (job_payload j) (max_attempts j) (attempts j + 1) leased (next_attempt_at j)
    (Some (MapperQueue.lease_id l)) (job_fence j + 1) (Some (MapperQueue.expires_at l)) (error_code j) now (client_id j) (workspace_id j)
    (weight j) (cost j) (scheduler_policy j) (Some l).

(** The two tests before the store is asked. *)
Definition claimable (j : Job) (now : Z) : bool :=
  match job_state j with
  | queued => next_attempt_at j <=? now
  | leased => (next_attempt_at j <=? now) && (default 0 (lease_expires_at j) <=? now)
  | _ => false
  end.

Definition claim_specific (t worker : string) (ttl : Z) : Q (option RetryLease) :=
  _ ← raise_if (negb (Str.truthy t) || negb (Str.truthy worker) || (ttl <=? 0))
        (QueueRetryError "task_id, worker_id and positive ttl required");
  s ← load;
  j ← of_result (job_of s t);
  now ← time;
  if negb (claimable j now) then mret None
  else
    _ ← mapper Adapter.reclaim_expired;
    r ← try_except
          (l ← mapper (claim SLOT_ID t worker ("hub-claim:" +:+ t) ttl (Some [("agent_id", Str worker)]) []); mret (Some l))
          (λ e, match e with MapperRaised (QueueConflict _) => Some (mret None) | _ => None end);
    match r with
    | None => mret None
    | Some l =>
        now ← time;
        let j' := claimed j l now in
        _ ← save (put_job t j' s);
        lease ← of_result (lease_from_job j');
        mret (Some lease)
    end.

Definition older (x y : Job) : Prop := (updated_at x < updated_at y ∨ updated_at x = updated_at y ∧ String.le (job_task_id x) (job_task_id y)).
#[export] Instance older_dec x y : Decision (older x y) := _.

(** The rows of [claim], oldest first. *)
Definition claim_rows (s : QueueState) (now : Z) : list Job :=
  merge_sort older
    (List.filter (λ j, bool_decide (job_state j = queued) && (next_attempt_at j <=? now)) (jobs s).*2
     ++ List.filter (λ j, bool_decide (job_state j = leased) && (default 0 (lease_expires_at j) <=? now)) (jobs s).*2).

Fixpoint claim_first (worker : string) (ttl : Z) (rows : list Job) : Q (option RetryLease) :=
  match rows with
  | [] => mret None
  | j :: rows' =>
      lease ← claim_specific (job_task_id j) worker ttl;
      match lease with
      | Some l => mret (Some l)
      | None => claim_first worker ttl rows'
      end
  end.

Definition claim (worker : string) (ttl : Z) : Q (option RetryLease) :=
  _ ← raise_if (negb (Str.truthy worker) || (ttl <=? 0)) (QueueRetryError "worker_id and positive ttl required");
  s ← load;
  now ← time;
  claim_first worker ttl (claim_rows s now).

(** ** Renewal and outcome *)

Definition renewed (j : Job) (l : Lease) (now : Z) : Job :=
  mkJob (job_task_id j) (job_key j) (job_payload j) (max_attempts j) (attempts j) (job_state j) (next_attempt_at j) (job_lease_id j)
    (job_fence j) (Some (MapperQueue.expires_at l)) (error_code j) now (client_id j) (workspace_id j) (weight j) (cost j) (scheduler_policy j) (Some l).

Definition heartbeat (lease : RetryLease) (ttl : Z) : Q RetryLease :=
  _ ← raise_if (ttl <=? 0) (QueueRetryError "ttl must be positive");
  s ← load;
  j ← owned s lease;
  l ← of_result (mapper_lease_of j);
  refreshed ← mapper (MapperQueue.heartbeat l ttl);
  now ← time;
  let j' := renewed j refreshed now in
  _ ← save (put_job (task_id lease) j' s);
  of_result (lease_from_job j').

Definition finished (j : Job) (now : Z) : Job :=
  mkJob (job_task_id j) (job_key j) (job_payload j) (max_attempts j) (attempts j) completed (next_attempt_at j) (job_lease_id j)
    (job_fence j) None (error_code j) now (client_id j) (workspace_id j) (weight j) (cost j) (scheduler_policy j) (mapper_lease j).

Definition complete (lease : RetryLease) : Q unit :=
  s ← load;
  j ← owned s lease;
  l ← of_result (mapper_lease_of j);
  let ref := "hub-complete:" +:+ task_id lease in
  let receipt := build_completion_receipt (MapperQueue.task_id l) (agent_id l) (fencing_token l) ref [] in
  _ ← mapper (MapperQueue.complete l ref receipt "completed");
  now ← time;
  save (put_job (task_id lease) (finished j now) s).

Definition buried (j : Job) (code : string) (now : Z) : Job :=
  mkJob (job_task_id j) (job_key j) (job_payload j) (max_attempts j) (attempts j) dead_letter (next_attempt_at j) (job_lease_id j)
    (job_fence j) None (Some code) now (client_id j) (workspace_id j) (weight j) (cost j) (scheduler_policy j) None.
Definition retried (j : Job) (code : string) (backoff now : Z) : Job :=
  mkJob (job_task_id j) (job_key j) (job_payload j) (max_attempts j) (attempts j) queued (now + Z.max 0 backoff) None
    (job_fence j) None (Some code) now (client_id j) (workspace_id j) (weight j) (cost j) (scheduler_policy j) None.

(** [fail] answers [true] for ["dead_letter"] and [false] for ["retry"]. *)
Definition fail (lease : RetryLease) (code : string) (backoff : Z) : Q bool :=
  _ ← raise_if (negb (Str.truthy code)) (QueueRetryError "error_code is required");
  s ← load;
  j ← owned s lease;
  now ← time;
  if max_attempts j <=? attempts j then
    l ← of_result (mapper_lease_of j);
    let ref := "hub-dead-letter:" +:+ task_id lease in
    let receipt := build_completion_receipt (MapperQueue.task_id l) (agent_id l) (fencing_token l) ref
                     [("error_code", Str code); ("attempts", Int (attempts j))] in
    _ ← mapper (MapperQueue.complete l ref receipt "failed");
    let s' := put_job (task_id lease) (buried j code now) s in
    let letter := mkDeadLetter (task_id lease) (canon (job_payload j)) (attempts j) code now in
    _ ← save (s' <| dead_letters ::= dput (task_id lease) letter |>);
    mret true
  else
    l ← of_result (mapper_lease_of j);
    _ ← mapper (MapperQueue.release l);
    _ ← save (put_job (task_id lease) (retried j code backoff now) s);
    mret false.

Definition revived (j : Job) (due now : Z) : Job :=
  mkJob (job_task_id j) (job_key j) (job_payload j) (max_attempts j) (attempts j) queued due None
    (job_fence j) None None now (client_id j) (workspace_id j) (weight j) (cost j) (scheduler_policy j) None.

Definition requeue (t : string) : Q unit :=
  s ← load;
  j ← of_result (job_of s t);
  _ ← raise_if (negb (bool_decide (job_state j = dead_letter))) (QueueRetryError "only dead-letter tasks can be requeued");
  _ ← mapper (MapperQueue.requeue t);
  due ← time;
  now ← time;
  save ((put_job t (revived j due now) s) <| dead_letters ::= ddel t |>).

Definition with_payload (j : Job) (payload : dict) (now : Z) : Job :=
  mkJob (job_task_id j) (job_key j) (canon (Obj payload)) (max_attempts j) (attempts j) (job_state j) (next_attempt_at j) (job_lease_id j)
    (job_fence j) (lease_expires_at j) (error_code j) now (client_id j) (workspace_id j) (weight j) (cost j) (scheduler_policy j) (mapper_lease j).

Definition update_payload (t : string) (payload : dict) : Q unit :=
  s ← load;
  j ← of_result (job_of s t);
  _ ← raise_if (bool_decide (job_state j = admitted_held)) (QueueRetryError "held admission payload is immutable");
  now ← time;
  save (put_job t (with_payload j payload now) s).

(** ** Reading *)

Definition get_payload (t : string) : Q json := s ← load; j ← of_result (job_of s t); mret (canon (job_payload j)).
Definition state (t : string) : Q JobState := s ← load; j ← of_result (job_of s t); mret (job_state j).
Definition count : Q Z := s ← load; mret (Z.of_nat (length (jobs s))).
Definition find_task_id (key : string) : Q (option string) :=
  s ← load; mret ((λ kj, job_task_id kj.2) <$> List.find (λ kj, String.eqb (job_key kj.2) key) (jobs s)).

Definition letter_older (x y : DeadLetter) : Prop := (dl_moved_at x < dl_moved_at y ∨ dl_moved_at x = dl_moved_at y ∧ String.le (dl_task_id x) (dl_task_id y)).
#[export] Instance letter_older_dec x y : Decision (letter_older x y) := _.
Definition list_dead_letters : Q (list DeadLetter) := s ← load; mret (clone_letter <$> merge_sort letter_older (dead_letters s).*2).

(** One entry of [list_queued_scheduling_metadata]. *)
Record SchedulingMetadata := mkMetadata {
  md_task_id : string;
  md_client_id : string;
  md_workspace_id : string;
  md_weight : Z;
  md_cost : Z;
  md_scheduler_policy : string;
}.
Definition metadata (j : Job) : SchedulingMetadata :=
  mkMetadata (job_task_id j) (client_id j) (workspace_id j) (weight j) (cost j) (scheduler_policy j).
Definition list_queued_scheduling_metadata : Q (list SchedulingMetadata) :=
  now ← time;
  s ← load;
  mret (metadata <$> List.filter (λ j, (bool_decide (job_state j = queued) && (next_attempt_at j <=? now))
                                       || (bool_decide (job_state j = leased) && (default 0 (lease_expires_at j) <=? now)))
                       (merge_sort older (jobs s).*2)).

Definition get_scheduler_manifest : Q json := s ← load; mret (canon (scheduler_manifest s)).
Definition set_scheduler_manifest (manifest : dict) : Q unit :=
  _ ← raise_if (negb (Val.eq (Val.get "schema" manifest) (Str SCHEDULER_MANIFEST_SCHEMA))) (QueueRetryError "invalid scheduler manifest schema");
  s ← load;
  save (s <| scheduler_manifest := canon (Obj manifest) |>).
End Queue.

(** * Specification *)

(** The job is leased under this lease, which has not expired. *)
Definition holds (j : Job) (lease : RetryLease) (now : Z) : Prop :=
  job_state j = leased ∧ str_or_none (job_lease_id j) = lease_id lease ∧ job_fence j = fence lease ∧
  now < default 0 (lease_expires_at j).

(** The life of one job. *)
Inductive job_step : Job → Job → Prop :=
| js_claim j l now now' : claimable j now = true → job_step j (claimed j l now')
| js_renew j lease l e c now now' : holds j lease now → mapper_lease j = Some l →
    job_step j (renewed j (l <| MapperQueue.expires_at := e |> <| cancelled := c |>) now')
| js_finish j lease now now' : holds j lease now → job_step j (finished j now')
| js_bury j lease code now now' : holds j lease now → max_attempts j <= attempts j → job_step j (buried j code now')
| js_retry j lease code backoff now now' : holds j lease now → attempts j < max_attempts j →
    job_step j (retried j code backoff now')
| js_revive j due now : job_state j = dead_letter → job_step j (revived j due now)
| js_payload j payload now : job_state j ≠ admitted_held → job_step j (with_payload j payload now).

(** The lease a step of one job grants. *)
Definition granted (j j' : Job) : list RetryLease :=
  if attempts j <? attempts j' then match lease_from_job j' with Ok l => [l] | Err _ => [] end else [].

(** The dead letters after a step of the job [t]. *)
Definition letter_of (t : string) (j : Job) : DeadLetter :=
  mkDeadLetter t (canon (job_payload j)) (attempts j) (default "" (error_code j)) (updated_at j).
Definition letters_after (t : string) (j j' : Job) (letters : list (string * DeadLetter)) : list (string * DeadLetter) :=
  match job_state j, job_state j' with
  | leased, dead_letter => dput t (letter_of t j') letters
  | dead_letter, queued => ddel t letters
  | _, _ => letters
  end.

(** What a snapshot written from [s] reads back as. *)
Definition saved (s : QueueState) : QueueState := clone (clone s).

(** One change of the queue, with the leases it grants. *)
Inductive queue_step (K : string → Prop) (s : QueueState) : list RetryLease → QueueState → Prop :=
| qs_submit key payload max now client ws w c policy :
    K key → List.find (λ kj, String.eqb (job_key kj.2) key) (jobs s) = None → 1 <= max →
    queue_step K s [] (put_job (task_id_of key) (new_job (task_id_of key) key payload max now client ws w c policy) s)
| qs_job t j j' : dget t (jobs s) = Some j → job_step j j' →
    queue_step K s (granted j j') ((put_job t j' s) <| dead_letters ::= letters_after t j j' |>)
| qs_hold key job now client ws w c receipt :
    K key → List.find (λ kj, String.eqb (job_key kj.2) key) (jobs s) = None →
    queue_step K s [] ((put_job (held_id_of key) (held_job (held_id_of key) key job now client ws w c) s) <| admissions ::= dput key receipt |>)
| qs_manifest m : queue_step K s [] (s <| scheduler_manifest := m |>).

Inductive Call : Type :=
| Submit (payload : dict) (key : string) (max : Z) (client : json) (ws : string) (w c : Z) (policy : string)
| Claim (worker : string) (ttl : Z)
| ClaimSpecific (t worker : string) (ttl : Z)
| Heartbeat (lease : RetryLease) (ttl : Z)
| Complete (lease : RetryLease)
| Fail (lease : RetryLease) (code : string) (backoff : Z)
| Requeue (t : string)
| UpdatePayload (t : string) (payload : dict)
| SetSchedulerManifest (manifest : dict)
| InsertHeld (job : dict) (key client ws : string) (w c : Z) (receipt : Z → json).

Inductive Reply : Type :=
| TaskId (t : string)
| Grant (lease : option RetryLease)
| Renewed (lease : RetryLease)
| Verdict (dead : bool)
| Done.

Section Machine.
Context {J M : Type} `{!JournalOps J QueueEvent} `{!OperationsStore M} (clock : nat → Z).

Definition answer {A} (f : A → Reply) (m : prog (Hub J M) QueueExn A) : prog (Hub J M) QueueExn Reply := a ← m; mret (f a).
Definition run (c : Call) : prog (Hub J M) QueueExn Reply :=
  match c with
  | Submit payload key max client ws w c policy => answer TaskId (submit clock payload key max client ws w c policy)
  | Claim worker ttl => answer Grant (claim clock worker ttl)
  | ClaimSpecific t worker ttl => answer Grant (claim_specific clock t worker ttl)
  | Heartbeat lease ttl => answer Renewed (heartbeat clock lease ttl)
  | Complete lease => answer (λ _, Done) (complete clock lease)
  | Fail lease code backoff => answer Verdict (fail clock lease code backoff)
  | Requeue t => answer (λ _, Done) (requeue clock t)
  | UpdatePayload t payload => answer (λ _, Done) (update_payload clock t payload)
  | SetSchedulerManifest m => answer (λ _, Done) (set_scheduler_manifest m)
  | InsertHeld job key client ws w c receipt => answer (λ _, Done) (insert_held clock job key client ws w c receipt)
  end.

Definition grants (r : result QueueExn Reply) : list RetryLease :=
  match r with Ok (Grant (Some l)) => [l] | _ => [] end.

(** The keys a call submits or holds. *)
Definition keys_ok (K : string → Prop) (c : Call) : Prop :=
  match c with Submit _ key _ _ _ _ _ _ | InsertHeld _ key _ _ _ _ _ => K key | _ => True end.

(** One process calls the queue; in between, the store changes as it likes. The
    log is the leases the calls have returned. *)
Inductive hub_step (K : string → Prop) : Hub J M * list RetryLease → Hub J M * list RetryLease → Prop :=
| hub_call w log c : keys_ok K c → hub_step K (w, log) ((run c w).1, log ++ grants (run c w).2)
| hub_outside w log m : hub_step K (w, log) (mkHub (hub_journal w) m (hub_reads w), log).

Definition hub_reachable (K : string → Prop) (w : Hub J M) (log : list RetryLease) : Prop :=
  ∃ w0, rp_valid (replay (hub_journal w0)) = true ∧ rp_events (replay (hub_journal w0)) = [] ∧ rtc (hub_step K) (w0, []) (w, log).

(** The snapshot a process reads. *)
Definition reads_as (w : Hub J M) (s : QueueState) : Prop := state_of (hub_journal w) = Ok s.

(** [time.time()] has been called once more. *)
Definition tick (w : Hub J M) : Hub J M := mkHub (hub_journal w) (hub_store w) (S (hub_reads w)).

(** Every method that takes a lease refuses this one, and does nothing else. *)
Definition refused (w : Hub J M) (lease : RetryLease) : Prop :=
  (∀ ttl, 0 < ttl → heartbeat clock lease ttl w = (tick w, Err STALE)) ∧
  complete clock lease w = (tick w, Err STALE) ∧
  ∀ code backoff, code ≠ "" → fail clock lease code backoff w = (tick w, Err STALE).
End Machine.

(** No two of the keys share the task id cut from their digest. *)
Definition distinct_ids (K : string → Prop) : Prop := ∀ k k', K k → K k' → task_id_of k = task_id_of k' → k = k'.

Record job_ok (K : string → Prop) (t : string) (j : Job) : Prop := {
  ok_id : job_task_id j = t;
  ok_key : K (job_key j);
  ok_named : t = if decide (job_state j = admitted_held) then held_id_of (job_key j) else task_id_of (job_key j);
  ok_attempts : 0 <= attempts j ∧ job_fence j = attempts j;
  ok_max : 1 <= max_attempts j;
  ok_lease : job_state j = leased →
    ∃ l, mapper_lease j = Some l ∧ job_lease_id j = Some (MapperQueue.lease_id l) ∧ lease_expires_at j = Some (MapperQueue.expires_at l);
}.

Record queue_ok (K : string → Prop) (s : QueueState) : Prop := {
  ok_nodup : NoDup (jobs s).*1;
  ok_letters_nodup : NoDup (dead_letters s).*1;
  ok_jobs t j : dget t (jobs s) = Some j → job_ok K t j;
  ok_unique t t' j j' : dget t (jobs s) = Some j → dget t' (jobs s) = Some j' → job_key j = job_key j' → t = t';
  ok_letters t : is_Some (dget t (dead_letters s)) ↔ ∃ j, dget t (jobs s) = Some j ∧ job_state j = dead_letter;
}.

(** The fences of a task grow along the log and none is above its job's. *)
Definition fences_ok (s : QueueState) (log : list RetryLease) : Prop :=
  (∀ l, l ∈ log → ∃ j, dget (task_id l) (jobs s) = Some j ∧ fence l <= job_fence j) ∧
  ∀ i k li lk, log !! i = Some li → log !! k = Some lk → (i < k)%nat → task_id li = task_id lk → fence li < fence lk.

(** A job after a snapshot of it was written and read. *)
Definition norm (j : Job) : Job := clone_job (clone_job j).

Section Changes.
Context {J M : Type} `{!JournalOps J QueueEvent}.
Implicit Types w : Hub J M.

(** The journal is untouched. *)
Definition quiet w w' : Prop := hub_journal w' = hub_journal w.

(** The queue has taken one step from [s]. *)
Definition changed (K : string → Prop) (s : QueueState) (g : list RetryLease) w : Prop := ∃ s1, queue_step K s g s1 ∧ reads_as w (saved s1).
Definition quiet_or_changed (K : string → Prop) (s : QueueState) w {A} (_ : result QueueExn A) w' : Prop := quiet w w' ∨ changed K s [] w'.

Definition hub_inv (K : string → Prop) w (log : list RetryLease) : Prop := ∃ s, reads_as w s ∧ queue_ok K s ∧ fences_ok s log.
End Changes.

(** ** A queue in memory, for the examples *)

(** Two keys; the time is 100 for the first three readings, 200 from then on. *)
Definition demo_keys (k : string) : Prop := k = "a" ∨ k = "b".
Definition demo_clock (n : nat) : Z := if (n <? 3)%nat then 100 else 200.
Definition demo_hub : Hub (MemJournal QueueEvent) Mem.Store := mkHub (mkMem []) (Mem.mkStore [] 100) 0.
Definition demo_submit (key : string) : Call := Submit [] key 1 (Str "c") "ws" 1 1 DEFAULT_SCHEDULER_POLICY.
Definition at_time (now : Z) (w : Hub (MemJournal QueueEvent) Mem.Store) : Hub (MemJournal QueueEvent) Mem.Store :=
  mkHub (hub_journal w) (Mem.mkStore (Mem.tasks (hub_store w)) now) (hub_reads w).
Definition lease_of_reply (r : result QueueExn Reply) : RetryLease :=
  match r with Ok (Grant (Some l)) => l | _ => mkRetryLease "" "" 0 0 "" "" end.

(** Submitted; claimed for 30; claimed again after the lease has run out. *)
Definition demo1 := (run demo_clock (demo_submit "a") demo_hub).1.
Definition demo2 := run demo_clock (ClaimSpecific (task_id_of "a") "w1" 30) demo1.
Definition demo3 := run demo_clock (ClaimSpecific (task_id_of "a") "w2" 30) (at_time 200 demo2.1).
(** The job of [demo3] completed. *)
Definition demo4 := (run demo_clock (Complete (lease_of_reply demo3.2)) demo3.1).1.

(** The snapshot a process reads from a hub of the examples, and a job of it. *)
Definition snapshot_of (w : Hub (MemJournal QueueEvent) Mem.Store) : QueueState := ok_or initial_state (state_of (hub_journal w)).
Definition job_at (w : Hub (MemJournal QueueEvent) Mem.Store) (key : string) : Job :=
  default (new_job "" "" [] 0 0 "" "" 0 0 "") (dget (task_id_of key) (jobs (snapshot_of w))).

(** The steps of the second claim: after the lease has run out, the store with
    the task back in its queue, and what its claim answers. *)
Definition demo_late := at_time 200 demo2.1.
Definition demo_reclaimed : Mem.Store := (Adapter.reclaim_expired (hub_store demo_late)).1.
Definition demo_claimed := MapperQueue.claim SLOT_ID (task_id_of "a") "w2" ("hub-claim:" +:+ task_id_of "a") 30 (Some [("agent_id", Str "w2")]) [] demo_reclaimed.
Definition demo_lease : Lease := ok_or (MapperQueue.mkLease "" "" "" "" 0 "" [] [] false "") demo_claimed.2.

(** [demo1] claimed under a lease that lasts. *)
Definition demo_held := run demo_clock (ClaimSpecific (task_id_of "a") "w1" 300) demo1.

(** Another process submits ["b"] after [demo1]. *)
Definition demo_other := (run demo_clock (demo_submit "b") demo1).1.

(** * Lemmas *)

(** ** Snapshots *)

Lemma sort_keys_perm {V} (d : list (string * V)) : sort_keys d ≡ₚ d.
Proof. apply merge_sort_Permutation. Qed.

Lemma dget_fmap {V W} (f : V → W) (d : list (string * V)) k : dget k (prod_map id f <$> d) = f <$> dget k d.
Proof. induction d as [|[k' v] d IH]; [done|]. rewrite fmap_cons. change (dget k ((k', f v) :: (prod_map id f <$> d)) = f <$> dget k ((k', v) :: d)). rewrite !dget_cons, IH. by case_decide. Qed.

Lemma keys_fmap {V W} (f : V → W) (d : list (string * V)) : (prod_map id f <$> d).*1 = d.*1.
Proof. rewrite <- list_fmap_compose. by apply list_fmap_ext. Qed.

Lemma clone_NoDup {V W} (f : V → W) (d : list (string * V)) : NoDup d.*1 → NoDup (sort_keys (prod_map id f <$> d)).*1.
Proof. intros H. rewrite sort_keys_perm. by rewrite keys_fmap. Qed.

Lemma dget_clone {V W} (f : V → W) (d : list (string * V)) k : NoDup d.*1 →
  dget k (sort_keys (prod_map id f <$> d)) = f <$> dget k d.
Proof.
  intros H. rewrite <- dget_fmap. apply dget_perm; [by apply clone_NoDup|apply sort_keys_perm].
Qed.

Lemma dget_saved s t : NoDup (jobs s).*1 → dget t (jobs (saved s)) = norm <$> dget t (jobs s).
Proof.
  intros H. unfold saved, clone; cbn [jobs]. rewrite !dget_clone; [|done|by apply clone_NoDup].
  by destruct (dget t (jobs s)).
Qed.

Lemma dget_letters_saved s t : NoDup (dead_letters s).*1 →
  is_Some (dget t (dead_letters (saved s))) ↔ is_Some (dget t (dead_letters s)).
Proof.
  intros H. unfold saved, clone; cbn [dead_letters]. rewrite !dget_clone; [|done|by apply clone_NoDup].
  by rewrite !fmap_is_Some.
Qed.

Lemma job_ok_norm K t j : job_ok K t j → job_ok K t (norm j).
Proof. intros [? ? ? ? ? ?]. by constructor. Qed.

Lemma queue_ok_saved K s : queue_ok K s → queue_ok K (saved s).
Proof.
  intros [Hj Hl Hjobs Huni Hlet]. constructor.
  - by do 2 apply clone_NoDup.
  - by do 2 apply clone_NoDup.
  - intros t j. rewrite dget_saved by done. intros (j0 & Hg & ->)%fmap_Some. by apply job_ok_norm, Hjobs.
  - intros t t' j j'. rewrite !dget_saved by done. intros (j0 & Hg & ->)%fmap_Some (j1 & Hg' & ->)%fmap_Some E. by eapply Huni.
  - intros t. rewrite dget_letters_saved, Hlet, dget_saved by done. split.
    + intros (j & Hg & Hs). exists (norm j). by rewrite Hg.
    + intros (j & (j0 & Hg & ->)%fmap_Some & Hs). by exists j0.
Qed.

Lemma fences_ok_saved s log : NoDup (jobs s).*1 → fences_ok s log → fences_ok (saved s) log.
Proof.
  intros Hnd [Hl Hm]. split; [|done]. intros l Hin. destruct (Hl l Hin) as (j & Hg & Hf). exists (norm j).
  rewrite dget_saved, Hg by done. done.
Qed.

Lemma initial_ok K : queue_ok K initial_state.
Proof.
  constructor; [constructor|constructor|done|done|]. intros t. cbn. rewrite dget_nil. split; [by intros [? ?]|by intros (? & ? & ?)].
Qed.

(** ** Steps *)

(** What a step keeps of its job; only a claim counts. *)
Lemma job_step_keeps j j' : job_step j j' →
  job_task_id j' = job_task_id j ∧ job_key j' = job_key j ∧ max_attempts j' = max_attempts j ∧
  (attempts j' = attempts j ∧ job_fence j' = job_fence j ∧ granted j j' = [] ∨
   ∃ l, attempts j' = attempts j + 1 ∧ job_fence j' = job_fence j + 1 ∧ lease_from_job j' = Ok l ∧
     granted j j' = [l] ∧ task_id l = job_task_id j ∧ fence l = job_fence j').
Proof.
  assert (∀ j1 j2, attempts j2 = attempts j1 → granted j1 j2 = []) as Hg.
  { intros j1 j2 H. unfold granted. by rewrite H, Z.ltb_irrefl. }
  intros H. destruct H; cbn; repeat (split; [done|]); try (left; by rewrite Hg).
  right. eexists. do 2 (split; [done|]). split; [reflexivity|].
  unfold granted; cbn. rewrite (proj2 (Z.ltb_lt _ _)) by lia. done.
Qed.

(** A held job takes no step, and no step holds a job. *)
Lemma job_step_not_held j j' : job_step j j' → job_state j ≠ admitted_held ∧ job_state j' ≠ admitted_held.
Proof.
  destruct 1 as [j0 ? ? ? Hc|j0 ? ? ? ? ? ? [Hst _] ?|j0 ? ? ? [Hst _]|j0 ? ? ? ? [Hst _] ?|j0 ? ? ? ? ? [Hst _] ?|j0 ? ? Hst|j0 ? ? ?];
    cbn; rewrite ?Hst; try done. split; [|done]. intros Hst. unfold claimable in Hc. by rewrite Hst in Hc.
Qed.

Lemma job_step_ok K t j j' : job_step j j' → job_ok K t j → job_ok K t j'.
Proof.
  intros Hs [Hid Hk Hn [Ha Hf] Hm Hl]. destruct (job_step_not_held _ _ Hs) as [Hh Hh'].
  assert (t = if decide (job_state j' = admitted_held) then held_id_of (job_key j') else task_id_of (job_key j')) as Hn'.
  { destruct (job_step_keeps _ _ Hs) as (_ & -> & _). rewrite decide_False in Hn by done. by rewrite decide_False. }
  destruct Hs; constructor; cbn; try done; try lia.
  - intros _. by exists l.
  - intros Hle. destruct (Hl Hle) as (l0 & Hl0 & Hid' & _). eexists. split; [done|]. split; [|done]. by simplify_eq.
Qed.

(** The dead letters stay those of the dead jobs. *)
Lemma letters_after_cases t j j' letters : job_step j j' →
  (letters_after t j j' letters = letters ∧ (job_state j' = dead_letter ↔ job_state j = dead_letter)) ∨
  (letters_after t j j' letters = dput t (letter_of t j') letters ∧ job_state j' = dead_letter) ∨
  (letters_after t j j' letters = ddel t letters ∧ job_state j' ≠ dead_letter).
Proof.
  intros Hs. unfold letters_after. destruct Hs as [j0 ? ? ? Hc|j0 ? ? ? ? ? ? [Hst _] ?|j0 ? ? ? [Hst _]|j0 ? ? ? ? [Hst _] ?|j0 ? ? ? ? ? [Hst _] ?|j0 ? ? Hst|j0 ? ? ?];
    cbn; rewrite ?Hst; try first [left; by split|right; left; by split|right; right; by split].
  - unfold claimable in Hc. destruct (job_state j0); first [done|left; by split].
  - destruct (job_state j0); left; by split.
Qed.

Lemma letters_after_ok t j j' t' letters : job_step j j' →
  (is_Some (dget t letters) ↔ job_state j = dead_letter) →
  (is_Some (dget t' (letters_after t j j' letters)) ↔
   if decide (t' = t) then job_state j' = dead_letter else is_Some (dget t' letters)).
Proof.
  intros Hs Hl. destruct (letters_after_cases t j j' letters Hs) as [[-> Hd]|[[-> Hd]|[-> Hd]]].
  - case_decide; [|done]. subst. by rewrite Hl.
  - rewrite dget_put. case_decide; [|done]. split; [done|by eexists].
  - rewrite dget_del. case_decide; [|done]. split; [by intros []|done].
Qed.

Lemma letters_after_NoDup t j j' letters : NoDup letters.*1 → NoDup (letters_after t j j' letters).*1.
Proof.
  intros H. unfold letters_after. repeat case_match; auto with py. unfold ddel. by apply NoDup_Listfilter_fmap.
Qed.

Lemma find_key_None (s : QueueState) key t j :
  List.find (λ kj, String.eqb (job_key kj.2) key) (jobs s) = None → dget t (jobs s) = Some j → job_key j ≠ key.
Proof.
  intros Hf Hg Heq. apply dget_Some_pair, list_elem_of_In in Hg. pose proof (find_none _ _ Hf _ Hg) as H. cbn in H.
  by rewrite (proj2 (String.eqb_eq _ _) Heq) in H.
Qed.

(** The ids of held jobs are none of the submitted ones: a digest has no "h". *)
Lemma task_id_not_held k k' : task_id_of k ≠ held_id_of k'.
Proof.
  unfold task_id_of, held_id_of, Sha256.hexdigest. pose proof (Sha256.sha256_bytes (Sha256.bytes_of_string k)) as Hb.
  pose proof (Sha256.sha256_length (Sha256.bytes_of_string k)) as Hlen.
  destruct (Sha256.sha256 _) as [|b l]; [discriminate Hlen|]. apply Forall_cons in Hb as [Hb _].
  assert (Forall (λ b, Sha256.hex_digit (Z.shiftr b 4) ≠ Ascii.ascii_of_nat 104) (seqZ 0 256)) as Hall.
  { apply (bool_decide_unpack _). vm_compute. exact I. }
  rewrite Forall_forall in Hall. specialize (Hall b ltac:(apply elem_of_seqZ; lia)).
  unfold Sha256.hex_bytes. cbn -[Sha256.hex_digit Sha256.sha256 Z.shiftr Z.land]. intros E. injection E as E _. done.
Qed.

Lemma held_id_eq k k' : held_id_of k = held_id_of k' → task_id_of k = task_id_of k'.
Proof. unfold held_id_of, task_id_of. intros E. injection E as E.
  assert (String.substring 0 32 (Sha256.hexdigest k) = String.substring 0 32 (Sha256.hexdigest k')) as -> by exact E. done. Qed.

Section Steps.
Context (K : string → Prop) (HK : distinct_ids K).

Lemma submit_fresh s key : queue_ok K s → K key →
  List.find (λ kj, String.eqb (job_key kj.2) key) (jobs s) = None →
  dget (task_id_of key) (jobs s) = None ∧ dget (held_id_of key) (jobs s) = None.
Proof.
  intros Hok Hkey Hf. split.
  - destruct (dget (task_id_of key) (jobs s)) as [j|] eqn:E; [|done].
    destruct (ok_jobs _ _ Hok _ _ E) as [_ Hj Ht _ _ _]. exfalso. case_decide; [by eapply task_id_not_held|].
    apply (find_key_None _ _ _ _ Hf E). by apply HK.
  - destruct (dget (held_id_of key) (jobs s)) as [j|] eqn:E; [|done].
    destruct (ok_jobs _ _ Hok _ _ E) as [_ Hj Ht _ _ _]. exfalso. case_decide; [|by eapply task_id_not_held].
    apply (find_key_None _ _ _ _ Hf E). apply HK; [done..|]. symmetry. by apply held_id_eq.
Qed.

(** Adding a job under a fresh id, a queued or a held one. *)
Lemma queue_ok_add s s' t j : queue_ok K s → dget t (jobs s) = None → jobs s' = dput t j (jobs s) → dead_letters s' = dead_letters s →
  job_ok K t j → job_state j ≠ dead_letter → List.find (λ kj, String.eqb (job_key kj.2) (job_key j)) (jobs s) = None → queue_ok K s'.
Proof.
  intros [Hnd Hln Hj Hu Hl] Hn Hjs Hds Hjob Hst Hf. constructor; rewrite ?Hjs, ?Hds; [by auto with py|done| | |].
  2: { intros t1 t2 j1 j2. rewrite !dget_put. do 2 case_decide; subst; [done|..].
    - intros [= <-] H2 E. by destruct (find_key_None _ _ _ _ Hf H2).
    - intros H1 [= <-] E. by destruct (find_key_None _ _ _ _ Hf H1).
    - apply Hu. }
  - intros t' j'. rewrite dget_put. case_decide as Ht; [|by auto]. intros [= <-]. by subst t'.
  - intros t'. rewrite Hl, dget_put. case_decide as Ht; [|done]. subst t'. rewrite Hn. split; [by intros (? & ? & ?)|by intros (? & [= <-] & ?)].
Qed.

Lemma fences_ok_add s s' t j log : fences_ok s log → dget t (jobs s) = None → jobs s' = dput t j (jobs s) → fences_ok s' log.
Proof.
  intros [Hl Hm] Hn Hjs. split; [|done]. intros l Hin. destruct (Hl l Hin) as (j0 & Hj & ?). exists j0.
  split; [|done]. rewrite Hjs, dget_put_ne; [done|]. intros E. congruence.
Qed.

Lemma queue_step_ok s g s' : queue_ok K s → queue_step K s g s' → queue_ok K s'.
Proof.
  intros Hok. pose proof Hok as [Hnd Hln Hj Hu Hl]. destruct 1 as [key payload max now client ws w c policy Hkey Hf Hmax|t j j' Hg Hs|key job now client ws w c r Hkey Hf|m]; [| | |by constructor].
  - destruct (submit_fresh _ _ Hok Hkey Hf) as [Hn _]. eapply queue_ok_add; [done|exact Hn|reflexivity|done| |done|done]. by constructor.
  - constructor; cbn [put_job jobs dead_letters set_field]; [by auto with py|by apply letters_after_NoDup| | |].
    + intros t' j1. rewrite dget_put. case_decide as Ht; [|by auto]. intros [= <-]. subst t'. by apply (job_step_ok _ _ j), Hj.
    + destruct (job_step_keeps _ _ Hs) as (_ & Hkk & _). intros t1 t2 j1 j2. rewrite !dget_put.
      do 2 case_decide; subst; [done|intros [= <-] H2|intros H1 [= <-]|by apply Hu]; rewrite ?Hkk; eauto.
    + intros t'. rewrite letters_after_ok, dget_put by (try done; rewrite Hl, Hg; naive_solver). case_decide as Ht; [naive_solver|by rewrite Hl].
  - destruct (submit_fresh _ _ Hok Hkey Hf) as [_ Hn]. eapply queue_ok_add; [done|exact Hn|reflexivity|done| |done|done]. by constructor.
Qed.

Lemma fences_ok_snoc s log l : fences_ok s log → (∀ j, dget (task_id l) (jobs s) = Some j → job_fence j < fence l) →
  ∀ i k li lk, (log ++ [l]) !! i = Some li → (log ++ [l]) !! k = Some lk → (i < k)%nat → task_id li = task_id lk → fence li < fence lk.
Proof.
  intros [Hle Hmono] Hl i k li lk Hi Hk Hik Ht. rewrite lookup_app_Some in Hi. rewrite lookup_app_Some in Hk.
  assert (length log <= k → k = length log)%nat as Hlast.
  { intros Hge. destruct Hk as [Hk|[_ Hk]]; [apply lookup_lt_Some in Hk; lia|]. apply lookup_lt_Some in Hk. cbn in Hk. lia. }
  destruct Hk as [Hk|[Hge Hk]].
  - destruct Hi as [Hi|[Hge _]]; [by eapply Hmono|apply lookup_lt_Some in Hk; lia].
  - rewrite (Hlast Hge), Nat.sub_diag in Hk. injection Hk as <-.
    destruct Hi as [Hi|[Hge' _]]; [|specialize (Hlast Hge); lia].
    destruct (Hle li) as (j & Hg & Hf); [by apply list_elem_of_lookup_2 in Hi|]. rewrite Ht in Hg. specialize (Hl j Hg). lia.
Qed.

Lemma queue_step_fences s g s' log : queue_ok K s → fences_ok s log → queue_step K s g s' → fences_ok s' (log ++ g).
Proof.
  intros Hok Hf. destruct 1 as [key payload max now client ws w c policy Hkey Hfind Hmax|t j j' Hg Hs|key job now client ws w c r Hkey Hfind|m].
  - rewrite app_nil_r. eapply fences_ok_add; [done|exact (proj1 (submit_fresh s key Hok Hkey Hfind))|reflexivity].
  - destruct (job_step_keeps _ _ Hs) as (Hid & _ & _ & [(_ & Hfe & ->)|(l & _ & Hfe & Hlf & -> & Ht & Hlf')]).
    + rewrite app_nil_r. destruct Hf as [Hl Hm]. split; [|done]. intros l Hin. destruct (Hl l Hin) as (j0 & Hj & ?).
      cbn [put_job jobs set_field]. rewrite dget_put. case_decide as E; [|by exists j0]. exists j'. split; [done|]. rewrite E in Hj. simplify_eq. lia.
    + pose proof (ok_id _ _ _ (ok_jobs _ _ Hok _ _ Hg)) as Hjid. split.
      * intros l0 Hin. cbn [put_job jobs set_field]. rewrite dget_put. case_decide as E.
        -- exists j'. split; [done|]. apply elem_of_app in Hin as [Hin|Hin%list_elem_of_singleton]; [|subst l0; lia].
           destruct (proj1 Hf l0 Hin) as (j0 & Hj & ?). rewrite E in Hj. simplify_eq. lia.
        -- apply elem_of_app in Hin as [Hin|Hin%list_elem_of_singleton]; [by apply Hf|subst l0; congruence].
      * eapply fences_ok_snoc; [done|]. intros j0 Hj0. rewrite Ht, Hjid, Hg in Hj0. simplify_eq. lia.
  - rewrite app_nil_r. eapply fences_ok_add; [done|exact (proj2 (submit_fresh s key Hok Hkey Hfind))|reflexivity].
  - by rewrite app_nil_r.
Qed.
End Steps.

(** ** Programs *)

Section Effects.
Context {J M : Type} `{JournalLaws J QueueEvent} `{!OperationsStore M} (clock : nat → Z).
Notation Hub := (Hub J M).
Notation quiet := (quiet (J := J) (M := M)).
Implicit Types (w : Hub) (s : QueueState).

Lemma replayed_snoc evs q s : replayed (evs ++ [(q, Snapshot s)]) = let? _ := replayed evs in Ok (clone s).
Proof. unfold replayed. rewrite foldl_app. done. Qed.

#[local] Instance quiet_refl : Reflexive quiet.
Proof. by intros w. Qed.
#[local] Instance quiet_trans : Transitive quiet.
Proof. intros w1 w2 w3 H1 H2. unfold quiet in *. congruence. Qed.

Lemma quiet_reads w w' s : quiet w w' → reads_as w s → reads_as w' s.
Proof. unfold quiet, reads_as. by intros ->. Qed.

Lemma moves_time : moves quiet (time clock (J := J) (M := M)).
Proof. by intros w. Qed.
Lemma moves_mapper {A} (m : prog M MapperExn A) : moves quiet (mapper (J := J) m).
Proof. intros w. unfold mapper, rescue, zoom. by destruct (m (hub_store w)) as [m' [a|e]]. Qed.
Lemma moves_of_result {A} (r : result QueueExn A) : moves (S := Hub) quiet (of_result r).
Proof. by intros w. Qed.
Lemma moves_load : moves (S := Hub) quiet load.
Proof. by intros w. Qed.

Lemma moves_owned s lease : moves quiet (owned clock s lease).
Proof.
  unfold owned. apply moves_bind; [apply _|apply moves_of_result|intros j].
  apply moves_bind; [apply _|apply moves_time|intros now]. apply moves_bind; [apply _|by apply moves_raise_if|intros _].
  apply moves_bind; [apply _| |intros _; by apply moves_ret]. apply moves_try; [apply _| |].
  - apply moves_bind; [apply _|apply moves_of_result|intros l; apply moves_mapper].
  - intros e k Hk. repeat case_match; simplify_eq; by apply moves_raise.
Qed.

Lemma wp_load Q w s : reads_as w s → wp load Q w ↔ Q (Ok s) w.
Proof. unfold reads_as, wp, load; cbn. by intros ->. Qed.

(** A write is a snapshot at the end of the journal, whatever was there. *)
Lemma wp_save Q w s s' : reads_as w s →
  (∀ e, Q (Err e) w) → (∀ j', reads_as (mkHub j' (hub_store w) (hub_reads w)) (saved s') →
     Q (Ok tt) (mkHub j' (hub_store w) (hub_reads w))) → wp (save s') Q w.
Proof.
  intros Hs He Hok. unfold wp, save, commit. destruct (append_event _ _ _) as [j'|x] eqn:Ea; cbn; [|apply He].
  apply Hok. destruct (append_event_ok _ _ _ _ Ea) as (_ & q & _ & Hr). unfold reads_as, state_of in *; cbn [hub_journal].
  rewrite Hr; cbn [rp_valid rp_events]. destruct (rp_valid _); [|done]. rewrite replayed_snoc, Hs. done.
Qed.

Lemma wp_owned s lease Q w :
  (∀ e w', quiet w w' → Q (Err e) w') →
  (∀ j now w', dget (task_id lease) (jobs s) = Some j → holds j lease now → quiet w w' → Q (Ok j) w') →
  wp (owned clock s lease) Q w.
Proof.
  intros He Hok. unfold owned, job_of. destruct (dget (task_id lease) (jobs s)) as [j|] eqn:Ej; [|by apply He].
  rewrite wp_bind. cbn -[time raise_if]. rewrite wp_bind. cbn -[raise_if]. rewrite wp_bind, wp_raise_if.
  split; [intros _; by apply He|]. intros Hg. rewrite wp_bind. apply (wp_moves quiet).
  { apply moves_try; [apply _| |].
    - apply moves_bind; [apply _|apply moves_of_result|intros l; apply moves_mapper].
    - intros e k Hk. repeat case_match; simplify_eq; by apply moves_raise. }
  intros [[]|e] w' Hq; [|by apply He]. eapply Hok; [done| |exact Hq]. rewrite !orb_false_iff, !negb_false_iff in Hg.
  destruct Hg as [[[Hst Hid] Hf] Ht]. zbool. by repeat split; [..|apply String.eqb_eq| |].
Qed.

(** ** What each method does to the queue *)

(** Steps a quiet program; what it raises is raised with the journal of [base]. *)
Ltac quietly base := quietly_by constr:(quiet) ltac:(first [apply moves_time|apply moves_mapper|apply moves_of_result]) base.

Lemma wp_save_step K w0 w s s' g {A} (k : unit → prog Hub QueueExn A) Q :
  reads_as w0 s → quiet w0 w → queue_step K s g s' →
  (∀ e w', quiet w0 w' → Q (Err e) w') →
  (∀ w', changed K s g w' → wp (k tt) Q w') → wp (save s' ≫= k) Q w.
Proof.
  intros Hs Hq Hstep He Hok. rewrite wp_bind. apply (wp_save _ _ s); [by apply (quiet_reads w0)| |].
  - intros e. by apply He.
  - intros j' Hj. apply Hok. by exists s'.
Qed.

Lemma submit_effect K w s payload key max client ws wt c policy : reads_as w s → K key →
  wp (submit clock payload key max client ws wt c policy) (quiet_or_changed K s w) w.
Proof.
  intros Hs Hkey. unfold submit. rewrite wp_bind, wp_raise_if. split; [by left|intros Hg]. zbool.
  rewrite wp_bind, wp_raise_if. split; [by left|intros _]. rewrite wp_bind, (wp_load _ _ s) by done.
  destruct (List.find _ (jobs s)) as [[t j]|] eqn:Ef; [destruct (bool_decide _); by left|].
  quietly w. quietly w. eapply wp_save_step; [exact Hs|eassumption|by apply qs_submit|by left|by right].
Qed.

Lemma insert_held_effect K w s job key client ws wt c receipt : reads_as w s → K key →
  wp (insert_held clock job key client ws wt c receipt) (quiet_or_changed K s w) w.
Proof.
  intros Hs Hkey. unfold insert_held. rewrite wp_bind, (wp_load _ _ s) by done.
  destruct (List.find _ (jobs s)) as [[t j]|] eqn:Ef; destruct (dget key (admissions s)); try by left.
  quietly w. quietly w. apply (wp_save _ _ s); [by eapply quiet_reads|by left|]. intros j' Hj'. right.
  eexists. split; [by apply qs_hold|exact Hj'].
Qed.

(** A write of the job [t], as the last action of a method. *)
Lemma wp_save_job K w0 w s t j j' s' {A} (k : unit → prog Hub QueueExn A) Q :
  reads_as w0 s → quiet w0 w → dget t (jobs s) = Some j → job_step j j' →
  s' = (put_job t j' s) <| dead_letters ::= letters_after t j j' |> →
  (∀ e w', quiet w0 w' → Q (Err e) w') →
  (∀ w', changed K s (granted j j') w' → wp (k tt) Q w') → wp (save s' ≫= k) Q w.
Proof. intros Hs Hq Hg Hj ->. eapply wp_save_step; [exact Hs|exact Hq|by apply qs_job]. Qed.

(** The steps before the change of the job [t]: the state is read and the job found. *)
Lemma wp_find {A} w s t Q (k : Job → prog Hub QueueExn A) :
  (∀ e, Q (Err e) w) → (∀ j, dget t (jobs s) = Some j → wp (k j) Q w) → wp (of_result (job_of s t) ≫= k) Q w.
Proof. intros He Hk. rewrite wp_of_result. unfold job_of. destruct (dget t (jobs s)); [by apply Hk|apply He]. Qed.

Lemma claim_specific_effect K w s t worker ttl : reads_as w s →
  wp (claim_specific clock t worker ttl) (λ r w', (quiet w w' ∧ ∀ l, r ≠ Ok (Some l)) ∨ ∃ l, r = Ok (Some l) ∧ changed K s [l] w') w.
Proof.
  intros Hs. unfold claim_specific. rewrite wp_bind, wp_raise_if. split; [by left|intros _].
  rewrite wp_bind, (wp_load _ _ s) by done. apply wp_find; [by left|intros j Ej].
  quietly w. destruct (negb (claimable j _)) eqn:Ec; [by left|]. apply negb_false_iff in Ec.
  quietly w. rewrite wp_bind, wp_try, wp_bind.
  apply (wp_moves quiet); [apply moves_mapper|]. intros r w2 Hq2. assert (quiet w w2) by by etransitivity. destruct r as [l|e]; cbn beta iota.
  - rewrite wp_ret. quietly w. eapply (wp_save_job K w); [exact Hs|done|exact Ej|by eapply js_claim| |by left|].
    { unfold put_job, letters_after, claimable in *; cbn. by destruct (job_state j). }
    intros w4 Hc. right. eexists. split; [reflexivity|]. unfold granted in Hc. cbn [claimed attempts] in Hc.
    rewrite (proj2 (Z.ltb_lt _ _)) in Hc by lia. exact Hc.
  - destruct e as [| | |[]|]; by left.
Qed.

Lemma claim_first_effect K w s worker ttl rows : reads_as w s →
  wp (claim_first clock worker ttl rows) (λ r w', (quiet w w' ∧ ∀ l, r ≠ Ok (Some l)) ∨ ∃ l, r = Ok (Some l) ∧ changed K s [l] w') w.
Proof.
  revert w. induction rows as [|j rows IH]; intros w Hs; [by left|]. cbn [claim_first]. rewrite wp_bind.
  eapply wp_mono; [by apply (claim_specific_effect K)|]. intros r w' [[Hq Hr]|(l & -> & Hc)].
  - destruct r as [[l|]|e]; [by destruct (Hr l)| |by left]. eapply wp_mono; [apply IH; by apply (quiet_reads w)|].
    intros r2 w2 [[Hq2 Hr2]|Hc]; [left; split; [by etransitivity|done]|by right].
  - right. by exists l.
Qed.

Lemma claim_effect K w s worker ttl : reads_as w s →
  wp (claim clock worker ttl) (λ r w', (quiet w w' ∧ ∀ l, r ≠ Ok (Some l)) ∨ ∃ l, r = Ok (Some l) ∧ changed K s [l] w') w.
Proof.
  intros Hs. unfold claim. rewrite wp_bind, wp_raise_if. split; [by left|intros _].
  rewrite wp_bind, (wp_load _ _ s) by done. quietly w. eapply wp_mono; [apply (claim_first_effect K _ s); by apply (quiet_reads w)|].
  intros r' w2 [[Hq2 Hr2]|Hc]; [left; split; [by etransitivity|done]|by right].
Qed.

(** The common beginning of [heartbeat], [complete] and [fail]. *)
Lemma wp_holder {A} w s lease Q (k : Job → prog Hub QueueExn A) : reads_as w s →
  (∀ e w', quiet w w' → Q (Err e) w') →
  (∀ j now w', dget (task_id lease) (jobs s) = Some j → holds j lease now → quiet w w' → wp (k j) Q w') →
  wp (owned clock s lease ≫= k) Q w.
Proof. intros Hs He Hk. rewrite wp_bind. by apply wp_owned. Qed.

Lemma granted_none j j' : attempts j' = attempts j → granted j j' = [].
Proof. intros E. unfold granted. by rewrite E, Z.ltb_irrefl. Qed.

(** [job_write j'] finishes a method that saves [j'] as the job [t]. *)
Ltac job_write base :=
  match goal with
  | Hg : dget _ _ = Some ?j |- wp (save ?s' ≫= _) _ _ =>
      let j' := lazymatch s' with context [put_job _ ?j' _] => j' end in
      eapply (wp_save_job _ base _ _ _ j j'); [eassumption|eassumption|exact Hg| | |by left|];
        [..|let w' := fresh "w'" in let Hc := fresh "Hc" in
            intros w' Hc; right; rewrite granted_none in Hc by reflexivity; first [exact Hc|idtac]]
  end.

Lemma mapper_lease_of_Ok j l : mapper_lease_of j = Ok l → mapper_lease j = Some l.
Proof. unfold mapper_lease_of, lease_from_json. destruct (mapper_lease j); cbn; [|done]. repeat case_match; naive_solver. Qed.

(** A renewal changes the expiry of a lease and whether it is cancelled. *)
Lemma wp_heartbeat l ttl Q w :
  (∀ e w', quiet w w' → Q (Err e) w') →
  (∀ e c w', quiet w w' → Q (Ok (l <| MapperQueue.expires_at := e |> <| cancelled := c |>)) w') →
  wp (mapper (J := J) (M := M) (MapperQueue.heartbeat l ttl)) Q w.
Proof.
  intros He Hok. unfold wp, mapper, rescue, zoom, MapperQueue.heartbeat, mbind, prog_bind.
  destruct (Adapter.heartbeat _ _ _) as [m' [o|e]]; cbn; [by apply Hok|by apply He].
Qed.

Lemma heartbeat_effect K w s lease ttl : reads_as w s → wp (heartbeat clock lease ttl) (quiet_or_changed K s w) w.
Proof.
  intros Hs. unfold heartbeat. rewrite wp_bind, wp_raise_if. split; [by left|intros _].
  rewrite wp_bind, (wp_load _ _ s) by done. apply wp_holder; [done|by left|intros j now w1 Hj Hh Hq].
  rewrite wp_of_result. destruct (mapper_lease_of j) as [l|] eqn:El; [|by left]. apply mapper_lease_of_Ok in El.
  rewrite wp_bind. apply wp_heartbeat; [intros; left; by etransitivity|intros e c w2 Hq2]. assert (quiet w w2) by by etransitivity.
  quietly w. job_write w; [by eapply js_renew|].
  destruct Hh as [Hst _]. unfold letters_after; cbn. by rewrite Hst.
Qed.

Lemma complete_effect K w s lease : reads_as w s → wp (complete clock lease) (quiet_or_changed K s w) w.
Proof.
  intros Hs. unfold complete. rewrite wp_bind, (wp_load _ _ s) by done. apply wp_holder; [done|by left|intros j now w1 Hj Hh Hq].
  rewrite wp_of_result. destruct (mapper_lease_of j) as [l|] eqn:El; [|by left].
  quietly w. quietly w. rewrite <- wp_bind_ret. job_write w; [by eapply js_finish|].
  destruct Hh as [Hst _]. unfold letters_after; cbn. by rewrite Hst.
Qed.

Lemma fail_effect K w s lease code backoff : reads_as w s → wp (fail clock lease code backoff) (quiet_or_changed K s w) w.
Proof.
  intros Hs. unfold fail. rewrite wp_bind, wp_raise_if. split; [by left|intros _].
  rewrite wp_bind, (wp_load _ _ s) by done. apply wp_holder; [done|by left|intros j now w1 Hj Hh Hq].
  pose proof Hh as [Hst _]. quietly w. destruct (max_attempts j <=? attempts j) eqn:Ea; zbool; rewrite wp_of_result;
    destruct (mapper_lease_of j) as [l|] eqn:El; try (by left); quietly w.
  - job_write w; [by eapply js_bury|]. unfold letters_after; cbn. rewrite Hst. done.
  - job_write w; [by eapply js_retry|]. unfold letters_after; cbn. rewrite Hst. done.
Qed.

Lemma requeue_effect K w s t : reads_as w s → wp (requeue clock t) (quiet_or_changed K s w) w.
Proof.
  intros Hs. unfold requeue. rewrite wp_bind, (wp_load _ _ s) by done. apply wp_find; [by left|intros j Hj].
  rewrite wp_bind, wp_raise_if. split; [by left|intros Hst]. apply negb_false_iff, bool_decide_eq_true_1 in Hst.
  quietly w. quietly w. quietly w. rewrite <- wp_bind_ret. job_write w; [by apply js_revive|]. unfold letters_after; cbn. by rewrite Hst.
Qed.

Lemma update_payload_effect K w s t payload : reads_as w s → wp (update_payload clock t payload) (quiet_or_changed K s w) w.
Proof.
  intros Hs. unfold update_payload. rewrite wp_bind, (wp_load _ _ s) by done. apply wp_find; [by left|intros j Hj].
  rewrite wp_bind, wp_raise_if. split; [by left|intros Hst]. apply bool_decide_eq_false_1 in Hst.
  quietly w. rewrite <- wp_bind_ret. job_write w; [by apply js_payload|]. unfold letters_after; cbn. by destruct (job_state j).
Qed.

Lemma set_scheduler_manifest_effect K w s m : reads_as w s → wp (set_scheduler_manifest m) (quiet_or_changed K s w) w.
Proof.
  intros Hs. unfold set_scheduler_manifest. rewrite wp_bind, wp_raise_if. split; [by left|intros _].
  rewrite wp_bind, (wp_load _ _ s) by done. rewrite <- wp_bind_ret.
  eapply wp_save_step; [exact Hs|done|apply qs_manifest|by left|by right].
Qed.

(** Every call leaves the queue or takes one step of it, and the lease it
    returns is the one the step grants. *)
Lemma run_effect K w s c : reads_as w s → keys_ok K c →
  wp (run clock c) (λ r w', quiet w w' ∧ grants r = [] ∨ changed K s (grants r) w') w.
Proof.
  assert (∀ A (f : A → Reply) m, (∀ a, grants (Ok (f a)) = []) → wp m (quiet_or_changed K s w) w →
    wp (answer f m) (λ r w', quiet w w' ∧ grants r = [] ∨ changed K s (grants r) w') w) as Hans.
  { intros A f m Hf Hm. unfold answer. rewrite wp_bind. eapply wp_mono; [exact Hm|]. intros [a|e] w' [Hq|Hc].
    - left. split; [done|apply Hf].
    - right. by rewrite <- (Hf a) in Hc.
    - by left.
    - by right. }
  assert (∀ m, wp m (λ r w', (quiet w w' ∧ ∀ l, r ≠ Ok (Some l)) ∨ ∃ l, r = Ok (Some l) ∧ changed K s [l] w') w →
    wp (answer Grant m) (λ r w', quiet w w' ∧ grants r = [] ∨ changed K s (grants r) w') w) as Hcl.
  { intros m Hm. unfold answer. rewrite wp_bind. eapply wp_mono; [exact Hm|]. intros r w' [[Hq Hr]|(l & -> & Hc)]; [|by right].
    destruct r as [[l|]|e]; [by destruct (Hr l)|by left|by left]. }
  intros Hs Hkey. destruct c; cbn [run keys_ok] in *; first
    [apply Hans; [done|]|apply Hcl];
    eauto using submit_effect, claim_effect, claim_specific_effect, heartbeat_effect, complete_effect, fail_effect,
      requeue_effect, update_payload_effect, set_scheduler_manifest_effect, insert_held_effect.
Qed.
End Effects.

(** ** Histories *)

Section Histories.
Context {J M : Type} `{JournalLaws J QueueEvent} `{!OperationsStore M} (clock : nat → Z).
Context (K : string → Prop) (HK : distinct_ids K).
Notation Hub := (Hub J M).
Implicit Types (w : Hub) (s : QueueState) (log : list RetryLease).

Lemma hub_step_inv w log w' log' : hub_step clock K (w, log) (w', log') → hub_inv K w log → hub_inv K w' log'.
Proof.
  intros Hst (s & Hs & Hok & Hf). inv Hst as [? ? c Hkey|? ? m]; [|by exists s].
  pose proof (run_effect clock K _ _ c Hs Hkey) as Hrun. unfold wp in Hrun.
  destruct Hrun as [[Hq ->]|(s1 & Hstep & Hs1)].
  - exists s. rewrite app_nil_r. split; [by apply (quiet_reads w)|done].
  - exists (saved s1). pose proof (queue_step_ok _ HK _ _ _ Hok Hstep) as Hok1. split; [done|]. split; [by apply queue_ok_saved|].
    apply fences_ok_saved; [by destruct Hok1|]. by apply (queue_step_fences K HK s).
Qed.

Lemma history_inv x y : rtc (hub_step clock K) x y → hub_inv K x.1 x.2 → hub_inv K y.1 y.2.
Proof. induction 1 as [|[w log] [w1 log1] z Hstep _ IH]; intros Hi; [done|]. apply IH. by eapply hub_step_inv. Qed.

Lemma hub_reachable_inv w log : hub_reachable clock K w log → hub_inv K w log.
Proof.
  intros (w0 & Hv & He & Hrtc). apply (history_inv _ _ Hrtc). cbn [fst snd].
  exists initial_state. split; [unfold reads_as, state_of; by rewrite Hv, He|]. split; [apply initial_ok|].
  split; [|intros i k li lk Hi; by rewrite lookup_nil in Hi]. intros l Hl. by apply not_elem_of_nil in Hl.
Qed.

Lemma load_eq w s : reads_as w s → load w = (w, Ok s).
Proof. unfold reads_as, load. by intros ->. Qed.

Lemma owned_stale w s lease j : dget (task_id lease) (jobs s) = Some j →
  job_fence j ≠ fence lease ∨ job_state j ≠ leased ∨ default 0 (lease_expires_at j) <= clock (hub_reads w) →
  owned clock s lease w = (tick w, Err STALE).
Proof.
  intros Hj Hf. unfold owned, job_of. rewrite Hj. cbn. unfold mbind, prog_bind, time; cbn.
  assert (job_fence j =? fence lease = false ∨ bool_decide (job_state j = leased) = false ∨
          (default 0 (lease_expires_at j) <=? clock (hub_reads w)) = true) as Hc.
  { destruct Hf as [Hf|[Hf|Hf]]; [left; by apply Z.eqb_neq|right; left; by apply bool_decide_eq_false_2|right; right; by apply Z.leb_le]. }
  assert (negb (bool_decide (job_state j = leased)) || negb (str_or_none (job_lease_id j) =? lease_id lease)%string
          || negb (job_fence j =? fence lease) || (default 0 (lease_expires_at j) <=? clock (hub_reads w)) = true) as ->; [|done].
  destruct Hc as [->|[->| ->]]; cbn; by rewrite ?orb_true_r.
Qed.

Lemma stale_refused w s lease j : reads_as w s → dget (task_id lease) (jobs s) = Some j →
  job_fence j ≠ fence lease ∨ job_state j ≠ leased ∨ default 0 (lease_expires_at j) <= clock (hub_reads w) → refused clock w lease.
Proof.
  intros Hs Hj Hf. pose proof (owned_stale w s lease j Hj Hf) as Ho. split; [|split].
  - intros ttl Ht. unfold heartbeat. rewrite (proj2 (Z.leb_gt _ _)) by lia. cbn [raise_if].
    erewrite bind_ok by reflexivity. erewrite bind_ok by by apply load_eq. by apply bind_err.
  - unfold complete. erewrite bind_ok by by apply load_eq. by apply bind_err.
  - intros code backoff Hc%Str.truthy_ne. unfold fail. rewrite Hc. cbn [raise_if negb].
    erewrite bind_ok by reflexivity. erewrite bind_ok by by apply load_eq. by apply bind_err.
Qed.

Lemma find_key_Some s key t j : queue_ok K s → K key → dget t (jobs s) = Some j → job_state j ≠ admitted_held → job_key j = key →
  t = task_id_of key ∧ ∃ kj, List.find (λ kj, String.eqb (job_key kj.2) key) (jobs s) = Some kj ∧ kj.2 = j.
Proof.
  intros Hok Hkey Hj Hh Hk. destruct (ok_jobs _ _ Hok _ _ Hj) as [Hid _ Ht _ _ _]. rewrite decide_False, Hk in Ht by done. split; [done|].
  destruct (List.find _ (jobs s)) as [[t' j']|] eqn:Ef; [|by destruct (find_key_None s key t j Ef Hj)].
  exists (t', j'). split; [done|]. apply find_some in Ef as [Hin Heq]. apply String.eqb_eq in Heq. cbn in Heq |- *.
  apply list_elem_of_In, (elem_of_dget t' j' (jobs s)) in Hin; [|apply Hok].
  assert (t = t') as <- by (eapply (ok_unique _ _ Hok); [exact Hj|exact Hin|congruence]). congruence.
Qed.

(** A job stays in the queue with its key; a completed one keeps its state, and
    no step grants it. *)
Lemma queue_step_job s g s' t j : queue_ok K s → queue_step K s g s' → dget t (jobs s) = Some j →
  ∃ j', dget t (jobs s') = Some j' ∧ job_key j' = job_key j ∧ (job_state j ≠ admitted_held → job_state j' ≠ admitted_held) ∧
    (job_state j = completed → job_state j' = completed ∧ ∀ l, l ∈ g → task_id l ≠ t).
Proof.
  intros Hok Hstep Hj.
  assert (∀ t0 j0, dget t0 (jobs s) = None → ∃ j', dget t (dput t0 j0 (jobs s)) = Some j' ∧ job_key j' = job_key j ∧
    (job_state j ≠ admitted_held → job_state j' ≠ admitted_held) ∧
    (job_state j = completed → job_state j' = completed ∧ ∀ l, l ∈ [] → task_id l ≠ t)) as Hadd.
  { intros t0 j0 Hn. exists j. rewrite dget_put_ne by congruence. do 3 (split; [done|]). intros Hc. split; [done|]. intros l Hl. by apply not_elem_of_nil in Hl. }
  destruct Hstep as [key payload max now client ws w c policy Hkey Hf Hmax|t' j0 j' Hg Hs|key job now client ws w c r Hkey Hf|m].
  - apply Hadd. exact (proj1 (submit_fresh K HK s key Hok Hkey Hf)).
  - cbn [put_job jobs set_field]. rewrite dget_put. destruct (job_step_keeps _ _ Hs) as (Hid & Hk & _ & Hgr).
    case_decide as E.
    + subst t'. simplify_eq. exists j'. split; [done|]. split; [done|]. split; [intros _; by eapply job_step_not_held|]. intros Hc. destruct Hs; cbn;
        try (match goal with Hh : holds _ _ _ |- _ => destruct Hh as [Hst _] end; congruence); try congruence.
      * unfold claimable in *. rewrite Hc in *. done.
      * split; [done|]. rewrite granted_none by done. intros l Hl. by apply not_elem_of_nil in Hl.
    + exists j. do 3 (split; [done|]). intros Hc. split; [done|]. intros l Hl.
      destruct Hgr as [(_ & _ & Hn)|(l' & _ & _ & _ & Hn & Ht & _)]; rewrite Hn in Hl; [by apply not_elem_of_nil in Hl|].
      apply list_elem_of_singleton in Hl as ->. rewrite Ht, (ok_id _ _ _ (ok_jobs _ _ Hok _ _ Hg)). done.
  - apply Hadd. exact (proj2 (submit_fresh K HK s key Hok Hkey Hf)).
  - exists j. do 3 (split; [done|]). intros Hc. split; [done|]. intros l Hl. by apply not_elem_of_nil in Hl.
Qed.

Lemma hub_step_job w log w' log' s t j : hub_step clock K (w, log) (w', log') → reads_as w s → queue_ok K s → dget t (jobs s) = Some j →
  ∃ s' j' new, reads_as w' s' ∧ queue_ok K s' ∧ dget t (jobs s') = Some j' ∧ job_key j' = job_key j ∧ (job_state j ≠ admitted_held → job_state j' ≠ admitted_held) ∧ log' = log ++ new ∧
    (job_state j = completed → job_state j' = completed ∧ ∀ l, l ∈ new → task_id l ≠ t).
Proof.
  intros Hst Hs Hok Hj. inv Hst as [? ? c Hkey|? ? m].
  - pose proof (run_effect clock K _ _ c Hs Hkey) as Hrun. unfold wp in Hrun. destruct Hrun as [[Hq ->]|(s1 & Hstep & Hs1)].
    + exists s, j, []. split; [by apply (quiet_reads w)|]. split_and!; try done. intros ?. split; [done|]. intros l Hl. by apply not_elem_of_nil in Hl.
    + destruct (queue_step_job _ _ _ _ _ Hok Hstep Hj) as (j' & Hj' & Hk & Hh & Hc). pose proof (queue_step_ok _ HK _ _ _ Hok Hstep) as Hok1.
      exists (saved s1), (norm j'), (grants (run clock c w).2). split; [done|]. split; [by apply queue_ok_saved|].
      split; [rewrite dget_saved by (by destruct Hok1); by rewrite Hj'|]. done.
  - exists s, j, []. split; [done|]. split_and!; try done; [by rewrite app_nil_r|]. intros ?. split; [done|]. intros l Hl. by apply not_elem_of_nil in Hl.
Qed.

Lemma history_job w log w' log' s t j : rtc (hub_step clock K) (w, log) (w', log') → reads_as w s → queue_ok K s → dget t (jobs s) = Some j →
  ∃ s' j' new, reads_as w' s' ∧ queue_ok K s' ∧ dget t (jobs s') = Some j' ∧ job_key j' = job_key j ∧ (job_state j ≠ admitted_held → job_state j' ≠ admitted_held) ∧ log' = log ++ new ∧
    (job_state j = completed → job_state j' = completed ∧ ∀ l, l ∈ new → task_id l ≠ t).
Proof.
  intros Hrtc. remember (w, log) as x eqn:Ex. remember (w', log') as y eqn:Ey. revert w log Ex s j.
  induction Hrtc as [x|x [w1 log1] z Hstep Hrtc IH]; intros w log Ex s j Hs Hok Hj; subst.
  - simplify_eq. exists s, j, []. split; [done|]. split_and!; try done; [by rewrite app_nil_r|]. intros ?. split; [done|]. intros l Hl. by apply not_elem_of_nil in Hl.
  - destruct (hub_step_job _ _ _ _ _ _ _ Hstep Hs Hok Hj) as (s1 & j1 & n1 & Hs1 & Hok1 & Hj1 & Hk1 & Hh1 & -> & Hc1).
    destruct (IH eq_refl _ _ eq_refl _ _ Hs1 Hok1 Hj1) as (s2 & j2 & n2 & Hs2 & Hok2 & Hj2 & Hk2 & Hh2 & -> & Hc2).
    exists s2, j2, (n1 ++ n2). split_and!; try done; [congruence|by auto|by rewrite app_assoc|]. intros Hc.
    destruct (Hc1 Hc) as [Hc' Hn1]. destruct (Hc2 Hc') as [Hc'' Hn2]. split; [done|]. intros l [Hl|Hl]%elem_of_app; auto.
Qed.
End Histories.

(** ** Methods that succeed *)

Section Success.
Context {J M : Type} `{JournalLaws J QueueEvent} `{!OperationsStore M} (clock : nat → Z).
Implicit Types (w : Hub J M) (s : QueueState).

Lemma append_reads w s s' (m : M) n j2 q : reads_as w s → append_event (hub_journal w) (Snapshot (clone s')) q = Ok j2 →
  reads_as (mkHub j2 m n) (saved s').
Proof.
  intros Hs Ha. destruct (append_event_ok _ _ _ _ Ha) as (_ & k & _ & Hr). unfold reads_as, state_of in *; cbn [hub_journal].
  rewrite Hr; cbn [rp_valid rp_events]. destruct (rp_valid _); [|done]. by rewrite replayed_snoc, Hs.
Qed.

Lemma owned_holds w s lease j l m1 : dget (task_id lease) (jobs s) = Some j → holds j lease (clock (hub_reads w)) →
  mapper_lease_of j = Ok l → assert_active l (hub_store w) = (m1, Ok tt) →
  owned clock s lease w = (mkHub (hub_journal w) m1 (S (hub_reads w)), Ok j).
Proof.
  intros Hj (Hst & Hid & Hf & Ht) Hl Ha. unfold owned, job_of. rewrite Hj. cbn [or_raise].
  erewrite bind_ok by reflexivity. erewrite bind_ok by reflexivity. cbn beta.
  rewrite Hst, Hid, Hf, bool_decide_eq_true_2, String.eqb_refl, Z.eqb_refl, (proj2 (Z.leb_gt _ _)) by done. cbn [negb orb raise_if].
  erewrite bind_ok by reflexivity. erewrite bind_ok; [reflexivity|]. unfold try_except. rewrite Hl. erewrite bind_ok by reflexivity.
  unfold mapper, rescue, zoom; cbn [hub_store]. rewrite Ha. reflexivity.
Qed.

Lemma submit_new w s w1 key t p max client ws wt c policy :
  reads_as w s → List.find (λ kj, String.eqb (job_key kj.2) key) (jobs s) = None →
  submit clock p key max client ws wt c policy w = (w1, Ok t) →
  ∃ now, t = task_id_of key ∧
    reads_as w1 (saved (put_job t (new_job t key p max now (effective_client_id p client) ws wt c policy) s)).
Proof.
  intros Hs Hf Hsub.
  assert (wp (submit clock p key max client ws wt c policy) (λ r w', ∀ t, r = Ok t → ∃ now, t = task_id_of key ∧
    reads_as w' (saved (put_job t (new_job t key p max now (effective_client_id p client) ws wt c policy) s))) w) as Hw.
  { unfold submit. rewrite wp_bind, wp_raise_if. split; [done|intros _]. rewrite wp_bind, wp_raise_if. split; [done|intros _].
    rewrite wp_bind, (wp_load _ _ s), Hf by done. rewrite wp_bind. apply (wp_moves quiet); [apply moves_mapper|]. intros [u|e] w2 Hq; [|done].
    cbn beta iota. rewrite wp_bind. apply (wp_moves quiet); [apply moves_time|]. intros [now|e] w3 Hq3; [|done]. cbn beta iota. rewrite wp_bind.
    apply (wp_save _ _ s); [eapply quiet_reads; [exact Hq3|by eapply quiet_reads]|done|]. intros j' Hj'. cbn beta iota. rewrite wp_ret. intros t' [= <-].
    by exists now. }
  unfold wp in Hw. rewrite Hsub in Hw. by apply Hw.
Qed.

Lemma submit_leaves K : distinct_ids K → ∀ w s w1 key t p max client ws wt c policy,
  queue_ok K s → reads_as w s → K key → submit clock p key max client ws wt c policy w = (w1, Ok t) →
  key ≠ "" ∧ ∃ s1 j, reads_as w1 s1 ∧ queue_ok K s1 ∧ dget t (jobs s1) = Some j ∧ job_key j = key ∧ job_state j ≠ admitted_held.
Proof.
  intros HK w s w1 key t p max client ws wt c policy Hok Hs Hkey Hsub. split.
  { intros ->. unfold submit in Hsub. by cbn in Hsub. }
  destruct (List.find (λ kj, String.eqb (job_key kj.2) key) (jobs s)) as [[t0 j]|] eqn:Ef.
  - exists s, j. unfold submit in Hsub. destruct (negb (Str.truthy key) || (max <? 1)); [done|]. cbn [raise_if] in Hsub.
    erewrite bind_ok in Hsub by reflexivity. destruct (negb (Str.truthy policy)); [done|]. cbn [raise_if] in Hsub.
    erewrite bind_ok in Hsub by reflexivity. erewrite bind_ok in Hsub by by apply load_eq. rewrite Ef in Hsub.
    destruct (bool_decide (job_state j = admitted_held)) eqn:Eh; [done|]. apply bool_decide_eq_false_1 in Eh. injection Hsub as <- <-. apply find_some in Ef as [Hin Hk]. apply String.eqb_eq in Hk.
    apply list_elem_of_In, elem_of_dget in Hin; [|apply Hok]. rewrite (ok_id _ _ _ (ok_jobs _ _ Hok _ _ Hin)). done.
  - pose proof (submit_effect clock K w s p key max client ws wt c policy Hs Hkey) as He. unfold wp in He. rewrite Hsub in He.
    destruct (submit_new w s w1 key t p max client ws wt c policy Hs Ef Hsub) as (now & -> & Hs1). eexists _, _. split; [exact Hs1|].
    destruct He as [Hq|(s1 & Hstep & Hr)].
    { exfalso. apply (quiet_reads _ _ _ Hq) in Hs. unfold reads_as in Hs1, Hs. cbn in Hs. rewrite Hs1 in Hs. injection Hs as Hs.
      assert (dget (task_id_of key) (jobs s) = None) as Hn by by apply (proj1 (submit_fresh K HK s key Hok Hkey Ef)).
      rewrite <- Hs, dget_saved in Hn by (cbn; apply dput_NoDup, Hok). cbn [put_job jobs set_field] in Hn. by rewrite dget_put_eq in Hn. }
    cbn [fst] in Hr. unfold reads_as in Hr, Hs1. rewrite Hs1 in Hr.
    match type of Hr with Ok ?x = Ok ?y => assert (x = y) as Heq by congruence end. clear Hr. rewrite Heq. pose proof (queue_step_ok K HK _ _ _ Hok Hstep) as Hok1.
    split; [by apply queue_ok_saved|]. rewrite <- Heq, dget_saved by (cbn; apply dput_NoDup, Hok).
    cbn [put_job jobs set_field]. rewrite dget_put_eq. split; [reflexivity|done].
Qed.
End Success.

(** * Properties *)

Section Properties.
Context {J M : Type} `{JournalLaws J QueueEvent} `{!OperationsStore M} (clock : nat → Z) (K : string → Prop).
Implicit Types (w : Hub J M) (log : list RetryLease).

(** C7: Only the newest lease of a task is worth anything. In every history of
    calls that one process makes on a queue that starts empty, for any workers, held
    admissions (once validated) among the calls and with the mapper's store changing
    as it likes in between, a lease that was granted before another one for the same task
    is refused by [heartbeat], [complete] and [fail] with a [QueueLeaseError], and
    the refused call changes neither the journal nor the store: a worker that
    comes back after its task was given to another cannot disturb it. The keys
    submitted are assumed not to share a task id (32 digits of a SHA-256); and a second
    process on the same journal is outside: its stale save can revert the state
    ([lost_submission]). *)
Theorem only_newest_lease w log i k old new :
  distinct_ids K → hub_reachable clock K w log → log !! i = Some old → log !! k = Some new → (i < k)%nat →
  task_id old = task_id new → refused clock w old.
Proof.
  intros HK Hr Hi Hk Hik Ht. destruct (hub_reachable_inv _ _ HK _ _ Hr) as (s & Hs & Hok & Hl & Hm).
  pose proof (Hm _ _ _ _ Hi Hk Hik Ht) as Hlt. destruct (Hl new) as (j & Hj & Hf); [by apply list_elem_of_lookup_2 in Hk|].
  apply (stale_refused clock w s old j); [done|by rewrite Ht|]. left. lia.
Qed.

(** C33: Completion is final: whatever the process calls afterwards, held admissions
    included and with the mapper's store changing as it likes in between, a completed job
    keeps its state and no lease is ever granted for it again. The queue is one that
    this process alone has written since it was empty (a second process can put an
    older state back, [lost_submission]), and no two keys share a task id. *)
Theorem completed_is_final w log w' log' t :
  distinct_ids K → hub_reachable clock K w log → (state t w).2 = Ok completed → rtc (hub_step clock K) (w, log) (w', log') →
  (state t w').2 = Ok completed ∧ ∃ new, log' = log ++ new ∧ ∀ l, l ∈ new → task_id l ≠ t.
Proof.
  intros HK Hr Hc Hrtc. destruct (hub_reachable_inv _ _ HK _ _ Hr) as (s & Hs & Hok & _).
  unfold state in *. erewrite bind_ok in Hc by by apply load_eq. unfold job_of in Hc.
  destruct (dget t (jobs s)) as [j|] eqn:Hj; [|done]. injection Hc as Hc.
  destruct (history_job _ _ HK _ _ _ _ _ _ _ Hrtc Hs Hok Hj) as (s' & j' & new & Hs' & _ & Hj' & _ & _ & -> & Hfin).
  destruct (Hfin Hc) as [Hc' Hnew]. split; [|by exists new]. erewrite bind_ok by by apply load_eq. unfold job_of. rewrite Hj'.
  unfold mbind, prog_bind, of_result; cbn. by rewrite Hc'.
Qed.

(** [submit] is idempotent in its key for ever: after any history, the
    same key gives the same task id, whatever payload, limits and policy come
    with it, and changes nothing. *)
Theorem submit_idempotent w log w1 w2 log2 key t p max client ws wt c policy p' max' client' ws' wt' c' policy' :
  distinct_ids K → hub_reachable clock K w log → K key →
  submit clock p key max client ws wt c policy w = (w1, Ok t) → rtc (hub_step clock K) (w1, log) (w2, log2) →
  1 <= max' → policy' ≠ "" → submit clock p' key max' client' ws' wt' c' policy' w2 = (w2, Ok t).
Proof.
  intros HK Hr Hkey Hsub Hrtc Hmax Hpol%Str.truthy_ne. destruct (hub_reachable_inv _ _ HK _ _ Hr) as (s & Hs & Hok & _).
  destruct (submit_leaves clock K HK _ _ _ _ _ _ _ _ _ _ _ _ Hok Hs Hkey Hsub) as (Hne & s1 & j & Hs1 & Hok1 & Hj & Hjk & Hjh).
  destruct (history_job _ _ HK _ _ _ _ _ _ _ Hrtc Hs1 Hok1 Hj) as (s2 & j2 & _ & Hs2 & Hok2 & Hj2 & Hk2 & Hh2 & _ & _).
  destruct (find_key_Some K s2 key t j2) as (_ & [t' j'] & Hf & Heq); [done..|by apply Hh2|congruence|]. cbn in Heq. subst j'.
  apply Str.truthy_ne in Hne. unfold submit. rewrite Hne, Hpol, (proj2 (Z.ltb_ge _ _)) by lia. cbn [negb orb raise_if].
  do 2 (erewrite bind_ok by reflexivity). erewrite bind_ok by by apply load_eq. rewrite Hf.
  destruct (ok_jobs _ _ Hok2 _ _ Hj2) as [<- _ _ _ _ _]. rewrite bool_decide_eq_false_2 by (by apply Hh2). done.
Qed.

(** The attempt limit is only looked at by [fail]. A job whose lease has
    run out, or that is queued and due, is granted again whenever the store
    grants it, under the next fence and with one more attempt, also when its
    attempts have reached or passed [max_attempts]: a task that kills its
    workers is claimed for ever and never becomes a dead letter. *)
Theorem claim_ignores_limit w s t worker ttl j m1 v m2 l j2 :
  reads_as w s → dget t (jobs s) = Some j → t ≠ "" → worker ≠ "" → 0 < ttl → claimable j (clock (hub_reads w)) = true →
  Adapter.reclaim_expired (hub_store w) = (m1, Ok v) →
  MapperQueue.claim SLOT_ID t worker ("hub-claim:" +:+ t) ttl (Some [("agent_id", Str worker)]) [] m1 = (m2, Ok l) →
  append_event (hub_journal w) (Snapshot (clone (put_job t (claimed j l (clock (S (hub_reads w)))) s))) (last_seq (replay (hub_journal w))) = Ok j2 →
  claim_specific clock t worker ttl w =
    (mkHub j2 m2 (S (S (hub_reads w))),
     Ok (Some (mkRetryLease (job_task_id j) (MapperQueue.lease_id l) (job_fence j + 1) (MapperQueue.expires_at l) (attempt_id l) (fencing_token l)))) ∧
  reads_as (mkHub j2 m2 (S (S (hub_reads w)))) (saved (put_job t (claimed j l (clock (S (hub_reads w)))) s)) ∧
  attempts (claimed j l (clock (S (hub_reads w)))) = attempts j + 1.
Proof.
  intros Hs Hj Ht%Str.truthy_ne Hw%Str.truthy_ne Httl Hc Hre Hcl Happ. split; [|split; [|done]].
  - unfold claim_specific. rewrite Ht, Hw, (proj2 (Z.leb_gt _ _)) by lia. cbn [negb orb raise_if].
    erewrite bind_ok by reflexivity. erewrite bind_ok by by apply load_eq. unfold job_of. rewrite Hj. cbn [or_raise].
    erewrite bind_ok by reflexivity. erewrite bind_ok by reflexivity. rewrite Hc. cbn [negb].
    erewrite bind_ok by (unfold mapper, rescue, zoom; cbn [hub_store]; rewrite Hre; reflexivity).
    erewrite bind_ok; cycle 1.
    { unfold try_except. erewrite bind_ok by (unfold mapper, rescue, zoom; cbn [hub_store]; rewrite Hcl; reflexivity). reflexivity. }
    cbn beta iota. erewrite bind_ok by reflexivity. cbn [hub_reads hub_journal hub_store].
    erewrite bind_ok by (unfold save, commit; cbn [hub_reads hub_journal hub_store]; rewrite Happ; reflexivity). reflexivity.
  - by eapply (append_reads w).
Qed.

(** [fail] under a lease that is held returns the job for another attempt,
    not before the backoff, while it has attempts left, and makes it a dead
    letter exactly when it has none; the answer says which, and the store is
    told to release the task or to end it as failed. *)
Theorem fail_exact w s lease code backoff j l m1 m2 j2 :
  let now := clock (S (hub_reads w)) in
  let dead := max_attempts j <=? attempts j in
  let ref := "hub-dead-letter:" +:+ task_id lease in
  let s' := if dead then (put_job (task_id lease) (buried j code now) s)
                         <| dead_letters ::= dput (task_id lease) (mkDeadLetter (task_id lease) (canon (job_payload j)) (attempts j) code now) |>
            else put_job (task_id lease) (retried j code backoff now) s in
  reads_as w s → dget (task_id lease) (jobs s) = Some j → code ≠ "" → holds j lease (clock (hub_reads w)) → mapper_lease_of j = Ok l →
  assert_active l (hub_store w) = (m1, Ok tt) →
  (if dead then ∃ d, MapperQueue.complete l ref (build_completion_receipt (MapperQueue.task_id l) (agent_id l) (fencing_token l) ref
                       [("error_code", Str code); ("attempts", Int (attempts j))]) "failed" m1 = (m2, Ok d)
   else ∃ v, MapperQueue.release l m1 = (m2, Ok v)) →
  append_event (hub_journal w) (Snapshot (clone s')) (last_seq (replay (hub_journal w))) = Ok j2 →
  fail clock lease code backoff w = (mkHub j2 m2 (S (S (hub_reads w))), Ok dead) ∧ reads_as (mkHub j2 m2 (S (S (hub_reads w)))) (saved s').
Proof.
  cbv zeta. intros Hs Hj Hc%Str.truthy_ne Hh Hl Ha Hst Happ. split; [|by eapply (append_reads w)].
  unfold fail. rewrite Hc. cbn [negb raise_if]. erewrite bind_ok by reflexivity. erewrite bind_ok by by apply load_eq.
  erewrite bind_ok by by eapply owned_holds. erewrite bind_ok by reflexivity. cbn [hub_reads].
  destruct (max_attempts j <=? attempts j), Hst as [d Hd]; rewrite Hl; (erewrite bind_ok by reflexivity);
    (erewrite bind_ok by (unfold mapper, rescue, zoom; cbn [hub_store]; rewrite Hd; reflexivity)); cbv zeta; cbn [hub_reads hub_journal hub_store];
    (erewrite bind_ok by (unfold save, commit; cbn [hub_reads hub_journal hub_store]; rewrite Happ; reflexivity)); reflexivity.
Qed.

(** The lock of the queue is one process's, and [_save] expects the number
    of a replay it makes itself, so it never conflicts: what a process writes
    replaces what others wrote since it read. Here [w] is the moment one
    process has read the state [s]; another then submits a job and is answered
    its id; when the first one saves, for any job [t] it is working on, the
    submitted job is gone. *)
Theorem lost_submission w w1 w2 s key t' p max client ws wt c policy t j :
  reads_as w s → List.find (λ kj, String.eqb (job_key kj.2) key) (jobs s) = None → dget t' (jobs s) = None → NoDup (jobs s).*1 → t ≠ t' →
  submit clock p key max client ws wt c policy w = (w1, Ok t') → save (put_job t j s) w1 = (w2, Ok tt) →
  (state t' w1).2 = Ok queued ∧ (state t' w2).2 = Err (QueueRetryError "unknown task").
Proof.
  intros Hs Hf Hn Hnd Hne Hsub Hsave. destruct (submit_new clock _ _ _ _ _ _ _ _ _ _ _ _ Hs Hf Hsub) as (now & -> & Hs1).
  pose proof (wp_save (λ r w', ∀ u, r = Ok u → reads_as w' (saved (put_job t j s))) w1 _ (put_job t j s) Hs1) as Hw.
  unfold wp in Hw. rewrite Hsave in Hw. cbn in Hw. specialize (Hw ltac:(done) ltac:(done) tt eq_refl).
  unfold state, job_of. split.
  - erewrite bind_ok by by apply load_eq. rewrite dget_saved by (cbn; by auto with py). cbn [put_job jobs set_field]. by rewrite dget_put_eq.
  - erewrite bind_ok by by apply load_eq. rewrite dget_saved by (cbn; by auto with py). cbn [put_job jobs set_field]. by rewrite dget_put_ne, Hn.
Qed.
End Properties.

(** * Examples *)

Lemma demo_distinct : distinct_ids demo_keys.
Proof. intros k k' [->| ->] [->| ->] H; [done| | |done]; vm_compute in H; discriminate. Qed.

Lemma demo_call log w c : keys_ok demo_keys c → ∀ w' r, run demo_clock c w = (w', r) →
  hub_step (J := MemJournal QueueEvent) (M := Mem.Store) demo_clock demo_keys (w, log) (w', log ++ grants r).
Proof. intros Hk w' r Hr. pose proof (hub_call demo_clock demo_keys w log c Hk) as H. by rewrite Hr in H. Qed.

(** The three calls and their log. *)
Lemma demo_history : rtc (hub_step demo_clock demo_keys) (demo_hub, []) (demo3.1, [lease_of_reply demo2.2; lease_of_reply demo3.2]).
Proof.
  eapply rtc_l; [apply (demo_call [] demo_hub (demo_submit "a")); [by left|apply surjective_pairing]|].
  eapply rtc_l; [apply (demo_call _ demo1 (ClaimSpecific (task_id_of "a") "w1" 30)); [done|apply surjective_pairing]|].
  eapply rtc_l; [apply (hub_outside _ _ _ _ (Mem.mkStore (Mem.tasks (hub_store demo2.1)) 200))|].
  eapply rtc_l; [apply (demo_call _ (at_time 200 demo2.1) (ClaimSpecific (task_id_of "a") "w2" 30)); [done|apply surjective_pairing]|].
  match goal with |- rtc _ (?a, ?x) (?b, ?y) => replace y with x; [apply rtc_refl|vm_compute; reflexivity] end.
Qed.

Lemma only_newest_lease_witness :
  let old := lease_of_reply demo2.2 in let new := lease_of_reply demo3.2 in
  fence old = 1 ∧ fence new = 2 ∧ task_id old = task_id new ∧ refused demo_clock demo3.1 old ∧
  is_ok (complete demo_clock new demo3.1).2 = true.
Proof.
  cbv zeta. split; [vm_compute; reflexivity|]. split; [vm_compute; reflexivity|].
  assert (Ht : task_id (lease_of_reply demo2.2) = task_id (lease_of_reply demo3.2)) by (vm_compute; reflexivity).
  split; [exact Ht|]. split; [|vm_compute; reflexivity].
  apply (only_newest_lease demo_clock demo_keys demo3.1 [lease_of_reply demo2.2; lease_of_reply demo3.2] 0 1 _ (lease_of_reply demo3.2));
    [exact demo_distinct| |reflexivity|reflexivity|lia|exact Ht].
  exists demo_hub. split; [reflexivity|]. split; [reflexivity|exact demo_history].
Defined.

Lemma demo4_reachable : hub_reachable demo_clock demo_keys demo4
  ([lease_of_reply demo2.2; lease_of_reply demo3.2] ++ grants (run demo_clock (Complete (lease_of_reply demo3.2)) demo3.1).2).
Proof.
  exists demo_hub. split; [reflexivity|]. split; [reflexivity|]. eapply rtc_r; [exact demo_history|].
  apply (demo_call _ demo3.1 (Complete (lease_of_reply demo3.2))); [exact I|apply surjective_pairing].
Qed.

Lemma completed_is_final_witness :
  (state (task_id_of "a") demo4).2 = Ok completed ∧
  (state (task_id_of "a") (run demo_clock (Claim "w3" 30) demo4).1).2 = Ok completed.
Proof.
  assert (Hc : (state (task_id_of "a") demo4).2 = Ok completed) by (vm_compute; reflexivity). split; [exact Hc|].
  eapply (completed_is_final demo_clock demo_keys demo4 _ (run demo_clock (Claim "w3" 30) demo4).1 _ (task_id_of "a"));
    [exact demo_distinct|exact demo4_reachable|exact Hc|].
  apply rtc_once. apply (demo_call _ demo4 (Claim "w3" 30)); [exact I|apply surjective_pairing].
Defined.

Lemma submit_idempotent_witness :
  submit demo_clock [("p", Int 1)] "a" 5 (Str "d") "other" 2 2 "fifo-v1" demo4 = (demo4, Ok (task_id_of "a")).
Proof.
  assert (Hs : submit demo_clock [] "a" 1 (Str "c") "ws" 1 1 DEFAULT_SCHEDULER_POLICY demo_hub = (demo1, Ok (task_id_of "a"))) by (vm_compute; reflexivity).
  eapply (submit_idempotent demo_clock demo_keys demo_hub [] demo1 demo4 _ "a");
    [exact demo_distinct| |by left|exact Hs| |lia|done].
  - exists demo_hub. split; [reflexivity|]. split; [reflexivity|apply rtc_refl].
  - eapply rtc_l; [apply (demo_call _ demo1 (ClaimSpecific (task_id_of "a") "w1" 30)); [done|apply surjective_pairing]|].
    eapply rtc_l; [apply (hub_outside _ _ _ _ (Mem.mkStore (Mem.tasks (hub_store demo2.1)) 200))|].
    eapply rtc_l; [apply (demo_call _ (at_time 200 demo2.1) (ClaimSpecific (task_id_of "a") "w2" 30)); [done|apply surjective_pairing]|].
    eapply rtc_l; [apply (demo_call _ demo3.1 (Complete (lease_of_reply demo3.2))); [done|apply surjective_pairing]|]. apply rtc_refl.
Defined.

(** A job with one attempt is claimed a second time. *)
Lemma claim_ignores_limit_witness :
  attempts (job_at demo_late "a") = 1 ∧ max_attempts (job_at demo_late "a") = 1 ∧
  ∃ l, (claim_specific demo_clock (task_id_of "a") "w2" 30 demo_late).2 = Ok (Some l) ∧ fence l = 2.
Proof.
  assert (H1 : reads_as demo_late (snapshot_of demo_late)) by (vm_compute; reflexivity).
  assert (H2 : dget (task_id_of "a") (jobs (snapshot_of demo_late)) = Some (job_at demo_late "a")) by (vm_compute; reflexivity).
  assert (H3 : task_id_of "a" ≠ "") by (intros H; vm_compute in H; discriminate).
  assert (H4 : claimable (job_at demo_late "a") (demo_clock (hub_reads demo_late)) = true) by (vm_compute; reflexivity).
  assert (H5 : Adapter.reclaim_expired (hub_store demo_late) = (demo_reclaimed, Ok (Obj []))) by (vm_compute; reflexivity).
  assert (H6 : MapperQueue.claim SLOT_ID (task_id_of "a") "w2" ("hub-claim:" +:+ task_id_of "a") 30 (Some [("agent_id", Str "w2")]) [] demo_reclaimed
               = (demo_claimed.1, Ok demo_lease)) by (vm_compute; reflexivity).
  assert (H7 : append_event (hub_journal demo_late)
                 (Snapshot (clone (put_job (task_id_of "a") (claimed (job_at demo_late "a") demo_lease (demo_clock (S (hub_reads demo_late)))) (snapshot_of demo_late))))
                 (last_seq (replay (hub_journal demo_late))) = Ok (hub_journal demo3.1)) by (vm_compute; reflexivity).
  split; [vm_compute; reflexivity|]. split; [vm_compute; reflexivity|].
  destruct (claim_ignores_limit demo_clock demo_late (snapshot_of demo_late) (task_id_of "a") "w2" 30 (job_at demo_late "a")
    demo_reclaimed (Obj []) demo_claimed.1 demo_lease (hub_journal demo3.1) H1 H2 H3 ltac:(discriminate) ltac:(lia) H4 H5 H6 H7) as [Heq _].
  eexists. split; [rewrite Heq; reflexivity|vm_compute; reflexivity].
Defined.

Lemma fail_exact_witness : (fail demo_clock (lease_of_reply demo_held.2) "boom" 5 demo_held.1).2 = Ok true.
Proof.
  set (w := demo_held.1). set (j := job_at w "a"). set (lease := lease_of_reply demo_held.2). set (failed := fail demo_clock lease "boom" 5 w).
  assert (H1 : reads_as w (snapshot_of w)) by (vm_compute; reflexivity).
  assert (H2 : dget (task_id lease) (jobs (snapshot_of w)) = Some j) by (vm_compute; reflexivity).
  assert (H4 : holds j lease (demo_clock (hub_reads w))) by (split; [|split; [|split]]; vm_compute; reflexivity).
  assert (H5 : mapper_lease_of j = Ok (default demo_lease (mapper_lease j))) by (vm_compute; reflexivity).
  assert (H6 : assert_active (default demo_lease (mapper_lease j)) (hub_store w) = (hub_store w, Ok tt)) by (vm_compute; reflexivity).
  destruct (fail_exact demo_clock w (snapshot_of w) lease "boom" 5 j (default demo_lease (mapper_lease j)) (hub_store w) (hub_store failed.1)
    (hub_journal failed.1) H1 H2 ltac:(discriminate) H4 H5 H6) as [Heq _].
  - vm_compute. eexists. reflexivity.
  - vm_compute. reflexivity.
  - unfold failed in Heq |- *. rewrite Heq. vm_compute. reflexivity.
Defined.

(** One process has read the queue of [demo1]; another submits ["b"]; the first
    saves the job it was changing. *)
Lemma lost_submission_witness :
  (state (task_id_of "b") demo_other).2 = Ok queued ∧
  (state (task_id_of "b") (save (put_job (task_id_of "a") (job_at demo1 "a") (snapshot_of demo1)) demo_other).1).2 =
    Err (QueueRetryError "unknown task").
Proof.
  set (s := snapshot_of demo1). set (saved1 := save (put_job (task_id_of "a") (job_at demo1 "a") s) demo_other).
  assert (H1 : reads_as demo1 s) by (vm_compute; reflexivity).
  assert (H2 : List.find (λ kj, String.eqb (job_key kj.2) "b") (jobs s) = None) by (vm_compute; reflexivity).
  assert (H3 : dget (task_id_of "b") (jobs s) = None) by (vm_compute; reflexivity).
  assert (H4 : NoDup (jobs s).*1) by by_compute.
  assert (H5 : task_id_of "a" ≠ task_id_of "b") by (intros H; vm_compute in H; discriminate).
  assert (H6 : submit demo_clock [] "b" 1 (Str "c") "ws" 1 1 DEFAULT_SCHEDULER_POLICY demo1 = (demo_other, Ok (task_id_of "b"))) by (vm_compute; reflexivity).
  assert (H7 : save (put_job (task_id_of "a") (job_at demo1 "a") s) demo_other = (saved1.1, Ok tt)) by (vm_compute; reflexivity).
  exact (lost_submission demo_clock demo1 demo_other saved1.1 s "b" (task_id_of "b") [] 1 (Str "c") "ws" 1 1 DEFAULT_SCHEDULER_POLICY
           (task_id_of "a") (job_at demo1 "a") H1 H2 H3 H4 H5 H6 H7).
Defined.

(** A dead letter that is put back has no attempts left: its first failure
    buries it again. *)
Example requeue_keeps_attempts :
  let w1 := (run demo_clock (Fail (lease_of_reply demo_held.2) "boom" 0) demo_held.1).1 in
  let w2 := (run demo_clock (Requeue (task_id_of "a")) w1).1 in
  let (w3, r) := run demo_clock (ClaimSpecific (task_id_of "a") "w2" 300) w2 in
  (attempts (job_at w2 "a") = 1 ∧ job_state (job_at w2 "a") = queued) ∧
  (run demo_clock (Fail (lease_of_reply r) "again" 0) w3).2 = Ok (Verdict true).
Proof. vm_compute. repeat split; reflexivity. Qed.
