(* ===== verification/LocalTasks.v ===== *)
(** The local task queue ([simplicio_loop/local_task_queue.py]): the outcome of
    every local task and the record of its transitions, projected from the
    snapshots in a journal, over the tasks and leases of MapperStore. *)
From S2P Require Import Prelude PyLib PyText PyJson Effects Journal MapperQueue.
Import Json.
Local Open Scope Z_scope.
Local Open Scope py_scope.

(** * Definitions *)

Definition SCHEMA : string := "simplicio.loop.local-task-queue/v2".
Definition LOCAL_SLOT_ID : string := "local-task-queue".

Inductive Outcome : Type :=
| never_started | running | unknown_outcome | verified_success | retryable_failure | blocked | dead_letter.
#[export] Instance Outcome_eq_dec : EqDecision Outcome.
Proof. solve_decision. Defined.

Definition outcome_name (o : Outcome) : string :=
  match o with
  | never_started => "never_started" | running => "running" | unknown_outcome => "unknown_outcome"
  | verified_success => "verified_success" | retryable_failure => "retryable_failure" | blocked => "blocked"
  | dead_letter => "dead_letter"
  end.
Definition OUTCOMES : list Outcome :=
  [never_started; running; unknown_outcome; verified_success; retryable_failure; blocked; dead_letter].
Definition outcome_of (s : string) : option Outcome := List.find (λ o, String.eqb (outcome_name o) s) OUTCOMES.

Record Entry := mkEntry {
  en_task_id : string;
  en_outcome : Outcome;
  en_intent : json;
  en_receipt : json;
  en_provenance : json;
  en_lease : option Lease;
  en_updated_at : Z;
}.
#[export] Instance Entry_eta : Eta Entry := λ e,
  mkEntry (en_task_id e) (en_outcome e) (en_intent e) (en_receipt e) (en_provenance e) (en_lease e) (en_updated_at e).

(** The payload of a transition is a text that [json.dumps] wrote; it is kept
    as the document that [json.loads] reads from it. *)
Record Transition := mkTransition {
  tr_seq : Z;
  tr_task_id : string;
  tr_from : option Outcome;
  tr_to : Outcome;
  tr_payload : dict;
  tr_digest : string;
  tr_created_at : Z;
}.

Record LocalState := mkState {
  stopped : bool;
  outcomes : list (string * Entry);
  transitions : list Transition;
}.
#[export] Instance LocalState_eta : Eta LocalState := λ s, mkState (stopped s) (outcomes s) (transitions s).

Definition initial_state : LocalState := mkState false [] [].

(** [_digest] *)
Definition digest (value : dict) : string := "sha256:" +:+ Sha256.hexdigest (dumps true (Obj value)).
(** [json.loads(json.dumps(value, sort_keys=True))] of a dict *)
Definition reread (value : dict) : dict := match canon (Obj value) with Obj d => d | _ => [] end.

(** An event of the journal of the tasks: a snapshot, an event of another
    schema, an event with another operation. *)
Inductive TaskEvent : Type :=
| Snapshot (state : LocalState)
| UnknownEvent
| UnknownOperation.

(** The queue: its journal, the store, how often the clocks were read. *)
Record LocalTaskQueue (J M : Type) := mkLocal {
  lq_journal : J;
  lq_store : M;
  lq_reads : nat;
}.
Arguments mkLocal {J M}.
Arguments lq_journal {J M}.
Arguments lq_store {J M}.
Arguments lq_reads {J M}.

Section Queue.
Context {J M : Type} `{!JournalOps J TaskEvent} `{!OperationsStore M}.
(** The values of [time.time()] and of [time.time_ns()], by the number of
    readings before. *)
Context (clock clock_ns : nat → Z).
Notation P := (prog (LocalTaskQueue J M) MapperExn).

Definition time : P Z := λ w, (mkLocal (lq_journal w) (lq_store w) (S (lq_reads w)), Ok (clock (lq_reads w))).
Definition time_ns : P Z := λ w, (mkLocal (lq_journal w) (lq_store w) (S (lq_reads w)), Ok (clock_ns (lq_reads w))).
Definition queue {A} (m : prog M MapperExn A) : P A := zoom lq_store (λ s w, mkLocal (lq_journal w) s (lq_reads w)) m.

(** ** The journal *)

(** [_state], after [_replay]; a snapshot is read through [json.dumps] and back. *)
Definition replayed (evs : list (Z * TaskEvent)) : result MapperExn LocalState :=
  foldl (λ acc e, let? _ := acc in
           match e.2 with
           | Snapshot s => Ok s
           | UnknownEvent => Err (QueueUnavailable "local task journal contains an unknown event")
           | UnknownOperation => Err (QueueUnavailable "local task journal contains an unknown operation")
           end) (Ok initial_state) evs.
Definition INVALID : MapperExn := QueueUnavailable "local task journal is invalid".
Definition state_of (j : J) : result MapperExn LocalState := if rp_valid (replay j) then replayed (rp_events (replay j)) else Err INVALID.

(** [self._state(self._replay())] *)
Definition load : P LocalState := λ w, (w, state_of (lq_journal w)).

(** [_commit] *)
Definition commit (q : Z) (s : LocalState) : P unit := λ w,
  match append_event (lq_journal w) (Snapshot s) q with
  | Ok j' => (mkLocal j' (lq_store w) (lq_reads w), Ok tt)
  | Err JournalConflict => (w, Err (QueueConflict "local task state changed concurrently"))
  | Err (JournalFailed msg) => (w, Err (QueueUnavailable ("local task state append failed: " +:+ msg)))
  end.

(** [self._commit(self._replay(), state)] *)
Definition save (s : LocalState) : P unit := λ w,
  if rp_valid (replay (lq_journal w)) then commit (last_seq (replay (lq_journal w))) s w else (w, Err INVALID).

(** ** Transitions *)

Definition transition_value (t : string) (old : option Outcome) (new : Outcome) (payload : dict) (ns : Z) : dict :=
  [("schema", Str SCHEMA); ("task_id", Str t); ("from", match old with Some o => Str (outcome_name o) | None => Null end);
   ("to", Str (outcome_name new)); ("payload", Obj payload); ("created_ns", Int ns)].
Definition new_transition (n : Z) (t : string) (old : option Outcome) (new : Outcome) (payload : dict) (ns now : Z) : Transition :=
  let value := transition_value t old new payload ns in mkTransition n t old new (reread value) (digest value) now.

(** [_transition] *)
Definition transition (s : LocalState) (t : string) (old : option Outcome) (new : Outcome) (payload : dict) : P LocalState :=
  ns ← time_ns;
  now ← time;
  mret (s <| transitions ::= λ l, l ++ [new_transition (Z.of_nat (length l) + 1) t old new payload ns now] |>).

(** [_require_outcome] *)
Definition require_outcome (s : LocalState) (t : string) : result MapperExn Entry := or_raise (dget t (outcomes s)) (KeyError t).
Definition put_entry (t : string) (e : Entry) (s : LocalState) : LocalState := s <| outcomes ::= dput t e |>.

Definition STOPPED : MapperExn := QueueConflict "queue is stopped".
Definition TERMINAL : MapperExn := QueueConflict "terminal outcome is immutable".
Definition terminal (o : Outcome) : bool := match o with verified_success | blocked | dead_letter => true | _ => false end.

(** ** Submission and claims *)

Definition new_entry (t : string) (now : Z) : Entry := mkEntry t never_started Null Null Null None now.

Definition submit (task_id : string) (payload : dict) (depends_on : list string) : P unit :=
  let t := Str.strip task_id in
  _ ← raise_if (negb (Str.truthy t)) (ValueError "task_id is required");
  let task_payload := dput "depends_on" (List (Str <$> sorted_set depends_on)) payload in
  s ← load;
  _ ← raise_if (stopped s) STOPPED;
  match dget t (outcomes s) with
  | Some _ => mret tt
  | None =>
      _ ← queue (enqueue t task_payload ("local:task:" +:+ t) 0);
      now ← time;
      s' ← transition (put_entry t (new_entry t now) s) t None never_started [];
      save s'
  end.

(** The dependencies in the store's record of a task. *)
Definition dependencies (task : dict) : result MapperExn (list string) :=
  match Val.or_else (Val.get "payload" task) (Obj []) with
  | Obj p => let? l := iterate (Val.get_or "depends_on" p (List [])) in Ok (Val.str <$> l)
  | _ => Err (ValueError "payload is not an object")
  end.
Definition verified (s : LocalState) (t : string) : bool :=
  match dget t (outcomes s) with Some e => bool_decide (en_outcome e = verified_success) | None => false end.

Definition started (e : Entry) (l : Lease) (now : Z) : Entry :=
  mkEntry (en_task_id e) running (en_intent e) (en_receipt e) (en_provenance e) (Some l) now.

Definition claim_local (t worker key : string) (ttl : Z) : P Lease :=
  _ ← raise_if ((ttl <=? 0) || negb (Str.truthy worker) || negb (Str.truthy key))
        (ValueError "worker_id, idempotency_key and positive ttl are required");
  s ← load;
  _ ← raise_if (stopped s) STOPPED;
  e ← of_result (require_outcome s t);
  task ← queue (Adapter.status t);
  deps ← of_result (dependencies task);
  _ ← raise_if (negb (forallb (verified s) deps)) (QueueConflict "task dependencies are not verified");
  lease ← queue (claim LOCAL_SLOT_ID t worker key ttl (Some [("agent_id", Str worker)]) []);
  now ← time;
  s' ← transition (put_entry t (started e lease now) s) t (Some (en_outcome e)) running [("fence", Str (fencing_token lease))];
  _ ← save s';
  mret lease.

(** ** Outcomes *)

Definition with_intent (e : Entry) (value : dict) (now : Z) : Entry :=
  mkEntry (en_task_id e) (en_outcome e) (Obj value) (en_receipt e) (en_provenance e) (en_lease e) now.

Definition persist_intent (lease : Lease) (intent : dict) : P dict :=
  ns ← time_ns;
  let value := [("schema", Str SCHEMA); ("task_id", Str (task_id lease)); ("fence", Str (fencing_token lease));
                ("intent", Obj intent); ("created_ns", Int ns)] in
  let value := value ++ [("digest", Str (digest value))] in
  s ← load;
  _ ← queue (assert_active lease);
  e ← of_result (require_outcome s (task_id lease));
  now ← time;
  _ ← save (put_entry (task_id lease) (with_intent e value now) s);
  mret value.

(** [dict(v) if v else None] *)
Definition optional (v : option dict) : json := match v with Some (kv :: d) => Obj (kv :: d) | _ => Null end.
Definition absent (v : option dict) : bool := match v with None => true | Some _ => false end.
Definition empty (v : option dict) : bool := match v with Some (_ :: _) => false | _ => true end.

Definition ended (e : Entry) (o : Outcome) (receipt provenance : json) (now : Z) : Entry :=
  mkEntry (en_task_id e) o (en_intent e) receipt provenance (en_lease e) now.

Definition outcome_value (lease : Lease) (o : Outcome) (receipt provenance : option dict) (ns : Z) : dict :=
  let value := [("schema", Str SCHEMA); ("task_id", Str (task_id lease)); ("fence", Str (fencing_token lease));
                ("outcome", Str (outcome_name o)); ("receipt", Obj (default [] receipt)); ("provenance", Obj (default [] provenance));
                ("created_ns", Int ns)] in
  value ++ [("digest", Str (digest value))].

(** What the store is told of an outcome. *)
Definition tell_store (lease : Lease) (o : Outcome) (receipt : option dict) : P unit :=
  match o with
  | verified_success | dead_letter =>
      let ref := "local:" +:+ task_id lease in
      let supplied := build_completion_receipt (task_id lease) (agent_id lease) (fencing_token lease) ref (default [] receipt) in
      _ ← queue (complete lease ref supplied "completed"); mret tt
  | blocked | retryable_failure => _ ← queue (release lease); mret tt
  | _ => mret tt
  end.

Definition record_outcome (lease : Lease) (outcome : string) (receipt provenance : option dict) : P dict :=
  match outcome_of outcome with
  | None | Some never_started | Some running => raise (ValueError "unsafe outcome")
  | Some o =>
      _ ← raise_if (bool_decide (o = verified_success) && absent receipt) (QueueConflict "verified success requires receipt");
      _ ← raise_if (bool_decide (o = retryable_failure) && empty provenance) (QueueConflict "retry requires idempotency provenance");
      ns ← time_ns;
      let value := outcome_value lease o receipt provenance ns in
      s ← load;
      _ ← queue (assert_active lease);
      e ← of_result (require_outcome s (task_id lease));
      _ ← raise_if (terminal (en_outcome e)) TERMINAL;
      now ← time;
      s' ← transition (put_entry (task_id lease) (ended e o (Obj value) (optional provenance) now) s)
             (task_id lease) (Some (en_outcome e)) o [("fence", Str (fencing_token lease))];
      _ ← tell_store lease o receipt;
      _ ← save s';
      mret value
  end.

(** The lease goes back to the store: released while the clock has not passed
    it, else reclaimed with all that have expired; [QueueConflict] is caught. *)
Definition give_back (lease : Lease) : P unit :=
  try_except
    (now ← time;
     if now <? expires_at lease then _ ← queue (release lease); mret tt else _ ← queue Adapter.reclaim_expired; mret tt)
    (λ x, match x with QueueConflict _ => Some (_ ← queue Adapter.reclaim_expired; mret tt) | _ => None end).

Definition reconcile_unknown (t : string) (is_verified : bool) (receipt provenance : option dict) : P unit :=
  let target := if is_verified then verified_success else retryable_failure in
  _ ← raise_if (is_verified && absent receipt) (QueueConflict "verified reconciliation requires receipt");
  _ ← raise_if (negb is_verified && empty provenance) (QueueConflict "retry reconciliation requires idempotency provenance");
  s ← load;
  e ← of_result (require_outcome s t);
  _ ← raise_if (negb (bool_decide (en_outcome e = unknown_outcome))) (QueueConflict "task does not require reconciliation");
  _ ← match en_lease e with
      | Some lease => if is_verified then mret tt else give_back lease
      | None => mret tt
      end;
  now ← time;
  s' ← transition (put_entry t (ended e target (optional receipt) (optional provenance) now) s) t (Some (en_outcome e)) target [];
  save s'.

(** ** Control *)

Definition cancel_quietly (t : string) : P unit :=
  try_except (_ ← queue (request_cancel t "queue_stopped"); mret tt)
    (λ x, match x with QueueConflict _ | KeyError _ => Some (mret tt) | _ => None end).

Definition stop : P unit :=
  s ← load;
  let s' := s <| stopped := true |> in
  _ ← for_each (λ te, if bool_decide (en_outcome te.2 = running) then cancel_quietly te.1 else mret tt) (outcomes s');
  save s'.

Definition resume : P unit := s ← load; save (s <| stopped := false |>).

Definition with_outcome (e : Entry) (o : Outcome) (now : Z) : Entry :=
  mkEntry (en_task_id e) o (en_intent e) (en_receipt e) (en_provenance e) (en_lease e) now.

(** The lease of a running task that has not run out. *)
Definition live_lease (e : Entry) : P bool :=
  match en_lease e with
  | Some lease => if bool_decide (en_outcome e = running) then now ← time; mret (now <? expires_at lease) else mret false
  | None => mret false
  end.

(** The status of the answer: [true] for ["cancelled"], [false] for ["cancelling"]. *)
Definition cancel_local (t reason : string) : P bool :=
  s ← load;
  e ← of_result (require_outcome s t);
  _ ← raise_if (terminal (en_outcome e)) TERMINAL;
  live ← live_lease e;
  if (live : bool) then _ ← queue (request_cancel t reason); mret false
  else
    now ← time;
    s' ← transition (put_entry t (with_outcome e blocked now) s) t (Some (en_outcome e)) blocked [("reason", Str reason)];
    _ ← save s';
    mret true.

(** The tasks that [reclaim_stale] goes through. *)
Definition stale (e : Entry) (now : Z) : option Lease :=
  match en_lease e with
  | Some lease => if bool_decide (en_outcome e = running) && (expires_at lease <=? now) then Some lease else None
  | None => None
  end.
Fixpoint reclaim_loop (now : Z) (l : list (string * Entry)) (s : LocalState) : P (LocalState * list string) :=
  match l with
  | [] => mret (s, [])
  | (t, e) :: l' =>
      match stale e now with
      | None => reclaim_loop now l' s
      | Some lease =>
          _ ← give_back lease;
          s' ← transition (put_entry t (with_outcome e unknown_outcome now) s) t (Some (en_outcome e)) unknown_outcome
                 [("reason", Str "lease_expired")];
          '(s'', reclaimed) ← reclaim_loop now l' s';
          mret (s'', t :: reclaimed)
      end
  end.
Definition reclaim_stale (now : option Z) : P (list string) :=
  current ← match now with Some n => mret n | None => time end;
  s ← load;
  '(s', reclaimed) ← reclaim_loop current (outcomes s) s;
  _ ← match reclaimed with [] => mret tt | _ => save s' end;
  mret (py_sorted reclaimed).

(** One look of [drain] at the running tasks. *)
Fixpoint count_active (l : list (string * Entry)) : P Z :=
  match l with
  | [] => mret 0
  | (_, e) :: l' =>
      live ← (if bool_decide (en_outcome e = running) then
                now ← time; mret (now <? match en_lease e with Some lease => expires_at lease | None => 0 end)
              else mret false);
      n ← count_active l';
      mret (if (live : bool) then n + 1 else n)
  end.
Definition active : P Z := s ← load; count_active (outcomes s).

(** ** Reading *)

Definition top (limit : Z) : P (list ReadyTask) := queue (pull [] limit).
Definition task (t : string) : P dict := queue (Adapter.status t).

Definition history (t : string) (s : LocalState) : list Transition := List.filter (λ x, String.eqb (tr_task_id x) t) (transitions s).
Definition inspect_local (t : string) : P (dict * Entry * list Transition) :=
  s ← load;
  e ← of_result (require_outcome s t);
  d ← task t;
  mret (d, e, history t s).

Definition count_outcome (d : list (string * Z)) (te : string * Entry) : list (string * Z) :=
  let k := outcome_name (en_outcome te.2) in dput k (default 0 (dget k d) + 1) d.
Definition status_local : P (bool * list (string * Z)) := s ← load; mret (stopped s, foldl count_outcome [] (outcomes s)).

(** The checks of one transition in [doctor_local]. *)
Definition corrupt (x : Transition) : bool :=
  negb (Val.eq (Val.get "schema" (tr_payload x)) (Str SCHEMA))
  || negb (Val.eq (Val.get "task_id" (tr_payload x)) (Str (tr_task_id x)))
  || negb (Val.eq (Val.get "from" (tr_payload x)) (match tr_from x with Some o => Str (outcome_name o) | None => Null end))
  || negb (Val.eq (Val.get "to" (tr_payload x)) (Str (outcome_name (tr_to x))))
  || negb (String.eqb (digest (tr_payload x)) (tr_digest x)).

(** Whether the queue is healthy, and the numbers of its corrupt transitions. *)
Definition doctor_local : P (bool * list Z) :=
  try_except
    (s ← load;
     let bad := tr_seq <$> List.filter corrupt (transitions s) in
     mret (match bad with [] => true | _ => false end, bad))
    (λ x, match x with ValueError _ | QueueUnavailable _ => Some (mret (false, [])) | _ => None end).

Definition collectable (s : LocalState) : list string :=
  py_sorted (List.filter (λ te, match en_outcome te.2 with verified_success | dead_letter => true | _ => false end) (outcomes s)).*1.
Definition forget (s : LocalState) (t : string) : LocalState :=
  s <| outcomes ::= ddel t |> <| transitions ::= List.filter (λ x, negb (String.eqb (tr_task_id x) t)) |>.

(** The tasks that can be removed, and those that were. *)
Definition gc_terminal (apply : bool) : P (list string * list string) :=
  s ← load;
  let eligible := collectable s in
  _ ← match apply, eligible with
      | true, _ :: _ => s ← load; save (foldl forget s eligible)
      | _, _ => mret tt
      end;
  mret (eligible, if apply then eligible else []).
End Queue.

(** * Specification *)

(** The moves of an outcome: a claim runs a task whatever became of it; every
    other move leaves an outcome that is not terminal. *)
Definition allowed (old : option Outcome) (new : Outcome) : bool :=
  match old with
  | None => bool_decide (new = never_started)
  | Some o => bool_decide (new = running) || negb (terminal o) && negb (bool_decide (new = never_started))
  end.

(** The outcome a list of transitions ends in, when each begins where its
    predecessor ended and is allowed. *)
Fixpoint walk (from : option Outcome) (l : list Transition) : option (option Outcome) :=
  match l with
  | [] => Some from
  | x :: l' => if bool_decide (tr_from x = from) && allowed from (tr_to x) then walk (Some (tr_to x)) l' else None
  end.

(** The transition was written by [_transition] about a payload without floats. *)
Definition genuine (x : Transition) : Prop := ∃ payload ns,
  plain (Obj payload) = true ∧ x = new_transition (tr_seq x) (tr_task_id x) (tr_from x) (tr_to x) payload ns (tr_created_at x).

(** What an outcome needs: a running task has a lease, a failure to be retried
    its provenance. *)
Definition evidenced (e : Entry) : Prop :=
  match en_outcome e with
  | running => is_Some (en_lease e)
  | retryable_failure => en_provenance e ≠ Null
  | _ => True
  end.

Record local_ok (s : LocalState) : Prop := {
  lo_nodup : NoDup (outcomes s).*1;
  lo_entry t e : dget t (outcomes s) = Some e → en_task_id e = t ∧ evidenced e;
  lo_history t : walk None (history t s) = Some (en_outcome <$> dget t (outcomes s));
  lo_genuine : Forall genuine (transitions s);
}.

(** One change of the state of the tasks. *)
Inductive local_step (s : LocalState) : LocalState → Prop :=
| ls_submit t now ns now' : dget t (outcomes s) = None →
    local_step s ((put_entry t (new_entry t now) s)
      <| transitions ::= λ l, l ++ [new_transition (Z.of_nat (length l) + 1) t None never_started [] ns now'] |>)
| ls_move t e e' payload ns now : dget t (outcomes s) = Some e → en_task_id e' = en_task_id e → evidenced e' →
    allowed (Some (en_outcome e)) (en_outcome e') = true → plain (Obj payload) = true →
    local_step s ((put_entry t e' s)
      <| transitions ::= λ l, l ++ [new_transition (Z.of_nat (length l) + 1) t (Some (en_outcome e)) (en_outcome e') payload ns now] |>)
| ls_intent t e v now : dget t (outcomes s) = Some e → local_step s (put_entry t (with_intent e v now) s)
| ls_stopped b : local_step s (s <| stopped := b |>)
| ls_forget t : local_step s (forget s t).

(** The state [claim_local] saves. *)
Definition claimed_state (s : LocalState) (t : string) (e : Entry) (l : Lease) (now ns now' : Z) : LocalState :=
  (put_entry t (started e l now) s)
    <| transitions ::= λ x, x ++ [new_transition (Z.of_nat (length x) + 1) t (Some (en_outcome e)) running [("fence", Str (fencing_token l))] ns now'] |>.

Inductive Call : Type :=
| Submit (task_id : string) (payload : dict) (depends_on : list string)
| ClaimLocal (t worker key : string) (ttl : Z)
| PersistIntent (lease : Lease) (intent : dict)
| RecordOutcome (lease : Lease) (outcome : string) (receipt provenance : option dict)
| ReconcileUnknown (t : string) (is_verified : bool) (receipt provenance : option dict)
| Stop
| Resume
| CancelLocal (t reason : string)
| ReclaimStale (now : option Z)
| GcTerminal (apply : bool).

Section Machine.
Context {J M : Type} `{!JournalOps J TaskEvent} `{!OperationsStore M} (clock clock_ns : nat → Z).

Definition ignore {A} (m : prog (LocalTaskQueue J M) MapperExn A) : prog (LocalTaskQueue J M) MapperExn unit := _ ← m; mret tt.
Definition run (c : Call) : prog (LocalTaskQueue J M) MapperExn unit :=
  match c with
  | Submit t payload deps => submit clock clock_ns t payload deps
  | ClaimLocal t worker key ttl => ignore (claim_local clock clock_ns t worker key ttl)
  | PersistIntent lease intent => ignore (persist_intent clock clock_ns lease intent)
  | RecordOutcome lease o receipt provenance => ignore (record_outcome clock clock_ns lease o receipt provenance)
  | ReconcileUnknown t v receipt provenance => reconcile_unknown clock clock_ns t v receipt provenance
  | Stop => stop
  | Resume => resume
  | CancelLocal t reason => ignore (cancel_local clock clock_ns t reason)
  | ReclaimStale now => ignore (reclaim_stale clock clock_ns now)
  | GcTerminal apply => ignore (gc_terminal apply)
  end.

(** The snapshot a process reads. *)
Definition reads_as (w : LocalTaskQueue J M) (s : LocalState) : Prop := state_of (lq_journal w) = Ok s.

(** A snapshot that is in the journal, or the state before any. *)
Definition written (j : J) (s : LocalState) : Prop := s = initial_state ∨ ∃ q, (q, Snapshot s) ∈ rp_events (replay j).

(** One process calls the queue. In between the store changes as it likes, and
    other processes save: each a state it made by any steps from a snapshot it
    had read, however old. *)
Inductive local_world_step : LocalTaskQueue J M → LocalTaskQueue J M → Prop :=
| lw_call w c : local_world_step w (run c w).1
| lw_store w m : local_world_step w (mkLocal (lq_journal w) m (lq_reads w))
| lw_other w s s' q j' : written (lq_journal w) s → rtc local_step s s' →
    append_event (lq_journal w) (Snapshot s') q = Ok j' → local_world_step w (mkLocal j' (lq_store w) (lq_reads w)).

Definition local_reachable (w : LocalTaskQueue J M) : Prop :=
  ∃ w0, rp_valid (replay (lq_journal w0)) = true ∧ rp_events (replay (lq_journal w0)) = [] ∧ rtc local_world_step w0 w.

(** The journal is untouched. *)
Definition quiet (w w' : LocalTaskQueue J M) : Prop := lq_journal w' = lq_journal w.

(** A snapshot was added that steps lead to from [s]. *)
Definition changed (s : LocalState) (w w' : LocalTaskQueue J M) : Prop :=
  ∃ s' q, rtc local_step s s' ∧ append_event (lq_journal w) (Snapshot s') q = Ok (lq_journal w').

Definition quiet_or_changed (s : LocalState) (w : LocalTaskQueue J M) {A} (_ : result MapperExn A) (w' : LocalTaskQueue J M) : Prop :=
  quiet w w' ∨ changed s w w'.

(** Every snapshot of a valid journal is in order. *)
Definition journal_ok (j : J) : Prop :=
  rp_valid (replay j) = true ∧ Forall (λ e, match e.2 with Snapshot s => local_ok s | _ => False end) (rp_events (replay j)).
End Machine.

(** ** A queue in memory, for the examples *)

Definition demo_clock (n : nat) : Z := 100 + Z.of_nat n.
Definition demo_queue : LocalTaskQueue (MemJournal TaskEvent) Mem.Store := mkLocal (mkMem []) (Mem.mkStore [] 100) 0.
Definition demo_run (c : Call) (w : LocalTaskQueue (MemJournal TaskEvent) Mem.Store) := (run demo_clock demo_clock c w).1.
Definition demo_claim (t : string) (w : LocalTaskQueue (MemJournal TaskEvent) Mem.Store) := claim_local demo_clock demo_clock t "w1" "k" 60 w.
Definition no_lease : Lease := mkLease "" "" "" "" 0 "" [] [] false "".
Definition snapshot_of (w : LocalTaskQueue (MemJournal TaskEvent) Mem.Store) : LocalState := ok_or initial_state (state_of (lq_journal w)).
Definition outcome_in (w : LocalTaskQueue (MemJournal TaskEvent) Mem.Store) (t : string) : option Outcome := en_outcome <$> dget t (outcomes (snapshot_of w)).

(** Two tasks, the second after the first. *)
Definition demo_two := demo_run (Submit "b" [] ["a"]) (demo_run (Submit "a" [] []) demo_queue).
(** The first is claimed, and done. *)
Definition demo_first := demo_claim "a" demo_two.
Definition demo_done := demo_run (RecordOutcome (ok_or no_lease demo_first.2) "verified_success" (Some [("ok", Bool true)]) None) demo_first.1.
(** Or what became of it is not known. *)
Definition demo_unknown := demo_run (RecordOutcome (ok_or no_lease demo_first.2) "unknown_outcome" None None) demo_first.1.
(** The first is cancelled before anyone has claimed it. *)
Definition demo_cancelled := demo_run (CancelLocal "a" "operator_cancelled") demo_two.

(** * Lemmas *)

(** ** Histories *)

Lemma reread_digest value : plain (Obj value) = true → digest (reread value) = digest value.
Proof.
  intros Hp. unfold digest, reread. pose proof (dumps_canon (b := true) (Obj value) Hp) as E. rewrite canon_Obj in *. by rewrite E.
Qed.

Lemma walk_app from l1 l2 : walk from (l1 ++ l2) = match walk from l1 with Some m => walk m l2 | None => None end.
Proof. revert from. induction l1 as [|x l1 IH]; intros from; [done|]. cbn. by destruct (_ && _). Qed.

Lemma history_app t s l : List.filter (λ x, String.eqb (tr_task_id x) t) (transitions s ++ l) = history t s ++ List.filter (λ x, String.eqb (tr_task_id x) t) l.
Proof. apply List.filter_app. Qed.

Lemma transition_plain t old new payload ns : plain (Obj payload) = true → plain (Obj (transition_value t old new payload ns)) = true.
Proof. intros Hp. unfold transition_value. cbn [plain forallb snd]. cbn [plain] in Hp. rewrite Hp. destruct old; reflexivity. Qed.

(** A new transition of one task is the last of its history and of no other. *)
Lemma walk_new s s' t old new payload n ns now t' : transitions s' = transitions s ++ [new_transition n t old new payload ns now] →
  walk None (history t' s) = Some (en_outcome <$> dget t' (outcomes s)) → en_outcome <$> dget t (outcomes s) = old → allowed old new = true →
  walk None (history t' s') = Some (if decide (t' = t) then Some new else en_outcome <$> dget t' (outcomes s)).
Proof.
  intros Ht Hw Ho Ha. unfold history. rewrite Ht, history_app. cbn [List.filter new_transition tr_task_id].
  rewrite walk_app, Hw. destruct (String.eqb_spec t t') as [->|Hne].
  - rewrite decide_True by done. cbn [walk tr_from tr_to new_transition]. rewrite Ho, bool_decide_true by done. by rewrite Ha.
  - by rewrite decide_False by congruence.
Qed.

Lemma genuine_new n t old new payload ns now : plain (Obj payload) = true → genuine (new_transition n t old new payload ns now).
Proof. intros Hp. by exists payload, ns. Qed.

Lemma local_initial_ok : local_ok initial_state.
Proof. constructor; [constructor|done|done|constructor]. Qed.

(** A step that puts an entry under an allowed transition. *)
Lemma moved_ok s t e' payload n ns now old : local_ok s → en_outcome <$> dget t (outcomes s) = old → en_task_id e' = t → evidenced e' →
  allowed old (en_outcome e') = true → plain (Obj payload) = true →
  local_ok ((put_entry t e' s) <| transitions ::= λ l, l ++ [new_transition n t old (en_outcome e') payload ns now] |>).
Proof.
  intros [Hn He Hh Hg] Ho Hid Hev Ha Hp. constructor; cbn [put_entry outcomes transitions set_field].
  - by auto with py.
  - intros t' e. rewrite dget_put. case_decide as Et; [|by apply He]. intros [= <-]. by subst.
  - intros t'. erewrite walk_new; [|reflexivity|apply Hh|exact Ho|exact Ha]. rewrite dget_put. by case_decide.
  - apply Forall_app. split; [done|]. constructor; [by apply genuine_new|constructor].
Qed.

Lemma history_forget t t' s : history t' (forget s t) = if decide (t' = t) then [] else history t' s.
Proof.
  unfold history, forget; cbn [transitions set_field]. induction (transitions s) as [|x l IH]; [by case_decide|]. cbn [List.filter].
  destruct (String.eqb_spec (tr_task_id x) t) as [E|E]; cbn [negb].
  - rewrite IH. case_decide as D; [done|]. by rewrite (proj2 (String.eqb_neq _ _)) by congruence.
  - cbn [List.filter]. rewrite IH. case_decide as D; [|done]. by rewrite (proj2 (String.eqb_neq _ _)) by congruence.
Qed.

Lemma local_step_ok s s' : local_step s s' → local_ok s → local_ok s'.
Proof.
  intros Hs Hok. destruct Hs as [t now ns now' Hn|t e e' payload ns now Hg Hid Hev Ha Hp|t e v now Hg|b|t].
  - apply (moved_ok s t (new_entry t now) [] (Z.of_nat (length (transitions s)) + 1) ns now' None Hok); [by rewrite Hn|done|done|done|done].
  - destruct (lo_entry _ Hok t e Hg) as [Ht _]. apply (moved_ok s t e' payload (Z.of_nat (length (transitions s)) + 1) ns now (Some (en_outcome e)) Hok); [by rewrite Hg|congruence|done|done|done].
  - destruct Hok as [Hn He Hh Hgen]. destruct (He t e Hg) as [Ht Hev].
    constructor; cbn [put_entry outcomes transitions set_field]; [by auto with py| | |done].
    + intros t' e1. rewrite dget_put. case_decide as Et; [|by apply He]. intros [= <-]. by subst.
    + intros t'. change (history t' (put_entry _ _ s)) with (history t' s). rewrite (Hh t'), dget_put.
      case_decide as Et; [|done]. subst t'. by rewrite Hg.
  - destruct Hok. by constructor.
  - destruct Hok as [Hn He Hh Hgen]. constructor.
    + unfold forget, ddel; cbn. by apply NoDup_Listfilter_fmap.
    + intros t' e. unfold forget; cbn. rewrite dget_del. case_decide; [done|apply He].
    + intros t'. rewrite history_forget. unfold forget; cbn [outcomes set_field]. rewrite dget_del. case_decide; [done|apply Hh].
    + unfold forget; cbn. rewrite Forall_forall in *. intros x [Hx _]%elem_of_Listfilter. by apply Hgen.
Qed.

Lemma local_steps_ok s s' : rtc local_step s s' → local_ok s → local_ok s'.
Proof. induction 1 as [|? ? ? Hs _ IH]; [done|]. intros Hok. by apply IH, (local_step_ok _ _ Hs). Qed.

Lemma get_reread value k : NoDup value.*1 → Val.get k (reread value) = canon (Val.get k value).
Proof. intros Hnd. unfold Val.get, reread. rewrite canon_Obj, dget_canon by done. by destruct (dget k value). Qed.

Lemma genuine_intact x : genuine x → corrupt x = false.
Proof.
  intros (payload & ns & Hp & Hx). rewrite Hx. unfold corrupt, new_transition; cbn [tr_payload tr_task_id tr_from tr_to tr_digest].
  rewrite reread_digest, !get_reread by first [by apply transition_plain|by_compute]. rewrite String.eqb_refl.
  unfold Val.get, dget, transition_value. destruct (tr_from x) as [o|]; cbn; rewrite !String.eqb_refl; reflexivity.
Qed.

(** ** Programs *)

Section Programs.
Context {J M : Type} `{JournalLaws J TaskEvent} `{!OperationsStore M} (clock clock_ns : nat → Z).
Notation LocalTaskQueue := (LocalTaskQueue J M).
Notation quiet := (quiet (J := J) (M := M)).
Implicit Types (w : LocalTaskQueue) (s : LocalState).

#[local] Instance quiet_refl : Reflexive quiet.
Proof. by intros w. Qed.
#[local] Instance quiet_trans : Transitive quiet.
Proof. intros w1 w2 w3 H1 H2. unfold quiet in *. congruence. Qed.

Lemma local_moves_time : moves quiet (time clock (J := J) (M := M)).
Proof. by intros w. Qed.
Lemma moves_queue {A} (m : prog M MapperExn A) : moves quiet (queue (J := J) m).
Proof. intros w. unfold queue, zoom. by destruct (m (lq_store w)). Qed.
Lemma moves_quiet_bind {A B} (m : prog LocalTaskQueue MapperExn A) (k : A → prog LocalTaskQueue MapperExn B) :
  moves quiet m → (∀ a, moves quiet (k a)) → moves quiet (m ≫= k).
Proof. apply moves_bind, _. Qed.
Lemma moves_queue_unit {A} (m : prog M MapperExn A) : moves quiet (queue (J := J) m ≫= λ _, mret tt).
Proof. apply moves_quiet_bind; [apply moves_queue|intros _; by apply moves_ret]. Qed.

Lemma moves_give_back lease : moves quiet (give_back clock lease).
Proof.
  unfold give_back. apply moves_try; [apply _| |].
  - apply moves_quiet_bind; [apply local_moves_time|intros now]. case_match; apply moves_queue_unit.
  - intros e k Hk. repeat case_match; simplify_eq. apply moves_queue_unit.
Qed.
Lemma moves_cancel_quietly t : moves quiet (cancel_quietly t).
Proof.
  unfold cancel_quietly. apply moves_try; [apply _|apply moves_queue_unit|].
  intros e k Hk. repeat case_match; simplify_eq; by apply moves_ret.
Qed.
Lemma moves_tell_store lease o receipt : moves quiet (tell_store lease o receipt).
Proof. destruct o; first [apply moves_queue_unit|by apply moves_ret]. Qed.
Lemma moves_live_lease e : moves quiet (live_lease clock e).
Proof.
  unfold live_lease. repeat case_match; try (by apply moves_ret). apply moves_quiet_bind; [apply local_moves_time|intros now; by apply moves_ret].
Qed.

(** Every program above, and those that only read a clock. *)
Ltac moves_quiet :=
  first [apply local_moves_time|apply moves_queue|apply moves_queue_unit|apply moves_give_back|apply moves_tell_store|apply moves_live_lease
        |by intros ?
        |case_match; [moves_quiet|moves_quiet]
        |apply moves_quiet_bind; [moves_quiet|intros ?; moves_quiet]
        |apply moves_for_each; [apply _|apply _|intros ?; case_match; [apply moves_cancel_quietly|by apply moves_ret]]].
Ltac quietly base := quietly_by constr:(quiet) ltac:(moves_quiet) base.

Lemma local_wp_load Q w s : reads_as w s → wp load Q w ↔ Q (Ok s) w.
Proof. unfold reads_as, wp, load; cbn. by intros ->. Qed.

Lemma local_quiet_reads w w' s : quiet w w' → reads_as w s → reads_as w' s.
Proof. unfold quiet, reads_as. by intros ->. Qed.

Lemma wp_transition s t old new payload {B} (k : LocalState → prog LocalTaskQueue MapperExn B) Q w :
  (∀ ns now w', quiet w w' →
     wp (k (s <| transitions ::= λ l, l ++ [new_transition (Z.of_nat (length l) + 1) t old new payload ns now] |>)) Q w') →
  wp (transition clock clock_ns s t old new payload ≫= k) Q w.
Proof. intros Hk. unfold transition. rewrite !wp_bind. apply Hk. done. Qed.

(** A write, as the last action that touches the journal. *)
Lemma local_wp_save {A} w0 w s s' (k : unit → prog LocalTaskQueue MapperExn A) (Q : result MapperExn A → LocalTaskQueue → Prop) :
  quiet w0 w → rtc local_step s s' → (∀ e w', quiet w0 w' → Q (Err e) w') → (∀ w', changed s w0 w' → wp (k tt) Q w') →
  wp (save s' ≫= k) Q w.
Proof.
  intros Hq Hs He Hk. rewrite wp_bind. unfold wp at 1, save, commit. destruct (rp_valid _); [|by apply He].
  destruct (append_event _ _ _) as [j'|[|msg]] eqn:Ea; [|by apply He..]. apply Hk. exists s', (last_seq (replay (lq_journal w))).
  rewrite <- Hq. done.
Qed.

Lemma local_wp_find {A} w s t Q (k : Entry → prog LocalTaskQueue MapperExn A) :
  (∀ e, Q (Err e) w) → (∀ e, dget t (outcomes s) = Some e → wp (k e) Q w) → wp (of_result (require_outcome s t) ≫= k) Q w.
Proof. intros He Hk. rewrite wp_of_result. unfold require_outcome. destruct (dget t (outcomes s)); [by apply Hk|apply He]. Qed.

(** [saving w step] ends a method that writes the state [step] leads to. *)
Ltac saving base tac :=
  eapply (local_wp_save base); [eassumption|tac|by left|let w' := fresh "w'" in let Hc := fresh "Hc" in intros w' Hc; right; exact Hc].
Ltac moving base tac := intros ? ? ? ?; assert (quiet base _) by (etransitivity; [eassumption|eassumption]); tac.

Lemma local_submit_effect w s t payload deps : reads_as w s → wp (submit clock clock_ns t payload deps) (quiet_or_changed s w) w.
Proof.
  intros Hs. unfold submit. rewrite wp_bind, wp_raise_if. split; [by left|intros _].
  rewrite wp_bind, (local_wp_load _ _ s) by done. rewrite wp_bind, wp_raise_if. split; [by left|intros _].
  destruct (dget (Str.strip t) (outcomes s)) as [e|] eqn:Ed; [by left|]. quietly w. quietly w.
  apply wp_transition. intros ns now w2 Hq. assert (quiet w w2) by by etransitivity.
  rewrite <- wp_bind_ret. saving w ltac:(apply rtc_once; by apply ls_submit).
Qed.

(** An outcome moves: the write of its entry and of its transition. *)
Lemma wp_move {A} w0 w s t e e' payload (k : unit → prog LocalTaskQueue MapperExn A) (Q : result MapperExn A → LocalTaskQueue → Prop) :
  quiet w0 w → dget t (outcomes s) = Some e → en_task_id e' = en_task_id e → evidenced e' →
  allowed (Some (en_outcome e)) (en_outcome e') = true → plain (Obj payload) = true →
  (∀ x w', quiet w0 w' → Q (Err x) w') → (∀ w', changed s w0 w' → wp (k tt) Q w') →
  wp (transition clock clock_ns (put_entry t e' s) t (Some (en_outcome e)) (en_outcome e') payload ≫= λ s', save s' ≫= k) Q w.
Proof.
  intros Hq Hg Hid Hev Ha Hp He Hk. apply wp_transition. intros ns now w2 Hq2. eapply (local_wp_save w0); [by etransitivity| |exact He|exact Hk].
  apply rtc_once. by apply (ls_move _ _ e).
Qed.

Lemma claim_local_effect w s t worker key ttl : reads_as w s → wp (claim_local clock clock_ns t worker key ttl) (quiet_or_changed s w) w.
Proof.
  intros Hs. unfold claim_local. rewrite wp_bind, wp_raise_if. split; [by left|intros _].
  rewrite wp_bind, (local_wp_load _ _ s) by done. rewrite wp_bind, wp_raise_if. split; [by left|intros _].
  apply local_wp_find; [by left|intros e He]. quietly w. quietly w. rewrite wp_bind, wp_raise_if. split; [by left|intros _].
  quietly w. quietly w. eapply (wp_move w); [done|exact He|done|by eexists|done|done|by left|by right].
Qed.

Lemma persist_intent_effect w s lease intent : reads_as w s → wp (persist_intent clock clock_ns lease intent) (quiet_or_changed s w) w.
Proof.
  intros Hs. unfold persist_intent. quietly w. rewrite wp_bind, (local_wp_load _ _ s) by (by apply (local_quiet_reads w)).
  quietly w. apply local_wp_find; [by left|intros e He]. quietly w. saving w ltac:(apply rtc_once; by apply (ls_intent _ _ e)).
Qed.

Lemma allowed_not_terminal e o : terminal (en_outcome e) = false → o ≠ never_started → allowed (Some (en_outcome e)) o = true.
Proof. intros Ht Ho. unfold allowed. rewrite Ht, (bool_decide_false (o = never_started)) by done. by rewrite orb_true_r. Qed.

Lemma optional_evidence v : empty v = false → optional v ≠ Null.
Proof. by destruct v as [[|]|]. Qed.

Lemma record_outcome_effect w s lease o receipt provenance : reads_as w s →
  wp (record_outcome clock clock_ns lease o receipt provenance) (quiet_or_changed s w) w.
Proof.
  intros Hs. unfold record_outcome.
  destruct (outcome_of o) as [[]|]; try (by left); (rewrite wp_bind, wp_raise_if; split; [by left|intros _];
    rewrite wp_bind, wp_raise_if; split; [by left|intros Hp]; quietly w; rewrite wp_bind, (local_wp_load _ _ s) by (by apply (local_quiet_reads w));
    quietly w; apply local_wp_find; [by left|intros e He]; rewrite wp_bind, wp_raise_if; split; [by left|intros Ht]; quietly w;
    apply wp_transition; intros ns now w2 Hq; assert (quiet w w2) by (by etransitivity); quietly w;
    saving w ltac:(apply rtc_once; apply (ls_move _ _ e (ended e _ _ _ _)); [done|done| |by apply allowed_not_terminal|done])).
  all: cbn in *; first [done|by apply optional_evidence].
Qed.

Lemma reconcile_unknown_effect w s t v receipt provenance : reads_as w s →
  wp (reconcile_unknown clock clock_ns t v receipt provenance) (quiet_or_changed s w) w.
Proof.
  intros Hs. unfold reconcile_unknown. rewrite wp_bind, wp_raise_if. split; [by left|intros _].
  rewrite wp_bind, wp_raise_if. split; [by left|intros Hp]. rewrite wp_bind, (local_wp_load _ _ s) by done.
  apply local_wp_find; [by left|intros e He]. rewrite wp_bind, wp_raise_if. split; [by left|intros Ho].
  apply negb_false_iff, bool_decide_eq_true_1 in Ho. quietly w. quietly w.
  apply wp_transition. intros ns now w2 Hq. assert (quiet w w2) by by etransitivity. rewrite <- wp_bind_ret.
  saving w ltac:(apply rtc_once; apply (ls_move _ _ e (ended e _ _ _ _)); [done|done| |by destruct v; apply allowed_not_terminal; rewrite ?Ho|done]).
  destruct v; cbn in *; [done|by apply optional_evidence].
Qed.

Lemma flag_effect w s b : reads_as w s → wp (save (s <| stopped := b |>)) (quiet_or_changed s w) w.
Proof. intros Hs. rewrite <- wp_bind_ret. assert (quiet w w) by done. saving w ltac:(apply rtc_once, ls_stopped). Qed.

Lemma stop_effect w s : reads_as w s → wp stop (quiet_or_changed s w) w.
Proof.
  intros Hs. unfold stop. rewrite wp_bind, (local_wp_load _ _ s) by done. quietly w. rewrite <- wp_bind_ret.
  saving w ltac:(apply rtc_once, ls_stopped).
Qed.

Lemma cancel_local_effect w s t reason : reads_as w s → wp (cancel_local clock clock_ns t reason) (quiet_or_changed s w) w.
Proof.
  intros Hs. unfold cancel_local. rewrite wp_bind, (local_wp_load _ _ s) by done. apply local_wp_find; [by left|intros e He].
  rewrite wp_bind, wp_raise_if. split; [by left|intros Ht]. quietly w. case_match; [quietly w; by left|].
  quietly w. eapply (wp_move w); [done|exact He|done|done|by apply allowed_not_terminal|done|by left|by right].
Qed.

(** The loop moves each task once, from the outcome it had when the loop began. *)
Lemma reclaim_loop_effect now l w0 w s : quiet w0 w → NoDup l.*1 → (∀ t e, (t, e) ∈ l → dget t (outcomes s) = Some e) →
  wp (reclaim_loop clock clock_ns now l s) (λ r w', quiet w0 w' ∧ ∀ s' ts, r = Ok (s', ts) → rtc local_step s s') w.
Proof.
  revert w s. induction l as [|[t e] l IH]; intros w s Hq Hnd Hl; [split; [done|by intros ? ? [= <- <-]]|].
  rewrite fmap_cons, NoDup_cons in Hnd. destruct Hnd as [Ht Hnd]. cbn [reclaim_loop]. destruct (stale e now) as [lease|] eqn:Es; cycle 1.
  { apply IH; [done|done|]. intros t' e' Hin. apply Hl. by right. }
  quietly w0. apply wp_transition. intros ns now' w2 Hq2. rewrite wp_bind.
  set (s1 := (put_entry t (with_outcome e unknown_outcome now) s) <| transitions ::= _ |>).
  assert (local_step s s1) as Hstep.
  { unfold stale in Es. destruct (en_lease e); [|done]. destruct (bool_decide (en_outcome e = running)) eqn:Eo; [|done].
    apply bool_decide_eq_true_1 in Eo. apply (ls_move _ t e (with_outcome e unknown_outcome now)); try done; [by apply Hl; left|].
    by apply allowed_not_terminal; rewrite ?Eo. }
  eapply wp_mono; [apply (IH w2 s1); [by etransitivity|done|]|].
  - intros t' e' Hin. subst s1; cbn. rewrite dget_put_ne; [by apply Hl; right|]. intros ->. apply Ht. by apply (list_elem_of_fmap_2 fst _ (t, e')).
  - intros [[s2 ts]|x] w3 [Hq3 Hr]; cbn beta iota; (split; [done|]); [|done]. intros s3 ts' [= <- <-].
    eapply rtc_l; [exact Hstep|by eapply Hr].
Qed.

Lemma reclaim_stale_effect w s now : reads_as w s → NoDup (outcomes s).*1 →
  wp (reclaim_stale clock clock_ns now) (quiet_or_changed s w) w.
Proof.
  intros Hs Hnd. unfold reclaim_stale. quietly w. rewrite wp_bind, (local_wp_load _ _ s) by (by apply (local_quiet_reads w)). rewrite wp_bind.
  eapply wp_mono; [apply (reclaim_loop_effect _ _ w); [done|done|by intros t e; apply elem_of_dget]|].
  intros [[s' ts]|x] w2 [Hq Hr]; [|by left]. cbn beta iota. destruct ts as [|t ts]; [by left|].
  saving w ltac:(by eapply Hr).
Qed.

Lemma forget_steps ts s : rtc local_step s (foldl forget s ts).
Proof. revert s. induction ts as [|t ts IH]; intros s; [done|]. eapply rtc_l; [apply ls_forget|apply IH]. Qed.

Lemma gc_terminal_effect w s apply : reads_as w s → wp (gc_terminal apply) (quiet_or_changed s w) w.
Proof.
  intros Hs. unfold gc_terminal. rewrite wp_bind, (local_wp_load _ _ s) by done.
  destruct apply; [|by left]. destruct (collectable s) as [|t ts]; [by left|]. rewrite !wp_bind, (local_wp_load _ _ s) by done. rewrite <- wp_bind. assert (quiet w w) by done. saving w ltac:(apply (forget_steps (t :: ts))).
Qed.

Lemma local_run_effect w s c : reads_as w s → NoDup (outcomes s).*1 → wp (run clock clock_ns c) (quiet_or_changed s w) w.
Proof.
  assert (∀ A (m : prog LocalTaskQueue MapperExn A), wp m (quiet_or_changed s w) w → wp (ignore m) (quiet_or_changed s w) w) as Hi.
  { intros A m Hm. unfold ignore. rewrite wp_bind. eapply wp_mono; [exact Hm|]. by intros [a|x] w'. }
  intros Hs Hnd. destruct c; cbn [run]; first [apply Hi|idtac].
  - by apply local_submit_effect.
  - by apply claim_local_effect.
  - by apply persist_intent_effect.
  - by apply record_outcome_effect.
  - by apply reconcile_unknown_effect.
  - by apply stop_effect.
  - unfold resume. rewrite wp_bind, (local_wp_load _ _ s) by done. by apply flag_effect.
  - by apply cancel_local_effect.
  - by apply reclaim_stale_effect.
  - by apply gc_terminal_effect.
Qed.

(** ** Journals *)

Lemma state_valid j s : state_of j = Ok s → rp_valid (replay j) = true.
Proof. unfold state_of. by destruct (rp_valid (replay j)). Qed.

Lemma local_replayed_snoc evs q s s0 : replayed evs = Ok s0 → replayed (evs ++ [(q, Snapshot s)]) = Ok s.
Proof. intros Hr. unfold replayed in *. rewrite foldl_app, Hr. done. Qed.

Lemma journal_reads j : journal_ok j → ∃ s, state_of j = Ok s ∧ local_ok s.
Proof.
  intros [Hv Hf]. unfold state_of. rewrite Hv. clear Hv. induction (rp_events (replay j)) as [|[q e] evs IH] using rev_ind.
  { exists initial_state. split; [done|apply local_initial_ok]. }
  apply Forall_app in Hf as [Hf He]. destruct (IH Hf) as (s0 & Hr & _). apply Forall_inv in He. cbn in He.
  destruct e as [s| |]; [|done|done]. exists s. split; [by eapply local_replayed_snoc|done].
Qed.

Lemma journal_append j j' s q : journal_ok j → local_ok s → append_event j (Snapshot s) q = Ok j' → journal_ok j'.
Proof.
  intros [Hv Hf] Hs Ha. destruct (append_event_ok _ _ _ _ Ha) as (_ & n & _ & Hr). split; rewrite Hr; cbn; [done|].
  apply Forall_app. split; [done|]. by constructor.
Qed.

Lemma written_ok j s : journal_ok j → written j s → local_ok s.
Proof. intros [_ Hf] [->|[q Hin]]; [apply local_initial_ok|]. rewrite Forall_forall in Hf. exact (Hf _ Hin). Qed.

Lemma local_world_step_ok w w' : local_world_step clock clock_ns w w' → journal_ok (lq_journal w) → journal_ok (lq_journal w').
Proof.
  intros Hs Hok. destruct Hs as [w c|w m|w s s' q j' Hw Hs Ha]; [|done|].
  - destruct (journal_reads _ Hok) as (s & Hr & Hs). pose proof (local_run_effect w s c Hr (lo_nodup _ Hs)) as [Hq|(s' & q & Hst & Ha)].
    + by rewrite Hq.
    + eapply journal_append; [exact Hok| |exact Ha]. by apply (local_steps_ok s).
  - eapply journal_append; [exact Hok| |exact Ha]. by apply (local_steps_ok s), (written_ok (lq_journal w)).
Qed.

Lemma local_reachable_ok w : local_reachable clock clock_ns w → journal_ok (lq_journal w).
Proof.
  intros (w0 & Hv & He & Hrtc). assert (journal_ok (lq_journal w0)) as Hok by (split; [done|by rewrite He]).
  clear Hv He. induction Hrtc as [|? ? ? Hs _ IH]; [done|]. by apply IH, (local_world_step_ok _ _ Hs).
Qed.
End Programs.

(** * Properties *)

Section Properties.
Context {J M : Type} `{JournalLaws J TaskEvent} `{!OperationsStore M} (clock clock_ns : nat → Z).
Implicit Types (w : LocalTaskQueue J M) (s : LocalState).

(** C29: Whatever calls are made, whatever the store does, and whatever other
    processes save in between (each a state made from any snapshot it ever
    read): the state can be read; the transitions recorded of every task lead,
    each from where the one before ended and by allowed moves only, from its
    submission to its present outcome, and a task without outcome has none; a
    running task has a lease and a failure to be retried its provenance; and
    [doctor_local] finds the queue healthy, every transition agreeing with its
    text and its digest. *)
Theorem local_history w : local_reachable clock clock_ns w → ∃ s, reads_as w s ∧ NoDup (outcomes s).*1 ∧
  (∀ t, walk None (history t s) = Some (en_outcome <$> dget t (outcomes s))) ∧
  (∀ t e, dget t (outcomes s) = Some e → en_task_id e = t ∧ evidenced e) ∧
  doctor_local w = (w, Ok (true, [])).
Proof.
  intros Hr%local_reachable_ok. destruct (journal_reads _ Hr) as (s & Hs & [Hn He Hh Hg]). exists s.
  do 4 (split; [done|]). unfold doctor_local, try_except. erewrite bind_ok by (by unfold load; rewrite Hs).
  assert (List.filter corrupt (transitions s) = []) as ->; [|done]. induction Hg as [|x l Hx _ IH]; [done|]. cbn. by rewrite genuine_intact.
Qed.

(** [claim_local] grants a lease exactly when its arguments are usable, the
    queue is not stopped, the task was submitted, every dependency the store
    records of it is verified in the state that was read, the store grants the
    lease and the journal takes the new state; then the task is running under
    that lease, and one transition says so. Its outcome plays no part: also a
    task that was verified, blocked or cancelled can be claimed, against "terminal
    outcome is immutable". *)
Theorem claim_local_exact w w' t worker key ttl l :
  claim_local clock clock_ns t worker key ttl w = (w', Ok l) ↔
  0 < ttl ∧ worker ≠ "" ∧ key ≠ "" ∧ ∃ s e m1 task deps m2 j',
    reads_as w s ∧ stopped s = false ∧ dget t (outcomes s) = Some e ∧
    Adapter.status t (lq_store w) = (m1, Ok task) ∧ dependencies task = Ok deps ∧ (∀ d, d ∈ deps → verified s d = true) ∧
    claim LOCAL_SLOT_ID t worker key ttl (Some [("agent_id", Str worker)]) [] m1 = (m2, Ok l) ∧
    let n := lq_reads w in
    append_event (lq_journal w) (Snapshot (claimed_state s t e l (clock n) (clock_ns (S n)) (clock (S (S n)))))
      (last_seq (replay (lq_journal w))) = Ok j' ∧ w' = mkLocal j' m2 (S (S (S n))).
Proof.
  unfold claim_local. split.
  - intros Hc. destruct ((ttl <=? 0) || _ || _) eqn:Eg; [discriminate|]. rewrite !orb_false_iff, !negb_false_iff, Z.leb_gt, !Str.truthy_ne in Eg.
    destruct Eg as [[Httl Hw] Hk]. do 3 (split; [done|]). cbn [raise_if] in Hc.
    unfold mbind, prog_bind, load, mret, prog_ret, of_result, require_outcome, queue, zoom, time in Hc.
    destruct (state_of (lq_journal w)) as [s|] eqn:Es; [|discriminate]. destruct (stopped s) eqn:Est; [discriminate|]. cbn -[claim Adapter.status] in Hc.
    destruct (dget t (outcomes s)) as [e|] eqn:Ee; [|discriminate]. cbn -[claim Adapter.status] in Hc.
    destruct (Adapter.status t (lq_store w)) as [m1 [task|]] eqn:Et; [|discriminate].
    destruct (dependencies task) as [deps|] eqn:Ed; [|discriminate].
    destruct (forallb (verified s) deps) eqn:Ev; [|discriminate]. cbn -[claim Adapter.status] in Hc.
    destruct (claim _ _ _ _ _ _ _ m1) as [m2 [l'|]] eqn:El; [|discriminate]. cbn in Hc.
    unfold transition, time, time_ns, mbind, prog_bind, mret, prog_ret, save, commit in Hc. cbn -[new_transition set_field] in Hc. rewrite (state_valid _ _ Es) in Hc.
    destruct (append_event _ _ _) as [j'|[|]] eqn:Ea in Hc; [|discriminate..]. injection Hc as <- <-.
    exists s, e, m1, task, deps, m2, j'. repeat (split; [done|]). split; [by apply forallb_all|]. split; [done|]. split; [exact Ea|done].
  - intros (Httl & Hw & Hk & s & e & m1 & task & deps & m2 & j' & Es & Est & Ee & Et & Ed & Ev & El & Ea & ->).
    rewrite (proj2 (Z.leb_gt _ _)) by done. apply Str.truthy_ne in Hw, Hk. rewrite Hw, Hk. cbn [negb orb raise_if].
    erewrite bind_ok by reflexivity. erewrite bind_ok by (unfold load; rewrite Es; reflexivity). rewrite Est.
    erewrite bind_ok by reflexivity. unfold require_outcome. rewrite Ee. erewrite bind_ok by reflexivity.
    erewrite bind_ok by (unfold queue, zoom; rewrite Et; reflexivity). erewrite bind_ok by (rewrite Ed; reflexivity).
    rewrite (proj2 (forallb_all _ _) Ev). erewrite bind_ok by reflexivity.
    erewrite bind_ok by (unfold queue, zoom; cbn [lq_store lq_journal lq_reads]; rewrite El; reflexivity).
    erewrite bind_ok by reflexivity. erewrite bind_ok by reflexivity. cbn beta.
    erewrite bind_ok; [reflexivity|]. unfold save, commit. cbn [lq_journal lq_store lq_reads]. rewrite (state_valid _ _ Es).
    cbv zeta in Ea. unfold claimed_state in Ea. rewrite Ea. reflexivity.
Qed.
End Properties.

(** * Examples *)

Lemma local_demo_reachable w c : local_reachable (J := MemJournal TaskEvent) (M := Mem.Store) demo_clock demo_clock w →
  local_reachable demo_clock demo_clock (demo_run c w).
Proof. intros (w0 & Hv & He & Hr). exists w0. split; [done|]. split; [done|]. eapply rtc_r; [exact Hr|apply lw_call]. Qed.

Lemma demo_start : local_reachable (J := MemJournal TaskEvent) (M := Mem.Store) demo_clock demo_clock demo_queue.
Proof. exists demo_queue. split; [done|]. split; [done|]. apply rtc_refl. Qed.

Lemma local_history_witness :
  outcome_in demo_done "a" = Some verified_success ∧ doctor_local demo_done = (demo_done, Ok (true, [])).
Proof.
  split; [vm_compute; reflexivity|].
  assert (Hr : local_reachable demo_clock demo_clock demo_done).
  { apply local_demo_reachable. apply (local_demo_reachable demo_two (ClaimLocal "a" "w1" "k" 60)). do 2 apply local_demo_reachable. exact demo_start. }
  destruct (local_history demo_clock demo_clock demo_done Hr) as (s & _ & _ & _ & _ & Hd). exact Hd.
Defined.

(** A cancelled task is claimed; its dependant waits, and is claimed once the
    first is verified. *)
Example cancelled_is_claimed :
  outcome_in demo_cancelled "a" = Some blocked ∧ is_ok (demo_claim "a" demo_cancelled).2 = true ∧
  outcome_in (demo_claim "a" demo_cancelled).1 "a" = Some running.
Proof. split; [|split]; vm_compute; reflexivity. Qed.

Example dependant_waits : is_ok (demo_claim "b" demo_two).2 = false ∧ is_ok (demo_claim "b" demo_done).2 = true.
Proof. split; vm_compute; reflexivity. Qed.

(** A reconciliation with an empty receipt verifies the task without one. *)
Example empty_receipt_verifies :
  let w := demo_run (ReconcileUnknown "a" true (Some []) None) demo_unknown in
  outcome_in w "a" = Some verified_success ∧ en_receipt <$> dget "a" (outcomes (snapshot_of w)) = Some Null.
Proof. vm_compute. split; reflexivity. Qed.

(** The number of the transition after a collection is one that is in use. *)
Example collection_reuses_numbers :
  let w := demo_run (Submit "c" [] []) (demo_run (GcTerminal true) demo_done) in
  tr_seq <$> transitions (snapshot_of w) = [2; 2] ∧ tr_task_id <$> transitions (snapshot_of w) = ["b"; "c"].
Proof. vm_compute. split; reflexivity. Qed.

(** A dead letter is completed in the store. *)
Example dead_letter_completes :
  let w := demo_run (RecordOutcome (ok_or no_lease demo_first.2) "dead_letter" None None) demo_first.1 in
  outcome_in w "a" = Some dead_letter ∧ Mem.state <$> dget "a" (Mem.tasks (lq_store w)) = Some "completed".
Proof. vm_compute. split; reflexivity. Qed.

(** A process that has read the state before the submissions saves: they are gone. *)
Example stale_save_erases :
  let w := (save initial_state demo_two).1 in (save initial_state demo_two).2 = Ok tt ∧ outcome_in w "a" = None ∧ outcome_in demo_two "a" = Some never_started.
Proof. vm_compute. split; [reflexivity|split; reflexivity]. Qed.
