(* ===== verification/WorkerStore.v ===== *)
(** The Hub's worker workflows ([simplicio_loop/hub_worker_store.py]): requests
    to delegate a graph of tasks to an external coordinator, their event log
    and their cancellation, projected from the operations journal of [Journal]
    by its optimistic loop. *)
From stdpp Require Import pretty.
From S2P Require Import Prelude PyLib PyText PyJson Graph Journal MapperQueue.
Import Json.
Local Open Scope Z_scope.
Local Open Scope py_scope.

(** * Definitions *)

Definition WORKER_SCHEMA : string := "simplicio.code-worker-adapter/v1".
Definition WORKER_PROTOCOL : string := "simplicio.loop-worker/v1".

(** [HubWorkerError] and its subclass of a conflict; the [RecursionError] of a
    call that is nested too deeply; the [KeyError] of a missing entry. *)
Inductive WorkerExn : Type :=
| HubWorkerError (msg : string)
| RecursionError
| MissingKey (key : string).

Inductive TaskState : Type := waiting | working | blocked | failed | done | cancelled.
#[export] Instance TaskState_eq_dec : EqDecision TaskState.
Proof. solve_decision. Defined.
Definition is_terminal (s : TaskState) : bool := match s with failed | done | cancelled => true | _ => false end.

(** [_digest] *)
Definition digest (v : json) : string := Sha256.hexdigest (dumps true v).
Definition short (v : json) : string := String.substring 0 32 (digest v).

(** ** Requests *)

(** A task of a validated request. *)
Record TaskSpec := mkSpec {
  sp_task_id : string;
  sp_role : string;
  sp_depends_on : list string;
  sp_contract : string;
}.

(** [_require_text] *)
Definition require_text (v : json) (name : string) : result WorkerExn string :=
  match v with
  | Str s => if Str.truthy (Str.strip s) then Ok s else Err (HubWorkerError (name +:+ " must be a non-empty string"))
  | _ => Err (HubWorkerError (name +:+ " must be a non-empty string"))
  end.

Definition ROLES : list string := ["implementer"; "reviewer"; "tester"; "delivery"].

(** A list whose items are all strings. *)
Fixpoint strings (l : list json) : option (list string) :=
  match l with
  | [] => Some []
  | Str s :: l' => cons s <$> strings l'
  | _ => None
  end.

(** One round of the loop over the tasks, with the ids so far. *)
Definition validate_task (ids : list string) (v : json) : result WorkerExn TaskSpec :=
  match v with
  | Obj task =>
      let? t := require_text (Val.get "task_id" task) "task.task_id" in
      let? role := require_text (Val.get "role" task) "task.role" in
      if negb (bool_decide (role ∈ ROLES)) then Err (HubWorkerError ("unsupported worker role: " +:+ role)) else
      let? contract := require_text (Val.get "task_contract" task) "task.task_contract" in
      match Val.get_or "depends_on" task (List []) with
      | List l =>
          match strings l with
          | Some deps => if bool_decide (t ∈ ids) then Err (HubWorkerError "task IDs must be unique") else Ok (mkSpec t role deps contract)
          | None => Err (HubWorkerError ("task " +:+ t +:+ " dependencies must be a string list"))
          end
      | _ => Err (HubWorkerError ("task " +:+ t +:+ " dependencies must be a string list"))
      end
  | _ => Err (HubWorkerError "each worker task must be an object")
  end.
Fixpoint validate_tasks (ids : list string) (l : list json) : result WorkerExn (list TaskSpec) :=
  match l with
  | [] => Ok []
  | v :: l' =>
      let? t := validate_task ids v in
      let? rest := validate_tasks (ids ++ [sp_task_id t]) l' in
      Ok (t :: rest)
  end.

(** The loop that looks for dependencies that are missing or the task itself. *)
Fixpoint check_dependencies (ids : list string) (l : list TaskSpec) : result WorkerExn unit :=
  match l with
  | [] => Ok tt
  | t :: l' =>
      if bool_decide (sp_task_id t ∈ sp_depends_on t) || existsb (λ d, negb (bool_decide (d ∈ ids))) (sp_depends_on t)
      then Err (HubWorkerError ("task " +:+ sp_task_id t +:+ " has a missing or self dependency"))
      else check_dependencies ids l'
  end.

(** [graph[task_id]] *)
Definition graph_of (l : list TaskSpec) : list (string * list string) := (λ t, (sp_task_id t, sp_depends_on t)) <$> l.
Definition deps_of (graph : list (string * list string)) (t : string) : list string := default [] (dget t graph).

(** A loop of visits, each from what was visited before. *)
Fixpoint visit_each (f : list string → string → result WorkerExn (list string)) (l : list string) (visited : list string) :
    result WorkerExn (list string) :=
  match l with
  | [] => Ok visited
  | d :: l' => let? visited := f visited d in visit_each f l' visited
  end.

(** [visit], with the frames the interpreter still has; what was visited is in
    the order in which the visits ended, what is being visited a stack. *)
Fixpoint visit (frames : nat) (graph : list (string * list string)) (visiting : list string) (visited : list string) (t : string) :
    result WorkerExn (list string) :=
  match frames with
  | O => Err RecursionError
  | S frames' =>
      if bool_decide (t ∈ visited) then Ok visited
      else if bool_decide (t ∈ visiting) then Err (HubWorkerError "task DAG contains a cycle")
      else
        let? visited' := visit_each (visit frames' graph (t :: visiting)) (deps_of graph t) visited in
        Ok (visited' ++ [t])
  end.

Definition IDENTITY_FIELDS : list string := ["coordinator_id"; "session_id"; "turn_id"; "run_id"; "goal_id"].
Fixpoint check_identity (identity : dict) (names : list string) : result WorkerExn unit :=
  match names with
  | [] => Ok tt
  | n :: names' => let? _ := require_text (Val.get n identity) ("identity." +:+ n) in check_identity identity names'
  end.

(** What a validated request holds. *)
Record Request := mkRequest {
  rq_identity : dict;
  rq_key : string;
  rq_max_concurrency : Z;
  rq_tasks : list TaskSpec;
}.

(** [_validate_delegate]; [int(v)] of a JSON value is the integer [float(v)] is. *)
Definition validate_delegate (frames : nat) (payload : dict) : result WorkerExn Request :=
  if negb (Val.eq (Val.get "schema" payload) (Str WORKER_SCHEMA)) || negb (Val.eq (Val.get "protocol" payload) (Str WORKER_PROTOCOL))
  then Err (HubWorkerError "unsupported worker schema or protocol") else
  match Val.get "identity" payload with
  | Obj identity =>
      let? _ := check_identity identity IDENTITY_FIELDS in
      let? key := require_text (Val.get "idempotency_key" payload) "idempotency_key" in
      if (512 <? length (Text.characters key))%nat then Err (HubWorkerError "idempotency_key exceeds the 512 byte limit") else
      let? n := or_raise (Val.to_float (Val.get_or "max_concurrency" payload (Int 0))) (HubWorkerError "max_concurrency must be a positive integer") in
      if (n <? 1) || (256 <? n) then Err (HubWorkerError "max_concurrency must be between 1 and 256") else
      match Val.get "tasks" payload with
      | List (v :: l) =>
          if (4096 <? length (v :: l))%nat then Err (HubWorkerError "worker DAG exceeds the 4096 task limit") else
          let? tasks := validate_tasks [] (v :: l) in
          let? _ := check_dependencies (sp_task_id <$> tasks) tasks in
          let? _ := visit_each (visit frames (graph_of tasks) []) (graph_of tasks).*1 [] in
          Ok (mkRequest identity key n tasks)
      | _ => Err (HubWorkerError "tasks must be a non-empty list")
      end
  | _ => Err (HubWorkerError "worker identity must be an object")
  end.

(** ** State *)

Record WorkerTask := mkTask {
  wt_workflow_id : string;
  wt_task_id : string;
  wt_role : string;
  wt_depends_on : list string;
  wt_contract : string;
  wt_state : TaskState;
  wt_owner : string;
  wt_attempt : Z;
  wt_fence : Z;
  wt_worktree_id : string;
  wt_branch : string;
  wt_path_token : string;
  wt_lease_id : string;
  wt_reason : option string;
  wt_receipt_id : option string;
}.

Record WorkerReceipt := mkReceipt {
  rc_workflow_id : string;
  rc_receipt_id : string;
  rc_accepted : list string;
}.

Record Workflow := mkWorkflow {
  wf_workflow_id : string;
  wf_key : string;
  wf_request_digest : string;
  wf_identity : dict;
  wf_max_concurrency : Z;
  wf_state : string;
  wf_mutation_authority : Z;
  wf_delegate_receipt_id : string;
  wf_cancel_receipt : option WorkerReceipt;
  wf_created : Z;
  wf_updated : Z;
}.

Record WorkerEvent := mkEvent {
  ev_sequence : Z;
  ev_event_id : string;
  ev_task_id : string;
  ev_role : string;
  ev_stage_id : string;
  ev_agent_id : string;
  ev_worktree_id : string;
  ev_attempt : Z;
  ev_fence : Z;
  ev_state : TaskState;
  ev_owner : string;
  ev_reason : option string;
  ev_branch : string;
  ev_path_token : string;
  ev_lease_id : string;
  ev_receipt_id : option string;
}.

Record WorkerState := mkState {
  workflows : list (string * Workflow);
  tasks : list (string * list (string * WorkerTask));
  events : list (string * list WorkerEvent);
}.
#[export] Instance WorkerState_eta : Eta WorkerState := λ s, mkState (workflows s) (tasks s) (events s).
Definition empty_state : WorkerState := mkState [] [] [].

(** The events of the journal; the last two are of another schema and of
    another operation. *)
Inductive StoreEvent : Type :=
| WorkflowCreated (id : string) (workflow : Workflow) (rows : list WorkerTask) (evs : list WorkerEvent)
| WorkflowCancelled (id : string) (workflow : Workflow) (rows : list WorkerTask) (evs : list WorkerEvent)
| TaskUpdated (id : string) (row : WorkerTask) (evs : list WorkerEvent)
| UnknownEvent
| UnknownOperation.

(** [d.update({str(task["task_id"]): task for task in rows})] *)
Definition update_rows (rows : list WorkerTask) (d : list (string * WorkerTask)) : list (string * WorkerTask) :=
  foldl (λ d t, dput (wt_task_id t) t d) d rows.

Definition apply_event (s : WorkerState) (e : StoreEvent) : result WorkerExn WorkerState :=
  match e with
  | WorkflowCreated id wf rows evs =>
      Ok (s <| workflows ::= dput id wf |> <| tasks ::= dput id (update_rows rows []) |> <| events ::= dput id evs |>)
  | WorkflowCancelled id wf rows evs =>
      Ok (s <| workflows ::= dput id wf |>
            <| tasks ::= λ d, dput id (update_rows rows (default [] (dget id d))) d |>
            <| events ::= λ d, dput id (default [] (dget id d) ++ evs) d |>)
  | TaskUpdated id row evs =>
      Ok (s <| tasks ::= λ d, dput id (dput (wt_task_id row) row (default [] (dget id d))) d |>
            <| events ::= λ d, dput id (default [] (dget id d) ++ evs) d |>)
  | UnknownEvent => Err (HubWorkerError "worker journal contains an unknown event")
  | UnknownOperation => Err (HubWorkerError "worker journal contains an unknown operation")
  end.

(** ** Operations *)

Inductive Method : Type := delegate | status | cancel | deliver.

(** An operation inside its lock, its arguments checked. *)
Inductive Checked : Type :=
| Delegate (request : Request)
| Status (id : string) (after : Z)
| Cancel (id key reason : string)
| Deliver (id t : string) (payload : dict).

Inductive WorkerOp : Type :=
| Call (m : Method) (payload : dict)
| Ready (c : Checked).

Inductive WorkerReply : Type :=
| Accepted (receipt : WorkerReceipt)
| Page (id : string) (next : Z) (evs : list WorkerEvent)
| CancelReceipt (receipt : WorkerReceipt)
| Delivery (id receipt_id remote_reference : string).

Notation outcome := (TurnOutcome StoreEvent WorkerReply WorkerOp).

(** The checks before the lock is taken. *)
Definition checked (frames : nat) (m : Method) (payload : dict) : result WorkerExn Checked :=
  match m with
  | delegate => let? r := validate_delegate frames payload in Ok (Delegate r)
  | status =>
      let? id := require_text (Val.get "workflow_id" payload) "workflow_id" in
      let? after := or_raise (Val.to_float (Val.get_or "after_sequence" payload (Int 0))) (HubWorkerError "after_sequence must be a non-negative integer") in
      if after <? 0 then Err (HubWorkerError "after_sequence must be non-negative") else Ok (Status id after)
  | cancel =>
      let? id := require_text (Val.get "workflow_id" payload) "workflow_id" in
      let? key := require_text (Val.get "idempotency_key" payload) "idempotency_key" in
      let? reason := require_text (Val.get "reason" payload) "reason" in
      match Val.get "revoke_mutation_authority" payload with
      | Bool true => Ok (Cancel id key reason)
      | _ => Err (HubWorkerError "worker cancellation must revoke mutation authority")
      end
  | deliver =>
      let? id := require_text (Val.get "workflow_id" payload) "workflow_id" in
      let? t := require_text (Val.get "task_id" payload) "task_id" in
      let? _ := require_text (Val.get "agent_id" payload) "agent_id" in
      let? _ := require_text (Val.get "review_receipt_id" payload) "review_receipt_id" in
      Ok (Deliver id t payload)
  end.

(** [_workflow] *)
Definition workflow_of (s : WorkerState) (id : string) : result WorkerExn Workflow :=
  or_raise (dget id (workflows s)) (HubWorkerError "unknown worker workflow").
(** [state["tasks"][workflow_id]] *)
Definition tasks_of (s : WorkerState) (id : string) : result WorkerExn (list (string * WorkerTask)) := or_raise (dget id (tasks s)) (MissingKey id).

(** [_receipt] *)
Definition receipt_of (s : WorkerState) (wf : Workflow) : result WorkerExn WorkerReceipt :=
  let? ts := tasks_of s (wf_workflow_id wf) in
  Ok (mkReceipt (wf_workflow_id wf) (wf_delegate_receipt_id wf) ((λ kt, wt_task_id kt.2) <$> ts)).

(** [_event] *)
Definition event_of (id : string) (t : WorkerTask) (sequence : Z) (state : TaskState) (reason receipt_id : option string) : WorkerEvent :=
  mkEvent sequence ("worker-event:" +:+ id +:+ ":" +:+ pretty sequence) (wt_task_id t) (wt_role t) ("worker-stage:" +:+ wt_task_id t) (wt_owner t)
    (wt_worktree_id t) (wt_attempt t) (wt_fence t) state "loop-hub" reason (wt_branch t) (wt_path_token t) (wt_lease_id t) receipt_id.

(** The document whose digest tells requests with one key apart. *)
Definition normalized (r : Request) : json :=
  Obj [("schema", Str WORKER_SCHEMA); ("protocol", Str WORKER_PROTOCOL); ("identity", Obj (rq_identity r)); ("idempotency_key", Str (rq_key r));
       ("max_concurrency", Int (rq_max_concurrency r));
       ("tasks", List ((λ t, Obj [("task_id", Str (sp_task_id t)); ("role", Str (sp_role t)); ("depends_on", List (Str <$> sp_depends_on t));
                                  ("task_contract", Str (sp_contract t))]) <$> rq_tasks r))].
Definition request_digest (r : Request) : string := digest (normalized r).
Definition workflow_id_of (key : string) : string := "worker:" +:+ short (Str key).

Definition new_workflow (r : Request) (now : Z) : Workflow :=
  mkWorkflow (workflow_id_of (rq_key r)) (rq_key r) (request_digest r) (rq_identity r) (rq_max_concurrency r) "running" 1
    ("delegate:" +:+ short (Str (rq_key r))) None now now.
Definition new_task (id : string) (index : Z) (t : TaskSpec) : WorkerTask :=
  let tid := sp_task_id t in
  mkTask id tid (sp_role t) (sp_depends_on t) (sp_contract t) waiting ("external-agent:" +:+ tid) 1 index ("worker:" +:+ id +:+ ":" +:+ tid)
    ("worker/" +:+ id +:+ "/" +:+ tid) (digest (List [Str id; Str tid])) ("lease:" +:+ id +:+ ":" +:+ tid +:+ ":1") None None.
(** The rows of the tasks and their events, numbered from [index]. *)
Definition new_rows (id : string) (l : list TaskSpec) : list WorkerTask := imap (λ i t, new_task id (Z.of_nat i + 1) t) l.
Definition row_events (id : string) (start : Z) (state : TaskState) (reason receipt_id : option string) (rows : list WorkerTask) : list WorkerEvent :=
  imap (λ i t, event_of id t (start + Z.of_nat i) state reason receipt_id) rows.

Definition cancelled_task (reason receipt_id : string) (t : WorkerTask) : WorkerTask :=
  mkTask (wt_workflow_id t) (wt_task_id t) (wt_role t) (wt_depends_on t) (wt_contract t) cancelled (wt_owner t) (wt_attempt t) (wt_fence t)
    (wt_worktree_id t) (wt_branch t) (wt_path_token t) (wt_lease_id t) (Some reason) (Some receipt_id).
Definition cancelled_workflow (wf : Workflow) (receipt : WorkerReceipt) (now : Z) : Workflow :=
  mkWorkflow (wf_workflow_id wf) (wf_key wf) (wf_request_digest wf) (wf_identity wf) (wf_max_concurrency wf) "cancelled" 0
    (wf_delegate_receipt_id wf) (Some receipt) (wf_created wf) now.

(** One turn of [delegate]. *)
Definition delegate_turn (r : Request) (s : WorkerState) (now : Z) : result WorkerExn outcome :=
  match List.find (λ kw, String.eqb (wf_key kw.2) (rq_key r)) (workflows s) with
  | Some (_, wf) =>
      if negb (String.eqb (wf_request_digest wf) (request_digest r)) then Err (HubWorkerError "conflicting worker idempotency key reuse")
      else let? receipt := receipt_of s wf in Ok (Return (Accepted receipt))
  | None =>
      let wf := new_workflow r now in
      let id := wf_workflow_id wf in
      let rows := new_rows id (rq_tasks r) in
      let receipt := mkReceipt id (wf_delegate_receipt_id wf) ((λ kt, wt_task_id kt.2) <$> update_rows rows []) in
      Ok (Append (WorkflowCreated id wf rows (row_events id 0 waiting None None rows)) (inl (Accepted receipt)))
  end.

(** [status]; the slice of the events from [after] on. *)
Definition status_turn (id : string) (after : Z) (s : WorkerState) : result WorkerExn outcome :=
  let? _ := workflow_of s id in
  let evs := default [] (dget id (events s)) in
  Ok (Return (Page id (Z.of_nat (length evs)) (drop (Z.to_nat after) evs))).

(** One turn of [cancel]. *)
Definition cancel_turn (id key reason : string) (s : WorkerState) (now : Z) : result WorkerExn outcome :=
  let? wf := workflow_of s id in
  match wf_cancel_receipt wf with
  | Some receipt => Ok (Return (CancelReceipt receipt))
  | None =>
      let receipt := mkReceipt id ("cancel:" +:+ short (Str key)) [] in
      let? ts := tasks_of s id in
      let rows := cancelled_task reason (rc_receipt_id receipt) <$> List.filter (λ t, negb (is_terminal (wt_state t))) ts.*2 in
      let start := Z.of_nat (length (default [] (dget id (events s)))) in
      Ok (Append (WorkflowCancelled id (cancelled_workflow wf receipt now) rows
                    (row_events id start cancelled (Some reason) (Some (rc_receipt_id receipt)) rows))
            (inl (CancelReceipt receipt)))
  end.

Definition deliver_turn (id t : string) (payload : dict) (s : WorkerState) : result WorkerExn outcome :=
  let? wf := workflow_of s id in
  let? task := or_raise (dget t (default [] (dget id (tasks s)))) (HubWorkerError "unknown worker task") in
  if negb (wf_mutation_authority wf =? 1) then Err (HubWorkerError "worker mutation authority was revoked")
  else if negb (String.eqb (wt_role task) "delivery") || negb (bool_decide (wt_state task = done))
  then Err (HubWorkerError "delivery requires a done delivery-role task")
  else Ok (Return (Delivery id ("delivery:" +:+ short (Obj payload)) ("unconfirmed:" +:+ id +:+ "/" +:+ t))).

Definition decide_turn (c : Checked) (s : WorkerState) (now : Z) : result WorkerExn outcome :=
  match c with
  | Delegate r => delegate_turn r s now
  | Status id after => status_turn id after s
  | Cancel id key reason => cancel_turn id key reason s now
  | Deliver id t payload => deliver_turn id t payload s
  end.

(** The store as a client of the journal: a [Call] becomes [Ready] by its checks; [delegate] and [cancel] try 32 times,
    the others read once and never append. *)
Definition HubWorkerStore (frames : nat) : Client StoreEvent WorkerState WorkerExn WorkerOp WorkerReply := mkClient
  empty_state apply_event
  (λ op, match op with Call m payload => let? c := checked frames m payload in Ok (Ready c) | Ready c => Err (HubWorkerError "not a request") end)
  (λ op s now, match op with Call m payload => let? c := checked frames m payload in decide_turn c s now | Ready c => decide_turn c s now end)
  (λ op, match op with Ready (Delegate _) | Ready (Cancel _ _ _) => Some 32%nat | _ => Some 1%nat end)
  (HubWorkerError "worker journal is invalid")
  (λ op, match op with
         | Ready (Cancel _ _ _) => HubWorkerError "worker cancellation remained contended"
         | _ => HubWorkerError "worker delegation remained contended"
         end)
  (λ msg, HubWorkerError ("worker journal append failed: " +:+ msg)).

(** * Specification *)

(** A JSON value that is a string with something but white space. *)
Definition is_text (v : json) (s : string) : Prop := v = Str s ∧ Str.strip s ≠ "".

(** A task as the request writes it, and as it is kept. *)
Definition task_spec (v : json) (t : TaskSpec) : Prop := ∃ task,
  v = Obj task ∧ is_text (Val.get "task_id" task) (sp_task_id t) ∧ is_text (Val.get "role" task) (sp_role t) ∧ sp_role t ∈ ROLES ∧
  is_text (Val.get "task_contract" task) (sp_contract t) ∧ Val.get_or "depends_on" task (List []) = List (Str <$> sp_depends_on t).

(** The dependencies a list of tasks gives an id. *)
Definition depends (l : list TaskSpec) (t : string) : list string := deps_of (graph_of l) t.

(** A request that may be delegated. *)
Record request_ok (payload : dict) (r : Request) : Prop := {
  ro_schema : Val.get "schema" payload = Str WORKER_SCHEMA ∧ Val.get "protocol" payload = Str WORKER_PROTOCOL;
  ro_identity : Val.get "identity" payload = Obj (rq_identity r) ∧ ∀ n, n ∈ IDENTITY_FIELDS → ∃ s, is_text (Val.get n (rq_identity r)) s;
  ro_key : is_text (Val.get "idempotency_key" payload) (rq_key r) ∧ (length (Text.characters (rq_key r)) <= 512)%nat;
  ro_max : Val.to_float (Val.get_or "max_concurrency" payload (Int 0)) = Some (rq_max_concurrency r) ∧ 1 <= rq_max_concurrency r <= 256;
  ro_tasks : ∃ l, Val.get "tasks" payload = List l ∧ (1 <= length l <= 4096)%nat ∧ Forall2 task_spec l (rq_tasks r);
  ro_unique : NoDup (sp_task_id <$> rq_tasks r);
  ro_closed t : t ∈ rq_tasks r → sp_task_id t ∉ sp_depends_on t ∧ sp_depends_on t ⊆ sp_task_id <$> rq_tasks r;
  ro_acyclic : acyclic (depends (rq_tasks r)) (list_to_set (sp_task_id <$> rq_tasks r));
}.

(** The reply a decision gives at once or with its event. *)
Definition reply_of (d : result WorkerExn outcome) : option WorkerReply :=
  match d with
  | Ok (Return o) => Some o
  | Ok (Append _ (inl o)) => Some o
  | _ => None
  end.

Notation WorkerAction := (Action (E := StoreEvent) (X := WorkerExn) (Op := WorkerOp) (Out := WorkerReply)).

(** No two of the keys share the workflow id cut from their digest. *)
Definition distinct_ids (K : string → Prop) : Prop := ∀ k k', K k → K k' → workflow_id_of k = workflow_id_of k' → k = k'.
Definition delegates_in (K : string → Prop) (a : WorkerAction) : Prop := ∀ r, a_op a = Ready (Delegate r) → K (rq_key r).

Definition events_of (s : WorkerState) (id : string) : list WorkerEvent := default [] (dget id (events s)).
Definition rows_of (s : WorkerState) (id : string) : list (string * WorkerTask) := default [] (dget id (tasks s)).
Definition numbered (l : list WorkerEvent) : Prop := ev_sequence <$> l = seqZ 0 (Z.of_nat (length l)).

(** One workflow of a state. *)
Record workflow_ok (K : string → Prop) (s : WorkerState) (id : string) (wf : Workflow) : Prop := {
  wo_id : wf_workflow_id wf = id ∧ id = workflow_id_of (wf_key wf) ∧ K (wf_key wf);
  wo_rows : is_Some (dget id (tasks s)) ∧ NoDup (rows_of s id).*1;
  wo_row t x : (t, x) ∈ rows_of s id → wt_task_id x = t ∧ wt_state x = if wf_cancel_receipt wf then cancelled else waiting;
  wo_authority : wf_mutation_authority wf = if wf_cancel_receipt wf then 0 else 1;
  wo_events : numbered (events_of s id);
}.
Record worker_ok (K : string → Prop) (s : WorkerState) : Prop := {
  wk_nodup : NoDup (workflows s).*1;
  wk_workflow id wf : dget id (workflows s) = Some wf → workflow_ok K s id wf;
}.

(** What later states keep of a workflow: who it is, that it was cancelled and
    how, its tasks by id, and the events so far as the first of its events. *)
Record grows (s s' : WorkerState) (id : string) (wf wf' : Workflow) : Prop := {
  gr_same : wf_workflow_id wf' = wf_workflow_id wf ∧ wf_key wf' = wf_key wf ∧ wf_request_digest wf' = wf_request_digest wf ∧
    wf_delegate_receipt_id wf' = wf_delegate_receipt_id wf;
  gr_cancelled rc : wf_cancel_receipt wf = Some rc → wf_cancel_receipt wf' = Some rc;
  gr_rows : (λ kt, wt_task_id kt.2) <$> rows_of s' id = (λ kt, wt_task_id kt.2) <$> rows_of s id;
  gr_events : events_of s id `prefix_of` events_of s' id;
}.
Definition extends (s s' : WorkerState) : Prop :=
  ∀ id wf, dget id (workflows s) = Some wf → ∃ wf', dget id (workflows s') = Some wf' ∧ grows s s' id wf wf'.

(** What the state holds of a reply that was given. *)
Definition recorded (s : WorkerState) (a : WorkerAction) : Prop :=
  match a_op a, reply_of (a_decision a) with
  | Ready (Delegate r), Some (Accepted rc) => ∃ wf, dget (workflow_id_of (rq_key r)) (workflows s) = Some wf ∧
      wf_key wf = rq_key r ∧ wf_request_digest wf = request_digest r ∧ receipt_of s wf = Ok rc
  | Ready (Status id after), Some (Page id' n evs) => ∃ wf, dget id (workflows s) = Some wf ∧ id' = id ∧
      0 <= n <= Z.of_nat (length (events_of s id)) ∧ evs = drop (Z.to_nat after) (take (Z.to_nat n) (events_of s id))
  | Ready (Cancel id _ _), Some (CancelReceipt rc) => ∃ wf, dget id (workflows s) = Some wf ∧ wf_cancel_receipt wf = Some rc
  | Ready (Deliver _ _ _), _ => ∃ x, a_decision a = Err x
  | _, _ => True
  end.

(** ** A store in memory, for the examples *)

Definition demo_frames : nat := Z.to_nat 5000.
Definition demo_task (t role : string) (deps : list string) : json :=
  Obj [("task_id", Str t); ("role", Str role); ("task_contract", Str "contract"); ("depends_on", List (Str <$> deps))].
Definition demo_payload (l : list json) : dict :=
  [("schema", Str WORKER_SCHEMA); ("protocol", Str WORKER_PROTOCOL); ("identity", Obj ((λ n, (n, Str "x")) <$> IDENTITY_FIELDS));
   ("idempotency_key", Str "key"); ("max_concurrency", Int 2); ("tasks", List l)].
Definition demo_request : dict := demo_payload [demo_task "build" "implementer" []; demo_task "ship" "delivery" ["build"]].
Definition demo_id : string := workflow_id_of "key".
Definition demo_calls : list (positive * WorkerOp * Z) :=
  [(1%positive, Call delegate demo_request, 10);
   (2%positive, Call delegate demo_request, 20);
   (1%positive, Call status [("workflow_id", Str demo_id); ("after_sequence", Int 1)], 30);
   (2%positive, Call cancel [("workflow_id", Str demo_id); ("idempotency_key", Str "stop"); ("reason", Str "late"); ("revoke_mutation_authority", Bool true)], 40);
   (1%positive, Call status [("workflow_id", Str demo_id); ("after_sequence", Int 2)], 50);
   (1%positive, Call deliver [("workflow_id", Str demo_id); ("task_id", Str "ship"); ("agent_id", Str "a"); ("review_receipt_id", Str "r")], 60)].
Definition demo_world : World (J := MemJournal StoreEvent) := play (HubWorkerStore demo_frames) 8 (start_world (mkMem [])) demo_calls.
Definition demo_action (n : nat) : WorkerAction := default (mkAction 1%positive (Call status []) 0 (Err RecursionError)) (w_log demo_world !! n).
Definition demo_checked (n : nat) : Checked := match a_op (demo_action n) with Ready c => c | _ => Status "" 0 end.
Definition demo_delegated (n : nat) : Request := match demo_checked n with Delegate r => r | _ => mkRequest [] "" 0 [] end.
Definition demo_receipt (n : nat) : WorkerReceipt :=
  match reply_of (a_decision (demo_action n)) with Some (Accepted rc) | Some (CancelReceipt rc) => rc | _ => mkReceipt "" "" [] end.
Definition demo_page (n : nat) : list WorkerEvent := match reply_of (a_decision (demo_action n)) with Some (Page _ _ evs) => evs | _ => [] end.
Definition key_is (key : string) (a : WorkerAction) : bool := match a_op a with Ready (Delegate r) => String.eqb (rq_key r) key | _ => true end.
Definition demo_chain : dict := demo_payload [demo_task "c" "tester" ["b"]; demo_task "b" "tester" ["a"]; demo_task "a" "tester" []].

(** * Lemmas *)

(** ** Depth-first search *)

Section Dfs.
Context (graph : list (string * list string)).
Notation G := (deps_of graph).

(** Every element comes after its dependencies. *)
Definition ordered (l : list string) : Prop := ∀ k i d, l !! k = Some i → d ∈ G i → d ∈ take k l.

Lemma ordered_snoc l t : ordered l → (∀ d, d ∈ G t → d ∈ l) → ordered (l ++ [t]).
Proof.
  intros Hl Ht k i d Hk Hd. apply lookup_app_Some in Hk as [Hk|[Hge Hk]].
  - rewrite take_app_le by (apply lookup_lt_Some in Hk; lia). by eapply Hl.
  - apply list_lookup_singleton_Some in Hk as [Hk <-]. rewrite take_app_ge by done. apply elem_of_app. left. by apply Ht.
Qed.

Lemma ordered_causal l : ordered l → causal G l.
Proof. intros Hl k i d Hk Hd _. by eapply Hl. Qed.

Lemma visit_each_sound (f : list string → string → result WorkerExn (list string)) l visited v' :
  (∀ visited t v', t ∈ l → f visited t = Ok v' → ordered visited → ordered v' ∧ t ∈ v' ∧ visited ⊆ v') →
  visit_each f l visited = Ok v' → ordered visited → ordered v' ∧ l ⊆ v' ∧ visited ⊆ v'.
Proof.
  intros Hf. revert visited. induction l as [|t l IH]; intros visited; cbn [visit_each].
  - intros [= <-] Ho. split; [done|]. split; [set_solver|done].
  - destruct (f visited t) as [v1|] eqn:E1; [cbn [rbind]|done]. intros Hv Ho.
    destruct (Hf visited t v1 ltac:(by left) E1 Ho) as (Ho1 & Ht & Hs1).
    destruct (IH (λ v t' v'' Hin, Hf v t' v'' (list_elem_of_further _ _ _ Hin)) v1 Hv Ho1) as (Ho' & Hl & Hs').
    split; [done|]. split; [|by transitivity v1]. intros x [->|Hx]%elem_of_cons; [by apply Hs'|by apply Hl].
Qed.

Lemma visit_sound frames visiting visited t v' : visit frames graph visiting visited t = Ok v' → ordered visited →
  ordered v' ∧ t ∈ v' ∧ visited ⊆ v'.
Proof.
  revert visiting visited t v'. induction frames as [|frames IH]; intros visiting visited t v'; cbn [visit]; [done|].
  case_bool_decide as Hin; [by intros [= <-]|]. case_bool_decide; [done|].
  destruct (visit_each _ _ visited) as [v1|] eqn:E1; [cbn [rbind]|done]. intros [= <-] Ho.
  destruct (visit_each_sound _ _ _ _ (λ vis t' v'' _, IH (t :: visiting) vis t' v'') E1 Ho) as (Ho1 & Hd & Hs).
  split; [by apply ordered_snoc|]. set_solver.
Qed.

(** A path from the task being visited back through the stack. *)
Fixpoint path (t : string) (l : list string) : Prop :=
  match l with
  | [] => True
  | x :: l' => t ∈ G x ∧ path x l'
  end.

Lemma path_cycle t u l : path t l → u ∈ l → ∃ l1, l1 ⊆ l ∧ u ∈ l1 ∧ ∀ i, i ∈ l1 → t ∈ G i ∨ ∃ d, d ∈ G i ∧ d ∈ l1.
Proof.
  revert t. induction l as [|x l IH]; intros t; [by intros _ ?%elem_of_nil|]. intros [Hx Hp] [->|Hu]%elem_of_cons.
  - exists [x]. split; [set_solver|]. split; [by left|]. intros i ->%list_elem_of_singleton. by left.
  - destruct (IH x Hp Hu) as (l1 & Hs & Hu1 & Hl1). exists (x :: l1). split; [set_solver|]. split; [by right|].
    intros i [->|Hi]%elem_of_cons; [by left|]. right. destruct (Hl1 i Hi) as [Hd|(d & Hd & Hdl)]; [exists x|exists d]; set_solver.
Qed.

Context (ids : list string).
Context (Hclosed : ∀ t, t ∈ ids → G t ⊆ ids) (Hacyclic : acyclic G (list_to_set ids)).

Lemma path_acyclic t l : path t l → l ⊆ ids → t ∉ l.
Proof.
  intros Hp Hl Ht. destruct (path_cycle t t l Hp Ht) as (l1 & Hs & Hin & Hc).
  destruct (Hacyclic (list_to_set l1)) as (i & Hi & Hd).
  - intros x Hx. rewrite elem_of_list_to_set in *. by apply Hl, Hs.
  - intros E. apply (not_elem_of_empty (C := gset string) t). rewrite <- E. by apply elem_of_list_to_set.
  - rewrite elem_of_list_to_set in Hi. destruct (Hc i Hi) as [Hti|(d & Hdi & Hdl)].
    + apply (Hd t Hti). by apply elem_of_list_to_set.
    + apply (Hd d Hdi). by apply elem_of_list_to_set.
Qed.

Lemma visit_each_complete (f : list string → string → result WorkerExn (list string)) l visited :
  (∀ visited t, t ∈ l → ∃ v', f visited t = Ok v') → ∃ v', visit_each f l visited = Ok v'.
Proof.
  intros Hf. revert visited. induction l as [|t l IH]; intros visited; [by eexists|]. cbn [visit_each].
  destruct (Hf visited t ltac:(by left)) as [v1 ->]. cbn [rbind]. apply IH. intros vis t' Ht'. apply Hf. by right.
Qed.

Lemma visit_complete frames visiting visited t : path t visiting → NoDup visiting → visiting ⊆ ids → t ∈ ids →
  (length ids < frames + length visiting)%nat → ∃ v', visit frames graph visiting visited t = Ok v'.
Proof.
  revert visiting visited t. induction frames as [|frames IH]; intros visiting visited t Hp Hn Hs Ht Hf.
  { pose proof (NoDup_submseteq _ _ Hn Hs) as Hlen%submseteq_length. cbn in Hf. lia. }
  cbn [visit]. pose proof (path_acyclic t visiting Hp Hs) as Hnot. case_bool_decide; [by eexists|].
  rewrite bool_decide_false by done. destruct (visit_each_complete (visit frames graph (t :: visiting)) (G t) visited) as [v1 ->]; [|by eexists].
  intros vis d Hd. apply IH; [by split|by constructor|set_solver|by apply (Hclosed t)|cbn; lia].
Qed.
End Dfs.

(** ** Validation *)

Lemma require_text_Ok v name s : require_text v name = Ok s ↔ is_text v s.
Proof.
  unfold require_text, is_text. rewrite <- Str.truthy_ne. destruct v; try (split; [done|by intros []]).
  destruct (Str.truthy (Str.strip s0)) eqn:E; split; naive_solver congruence.
Qed.

Lemma strings_Some l deps : strings l = Some deps ↔ l = Str <$> deps.
Proof.
  revert deps. induction l as [|v l IH]; intros deps; [destruct deps; naive_solver|]. cbn [strings].
  destruct v as [| | | |s| |]; try (split; [done|by destruct deps]).
  rewrite fmap_Some. split.
  - intros (d & Hd%IH & ->). by subst.
  - destruct deps as [|d deps]; [done|]. rewrite fmap_cons. intros [= -> Hl]. exists deps. split; [by apply IH|done].
Qed.

Lemma validate_task_Ok ids v t : validate_task ids v = Ok t ↔ task_spec v t ∧ sp_task_id t ∉ ids.
Proof.
  unfold task_spec. split.
  - unfold validate_task. destruct v as [| | | | | |task]; try done.
    destruct (require_text (Val.get "task_id" task) _) as [i|] eqn:Ei; [cbn [rbind]|done].
    destruct (require_text (Val.get "role" task) _) as [role|] eqn:Er; [cbn [rbind]|done].
    case_bool_decide as Hrole; [cbn [negb]|done].
    destruct (require_text (Val.get "task_contract" task) _) as [co|] eqn:Ec; [cbn [rbind]|done].
    apply require_text_Ok in Ei, Er, Ec. destruct (Val.get_or "depends_on" task (List [])) as [| | | | |l|] eqn:Ed; try done.
    destruct (strings l) as [deps|] eqn:Es; [|done]. apply strings_Some in Es. case_bool_decide; [done|]. intros [= <-]; cbn.
    split; [|done]. exists task. by rewrite Ed, Es.
  - intros [(task & -> & Hi & Hr & Hrole & Hc & Hd) Hn]. unfold validate_task.
    rewrite (proj2 (require_text_Ok _ _ _) Hi). cbn [rbind]. rewrite (proj2 (require_text_Ok _ _ _) Hr). cbn [rbind].
    rewrite bool_decide_true by done. cbn [negb]. rewrite (proj2 (require_text_Ok _ _ _) Hc). cbn [rbind].
    rewrite Hd, (proj2 (strings_Some _ _) eq_refl), bool_decide_false by done. by destruct t.
Qed.

Lemma validate_tasks_Ok ids l ts : validate_tasks ids l = Ok ts ↔
  Forall2 task_spec l ts ∧ NoDup (sp_task_id <$> ts) ∧ ∀ i, i ∈ sp_task_id <$> ts → i ∉ ids.
Proof.
  revert ids ts. induction l as [|v l IH]; intros ids ts; cbn [validate_tasks].
  { split; [intros [= <-]; split; [constructor|split; [constructor|by intros i ?%elem_of_nil]]|]. intros [H%Forall2_nil_inv_l _]. by subst. }
  split.
  - destruct (validate_task ids v) as [t|] eqn:Et; [cbn [rbind]|done]. destruct (validate_tasks _ l) as [rest|] eqn:Er; [cbn [rbind]|done].
    intros [= <-]. apply validate_task_Ok in Et as [Ht Hn]. apply IH in Er as (Hf & Hnd & Hi). split; [by constructor|]. rewrite fmap_cons. split.
    + constructor; [|done]. intros Hin. by apply (Hi _ Hin), elem_of_app; right; left.
    + intros i [->|Hin]%elem_of_cons; [done|]. specialize (Hi _ Hin). rewrite not_elem_of_app in Hi. by apply Hi.
  - intros (Hf & Hnd & Hi). inversion Hf as [|? t ? rest Ht Hrest]; subst. rewrite fmap_cons, NoDup_cons in Hnd. destruct Hnd as [Hn Hnd].
    rewrite (proj2 (validate_task_Ok ids v t)); [cbn [rbind]|]. 2: { split; [done|]. apply Hi. rewrite fmap_cons. by left. }
    rewrite (proj2 (IH _ rest)); [done|]. split; [done|]. split; [done|]. intros i Hin. rewrite not_elem_of_app, list_elem_of_singleton.
    split; [apply Hi; rewrite fmap_cons; by right|]. by intros ->.
Qed.

Lemma check_dependencies_Ok ids l : check_dependencies ids l = Ok tt ↔
  ∀ t, t ∈ l → sp_task_id t ∉ sp_depends_on t ∧ sp_depends_on t ⊆ ids.
Proof.
  induction l as [|t l IH]; cbn [check_dependencies]; [split; [by intros _ t ?%elem_of_nil|done]|].
  destruct (bool_decide _ || existsb _ _) eqn:E.
  - split; [done|]. intros Ht. exfalso. destruct (Ht t ltac:(by left)) as [Hn Hs]. apply orb_true_iff in E as [E|E].
    + by apply bool_decide_eq_true_1 in E.
    + apply existsb_exists in E as (d & Hd%list_elem_of_In & Hb). apply negb_true_iff, bool_decide_eq_false_1 in Hb. by apply Hb, Hs.
  - apply orb_false_iff in E as [E1%bool_decide_eq_false_1 E2]. rewrite IH. split; [|intros Hl t' Ht'; apply Hl; by right].
    intros Hl t' [->|Ht']%elem_of_cons; [|by apply Hl]. split; [done|]. intros d Hd.
    destruct (bool_decide (d ∈ ids)) eqn:Eb; [by apply bool_decide_eq_true_1 in Eb|]. exfalso.
    apply not_true_iff_false in E2. apply E2. apply existsb_exists. exists d. rewrite Eb. split; [by apply list_elem_of_In|done].
Qed.

Lemma check_identity_Ok identity names : check_identity identity names = Ok tt ↔ ∀ n, n ∈ names → ∃ s, is_text (Val.get n identity) s.
Proof.
  induction names as [|n names IH]; cbn [check_identity]; [split; [by intros _ n ?%elem_of_nil|done]|].
  destruct (require_text (Val.get n identity) _) as [s|] eqn:E; cbn [rbind].
  - apply require_text_Ok in E. rewrite IH. split; [|intros Hl n' Hn'; apply Hl; by right]. intros Hl n' [->|Hn']%elem_of_cons; [by exists s|by apply Hl].
  - split; [done|]. intros Hl. destruct (Hl n ltac:(by left)) as [s Hs%(require_text_Ok _ ("identity." +:+ n))]. congruence.
Qed.

Lemma graph_ids l : (graph_of l).*1 = sp_task_id <$> l.
Proof. unfold graph_of. rewrite <- list_fmap_compose. by apply list_fmap_ext. Qed.

Lemma depends_task l t : NoDup (sp_task_id <$> l) → t ∈ l → depends l (sp_task_id t) = sp_depends_on t.
Proof.
  intros Hn Ht. unfold depends, deps_of. erewrite elem_of_dget; [reflexivity|by rewrite graph_ids|].
  by apply (list_elem_of_fmap_2 (λ t, (sp_task_id t, sp_depends_on t))).
Qed.

(** With a frame for every task, the visits end exactly on a graph without cycle. *)
Lemma visits_exact frames l : NoDup (sp_task_id <$> l) → (∀ t, t ∈ l → sp_depends_on t ⊆ sp_task_id <$> l) → (length l < frames)%nat →
  (∃ v, visit_each (visit frames (graph_of l) []) (graph_of l).*1 [] = Ok v) ↔ acyclic (depends l) (list_to_set (sp_task_id <$> l)).
Proof.
  intros Hn Hc Hf. split.
  - intros [v Hv]. destruct (visit_each_sound (graph_of l) (visit frames (graph_of l) []) _ [] v (λ vis t v' _, visit_sound _ frames [] vis t v') Hv) as (Ho & Hs & _).
    { intros k i d Hk. by rewrite lookup_nil in Hk. }
    rewrite graph_ids in Hs. eapply acyclic_subseteq; [|apply causal_acyclic, ordered_causal, Ho].
    intros x. rewrite !elem_of_list_to_set. apply Hs.
  - intros Ha. apply visit_each_complete. intros vis t Ht. rewrite graph_ids in Ht.
    apply (visit_complete (graph_of l) (sp_task_id <$> l)); [|done|done|constructor|set_solver|done|rewrite length_fmap; cbn; lia].
    intros t' (t0 & -> & Ht0)%list_elem_of_fmap. change (deps_of (graph_of l)) with (depends l). rewrite depends_task by done. by apply Hc.
Qed.

Lemma eq_str v s : Val.eq v (Str s) = true ↔ v = Str s.
Proof. destruct v; cbn; try done. rewrite String.eqb_eq. naive_solver. Qed.

Lemma validate_sound frames payload r : (4096 < frames)%nat → validate_delegate frames payload = Ok r → request_ok payload r.
Proof.
  intros Hf. unfold validate_delegate. destruct (negb _ || negb _) eqn:E; [done|].
  apply orb_false_iff in E as [Es%negb_false_iff%eq_str Ep%negb_false_iff%eq_str].
  destruct (Val.get "identity" payload) as [| | | | | |identity] eqn:Ei; try done.
  destruct (check_identity identity IDENTITY_FIELDS) as [[]|] eqn:Eid; [cbn [rbind]|done]. pose proof (proj1 (check_identity_Ok _ _) Eid) as Hid.
  destruct (require_text _ "idempotency_key") as [key|] eqn:Ek; [cbn [rbind]|done]. apply require_text_Ok in Ek.
  destruct (512 <? _)%nat eqn:El; [done|]. apply Nat.ltb_ge in El.
  destruct (Val.to_float _) as [n|] eqn:En; [cbn [rbind or_raise]|done]. destruct ((n <? 1) || (256 <? n)) eqn:Eb; [done|].
  apply orb_false_iff in Eb as [Eb1%Z.ltb_ge Eb2%Z.ltb_ge].
  destruct (Val.get "tasks" payload) as [| | | | |[|v l]|] eqn:Et; try done. destruct (4096 <? _)%nat eqn:El2; [done|]. apply Nat.ltb_ge in El2.
  destruct (validate_tasks [] (v :: l)) as [ts|] eqn:Ev; [cbn [rbind]|done]. apply validate_tasks_Ok in Ev as (Hspec & Hnd & _).
  destruct (check_dependencies _ ts) as [[]|] eqn:Ec; [cbn [rbind]|done]. pose proof (proj1 (check_dependencies_Ok _ _) Ec) as Hc.
  destruct (visit_each _ _ []) as [vis|] eqn:Eg; [cbn [rbind]|done]. intros [= <-]. constructor; cbn; try done.
  - exists (v :: l). split; [done|]. split; [cbn in *; lia|done].
  - apply (visits_exact frames); [done|intros t Ht; by apply Hc| |by eexists]. apply Forall2_length in Hspec. lia.
Qed.

Lemma validate_complete frames payload r : (4096 < frames)%nat → request_ok payload r → validate_delegate frames payload = Ok r.
Proof.
  intros Hf [[Es Ep] [Ei Hid] [Hk Hlen] [En Hn] (l & Et & Hl & Hspec) Hnd Hc Ha]. unfold validate_delegate.
  rewrite (proj2 (eq_str _ _) Es), (proj2 (eq_str _ _) Ep). cbn [negb orb]. rewrite Ei.
  rewrite (proj2 (check_identity_Ok _ _) Hid). cbn [rbind]. rewrite (proj2 (require_text_Ok _ _ _) Hk). cbn [rbind].
  rewrite (proj2 (Nat.ltb_ge _ _) Hlen), En. cbn [or_raise rbind].
  rewrite (proj2 (Z.ltb_ge _ _)), (proj2 (Z.ltb_ge _ _)) by lia. cbn [orb]. rewrite Et. destruct l as [|v l]; [cbn in Hl; lia|].
  rewrite (proj2 (Nat.ltb_ge _ _)) by lia.
  rewrite (proj2 (validate_tasks_Ok [] (v :: l) (rq_tasks r))) by (split; [done|split; [done|by intros i _ ?%elem_of_nil]]). cbn [rbind].
  rewrite (proj2 (check_dependencies_Ok _ _) Hc). cbn [rbind].
  destruct (proj2 (visits_exact frames (rq_tasks r) Hnd (λ t Ht, proj2 (Hc t Ht)) ltac:(apply Forall2_length in Hspec; lia)) Ha) as [vis ->].
  by destruct r.
Qed.

(** ** States *)

Lemma update_rows_fresh rows d : NoDup (wt_task_id <$> rows) → (∀ t, t ∈ wt_task_id <$> rows → t ∉ d.*1) →
  update_rows rows d = d ++ ((λ x, (wt_task_id x, x)) <$> rows).
Proof.
  revert d. induction rows as [|x rows IH]; intros d Hn Hd; [by rewrite app_nil_r|].
  rewrite fmap_cons, NoDup_cons in Hn. destruct Hn as [Hx Hn]. unfold update_rows in *. cbn [foldl].
  rewrite dput_new by (apply Hd; by left). rewrite IH; [by rewrite <- app_assoc|done|].
  intros t Ht. rewrite fmap_app, not_elem_of_app. split; [apply Hd; by right|]. by intros ->%list_elem_of_singleton.
Qed.

(** An update keeps what an item is about when the item keeps its id. *)
Lemma update_rows_facts (P : string → WorkerTask → Prop) rows d : NoDup d.*1 → (∀ t x, (t, x) ∈ d → P t x) → (∀ x, x ∈ rows → P (wt_task_id x) x) →
  NoDup (update_rows rows d).*1 ∧ ∀ t x, (t, x) ∈ update_rows rows d → P t x.
Proof.
  revert d. induction rows as [|y rows IH]; intros d Hn Hd Hr; [done|]. unfold update_rows in *. cbn [foldl]. apply IH.
  - by apply dput_NoDup.
  - intros t x Hin. apply elem_of_dget in Hin; [|by apply dput_NoDup]. rewrite dget_put in Hin. case_decide as E.
    + injection Hin as <-. subst t. apply Hr. by left.
    + apply Hd. by apply dget_Some_pair.
  - intros x Hx. apply Hr. by right.
Qed.

Lemma dput_present {V} k (v : V) d : k ∈ d.*1 → (dput k v d).*1 = d.*1.
Proof.
  induction d as [|[k' v'] d IH]; [by intros ?%elem_of_nil|]. rewrite fmap_cons, elem_of_cons. cbn [dput].
  destruct (String.eqb_spec k' k) as [->|Hne]; [done|]. intros [->|Hk]; [done|]. rewrite !fmap_cons. by rewrite IH.
Qed.
Lemma update_rows_keys rows d : (∀ x, x ∈ rows → wt_task_id x ∈ d.*1) → (update_rows rows d).*1 = d.*1.
Proof.
  revert d. induction rows as [|y rows IH]; intros d Hr; [done|]. unfold update_rows in *. cbn [foldl].
  rewrite IH; [apply dput_present, Hr; by left|]. intros x Hx. rewrite dput_present by (apply Hr; by left). apply Hr. by right.
Qed.

(** An update holds the last row of an id, and leaves the other ids alone. *)
Lemma update_rows_miss t rows d : t ∉ wt_task_id <$> rows → dget t (update_rows rows d) = dget t d.
Proof.
  revert d. induction rows as [|y rows IH]; intros d Ht; [done|]. rewrite fmap_cons, not_elem_of_cons in Ht. unfold update_rows in *. cbn [foldl].
  rewrite IH by apply Ht. by rewrite dget_put_ne by apply Ht.
Qed.
Lemma update_rows_hit t x rows d : t ∈ wt_task_id <$> rows → dget t (update_rows rows d) = Some x → x ∈ rows.
Proof.
  revert d. induction rows as [|y rows IH]; intros d Ht; [by apply elem_of_nil in Ht|]. change (update_rows (y :: rows) d) with (update_rows rows (dput (wt_task_id y) y d)).
  destruct (decide (t ∈ wt_task_id <$> rows)) as [Hin|Hn]; [intros Hg; right; by apply (IH _ Hin Hg)|].
  rewrite update_rows_miss by done. apply elem_of_cons in Ht as [->|]; [|done]. rewrite dget_put_eq. intros [= ->]. by left.
Qed.

(** The ids a receipt lists are the keys of the tasks. *)
Lemma row_ids (d : list (string * WorkerTask)) : (∀ t x, (t, x) ∈ d → wt_task_id x = t) → (λ kt, wt_task_id kt.2) <$> d = d.*1.
Proof. intros Hd. apply list_fmap_ext. intros i [t x] Hi. apply (Hd t x). by eapply list_elem_of_lookup_2. Qed.

Lemma numbered_app l (f : nat → WorkerTask → WorkerEvent) (rows : list WorkerTask) : numbered l →
  (∀ i x, ev_sequence (f i x) = Z.of_nat (length l) + Z.of_nat i) → numbered (l ++ imap f rows).
Proof.
  unfold numbered. intros Hl Hf. rewrite fmap_app, Hl, length_app, length_imap, Nat2Z.inj_add, seqZ_app by lia. f_equal.
  rewrite fmap_imap. apply list_eq. intros i. rewrite list_lookup_imap.
  destruct (rows !! i) as [x|] eqn:Ei; cbn.
  - rewrite Hf. symmetry. apply lookup_seqZ. split; [lia|]. apply lookup_lt_Some in Ei. lia.
  - symmetry. apply lookup_ge_None. rewrite length_seqZ. apply lookup_ge_None in Ei. lia.
Qed.

Lemma events_of_numbered_new id start st reason rid rows : start = 0 → numbered (row_events id start st reason rid rows).
Proof. intros ->. apply (numbered_app [] (λ i t, event_of id t (0 + Z.of_nat i) st reason rid)); [done|]. intros i x. done. Qed.

(** ** Steps *)

Section Steps.
Context (K : string → Prop) (HK : distinct_ids K).

Lemma receipt_ok s id wf : workflow_ok K s id wf →
  receipt_of s wf = Ok (mkReceipt id (wf_delegate_receipt_id wf) ((λ kt, wt_task_id kt.2) <$> rows_of s id)).
Proof. intros [(Hid & _) [[ts Hts] _] _ _ _]. unfold receipt_of, tasks_of, rows_of. rewrite Hid, Hts. done. Qed.

Lemma workflow_ok_frame s s' id wf : dget id (tasks s') = dget id (tasks s) → dget id (events s') = dget id (events s) →
  workflow_ok K s id wf → workflow_ok K s' id wf.
Proof. intros Ht He [Hid Hr Hrow Ha Hev]. unfold rows_of, events_of in *. by constructor; unfold rows_of, events_of; rewrite ?Ht, ?He. Qed.

Lemma grows_frame s s' id wf : dget id (tasks s') = dget id (tasks s) → dget id (events s') = dget id (events s) → grows s s' id wf wf.
Proof. intros Ht He. constructor; unfold rows_of, events_of; rewrite ?Ht, ?He; done. Qed.

Lemma extends_refl s : extends s s.
Proof. intros id wf Hw. exists wf. split; [done|]. by apply grows_frame. Qed.

Lemma recorded_extends s s' a : extends s s' → worker_ok K s → worker_ok K s' → recorded s a → recorded s' a.
Proof.
  intros He Hs Hs'. unfold recorded. destruct (a_op a) as [|[r|id after|id key reason|id t payload]]; [done|..|done];
    destruct (reply_of (a_decision a)) as [[rc|id' n evs|rc|]|]; try done.
  - intros (wf & Hw & Hk & Hd & Hrc). destruct (He _ _ Hw) as (wf' & Hw' & [(Hi & Hk' & Hd' & Hdel) _ Hr _]). exists wf'.
    split; [done|]. split; [congruence|]. split; [congruence|]. rewrite (receipt_ok _ _ _ (wk_workflow _ _ Hs' _ _ Hw')).
    rewrite (receipt_ok _ _ _ (wk_workflow _ _ Hs _ _ Hw)) in Hrc. rewrite <- Hrc. by rewrite Hdel, Hr.
  - intros (wf & Hw & Hi & Hn & Hevs). destruct (He _ _ Hw) as (wf' & Hw' & [_ _ _ [l Hl]]). exists wf'.
    split; [done|]. split; [done|]. rewrite Hl, length_app. split; [lia|]. rewrite take_app_le by lia. done.
  - intros (wf & Hw & Hc). destruct (He _ _ Hw) as (wf' & Hw' & [_ Hc' _ _]). exists wf'. auto.
Qed.

Lemma new_rows_ids id l : wt_task_id <$> new_rows id l = sp_task_id <$> l.
Proof. unfold new_rows. rewrite fmap_imap. by apply list_eq; intros i; rewrite list_lookup_imap, list_lookup_fmap; destruct (l !! i). Qed.

Lemma new_rows_waiting id l x : x ∈ new_rows id l → wt_state x = waiting.
Proof. intros (i & Hi)%list_elem_of_lookup. unfold new_rows in Hi. rewrite list_lookup_imap in Hi. by apply fmap_Some in Hi as (t & _ & ->). Qed.

Lemma find_workflow_None s key id wf : List.find (λ kw, String.eqb (wf_key kw.2) key) (workflows s) = None → dget id (workflows s) = Some wf → wf_key wf ≠ key.
Proof. intros Hf Hg%dget_Some_pair%list_elem_of_In E. pose proof (find_none _ _ Hf _ Hg) as Hn. cbn in Hn. by rewrite E, String.eqb_refl in Hn. Qed.

Lemma workflow_fresh s key : worker_ok K s → K key → List.find (λ kw, String.eqb (wf_key kw.2) key) (workflows s) = None →
  dget (workflow_id_of key) (workflows s) = None.
Proof.
  intros Hs Hk Hf. destruct (dget _ (workflows s)) as [wf|] eqn:E; [|done]. exfalso.
  destruct (wo_id _ _ _ _ (wk_workflow _ _ Hs _ _ E)) as (_ & Hid & Hk'). apply (find_workflow_None _ _ _ _ Hf E). symmetry. by apply HK.
Qed.

Lemma find_workflow s key id wf : worker_ok K s → List.find (λ kw, String.eqb (wf_key kw.2) key) (workflows s) = Some (id, wf) →
  dget (workflow_id_of key) (workflows s) = Some wf ∧ wf_key wf = key.
Proof.
  intros Hs Hf. apply find_some in Hf as [Hin Hk%String.eqb_eq]. cbn in Hk. apply list_elem_of_In in Hin.
  pose proof (elem_of_dget _ _ _ (wk_nodup _ _ Hs) Hin) as Hg. destruct (wo_id _ _ _ _ (wk_workflow _ _ Hs _ _ Hg)) as (_ & Hid & _).
  split; [|done]. by rewrite <- Hk, <- Hid.
Qed.

(** The states after the two events a turn appends. *)
Lemma created_ok s r now : worker_ok K s → K (rq_key r) → dget (workflow_id_of (rq_key r)) (workflows s) = None →
  let id := workflow_id_of (rq_key r) in let rows := new_rows id (rq_tasks r) in
  ∃ s', apply_event s (WorkflowCreated id (new_workflow r now) rows (row_events id 0 waiting None None rows)) = Ok s' ∧
    worker_ok K s' ∧ extends s s' ∧ dget id (workflows s') = Some (new_workflow r now) ∧ rows_of s' id = update_rows rows [].
Proof.
  intros Hs Hk Hn id rows. eexists. split; [reflexivity|]. set (s' := _ <| events ::= _ |>).
  destruct (update_rows_facts (λ t x, wt_task_id x = t ∧ wt_state x = waiting) rows []) as [Hnd Hrow]; [constructor|by intros ? ? ?%elem_of_nil|by intros x Hx%new_rows_waiting|].
  assert (∀ id', id' ≠ id → dget id' (tasks s') = dget id' (tasks s) ∧ dget id' (events s') = dget id' (events s)) as Hframe.
  { intros id' Hne. subst s'; cbn. by rewrite !dget_put_ne. }
  split; [constructor|split; [|split]].
  - subst s'; cbn. apply dput_NoDup, Hs.
  - intros id' wf. subst s'; cbn. rewrite dget_put. case_decide as E; [|].
    + intros [= <-]. subst id'. constructor; unfold rows_of, events_of; cbn; rewrite ?dget_put_eq; cbn.
      * done.
      * split; [by eexists|done].
      * done.
      * done.
      * by apply events_of_numbered_new.
    + intros Hw. destruct (Hframe id' E). by apply (workflow_ok_frame s), Hs.
  - intros id' wf Hw. assert (id' ≠ id) as Hne by (intros ->; unfold id in *; congruence). destruct (Hframe id' Hne). exists wf.
    split; [subst s'; cbn; by rewrite dget_put_ne|by apply grows_frame].
  - subst s'; cbn. apply dget_put_eq.
  - subst s'. unfold rows_of; cbn. by rewrite dget_put_eq.
Qed.

Lemma cancelled_ok s id wf key reason now : worker_ok K s → dget id (workflows s) = Some wf → wf_cancel_receipt wf = None →
  let rc := mkReceipt id ("cancel:" +:+ short (Str key)) [] in
  let rows := cancelled_task reason (rc_receipt_id rc) <$> List.filter (λ t, negb (is_terminal (wt_state t))) (rows_of s id).*2 in
  ∃ s', apply_event s (WorkflowCancelled id (cancelled_workflow wf rc now) rows
      (row_events id (Z.of_nat (length (events_of s id))) cancelled (Some reason) (Some (rc_receipt_id rc)) rows)) = Ok s' ∧
    worker_ok K s' ∧ extends s s' ∧ dget id (workflows s') = Some (cancelled_workflow wf rc now).
Proof.
  intros Hs Hw Hc rc rows. pose proof (wk_workflow _ _ Hs _ _ Hw) as [(Hid & Hidk & Hkey) [[ts Hts] Hnd] Hrow Hauth Hev].
  rewrite Hc in Hrow. eexists. split; [reflexivity|]. set (s' := _ <| events ::= _ |>).
  assert (∀ x, x ∈ rows → ∃ y, (wt_task_id x, y) ∈ rows_of s id ∧ x = cancelled_task reason (rc_receipt_id rc) y) as Hrows.
  { intros x (y & -> & [Hy _]%elem_of_Listfilter)%list_elem_of_fmap. apply list_elem_of_fmap in Hy as ([t y'] & -> & Hin). cbn.
    destruct (Hrow _ _ Hin) as [Ht _]. cbn. exists y'. by rewrite Ht. }
  assert (rows_of s' id = update_rows rows (rows_of s id)) as Hrows'.
  { subst s'. unfold rows_of; cbn. by rewrite dget_put_eq. }
  assert ((rows_of s' id).*1 = (rows_of s id).*1) as Hkeys.
  { rewrite Hrows'. apply update_rows_keys. intros x Hx. destruct (Hrows x Hx) as (y & Hy & _). by apply (list_elem_of_fmap_2 fst _ (wt_task_id x, y)). }
  assert (wt_task_id <$> rows = (rows_of s id).*1) as Hall.
  { subst rows. rewrite Listfilter_all; cycle 1.
    { intros x ([t x'] & -> & Hin)%list_elem_of_fmap. cbn. by rewrite (proj2 (Hrow _ _ Hin)). }
    rewrite <- !list_fmap_compose. apply list_fmap_ext. intros i [t x] Hi. apply (Hrow t x). by eapply list_elem_of_lookup_2. }
  assert (NoDup (rows_of s' id).*1) as Hnd' by by rewrite Hkeys.
  assert (∀ t x, (t, x) ∈ rows_of s' id → wt_task_id x = t ∧ wt_state x = cancelled) as Hrow'.
  { intros t x Hin. pose proof (elem_of_dget _ _ _ Hnd' Hin) as Hg. rewrite Hrows' in Hg.
    destruct (Hrows x) as (y & Hy & Hx).
    { apply (update_rows_hit t _ _ (rows_of s id)); [|done]. rewrite Hall, <- Hkeys. by apply (list_elem_of_fmap_2 fst _ (t, x)). }
    rewrite Hrows' in Hin.
    destruct (update_rows_facts (λ t x, wt_task_id x = t) rows (rows_of s id) Hnd) as [_ Hf]; [by intros ? ? [? _]%Hrow|done|].
    split; [by apply Hf|by rewrite Hx]. }
  assert (∀ id', id' ≠ id → dget id' (tasks s') = dget id' (tasks s) ∧ dget id' (events s') = dget id' (events s)) as Hframe.
  { intros id' Hne. subst s'; cbn. by rewrite !dget_put_ne. }
  assert (events_of s' id = events_of s id ++ row_events id (Z.of_nat (length (events_of s id))) cancelled (Some reason) (Some (rc_receipt_id rc)) rows) as Hev'.
  { subst s'. unfold events_of; cbn. by rewrite dget_put_eq. }
  split; [constructor|split].
  - subst s'; cbn. apply dput_NoDup, Hs.
  - intros id' wf'. change (workflows s') with (dput id (cancelled_workflow wf rc now) (workflows s)). rewrite dget_put. case_decide as E.
    + intros [= <-]. subst id'. constructor; [done|split; [|done]|exact Hrow'|done|].
      { subst s'; cbn. rewrite dget_put_eq. by eexists. }
      rewrite Hev'. by apply numbered_app.
    + intros Hw'. destruct (Hframe id' E). by apply (workflow_ok_frame s), Hs.
  - intros id' wf' Hw'. destruct (decide (id' = id)) as [->|Hne].
    + assert (wf' = wf) as -> by congruence. exists (cancelled_workflow wf rc now). split; [subst s'; cbn; by rewrite dget_put_eq|].
      constructor; [done|by rewrite Hc| |rewrite Hev'; by eexists].
      rewrite !row_ids; [done|by intros ? ? [? _]%Hrow|by intros ? ? [? _]%Hrow'].
    + destruct (Hframe id' Hne). exists wf'. split; [subst s'; cbn; by rewrite dget_put_ne|by apply grows_frame].
  - subst s'; cbn. apply dget_put_eq.
Qed.

Lemma decide_effect s a c : worker_ok K s → a_op a = Ready c → delegates_in K a → decide_turn c s (a_now a) = a_decision a →
  match a_decision a with
  | Ok (Append e _) => ∃ s', apply_event s e = Ok s' ∧ worker_ok K s' ∧ extends s s' ∧ recorded s' a
  | _ => recorded s a
  end.
Proof.
  intros Hs Ho Hk Hd. unfold recorded. rewrite Ho, <- Hd. destruct c as [r|id after|id key reason|id t payload]; cbn [decide_turn].
  - unfold delegate_turn. destruct (List.find _ _) as [[id wf]|] eqn:Ef.
    + destruct (find_workflow _ _ _ _ Hs Ef) as [Hg Hkey]. destruct (String.eqb_spec (wf_request_digest wf) (request_digest r)) as [E|]; [cbn [negb]|done].
      destruct (receipt_of s wf) as [rc|] eqn:Er; [|done]. cbn. by exists wf.
    + cbn. pose proof (Hk r Ho) as HKr. pose proof (workflow_fresh _ _ Hs HKr Ef) as Hn.
      destruct (created_ok s r (a_now a) Hs HKr Hn) as (s' & Ha & Hs' & He & Hw & Hrows). exists s'. repeat (split; [done|]).
      exists (new_workflow r (a_now a)). repeat (split; [done|]). rewrite (receipt_ok _ _ _ (wk_workflow _ _ Hs' _ _ Hw)). by rewrite Hrows.
  - unfold status_turn, workflow_of. destruct (dget id (workflows s)) as [wf|] eqn:Ew; [cbn|done]. exists wf.
    split; [done|]. split; [done|]. change (default [] (dget id (events s))) with (events_of s id). split; [lia|]. by rewrite Nat2Z.id, firstn_all.
  - unfold cancel_turn, workflow_of. destruct (dget id (workflows s)) as [wf|] eqn:Ew; [cbn [or_raise rbind]|done].
    destruct (wf_cancel_receipt wf) as [rc|] eqn:Ec; [by exists wf|]. unfold tasks_of. destruct (wk_workflow _ _ Hs _ _ Ew) as [_ [[ts Hts] _] _ _ _].
    rewrite Hts. cbn [or_raise rbind]. destruct (cancelled_ok s id wf key reason (a_now a) Hs Ew Ec) as (s' & Ha & Hs' & He & Hw).
    unfold rows_of in Ha. rewrite Hts in Ha. exists s'. split; [exact Ha|]. repeat (split; [done|]). by eexists.
  - unfold deliver_turn, workflow_of. destruct (dget id (workflows s)) as [wf|] eqn:Ew; [cbn [or_raise rbind]|by eexists].
    destruct (dget t _) as [x|] eqn:Et; [cbn [or_raise rbind]|by eexists]. destruct (negb (wf_mutation_authority wf =? 1)); [by eexists|].
    destruct (wk_workflow _ _ Hs _ _ Ew) as [_ _ Hrow _ _]. apply dget_Some_pair in Et. destruct (Hrow _ _ Et) as [_ Hst].
    rewrite (bool_decide_false (wt_state x = done)); [by rewrite orb_true_r; eexists|]. rewrite Hst. by destruct (wf_cancel_receipt wf).
Qed.

Lemma issued_ready frames op : issued (HubWorkerStore frames) op → ∃ c, op = Ready c.
Proof.
  induction 1 as [op op' Hc|op s now e op' _ _ Ht]; cbn in *.
  - destruct op as [m p|]; [|done]. destruct (checked frames m p) as [c|]; [|done]. injection Hc as <-. by exists c.
  - exfalso. assert (∀ c, decide_turn c s now ≠ Ok (Append e (inr op'))) as Hd.
    { intros [r|id a|id k re|id t p]; unfold decide_turn, delegate_turn, status_turn, cancel_turn, deliver_turn, rbind; repeat case_match; congruence. }
    destruct op as [m p|c]; [|by destruct (Hd c)]. destruct (checked frames m p) as [c|]; [by destruct (Hd c)|done].
Qed.

Lemma turn_applies c s now e next : decide_turn c s now = Ok (Append e next) → ∃ s', apply_event s e = Ok s'.
Proof.
  destruct c as [r|id a|id k re|id t p]; unfold decide_turn, delegate_turn, status_turn, cancel_turn, deliver_turn, rbind;
    repeat case_match; intros [= <- <-]; by eexists.
Qed.

Lemma store_inv {J} `{JournalLaws J StoreEvent} frames (w : World (J := J) (E := StoreEvent) (X := WorkerExn) (Op := WorkerOp) (Out := WorkerReply)) :
  reachable (HubWorkerStore frames) w → (∀ a, a ∈ w_log w → delegates_in K a) →
  ∃ s, project (HubWorkerStore frames) (rp_events (replay (w_journal w))) = Ok s ∧ worker_ok K s ∧ ∀ a, a ∈ w_log w → recorded s a.
Proof.
  intros Hw Hk. destruct (reachable_serial _ w Hw) as (Hser & _ & Hiss & _).
  destruct (serial_inv (HubWorkerStore frames) (λ log s, (∀ a, a ∈ log → delegates_in K a) → worker_ok K s ∧ ∀ a, a ∈ log → recorded s a) (w_log w) _ Hser Hiss)
    as (s & Hs & Hinv); [| |exists s; split; [done|by apply Hinv]].
  - intros _. split; [|by intros a ?%elem_of_nil]. constructor; [constructor|done].
  - intros log s a [c Hc]%issued_ready Hinv Ht.
    assert (decide_turn c s (a_now a) = a_decision a) as Hd by (rewrite Hc in Ht; exact Ht).
    assert ((∀ x, x ∈ log ++ [a] → delegates_in K x) → worker_ok K s ∧ (∀ x, x ∈ log → recorded s x) ∧ delegates_in K a) as Hpre.
    { intros Hin. destruct Hinv as [H1 H2]; [intros x Hx; apply Hin, elem_of_app; by left|]. split; [done|]. split; [done|]. apply Hin, elem_of_app. right. by left. }
    assert (∀ s', worker_ok K s' → extends s s' → recorded s' a → worker_ok K s → (∀ x, x ∈ log → recorded s x) → ∀ x, x ∈ log ++ [a] → recorded s' x) as Hall.
    { intros s' Hs' He Ha Hs Hl x [Hx|Hx%list_elem_of_singleton]%elem_of_app; [by apply (recorded_extends s); [..|apply Hl]|by subst]. }
    pose proof (λ Hs Hk', decide_effect s a c Hs Hc Hk' Hd) as Heff.
    destruct (a_decision a) as [[o|e next]|x] eqn:Ea; cycle 1.
    + destruct (turn_applies c s (a_now a) e next Hd) as [s' Hs']. exists s'. split; [exact Hs'|]. intros Hin. destruct (Hpre Hin) as (Hs & Hl & Hka).
      destruct (Heff Hs Hka) as (s2 & Ha2 & Hs2 & He & Hr). assert (s2 = s') as -> by congruence. split; [done|]. by apply Hall.
    + intros Hin. destruct (Hpre Hin) as (Hs & Hl & Hka). split; [done|]. apply Hall; [done|apply extends_refl|by apply Heff|done|done].
    + intros Hin. destruct (Hpre Hin) as (Hs & Hl & Hka). split; [done|]. apply Hall; [done|apply extends_refl|by apply Heff|done|done].
Qed.
End Steps.

(** * Properties *)

(** [_validate_delegate] accepts a request exactly when it is of the schema,
    its texts are not blank, its numbers are in their bounds, its tasks have
    roles and distinct ids, every dependency is another task of the request,
    and the dependencies have no cycle; and what it returns is the request as it
    was written. It needs a frame of the interpreter for every task: the bound
    of 4096 tasks is more than an interpreter with the usual limit of 1000
    frames can visit. *)
Theorem validate_delegate_exact frames payload r : (4096 < frames)%nat →
  validate_delegate frames payload = Ok r ↔ request_ok payload r.
Proof. intros Hf. split; [by apply validate_sound|by apply validate_complete]. Qed.

Section Properties.
Context {J : Type} `{JournalLaws J StoreEvent} (frames : nat) (K : string → Prop).
Implicit Types w : World (J := J) (E := StoreEvent) (X := WorkerExn) (Op := WorkerOp) (Out := WorkerReply).

(** C23: One key, one workflow. Whatever processes delegate at the same time,
    with keys no two of which share the id cut from their digest: two accepted
    requests with the same key were the same request (their documents have the
    same digest), and both callers got the same receipt. *)
Theorem delegate_once w a b q1 q2 r1 r2 : reachable (HubWorkerStore frames) w → distinct_ids K → (∀ a, a ∈ w_log w → delegates_in K a) →
  a ∈ w_log w → b ∈ w_log w → a_op a = Ready (Delegate q1) → a_op b = Ready (Delegate q2) → rq_key q1 = rq_key q2 →
  reply_of (a_decision a) = Some (Accepted r1) → reply_of (a_decision b) = Some (Accepted r2) →
  r1 = r2 ∧ request_digest q1 = request_digest q2.
Proof.
  intros Hw HK Hin Ha Hb Hqa Hqb Hk Hra Hrb. destruct (store_inv K HK frames w Hw Hin) as (s & _ & _ & Hrec).
  pose proof (Hrec a Ha) as Ra. pose proof (Hrec b Hb) as Rb. unfold recorded in Ra, Rb. rewrite Hqa, Hra in Ra. rewrite Hqb, Hrb in Rb.
  destruct Ra as (wf1 & Hg1 & _ & Hd1 & Hr1). destruct Rb as (wf2 & Hg2 & _ & Hd2 & Hr2). rewrite Hk in Hg1. split; congruence.
Qed.

(** A cursor loses, repeats and reorders nothing. There is one list of events
    for every workflow, numbered from zero, such that every page any status call
    ever returned is the slice of it from the cursor the caller gave to the
    cursor the page gave back. *)
Theorem pages_exact w : reachable (HubWorkerStore frames) w → distinct_ids K → (∀ a, a ∈ w_log w → delegates_in K a) →
  ∃ total : string → list WorkerEvent, ∀ a id after id' next page, a ∈ w_log w → a_op a = Ready (Status id after) →
    reply_of (a_decision a) = Some (Page id' next page) →
    numbered (total id) ∧ 0 <= next <= Z.of_nat (length (total id)) ∧ page = drop (Z.to_nat after) (take (Z.to_nat next) (total id)).
Proof.
  intros Hw HK Hin. destruct (store_inv K HK frames w Hw Hin) as (s & _ & Hok & Hrec). exists (events_of s).
  intros a id after id' next page Ha Ho Hr. pose proof (Hrec a Ha) as R. unfold recorded in R. rewrite Ho, Hr in R.
  destruct R as (wf & Hg & _ & Hn & Hp). split; [apply (wk_workflow _ _ Hok _ _ Hg)|done].
Qed.

(** A cancellation is for good. Once a caller has a receipt for it, the state
    every process reads has that workflow cancelled under that receipt, without
    authority to change anything and with no task left running; and every other
    cancellation of the workflow, before or after, got the same receipt. *)
Theorem cancel_final w : reachable (HubWorkerStore frames) w → distinct_ids K → (∀ a, a ∈ w_log w → delegates_in K a) →
  ∃ s, project (HubWorkerStore frames) (rp_events (replay (w_journal w))) = Ok s ∧
    ∀ a id key reason rc, a ∈ w_log w → a_op a = Ready (Cancel id key reason) → reply_of (a_decision a) = Some (CancelReceipt rc) →
      ∃ wf, dget id (workflows s) = Some wf ∧ wf_cancel_receipt wf = Some rc ∧ wf_mutation_authority wf = 0 ∧
        ∀ t x, (t, x) ∈ rows_of s id → wt_state x = cancelled.
Proof.
  intros Hw HK Hin. destruct (store_inv K HK frames w Hw Hin) as (s & Hs & Hok & Hrec). exists s. split; [done|].
  intros a id key reason rc Ha Ho Hr. pose proof (Hrec a Ha) as R. unfold recorded in R. rewrite Ho, Hr in R.
  destruct R as (wf & Hg & Hc). destruct (wk_workflow _ _ Hok _ _ Hg) as [_ _ Hrow Hauth _]. rewrite Hc in *. exists wf.
  repeat (split; [done|]). intros t x Hx. by apply (Hrow t x).
Qed.

(** No delivery ever succeeds. The store itself never moves a task but to
    cancelled, [deliver] wants a task that is done, and nothing in the repository
    writes the event that would make it so. *)
Theorem deliver_never w a id t payload : reachable (HubWorkerStore frames) w → distinct_ids K → (∀ a, a ∈ w_log w → delegates_in K a) →
  a ∈ w_log w → a_op a = Ready (Deliver id t payload) → ∃ x, a_decision a = Err x.
Proof.
  intros Hw HK Hin Ha Ho. destruct (store_inv K HK frames w Hw Hin) as (s & _ & _ & Hrec). pose proof (Hrec a Ha) as R.
  unfold recorded in R. by rewrite Ho in R.
Qed.
End Properties.

(** * Examples *)

Lemma validate_delegate_exact_witness :
  is_ok (validate_delegate demo_frames demo_request) = true ∧ request_ok demo_request (demo_delegated 0).
Proof.
  split; [vm_compute; reflexivity|]. assert (He : validate_delegate demo_frames demo_request = Ok (demo_delegated 0)) by (vm_compute; reflexivity).
  apply (validate_delegate_exact demo_frames demo_request (demo_delegated 0)); [unfold demo_frames; lia|exact He].
Defined.

Lemma demo_world_reachable : reachable (HubWorkerStore demo_frames) demo_world.
Proof.
  exists (mkMem []). split; [done|]. apply play_reachable. intros [m p|[]]; reflexivity.
Qed.

Lemma demo_keys : distinct_ids (λ k, k = "key").
Proof. intros k k' -> -> _. done. Qed.

Lemma demo_delegates a : a ∈ w_log demo_world → delegates_in (λ k, k = "key") a.
Proof.
  assert (forallb (key_is "key") (w_log demo_world) = true) as Hall by (vm_compute; reflexivity).
  intros Ha r Hr. rewrite forallb_forall in Hall. specialize (Hall a (proj1 (list_elem_of_In _ _) Ha)). unfold key_is in Hall. rewrite Hr in Hall.
  by apply String.eqb_eq.
Qed.

Lemma demo_action_in n : (n < length (w_log demo_world))%nat → demo_action n ∈ w_log demo_world.
Proof. intros [a Ha]%lookup_lt_is_Some_2. unfold demo_action. rewrite Ha. by eapply list_elem_of_lookup_2. Qed.

Lemma demo_in n : bool_decide (n < 6)%nat = true → demo_action n ∈ w_log demo_world.
Proof. intros Hn%bool_decide_eq_true_1. apply demo_action_in. assert (length (w_log demo_world) = 6%nat) as -> by (vm_compute; reflexivity). done. Qed.

Lemma delegate_once_witness :
  demo_receipt 0 = demo_receipt 1 ∧ request_digest (demo_delegated 0) = request_digest (demo_delegated 1).
Proof.
  assert (H0 : a_op (demo_action 0) = Ready (Delegate (demo_delegated 0))) by (vm_compute; reflexivity).
  assert (H1 : a_op (demo_action 1) = Ready (Delegate (demo_delegated 1))) by (vm_compute; reflexivity).
  assert (H2 : rq_key (demo_delegated 0) = rq_key (demo_delegated 1)) by (vm_compute; reflexivity).
  assert (H3 : reply_of (a_decision (demo_action 0)) = Some (Accepted (demo_receipt 0))) by (vm_compute; reflexivity).
  assert (H4 : reply_of (a_decision (demo_action 1)) = Some (Accepted (demo_receipt 1))) by (vm_compute; reflexivity).
  exact (delegate_once demo_frames (λ k, k = "key") demo_world (demo_action 0) (demo_action 1) _ _ _ _ demo_world_reachable demo_keys demo_delegates
    (demo_in 0 eq_refl) (demo_in 1 eq_refl) H0 H1 H2 H3 H4).
Defined.

(** The first page from cursor 1 gives back cursor 2, and the next one the two
    events of the cancellation. *)
Lemma pages_exact_witness :
  ev_sequence <$> demo_page 2 ++ demo_page 4 = [1; 2; 3] ∧
  ∃ total, numbered total ∧ demo_page 2 = drop 1 (take 2 total) ∧ demo_page 4 = drop 2 (take 4 total).
Proof.
  split; [vm_compute; reflexivity|].
  assert (H2 : a_op (demo_action 2) = Ready (Status demo_id 1)) by (vm_compute; reflexivity).
  assert (H4 : a_op (demo_action 4) = Ready (Status demo_id 2)) by (vm_compute; reflexivity).
  assert (R2 : reply_of (a_decision (demo_action 2)) = Some (Page demo_id 2 (demo_page 2))) by (vm_compute; reflexivity).
  assert (R4 : reply_of (a_decision (demo_action 4)) = Some (Page demo_id 4 (demo_page 4))) by (vm_compute; reflexivity).
  destruct (pages_exact demo_frames (λ k, k = "key") demo_world demo_world_reachable demo_keys demo_delegates) as [total Ht].
  destruct (Ht _ _ _ _ _ _ (demo_in 2 eq_refl) H2 R2) as (Hn & _ & P2). destruct (Ht _ _ _ _ _ _ (demo_in 4 eq_refl) H4 R4) as (_ & _ & P4).
  exists (total demo_id). split; [exact Hn|]. split; [exact P2|exact P4].
Defined.

Lemma cancel_final_witness : ∃ s wf, project (HubWorkerStore demo_frames) (rp_events (replay (w_journal demo_world))) = Ok s ∧
  dget demo_id (workflows s) = Some wf ∧ wf_cancel_receipt wf = Some (demo_receipt 3) ∧ wf_mutation_authority wf = 0.
Proof.
  assert (H3 : a_op (demo_action 3) = Ready (Cancel demo_id "stop" "late")) by (vm_compute; reflexivity).
  assert (R3 : reply_of (a_decision (demo_action 3)) = Some (CancelReceipt (demo_receipt 3))) by (vm_compute; reflexivity).
  destruct (cancel_final demo_frames (λ k, k = "key") demo_world demo_world_reachable demo_keys demo_delegates) as (s & Hs & Hc).
  destruct (Hc _ _ _ _ _ (demo_in 3 eq_refl) H3 R3) as (wf & Hg & Hr & Ha & _). exists s, wf. split; [exact Hs|]. split; [exact Hg|]. split; [exact Hr|exact Ha].
Defined.

Lemma deliver_never_witness : ∃ x, a_decision (demo_action 5) = Err x.
Proof.
  assert (H5 : a_op (demo_action 5) = Ready (demo_checked 5)) by (vm_compute; reflexivity).
  exact (deliver_never demo_frames (λ k, k = "key") demo_world (demo_action 5) demo_id "ship"
    [("workflow_id", Str demo_id); ("task_id", Str "ship"); ("agent_id", Str "a"); ("review_receipt_id", Str "r")]
    demo_world_reachable demo_keys demo_delegates (demo_in 5 eq_refl) H5).
Defined.

(** A chain of three tasks needs four frames; a cycle is found. *)
Example chain_needs_frames :
  validate_delegate 2 demo_chain = Err RecursionError ∧ is_ok (validate_delegate 3 demo_chain) = true.
Proof. vm_compute. split; reflexivity. Qed.
Example cycle_found : validate_delegate demo_frames (demo_payload [demo_task "a" "tester" ["b"]; demo_task "b" "tester" ["a"]]) =
  Err (HubWorkerError "task DAG contains a cycle").
Proof. vm_compute. reflexivity. Qed.

(** The limit on keys counts characters: 512 of them may be 1024 bytes. *)
Example key_limit_counts_characters :
  let key := String.concat "" (repeat (String (Ascii.ascii_of_nat 195) (String (Ascii.ascii_of_nat 169) "")) 512) in
  String.length key = Z.to_nat 1024 ∧ is_ok (validate_delegate demo_frames (dput "idempotency_key" (Str key) demo_request)) = true.
Proof. vm_compute. split; reflexivity. Qed.
