(* ===== verification/AgentContract.v ===== *)
(** The contract with agents on other devices ([simplicio_loop/agent_contract.py]):
    their identities, the context packs that cross to them, and the receipts
    bound to both. *)
From S2P Require Import Prelude PyLib PyText PyJson.
Import Json.
Local Open Scope Z_scope.
Local Open Scope py_scope.

(** * Definitions *)

Notation object := (list (string * json)).

Definition SCHEMA : string := "simplicio.agent-context/v1".
Definition RECEIPT_SCHEMA : string := "simplicio.agent-receipt/v1".
Definition IDENTITY_FIELDS : list string := ["agent_id"; "runtime"; "device_id"; "session_id"].
Definition CONTEXT_FIELDS : list string :=
  ["schema"; "task_id"; "goal"; "acs"; "source_refs"; "depends_on"; "assigned_to"; "capabilities"; "issue_ref"; "issue_url";
   "role_id"; "role_version"; "stage_id"; "stage_version"; "run_id"; "work_item_id"; "attempt_id"; "fence"; "plan_revision";
   "coordinator_agent_id"; "parent_instance_id"; "idempotency_key"].
Definition STAGE_CONTEXT_FIELDS : list string :=
  ["role_id"; "role_version"; "stage_id"; "stage_version"; "run_id"; "task_id"; "work_item_id"; "attempt_id"; "fence"; "plan_revision";
   "coordinator_agent_id"; "parent_instance_id"; "idempotency_key"].
Definition CAPABILITIES : list string := ["claim"; "heartbeat"; "fencing"; "receipts"; "events"; "evidence"; "completion"].
Definition LIFECYCLE : list string := ["created"; "ready"; "running"; "terminal"].

(** The module's own error; a value that cannot be iterated. *)
Inductive ContractExn : Type := AgentContractError (msg : string) | TypeError.

(** What [for x in v] goes through. *)
Definition iterate (v : json) : result ContractExn (list json) := or_raise (Val.iter v) TypeError.
(** [[str(x).strip() for x in l if str(x).strip()]] *)
Definition texts (l : list json) : list json := Str <$> List.filter Str.truthy ((λ x, Str.strip (Val.str x)) <$> l).

(** ** Issues *)

(** The characters of owners and repositories; the number of an issue. *)
Definition name_char (c : Ascii.ascii) : bool :=
  let n := Ascii.nat_of_ascii c in
  ((65 <=? n) && (n <=? 90) || (97 <=? n) && (n <=? 122) || (48 <=? n) && (n <=? 57) || Nat.eqb n 95 || Nat.eqb n 46 || Nat.eqb n 45)%nat.
Definition is_name (s : string) : bool := Str.truthy s && Text.all_chars name_char s.
Definition is_number (s : string) : bool :=
  match s with
  | String c s' => is_digit c && negb (Ascii.eqb c (Ascii.ascii_of_nat 48)) && Text.all_chars is_digit s'
  | EmptyString => false
  end.
Definition hash_char : Ascii.ascii := Ascii.ascii_of_nat 35.

Record Issue := mkIssue { owner : string; repo : string; number : string }.
#[export] Instance Issue_eq_dec : EqDecision Issue.
Proof. solve_decision. Defined.
Definition make_issue (o r n : string) : option Issue := if is_name o && is_name r && is_number n then Some (mkIssue o r n) else None.

(** [_ISSUE_REF_RE] and [_ISSUE_URL_RE]; a stripped text ends in no newline. *)
Definition match_ref (s : string) : option Issue :=
  '(o, s) ← Text.partition Text.slash s; '(r, n) ← Text.partition hash_char s; make_issue o r n.
Definition ORIGIN : string := "https://github.com/".
Definition match_url (s : string) : option Issue :=
  s ← strip_prefix ORIGIN s; '(o, s) ← Text.partition Text.slash s; '(r, s) ← Text.partition Text.slash s; s ← strip_prefix "issues/" s;
  make_issue o r (match Text.partition Text.slash s with Some (n, "") => n | _ => s end).

Definition issue_ref (i : Issue) : string := owner i +:+ "/" +:+ repo i +:+ "#" +:+ number i.
Definition issue_url (i : Issue) : string := ORIGIN +:+ owner i +:+ "/" +:+ repo i +:+ "/issues/" +:+ number i.

(** [_canonical_issue_fields] *)
Definition canonical_issue_fields (ref url : json) : result ContractExn (string * string) :=
  let raw_ref := Str.strip (Val.text ref) in
  let raw_url := Str.strip (Val.text url) in
  if negb (Str.truthy raw_ref) && negb (Str.truthy raw_url) then Ok ("", "")
  else
    let by_ref := if Str.truthy raw_ref then match_ref raw_ref else None in
    let by_url := if Str.truthy raw_url then match_url raw_url else None in
    if Str.truthy raw_ref && bool_decide (by_ref = None) then Err (AgentContractError "issue_ref must be canonical owner/repo#123")
    else if Str.truthy raw_url && bool_decide (by_url = None) then
      Err (AgentContractError "issue_url must be canonical https://github.com/owner/repo/issues/123")
    else
      match by_ref, by_url with
      | Some i, Some j => if bool_decide (i = j) then Ok (issue_ref i, issue_url i) else Err (AgentContractError "issue_ref and issue_url identify different issues")
      | Some i, None | None, Some i => Ok (issue_ref i, issue_url i)
      | None, None => Ok ("", "")   (* one of them is there and has matched *)
      end.

(** ** Identities *)

Definition identity_fields (d : object) : object := (λ f, (f, Str (Str.strip (Val.text (Val.get f d))))) <$> IDENTITY_FIELDS.

(** The loop over [STAGE_CONTEXT_FIELDS]. *)
Definition stage_value (f : string) (v : json) : result ContractExn json :=
  if String.eqb f "plan_revision" then
    match v with
    | Int n => if n <? 0 then Err (AgentContractError "plan_revision must be a non-negative integer") else Ok v
    | _ => Err (AgentContractError "plan_revision must be a non-negative integer")
    end
  else
    let s := Str.strip (Val.str v) in
    if Str.truthy s then Ok (Str s) else Err (AgentContractError (f +:+ " must be non-empty when provided")).
Fixpoint stage_fields (d : object) (fs : list string) : result ContractExn object :=
  match fs with
  | [] => Ok []
  | f :: fs' =>
      if Val.is_none (Val.get f d) then stage_fields d fs'
      else let? w := stage_value f (Val.get f d) in let? rest := stage_fields d fs' in Ok ((f, w) :: rest)
  end.

Definition is_capability (v : json) : bool := match v with Str s => Str.truthy (Str.strip s) | _ => false end.

Definition validate_identity (identity : json) (capabilities : option (list json)) : result ContractExn object :=
  match identity with
  | Obj d =>
      let ids := identity_fields d in
      let missing := List.filter (λ kv, negb (Val.truthy kv.2)) ids in
      if negb (bool_decide (missing = [])) then Err (AgentContractError ("agent identity missing: " +:+ Text.join ", " missing.*1))
      else
        let? raw_caps := match capabilities with Some l => Ok l | None => iterate (Val.or_else (Val.get "capabilities" d) (List [])) end in
        if negb (forallb is_capability raw_caps) then Err (AgentContractError "capabilities must contain non-empty strings")
        else
          let normalized := (λ v, Str.strip (Val.str v)) <$> raw_caps in
          if negb (bool_decide (NoDup normalized)) then Err (AgentContractError "duplicate capabilities are not allowed")
          else
            let unknown := sorted_set (List.filter (λ c, negb (bool_decide (c ∈ CAPABILITIES))) normalized) in
            if negb (bool_decide (unknown = [])) then Err (AgentContractError ("unsupported capabilities: " +:+ Text.join ", " unknown))
            else
              let? stage := stage_fields d STAGE_CONTEXT_FIELDS in
              Ok (ids ++ [("capabilities", List (Str <$> normalized)); ("protocol", Str (Val.str (Val.or_else (Val.get "protocol" d) (Str "simplicio-distributed/v1"))))] ++ stage)
  | _ => Err (AgentContractError "agent identity must be an object")
  end.

(** The four fields that say who a pack is for. *)
Definition assigned (normalized : object) : object := (λ f, (f, Val.get f normalized)) <$> IDENTITY_FIELDS.

(** ** Context packs *)

(** The loop of [validate_context_pack] over the stage fields. *)
Fixpoint copy_stage (pack normalized : object) (fs : list string) (res : object) : result ContractExn object :=
  match fs with
  | [] => Ok res
  | f :: fs' =>
      let expected := Val.get f normalized in
      let actual := Val.get f pack in
      if Val.is_none actual then copy_stage pack normalized fs' res
      else if negb (Val.is_none expected) && negb (Val.eq actual expected) then Err (AgentContractError ("context pack " +:+ f +:+ " does not match agent identity"))
      else copy_stage pack normalized fs' (dput f actual res)
  end.

(** The fields that every pack has. *)
Definition context_base (pack : object) (acs source_refs depends_on capabilities : list json) : object :=
  [("schema", Str (Val.str (Val.or_else (Val.get "schema" pack) (Str SCHEMA)))); ("task_id", Str (Str.strip (Val.text (Val.get "task_id" pack))));
   ("goal", Str (Str.strip (Val.text (Val.get "goal" pack)))); ("acs", List (texts acs)); ("source_refs", List (texts source_refs));
   ("depends_on", List (texts depends_on)); ("assigned_to", Val.get "assigned_to" pack); ("capabilities", List capabilities)].

Definition validate_context_pack (context_pack identity : json) : result ContractExn object :=
  match context_pack with
  | Obj pack =>
      let extra := sorted_set (List.filter (λ k, negb (bool_decide (k ∈ CONTEXT_FIELDS))) pack.*1) in
      if negb (bool_decide (extra = [])) then Err (AgentContractError ("context pack contains non-allow-listed fields: " +:+ Text.join ", " extra))
      else
        let? normalized := validate_identity identity None in
        if negb (Val.eq (Val.get "assigned_to" pack) (Obj (assigned normalized))) then Err (AgentContractError "context pack is assigned to another agent")
        else
          let? acs := iterate (Val.get_or "acs" pack (List [])) in
          let? source_refs := iterate (Val.get_or "source_refs" pack (List [])) in
          let? depends_on := iterate (Val.get_or "depends_on" pack (List [])) in
          let? capabilities := iterate (Val.or_else (Val.get "capabilities" pack) (List [])) in
          let? res := copy_stage pack normalized STAGE_CONTEXT_FIELDS (context_base pack acs source_refs depends_on capabilities) in
          let? issue := canonical_issue_fields (Val.get "issue_ref" pack) (Val.get "issue_url" pack) in
          let res := res ++ [("issue_ref", Str issue.1); ("issue_url", Str issue.2)] in
          if negb (Val.eq (Val.get "schema" res) (Str SCHEMA)) then Err (AgentContractError "unsupported context pack schema")
          else if negb (Val.truthy (Val.get "task_id" res)) then Err (AgentContractError "context pack task_id is required")
          else if negb (Val.truthy (Val.get "goal" res)) then Err (AgentContractError "context pack goal is required")
          else if negb (Val.eq (Val.get "capabilities" res) (Val.get "capabilities" normalized)) then
            Err (AgentContractError "context pack capabilities do not match assigned agent")
          else Ok res
  | _ => Err (AgentContractError "context pack must be an object")
  end.

(** The arguments of [build_context_pack]; [given] are the keyword arguments
    named as stage fields, where they are not [None]. *)
Record ContextArgs := mkArgs {
  ca_task_id : string;
  ca_goal : string;
  ca_acs : list string;
  ca_source_refs : list string;
  ca_depends_on : list string;
  ca_allowed_paths : list string;
  ca_issue_ref : string;
  ca_issue_url : string;
  ca_given : string → option json;
}.
#[export] Instance ContextArgs_eta : Eta ContextArgs := λ a,
  mkArgs (ca_task_id a) (ca_goal a) (ca_acs a) (ca_source_refs a) (ca_depends_on a) (ca_allowed_paths a) (ca_issue_ref a) (ca_issue_url a) (ca_given a).
Definition override (a : ContextArgs) (f : string) : option json := if String.eqb f "task_id" then Some (Str (ca_task_id a)) else ca_given a f.

Definition stripped (l : list string) : list string := List.filter Str.truthy (Str.strip <$> l).
Definition context_payload (a : ContextArgs) (normalized : object) : object :=
  let allow := stripped (ca_allowed_paths a) in
  let refs := List.filter (λ p, bool_decide (p ∈ allow)) (stripped (ca_source_refs a)) in
  let payload :=
    [("schema", Str SCHEMA); ("task_id", Str (Str.strip (ca_task_id a))); ("goal", Str (Str.strip (ca_goal a))); ("acs", List (Str <$> stripped (ca_acs a)));
     ("source_refs", List (Str <$> refs)); ("depends_on", List (Str <$> stripped (ca_depends_on a))); ("assigned_to", Obj (assigned normalized));
     ("capabilities", Val.get "capabilities" normalized); ("issue_ref", Str (Str.strip (ca_issue_ref a))); ("issue_url", Str (Str.strip (ca_issue_url a)))] in
  let payload := foldl (λ d f, match override a f with Some v => dput f v d | None => d end) payload STAGE_CONTEXT_FIELDS in
  foldl (λ d f, match dget f d, dget f normalized with None, Some v => dput f v d | _, _ => d end) payload STAGE_CONTEXT_FIELDS.

Definition build_context_pack (a : ContextArgs) (identity : json) : result ContractExn object :=
  let? normalized := validate_identity identity None in
  validate_context_pack (Obj (context_payload a normalized)) (Obj normalized).

(** ** Receipts *)

Fixpoint check_stage (receipt normalized : object) (fs : list string) : result ContractExn unit :=
  match fs with
  | [] => Ok tt
  | f :: fs' =>
      match dget f receipt, dget f normalized with
      | Some v, Some w => if negb (Val.eq v w) then Err (AgentContractError ("receipt " +:+ f +:+ " does not match agent identity")) else check_stage receipt normalized fs'
      | _, _ => check_stage receipt normalized fs'
      end
  end.
(** [for field in STAGE_CONTEXT_FIELDS: if field in source: result[field] = source[field]] *)
Definition take_stage (source res : object) : object :=
  foldl (λ d f, match dget f source with Some v => dput f v d | None => d end) res STAGE_CONTEXT_FIELDS.

Definition bind_receipt (receipt : object) (identity : json) (context_pack : option json) : result ContractExn object :=
  let? normalized := validate_identity identity None in
  let? _ := match Val.get "agent" receipt with
            | Null => Ok tt
            | existing => let? e := validate_identity existing None in
                          if negb (Val.eq (Obj e) (Obj normalized)) then Err (AgentContractError "receipt agent identity mismatch") else Ok tt
            end in
  let? _ := check_stage receipt normalized STAGE_CONTEXT_FIELDS in
  let res := dput "schema" (Val.or_else (Val.get "schema" receipt) (Str RECEIPT_SCHEMA)) receipt in
  let res := dput "agent" (Obj normalized) res in
  let res := if Val.eq (Val.get "schema" res) (Str RECEIPT_SCHEMA) then dput "legacy_unbound" (Bool true) res else res in
  let res := take_stage normalized res in
  match context_pack with
  | None => Ok res
  | Some pack =>
      let? context := validate_context_pack pack (Obj normalized) in
      let res := take_stage context (dput "context" (Obj context) res) in
      if Val.truthy (Val.get "issue_ref" context) then
        Ok (dput "issue_url" (Val.get "issue_url" context) (dput "issue_ref" (Val.get "issue_ref" context) res))
      else Ok res
  end.

(** ** Stages *)

Definition stage_char (c : Ascii.ascii) : bool :=
  let n := Ascii.nat_of_ascii c in ((97 <=? n) && (n <=? 122) || (48 <=? n) && (n <=? 57) || Nat.eqb n 95 || Nat.eqb n 45)%nat.
(** [_STAGE_ID_RE] *)
Definition is_stage_id (s : string) : bool :=
  match s with
  | String c s' => let n := Ascii.nat_of_ascii c in ((97 <=? n) && (n <=? 122))%nat && Text.all_chars stage_char s'
  | EmptyString => false
  end.

Definition validate_stage_identity (identity : object) : result ContractExn object :=
  let? base := validate_identity (Obj identity) None in
  let role_id := Str.strip (Val.text (Val.get "role_id" identity)) in
  let stage_id := Str.strip (Val.text (Val.get "stage_id" identity)) in
  let lifecycle := Str.strip (Val.str (Val.or_else (Val.get "lifecycle" identity) (Str "created"))) in
  if negb (is_stage_id role_id) then Err (AgentContractError "stage identity requires a valid role_id")
  else if negb (is_stage_id stage_id) then Err (AgentContractError "stage identity requires a valid stage_id")
  else if negb (bool_decide (lifecycle ∈ LIFECYCLE)) then Err (AgentContractError ("lifecycle must be one of: " +:+ Text.join ", " LIFECYCLE))
  else Ok (dput "lifecycle" (Str lifecycle) (dput "stage_id" (Str stage_id) (dput "role_id" (Str role_id) base))).

(** * Specification *)

(** What a pure function of the fields of a receipt says of the bound one. *)
Definition or_value {A} (m n : option A) : option A := match m with Some x => Some x | None => n end.
Definition stage_get (source : option object) (k : string) : option json :=
  if decide (k ∈ STAGE_CONTEXT_FIELDS) then d ← source; dget k d else None.
Definition issue_get (context : option object) (k : string) : option json :=
  d ← context;
  if Val.truthy (Val.get "issue_ref" d) && bool_decide (k ∈ ["issue_ref"; "issue_url"]) then Some (Val.get k d) else None.
Definition bound_schema (receipt : object) : json := Val.or_else (Val.get "schema" receipt) (Str RECEIPT_SCHEMA).
Definition binding_get (normalized receipt : object) (k : string) : option json :=
  if decide (k = "legacy_unbound") then (if Val.eq (bound_schema receipt) (Str RECEIPT_SCHEMA) then Some (Bool true) else dget k receipt)
  else if decide (k = "agent") then Some (Obj normalized)
  else if decide (k = "schema") then Some (bound_schema receipt)
  else dget k receipt.
Definition bound_get (normalized : object) (context : option object) (receipt : object) (k : string) : option json :=
  or_value (issue_get context k)
    (or_value (stage_get context k)
      (or_value (if decide (k = "context") then Obj <$> context else None)
        (or_value (stage_get (Some normalized) k) (binding_get normalized receipt k)))).

(** An identity as validation leaves it. *)
Definition identity_of (ids : string → string) (caps : list string) (protocol : string) (stage : object) : object :=
  ((λ f, (f, Str (ids f))) <$> IDENTITY_FIELDS) ++ [("capabilities", List (Str <$> caps)); ("protocol", Str protocol)] ++ stage.
Inductive canonical : object → Prop :=
| canonical_identity ids caps protocol stage d :
    (∀ f, f ∈ IDENTITY_FIELDS → Str.strip (ids f) = ids f ∧ ids f ≠ "") →
    NoDup caps → (∀ c, c ∈ caps → c ∈ CAPABILITIES) → protocol ≠ "" →
    stage_fields d STAGE_CONTEXT_FIELDS = Ok stage →
    canonical (identity_of ids caps protocol stage).

Definition demo_identity : object :=
  [("agent_id", Str " a1 "); ("runtime", Str "codex"); ("device_id", Str "d1"); ("session_id", Str "s1"); ("capabilities", List [Str "claim"; Str " receipts "]);
   ("stage_id", Str "execute "); ("plan_revision", Int 2); ("secret", Str "private")].
Definition demo_other : object := dput "agent_id" (Str "a2") demo_identity.
Definition demo_normal : object := ok_or [] (validate_identity (Obj demo_identity) None).
Definition demo_args : ContextArgs := mkArgs "T-1" " fix it " ["tests pass"] ["src/a.py "; "src/secret.py"] [] [" src/a.py"] "acme/app#7" "" (λ _, None).
Definition demo_pack : object := ok_or [] (build_context_pack demo_args (Obj demo_identity)).
Definition demo_receipt : object := [("verdict", Str "pass")].
Definition demo_bound : object := ok_or [] (bind_receipt demo_receipt (Obj demo_identity) (Some (Obj demo_pack))).

(** * Lemmas *)

Lemma stage_value_idemp f v w : stage_value f v = Ok w → stage_value f w = Ok w ∧ Val.is_none w = false ∧ Val.eq w w = true.
Proof.
  unfold stage_value. destruct (String.eqb f "plan_revision").
  - destruct v; try done. destruct (_ <? 0) eqn:E; [done|]. intros [= <-]. rewrite E. split; [done|]. split; [done|]. apply Z.eqb_refl.
  - destruct (Str.truthy _) eqn:E; [|done]. intros [= <-]. cbn [Val.str]. rewrite Str.strip_idemp, E. split; [done|]. split; [done|]. apply String.eqb_refl.
Qed.

Lemma stage_fields_cons d f fs : stage_fields d (f :: fs) =
  if Val.is_none (Val.get f d) then stage_fields d fs
  else let? w := stage_value f (Val.get f d) in let? rest := stage_fields d fs in Ok ((f, w) :: rest).
Proof. done. Qed.

Lemma stage_fields_keys d fs r : stage_fields d fs = Ok r → r.*1 `sublist_of` fs.
Proof.
  revert r. induction fs as [|f fs IH]; intros r; [intros [= <-]; constructor|]. rewrite stage_fields_cons.
  destruct (Val.is_none (Val.get _ _)); [intros H; apply sublist_cons; by apply IH|].
  intros (w & _ & (rest & Hr & [= <-])%rbind_Ok)%rbind_Ok. cbn. apply sublist_skip. by apply IH.
Qed.

Lemma stage_fields_elem d fs r f w : stage_fields d fs = Ok r → (f, w) ∈ r → stage_value f w = Ok w ∧ Val.is_none w = false ∧ Val.eq w w = true.
Proof.
  revert r. induction fs as [|f' fs IH]; intros r; [intros [= <-] H; by apply not_elem_of_nil in H|]. rewrite stage_fields_cons.
  destruct (Val.is_none (Val.get _ _)); [intros H ?; by eapply IH|].
  intros (w' & Hw & (rest & Hr & [= <-])%rbind_Ok)%rbind_Ok [[= -> ->]|H]%elem_of_cons; [by eapply stage_value_idemp|by eapply IH].
Qed.

(** The stage fields of an identity are validated to themselves. *)
Lemma stage_fields_ext d fs r : NoDup fs → stage_fields d fs = Ok r → ∀ d', (∀ f, f ∈ fs → dget f d' = dget f r) → stage_fields d' fs = Ok r.
Proof.
  intros Hnd. revert r. induction Hnd as [|f fs Hf Hnd IH]; intros r; [done|]. rewrite stage_fields_cons. intros Hr d' Hd'. rewrite stage_fields_cons.
  unfold Val.get at 1 2. rewrite Hd' by by left. destruct (Val.is_none (Val.get f d)).
  - pose proof (stage_fields_keys _ _ _ Hr) as Hk. rewrite (proj2 (dget_None f r)) by (intros H; apply Hf; by eapply elem_of_sublist).
    apply IH; [done|]. intros g Hg. apply Hd'. by right.
  - apply rbind_Ok in Hr as (w & Hw & (rest & Hrest & [= <-])%rbind_Ok). apply stage_value_idemp in Hw as (Hw & Hn & _).
    rewrite dget_cons, decide_True by done. change (default Null (Some w)) with w. rewrite Hn, Hw. cbn [rbind]. rewrite (IH rest Hrest); [done|].
    intros g Hg. rewrite Hd' by by right. rewrite dget_cons, decide_False; [done|]. by intros ->.
Qed.

Lemma STAGE_NoDup : NoDup STAGE_CONTEXT_FIELDS.
Proof. by_compute. Qed.

Lemma capability_strip c : c ∈ CAPABILITIES → Str.strip c = c ∧ Str.truthy c = true.
Proof. intros H. unfold CAPABILITIES in H. repeat (apply elem_of_cons in H as [->|H]; [done|]). by apply not_elem_of_nil in H. Qed.

(** ** Identities *)

Lemma dget_identity_stage ids caps protocol stage f :
  f ∈ STAGE_CONTEXT_FIELDS → dget f (identity_of ids caps protocol stage) = dget f stage.
Proof. intros H. unfold STAGE_CONTEXT_FIELDS in H. repeat (apply elem_of_cons in H as [->|H]; [reflexivity|]). by apply not_elem_of_nil in H. Qed.

Lemma identity_fields_canonical ids caps protocol stage :
  (∀ f, f ∈ IDENTITY_FIELDS → Str.strip (ids f) = ids f ∧ ids f ≠ "") →
  identity_fields (identity_of ids caps protocol stage) = (λ f, (f, Str (ids f))) <$> IDENTITY_FIELDS.
Proof.
  intros H. unfold identity_fields. apply list_fmap_ext. intros i f Hf%list_elem_of_lookup_2. destruct (H f Hf) as [Hs Hn].
  assert (Val.get f (identity_of ids caps protocol stage) = Str (ids f)) as ->.
  { clear H Hs Hn. unfold IDENTITY_FIELDS in Hf. repeat (apply elem_of_cons in Hf as [->|Hf]; [reflexivity|]). by apply not_elem_of_nil in Hf. }
  unfold Val.text. cbn [Val.truthy Val.str]. by rewrite (proj2 (Str.truthy_ne _) Hn), Hs.
Qed.

Lemma iterate_or_list l : iterate (Val.or_else (List l) (List [])) = Ok l.
Proof. unfold Val.or_else. by destruct l. Qed.

Lemma canonical_validate d : canonical d → validate_identity (Obj d) None = Ok d.
Proof.
  intros [ids caps protocol stage d0 Hids Hnd Hcaps Hp Hst]. unfold validate_identity. rewrite identity_fields_canonical by done.
  rewrite (proj2 (filter_nil _ _)).
  2:{ intros kv (f & -> & Hf)%list_elem_of_fmap. destruct (Hids f Hf) as [_ Hn]. cbn. by rewrite (proj2 (Str.truthy_ne _) Hn). }
  rewrite bool_decide_eq_true_2 by done. cbn [negb].
  change (Val.get "capabilities" (identity_of ids caps protocol stage)) with (List (Str <$> caps)). rewrite iterate_or_list. cbn [rbind].
  assert (forallb is_capability (Str <$> caps) = true) as ->.
  { apply forallb_forall. intros v Hv%list_elem_of_In. apply list_elem_of_fmap in Hv as (c & -> & Hc). destruct (capability_strip c) as [Hs Ht]; [by apply Hcaps|]. cbn. by rewrite Hs. }
  assert ((λ v, Str.strip (Val.str v)) <$> (Str <$> caps) = caps) as ->.
  { rewrite <- list_fmap_compose. rewrite <- (list_fmap_id caps) at 2. apply list_fmap_ext. intros i c Hc%list_elem_of_lookup_2. cbn. by apply capability_strip, Hcaps. }
  cbn [negb]. rewrite bool_decide_eq_true_2 by done. cbn [negb].
  rewrite (proj2 (filter_nil _ _)). 2:{ intros c Hc. rewrite bool_decide_eq_true_2; [done|by apply Hcaps]. }
  change (sorted_set []) with (@nil string). rewrite bool_decide_eq_true_2 by done. cbn [negb].
  rewrite (stage_fields_ext _ _ _ STAGE_NoDup Hst) by apply dget_identity_stage. cbn [rbind].
  change (Val.get "protocol" (identity_of ids caps protocol stage)) with (Str protocol).
  unfold Val.or_else. cbn [Val.truthy]. rewrite (proj2 (Str.truthy_ne _) Hp). done.
Qed.

Lemma validate_canonical v caps d : validate_identity v caps = Ok d → canonical d.
Proof.
  unfold validate_identity. destruct v as [| | | | | |o]; try done. destruct (negb _) eqn:E1; [done|]. zbool.
  intros (raw & _ & H)%rbind_Ok. destruct (negb (forallb _ _)) eqn:E2; [done|]. destruct (negb _) eqn:E3 in H; [done|]. destruct (negb _) eqn:E4 in H; [done|]. zbool.
  apply rbind_Ok in H as (stage & Hst & H). rewrite sorted_set_nil in E4.
  set (caps' := (λ v, Str.strip (Val.str v)) <$> raw) in *.
  assert (d = identity_of (λ f, Str.strip (Val.text (Val.get f o))) caps' (Val.str (Val.or_else (Val.get "protocol" o) (Str "simplicio-distributed/v1"))) stage) as ->
    by (injection H as <-; reflexivity).
  eapply (canonical_identity _ caps'); [|done|..].
  - intros f Hf. split; [apply Str.strip_idemp|]. apply Str.truthy_ne. rewrite filter_nil in E1.
    apply negb_false_iff. refine (E1 (f, Str (Str.strip (Val.text (Val.get f o)))) _). apply list_elem_of_fmap. by exists f.
  - intros c Hc. rewrite filter_nil in E4. specialize (E4 c Hc). zbool. done.
  - apply Val.str_nonempty. unfold Val.or_else. destruct (Val.truthy (Val.get "protocol" o)) eqn:E; [done|reflexivity].
  - done.
Qed.

Lemma validate_identity_idemp v caps d : validate_identity v caps = Ok d → validate_identity (Obj d) None = Ok d.
Proof. intros H. eapply canonical_validate, validate_canonical, H. Qed.

(** ** Issues *)

(** The characters of a name. *)
Definition plain_char (c : Ascii.ascii) : bool := negb (Ascii.eqb c Text.slash) && negb (Ascii.eqb c hash_char) && Str.solid c.
Lemma name_char_plain c : name_char c = true → plain_char c = true.
Proof. by destruct c as [[] [] [] [] [] [] [] []]. Qed.
Lemma digit_plain c : is_digit c = true → plain_char c = true.
Proof. by destruct c as [[] [] [] [] [] [] [] []]. Qed.
Lemma plain_chars (q : Ascii.ascii → bool) s : (∀ c, plain_char c = true → q c = true) → Text.all_chars plain_char s = true → Text.all_chars q s = true.
Proof. apply Text.all_chars_weaken. Qed.

Definition issue_ok (i : Issue) : Prop := is_name (owner i) = true ∧ is_name (repo i) = true ∧ is_number (number i) = true.

Lemma make_issue_Some o r n i : make_issue o r n = Some i ↔ i = mkIssue o r n ∧ issue_ok i.
Proof.
  unfold make_issue, issue_ok. destruct (is_name o) eqn:Eo, (is_name r) eqn:Er, (is_number n) eqn:En; cbn; split; intros H; simplify_eq; naive_solver congruence.
Qed.
Lemma is_name_plain s : is_name s = true → Text.all_chars plain_char s = true.
Proof. unfold is_name. intros [_ H]%andb_true_iff. by apply (Text.all_chars_weaken name_char), H; apply name_char_plain. Qed.
Lemma is_number_plain s : is_number s = true → Text.all_chars plain_char s = true.
Proof.
  destruct s as [|c s]; [done|]. cbn [is_number]. intros [[Hc _]%andb_true_iff H]%andb_true_iff. rewrite Text.all_chars_cons, digit_plain by done.
  apply (Text.all_chars_weaken is_digit), H. apply digit_plain.
Qed.

Lemma match_ref_ok s i : match_ref s = Some i → issue_ok i.
Proof.
  unfold match_ref. destruct (Text.partition Text.slash s) as [[o s']|]; [|done]. cbn. destruct (Text.partition hash_char s') as [[r n]|]; [|done]. cbn.
  by intros [_ H]%make_issue_Some.
Qed.
Lemma match_url_ok s i : match_url s = Some i → issue_ok i.
Proof.
  unfold match_url. destruct (strip_prefix ORIGIN s) as [s1|]; [|done]. cbn [mbind option_bind]. destruct (Text.partition Text.slash s1) as [[o s2]|]; [|done]. cbn [mbind option_bind].
  destruct (Text.partition Text.slash s2) as [[r s3]|]; [|done]. cbn [mbind option_bind]. destruct (strip_prefix "issues/" s3) as [s4|]; [|done]. cbn [mbind option_bind]. by intros [_ H]%make_issue_Some.
Qed.

Ltac not_sep := eapply plain_chars; [|eassumption]; unfold plain_char; intros ? ?; zbool; cbv beta; apply negb_true_iff; assumption.

Lemma match_issue_ref i : issue_ok i → match_ref (issue_ref i) = Some i.
Proof.
  intros (Ho & Hr & Hn). pose proof (is_name_plain _ Ho). pose proof (is_name_plain _ Hr). unfold match_ref.
  assert (issue_ref i = owner i +:+ String Text.slash (repo i +:+ String hash_char (number i))) as -> by done.
  rewrite Text.partition_first by not_sep. cbn [mbind option_bind].
  rewrite Text.partition_first by not_sep. cbn [mbind option_bind]. apply make_issue_Some. by destruct i.
Qed.
Lemma match_issue_url i : issue_ok i → match_url (issue_url i) = Some i.
Proof.
  intros (Ho & Hr & Hn). pose proof (is_name_plain _ Ho). pose proof (is_name_plain _ Hr). pose proof (is_number_plain _ Hn). unfold match_url.
  assert (issue_url i = ORIGIN +:+ (owner i +:+ String Text.slash (repo i +:+ String Text.slash ("issues/" +:+ number i)))) as -> by done.
  rewrite strip_prefix_app. cbn [mbind option_bind]. rewrite Text.partition_first by not_sep. cbn [mbind option_bind].
  rewrite Text.partition_first by not_sep. cbn [mbind option_bind]. rewrite strip_prefix_app.
  cbn [mbind option_bind]. rewrite Text.partition_none by not_sep. apply make_issue_Some. by destruct i.
Qed.

Lemma strip_issue i : issue_ok i → Str.strip (issue_ref i) = issue_ref i ∧ Str.strip (issue_url i) = issue_url i.
Proof.
  intros (Ho & Hr & Hn). apply is_name_plain in Ho, Hr. apply is_number_plain in Hn.
  assert (∀ s, Text.all_chars plain_char s = true → Text.all_chars Str.solid s = true) as Hs.
  { intros s. apply Text.all_chars_weaken. unfold plain_char. intros c [_ H]%andb_true_iff. done. }
  apply Hs in Ho, Hr, Hn. split; apply Text.strip_all_chars; unfold issue_ref, issue_url; rewrite !Text.all_chars_app, Ho, Hr, Hn; done.
Qed.

Lemma issue_truthy i : issue_ok i → Str.truthy (issue_ref i) = true ∧ Str.truthy (issue_url i) = true.
Proof. intros (Ho & _). unfold issue_ref, is_name in *. apply andb_true_iff in Ho as [Ho _]. split; [|done]. by destruct (owner i). Qed.

(** The fields of an issue are read as themselves. *)
Lemma canonical_issue_idemp ref url s t : canonical_issue_fields ref url = Ok (s, t) → canonical_issue_fields (Str s) (Str t) = Ok (s, t).
Proof.
  intros H. assert (s = "" ∧ t = "" ∨ ∃ i, issue_ok i ∧ s = issue_ref i ∧ t = issue_url i) as [[-> ->]|(i & Hi & -> & ->)]; [|done|].
  { unfold canonical_issue_fields in H. destruct (negb _ && negb _); [injection H as <- <-; by left|]. destruct (_ && bool_decide _); [done|]. destruct (_ && bool_decide _); [done|].
    pose proof (match_ref_ok (Str.strip (Val.text ref))) as H1. pose proof (match_url_ok (Str.strip (Val.text url))) as H2.
    destruct (Str.truthy (Str.strip (Val.text ref))), (Str.truthy (Str.strip (Val.text url)));
      try (destruct (match_ref _) as [i|]); try (destruct (match_url _) as [j|]); try (destruct (bool_decide _)); simplify_eq; naive_solver. }
  destruct (strip_issue i Hi) as [Hs Ht]. destruct (issue_truthy i Hi) as [Hs' Ht']. unfold canonical_issue_fields, Val.text. cbn [Val.truthy Val.str].
  rewrite Hs', Ht', Hs, Ht, Hs', Ht', match_issue_ref, match_issue_url by done. cbn [negb andb]. rewrite !bool_decide_eq_false_2 by done. by rewrite bool_decide_eq_true_2.
Qed.

(** ** Context packs *)

Lemma copy_stage_get pack n fs res res' k : copy_stage pack n fs res = Ok res' →
  dget k res' = if bool_decide (k ∈ fs) && negb (Val.is_none (Val.get k pack)) then Some (Val.get k pack) else dget k res.
Proof.
  revert res. induction fs as [|f fs IH]; intros res; [by intros [= <-]|]. cbn [copy_stage]. intros H. destruct (Val.is_none (Val.get f pack)) eqn:E.
  - rewrite (IH _ H). destruct (decide (k = f)) as [->|Hne]; [by rewrite E, !andb_false_r|]. by rewrite (bool_decide_ext (k ∈ f :: fs) (k ∈ fs)) by set_solver.
  - destruct (_ && _) in H; [done|]. rewrite (IH _ H), dget_put. destruct (decide (k = f)) as [->|Hne].
    + rewrite E, (bool_decide_eq_true_2 (f ∈ f :: fs)) by by left. by destruct (bool_decide _).
    + by rewrite (bool_decide_ext (k ∈ f :: fs) (k ∈ fs)) by set_solver.
Qed.

Lemma copy_stage_match pack n fs res res' f : copy_stage pack n fs res = Ok res' → f ∈ fs → Val.is_none (Val.get f pack) = false →
  Val.is_none (Val.get f n) = true ∨ Val.eq (Val.get f pack) (Val.get f n) = true.
Proof.
  revert res. induction fs as [|g fs IH]; intros res H Hf Hn; [by apply not_elem_of_nil in Hf|]. cbn [copy_stage] in H. apply elem_of_cons in Hf as [->|Hf].
  - rewrite Hn in H. destruct (Val.is_none (Val.get g n)); [by left|]. right. by destruct (Val.eq _ _).
  - destruct (Val.is_none (Val.get g pack)) in H; [by eapply IH|]. destruct (_ && _) in H; [done|]. by eapply IH.
Qed.

Lemma copy_stage_ext pack pack' n fs res : (∀ f, f ∈ fs → Val.get f pack' = Val.get f pack) → copy_stage pack' n fs res = copy_stage pack n fs res.
Proof.
  revert res. induction fs as [|f fs IH]; intros res H; [done|]. cbn [copy_stage]. rewrite H by by left.
  assert (∀ r, copy_stage pack' n fs r = copy_stage pack n fs r) as IH' by (intros r; apply IH; intros g Hg; apply H; by right). by rewrite !IH'.
Qed.

Lemma texts_idemp l : texts (texts l) = texts l.
Proof.
  unfold texts. f_equal. rewrite <- list_fmap_compose. set (g := λ x, Str.strip (Val.str x)).
  assert (∀ s, s ∈ List.filter Str.truthy (g <$> l) → Str.strip s = s ∧ Str.truthy s = true) as Hs.
  { intros s [(x & -> & _)%list_elem_of_fmap Ht]%elem_of_Listfilter. split; [apply Str.strip_idemp|done]. }
  set (m := List.filter Str.truthy (g <$> l)) in *. clearbody m.
  assert (fmap (M := list) (compose g Str) m = m) as ->.
  { rewrite <- (list_fmap_id m) at 2. apply list_fmap_ext. intros i s Hi%list_elem_of_lookup_2. cbn. unfold g. cbn. by apply Hs. }
  apply Listfilter_all. intros s Hi. by apply Hs.
Qed.

(** The success of the validation of a pack. *)
Inductive validated (pack : object) (identity : json) : object → Prop :=
| validated_pack n acs refs deps caps stage issue p :
    validate_identity identity None = Ok n →
    Val.eq (Val.get "assigned_to" pack) (Obj (assigned n)) = true →
    iterate (Val.get_or "acs" pack (List [])) = Ok acs →
    iterate (Val.get_or "source_refs" pack (List [])) = Ok refs →
    iterate (Val.get_or "depends_on" pack (List [])) = Ok deps →
    copy_stage pack n STAGE_CONTEXT_FIELDS (context_base pack acs refs deps caps) = Ok stage →
    canonical_issue_fields (Val.get "issue_ref" pack) (Val.get "issue_url" pack) = Ok issue →
    p = stage ++ [("issue_ref", Str issue.1); ("issue_url", Str issue.2)] →
    Val.eq (Val.get "schema" p) (Str SCHEMA) = true →
    Val.truthy (Val.get "task_id" p) = true →
    Val.truthy (Val.get "goal" p) = true →
    Val.eq (Val.get "capabilities" p) (Val.get "capabilities" n) = true →
    validated pack identity p.

Lemma validate_context_pack_Ok pack identity p : validate_context_pack (Obj pack) identity = Ok p → validated pack identity p.
Proof.
  unfold validate_context_pack. destruct (negb _); [done|]. intros (n & Hn & H)%rbind_Ok. destruct (Val.eq (Val.get "assigned_to" pack) _) eqn:Ea; [|done]. cbn [negb] in H.
  apply rbind_Ok in H as (acs & Hacs & (refs & Hrefs & (deps & Hdeps & (caps & Hcaps & (stage & Hstage & (issue & Hissue & H)%rbind_Ok)%rbind_Ok)%rbind_Ok)%rbind_Ok)%rbind_Ok).
  set (q := stage ++ _) in H. destruct (Val.eq (Val.get "schema" q) _) eqn:E1; [|done]. destruct (Val.truthy (Val.get "task_id" q)) eqn:E2; [|done].
  destruct (Val.truthy (Val.get "goal" q)) eqn:E3; [|done]. destruct (Val.eq (Val.get "capabilities" q) _) eqn:E4; [|done]. injection H as <-.
  by apply (validated_pack _ _ n acs refs deps caps stage issue).
Qed.

(** The fields of a validated pack. *)
Lemma validated_get pack n acs refs deps caps stage issue k :
  copy_stage pack n STAGE_CONTEXT_FIELDS (context_base pack acs refs deps caps) = Ok stage →
  dget k (stage ++ [("issue_ref", Str issue.1); ("issue_url", Str issue.2)]) =
  if bool_decide (k ∈ STAGE_CONTEXT_FIELDS) && negb (Val.is_none (Val.get k pack)) then Some (Val.get k pack)
  else match dget k (context_base pack acs refs deps caps) with
       | Some v => Some v
       | None => dget k [("issue_ref", Str issue.1); ("issue_url", Str issue.2)]
       end.
Proof. intros H. rewrite dget_app, (copy_stage_get _ _ _ _ _ k H). by destruct (_ && _). Qed.

Lemma context_fields : Forall (λ k, k ∈ CONTEXT_FIELDS) STAGE_CONTEXT_FIELDS ∧
  Forall (λ k, k ∈ CONTEXT_FIELDS) ["schema"; "task_id"; "goal"; "acs"; "source_refs"; "depends_on"; "assigned_to"; "capabilities"; "issue_ref"; "issue_url"].
Proof. split; by_compute. Qed.

Lemma validated_keys pack identity p : validated pack identity p → p.*1 ⊆ CONTEXT_FIELDS.
Proof.
  intros [n acs refs deps caps stage issue p' _ _ _ _ _ Hc _ -> _ _ _ _] k Hk. assert (dget k (stage ++ [("issue_ref", Str issue.1); ("issue_url", Str issue.2)]) ≠ None) as Hg by (intros Hg; by apply dget_None in Hg).
  rewrite (validated_get _ _ _ _ _ _ _ issue k Hc) in Hg. destruct (bool_decide _) eqn:E; cbn [andb] in Hg.
  - zbool. destruct context_fields as [H _]. rewrite Forall_forall in H. by apply H.
  - destruct context_fields as [_ H]. rewrite Forall_forall in H. apply H.
    change (k ∈ (context_base pack acs refs deps caps).*1 ++ ["issue_ref"; "issue_url"]). apply elem_of_app.
    destruct (dget k (context_base _ _ _ _ _)) eqn:Eb; [left; by eapply dget_Some_elem|]. right.
    destruct (dget k _) eqn:Ei in Hg; [|done]. by apply dget_Some_elem in Ei.
Qed.

Lemma bool_decide_keys_nil (p : object) : p.*1 ⊆ CONTEXT_FIELDS → sorted_set (List.filter (λ k, negb (bool_decide (k ∈ CONTEXT_FIELDS))) p.*1) = [].
Proof. intros H. apply sorted_set_nil, filter_nil. intros k Hk. rewrite bool_decide_eq_true_2; [done|by apply H]. Qed.

Lemma validated_stage pack identity p f : validated pack identity p → f ∈ STAGE_CONTEXT_FIELDS → Val.get f p = Val.get f pack.
Proof.
  intros [n acs refs deps caps stage issue p' _ _ _ _ _ Hc _ -> _ Ht _ _] Hf. unfold Val.get in Ht |- *. rewrite (validated_get _ _ _ _ _ _ _ _ _ Hc) in Ht. rewrite (validated_get _ _ _ _ _ _ _ _ _ Hc).
  rewrite bool_decide_eq_true_2 in Ht |- * by (done || (unfold STAGE_CONTEXT_FIELDS; by_compute)). cbn [andb] in *.
  destruct (Val.is_none (Val.get f pack)) eqn:E; [|done]. cbn [negb]. fold (Val.get f pack). assert (Val.get f pack = Null) as En by by destruct (Val.get f pack).
  rewrite En. destruct (decide (f = "task_id")) as [->|Hne].
  - rewrite E in Ht. change (Str.truthy (Str.strip (Val.text (Val.get "task_id" pack))) = true) in Ht. rewrite En in Ht. discriminate Ht.
  - unfold STAGE_CONTEXT_FIELDS in Hf. repeat (apply elem_of_cons in Hf as [->|Hf]; [first [done|reflexivity]|]). by apply not_elem_of_nil in Hf.
Qed.

Lemma validate_context_pack_idemp pack identity p : validate_context_pack (Obj pack) identity = Ok p → validate_context_pack (Obj p) identity = Ok p.
Proof.
  intros H%validate_context_pack_Ok. pose proof (validated_keys _ _ _ H) as Hk. pose proof (λ f, validated_stage _ _ _ f H) as Hst.
  destruct H as [n acs refs deps caps stage issue p Hn Ha _ _ _ Hc Hi Hp Hsc Ht Hg Hcap].
  assert (∀ k, k ∉ STAGE_CONTEXT_FIELDS → dget k p = match dget k (context_base pack acs refs deps caps) with Some v => Some v
    | None => dget k [("issue_ref", Str issue.1); ("issue_url", Str issue.2)] end) as Hget.
  { intros k Hk'. rewrite Hp, (validated_get _ _ _ _ _ _ _ _ k Hc). by rewrite bool_decide_eq_false_2. }
  assert (∀ k, k ∈ ["schema"; "goal"; "acs"; "source_refs"; "depends_on"; "assigned_to"; "capabilities"; "issue_ref"; "issue_url"] → k ∉ STAGE_CONTEXT_FIELDS) as Hno.
  { intros k. revert k. rewrite <- Forall_forall. by_compute. }
  assert (Val.get "assigned_to" p = Val.get "assigned_to" pack) as Eas by (unfold Val.get at 1; rewrite Hget; [done|apply Hno; by_compute]).
  assert (dget "acs" p = Some (List (texts acs))) as Eac by (rewrite Hget; [done|apply Hno; by_compute]).
  assert (dget "source_refs" p = Some (List (texts refs))) as Ere by (rewrite Hget; [done|apply Hno; by_compute]).
  assert (dget "depends_on" p = Some (List (texts deps))) as Ede by (rewrite Hget; [done|apply Hno; by_compute]).
  assert (Val.get "capabilities" p = List caps) as Eca by (unfold Val.get; rewrite Hget; [done|apply Hno; by_compute]).
  assert (Val.get "issue_ref" p = Str issue.1 ∧ Val.get "issue_url" p = Str issue.2) as [Eir Eiu].
  { split; unfold Val.get; rewrite Hget; first [done|apply Hno; by_compute]. }
  assert (context_base p (texts acs) (texts refs) (texts deps) caps = context_base pack acs refs deps caps) as Eb.
  { unfold context_base. rewrite !texts_idemp, Eas. rewrite (Hst "task_id") by (unfold STAGE_CONTEXT_FIELDS; by_compute).
    assert (Val.get "schema" p = Str (Val.str (Val.or_else (Val.get "schema" pack) (Str SCHEMA)))) as Es by (unfold Val.get at 1; rewrite Hget; [done|apply Hno; by_compute]).
    rewrite Es in Hsc. apply String.eqb_eq in Hsc. rewrite Es, Hsc.
    assert (Val.get "goal" p = Str (Str.strip (Val.text (Val.get "goal" pack)))) as Eg by (unfold Val.get at 1; rewrite Hget; [done|apply Hno; by_compute]).
    rewrite Eg, Val.text_Str, Str.strip_idemp. done. }
  unfold validate_context_pack. rewrite (bool_decide_keys_nil _ Hk), bool_decide_eq_true_2 by done. cbn [negb]. rewrite Hn. cbn [rbind]. rewrite Eas, Ha. cbn [negb].
  unfold Val.get_or. rewrite Eac, Ere, Ede. cbn [iterate Val.iter or_raise rbind]. rewrite Eca, iterate_or_list. cbn [rbind]. rewrite Eb, (copy_stage_ext pack), Hc by done. cbn [rbind].
  rewrite Eir, Eiu. rewrite (canonical_issue_idemp _ _ issue.1 issue.2 (eq_trans Hi (f_equal Ok (surjective_pairing issue)))). cbn [rbind fst snd]. rewrite <- Hp, Hsc, Ht, Hg. cbn [negb].
  rewrite Eca in Hcap |- *. by rewrite Hcap.
Qed.

Lemma validate_context_pack_identity v i j : validate_identity i None = validate_identity j None → validate_context_pack v i = validate_context_pack v j.
Proof. intros H. unfold validate_context_pack. by rewrite H. Qed.

Lemma assigned_canonical n : canonical n → ∃ ids, assigned n = (λ f, (f, Str (ids f))) <$> IDENTITY_FIELDS.
Proof. intros [ids caps protocol stage d _ _ _ _ _]. by exists ids. Qed.

Lemma assigned_eq n m : canonical n → canonical m → Val.eq (Obj (assigned n)) (Obj (assigned m)) = true → assigned n = assigned m.
Proof.
  intros [f ->]%assigned_canonical [g ->]%assigned_canonical H.
  change (String.eqb (f "agent_id") (g "agent_id") && (String.eqb (f "runtime") (g "runtime") && (String.eqb (f "device_id") (g "device_id") &&
    (String.eqb (f "session_id") (g "session_id") && true))) = true) in H.
  rewrite !andb_true_iff, !String.eqb_eq in H. destruct H as (H1 & H2 & H3 & H4 & _). cbn. by rewrite H1, H2, H3, H4.
Qed.

Lemma foldl_untouched (g : object → string → object) (k : string) : (∀ d f, k ≠ f → dget k (g d f) = dget k d) →
  ∀ fs d, k ∉ fs → dget k (foldl g d fs) = dget k d.
Proof. intros Hg fs. induction fs as [|f fs IH]; intros d Hk; [done|]. cbn. rewrite IH by set_solver. apply Hg. set_solver. Qed.

Lemma texts_stripped l : (∀ s, s ∈ l → Str.strip s = s ∧ Str.truthy s = true) → texts (Str <$> l) = Str <$> l.
Proof.
  intros H. unfold texts. rewrite <- list_fmap_compose. assert (fmap (M := list) (compose (λ x, Str.strip (Val.str x)) Str) l = l) as ->.
  { rewrite <- (list_fmap_id l) at 2. apply list_fmap_ext. intros i s Hi%list_elem_of_lookup_2. cbn. by apply H. }
  rewrite Listfilter_all; [done|]. intros s Hs. by apply H.
Qed.

Lemma stripped_elem s l : s ∈ stripped l → Str.strip s = s ∧ Str.truthy s = true.
Proof. unfold stripped. intros [(x & -> & _)%list_elem_of_fmap H]%elem_of_Listfilter. split; [apply Str.strip_idemp|done]. Qed.

(** What the payload holds outside the stage fields. *)
Lemma context_payload_get a n k : k ∉ STAGE_CONTEXT_FIELDS → dget k (context_payload a n) =
  dget k [("schema", Str SCHEMA); ("task_id", Str (Str.strip (ca_task_id a))); ("goal", Str (Str.strip (ca_goal a))); ("acs", List (Str <$> stripped (ca_acs a)));
     ("source_refs", List (Str <$> List.filter (λ p, bool_decide (p ∈ stripped (ca_allowed_paths a))) (stripped (ca_source_refs a)))); ("depends_on", List (Str <$> stripped (ca_depends_on a))); ("assigned_to", Obj (assigned n));
     ("capabilities", Val.get "capabilities" n); ("issue_ref", Str (Str.strip (ca_issue_ref a))); ("issue_url", Str (Str.strip (ca_issue_url a)))].
Proof.
  intros Hk. unfold context_payload. rewrite !foldl_untouched; try done.
  - intros d f Hf. destruct (override a f); [by apply dget_put_ne|done].
  - intros d f Hf. destruct (dget f d); [done|]. destruct (dget f n); [by apply dget_put_ne|done].
Qed.

(** ** Receipts *)

Lemma take_stage_get s r k : dget k (take_stage s r) = or_value (stage_get (Some s) k) (dget k r).
Proof.
  unfold take_stage, stage_get. cbn [mbind option_bind]. assert (∀ fs d, dget k (foldl (λ d f, match dget f s with Some v => dput f v d | None => d end) d fs) =
    or_value (if decide (k ∈ fs) then dget k s else None) (dget k d)) as ->; [|done].
  induction fs as [|f fs IH]; intros d; [done|]. cbn [foldl]. rewrite IH. destruct (decide (k = f)) as [->|Hne].
  - rewrite (decide_True (P := f ∈ f :: fs)) by by left. destruct (dget f s) eqn:E; [|by destruct (decide _)]. rewrite dget_put_eq. by destruct (decide _).
  - rewrite (decide_ext (k ∈ f :: fs) (k ∈ fs)) by set_solver. destruct (dget f s); [by rewrite dget_put_ne|done].
Qed.

(** The fields of a bound receipt. *)
Lemma bind_receipt_get receipt identity pack b : bind_receipt receipt identity pack = Ok b →
  ∃ n context, validate_identity identity None = Ok n ∧ check_stage receipt n STAGE_CONTEXT_FIELDS = Ok tt ∧
    match pack with Some v => ∃ p, validate_context_pack v (Obj n) = Ok p ∧ context = Some p | None => context = None end ∧
    ∀ k, dget k b = bound_get n context receipt k.
Proof.
  unfold bind_receipt. intros (n & Hn & ([] & _ & ([] & Hs & H)%rbind_Ok)%rbind_Ok)%rbind_Ok. set (r0 := dput "agent" _ _) in H.
  set (r1 := if Val.eq _ _ then _ else _) in H.
  assert (∀ k, dget k r1 = binding_get n receipt k) as H1.
  { intros k. assert (Val.get "schema" r0 = bound_schema receipt) as Es by (unfold r0, Val.get at 1; rewrite dget_put_ne, dget_put_eq by done; done). unfold r1. rewrite Es. unfold binding_get.
    destruct (Val.eq (bound_schema receipt) (Str RECEIPT_SCHEMA)).
    - rewrite dget_put. destruct (decide (k = "legacy_unbound")); [done|]. unfold r0. by rewrite !dget_put.
    - unfold r0. rewrite !dget_put. destruct (decide (k = "legacy_unbound")) as [->|]; [|done]. by rewrite !decide_False. }
  clearbody r1. clear r0. destruct pack as [v|].
  - apply rbind_Ok in H as (p & Hp & H). exists n, (Some p). split; [done|]. split; [done|]. split; [by exists p|]. intros k.
    set (r2 := take_stage p _) in H. assert (dget k r2 = or_value (stage_get (Some p) k) (or_value (if decide (k = "context") then Some (Obj p) else None) (or_value (stage_get (Some n) k) (binding_get n receipt k)))) as H2.
    { unfold r2. rewrite take_stage_get, dget_put, take_stage_get, H1. by destruct (decide (k = "context")). }
    unfold bound_get, issue_get. cbn [mbind option_bind]. clearbody r2. destruct (Val.truthy (Val.get "issue_ref" p)); injection H as <-; cbn [andb]; [|exact H2].
    rewrite !dget_put. destruct (decide (k = "issue_url")) as [->|Hu]; [by rewrite bool_decide_eq_true_2 by by_compute|].
    destruct (decide (k = "issue_ref")) as [->|Hr]; [by rewrite bool_decide_eq_true_2 by by_compute|].
    rewrite bool_decide_eq_false_2; [exact H2|]. intros [E|[E|E%not_elem_of_nil]%elem_of_cons]%elem_of_cons; done.
  - injection H as <-. exists n, None. split; [done|]. split; [done|]. split; [done|]. intros k. rewrite take_stage_get, H1. unfold bound_get, issue_get.
    assert (∀ k, stage_get None k = None) as -> by (intros; unfold stage_get; by destruct (decide _)). cbn [mbind option_bind or_value fmap option_fmap option_map]. by destruct (decide (k = "context")).
Qed.

(** A bound receipt has its own fields again when it is bound again. *)
Lemma bound_get_again n context receipt b : (∀ k, dget k b = bound_get n context receipt k) → ∀ k, bound_get n context b k = dget k b.
Proof.
  intros Hb k. assert (Val.get "schema" b = bound_schema receipt) as Es.
  { unfold Val.get. rewrite Hb. unfold bound_get, issue_get, stage_get. rewrite !decide_False by by_compute. destruct context; cbn [mbind option_bind]; by rewrite ?andb_false_r. }
  assert (bound_schema b = bound_schema receipt) as Esb.
  { unfold bound_schema at 1. rewrite Es. unfold bound_schema, Val.or_else at 1. destruct (Val.truthy _) eqn:E; [done|]. unfold bound_schema, Val.or_else in E |- *. by destruct (Val.truthy (Val.get "schema" receipt)) eqn:E'; [rewrite E' in E|]. }
  rewrite Hb. unfold bound_get at 1. unfold binding_get. rewrite Esb, Hb. unfold bound_get, binding_get.
  destruct (issue_get context k); [done|]. destruct (stage_get context k); [done|]. destruct (if decide (k = "context") then _ else _); [done|].
  destruct (stage_get (Some n) k); [done|]. cbn [or_value]. by repeat (destruct (decide _) || destruct (Val.eq _ _)).
Qed.

Lemma other_fields k : k ∈ ["agent_id"; "runtime"; "device_id"; "session_id"; "capabilities"; "protocol"; "context"; "issue_ref"; "issue_url"] → k ∉ STAGE_CONTEXT_FIELDS.
Proof. revert k. rewrite <- Forall_forall. by_compute. Qed.

Lemma canonical_refl n : canonical n → Val.eq (Obj n) (Obj n) = true.
Proof.
  intros [ids caps protocol stage d Hids _ _ _ Hst]. pose proof (stage_fields_keys _ _ _ Hst) as Hk. apply Val.eq_obj_refl.
  - unfold identity_of. rewrite !fmap_app. change (NoDup (["agent_id"; "runtime"; "device_id"; "session_id"; "capabilities"; "protocol"] ++ stage.*1)).
    apply NoDup_app. split; [by_compute|]. split; [|exact (sublist_NoDup _ _ STAGE_NoDup Hk)].
    intros k Hk1 Hk2. refine (other_fields k _ (elem_of_sublist _ _ _ Hk2 Hk)). change (k ∈ ["agent_id"; "runtime"; "device_id"; "session_id"; "capabilities"; "protocol"] ++ ["context"; "issue_ref"; "issue_url"]).
    apply elem_of_app. by left.
  - intros k v. unfold identity_of. rewrite !elem_of_app. intros [(f & [= -> ->] & _)%list_elem_of_fmap|[Hin|Hin]].
    + apply String.eqb_refl.
    + apply elem_of_cons in Hin as [[= -> ->]|[[= -> ->]|Hin%not_elem_of_nil]%elem_of_cons]; [|apply String.eqb_refl|done].
      apply Val.eq_list_refl. intros w (c & -> & _)%list_elem_of_fmap. apply String.eqb_refl.
    + by apply (stage_fields_elem _ _ _ k v Hst).
Qed.

(** The stage fields of an identity are there or they are not [None]. *)
Lemma canonical_stage n f w : canonical n → f ∈ STAGE_CONTEXT_FIELDS → dget f n = Some w → Val.is_none w = false ∧ Val.eq w w = true.
Proof.
  intros [ids caps protocol stage d _ _ _ _ Hst] Hf. rewrite dget_identity_stage by done. intros Hg%dget_Some_pair.
  by apply (stage_fields_elem _ _ _ f w Hst).
Qed.

Lemma check_stage_Ok receipt n fs : (∀ f v w, f ∈ fs → dget f receipt = Some v → dget f n = Some w → Val.eq v w = true) → check_stage receipt n fs = Ok tt.
Proof.
  induction fs as [|f fs IH]; intros H; [done|]. cbn [check_stage]. assert (check_stage receipt n fs = Ok tt) as Hfs by (apply IH; intros g v w Hg; apply H; by right).
  destruct (dget f receipt) as [v|] eqn:Ev; [|done]. destruct (dget f n) as [w|] eqn:Ew; [|done]. rewrite (H f v w); [done|by left|done|done].
Qed.

Lemma validated_stage_some pack identity p f v : validated pack identity p → f ∈ STAGE_CONTEXT_FIELDS → dget f p = Some v → Val.is_none v = false.
Proof.
  intros Hp Hf Hv. pose proof (validated_stage _ _ _ f Hp Hf) as Hs. destruct Hp as [n acs refs deps caps stage issue p' _ _ _ _ _ Hc _ -> _ Ht _ _].
  unfold Val.get at 1 in Hs. rewrite Hv in Hs. change (v = Val.get f pack) in Hs.
  rewrite (validated_get _ _ _ _ _ _ _ _ _ Hc), bool_decide_eq_true_2 in Hv by done. cbn [andb] in Hv. rewrite <- Hs in Hv.
  destruct (Val.is_none v) eqn:E; [|done]. cbn [negb] in Hv. destruct (decide (f = "task_id")) as [->|Hne]; [by injection Hv as <-|].
  unfold STAGE_CONTEXT_FIELDS in Hf. repeat (apply elem_of_cons in Hf as [->|Hf]; [first [done|discriminate Hv]|]). by apply not_elem_of_nil in Hf.
Qed.

(** A bound receipt passes the checks of its identity. *)
Lemma bound_receipt_checks receipt pack b n context : canonical n →
  match pack with Some v => ∃ p, validate_context_pack v (Obj n) = Ok p ∧ context = Some p | None => context = None end →
  (∀ k, dget k b = bound_get n context receipt k) →
  check_stage b n STAGE_CONTEXT_FIELDS = Ok tt.
Proof.
  intros Hn Hc Hb. apply check_stage_Ok. intros f v w Hf Hv Hw. destruct (canonical_stage n f w Hn Hf Hw) as [Hnone Hrefl].
  rewrite Hb in Hv. unfold bound_get in Hv. assert (issue_get context f = None) as Ei.
  { unfold issue_get. destruct context as [d|]; [|done]. cbn [mbind option_bind]. rewrite (bool_decide_eq_false_2 (f ∈ _)); [by rewrite andb_false_r|].
    intros Hi. refine (other_fields f _ Hf). do 7 right. exact Hi. }
  rewrite Ei in Hv. cbn [or_value] in Hv. destruct (stage_get context f) as [u|] eqn:Es.
  - cbn [or_value] in Hv. injection Hv as ->. unfold stage_get in Es. rewrite decide_True in Es by done.
    destruct context as [p|]; [|done]. cbn [mbind option_bind] in Es. destruct pack as [pk|]; [|done]. destruct Hc as (p' & Hp & [= <-]).
    destruct pk as [| | | | | |pk]; try done. pose proof (validate_context_pack_Ok _ _ _ Hp) as Hval. pose proof (validated_stage _ _ _ f Hval Hf) as Hst.
    assert (Val.get f p = v) as Ev by (unfold Val.get; by rewrite Es). assert (Val.get f n = w) as Ew by (unfold Val.get; by rewrite Hw).
    pose proof (validated_stage_some _ _ _ f v Hval Hf Es) as Env.
    destruct Hval as [n' acs refs deps caps stage issue p' Hn' _ _ _ _ Hcp _ _ _ _ _ _]. rewrite (canonical_validate n Hn) in Hn'. injection Hn' as <-.
    rewrite Hst in Ev.
    destruct (copy_stage_match _ _ _ _ _ f Hcp Hf) as [H|H]; [by rewrite Ev|by rewrite Ew, Hnone in H|by rewrite Ev, Ew in H].
  - cbn [or_value] in Hv. rewrite decide_False in Hv. 2:{ intros ->. refine (other_fields "context" _ Hf). by_compute. }
    cbn [or_value] in Hv. unfold stage_get in Hv. rewrite decide_True in Hv by done. cbn [mbind option_bind] in Hv. rewrite Hw in Hv. by injection Hv as <-.
Qed.

Lemma bind_receipt_agent receipt identity pack b n : bind_receipt receipt identity pack = Ok b → validate_identity identity None = Ok n → Val.get "agent" b = Obj n.
Proof.
  intros (n' & context & Hn & _ & _ & Hb)%bind_receipt_get Hn'. rewrite Hn in Hn'. injection Hn' as ->. unfold Val.get. rewrite Hb.
  unfold bound_get, issue_get, stage_get. rewrite !decide_False by by_compute. destruct context; cbn [mbind option_bind]; by rewrite ?andb_false_r.
Qed.

Lemma context_base_get pack acs refs deps caps :
  dget "source_refs" (context_base pack acs refs deps caps) = Some (List (texts refs)) ∧ dget "assigned_to" (context_base pack acs refs deps caps) = Some (Val.get "assigned_to" pack).
Proof. done. Qed.

Lemma context_payload_fields a n :
  dget "source_refs" (context_payload a n) = Some (List (Str <$> List.filter (λ p, bool_decide (p ∈ stripped (ca_allowed_paths a))) (stripped (ca_source_refs a)))) ∧
  dget "assigned_to" (context_payload a n) = Some (Obj (assigned n)).
Proof. by rewrite !context_payload_get by by_compute. Qed.

(** A receipt whose identity and stage fields pass is bound. *)
Lemma bind_receipt_ok receipt identity pack n context : validate_identity identity None = Ok n →
  Val.get "agent" receipt = Obj n → check_stage receipt n STAGE_CONTEXT_FIELDS = Ok tt →
  match pack with Some v => ∃ p, validate_context_pack v (Obj n) = Ok p ∧ context = Some p | None => context = None end →
  ∃ b, bind_receipt receipt identity pack = Ok b.
Proof.
  intros Hn Ha Hs Hp. pose proof (validate_canonical _ _ _ Hn) as Hc. unfold bind_receipt. rewrite Hn. cbn [rbind]. rewrite Ha, (canonical_validate n Hc). cbn [rbind].
  rewrite (canonical_refl n Hc). cbn [negb rbind]. rewrite Hs. cbn [rbind]. destruct pack as [v|]; [|by eexists].
  destruct Hp as (p & Hp & _). rewrite Hp. cbn [rbind]. destruct (Val.truthy (Val.get "issue_ref" p)); by eexists.
Qed.

Lemma pack_fields : "source_refs" ∉ STAGE_CONTEXT_FIELDS ∧ "assigned_to" ∉ STAGE_CONTEXT_FIELDS.
Proof. by_compute. Qed.

(** What a pack that is built holds. *)
Lemma validated_fields pack identity p : validated pack identity p →
  ∃ refs, iterate (Val.get_or "source_refs" pack (List [])) = Ok refs ∧ dget "source_refs" p = Some (List (texts refs)) ∧
    dget "assigned_to" p = Some (Val.get "assigned_to" pack).
Proof.
  destruct pack_fields as [N1 N2]. intros [n acs refs deps caps stage issue p' _ _ _ Hrefs _ Hc _ -> _ _ _ _]. exists refs. split; [exact Hrefs|].
  destruct (context_base_get pack acs refs deps caps) as [E1 E2].
  rewrite !(validated_get _ _ _ _ _ _ _ _ _ Hc), E1, E2. rewrite (bool_decide_eq_false_2 _ N1), (bool_decide_eq_false_2 _ N2). split; reflexivity.
Qed.

Lemma payload_refs a n refs : iterate (Val.get_or "source_refs" (context_payload a n) (List [])) = Ok refs →
  refs = Str <$> List.filter (λ p, bool_decide (p ∈ stripped (ca_allowed_paths a))) (stripped (ca_source_refs a)).
Proof. destruct (context_payload_fields a n) as [P1 P2]. unfold Val.get_or. rewrite P1. cbn [iterate Val.iter or_raise]. congruence. Qed.

Lemma texts_refs a : let refs := List.filter (λ p, bool_decide (p ∈ stripped (ca_allowed_paths a))) (stripped (ca_source_refs a)) in
  texts (Str <$> refs) = Str <$> refs.
Proof. intros refs. apply texts_stripped. intros s [Hs _]%elem_of_Listfilter. by eapply stripped_elem. Qed.

Lemma built_fields a n identity pack : validated (context_payload a n) identity pack →
  dget "source_refs" pack = Some (List (Str <$> List.filter (λ p, bool_decide (p ∈ stripped (ca_allowed_paths a))) (stripped (ca_source_refs a)))) ∧
  dget "assigned_to" pack = Some (Obj (assigned n)).
Proof.
  intros Hv. destruct (validated_fields _ _ _ Hv) as (refs & Hrefs & Er & Ea). destruct (context_payload_fields a n) as [_ P2].
  rewrite Er, Ea. unfold Val.get. rewrite P2. apply payload_refs in Hrefs. subst refs. pose proof (texts_refs a) as Ht. cbn zeta in Ht. rewrite Ht. done.
Qed.

(** * Properties *)

(** C34: Whatever an identity and its capabilities look like, the one that
    validation returns is normal: its four fields are non-empty and stripped, its
    capabilities are distinct and supported, its revision is a natural number;
    and validating it again changes nothing. *)
Theorem identity_normal v caps d : validate_identity v caps = Ok d → canonical d ∧ validate_identity (Obj d) None = Ok d.
Proof. intros H%validate_canonical. split; [done|by apply canonical_validate]. Qed.

(** A context pack that is built for a worker is isolated: it has no field
    outside the allow-list, its source references are exactly the given ones that
    are allowed, it names the worker's identity, it is valid for that worker
    without change, and a worker for whom it is valid has the same four fields. *)
Theorem context_isolated a identity pack : build_context_pack a identity = Ok pack →
  pack.*1 ⊆ CONTEXT_FIELDS ∧
  dget "source_refs" pack = Some (List (Str <$> List.filter (λ p, bool_decide (p ∈ stripped (ca_allowed_paths a))) (stripped (ca_source_refs a)))) ∧
  validate_context_pack (Obj pack) identity = Ok pack ∧
  ∃ n, validate_identity identity None = Ok n ∧ dget "assigned_to" pack = Some (Obj (assigned n)) ∧
    ∀ other p, validate_context_pack (Obj pack) other = Ok p → ∃ m, validate_identity other None = Ok m ∧ assigned m = assigned n.
Proof.
  unfold build_context_pack. intros (n & Hn & H)%rbind_Ok. pose proof (validate_identity_idemp _ _ _ Hn) as Hnn. pose proof (validate_canonical _ _ _ Hn) as Hcn.
  pose proof (validate_context_pack_idemp _ _ _ H) as Hagain. rewrite (validate_context_pack_identity _ (Obj n) identity) in Hagain by by rewrite Hnn, Hn.
  pose proof (validate_context_pack_Ok _ _ _ H) as Hv. split; [by eapply validated_keys|].
  destruct (built_fields _ _ _ _ Hv) as [Hr Ha].
  split; [done|]. split; [done|]. exists n. split; [done|]. split; [done|]. intros other p [m acs refs deps caps stage issue p' Hm Has _ _ _ _ _ _ _ _ _ _]%validate_context_pack_Ok.
  exists m. split; [done|]. symmetry. apply assigned_eq; [done|by eapply validate_canonical|]. unfold Val.get in Has. by rewrite Ha in Has.
Qed.

(** C38: A receipt that is bound to an identity stays with it: binding it again
    to the same identity and pack gives a receipt with the same fields, and
    binding it to another identity is the error of a mismatch, whatever the pack. *)
Theorem receipt_binding receipt identity pack b : bind_receipt receipt identity pack = Ok b →
  (∃ b', bind_receipt b identity pack = Ok b' ∧ ∀ k, dget k b' = dget k b) ∧
  ∃ n, validate_identity identity None = Ok n ∧
    ∀ other m pack', validate_identity other None = Ok m → Val.eq (Obj n) (Obj m) = false →
      bind_receipt b other pack' = Err (AgentContractError "receipt agent identity mismatch").
Proof.
  intros H. pose proof (bind_receipt_get _ _ _ _ H) as (n & context & Hn & _ & Hp & Hb). pose proof (bind_receipt_agent _ _ _ _ n H Hn) as Ha.
  pose proof (validate_canonical _ _ _ Hn) as Hc. split.
  - destruct (bind_receipt_ok b identity pack n context Hn Ha (bound_receipt_checks _ _ _ _ _ Hc Hp Hb) Hp) as [b' Hb']. exists b'. split; [done|]. intros k.
    destruct (bind_receipt_get _ _ _ _ Hb') as (n' & context' & Hn' & _ & Hp' & Hget). rewrite Hn in Hn'. injection Hn' as <-.
    assert (context' = context) as -> by (destruct pack; [destruct Hp as (p & Hp & ->), Hp' as (p' & Hp' & ->); congruence|congruence]).
    rewrite Hget. by eapply bound_get_again.
  - exists n. split; [done|]. intros other m pack' Hm Hne. unfold bind_receipt. rewrite Hm. cbn [rbind]. rewrite Ha, (canonical_validate n Hc). cbn [rbind]. by rewrite Hne.
Qed.

(** * Examples *)

Lemma identity_normal_witness : validate_identity (Obj demo_identity) None = Ok demo_normal ∧ validate_identity (Obj demo_normal) None = Ok demo_normal.
Proof.
  assert (validate_identity (Obj demo_identity) None = Ok demo_normal) as H by (vm_compute; reflexivity).
  split; [exact H|]. destruct (identity_normal _ _ _ H) as [_ Hi]. exact Hi.
Defined.

Lemma context_isolated_witness : build_context_pack demo_args (Obj demo_identity) = Ok demo_pack ∧
  dget "source_refs" demo_pack = Some (List [Str "src/a.py"]) ∧ demo_pack.*1 ⊆ CONTEXT_FIELDS.
Proof.
  assert (build_context_pack demo_args (Obj demo_identity) = Ok demo_pack) as H by (vm_compute; reflexivity).
  split; [exact H|]. split; [vm_compute; reflexivity|]. destruct (context_isolated _ _ _ H) as [Hk _]. exact Hk.
Defined.

Lemma receipt_binding_witness : bind_receipt demo_receipt (Obj demo_identity) (Some (Obj demo_pack)) = Ok demo_bound ∧
  (∃ b', bind_receipt demo_bound (Obj demo_identity) (Some (Obj demo_pack)) = Ok b' ∧ ∀ k, dget k b' = dget k demo_bound) ∧
  bind_receipt demo_bound (Obj demo_other) None = Err (AgentContractError "receipt agent identity mismatch").
Proof.
  assert (bind_receipt demo_receipt (Obj demo_identity) (Some (Obj demo_pack)) = Ok demo_bound) as H by (vm_compute; reflexivity).
  split; [exact H|]. split; [destruct (receipt_binding _ _ _ _ H) as [Hb _]; exact Hb|]. vm_compute. reflexivity.
Defined.

(** A blank task identifier is refused in a pack, but not by its builder. *)
Example blank_task_id :
  (∃ pack, build_context_pack (demo_args <| ca_task_id := "  " |>) (Obj demo_identity) = Ok pack ∧ Val.get "task_id" pack = Str "  ") ∧
  build_context_pack (demo_args <| ca_task_id := "" |>) (Obj demo_identity) = Err (AgentContractError "context pack task_id is required").
Proof.
  split; [|vm_compute; reflexivity]. exists (ok_or [] (build_context_pack (demo_args <| ca_task_id := "  " |>) (Obj demo_identity))). split; vm_compute; reflexivity.
Qed.
