(* ===== verification/HubScheduler.v ===== *)
(** The Hub's fair scheduler ([simplicio_loop/hub_scheduler.py]): deficit round
    robin over per-client queues, with hierarchical quotas, aging and a rollout
    policy. Deficits and gains are the code's floats counted in half units:
    every priority multiplier is a multiple of 0.5 and every other factor is an
    integer, so the floats are exact below 2^52 and [2 * x] is an integer. *)
From Stdlib Require Import QArith.
From S2P Require Import Prelude PyLib.
Local Open Scope Z_scope.
Local Open Scope py_scope.

(** * Definitions *)

(** [PRIORITY_GAIN_MULTIPLIER], in half units. *)
Definition PRIORITY_GAIN_MULTIPLIER : gmap string Z := list_to_map [
  ("interactive", 16); ("mapping", 8); ("llm", 4); ("test", 3);
  ("build", 2); ("background", 2); ("maintenance", 1)].
Definition DEFAULT_PRIORITY : string := "background".
Definition SCHEDULER_MODES : list string := ["off"; "shadow"; "canary"; "on"].
Definition LEGACY_POLICY_VERSION : string := "fifo-v1".
Definition FAIR_POLICY_VERSION : string := "fair-drr-v2".

(** The structured detail of a [QuotaExceededError]. *)
Record Backpressure := mkBackpressure {
  bp_scope : string;
  bp_limit : Z;
  bp_current : Z;
  bp_client_id : string;
  bp_workspace_id : string;
}.

(** The exceptions of the module; [UnknownPriority] is the [SchedulerError] whose
    text quotes the rejected class, [KeyError] and [IndexError] are the failing
    subscripts of the run time. *)
Inductive SchedulerExn : Type :=
| SchedulerError (msg : string)
| UnknownPriority (priority : string)
| QuotaExceededError (signal : Backpressure)
| KeyError (key : string)
| IndexError.

Record ScheduledJob := mkJob {
  task_id : string;
  client_id : string;
  weight : Z;
  cost : Z;
  workspace_id : string;
  priority : string;
  scheduler_policy : string;
}.
#[export] Instance ScheduledJob_eta : Eta ScheduledJob := λ j,
  mkJob (task_id j) (client_id j) (weight j) (cost j) (workspace_id j)
        (priority j) (scheduler_policy j).
#[export] Instance ScheduledJob_eq_dec : EqDecision ScheduledJob.
Proof. solve_decision. Defined.

Record SchedulerPolicy := mkPolicy {
  mode : string;
  version : string;
  previous_version : string;
  canary_percent : Z;
}.

(** [SchedulerPolicy.__post_init__] *)
Definition SchedulerPolicy_init (m v pv : string) (pct : Z) : result SchedulerExn SchedulerPolicy :=
  if negb (bool_decide (m ∈ SCHEDULER_MODES)) then
    Err (SchedulerError "scheduler policy mode must be off|shadow|canary|on")
  else if negb (Str.truthy v) || negb (Str.truthy pv) || negb ((0 <=? pct) && (pct <=? 100)) then
    Err (SchedulerError "scheduler policy versions and canary_percent are invalid")
  else if String.eqb m "canary" && ((pct =? 0) || (pct =? 100)) then
    Err (SchedulerError "canary mode requires canary_percent between 1 and 99")
  else Ok (mkPolicy m v pv pct).

(** The first eight hexadecimal digits of the SHA-256 of the task, modulo 100. *)
Definition canary_bucket (t : string) : Z :=
  Sha256.int16 (String.substring 0 8 (Sha256.hexdigest t)) mod 100.

Definition policy_for (p : SchedulerPolicy) (t : string) : string :=
  if String.eqb (mode p) "off" || String.eqb (mode p) "shadow" then previous_version p
  else if String.eqb (mode p) "on" then version p
  else if canary_bucket t <? canary_percent p then version p else previous_version p.

Inductive DecisionReceipt : Type :=
| ShadowReceipt (authority candidate : option string) (dispatched : Z)
| RolloutReceipt (from_policy to_policy : SchedulerPolicy) (rewritten authorities : Z).

Record FairScheduler := mkScheduler {
  max_inflight_per_client : Z;
  quantum : Z;
  max_queue_per_client : option Z;
  max_queue_per_workspace : option Z;
  max_global_queue : option Z;
  aging_ticks : Z;
  aging_boost : Z;
  policy : SchedulerPolicy;
  decision_receipts : list DecisionReceipt;
  queues : gmap string (list ScheduledJob);
  weights : gmap string Z;
  deficit : gmap string Z;
  inflight : gmap string Z;
  order : list string;
  cursor : nat;
  jobs : gmap string ScheduledJob;
  starvation_preventions : Z;
  client_total : gmap string Z;
  workspace_total : gmap string Z;
  global_total : Z;
  tick : Z;
  last_served_tick : gmap string Z;
  served_total : gmap string Z;
}.
#[export] Instance FairScheduler_eta : Eta FairScheduler := λ s,
  mkScheduler (max_inflight_per_client s) (quantum s) (max_queue_per_client s)
    (max_queue_per_workspace s) (max_global_queue s) (aging_ticks s) (aging_boost s)
    (policy s) (decision_receipts s) (queues s) (weights s) (deficit s) (inflight s)
    (order s) (cursor s) (jobs s) (starvation_preventions s) (client_total s)
    (workspace_total s) (global_total s) (tick s) (last_served_tick s) (served_total s).

Definition limit_ok (limit : option Z) : bool :=
  match limit with Some l => negb (l <? 1) | None => true end.

(** [FairScheduler.__init__] *)
Definition FairScheduler_init (max_inflight q : Z) (mqc mqw mgq : option Z)
    (ticks boost : Z) (p : SchedulerPolicy) : result SchedulerExn FairScheduler :=
  if (max_inflight <? 1) || (q <? 1) then Err (SchedulerError "scheduler limits must be positive")
  else if (ticks <? 1) || (boost <? 1) then Err (SchedulerError "aging parameters must be positive")
  else if negb (limit_ok mqc && limit_ok mqw && limit_ok mgq) then
    Err (SchedulerError "quota limits must be positive")
  else Ok (mkScheduler max_inflight q mqc mqw mgq ticks boost p [] ∅ ∅ ∅ ∅ [] 0 ∅ 0 ∅ ∅ 0 0 ∅ ∅).

Definition over_quota (limit : option Z) (current : Z) : option Z :=
  match limit with
  | Some l => if l <=? current then Some l else None
  | None => None
  end.

Definition check_quotas (s : FairScheduler) (job : ScheduledJob) : result SchedulerExn unit :=
  let refuse scope l current :=
    Err (QuotaExceededError (mkBackpressure scope l current (client_id job) (workspace_id job))) in
  match over_quota (max_global_queue s) (global_total s) with
  | Some l => refuse "global" l (global_total s)
  | None =>
    let current := get0 (workspace_total s) (workspace_id job) in
    match over_quota (max_queue_per_workspace s) current with
    | Some l => refuse "workspace" l current
    | None =>
      let current := get0 (client_total s) (client_id job) in
      match over_quota (max_queue_per_client s) current with
      | Some l => refuse "client" l current
      | None => Ok tt
      end
    end
  end.

(** The branch of [enqueue] that opens the books of a client seen first. *)
Definition open_client (s : FairScheduler) (c : string) : FairScheduler :=
  match queues s !! c with
  | Some _ => s
  | None =>
      s <| queues ::= <[c := []]> |> <| order ::= (λ l, l ++ [c]) |>
        <| deficit ::= <[c := 0]> |> <| inflight ::= <[c := 0]> |>
        <| last_served_tick ::= <[c := tick s]> |>
  end.

Definition enqueue (s : FairScheduler) (job : ScheduledJob) : result SchedulerExn FairScheduler :=
  if negb (Str.truthy (task_id job)) || negb (Str.truthy (client_id job))
     || (weight job <? 1) || (cost job <? 1) then
    Err (SchedulerError "job identity, weight and cost must be positive")
  else if negb (Str.truthy (workspace_id job)) then
    Err (SchedulerError "workspace_id must be non-empty")
  else match PRIORITY_GAIN_MULTIPLIER !! priority job with
  | None => Err (UnknownPriority (priority job))
  | Some _ =>
    let job :=
      if String.eqb (scheduler_policy job) FAIR_POLICY_VERSION
      then job <| scheduler_policy := policy_for (policy s) (task_id job) |> else job in
    match jobs s !! task_id job with
    | Some _ => Err (SchedulerError "duplicate task_id")
    | None =>
      let? _ := check_quotas s job in
      let c := client_id job in
      let s := s <| jobs ::= <[task_id job := job]> |> in
      let s := open_client s c in
      let s := s <| weights ::= <[c := Z.max (default 1 (weights s !! c)) (weight job)]> |> in
      let? q := or_raise (queues s !! c) (KeyError c) in
      Ok (s <| queues ::= <[c := q ++ [job]]> |>
            <| client_total ::= <[c := get0 (client_total s) c + 1]> |>
            <| workspace_total ::= <[workspace_id job := get0 (workspace_total s) (workspace_id job) + 1]> |>
            <| global_total ::= Z.succ |>)
    end
  end.

Definition release_slot (s : FairScheduler) (job : ScheduledJob) : FairScheduler :=
  let c := client_id job in
  let w := workspace_id job in
  s <| client_total ::= <[c := Z.max 0 (get0 (client_total s) c - 1)]> |>
    <| workspace_total ::= <[w := Z.max 0 (get0 (workspace_total s) w - 1)]> |>
    <| global_total := Z.max 0 (global_total s - 1) |>.

(** The bookkeeping of a dispatch, shared by the fair and the FIFO authority. *)
Definition dispatch (s : FairScheduler) (c : string) (rest : list ScheduledJob) (fl : Z) : FairScheduler :=
  s <| queues ::= <[c := rest]> |>
    <| inflight ::= <[c := fl + 1]> |>
    <| last_served_tick ::= <[c := tick s]> |>
    <| served_total ::= <[c := get0 (served_total s) c + 1]> |>.

(** One iteration of the [while] loop of [next]. *)
Definition visit (s : FairScheduler) : result SchedulerExn (FairScheduler * option ScheduledJob) :=
  let len := length (order s) in
  let? c := or_raise (order s !! (cursor s `mod` len)%nat) IndexError in
  let s := s <| cursor := ((cursor s + 1) `mod` len)%nat |> in
  let? queue := or_raise (queues s !! c) (KeyError c) in
  match queue with
  | [] => Ok (s, None)
  | job :: rest =>
      let? mult := or_raise (PRIORITY_GAIN_MULTIPLIER !! priority job) (KeyError (priority job)) in
      let gain := quantum s * default 1 (weights s !! c) * mult in
      let waited := tick s - default (tick s) (last_served_tick s !! c) in
      let aged := aging_ticks s <? waited in
      let gain := if aged then gain * aging_boost s else gain in
      let s := if aged then s <| starvation_preventions ::= Z.succ |> else s in
      let? d := or_raise (deficit s !! c) (KeyError c) in
      let s := s <| deficit ::= <[c := d + gain]> |> in
      let? fl := or_raise (inflight s !! c) (KeyError c) in
      if max_inflight_per_client s <=? fl then Ok (s, None)
      else if d + gain <? 2 * cost job then Ok (s, None)
      else
        let s := s <| deficit ::= <[c := d + gain - 2 * cost job]> |> in
        Ok (dispatch s c rest fl, Some job)
  end.

(** The loop, bounded by the code's own attempt counter. *)
Fixpoint scan (attempts : nat) (s : FairScheduler) : result SchedulerExn (FairScheduler * option ScheduledJob) :=
  match attempts with
  | O => Ok (s, None)
  | S n =>
      let? (s', r) := visit s in
      match r with
      | Some job => Ok (s', Some job)
      | None => scan n s'
      end
  end.

(** The [for offset in range(len(order))] loop of [_next_fifo], from [offset]. *)
Fixpoint fifo_scan (n : nat) (offset : nat) (s : FairScheduler) :
    result SchedulerExn (FairScheduler * option ScheduledJob) :=
  match n with
  | O => Ok (s, None)
  | S n' =>
      let len := length (order s) in
      let index := ((cursor s + offset) `mod` len)%nat in
      let? c := or_raise (order s !! index) IndexError in
      let? queue := or_raise (queues s !! c) (KeyError c) in
      match queue with
      | [] => fifo_scan n' (S offset) s
      | job :: rest =>
          let? fl := or_raise (inflight s !! c) (KeyError c) in
          if max_inflight_per_client s <=? fl then fifo_scan n' (S offset) s
          else Ok (dispatch (s <| cursor := ((index + 1) `mod` len)%nat |>) c rest fl, Some job)
      end
  end.

Definition next_fifo (s : FairScheduler) : result SchedulerExn (FairScheduler * option ScheduledJob) :=
  let s := s <| tick ::= Z.succ |> in
  fifo_scan (length (order s)) 0 s.

(** An entry of [eligible]: the projected deficit, the client's place in
    [_order] and its head job. *)
Definition Eligible : Type := (Z * nat * ScheduledJob).

Definition eligible_gt (x y : Eligible) : bool :=
  (y.1.1 <? x.1.1) || ((y.1.1 =? x.1.1) && (x.1.2 <? y.1.2)%nat).

Fixpoint eligible_from (s : FairScheduler) (i : nat) (clients : list string) : result SchedulerExn (list Eligible) :=
  match clients with
  | [] => Ok []
  | c :: clients' =>
      let? queue := or_raise (queues s !! c) (KeyError c) in
      match queue with
      | [] => eligible_from s (S i) clients'
      | job :: _ =>
          let? fl := or_raise (inflight s !! c) (KeyError c) in
          if max_inflight_per_client s <=? fl then eligible_from s (S i) clients'
          else
            let? mult := or_raise (PRIORITY_GAIN_MULTIPLIER !! priority job) (KeyError (priority job)) in
            let gain := quantum s * default 1 (weights s !! c) * mult in
            let? rest := eligible_from s (S i) clients' in
            Ok ((get0 (deficit s) c + gain - 2 * cost job, i, job) :: rest)
      end
  end.

Definition fair_candidate (s : FairScheduler) : result SchedulerExn (option ScheduledJob) :=
  let? l := eligible_from s 0 (order s) in
  Ok (snd <$> py_max eligible_gt l).

(** [deque(maxlen=100).append] *)
Definition push_receipt (r : DecisionReceipt) (l : list DecisionReceipt) : list DecisionReceipt :=
  let l' := l ++ [r] in drop (length l' - 100) l'.

Definition is_fifo_mode (s : FairScheduler) : bool :=
  String.eqb (mode (policy s)) "off" || String.eqb (mode (policy s)) "shadow".

Definition next (s : FairScheduler) : result SchedulerExn (FairScheduler * option ScheduledJob) :=
  match order s with
  | [] => Ok (s, None)
  | _ =>
      if is_fifo_mode s then
        let shadow := String.eqb (mode (policy s)) "shadow" in
        let? candidate := if shadow then fair_candidate s else Ok None in
        let? (s', authority) := next_fifo s in
        if shadow then
          let receipt := ShadowReceipt (task_id <$> authority) (task_id <$> candidate)
            (match authority with Some _ => 1 | None => 0 end) in
          Ok (s' <| decision_receipts ::= push_receipt receipt |>, authority)
        else Ok (s', authority)
      else
        let s := s <| tick ::= Z.succ |> in
        scan (length (order s) * 4) s
  end.

(** [preview_next]: runs [next] and restores the saved fields. *)
Definition preview_next (s : FairScheduler) : result SchedulerExn (FairScheduler * option ScheduledJob) :=
  let? (s', r) := next s in
  Ok (s' <| queues := queues s |> <| deficit := deficit s |> <| inflight := inflight s |>
         <| cursor := cursor s |> <| tick := tick s |>
         <| last_served_tick := last_served_tick s |> <| served_total := served_total s |>
         <| starvation_preventions := starvation_preventions s |>, r).

Definition complete (s : FairScheduler) (t : string) : result SchedulerExn FairScheduler :=
  match jobs s !! t with
  | None => Err (SchedulerError "unknown task")
  | Some job =>
      let c := client_id job in
      let? fl := or_raise (inflight s !! c) (KeyError c) in
      let s := s <| inflight ::= <[c := Z.max 0 (fl - 1)]> |> in
      let s := release_slot s job in
      Ok (s <| jobs ::= delete t |>)
  end.

Definition cancel (s : FairScheduler) (t : string) : result SchedulerExn (FairScheduler * bool) :=
  match jobs s !! t with
  | None => Ok (s, false)
  | Some job =>
      let c := client_id job in
      let? queue := or_raise (queues s !! c) (KeyError c) in
      let s := release_slot s job in
      let s := s <| queues ::= <[c := filter (λ item, task_id item ≠ t) queue]> |> in
      Ok (s <| jobs ::= delete t |>, true)
  end.

(** [_jains_fairness_index], as the exact rational the float approximates. *)
Definition jains_fairness_index (s : FairScheduler) : Q :=
  let served := (λ c, get0 (served_total s) c) <$> order s in
  match served with
  | [] => 1%Q
  | _ =>
      let total := zsum served in
      let total_sq := zsum ((λ v, v * v) <$> served) in
      if total_sq =? 0 then 1%Q
      else (inject_Z (total * total) / inject_Z (Z.of_nat (length served) * total_sq))%Q
  end.

Definition configure_policy (s : FairScheduler) (p : SchedulerPolicy) : FairScheduler * DecisionReceipt :=
  let receipt := RolloutReceipt (policy s) p 0 1 in
  (s <| policy := p |> <| decision_receipts ::= push_receipt receipt |>, receipt).

(** The counters [status] publishes. *)
Record SchedulerStatus := mkStatus {
  st_clients : Z;
  st_queued : Z;
  st_inflight : gmap string Z;
  st_deficit : gmap string Z;
  st_starvation_preventions : Z;
  st_limits : list (option Z);
  st_client_total : gmap string Z;
  st_workspace_total : gmap string Z;
  st_global_total : Z;
  st_tick : Z;
  st_served_total : gmap string Z;
  st_jains_fairness_index : Q;
  st_policy : SchedulerPolicy;
  st_decision_receipts : list DecisionReceipt;
}.

Definition status (s : FairScheduler) : SchedulerStatus :=
  mkStatus (Z.of_nat (length (order s)))
    (msum (λ q, Z.of_nat (length q)) (queues s))
    (inflight s) (deficit s) (starvation_preventions s)
    [Some (max_inflight_per_client s); max_queue_per_client s; max_queue_per_workspace s;
     max_global_queue s; Some (quantum s); Some (aging_ticks s); Some (aging_boost s)]
    (client_total s) (workspace_total s) (global_total s) (tick s) (served_total s)
    (jains_fairness_index s) (policy s) (decision_receipts s).

(** * Specification *)

Definition valid_job (j : ScheduledJob) : Prop :=
  task_id j ≠ "" ∧ client_id j ≠ "" ∧ workspace_id j ≠ "" ∧ 1 <= weight j ∧ 1 <= cost j ∧
  is_Some (PRIORITY_GAIN_MULTIPLIER !! priority j).

Definition of_client (c : string) (j : ScheduledJob) : bool := String.eqb (client_id j) c.
Definition of_workspace (w : string) (j : ScheduledJob) : bool := String.eqb (workspace_id j) w.

(** What every sequence of calls preserves: the order and the per-client dicts
    have the same clients, the queues hold valid jobs of their own client, and the
    totals count the live jobs. *)
Record sound (s : FairScheduler) : Prop := {
  sd_config : 1 <= max_inflight_per_client s ∧ 1 <= quantum s ∧ 1 <= aging_boost s;
  sd_nodup : NoDup (order s);
  sd_order c : c ∈ order s ↔ is_Some (queues s !! c);
  sd_deficit c : c ∈ order s → ∃ d, deficit s !! c = Some d ∧ 0 <= d;
  sd_inflight c : c ∈ order s →
    ∃ n, inflight s !! c = Some n ∧ 0 <= n <= max_inflight_per_client s;
  sd_weights c : 1 <= default 1 (weights s !! c);
  sd_queue c q j : queues s !! c = Some q → j ∈ q → client_id j = c ∧ valid_job j;
  sd_jobs t j : jobs s !! t = Some j → task_id j = t ∧ valid_job j ∧ client_id j ∈ order s;
  sd_client_total c : get0 (client_total s) c = mcount (of_client c) (jobs s);
  sd_workspace_total w : get0 (workspace_total s) w = mcount (of_workspace w) (jobs s);
  sd_global_total : global_total s = Z.of_nat (size (jobs s));
}.

(** The sharper books of a caller that completes what it was handed and cancels
    what waits: a queue holds live jobs, each once, and every live job of a client
    is either queued or in flight. *)
Record live (s : FairScheduler) : Prop := {
  lv_queue c q j : queues s !! c = Some q → j ∈ q → jobs s !! task_id j = Some j;
  lv_nodup c q : queues s !! c = Some q → NoDup (task_id <$> q);
  lv_account c q : queues s !! c = Some q →
    mcount (of_client c) (jobs s) = Z.of_nat (length q) + get0 (inflight s) c;
}.

Record wf (s : FairScheduler) : Prop := { wf_sound :> sound s; wf_live :> live s }.

Definition within (limit : option Z) (n : Z) : Prop :=
  match limit with Some l => n <= l | None => True end.

(** No scope ever holds more live jobs than its quota. *)
Definition quotas_hold (s : FairScheduler) : Prop :=
  within (max_global_queue s) (global_total s) ∧
  (∀ w, within (max_queue_per_workspace s) (get0 (workspace_total s) w)) ∧
  (∀ c, within (max_queue_per_client s) (get0 (client_total s) c)).

Definition queued (s : FairScheduler) (t : string) : Prop :=
  ∃ c q j, queues s !! c = Some q ∧ j ∈ q ∧ task_id j = t.
Definition in_flight (s : FairScheduler) (t : string) : Prop :=
  is_Some (jobs s !! t) ∧ ¬ queued s t.

(** The calls of the scheduler; one that raises leaves it as it was. *)
Inductive Call :=
  | Enqueue (j : ScheduledJob)
  | Next
  | PreviewNext
  | Complete (t : string)
  | Cancel (t : string)
  | ConfigurePolicy (p : SchedulerPolicy).

Definition apply_call (s : FairScheduler) (c : Call) : result SchedulerExn FairScheduler :=
  match c with
  | Enqueue j => enqueue s j
  | Next => let? (s', _) := next s in Ok s'
  | PreviewNext => let? (s', _) := preview_next s in Ok s'
  | Complete t => complete s t
  | Cancel t => let? (s', _) := cancel s t in Ok s'
  | ConfigurePolicy p => Ok (configure_policy s p).1
  end.

(** Any call at all. *)
Definition step (s s' : FairScheduler) : Prop := ∃ c, apply_call s c = Ok s'.

Definition reachable (s : FairScheduler) : Prop :=
  ∃ mi q mqc mqw mgq ticks boost p s0,
    FairScheduler_init mi q mqc mqw mgq ticks boost p = Ok s0 ∧ rtc step s0 s.

(** A call of a caller that completes only jobs in flight and cancels only jobs
    that still wait; the scheduler itself asks for neither. *)
Definition orderly_call (s : FairScheduler) (c : Call) : Prop :=
  match c with
  | Complete t => in_flight s t
  | Cancel t => ¬ in_flight s t
  | _ => True
  end.

Definition orderly_step (s s' : FairScheduler) : Prop :=
  ∃ c, orderly_call s c ∧ apply_call s c = Ok s'.

Definition orderly (s : FairScheduler) : Prop :=
  ∃ mi q mqc mqw mgq ticks boost p s0,
    FairScheduler_init mi q mqc mqw mgq ticks boost p = Ok s0 ∧ rtc orderly_step s0 s.

(** [n] calls of [next]; the jobs they dispatched, oldest first. *)
Fixpoint run_next (n : nat) (s : FairScheduler) : result SchedulerExn (FairScheduler * list ScheduledJob) :=
  match n with
  | O => Ok (s, [])
  | S n' =>
      let? (s', r) := next s in
      let? (s'', l) := run_next n' s' in
      Ok (s'', match r with Some j => j :: l | None => l end)
  end.

(** The client at the cursor, after the loop moved on. *)
Definition moved (s : FairScheduler) : FairScheduler :=
  s <| cursor := ((cursor s + 1) `mod` length (order s))%nat |>.

(** What no dispatch decision changes: the limits, the policy, the live jobs
    and the totals the quotas are checked against. *)
Definition frame (s : FairScheduler) :=
  ((max_inflight_per_client s, quantum s, aging_ticks s, aging_boost s, policy s),
   (max_queue_per_client s, max_queue_per_workspace s, max_global_queue s),
   (jobs s, client_total s, workspace_total s, global_total s), (weights s, order s)).

(** Registering a fresh job of a known client. *)
Definition add_job (s : FairScheduler) (q : list ScheduledJob) (job : ScheduledJob) : FairScheduler :=
  let c := client_id job in
  s <| jobs ::= <[task_id job := job]> |>
    <| weights ::= <[c := Z.max (default 1 (weights s !! c)) (weight job)]> |>
    <| queues ::= <[c := q ++ [job]]> |>
    <| client_total ::= <[c := get0 (client_total s) c + 1]> |>
    <| workspace_total ::= <[workspace_id job := get0 (workspace_total s) (workspace_id job) + 1]> |>
    <| global_total ::= Z.succ |>.

(** The job [enqueue] stores: pinned to the policy in force when it asked for
    the default one. *)
Definition pinned (s : FairScheduler) (job : ScheduledJob) : ScheduledJob :=
  if String.eqb (scheduler_policy job) FAIR_POLICY_VERSION
  then job <| scheduler_policy := policy_for (policy s) (task_id job) |> else job.

(** A dispatch takes the head of one queue and occupies one slot. *)
Definition dispatched (s s' : FairScheduler) (r : option ScheduledJob) : Prop :=
  match r with
  | None => queues s' = queues s ∧ inflight s' = inflight s
  | Some job => ∃ rest n,
      queues s !! client_id job = Some (job :: rest) ∧
      inflight s !! client_id job = Some n ∧ n < max_inflight_per_client s ∧
      queues s' = <[client_id job := rest]> (queues s) ∧
      inflight s' = <[client_id job := n + 1]> (inflight s)
  end.

(** Cursor steps from [r] to [i] in a ring of [len]. *)
Definition ring_dist (i r len : nat) : nat := if (r <=? i)%nat then (i - r)%nat else (i + len - r)%nat.

(** The head [job] of client [c], the [i]-th of the order, could go out now
    but for its deficit [d]. *)
Definition waiting (s : FairScheduler) (i : nat) (c : string) (job : ScheduledJob)
    (rest : list ScheduledJob) (fl d : Z) : Prop :=
  order s !! i = Some c ∧ queues s !! c = Some (job :: rest) ∧
  inflight s !! c = Some fl ∧ fl < max_inflight_per_client s ∧ deficit s !! c = Some d.

(** Loop iterations that can pass before [job] goes out. *)
Definition delay (s : FairScheduler) (i : nat) (job : ScheduledJob) (d : Z) : Z :=
  Z.max 0 (2 * cost job - d) * Z.of_nat (length (order s)) +
  Z.of_nat (ring_dist i (cursor s `mod` length (order s)) (length (order s))).

(** A small population for the examples: client [a] has one job in flight and two waiting,
    client [b] one waiting. *)
Definition demo_job (t c : string) (k : Z) : ScheduledJob :=
  mkJob t c 1 k "w" "background" FAIR_POLICY_VERSION.
Definition demo_policy : SchedulerPolicy := mkPolicy "on" FAIR_POLICY_VERSION LEGACY_POLICY_VERSION 100.
Definition demo0 : FairScheduler :=
  mkScheduler 2 1 (Some 4) (Some 8) (Some 9) 5 4 demo_policy [] ∅ ∅ ∅ ∅ [] 0 ∅ 0 ∅ ∅ 0 0 ∅ ∅.
Definition demo1 : FairScheduler := ok_or demo0 (enqueue demo0 (demo_job "a1" "a" 1)).
Definition demo2 : FairScheduler := ok_or demo0 (enqueue demo1 (demo_job "a2" "a" 3)).
Definition demo3 : FairScheduler := ok_or demo0 (enqueue demo2 (demo_job "b1" "b" 1)).
Definition demo4 : FairScheduler := ok_or demo0 (enqueue demo3 (demo_job "a3" "a" 2)).
Definition demo : FairScheduler := (ok_or (demo0, None) (next demo4)).1.

(** * Invariant preservation *)

Lemma wf_init mi q mqc mqw mgq ticks boost p s :
  FairScheduler_init mi q mqc mqw mgq ticks boost p = Ok s → wf s ∧ quotas_hold s.
Proof.
  unfold FairScheduler_init. intros H.
  destruct ((mi <? 1) || (q <? 1)) eqn:E1; [done|].
  destruct ((ticks <? 1) || (boost <? 1)) eqn:E2; [done|].
  destruct (negb _) eqn:E3; [done|]. zbool. injection H as <-. split.
  - split; constructor; simpl; try done.
    + constructor.
    + intros c. split; [set_solver|]. by intros [x Hx].
    + set_solver.
    + set_solver.
  - unfold limit_ok in *.
    repeat split; [|intros c|intros c]; unfold within; simpl;
      repeat case_match; try done; zbool; unfold get0; rewrite ?lookup_empty; simpl; lia.
Qed.

Lemma multiplier_pos p m : PRIORITY_GAIN_MULTIPLIER !! p = Some m → 1 <= m.
Proof.
  assert (map_Forall (λ _ m, 1 <= m) PRIORITY_GAIN_MULTIPLIER) as H.
  { refine (bool_decide_unpack _ _). vm_compute. done. }
  apply H.
Qed.

(** The effect of the loop body on well-formed books: it raises nothing. *)
Lemma visit_cases s :
  sound s → order s ≠ [] → ∃ c q d fl,
    order s !! (cursor s `mod` length (order s))%nat = Some c ∧
    queues s !! c = Some q ∧ deficit s !! c = Some d ∧ inflight s !! c = Some fl ∧
    ((q = [] ∧ visit s = Ok (moved s, None)) ∨
     ∃ job rest g p, q = job :: rest ∧ 1 <= g ∧
       let s1 := (moved s) <| starvation_preventions := p |> in
       (((max_inflight_per_client s <= fl ∨ d + g < 2 * cost job) ∧
         visit s = Ok (s1 <| deficit ::= <[c := d + g]> |>, None)) ∨
        (fl < max_inflight_per_client s ∧ 2 * cost job <= d + g ∧
         visit s = Ok (dispatch (s1 <| deficit ::= <[c := d + g]> |>
                                    <| deficit ::= <[c := d + g - 2 * cost job]> |>) c rest fl,
                       Some job)))).
Proof.
  intros Hwf Hne.
  assert (cursor s `mod` length (order s) < length (order s))%nat as Hlt.
  { apply Nat.mod_upper_bound. by destruct (order s). }
  destruct (lookup_lt_is_Some_2 _ _ Hlt) as [c Hc].
  assert (c ∈ order s) as Hin by (by eapply list_elem_of_lookup_2).
  destruct (proj1 (sd_order s Hwf c) Hin) as [q Hq].
  destruct (sd_deficit s Hwf c Hin) as (d & Hd & Hd0).
  destruct (sd_inflight s Hwf c Hin) as (fl & Hfl & Hfl0).
  exists c, q, d, fl. do 4 (split; [done|]).
  unfold visit. rewrite Hc. simpl. rewrite Hq. simpl.
  destruct q as [|job rest]; [by left|right].
  destruct (sd_queue s Hwf c _ job Hq) as [_ (_ & _ & _ & _ & _ & [m Hm])]; [by left|].
  rewrite Hm. simpl.
  destruct (sd_config s Hwf) as (_ & Hqu & Hbo).
  pose proof (multiplier_pos _ _ Hm) as Hm1.
  pose proof (sd_weights s Hwf c) as Hw.
  set (g0 := quantum s * default 1 (weights s !! c) * m).
  assert (1 <= g0) as Hg0 by (unfold g0; nia).
  destruct (aging_ticks s <? _); simpl; rewrite Hd; simpl; rewrite Hfl; simpl.
  - exists job, rest, (g0 * aging_boost s), (Z.succ (starvation_preventions s)).
    split; [done|]. split; [nia|].
    destruct (Z.leb_spec (max_inflight_per_client s) fl); [left; split; [by left|done]|].
    destruct (Z.ltb_spec (d + g0 * aging_boost s) (2 * cost job)); [left; split; [by right|done]|].
    by right.
  - exists job, rest, g0, (starvation_preventions s).
    split; [done|]. split; [done|].
    destruct (Z.leb_spec (max_inflight_per_client s) fl); [left; split; [by left|done]|].
    destruct (Z.ltb_spec (d + g0) (2 * cost job)); [left; split; [by right|done]|].
    by right.
Qed.

(** Moving the cursor, the clock or the statistics does not touch the books. *)
Lemma sound_cursor_only s n p t :
  sound s → sound (s <| cursor := n |> <| starvation_preventions := p |> <| tick := t |>).
Proof. intros []. by constructor. Qed.

Lemma sound_deficit_set s c d :
  sound s → c ∈ order s → 0 <= d → sound (s <| deficit ::= <[c := d]> |>).
Proof.
  intros [] Hc Hd. constructor; simpl; try done.
  intros c' Hc'. rewrite lookup_insert. case_decide; [by exists d|auto].
Qed.

Lemma sound_dispatch s c job rest fl :
  sound s → queues s !! c = Some (job :: rest) → inflight s !! c = Some fl →
  fl < max_inflight_per_client s → sound (dispatch s c rest fl).
Proof.
  intros Hwf Hq Hfl Hlt.
  assert (c ∈ order s) as Hin by (apply (sd_order s Hwf); by eexists).
  destruct (sd_inflight s Hwf c Hin) as (fl' & Hfl' & Hb). simplify_eq.
  destruct Hwf. constructor; simpl; try done.
  - intros c'. rewrite (insert_is_Some_iff _ c c' rest (job :: rest)) by done. auto.
  - intros c' Hc'. rewrite lookup_insert. case_decide; [exists (fl + 1); split; [done|lia]|auto].
  - intros c' q j. rewrite lookup_insert. case_decide as E; [|eauto].
    subst c'. intros [= <-] Hj. eapply sd_queue0; [done|]. by right.
Qed.

Lemma sound_visit s s' r : sound s → order s ≠ [] → visit s = Ok (s', r) → sound s'.
Proof.
  intros Hwf Hne Hv.
  destruct (visit_cases s Hwf Hne) as (c & q & d & fl & Hc & Hq & Hd & Hfl & Hcases).
  assert (c ∈ order s) as Hin by (by eapply list_elem_of_lookup_2).
  destruct (sd_deficit s Hwf c Hin) as (d' & Hd' & Hd0). simplify_eq.
  destruct Hcases as [[-> Hv']|(job & rest & g & p & -> & Hg & [[_ Hv']|(Hlt & Hcost & Hv')])];
    rewrite Hv in Hv'; injection Hv' as -> ->.
  - apply (sound_cursor_only s _ (starvation_preventions s) (tick s) Hwf).
  - assert (0 <= d + g) as Hdg by lia.
    pose proof (sound_cursor_only s (cursor (moved s)) p (tick s) Hwf) as Hwf1.
    exact (sound_deficit_set _ c (d + g) Hwf1 Hin Hdg).
  - assert (0 <= d + g) as Hdg by lia. assert (0 <= d + g - 2 * cost job) as Hdg' by lia.
    pose proof (sound_cursor_only s (cursor (moved s)) p (tick s) Hwf) as Hwf1.
    pose proof (sound_deficit_set _ c _ Hwf1 Hin Hdg) as Hwf2.
    pose proof (sound_deficit_set _ c _ Hwf2 Hin Hdg') as Hwf3.
    exact (sound_dispatch _ c job rest fl Hwf3 Hq Hfl Hlt).
Qed.

Lemma sound_scan n s s' r : sound s → order s ≠ [] → scan n s = Ok (s', r) → sound s' ∧ order s' = order s.
Proof.
  revert s. induction n as [|n IH]; simpl; intros s Hwf Hne H; [by simplify_eq|].
  apply rbind_Ok in H as ([s1 r1] & Hv & H). simpl in H.
  assert (order s1 = order s) as Ho.
  { destruct (visit_cases s Hwf Hne) as (c & q & d & fl & _ & _ & _ & _ & Hcases).
    destruct Hcases as [[_ Hv']|(? & ? & ? & ? & _ & _ & [[_ Hv']|(_ & _ & Hv')])];
      rewrite Hv in Hv'; by simplify_eq. }
  pose proof (sound_visit _ _ _ Hwf Hne Hv) as Hwf1.
  destruct r1; simplify_eq; [done|]. rewrite <- Ho. apply IH; [done| |done]. by rewrite Ho.
Qed.

Lemma scan_ok n s : sound s → order s ≠ [] → ∃ s' r, scan n s = Ok (s', r).
Proof.
  revert s. induction n as [|n IH]; simpl; intros s Hwf Hne; [by eexists _, _|].
  destruct (visit_cases s Hwf Hne) as (c & q & d & fl & _ & _ & _ & _ & Hcases).
  assert (∃ s1 r1, visit s = Ok (s1, r1) ∧ order s1 = order s) as (s1 & r1 & Hv & Ho).
  { destruct Hcases as [[_ Hv']|(? & ? & ? & ? & _ & _ & [[_ Hv']|(_ & _ & Hv')])]; eauto. }
  rewrite Hv. simpl. destruct r1; [by eexists _, _|].
  apply IH; [by eapply sound_visit|by rewrite Ho].
Qed.

(** The FIFO authority reads and dispatches on the same books. *)
Lemma fifo_scan_cases n i s :
  sound s → order s ≠ [] →
  fifo_scan n i s = Ok (s, None) ∨
  ∃ k c job rest fl, (i <= k < i + n)%nat ∧
    let index := ((cursor s + k) `mod` length (order s))%nat in
    order s !! index = Some c ∧ queues s !! c = Some (job :: rest) ∧
    inflight s !! c = Some fl ∧ fl < max_inflight_per_client s ∧
    fifo_scan n i s =
      Ok (dispatch (s <| cursor := ((index + 1) `mod` length (order s))%nat |>) c rest fl, Some job).
Proof.
  intros Hwf Hne. revert i. induction n as [|n IH]; intros i; [by left|].
  cbn [fifo_scan].
  assert ((cursor s + i) `mod` length (order s) < length (order s))%nat as Hlt.
  { apply Nat.mod_upper_bound. by destruct (order s). }
  destruct (lookup_lt_is_Some_2 _ _ Hlt) as [c Hc].
  assert (c ∈ order s) as Hin by (by eapply list_elem_of_lookup_2).
  destruct (proj1 (sd_order s Hwf c) Hin) as [q Hq].
  destruct (sd_inflight s Hwf c Hin) as (fl & Hfl & Hfl0).
  rewrite Hc. simpl. rewrite Hq. simpl.
  assert (∀ P : Prop, (P ∨ ∃ k c job rest fl, (S i <= k < S i + n)%nat ∧
    let index := ((cursor s + k) `mod` length (order s))%nat in
    order s !! index = Some c ∧ queues s !! c = Some (job :: rest) ∧
    inflight s !! c = Some fl ∧ fl < max_inflight_per_client s ∧
    fifo_scan n (S i) s =
      Ok (dispatch (s <| cursor := ((index + 1) `mod` length (order s))%nat |>) c rest fl, Some job))
    → P ∨ ∃ k c job rest fl, (i <= k < i + S n)%nat ∧
    let index := ((cursor s + k) `mod` length (order s))%nat in
    order s !! index = Some c ∧ queues s !! c = Some (job :: rest) ∧
    inflight s !! c = Some fl ∧ fl < max_inflight_per_client s ∧
    fifo_scan n (S i) s =
      Ok (dispatch (s <| cursor := ((index + 1) `mod` length (order s))%nat |>) c rest fl, Some job))
    as Hskip.
  { intros P [?|(k & c' & job & rest & fl' & Hk & H)]; [by left|right].
    exists k, c', job, rest, fl'. split; [lia|done]. }
  destruct q as [|job rest]; [apply Hskip, IH|]. rewrite Hfl. simpl.
  destruct (Z.leb_spec (max_inflight_per_client s) fl); [apply Hskip, IH|].
  right. exists i, c, job, rest, fl. split; [lia|]. done.
Qed.

Lemma visit_frame s s' r : visit s = Ok (s', r) → frame s' = frame s.
Proof.
  unfold visit. intros H. apply rbind_Ok in H as (c & _ & H).
  apply rbind_Ok in H as (q & _ & H). destruct q as [|job rest]; [by simplify_eq|].
  apply rbind_Ok in H as (m & _ & H). apply rbind_Ok in H as (d & _ & H).
  apply rbind_Ok in H as (fl & _ & H). py_cases; done.
Qed.

Lemma scan_frame n s s' r : scan n s = Ok (s', r) → frame s' = frame s.
Proof.
  revert s. induction n as [|n IH]; simpl; intros s H; [by simplify_eq|].
  apply rbind_Ok in H as ([s1 r1] & Hv & H). apply visit_frame in Hv.
  destruct r1; [by injection H as <- _|]. rewrite <- Hv. by apply IH.
Qed.

Lemma fifo_scan_frame n i s s' r : fifo_scan n i s = Ok (s', r) → frame s' = frame s.
Proof.
  revert i. induction n as [|n IH]; intros i H; [by simplify_eq/=|].
  cbn [fifo_scan] in H. apply rbind_Ok in H as (c & _ & H).
  apply rbind_Ok in H as (q & _ & H).
  destruct q as [|job rest]; [eauto|]. apply rbind_Ok in H as (fl & _ & H). destruct (_ <=? _); [eauto|by simplify_eq/=].
Qed.

Lemma sound_tick s : sound s → sound (s <| tick ::= Z.succ |>).
Proof. intros []. by constructor. Qed.

Lemma next_fifo_eq s : next_fifo s = fifo_scan (length (order s)) 0 (s <| tick ::= Z.succ |>).
Proof. reflexivity. Qed.

(** [next] in its two regimes. *)
Lemma next_fair s : order s ≠ [] → is_fifo_mode s = false →
  next s = scan (length (order s) * 4) (s <| tick ::= Z.succ |>).
Proof.
  intros Hne Hm. unfold next. rewrite Hm. destruct (order s) eqn:E; [done|].
  by rewrite <- E.
Qed.

Lemma eligible_from_ok s i l :
  sound s → (∀ c, c ∈ l → c ∈ order s) → ∃ r, eligible_from s i l = Ok r.
Proof.
  intros Hwf. revert i. induction l as [|c l IH]; intros i Hl; simpl; [by eexists|].
  assert (c ∈ order s) as Hin by (apply Hl; by left).
  destruct (proj1 (sd_order s Hwf c) Hin) as [q Hq].
  destruct (sd_inflight s Hwf c Hin) as (fl & Hfl & _).
  assert (∀ i, ∃ r, eligible_from s i l = Ok r) as Hrec.
  { intros i'. apply IH. intros c' Hc'. apply Hl. by right. }
  rewrite Hq; simpl. destruct q as [|job rest]; [apply Hrec|]. rewrite Hfl; simpl.
  destruct (_ <=? _); [apply Hrec|].
  destruct (sd_queue s Hwf c _ job Hq) as [_ (_ & _ & _ & _ & _ & [m Hm])]; [by left|].
  rewrite Hm; simpl. destruct (Hrec (S i)) as [r ->]. by eexists.
Qed.

Lemma next_ok s : sound s → ∃ s' r, next s = Ok (s', r).
Proof.
  intros Hwf. destruct (order s) eqn:E; [unfold next; rewrite E; by eexists _, _|].
  assert (order s ≠ []) as Hne by (by rewrite E).
  pose proof (sound_tick s Hwf) as Hwf1.
  destruct (is_fifo_mode s) eqn:Hm.
  - unfold next. rewrite E, Hm.
    assert (∃ o, (if String.eqb (mode (policy s)) "shadow" then fair_candidate s else Ok None)
                 = Ok o) as [o ->].
    { destruct (String.eqb _ _); [|by eexists]. unfold fair_candidate.
      destruct (eligible_from_ok s 0 (order s) Hwf) as [r ->]; [done|by eexists]. }
    cbn [rbind]. rewrite next_fifo_eq.
    destruct (fifo_scan_cases (length (order s)) 0 _ Hwf1 Hne)
      as [Hr|(k & c & job & rest & fl & _ & _ & _ & _ & _ & Hr)];
      rewrite Hr; simpl; destruct (String.eqb _ _); by eexists _, _.
  - rewrite next_fair by done. by apply (scan_ok _ _ Hwf1).
Qed.

Lemma next_frame s s' r : next s = Ok (s', r) → frame s' = frame s.
Proof.
  unfold next. intros H. destruct (order s) eqn:E; [by simplify_eq|].
  destruct (is_fifo_mode s).
  - apply rbind_Ok in H as (o & _ & H). apply rbind_Ok in H as ([s1 a] & Hn & H).
    apply fifo_scan_frame in Hn. destruct (String.eqb _ _); by injection H as <- _.
  - by apply scan_frame in H.
Qed.

Lemma sound_receipts s l : sound s → sound (s <| decision_receipts := l |>).
Proof. intros []. by constructor. Qed.

Lemma sound_next s s' r : sound s → next s = Ok (s', r) → sound s'.
Proof.
  intros Hwf H. destruct (order s) eqn:E; [unfold next in H; rewrite E in H; by simplify_eq|].
  assert (order s ≠ []) as Hne by (by rewrite E).
  pose proof (sound_tick s Hwf) as Hwf1.
  destruct (is_fifo_mode s) eqn:Hm.
  - unfold next in H. rewrite E, Hm in H.
    apply rbind_Ok in H as (o & _ & H). apply rbind_Ok in H as ([s1 a] & Hn & H).
    assert (sound s1) as Hwf2.
    { rewrite next_fifo_eq in Hn.
      destruct (fifo_scan_cases (length (order s)) 0 _ Hwf1 Hne)
        as [Hr|(k & c & job & rest & fl & _ & Ho & Hq & Hfl & Hlt & Hr)]; rewrite Hr in Hn.
      - simplify_eq. exact Hwf1.
      - set (n := ((_ + 1) `mod` _)%nat) in Hn. injection Hn as <- <-.
        pose proof (sound_cursor_only s n (starvation_preventions s) (Z.succ (tick s)) Hwf) as Hwf3.
        exact (sound_dispatch _ c job rest fl Hwf3 Hq Hfl Hlt). }
    destruct (String.eqb _ _); [|by simplify_eq]. simpl in H. injection H as <- <-.
    exact (sound_receipts _ _ Hwf2).
  - rewrite next_fair in H by done. by apply (sound_scan _ _ _ _ Hwf1 Hne H).
Qed.

(** * What a dispatch does *)

Lemma scan_dispatched n s s' r :
  sound s → order s ≠ [] → scan n s = Ok (s', r) → dispatched s s' r.
Proof.
  revert s. induction n as [|n IH]; intros s Hwf Hne H; [by simplify_eq/=|].
  cbn [scan] in H. apply rbind_Ok in H as ([s1 r1] & Hv & H).
  pose proof (sound_visit _ _ _ Hwf Hne Hv) as Hwf1. pose proof (visit_frame _ _ _ Hv) as Hf.
  destruct (visit_cases s Hwf Hne) as (c & q & d & fl & _ & Hq & _ & Hfl & Hcases).
  assert (order s1 ≠ []) as Hne1.
  { unfold frame in Hf. injection Hf; intros. congruence. }
  destruct Hcases as [[_ Hv']|(job & rest & g & p & -> & _ & [[_ Hv']|(Hlt & _ & Hv')])];
    rewrite Hv in Hv'; injection Hv' as -> ->.
  - apply (IH _ Hwf1 Hne1) in H. destruct r; exact H.
  - apply (IH _ Hwf1 Hne1) in H. destruct r; exact H.
  - injection H as <- <-. destruct (sd_queue s Hwf c _ job Hq) as [<- _]; [by left|].
    by exists rest, fl.
Qed.

Lemma next_dispatched s s' r : sound s → next s = Ok (s', r) → dispatched s s' r.
Proof.
  intros Hwf H. destruct (order s) eqn:E; [unfold next in H; rewrite E in H; by simplify_eq|].
  assert (order s ≠ []) as Hne by (by rewrite E).
  pose proof (sound_tick s Hwf) as Hwf1. destruct (is_fifo_mode s) eqn:Hm.
  - unfold next in H. rewrite E, Hm in H.
    apply rbind_Ok in H as (o & _ & H). apply rbind_Ok in H as ([s1 a] & Hn & H).
    assert (dispatched s s1 a) as Hd.
    { rewrite next_fifo_eq in Hn.
      destruct (fifo_scan_cases (length (order s)) 0 _ Hwf1 Hne)
        as [Hr|(k & c & job & rest & fl & _ & Ho & Hq & Hfl & Hlt & Hr)]; rewrite Hr in Hn.
      - by injection Hn as <- <-.
      - injection Hn as <- <-. destruct (sd_queue s Hwf c _ job Hq) as [<- _]; [by left|].
        by exists rest, fl. }
    destruct (String.eqb _ _); [|by injection H as <- <-].
    injection H as <- <-. destruct a; exact Hd.
  - rewrite next_fair in H by done. by apply (scan_dispatched _ _ _ _ Hwf1 Hne H).
Qed.

(** A dispatch keeps the sharper books. *)
Lemma live_dispatched s s' r : live s → dispatched s s' r → frame s' = frame s → live s'.
Proof.
  intros [Hl Hn Ha] Hd Hf. assert (jobs s' = jobs s) as Hj by (unfold frame in Hf; congruence).
  destruct r as [job|]; cbn in Hd.
  - destruct Hd as (rest & n & Hq & Hfl & _ & Hq' & Hi'). specialize (Hn _ _ Hq) as Hnd. inv Hnd.
    pose proof (Ha _ _ Hq) as Hacc. rewrite (get0_Some _ _ _ Hfl) in Hacc. cbn in Hacc.
    constructor; rewrite ?Hj, ?Hq', ?Hi'.
    + intros c q j. rewrite lookup_insert. case_decide as E; [|eauto].
      subst c. intros [= <-] Hin. eapply Hl; [done|]. by right.
    + intros c q. rewrite lookup_insert. case_decide as E; [|eauto]. by intros [= <-].
    + intros c q. rewrite lookup_insert, get0_insert. case_decide as E; [|eauto].
      subst c. intros [= <-]. lia.
  - destruct Hd as [Hq Hi]. constructor; rewrite ?Hj, ?Hq, ?Hi; eauto.
Qed.

Lemma wf_next s s' r : wf s → next s = Ok (s', r) → wf s'.
Proof.
  intros [Hs Hl] H. split; [by eapply sound_next|].
  eapply live_dispatched; [exact Hl|by apply next_dispatched|by eapply next_frame].
Qed.

(** [preview_next] gives back the state it started from, receipts apart. *)
Lemma preview_state s s' r :
  preview_next s = Ok (s', r) →
  ∃ s1, next s = Ok (s1, r) ∧ s' = s <| decision_receipts := decision_receipts s1 |>.
Proof.
  unfold preview_next. intros H. apply rbind_Ok in H as ([s1 r1] & Hn & H).
  pose proof (next_frame _ _ _ Hn) as Hf. injection H as <- <-. exists s1. split; [done|].
  destruct s, s1. unfold frame in Hf. simpl in *. by simplify_eq.
Qed.

Lemma wf_queue s : wf s → ∀ c q j, queues s !! c = Some q → j ∈ q →
  client_id j = c ∧ jobs s !! task_id j = Some j.
Proof. intros [Hs Hl] c q j Hq Hj. split; [by apply (sd_queue s Hs c q)|by apply (lv_queue s Hl c q)]. Qed.

(** A client that is not in the order has no live job. *)
Lemma no_jobs s c : sound s → queues s !! c = None → mcount (of_client c) (jobs s) = 0.
Proof.
  intros Hs Hq. apply mcount_none. intros t j Hj. apply String.eqb_neq. intros <-.
  apply (sd_jobs s Hs) in Hj as (_ & _ & Hin). apply (sd_order s Hs) in Hin as [q Hq']. congruence.
Qed.

Lemma sound_open_client s c : sound s → sound (open_client s c) ∧ c ∈ order (open_client s c).
Proof.
  intros Hs. unfold open_client. destruct (queues s !! c) as [q|] eqn:Hq.
  { split; [done|]. apply (sd_order s Hs). by eexists. }
  assert (c ∉ order s) as Hnew by (rewrite (sd_order s Hs), Hq; by intros [? ?]).
  split; [|simpl; set_solver].
  destruct Hs. constructor; simpl; try done.
  - apply NoDup_app. split; [done|]. split; [set_solver|apply NoDup_singleton].
  - intros c'. rewrite lookup_insert. case_decide as Hc.
    + subst. split; [by eexists|set_solver].
    + rewrite <- sd_order0. set_solver.
  - intros c' Hc'. rewrite lookup_insert. case_decide as E; [by exists 0|].
    apply sd_deficit0. set_solver.
  - intros c' Hc'. rewrite lookup_insert. case_decide as E; [exists 0; split; [done|lia]|].
    apply sd_inflight0. set_solver.
  - intros c' q j. rewrite lookup_insert. case_decide; [|eauto]. intros [= <-]. set_solver.
  - intros t j Hj. destruct (sd_jobs0 t j Hj) as (? & ? & ?). set_solver.
Qed.

Lemma live_open_client s c : sound s → live s → live (open_client s c).
Proof.
  intros Hs [Hl Hn Ha]. unfold open_client. destruct (queues s !! c) as [q|] eqn:Hq; [done|].
  pose proof (no_jobs s c Hs Hq) as H0. constructor; simpl.
  - intros c' q j. rewrite lookup_insert. case_decide; [|eauto]. intros [= <-]. set_solver.
  - intros c' q. rewrite lookup_insert. case_decide; [|eauto]. intros [= <-]. constructor.
  - intros c' q. rewrite lookup_insert, get0_insert. case_decide; [|eauto]. intros [= <-].
    subst c'. by rewrite H0.
Qed.

Lemma sound_add_job s q job :
  sound s → valid_job job → jobs s !! task_id job = None →
  queues s !! client_id job = Some q → sound (add_job s q job).
Proof.
  intros Hs Hv Hfresh Hq.
  assert (client_id job ∈ order s) as Hin by (apply (sd_order s Hs); by eexists).
  destruct Hs. constructor; simpl; try done.
  - intros c. rewrite (insert_is_Some_iff _ _ c _ q) by done. auto.
  - intros c. rewrite lookup_insert. case_decide; [|done]. simpl. specialize (sd_weights0 (client_id job)). lia.
  - intros c q' j. rewrite lookup_insert. case_decide as E; [|eauto].
    subst c. intros [= <-] [Hj|Hj%list_elem_of_singleton]%elem_of_app; [eauto|by subst j].
  - intros t j. rewrite lookup_insert. case_decide as E; [|eauto]. intros [= <-]. done.
  - intros c. rewrite get0_insert, mcount_insert by done. unfold of_client at 1.
    case_decide as E; [subst; rewrite String.eqb_refl, sd_client_total0; lia|].
    rewrite (proj2 (String.eqb_neq _ _)) by done. auto.
  - intros w. rewrite get0_insert, mcount_insert by done. unfold of_workspace at 1.
    case_decide as E; [subst; rewrite String.eqb_refl, sd_workspace_total0; lia|].
    rewrite (proj2 (String.eqb_neq _ _)) by done. auto.
  - rewrite map_size_insert_None by done. lia.
Qed.

Lemma live_add_job s q job :
  live s → jobs s !! task_id job = None → queues s !! client_id job = Some q → live (add_job s q job).
Proof.
  intros [Hl Hn Ha] Hfresh Hq.
  assert (∀ c q' j, queues s !! c = Some q' → j ∈ q' → task_id j ≠ task_id job) as Hne.
  { intros c q' j Hq' Hj Heq. apply (Hl c q' j Hq') in Hj. congruence. }
  constructor; simpl.
  - intros c q' j. rewrite lookup_insert. case_decide as E.
    + subst c. intros [= <-] [Hj|Hj%list_elem_of_singleton]%elem_of_app.
      * rewrite lookup_insert_ne; [eauto|]. intros Heq. by apply (Hne _ _ _ Hq Hj).
      * subst j. apply lookup_insert_eq.
    + intros Hq' Hj. rewrite lookup_insert_ne; [eauto|]. intros Heq. by apply (Hne _ _ _ Hq' Hj).
  - intros c q'. rewrite lookup_insert. case_decide as E; [|eauto]. intros [= <-].
    rewrite fmap_app. apply NoDup_app. split; [eauto|]. split; [|apply NoDup_singleton].
    intros t (j & -> & Hj)%list_elem_of_fmap. simpl. rewrite list_elem_of_singleton. eauto.
  - intros c q'. rewrite lookup_insert, mcount_insert by done. unfold of_client at 1.
    case_decide as E.
    + subst c. intros [= <-]. rewrite String.eqb_refl, length_app. simpl.
      rewrite (Ha _ _ Hq). lia.
    + rewrite (proj2 (String.eqb_neq _ _)) by done. intros Hq'. rewrite (Ha _ _ Hq'). lia.
Qed.

Lemma pinned_same s job :
  task_id (pinned s job) = task_id job ∧ client_id (pinned s job) = client_id job ∧
  workspace_id (pinned s job) = workspace_id job ∧ weight (pinned s job) = weight job ∧
  cost (pinned s job) = cost job ∧ priority (pinned s job) = priority job.
Proof. unfold pinned. by destruct (String.eqb _ _). Qed.

Lemma enqueue_spec s job s' :
  enqueue s job = Ok s' →
  let job' := pinned s job in
  valid_job job' ∧ jobs s !! task_id job' = None ∧ check_quotas s job' = Ok tt ∧
  ∃ q, queues (open_client s (client_id job')) !! client_id job' = Some q ∧
       s' = add_job (open_client s (client_id job')) q job'.
Proof.
  unfold enqueue. intros H. destruct (_ || _ || _ || _) eqn:E1; [done|].
  destruct (negb (Str.truthy (workspace_id job))) eqn:E2; [done|].
  destruct (PRIORITY_GAIN_MULTIPLIER !! priority job) as [m|] eqn:E3; [|done].
  fold (pinned s job) in H. cbv zeta in *.
  destruct (pinned_same s job) as (Ht & Hc & Hw & Hwe & Hco & Hp).
  destruct (jobs s !! task_id (pinned s job)) eqn:E4; [done|].
  apply rbind_Ok in H as ([] & Hq & H). apply rbind_Ok in H as (q & Hqq & H).
  zbool. rewrite !Str.truthy_ne in *.
  split; [|split; [done|split; [done|]]].
  - unfold valid_job. rewrite Ht, Hc, Hw, Hwe, Hco, Hp, E3. repeat split; [done..|lia|lia|by eexists].
  - exists q. injection H as <-. unfold or_raise, open_client, add_job in *. simpl in *.
    destruct (queues s !! client_id (pinned s job)) eqn:E5; simpl in *.
    + rewrite E5 in *. by simplify_eq/=.
    + rewrite lookup_insert_eq in *. by simplify_eq/=.
Qed.

Lemma open_client_frame s c :
  jobs (open_client s c) = jobs s ∧ client_total (open_client s c) = client_total s ∧
  workspace_total (open_client s c) = workspace_total s ∧
  global_total (open_client s c) = global_total s ∧
  max_queue_per_client (open_client s c) = max_queue_per_client s ∧
  max_queue_per_workspace (open_client s c) = max_queue_per_workspace s ∧
  max_global_queue (open_client s c) = max_global_queue s.
Proof. unfold open_client. by destruct (queues s !! c). Qed.

Lemma sound_enqueue s job s' : sound s → enqueue s job = Ok s' → sound s'.
Proof.
  intros Hs H. apply enqueue_spec in H as (Hv & Hf & _ & q & Hq & ->).
  destruct (sound_open_client s (client_id (pinned s job)) Hs) as [Hs' _].
  apply sound_add_job; [done..| |done].
  by rewrite (proj1 (open_client_frame s (client_id (pinned s job)))).
Qed.

Lemma wf_enqueue s job s' : wf s → enqueue s job = Ok s' → wf s'.
Proof.
  intros [Hs Hl] H. split; [by eapply sound_enqueue|].
  apply enqueue_spec in H as (_ & Hf & _ & q & Hq & ->).
  apply live_add_job; [by apply live_open_client| |done].
  by rewrite (proj1 (open_client_frame s (client_id (pinned s job)))).
Qed.

Lemma over_quota_None limit n : over_quota limit n = None → within limit (n + 1).
Proof. destruct limit; simpl; [|done]. destruct (_ <=? _) eqn:E; [done|]. zbool. lia. Qed.

Lemma check_quotas_Ok s job :
  check_quotas s job = Ok tt →
  within (max_global_queue s) (global_total s + 1) ∧
  within (max_queue_per_workspace s) (get0 (workspace_total s) (workspace_id job) + 1) ∧
  within (max_queue_per_client s) (get0 (client_total s) (client_id job) + 1).
Proof.
  unfold check_quotas. intros H.
  destruct (over_quota _ (global_total s)) eqn:E1; [done|].
  destruct (over_quota _ (get0 (workspace_total s) _)) eqn:E2; [done|].
  destruct (over_quota _ (get0 (client_total s) _)) eqn:E3; [done|].
  split_and!; by apply over_quota_None.
Qed.

Lemma quotas_enqueue s job s' : quotas_hold s → enqueue s job = Ok s' → quotas_hold s'.
Proof.
  intros (Hg & Hw & Hc) H. apply enqueue_spec in H as (_ & _ & Hq & q & _ & ->).
  apply check_quotas_Ok in Hq as (H1 & H2 & H3).
  destruct (open_client_frame s (client_id (pinned s job)))
    as (_ & Ec & Ew & Eg & Elc & Elw & Elg).
  unfold quotas_hold, add_job. simpl. rewrite Ec, Ew, Eg, Elc, Elw, Elg.
  split; [done|]. split.
  - intros w. rewrite get0_insert. by case_decide; subst.
  - intros c. rewrite get0_insert. by case_decide; subst.
Qed.

Lemma quotas_frame s s' : frame s' = frame s → quotas_hold s → quotas_hold s'.
Proof. unfold frame, quotas_hold. 
  intros H. injection H; clear H; intros.
  repeat match goal with H : ?f s' = _ |- _ => try rewrite H; clear H end. done. Qed.

Lemma within_le limit n m : within limit n → m <= n → within limit m.
Proof. destruct limit; simpl; lia. Qed.

Lemma release_slot_get0 (d : gmap string Z) k k' :
  0 <= get0 d k' → get0 (<[k := Z.max 0 (get0 d k - 1)]> d) k' <= get0 d k'.
Proof. intros. rewrite get0_insert. case_decide; subst; lia. Qed.

Lemma quotas_release s job :
  sound s → quotas_hold s → quotas_hold (release_slot s job).
Proof.
  intros Hwf (Hg & Hw & Hc). split; [|split].
  - simpl. eapply within_le; [apply Hg|]. rewrite (sd_global_total s Hwf). lia.
  - intros w. simpl. eapply within_le; [apply Hw|]. apply release_slot_get0.
    rewrite (sd_workspace_total s Hwf). apply mcount_nonneg.
  - intros c. simpl. eapply within_le; [apply Hc|]. apply release_slot_get0.
    rewrite (sd_client_total s Hwf). apply mcount_nonneg.
Qed.

(** Forgetting a live job: the totals lose exactly that job, its client keeps some
    of its queue and a count in flight within the limit. *)
Lemma sound_forget s t job q q' fl :
  sound s → jobs s !! t = Some job → queues s !! client_id job = Some q →
  (∀ j, j ∈ q' → j ∈ q) → 0 <= fl <= max_inflight_per_client s →
  sound ((release_slot s job) <| queues ::= <[client_id job := q']> |>
        <| inflight ::= <[client_id job := fl]> |> <| jobs ::= delete t |>).
Proof.
  intros Hs Hj Hq Hsub Hfl. destruct (sd_jobs s Hs t job Hj) as (Ht & _ & Hin).
  pose proof (mcount_pos (of_client (client_id job)) _ t job Hj (String.eqb_refl _)) as Hc1.
  pose proof (mcount_pos (of_workspace (workspace_id job)) _ t job Hj (String.eqb_refl _)) as Hw1.
  assert (1 <= Z.of_nat (size (jobs s))) as Hs1.
  { assert (size (jobs s) ≠ 0%nat); [|lia]. apply map_size_non_empty_iff.
    intros E. by rewrite E in Hj. }
  destruct Hs. constructor; simpl; try done.
  - intros c. rewrite (insert_is_Some_iff _ _ c _ q) by done. auto.
  - intros c Hc. rewrite lookup_insert. case_decide; [by exists fl|auto].
  - intros c q0 j. rewrite lookup_insert. case_decide as E; [|eauto].
    subst c. intros [= <-] Hj'. eauto.
  - intros t' j [_ Hj']%lookup_delete_Some. eauto.
  - intros c. rewrite get0_insert, (mcount_delete _ _ t job) by done. unfold of_client at 2.
    case_decide as E; [subst; rewrite String.eqb_refl, sd_client_total0; lia|].
    rewrite (proj2 (String.eqb_neq _ _)) by done. rewrite sd_client_total0. lia.
  - intros w. rewrite get0_insert, (mcount_delete _ _ t job) by done. unfold of_workspace at 2.
    case_decide as E; [subst; rewrite String.eqb_refl, sd_workspace_total0; lia|].
    rewrite (proj2 (String.eqb_neq _ _)) by done. rewrite sd_workspace_total0. lia.
  - rewrite map_size_delete_Some by (by eexists). lia.
Qed.

(** Under the sharper books the queue keeps every other job, and [fl] is what is
    left in flight. *)
Lemma live_forget s t job q fl :
  wf s → jobs s !! t = Some job → queues s !! client_id job = Some q →
  let q' := filter (λ item, task_id item ≠ t) q in
  Z.of_nat (length q) + get0 (inflight s) (client_id job) = Z.of_nat (length q') + fl + 1 →
  live ((release_slot s job) <| queues ::= <[client_id job := q']> |>
        <| inflight ::= <[client_id job := fl]> |> <| jobs ::= delete t |>).
Proof.
  intros [Hs [Hl Hn Ha]] Hj Hq q' Hacc. destruct (sd_jobs s Hs t job Hj) as (Ht & _ & Hin).
  constructor; simpl.
  - intros c q0 j. rewrite lookup_insert. case_decide as E.
    + intros [= <-] [Hne Hj']%list_elem_of_filter. rewrite lookup_delete_ne by done. eauto.
    + intros Hq' Hj'. rewrite lookup_delete_ne; [eauto|]. intros Et.
      pose proof (Hl _ _ _ Hq' Hj') as Hj2. rewrite <- Et in Hj2. destruct (sd_queue s Hs _ _ _ Hq' Hj') as [Hcl _].
      congruence.
  - intros c q0. rewrite lookup_insert. case_decide as E; [|eauto]. intros [= <-].
    specialize (Hn _ _ Hq). unfold q'. clear -Hn.
    induction q as [|a q IH]; [constructor|]. simpl in *. inv Hn.
    rewrite filter_cons. case_decide; [|auto]. simpl. constructor; [|auto].
    intros (b & Hb & Hin)%list_elem_of_fmap. apply list_elem_of_filter in Hin as [_ Hin].
    rewrite Hb in *. apply H1. by apply list_elem_of_fmap_2.
  - intros c q0. rewrite lookup_insert, get0_insert, (mcount_delete _ _ t job) by done.
    unfold of_client at 2. case_decide as E.
    + subst c. intros [= <-]. rewrite String.eqb_refl, (Ha _ _ Hq). lia.
    + rewrite (proj2 (String.eqb_neq _ _)) by done. intros Hq'. rewrite (Ha _ _ Hq'). lia.
Qed.

(** [complete] and [cancel], whichever job they are called for. *)
Lemma sound_complete s t s' : sound s → complete s t = Ok s' → sound s'.
Proof.
  intros Hs H. unfold complete in H. destruct (jobs s !! t) as [job|] eqn:Hj; [|done].
  destruct (sd_jobs s Hs t job Hj) as (_ & _ & Hin).
  destruct (proj1 (sd_order s Hs _) Hin) as [q Hq].
  destruct (sd_inflight s Hs _ Hin) as (n & Hn & Hb). rewrite Hn in H. injection H as <-.
  pose proof (sound_forget s t job q q (Z.max 0 (n - 1)) Hs Hj Hq ltac:(done) ltac:(lia)) as Hf.
  simpl in Hf. by rewrite (insert_id (queues s)) in Hf by done.
Qed.

Lemma sound_cancel s t s' b : sound s → cancel s t = Ok (s', b) → sound s'.
Proof.
  intros Hs H. unfold cancel in H. destruct (jobs s !! t) as [job|] eqn:Hj; [|by simplify_eq].
  destruct (sd_jobs s Hs t job Hj) as (_ & _ & Hin).
  destruct (proj1 (sd_order s Hs _) Hin) as [q Hq].
  destruct (sd_inflight s Hs _ Hin) as (n & Hn & Hb). rewrite Hq in H. injection H as <- _.
  pose proof (sound_forget s t job q (filter (λ item, task_id item ≠ t) q) n Hs Hj Hq) as Hf.
  simpl in Hf. rewrite (insert_id (inflight s)) in Hf by done. apply Hf; [|lia].
  by intros j [_ ?]%list_elem_of_filter.
Qed.

Lemma queued_iff s t job q :
  wf s → jobs s !! t = Some job → queues s !! client_id job = Some q →
  queued s t ↔ t ∈ task_id <$> q.
Proof.
  intros Hwf Hj Hq. split.
  - intros (c & q' & j & Hq' & Hj' & <-).
    destruct (wf_queue s Hwf c q' j Hq' Hj') as [<- Hl]. simplify_eq.
    by apply list_elem_of_fmap_2.
  - intros (j & -> & Hin)%list_elem_of_fmap. by exists (client_id job), q, j.
Qed.

(** A job in flight holds a slot of its client. *)
Lemma in_flight_slot s t job q :
  wf s → jobs s !! t = Some job → queues s !! client_id job = Some q →
  t ∉ task_id <$> q → 1 <= get0 (inflight s) (client_id job).
Proof.
  intros Hwf Hj Hq Ht.
  assert (Z.of_nat (length (t :: (task_id <$> q))) <= mcount (of_client (client_id job)) (jobs s)) as H.
  { apply mcount_keys.
    - constructor; [done|]. by apply (lv_nodup s Hwf (client_id job)).
    - intros k [->|Hk]%elem_of_cons; [exists job; by rewrite Hj; unfold of_client; rewrite String.eqb_refl|].
      apply list_elem_of_fmap in Hk as (j & -> & Hin).
      destruct (wf_queue s Hwf _ q j Hq Hin) as [Hc Hl]. exists j. split; [done|].
      unfold of_client. rewrite Hc. apply String.eqb_refl. }
  rewrite (lv_account s Hwf _ _ Hq) in H. simpl in H. rewrite length_fmap in H. lia.
Qed.

(** Completing a job in flight gives its slot and its quota back. *)
Lemma complete_in_flight s t :
  wf s → in_flight s t → ∃ job s', jobs s !! t = Some job ∧ complete s t = Ok s' ∧
    wf s' ∧ jobs s' = delete t (jobs s) ∧ queues s' = queues s ∧
    get0 (inflight s') (client_id job) = get0 (inflight s) (client_id job) - 1.
Proof.
  intros Hwf [[job Hj] Hnq]. exists job.
  destruct (sd_jobs s Hwf t job Hj) as (_ & _ & Hin).
  destruct (proj1 (sd_order s Hwf _) Hin) as [q Hq].
  destruct (sd_inflight s Hwf _ Hin) as (n & Hn & Hb).
  rewrite (queued_iff s t job q) in Hnq by done.
  pose proof (in_flight_slot s t job q Hwf Hj Hq Hnq) as H1.
  rewrite (get0_Some _ _ _ Hn) in H1.
  assert (Z.max 0 (n - 1) = n - 1) as Hmax by lia.
  eexists. split; [done|]. split.
  { unfold complete. rewrite Hj. simpl. rewrite Hn. simpl. rewrite Hmax. reflexivity. }
  split.
  - split; [apply (sound_complete s t _ Hwf); unfold complete; rewrite Hj; simpl; rewrite Hn; simpl; by rewrite Hmax|].
    pose proof (live_forget s t job q (n - 1) Hwf Hj Hq) as Hf. cbv zeta in Hf.
    rewrite (get0_Some _ _ _ Hn), filter_key_id in Hf by done.
    simpl in Hf. rewrite (insert_id (queues s)) in Hf by done. apply Hf. lia.
  - simpl. rewrite get0_insert_eq, (get0_Some _ _ _ Hn). done.
Qed.

(** Cancelling a waiting job removes it from its queue and from the totals. *)
Lemma cancel_queued s t :
  wf s → queued s t → ∃ job q s', jobs s !! t = Some job ∧
    queues s !! client_id job = Some q ∧ cancel s t = Ok (s', true) ∧ wf s' ∧
    jobs s' = delete t (jobs s) ∧ inflight s' = inflight s ∧
    queues s' = <[client_id job := filter (λ item, task_id item ≠ t) q]> (queues s).
Proof.
  intros Hwf Hq0. pose proof Hq0 as (c & q & job & Hq & Hin & <-).
  destruct (wf_queue s Hwf c q job Hq Hin) as [<- Hj].
  destruct (sd_jobs s Hwf _ job Hj) as (_ & _ & Hord).
  destruct (sd_inflight s Hwf _ Hord) as (n & Hn & Hb).
  exists job, q. eexists. split; [done|]. split; [done|]. split.
  { unfold cancel. rewrite Hj. simpl. rewrite Hq. simpl. reflexivity. }
  split; [|done].
  split; [apply (sound_cancel s (task_id job) _ true Hwf); unfold cancel; rewrite Hj; simpl; by rewrite Hq|].
  pose proof (live_forget s _ job q n Hwf Hj Hq) as Hf. cbv zeta in Hf.
  rewrite (get0_Some _ _ _ Hn) in Hf. simpl in Hf. rewrite (insert_id (inflight s)) in Hf by done.
  apply Hf.
  assert (length (filter (λ x, task_id x ≠ task_id job) q) + 1 = length q)%nat as Hl; [|lia].
  apply length_filter_key; [by apply (lv_nodup s Hwf (client_id job))|].
  by apply list_elem_of_fmap_2.
Qed.

Lemma not_in_flight_queued s t :
  wf s → is_Some (jobs s !! t) → ¬ in_flight s t → queued s t.
Proof.
  intros Hwf [job Hj] Hn. destruct (sd_jobs s Hwf t job Hj) as (_ & _ & Hin).
  destruct (proj1 (sd_order s Hwf _) Hin) as [q Hq].
  apply (queued_iff s t job q Hwf Hj Hq).
  destruct (decide (t ∈ task_id <$> q)) as [?|Hni]; [done|].
  destruct Hn. split; [by eexists|]. by rewrite (queued_iff s t job q).
Qed.

Lemma sound_configure s p : sound s → sound (configure_policy s p).1.
Proof. intros []. by constructor. Qed.

(** No call breaks the books and the quotas, whichever job it is about. *)
Lemma sound_call s c s' : sound s → apply_call s c = Ok s' → sound s'.
Proof.
  intros Hs H. destruct c as [j| | |t|t|p]; cbn in H.
  - by eapply sound_enqueue.
  - apply rbind_Ok in H as ([s1 r] & H & [= <-]). by eapply sound_next.
  - apply rbind_Ok in H as ([s1 r] & H & [= <-]). apply preview_state in H as (s2 & _ & ->).
    by apply sound_receipts.
  - by eapply sound_complete.
  - apply rbind_Ok in H as ([s1 r] & H & [= <-]). by eapply sound_cancel.
  - injection H as <-. by apply sound_configure.
Qed.

Lemma quotas_call s c s' : sound s → quotas_hold s → apply_call s c = Ok s' → quotas_hold s'.
Proof.
  intros Hs Hq H. destruct c as [j| | |t|t|p]; cbn in H.
  - by eapply quotas_enqueue.
  - apply rbind_Ok in H as ([s1 r] & H & [= <-]). eapply quotas_frame; [by eapply next_frame|done].
  - apply rbind_Ok in H as ([s1 r] & H & [= <-]). by apply preview_state in H as (s2 & _ & ->).
  - unfold complete in H. destruct (jobs s !! t) as [job|]; [|done].
    apply rbind_Ok in H as (fl & _ & H). injection H as <-.
    exact (quotas_release s job Hs Hq).
  - apply rbind_Ok in H as ([s1 r] & H & [= <-]).
    unfold cancel in H. destruct (jobs s !! t) as [job|]; [|by simplify_eq].
    apply rbind_Ok in H as (q & _ & H). injection H as <- _.
    exact (quotas_release s job Hs Hq).
  - by injection H as <-.
Qed.

Lemma reachable_inv s : reachable s → sound s ∧ quotas_hold s.
Proof.
  intros (mi & q & mqc & mqw & mgq & ticks & boost & p & s0 & Hi & Hr).
  apply wf_init in Hi as [[Hs _] Hq]. induction Hr as [s|s s1 s2 [c Hc] _ IH]; [done|].
  apply IH; [by eapply sound_call|by eapply quotas_call].
Qed.

(** An orderly call keeps the sharper books too. *)
Lemma wf_call s c s' : wf s → orderly_call s c → apply_call s c = Ok s' → wf s'.
Proof.
  intros Hwf Ho H. destruct c as [j| | |t|t|p].
  - by eapply wf_enqueue.
  - cbn in H. apply rbind_Ok in H as ([s1 r] & H & [= <-]). by eapply wf_next.
  - split; [exact (sound_call _ _ _ Hwf H)|]. cbn in H. apply rbind_Ok in H as ([s1 r] & H & [= <-]).
    apply preview_state in H as (s2 & _ & ->). by destruct Hwf as [_ []].
  - destruct (complete_in_flight s t Hwf Ho) as (job & s1 & _ & Hc & Hwf' & _).
    cbn in H. rewrite H in Hc. by injection Hc as <-.
  - cbn in H, Ho. apply rbind_Ok in H as ([s1 b] & H & [= <-]).
    destruct (jobs s !! t) as [job|] eqn:Hj; [|unfold cancel in H; rewrite Hj in H; by simplify_eq].
    assert (queued s t) as Hq by (apply not_in_flight_queued; [done|by eexists|done]).
    destruct (cancel_queued s t Hwf Hq) as (? & ? & s2 & _ & _ & Hc & Hwf' & _).
    rewrite H in Hc. by injection Hc as <- _.
  - split; [exact (sound_call _ _ _ Hwf H)|]. injection H as <-. by destruct Hwf as [_ []].
Qed.

Lemma orderly_inv s : orderly s → wf s ∧ quotas_hold s.
Proof.
  intros (mi & q & mqc & mqw & mgq & ticks & boost & p & s0 & Hi & Hr).
  apply wf_init in Hi as [Hwf Hq]. induction Hr as [s|s s1 s2 (c & Ho & Hc) _ IH]; [done|].
  apply IH; [by eapply wf_call|exact (quotas_call _ _ _ Hwf Hq Hc)].
Qed.

(** * Starvation freedom *)

Lemma succ_mod n len :
  (0 < len)%nat →
  ((n + 1) `mod` len = if (n `mod` len + 1 =? len) then 0 else n `mod` len + 1)%nat.
Proof.
  intros Hlen. pose proof (Nat.mod_upper_bound n len ltac:(lia)) as Hr.
  pose proof (Nat.div_mod_eq n len) as Hdiv.
  destruct (Nat.eqb_spec (n `mod` len + 1) len) as [E|E].
  - symmetry. apply (Nat.mod_unique _ _ (n `div` len + 1)); lia.
  - symmetry. apply (Nat.mod_unique _ _ (n `div` len)); lia.
Qed.

Lemma visit_progress s s' r i c job rest fl d :
  sound s → waiting s i c job rest fl d → visit s = Ok (s', r) →
  r = Some job ∨
  ∃ d', waiting s' i c job rest fl d' ∧ delay s' i job d' < delay s i job d.
Proof.
  intros Hwf (Hi & Hq & Hfl & Hlt & Hd) Hv.
  pose proof (lookup_lt_Some _ _ _ Hi) as Hilen.
  assert (order s ≠ []) as Hne by (intros E; by rewrite E in Hi).
  destruct (visit_cases s Hwf Hne) as (c' & q' & d' & fl' & Hc' & Hq' & Hd' & Hfl' & Hcases).
  set (len := length (order s)) in *. set (cu := (cursor s `mod` len)%nat) in *.
  assert (cu < len)%nat as Hcu by (apply Nat.mod_upper_bound; lia).
  assert (((cursor s + 1) `mod` len) `mod` len = if (cu + 1 =? len) then 0 else cu + 1)%nat as Hnext.
  { rewrite Nat.Div0.mod_mod. apply succ_mod. lia. }
  destruct (decide (c' = c)) as [->|Hcc].
  - assert (cu = i) as Hcui by (eapply NoDup_lookup; [apply (sd_nodup s Hwf)|done..]).
    rewrite Hq in Hq'. injection Hq' as <-. rewrite Hd in Hd'. injection Hd' as <-.
    rewrite Hfl in Hfl'. injection Hfl' as <-.
    destruct Hcases as [[? _]|(job' & rest' & g & p & Hjr & Hg & Hcases)]; [done|].
    injection Hjr as <- <-. destruct Hcases as [([?|Hlow] & Hv')|(_ & _ & Hv')]; [lia| |];
      rewrite Hv in Hv'; injection Hv' as -> ->; [right|by left].
    exists (d + g). split.
    { split; [done|]. split; [done|]. split; [done|]. split; [done|]. simpl. apply lookup_insert_eq. }
    unfold delay, ring_dist. simpl. fold len. fold cu. rewrite Hnext. clearbody cu. subst cu.
    destruct (Nat.eqb_spec (i + 1) len); destruct (Nat.leb_spec 0 i);
      destruct (Nat.leb_spec i i); destruct (Nat.leb_spec (i + 1) i); nia.
  - assert (cu ≠ i) as Hcui by (intros ->; congruence).
    right. exists d. destruct Hcases as [[_ Hv']|(job' & rest' & g & p & -> & Hg & [[_ Hv']|(_ & _ & Hv')])];
      rewrite Hv in Hv'; injection Hv' as -> ->.
    all: split; [unfold waiting; simpl; rewrite ?lookup_insert_ne by done; done|].
    all: unfold delay, ring_dist; simpl; fold len; fold cu; rewrite Hnext.
    all: destruct (Nat.eqb_spec (cu + 1) len); destruct (Nat.leb_spec 0 i);
      destruct (Nat.leb_spec cu i); destruct (Nat.leb_spec (cu + 1) i); lia.
Qed.

Lemma scan_progress n s s' r i c job rest fl d :
  sound s → waiting s i c job rest fl d → scan (S n) s = Ok (s', r) →
  r = Some job ∨
  ∃ d', waiting s' i c job rest fl d' ∧ delay s' i job d' < delay s i job d.
Proof.
  revert s d. induction n as [|n IH]; intros s d Hwf Hw H;
    pose proof Hw as (Hi & _); assert (order s ≠ []) as Hne by (intros E; by rewrite E in Hi);
    change (scan (S ?k) s) with (rbind (visit s) (λ '(s1, r1),
      match r1 with Some j => Ok (s1, Some j) | None => scan k s1 end)) in H;
    apply rbind_Ok in H as ([s1 r1] & Hv & H);
    (destruct (visit_progress _ _ _ _ _ _ _ _ _ Hwf Hw Hv) as [->|(d1 & Hw1 & Hd1)];
     [left; by injection H as _ <-|]);
    (destruct r1; [injection H as <- <-; right; by exists d1|]).
  - injection H as <- <-. right. by exists d1.
  - destruct (IH s1 d1 (sound_visit _ _ _ Hwf Hne Hv) Hw1 H) as [?|(d2 & Hw2 & Hd2)]; [by left|].
    right. exists d2. split; [done|lia].
Qed.

Lemma next_progress s s' r i c job rest fl d :
  sound s → is_fifo_mode s = false → waiting s i c job rest fl d → next s = Ok (s', r) →
  r = Some job ∨
  ∃ d', waiting s' i c job rest fl d' ∧ delay s' i job d' < delay s i job d.
Proof.
  intros Hwf Hm Hw H. pose proof Hw as (Hi & _).
  assert (order s ≠ []) as Hne by (intros E; by rewrite E in Hi).
  rewrite next_fair in H by done.
  assert (∃ k, length (order s) * 4 = S k)%nat as [k Hk].
  { destruct (order s); [done|]. simpl. by eexists. }
  rewrite Hk in H. exact (scan_progress k (s <| tick ::= Z.succ |>) s' r i c job rest fl d (sound_tick s Hwf) Hw H).
Qed.

Lemma run_next_ok n s : sound s → ∃ s' l, run_next n s = Ok (s', l).
Proof.
  revert s. induction n as [|n IH]; intros s Hwf; simpl; [by eexists _, _|].
  destruct (next_ok s Hwf) as (s1 & r & Hn). rewrite Hn. simpl.
  destruct (IH s1 (sound_next _ _ _ Hwf Hn)) as (s2 & l & ->). simpl. by eexists _, _.
Qed.

Lemma run_next_serves n s i c job rest fl d :
  sound s → is_fifo_mode s = false → waiting s i c job rest fl d → delay s i job d < Z.of_nat n →
  ∃ s' l, run_next n s = Ok (s', l) ∧ job ∈ l.
Proof.
  revert s d. induction n as [|n IH]; intros s d Hwf Hm Hw Hd.
  { unfold delay in Hd. exfalso. nia. }
  cbn [run_next]. destruct (next_ok s Hwf) as (s1 & r & Hn). rewrite Hn. cbn [rbind].
  pose proof (sound_next _ _ _ Hwf Hn) as Hwf1.
  destruct (next_progress _ _ _ _ _ _ _ _ _ Hwf Hm Hw Hn) as [->|(d1 & Hw1 & Hd1)].
  - destruct (run_next_ok n s1 Hwf1) as (s2 & l & ->). eexists _, _. split; [done|]. by left.
  - assert (is_fifo_mode s1 = false) as Hm1.
    { pose proof (next_frame _ _ _ Hn) as Hf. unfold frame in Hf. unfold is_fifo_mode in *.
      assert (policy s1 = policy s) as -> by (injection Hf; intros; congruence). done. }
    destruct (IH s1 d1 Hwf1 Hm1 Hw1) as (s2 & l & -> & Hin); [lia|].
    eexists _, _. split; [done|]. destruct r; [by right|done].
Qed.

(** * Properties *)

Lemma demo_orderly : orderly demo.
Proof.
  exists 2, 1, (Some 4), (Some 8), (Some 9), 5, 4, demo_policy, demo0. split; [reflexivity|].
  apply rtc_l with demo1; [exists (Enqueue (demo_job "a1" "a" 1)); split; [exact I|vm_compute; reflexivity]|].
  apply rtc_l with demo2; [exists (Enqueue (demo_job "a2" "a" 3)); split; [exact I|vm_compute; reflexivity]|].
  apply rtc_l with demo3; [exists (Enqueue (demo_job "b1" "b" 1)); split; [exact I|vm_compute; reflexivity]|].
  apply rtc_l with demo4; [exists (Enqueue (demo_job "a3" "a" 2)); split; [exact I|vm_compute; reflexivity]|].
  apply rtc_once. exists Next. split; [exact I|vm_compute; reflexivity].
Qed.

Lemma orderly_reachable s : orderly s → reachable s.
Proof.
  intros (mi & q & mqc & mqw & mgq & ticks & boost & p & s0 & Hi & Hr).
  exists mi, q, mqc, mqw, mgq, ticks, boost, p, s0. split; [done|]. clear Hi.
  induction Hr as [s|s s1 s2 (c & _ & Hc) _ IH]; [done|]. eapply rtc_l; [by exists c|done].
Qed.

Lemma demo_reachable : reachable demo.
Proof. apply orderly_reachable, demo_orderly. Qed.

(** C1: after any sequence of calls, a complete or a cancel of any job at any time
    included, the counters the quotas are checked against are the truth: the totals
    of every client, of every workspace and of the scheduler count exactly the
    live jobs, no scope exceeds its quota, and a client's in-flight count stays
    between zero and its limit. As long as, besides, every complete was of a job in
    flight and every cancel of a job not in flight, a client's total is its queued jobs
    plus its in-flight count and every queued job is live. The scheduler checks
    neither condition, and the daemon cancels jobs in flight and completes
    waiting ones: [cancel_in_flight_leaks] and [complete_queued_stays_queued] say what
    happens then. *)
Theorem reachable_books s :
  reachable s →
  (∀ c, get0 (client_total s) c = mcount (of_client c) (jobs s)) ∧
  (∀ w, get0 (workspace_total s) w = mcount (of_workspace w) (jobs s)) ∧
  global_total s = Z.of_nat (size (jobs s)) ∧
  quotas_hold s ∧
  (∀ c, c ∈ order s → 0 <= get0 (inflight s) c <= max_inflight_per_client s) ∧
  (orderly s → ∀ c q, queues s !! c = Some q →
     get0 (client_total s) c = Z.of_nat (length q) + get0 (inflight s) c ∧
     ∀ j, j ∈ q → jobs s !! task_id j = Some j).
Proof.
  intros [Hs Hq]%reachable_inv.
  split; [apply (sd_client_total s Hs)|]. split; [apply (sd_workspace_total s Hs)|].
  split; [apply (sd_global_total s Hs)|]. split; [done|]. split.
  - intros c Hc. destruct (sd_inflight s Hs c Hc) as (n & Hn & Hb). by rewrite (get0_Some _ _ _ Hn).
  - intros [[_ Hl] _]%orderly_inv c q Hc. split; [by rewrite (sd_client_total s Hs), (lv_account s Hl c q)|].
    intros j Hj. by apply (lv_queue s Hl c q j Hc Hj).
Qed.

Lemma reachable_books_witness :
  quotas_hold demo ∧ get0 (client_total demo) "a" = Z.of_nat 2 + get0 (inflight demo) "a".
Proof.
  destruct (reachable_books demo demo_reachable) as (_ & _ & _ & Hq & _ & Ha). split; [exact Hq|].
  refine (proj1 (Ha demo_orderly "a" [demo_job "a2" "a" 3; demo_job "a3" "a" 2] _)).
  vm_compute. reflexivity.
Defined.

(** C5: [next] never raises in a reachable state, and a dispatch is exact: the
    job handed out is the head of its client's queue, the client had a free
    slot, the queue loses that head and nothing else, one slot is taken, and
    live jobs, totals, policy and limits stay as they were. *)
Theorem next_dispatches_head s :
  reachable s → ∃ s' r, next s = Ok (s', r) ∧ dispatched s s' r ∧ frame s' = frame s.
Proof.
  intros [Hwf _]%reachable_inv. destruct (next_ok s Hwf) as (s' & r & Hn). exists s', r.
  split; [done|]. split; [by apply next_dispatched|by eapply next_frame].
Qed.

Lemma next_dispatches_head_witness :
  reachable demo ∧ ∃ s' r, next demo = Ok (s', r) ∧ dispatched demo s' r ∧ frame s' = frame demo.
Proof. split; [apply demo_reachable|apply (next_dispatches_head demo demo_reachable)]. Defined.

(** C3: no starvation. In a reachable state of the fair regime, the job at the
    head of a client that has a free slot is dispatched within
    [(2 * cost + 1) * clients] calls of [next], whatever weights, priorities
    and costs the other clients queue. *)
Theorem starvation_free s i c job rest :
  reachable s → is_fifo_mode s = false →
  order s !! i = Some c → queues s !! c = Some (job :: rest) →
  get0 (inflight s) c < max_inflight_per_client s →
  ∃ s' l, run_next (Z.to_nat ((2 * cost job + 1) * Z.of_nat (length (order s)))) s = Ok (s', l) ∧ job ∈ l.
Proof.
  intros [Hwf _]%reachable_inv Hm Hi Hq Hlt.
  assert (c ∈ order s) as Hin by (by eapply list_elem_of_lookup_2).
  destruct (sd_deficit s Hwf c Hin) as (d & Hd & Hd0).
  destruct (sd_inflight s Hwf c Hin) as (fl & Hfl & _). rewrite (get0_Some _ _ _ Hfl) in Hlt.
  apply (run_next_serves _ s i c job rest fl d); [done..|].
  assert (1 <= cost job) as Hc.
  { by destruct (sd_queue s Hwf c _ job Hq) as [_ (_ & _ & _ & _ & ? & _)]; [left|]. }
  unfold delay. set (len := length (order s)).
  assert (0 < len)%nat as Hlen by (pose proof (lookup_lt_Some _ _ _ Hi); unfold len; lia).
  assert (ring_dist i (cursor s `mod` len) len < len)%nat as Hr.
  { pose proof (lookup_lt_Some _ _ _ Hi) as Hil. fold len in Hil.
    pose proof (Nat.mod_upper_bound (cursor s) len ltac:(lia)).
    unfold ring_dist. destruct (Nat.leb_spec (cursor s `mod` len) i); lia. }
  rewrite Z2Nat.id by nia. nia.
Qed.

Lemma starvation_free_witness :
  ∃ s' l, run_next 10 demo = Ok (s', l) ∧ demo_job "b1" "b" 1 ∈ l.
Proof.
  destruct (starvation_free demo 1 "b" (demo_job "b1" "b" 1) [] demo_reachable) as (s' & l & H & Hin);
    [reflexivity..|].
  assert (run_next 6 demo = Ok (s', l)) as H6 by exact H.
  clear H. vm_compute in H6. injection H6 as <- <-. eexists _, _. split; [vm_compute; reflexivity|].
  vm_compute in Hin |- *. exact Hin.
Defined.

(** [preview_next] answers exactly what [next] would and hands back the
    scheduler it was given, but for the decision receipts: these keep what the
    shadow regime recorded during the preview. *)
Theorem preview_is_next s s' r :
  preview_next s = Ok (s', r) ↔
  ∃ s1, next s = Ok (s1, r) ∧ s' = s <| decision_receipts := decision_receipts s1 |>.
Proof.
  split; [apply preview_state|]. intros (s1 & Hn & ->).
  assert (∃ s', preview_next s = Ok (s', r)) as [s' Hp].
  { unfold preview_next. rewrite Hn. by eexists. }
  rewrite Hp. apply preview_state in Hp as (s2 & Hn' & ->). rewrite Hn in Hn'. by simplify_eq.
Qed.

(** cancelling a job in flight succeeds but keeps its slot: the client's
    in-flight count is unchanged while its total drops, and the later
    [complete] of that job, the only call that gives the slot back, raises. *)
Theorem cancel_in_flight_leaks s t job :
  wf s → in_flight s t → jobs s !! t = Some job →
  ∃ s', cancel s t = Ok (s', true) ∧ inflight s' = inflight s ∧
    get0 (client_total s') (client_id job) = get0 (client_total s) (client_id job) - 1 ∧
    complete s' t = Err (SchedulerError "unknown task").
Proof.
  intros Hwf [_ Hnq] Hj. destruct (sd_jobs s Hwf t job Hj) as (_ & _ & Hin).
  destruct (proj1 (sd_order s Hwf _) Hin) as [q Hq].
  eexists. split; [unfold cancel; rewrite Hj; simpl; rewrite Hq; reflexivity|]. simpl.
  split; [done|]. split.
  - rewrite get0_insert_eq, (sd_client_total s Hwf).
    pose proof (mcount_pos (of_client (client_id job)) _ t job Hj (String.eqb_refl _)). lia.
  - unfold complete. simpl. by rewrite lookup_delete_eq.
Qed.

Lemma demo_wf : wf demo.
Proof. apply orderly_inv, demo_orderly. Qed.

Lemma demo_in_flight : in_flight demo "a1".
Proof.
  assert (jobs demo !! "a1" = Some (demo_job "a1" "a" 1)) as Hj by (vm_compute; reflexivity).
  assert (queues demo !! "a" = Some [demo_job "a2" "a" 3; demo_job "a3" "a" 2]) as Hq
    by (vm_compute; reflexivity).
  split; [by eexists|]. rewrite (queued_iff demo "a1" _ _ demo_wf Hj Hq). simpl.
  intros H. repeat apply elem_of_cons in H as [H|H]; [done..|]. by apply not_elem_of_nil in H.
Qed.

Lemma cancel_in_flight_leaks_witness :
  ∃ s', cancel demo "a1" = Ok (s', true) ∧ get0 (inflight s') "a" = 1 ∧
    complete s' "a1" = Err (SchedulerError "unknown task").
Proof.
  destruct (cancel_in_flight_leaks demo "a1" (demo_job "a1" "a" 1) demo_wf demo_in_flight)
    as (s' & Hc & Hi & _ & He); [vm_compute; reflexivity|].
  exists s'. split; [exact Hc|]. split; [rewrite Hi; vm_compute; reflexivity|exact He].
Defined.

(** completing a job that still waits forgets it without unqueueing it:
    the job leaves the registry and the totals, stays in its client's queue
    where a later [next] can hand it out, and the client's in-flight count
    drops for a job that never ran. *)
Theorem complete_queued_stays_queued s t job :
  wf s → queued s t → jobs s !! t = Some job →
  ∃ s', complete s t = Ok s' ∧ jobs s' !! t = None ∧ queued s' t ∧ queues s' = queues s ∧
    get0 (inflight s') (client_id job) = Z.max 0 (get0 (inflight s) (client_id job) - 1).
Proof.
  intros Hwf (c & q & j & Hq & Hin & Ht) Hj. destruct (sd_jobs s Hwf t job Hj) as (_ & _ & Hord).
  destruct (sd_inflight s Hwf _ Hord) as (n & Hn & _).
  eexists. split; [unfold complete; rewrite Hj; simpl; rewrite Hn; reflexivity|]. simpl.
  split; [apply lookup_delete_eq|]. split; [by exists c, q, j|]. split; [done|].
  by rewrite get0_insert_eq, (get0_Some _ _ _ Hn).
Qed.

Lemma demo_queued : queued demo "b1".
Proof. by exists "b", [demo_job "b1" "b" 1], (demo_job "b1" "b" 1); (split; [vm_compute; reflexivity|]); (split; [by left|done]). Qed.

Lemma complete_queued_stays_queued_witness :
  ∃ s', complete demo "b1" = Ok s' ∧ jobs s' !! "b1" = None ∧ queued s' "b1".
Proof.
  destruct (complete_queued_stays_queued demo "b1" (demo_job "b1" "b" 1) demo_wf demo_queued)
    as (s' & Hc & Hn & Hq & _); [vm_compute; reflexivity|].
  exists s'. split; [exact Hc|]. split; [exact Hn|exact Hq].
Defined.

(** a canary rollout only grows: raising the percentage never takes the new
    policy away from a task that already had it, and a task's policy depends
    on its identity alone, so a retry keeps it. *)
Theorem canary_monotone v pv pct pct' p p' t :
  SchedulerPolicy_init "canary" v pv pct = Ok p →
  SchedulerPolicy_init "canary" v pv pct' = Ok p' →
  pct <= pct' → policy_for p t = v → policy_for p' t = v.
Proof.
  unfold SchedulerPolicy_init. intros H H' Hle. py_cases. unfold policy_for; simpl.
  destruct (Z.ltb_spec (canary_bucket t) pct); destruct (Z.ltb_spec (canary_bucket t) pct');
    intros; [done|lia|done|done].
Qed.

Lemma canary_monotone_witness :
  policy_for (mkPolicy "canary" "new" "old" 90) "task-1" = "new".
Proof.
  refine (canary_monotone "new" "old" 60 90 (mkPolicy "canary" "new" "old" 60)
    (mkPolicy "canary" "new" "old" 90) "task-1" _ _ _ _).
  - vm_compute. reflexivity.
  - vm_compute. reflexivity.
  - lia.
  - vm_compute. reflexivity.
Defined.

