(* ===== verification/HubGovernor.v ===== *)
(** The Hub's resource governor ([simplicio_loop/hub_governor.py]): leases
    admitted against global and per-client budgets, behind a circuit breaker
    fed by pressure readings. The monotonic clock is read into an argument
    [now], an integer count of its ticks; percentages are the rationals their
    floats denote, since the code only compares them. *)
From Stdlib Require Import QArith.
From S2P Require Import Prelude PyLib.
Local Open Scope Z_scope.
Local Open Scope py_scope.

(** * Definitions *)

Definition RESOURCE_NAMES : list string :=
  ["cpu"; "memory_bytes"; "disk_bytes"; "gpu"; "processes"; "connections"; "tokens"].

(** [ResourceLimits] and [ResourceRequest] have the same fields and checks. *)
Record Resources := mkResources {
  cpu : Z;
  memory_bytes : Z;
  disk_bytes : Z;
  gpu : Z;
  processes : Z;
  connections : Z;
  tokens : Z;
}.
Definition ResourceLimits := Resources.
Definition ResourceRequest := Resources.

(** [getattr(self, name)] for a resource name. *)
Definition attr (r : Resources) (name : string) : Z :=
  if String.eqb name "cpu" then cpu r
  else if String.eqb name "memory_bytes" then memory_bytes r
  else if String.eqb name "disk_bytes" then disk_bytes r
  else if String.eqb name "gpu" then gpu r
  else if String.eqb name "processes" then processes r
  else if String.eqb name "connections" then connections r
  else if String.eqb name "tokens" then tokens r
  else 0.

Definition as_dict (r : Resources) : list (string * Z) :=
  (λ name, (name, attr r name)) <$> RESOURCE_NAMES.

(** [__post_init__] of both classes. *)
Definition valid_resources (r : Resources) : bool :=
  negb (existsb (λ nv, nv.2 <? 0) (as_dict r)).

Record ResourceLease := mkLease {
  lease_id : string;
  client_id : string;
  task_id : string;
  request : ResourceRequest;
  admitted_at : Z;
  queue : string;
}.

(** ** The circuit breaker *)

Inductive CircuitState : Type := closed | open | half_open.
#[export] Instance CircuitState_eq_dec : EqDecision CircuitState.
Proof. solve_decision. Defined.

Record CircuitBreaker := mkCircuit {
  threshold : Z;
  cooldown : Z;
  failures : Z;
  state : CircuitState;
  reason : string;
  tripped_at : Z;
}.
#[export] Instance CircuitBreaker_eta : Eta CircuitBreaker := λ c,
  mkCircuit (threshold c) (cooldown c) (failures c) (state c) (reason c) (tripped_at c).

Inductive GovernorExn : Type :=
| ValueError (msg : string)
| Throttled (receipt : ThrottleReceipt)
with ThrottleReceipt : Type :=
| mkReceipt (rc_client rc_task rc_resource : string) (rc_requested rc_available : Z)
    (rc_queue rc_reason : string).

Definition CircuitBreaker_init (threshold cooldown : Z) : result GovernorExn CircuitBreaker :=
  if (threshold <? 1) || (cooldown <? 0) then Err (ValueError "circuit settings must be valid")
  else Ok (mkCircuit threshold cooldown 0 closed "" 0).

Definition is_open (c : CircuitBreaker) : bool := bool_decide (state c = open).

Definition allow (c : CircuitBreaker) (now : Z) : CircuitBreaker * bool :=
  let c := if is_open c && (cooldown c <=? now - tripped_at c)
           then c <| state := half_open |> else c in
  (c, negb (is_open c)).

Definition circuit_record_failure (c : CircuitBreaker) (why : string) (now : Z) : CircuitBreaker * bool :=
  let c := c <| failures ::= Z.succ |> <| reason := why |> in
  let c := if threshold c <=? failures c then c <| state := open |> <| tripped_at := now |> else c in
  (c, is_open c).

Definition circuit_recover (c : CircuitBreaker) : CircuitBreaker :=
  c <| failures := 0 |> <| state := closed |> <| reason := "" |> <| tripped_at := 0 |>.

(** ** Pressure readings *)

Record PressureReading := mkReading {
  cpu_percent : Q;
  rd_memory_bytes : Z;
  disk_percent : Q;
  gpu_percent : Q;
  source : string;
}.
Record GPUReading := mkGPUReading {
  memory_used_bytes : Z;
  memory_total_bytes : Z;
  gpu_source : string;
}.

(** [ResourceProbe.read]: the first reader that answers, in the documented
    order; the disk and GPU figures come from their own probes. *)
Definition probe_read (cgroup psutil stdlib : option PressureReading) (disk gpu : Q) : PressureReading :=
  let base :=
    match cgroup, psutil, stdlib with
    | Some r, _, _ => r
    | None, Some r, _ => r
    | None, None, Some r => r
    | None, None, None => mkReading 0 0 0 0 "unavailable"
    end in
  mkReading (cpu_percent base) (rd_memory_bytes base) disk gpu (source base).

(** [_read_disk_percent], on what [shutil.disk_usage] answered. *)
Definition read_disk_percent (usage : option (Z * Z)) : Q :=
  match usage with
  | None => 0
  | Some (used, total) => if total <=? 0 then 0 else ((inject_Z used / inject_Z total) * 100)%Q
  end.

(** ** Usage counters *)

Definition Usage := gmap string Z.
Definition Usage_init : Usage := list_to_map ((λ name, (name, 0)) <$> RESOURCE_NAMES).

Definition Usage_add (u : Usage) (r : ResourceRequest) : Usage :=
  foldl (λ u '(name, value), <[name := get0 u name + value]> u) u (as_dict r).

Definition Usage_subtract (u : Usage) (r : ResourceRequest) : Usage :=
  foldl (λ u '(name, value), <[name := Z.max 0 (get0 u name - value)]> u) u (as_dict r).

(** ** The governor *)

Record ResourceGovernor := mkGovernor {
  limits : ResourceLimits;
  client_limits : gmap string ResourceLimits;
  usage : Usage;
  client_usage : gmap string Usage;
  leases : gmap string ResourceLease;
  receipts : list ThrottleReceipt;
  draining : bool;
  circuit : CircuitBreaker;
}.
#[export] Instance ResourceGovernor_eta : Eta ResourceGovernor := λ g,
  mkGovernor (limits g) (client_limits g) (usage g) (client_usage g) (leases g)
    (receipts g) (draining g) (circuit g).

Definition ResourceGovernor_init (lim : ResourceLimits) (clim : gmap string ResourceLimits)
    (threshold cooldown : Z) : result GovernorExn ResourceGovernor :=
  let? c := CircuitBreaker_init threshold cooldown in
  Ok (mkGovernor lim clim Usage_init ∅ ∅ [] false c).

Fixpoint first_over (used : Usage) (lim : ResourceLimits) (items : list (string * Z)) : option string :=
  match items with
  | [] => None
  | (name, value) :: items' =>
      let limit := attr lim name in
      if negb (limit =? 0) && (limit <? get0 used name + value) then Some name
      else first_over used lim items'
  end.

Definition over_budget (used : Usage) (r : ResourceRequest) (lim : ResourceLimits) : option string :=
  first_over used lim (as_dict r).

(** [_receipt]: the receipt is kept and given back; [raise ResourceThrottled]
    leaves with it. *)
Definition throttle (g : ResourceGovernor) (client task resource : string) (requested available : Z)
    (q why : string) : ResourceGovernor * result GovernorExn ResourceLease :=
  let receipt := mkReceipt client task resource requested (Z.max 0 available) q why in
  (g <| receipts ::= (λ l, l ++ [receipt]) |>, Err (Throttled receipt)).

(** The budget checks and the registration of [admit], after its gates. *)
Definition admit_budgets (g : ResourceGovernor) (now : Z) (client task : string) (r : ResourceRequest)
    (q key : string) : ResourceGovernor * result GovernorExn ResourceLease :=
  match over_budget (usage g) r (limits g) with
  | Some name =>
      throttle g client task name (attr r name)
        (Z.max 0 (attr (limits g) name - get0 (usage g) name)) q "global_budget"
  | None =>
      let cu := default Usage_init (client_usage g !! client) in
      let g := g <| client_usage ::= <[client := cu]> |> in
      let over :=
        match client_limits g !! client with
        | Some cl => match over_budget cu r cl with Some name => Some (cl, name) | None => None end
        | None => None
        end in
      match over with
      | Some (cl, name) =>
          throttle g client task name (attr r name)
            (Z.max 0 (attr cl name - get0 cu name)) q "client_budget"
      | None =>
          let lease := mkLease key client task r now q in
          (g <| leases ::= <[key := lease]> |>
             <| usage ::= (λ u, Usage_add u r) |>
             <| client_usage ::= <[client := Usage_add cu r]> |>, Ok lease)
      end
  end.

Definition governor_admit (g : ResourceGovernor) (now : Z) (client task : string) (r : ResourceRequest)
    (q : string) (lid : option string) : ResourceGovernor * result GovernorExn ResourceLease :=
  if negb (Str.truthy client) || negb (Str.truthy task) then
    (g, Err (ValueError "client_id and task_id are required"))
  else
    let key := match lid with Some k => if Str.truthy k then k else task | None => task end in
    match leases g !! key with
    | Some lease => (g, Ok lease)
    | None =>
        if draining g then throttle g client task "" 0 0 q "draining"
        else
          let (c, ok) := allow (circuit g) now in
          let g := g <| circuit := c |> in
          if negb ok then throttle g client task "" 0 0 q "circuit_open"
          else admit_budgets g now client task r q key
    end.

Definition release (g : ResourceGovernor) (lease : ResourceLease) : ResourceGovernor * bool :=
  match leases g !! lease_id lease with
  | None => (g, false)
  | Some current =>
      let g := g <| leases ::= delete (lease_id lease) |>
                 <| usage ::= (λ u, Usage_subtract u (request current)) |> in
      (match client_usage g !! client_id current with
       | Some cu => g <| client_usage ::= <[client_id current := Usage_subtract cu (request current)]> |>
       | None => g
       end, true)
  end.

Definition PRESSURE_REASONS : list string :=
  ["oom"; "thrashing"; "disk_full"; "gpu_pressure"; "cpu_pressure"].

Definition record_failure (g : ResourceGovernor) (now : Z) (why : string) :
    result GovernorExn (ResourceGovernor * bool) :=
  if negb (bool_decide (why ∈ PRESSURE_REASONS)) then Err (ValueError "unsupported pressure reason")
  else
    let (c, tripped) := circuit_record_failure (circuit g) why now in
    Ok (g <| circuit := c |>, tripped).

(** [bool(limit) and value > limit] *)
Definition exceeds (value limit : Q) : bool :=
  negb (Qeq_bool limit 0) && negb (Qle_bool value limit).

(** The thresholds of [evaluate_pressure]; zero disables one. *)
Record PressureLimits := mkPressureLimits {
  memory_limit_bytes : Z;
  cpu_percent_limit : Q;
  disk_percent_limit : Q;
  gpu_percent_limit : Q;
}.

Definition pressure_reason (rd : PressureReading) (pl : PressureLimits) : option string :=
  if exceeds (inject_Z (rd_memory_bytes rd)) (inject_Z (memory_limit_bytes pl)) then Some "thrashing"
  else if exceeds (disk_percent rd) (disk_percent_limit pl) then Some "disk_full"
  else if exceeds (gpu_percent rd) (gpu_percent_limit pl) then Some "gpu_pressure"
  else if exceeds (cpu_percent rd) (cpu_percent_limit pl) then Some "cpu_pressure"
  else None.

(** The two branches [evaluate_pressure] and [evaluate_gpu_pressure] share;
    the answer is [over_budget] and [tripped]. *)
Definition feed_circuit (g : ResourceGovernor) (now : Z) (over : option string) :
    ResourceGovernor * (bool * bool) :=
  match over with
  | Some why =>
      let (c, tripped) := circuit_record_failure (circuit g) why now in
      (g <| circuit := c |>, (true, tripped))
  | None =>
      let c := (allow (circuit g) now).1 in
      let c := if bool_decide (state c = half_open) then circuit_recover c else c in
      (g <| circuit := c |>, (false, false))
  end.

Definition evaluate_pressure (g : ResourceGovernor) (now : Z) (rd : PressureReading)
    (pl : PressureLimits) : ResourceGovernor * (bool * bool) :=
  feed_circuit g now (pressure_reason rd pl).

Definition evaluate_gpu_pressure (g : ResourceGovernor) (now : Z) (rd : GPUReading)
    (memory_used_limit_bytes : Z) : ResourceGovernor * (bool * bool) :=
  feed_circuit g now
    (if negb (memory_used_limit_bytes =? 0) && negb (String.eqb (gpu_source rd) "unavailable")
        && (memory_used_limit_bytes <? memory_used_bytes rd)
     then Some "gpu_pressure" else None).

Definition recover (g : ResourceGovernor) : ResourceGovernor := g <| circuit ::= circuit_recover |>.

Definition drain (g : ResourceGovernor) : ResourceGovernor := g <| draining := true |>.

(** The leases are released one by one. A dict iterates in insertion order,
    [map_to_list] in key order: the releases commute. *)
Definition shutdown (g : ResourceGovernor) : ResourceGovernor :=
  let g := g <| draining := true |> in
  foldl (λ g lease, (release g lease).1) g (map_to_list (leases g)).*2.

Record GovernorStatus := mkStatus {
  st_draining : bool;
  st_limits : list (string * Z);
  st_used : Usage;
  st_client_used : gmap string Usage;
  st_active_leases : Z;
  st_throttle_receipts : Z;
  st_circuit : CircuitBreaker;
}.

Definition status (g : ResourceGovernor) : GovernorStatus :=
  mkStatus (draining g) (as_dict (limits g)) (usage g) (client_usage g)
    (Z.of_nat (size (leases g))) (Z.of_nat (length (receipts g))) (circuit g).

(** * Specification *)

Definition demand (name : string) (l : ResourceLease) : Z := attr (request l) name.
Definition client_demand (c name : string) (l : ResourceLease) : Z :=
  if String.eqb (client_id l) c then demand name l else 0.

Definition client_used (g : ResourceGovernor) (c name : string) : Z :=
  get0 (default Usage_init (client_usage g !! c)) name.

(** The counters are the demand of the live leases, by resource and by client. *)
Record accounted (g : ResourceGovernor) : Prop := {
  acc_usage name : get0 (usage g) name = msum (demand name) (leases g);
  acc_client c name : client_used g c name = msum (client_demand c name) (leases g);
  acc_lease k l : leases g !! k = Some l →
    lease_id l = k ∧ valid_resources (request l) = true ∧ is_Some (client_usage g !! client_id l);
}.

Definition within (lim : ResourceLimits) (used : string → Z) : Prop :=
  ∀ name, attr lim name ≠ 0 → used name <= attr lim name.

(** No budget is exceeded; a limit of zero is no limit. *)
Definition budgets_hold (g : ResourceGovernor) : Prop :=
  within (limits g) (get0 (usage g)) ∧
  ∀ c cl, client_limits g !! c = Some cl → within cl (client_used g c).

Inductive step : ResourceGovernor → ResourceGovernor → Prop :=
| step_admit g now client task r q lid :
    valid_resources r = true → step g (governor_admit g now client task r q lid).1
| step_release g l : step g (release g l).1
| step_record g now why g' b : record_failure g now why = Ok (g', b) → step g g'
| step_pressure g now rd pl : step g (evaluate_pressure g now rd pl).1
| step_gpu g now rd lim : step g (evaluate_gpu_pressure g now rd lim).1
| step_recover g : step g (recover g)
| step_drain g : step g (drain g)
| step_shutdown g : step g (shutdown g).

Definition reachable (g : ResourceGovernor) : Prop :=
  ∃ lim clim threshold cooldown g0,
    valid_resources lim = true ∧ (∀ c cl, clim !! c = Some cl → valid_resources cl = true) ∧
    ResourceGovernor_init lim clim threshold cooldown = Ok g0 ∧ rtc step g0 g.

(** What the readings, the clock and the drain switch leave alone. *)
Definition books (g : ResourceGovernor) :=
  (limits g, client_limits g, usage g, client_usage g, leases g).

(** [r] fits next to what is used. *)
Definition fits (used : Usage) (r : ResourceRequest) (lim : ResourceLimits) : Prop :=
  ∀ name, attr lim name ≠ 0 → get0 used name + attr r name <= attr lim name.

(** The registration of a lease. *)
Definition add_lease (g : ResourceGovernor) (cu : Usage) (l : ResourceLease) : ResourceGovernor :=
  g <| leases ::= <[lease_id l := l]> |>
    <| usage ::= (λ u, Usage_add u (request l)) |>
    <| client_usage ::= <[client_id l := Usage_add cu (request l)]> |>.

(** [readings], each at its time; the readings over the limits. *)
Definition run_readings (g : ResourceGovernor) (pl : PressureLimits) (rds : list (Z * PressureReading)) :
    ResourceGovernor :=
  foldl (λ g '(t, rd), (evaluate_pressure g t rd pl).1) g rds.
Fixpoint overs (pl : PressureLimits) (rds : list (Z * PressureReading)) : Z :=
  match rds with
  | [] => 0
  | (_, rd) :: rds' => (match pressure_reason rd pl with Some _ => 1 | None => 0 end) + overs pl rds'
  end.

(** A governor for the examples: four cpus, two of them at most for client
    [a], and a breaker that trips at the second failure. *)
Definition one_cpu (n : Z) : ResourceRequest := mkResources n 0 0 0 0 0 0.
Definition demo0 : ResourceGovernor :=
  mkGovernor (one_cpu 4) {["a" := one_cpu 2]} Usage_init ∅ ∅ [] false (mkCircuit 2 30 0 closed "" 0).
Definition demo1 : ResourceGovernor := (governor_admit demo0 1 "a" "t1" (one_cpu 2) "q" None).1.
Definition demo : ResourceGovernor := (governor_admit demo1 2 "b" "t2" (one_cpu 1) "q" None).1.
Definition hot : PressureReading := mkReading 0 900 0 0 "cgroup".
Definition calm : PressureReading := mkReading 0 10 0 0 "cgroup".
Definition alarm : PressureLimits := mkPressureLimits 500 0 0 0.
Definition tripped : ResourceGovernor := run_readings demo alarm [(3, hot); (4, hot)].

(** * Lemmas *)

(** ** Usage counters *)

Lemma attr_other r name : name ∉ RESOURCE_NAMES → attr r name = 0.
Proof.
  intros Hn. unfold attr.
  repeat match goal with
  | |- context [String.eqb name ?x] =>
      destruct (String.eqb_spec name x) as [->|];
        [destruct Hn; apply (bool_decide_unpack _); vm_compute; exact I|]
  end. done.
Qed.

Lemma names_nodup : NoDup RESOURCE_NAMES.
Proof. apply (bool_decide_unpack _). vm_compute. exact I. Qed.

(** A pass over distinct names that rewrites each counter in place. *)
Lemma fold_counters (f : string → Z) (op : Z → Z → Z) (l : list string) (u : Usage) name :
  NoDup l →
  get0 (foldl (λ u '(n, v), <[n := op (get0 u n) v]> u) u ((λ n, (n, f n)) <$> l)) name =
  if decide (name ∈ l) then op (get0 u name) (f name) else get0 u name.
Proof.
  revert u. induction l as [|n l IH]; intros u Hnd; [done|]. inv Hnd. simpl. rewrite IH by done.
  destruct (decide (name = n)) as [->|Hne].
  - rewrite decide_False by done. rewrite get0_insert_eq. by rewrite decide_True by (by left).
  - rewrite get0_insert_ne by done. destruct (decide (name ∈ l)).
    + by rewrite decide_True by (by right).
    + rewrite decide_False; [done|]. by intros [?|?]%elem_of_cons.
Qed.

Lemma get0_Usage_add u r name : get0 (Usage_add u r) name = get0 u name + attr r name.
Proof.
  unfold Usage_add, as_dict. rewrite (fold_counters (attr r) Z.add) by apply names_nodup.
  case_decide as H; [done|]. rewrite (attr_other r name H). lia.
Qed.

Lemma get0_Usage_subtract u r name :
  0 <= attr r name <= get0 u name → get0 (Usage_subtract u r) name = get0 u name - attr r name.
Proof.
  intros Hr. unfold Usage_subtract, as_dict.
  rewrite (fold_counters (attr r) (λ a b, Z.max 0 (a - b))) by apply names_nodup.
  case_decide as H; [lia|]. rewrite (attr_other r name H). lia.
Qed.

Lemma get0_Usage_init name : get0 Usage_init name = 0.
Proof.
  unfold get0, Usage_init. destruct (list_to_map _ !! name) as [v|] eqn:E; [|done].
  apply elem_of_list_to_map_2 in E. apply list_elem_of_fmap in E as (n & [= -> ->] & _). done.
Qed.

Lemma valid_attr r name : valid_resources r = true → 0 <= attr r name.
Proof.
  intros H. destruct (decide (name ∈ RESOURCE_NAMES)) as [Hin|Hout];
    [|by rewrite attr_other].
  unfold valid_resources in H. apply negb_true_iff in H.
  destruct (Z.ltb_spec (attr r name) 0) as [Hlt|]; [|done].
  assert (existsb (λ nv, nv.2 <? 0) (as_dict r) = true) as Hex; [|congruence].
  apply existsb_exists. exists (name, attr r name). split; [|simpl; lia].
  apply list_elem_of_In. unfold as_dict. apply list_elem_of_fmap. by exists name.
Qed.

(** ** Budget checks *)

Lemma first_over_None used lim l (f : string → Z) :
  first_over used lim ((λ n, (n, f n)) <$> l) = None ↔
  ∀ n, n ∈ l → attr lim n ≠ 0 → get0 used n + f n <= attr lim n.
Proof.
  induction l as [|n l IH]; simpl; [split; [set_solver|done]|].
  destruct (Z.eqb_spec (attr lim n) 0) as [H0|H0]; simpl;
    [|destruct (Z.ltb_spec (attr lim n) (get0 used n + f n)) as [Hlt|Hge]; simpl].
  - rewrite IH. split; intros H n'; [intros [->|?]%elem_of_cons; [done|auto]|intros; apply H; [by right|done]].
  - split; [done|]. intros H. specialize (H n ltac:(by left) H0). lia.
  - rewrite IH. split; intros H n'; [intros [->|?]%elem_of_cons; [done|auto]|intros; apply H; [by right|done]].
Qed.

Lemma over_budget_None used r lim : over_budget used r lim = None ↔ fits used r lim.
Proof.
  unfold over_budget, as_dict, fits. rewrite first_over_None. split; intros H n; [|auto].
  intros H0. apply H; [|done]. destruct (decide (n ∈ RESOURCE_NAMES)) as [|Hout]; [done|].
  by rewrite attr_other in H0.
Qed.

(** ** Leases *)

Lemma client_used_insert g c cu c' name :
  client_used (g <| client_usage ::= <[c := cu]> |>) c' name =
  if decide (c = c') then get0 cu name else client_used g c' name.
Proof. unfold client_used. simpl. rewrite lookup_insert. by case_decide. Qed.

(** Opening the counters of a client changes no usage. *)
Lemma client_used_open g c c' name :
  client_used (g <| client_usage ::= <[c := default Usage_init (client_usage g !! c)]> |>) c' name =
  client_used g c' name.
Proof. rewrite client_used_insert. case_decide; [by subst|done]. Qed.

Lemma accounted_add g cu l :
  accounted g → valid_resources (request l) = true → leases g !! lease_id l = None →
  cu = default Usage_init (client_usage g !! client_id l) → accounted (add_lease g cu l).
Proof.
  intros [Hu Hc Hl] Hv Hf ->. constructor; unfold add_lease.
  - intros name. simpl. rewrite get0_Usage_add, Hu, msum_insert by done. change (demand name l) with (attr (request l) name). lia.
  - intros c name. simpl. rewrite msum_insert by done. rewrite <- Hc.
    unfold client_used at 1. simpl. rewrite lookup_insert. unfold client_demand, demand.
    case_decide as E.
    + subst c. simpl. rewrite get0_Usage_add, String.eqb_refl. unfold client_used. lia.
    + rewrite (proj2 (String.eqb_neq _ _)) by done. unfold client_used. lia.
  - intros k l'. simpl. rewrite lookup_insert. case_decide as E.
    + intros [= <-]. subst k. split; [done|]. split; [done|]. rewrite lookup_insert_eq. by eexists.
    + intros Hk. destruct (Hl k l' Hk) as (? & ? & Hs). split; [done|]. split; [done|].
      rewrite lookup_insert. case_decide; [by eexists|done].
Qed.

(** [admit] by cases: the live lease, a refusal that keeps the books, or a
    fresh lease that fits both budgets. *)
Lemma admit_cases g now client task r q lid :
  let key := match lid with Some k => if Str.truthy k then k else task | None => task end in
  let g1 := g <| circuit := (allow (circuit g) now).1 |> in
  let cu := default Usage_init (client_usage g !! client) in
  let l := mkLease key client task r now q in
  match governor_admit g now client task r q lid with
  | (g', Ok l') =>
      (leases g !! key = Some l' ∧ g' = g) ∨
      (client ≠ "" ∧ task ≠ "" ∧ leases g !! key = None ∧ draining g = false ∧
       (allow (circuit g) now).2 = true ∧ fits (usage g) r (limits g) ∧
       (∀ cl, client_limits g !! client = Some cl → fits cu r cl) ∧
       l' = l ∧ g' = add_lease (g1 <| client_usage ::= <[client := cu]> |>) cu l)
  | (g', Err (ValueError _)) => (client = "" ∨ task = "") ∧ g' = g
  | (g', Err (Throttled e)) =>
      leases g !! key = None ∧
      (draining g = true ∨ (allow (circuit g) now).2 = false ∨ ¬ fits (usage g) r (limits g) ∨
       ∃ cl, client_limits g !! client = Some cl ∧ ¬ fits cu r cl) ∧
      ∃ cus c, g' = g <| circuit := c |> <| client_usage := cus |> <| receipts ::= (λ l, l ++ [e]) |> ∧
        (cus = client_usage g ∨ cus = <[client := cu]> (client_usage g))
  end.
Proof.
  intros key g1 cu l. unfold governor_admit. fold key.
  destruct (negb (Str.truthy client) || negb (Str.truthy task)) eqn:E0.
  { split; [|done]. apply orb_true_iff in E0 as [E%negb_true_iff|E%negb_true_iff];
      [left; destruct (decide (client = "")) as [|Hne]|right; destruct (decide (task = "")) as [|Hne]];
      try done; apply Str.truthy_ne in Hne; congruence. }
  apply orb_false_iff in E0 as [Hc Ht]. apply negb_false_iff, Str.truthy_ne in Hc, Ht.
  destruct (leases g !! key) as [l0|] eqn:Hk; [left; done|].
  assert (∀ g2 res rq av why, g2 = g ∨ g2 = g1 ∨ g2 = g1 <| client_usage ::= <[client := cu]> |> →
    ∃ e cus c, throttle g2 client task res rq av q why = (g <| circuit := c |> <| client_usage := cus |>
        <| receipts ::= (λ l, l ++ [e]) |>, Err (Throttled e)) ∧
      (cus = client_usage g ∨ cus = <[client := cu]> (client_usage g))) as Hth.
  { intros g2 res rq av why Hg2. unfold throttle. eexists _, (client_usage g2), (circuit g2).
    destruct g; destruct Hg2 as [->|[-> | ->]]; (split; [reflexivity|]);
      [left; reflexivity..|right; reflexivity]. }
  destruct (draining g) eqn:Hd.
  { destruct (Hth g "" 0 0 "draining" ltac:(auto)) as (e & cus & c & -> & Hcus).
    split; [done|]. split; [by left|]. by exists cus, c. }
  destruct (allow (circuit g) now) as [c1 ok] eqn:Ha. cbn [fst snd].
  change (g <| circuit := c1 |>) with g1.
  destruct ok; cbn [negb].
  2:{ destruct (Hth g1 "" 0 0 "circuit_open" ltac:(auto)) as (e & cus & c & -> & Hcus).
      split; [done|]. split; [right; by left|]. by exists cus, c. }
  unfold admit_budgets. fold g1.
  change (usage g1) with (usage g). change (limits g1) with (limits g).
  change (client_limits g1) with (client_limits g). change (client_usage g1) with (client_usage g).
  destruct (over_budget (usage g) r (limits g)) as [n|] eqn:Hg.
  { edestruct (Hth g1 n) as (e & cus & c & -> & Hcus); [auto|].
    split; [done|]. split; [|by exists cus, c]. right; right; left.
    intros Hf%over_budget_None. congruence. }
  apply over_budget_None in Hg. fold cu.
  change (client_limits (g1 <| client_usage ::= <[client := cu]> |>)) with (client_limits g).
  destruct (client_limits g !! client) as [cl|] eqn:Hcl.
  - destruct (over_budget cu r cl) as [n|] eqn:Ho.
    + edestruct (Hth (g1 <| client_usage ::= <[client := cu]> |>) n) as (e & cus & c & Heq & Hcus); [auto|].
      cbn zeta iota beta. rewrite Heq.
      split; [done|]. split; [|by exists cus, c]. right; right; right. exists cl. split; [done|].
      intros Hf%over_budget_None. congruence.
    + cbn zeta iota beta. right. do 6 (split; [done|]).
      split; [|split; [done|reflexivity]]. intros cl' [= <-]. by apply over_budget_None.
  - cbn zeta iota beta. right. do 6 (split; [done|]).
    split; [done|split; [done|reflexivity]].
Qed.

Lemma client_used_noop g cus c name client :
  cus = client_usage g ∨
  cus = <[client := default Usage_init (client_usage g !! client)]> (client_usage g) →
  get0 (default Usage_init (cus !! c)) name = client_used g c name.
Proof.
  intros [-> | ->]; [done|]. rewrite lookup_insert. unfold client_used. by case_decide; subst.
Qed.

(** A refusal keeps the books. *)
Lemma refused_books g c cus rs client :
  accounted g → cus = client_usage g ∨
  cus = <[client := default Usage_init (client_usage g !! client)]> (client_usage g) →
  accounted (g <| circuit := c |> <| client_usage := cus |> <| receipts ::= rs |>).
Proof.
  intros [Hu Hc Hl] Hcus. constructor; simpl.
  - done.
  - intros c' name. rewrite <- Hc. unfold client_used at 1. simpl. by eapply client_used_noop.
  - intros k l Hk. destruct (Hl k l Hk) as (? & ? & ?). split; [done|]. split; [done|].
    destruct Hcus as [-> | ->]; [done|]. rewrite lookup_insert. case_decide; [by eexists|done].
Qed.

Lemma budgets_refused g c cus rs client :
  budgets_hold g → cus = client_usage g ∨
  cus = <[client := default Usage_init (client_usage g !! client)]> (client_usage g) →
  budgets_hold (g <| circuit := c |> <| client_usage := cus |> <| receipts ::= rs |>).
Proof.
  intros [Hg Hc] Hcus. split; [exact Hg|]. simpl. intros c' cl Hcl name H0. unfold client_used. simpl.
  rewrite (client_used_noop g cus c' name client Hcus). by apply (Hc c' cl).
Qed.

Lemma inv_admit g now client task r q lid :
  accounted g → budgets_hold g → valid_resources r = true →
  accounted (governor_admit g now client task r q lid).1 ∧ budgets_hold (governor_admit g now client task r q lid).1.
Proof.
  intros Ha Hb Hv. pose proof (admit_cases g now client task r q lid) as H. cbv zeta in H.
  destruct (governor_admit g now client task r q lid) as [g' [l|[m|e]]]; simpl.
  - destruct H as [[_ ->]|(_ & _ & Hk & _ & _ & Hfg & Hfc & -> & ->)]; [done|].
    set (key := match lid with Some k => _ | None => task end) in *.
    set (cu := default Usage_init (client_usage g !! client)) in *.
    set (l := mkLease key client task r now q).
    set (g1 := g <| circuit := (allow (circuit g) now).1 |> <| client_usage ::= <[client := cu]> |>).
    assert (accounted g1) as Ha1.
    { exact (refused_books g _ (<[client := cu]> (client_usage g)) (λ x, x) client Ha (or_intror eq_refl)). }
    assert (cu = default Usage_init (client_usage g1 !! client_id l)) as Hcu.
    { unfold g1. simpl. by rewrite lookup_insert_eq. }
    split; [exact (accounted_add g1 cu l Ha1 Hv Hk Hcu)|].
    destruct Hb as [Hbg Hbc]. split; unfold add_lease; simpl.
    + intros name H0. simpl. rewrite get0_Usage_add. by apply Hfg.
    + intros c cl Hcl name H0. unfold client_used. simpl. rewrite !lookup_insert.
      case_decide as E; [subst c; simpl|].
      * rewrite get0_Usage_add. by apply (Hfc cl Hcl).
      * by apply (Hbc c cl).
  - by destruct H as [_ ->].
  - destruct H as (_ & _ & cus & c & -> & Hcus). split; [by eapply refused_books|by eapply budgets_refused].
Qed.

Lemma demand_nonneg g name :
  accounted g → ∀ k l, leases g !! k = Some l → 0 <= demand name l.
Proof. intros Ha k l Hk. destruct (acc_lease g Ha k l Hk) as (_ & Hv & _). by apply valid_attr. Qed.

Lemma client_demand_nonneg g c name :
  accounted g → ∀ k l, leases g !! k = Some l → 0 <= client_demand c name l.
Proof.
  intros Ha k l Hk. unfold client_demand. destruct (String.eqb _ _); [|done].
  by apply (demand_nonneg g name Ha k l).
Qed.

(** Releasing a live lease takes exactly its demand off both counters. *)
Lemma release_live g l l0 :
  accounted g → leases g !! lease_id l = Some l0 →
  let g' := (release g l).1 in
  (release g l).2 = true ∧ leases g' = delete (lease_id l) (leases g) ∧ accounted g' ∧
  (∀ name, get0 (usage g') name <= get0 (usage g) name) ∧
  (∀ c name, client_used g' c name <= client_used g c name) ∧
  limits g' = limits g ∧ client_limits g' = client_limits g ∧ draining g' = draining g.
Proof.
  intros Ha Hk. destruct (acc_lease g Ha _ _ Hk) as (_ & Hv & [cu Hcu]).
  unfold release. rewrite Hk. simpl. rewrite Hcu. simpl.
  assert (∀ name, get0 (Usage_subtract (usage g) (request l0)) name
                  = get0 (usage g) name - demand name l0) as Hsub.
  { intros name. apply get0_Usage_subtract. split; [by apply valid_attr|].
    rewrite (acc_usage g Ha). apply (msum_elem (demand name) _ (lease_id l)); [|done].
    by apply demand_nonneg. }
  assert (∀ name, get0 cu name = client_used g (client_id l0) name) as Hcu'.
  { intros name. unfold client_used. by rewrite Hcu. }
  assert (∀ name, get0 (Usage_subtract cu (request l0)) name
                  = client_used g (client_id l0) name - demand name l0) as Hcsub.
  { intros name. rewrite <- Hcu'. apply get0_Usage_subtract. split; [by apply valid_attr|].
    rewrite Hcu', (acc_client g Ha).
    pose proof (msum_elem (client_demand (client_id l0) name) (leases g) (lease_id l) l0) as H.
    assert (client_demand (client_id l0) name l0 = demand name l0) as E
      by (unfold client_demand; by rewrite String.eqb_refl).
    rewrite E in H. apply H; [|done]. by apply client_demand_nonneg. }
  assert (∀ name, 0 <= demand name l0) as Hpos by (intros; by apply valid_attr).
  split; [done|]. split; [done|]. split; [|split; [|split; [|done]]].
  - constructor; simpl.
    + intros name. rewrite Hsub, (acc_usage g Ha), (msum_delete _ _ _ l0) by done. done.
    + intros c name. unfold client_used. simpl. rewrite lookup_insert.
      rewrite (msum_delete _ _ _ l0) by done. rewrite <- (acc_client g Ha).
      unfold client_demand. case_decide as E.
      * subst c. simpl. rewrite Hcsub, String.eqb_refl. done.
      * rewrite (proj2 (String.eqb_neq _ _)) by done. unfold client_used. lia.
    + intros k l' [_ Hk']%lookup_delete_Some. destruct (acc_lease g Ha k l' Hk') as (? & ? & ?).
      split; [done|]. split; [done|]. rewrite lookup_insert. case_decide; [by eexists|done].
  - intros name. rewrite Hsub. specialize (Hpos name). lia.
  - intros c name. unfold client_used at 1. simpl. rewrite lookup_insert. case_decide as E.
    + subst c. simpl. rewrite Hcsub. specialize (Hpos name). lia.
    + done.
Qed.

Lemma inv_release g l :
  accounted g → budgets_hold g → accounted (release g l).1 ∧ budgets_hold (release g l).1.
Proof.
  intros Ha [Hg Hc]. destruct (leases g !! lease_id l) as [l0|] eqn:Hk;
    [|unfold release; rewrite Hk; split; [done|by split]].
  destruct (release_live g l l0 Ha Hk) as (_ & _ & Ha' & Hu & Hcu & Hl & Hcl & _).
  split; [done|]. split.
  - intros name H0. rewrite Hl in *. specialize (Hg name H0). specialize (Hu name). lia.
  - intros c cl. rewrite Hcl. intros Hcl' name H0. specialize (Hc c cl Hcl' name H0).
    specialize (Hcu c name). lia.
Qed.

(** Releasing all the leases of a list, whatever its order. *)
Lemma inv_release_all g ls :
  accounted g → budgets_hold g →
  let g' := foldl (λ g l, (release g l).1) g ls in accounted g' ∧ budgets_hold g'.
Proof.
  revert g. induction ls as [|l ls IH]; intros g Ha Hb; [done|].
  destruct (inv_release g l Ha Hb) as [Ha' Hb']. apply (IH _ Ha' Hb').
Qed.

Lemma release_all_leases g ls k l :
  accounted g → budgets_hold g →
  leases (foldl (λ g l, (release g l).1) g ls) !! k = Some l →
  leases g !! k = Some l ∧ k ∉ lease_id <$> ls.
Proof.
  revert g. induction ls as [|l0 ls IH]; intros g Ha Hb H; [split; [done|set_solver]|].
  destruct (inv_release g l0 Ha Hb) as [Ha' Hb'].
  apply (IH _ Ha' Hb') in H as [Hk Hni].
  destruct (leases g !! lease_id l0) as [l1|] eqn:E.
  - destruct (release_live g l0 l1 Ha E) as (_ & Hd & _). rewrite Hd in Hk.
    apply lookup_delete_Some in Hk as [Hne Hk]. split; [done|]. simpl. set_solver.
  - unfold release in Hk. rewrite E in Hk. split; [done|]. simpl. intros [->|?]%elem_of_cons; [|done].
    simpl in Hk. congruence.
Qed.

Lemma books_inv g g' :
  books g' = books g → accounted g ∧ budgets_hold g → accounted g' ∧ budgets_hold g'.
Proof.
  unfold books. intros H [[Hu Hc Hl] [Hg Hcb]]. injection H as E1 E2 E3 E4 E5.
  unfold budgets_hold, client_used in *.
  split; [constructor|split]; unfold client_used; rewrite ?E1, ?E2, ?E3, ?E4, ?E5; done.
Qed.

Lemma feed_books g now over : books (feed_circuit g now over).1 = books g.
Proof. unfold feed_circuit. destruct over; [destruct (circuit_record_failure _ _ _)|]; done. Qed.

Lemma inv_step g g' :
  accounted g ∧ budgets_hold g → step g g' → accounted g' ∧ budgets_hold g'.
Proof.
  intros [Ha Hb] Hs. inv Hs as [? now client task r q lid Hv|? l|? now why ? b H|? now rd pl|? now rd lim| | |].
  - by apply inv_admit.
  - by apply inv_release.
  - unfold record_failure in H. destruct (negb _); [done|].
    destruct (circuit_record_failure _ _ _). injection H as <- _. by apply (books_inv g).
  - apply (books_inv g); [apply feed_books|done].
  - apply (books_inv g); [apply feed_books|done].
  - by apply (books_inv g).
  - by apply (books_inv g).
  - apply inv_release_all; by apply (books_inv g).
Qed.

Lemma inv_init lim clim th cd g :
  valid_resources lim = true → (∀ c cl, clim !! c = Some cl → valid_resources cl = true) →
  ResourceGovernor_init lim clim th cd = Ok g → accounted g ∧ budgets_hold g.
Proof.
  intros Hl Hcl H. unfold ResourceGovernor_init in H. apply rbind_Ok in H as (c & _ & H).
  injection H as <-. split; [constructor|split]; simpl.
  - intros name. by rewrite get0_Usage_init.
  - intros c' name. unfold client_used. simpl. by rewrite get0_Usage_init.
  - done.
  - intros name _. simpl. rewrite get0_Usage_init. by apply valid_attr.
  - intros c' cl Hc name _. unfold client_used. simpl. rewrite get0_Usage_init.
    by apply valid_attr, (Hcl c').
Qed.

Lemma governor_reachable_inv g : reachable g → accounted g ∧ budgets_hold g.
Proof.
  intros (lim & clim & th & cd & g0 & Hl & Hc & Hi & Hr). pose proof (inv_init _ _ _ _ _ Hl Hc Hi) as H.
  clear -H Hr. induction Hr as [|g0 g1 g2 Hs _ IH]; [done|]. apply IH. by eapply inv_step.
Qed.

(** ** The breaker *)

Lemma allow_closed c now : state c = closed → allow c now = (c, true).
Proof. intros H. unfold allow, is_open. rewrite H. simpl. by rewrite H. Qed.

Lemma allow_open c now :
  state c = open →
  allow c now = if cooldown c <=? now - tripped_at c then (c <| state := half_open |>, true) else (c, false).
Proof.
  intros H. unfold allow, is_open. rewrite H. simpl. destruct (_ <=? _); simpl; [done|].
  by rewrite H.
Qed.

Lemma overs_nonneg pl rds : 0 <= overs pl rds.
Proof. induction rds as [|[t rd] rds IH]; simpl; [done|]. destruct (pressure_reason rd pl); lia. Qed.

Lemma draining_release_all g ls :
  draining g = true → draining (foldl (λ g l, (release g l).1) g ls) = true.
Proof.
  revert g. induction ls as [|l ls IH]; intros g Hd; [done|]. apply IH. unfold release.
  destruct (leases g !! _); simpl; [|done]. by destruct (client_usage g !! _).
Qed.

Lemma governor_demo_reachable : reachable demo.
Proof.
  exists (one_cpu 4), {["a" := one_cpu 2]}, 2, 30, demo0.
  split; [reflexivity|]. split.
  { intros c cl H. apply lookup_singleton_Some in H as [<- <-]. reflexivity. }
  split; [reflexivity|].
  apply rtc_l with demo1; [exact (step_admit demo0 1 "a" "t1" (one_cpu 2) "q" None eq_refl)|].
  apply rtc_once. exact (step_admit demo1 2 "b" "t2" (one_cpu 1) "q" None eq_refl).
Qed.

(** * Properties *)

(** C8: whatever calls the governor has served, its counters are exactly the
    demand of the live leases, in total and per client, so the [max(0, ...)]
    of a release never hides anything, and no budget, global or per client,
    is exceeded. *)
Theorem governor_books g : reachable g → accounted g ∧ budgets_hold g.
Proof. apply governor_reachable_inv. Qed.

Lemma governor_books_witness : accounted demo ∧ get0 (usage demo) "cpu" = 3.
Proof. split; [apply (governor_books demo governor_demo_reachable)|vm_compute; reflexivity]. Defined.

(** C10: admission of a fresh lease is decided by the gates and the two budgets
    alone: it succeeds exactly when the governor is not draining, the circuit
    lets it through, and the request fits next to the global usage and, for a
    client with a limit of its own, next to that client's usage. A refusal
    fails closed: no lease, no usage, one more receipt, which the error carries. *)
Theorem admit_decides g now client task r q :
  client ≠ "" → task ≠ "" → leases g !! task = None →
  let g' := (governor_admit g now client task r q None).1 in
  ((∃ l, (governor_admit g now client task r q None).2 = Ok l) ↔
    draining g = false ∧ (allow (circuit g) now).2 = true ∧ fits (usage g) r (limits g) ∧
    ∀ cl, client_limits g !! client = Some cl → fits (default Usage_init (client_usage g !! client)) r cl) ∧
  (∀ e, (governor_admit g now client task r q None).2 = Err e →
    ∃ rc, e = Throttled rc ∧ receipts g' = receipts g ++ [rc] ∧ leases g' = leases g ∧
      usage g' = usage g ∧ ∀ c name, client_used g' c name = client_used g c name).
Proof.
  intros Hc Ht Hf. pose proof (admit_cases g now client task r q None) as H. cbv zeta in H |- *.
  destruct (governor_admit g now client task r q None) as [g' [l|[m|e]]]; cbn [fst snd].
  - split; [|done]. split; [intros _|by eexists].
    destruct H as [[H _]|(_ & _ & _ & Hd & Hal & Hg & Hcl & _)]; [congruence|done].
  - by destruct H as [[?|?] _].
  - destruct H as (_ & Hwhy & cus & c & -> & Hcus). split.
    + split; [intros [l Hl]; done|]. intros (Hd & Ha & Hg & Hcl).
      destruct Hwhy as [?|[?|[?|(cl & Hcl' & ?)]]]; [congruence..|done|exfalso; by eauto].
    + intros e' [= <-]. exists e. do 4 (split; [done|]). intros c' name. unfold client_used at 1.
      cbn. by eapply client_used_noop.
Qed.

Lemma admit_decides_witness :
  (∃ l, (governor_admit demo 7 "b" "t9" (one_cpu 1) "q" None).2 = Ok l) ∧
  ∃ e, (governor_admit demo 7 "b" "t9" (one_cpu 2) "q" None).2 = Err e.
Proof.
  split.
  - apply (admit_decides demo 7 "b" "t9" (one_cpu 1) "q"); [done|done|vm_compute; reflexivity|].
    split; [vm_compute; reflexivity|]. split; [vm_compute; reflexivity|]. split.
    + apply over_budget_None. vm_compute. reflexivity.
    + intros cl. vm_compute. discriminate.
  - eexists. vm_compute. reflexivity.
Defined.

(** an open circuit recovers only when the cooldown has elapsed and a
    reading is back under the limits. Until then every fresh admission is
    refused and a healthy reading changes nothing; at or after it a healthy
    reading closes the circuit and clears its failures, while a reading over
    the limits opens it again for a full cooldown. *)
Theorem open_circuit_recovery g now :
  state (circuit g) = open → threshold (circuit g) <= failures (circuit g) →
  (now < tripped_at (circuit g) + cooldown (circuit g) →
    (∀ client task r q, client ≠ "" → task ≠ "" → leases g !! task = None →
       ∃ e, (governor_admit g now client task r q None).2 = Err (Throttled e)) ∧
    ∀ rd pl, pressure_reason rd pl = None → (evaluate_pressure g now rd pl).1 = g) ∧
  (tripped_at (circuit g) + cooldown (circuit g) <= now →
    ∀ rd pl, pressure_reason rd pl = None →
      circuit (evaluate_pressure g now rd pl).1 = circuit_recover (circuit g)) ∧
  ∀ rd pl, is_Some (pressure_reason rd pl) →
    let c := circuit (evaluate_pressure g now rd pl).1 in state c = open ∧ tripped_at c = now.
Proof.
  intros Ho Hth. split; [|split].
  - intros Hnow.
    assert (allow (circuit g) now = (circuit g, false)) as Ha.
    { rewrite allow_open by done. destruct (Z.leb_spec (cooldown (circuit g)) (now - tripped_at (circuit g))); [lia|done]. }
    split.
    + intros client task r q Hc Ht Hf. pose proof (admit_cases g now client task r q None) as H.
      cbv zeta in H. rewrite Ha in H. destruct (governor_admit g now client task r q None) as [g' [l|[m|e]]]; simpl.
      * destruct H as [[H _]|(_ & _ & _ & _ & ? & _)]; [congruence|done].
      * by destruct H as [[?|?] _].
      * by eexists.
    + intros rd pl Hp. unfold evaluate_pressure, feed_circuit. rewrite Hp, Ha. simpl. rewrite Ho. simpl.
      by destruct g.
  - intros Hnow rd pl Hp. unfold evaluate_pressure, feed_circuit. rewrite Hp, allow_open by done.
    destruct (Z.leb_spec (cooldown (circuit g)) (now - tripped_at (circuit g))); [|lia]. done.
  - intros rd pl [why Hp]. unfold evaluate_pressure, feed_circuit. rewrite Hp.
    unfold circuit_record_failure. simpl.
    destruct (Z.leb_spec (threshold (circuit g)) (Z.succ (failures (circuit g)))); [done|lia].
Qed.

Lemma open_circuit_recovery_witness :
  circuit (evaluate_pressure tripped 40 calm alarm).1 = circuit_recover (circuit tripped).
Proof.
  refine (proj1 (proj2 (open_circuit_recovery tripped 40 _ _)) _ calm alarm _).
  - vm_compute. reflexivity.
  - vm_compute. discriminate.
  - vm_compute. discriminate.
  - vm_compute. reflexivity.
Defined.

(** a healthy reading does not clear the failures of a closed circuit: the
    readings over the limits are counted since the last recovery, however many
    healthy ones come between, and the circuit opens at the [threshold]-th. *)
Theorem failures_accumulate g pl rds now rd :
  state (circuit g) = closed → is_Some (pressure_reason rd pl) →
  failures (circuit g) + overs pl rds + 1 = threshold (circuit g) →
  let g' := run_readings g pl rds in
  state (circuit g') = closed ∧ state (circuit (evaluate_pressure g' now rd pl).1) = open.
Proof.
  intros Hcl Hrd. revert g Hcl. induction rds as [|[t rd'] rds IH]; intros g Hcl Heq; simpl.
  - split; [done|]. destruct Hrd as [why Hp]. unfold evaluate_pressure, feed_circuit. rewrite Hp.
    unfold circuit_record_failure. simpl in *.
    destruct (Z.leb_spec (threshold (circuit g)) (Z.succ (failures (circuit g)))); [done|lia].
  - cbn [overs] in Heq. pose proof (overs_nonneg pl rds).
    unfold evaluate_pressure at 1 3, feed_circuit.
    destruct (pressure_reason rd' pl) as [why|].
    + apply IH; unfold circuit_record_failure; simpl;
        destruct (Z.leb_spec (threshold (circuit g)) (Z.succ (failures (circuit g)))); simpl; done || lia.
    + rewrite allow_closed by done. simpl. rewrite Hcl. simpl. apply IH; simpl; done || lia.
Qed.

Lemma failures_accumulate_witness :
  state (circuit (evaluate_pressure (run_readings demo alarm [(1, hot); (2, calm); (3, calm)]) 9 hot alarm).1) = open.
Proof.
  refine (proj2 (failures_accumulate demo alarm [(1, hot); (2, calm); (3, calm)] 9 hot _ _ _));
    vm_compute; [reflexivity|eexists; reflexivity|reflexivity].
Defined.

(** [shutdown] leaves nothing behind: no lease is live, every counter is
    back to zero, and no later call can lease anything again. *)
Theorem shutdown_releases_all g :
  reachable g →
  let g' := shutdown g in
  leases g' = ∅ ∧ (∀ name, get0 (usage g') name = 0) ∧ (∀ c name, client_used g' c name = 0) ∧
  ∀ now client task r q lid l, (governor_admit g' now client task r q lid).2 ≠ Ok l.
Proof.
  intros [Ha Hb]%governor_reachable_inv. cbv zeta.
  assert (accounted (drain g) ∧ budgets_hold (drain g)) as [Ha0 Hb0] by (by apply (books_inv g)).
  pose proof (inv_release_all (drain g) (map_to_list (leases g)).*2 Ha0 Hb0) as [Ha' _].
  change (foldl _ (drain g) _) with (shutdown g) in Ha'.
  assert (leases (shutdown g) = ∅) as He.
  { apply map_empty. intros k. destruct (leases (shutdown g) !! k) as [l|] eqn:E; [|done].
    apply (release_all_leases (drain g) _ k l Ha0 Hb0) in E as [Hk Hni].
    destruct Hni. destruct (acc_lease g Ha k l Hk) as (<- & _). apply list_elem_of_fmap_2.
    apply list_elem_of_fmap. exists (lease_id l, l). split; [done|].
    by apply elem_of_map_to_list. }
  assert (draining (shutdown g) = true) as Hd by (apply draining_release_all; done).
  split; [done|]. split; [|split].
  - intros name. by rewrite (acc_usage _ Ha'), He.
  - intros c name. by rewrite (acc_client _ Ha'), He.
  - intros now client task r q lid l Hok.
    pose proof (admit_cases (shutdown g) now client task r q lid) as H. cbv zeta in H.
    destruct (governor_admit _ _ _ _ _ _ _) as [g2 [l2|?]]; [|done].
    destruct H as [[H _]|(_ & _ & _ & H & _)]; [by rewrite He in H|congruence].
Qed.

Lemma shutdown_releases_all_witness : leases demo ≠ ∅ ∧ leases (shutdown demo) = ∅.
Proof.
  split; [|apply (shutdown_releases_all demo governor_demo_reachable)].
  intros H. apply (f_equal (λ m, size m)) in H. vm_compute in H. discriminate.
Defined.
