(* ===== verification/HubService.v ===== *)
(** The Hub's composed service ([simplicio_loop/hub_service.py]): one flow of
    submit, claim, complete and fail over the durable queue of [RetryQueue],
    the scheduler of [HubScheduler] and the governor of [HubGovernor], and the
    claims of the queue that a bare scheduler drives ([HubRetryQueue.claim_fair]). *)
From S2P Require Import Prelude PyLib PyText Effects Journal MapperQueue HubScheduler HubGovernor RetryQueue.
Import Json.
Local Open Scope Z_scope.
Local Open Scope py_scope.

(** * Definitions *)

Inductive ServiceExn : Type :=
| FromQueue (e : QueueExn)
| FromScheduler (e : SchedulerExn)
| FromGovernor (e : GovernorExn).

Record ClaimedJob := mkClaimed {
  cj_task_id : string;
  cj_client_id : string;
  cj_workspace_id : string;
  cj_weight : Z;
  cj_cost : Z;
  cj_scheduler_policy : string;
  cj_payload : json;
  cj_retry_lease : RetryLease;
  cj_resource_lease : ResourceLease;
}.

(** The service with its three parts, and how often the monotonic clock of the
    governor was read. *)
Record Service (J M : Type) := mkService {
  sv_queue : Hub J M;
  sv_scheduler : FairScheduler;
  sv_governor : ResourceGovernor;
  sv_ticks : nat;
}.
Arguments mkService {J M}.
Arguments sv_queue {J M}.
Arguments sv_scheduler {J M}.
Arguments sv_governor {J M}.
Arguments sv_ticks {J M}.

Section Service.
Context {J M : Type} `{!JournalOps J QueueEvent} `{!OperationsStore M}.
(** [time.time()] of the queue and [time.monotonic()] of the governor. *)
Context (clock monotonic : nat → Z).
Notation P := (prog (Service J M) ServiceExn).

(** ** Calls of the parts *)

Definition queue {A} (m : prog (Hub J M) QueueExn A) : P A :=
  rescue FromQueue (zoom sv_queue (λ h v, mkService h (sv_scheduler v) (sv_governor v) (sv_ticks v)) m).
Definition scheduler {A} (m : prog FairScheduler SchedulerExn A) : P A :=
  rescue FromScheduler (zoom sv_scheduler (λ s v, mkService (sv_queue v) s (sv_governor v) (sv_ticks v)) m).
Definition governor {A} (m : prog ResourceGovernor GovernorExn A) : P A :=
  rescue FromGovernor (zoom sv_governor (λ g v, mkService (sv_queue v) (sv_scheduler v) g (sv_ticks v)) m).

(** A method that leaves its object alone when it raises. *)
Definition method {S E A} (f : S → result E (S * A)) : prog S E A := λ s,
  match f s with Ok (s', a) => (s', Ok a) | Err e => (s, Err e) end.
Definition update {S E} (f : S → result E S) : prog S E unit := method (λ s, let? s' := f s in Ok (s', tt)).

Definition scheduler_enqueue (job : ScheduledJob) : P unit := scheduler (update (λ s, HubScheduler.enqueue s job)).
Definition scheduler_next : P (option ScheduledJob) := scheduler (method HubScheduler.next).
Definition scheduler_complete (t : string) : P unit := scheduler (update (λ s, HubScheduler.complete s t)).
Definition governor_release (lease : ResourceLease) : P unit :=
  governor (λ g, ((release g lease).1, Ok tt)).
Definition monotonic_time : P Z := λ v,
  (mkService (sv_queue v) (sv_scheduler v) (sv_governor v) (S (sv_ticks v)), Ok (monotonic (sv_ticks v))).

(** [ScheduledJob(...)] with the default priority. *)
Definition scheduled_job (t client : string) (weight cost : Z) (workspace policy : string) : ScheduledJob :=
  HubScheduler.mkJob t client weight cost workspace DEFAULT_PRIORITY policy.

(** ** The service *)

(** The [SchedulerError] whose text has "duplicate task_id". *)
Definition is_duplicate (e : ServiceExn) : bool :=
  match e with FromScheduler (SchedulerError msg) => String.eqb msg "duplicate task_id" | _ => false end.

Definition submit (payload : dict) (key client workspace : string) (weight cost max_attempts : Z) : P string :=
  v ← get_state;
  let policy := policy_for (HubScheduler.policy (sv_scheduler v)) key in
  t ← queue (RetryQueue.submit clock payload key max_attempts (Str client) workspace weight cost policy);
  _ ← try_except (scheduler_enqueue (scheduled_job t client weight cost workspace policy))
        (λ e, if is_duplicate e then Some (mret tt) else None);
  mret t.

(** The governor's answer: a lease, or the receipt of a refusal. *)
Definition admit_claim (job : ScheduledJob) (request : ResourceRequest) : P (option ResourceLease) :=
  now ← monotonic_time;
  try_except
    (lease ← governor (λ g, governor_admit g now (HubScheduler.client_id job) (HubScheduler.task_id job) request
                              (HubScheduler.workspace_id job) None);
     mret (Some lease))
    (λ e, match e with FromGovernor (Throttled _) => Some (mret None) | _ => None end).

(** The loop of [claim], with the candidates still to try. *)
Fixpoint claim_loop (worker : string) (request : ResourceRequest) (ttl : Z) (candidates : nat) : P (option ClaimedJob) :=
  match candidates with
  | O => mret None
  | S candidates' =>
      job ← scheduler_next;
      match job with
      | None => mret None
      | Some job =>
          admitted ← admit_claim job request;
          match admitted with
          | None =>
              _ ← scheduler_complete (HubScheduler.task_id job);
              _ ← scheduler_enqueue job;
              claim_loop worker request ttl candidates'
          | Some resource_lease =>
              retry_lease ← queue (claim_specific clock (HubScheduler.task_id job) worker ttl);
              match retry_lease with
              | None =>
                  _ ← governor_release resource_lease;
                  _ ← scheduler_complete (HubScheduler.task_id job);
                  claim_loop worker request ttl candidates'
              | Some lease =>
                  payload ← queue (get_payload (HubScheduler.task_id job));
                  mret (Some (mkClaimed (HubScheduler.task_id job) (HubScheduler.client_id job) (HubScheduler.workspace_id job)
                                (HubScheduler.weight job) (HubScheduler.cost job) (HubScheduler.scheduler_policy job)
                                payload lease resource_lease))
              end
          end
      end
  end.

Definition claim (worker : string) (request : ResourceRequest) (ttl max_candidates : Z) : P (option ClaimedJob) :=
  claim_loop worker request ttl (Z.to_nat max_candidates).

Definition complete (claimed : ClaimedJob) : P unit :=
  _ ← queue (RetryQueue.complete clock (cj_retry_lease claimed));
  _ ← governor_release (cj_resource_lease claimed);
  scheduler_complete (cj_task_id claimed).

(** The outcome is [true] for ["dead_letter"], as in [RetryQueue.fail]. *)
Definition fail (claimed : ClaimedJob) (error_code : string) (backoff : Z) : P bool :=
  dead ← queue (RetryQueue.fail clock (cj_retry_lease claimed) error_code backoff);
  _ ← governor_release (cj_resource_lease claimed);
  _ ← scheduler_complete (cj_task_id claimed);
  if (dead : bool) then mret true
  else
    _ ← scheduler_enqueue (scheduled_job (cj_task_id claimed) (cj_client_id claimed) (cj_weight claimed) (cj_cost claimed)
                             (cj_workspace_id claimed) (cj_scheduler_policy claimed));
    mret false.

(** [SchedulerPolicy.to_manifest] *)
Definition to_manifest (p : SchedulerPolicy) : dict :=
  [("schema", Str SCHEDULER_MANIFEST_SCHEMA); ("mode", Str (mode p)); ("version", Str (version p));
   ("previous_version", Str (previous_version p)); ("canary_percent", Int (canary_percent p))].

Definition configure_scheduler (p : SchedulerPolicy) : P DecisionReceipt :=
  _ ← queue (set_scheduler_manifest (to_manifest p));
  scheduler (λ s, let (s', r) := configure_policy s p in (s', Ok r)).

(** One round of [rehydrate_scheduler]: whether the job was enqueued. *)
Definition rehydrate_entry (e : SchedulingMetadata) : P bool :=
  try_except
    (_ ← scheduler_enqueue (scheduled_job (md_task_id e) (if Str.truthy (md_client_id e) then md_client_id e else "unknown")
                              (md_weight e) (md_cost e) (md_workspace_id e) (md_scheduler_policy e));
     mret true)
    (λ e, match e with
          | FromScheduler (SchedulerError _) | FromScheduler (UnknownPriority _) | FromScheduler (QuotaExceededError _) => Some (mret false)
          | _ => None
          end).
Fixpoint rehydrate_entries (l : list SchedulingMetadata) (rehydrated : Z) : P Z :=
  match l with
  | [] => mret rehydrated
  | e :: l' =>
      ok ← rehydrate_entry e;
      rehydrate_entries l' (if (ok : bool) then rehydrated + 1 else rehydrated)
  end.
Definition rehydrate_scheduler : P Z :=
  entries ← queue (list_queued_scheduling_metadata clock);
  rehydrate_entries entries 0.

(** ** Claims of the queue under a scheduler of its own *)

(** [HubRetryQueue.sync_fair_scheduler] *)
Definition sync_fair_scheduler : P unit :=
  entries ← queue (list_queued_scheduling_metadata clock);
  for_each (λ e,
    try_except
      (scheduler_enqueue (scheduled_job (md_task_id e) (if Str.truthy (md_client_id e) then md_client_id e else "default")
                            (md_weight e) (md_cost e) (md_workspace_id e) FAIR_POLICY_VERSION))
      (λ x, match x with
            | FromScheduler (SchedulerError _) | FromScheduler (UnknownPriority _) | FromScheduler (QuotaExceededError _) => Some (mret tt)
            | _ => None
            end)) entries.

Fixpoint claim_fair_loop (worker : string) (ttl : Z) (attempts : nat) : P (option RetryLease) :=
  match attempts with
  | O => mret None
  | S attempts' =>
      scheduled ← scheduler_next;
      match scheduled with
      | None => mret None
      | Some job =>
          lease ← queue (claim_specific clock (HubScheduler.task_id job) worker ttl);
          _ ← try_except (scheduler_complete (HubScheduler.task_id job)) (λ _, Some (mret tt));
          match lease with
          | Some l => mret (Some l)
          | None => claim_fair_loop worker ttl attempts'
          end
      end
  end.

(** [HubRetryQueue.claim_fair] *)
Definition claim_fair (worker : string) (ttl max_attempts : Z) : P (option RetryLease) :=
  _ ← sync_fair_scheduler;
  claim_fair_loop worker ttl (Z.to_nat max_attempts).
End Service.

(** * Specification *)

(** The books of the composition, against the claims that were handed out and
    not given back: the tasks in flight and the governor's leases are those of
    the claims, and the scheduler remembers what it needs to queue them again. *)
Record service_ok {J M : Type} (v : Service J M) (out : list ClaimedJob) : Prop := {
  so_scheduler : wf (sv_scheduler v) ∧ quotas_hold (sv_scheduler v);
  so_governor : accounted (sv_governor v) ∧ budgets_hold (sv_governor v);
  so_nodup : NoDup (cj_task_id <$> out);
  so_flight t : in_flight (sv_scheduler v) t ↔ t ∈ cj_task_id <$> out;
  so_leases k l : leases (sv_governor v) !! k = Some l ↔ ∃ c, c ∈ out ∧ cj_task_id c = k ∧ cj_resource_lease c = l;
  so_jobs c : c ∈ out → ∃ j, HubScheduler.jobs (sv_scheduler v) !! cj_task_id c = Some j ∧
    HubScheduler.client_id j = cj_client_id c ∧ HubScheduler.workspace_id j = cj_workspace_id c ∧
    HubScheduler.weight j = cj_weight c ∧ HubScheduler.cost j = cj_cost c;
}.

(** The claims left after [t] was given back. *)
Definition without (t : string) (out : list ClaimedJob) : list ClaimedJob := filter (λ c, cj_task_id c ≠ t) out.

Definition handed_out (r : result ServiceExn (option ClaimedJob)) : list ClaimedJob :=
  match r with Ok (Some c) => [c] | _ => [] end.

Section Steps.
Context {J M : Type} `{!JournalOps J QueueEvent} `{!OperationsStore M} (clock monotonic : nat → Z).

(** What a restart constructs: a scheduler and a governor as their constructors
    leave them. *)
Definition fresh_parts (s : FairScheduler) (g : ResourceGovernor) : Prop :=
  (∃ mi q mqc mqw mgq ticks boost p, FairScheduler_init mi q mqc mqw mgq ticks boost p = Ok s) ∧
  ∃ lim clim threshold cooldown, valid_resources lim = true ∧
    (∀ c cl, clim !! c = Some cl → valid_resources cl = true) ∧
    ResourceGovernor_init lim clim threshold cooldown = Ok g.

(** The daemon starts again over the durable queue: a new service on a fresh
    scheduler and a fresh governor, filled from the queue by [rehydrate_scheduler]. *)
Definition restart (v : Service J M) (s : FairScheduler) (g : ResourceGovernor) : Service J M :=
  (rehydrate_scheduler clock (mkService (sv_queue v) s g (sv_ticks v))).1.

(** The calls of the service, with the claims handed out so far; a call of
    [claim], [complete] or [fail] that raises is not a step. The claims of a
    service die with it: after a restart none is handed out. Beside them the
    queue may change in any way (other processes, time), and the governor take
    readings and drain. *)
Inductive service_step : Service J M * list ClaimedJob → Service J M * list ClaimedJob → Prop :=
| ss_submit v out payload key client ws w c max :
    service_step (v, out) ((submit clock payload key client ws w c max v).1, out)
| ss_claim v out worker request ttl n v' r : valid_resources request = true →
    claim clock monotonic worker request ttl n v = (v', Ok r) → service_step (v, out) (v', out ++ handed_out (Ok r))
| ss_complete v out c v' : c ∈ out → complete clock c v = (v', Ok tt) → service_step (v, out) (v', without (cj_task_id c) out)
| ss_fail v out c code backoff v' dead : c ∈ out → fail clock c code backoff v = (v', Ok dead) →
    service_step (v, out) (v', without (cj_task_id c) out)
| ss_configure v out p : service_step (v, out) ((configure_scheduler p v).1, out)
| ss_rehydrate v out : service_step (v, out) ((rehydrate_scheduler clock v).1, out)
| ss_restart v out s g : fresh_parts s g → service_step (v, out) (restart v s g, [])
| ss_queue v out h : service_step (v, out) (mkService h (sv_scheduler v) (sv_governor v) (sv_ticks v), out)
| ss_governor v out g : books g = books (sv_governor v) →
    service_step (v, out) (mkService (sv_queue v) (sv_scheduler v) g (sv_ticks v), out).

Definition service_reachable (v : Service J M) (out : list ClaimedJob) : Prop :=
  ∃ v0, wf (sv_scheduler v0) ∧ quotas_hold (sv_scheduler v0) ∧ HubScheduler.jobs (sv_scheduler v0) = ∅ ∧
    accounted (sv_governor v0) ∧ budgets_hold (sv_governor v0) ∧ leases (sv_governor v0) = ∅ ∧
    rtc service_step (v0, []) (v, out).
End Steps.

Section Parts.
Context {J M : Type}.
Notation Service := (Service J M).
Implicit Types (v : Service) (out : list ClaimedJob).

Definition set_scheduler v s : Service := mkService (sv_queue v) s (sv_governor v) (sv_ticks v).

Definition set_governor v g : Service := mkService (sv_queue v) (sv_scheduler v) g (sv_ticks v).

(** Only the queue has changed. *)
Definition same_parts v v' : Prop := sv_scheduler v' = sv_scheduler v ∧ sv_governor v' = sv_governor v.

(** A dispatch, before the governor has decided: the job is in flight although
    nothing was handed out. *)
Record dispatched_ok v out (job : ScheduledJob) : Prop := {
  do_scheduler : wf (sv_scheduler v) ∧ quotas_hold (sv_scheduler v);
  do_governor : accounted (sv_governor v) ∧ budgets_hold (sv_governor v);
  do_nodup : NoDup (cj_task_id <$> out);
  do_fresh : HubScheduler.task_id job ∉ cj_task_id <$> out;
  do_job : HubScheduler.jobs (sv_scheduler v) !! HubScheduler.task_id job = Some job ∧ valid_job job;
  do_flight t : in_flight (sv_scheduler v) t ↔ t ∈ cj_task_id <$> out ∨ t = HubScheduler.task_id job;
  do_leases k l : leases (sv_governor v) !! k = Some l ↔ ∃ c, c ∈ out ∧ cj_task_id c = k ∧ cj_resource_lease c = l;
  do_jobs c : c ∈ out → ∃ j, HubScheduler.jobs (sv_scheduler v) !! cj_task_id c = Some j ∧
    HubScheduler.client_id j = cj_client_id c ∧ HubScheduler.workspace_id j = cj_workspace_id c ∧
    HubScheduler.weight j = cj_weight c ∧ HubScheduler.cost j = cj_cost c;
}.

(** What a call of [claim] leaves: the books of the claims with the one it
    returns; the only exceptions are those of the queue. *)
Definition claim_result out (r : result ServiceExn (option ClaimedJob)) v : Prop :=
  match r with
  | Ok x => service_ok v (out ++ handed_out (Ok x))
  | Err e => ∃ q, e = FromQueue q
  end.

(** What a call that gives a claim back leaves; when it raises, the exception
    is the queue's and the claim keeps its slot and its budget. *)
Definition close_result v out (c : ClaimedJob) {A} (r : result ServiceExn A) v' : Prop :=
  match r with
  | Ok _ => service_ok v' (without (cj_task_id c) out)
  | Err e => (∃ q, e = FromQueue q) ∧ same_parts v v'
  end.
End Parts.

(** ** A service in memory, for the examples *)

Definition demo_service : Service (MemJournal QueueEvent) Mem.Store := mkService demo_hub HubScheduler.demo0 HubGovernor.demo0 0.
Definition demo_monotonic (n : nat) : Z := Z.of_nat n.
Definition demo_submitted := (submit demo_clock [] "a" "c" "ws" 1 1 3 demo_service).1.
(** Claimed under a lease that has run out since, and under one that lasts. *)
Definition demo_expired := claim demo_clock demo_monotonic "w1" (one_cpu 1) 30 8 demo_submitted.
Definition demo_lasting := claim demo_clock demo_monotonic "w1" (one_cpu 1) 300 8 demo_submitted.
Definition no_claim : ClaimedJob := mkClaimed "" "" "" 0 0 "" Null (mkRetryLease "" "" 0 0 "" "") (HubGovernor.mkLease "" "" "" (one_cpu 0) 0 "").
Definition claim_of (r : result ServiceExn (option ClaimedJob)) : ClaimedJob := match r with Ok (Some c) => c | _ => no_claim end.

(** The governor drains while a job waits. *)
Definition demo_drained : Service (MemJournal QueueEvent) Mem.Store := mkService (sv_queue demo_submitted) (sv_scheduler demo_submitted) (drain (sv_governor demo_submitted)) (sv_ticks demo_submitted).

(** The job of [demo_lasting] failed with a backoff of 50, and claimed at once. *)
Definition demo_backoff := (fail demo_clock (claim_of demo_lasting.2) "boom" 50 demo_lasting.1).1.

(** The policy the scheduler has pinned the task to. *)
Definition pin_of (v : Service (MemJournal QueueEvent) Mem.Store) : option string :=
  HubScheduler.scheduler_policy <$> HubScheduler.jobs (sv_scheduler v) !! task_id_of "a".

(** Under a canary of half the tasks, the pin that [submit] stores with the job,
    chosen by its key, is not the pin the scheduler gives it, chosen by its id;
    and a job pinned to the fair policy that fails after a rollback comes back
    pinned to the old one. *)
Definition with_policy (mode : string) (percent : Z) (v : Service (MemJournal QueueEvent) Mem.Store) : Service (MemJournal QueueEvent) Mem.Store :=
  (configure_scheduler (mkPolicy mode FAIR_POLICY_VERSION LEGACY_POLICY_VERSION percent) v).1.

(** * Lemmas *)

(** ** Dispatch and return of a job in the scheduler *)

Lemma next_takes s s' job : wf s → HubScheduler.next s = Ok (s', Some job) →
  HubScheduler.jobs s' = HubScheduler.jobs s ∧ HubScheduler.jobs s !! HubScheduler.task_id job = Some job ∧
  HubScheduler.queued s (HubScheduler.task_id job) ∧
  ∀ t, HubScheduler.queued s' t ↔ HubScheduler.queued s t ∧ t ≠ HubScheduler.task_id job.
Proof.
  intros Hwf Hn. pose proof (next_frame _ _ _ Hn) as Hf. assert (HubScheduler.jobs s' = HubScheduler.jobs s) as Hj by (unfold frame in Hf; congruence).
  destruct (next_dispatched _ _ _ Hwf Hn) as (rest & n & Hq & _ & _ & Hq' & _).
  set (c := HubScheduler.client_id job) in *. destruct (wf_queue _ Hwf c _ job Hq ltac:(by left)) as [_ Hjob].
  pose proof (lv_nodup _ Hwf c _ Hq) as Hnd. cbn in Hnd. apply NoDup_cons in Hnd as [Hni Hnd].
  split; [done|]. split; [done|]. split; [exists c, (job :: rest), job; split; [done|]; split; [by left|done]|].
  intros t. unfold HubScheduler.queued. rewrite Hq'. split.
  - intros (c' & q & j & Hl & Hin & Ht). apply lookup_insert_Some in Hl as [[Hc Hr]|[Hne Hl]].
    + subst q. split; [exists c, (job :: rest), j; split; [done|]; split; [by right|done]|]. subst t. intros E. apply Hni. rewrite <- E.
      by apply list_elem_of_fmap_2.
    + split; [by exists c', q, j|]. subst t. intros E. destruct (wf_queue _ Hwf _ _ _ Hl Hin) as [Hc Hj']. rewrite E, Hjob in Hj'. injection Hj' as <-. by apply Hne.
  - intros [(c' & q & j & Hl & Hin & Ht) Hne]. destruct (decide (c' = c)) as [->|Hc].
    + exists c, rest, j. rewrite lookup_insert_eq. split; [done|]. split; [|done]. rewrite Hq in Hl. injection Hl as <-.
      apply elem_of_cons in Hin as [->|Hin]; [by destruct Hne|done].
    + exists c', q, j. by rewrite lookup_insert_ne.
Qed.

Lemma next_flight s s' job : wf s → HubScheduler.next s = Ok (s', Some job) →
  ¬ in_flight s (HubScheduler.task_id job) ∧
  ∀ t, in_flight s' t ↔ in_flight s t ∨ t = HubScheduler.task_id job.
Proof.
  intros Hwf Hn. destruct (next_takes _ _ _ Hwf Hn) as (Hj & Hjob & Hq & Hqs). split; [by intros [_ H]|].
  intros t. unfold in_flight. rewrite Hj, Hqs. destruct (decide (t = HubScheduler.task_id job)) as [->|Hne]; [|naive_solver].
  rewrite Hjob. naive_solver.
Qed.

Lemma next_none s s' : wf s → HubScheduler.next s = Ok (s', None) →
  HubScheduler.jobs s' = HubScheduler.jobs s ∧ (∀ t, HubScheduler.queued s' t ↔ HubScheduler.queued s t) ∧ ∀ t, in_flight s' t ↔ in_flight s t.
Proof.
  intros Hwf Hn. pose proof (next_frame _ _ _ Hn) as Hf. assert (HubScheduler.jobs s' = HubScheduler.jobs s) as Hj by (unfold frame in Hf; congruence).
  destruct (next_dispatched _ _ _ Hwf Hn) as [Hq _].
  assert (∀ t, HubScheduler.queued s' t ↔ HubScheduler.queued s t) as Hqs by (intros t; unfold HubScheduler.queued; by rewrite Hq).
  split; [done|]. split; [done|]. intros t. unfold in_flight. by rewrite Hj, Hqs.
Qed.

Lemma complete_flight s t : wf s → in_flight s t → ∃ s', HubScheduler.complete s t = Ok s' ∧ wf s' ∧ (quotas_hold s → quotas_hold s') ∧
  HubScheduler.jobs s' = delete t (HubScheduler.jobs s) ∧ (∀ t', HubScheduler.queued s' t' ↔ HubScheduler.queued s t') ∧
  ∀ t', in_flight s' t' ↔ in_flight s t' ∧ t' ≠ t.
Proof.
  intros Hwf Hfl. destruct (complete_in_flight s t Hwf Hfl) as (job & s' & Hj & Hc & Hwf' & Hjs & Hqs & _).
  exists s'. split; [done|]. split; [done|]. split; [intros Hq; exact (quotas_call s (HubScheduler.Complete t) s' Hwf Hq Hc)|]. split; [done|].
  assert (∀ t', HubScheduler.queued s' t' ↔ HubScheduler.queued s t') as Hq by (intros t'; unfold HubScheduler.queued; by rewrite Hqs).
  split; [done|]. intros t'. unfold in_flight. rewrite Hjs, Hq. destruct (decide (t' = t)) as [->|Hne].
  - rewrite lookup_delete_eq. split; [by intros [[? ?] _]|naive_solver].
  - rewrite lookup_delete_ne by done. naive_solver.
Qed.

Lemma open_client_queued s c t : HubScheduler.queued (open_client s c) t ↔ HubScheduler.queued s t.
Proof.
  unfold open_client. destruct (queues s !! c) as [q|] eqn:E; [done|]. unfold HubScheduler.queued; cbn. split.
  - intros (c' & q & j & [[-> <-]|[Hne Hl]]%lookup_insert_Some & Hin & Ht); [by apply not_elem_of_nil in Hin|by exists c', q, j].
  - intros (c' & q & j & Hl & Hin & Ht). exists c', q, j. rewrite lookup_insert_ne; [done|congruence].
Qed.

Lemma enqueue_flight s job s' : wf s → HubScheduler.enqueue s job = Ok s' →
  HubScheduler.jobs s' = <[HubScheduler.task_id job := pinned s job]> (HubScheduler.jobs s) ∧
  HubScheduler.jobs s !! HubScheduler.task_id job = None ∧
  (∀ t, HubScheduler.queued s' t ↔ HubScheduler.queued s t ∨ t = HubScheduler.task_id job) ∧ ∀ t, in_flight s' t ↔ in_flight s t.
Proof.
  intros Hwf He. destruct (enqueue_spec _ _ _ He) as (_ & Hn & _ & q & Hq & ->).
  destruct (pinned_same s job) as (Ht & Hc & _). rewrite Ht in Hn. set (j := pinned s job) in *.
  pose proof (open_client_frame s (HubScheduler.client_id j)) as (Hjs & _).
  assert (∀ t, HubScheduler.queued (add_job (open_client s (HubScheduler.client_id j)) q j) t ↔ HubScheduler.queued s t ∨ t = HubScheduler.task_id job) as Hqs.
  { intros t. rewrite <- (open_client_queued s (HubScheduler.client_id j)). unfold HubScheduler.queued, add_job; cbn. split.
    - intros (c' & q' & j' & [[<- <-]|[Hne Hl]]%lookup_insert_Some & Hin & <-).
      + apply elem_of_app in Hin as [Hin|Hin%list_elem_of_singleton]; [left; by exists (HubScheduler.client_id j), q, j'|right; by subst j'].
      + left. by exists c', q', j'.
    - intros [(c' & q' & j' & Hl & Hin & <-)| ->].
      + destruct (decide (c' = HubScheduler.client_id j)) as [->|Hne].
        * exists (HubScheduler.client_id j), (q ++ [j]), j'. rewrite lookup_insert_eq. split; [done|]. split; [|done]. apply elem_of_app. left. congruence.
        * exists c', q', j'. by rewrite lookup_insert_ne.
      + exists (HubScheduler.client_id j), (q ++ [j]), j. rewrite lookup_insert_eq. split; [done|]. split; [|done]. apply elem_of_app. right. by left. }
  assert (HubScheduler.jobs (add_job (open_client s (HubScheduler.client_id j)) q j) = <[HubScheduler.task_id job := j]> (HubScheduler.jobs s)) as Hj'.
  { unfold add_job; cbn. by rewrite Hjs, Ht. }
  split; [done|]. split; [done|]. split; [done|]. intros t. unfold in_flight. rewrite Hj', Hqs.
  destruct (decide (t = HubScheduler.task_id job)) as [->|Hne]; [|rewrite lookup_insert_ne by done; naive_solver]. rewrite Hn.
  split; [intros [_ H]; exfalso; apply H; by right|by intros [[? ?] _]].
Qed.

Lemma over_quota_below limit n : (∀ l, limit = Some l → n < l) → over_quota limit n = None.
Proof. unfold over_quota. destruct limit as [l|]; [|done]. intros H. specialize (H l eq_refl). by rewrite (proj2 (Z.leb_gt _ _)) by lia. Qed.

(** A job that has left the scheduler finds its place free. *)
Lemma complete_makes_room s s1 t j job : wf s → quotas_hold s → HubScheduler.jobs s !! t = Some j → HubScheduler.complete s t = Ok s1 →
  HubScheduler.client_id job = HubScheduler.client_id j → HubScheduler.workspace_id job = HubScheduler.workspace_id j → check_quotas s1 job = Ok tt.
Proof.
  intros Hwf (Hg & Hw & Hc) Hj Hcomp Hjc Hjw. unfold HubScheduler.complete in Hcomp. rewrite Hj in Hcomp.
  destruct (inflight s !! HubScheduler.client_id j) as [fl|]; [|done]. injection Hcomp as <-.
  unfold check_quotas; cbn. rewrite Hjc, Hjw, !get0_insert_eq.
  assert (1 <= global_total s) as Hg1.
  { rewrite (sd_global_total _ Hwf). etransitivity; [|apply (mcount_le_size (λ _, true))]. by apply (mcount_pos _ _ t j). }
  assert (1 <= get0 (workspace_total s) (HubScheduler.workspace_id j)) as Hw1.
  { rewrite (sd_workspace_total _ Hwf). apply (mcount_pos _ _ t j Hj). apply String.eqb_refl. }
  assert (1 <= get0 (client_total s) (HubScheduler.client_id j)) as Hc1.
  { rewrite (sd_client_total _ Hwf). apply (mcount_pos _ _ t j Hj). apply String.eqb_refl. }
  specialize (Hw (HubScheduler.workspace_id j)). specialize (Hc (HubScheduler.client_id j)). unfold HubScheduler.within in *.
  rewrite !over_quota_below; [done|..]; intros l Hl; rewrite Hl in *; lia.
Qed.

Lemma enqueue_ok s job : valid_job job → HubScheduler.jobs s !! HubScheduler.task_id job = None → check_quotas s job = Ok tt →
  ∃ s', HubScheduler.enqueue s job = Ok s'.
Proof.
  intros (Ht & Hc & Hw & Hwt & Hco & [m Hm]) Hn Hq. unfold HubScheduler.enqueue.
  apply Str.truthy_ne in Ht, Hc, Hw. rewrite Ht, Hc, Hw, !(proj2 (Z.ltb_ge _ _)), Hm by lia. cbn [negb orb].
  fold (pinned s job). destruct (pinned_same s job) as (-> & Hpc & Hpw & _). rewrite Hn.
  assert (check_quotas s (pinned s job) = check_quotas s job) as -> by (unfold check_quotas; by rewrite Hpc, Hpw). rewrite Hq. cbn.
  unfold open_client; cbn. destruct (queues s !! HubScheduler.client_id (pinned s job)) as [q|] eqn:E; cbn; rewrite ?E, ?lookup_insert_eq; by eexists.
Qed.

(** A dispatched job that is completed can be queued again at once. *)
Lemma return_job s t j job : wf s → quotas_hold s → in_flight s t → HubScheduler.jobs s !! t = Some j →
  HubScheduler.task_id job = t → HubScheduler.client_id job = HubScheduler.client_id j → HubScheduler.workspace_id job = HubScheduler.workspace_id j →
  valid_job job →
  ∃ s1 s2, HubScheduler.complete s t = Ok s1 ∧ HubScheduler.enqueue s1 job = Ok s2 ∧ wf s2 ∧ quotas_hold s2 ∧
    (∀ t', HubScheduler.queued s2 t' ↔ HubScheduler.queued s t' ∨ t' = t) ∧ ∀ t', in_flight s2 t' ↔ in_flight s t' ∧ t' ≠ t.
Proof.
  intros Hwf Hq Hfl Hj Ht Hc Hw Hv. destruct (complete_flight s t Hwf Hfl) as (s1 & Hcomp & Hwf1 & Hq1 & Hjs & Hqd & Hf).
  destruct (enqueue_ok s1 job Hv) as [s2 He].
  { by rewrite Hjs, Ht, lookup_delete_eq. }
  { by apply (complete_makes_room s s1 t j). }
  destruct (enqueue_flight _ _ _ Hwf1 He) as (_ & _ & Hqd2 & Hf2). exists s1, s2. split; [done|]. split; [done|].
  split; [by apply (wf_enqueue s1 job)|]. split; [apply (quotas_enqueue s1 job); auto|].
  split; intros t'; [rewrite Hqd2, Hqd, Ht; done|by rewrite Hf2, Hf].
Qed.

(** ** The parts inside the service *)

Section Effects.
Context {J M : Type} `{!JournalOps J QueueEvent} `{!OperationsStore M} (clock monotonic : nat → Z).
Notation Service := (Service J M).
Implicit Types (v : Service) (out : list ClaimedJob).

Lemma wp_queue {A} (m : prog (Hub J M) QueueExn A) Q v :
  (∀ v' a, same_parts v v' → Q (Ok a) v') → (∀ v' e, same_parts v v' → Q (Err (FromQueue e)) v') → wp (queue m) Q v.
Proof. intros Ha He. unfold wp, queue, rescue, zoom. destruct (m (sv_queue v)) as [h [a|e]]; cbn; [by apply Ha|by apply He]. Qed.

Lemma scheduler_next_eq v : scheduler_next v =
  match HubScheduler.next (sv_scheduler v) with
  | Ok (s', r) => (set_scheduler v s', Ok r)
  | Err e => (set_scheduler v (sv_scheduler v), Err (FromScheduler e))
  end.
Proof. unfold scheduler_next, scheduler, rescue, zoom, method. by destruct (HubScheduler.next _) as [[s' r]|e]. Qed.

Lemma scheduler_complete_eq v t : scheduler_complete t v =
  match HubScheduler.complete (sv_scheduler v) t with
  | Ok s' => (set_scheduler v s', Ok tt)
  | Err e => (set_scheduler v (sv_scheduler v), Err (FromScheduler e))
  end.
Proof. unfold scheduler_complete, scheduler, rescue, zoom, update, method. by destruct (HubScheduler.complete _ _). Qed.

Lemma scheduler_enqueue_eq v job : scheduler_enqueue job v =
  match HubScheduler.enqueue (sv_scheduler v) job with
  | Ok s' => (set_scheduler v s', Ok tt)
  | Err e => (set_scheduler v (sv_scheduler v), Err (FromScheduler e))
  end.
Proof. unfold scheduler_enqueue, scheduler, rescue, zoom, update, method. by destruct (HubScheduler.enqueue _ _). Qed.

Lemma set_scheduler_id v : set_scheduler v (sv_scheduler v) = v.
Proof. by destruct v. Qed.

Lemma governor_release_eq v l : governor_release l v = (set_governor v (release (sv_governor v) l).1, Ok tt).
Proof. done. Qed.

(** Queueing one more job touches neither the claims nor their budgets. *)
Lemma ok_enqueue v out job s' : service_ok v out → HubScheduler.enqueue (sv_scheduler v) job = Ok s' → service_ok (set_scheduler v s') out.
Proof.
  intros [[Hwf Hq] Hg Hnd Hf Hl Hj] He. destruct (enqueue_flight _ _ _ Hwf He) as (Hjs & Hn & _ & Hf').
  constructor; cbn; [split; [by eapply wf_enqueue|by eapply quotas_enqueue]|done|done|intros t; by rewrite Hf'|done|].
  intros c Hc. destruct (Hj c Hc) as (j & Hlook & Hrest). exists j. split; [|done]. rewrite Hjs, lookup_insert_ne; [done|]. intros E. by rewrite E, Hlook in Hn.
Qed.

Lemma ok_same v v' out : same_parts v v' → service_ok v out → service_ok v' out.
Proof. intros [Hs Hg] [? ? ? ? ? ?]. constructor; by rewrite ?Hs, ?Hg. Qed.

Lemma ok_scheduler_enqueue v out job : service_ok v out → service_ok (scheduler_enqueue job v).1 out.
Proof.
  intros Hok. rewrite scheduler_enqueue_eq. destruct (HubScheduler.enqueue _ _) as [s'|e] eqn:E; cbn; [by eapply ok_enqueue|by rewrite set_scheduler_id].
Qed.

Lemma ok_next v out s' r : service_ok v out → HubScheduler.next (sv_scheduler v) = Ok (s', r) →
  match r with
  | None => service_ok (set_scheduler v s') out
  | Some job => dispatched_ok (set_scheduler v s') out job
  end.
Proof.
  intros [[Hwf Hq] Hg Hnd Hf Hl Hj] Hn. pose proof (wf_next _ _ _ Hwf Hn) as Hwf'. pose proof (quotas_frame _ _ (next_frame _ _ _ Hn) Hq) as Hq'.
  destruct r as [job|].
  - destruct (next_takes _ _ _ Hwf Hn) as (Hjs & Hjob & _). destruct (next_flight _ _ _ Hwf Hn) as [Hni Hfl].
    destruct (sd_jobs _ Hwf _ _ Hjob) as (_ & Hv & _). constructor; cbn; try done.
    + by rewrite <- Hf.
    + by rewrite Hjs.
    + intros t. by rewrite Hfl, Hf.
    + intros c Hc. rewrite Hjs. by apply Hj.
  - destruct (next_none _ _ Hwf Hn) as (Hjs & _ & Hfl). constructor; cbn; try done; [intros t; by rewrite Hfl|].
    intros c Hc. rewrite Hjs. by apply Hj.
Qed.

(** The governor's answer about a dispatched job: a new lease, under the task's
    own id, or no change of the leases. *)
Lemma wp_admit v out job request Q : dispatched_ok v out job → valid_resources request = true →
  (∀ v' l, draining (sv_governor v) = false → sv_queue v' = sv_queue v → sv_scheduler v' = sv_scheduler v → accounted (sv_governor v') ∧ budgets_hold (sv_governor v') →
     HubGovernor.lease_id l = HubScheduler.task_id job → leases (sv_governor v') = <[HubScheduler.task_id job := l]> (leases (sv_governor v)) →
     Q (Ok (Some l)) v') →
  (∀ v', sv_queue v' = sv_queue v → dispatched_ok v' out job → sv_scheduler v' = sv_scheduler v →
     leases (sv_governor v') = leases (sv_governor v) → draining (sv_governor v') = draining (sv_governor v) → Q (Ok None) v') →
  wp (admit_claim monotonic job request) Q v.
Proof.
  intros [Hs Hg Hnd Hfr [Hj Hv] Hf Hl Hjs] Hr Hsome Hnone.
  assert (leases (sv_governor v) !! HubScheduler.task_id job = None) as Hno.
  { destruct (leases (sv_governor v) !! HubScheduler.task_id job) as [l|] eqn:E; [|done]. apply Hl in E as (c & Hc & Hct & _).
    destruct Hfr. rewrite <- Hct. by apply list_elem_of_fmap_2. }
  unfold admit_claim, monotonic_time. rewrite wp_bind. unfold wp at 1; cbn. rewrite wp_try. rewrite wp_bind. unfold governor. rewrite wp_rescue, wp_zoom.
  unfold wp; cbn. set (now := monotonic (sv_ticks v)).
  pose proof (admit_cases (sv_governor v) now (HubScheduler.client_id job) (HubScheduler.task_id job) request (HubScheduler.workspace_id job) None) as Hcases.
  pose proof (inv_admit (sv_governor v) now (HubScheduler.client_id job) (HubScheduler.task_id job) request (HubScheduler.workspace_id job) None
    (proj1 Hg) (proj2 Hg) Hr) as Hinv.
  destruct (governor_admit _ _ _ _ _ _ _) as [g' [l|[msg|e]]]; cbn in *.
  - destruct Hcases as [[Hc _]|(_ & _ & _ & Hdr & _ & _ & _ & -> & ->)]; [congruence|]. by apply Hsome.
  - destruct Hcases as [[Hc|Ht] _]; exfalso; destruct Hv as (? & ? & _); done.
  - destruct Hcases as (_ & _ & cus & c & -> & _). by apply Hnone.
Qed.

Lemma dispatched_release v out job v' l : dispatched_ok v out job →
  sv_scheduler v' = sv_scheduler v → accounted (sv_governor v') ∧ budgets_hold (sv_governor v') →
  HubGovernor.lease_id l = HubScheduler.task_id job → leases (sv_governor v') = <[HubScheduler.task_id job := l]> (leases (sv_governor v)) →
  dispatched_ok (set_governor v' (release (sv_governor v') l).1) out job.
Proof.
  intros [Hs Hg Hnd Hfr Hj Hf Hl Hjs] Hs' [Ha Hb] Hid Hle.
  assert (leases (sv_governor v') !! HubGovernor.lease_id l = Some l) as Hlook by (by rewrite Hle, Hid, lookup_insert_eq).
  destruct (release_live _ l l Ha Hlook) as (_ & Hdel & Ha' & _).
  assert (leases (release (sv_governor v') l).1 = leases (sv_governor v)) as Hsame.
  { rewrite Hdel, Hle, Hid, delete_insert_id; [done|]. destruct (leases (sv_governor v) !! HubScheduler.task_id job) as [l'|] eqn:E; [|done].
    apply Hl in E as (c & Hc & Hct & _). destruct Hfr. rewrite <- Hct. by apply list_elem_of_fmap_2. }
  constructor; cbn; rewrite ?Hs'; try done; [by apply inv_release|]. intros k l'. by rewrite Hsame.
Qed.

(** The scheduler forgets a dispatched job. *)
Lemma dispatched_complete v out job : dispatched_ok v out job → ∃ v',
  scheduler_complete (HubScheduler.task_id job) v = (v', Ok tt) ∧ service_ok v' out.
Proof.
  intros [[Hwf Hq] Hg Hnd Hfr [Hj Hv] Hf Hl Hjs].
  destruct (complete_flight _ (HubScheduler.task_id job) Hwf) as (s' & Hc & Hwf' & Hq' & Hjobs & _ & Hfl); [apply Hf; by right|].
  eexists. rewrite scheduler_complete_eq, Hc. split; [reflexivity|]. constructor; cbn; auto.
  - intros t. rewrite Hfl, Hf. split; [naive_solver|]. intros Ht. split; [by left|]. intros ->. done.
  - intros c Hcin. rewrite Hjobs, lookup_delete_ne; [by apply Hjs|]. intros E. apply Hfr. rewrite E. by apply list_elem_of_fmap_2.
Qed.

(** A refused candidate goes back to its queue. *)
Lemma dispatched_requeue v out job : dispatched_ok v out job → ∃ v1 v2,
  scheduler_complete (HubScheduler.task_id job) v = (v1, Ok tt) ∧ scheduler_enqueue job v1 = (v2, Ok tt) ∧ service_ok v2 out ∧
  sv_governor v2 = sv_governor v ∧ sv_queue v2 = sv_queue v ∧
  ∀ t, HubScheduler.queued (sv_scheduler v2) t ↔ HubScheduler.queued (sv_scheduler v) t ∨ t = HubScheduler.task_id job.
Proof.
  intros Hd. pose proof Hd as [[Hwf Hq] Hg Hnd Hfr [Hj Hv] Hf Hl Hjs].
  destruct (return_job (sv_scheduler v) (HubScheduler.task_id job) job job) as (s1 & s2 & Hc & He & Hwf2 & Hq2 & Hqd & Hfl); try done; [apply Hf; by right|].
  destruct (dispatched_complete _ _ _ Hd) as (v1 & Hc1 & Hok1). rewrite scheduler_complete_eq, Hc in Hc1. injection Hc1 as <-.
  eexists _, _. rewrite scheduler_complete_eq, Hc. split; [reflexivity|]. rewrite scheduler_enqueue_eq; cbn. rewrite He. split; [reflexivity|].
  split; [by apply (ok_enqueue _ _ job)|]. done.
Qed.

(** A dispatched job with its budget and its lease becomes a claim. *)
Lemma dispatched_claimed v out job v' l payload lease : dispatched_ok v out job →
  sv_scheduler v' = sv_scheduler v → accounted (sv_governor v') ∧ budgets_hold (sv_governor v') →
  leases (sv_governor v') = <[HubScheduler.task_id job := l]> (leases (sv_governor v)) →
  service_ok v' (out ++ [mkClaimed (HubScheduler.task_id job) (HubScheduler.client_id job) (HubScheduler.workspace_id job)
    (HubScheduler.weight job) (HubScheduler.cost job) (HubScheduler.scheduler_policy job) payload lease l]).
Proof.
  intros [Hs Hg Hnd Hfr [Hj Hv] Hf Hl Hjs] Hs' Hg' Hle. constructor; rewrite ?Hs'; try done.
  - rewrite fmap_app. apply NoDup_app. split; [done|]. split; [|apply NoDup_singleton]. intros t Ht Ht'%list_elem_of_singleton. by subst t.
  - intros t. rewrite Hf, fmap_app, elem_of_app. change (cj_task_id <$> [_]) with [HubScheduler.task_id job]. by rewrite list_elem_of_singleton.
  - intros k l'. rewrite Hle, lookup_insert_Some, Hl. split.
    + intros [[<- <-]|[Hne (c & Hc & Hrest)]]; [eexists; split; [apply elem_of_app; right; by left|done]|].
      exists c. split; [apply elem_of_app; by left|done].
    + intros (c & [Hc|Hc%list_elem_of_singleton]%elem_of_app & Hk & Hlc); [|subst c; by left].
      right. split; [|by exists c]. intros E. apply Hfr. rewrite E, <- Hk. by apply list_elem_of_fmap_2.
  - intros c [Hc|Hc%list_elem_of_singleton]%elem_of_app; [by apply Hjs|]. subst c. by exists job.
Qed.

Lemma claim_loop_effect worker request ttl n v out : service_ok v out → valid_resources request = true →
  wp (claim_loop clock monotonic worker request ttl n) (claim_result out) v.
Proof.
  intros Hok Hr. revert v Hok. induction n as [|n IH]; intros v Hok; cbn [claim_loop]; [unfold wp; cbn; by rewrite app_nil_r|].
  rewrite wp_bind. unfold wp at 1. rewrite scheduler_next_eq. destruct (HubScheduler.next (sv_scheduler v)) as [[s' r]|e] eqn:En; cycle 1.
  { destruct (next_ok (sv_scheduler v)) as (? & ? & ?); [apply Hok|congruence]. }
  pose proof (ok_next _ _ _ _ Hok En) as Hd. cbn [fst snd]. destruct r as [job|]; [|unfold wp; cbn; by rewrite app_nil_r].
  rewrite wp_bind. eapply wp_admit; [exact Hd|exact Hr| |]; cbn [set_scheduler sv_scheduler sv_governor].
  - intros v1 l _ Hqu Hs1 Hg1 Hid Hle. rewrite wp_bind. apply wp_queue; [|by eexists]. intros v2 [lease|] [Hs2 Hg2].
    + rewrite wp_bind. apply wp_queue; [|by eexists]. intros v3 payload [Hs3 Hg3]. unfold wp; cbn.
      eapply dispatched_claimed; [exact Hd|..]; [cbn; congruence|by rewrite Hg3, Hg2|by rewrite Hg3, Hg2].
    + erewrite wp_bind. unfold wp at 1. rewrite governor_release_eq; cbn [fst snd].
      assert (dispatched_ok (set_governor v2 (release (sv_governor v2) l).1) out job) as Hd2.
      { apply (dispatched_release _ _ _ _ _ Hd); rewrite ?Hs2, ?Hg2; done. }
      destruct (dispatched_complete _ _ _ Hd2) as (v3 & Hc & Hok3). rewrite wp_bind. unfold wp at 1. rewrite Hc; cbn [fst snd]. by apply IH.
  - intros v1 _ Hd1 _ _ _. destruct (dispatched_requeue _ _ _ Hd1) as (v2 & v3 & Hc & He & Hok3 & _).
    rewrite wp_bind. unfold wp at 1. rewrite Hc; cbn [fst snd]. rewrite wp_bind. unfold wp at 1. rewrite He; cbn [fst snd]. by apply IH.
Qed.

(** A governor that drains refuses every candidate: all go back. *)
Lemma claim_loop_drained worker request ttl n v out : service_ok v out → valid_resources request = true → draining (sv_governor v) = true →
  wp (claim_loop clock monotonic worker request ttl n)
     (λ r v', r = Ok None ∧ service_ok v' out ∧ sv_queue v' = sv_queue v ∧ leases (sv_governor v') = leases (sv_governor v) ∧
              ∀ t, HubScheduler.queued (sv_scheduler v') t ↔ HubScheduler.queued (sv_scheduler v) t) v.
Proof.
  intros Hok Hr. revert v Hok. induction n as [|n IH]; intros v Hok Hdr; cbn [claim_loop]; [by unfold wp|].
  rewrite wp_bind. unfold wp at 1. rewrite scheduler_next_eq. destruct (HubScheduler.next (sv_scheduler v)) as [[s' r]|e] eqn:En; cycle 1.
  { destruct (next_ok (sv_scheduler v)) as (? & ? & ?); [apply Hok|congruence]. }
  pose proof (ok_next _ _ _ _ Hok En) as Hd. cbn [fst snd]. pose proof (proj1 (so_scheduler _ _ Hok)) as Hwf. destruct r as [job|].
  2: { destruct (next_none _ _ Hwf En) as (_ & Hq & _). by unfold wp. }
  destruct (next_takes _ _ _ Hwf En) as (_ & _ & Hqj & Hqs).
  rewrite wp_bind. eapply wp_admit; [exact Hd|exact Hr| |]; cbn [set_scheduler sv_scheduler sv_governor sv_queue].
  - intros v1 l Hnd. congruence.
  - intros v1 Hqu Hd1 Hs1 Hle1 Hdr1. destruct (dispatched_requeue _ _ _ Hd1) as (v2 & v3 & Hc & He & Hok3 & Hg3 & Hqu3 & Hq3).
    rewrite wp_bind. unfold wp at 1. rewrite Hc; cbn [fst snd]. rewrite wp_bind. unfold wp at 1. rewrite He; cbn [fst snd].
    eapply wp_mono; [apply IH; [done|congruence]|]. intros r v4 (-> & Hok4 & Hqu4 & Hle4 & Hq4). split; [done|]. split; [done|].
    split; [congruence|]. split; [congruence|]. intros t. rewrite Hq4, Hq3, Hs1, Hqs. split; [by intros [[? _]| ->]|]. intros Ht.
    destruct (decide (t = HubScheduler.task_id job)); [by right|by left].
Qed.

Lemma elem_of_without t out c : c ∈ without t out ↔ c ∈ out ∧ cj_task_id c ≠ t.
Proof. unfold without. rewrite list_elem_of_filter. naive_solver. Qed.

Lemma without_ids t t' out : t' ∈ cj_task_id <$> without t out ↔ t' ∈ cj_task_id <$> out ∧ t' ≠ t.
Proof.
  rewrite !list_elem_of_fmap. setoid_rewrite elem_of_without. split; [intros (c & -> & Hc & Hne)|intros [(c & -> & Hc) Hne]]; naive_solver.
Qed.

(** The claim's budget is given back. *)
Lemma give_back v out c : service_ok v out → c ∈ out → ∃ g', release (sv_governor v) (cj_resource_lease c) = (g', true) ∧
  accounted g' ∧ budgets_hold g' ∧ leases g' = delete (cj_task_id c) (leases (sv_governor v)).
Proof.
  intros [_ [Ha Hb] _ _ Hl _] Hc. assert (leases (sv_governor v) !! cj_task_id c = Some (cj_resource_lease c)) as Hlook by (apply Hl; by exists c).
  destruct (acc_lease _ Ha _ _ Hlook) as (Hid & _). rewrite <- Hid in Hlook. destruct (release_live _ _ _ Ha Hlook) as (Hr & Hdel & _).
  destruct (inv_release _ (cj_resource_lease c) Ha Hb) as [Ha' Hb']. destruct (release _ _) as [g' b]; cbn in *. subst b. exists g'. by rewrite <- Hid.
Qed.

(** The claim is closed: its budget is free, its slot is free. *)
Lemma ok_close v out c v' g' s' : service_ok v out → c ∈ out → same_parts v v' →
  release (sv_governor v) (cj_resource_lease c) = (g', true) → HubScheduler.complete (sv_scheduler v) (cj_task_id c) = Ok s' →
  service_ok (set_scheduler (set_governor v' g') s') (without (cj_task_id c) out).
Proof.
  intros Hok Hc [Hs Hg] Hrel Hcomp. destruct (give_back _ _ _ Hok Hc) as (g2 & Hrel2 & Ha & Hb & Hdel). rewrite Hrel in Hrel2. injection Hrel2 as <-.
  destruct Hok as [[Hwf Hq] _ Hnd Hf Hl Hj].
  destruct (complete_flight _ (cj_task_id c) Hwf) as (s2 & Hcomp2 & Hwf' & Hq' & Hjs & _ & Hfl); [apply Hf; by apply list_elem_of_fmap_2|].
  rewrite Hcomp in Hcomp2. injection Hcomp2 as <-. constructor; cbn; auto.
  - by apply NoDup_fmap_filter.
  - intros t. by rewrite Hfl, Hf, without_ids.
  - intros k l. rewrite Hdel, lookup_delete_Some, Hl. split.
    + intros [Hne (c' & Hc' & Hk & Hlc)]. exists c'. rewrite elem_of_without. split; [|done]. split; [done|]. congruence.
    + intros (c' & [Hc' Hne]%elem_of_without & Hk & Hlc). split; [congruence|by exists c'].
  - intros c' [Hc' Hne]%elem_of_without. rewrite Hjs, lookup_delete_ne by congruence. by apply Hj.
Qed.

Lemma close_scheduler v out c : service_ok v out → c ∈ out → ∃ s', HubScheduler.complete (sv_scheduler v) (cj_task_id c) = Ok s'.
Proof.
  intros [[Hwf _] _ _ Hf _ _] Hc. destruct (complete_flight _ (cj_task_id c) Hwf) as (s' & Hcomp & _); [apply Hf; by apply list_elem_of_fmap_2|by exists s'].
Qed.

Lemma service_complete_effect v out c : service_ok v out → c ∈ out → wp (complete clock c) (close_result v out c) v.
Proof.
  intros Hok Hc. unfold complete. rewrite wp_bind. apply wp_queue; [|intros v' e Hsame; split; [by eexists|done]]. intros v1 _ Hsame.
  destruct (give_back _ _ _ Hok Hc) as (g' & Hrel & _). destruct (close_scheduler _ _ _ Hok Hc) as [s' Hcomp].
  rewrite wp_bind. unfold wp at 1. rewrite governor_release_eq; cbn [fst snd]. destruct Hsame as [Hs Hg]. rewrite Hg, Hrel; cbn [fst].
  unfold wp. rewrite scheduler_complete_eq; cbn [set_governor sv_scheduler]. rewrite Hs, Hcomp; cbn [fst snd close_result].
  by apply (ok_close v).
Qed.

Lemma scheduled_job_valid v out c : service_ok v out → c ∈ out →
  valid_job (scheduled_job (cj_task_id c) (cj_client_id c) (cj_weight c) (cj_cost c) (cj_workspace_id c) (cj_scheduler_policy c)).
Proof.
  intros [[Hwf _] _ _ _ _ Hj] Hc. destruct (Hj c Hc) as (j & Hlook & <- & <- & <- & <-). destruct (sd_jobs _ Hwf _ _ Hlook) as (<- & (? & ? & ? & ? & ? & _) & _).
  by split_and!.
Qed.

Lemma service_fail_effect v out c code backoff : service_ok v out → c ∈ out → wp (fail clock c code backoff) (close_result v out c) v.
Proof.
  intros Hok Hc. unfold fail. rewrite wp_bind. apply wp_queue; [|intros v' e Hsame; split; [by eexists|done]]. intros v1 dead Hsame.
  destruct (give_back _ _ _ Hok Hc) as (g' & Hrel & _).
  pose proof Hok as [[Hwf Hq] _ _ Hf _ Hj]. destruct (Hj c Hc) as (j & Hlook & Hjc & Hjw & _).
  destruct (return_job (sv_scheduler v) (cj_task_id c) j
    (scheduled_job (cj_task_id c) (cj_client_id c) (cj_weight c) (cj_cost c) (cj_workspace_id c) (cj_scheduler_policy c)))
    as (s1 & s2 & Hcomp & He & _); try done; [apply Hf; by apply list_elem_of_fmap_2|by eapply scheduled_job_valid|].
  pose proof (ok_close v out c v1 g' s1 Hok Hc Hsame Hrel Hcomp) as Hclosed. destruct Hsame as [Hs Hg].
  rewrite wp_bind. unfold wp at 1. rewrite governor_release_eq; cbn [fst snd]. rewrite Hg, Hrel; cbn [fst].
  rewrite wp_bind. unfold wp at 1. rewrite scheduler_complete_eq; cbn [set_governor sv_scheduler]. rewrite Hs, Hcomp; cbn [fst snd].
  destruct dead; [by unfold wp; cbn|]. rewrite wp_bind. unfold wp at 1. rewrite scheduler_enqueue_eq; cbn [set_scheduler sv_scheduler]. rewrite He; cbn [fst snd].
  unfold wp; cbn. by apply (ok_enqueue _ _ _ _ Hclosed He).
Qed.

(** Submission, a new policy and a restart leave the claims alone. *)
Lemma service_submit_effect v out payload key client ws w c max : service_ok v out → service_ok (submit clock payload key client ws w c max v).1 out.
Proof.
  intros Hok. change (wp (submit clock payload key client ws w c max) (λ _ v', service_ok v' out) v). unfold submit. rewrite wp_bind. unfold wp at 1; cbn [get_state fst snd].
  rewrite wp_bind. apply wp_queue; [|intros v1 e Hsame; by apply (ok_same v)]. intros v1 t Hsame. apply (ok_same _ _ _ Hsame) in Hok.
  rewrite wp_bind, wp_try. unfold wp at 1. pose proof (ok_scheduler_enqueue _ _ (scheduled_job t client w c ws (policy_for (HubScheduler.policy (sv_scheduler v)) key)) Hok) as He.
  destruct (scheduler_enqueue _ v1) as [v2 [[]|e]]; cbn [fst snd] in *; [by unfold wp|]. destruct (is_duplicate e); by unfold wp.
Qed.

Lemma service_configure_effect v out p : service_ok v out → service_ok (configure_scheduler p v).1 out.
Proof.
  intros Hok. change (wp (configure_scheduler p) (λ _ v', service_ok v' out) v). unfold configure_scheduler. rewrite wp_bind.
  apply wp_queue; [|intros v1 e Hsame; by apply (ok_same v)]. intros v1 _ Hsame. apply (ok_same _ _ _ Hsame) in Hok.
  unfold wp, scheduler, rescue, zoom; cbn. destruct Hok as [[Hwf Hq] Hg Hnd Hf Hl Hj]. constructor; cbn; try done. split.
  - exact (wf_call (sv_scheduler v1) (HubScheduler.ConfigurePolicy p) _ Hwf I eq_refl).
  - exact (quotas_call (sv_scheduler v1) (HubScheduler.ConfigurePolicy p) _ Hwf Hq eq_refl).
Qed.

Lemma rehydrate_entry_ok v out e : service_ok v out → service_ok (rehydrate_entry e v).1 out.
Proof.
  intros Hok. change (wp (rehydrate_entry e) (λ _ v', service_ok v' out) v). unfold rehydrate_entry. rewrite wp_try, wp_bind. unfold wp at 1.
  match goal with |- context [scheduler_enqueue ?j v] => pose proof (ok_scheduler_enqueue _ _ j Hok) as He; destruct (scheduler_enqueue j v) as [v2 [[]|x]] end;
    cbn [fst snd] in *; [by unfold wp|]. by destruct x as [|[]|].
Qed.

Lemma rehydrate_entries_ok l n v out : service_ok v out → service_ok (rehydrate_entries l n v).1 out.
Proof.
  revert v n. induction l as [|e l IH]; intros v n Hok; [done|]. cbn [rehydrate_entries].
  pose proof (rehydrate_entry_ok _ _ e Hok) as He. unfold mbind, prog_bind. destruct (rehydrate_entry e v) as [v2 [b|x]]; cbn in *; [by apply IH|done].
Qed.

Lemma service_rehydrate_effect v out : service_ok v out → service_ok (rehydrate_scheduler clock v).1 out.
Proof.
  intros Hok. change (wp (rehydrate_scheduler clock) (λ _ v', service_ok v' out) v). unfold rehydrate_scheduler. rewrite wp_bind.
  apply wp_queue; [|intros v1 e Hsame; by apply (ok_same v)]. intros v1 l Hsame. apply rehydrate_entries_ok. by apply (ok_same v).
Qed.

(** A service on fresh parts has handed out nothing. *)
Lemma service_ok_start v : wf (sv_scheduler v) ∧ quotas_hold (sv_scheduler v) → HubScheduler.jobs (sv_scheduler v) = ∅ →
  accounted (sv_governor v) ∧ budgets_hold (sv_governor v) → leases (sv_governor v) = ∅ → service_ok v [].
Proof.
  intros Hs Hj Hg Hl. constructor; [done|done|constructor| | |].
  - intros t. unfold in_flight. rewrite Hj, lookup_empty. split; [by intros [[? ?] _]|intros Ht; by apply not_elem_of_nil in Ht].
  - intros k l. rewrite Hl, lookup_empty. split; [done|intros (c & Hc & _); by apply not_elem_of_nil in Hc].
  - intros c Hc. by apply not_elem_of_nil in Hc.
Qed.

Lemma service_restart_effect v s g : fresh_parts s g → service_ok (restart clock v s g) [].
Proof.
  intros [(mi & q & mqc & mqw & mgq & ticks & boost & p & Hi) (lim & clim & th & cd & Hlim & Hclim & Hg)].
  apply service_rehydrate_effect, service_ok_start; cbn.
  - by eapply wf_init.
  - unfold FairScheduler_init in Hi. py_cases. done.
  - by eapply inv_init.
  - unfold ResourceGovernor_init in Hg. apply rbind_Ok in Hg as (c & _ & Hg). by injection Hg as <-.
Qed.

Lemma service_step_ok v out v' out' : service_step clock monotonic (v, out) (v', out') → service_ok v out → service_ok v' out'.
Proof.
  intros Hst Hok. inversion Hst; subst; clear Hst.
  - by apply service_submit_effect.
  - match goal with Hr : valid_resources ?rq = true, Hc : claim _ _ ?w ?rq ?ttl ?n _ = _ |- _ =>
      pose proof (claim_loop_effect w rq ttl (Z.to_nat n) _ _ Hok Hr) as He; unfold wp in He; unfold claim in Hc; rewrite Hc in He end. exact He.
  - match goal with Hin : _ ∈ out, Hc : complete _ _ _ = _ |- _ =>
      pose proof (service_complete_effect _ _ _ Hok Hin) as He; unfold wp in He; rewrite Hc in He end. exact He.
  - match goal with Hin : _ ∈ out, Hc : fail _ _ ?code ?backoff _ = _ |- _ =>
      pose proof (service_fail_effect _ _ _ code backoff Hok Hin) as He; unfold wp in He; rewrite Hc in He end. exact He.
  - by apply service_configure_effect.
  - by apply service_rehydrate_effect.
  - by apply service_restart_effect.
  - by apply (ok_same v).
  - destruct Hok as [Hs Hg Hnd Hf Hl Hj]. match goal with Hb : books ?g = _ |- _ => rename g into g'; rename Hb into Hbooks end.
    pose proof (books_inv _ _ Hbooks Hg) as Hg'. assert (leases g' = leases (sv_governor v)) as Hle by (unfold books in Hbooks; congruence).
    constructor; cbn; try done. intros k l. by rewrite Hle.
Qed.

Lemma service_reachable_ok v out : service_reachable clock monotonic v out → service_ok v out.
Proof.
  intros (v0 & Hwf & Hq & Hj & Ha & Hb & Hl & Hrtc).
  pose proof (service_ok_start v0 (conj Hwf Hq) Hj (conj Ha Hb) Hl) as H0.
  assert (∀ x y, rtc (service_step clock monotonic) x y → service_ok x.1 x.2 → service_ok y.1 y.2) as Hind.
  { induction 1 as [|[v1 out1] [v2 out2] z Hst _ IH]; intros Hok; [done|]. apply IH. by eapply service_step_ok. }
  by apply (Hind _ _ Hrtc).
Qed.
End Effects.

(** * Properties *)

Section Properties.
Context {J M : Type} `{JournalLaws J QueueEvent} `{!OperationsStore M} (clock monotonic : nat → Z).
Implicit Types (v : Service J M) (out : list ClaimedJob).

(** C4: Nothing leaks while calls return. After any sequence of submissions,
    claims, completions, failures, new policies, rehydrations and restarts whose
    claims, completions and failures return (those that raise are the subject of
    [refused_claim_leaks]), with the queue changing on its own and the
    governor taking readings and draining in between: the tasks in flight in the
    scheduler are exactly those of the claims this service handed out and was not
    given back, the governor's leases are exactly the leases of those claims, each
    under its task, and no quota and no budget is exceeded. A restart is a new
    service over the same durable queue, with a freshly constructed scheduler and
    governor that [rehydrate_scheduler] fills; the claims of the service that
    stopped are gone with it, and right after the restart nothing is in flight and
    nothing leased. *)
Theorem service_books v out : service_reachable clock monotonic v out →
  NoDup (cj_task_id <$> out) ∧ (∀ t, in_flight (sv_scheduler v) t ↔ t ∈ cj_task_id <$> out) ∧
  (∀ k l, leases (sv_governor v) !! k = Some l ↔ ∃ c, c ∈ out ∧ cj_task_id c = k ∧ cj_resource_lease c = l) ∧
  quotas_hold (sv_scheduler v) ∧ budgets_hold (sv_governor v).
Proof. intros [[_ Hq] [_ Hb] Hnd Hf Hl _]%service_reachable_ok. done. Qed.

(** The scheduler and the governor never raise through the service: what
    [claim], [complete] and [fail] raise is what the durable queue raised. When
    [complete] or [fail] does raise, the claim keeps its slot in the scheduler
    and its budget in the governor: the release of the three parts is not
    together, as the module says, but after the queue has agreed. *)
Theorem only_queue_raises v out : service_reachable clock monotonic v out →
  (∀ worker request ttl n v' e, valid_resources request = true → claim clock monotonic worker request ttl n v = (v', Err e) → ∃ q, e = FromQueue q) ∧
  ∀ c, c ∈ out →
    (∀ v' e, complete clock c v = (v', Err e) → (∃ q, e = FromQueue q) ∧ same_parts v v') ∧
    ∀ code backoff v' e, fail clock c code backoff v = (v', Err e) → (∃ q, e = FromQueue q) ∧ same_parts v v'.
Proof.
  intros Hok%service_reachable_ok. split; [|intros c Hc; split].
  - intros worker request ttl n v' e Hr Hcl. pose proof (claim_loop_effect clock monotonic worker request ttl (Z.to_nat n) _ _ Hok Hr) as He.
    unfold wp in He. unfold claim in Hcl. by rewrite Hcl in He.
  - intros v' e Hcl. pose proof (service_complete_effect clock _ _ _ Hok Hc) as He. unfold wp in He. by rewrite Hcl in He.
  - intros code backoff v' e Hcl. pose proof (service_fail_effect clock _ _ _ code backoff Hok Hc) as He. unfold wp in He. by rewrite Hcl in He.
Qed.

(** A worker whose lease is refused by the queue (it has run out, or the
    task was given to another) can free nothing: [complete] and [fail] raise
    before they reach the governor and the scheduler, so the slot of its task
    stays in flight and its budget leased, however often it tries, and no other
    call of the service frees them. *)
Theorem refused_claim_leaks v out c : service_reachable clock monotonic v out → c ∈ out → refused clock (sv_queue v) (cj_retry_lease c) →
  let v' := mkService (tick (sv_queue v)) (sv_scheduler v) (sv_governor v) (sv_ticks v) in
  complete clock c v = (v', Err (FromQueue STALE)) ∧ (∀ code backoff, code ≠ "" → fail clock c code backoff v = (v', Err (FromQueue STALE))) ∧
  in_flight (sv_scheduler v') (cj_task_id c) ∧ leases (sv_governor v') !! cj_task_id c = Some (cj_resource_lease c).
Proof.
  intros Hok%service_reachable_ok Hc (_ & Hcomp & Hfail). cbv zeta. split; [|split; [|split]].
  - unfold complete. apply bind_err. unfold queue, rescue, zoom. by rewrite Hcomp.
  - intros code backoff Hcode. unfold fail. apply bind_err. unfold queue, rescue, zoom. by rewrite Hfail.
  - cbn. apply (so_flight _ _ Hok). by apply list_elem_of_fmap_2.
  - cbn. apply (so_leases _ _ Hok). by exists c.
Qed.

(** A candidate the governor refuses is not lost. While the governor drains
    it refuses all, and a call of [claim] with any number of candidates returns
    nothing, asks the queue for nothing, and leaves queued exactly the jobs that
    were queued and the claims as they were. *)
Theorem throttled_not_lost v out worker request ttl n :
  service_reachable clock monotonic v out → valid_resources request = true → draining (sv_governor v) = true →
  ∃ v', claim clock monotonic worker request ttl n v = (v', Ok None) ∧ sv_queue v' = sv_queue v ∧
    leases (sv_governor v') = leases (sv_governor v) ∧ (∀ t, HubScheduler.queued (sv_scheduler v') t ↔ HubScheduler.queued (sv_scheduler v) t) ∧
    ∀ t, in_flight (sv_scheduler v') t ↔ in_flight (sv_scheduler v) t.
Proof.
  intros Hok%service_reachable_ok Hr Hdr. pose proof (claim_loop_drained clock monotonic worker request ttl (Z.to_nat n) _ _ Hok Hr Hdr) as He.
  unfold wp in He. unfold claim. destruct (claim_loop _ _ _ _ _ _ v) as [v' r]; cbn [fst snd] in He. destruct He as (-> & Hok' & Hqu & Hle & Hq).
  exists v'. split; [done|]. split; [done|]. split; [done|]. split; [done|]. intros t. by rewrite (so_flight _ _ Hok'), (so_flight _ _ Hok).
Qed.

(** A job that comes up before its time is lost to the scheduler. [fail]
    with a backoff queues the job in the scheduler at once, but the durable
    queue does not grant it before [next_attempt_at]: the claim that dispatches
    it in between gives its budget and its slot back and does not queue it
    again. The job is then queued in the durable queue only, and no claim of
    the service can find it until [rehydrate_scheduler]. *)
Theorem early_claim_strands v out s' job s j worker request ttl g' l :
  service_reachable clock monotonic v out → HubScheduler.next (sv_scheduler v) = Ok (s', Some job) →
  reads_as (sv_queue v) s → dget (HubScheduler.task_id job) (RetryQueue.jobs s) = Some j → job_state j = queued →
  clock (hub_reads (sv_queue v)) < next_attempt_at j → worker ≠ "" → 0 < ttl → valid_resources request = true →
  governor_admit (sv_governor v) (monotonic (sv_ticks v)) (HubScheduler.client_id job) (HubScheduler.task_id job) request (HubScheduler.workspace_id job) None
    = (g', Ok l) →
  ∃ v', claim clock monotonic worker request ttl 1 v = (v', Ok None) ∧ HubScheduler.jobs (sv_scheduler v') !! HubScheduler.task_id job = None ∧
    reads_as (sv_queue v') s ∧ leases (sv_governor v') = leases (sv_governor v).
Proof.
  intros Hok%service_reachable_ok Hn Hs Hj Hst Hdue Hw%Str.truthy_ne Httl Hr Hadm.
  pose proof (ok_next _ _ _ _ Hok Hn) as Hd. pose proof (do_job _ _ _ Hd) as [_ (Ht%Str.truthy_ne & _)].
  assert (claim_specific clock (HubScheduler.task_id job) worker ttl (sv_queue v) = (tick (sv_queue v), Ok None)) as Hcl.
  { unfold claim_specific. rewrite Ht, Hw, (proj2 (Z.leb_gt _ _)) by lia. cbn [negb orb raise_if]. erewrite bind_ok by reflexivity.
    erewrite bind_ok by by apply load_eq. unfold job_of. rewrite Hj. erewrite bind_ok by reflexivity. erewrite bind_ok by reflexivity.
    unfold claimable. rewrite Hst, (proj2 (Z.leb_gt _ _)) by done. done. }
  unfold claim. change (Z.to_nat 1) with 1%nat. cbn [claim_loop].
  erewrite bind_ok by (rewrite scheduler_next_eq, Hn; reflexivity). cbn beta iota.
  erewrite bind_ok; cycle 1.
  { unfold admit_claim. erewrite bind_ok by reflexivity. unfold try_except. erewrite bind_ok; [reflexivity|].
    unfold governor, rescue, zoom; cbn [set_scheduler sv_governor sv_ticks]. rewrite Hadm. reflexivity. }
  cbn beta iota. erewrite bind_ok by (unfold queue, rescue, zoom; cbn [set_scheduler sv_queue]; rewrite Hcl; reflexivity). cbn beta iota.
  erewrite bind_ok by reflexivity.
  pose proof (inv_admit (sv_governor v) (monotonic (sv_ticks v)) (HubScheduler.client_id job) (HubScheduler.task_id job) request (HubScheduler.workspace_id job) None
    (proj1 (so_governor _ _ Hok)) (proj2 (so_governor _ _ Hok)) Hr) as Hinv.
  pose proof (admit_cases (sv_governor v) (monotonic (sv_ticks v)) (HubScheduler.client_id job) (HubScheduler.task_id job) request (HubScheduler.workspace_id job) None) as Hc.
  rewrite Hadm in Hinv, Hc. cbn in Hinv, Hc.
  assert (HubGovernor.lease_id l = HubScheduler.task_id job ∧ leases g' = <[HubScheduler.task_id job := l]> (leases (sv_governor v))) as [Hid Hle].
  { destruct Hc as [[Hlook _]|(_ & _ & _ & _ & _ & _ & _ & -> & ->)]; [|done].
    apply (so_leases _ _ Hok) in Hlook as (c & Hcin & Hct & _). destruct (do_fresh _ _ _ Hd). rewrite <- Hct. by apply list_elem_of_fmap_2. }
  set (v1 := mkService (tick (sv_queue v)) s' g' (S (sv_ticks v))).
  assert (dispatched_ok (set_governor v1 (release (sv_governor v1) l).1) out job) as Hd1 by by apply (dispatched_release _ _ _ _ _ Hd).
  destruct (complete_flight s' (HubScheduler.task_id job)) as (s2 & Hcomp & _ & _ & Hjs & _); [apply Hd|apply (do_flight _ _ _ Hd); by right|].
  match goal with |- context [(scheduler_complete _ ≫= _) ?x] => assert (scheduler_complete (HubScheduler.task_id job) x = (set_scheduler x s2, Ok tt)) as Hsc end.
  { rewrite scheduler_complete_eq. cbn [sv_scheduler]. change (HubScheduler.complete (sv_scheduler _) _) with (HubScheduler.complete s' (HubScheduler.task_id job)). by rewrite Hcomp. }
  rewrite (bind_ok _ _ _ _ _ Hsc).
  eexists. split; [reflexivity|]. cbn. rewrite Hjs, lookup_delete_eq. split; [done|]. split; [exact Hs|].
  assert (leases g' !! HubGovernor.lease_id l = Some l) as Hlook by (by rewrite Hle, Hid, lookup_insert_eq).
  destruct (release_live g' l l (proj1 Hinv) Hlook) as (_ & Hdel & _). rewrite Hdel, Hle, Hid, delete_insert_id; [done|].
  destruct (leases (sv_governor v) !! HubScheduler.task_id job) as [l'|] eqn:E; [|done].
  apply (so_leases _ _ Hok) in E as (c & Hcin & Hct & _). destruct (do_fresh _ _ _ Hd). rewrite <- Hct. by apply list_elem_of_fmap_2.
Qed.
End Properties.

(** * Examples *)

Lemma demo_service_start : service_reachable (J := MemJournal QueueEvent) (M := Mem.Store) demo_clock demo_monotonic demo_service [].
Proof.
  exists demo_service. destruct (wf_init 2 1 (Some 4) (Some 8) (Some 9) 5 4 HubScheduler.demo_policy HubScheduler.demo0 eq_refl) as [Hwf Hq].
  destruct (inv_init (one_cpu 4) {["a" := one_cpu 2]} 2 30 HubGovernor.demo0) as [Ha Hb]; [reflexivity| |reflexivity|].
  { intros c cl [_ <-]%lookup_singleton_Some. reflexivity. }
  repeat (split; [done|]). apply rtc_refl.
Qed.

Lemma demo_service_step v out v' out' : service_reachable (J := MemJournal QueueEvent) (M := Mem.Store) demo_clock demo_monotonic v out →
  service_step demo_clock demo_monotonic (v, out) (v', out') → service_reachable demo_clock demo_monotonic v' out'.
Proof. intros (v0 & Hwf & Hq & Hj & Ha & Hb & Hl & Hrtc) Hst. exists v0. repeat (split; [done|]). by eapply rtc_r. Qed.

Lemma demo_submitted_reachable : service_reachable demo_clock demo_monotonic demo_submitted [].
Proof. eapply demo_service_step; [exact demo_service_start|apply ss_submit]. Qed.

Lemma demo_claim_reachable ttl v' c : claim demo_clock demo_monotonic "w1" (one_cpu 1) ttl 8 demo_submitted = (v', Ok (Some c)) →
  service_reachable demo_clock demo_monotonic v' [c].
Proof.
  intros Hc. eapply demo_service_step; [exact demo_submitted_reachable|]. assert (Hv : valid_resources (one_cpu 1) = true) by reflexivity.
  exact (ss_claim demo_clock demo_monotonic demo_submitted [] "w1" (one_cpu 1) ttl 8 v' (Some c) Hv Hc).
Qed.

Lemma demo_alone (c : ClaimedJob) : c ∈ [c].
Proof. by left. Qed.

Lemma demo_expired_eq : demo_expired = (demo_expired.1, Ok (Some (claim_of demo_expired.2))).
Proof. vm_compute. reflexivity. Qed.
Lemma demo_lasting_eq : demo_lasting = (demo_lasting.1, Ok (Some (claim_of demo_lasting.2))).
Proof. vm_compute. reflexivity. Qed.

(** A job that was submitted before a restart waits in the fresh scheduler after it. *)
Example restart_requeues :
  let v := restart demo_clock demo_submitted HubScheduler.demo0 HubGovernor.demo0 in
  HubScheduler.task_id <$> default [] (queues (sv_scheduler v) !! "c") = [task_id_of "a"] ∧ inflight (sv_scheduler v) !! "c" = Some 0.
Proof. vm_compute. done. Qed.

Lemma service_books_witness :
  in_flight (sv_scheduler demo_lasting.1) (task_id_of "a") ∧ size (leases (sv_governor demo_lasting.1)) = 1%nat.
Proof.
  split; [|vm_compute; reflexivity].
  apply (proj1 (proj2 (service_books demo_clock demo_monotonic demo_lasting.1 [claim_of demo_lasting.2] (demo_claim_reachable 300 _ _ demo_lasting_eq)))).
  apply list_elem_of_singleton. vm_compute. reflexivity.
Defined.

(** [complete] under a lease that has run out, then [fail]. *)
Lemma only_queue_raises_witness :
  ∃ v' q, complete demo_clock (claim_of demo_expired.2) demo_expired.1 = (v', Err (FromQueue q)) ∧ same_parts demo_expired.1 v'.
Proof.
  set (c := claim_of demo_expired.2). set (v' := (complete demo_clock c demo_expired.1).1).
  assert (He : complete demo_clock c demo_expired.1 = (v', Err (FromQueue STALE))) by (vm_compute; reflexivity).
  destruct (proj1 (proj2 (only_queue_raises demo_clock demo_monotonic demo_expired.1 [c] (demo_claim_reachable 30 _ _ demo_expired_eq))
    c (demo_alone c)) v' (FromQueue STALE) He) as [_ Hsame].
  exists v', STALE. split; [exact He|exact Hsame].
Defined.

Lemma demo_expired_refused : refused demo_clock (sv_queue demo_expired.1) (cj_retry_lease (claim_of demo_expired.2)).
Proof.
  apply (stale_refused demo_clock (sv_queue demo_expired.1) (snapshot_of (sv_queue demo_expired.1)) _ (job_at (sv_queue demo_expired.1) "a"));
    [vm_compute; reflexivity|vm_compute; reflexivity|]. right. right. apply Z.leb_le. vm_compute. reflexivity.
Qed.

Lemma refused_claim_leaks_witness :
  let v := demo_expired.1 in let c := claim_of demo_expired.2 in
  let v' := mkService (tick (sv_queue v)) (sv_scheduler v) (sv_governor v) (sv_ticks v) in
  complete demo_clock c v = (v', Err (FromQueue STALE)) ∧ (∀ code backoff, code ≠ "" → fail demo_clock c code backoff v = (v', Err (FromQueue STALE))) ∧
  in_flight (sv_scheduler v') (cj_task_id c) ∧ leases (sv_governor v') !! cj_task_id c = Some (cj_resource_lease c).
Proof.
  exact (refused_claim_leaks demo_clock demo_monotonic demo_expired.1 [claim_of demo_expired.2] (claim_of demo_expired.2)
    (demo_claim_reachable 30 _ _ demo_expired_eq) (demo_alone _) demo_expired_refused).
Defined.

Lemma throttled_not_lost_witness :
  HubScheduler.queued (sv_scheduler demo_drained) (task_id_of "a") ∧
  ∃ v', claim demo_clock demo_monotonic "w1" (one_cpu 1) 30 8 demo_drained = (v', Ok None) ∧ HubScheduler.queued (sv_scheduler v') (task_id_of "a").
Proof.
  assert (Hq : HubScheduler.queued (sv_scheduler demo_drained) (task_id_of "a")).
  { set (j := default (HubScheduler.demo_job "" "" 0) (HubScheduler.jobs (sv_scheduler demo_drained) !! task_id_of "a")).
    exists "c", [j], j. split; [vm_compute; reflexivity|]. split; [by left|vm_compute; reflexivity]. }
  split; [exact Hq|].
  assert (Hr : service_reachable demo_clock demo_monotonic demo_drained []).
  { eapply demo_service_step; [exact demo_submitted_reachable|]. apply ss_governor. reflexivity. }
  destruct (throttled_not_lost demo_clock demo_monotonic demo_drained [] "w1" (one_cpu 1) 30 8 Hr eq_refl eq_refl) as (v' & Hc & _ & _ & Hqs & _).
  exists v'. split; [exact Hc|]. apply Hqs. exact Hq.
Defined.

Lemma early_claim_strands_witness :
  ∃ v', claim demo_clock demo_monotonic "w2" (one_cpu 1) 30 1 demo_backoff = (v', Ok None) ∧
    HubScheduler.jobs (sv_scheduler v') !! task_id_of "a" = None ∧ (state (task_id_of "a") (sv_queue v')).2 = Ok queued.
Proof.
  set (v := demo_backoff). set (h := sv_queue v).
  set (job := default (HubScheduler.demo_job "" "" 0) (HubScheduler.jobs (sv_scheduler v) !! task_id_of "a")).
  set (n := ok_or (sv_scheduler v, None) (HubScheduler.next (sv_scheduler v))).
  set (g := governor_admit (sv_governor v) (demo_monotonic (sv_ticks v)) (HubScheduler.client_id job) (HubScheduler.task_id job) (one_cpu 1) (HubScheduler.workspace_id job) None).
  set (c := claim_of demo_lasting.2). assert (Hf : fail demo_clock c "boom" 50 demo_lasting.1 = (v, Ok false)) by (vm_compute; reflexivity).
  assert (Hr : service_reachable demo_clock demo_monotonic v (without (cj_task_id c) [c])).
  { eapply demo_service_step; [exact (demo_claim_reachable 300 _ _ demo_lasting_eq)|].
    exact (ss_fail demo_clock demo_monotonic demo_lasting.1 [c] c "boom" 50 v false (demo_alone c) Hf). }
  assert (H1 : HubScheduler.next (sv_scheduler v) = Ok (n.1, Some job)) by (vm_compute; reflexivity).
  assert (H2 : reads_as h (snapshot_of h)) by (vm_compute; reflexivity).
  assert (H3 : dget (HubScheduler.task_id job) (RetryQueue.jobs (snapshot_of h)) = Some (job_at h "a")) by (vm_compute; reflexivity).
  assert (H4 : job_state (job_at h "a") = queued) by (vm_compute; reflexivity).
  assert (H5 : demo_clock (hub_reads h) < next_attempt_at (job_at h "a")) by (vm_compute; reflexivity).
  assert (H6 : g = (g.1, Ok (ok_or (cj_resource_lease no_claim) g.2))) by (vm_compute; reflexivity).
  destruct (early_claim_strands demo_clock demo_monotonic v (without (cj_task_id c) [c]) n.1 job (snapshot_of h) (job_at h "a") "w2" (one_cpu 1) 30 g.1 _
    Hr H1 H2 H3 H4 H5 ltac:(discriminate) ltac:(lia) eq_refl H6) as (v' & Hc & Hgone & Hs & _).
  exists v'. split; [exact Hc|]. split; [exact Hgone|]. unfold state. erewrite bind_ok by (by apply load_eq). vm_compute. reflexivity.
Defined.

Example pins_differ :
  let v := (submit demo_clock [] "a" "c" "ws" 1 1 3 (with_policy "canary" 50 demo_service)).1 in
  RetryQueue.scheduler_policy (job_at (sv_queue v) "a") = FAIR_POLICY_VERSION ∧ pin_of v = Some LEGACY_POLICY_VERSION.
Proof. vm_compute. split; reflexivity. Qed.

Example rollback_rewrites_pin :
  let v := with_policy "off" 0 demo_lasting.1 in
  cj_scheduler_policy (claim_of demo_lasting.2) = FAIR_POLICY_VERSION ∧
  pin_of (fail demo_clock (claim_of demo_lasting.2) "boom" 0 v).1 = Some LEGACY_POLICY_VERSION.
Proof. vm_compute. split; reflexivity. Qed.
