(* ===== verification/InferenceAdmission.v ===== *)
(** Inference admission ([simplicio_loop/inference_admission.py]): the fair
    admission controller, the single-flight coordinator that sits on it, and
    the bounded retry policy. Scores are the code's floats times
    [aging_ticks]; delays are exact rationals. The coordinator's coroutines are
    the steps between two suspension points; clocks, identifiers and the
    executor's outcomes are arguments. *)
From Stdlib Require Import QArith Qminmax Lqa.
From stdpp Require Import pretty.
From S2P Require Import Prelude PyLib.
Local Open Scope Z_scope.
Local Open Scope py_scope.

(** * Definitions *)

Definition PRIORITY_WEIGHT : gmap string Z := list_to_map [
  ("interactive", 8); ("mapping", 4); ("inference", 2); ("background", 1)].

Record CapacityLimits := mkLimits {
  max_runnable : Z;
  max_active_workers : Z;
  max_inference_requests : Z;
  max_backend_slots : Z;
  max_memory_bytes : Z;
  max_queue : Z;
}.

(** [CapacityLimits.__post_init__]: [true] when it raises nothing. *)
Definition valid_limits (l : CapacityLimits) : bool :=
  negb (existsb (λ v, v <? 1) [max_runnable l; max_active_workers l; max_inference_requests l;
                               max_backend_slots l; max_queue l]
        || (max_memory_bytes l <? 0)).

Record AdmissionJob := mkJob {
  job_id : string;
  client_id : string;
  session_id : string;
  priority : string;
  repository_id : string;
  runnable : Z;
  active_workers : Z;
  inference_requests : Z;
  backend_slots : Z;
  memory_bytes : Z;
  enqueued_at : Z;
}.
#[export] Instance AdmissionJob_eta : Eta AdmissionJob := λ j,
  mkJob (job_id j) (client_id j) (session_id j) (priority j) (repository_id j) (runnable j)
    (active_workers j) (inference_requests j) (backend_slots j) (memory_bytes j) (enqueued_at j).
#[export] Instance AdmissionJob_eq_dec : EqDecision AdmissionJob.
Proof. solve_decision. Defined.

(** [AdmissionJob.__post_init__] *)
Definition valid_job (j : AdmissionJob) : bool :=
  Str.truthy (job_id j) && Str.truthy (client_id j) && Str.truthy (session_id j)
  && Str.truthy (repository_id j) && bool_decide (is_Some (PRIORITY_WEIGHT !! priority j))
  && negb (existsb (λ v, v <? 1) [runnable j; active_workers j; inference_requests j; backend_slots j]
           || (memory_bytes j <? 0)).

(** The capped dimensions, each with its cap; memory is capped apart. *)
Definition DIMENSIONS : list ((AdmissionJob → Z) * (CapacityLimits → Z)) :=
  [(runnable, max_runnable); (active_workers, max_active_workers);
   (inference_requests, max_inference_requests); (backend_slots, max_backend_slots)].

Definition FairnessKey : Type := string * string * string.
Definition fairness_key (j : AdmissionJob) : FairnessKey := (repository_id j, session_id j, client_id j).

Record FairAdmissionController := mkController {
  limits : CapacityLimits;
  aging_ticks : Z;
  pending : gmap FairnessKey (list AdmissionJob);
  pending_by_id : gmap string AdmissionJob;
  active : gmap string AdmissionJob;
  served : gmap FairnessKey Z;
  decisions : gmap string Z;
  wait_ticks_total : Z;
  tick : Z;
  starvation_preventions : Z;
}.
#[export] Instance FairAdmissionController_eta : Eta FairAdmissionController := λ a,
  mkController (limits a) (aging_ticks a) (pending a) (pending_by_id a) (active a) (served a)
    (decisions a) (wait_ticks_total a) (tick a) (starvation_preventions a).

Definition FairAdmissionController_init (l : CapacityLimits) (ticks : Z) : option FairAdmissionController :=
  if ticks <? 1 then None else Some (mkController l ticks ∅ ∅ ∅ ∅ ∅ 0 0 0).

Definition queued (a : FairAdmissionController) : Z := Z.of_nat (size (pending_by_id a)).

(** One entry of [_usage]. *)
Definition usage (a : FairAdmissionController) (f : AdmissionJob → Z) : Z := msum f (active a).

Definition fits (a : FairAdmissionController) (j : AdmissionJob) : bool :=
  forallb (λ '(f, cap), usage a f + f j <=? cap (limits a)) DIMENSIONS
  && ((max_memory_bytes (limits a) =? 0)
      || (usage a memory_bytes + memory_bytes j <=? max_memory_bytes (limits a))).

Definition too_large (a : FairAdmissionController) (j : AdmissionJob) : bool :=
  existsb (λ '(f, cap), cap (limits a) <? f j) DIMENSIONS
  || (negb (max_memory_bytes (limits a) =? 0) && (max_memory_bytes (limits a) <? memory_bytes j)).

(** An [AdmissionDecision] with the receipt it carries. *)
Record AdmissionDecision := mkDecision {
  d_state : string;
  d_reason : string;
  d_job_id : string;
  d_client_id : string;
  d_session_id : string;
  d_queued : Z;
  d_active : Z;
  d_usage : list Z;
  d_position : option Z;
}.

Definition usage_list (a : FairAdmissionController) : list Z :=
  [usage a runnable; usage a active_workers; usage a inference_requests; usage a backend_slots;
   usage a memory_bytes].

Definition receipt (a : FairAdmissionController) (st why : string) (j : AdmissionJob)
    (position : option Z) : AdmissionDecision :=
  mkDecision st why (job_id j) (client_id j) (session_id j) (queued a)
    (Z.of_nat (size (active a))) (usage_list a) position.

(** [self._decisions[name] += 1] *)
Definition count (name : string) (a : FairAdmissionController) : FairAdmissionController :=
  a <| decisions ::= <[name := get0 (decisions a) name + 1]> |>.

Definition submit (a : FairAdmissionController) (j : AdmissionJob) :
    FairAdmissionController * AdmissionDecision :=
  if bool_decide (is_Some (active a !! job_id j)) || bool_decide (is_Some (pending_by_id a !! job_id j)) then
    let a := count "rejected" a in (a, receipt a "rejected" "duplicate_job" j None)
  else if too_large a j then
    let a := count "rejected" a in (a, receipt a "rejected" "job_exceeds_limit" j None)
  else
    let a := a <| tick ::= Z.succ |> in
    if fits a j then
      let a := count "admitted" (a <| active ::= <[job_id j := j]> |>) in
      (a, receipt a "admitted" "capacity_available" j None)
    else if max_queue (limits a) <=? queued a then
      let a := count "saturated" (count "rejected" a) in
      (a, receipt a "rejected" "queue_saturated" j None)
    else
      let q := j <| enqueued_at := tick a |> in
      let k := fairness_key q in
      let a := a <| pending ::= <[k := default [] (pending a !! k) ++ [q]]> |>
                 <| pending_by_id ::= <[job_id q := q]> |> in
      let a := count "deferred" a in
      (a, receipt a "deferred" "capacity_unavailable" q (Some (queued a))).

(** [(weight + waited * 4 / aging_ticks, -served, -enqueued_at)], the first
    component times [aging_ticks]. *)
Definition Score : Type := Z * Z * Z.

Definition score_gt (x y : Score) : bool :=
  (y.1.1 <? x.1.1)
  || ((x.1.1 =? y.1.1) && ((y.1.2 <? x.1.2) || ((x.1.2 =? y.1.2) && (y.2 <? x.2)))).

(** [_score]: reading [_served] opens the entry of a key seen first. *)
Definition score (a : FairAdmissionController) (j : AdmissionJob) : FairAdmissionController * Score :=
  let waited := tick a - enqueued_at j in
  let a := if aging_ticks a <=? waited then a <| starvation_preventions ::= Z.succ |> else a in
  let k := fairness_key j in
  let a := a <| served ::= <[k := get0 (served a) k]> |> in
  (a, (get0 PRIORITY_WEIGHT (priority j) * aging_ticks a + Z.max 0 waited * 4,
       - get0 (served a) k, - enqueued_at j)).

Definition Choice : Type := Score * FairnessKey * AdmissionJob.

(** The comprehension of [next]: the scored heads that fit. *)
Fixpoint choices (a : FairAdmissionController) (items : list (FairnessKey * list AdmissionJob)) :
    FairAdmissionController * list Choice :=
  match items with
  | [] => (a, [])
  | (_, []) :: items' => choices a items'
  | (k, j :: _) :: items' =>
      if fits a j then
        let (a, s) := score a j in
        let (a, cs) := choices a items' in
        (a, (s, k, j) :: cs)
      else choices a items'
  end.

Definition choice_gt (x y : Choice) : bool := score_gt x.1.1 y.1.1.

(** A dict iterates in insertion order, [map_to_list] in key order: jobs that
    wait have distinct [enqueued_at], so no two scores are equal. *)
Definition next (a : FairAdmissionController) : FairAdmissionController * option AdmissionJob :=
  let a := a <| tick ::= Z.succ |> in
  let (a, cs) := choices a (map_to_list (pending a)) in
  match py_max choice_gt cs with
  | None => (a, None)
  | Some (_, k, j) =>
      (a <| pending ::= <[k := tail (default [] (pending a !! k))]> |>
         <| pending_by_id ::= delete (job_id j) |>
         <| active ::= <[job_id j := j]> |>
         <| served ::= <[k := get0 (served a) k + 1]> |>
         <| wait_ticks_total ::= Z.add (Z.max 0 (tick a - enqueued_at j)) |>, Some j)
  end.

Definition release (a : FairAdmissionController) (i : string) : FairAdmissionController * bool :=
  (a <| active ::= delete i |>, bool_decide (is_Some (active a !! i))).

Definition cancel (a : FairAdmissionController) (i : string) : FairAdmissionController * bool :=
  match active a !! i with
  | Some _ => release a i
  | None =>
      match pending_by_id a !! i with
      | None => (a, false)
      | Some j =>
          let k := fairness_key j in
          (a <| pending_by_id ::= delete i |>
             <| pending ::= <[k := filter (λ item, job_id item ≠ i) (default [] (pending a !! k))]> |>, true)
      end
  end.

(** ** Requests *)

Record InferenceRequest := mkRequest {
  model_identity : string;
  backend_identity : string;
  stable_prefix_generation : string;
  canonical_request_hash : string;
  tool_registry_generation : string;
  authority_scope : string;
  privacy_scope : string;
  side_effect_free : bool;
  operation_kind : string;
}.

Definition request_document (r : InferenceRequest) : Json.json := Json.Obj [
  ("model", Json.Str (model_identity r)); ("backend", Json.Str (backend_identity r));
  ("stable_prefix", Json.Str (stable_prefix_generation r));
  ("request", Json.Str (canonical_request_hash r));
  ("tool_registry", Json.Str (tool_registry_generation r));
  ("authority", Json.Str (authority_scope r)); ("privacy", Json.Str (privacy_scope r))].

Definition equivalence_key (r : InferenceRequest) : option string :=
  if negb (side_effect_free r) || negb (String.eqb (operation_kind r) "inference")
     || negb (Str.truthy (authority_scope r)) || negb (Str.truthy (privacy_scope r)) then None
  else Some (Sha256.hexdigest (Json.dumps true (request_document r))).

(** ** The coordinator *)

(** What a future holds once done. *)
Inductive Outcome : Type :=
| Result (digest : string)
| Raised (error : string)
| Cancelled.

(** A [_SharedExecution] object: its waiters, whether [task.cancel()] was
    called, and its future. *)
Record SharedExecution := mkShared {
  se_key : option string;
  se_waiters : gset string;
  se_admission_job_id : string;
  se_cancel_requested : bool;
  se_future : option Outcome;
}.
#[export] Instance SharedExecution_eta : Eta SharedExecution := λ e,
  mkShared (se_key e) (se_waiters e) (se_admission_job_id e) (se_cancel_requested e) (se_future e).

(** [heap] holds the execution objects by identifier: waiters keep them after
    [_shared] has dropped them. *)
Record InferenceCoordinator := mkCoordinator {
  admission : FairAdmissionController;
  heap : gmap string SharedExecution;
  inflight : gmap string string;
  shared : gset string;
  dedup_hits : Z;
  dedup_misses : Z;
}.
#[export] Instance InferenceCoordinator_eta : Eta InferenceCoordinator := λ c,
  mkCoordinator (admission c) (heap c) (inflight c) (shared c) (dedup_hits c) (dedup_misses c).

Inductive InferenceExn : Type :=
| ValueError
| AdmissionRejected (d : AdmissionDecision).

(** The locked part of [run]: join the execution in flight for the key, or
    admit a new one. [eid] is the identifier drawn for it. *)
Definition run_enter (c : InferenceCoordinator) (r : InferenceRequest)
    (client session prio corr eid : string) :
    InferenceCoordinator * result InferenceExn (string * bool) :=
  let key := equivalence_key r in
  let found := match key with Some k => inflight c !! k | None => None end in
  match found with
  | None =>
      let c := c <| dedup_misses ::= Z.succ |> in
      let admission_id := "inference:" +:+ eid in
      let j := mkJob admission_id client session prio "default" 1 1 1 1 0 0 in
      if negb (valid_job j) then (c, Err ValueError)
      else
        let (a, d) := submit (admission c) j in
        let c := c <| admission := a |> in
        if negb (String.eqb (d_state d) "admitted") then (c, Err (AdmissionRejected d))
        else
          let e := mkShared key {[corr]} admission_id false None in
          let c := c <| heap ::= <[eid := e]> |> <| shared ::= union {[eid]} |> in
          let c := match key with Some k => c <| inflight ::= <[k := eid]> |> | None => c end in
          (c, Ok (eid, false))
  | Some eid' =>
      (c <| dedup_hits ::= Z.succ |>
         <| heap ::= alter (λ e, e <| se_waiters ::= union {[corr]} |>) eid' |>, Ok (eid', true))
  end.

(** A waiter is cancelled: the last one to leave cancels the task. *)
Definition run_cancelled (c : InferenceCoordinator) (eid corr : string) : InferenceCoordinator :=
  c <| heap ::= alter (λ e,
    let e := e <| se_waiters ::= (λ w, w ∖ {[corr]}) |> in
    if bool_decide (se_waiters e = ∅) && bool_decide (se_future e = None)
    then e <| se_cancel_requested := true |> else e) eid |>.

(** [_execute] up to its [finally]: the outcome settles the future unless it is
    done, and the admission slot is given back. *)
Definition execute_settle (c : InferenceCoordinator) (eid : string) (o : Outcome) : InferenceCoordinator :=
  match heap c !! eid with
  | None => c
  | Some e =>
      c <| heap ::= <[eid := match se_future e with None => e <| se_future := Some o |> | Some _ => e end]> |>
        <| admission ::= (λ a, (release a (se_admission_job_id e)).1) |>
  end.

(** The locked part of the [finally]: the execution leaves the tables, the
    key only if it is still its own. *)
Definition execute_cleanup (c : InferenceCoordinator) (eid : string) : InferenceCoordinator :=
  match heap c !! eid with
  | None => c
  | Some e =>
      let c := match se_key e with
               | Some k =>
                   if bool_decide (inflight c !! k = Some eid ∧ eid ∈ shared c)
                   then c <| inflight ::= delete k |> else c
               | None => c
               end in
      c <| shared ::= (λ s, s ∖ {[eid]}) |>
  end.

(** ** Retry *)

Record RetryPolicy := mkRetry {
  max_attempts : nat;
  base_delay_seconds : Q;
  max_delay_seconds : Q;
  jitter_ratio : Q;
  circuit_failure_threshold : Z;
  circuit_cooldown_seconds : Q;
}.

(** [RetryPolicy.__post_init__] *)
Definition valid_policy (p : RetryPolicy) : bool :=
  negb ((max_attempts p <? 1)%nat || (circuit_failure_threshold p <? 1))
  && Qle_bool 0 (base_delay_seconds p) && Qle_bool 0 (max_delay_seconds p)
  && Qle_bool 0 (jitter_ratio p) && Qle_bool (jitter_ratio p) 1.

(** The first byte of a digest over 255. *)
Definition raw_jitter (job_key : string) (attempt : nat) : Q :=
  (inject_Z (Sha256.int16 (String.substring 0 2
     (Sha256.hexdigest (job_key +:+ ":" +:+ pretty (Z.of_nat attempt))))) / 255)%Q.

(** [RetryPolicy.delay], for the attempts the caller makes ([1] and up). *)
Definition delay (p : RetryPolicy) (job_key : string) (attempt : nat) : Q :=
  let raw := raw_jitter job_key attempt in
  let jitter := (1 + (raw * 2 - 1) * jitter_ratio p)%Q in
  Qmin (max_delay_seconds p) (base_delay_seconds p * inject_Z (2 ^ Z.of_nat (attempt - 1)) * jitter)%Q.

Record RetryDecision := mkRetryDecision {
  rd_attempt : nat;
  rd_retry : bool;
  rd_delay : Q;
  rd_reason : string;
}.

(** What one [await coordinator.run(...)] does. *)
Inductive Attempt : Type :=
| Returned (value : string)
| Failed
| CancelledError.

Inductive RetryOutcome : Type :=
| RetryReturned (value : string)
| RetryExhausted (decisions : list RetryDecision)
| RetryCancelled.

Definition Qlt_bool (x y : Q) : bool := negb (Qle_bool y x).

(** The attempts left of the loop, from [attempt]; [clock n] are the three
    readings of attempt [n], before the call, at its failure and at the retry test, and
    [outcome n] is what the call does. The result counts the calls made. *)
Fixpoint retry_loop (left : nat) (p : RetryPolicy) (job_key : string) (clock : nat → Q * Q * Q)
    (outcome : nat → Attempt) (attempt : nat) (failures : Z) (opened_until : Q)
    (ds : list RetryDecision) : RetryOutcome * nat :=
  match left with
  | O => (RetryExhausted ds, O)
  | S left' =>
      let '(now, failed, after) := clock attempt in
      if Qlt_bool now opened_until then
        (RetryExhausted (ds ++ [mkRetryDecision attempt false 0 "circuit_open"]), O)
      else
        match outcome attempt with
        | CancelledError => (RetryCancelled, 1%nat)
        | Returned v => (RetryReturned v, 1%nat)
        | Failed =>
            let failures := failures + 1 in
            let tripped := circuit_failure_threshold p <=? failures in
            let opened_until := if tripped then (failed + circuit_cooldown_seconds p)%Q else opened_until in
            let retry := (attempt <? max_attempts p)%nat && Qle_bool opened_until after in
            let d := if retry then delay p job_key attempt else 0%Q in
            let why := if negb retry && tripped then "circuit_open" else "retryable_failure" in
            let ds := ds ++ [mkRetryDecision attempt retry d why] in
            if negb retry then (RetryExhausted ds, 1%nat)
            else
              let (o, n) := retry_loop left' p job_key clock outcome (S attempt) failures opened_until ds in
              (o, S n)
        end
  end.

Definition run_with_retry (p : RetryPolicy) (job_key : string) (clock : nat → Q * Q * Q)
    (outcome : nat → Attempt) : RetryOutcome * nat :=
  retry_loop (max_attempts p) p job_key clock outcome 1 0 0 [].

(** * Specification *)

Definition costs (j : AdmissionJob) : Prop :=
  1 <= runnable j ∧ 1 <= active_workers j ∧ 1 <= inference_requests j ∧ 1 <= backend_slots j ∧
  0 <= memory_bytes j.

(** The books of the controller: the active jobs respect every cap, the queues
    and the index of the waiting jobs describe the same jobs, no job both waits
    and runs, and the queue is bounded. *)
Record adm_wf (a : FairAdmissionController) : Prop := {
  aw_aging : 1 <= aging_ticks a;
  aw_caps f cap : (f, cap) ∈ DIMENSIONS → usage a f <= cap (limits a);
  aw_memory : max_memory_bytes (limits a) ≠ 0 → usage a memory_bytes <= max_memory_bytes (limits a);
  aw_active i j : active a !! i = Some j → job_id j = i ∧ costs j;
  aw_pending k q j : pending a !! k = Some q → j ∈ q →
    fairness_key j = k ∧ pending_by_id a !! job_id j = Some j;
  aw_nodup k q : pending a !! k = Some q → NoDup (job_id <$> q);
  aw_by_id i j : pending_by_id a !! i = Some j →
    job_id j = i ∧ valid_job j = true ∧ enqueued_at j <= tick a ∧
    ∃ q, pending a !! fairness_key j = Some q ∧ j ∈ q;
  aw_disjoint i j : pending_by_id a !! i = Some j → active a !! i = None;
  aw_distinct i i' j j' : pending_by_id a !! i = Some j → pending_by_id a !! i' = Some j' →
    enqueued_at j = enqueued_at j' → i = i';
  aw_bound : queued a <= max_queue (limits a);
}.

Inductive adm_step : FairAdmissionController → FairAdmissionController → Prop :=
| adm_submit a j : valid_job j = true → adm_step a (submit a j).1
| adm_next a : adm_step a (next a).1
| adm_release a i : adm_step a (release a i).1
| adm_cancel a i : adm_step a (cancel a i).1.

Definition adm_reachable (a : FairAdmissionController) : Prop :=
  ∃ l ticks a0, valid_limits l = true ∧ FairAdmissionController_init l ticks = Some a0 ∧ rtc adm_step a0 a.

(** The score a head has, without the bookkeeping of reading it. *)
Definition pure_score (a : FairAdmissionController) (j : AdmissionJob) : Score :=
  (get0 PRIORITY_WEIGHT (priority j) * aging_ticks a + Z.max 0 (tick a - enqueued_at j) * 4,
   - get0 (served a) (fairness_key j), - enqueued_at j).

(** [j] heads its queue and the caps have room for it. *)
Definition ready (a : FairAdmissionController) (j : AdmissionJob) : Prop :=
  (∃ rest, pending a !! fairness_key j = Some (j :: rest)) ∧ fits a j = true.

Definition live (c : InferenceCoordinator) (eid : string) (e : SharedExecution) : Prop :=
  eid ∈ shared c ∧ heap c !! eid = Some e.

(** A key in flight is the key of a live execution, and a live execution with
    a key is the one in flight for it. *)
Record co_wf (c : InferenceCoordinator) : Prop := {
  cw_inflight k eid : inflight c !! k = Some eid → ∃ e, live c eid e ∧ se_key e = Some k;
  cw_live eid e k : live c eid e → se_key e = Some k → inflight c !! k = Some eid;
  cw_shared eid : eid ∈ shared c → is_Some (heap c !! eid);
}.

(** The steps of the coroutines: identifiers are fresh, a task settles while
    it is live, and cleans up after it has settled. *)
Inductive co_step : InferenceCoordinator → InferenceCoordinator → Prop :=
| co_enter c r client session prio corr eid :
    heap c !! eid = None → co_step c (run_enter c r client session prio corr eid).1
| co_cancelled c eid corr : co_step c (run_cancelled c eid corr)
| co_settle c eid e o : live c eid e → co_step c (execute_settle c eid o)
| co_cleanup c eid e : live c eid e → is_Some (se_future e) → co_step c (execute_cleanup c eid).

Definition co_init (a : FairAdmissionController) : InferenceCoordinator := mkCoordinator a ∅ ∅ ∅ 0 0.

Definition co_reachable (c : InferenceCoordinator) : Prop := ∃ a, rtc co_step (co_init a) c.

(** Every decision but the last retries, with a delay in bounds; the last does not. *)
Definition bounded_retries (p : RetryPolicy) (ds : list RetryDecision) : Prop :=
  ∃ init d, ds = init ++ [d] ∧ rd_retry d = false ∧
    Forall (λ d, rd_retry d = true ∧ (0 <= rd_delay d <= max_delay_seconds p)%Q) init.

(** Examples: a controller with room for one job, busy with one and holding
    two; the same after a release; a coordinator with one execution. *)
Definition waiting_job (i prio : string) (t : Z) : AdmissionJob := mkJob i "c" i prio "default" 1 1 1 1 0 t.
Definition small : FairAdmissionController :=
  mkController (mkLimits 1 1 1 1 0 4) 4 ∅ ∅ ∅ ∅ ∅ 0 0 0.
Definition busy1 : FairAdmissionController := (submit small (waiting_job "w0" "background" 0)).1.
Definition busy2 : FairAdmissionController := (submit busy1 (waiting_job "w1" "background" 0)).1.
Definition busy : FairAdmissionController := (submit busy2 (waiting_job "w2" "interactive" 0)).1.
Definition idle : FairAdmissionController := (release busy "w0").1.
Definition same_request : InferenceRequest := mkRequest "m" "b" "p" "h" "t" "a" "v" true "inference".
Definition other_request : InferenceRequest := mkRequest "m" "b" "p" "h2" "t" "a" "v" true "inference".
Definition running : InferenceCoordinator :=
  (run_enter (co_init small) same_request "c" "s" "inference" "corr1" "e1").1.
Definition demo_policy : RetryPolicy := mkRetry 3 (1 # 100) 1 (1 # 4) 3 5.
Definition crowded : InferenceCoordinator :=
  (run_enter running other_request "c" "s" "inference" "corr3" "e2").1.
Definition settled : InferenceCoordinator := execute_settle crowded "e1" (Result "r").

(** The fields the books are made of. *)
Definition books (a : FairAdmissionController) :=
  (limits a, aging_ticks a, pending a, pending_by_id a, active a).

Definition head_choice (a : FairAdmissionController) (item : FairnessKey * list AdmissionJob) : option Choice :=
  match item with
  | (k, j :: _) => if fits a j then Some (pure_score a j, k, j) else None
  | (_, []) => None
  end.

(** * Lemmas *)

(** ** Admission *)

Lemma valid_costs j : valid_job j = true → costs j.
Proof.
  unfold valid_job, costs. rewrite !andb_true_iff. intros [_ H]. simpl in H. zbool.
  repeat rewrite orb_false_iff in *. zbool. lia.
Qed.

Lemma count_same name a :
  limits (count name a) = limits a ∧ aging_ticks (count name a) = aging_ticks a ∧
  pending (count name a) = pending a ∧ pending_by_id (count name a) = pending_by_id a ∧
  active (count name a) = active a ∧ tick (count name a) = tick a.
Proof. done. Qed.

Lemma wf_books a a' : books a' = books a → tick a <= tick a' → adm_wf a → adm_wf a'.
Proof.
  unfold books. intros H Ht []. injection H as E1 E2 E3 E4 E5.
  constructor; unfold usage, queued in *; rewrite ?E1, ?E2, ?E3, ?E4, ?E5; try done.
  intros i j Hi. destruct (aw_by_id0 i j Hi) as (? & ? & ? & ?). repeat split; [done..|lia|done].
Qed.

Lemma costs_dim j f cap : costs j → (f, cap) ∈ DIMENSIONS → 0 <= f j.
Proof.
  intros (? & ? & ? & ? & _) Hin. unfold DIMENSIONS in Hin.
  repeat (apply elem_of_cons in Hin as [[= -> ->]|Hin]; [lia|]). by apply not_elem_of_nil in Hin.
Qed.

Lemma fits_spec a j :
  fits a j = true ↔
  (∀ f cap, (f, cap) ∈ DIMENSIONS → usage a f + f j <= cap (limits a)) ∧
  (max_memory_bytes (limits a) ≠ 0 → usage a memory_bytes + memory_bytes j <= max_memory_bytes (limits a)).
Proof.
  unfold fits. rewrite andb_true_iff, forallb_forall, orb_true_iff, Z.eqb_eq, Z.leb_le. split.
  - intros [H1 H2]. split; [|intros ?; by destruct H2].
    intros f cap Hin. apply list_elem_of_In, H1 in Hin. simpl in Hin. by apply Z.leb_le.
  - intros [H1 H2]. split; [|destruct (decide (max_memory_bytes (limits a) = 0)); auto].
    intros [f cap] Hin. apply Z.leb_le, H1. by apply list_elem_of_In.
Qed.

(** A job enters the active set within the caps. *)
Lemma caps_insert a i j :
  adm_wf a → active a !! i = None → fits a j = true →
  let a' := a <| active ::= <[i := j]> |> in
  (∀ f cap, (f, cap) ∈ DIMENSIONS → usage a' f <= cap (limits a)) ∧
  (max_memory_bytes (limits a) ≠ 0 → usage a' memory_bytes <= max_memory_bytes (limits a)).
Proof.
  intros _ Hi [H1 H2]%fits_spec. unfold usage in *. simpl. split; intros; rewrite msum_insert by done;
    [specialize (H1 f cap)|]; intuition lia.
Qed.

Lemma wf_activate a j :
  adm_wf a → costs j → active a !! job_id j = None → pending_by_id a !! job_id j = None →
  fits a j = true → adm_wf (a <| active ::= <[job_id j := j]> |>).
Proof.
  intros Hwf Hc Ha Hp Hf. pose proof (caps_insert a (job_id j) j Hwf Ha Hf) as [H1 H2].
  destruct Hwf. constructor; try done.
  - intros i j'. simpl. rewrite lookup_insert. case_decide; [intros [= <-]; by subst|auto].
  - intros i j' Hi. simpl. rewrite lookup_insert_ne; [eauto|]. intros <-. simpl in Hi. congruence.
Qed.

Lemma wf_deactivate a i : adm_wf a → adm_wf (a <| active ::= delete i |>).
Proof.
  intros Hwf. destruct (active a !! i) as [j|] eqn:Hi.
  - destruct (aw_active a Hwf i j Hi) as [_ Hc]. destruct Hwf. constructor; try done.
    + intros f cap Hin. unfold usage. simpl. rewrite (msum_delete f _ i j) by done.
      specialize (aw_caps0 f cap Hin). pose proof (costs_dim j f cap Hc Hin). unfold usage in *. simpl in *. lia.
    + intros Hm. unfold usage. simpl. rewrite (msum_delete _ _ i j) by done.
      specialize (aw_memory0 Hm). destruct Hc as (_ & _ & _ & _ & ?). unfold usage in *. simpl in *. lia.
    + intros i' j'. simpl. intros [_ Hi']%lookup_delete_Some. eauto.
    + intros i' j' Hi'. simpl. apply lookup_delete_None. right. eauto.
  - apply (wf_books a); [|done|done]. unfold books. simpl. by rewrite delete_id.
Qed.

Lemma wf_defer a j :
  adm_wf a → valid_job j = true → active a !! job_id j = None → pending_by_id a !! job_id j = None →
  queued a < max_queue (limits a) → enqueued_at j = tick a →
  (∀ i j', pending_by_id a !! i = Some j' → enqueued_at j' < tick a) →
  adm_wf (a <| pending ::= <[fairness_key j := default [] (pending a !! fairness_key j) ++ [j]]> |>
            <| pending_by_id ::= <[job_id j := j]> |>).
Proof.
  intros Hwf Hv Ha Hp Hq He Hold.
  assert (∀ x, x ∈ default [] (pending a !! fairness_key j) →
    fairness_key x = fairness_key j ∧ pending_by_id a !! job_id x = Some x ∧ job_id x ≠ job_id j) as Hdef.
  { intros x Hx. destruct (pending a !! fairness_key j) as [q|] eqn:E; simpl in Hx; [|by apply not_elem_of_nil in Hx].
    destruct (aw_pending a Hwf _ q x E Hx) as [? Hl]. repeat split; [done..|]. intros Heq. congruence. }
  destruct Hwf. constructor; try done.
  - intros k q x. simpl. rewrite lookup_insert. case_decide as Ek.
    + intros [= <-] [Hx|Hx]%elem_of_app.
      * destruct (Hdef x Hx) as (Hk & Hl & Hne). split; [congruence|]. by rewrite lookup_insert_ne.
      * apply list_elem_of_singleton in Hx as ->. by rewrite lookup_insert_eq.
    + intros Hk Hx. destruct (aw_pending0 k q x Hk Hx) as [? Hl]. split; [done|].
      rewrite lookup_insert_ne; [done|]. intros Heq. rewrite Heq in Hp. congruence.
  - intros k q. simpl. rewrite lookup_insert. case_decide as Ek; [|eauto]. intros [= <-].
    rewrite fmap_app. apply NoDup_app. split; [|split; [|apply NoDup_singleton]].
    + destruct (pending a !! fairness_key j) eqn:E; simpl; [by eapply aw_nodup0|constructor].
    + intros i (x & -> & Hx)%list_elem_of_fmap Hin. apply list_elem_of_singleton in Hin.
      by destruct (Hdef x Hx) as (_ & _ & ?).
  - intros i x. simpl. rewrite lookup_insert. case_decide as Ei.
    + intros [= <-]. repeat split; [done|done|lia|]. rewrite lookup_insert_eq. eexists. split; [done|].
      apply elem_of_app. right. by apply list_elem_of_singleton.
    + intros Hi. destruct (aw_by_id0 i x Hi) as (? & ? & ? & q & Hq' & Hx). repeat split; [done..|].
      rewrite lookup_insert. case_decide as Ek; [|by exists q]. eexists. split; [done|].
      apply elem_of_app. left. by rewrite Ek, Hq'.
  - intros i x. simpl. rewrite lookup_insert. case_decide; [intros [= <-]; by subst|eauto].
  - intros i i' x x'. simpl. rewrite !lookup_insert. repeat case_decide; subst; try done.
    + intros [= <-] Hx' Heq. specialize (Hold _ _ Hx'). lia.
    + intros Hx [= <-] Heq. specialize (Hold _ _ Hx). lia.
    + eauto.
  - unfold queued in *. simpl. rewrite map_size_insert_None by done. lia.
Qed.

Lemma wf_submit a j : adm_wf a → valid_job j = true → adm_wf (submit a j).1.
Proof.
  intros Hwf Hv. unfold submit.
  destruct (bool_decide (is_Some (active a !! job_id j)) || bool_decide (is_Some (pending_by_id a !! job_id j))) eqn:E.
  { by apply (wf_books a). }
  apply orb_false_iff in E as [E1%bool_decide_eq_false_1 E2%bool_decide_eq_false_1].
  rewrite <- eq_None_not_Some in E1, E2.
  destruct (too_large a j); [by apply (wf_books a)|].
  assert (adm_wf (a <| tick ::= Z.succ |>)) as Hwf1.
  { apply (wf_books a); [done|simpl; lia|done]. }
  destruct (fits _ j) eqn:Hf.
  { apply (wf_books ((a <| tick ::= Z.succ |>) <| active ::= <[job_id j := j]> |>)); [done|done|].
    by apply (wf_activate _ j Hwf1 (valid_costs j Hv)). }
  destruct (Z.leb_spec (max_queue (limits (a <| tick ::= Z.succ |>))) (queued (a <| tick ::= Z.succ |>)));
    [by apply (wf_books (a <| tick ::= Z.succ |>))|].
  set (q := j <| enqueued_at := _ |>).
  assert (valid_job q = true) as Hvq by exact Hv.
  assert (∀ i x, pending_by_id a !! i = Some x → enqueued_at x < Z.succ (tick a)) as Hold.
  { intros i x Hi. destruct (aw_by_id a Hwf i x Hi) as (_ & _ & ? & _). lia. }
  pose proof (wf_defer (a <| tick ::= Z.succ |>) q Hwf1 Hvq E1 E2 ltac:(done) eq_refl Hold) as H'.
  refine (wf_books _ _ _ _ H'); [reflexivity|apply Z.le_refl].
Qed.

(** A waiting job leaves its queue and the index; [q'] is its queue without it. *)
Lemma wf_unqueue a k q q' j :
  adm_wf a → pending a !! k = Some q → j ∈ q → q' = filter (λ x, job_id x ≠ job_id j) q →
  adm_wf (a <| pending ::= <[k := q']> |> <| pending_by_id ::= delete (job_id j) |>).
Proof.
  intros Hwf Hk Hj ->. destruct (aw_pending a Hwf k q j Hk Hj) as [Hkey Hid].
  pose proof (aw_bound a Hwf) as Hb. unfold queued in Hb.
  destruct Hwf. constructor; try done.
  - intros k' q' x. simpl. rewrite lookup_insert. case_decide as E.
    + intros [= <-] [Hne Hx]%list_elem_of_filter. subst k'.
      destruct (aw_pending0 k q x Hk Hx). by rewrite lookup_delete_ne.
    + intros Hk' Hx. destruct (aw_pending0 k' q' x Hk' Hx) as [Hfk Hl]. split; [done|].
      rewrite lookup_delete_ne; [done|]. intros Heq. rewrite Heq in Hid. congruence.
  - intros k' q'. simpl. rewrite lookup_insert. case_decide as E; [|eauto]. intros [= <-].
    apply NoDup_fmap_filter. by eapply aw_nodup0.
  - intros i x. simpl. intros [Hne Hi]%lookup_delete_Some.
    destruct (aw_by_id0 i x Hi) as (Hjid & ? & ? & q' & Hq' & Hx). repeat split; [done..|].
    rewrite lookup_insert. case_decide as E; [|by exists q']. eexists. split; [done|].
    apply list_elem_of_filter. split; [congruence|]. congruence.
  - intros i x. simpl. intros [_ Hi]%lookup_delete_Some. eauto.
  - intros i i' x x'. simpl. intros [_ ?]%lookup_delete_Some [_ ?]%lookup_delete_Some. eauto.
  - unfold queued. simpl. rewrite map_size_delete_Some by (by eexists). lia.
Qed.

(** Reading the scores changes no book. *)
Lemma score_spec a j : ∃ a', score a j = (a', pure_score a j) ∧
  books a' = books a ∧ tick a' = tick a ∧ ∀ k, get0 (served a') k = get0 (served a) k.
Proof.
  unfold score.
  set (a1 := if aging_ticks a <=? tick a - enqueued_at j then _ else a).
  assert (books a1 = books a ∧ tick a1 = tick a ∧ served a1 = served a) as (Hb & Ht & Hs)
    by (unfold a1; by destruct (_ <=? _)).
  exists (a1 <| served ::= <[fairness_key j := get0 (served a1) (fairness_key j)]> |>).
  assert (∀ k, get0 (<[fairness_key j := get0 (served a1) (fairness_key j)]> (served a1)) k
               = get0 (served a) k) as Hsame.
  { intros k. rewrite get0_insert, Hs. by case_decide; subst. }
  split; [|split; [done|split; [done|exact Hsame]]].
  f_equal. unfold pure_score. simpl. rewrite Hsame.
  assert (aging_ticks a1 = aging_ticks a) as -> by (unfold a1; by destruct (_ <=? _)). done.
Qed.

Lemma pure_score_ext a a' j :
  books a' = books a → tick a' = tick a → (∀ k, get0 (served a') k = get0 (served a) k) →
  pure_score a' j = pure_score a j ∧ fits a' j = fits a j.
Proof.
  unfold books. intros H Ht Hs. injection H as E1 E2 E3 E4 E5.
  unfold pure_score, fits, usage. by rewrite Hs, Ht, E1, E2, E5.
Qed.

Lemma omap_head_ext a a' (items : list (FairnessKey * list AdmissionJob)) :
  books a' = books a → tick a' = tick a → (∀ k, get0 (served a') k = get0 (served a) k) →
  omap (head_choice a') items = omap (head_choice a) items.
Proof.
  intros Hb Ht Hs. induction items as [|[k [|j q]] items IH]; simpl; [done|done|].
  destruct (pure_score_ext a a' j Hb Ht Hs) as [-> ->]. destruct (fits a j); [f_equal|]; exact IH.
Qed.

Lemma choices_spec a items :
  ∃ a', choices a items = (a', omap (head_choice a) items) ∧
  books a' = books a ∧ tick a' = tick a ∧ ∀ k, get0 (served a') k = get0 (served a) k.
Proof.
  revert a. induction items as [|[k [|j q]] items IH]; intros a; [by exists a|apply IH|].
  cbn [choices omap list_omap head_choice].
  destruct (fits a j); [|apply IH].
  destruct (score_spec a j) as (a1 & -> & Hb1 & Ht1 & Hs1).
  destruct (IH a1) as (a2 & -> & Hb2 & Ht2 & Hs2). exists a2. split.
  - apply (f_equal (λ l, (a2, (pure_score a j, k, j) :: l))). by apply omap_head_ext.
  - split; [congruence|]. split; [congruence|]. intros k'. by rewrite Hs2.
Qed.

Lemma choice_elem a s k j :
  (s, k, j) ∈ omap (head_choice a) (map_to_list (pending a)) ↔
  ∃ rest, pending a !! k = Some (j :: rest) ∧ fits a j = true ∧ s = pure_score a j.
Proof.
  rewrite list_elem_of_omap. split.
  - intros ([k' [|j' q]] & Hin & H); [done|]. simpl in H. destruct (fits a j') eqn:E; [|done].
    injection H as <- <- <-. exists q. split; [by apply elem_of_map_to_list|done].
  - intros (rest & Hk & Hf & ->). exists (k, j :: rest). split; [by apply elem_of_map_to_list|].
    simpl. by rewrite Hf.
Qed.

Lemma score_gt_trans x y z : score_gt x y = true → score_gt z y = false → score_gt z x = false.
Proof.
  unfold score_gt. destruct x as [[x1 x2] x3], y as [[y1 y2] y3], z as [[z1 z2] z3]. simpl.
  intros Hx Hz. apply not_true_iff_false. intros Hzx.
  repeat rewrite ?orb_true_iff, ?andb_true_iff, ?Z.ltb_lt, ?Z.eqb_eq in *.
  apply not_true_iff_false in Hz. apply Hz.
  repeat rewrite ?orb_true_iff, ?andb_true_iff, ?Z.ltb_lt, ?Z.eqb_eq. lia.
Qed.

Lemma score_gt_ntrans x y z : score_gt x y = false → score_gt y z = false → score_gt x z = false.
Proof.
  unfold score_gt. destruct x as [[x1 x2] x3], y as [[y1 y2] y3], z as [[z1 z2] z3]. simpl.
  repeat rewrite ?orb_false_iff, ?andb_false_iff, ?Z.ltb_ge, ?Z.eqb_neq. lia.
Qed.

Lemma score_gt_irrefl x : score_gt x x = false.
Proof.
  unfold score_gt. destruct x as [[x1 x2] x3]. simpl.
  repeat rewrite ?orb_false_iff, ?andb_false_iff, ?Z.ltb_ge, ?Z.eqb_neq. lia.
Qed.

(** [next] by cases, in terms of the clocked state it scores in. *)
Lemma next_cases a :
  let a1 := a <| tick ::= Z.succ |> in
  ((next a).2 = None ∧ books (next a).1 = books a1 ∧ tick (next a).1 = tick a1 ∧
   ∀ k rest j, pending a !! k = Some (j :: rest) → fits a1 j = false) ∨
  ∃ k j rest a2, (next a).2 = Some j ∧ pending a !! k = Some (j :: rest) ∧ fits a1 j = true ∧
    books a2 = books a1 ∧ tick a2 = tick a1 ∧
    books (next a).1 = books (a2 <| pending ::= <[k := rest]> |> <| pending_by_id ::= delete (job_id j) |>
                              <| active ::= <[job_id j := j]> |>) ∧ tick (next a).1 = tick a1 ∧
    ∀ k' rest' j', pending a !! k' = Some (j' :: rest') → fits a1 j' = true →
      score_gt (pure_score a1 j') (pure_score a1 j) = false.
Proof.
  intros a1. unfold next. fold a1. destruct (choices_spec a1 (map_to_list (pending a1))) as (a2 & -> & Hb & Ht & _).
  destruct (py_max choice_gt _) as [[[s k] j]|] eqn:E.
  - right. pose proof (py_max_elem choice_gt _ _ E) as Hin.
    apply choice_elem in Hin as (rest & Hk & Hf & ->).
    assert (pending a2 = pending a1) as Hp by (unfold books in Hb; injection Hb; congruence).
    exists k, j, rest, a2. split; [done|]. split; [exact Hk|]. split; [done|]. split; [done|]. split; [done|].
    simpl. rewrite Hp. split.
    { unfold books. simpl. change (pending a !! k = Some (j :: rest)) in Hk. rewrite ?Hp, Hk. done. }
    split; [done|]. intros k' rest' j' Hk' Hf'.
    apply (py_max_ge choice_gt (λ x y z, score_gt_trans x.1.1 y.1.1 z.1.1)
      (λ x y z, score_gt_ntrans x.1.1 y.1.1 z.1.1) (λ x, score_gt_irrefl x.1.1) _
      (pure_score a1 j, k, j) (pure_score a1 j', k', j') E).
    apply choice_elem. by exists rest'.
  - left. split; [done|]. split; [done|]. split; [done|]. intros k rest j Hk.
    apply py_max_None in E. destruct (fits a1 j) eqn:Hf; [|done].
    assert ((pure_score a1 j, k, j) ∈ omap (head_choice a1) (map_to_list (pending a1))) as Hin.
    { apply choice_elem. by exists rest. }
    rewrite E in Hin. by apply not_elem_of_nil in Hin.
Qed.

Lemma adm_wf_next a : adm_wf a → adm_wf (next a).1.
Proof.
  intros Hwf. assert (adm_wf (a <| tick ::= Z.succ |>)) as Hwf1.
  { apply (wf_books a); [done|simpl; lia|done]. }
  destruct (next_cases a) as [(_ & Hb & Ht & _)|(k & j & rest & a2 & _ & Hk & Hf & Hb & Ht & Hb' & Ht' & _)].
  { apply (wf_books (a <| tick ::= Z.succ |>)); [done|lia|done]. }
  assert (adm_wf a2) as Hwf2 by (apply (wf_books _ a2 Hb); [lia|done]).
  unfold books in Hb. injection Hb as E1 E2 E3 E4 E5.
  assert (pending a2 !! k = Some (j :: rest)) as Hk2 by (by rewrite E3).
  destruct (aw_pending a2 Hwf2 k (j :: rest) j Hk2 ltac:(by left)) as [Hkey Hid].
  destruct (aw_by_id a2 Hwf2 _ _ Hid) as (_ & Hv & _).
  pose proof (aw_nodup a2 Hwf2 k _ Hk2) as Hnd. simpl in Hnd. apply NoDup_cons in Hnd as [Hnj _].
  assert (rest = filter (λ x, job_id x ≠ job_id j) (j :: rest)) as Hrest.
  { rewrite filter_cons_False by (intros H; by apply H). by rewrite filter_key_id. }
  pose proof (wf_unqueue a2 k (j :: rest) rest j Hwf2 Hk2 ltac:(by left) Hrest) as Hwf3.
  set (a3 := a2 <| pending ::= <[k := rest]> |> <| pending_by_id ::= delete (job_id j) |>) in *.
  apply (wf_books (a3 <| active ::= <[job_id j := j]> |>)); [exact Hb'|rewrite Ht', <- Ht; done|].
  apply (wf_activate a3 j Hwf3 (valid_costs j Hv)).
  - apply (aw_disjoint a2 Hwf2 _ j Hid).
  - apply lookup_delete_eq.
  - unfold fits, usage in *. simpl. by rewrite E1, E5.
Qed.

Lemma wf_cancel a i : adm_wf a → adm_wf (cancel a i).1.
Proof.
  intros Hwf. unfold cancel. destruct (active a !! i); [by apply wf_deactivate|].
  destruct (pending_by_id a !! i) as [j|] eqn:E; [|done]. simpl.
  destruct (aw_by_id a Hwf i j E) as (<- & _ & _ & q & Hq & Hj). rewrite Hq. simpl.
  apply (wf_books (a <| pending ::= <[fairness_key j := filter (λ x, job_id x ≠ job_id j) q]> |>
    <| pending_by_id ::= delete (job_id j) |>)); [done|done|]. by eapply wf_unqueue.
Qed.

Lemma adm_reachable_wf a : adm_reachable a → adm_wf a.
Proof.
  intros (l & ticks & a0 & Hl & Hi & Hr).
  assert (adm_wf a0) as H0.
  { unfold FairAdmissionController_init in Hi. destruct (Z.ltb_spec ticks 1); [done|]. injection Hi as <-.
    unfold valid_limits in Hl. rewrite negb_true_iff, orb_false_iff in Hl. destruct Hl as [Hl Hm].
    simpl in Hl. repeat rewrite orb_false_iff in Hl. zbool. constructor; simpl; try done.
    - intros f cap Hin. unfold usage. simpl. unfold DIMENSIONS in Hin.
      repeat (apply elem_of_cons in Hin as [[= -> ->]|Hin]; [refine (_ : 0 <= _); lia|]).
      by apply not_elem_of_nil in Hin.
    - refine (_ : 0 <= _). lia. }
  clear Hi. induction Hr as [|a0 a1 a2 Hs _ IH]; [done|]. apply IH. inv Hs.
  - by apply wf_submit.
  - by apply adm_wf_next.
  - by apply wf_deactivate.
  - by apply wf_cancel.
Qed.

(** ** The coordinator *)

Lemma submit_keeps a j i x :
  pending_by_id a !! i = Some x → pending_by_id (submit a j).1 !! i = Some x.
Proof.
  intros Hi. unfold submit. destruct (bool_decide _ || bool_decide _) eqn:E; [done|].
  apply orb_false_iff in E as [_ E%bool_decide_eq_false_1].
  destruct (too_large a j); [done|]. destruct (fits _ j); [done|]. destruct (_ <=? _); [done|].
  simpl. rewrite lookup_insert_ne; [done|]. intros <-. apply E. by eexists.
Qed.

(** The coordinator submits and releases, it never takes a job off the queue. *)
Lemma co_step_keeps c c' i :
  co_step c c' → is_Some (pending_by_id (admission c) !! i) → is_Some (pending_by_id (admission c') !! i).
Proof.
  intros Hs Hi. inv Hs as [? r client session prio corr eid _|? eid corr|? eid e o [_ He]|? eid e [_ He] _].
  - unfold run_enter. destruct (match equivalence_key r with Some k => inflight c !! k | None => None end);
      [done|]. destruct (negb (valid_job _)); [done|].
    destruct Hi as [x Hi]. pose proof (submit_keeps (admission c)
      (mkJob ("inference:" +:+ eid) client session prio "default" 1 1 1 1 0 0) i x Hi) as H.
    change (admission (c <| dedup_misses ::= Z.succ |>)) with (admission c).
    destruct (submit _ _) as [a d]. simpl in H. destruct (negb _); [exists x; exact H|].
    destruct (equivalence_key r); exists x; exact H.
  - exact Hi.
  - unfold execute_settle. rewrite He. exact Hi.
  - unfold execute_cleanup. rewrite He. destruct (se_key e); [case_bool_decide|]; exact Hi.
Qed.

Lemma submit_deferred a j :
  d_state (submit a j).2 = "deferred" → is_Some (pending_by_id (submit a j).1 !! job_id j).
Proof.
  unfold submit. destruct (_ || _); [done|]. destruct (too_large a j); [done|].
  destruct (fits _ j); [done|]. destruct (_ <=? _); [done|]. intros _. simpl. rewrite lookup_insert_eq.
  by eexists.
Qed.

Lemma submit_admitted a j :
  d_state (submit a j).2 = "admitted" → active (submit a j).1 = <[job_id j := j]> (active a).
Proof.
  unfold submit. destruct (_ || _); [done|]. destruct (too_large a j); [done|].
  destruct (fits _ j); [done|]. by destruct (_ <=? _).
Qed.

Lemma co_wf_same c c' :
  inflight c' = inflight c → shared c' = shared c →
  (∀ eid, se_key <$> heap c' !! eid = se_key <$> heap c !! eid) → co_wf c → co_wf c'.
Proof.
  intros Hi Hs Hh [H1 H2 H3].
  assert (∀ eid e k, heap c !! eid = Some e → se_key e = Some k →
    ∃ e', heap c' !! eid = Some e' ∧ se_key e' = Some k) as Hto.
  { intros eid e k He Hk. specialize (Hh eid). rewrite He in Hh. simpl in Hh.
    apply fmap_Some in Hh as (e' & He' & Hk'). exists e'. split; [done|congruence]. }
  constructor; unfold live in *; rewrite ?Hi, ?Hs.
  - intros k eid Hk. destruct (H1 k eid Hk) as (e & [Hin He] & Hek).
    destruct (Hto eid e k He Hek) as (e' & ? & ?). by exists e'.
  - intros eid e' k [Hin He'] Hk. specialize (Hh eid). rewrite He' in Hh. symmetry in Hh. simpl in Hh.
    apply fmap_Some in Hh as (e & He & Hek). apply (H2 eid e k); [done|congruence].
  - intros eid Hin. destruct (H3 eid Hin) as [e He]. specialize (Hh eid). rewrite He in Hh.
    apply fmap_Some in Hh as (e' & He' & _). by eexists.
Qed.

Lemma alter_key (f : SharedExecution → SharedExecution) h eid eid' :
  (∀ e, se_key (f e) = se_key e) → se_key <$> (alter f eid h : gmap string SharedExecution) !! eid' = se_key <$> h !! eid'.
Proof.
  intros Hf. rewrite lookup_alter. case_decide; [subst eid'|done].
  destruct (h !! eid) as [e|]; simpl; [|done]. by rewrite Hf.
Qed.

Lemma co_wf_new c e eid a n :
  co_wf c → heap c !! eid = None → (∀ k, se_key e = Some k → inflight c !! k = None) →
  co_wf (mkCoordinator a (<[eid := e]> (heap c))
    (match se_key e with Some k => <[k := eid]> (inflight c) | None => inflight c end)
    ({[eid]} ∪ shared c) (dedup_hits c) n).
Proof.
  intros [H1 H2 H3] Hf Hk.
  assert (∀ eid' e', live c eid' e' → eid' ≠ eid) as Hne by (intros eid' e' [_ He'] ->; congruence).
  assert (∀ k, se_key e = Some k → ∀ eid', inflight c !! k ≠ Some eid') as Hk'
    by (intros k Hek eid'; by rewrite Hk).
  assert (∀ k eid', inflight c !! k = Some eid' →
    ∃ e', live (c <| heap ::= <[eid := e]> |> <| shared ::= union {[eid]} |>) eid' e' ∧ se_key e' = Some k) as Hold.
  { intros k eid' Hi. destruct (H1 k eid' Hi) as (e' & Hl & Hek'). exists e'. pose proof (Hne _ _ Hl).
    destruct Hl. split; [|done]. split; [by apply elem_of_union_r|]. simpl. by rewrite lookup_insert_ne. }
  constructor; unfold live in *; simpl in *.
  - intros k eid'. destruct (se_key e) as [ke|] eqn:Eke; [|apply Hold].
    rewrite lookup_insert. case_decide as Eq; [|apply Hold].
    intros [= <-]. subst ke. exists e. rewrite lookup_insert_eq. split; [|done]. split; [|done].
    by apply elem_of_union_l, elem_of_singleton_2.
  - intros eid' e' k [Hin He'] Hek'. rewrite lookup_insert in He'. case_decide as Eq.
    + injection He' as <-. subst eid'. rewrite Hek'. apply lookup_insert_eq.
    + assert (inflight c !! k = Some eid') as Hik.
      { apply (H2 eid' e' k); [|done]. split; [|done].
        apply elem_of_union in Hin as [Hin%elem_of_singleton|?]; [congruence|done]. }
      destruct (se_key e) as [ke|] eqn:Eke; [|done]. rewrite lookup_insert_ne; [done|].
      intros ->. by apply (Hk' k eq_refl eid').
  - intros eid' Hin. rewrite lookup_insert. case_decide; [by eexists|]. apply H3.
    apply elem_of_union in Hin as [Hin%elem_of_singleton|?]; [congruence|done].
Qed.

Lemma co_wf_step c c' : co_wf c → co_step c c' → co_wf c'.
Proof.
  intros Hwf Hs. inv Hs as [? r client session prio corr eid Hf|? eid corr|? eid e o [Hin He]|? eid e [Hin He] _].
  - unfold run_enter. destruct (match equivalence_key r with Some k => inflight c !! k | None => None end) eqn:Hfd.
    { apply (co_wf_same c); [done|done| |done]. intros eid'. simpl. by apply alter_key. }
    destruct (negb (valid_job _)); [by apply (co_wf_same c)|].
    destruct (submit _ _) as [a d]. destruct (negb _); [by apply (co_wf_same c)|].
    set (e := mkShared (equivalence_key r) {[corr]} ("inference:" +:+ eid) false None).
    assert (∀ k, se_key e = Some k → inflight c !! k = None) as Hk.
    { intros k Hk. simpl in Hk. by rewrite Hk in Hfd. }
    pose proof (co_wf_new c e eid a (Z.succ (dedup_misses c)) Hwf Hf Hk) as H. simpl in H.
    destruct (equivalence_key r); exact H.
  - apply (co_wf_same c); [done|done| |done]. intros eid'. simpl. apply alter_key. intros e.
    simpl. by destruct (_ && _).
  - unfold execute_settle. rewrite He. apply (co_wf_same c); [done|done| |done]. intros eid'. simpl.
    rewrite lookup_insert. case_decide; [subst eid'|done]. rewrite He. simpl. by destruct (se_future e).
  - unfold execute_cleanup. rewrite He. destruct Hwf as [H1 H2 H3].
    assert (∀ k, se_key e = Some k → inflight c !! k = Some eid) as Hk by (intros k ?; by apply (H2 eid e)).
    assert (∀ m, (∀ k, m !! k = if decide (se_key e = Some k) then None else inflight c !! k) →
      co_wf (c <| inflight := m |> <| shared ::= (λ s, s ∖ {[eid]}) |>)) as Hgoal.
    { intros m Hm. constructor; unfold live; simpl.
      - intros k eid'. rewrite Hm. case_decide as Ek; [done|]. intros Hi.
        destruct (H1 k eid' Hi) as (e' & [Hin' He'] & Hek'). exists e'. split; [|done].
        split; [|done]. apply elem_of_difference. split; [done|]. intros ->%elem_of_singleton. congruence.
      - intros eid' e' k [[Hin' Hne]%elem_of_difference He'] Hek'. rewrite Hm. case_decide as Ek.
        + specialize (Hk k Ek). rewrite (H2 eid' e' k) in Hk by done. injection Hk as ->. by destruct Hne; apply elem_of_singleton_2.
        + by apply (H2 eid' e').
      - intros eid' [Hin' _]%elem_of_difference. auto. }
    destruct (se_key e) as [k|] eqn:Eke.
    + rewrite bool_decide_true by (split; [by apply Hk|done]). apply Hgoal. intros k'.
      case_decide as Ek; [injection Ek as ->; apply lookup_delete_eq|].
      apply lookup_delete_ne. congruence.
    + pose proof (Hgoal (inflight c)) as Hg. destruct c. apply Hg. intros k'. by case_decide.
Qed.

Lemma co_reachable_wf c : co_reachable c → co_wf c.
Proof.
  intros [a Hr]. assert (co_wf (co_init a)) as H0 by (constructor; [done|intros ? ? ? [H _]|intros ? H]; by apply not_elem_of_empty in H).
  induction Hr as [|c0 c1 c2 Hs _ IH]; [done|]. apply IH. by eapply co_wf_step.
Qed.

(** ** The examples are reachable *)

Lemma busy_reachable : adm_reachable busy.
Proof.
  exists (mkLimits 1 1 1 1 0 4), 4, small. split; [reflexivity|]. split; [reflexivity|].
  apply rtc_l with busy1; [exact (adm_submit small (waiting_job "w0" "background" 0) eq_refl)|].
  apply rtc_l with busy2; [exact (adm_submit busy1 (waiting_job "w1" "background" 0) eq_refl)|].
  apply rtc_once. exact (adm_submit busy2 (waiting_job "w2" "interactive" 0) eq_refl).
Qed.

Lemma idle_reachable : adm_reachable idle.
Proof.
  destruct busy_reachable as (l & t & a0 & Hl & Hi & Hr). exists l, t, a0. split; [done|]. split; [done|].
  eapply rtc_r; [exact Hr|]. apply adm_release.
Qed.

Lemma running_reachable : co_reachable running.
Proof. exists small. apply rtc_once. by apply co_enter. Qed.

Lemma weight_bounds j : valid_job j = true → 1 <= get0 PRIORITY_WEIGHT (priority j) <= 8.
Proof.
  unfold valid_job. rewrite !andb_true_iff. intros [[_ Hp%bool_decide_eq_true_1] _].
  destruct Hp as [w Hw]. rewrite (get0_Some _ _ _ Hw).
  assert (map_Forall (λ _ w, 1 <= w <= 8) PRIORITY_WEIGHT) as H.
  { refine (bool_decide_unpack _ _). vm_compute. exact I. }
  by apply (H (priority j)).
Qed.

Lemma crowded_steps : rtc co_step crowded (execute_cleanup settled "e1").
Proof.
  assert (∀ c : InferenceCoordinator, bool_decide ("e1" ∈ shared c) = true → "e1" ∈ shared c) as Hin
    by (intros c H; by apply bool_decide_eq_true_1 in H).
  apply rtc_l with settled.
  - refine (co_settle crowded "e1" (mkShared (equivalence_key same_request) {["corr1"]} "inference:e1" false None) _ _).
    split; [apply Hin; vm_compute; reflexivity|vm_compute; reflexivity].
  - apply rtc_once.
    refine (co_cleanup settled "e1" (mkShared (equivalence_key same_request) {["corr1"]} "inference:e1" false
      (Some (Result "r"))) _ _); [|by eexists].
    split; [apply Hin; vm_compute; reflexivity|vm_compute; reflexivity].
Qed.

(** ** Retries *)

Lemma raw_jitter_bounds k n : (0 <= raw_jitter k n <= 1)%Q.
Proof.
  unfold raw_jitter, Sha256.hexdigest.
  pose proof (Sha256.int16_first_byte _ (Sha256.sha256_bytes (Sha256.bytes_of_string
    (k +:+ ":" +:+ pretty (Z.of_nat n))))) as [H0 H1].
  generalize dependent (Sha256.int16 (String.substring 0 2 (Sha256.hex_bytes (Sha256.sha256
    (Sha256.bytes_of_string (k +:+ ":" +:+ pretty (Z.of_nat n))))))). intros z H0 H1.
  split; unfold Qle, Qdiv, Qmult, Qinv, inject_Z; simpl; lia.
Qed.

Lemma delay_bounds p k n :
  valid_policy p = true → (0 <= delay p k n <= max_delay_seconds p)%Q.
Proof.
  unfold valid_policy. intros Hv. rewrite !andb_true_iff in Hv. destruct Hv as [[[[_ Hb] Hm] Hj0] Hj1].
  rewrite Qle_bool_iff in Hb, Hm, Hj0, Hj1.
  unfold delay. cbv zeta. pose proof (raw_jitter_bounds k n) as [Hr0 Hr1].
  generalize dependent (raw_jitter k n). intros raw Hr0 Hr1.
  assert (0 <= 1 + (raw * 2 - 1) * jitter_ratio p)%Q as Hjit by nra.
  assert (0 <= inject_Z (2 ^ Z.of_nat (n - 1)))%Q as Hpow.
  { change 0%Q with (inject_Z 0). rewrite <- Zle_Qle. apply Z.pow_nonneg. lia. }
  assert (0 <= base_delay_seconds p * inject_Z (2 ^ Z.of_nat (n - 1)) * (1 + (raw * 2 - 1) * jitter_ratio p))%Q as Hd.
  { apply Qmult_le_0_compat; [by apply Qmult_le_0_compat|done]. }
  split; [apply Q.min_glb; assumption|apply Q.le_min_l].
Qed.

Lemma retry_loop_spec left p k clock outcome attempt failures opened ds :
  valid_policy p = true → (attempt + left = S (max_attempts p))%nat → (1 <= left)%nat →
  Forall (λ d, rd_retry d = true ∧ (0 <= rd_delay d <= max_delay_seconds p)%Q) ds →
  let '(o, n) := retry_loop left p k clock outcome attempt failures opened ds in
  (n <= left)%nat ∧ ∀ ds', o = RetryExhausted ds' → bounded_retries p ds'.
Proof.
  intros Hp. revert attempt failures opened ds.
  induction left as [|left IH]; intros attempt failures opened ds Hlen Hleft Hds; [lia|].
  simpl. destruct (clock attempt) as [[now failed] after]. destruct (Qlt_bool now opened).
  { split; [lia|]. intros ds' [= <-]. eexists ds, _. split; [done|]. done. }
  destruct (outcome attempt); [split; [lia|done]| |split; [lia|done]].
  set (tripped := circuit_failure_threshold p <=? failures + 1).
  set (opened' := if tripped then _ else opened).
  destruct (((attempt <? max_attempts p)%nat && Qle_bool opened' after)) eqn:Hr; simpl.
  - apply andb_true_iff in Hr as [Hlt%Nat.ltb_lt _].
    assert (Forall (λ d, rd_retry d = true ∧ (0 <= rd_delay d <= max_delay_seconds p)%Q)
      (ds ++ [mkRetryDecision attempt true (delay p k attempt) "retryable_failure"])) as Hds'.
    { apply Forall_app. split; [done|]. constructor; [|done]. split; [done|]. by apply delay_bounds. }
    specialize (IH (S attempt) (failures + 1) opened' _ ltac:(lia) ltac:(lia) Hds').
    destruct (retry_loop _ _ _ _ _ _ _ _ _) as [o n]. destruct IH. split; [lia|done].
  - split; [lia|]. intros ds' [= <-]. eexists ds, _. split; [done|]. done.
Qed.

(** * Properties *)

(** C19: in every reachable state the active jobs respect each cap of its own
    (runnable, workers, requests, backend slots and, when it is limited,
    memory), the queue is bounded, a waiting job is in the queue of its own
    fairness key exactly as it is indexed, and no job both waits and runs. *)
Theorem admission_books a :
  adm_reachable a →
  (∀ f cap, (f, cap) ∈ DIMENSIONS → usage a f <= cap (limits a)) ∧
  (max_memory_bytes (limits a) ≠ 0 → usage a memory_bytes <= max_memory_bytes (limits a)) ∧
  queued a <= max_queue (limits a) ∧
  ∀ i j, pending_by_id a !! i = Some j →
    active a !! i = None ∧ ∃ q, pending a !! fairness_key j = Some q ∧ j ∈ q.
Proof.
  intros Hwf%adm_reachable_wf. split; [apply (aw_caps a Hwf)|]. split; [apply (aw_memory a Hwf)|].
  split; [apply (aw_bound a Hwf)|]. intros i j Hi. split; [by apply (aw_disjoint a Hwf i j)|].
  by destruct (aw_by_id a Hwf i j Hi) as (_ & _ & _ & ?).
Qed.

Lemma admission_books_witness : usage busy runnable <= max_runnable (limits busy) ∧ queued busy = 2.
Proof.
  split; [|vm_compute; reflexivity].
  apply (proj1 (admission_books busy busy_reachable)). by left.
Defined.

(** [submit] does not look at the queues: a new job that fits is activated at
    once, ahead of every job that waits. *)
Lemma submit_overtakes a x :
  active a !! job_id x = None → pending_by_id a !! job_id x = None → too_large a x = false → fits a x = true →
  active (submit a x).1 !! job_id x = Some x ∧ pending (submit a x).1 = pending a ∧
  d_state (submit a x).2 = "admitted".
Proof.
  intros Ha Hp Hl Hf. unfold submit. rewrite Ha, Hp, Hl. change (fits (a <| tick ::= Z.succ |>) x) with (fits a x).
  rewrite Hf. cbn. by rewrite lookup_insert_eq.
Qed.

(** C13: among the jobs that wait, [next] overtakes by a bounded amount only. While a
    waiting job heads its queue and fits, a call of [next] activates a ready job
    whose score is not below its own and that was queued at most
    [7/4 * aging_ticks] ticks after it, whatever its priority. This bounds [next]
    alone: [submit] looks at no queue, and a newly submitted job that fits is
    activated at once, ahead of the job that waits, which stays in its queue. *)
Theorem bounded_overtaking a j :
  adm_reachable a → ready (a <| tick ::= Z.succ |>) j →
  (∃ j', (next a).2 = Some j' ∧ ready (a <| tick ::= Z.succ |>) j' ∧
    score_gt (pure_score (a <| tick ::= Z.succ |>) j) (pure_score (a <| tick ::= Z.succ |>) j') = false ∧
    4 * (enqueued_at j' - enqueued_at j) <= 7 * aging_ticks a) ∧
  ∀ x, active a !! job_id x = None → pending_by_id a !! job_id x = None → too_large a x = false → fits a x = true →
    active (submit a x).1 !! job_id x = Some x ∧ pending (submit a x).1 = pending a.
Proof.
  intros Hreach Hready. split; [|intros x Ha Hp Hl Hf; by destruct (submit_overtakes a x Ha Hp Hl Hf) as (? & ? & _)].
  revert Hreach Hready.
  intros Hwf%adm_reachable_wf [[rest Hk] Hf].
  destruct (next_cases a) as [(_ & _ & _ & Hnone)|(k & j' & rest' & a2 & Hn & Hk' & Hf' & _ & _ & _ & _ & Hbest)].
  { simpl in Hk. rewrite (Hnone _ _ _ Hk) in Hf. done. }
  simpl in Hk. destruct (aw_pending a Hwf _ _ j' Hk' ltac:(by left)) as [Hkey Hid'].
  destruct (aw_pending a Hwf _ _ j Hk ltac:(by left)) as [_ Hid].
  exists j'. split; [done|]. pose proof (Hbest _ _ _ Hk Hf) as Hs.
  split; [split; [exists rest'; simpl; by rewrite Hkey|done]|]. split; [done|].
  destruct (aw_by_id a Hwf _ _ Hid) as (_ & Hv & He & _).
  destruct (aw_by_id a Hwf _ _ Hid') as (_ & Hv' & He' & _).
  pose proof (aw_aging a Hwf) as Hag.
  pose proof (weight_bounds j Hv). pose proof (weight_bounds j' Hv').
  unfold score_gt, pure_score in Hs. simpl in Hs.
  rewrite orb_false_iff in Hs. destruct Hs as [Hs%Z.ltb_ge _].
  assert (get0 PRIORITY_WEIGHT (priority j) * aging_ticks a >= aging_ticks a) by nia.
  assert (get0 PRIORITY_WEIGHT (priority j') * aging_ticks a <= 8 * aging_ticks a) by nia. lia.
Qed.

Lemma bounded_overtaking_witness :
  ∃ j', (next idle).2 = Some j' ∧ 4 * (enqueued_at j' - 2) <= 7 * 4.
Proof.
  destruct (bounded_overtaking idle (waiting_job "w1" "background" 2) idle_reachable) as [(j' & Hn & _ & _ & Hb) _].
  - split; [exists []; vm_compute; reflexivity|vm_compute; reflexivity].
  - exists j'. split; [exact Hn|exact Hb].
Defined.

(** C15: single flight stays inside its boundary: at most one live execution
    has a given equivalence key, a request joins an execution only under that
    execution's key, and only an inference that declares no side effect and
    names its authority and privacy scopes has a key at all. *)
Theorem single_flight c :
  co_reachable c →
  (∀ eid eid' e e' k, live c eid e → live c eid' e' → se_key e = Some k → se_key e' = Some k → eid = eid') ∧
  ∀ r client session prio corr eid eid',
    (run_enter c r client session prio corr eid).2 = Ok (eid', true) →
    ∃ e k, live c eid' e ∧ se_key e = Some k ∧ equivalence_key r = Some k ∧
      side_effect_free r = true ∧ operation_kind r = "inference" ∧
      authority_scope r ≠ "" ∧ privacy_scope r ≠ "".
Proof.
  intros Hwf%co_reachable_wf. split.
  - intros eid eid' e e' k Hl Hl' Hk Hk'. pose proof (cw_live c Hwf eid e k Hl Hk) as H1.
    pose proof (cw_live c Hwf eid' e' k Hl' Hk') as H2. congruence.
  - intros r client session prio corr eid eid' H. unfold run_enter in H.
    destruct (equivalence_key r) as [k|] eqn:Hkey.
    2:{ simpl in H. destruct (negb (valid_job _)); [done|]. destruct (submit _ _) as [a d].
        by destruct (negb _). }
    destruct (inflight c !! k) as [eid0|] eqn:Hi.
    2:{ simpl in H. destruct (negb (valid_job _)); [done|]. destruct (submit _ _) as [a d].
        by destruct (negb _). }
    injection H as <-. destruct (cw_inflight c Hwf k eid0 Hi) as (e & Hl & Hek). exists e, k.
    do 3 (split; [done|]). unfold equivalence_key in Hkey.
    destruct (_ || _ || _ || _) eqn:E in Hkey; [done|]. rewrite !orb_false_iff, !negb_false_iff in E.
    destruct E as [[[E1 E2%String.eqb_eq] E3%Str.truthy_ne] E4%Str.truthy_ne]. done.
Qed.

Lemma single_flight_witness :
  (run_enter running same_request "c" "s" "inference" "corr2" "e9").2 = Ok ("e1", true) ∧
  ∃ e k, live running "e1" e ∧ se_key e = Some k.
Proof.
  assert ((run_enter running same_request "c" "s" "inference" "corr2" "e9").2 = Ok ("e1", true)) as H
    by (vm_compute; reflexivity).
  split; [exact H|].
  destruct (proj2 (single_flight running running_reachable) _ _ _ _ _ _ _ H) as (e & k & Hl & Hk & _).
  exists e, k. split; [exact Hl|exact Hk].
Defined.

(** a request the controller defers is refused to its caller but stays in
    the queue: the coordinator never dispatches and never cancels, so whatever
    it does next, the job waits forever and keeps its place in the bounded
    queue. *)
Theorem deferred_request_leaks c r client session prio corr eid c' d c2 :
  run_enter c r client session prio corr eid = (c', Err (AdmissionRejected d)) →
  d_state d = "deferred" → rtc co_step c' c2 →
  is_Some (pending_by_id (admission c2) !! ("inference:" +:+ eid)).
Proof.
  intros H Hd Hr.
  assert (is_Some (pending_by_id (admission c') !! ("inference:" +:+ eid))) as H0.
  { unfold run_enter in H.
    destruct (match equivalence_key r with Some k => inflight c !! k | None => None end); [done|].
    destruct (negb (valid_job _)); [done|].
    change (admission (c <| dedup_misses ::= Z.succ |>)) with (admission c) in H.
    set (j := mkJob _ _ _ _ _ _ _ _ _ _ _) in H. pose proof (submit_deferred (admission c) j) as Hs.
    destruct (submit (admission c) j) as [a d'] eqn:E. simpl in Hs.
    destruct (negb _); [|by destruct (equivalence_key r)].
    injection H as <- <-. exact (Hs Hd). }
  clear -H0 Hr. induction Hr as [|c0 c1 c2 Hs _ IH]; [done|]. apply IH. by eapply co_step_keeps.
Qed.

Lemma deferred_request_leaks_witness :
  is_Some (pending_by_id (admission (execute_cleanup settled "e1")) !! "inference:e2").
Proof.
  destruct (run_enter running other_request "c" "s" "inference" "corr3" "e2") as [c1 [x|[|d]]] eqn:E;
    [exfalso; vm_compute in E; discriminate..|].
  refine (deferred_request_leaks running other_request "c" "s" "inference" "corr3" "e2" crowded d _ _ _ crowded_steps).
  - unfold crowded. rewrite E. reflexivity.
  - apply (f_equal snd) in E. vm_compute in E. injection E as <-. reflexivity.
Defined.

(** A request can join an execution whose task has already been cancelled by
    the departure of its only waiter: the late waiter is then cancelled too. *)
Theorem join_after_cancel c r client session prio corr eid k eid' e :
  equivalence_key r = Some k → inflight c !! k = Some eid' → heap c !! eid' = Some e →
  se_cancel_requested e = true → se_future e = None →
  (run_enter c r client session prio corr eid).2 = Ok (eid', true) ∧
  ∃ e', heap (execute_settle (run_enter c r client session prio corr eid).1 eid' Cancelled) !! eid' = Some e' ∧
    corr ∈ se_waiters e' ∧ se_future e' = Some Cancelled.
Proof.
  intros Hk Hi He Hc Hf. unfold run_enter. rewrite Hk, Hi. split; [done|].
  unfold execute_settle. simpl. rewrite lookup_alter_eq, He. simpl. rewrite Hf.
  rewrite lookup_insert_eq. eexists. split; [done|]. split; [|done]. simpl. set_solver.
Qed.

(** retries are bounded: the executor is called at most [max_attempts]
    times, and a failure report lists its decisions in order, all but the last
    of them retries with a delay between zero and [max_delay_seconds]
    whatever the jitter, the last one not a retry. *)
Theorem retry_bounded p k clock outcome :
  valid_policy p = true → (1 <= max_attempts p)%nat →
  let '(o, calls) := run_with_retry p k clock outcome in
  (calls <= max_attempts p)%nat ∧ ∀ ds, o = RetryExhausted ds → bounded_retries p ds.
Proof.
  intros Hp Hm. unfold run_with_retry. apply retry_loop_spec; [done|lia|done|constructor].
Qed.

Lemma retry_bounded_witness :
  ((run_with_retry demo_policy "job" (λ _, (0, 0, 0)%Q) (λ _, Failed)).2 <= 3)%nat.
Proof.
  pose proof (retry_bounded demo_policy "job" (λ _, (0, 0, 0)%Q) (λ _, Failed)
    ltac:(vm_compute; reflexivity) ltac:(vm_compute; lia)) as H.
  destruct (run_with_retry demo_policy "job" (λ _, (0, 0, 0)%Q) (λ _, Failed)) as [o n].
  exact (proj1 H).
Defined.
