(* ===== verification/AsyncQueue.v ===== *)
(** The bounded asynchronous queue ([simplicio_loop/async_bounded_queue.py]).
    A coroutine runs under the condition's lock from one suspension to the
    next, so [put] and [get] are modelled by the pieces between their [await]s:
    entering, one pass of the waiting loop, and a time-out. *)
From S2P Require Import Prelude PyLib.
Local Open Scope Z_scope.
Local Open Scope py_scope.

(** * Definitions *)

(** [enqueued_at] is kept as the clock reading it is. *)
Record QueueItem := mkItem {
  value : string;
  size : Z;
  key : option string;
  enqueued_at : Z;
}.
#[export] Instance QueueItem_eq_dec : EqDecision QueueItem.
Proof. solve_decision. Defined.

Record AsyncBoundedQueue := mkQueue {
  max_items : Z;
  max_bytes : Z;
  overload : string;
  coalesce : bool;
  items : list QueueItem;
  bytes : Z;
  unfinished : Z;
  closed : bool;
  accepted : Z;
  coalesced : Z;
  rejected : Z;
  wait_count : Z;
}.
#[export] Instance AsyncBoundedQueue_eta : Eta AsyncBoundedQueue := λ q,
  mkQueue (max_items q) (max_bytes q) (overload q) (coalesce q) (items q) (bytes q) (unfinished q)
    (closed q) (accepted q) (coalesced q) (rejected q) (wait_count q).

Inductive QueueExn : Type :=
| ValueError (msg : string)
| QueueClosed (msg : string)
| BackpressureError (reason : string) (requested queued_items queued_bytes : Z)
| RuntimeError (msg : string).

(** [AsyncBoundedQueue.__init__] *)
Definition AsyncBoundedQueue_init (mi mb : Z) (ov : string) (co : bool) : result QueueExn AsyncBoundedQueue :=
  if (mi <? 1) || (mb <? 0) then Err (ValueError "queue limits must be positive/non-negative")
  else if negb (bool_decide (ov ∈ ["wait"; "reject"])) then Err (ValueError "overload must be wait or reject")
  else Ok (mkQueue mi mb ov co [] 0 0 false 0 0 0 0).

Definition count (q : AsyncBoundedQueue) : Z := Z.of_nat (length (items q)).

(** [_validate_size]: [true] when it raises nothing. *)
Definition valid_size (q : AsyncBoundedQueue) (n : Z) : bool :=
  negb ((n <? 0) || (negb (max_bytes q =? 0) && (max_bytes q <? n))).

Definition full (q : AsyncBoundedQueue) (n : Z) : bool :=
  (max_items q <=? count q) || (negb (max_bytes q =? 0) && (max_bytes q <? bytes q + n)).

Definition receipt (q : AsyncBoundedQueue) (why : string) (n : Z) : QueueExn :=
  BackpressureError why n (count q) (bytes q).

Fixpoint find_key_from (index : nat) (k : string) (l : list QueueItem) : option nat :=
  match l with
  | [] => None
  | item :: l' => if bool_decide (key item = Some k) then Some index else find_key_from (S index) k l'
  end.
Definition find_key (q : AsyncBoundedQueue) (k : string) : option nat := find_key_from 0 k (items q).

(** What a piece of [put] comes to: it returns, raises, or waits for the
    condition with its arguments kept. *)
Inductive PutResult : Type :=
| Accepted (was_coalesced : bool)
| PutRaises (e : QueueExn)
| PutWaits.

(** [_items.append] and the counters that go with it. *)
Definition push (q : AsyncBoundedQueue) (item : QueueItem) : AsyncBoundedQueue :=
  q <| items ::= (λ l, l ++ [item]) |> <| bytes ::= Z.add (size item) |>
    <| unfinished ::= Z.succ |> <| accepted ::= Z.succ |>.

(** One pass of [while self._full(size)]; [remaining] is what the time-out
    leaves, [None] without one. *)
Definition put_loop (q : AsyncBoundedQueue) (item : QueueItem) (remaining : option Z) :
    AsyncBoundedQueue * PutResult :=
  if full q (size item) then
    if closed q then (q, PutRaises (QueueClosed "queue is closed"))
    else if String.eqb (overload q) "reject" then
      let q := q <| rejected ::= Z.succ |> in (q, PutRaises (receipt q "full" (size item)))
    else
      let q := q <| wait_count ::= Z.succ |> in
      match remaining with
      | Some r =>
          if r <=? 0 then
            let q := q <| rejected ::= Z.succ |> in (q, PutRaises (receipt q "timeout" (size item)))
          else (q, PutWaits)
      | None => (q, PutWaits)
      end
  else (push q item, Accepted false).

Definition put (q : AsyncBoundedQueue) (item : QueueItem) (remaining : option Z) :
    AsyncBoundedQueue * PutResult :=
  if negb (valid_size q (size item)) then (q, PutRaises (ValueError "item size exceeds queue contract"))
  else if closed q then (q, PutRaises (QueueClosed "queue is closed"))
  else
    let found :=
      match key item with
      | Some k => if coalesce q then find_key q k else None
      | None => None
      end in
    match found with
    | Some index =>
        match items q !! index with
        | Some prior =>
            (q <| items ::= <[index := mkItem (value item) (size item) (key item) (enqueued_at prior)]> |>
               <| bytes ::= Z.add (size item - size prior) |>
               <| coalesced ::= Z.succ |>, Accepted true)
        | None => (q, PutRaises (RuntimeError "deque index out of range"))
        end
    | None => put_loop q item remaining
    end.

(** [wait_for] gives up on a waiting [put]. *)
Definition put_timeout (q : AsyncBoundedQueue) (item : QueueItem) : AsyncBoundedQueue * PutResult :=
  let q := q <| rejected ::= Z.succ |> in (q, PutRaises (receipt q "timeout" (size item))).

Inductive GetResult : Type :=
| Got (item : QueueItem)
| GetRaises (e : QueueExn)
| GetWaits.

(** One pass of the loop of [get]. *)
Definition get (q : AsyncBoundedQueue) : AsyncBoundedQueue * GetResult :=
  match items q with
  | [] =>
      if closed q then (q, GetRaises (QueueClosed "queue is closed and empty")) else (q, GetWaits)
  | item :: rest => (q <| items := rest |> <| bytes ::= (λ b, b - size item) |>, Got item)
  end.

Definition task_done (q : AsyncBoundedQueue) : result QueueExn AsyncBoundedQueue :=
  if unfinished q <? 1 then Err (ValueError "task_done called too many times")
  else Ok (q <| unfinished ::= Z.pred |>).

(** [join] has nothing left to wait for. *)
Definition join_returns (q : AsyncBoundedQueue) : bool := unfinished q =? 0.

Definition close (q : AsyncBoundedQueue) : AsyncBoundedQueue := q <| closed := true |>.

Definition reopen (q : AsyncBoundedQueue) : result QueueExn AsyncBoundedQueue :=
  if negb (count q =? 0) || negb (unfinished q =? 0) then
    Err (RuntimeError "cannot reopen while work is pending")
  else Ok (q <| closed := false |>).

(** * Specification *)

(** The operations of the tasks that share the queue. [Resume] is a [put] woken
    from its wait: it passed [valid_size] when it entered. *)
Inductive Op : Type :=
| Put (item : QueueItem) (remaining : option Z)
| Resume (item : QueueItem) (remaining : option Z)
| Timeout (item : QueueItem)
| Get
| TaskDone
| Close
| Reopen.

(** The state after an operation, what it put at the tail and what it took. *)
Definition exec (q : AsyncBoundedQueue) (o : Op) : AsyncBoundedQueue * list QueueItem * list QueueItem :=
  let put_effect item (qr : AsyncBoundedQueue * PutResult) :=
    match qr with
    | (q', Accepted false) => (q', [item], [])
    | (q', _) => (q', [], [])
    end in
  match o with
  | Put item r => put_effect item (put q item r)
  | Resume item r => put_effect item (if valid_size q (size item) then put_loop q item r else (q, PutWaits))
  | Timeout item => put_effect item (put_timeout q item)
  | Get => match get q with (q', Got item) => (q', [], [item]) | (q', _) => (q', [], []) end
  | TaskDone => (ok_or q (task_done q), [], [])
  | Close => (close q, [], [])
  | Reopen => (ok_or q (reopen q), [], [])
  end.

(** A history: the final state, everything accepted, everything taken. *)
Fixpoint history (q : AsyncBoundedQueue) (os : list Op) : AsyncBoundedQueue * list QueueItem * list QueueItem :=
  match os with
  | [] => (q, [], [])
  | o :: os' =>
      let '(q1, ins1, outs1) := exec q o in
      let '(q2, ins2, outs2) := history q1 os' in
      (q2, ins1 ++ ins2, outs1 ++ outs2)
  end.

Definition total_size (l : list QueueItem) : Z := zsum (size <$> l).

(** The byte counter is the size of what is queued, the queue never holds more
    than [max_items], and every item fits the byte limit on its own. *)
Record wf (q : AsyncBoundedQueue) : Prop := {
  wf_limits : 1 <= max_items q ∧ 0 <= max_bytes q;
  wf_bytes : bytes q = total_size (items q);
  wf_count : count q <= max_items q;
  wf_sizes : Forall (λ i, 0 <= size i ∧ (max_bytes q ≠ 0 → size i <= max_bytes q)) (items q);
  wf_budget : coalesce q = false → max_bytes q ≠ 0 → bytes q <= max_bytes q;
}.

(** Examples: two items of at most ten bytes each, ten bytes in all. *)
Definition item (v : string) (n : Z) (k : option string) : QueueItem := mkItem v n k 0.
Definition empty (co : bool) : AsyncBoundedQueue := mkQueue 2 10 "wait" co [] 0 0 false 0 0 0 0.

Definition demo_ops : list Op := [Put (item "a" 4 None) None; Put (item "b" 5 None) None; Get].
Definition keyed : AsyncBoundedQueue :=
  (history (empty true) [Put (item "a" 1 (Some "k")) None; Put (item "b" 9 None) None]).1.1.
Definition shut : AsyncBoundedQueue :=
  (history (empty false) [Put (item "a" 4 None) None; Put (item "b" 5 None) None;
    Put (item "c" 3 None) None; Close; Get]).1.1.

(** * Lemmas *)

Lemma total_app l1 l2 : total_size (l1 ++ l2) = total_size l1 + total_size l2.
Proof. unfold total_size. by rewrite fmap_app, zsum_app. Qed.

Lemma total_insert l (i : nat) x y :
  l !! i = Some x → total_size (<[i := y]> l) = total_size l - size x + size y.
Proof.
  revert i. induction l as [|z l IH]; intros [|i] Hi; simplify_eq/=.
  - unfold total_size. simpl. lia.
  - specialize (IH i Hi).
    change (size z + total_size (<[i := y]> l) = size z + total_size l - size x + size y). lia.
Qed.

Lemma valid_size_spec q n :
  valid_size q n = true ↔ 0 <= n ∧ (max_bytes q ≠ 0 → n <= max_bytes q).
Proof.
  unfold valid_size. rewrite negb_true_iff, orb_false_iff, Z.ltb_ge, andb_false_iff, negb_false_iff,
    Z.eqb_eq, Z.ltb_ge. intuition lia.
Qed.

Lemma full_false q n :
  full q n = false → count q < max_items q ∧ (max_bytes q ≠ 0 → bytes q + n <= max_bytes q).
Proof.
  unfold full. rewrite orb_false_iff, Z.leb_gt, andb_false_iff, negb_false_iff, Z.eqb_eq, Z.ltb_ge.
  intuition lia.
Qed.

(** The fields the invariant reads; the counters are free. *)
Lemma wf_counters q u a c r w cl :
  wf q → wf (q <| unfinished := u |> <| accepted := a |> <| coalesced := c |> <| rejected := r |>
               <| wait_count := w |> <| closed := cl |>).
Proof. intros []. by constructor. Qed.

Lemma wf_push q it : wf q → valid_size q (size it) = true → full q (size it) = false → wf (push q it).
Proof.
  intros [] [Hs Hm]%valid_size_spec [Hc Hb]%full_false. constructor; simpl; [done|..].
  - rewrite total_app, wf_bytes0. change (total_size [it]) with (size it + 0). lia.
  - unfold count in *. simpl. rewrite length_app. simpl. lia.
  - apply Forall_app. split; [done|]. constructor; [done|constructor].
  - intros _ H. specialize (Hb H). lia.
Qed.

Lemma put_loop_cases q it r :
  let '(q', res) := put_loop q it r in
  (full q (size it) = false ∧ q' = push q it ∧ res = Accepted false) ∨
  (full q (size it) = true ∧ items q' = items q ∧ res ≠ Accepted false ∧
   ∃ rj w, q' = q <| rejected := rj |> <| wait_count := w |>).
Proof.
  assert (∀ rj w res, res ≠ Accepted false → full q (size it) = true →
    let q' := q <| rejected := rj |> <| wait_count := w |> in
    (full q (size it) = false ∧ q' = push q it ∧ res = Accepted false) ∨
    (full q (size it) = true ∧ items q' = items q ∧ res ≠ Accepted false ∧
     ∃ rj w, q' = q <| rejected := rj |> <| wait_count := w |>)) as Hkeep.
  { intros rj w res Hres Hf. right. do 3 (split; [done|]). by exists rj, w. }
  unfold put_loop. destruct (full q (size it)) eqn:Hf; [|by left].
  destruct (closed q); [|destruct (String.eqb _ _); [|destruct r as [r|]; [destruct (_ <=? _)|]]].
  - pose proof (Hkeep (rejected q) (wait_count q) (PutRaises (QueueClosed "queue is closed"))) as H.
    destruct q. by apply H.
  - by apply (Hkeep (Z.succ (rejected q)) (wait_count q)).
  - by apply (Hkeep (Z.succ (rejected q)) (Z.succ (wait_count q))).
  - by apply (Hkeep (rejected q) (Z.succ (wait_count q))).
  - by apply (Hkeep (rejected q) (Z.succ (wait_count q))).
Qed.

Lemma wf_put_loop q it r : wf q → valid_size q (size it) = true → wf (put_loop q it r).1.
Proof.
  intros Hwf Hv. pose proof (put_loop_cases q it r) as H. destruct (put_loop q it r) as [q' res].
  destruct H as [(Hf & -> & _)|(_ & _ & _ & rj & w & ->)]; [by apply wf_push|].
  exact (wf_counters q (unfinished q) (accepted q) (coalesced q) rj w (closed q) Hwf).
Qed.

Lemma find_key_from_lt n k l i : find_key_from n k l = Some i → (n <= i < n + length l)%nat.
Proof.
  revert n. induction l as [|x l IH]; intros n H; [done|]. simpl in *.
  case_bool_decide; [injection H as <-; lia|]. apply IH in H. lia.
Qed.

(** [put] by cases: a coalesced item, a pass of the loop, or an error. *)
Lemma put_cases q it r :
  let '(q', res) := put q it r in
  (q' = q ∧ ∃ e, res = PutRaises e) ∨
  (valid_size q (size it) = true ∧ coalesce q = true ∧ res = Accepted true ∧
   ∃ i x, items q !! i = Some x ∧
     q' = q <| items ::= <[i := mkItem (value it) (size it) (key it) (enqueued_at x)]> |>
            <| bytes ::= Z.add (size it - size x) |> <| coalesced ::= Z.succ |>) ∨
  (valid_size q (size it) = true ∧ closed q = false ∧ (q', res) = put_loop q it r).
Proof.
  unfold put. destruct (valid_size q (size it)) eqn:Hv; cbn [negb]; [|left; split; [done|by eexists]].
  destruct (closed q) eqn:Hc; [left; split; [done|by eexists]|].
  destruct (key it) as [k|] eqn:Hk;
    [|destruct (put_loop q it r) as [q' res]; right; right; done].
  destruct (coalesce q) eqn:Hco; [|destruct (put_loop q it r) as [q' res]; right; right; done].
  destruct (find_key q k) as [i|] eqn:Hf; [|destruct (put_loop q it r) as [q' res]; right; right; done].
  apply find_key_from_lt in Hf. destruct (lookup_lt_is_Some_2 (items q) i ltac:(lia)) as [x Hx].
  rewrite Hx. right; left. do 3 (split; [done|]). exists i, x. split; [done|]. done.
Qed.

Lemma wf_put q it r : wf q → wf (put q it r).1.
Proof.
  intros Hwf. pose proof (put_cases q it r) as H. destruct (put q it r) as [q' res].
  destruct H as [[-> _]|[(Hv & Hco & _ & i & x & Hx & ->)|(Hv & _ & Heq)]].
  - done.
  - apply valid_size_spec in Hv as [Hs Hm]. destruct Hwf. constructor; simpl; [done|..].
    + rewrite (total_insert _ _ x) by done. simpl. rewrite wf_bytes0. lia.
    + unfold count in *. simpl. by rewrite length_insert.
    + by apply Forall_insert.
    + congruence.
  - pose proof (wf_put_loop q it r Hwf Hv) as H. by rewrite <- Heq in H.
Qed.

Lemma wf_get q : wf q → wf (get q).1.
Proof.
  intros Hwf. unfold get. destruct (items q) as [|x l] eqn:E; [by destruct (closed q)|].
  destruct Hwf. constructor; simpl; rewrite ?E in *.
  - done.
  - change (total_size (x :: l)) with (size x + total_size l) in wf_bytes0. lia.
  - unfold count in *. rewrite E in *. simpl in *. lia.
  - by inv wf_sizes0.
  - intros Hc Hm. inv wf_sizes0. specialize (wf_budget0 Hc Hm). lia.
Qed.

Lemma wf_exec q o : wf q → wf (exec q o).1.1.
Proof.
  intros Hwf. destruct o as [it r|it r|it| | | |]; unfold exec.
  - pose proof (wf_put q it r Hwf). by destruct (put q it r) as [q' [[|]|e|]].
  - destruct (valid_size q (size it)) eqn:Hv; [|done].
    pose proof (wf_put_loop q it r Hwf Hv). by destruct (put_loop q it r) as [q' [[|]|e|]].
  - exact (wf_counters q (unfinished q) (accepted q) (coalesced q) (Z.succ (rejected q)) (wait_count q) (closed q) Hwf).
  - pose proof (wf_get q Hwf). by destruct (get q) as [q' [x|e|]].
  - unfold task_done. destruct (_ <? _); [done|].
    exact (wf_counters q (Z.pred (unfinished q)) (accepted q) (coalesced q) (rejected q) (wait_count q) (closed q) Hwf).
  - exact (wf_counters q (unfinished q) (accepted q) (coalesced q) (rejected q) (wait_count q) true Hwf).
  - unfold reopen. destruct (_ || _); [done|].
    exact (wf_counters q (unfinished q) (accepted q) (coalesced q) (rejected q) (wait_count q) false Hwf).
Qed.

(** Without coalescing an operation only appends and takes the head. *)
Lemma exec_fifo q o :
  coalesce q = false →
  let '(q', ins, outs) := exec q o in
  items q ++ ins = outs ++ items q' ∧ coalesce q' = false.
Proof.
  intros Hco.
  assert (∀ it r, let '(q', res) := put_loop q it r in
    items q ++ (match res with Accepted false => [it] | _ => [] end) = items q' ∧ coalesce q' = false) as Hl.
  { intros it r. pose proof (put_loop_cases q it r) as H. destruct (put_loop q it r) as [q' res].
    destruct H as [(_ & -> & ->)|(_ & Hi & Hr & rj & w & ->)]; [done|].
    split; [|done]. destruct res as [[|]| |]; rewrite ?app_nil_r; done. }
  destruct o as [it r|it r|it| | | |]; unfold exec.
  - pose proof (put_cases q it r) as H. destruct (put q it r) as [q' res].
    destruct H as [[-> [e ->]]|[(_ & H & _)|(_ & _ & Heq)]]; [by rewrite app_nil_r|congruence|].
    specialize (Hl it r). rewrite <- Heq in Hl. by destruct res as [[|]|e|].
  - destruct (valid_size q (size it)); [|by rewrite app_nil_r].
    specialize (Hl it r). by destruct (put_loop q it r) as [q' [[|]|e|]].
  - simpl. by rewrite app_nil_r.
  - unfold get. destruct (items q) as [|x l] eqn:E; [destruct (closed q)|]; simpl; by rewrite ?E, ?app_nil_r.
  - unfold task_done. destruct (_ <? _); simpl; by rewrite app_nil_r.
  - simpl. by rewrite app_nil_r.
  - unfold reopen. destruct (_ || _); simpl; by rewrite app_nil_r.
Qed.

Lemma queue_wf_init mi mb ov co q : AsyncBoundedQueue_init mi mb ov co = Ok q → wf q ∧ coalesce q = co ∧ items q = [].
Proof.
  unfold AsyncBoundedQueue_init. destruct ((mi <? 1) || (mb <? 0)) eqn:E1; [done|].
  destruct (negb _); [done|]. intros [= <-]. apply orb_false_iff in E1 as [?%Z.ltb_ge ?%Z.ltb_ge].
  split; [|done]. constructor; simpl; try done. unfold count. simpl. lia.
Qed.

(** * Properties *)

(** whatever the tasks do, the byte counter is the size of what is queued
    and the queue holds at most [max_items] items, each within the byte limit;
    without coalescing the total is within the byte limit too. *)
Theorem queue_bounds mi mb ov co q0 os :
  AsyncBoundedQueue_init mi mb ov co = Ok q0 → wf (history q0 os).1.1.
Proof.
  intros (Hwf & _ & _)%queue_wf_init. revert q0 Hwf. induction os as [|o os IH]; intros q Hwf; [done|].
  cbn [history]. pose proof (wf_exec q o Hwf) as H. destruct (exec q o) as [[q1 ins1] outs1].
  specialize (IH q1 H). by destruct (history q1 os) as [[q2 ins2] outs2].
Qed.

Lemma queue_bounds_witness :
  wf (history (empty false) demo_ops).1.1 ∧ bytes (history (empty false) demo_ops).1.1 = 5.
Proof.
  split; [|vm_compute; reflexivity].
  apply (queue_bounds 2 10 "wait" false (empty false) demo_ops). vm_compute. reflexivity.
Defined.

(** C35: first in, first out: without coalescing, in any history from the empty
    queue, what [get] has handed out followed by what is still queued is
    exactly what was accepted, in order; nothing is lost, duplicated or
    reordered, whatever waits, times out, closes or reopens in between. *)
Theorem queue_fifo mi mb ov q0 os :
  AsyncBoundedQueue_init mi mb ov false = Ok q0 →
  let '(q, ins, outs) := history q0 os in ins = outs ++ items q.
Proof.
  intros (_ & Hco & Hi)%queue_wf_init.
  assert (∀ q, coalesce q = false →
    let '(q', ins, outs) := history q os in items q ++ ins = outs ++ items q') as H.
  { clear. induction os as [|o os IH]; intros q Hco; simpl; [by rewrite app_nil_r|].
    pose proof (exec_fifo q o Hco) as H. destruct (exec q o) as [[q1 ins1] outs1].
    destruct H as [H1 Hco1]. specialize (IH q1 Hco1). destruct (history q1 os) as [[q2 ins2] outs2].
    by rewrite app_assoc, H1, <- app_assoc, IH, app_assoc. }
  specialize (H q0 Hco). destruct (history q0 os) as [[q ins] outs]. by rewrite Hi in H.
Qed.

Lemma queue_fifo_witness :
  [item "a" 4 None; item "b" 5 None] = [item "a" 4 None] ++ items (history (empty false) demo_ops).1.1.
Proof.
  assert (AsyncBoundedQueue_init 2 10 "wait" false = Ok (empty false)) as Hi by (vm_compute; reflexivity).
  pose proof (queue_fifo 2 10 "wait" (empty false) demo_ops Hi) as H.
  destruct (history (empty false) demo_ops) as [[q ins] outs] eqn:E. cbn [fst snd].
  assert (ins = [item "a" 4 None; item "b" 5 None] ∧ outs = [item "a" 4 None]) as [<- <-]; [|exact H].
  vm_compute in E. injection E as _ <- <-. split; reflexivity.
Defined.

(** the coalescing path checks the size of the new item alone: a
    replacement that passes [_validate_size] is accepted however full the queue
    is, and the byte total grows by the difference, past [max_bytes]. *)
Theorem coalesce_ignores_budget q it k i prior r :
  valid_size q (size it) = true → closed q = false → coalesce q = true → key it = Some k →
  find_key q k = Some i → items q !! i = Some prior →
  (put q it r).2 = Accepted true ∧ bytes (put q it r).1 = bytes q + (size it - size prior).
Proof.
  intros Hv Hc Hco Hk Hf Hi. unfold put. rewrite Hv, Hc, Hco, Hk, Hf, Hi. simpl. split; [done|]. lia.
Qed.

Lemma coalesce_ignores_budget_witness :
  (put keyed (item "a2" 9 (Some "k")) None).2 = Accepted true ∧
  bytes (put keyed (item "a2" 9 (Some "k")) None).1 = bytes keyed + 8 ∧ bytes keyed = max_bytes keyed.
Proof.
  destruct (coalesce_ignores_budget keyed (item "a2" 9 (Some "k")) "k" 0 (item "a" 1 (Some "k")) None)
    as [H1 H2]; [vm_compute; reflexivity..|].
  split; [exact H1|]. split; [exact H2|vm_compute; reflexivity].
Defined.

(** a [put] that waits for room re-checks [closed] only while the queue is
    still full: if an item was taken between the [close] and its wake-up, it
    enqueues its item on the closed queue. *)
Theorem closed_put_accepted q it r :
  closed q = true → full q (size it) = false →
  put_loop q it r = (push q it, Accepted false) ∧ closed (push q it) = true.
Proof. intros Hc Hf. unfold put_loop. by rewrite Hf. Qed.

Lemma closed_put_accepted_witness :
  put_loop shut (item "c" 3 None) None = (push shut (item "c" 3 None), Accepted false) ∧
  closed (push shut (item "c" 3 None)) = true.
Proof. apply closed_put_accepted; vm_compute; reflexivity. Defined.
