(* ===== verification/HbpLedger.v ===== *)
(** The evidence ledger and the completion oracle
    ([simplicio_loop/hbp_ledger.py]): receipts in canonical JSON, one a line,
    chained by their hashes; the verification of a chain; the verdict on the
    acceptance criteria of a run. A file is its bytes, [None] when it does not
    exist. The duration and the hash of a verification, which covers it, are
    left out. *)
From Stdlib Require Import Ascii.
From stdpp Require Import pretty.
From S2P Require Import Prelude PyLib PyText PyJson.
Import Json.
Open Scope py_scope.
Open Scope Z_scope.

(** [unicodedata.normalize("NFC", s)], by what Unicode promises of it: it is
    idempotent, changes no ASCII text, and never deletes a whole text. *)
Definition is_ascii (s : string) : bool := forallb (λ c, code c <? 128)%N (String.list_ascii_of_string s).
Class Nfc : Type := {
  nfc : string → string;
  nfc_idemp s : nfc (nfc s) = nfc s;
  nfc_ascii s : is_ascii s = true → nfc s = s;
  nfc_empty s : nfc s = "" → s = "";
}.

Definition SCHEMA : string := "simplicio.hbp-ledger-receipt/v1".
Definition GENESIS_HASH : string := "0000000000000000000000000000000000000000000000000000000000000000".

Inductive HbpExn :=
| TypeError            (* floats are not allowed in canonical HBP receipts *)
| UnicodeEncodeError   (* a lone surrogate *)
| ValueError (msg : string)
| HbpAppendError (reason : string).

(** The number of code points of a text. *)
Definition text_len (s : string) : Z :=
  Z.of_nat (length (List.filter (λ c, negb (cont 128 191 c)) (String.list_ascii_of_string s))).

Section Hbp.
Context `{Nfc} (parse_float : string → Z).

(** ** Canonical bytes *)
Fixpoint normalize (v : json) : result HbpExn json :=
  match v with
  | Null | Bool _ | Int _ => Ok v
  | Float _ => Err TypeError
  | Str s => Ok (Str (nfc s))
  | Obj d =>
      (fix go (d acc : list (string * json)) : result HbpExn json :=
        match d with
        | [] => Ok (Obj acc)
        | (key, item) :: d' => let? w := normalize item in go d' (dput (nfc key) w acc)
        end) d []
  | List l =>
      let? l' := (fix go (l : list json) : result HbpExn (list json) :=
        match l with
        | [] => Ok []
        | item :: l' => let? w := normalize item in let? ws := go l' in Ok (w :: ws)
        end) l in
      Ok (List l')
  end.

Definition canonical_bytes (v : json) : result HbpExn string :=
  let? w := normalize v in
  let text := dumps false w in
  if utf8_valid text then Ok text else Err UnicodeEncodeError.

Definition canonical_sha256 (v : json) : result HbpExn string :=
  let? b := canonical_bytes v in Ok (Sha256.hexdigest b).

(** ** Bindings and evidence *)
Record HbpBinding := mkHbpBinding {
  run_id : string; plan_hash : string; generation : string; attempt : Z; fence : Z; stage : string }.

(** The constructor, with [__post_init__]. *)
Definition make_binding (b : HbpBinding) : result HbpExn HbpBinding :=
  if negb (forallb Str.truthy [run_id b; plan_hash b; generation b; stage b]) then
    Err (ValueError "run_id, plan_hash, generation and stage are required")
  else if (attempt b <? 1) || (fence b <? 0) then
    Err (ValueError "attempt must be positive and fence non-negative")
  else Ok b.

Definition binding_to_dict (b : HbpBinding) : list (string * json) :=
  [("run_id", Str (run_id b)); ("plan_hash", Str (plan_hash b)); ("generation", Str (generation b));
   ("attempt", Int (attempt b)); ("fence", Int (fence b)); ("stage", Str (stage b))].

Record AcceptanceEvidence := mkAcceptanceEvidence {
  ac_id : string; evidence_uri : string; evidence_hash : string; verdict : string }.

Definition is_hex_char (c : ascii) : bool := is_digit c || (97 <=? code c)%N && (code c <=? 102)%N.
Definition make_evidence (e : AcceptanceEvidence) : result HbpExn AcceptanceEvidence :=
  if negb (Str.truthy (ac_id e)) || negb (Str.truthy (evidence_uri e)) then
    Err (ValueError "acceptance evidence requires ac_id and evidence_uri")
  else if negb (text_len (evidence_hash e) =? 64)
          || existsb (λ c, negb (is_hex_char c)) (String.list_ascii_of_string (evidence_hash e)) then
    Err (ValueError "evidence_hash must be lowercase SHA-256")
  else if negb (bool_decide (verdict e ∈ ["PASS"; "FAIL"; "UNVERIFIED"])) then
    Err (ValueError "unsupported evidence verdict")
  else Ok e.

Definition evidence_to_dict (e : AcceptanceEvidence) : list (string * json) :=
  [("ac_id", Str (ac_id e)); ("evidence_uri", Str (evidence_uri e));
   ("evidence_hash", Str (evidence_hash e)); ("verdict", Str (verdict e))].

(** ** Receipts *)
Definition receipt_dict := list (string * json).

(** The receipt before its own hash is added. *)
Definition receipt_body (sequence : Z) (binding : HbpBinding) (previous_receipt_hash : string)
    (evidence : list AcceptanceEvidence) (payload_hash : string) (payload : receipt_dict) (observed_at_ns : Z) : receipt_dict :=
  [("schema", Str SCHEMA); ("sequence", Int sequence); ("binding", Obj (binding_to_dict binding));
   ("previous_receipt_hash", Str previous_receipt_hash);
   ("acceptance_evidence", List (map (λ e, Obj (evidence_to_dict e)) evidence));
   ("payload_hash", Str payload_hash); ("payload", Obj payload);
   ("observed_at_ns", Int observed_at_ns); ("local_llm", Bool false)].

Definition build_receipt (sequence : Z) (binding : HbpBinding) (previous_receipt_hash : string)
    (evidence : list AcceptanceEvidence) (payload : receipt_dict) (observed_at_ns : Z) : result HbpExn receipt_dict :=
  if sequence <? 1 then Err (ValueError "sequence must be positive")
  else if negb (text_len previous_receipt_hash =? 64) then Err (ValueError "previous_receipt_hash must be SHA-256")
  else
    let? payload_hash := canonical_sha256 (Obj payload) in
    let receipt := receipt_body sequence binding previous_receipt_hash evidence payload_hash payload observed_at_ns in
    let? h := canonical_sha256 (Obj receipt) in
    Ok (receipt ++ [("receipt_hash", Str h)]).

Definition without_hash (receipt : receipt_dict) : receipt_dict :=
  List.filter (λ kv, negb (String.eqb kv.1 "receipt_hash")) receipt.

(** ** The file *)
Definition lf : ascii := byte 10.
Definition cr : ascii := byte 13.

(** [bytes.splitlines()]; [cur] is the part of a line that was read. *)
Fixpoint splitlines_from (cur : string) (s : string) : list string :=
  match s with
  | EmptyString => if Str.truthy cur then [cur] else []
  | String c s' =>
      if Ascii.eqb c lf then cur :: splitlines_from "" s'
      else if Ascii.eqb c cr then
        cur :: match s' with
               | String d s'' => if Ascii.eqb d lf then splitlines_from "" s'' else splitlines_from "" s'
               | EmptyString => []
               end
      else splitlines_from (cur +:+ String c "") s'
  end.
Definition splitlines (s : string) : list string := splitlines_from "" s.

(** The receipts of the lines, the first of which has the number [n]. *)
Fixpoint read_lines (n : Z) (lines : list string) : list receipt_dict * option string :=
  match lines with
  | [] => ([], None)
  | line :: lines' =>
      match (if utf8_valid line then loads parse_float line else None) with
      | None => ([], Some ("INVALID_JSON_LINE_" +:+ pretty n))
      | Some (Obj d) => let '(rs, e) := read_lines (n + 1) lines' in (d :: rs, e)
      | Some _ => ([], Some ("INVALID_RECEIPT_LINE_" +:+ pretty n))
      end
  end.

Definition read_jsonl (file : option string) : list receipt_dict * option string :=
  match file with
  | None => ([], Some "LEDGER_MISSING")
  | Some raw => read_lines 1 (splitlines raw)
  end.

(** ** Verification *)
Definition evidence_map := list (string * list receipt_dict).
Record Verification := mkVerification {
  status : string; reason_code : string; verified_receipts : Z; head_hash : option string;
  acceptance_evidence : evidence_map }.

Definition binding_reason (actual : receipt_dict) (expected : HbpBinding) : option string :=
  let wanted := binding_to_dict expected in
  let differs field := negb (Val.eq (Val.get field actual) (Val.get field wanted)) in
  if differs "run_id" then Some "CROSS_RUN_ID"
  else if differs "stage" then Some "CROSS_STAGE"
  else if differs "fence" then Some "CROSS_FENCE"
  else if differs "plan_hash" then Some "STALE_PLAN_HASH"
  else if differs "generation" then Some "STALE_GENERATION"
  else if differs "attempt" then Some "STALE_ATTEMPT"
  else None.

Definition required : list string :=
  ["sequence"; "binding"; "previous_receipt_hash"; "acceptance_evidence"; "payload_hash"; "payload";
   "observed_at_ns"; "receipt_hash"].

(** The rows of one receipt, added to the evidence so far; the flag is the
    success of the loop. *)
Fixpoint add_rows (ev : evidence_map) (rows : list json) : evidence_map * bool :=
  match rows with
  | [] => (ev, true)
  | row :: rows' =>
      match row with
      | Obj d =>
          if Val.truthy (Val.get "ac_id" d) then
            let k := Val.str (Val.get "ac_id" d) in
            add_rows (dput k (default [] (dget k ev) ++ [d]) ev) rows'
          else (ev, false)
      | _ => (ev, false)
      end
  end.

(** The checks of one receipt before its evidence is read: the reason it is
    refused for. *)
Definition check_receipt (index : Z) (previous : string) (expected : HbpBinding) (receipt : receipt_dict) : option string :=
  if negb (forallb (λ k, bool_decide (k ∈ receipt.*1)) required) then Some "MISSING_FIELDS"
  else if negb (Val.eq (Val.get "sequence" receipt) (Int index)) then Some "SEQUENCE_MISMATCH"
  else if negb (Val.eq (Val.get "previous_receipt_hash" receipt) (Str previous)) then Some "PREVIOUS_HASH_MISMATCH"
  else match Val.get "binding" receipt with
  | Obj binding =>
      match binding_reason binding expected with
      | Some reason => Some reason
      | None =>
          match canonical_sha256 (Val.get "payload" receipt) with
          | Err _ => Some "CANONICALIZATION_FAILED"
          | Ok payload_hash =>
              if negb (Val.eq (Str payload_hash) (Val.get "payload_hash" receipt)) then Some "PAYLOAD_TAMPERED"
              else match canonical_sha256 (Obj (without_hash receipt)) with
                   | Err _ => Some "CANONICALIZATION_FAILED"
                   | Ok recomputed =>
                       if negb (Val.eq (Str recomputed) (Val.get "receipt_hash" receipt)) then Some "RECEIPT_TAMPERED"
                       else None
                   end
          end
      end
  | _ => Some "BINDING_INVALID"
  end.

Definition invalid (reason : string) (verified : Z) (ev : evidence_map) : Verification :=
  mkVerification "INVALID" reason verified None ev.

(** The loop of [verify_receipts] from the receipt number [index]. *)
Fixpoint verify_from (index : Z) (previous : string) (ev : evidence_map) (expected : HbpBinding)
    (receipts : list receipt_dict) : Verification :=
  match receipts with
  | [] => mkVerification "VERIFIED" "OK" (index - 1) (Some previous) ev
  | receipt :: receipts' =>
      if negb (Val.eq (Val.get "schema" receipt) (Str SCHEMA)) then
        mkVerification "LEGACY" "LEGACY_SCHEMA" (index - 1) None ev
      else match check_receipt index previous expected receipt with
      | Some reason => invalid reason (index - 1) ev
      | None =>
          match Val.get "acceptance_evidence" receipt with
          | List rows =>
              let '(ev', ok) := add_rows ev rows in
              if ok then verify_from (index + 1) (Val.str (Val.get "receipt_hash" receipt)) ev' expected receipts'
              else invalid "EVIDENCE_INVALID" (index - 1) ev'
          | _ => invalid "EVIDENCE_INVALID" (index - 1) ev
          end
      end
  end.

Definition empty_verification : Verification := mkVerification "EMPTY" "NO_RECEIPTS" 0 None [].

Definition verify_receipts (receipts : list receipt_dict) (expected : HbpBinding) : Verification :=
  match receipts with
  | [] => empty_verification
  | _ => verify_from 1 GENESIS_HASH [] expected receipts
  end.

Definition verify_file (file : option string) (expected : HbpBinding) (allow_missing : bool) : Verification :=
  match read_jsonl file with
  | (receipts, Some error) =>
      if allow_missing && String.eqb error "LEDGER_MISSING" then empty_verification
      else invalid error (Z.of_nat (length receipts)) []
  | (receipts, None) => verify_receipts receipts expected
  end.

(** ** [HbpLedger.append]: the new content of the file, and the receipt *)
Definition append (file : option string) (binding : HbpBinding) (evidence : list AcceptanceEvidence)
    (payload : receipt_dict) (observed_at_ns : Z) : result HbpExn (string * receipt_dict) :=
  let verification := verify_file file binding true in
  if negb (bool_decide (status verification ∈ ["VERIFIED"; "EMPTY"])) then Err (HbpAppendError (reason_code verification))
  else
    let '(receipts, _) := read_jsonl file in
    let previous := match last receipts with
                    | Some r => Val.str (Val.get "receipt_hash" r)
                    | None => GENESIS_HASH
                    end in
    let? receipt := build_receipt (Z.of_nat (length receipts) + 1) binding previous evidence payload observed_at_ns in
    let? line := canonical_bytes (Obj receipt) in
    Ok (default "" file +:+ line +:+ String lf "", receipt).

(** ** The completion oracle *)
Record MatrixRow := mkMatrixRow {
  row_ac_id : string; row_status : string; evidence_hashes : list string; evidence_uris : list string }.

Definition passing_row (row : receipt_dict) : bool :=
  Val.eq (Val.get "verdict" row) (Str "PASS")
  && match Val.get "evidence_hash" row with Str h => text_len h =? 64 | _ => false end
  && Val.truthy (Val.get "evidence_uri" row).

Definition matrix_row (ev : evidence_map) (ac : string) : MatrixRow :=
  let passing := List.filter passing_row (default [] (dget ac ev)) in
  {| row_ac_id := ac;
     row_status := if Nat.eqb (length passing) 0 then "MISSING" else "VERIFIED";
     evidence_hashes := sorted_set (map (λ row, Val.str (Val.get "evidence_hash" row)) passing);
     evidence_uris := sorted_set (map (λ row, Val.str (Val.get "evidence_uri" row)) passing) |}.

Record OracleReport := mkOracleReport {
  oracle_verdict : string; oracle_reason : string; acceptance_matrix : list MatrixRow; chain : Verification }.

Definition completion_oracle (receipts : list receipt_dict) (expected : HbpBinding)
    (acceptance_criteria : list string) : OracleReport :=
  let verification := verify_receipts receipts expected in
  let expected_acs := sorted_set (List.filter Str.truthy acceptance_criteria) in
  let matrix := map (matrix_row (acceptance_evidence verification)) expected_acs in
  let '(v, reason) :=
    if String.eqb (status verification) "LEGACY" then ("PARTIAL", "LEGACY_CHAIN")
    else if negb (String.eqb (status verification) "VERIFIED") then ("BLOCKED", reason_code verification)
    else if Nat.eqb (length expected_acs) 0 || existsb (λ r, negb (String.eqb (row_status r) "VERIFIED")) matrix
    then ("PARTIAL", "AC_EVIDENCE_MISSING")
    else ("COMPLETE", "OK") in
  mkOracleReport v reason matrix verification.
End Hbp.

(** * Specification *)
Section Spec.
Context `{Nfc}.

(** Documents that [normalize] leaves as they are. *)
Definition fixed (s : string) : bool := String.eqb (nfc s) s.
Fixpoint normal (v : json) : bool :=
  match v with
  | Float _ => false
  | Str s => fixed s
  | List l => forallb normal l
  | Obj d => bool_decide (NoDup d.*1) && forallb (λ kv, fixed kv.1 && normal kv.2) d
  | _ => true
  end.

(** The inner loops of [normalize], by name. *)
Fixpoint normalize_fields (d acc : list (string * json)) : result HbpExn json :=
  match d with
  | [] => Ok (Obj acc)
  | (key, item) :: d' => let? w := normalize item in normalize_fields d' (dput (nfc key) w acc)
  end.
Fixpoint normalize_items (l : list json) : result HbpExn (list json) :=
  match l with
  | [] => Ok []
  | item :: l' => let? w := normalize item in let? ws := normalize_items l' in Ok (w :: ws)
  end.

(** The items of a document read back: sorted by key. *)
Definition sorted_fields (d : receipt_dict) : receipt_dict := map (λ kv, (kv.1, canon kv.2)) (merge_sort field_le d).

Definition nfc_evidence (e : AcceptanceEvidence) : AcceptanceEvidence :=
  mkAcceptanceEvidence (nfc (ac_id e)) (nfc (evidence_uri e)) (nfc (evidence_hash e)) (nfc (verdict e)).

(** The row of a piece of evidence, as it is read back. *)
Definition written (e : AcceptanceEvidence) : receipt_dict := sorted_fields (evidence_to_dict (nfc_evidence e)).

(** A receipt, as it is read back. *)
Definition read_back (n : Z) (b : HbpBinding) (prev : string) (evs : list AcceptanceEvidence) (ph : string)
    (p : receipt_dict) (obs : Z) (h : string) : receipt_dict :=
  sorted_fields (receipt_body n b prev (map nfc_evidence evs) ph p obs ++ [("receipt_hash", Str h)]).

(** The rows of [evs] for one criterion. *)
Definition rows_for (ac : string) (evs : list AcceptanceEvidence) : list receipt_dict :=
  map written (List.filter (λ e, String.eqb (nfc (ac_id e)) ac) evs).

(** A binding whose texts are in normal form. *)
Definition normal_binding (b : HbpBinding) : bool :=
  forallb fixed [run_id b; plan_hash b; generation b; stage b].

(** A file that ends where a line does. *)
Definition whole_lines (file : string) : Prop := file = "" ∨ ∃ f, file = f +:+ String lf "".

(** The states of the file that one writer at a time makes: the evidence
    written so far and the number of receipts. *)
Inductive ledger (pf : string → Z) (b : HbpBinding) : option string → list AcceptanceEvidence → Z → Prop :=
| ledger_new : ledger pf b None [] 0
| ledger_append file evs n evidence payload obs f r :
    ledger pf b file evs n → Forall (λ e, make_evidence e = Ok e) evidence →
    append pf file b evidence payload obs = Ok (f, r) → ledger pf b (Some f) (evs ++ evidence) (n + 1).

(** What the receipts read from the file amount to. *)
Definition ledger_inv (pf : string → Z) (b : HbpBinding) (file : option string) (evs : list AcceptanceEvidence) (n : Z)
    (rs : list receipt_dict) (prev : string) (ev : evidence_map) : Prop :=
  match file with
  | None => rs = []
  | Some f => whole_lines f ∧ read_lines pf 1 (splitlines f) = (rs, None) ∧ rs ≠ []
  end ∧
  verify_from 1 GENESIS_HASH [] b rs = mkVerification "VERIFIED" "OK" n (Some prev) ev ∧
  n = Z.of_nat (length rs) ∧ is_ascii prev = true ∧ text_len prev = 64 ∧
  match last rs with Some r => Val.str (Val.get "receipt_hash" r) | None => GENESIS_HASH end = prev ∧
  ∀ ac, default [] (dget ac ev) = rows_for ac evs.

(** Two receipts with the same content. *)
Definition same_receipt (r1 r2 : receipt_dict) : Prop :=
  canon (Obj (without_hash r1)) = canon (Obj (without_hash r2)) ∧ Val.get "receipt_hash" r1 = Val.get "receipt_hash" r2.

Definition sha256_collision : Prop := ∃ s t, s ≠ t ∧ Sha256.hexdigest s = Sha256.hexdigest t.
End Spec.

(** Texts in normal form C, for the examples. *)
Definition nfc_id : Nfc := {| nfc s := s; nfc_idemp _ := eq_refl; nfc_ascii _ _ := eq_refl; nfc_empty _ E := E |}.
Definition cafe_decomposed : string := "cafe" +:+ String.string_of_list_ascii (map byte [204; 129]%N).
Definition cafe_composed : string := "caf" +:+ String.string_of_list_ascii (map byte [195; 169]%N).
(** Normalisation of one text, for the examples. *)
Definition nfc_cafe : Nfc.
Proof.
  refine {| nfc s := if String.eqb s cafe_decomposed then cafe_composed else s |}.
  - intros s. destruct (String.eqb s cafe_decomposed) eqn:E; [done|by rewrite E].
  - intros s Hs. destruct (String.eqb_spec s cafe_decomposed) as [->|]; [by vm_compute in Hs|done].
  - intros s. by destruct (String.eqb_spec s cafe_decomposed).
Defined.
Definition float_0 (s : string) : Z := 0.
Definition demo_binding : HbpBinding := mkHbpBinding "run-813" "plan-sha256" "g1" 1 7 "verify".
Definition demo_evidence : AcceptanceEvidence :=
  mkAcceptanceEvidence "AC1" "artifact://pytest/report" (Sha256.hexdigest "report") "PASS".
Definition demo_append (file : option string) : string * receipt_dict :=
  match append (H := nfc_id) float_0 file demo_binding [demo_evidence] [("exit_code", Int 0)] 17 with Ok fr => fr | Err _ => ("", []) end.
Definition demo_file : string := Eval vm_compute in (demo_append None).1.
Definition demo_receipt : receipt_dict := Eval vm_compute in (demo_append None).2.
Definition demo_read : list receipt_dict := Eval vm_compute in (read_jsonl float_0 (Some demo_file)).1.
Definition demo_verification : Verification := Eval vm_compute in verify_receipts (H := nfc_id) demo_read demo_binding.

(** * Lemmas *)
Section Lemmas.
Context `{Nfc} (pf : string → Z).

(** ** Normal form *)
Lemma fixed_nfc s : fixed (nfc s) = true.
Proof. apply String.eqb_eq, nfc_idemp. Qed.
Lemma fixed_ascii s : is_ascii s = true → fixed s = true.
Proof. intros Hs. by apply String.eqb_eq, nfc_ascii. Qed.

Lemma normalize_List l : normalize (List l) = let? l' := normalize_items l in Ok (List l').
Proof. done. Qed.
Lemma normalize_Obj d : normalize (Obj d) = normalize_fields d [].
Proof. done. Qed.

Lemma normal_dput k w d : NoDup d.*1 → fixed k = true → normal w = true →
  forallb (λ kv, fixed kv.1 && normal kv.2) d = true → forallb (λ kv, fixed kv.1 && normal kv.2) (dput k w d) = true.
Proof.
  intros _ Hk Hw. induction d as [|[k' w'] d IH]; cbn [dput forallb fst snd]; [by rewrite Hk, Hw|].
  intros [H1 H2]%andb_true_iff. destruct (String.eqb k' k); cbn [forallb fst snd]; [by rewrite Hk, Hw, H2|].
  by rewrite H1, IH.
Qed.

Lemma normalize_normal v w : normalize v = Ok w → normal w = true.
Proof.
  revert w. induction v as [| | | | |l IH|d IH] using json_nested_ind; intros w; try (intros [= <-]; done).
  - intros [= <-]. apply fixed_nfc.
  - rewrite normalize_List. intros (l' & Hl & [= <-])%rbind_Ok. cbn [normal]. revert l' Hl.
    induction IH as [|x l Hx _ IH]; cbn [normalize_items]; [by intros l' [= <-]|].
    intros l' (y & Hy & (ys & Hys & [= <-])%rbind_Ok)%rbind_Ok. cbn [forallb]. by rewrite (Hx y Hy), (IH ys Hys).
  - rewrite normalize_Obj.
    assert (∀ acc, NoDup acc.*1 → forallb (λ kv, fixed kv.1 && normal kv.2) acc = true →
      normalize_fields d acc = Ok w → normal w = true) as Hgen; [|by apply Hgen; [constructor|]].
    induction IH as [|[k x] d Hx _ IH]; intros acc Hnd Hacc; cbn [normalize_fields].
    + intros [= <-]. cbn [normal]. by rewrite bool_decide_eq_true_2, Hacc.
    + intros (y & Hy & Hw)%rbind_Ok. apply (IH (dput (nfc k) y acc)); [by apply dput_NoDup| |done].
      apply normal_dput; [done|apply fixed_nfc|by apply Hx|done].
Qed.

Lemma normalize_fields_fixed d acc : NoDup (acc.*1 ++ d.*1) →
  Forall (λ kv, fixed kv.1 = true ∧ normalize kv.2 = Ok kv.2) d → normalize_fields d acc = Ok (Obj (acc ++ d)).
Proof.
  intros Hnd Hd. revert acc Hnd. induction Hd as [|[k x] d [Hk Hx] _ IH]; intros acc Hnd; cbn [normalize_fields fst snd] in *.
  { by rewrite app_nil_r. }
  apply String.eqb_eq in Hk. rewrite Hx. cbn [rbind]. rewrite Hk.
  assert (k ∉ acc.*1) as Hin.
  { apply NoDup_app in Hnd as (_ & Hnd & _). intros Hin. apply (Hnd k Hin). by left. }
  rewrite dput_new by done. rewrite IH; [by rewrite <- app_assoc|]. by rewrite fmap_app, <- app_assoc.
Qed.

Lemma normal_normalize w : normal w = true → normalize w = Ok w.
Proof.
  induction w as [| | | | |l IH|d IH] using json_nested_ind; intros Hn; try done.
  - cbn. by apply String.eqb_eq in Hn as ->.
  - rewrite normalize_List. cbn [normal] in Hn. assert (normalize_items l = Ok l) as ->; [|done].
    induction IH as [|x l Hx _ IH]; [done|]. cbn [forallb] in Hn. apply andb_true_iff in Hn as [H1 H2].
    cbn [normalize_items]. by rewrite (Hx H1), (IH H2).
  - rewrite normalize_Obj. cbn [normal] in Hn. apply andb_true_iff in Hn as [Hnd%bool_decide_eq_true_1 Hn].
    rewrite normalize_fields_fixed; [done|done|]. rewrite forallb_Forall in Hn. rewrite Forall_forall in *.
    intros kv Hkv. destruct (proj1 (andb_true_iff _ _) (Hn kv Hkv)). split; [done|auto].
Qed.

Lemma normal_plain w : normal w = true → plain w = true.
Proof.
  induction w as [| | | | |l IH|d IH] using json_nested_ind; try done; cbn [normal plain].
  - rewrite !forallb_Forall, !Forall_forall in *. auto.
  - intros [-> Hn]%andb_true_iff. cbn [andb]. rewrite forallb_Forall, Forall_forall in *. intros kv Hkv.
    apply IH; [done|]. by destruct (proj1 (andb_true_iff _ _) (Hn kv Hkv)).
Qed.

Lemma normal_canon w : normal w = true → normal (canon w) = true.
Proof.
  induction w as [| | | | |l IH|d IH] using json_nested_ind; try done; intros Hn.
  - cbn [normal canon] in *. rewrite forallb_Forall in *. change @map with (@fmap list list_fmap). rewrite Forall_fmap.
    rewrite Forall_forall in *. cbn. auto.
  - rewrite canon_Obj. cbn [normal] in *. apply andb_true_iff in Hn as [Hnd%bool_decide_eq_true_1 Hn].
    rewrite map_canon_keys. rewrite bool_decide_eq_true_2 by (by rewrite (merge_sort_Permutation field_le)). cbn [andb].
    rewrite forallb_Forall in *. change @map with (@fmap list list_fmap). rewrite Forall_fmap. apply Forall_sorted.
    rewrite Forall_forall in *. intros kv Hkv. destruct (proj1 (andb_true_iff _ _) (Hn kv Hkv)) as [H1 H2].
    apply andb_true_iff. split; [done|]. cbn. auto.
Qed.

(** ** Canonical bytes *)
Lemma canonical_bytes_Ok v b : canonical_bytes v = Ok b ↔
  ∃ w, normalize v = Ok w ∧ b = dumps false w ∧ utf8_valid b = true.
Proof.
  unfold canonical_bytes. rewrite rbind_Ok. split.
  - intros (w & Hw & Hb). destruct (utf8_valid (dumps false w)) eqn:E; [|done]. injection Hb as <-. by exists w.
  - intros (w & Hw & -> & Hv). exists w. by rewrite Hv.
Qed.

(** What is read back has the same canonical bytes. *)
Lemma canonical_bytes_canon v w b :
  normalize v = Ok w → canonical_bytes v = Ok b → canonical_bytes (canon w) = Ok b.
Proof.
  intros Hw (w' & Hw' & -> & Hb)%canonical_bytes_Ok. rewrite Hw in Hw'. injection Hw' as <-.
  pose proof (normalize_normal v w Hw) as Hn. apply canonical_bytes_Ok. exists (canon w).
  split; [by apply normal_normalize, normal_canon|]. by rewrite dumps_canon by by apply normal_plain.
Qed.

Lemma loads_canonical v w b : normalize v = Ok w → canonical_bytes v = Ok b → loads pf b = Some (canon w).
Proof.
  intros Hw (w' & Hw' & -> & Hb)%canonical_bytes_Ok. rewrite Hw in Hw'. injection Hw' as <-.
  apply loads_dumps, normal_plain. by eapply normalize_normal.
Qed.

Lemma canonical_sha256_Ok v h : canonical_sha256 v = Ok h ↔ ∃ b, canonical_bytes v = Ok b ∧ h = Sha256.hexdigest b.
Proof. unfold canonical_sha256. rewrite rbind_Ok. split; [intros (b & Hb & [= <-])|intros (b & Hb & ->)]; by exists b. Qed.

Lemma canonical_sha256_canon v w h :
  normalize v = Ok w → canonical_sha256 v = Ok h → canonical_sha256 (canon w) = Ok h.
Proof.
  intros Hw (b & Hb & ->)%canonical_sha256_Ok. apply canonical_sha256_Ok. exists b. split; [|done].
  by eapply canonical_bytes_canon.
Qed.
End Lemmas.

Section Chain.
Context `{Nfc} (pf : string → Z).

(** ** Digests *)
Lemma hex_bytes_ascii bs : Forall (λ b, 0 <= b <= 255)%Z bs →
  forallb is_hex_char (String.list_ascii_of_string (Sha256.hex_bytes bs)) = true ∧
  length (String.list_ascii_of_string (Sha256.hex_bytes bs)) = (2 * length bs)%nat.
Proof.
  assert (Forall (λ b, forallb is_hex_char [Sha256.hex_digit (Z.shiftr b 4); Sha256.hex_digit (Z.land b 15)] = true) (seqZ 0 256)) as Hall
    by by_compute.
  intros Hbs. unfold Sha256.hex_bytes. rewrite String.list_ascii_of_string_of_list_ascii.
  induction Hbs as [|b bs Hb _ [IH1 IH2]]; [done|].
  change (mjoin (map ?f (b :: bs))) with (f b ++ mjoin (map f bs)). rewrite forallb_app, IH1, andb_true_r. split.
  - rewrite Forall_forall in Hall. apply Hall, elem_of_seqZ. lia.
  - rewrite length_app, IH2. cbn [length]. lia.
Qed.

Lemma hex_char_ascii c : is_hex_char c = true → (code c <? 128)%N = true ∧ negb (cont 128 191 c) = true.
Proof.
  intros Hc. unfold is_hex_char, is_digit in Hc. unfold cont.
  rewrite N.ltb_lt, negb_true_iff, andb_false_iff, !N.leb_gt.
  apply orb_true_iff in Hc as [[_ Hc%N.leb_le]%andb_true_iff|[_ Hc%N.leb_le]%andb_true_iff]; lia.
Qed.

Lemma hex_text s : forallb is_hex_char (String.list_ascii_of_string s) = true →
  is_ascii s = true ∧ text_len s = Z.of_nat (length (String.list_ascii_of_string s)).
Proof.
  intros Hs. rewrite forallb_forall in Hs. unfold is_ascii, text_len. split.
  - apply forallb_forall. intros c Hc. by destruct (hex_char_ascii c (Hs c Hc)).
  - rewrite Listfilter_all; [done|]. intros c Hc%list_elem_of_In. by destruct (hex_char_ascii c (Hs c Hc)).
Qed.

Lemma hexdigest_text s : is_ascii (Sha256.hexdigest s) = true ∧ text_len (Sha256.hexdigest s) = 64%Z.
Proof.
  destruct (hex_bytes_ascii (Sha256.sha256 (Sha256.bytes_of_string s)) (Sha256.sha256_bytes _)) as [H1 H2].
  destruct (hex_text _ H1) as [H3 H4]. split; [done|]. unfold Sha256.hexdigest. rewrite H4, H2, Sha256.sha256_length. done.
Qed.

(** ** Documents read back *)
Lemma canon_Obj_sorted d : canon (Obj d) = Obj (sorted_fields d).
Proof. apply canon_Obj. Qed.

Lemma sorted_fields_keys d : (sorted_fields d).*1 ≡ₚ d.*1.
Proof. unfold sorted_fields. rewrite map_canon_keys. by rewrite (merge_sort_Permutation field_le). Qed.

Lemma dget_sorted k d : NoDup d.*1 → dget k (sorted_fields d) = canon <$> dget k d.
Proof.
  intros Hnd. destruct (dget k d) as [v|] eqn:E.
  - cbn [fmap option_fmap]. apply elem_of_dget; [by rewrite sorted_fields_keys|]. unfold sorted_fields.
    change @map with (@fmap list list_fmap). apply list_elem_of_fmap. exists (k, v). split; [done|].
    rewrite (merge_sort_Permutation field_le). by apply dget_Some_pair.
  - cbn. apply dget_None. rewrite sorted_fields_keys. by apply dget_None.
Qed.

Lemma get_sorted k d : NoDup d.*1 → Val.get k (sorted_fields d) = canon (Val.get k d).
Proof. intros Hnd. unfold Val.get. rewrite dget_sorted by done. by destruct (dget k d). Qed.

(** The last key taken out of a sorted document again. *)
Lemma ddel_sorted key d h : NoDup (d.*1 ++ [key]) → ddel key (sorted_fields (d ++ [(key, h)])) = sorted_fields d.
Proof.
  intros Hnd. unfold ddel, sorted_fields. set (p := λ kv : string * json, negb (String.eqb kv.1 key)).
  assert (∀ l : receipt_dict, List.filter p (map (λ kv, (kv.1, canon kv.2)) l) = map (λ kv, (kv.1, canon kv.2)) (List.filter p l)) as ->.
  { induction l as [|kv l IH]; [done|]. cbn [List.filter map]. change (p (kv.1, canon kv.2)) with (p kv).
    destruct (p kv); cbn [map]; by rewrite IH. }
  f_equal. pose proof Hnd as (Hd & Hdis & _)%NoDup_app.
  assert (List.filter p (d ++ [(key, h)]) = d) as Hf.
  { rewrite List.filter_app. cbn [List.filter]. unfold p at 2. cbn [fst]. rewrite String.eqb_refl. cbn [negb]. rewrite app_nil_r. apply Listfilter_all. intros kv Hkv. unfold p.
    apply negb_true_iff, String.eqb_neq. intros E. apply (Hdis kv.1); [by apply list_elem_of_fmap_2|]. rewrite E. by left. }
  apply field_sorted_unique.
  - transitivity d; [|symmetry; apply (merge_sort_Permutation field_le)]. rewrite <- Hf at 2.
    apply Listfilter_Permutation, merge_sort_Permutation.
  - apply NoDup_Listfilter_fmap. rewrite (merge_sort_Permutation field_le). by rewrite fmap_app.
  - apply StronglySorted_Listfilter. apply (StronglySorted_merge_sort field_le).
  - apply (StronglySorted_merge_sort field_le).
Qed.

Lemma without_hash_sorted d h : NoDup (d.*1 ++ ["receipt_hash"]) →
  without_hash (sorted_fields (d ++ [("receipt_hash", h)])) = sorted_fields d.
Proof. apply ddel_sorted. Qed.

(** ** Lines *)
Lemma splitlines_from_app cur f r :
  splitlines_from cur (f +:+ String lf r) = splitlines_from cur (f +:+ String lf "") ++ splitlines r.
Proof.
  remember (String.length f) as n eqn:Hn. revert f cur Hn. induction (lt_wf n) as [n _ IH]. intros f cur ->.
  destruct f as [|c f].
  - reflexivity.
  - rewrite !sapp_cons. cbn [splitlines_from]. destruct (Ascii.eqb c lf).
    { cbn [app]. f_equal. apply (IH (String.length f)); [cbn; lia|done]. }
    destruct (Ascii.eqb c cr); [|apply (IH (String.length f)); [cbn; lia|done]].
    destruct f as [|d f].
    + reflexivity.
    + rewrite !sapp_cons. cbn [app]. f_equal. destruct (Ascii.eqb d lf); [apply (IH (String.length f)); [cbn; lia|done]|].
      rewrite <- !sapp_cons. apply (IH (String.length (String d f))); [cbn; lia|done].
Qed.

Lemma splitlines_line cur line : printable line = true →
  splitlines_from cur (line +:+ String lf "") = [cur +:+ line].
Proof.
  revert cur. induction line as [|c line IH]; intros cur Hp.
  - rewrite sapp_nil. reflexivity.
  - unfold printable in *. cbn [String.list_ascii_of_string forallb] in Hp. apply andb_true_iff in Hp as [Hc Hp].
    rewrite sapp_cons. cbn [splitlines_from].
    destruct (Ascii.eqb_spec c lf) as [->|_]; [done|]. destruct (Ascii.eqb_spec c cr) as [->|_]; [done|].
    rewrite IH by done. by rewrite sapp_assoc.
Qed.

Lemma splitlines_append file line : whole_lines file → printable line = true →
  splitlines (file +:+ line +:+ String lf "") = splitlines file ++ [line].
Proof.
  intros [->|[f ->]] Hp; [by apply (splitlines_line "")|]. unfold splitlines at 1.
  rewrite sapp_assoc, sapp_cons. change (EmptyString +:+ ?x) with x. rewrite splitlines_from_app. f_equal. by apply (splitlines_line "").
Qed.

Lemma read_lines_snoc n lines line rs d : read_lines pf n lines = (rs, None) →
  utf8_valid line = true → loads pf line = Some (Obj d) → read_lines pf n (lines ++ [line]) = (rs ++ [d], None).
Proof.
  revert n rs. induction lines as [|l lines IH]; intros n rs Hr Hu Hl.
  - injection Hr as <-. cbn. by rewrite Hu, Hl.
  - cbn [read_lines app] in *. destruct (if utf8_valid l then loads pf l else None) as [[]|]; try done.
    destruct (read_lines pf (n + 1) lines) as [rs' e'] eqn:E. injection Hr as <- ->.
    by rewrite (IH (n + 1)%Z rs' E Hu Hl).
Qed.

(** ** Chains *)
Lemma verify_from_app i prev ev b rs rs' n h ev' :
  verify_from i prev ev b rs = mkVerification "VERIFIED" "OK" n (Some h) ev' →
  verify_from i prev ev b (rs ++ rs') = verify_from (n + 1) h ev' b rs'.
Proof.
  revert i prev ev. induction rs as [|x rs IH]; intros i prev ev Hv.
  - cbn [verify_from] in Hv. injection Hv as <- <- <-. cbn [app]. by replace (i - 1 + 1) with i by lia.
  - cbn [app]. cbn [verify_from] in Hv |- *. destruct (negb _); [done|].
    destruct (check_receipt i prev b x); [done|]. destruct (Val.get "acceptance_evidence" x); try done.
    destruct (add_rows ev l) as [ev1 []]; [|done]. by apply IH.
Qed.

Lemma verify_from_count i prev ev b rs n h ev' :
  verify_from i prev ev b rs = mkVerification "VERIFIED" "OK" n (Some h) ev' → n = i - 1 + Z.of_nat (length rs).
Proof.
  revert i prev ev. induction rs as [|x rs IH]; intros i prev ev Hv.
  - cbn [verify_from] in Hv. injection Hv as <- <- <-. cbn. lia.
  - cbn [verify_from] in Hv. destruct (negb _); [done|].
    destruct (check_receipt i prev b x); [done|]. destruct (Val.get "acceptance_evidence" x); try done.
    destruct (add_rows ev l) as [ev1 []]; [|done]. apply IH in Hv. cbn [length]. lia.
Qed.

Lemma add_rows_written ev evs : Forall (λ e, ac_id e ≠ "") evs →
  ∃ ev', add_rows ev (map (λ e, Obj (written e)) evs) = (ev', true) ∧
         ∀ ac, default [] (dget ac ev') = default [] (dget ac ev) ++ rows_for ac evs.
Proof.
  intros He. revert ev. induction He as [|e evs He _ IH]; intros ev.
  { exists ev. split; [done|]. intros ac. by rewrite app_nil_r. }
  assert (Val.get "ac_id" (written e) = Str (nfc (ac_id e))) as Hg.
  { unfold written. rewrite get_sorted; [done|]. by_compute. }
  cbn [map add_rows]. rewrite Hg. cbv zeta. cbn [Val.truthy Val.str].
  rewrite (proj2 (Str.truthy_ne _)) by (intros E%nfc_empty; done).
  destruct (IH (dput (nfc (ac_id e)) (default [] (dget (nfc (ac_id e)) ev) ++ [written e]) ev)) as (ev' & E & Hev').
  exists ev'. split; [exact E|]. intros ac. rewrite Hev', dget_put. unfold rows_for. cbn [List.filter].
  destruct (String.eqb_spec (nfc (ac_id e)) ac) as [->|Hne].
  - rewrite decide_True by done. cbn [default map]. symmetry. apply (app_assoc _ [written e]).
  - by rewrite decide_False by done.
Qed.
End Chain.

Section Ledger.
#[local] Arguments dget _ _ _ /.
Context `{Nfc} (pf : string → Z).

(** ** One receipt, written and read back *)
Lemma normalize_fields_map d d' : NoDup d'.*1 → Forall2 (λ x y, nfc x.1 = y.1 ∧ normalize x.2 = Ok y.2) d d' →
  normalize (Obj d) = Ok (Obj d').
Proof.
  intros Hnd Hd. rewrite normalize_Obj. change d' with ([] ++ d'). assert (NoDup (([] : receipt_dict).*1 ++ d'.*1)) as Hnd' by done.
  clear Hnd. revert Hnd'. generalize (@nil (string * json)) as acc. induction Hd as [|[k x] [k' y] d d' [Hk Hx] _ IH]; intros acc Hnd.
  { by rewrite app_nil_r. }
  cbn [normalize_fields fst snd] in *. rewrite Hx, Hk. cbn [rbind].
  assert (k' ∉ acc.*1) as Hin.
  { apply NoDup_app in Hnd as (_ & Hnd & _). intros Hin. apply (Hnd k' Hin). by left. }
  rewrite dput_new by done. rewrite IH; [by rewrite <- app_assoc|]. by rewrite fmap_app, <- app_assoc.
Qed.

Lemma normalize_Obj_inv d w : normalize (Obj d) = Ok w → ∃ d', w = Obj d'.
Proof.
  rewrite normalize_Obj. generalize (@nil (string * json)) as acc. induction d as [|[k x] d IH]; intros acc; cbn [normalize_fields].
  - intros [= <-]. by eexists.
  - intros (y & _ & Hy)%rbind_Ok. by eapply IH.
Qed.

Lemma normalize_evidence evs :
  normalize (List (map (λ e, Obj (evidence_to_dict e)) evs)) = Ok (List (map (λ e, Obj (evidence_to_dict (nfc_evidence e))) evs)).
Proof.
  rewrite normalize_List. assert (normalize_items (map (λ e, Obj (evidence_to_dict e)) evs) =
    Ok (map (λ e, Obj (evidence_to_dict (nfc_evidence e))) evs)) as ->; [|done].
  induction evs as [|e evs IH]; [done|]. cbn [map normalize_items]. rewrite IH.
  rewrite (normalize_fields_map _ (evidence_to_dict (nfc_evidence e))); [done|by_compute|].
  repeat constructor; try (by apply nfc_ascii).
Qed.

Lemma normalize_binding b : normal_binding b = true → normalize (Obj (binding_to_dict b)) = Ok (Obj (binding_to_dict b)).
Proof.
  intros Hb. unfold normal_binding in Hb. cbn [forallb] in Hb. rewrite !andb_true_iff in Hb.
  destruct Hb as (H1%String.eqb_eq & H2%String.eqb_eq & H3%String.eqb_eq & H4%String.eqb_eq & _).
  apply normalize_fields_map; [by_compute|]. repeat constructor; cbn [fst snd normalize]; rewrite ?H1, ?H2, ?H3, ?H4;
    try done; by apply nfc_ascii.
Qed.

Lemma normalize_body n b prev evs ph payload p obs :
  normal_binding b = true → is_ascii prev = true → is_ascii ph = true → normalize (Obj payload) = Ok (Obj p) →
  Forall2 (λ x y, nfc x.1 = y.1 ∧ normalize x.2 = Ok y.2)
    (receipt_body n b prev evs ph payload obs) (receipt_body n b prev (map nfc_evidence evs) ph p obs).
Proof.
  intros Hb Hprev Hph Hp. unfold receipt_body. rewrite map_map.
  repeat constructor; cbn [fst snd]; try (by apply nfc_ascii); try apply normalize_evidence; try (by apply normalize_binding); try done;
    cbn [normalize]; do 2 f_equal; by apply nfc_ascii.
Qed.

Lemma body_keys n b prev evs ph payload obs : NoDup (receipt_body n b prev evs ph payload obs).*1.
Proof. by_compute. Qed.
Lemma receipt_keys n b prev evs ph payload obs : NoDup ((receipt_body n b prev evs ph payload obs).*1 ++ ["receipt_hash"]).
Proof. by_compute. Qed.
Lemma receipt_keys' n b prev evs ph payload obs h : NoDup (receipt_body n b prev evs ph payload obs ++ [("receipt_hash", h)]).*1.
Proof. by_compute. Qed.

Lemma binding_reason_written b : binding_reason (sorted_fields (binding_to_dict b)) b = None.
Proof.
  assert (∀ k, Val.get k (sorted_fields (binding_to_dict b)) = canon (Val.get k (binding_to_dict b))) as Hg.
  { intros k. apply get_sorted. by_compute. }
  unfold binding_reason. rewrite !Hg. cbn. by rewrite !String.eqb_refl, !Z.eqb_refl.
Qed.

Lemma canonical_sha256_text v h : canonical_sha256 v = Ok h → is_ascii h = true ∧ text_len h = 64.
Proof. intros (s & _ & ->)%canonical_sha256_Ok. apply hexdigest_text. Qed.

Section Written.
Context (n : Z) (b : HbpBinding) (prev : string) (evs : list AcceptanceEvidence) (ph : string) (payload p : receipt_dict)
        (obs : Z) (h : string).
Context (Hb : normal_binding b = true) (Hprev : is_ascii prev = true).
Context (Hp : normalize (Obj payload) = Ok (Obj p)) (Hph : canonical_sha256 (Obj payload) = Ok ph).
Context (Hh : canonical_sha256 (Obj (receipt_body n b prev evs ph payload obs)) = Ok h).

Notation read_back := (read_back n b prev evs ph p obs h).

Lemma normalize_receipt :
  normalize (Obj (receipt_body n b prev evs ph payload obs ++ [("receipt_hash", Str h)])) =
  Ok (Obj (receipt_body n b prev (map nfc_evidence evs) ph p obs ++ [("receipt_hash", Str h)])).
Proof using Hb Hprev Hp Hph Hh.
  apply normalize_fields_map; [apply receipt_keys'|]. apply Forall2_app.
  - apply normalize_body; [done|done|apply (canonical_sha256_text _ _ Hph)|done].
  - repeat constructor; cbn [fst snd]; [by apply nfc_ascii|]. cbn [normalize]. do 2 f_equal. apply nfc_ascii, (canonical_sha256_text _ _ Hh).
Qed.

Lemma get_read_back k : Val.get k read_back =
  canon (Val.get k (receipt_body n b prev (map nfc_evidence evs) ph p obs ++ [("receipt_hash", Str h)])).
Proof. apply get_sorted, receipt_keys'. Qed.

Lemma rehash : canonical_sha256 (Obj (without_hash read_back)) = Ok h.
Proof using Hb Hprev Hp Hph Hh.
  unfold read_back. rewrite without_hash_sorted by apply receipt_keys.
  rewrite <- canon_Obj_sorted. eapply canonical_sha256_canon; [|exact Hh].
  apply normalize_fields_map; [apply body_keys|].
  apply normalize_body; [done|done|apply (canonical_sha256_text _ _ Hph)|done].
Qed.

Lemma check_read_back : check_receipt n prev b read_back = None.
Proof using Hb Hprev Hp Hph Hh.
  unfold check_receipt.
  assert (forallb (λ k, bool_decide (k ∈ read_back.*1)) required = true) as ->.
  { apply forallb_forall. intros k Hk. apply bool_decide_eq_true_2. unfold read_back. rewrite sorted_fields_keys.
    revert k Hk. apply List.Forall_forall. by_compute. }
  cbn [negb]. rewrite !get_read_back, rehash.
  unfold receipt_body, Val.get. cbn -[binding_reason canonical_sha256 canon binding_to_dict].
  rewrite (canon_Obj_sorted (binding_to_dict b)).
  rewrite binding_reason_written. rewrite (canonical_sha256_canon _ _ _ Hp Hph).
  cbn. by rewrite !String.eqb_refl, !Z.eqb_refl.
Qed.

Lemma verify_read_back ev : Forall (λ e, ac_id e ≠ "") evs →
  ∃ ev', verify_from n prev ev b [read_back] = mkVerification "VERIFIED" "OK" n (Some h) ev' ∧
         ∀ ac, default [] (dget ac ev') = default [] (dget ac ev) ++ rows_for ac evs.
Proof using Hb Hprev Hp Hph Hh.
  intros He. destruct (add_rows_written ev evs He) as (ev' & E & Hev'). exists ev'. split; [|done].
  cbn [verify_from]. rewrite check_read_back, !get_read_back.
  unfold receipt_body, Val.get. cbn -[add_rows canon].
  change (canon (Str ?s)) with (Str s). cbn [Val.eq negb]. rewrite String.eqb_refl. cbn [negb].
  assert (canon (List (map (λ e, Obj (evidence_to_dict e)) (map nfc_evidence evs))) = List (map (λ e, Obj (written e)) evs)) as ->.
  { cbn [canon]. rewrite !map_map. f_equal. }
  rewrite E. cbn [Val.str]. by replace (n + 1 - 1) with n by lia.
Qed.
End Written.
End Ledger.

(** ** The states of the file *)
Section States.
Context `{Nfc} (pf : string → Z).

Lemma make_evidence_ac e : make_evidence e = Ok e → ac_id e ≠ "".
Proof.
  unfold make_evidence. intros He E. rewrite E in He. done.
Qed.

Lemma ledger_inv_read b file evs n rs prev ev : ledger_inv pf b file evs n rs prev ev →
  read_jsonl pf file = (rs, match file with None => Some "LEDGER_MISSING" | Some _ => None end) ∧
  verify_file pf file b true = (if n =? 0 then empty_verification else mkVerification "VERIFIED" "OK" n (Some prev) ev).
Proof.
  intros (Hf & Hv & -> & _). destruct file as [f|].
  - destruct Hf as (_ & Hr & Hne). unfold verify_file. cbn [read_jsonl]. rewrite Hr. split; [done|].
    unfold verify_receipts. destruct rs; [done|]. cbn [length] in *. rewrite Hv.
    by destruct (Z.eqb_spec (Z.of_nat (S (length rs))) 0); [lia|].
  - by rewrite Hf.
Qed.

(** [append] on such a file: it is refused only for what cannot be encoded. *)
Lemma append_eq b file evs n rs prev ev evidence payload obs : ledger_inv pf b file evs n rs prev ev →
  append pf file b evidence payload obs =
  (let? ph := canonical_sha256 (Obj payload) in
   let? h := canonical_sha256 (Obj (receipt_body (n + 1) b prev evidence ph payload obs)) in
   let receipt := receipt_body (n + 1) b prev evidence ph payload obs ++ [("receipt_hash", Str h)] in
   let? line := canonical_bytes (Obj receipt) in
   Ok (default "" file +:+ line +:+ String lf "", receipt)).
Proof.
  intros Hinv. destruct (ledger_inv_read _ _ _ _ _ _ _ Hinv) as [Hr Hvf]. destruct Hinv as (_ & _ & Hn & _ & Hl & Hlast & _).
  unfold append. rewrite Hvf, Hr. replace (bool_decide _) with true.
  2: { symmetry. apply bool_decide_eq_true_2. destruct (n =? 0); cbn; set_solver. }
  cbn [negb]. rewrite Hlast, <- Hn. unfold build_receipt. rewrite (proj2 (Z.ltb_ge _ _)) by lia. rewrite Hl. cbn [Z.eqb negb].
  destruct (canonical_sha256 (Obj payload)) as [ph|]; [|done]. cbn [rbind].
  by destruct (canonical_sha256 (Obj (receipt_body (n + 1) b prev evidence ph payload obs))) as [h|].
Qed.

Lemma ledger_inv_append b file evs n rs prev ev evidence payload obs f r :
  normal_binding b = true → Forall (λ e, make_evidence e = Ok e) evidence →
  ledger_inv pf b file evs n rs prev ev → append pf file b evidence payload obs = Ok (f, r) →
  ∃ d h ev', ledger_inv pf b (Some f) (evs ++ evidence) (n + 1) (rs ++ [d]) h ev' ∧ dget "receipt_hash" r = Some (Str h).
Proof.
  intros Hb He Hinv Ha. rewrite (append_eq _ _ _ _ _ _ _ _ _ _ Hinv) in Ha.
  apply rbind_Ok in Ha as (ph & Hph & (h & Hh & (line & Hline & [= <- <-])%rbind_Ok)%rbind_Ok).
  destruct Hinv as (Hf & Hv & Hn & Hasc & Hlen & Hlast & Hev).
  pose proof (proj1 (canonical_sha256_Ok _ _) Hph) as (bp & (wp & Hwp & _)%canonical_bytes_Ok & _).
  destruct (normalize_Obj_inv _ _ Hwp) as (p & ->).
  assert (Forall (λ e, ac_id e ≠ "") evidence) as Hac by (eapply Forall_impl; [exact He|exact make_evidence_ac]).
  destruct (verify_read_back (n + 1) b prev evidence ph payload p obs h Hb Hasc Hwp Hph Hh ev Hac) as (ev' & Hv' & Hev').
  pose proof (normalize_receipt (n + 1) b prev evidence ph payload p obs h Hb Hasc Hwp Hph Hh) as Hnr.
  pose proof (loads_canonical pf _ _ _ Hnr Hline) as Hload. rewrite canon_Obj_sorted in Hload.
  pose proof (proj1 (canonical_bytes_Ok _ _) Hline) as (wl & _ & Hdl & Hul).
  exists (read_back (n + 1) b prev evidence ph p obs h), h, ev'. split.
  - split; [|split; [|split; [|split; [|split; [|split]]]]].
    + assert (printable line = true) as Hpl by (rewrite Hdl; apply printable_dumps).
      assert (whole_lines (default "" file)) as Hw by (destruct file; [apply Hf|by left]).
      split; [right; exists (default "" file +:+ line); by rewrite sapp_assoc|]. split; [|by destruct rs].
      rewrite splitlines_append by done. apply read_lines_snoc; [|done|done].
      destruct file; cbn [default] in *; [apply Hf|by rewrite Hf].
    + rewrite (verify_from_app _ _ _ _ _ _ _ _ _ Hv). exact Hv'.
    + rewrite length_app. cbn [length]. lia.
    + apply (canonical_sha256_text _ _ Hh).
    + apply (canonical_sha256_text _ _ Hh).
    + rewrite last_snoc, get_read_back. done.
    + intros ac. rewrite Hev', Hev. unfold rows_for. by rewrite List.filter_app, map_app.
  - done.
Qed.

Lemma ledger_inv_reachable b file evs n : normal_binding b = true → ledger pf b file evs n →
  ∃ rs prev ev, ledger_inv pf b file evs n rs prev ev.
Proof.
  intros Hb. induction 1 as [|file evs n evidence payload obs f r _ (rs & prev & ev & IH) He Ha].
  - exists [], GENESIS_HASH, []. done.
  - destruct (ledger_inv_append _ _ _ _ _ _ _ _ _ _ _ _ Hb He IH Ha) as (d & h & ev' & Hinv & _). by exists (rs ++ [d]), h, ev'.
Qed.

Lemma normalize_exn v x : normalize v = Err x → x = TypeError.
Proof.
  revert x. induction v as [| | | | |l IH|d IH] using json_nested_ind; intros x; try done.
  - by intros [= <-].
  - rewrite normalize_List. destruct (normalize_items l) as [|e] eqn:E; [done|]. cbn [rbind]. intros [= <-]. revert e E.
    induction IH as [|y l Hy _ IH]; [done|]. cbn [normalize_items]. destruct (normalize y) as [w|e1] eqn:E1; cbn [rbind].
    + destruct (normalize_items l) as [ws|e2]; [done|]. cbn [rbind]. intros e [= <-]. by apply IH.
    + intros e [= <-]. by apply Hy.
  - rewrite normalize_Obj. generalize (@nil (string * json)) as acc. induction IH as [|[k y] d Hy _ IH]; intros acc; [done|].
    cbn [normalize_fields]. destruct (normalize y) as [w|e1] eqn:E1; cbn [rbind]; [apply IH|]. intros [= <-]. by apply Hy.
Qed.

Lemma canonical_sha256_exn v x : canonical_sha256 v = Err x → x = TypeError ∨ x = UnicodeEncodeError.
Proof.
  unfold canonical_sha256, canonical_bytes. destruct (normalize v) as [w|e] eqn:E; cbn [rbind].
  - destruct (utf8_valid _); [done|]. intros [= <-]. by right.
  - intros [= <-]. left. by eapply normalize_exn.
Qed.

Lemma canonical_bytes_exn v x : canonical_bytes v = Err x → x = TypeError ∨ x = UnicodeEncodeError.
Proof. intros Hx. apply (canonical_sha256_exn v). unfold canonical_sha256. by rewrite Hx. Qed.
End States.

(** ** Two writers *)
Section Race.
Context `{Nfc} (pf : string → Z).

Lemma verify_receipts_ne rs b : rs ≠ [] → verify_receipts rs b = verify_from 1 GENESIS_HASH [] b rs.
Proof. by destruct rs. Qed.

(** A receipt with a number that is not the next one ends the verification. *)
Lemma verify_wrong_sequence n prev ev b rs r v :
  verify_from 1 GENESIS_HASH [] b rs = mkVerification "VERIFIED" "OK" n (Some prev) ev →
  Val.get "schema" r = Str SCHEMA → forallb (λ k, bool_decide (k ∈ r.*1)) required = true →
  Val.get "sequence" r = Int v → v ≠ n + 1 →
  ∀ rs', verify_from 1 GENESIS_HASH [] b (rs ++ r :: rs') = invalid "SEQUENCE_MISMATCH" n ev.
Proof.
  intros Hv Hs Hreq Hq Hne rs'.
  rewrite (verify_from_app _ _ _ _ _ _ _ _ _ Hv). cbn [verify_from]. rewrite Hs. cbn [Val.eq]. rewrite String.eqb_refl. cbn [negb].
  unfold check_receipt. rewrite Hreq, Hq. cbn [negb Val.eq Val.number]. rewrite (proj2 (Z.eqb_neq _ _)) by done.
  cbn [negb]. by replace (n + 1 - 1) with n by lia.
Qed.

(** Two processes verify the same file and append to it, one after the other:
    both appends succeed, and the file is invalid from then on. *)
Lemma concurrent_appends_break b file evs n evidence1 payload1 obs1 f1 r1 evidence2 payload2 obs2 f2 r2 line2 :
  normal_binding b = true → ledger pf b file evs n →
  Forall (λ e, make_evidence e = Ok e) evidence1 → Forall (λ e, make_evidence e = Ok e) evidence2 →
  append pf file b evidence1 payload1 obs1 = Ok (f1, r1) →
  append pf file b evidence2 payload2 obs2 = Ok (f2, r2) → canonical_bytes (Obj r2) = Ok line2 →
  f2 = default "" file +:+ line2 +:+ String lf "" ∧
  (status (verify_file pf (Some (f1 +:+ line2 +:+ String lf "")) b true) = "INVALID" ∧
   reason_code (verify_file pf (Some (f1 +:+ line2 +:+ String lf "")) b true) = "SEQUENCE_MISMATCH") ∧
  ∀ evidence payload obs,
    append pf (Some (f1 +:+ line2 +:+ String lf "")) b evidence payload obs = Err (HbpAppendError "SEQUENCE_MISMATCH").
Proof.
  intros Hb Hl He1 He2 Ha1 Ha2 Hline2.
  destruct (ledger_inv_reachable pf _ _ _ _ Hb Hl) as (rs & prev & ev & Hinv).
  destruct (ledger_inv_append pf _ _ _ _ _ _ _ _ _ _ _ _ Hb He1 Hinv Ha1) as (d1 & h1 & ev1 & Hinv1 & _).
  rewrite (append_eq pf _ _ _ _ _ _ _ _ _ _ Hinv) in Ha2.
  apply rbind_Ok in Ha2 as (ph & Hph & (h & Hh & (line & Hline & [= <- <-])%rbind_Ok)%rbind_Ok).
  assert (line = line2) as ->.
  { enough (Ok (E:=HbpExn) line = Ok line2) as [=] by done. etransitivity; [symmetry; exact Hline|exact Hline2]. }
  split; [done|].
  destruct Hinv as (_ & _ & Hn & Hasc & _).
  pose proof (proj1 (canonical_sha256_Ok _ _) Hph) as (bp & (wp & Hwp & _)%canonical_bytes_Ok & _).
  destruct (normalize_Obj_inv _ _ Hwp) as (p & ->).
  pose proof (normalize_receipt (n + 1) b prev evidence2 ph payload2 p obs2 h Hb Hasc Hwp Hph Hh) as Hnr.
  pose proof (loads_canonical pf _ _ _ Hnr Hline2) as Hload. rewrite canon_Obj_sorted in Hload.
  pose proof (proj1 (canonical_bytes_Ok _ _) Hline2) as (wl & _ & Hdl & Hul).
  set (d2 := sorted_fields _) in Hload.
  assert (∀ k, Val.get k d2 = canon (Val.get k (receipt_body (n + 1) b prev (map nfc_evidence evidence2) ph p obs2 ++ [("receipt_hash", Str h)]))) as Hg.
  { intros k. apply get_sorted, receipt_keys'. }
  destruct Hinv1 as ((Hw1 & Hr1 & Hne1) & Hv1 & _).
  assert (verify_file pf (Some (f1 +:+ line2 +:+ String lf "")) b true = invalid "SEQUENCE_MISMATCH" (n + 1) ev1) as Hvf.
  { unfold verify_file. cbn [read_jsonl]. rewrite splitlines_append by (done || (rewrite Hdl; apply printable_dumps)).
    rewrite (read_lines_snoc pf _ _ _ _ _ Hr1 Hul Hload). rewrite verify_receipts_ne by (by destruct rs).
    eapply verify_wrong_sequence; [exact Hv1|by rewrite Hg| |by rewrite Hg|lia].
    apply forallb_forall. intros k Hk. apply bool_decide_eq_true_2. unfold d2. rewrite sorted_fields_keys.
    revert k Hk. apply List.Forall_forall. by_compute. }
  rewrite Hvf. split; [done|]. intros evidence payload obs. unfold append. by rewrite Hvf.
Qed.
End Race.

(** ** Tampering *)
Section Tamper.
Context `{Nfc}.

Lemma verify_from_snoc_inv i prev ev b rs r n h ev' :
  verify_from i prev ev b (rs ++ [r]) = mkVerification "VERIFIED" "OK" n (Some h) ev' →
  ∃ p ev1, verify_from i prev ev b rs = mkVerification "VERIFIED" "OK" (n - 1) (Some p) ev1 ∧
    check_receipt n p b r = None ∧ Val.str (Val.get "receipt_hash" r) = h.
Proof.
  revert i prev ev. induction rs as [|x rs IH]; intros i prev ev Hv.
  - cbn [app verify_from] in Hv. destruct (negb _); [done|]. destruct (check_receipt i prev b r) eqn:Hc; [done|].
    destruct (Val.get "acceptance_evidence" r); try done. destruct (add_rows ev l) as [ev1 []]; [|done].
    injection Hv as <- <- <-. replace (i + 1 - 1) with i by lia. by exists prev, ev.
  - cbn [app verify_from] in Hv |- *. destruct (negb _); [done|]. destruct (check_receipt i prev b x) eqn:Hc; [done|].
    destruct (Val.get "acceptance_evidence" x); try done. destruct (add_rows ev l) as [ev1 []]; [|done]. by apply IH.
Qed.

Lemma eq_Str v s : Val.eq v (Str s) = true → v = Str s.
Proof. destruct v as [|[]|z|z|t|l|d]; try done. cbn. by intros ->%String.eqb_eq. Qed.
Lemma Str_eq v s : Val.eq (Str s) v = true → v = Str s.
Proof. destruct v as [|[]|z|z|t|l|d]; try done. cbn. by intros ->%String.eqb_eq. Qed.

(** What a receipt that passes the checks says, besides its binding. *)
Lemma check_receipt_None i p b r : check_receipt i p b r = None →
  ∃ h, Val.get "receipt_hash" r = Str h ∧ canonical_sha256 (Obj (without_hash r)) = Ok h ∧
       Val.get "previous_receipt_hash" r = Str p ∧ Val.eq (Val.get "sequence" r) (Int i) = true.
Proof.
  unfold check_receipt. destruct (forallb _ required); [|done]. cbn [negb].
  destruct (Val.eq (Val.get "sequence" r) (Int i)) eqn:H1; [|done].
  destruct (Val.eq (Val.get "previous_receipt_hash" r) (Str p)) eqn:H2; [|done]. cbn [negb].
  destruct (Val.get "binding" r); try done. destruct (binding_reason _ b); [done|].
  destruct (canonical_sha256 (Val.get "payload" r)); [|done]. destruct (Val.eq (Str _) (Val.get "payload_hash" r)); [|done].
  cbn [negb]. destruct (canonical_sha256 (Obj (without_hash r))) as [h|]; [|done].
  destruct (Val.eq (Str h) (Val.get "receipt_hash" r)) eqn:H3; [|done]. intros _. exists h.
  by rewrite (Str_eq _ _ H3), (eq_Str _ _ H2).
Qed.

Lemma get_without_hash k r : k ≠ "receipt_hash" → Val.get k (without_hash r) = Val.get k r.
Proof. intros Hk. unfold Val.get, without_hash. change (List.filter _ r) with (ddel "receipt_hash" r). by rewrite dget_del, decide_False. Qed.

Lemma normal_without_hash r : normal (Obj r) = true → normal (Obj (without_hash r)) = true.
Proof.
  unfold without_hash. cbn [normal]. intros [Hnd%bool_decide_eq_true_1 Hn]%andb_true_iff. rewrite bool_decide_eq_true_2 by auto with py.
  cbn [andb]. rewrite forallb_forall in *. intros kv [Hkv _]%filter_In. by apply Hn.
Qed.

(** Equal hashes of normal documents, unless SHA-256 collides. *)
Lemma hash_binds v w h : normal v = true → normal w = true →
  canonical_sha256 v = Ok h → canonical_sha256 w = Ok h → sha256_collision ∨ canon v = canon w.
Proof.
  intros Hv Hw (s & (v' & Hv' & -> & _)%canonical_bytes_Ok & Hs)%canonical_sha256_Ok
    (t & (w' & Hw' & -> & _)%canonical_bytes_Ok & Ht)%canonical_sha256_Ok.
  rewrite normal_normalize in Hv' by done. injection Hv' as <-. rewrite normal_normalize in Hw' by done. injection Hw' as <-.
  destruct (decide (dumps false v = dumps false w)) as [E|Hne].
  - right. apply dumps_inj; [by apply normal_plain..|done].
  - left. exists (dumps false v), (dumps false w). split; [done|congruence].
Qed.

Lemma canon_get k r1 r2 : NoDup r1.*1 → NoDup r2.*1 → canon (Obj r1) = canon (Obj r2) →
  canon (Val.get k r1) = canon (Val.get k r2).
Proof.
  intros H1 H2. rewrite !canon_Obj_sorted. intros [= E]. rewrite <- !get_sorted by done. by rewrite E.
Qed.

Lemma eq_Int_number v a : Val.eq v (Int a) = true → Val.number v = Some a.
Proof. destruct v as [|x|z|z|t|l|d]; try done; intros E%Z.eqb_eq; by rewrite <- E. Qed.

Lemma eq_Int_canon v w a b : Val.eq v (Int a) = true → Val.eq w (Int b) = true → canon v = canon w → a = b.
Proof.
  intros Hv%eq_Int_number Hw%eq_Int_number E.
  assert (∀ u, Val.number (canon u) = Val.number u) as Hn by by intros [].
  rewrite <- Hn in Hv, Hw. congruence.
Qed.

Lemma receipts_agree b i j p q r1 r2 : normal (Obj r1) = true → normal (Obj r2) = true →
  check_receipt i p b r1 = None → check_receipt j q b r2 = None →
  Val.str (Val.get "receipt_hash" r1) = Val.str (Val.get "receipt_hash" r2) →
  sha256_collision ∨ same_receipt r1 r2 ∧ i = j ∧ p = q.
Proof.
  intros H1 H2 (h1 & Hh1 & Hs1 & Hp1 & Hi1)%check_receipt_None (h2 & Hh2 & Hs2 & Hp2 & Hi2)%check_receipt_None E.
  rewrite Hh1, Hh2 in E. cbn [Val.str] in E. subst h2.
  apply normal_without_hash in H1, H2. destruct (hash_binds _ _ _ H1 H2 Hs1 Hs2) as [|Ec]; [by left|right].
  assert (∀ r, normal (Obj r) = true → NoDup r.*1) as Hnd by (intros r [Hr%bool_decide_eq_true_1 _]%andb_true_iff; done).
  assert (∀ k, k ≠ "receipt_hash" → canon (Val.get k r1) = canon (Val.get k r2)) as Hg.
  { intros k Hk. rewrite <- (get_without_hash k r1), <- (get_without_hash k r2) by done. apply canon_get; auto. }
  split; [split; [done|congruence]|]. split.
  - eapply eq_Int_canon; [exact Hi1|exact Hi2|]. by apply Hg.
  - specialize (Hg "previous_receipt_hash" ltac:(done)). rewrite Hp1, Hp2 in Hg. by injection Hg.
Qed.

Lemma chains_agree b rs1 rs2 n h ev1 ev2 :
  Forall (λ r, normal (Obj r) = true) rs1 → Forall (λ r, normal (Obj r) = true) rs2 →
  verify_from 1 GENESIS_HASH [] b rs1 = mkVerification "VERIFIED" "OK" n (Some h) ev1 →
  verify_from 1 GENESIS_HASH [] b rs2 = mkVerification "VERIFIED" "OK" n (Some h) ev2 →
  sha256_collision ∨ Forall2 same_receipt rs1 rs2.
Proof.
  revert rs2 n h ev1 ev2. induction rs1 as [|r1 rs1 IH] using rev_ind; intros rs2 n h ev1 ev2 H1 H2 Hv1 Hv2;
    pose proof (verify_from_count _ _ _ _ _ _ _ _ Hv1) as Hn1; pose proof (verify_from_count _ _ _ _ _ _ _ _ Hv2) as Hn2;
    rewrite ?length_app in Hn1; cbn [length] in Hn1.
  - right. destruct rs2; [done|cbn [length] in Hn2; lia].
  - destruct rs2 as [|r2 rs2 _] using rev_ind; [cbn [length] in Hn2; lia|].
    apply verify_from_snoc_inv in Hv1 as (p1 & e1 & Hv1 & Hc1 & Hh1), Hv2 as (p2 & e2 & Hv2 & Hc2 & Hh2).
    apply Forall_app in H1 as [H1 Hr1%Forall_inv], H2 as [H2 Hr2%Forall_inv].
    destruct (receipts_agree b n n p1 p2 r1 r2) as [|(Hsame & _ & ->)]; [done..|congruence|by left|].
    destruct (IH rs2 (n - 1) p2 e1 e2 H1 H2 Hv1 Hv2) as [|IHf]; [by left|right]. apply Forall2_app; [done|by constructor].
Qed.
End Tamper.

(** * Properties *)
Section Properties.
Context `{Nfc} (pf : string → Z).

(** C20: The ledger of one writer, under a binding whose texts are in Unicode
    normal form C. Whatever has been appended to a new file, the file verifies: as
    many receipts as there were appends, under their binding, and for every
    criterion the rows of the evidence appended for it, in order. Another append is
    then refused only when what it is given has no canonical form (a float, a lone
    surrogate). A binding in another form has no such ledger: its first append
    writes the normal form, which is not what the binding is compared with, so that
    the file never verifies again ([binding_not_normal]). *)
Theorem ledger_verifies b file evs n : normal_binding b = true → ledger pf b file evs n →
  let v := verify_file pf file b true in
  status v = (if n =? 0 then "EMPTY" else "VERIFIED") ∧ verified_receipts v = n ∧
  (∀ ac, default [] (dget ac (acceptance_evidence v)) = rows_for ac evs) ∧
  ∀ evidence payload obs x, append pf file b evidence payload obs = Err x → x = TypeError ∨ x = UnicodeEncodeError.
Proof.
  intros Hb Hl. destruct (ledger_inv_reachable pf _ _ _ _ Hb Hl) as (rs & prev & ev & Hinv). cbv zeta.
  destruct (ledger_inv_read pf _ _ _ _ _ _ _ Hinv) as [_ ->]. pose proof Hinv as (_ & Hv & Hn & _ & _ & _ & Hev).
  split; [by destruct (n =? 0)|]. split; [by destruct (Z.eqb_spec n 0)|]. split.
  - destruct (Z.eqb_spec n 0) as [E|]; [|done]. intros ac. rewrite <- Hev. destruct rs; [|cbn [length] in Hn; lia].
    cbn [verify_from] in Hv. injection Hv as _ _ <-. done.
  - intros evidence payload obs x. rewrite (append_eq pf _ _ _ _ _ _ _ _ _ _ Hinv).
    destruct (canonical_sha256 (Obj payload)) as [ph|] eqn:E1; cbn [rbind]; [|intros [= <-]; by apply canonical_sha256_exn in E1].
    destruct (canonical_sha256 (Obj (receipt_body _ _ _ _ _ _ _))) as [h|] eqn:E2; cbn [rbind];
      [|intros [= <-]; by apply canonical_sha256_exn in E2].
    destruct (canonical_bytes _) as [line|] eqn:E3; cbn [rbind]; [done|]. intros [= <-]. by apply canonical_bytes_exn in E3.
Qed.

#[local] Arguments dget _ _ _ /.
Lemma written_passes e : make_evidence e = Ok e → passing_row (written e) = String.eqb (verdict e) "PASS".
Proof.
  intros He. assert (∀ k, Val.get k (written e) = canon (Val.get k (evidence_to_dict (nfc_evidence e)))) as Hg.
  { intros k. unfold written. apply get_sorted. by_compute. }
  unfold passing_row. rewrite !Hg. cbn.
  unfold make_evidence in He. destruct (Str.truthy (ac_id e)); [|done]. destruct (Str.truthy (evidence_uri e)) eqn:Hu; [|done].
  destruct (Z.eqb_spec (text_len (evidence_hash e)) 64) as [Hl|]; [|done]. cbn [negb orb] in He.
  destruct (existsb _ _) eqn:Hx; [done|]. destruct (bool_decide (verdict e ∈ _)) eqn:Hv; [|done].
  assert (is_ascii (evidence_hash e) = true) as Ha.
  { apply hex_text, forallb_forall. intros c Hc. apply not_true_iff_false in Hx.
    destruct (is_hex_char c) eqn:E; [done|]. destruct Hx. apply existsb_exists. exists c. by rewrite E. }
  rewrite (nfc_ascii (evidence_hash e)) by done. rewrite Hl. cbn [Z.eqb].
  replace (Str.truthy (nfc (evidence_uri e))) with true.
  2: { symmetry. apply Str.truthy_ne. intros E%nfc_empty. rewrite E in Hu. done. }
  rewrite andb_true_r. rewrite nfc_ascii; [by rewrite andb_true_r|].
  apply bool_decide_eq_true_1 in Hv. rewrite !elem_of_cons, elem_of_nil in Hv. by destruct Hv as [->|[->|[->|[]]]].
Qed.

(** C21: The oracle says COMPLETE of a ledger of one writer, under a binding
    whose texts are in Unicode normal form C, exactly when there is a receipt, at
    least one criterion that is not empty, and for each of them a piece of
    evidence that was appended under it (in normal form) with the verdict PASS.
    (Under a binding in another form it says BLOCKED whatever was appended, since
    the file does not verify, [binding_not_normal].) *)
Theorem oracle_complete_exact b file evs n criteria :
  normal_binding b = true → ledger pf b file evs n → Forall (λ e, make_evidence e = Ok e) evs →
  oracle_verdict (completion_oracle (read_jsonl pf file).1 b criteria) = "COMPLETE" ↔
  n ≠ 0 ∧ (∃ c, c ∈ criteria ∧ c ≠ "") ∧
  ∀ c, c ∈ criteria → c ≠ "" → ∃ e, e ∈ evs ∧ nfc (ac_id e) = c ∧ verdict e = "PASS".
Proof.
  intros Hb Hl He. destruct (ledger_inv_reachable pf _ _ _ _ Hb Hl) as (rs & prev & ev & Hinv).
  destruct (ledger_inv_read pf _ _ _ _ _ _ _ Hinv) as [-> _]. destruct Hinv as (_ & Hv & Hn & _ & _ & _ & Hev).
  unfold completion_oracle. cbn [fst]. set (acs := sorted_set _).
  assert (∀ c, c ∈ acs ↔ c ∈ criteria ∧ c ≠ "") as Hacs.
  { intros c. unfold acs. rewrite elem_of_sorted_set, elem_of_Listfilter, Str.truthy_ne. done. }
  destruct rs as [|r rs].
  { subst n. cbn. split; [|by intros []]. done. }
  rewrite verify_receipts_ne, Hv by done. cbn [status acceptance_evidence reason_code String.eqb Ascii.eqb Bool.eqb negb orb].
  assert (∀ c, String.eqb (row_status (matrix_row ev c)) "VERIFIED" = true ↔ ∃ e, e ∈ evs ∧ nfc (ac_id e) = c ∧ verdict e = "PASS") as Hrow.
  { intros c. unfold matrix_row. cbn [row_status]. rewrite Hev. rewrite Forall_forall in He.
    assert (∀ d, d ∈ List.filter passing_row (rows_for c evs) ↔ ∃ e, d = written e ∧ e ∈ evs ∧ nfc (ac_id e) = c ∧ verdict e = "PASS") as Hin.
    { intros d. rewrite elem_of_Listfilter. unfold rows_for. change @map with (@fmap list list_fmap). rewrite list_elem_of_fmap. split.
      - intros ((e & -> & [Hin Hac%String.eqb_eq]%elem_of_Listfilter) & Hp). exists e.
        rewrite written_passes in Hp by auto. by apply String.eqb_eq in Hp.
      - intros (e & -> & Hin & Hac & Hp). rewrite written_passes, Hp by auto. split; [|done]. exists e. split; [done|].
        apply elem_of_Listfilter. by rewrite Hac, String.eqb_refl. }
    destruct (List.filter passing_row (rows_for c evs)) as [|d l]; cbn [length Nat.eqb].
    - split; [done|]. intros (e & He'). destruct (not_elem_of_nil (written e)). apply Hin. naive_solver.
    - split; [|done]. intros _. destruct (proj1 (Hin d)) as (e & _ & ?); [by left|]. by exists e. }
  assert (existsb (λ r0, negb (String.eqb (row_status r0) "VERIFIED")) (map (matrix_row ev) acs) = false ↔
          ∀ c, c ∈ acs → ∃ e, e ∈ evs ∧ nfc (ac_id e) = c ∧ verdict e = "PASS") as Hex.
  { rewrite <- not_true_iff_false, existsb_exists. split.
    - intros Hno c Hc. apply Hrow. destruct (String.eqb _ _) eqn:E; [done|]. destruct Hno. exists (matrix_row ev c).
      split; [|by rewrite E]. apply in_map. by apply list_elem_of_In.
    - intros Hall (x & (c & <- & Hc)%in_map_iff & Hx). rewrite (proj2 (Hrow c)) in Hx; [done|].
      by apply Hall, list_elem_of_In. }
  assert (n ≠ 0) as Hn0 by (cbn [length] in Hn; lia).
  destruct (existsb _ _) eqn:E; cbn [orb].
  - rewrite orb_true_r. split; [done|]. intros (_ & _ & Hall). enough (true = false) by done. apply Hex. intros c [Hc ?]%Hacs. auto.
  - destruct acs as [|a acs]; cbn [length Nat.eqb orb].
    + split; [done|]. intros (_ & (c & Hc) & _). apply Hacs in Hc. by apply not_elem_of_nil in Hc.
    + split; [|done]. intros _. split; [done|]. split.
      * exists a. apply Hacs. by left.
      * intros c Hc Hne. by apply Hex, Hacs.
Qed.

(** A chain binds its whole history. Two chains in canonical normal form that
    verify under one binding with the same head hash hold the same receipts, one
    by one, unless two different texts with one SHA-256 hash have been found. *)
Theorem chain_binds b rs1 rs2 n1 n2 h ev1 ev2 :
  Forall (λ r, normal (Obj r) = true) rs1 → Forall (λ r, normal (Obj r) = true) rs2 →
  verify_receipts rs1 b = mkVerification "VERIFIED" "OK" n1 (Some h) ev1 →
  verify_receipts rs2 b = mkVerification "VERIFIED" "OK" n2 (Some h) ev2 →
  sha256_collision ∨ Forall2 same_receipt rs1 rs2.
Proof.
  intros H1 H2 Hv1 Hv2.
  assert (rs1 ≠ []) as Hne1 by by intros ->. assert (rs2 ≠ []) as Hne2 by by intros ->.
  rewrite verify_receipts_ne in Hv1, Hv2 by done.
  destruct (decide (n1 = n2)) as [->|Hn]; [by eapply chains_agree|left].
  destruct rs1 as [|r1 rs1 _] using rev_ind; [done|]. destruct rs2 as [|r2 rs2 _] using rev_ind; [done|].
  apply verify_from_snoc_inv in Hv1 as (p1 & e1 & _ & Hc1 & Hh1), Hv2 as (p2 & e2 & _ & Hc2 & Hh2).
  apply Forall_app in H1 as [_ H1%Forall_inv], H2 as [_ H2%Forall_inv].
  destruct (receipts_agree b n1 n2 p1 p2 r1 r2) as [|(_ & ? & _)]; congruence || done.
Qed.
End Properties.

(** * Examples *)
Lemma demo_ledger : ledger (H := nfc_id) float_0 demo_binding (Some demo_file) [demo_evidence] 1.
Proof.
  apply (ledger_append (H := nfc_id) float_0 demo_binding None [] 0 [demo_evidence] [("exit_code", Int 0)] 17 demo_file demo_receipt).
  - constructor.
  - repeat constructor; vm_compute; reflexivity.
  - vm_compute. reflexivity.
Qed.

Lemma ledger_verifies_witness :
  normal_binding (H := nfc_id) demo_binding = true ∧
  status (verify_file (H := nfc_id) float_0 (Some demo_file) demo_binding true) = "VERIFIED".
Proof.
  split; [vm_compute; reflexivity|].
  exact (proj1 (ledger_verifies (H := nfc_id) float_0 demo_binding (Some demo_file) [demo_evidence] 1 eq_refl demo_ledger)).
Defined.

Lemma oracle_complete_exact_witness :
  oracle_verdict (completion_oracle (H := nfc_id) (read_jsonl float_0 (Some demo_file)).1 demo_binding ["AC1"]) = "COMPLETE" ∧
  oracle_verdict (completion_oracle (H := nfc_id) (read_jsonl float_0 (Some demo_file)).1 demo_binding ["AC1"; "AC2"]) ≠ "COMPLETE".
Proof.
  assert (Forall (λ e, make_evidence e = Ok e) [demo_evidence]) as He by (repeat constructor; vm_compute; reflexivity).
  split.
  - apply (oracle_complete_exact (H := nfc_id) float_0 demo_binding (Some demo_file) [demo_evidence] 1 ["AC1"] eq_refl demo_ledger He).
    split; [done|]. split; [exists "AC1"; split; [by left|done]|]. intros c Hc%list_elem_of_singleton _. subst c.
    exists demo_evidence. split; [by left|done].
  - intros E. destruct (proj1 (oracle_complete_exact (H := nfc_id) float_0 demo_binding (Some demo_file) [demo_evidence] 1 ["AC1"; "AC2"] eq_refl demo_ledger He) E)
      as (_ & _ & Hall). destruct (Hall "AC2") as (e & He2%list_elem_of_singleton & Hac & _); [right; by left|done|]. subst e. done.
Defined.

Lemma chain_binds_witness :
  sha256_collision ∨ Forall2 same_receipt demo_read demo_read.
Proof.
  assert (Forall (λ r, normal (H := nfc_id) (Obj r) = true) demo_read) as Hn by (repeat constructor; vm_compute; reflexivity).
  apply (chain_binds (H := nfc_id) demo_binding demo_read demo_read 1 1 (default "" (head_hash demo_verification))
    (acceptance_evidence demo_verification) (acceptance_evidence demo_verification) Hn Hn); vm_compute; reflexivity.
Defined.

(** The golden hash of the repository's test of canonical documents. *)
Example golden_hash :
  canonical_sha256 (H := nfc_id) (Obj [("a", Str ("caf" +:+ String.string_of_list_ascii (map byte [195; 169]%N))); ("b", Int 2)])
  = Ok "6d25402cde044dae7bc06b10f117a4e1ad4b9068984aa262f46af63e330e7aa6".
Proof. vm_compute. reflexivity. Qed.

(** A file whose last line end was lost still verifies, the next append to it
    succeeds, and leaves a file that no longer does. *)
Example lost_line_end :
  let torn := String.substring 0 (String.length demo_file - 1) demo_file in
  status (verify_file (H := nfc_id) float_0 (Some torn) demo_binding false) = "VERIFIED" ∧
  reason_code (verify_file (H := nfc_id) float_0 (Some (demo_append (Some torn)).1) demo_binding false) = "INVALID_JSON_LINE_1".
Proof. vm_compute. done. Qed.

(** A binding whose run id is not in normal form: the first append succeeds, and
    what it wrote never verifies under the same binding again. *)
Example binding_not_normal :
  let b := mkHbpBinding cafe_decomposed "plan-sha256" "g1" 1 7 "verify" in
  match append (H := nfc_cafe) float_0 None b [] [] 17 with
  | Ok (f, _) => reason_code (verify_file (H := nfc_cafe) float_0 (Some f) b false) = "CROSS_RUN_ID"
  | Err _ => False
  end.
Proof. vm_compute. done. Qed.
