(* ===== verification/HbpFrame.v ===== *)
(** The binary frame of contracts ([encode_hbp_frame] and [decode_hbp_frame] of
    [simplicio_loop/prism_contracts.py]): a magic, the length of the payload,
    its canonical JSON and its SHA-256. A frame is a string of bytes. *)
From Stdlib Require Import Ascii.
From S2P Require Import Prelude PyLib PyText PyJson HbpLedger.
Import Json.
Open Scope py_scope.
Open Scope Z_scope.

Definition HBP_MAGIC : string := "SPH1".
Definition HBP_MAX_FRAME_BYTES : Z := 8 * 1024 * 1024.

Inductive FrameExn :=
| PrismContractError (msg : string)
| Canonical (x : HbpExn)   (* raised by [canonical_bytes] *).

Definition of_canonical {A} (m : result HbpExn A) : result FrameExn A :=
  match m with Ok a => Ok a | Err x => Err (Canonical x) end.

(** Bytes as numbers, and back. *)
Definition string_of_bytes (bs : list Z) : string := String.string_of_list_ascii (map (λ b, ascii_of_N (Z.to_N b)) bs).

(** [s[:n]] and [s[n:]] *)
Fixpoint take_bytes (n : nat) (s : string) : string :=
  match n, s with
  | S n', String c s' => String c (take_bytes n' s')
  | _, _ => ""
  end.
Fixpoint drop_bytes (n : nat) (s : string) : string :=
  match n, s with
  | O, _ => s
  | S n', String _ s' => drop_bytes n' s'
  | _, EmptyString => ""
  end.

Definition blen (s : string) : Z := Z.of_nat (String.length s).

(** [struct.pack(">I", n)], below [2^32], and [struct.unpack] of four bytes. *)
Definition pack_u32 (n : Z) : string := string_of_bytes (Sha256.be_bytes 4 n).
Definition unpack_u32 (s : string) : Z := Sha256.be_word (Sha256.bytes_of_string s).

(** [hashlib.sha256(s).digest()] *)
Definition digest (s : string) : string := string_of_bytes (Sha256.sha256 (Sha256.bytes_of_string s)).

Section Frame.
Context `{Nfc} (parse_float : string → Z).

Definition encode_hbp_frame (value : receipt_dict) : result FrameExn string :=
  let? payload := of_canonical (canonical_bytes (Obj value)) in
  if blen payload >? HBP_MAX_FRAME_BYTES then Err (PrismContractError "HBP frame exceeds size limit")
  else Ok (HBP_MAGIC +:+ pack_u32 (blen payload) +:+ payload +:+ digest payload).

Definition decode_hbp_frame (frame : string) : result FrameExn receipt_dict :=
  if (blen frame <? 40) || negb (String.eqb (take_bytes 4 frame) HBP_MAGIC) then
    Err (PrismContractError "invalid HBP magic or truncated frame")
  else
    let size := unpack_u32 (take_bytes 4 (drop_bytes 4 frame)) in
    if (size >? HBP_MAX_FRAME_BYTES) || negb (blen frame =? 8 + size + 32) then
      Err (PrismContractError "invalid HBP frame length")
    else
      let payload := take_bytes (Z.to_nat size) (drop_bytes 8 frame) in
      if negb (String.eqb (digest payload) (drop_bytes (String.length frame - 32) frame)) then
        Err (PrismContractError "HBP frame checksum mismatch")
      else match (if utf8_valid payload then loads parse_float payload else None) with
      | None => Err (PrismContractError "invalid HBP payload")
      | Some (Obj value) =>
          let? canonical := of_canonical (canonical_bytes (Obj value)) in
          if negb (String.eqb canonical payload) then Err (PrismContractError "HBP payload is not canonical")
          else Ok value
      | Some _ => Err (PrismContractError "HBP payload must be an object")
      end.
End Frame.

(** [read_legacy_task], on the values under the two keys it reads. *)
Record LegacyTask := mkLegacyTask { legacy_schema : string; legacy_task_id : string; authoritative : bool }.
Definition read_legacy_task (value : receipt_dict) : LegacyTask :=
  mkLegacyTask (Val.text (Val.get "schema" value)) (Val.text (Val.get "task_id" value)) false.

(** * Specification *)

(** The documents the codec is faithful on: what [normalize] makes of a mapping,
    sorted by key. *)
Definition framed `{Nfc} (value d : receipt_dict) : Prop :=
  ∃ w, normalize (Obj value) = Ok (Obj w) ∧ d = sorted_fields w.

(** A frame around any payload. *)
Definition raw_frame (payload : string) : string := HBP_MAGIC +:+ pack_u32 (blen payload) +:+ payload +:+ digest payload.
(** * Lemmas *)
Lemma take_app n a b : String.length a = n → take_bytes n (a +:+ b) = a.
Proof. intros <-. induction a as [|c a IH]; [by destruct b|exact (f_equal (String c) IH)]. Qed.
Lemma drop_app n a b : String.length a = n → drop_bytes n (a +:+ b) = b.
Proof. intros <-. induction a as [|c a IH]; [by destruct b|exact IH]. Qed.
Lemma take_drop n s : take_bytes n s +:+ drop_bytes n s = s.
Proof. revert s. induction n as [|n IH]; [done|]. intros [|c s]; [done|exact (f_equal (String c) (IH s))]. Qed.
Lemma drop_drop n m s : drop_bytes n (drop_bytes m s) = drop_bytes (m + n) s.
Proof. revert s. induction m as [|m IH]; [done|]. intros [|c s]; [by destruct n|apply IH]. Qed.
Lemma take_length n s : (n <= String.length s)%nat → String.length (take_bytes n s) = n.
Proof. revert s. induction n as [|n IH]; [done|]. intros [|c s] Hn; cbn [String.length take_bytes] in *; [lia|]. rewrite IH; lia. Qed.

Lemma string_of_bytes_length bs : String.length (string_of_bytes bs) = length bs.
Proof. unfold string_of_bytes. induction bs as [|b bs IH]; [done|]. cbn. by rewrite IH. Qed.

Lemma bytes_of_string_of_bytes bs : Forall (λ b, 0 <= b <= 255) bs → Sha256.bytes_of_string (string_of_bytes bs) = bs.
Proof.
  unfold Sha256.bytes_of_string, string_of_bytes. rewrite String.list_ascii_of_string_of_list_ascii, map_map.
  induction 1 as [|b bs Hb _ IH]; [done|]. cbn [map]. rewrite IH. f_equal. rewrite N_ascii_embedding by lia. lia.
Qed.

Lemma bytes_of_string_bytes s : Forall (λ b, 0 <= b <= 255) (Sha256.bytes_of_string s).
Proof.
  unfold Sha256.bytes_of_string. change @map with (@fmap list list_fmap). rewrite Forall_fmap, Forall_forall. intros c _.
  pose proof (code_lt c). unfold code in *. cbn. lia.
Qed.

Lemma string_of_bytes_of_string s : string_of_bytes (Sha256.bytes_of_string s) = s.
Proof.
  unfold Sha256.bytes_of_string, string_of_bytes. rewrite map_map.
  rewrite (map_ext _ (λ c, c)) by (intros c; rewrite N2Z.id; apply ascii_N_embedding).
  rewrite map_id. apply String.string_of_list_ascii_of_string.
Qed.

Lemma digest_length s : String.length (digest s) = 32%nat.
Proof. unfold digest. rewrite string_of_bytes_length. apply Sha256.sha256_length. Qed.

Lemma pack_length n : String.length (pack_u32 n) = 4%nat.
Proof. unfold pack_u32. by rewrite string_of_bytes_length. Qed.

Lemma lor_byte x y : 0 <= y <= 255 → Z.lor (Z.shiftl x 8) y = x * 256 + y.
Proof.
  intros Hy. assert (Z.land (Z.shiftl x 8) y = 0) as H0.
  { apply Z.bits_inj'. intros n Hn. rewrite Z.land_spec, Z.bits_0, Z.shiftl_spec by lia.
    destruct (Z_lt_ge_dec n 8); [by rewrite Z.testbit_neg_r by lia|].
    replace y with (y mod 2 ^ 8) by (apply Z.mod_small; lia).
    by rewrite Z.mod_pow2_bits_high, andb_false_r by lia. }
  rewrite <- Z.lxor_lor, <- Z.add_nocarry_lxor by done. rewrite Z.shiftl_mul_pow2 by lia. lia.
Qed.

Lemma be_word_4 a b c d : 0 <= a <= 255 → 0 <= b <= 255 → 0 <= c <= 255 → 0 <= d <= 255 →
  Sha256.be_word [a; b; c; d] = ((a * 256 + b) * 256 + c) * 256 + d.
Proof. intros Ha Hb Hc Hd. unfold Sha256.be_word. cbn [foldl]. rewrite !lor_byte by done. lia. Qed.

Lemma unpack_pack n : 0 <= n < 2 ^ 32 → unpack_u32 (pack_u32 n) = n.
Proof.
  intros Hn. unfold unpack_u32, pack_u32. rewrite bytes_of_string_of_bytes by apply Sha256.be_bytes_byte.
  cbn [Sha256.be_bytes]. rewrite be_word_4.
  all: change 255 with (Z.ones 8); rewrite ?Z.land_ones, ?Z.shiftr_div_pow2 by lia; change (Z.ones 8) with 255.
  all: try (match goal with |- context [?x mod 2 ^ 8] => pose proof (Z.mod_pos_bound x (2 ^ 8) ltac:(lia)) end; lia).
  change (2 ^ (8 * Z.of_nat 3)) with (2 ^ 24). change (2 ^ (8 * Z.of_nat 2)) with (2 ^ 16). change (2 ^ (8 * Z.of_nat 1)) with (2 ^ 8).
  change (2 ^ (8 * Z.of_nat 0)) with 1. change (2 ^ 24) with 16777216. change (2 ^ 16) with 65536. change (2 ^ 8) with 256.
  change (2 ^ 32) with 4294967296 in Hn. Z.div_mod_to_equations. lia.
Qed.

Lemma pack_unpack s : String.length s = 4%nat → pack_u32 (unpack_u32 s) = s.
Proof.
  intros Hs. rewrite <- (string_of_bytes_of_string s) at 2. unfold unpack_u32, pack_u32. f_equal.
  pose proof (bytes_of_string_bytes s) as Hb.
  assert (length (Sha256.bytes_of_string s) = 4%nat) as Hl.
  { rewrite <- Hs. rewrite <- (string_of_bytes_of_string s) at 2. by rewrite string_of_bytes_length. }
  destruct (Sha256.bytes_of_string s) as [|a [|b [|c [|d []]]]]; try done.
  apply Forall_cons in Hb as [Ha Hb]. apply Forall_cons in Hb as [Hb Hc]. apply Forall_cons in Hc as [Hc Hd].
  apply Forall_cons in Hd as [Hd _]. rewrite be_word_4 by done. cbn [Sha256.be_bytes].
  change (8 * Z.of_nat 3) with 24. change (8 * Z.of_nat 2) with 16. change (8 * Z.of_nat 1) with 8. change (8 * Z.of_nat 0) with 0.
  change 255 with (Z.ones 8). rewrite !Z.land_ones, !Z.shiftr_div_pow2 by lia.
  change (2 ^ 24) with 16777216. change (2 ^ 16) with 65536. change (2 ^ 8) with 256. change (2 ^ 0) with 1.
  repeat f_equal; Z.div_mod_to_equations; lia.
Qed.

Lemma unpack_bounds s : String.length s = 4%nat → 0 <= unpack_u32 s.
Proof.
  intros Hs. pose proof (bytes_of_string_bytes s) as Hb. unfold unpack_u32.
  assert (length (Sha256.bytes_of_string s) = 4%nat) as Hl.
  { rewrite <- Hs. rewrite <- (string_of_bytes_of_string s) at 2. by rewrite string_of_bytes_length. }
  destruct (Sha256.bytes_of_string s) as [|a [|b [|c [|d []]]]]; try done.
  apply Forall_cons in Hb as [Ha Hb]. apply Forall_cons in Hb as [Hb Hc]. apply Forall_cons in Hc as [Hc Hd].
  apply Forall_cons in Hd as [Hd _]. rewrite be_word_4 by done. lia.
Qed.

(** The parts a frame is cut into put it together again. *)
Lemma frame_parts frame n :
  (40 <= String.length frame)%nat → String.length frame = (8 + n + 32)%nat →
  frame = take_bytes 4 frame +:+ take_bytes 4 (drop_bytes 4 frame) +:+ take_bytes n (drop_bytes 8 frame)
          +:+ drop_bytes (String.length frame - 32) frame ∧
  String.length (take_bytes 4 (drop_bytes 4 frame)) = 4%nat ∧ String.length (take_bytes n (drop_bytes 8 frame)) = n.
Proof.
  intros H1 H2. assert (∀ k, (k <= String.length frame)%nat → String.length (drop_bytes k frame) = (String.length frame - k)%nat) as Hd.
  { intros k Hk. pose proof (f_equal String.length (take_drop k frame)) as E. rewrite slength_app, take_length in E by done. lia. }
  split; [|split; apply take_length; rewrite Hd; lia].
  replace (String.length frame - 32)%nat with (8 + n)%nat by lia. rewrite <- drop_drop, take_drop.
  change 8%nat with (4 + 4)%nat. by rewrite <- drop_drop, !take_drop.
Qed.

(** ** The codec *)
Section Codec.
Context `{Nfc} (pf : string → Z).

Lemma decode_frame_inv frame d : decode_hbp_frame pf frame = Ok d → ∃ value, encode_hbp_frame value = Ok frame ∧ framed value d.
Proof.
  unfold decode_hbp_frame. cbv zeta. destruct (Z.ltb_spec (blen frame) 40) as [|Hlen]; [done|].
  destruct (String.eqb_spec (take_bytes 4 frame) HBP_MAGIC) as [Hm|]; [|done]. cbn [negb orb].
  set (size := unpack_u32 _). destruct (size >? HBP_MAX_FRAME_BYTES) eqn:Hmax; [done|].
  destruct (Z.eqb_spec (blen frame) (8 + size + 32)) as [Hsize|]; [|done]. cbn [negb orb]. unfold blen in *.
  assert (0 <= size) as Hs0.
  { apply unpack_bounds, take_length. pose proof (f_equal String.length (take_drop 4 frame)) as E.
    rewrite slength_app, take_length in E by lia. lia. }
  destruct (frame_parts frame (Z.to_nat size)) as (Hf & Hl4 & Hlp); [lia..|].
  set (payload := take_bytes (Z.to_nat size) (drop_bytes 8 frame)) in *.
  destruct (String.eqb_spec (digest payload) (drop_bytes (String.length frame - 32) frame)) as [Hd|]; [|done]. cbn [negb].
  destruct (utf8_valid payload); [|done]. destruct (loads pf payload) as [[| | | | | |value]|] eqn:Hload; try done.
  destruct (canonical_bytes (Obj value)) as [c|] eqn:Hc; [|done]. cbn [of_canonical rbind].
  destruct (String.eqb_spec c payload) as [->|]; [|done]. cbn [negb]. intros [= <-]. exists value. split.
  + unfold encode_hbp_frame. rewrite Hc. cbn [of_canonical rbind]. unfold blen. rewrite Hlp, Z2Nat.id by done. rewrite Hmax.
    f_equal. rewrite Hf, Hm, <- Hd. unfold size. rewrite pack_unpack by done. done.
  + destruct (proj1 (canonical_bytes_Ok _ _) Hc) as (w & Hw & _). destruct (normalize_Obj_inv _ _ Hw) as (w' & ->).
    exists w'. split; [done|]. rewrite (loads_canonical pf _ _ _ Hw Hc), canon_Obj_sorted in Hload. by injection Hload.
Qed.

Lemma decode_encoded frame value w : encode_hbp_frame value = Ok frame → normalize (Obj value) = Ok (Obj w) →
  decode_hbp_frame pf frame = Ok (sorted_fields w).
Proof.
  intros He Hw. unfold encode_hbp_frame in He.
  destruct (canonical_bytes (Obj value)) as [payload|] eqn:Hc; [|done]. cbn [of_canonical rbind] in He.
  destruct (blen payload >? HBP_MAX_FRAME_BYTES) eqn:Hmax; [done|]. injection He as <-.
  assert (0 <= blen payload) by (unfold blen; lia).
  assert (blen payload <= 8388608) as Hb by (rewrite Z.gtb_ltb in Hmax; by apply Z.ltb_ge in Hmax).
  unfold decode_hbp_frame. cbv zeta. unfold blen in *.
  rewrite !slength_app, digest_length, pack_length. change (String.length HBP_MAGIC) with 4%nat.
  rewrite (proj2 (Z.ltb_ge _ _)) by lia. rewrite take_app by done. rewrite String.eqb_refl. cbn [negb orb].
  rewrite (drop_app 4 HBP_MAGIC) by done. rewrite (take_app 4) by apply pack_length. rewrite unpack_pack by lia.
  rewrite Hmax. rewrite (proj2 (Z.eqb_eq _ _)) by lia. cbn [negb orb].
  rewrite <- (drop_drop 4 4), (drop_app 4 HBP_MAGIC), (drop_app 4) by (done || apply pack_length).
  rewrite Nat2Z.id, take_app by done.
  replace (4 + (4 + (String.length payload + 32)) - 32)%nat with (4 + (4 + String.length payload))%nat by lia.
  rewrite <- !drop_drop, (drop_app 4 HBP_MAGIC), (drop_app 4), drop_app by (done || apply pack_length).
  rewrite String.eqb_refl. cbn [negb].
  destruct (proj1 (canonical_bytes_Ok _ _) Hc) as (w0 & _ & _ & ->).
  rewrite (loads_canonical pf _ _ _ Hw Hc), canon_Obj_sorted.
  pose proof (canonical_bytes_canon _ _ _ Hw Hc) as Hc'. rewrite canon_Obj_sorted in Hc'. rewrite Hc'.
  cbn [of_canonical rbind]. by rewrite String.eqb_refl.
Qed.
End Codec.

(** * Properties *)
Section Properties.
Context `{Nfc} (pf : string → Z).

(** C36: Frames round-trip, and nothing else is a frame. Decoding succeeds exactly
    on the frames that encoding some mapping gives, and returns that mapping in
    canonical form: texts in normal form C, items sorted by key. *)
Theorem frame_roundtrip frame d :
  decode_hbp_frame pf frame = Ok d ↔ ∃ value, encode_hbp_frame value = Ok frame ∧ framed value d.
Proof.
  split; [apply decode_frame_inv|]. intros (value & He & w & Hw & ->). by eapply decode_encoded.
Qed.
End Properties.

(** * Examples *)
Lemma frame_roundtrip_witness :
  decode_hbp_frame (H := nfc_id) float_0 (ok_or "" (encode_hbp_frame (H := nfc_id) [("b", Int 2); ("a", List [Null; Str "x"])]))
  = Ok [("a", List [Null; Str "x"]); ("b", Int 2)].
Proof.
  apply (frame_roundtrip (H := nfc_id)). exists [("b", Int 2); ("a", List [Null; Str "x"])].
  split; [vm_compute; reflexivity|]. exists [("b", Int 2); ("a", List [Null; Str "x"])]. split; vm_compute; reflexivity.
Defined.

(** A well-made frame around a document with a float, or with an escaped lone
    surrogate, is not refused as a contract error: the canonical form raises. *)
Example frame_with_float :
  decode_hbp_frame (H := nfc_id) float_0 (raw_frame ("{" +:+ q "a" +:+ ":1.5}")) = Err (Canonical TypeError) ∧
  decode_hbp_frame (H := nfc_id) float_0 (raw_frame ("{" +:+ q "a" +:+ ":" +:+ q "\ud800" +:+ "}")) = Err (Canonical UnicodeEncodeError) ∧
  decode_hbp_frame (H := nfc_id) float_0 (raw_frame ("{" +:+ q "a" +:+ ": 1}")) = Err (PrismContractError "HBP payload is not canonical").
Proof. vm_compute. done. Qed.
