(* ===== verification/PrismRecovery.v ===== *)
(** The recovery journal of a prism ([simplicio_loop/prism_recovery.py]): a file
    of the binary frames of [HbpFrame] with a hash chain, the state recovered
    from its rows, and the reconciliation of effects that have an intent and no
    receipt. The file is its bytes; how many bytes a write stores is an argument,
    so that torn writes are covered. *)
From S2P Require Import Prelude PyLib PyText PyJson Effects HbpLedger HbpFrame.
Import Json.
Local Open Scope Z_scope.
Local Open Scope py_scope.

(** * Definitions *)

Definition EVENT_SCHEMA : string := "simplicio.prism-journal-event/v1".
Definition EVENT_TYPES : list string :=
  ["hierarchy_declared"; "task_queued"; "task_started"; "task_terminal"; "slot_terminal"; "prism_terminal"; "lease_acquired";
   "lease_heartbeat"; "lease_takeover"; "effect_intent"; "effect_receipt"; "cancel_requested"; "checkpoint"].

(** [PrismRecoveryError]; what [encode_hbp_frame] and the canonical form raise;
    a value of a row of the wrong form. *)
Inductive RecoveryExn : Type :=
| PrismRecoveryError (msg : string)
| ContractRaised (msg : string)
| CanonicalRaised (x : HbpExn)
| BadValue.

Definition of_frame {A} (m : result FrameExn A) : result RecoveryExn A :=
  match m with
  | Ok a => Ok a
  | Err (PrismContractError msg) => Err (ContractRaised msg)
  | Err (Canonical x) => Err (CanonicalRaised x)
  end.
Definition of_hbp {A} (m : result HbpExn A) : result RecoveryExn A := match m with Ok a => Ok a | Err x => Err (CanonicalRaised x) end.

Record RecoveryEvent := mkEvent {
  aggregate_id : string;
  event_type : string;
  payload : receipt_dict;
  prism_id : string;
  slot_id : option string;
  task_id : option string;
  attempt : option Z;
  fence : option Z;
}.

(** [__post_init__] *)
Definition below_one (o : option Z) : bool := match o with Some n => n <? 1 | None => false end.
Definition make_event (e : RecoveryEvent) : result RecoveryExn RecoveryEvent :=
  if negb (Str.truthy (aggregate_id e)) || negb (Str.truthy (prism_id e)) then Err (PrismRecoveryError "aggregate_id and prism_id are required")
  else if negb (bool_decide (event_type e ∈ EVENT_TYPES)) then Err (PrismRecoveryError "unknown recovery event type")
  else if below_one (attempt e) then Err (PrismRecoveryError "attempt must be positive")
  else if below_one (fence e) then Err (PrismRecoveryError "fence must be positive")
  else Ok e.

Definition opt_str (o : option string) : json := match o with Some s => Str s | None => Null end.
Definition opt_int (o : option Z) : json := match o with Some n => Int n | None => Null end.
(** [to_dict] *)
Definition to_dict (e : RecoveryEvent) : receipt_dict :=
  [("aggregate_id", Str (aggregate_id e)); ("event_type", Str (event_type e)); ("payload", Obj (payload e)); ("prism_id", Str (prism_id e));
   ("slot_id", opt_str (slot_id e)); ("task_id", opt_str (task_id e)); ("attempt", opt_int (attempt e)); ("fence", opt_int (fence e))].

(** [PrismJournal.__init__] checks the limit. *)
Definition PrismJournal_init (max_frame_bytes : Z) : result RecoveryExn Z :=
  if negb ((1 <=? max_frame_bytes) && (max_frame_bytes <=? HBP_MAX_FRAME_BYTES)) then Err (PrismRecoveryError "invalid max_frame_bytes") else Ok max_frame_bytes.

(** ** Reading the file. An error of the system while it is read is left out. *)

(** The loop of [_frames] on the bytes that are left; each round takes forty or more. *)
Fixpoint split_frames (fuel : nat) (limit : Z) (raw : string) : result RecoveryExn (list string) :=
  match raw, fuel with
  | "", _ => Ok []
  | _, O => Err (PrismRecoveryError "journal truncated frame")
  | _, S fuel' =>
      if blen raw <? 8 then Err (PrismRecoveryError "journal truncated header")
      else if negb (String.eqb (take_bytes 4 raw) HBP_MAGIC) then Err (PrismRecoveryError "journal frame magic mismatch")
      else
        let size := unpack_u32 (take_bytes 4 (drop_bytes 4 raw)) in
        if limit <? size then Err (PrismRecoveryError "journal frame exceeds limit")
        else
          let stop := 8 + size + 32 in
          if blen raw <? stop then Err (PrismRecoveryError "journal truncated frame")
          else
            let? rest := split_frames fuel' limit (drop_bytes (Z.to_nat stop) raw) in
            Ok (take_bytes (Z.to_nat stop) raw :: rest)
  end.

(** [_frames] *)
Definition frames (limit : Z) (file : option string) : result RecoveryExn (list string) :=
  match file with None => Ok [] | Some raw => split_frames (String.length raw) limit raw end.

(** [row.pop("event_hash")] *)
Definition without_event_hash (row : receipt_dict) : receipt_dict := ddel "event_hash" row.

(** [v in EVENT_TYPES], which raises for a value that cannot be hashed. *)
Definition known_type (v : json) : result RecoveryExn bool :=
  match v with
  | Str s => Ok (bool_decide (s ∈ EVENT_TYPES))
  | List _ | Obj _ => Err BadValue
  | _ => Ok false
  end.

Section Journal.
Context `{Nfc} (parse_float : string → Z).

(** The checks of one row of [replay], without its hash and with it. *)
Definition check_row (sequence : Z) (previous : string) (row : receipt_dict) : result RecoveryExn receipt_dict :=
  let event_hash := Val.get "event_hash" row in
  let body := without_event_hash row in
  let mismatch := Err (PrismRecoveryError "journal hash-chain mismatch") in
  if negb (Val.eq (Val.get "schema" body) (Str EVENT_SCHEMA)) then mismatch
  else if negb (Val.eq (Val.get "sequence" body) (Int sequence)) then mismatch
  else if negb (Val.eq (Val.get "previous_event_hash" body) (Str previous)) then mismatch
  else
    let? known := known_type (Val.get "event_type" body) in
    if negb known then mismatch
    else
      let? h := of_hbp (canonical_sha256 (Obj body)) in
      if negb (Val.eq (Str h) event_hash) then mismatch else Ok (body ++ [("event_hash", event_hash)]).

(** [replay], on the frames. *)
Fixpoint replay_frames (sequence : Z) (previous : string) (fs : list string) : result RecoveryExn (list receipt_dict) :=
  match fs with
  | [] => Ok []
  | f :: fs' =>
      let? row := match decode_hbp_frame parse_float f with
                  | Ok d => Ok d
                  | Err (PrismContractError msg) => Err (PrismRecoveryError msg)
                  | Err (Canonical x) => Err (CanonicalRaised x)
                  end in
      let? row := check_row sequence previous row in
      let? rest := replay_frames (sequence + 1) (Val.str (Val.get "event_hash" row)) fs' in
      Ok (row :: rest)
  end.
Definition replay (limit : Z) (file : option string) : result RecoveryExn (list receipt_dict) :=
  let? fs := frames limit file in replay_frames 1 GENESIS_HASH fs.

(** ** Writing *)

(** [rows[-1]["event_hash"] if rows else GENESIS_HASH] *)
Definition head_of (rows : list receipt_dict) : json :=
  match last rows with Some row => Val.get "event_hash" row | None => Str GENESIS_HASH end.

Definition row_body (rows : list receipt_dict) (now : Z) (e : RecoveryEvent) : receipt_dict :=
  [("schema", Str EVENT_SCHEMA); ("sequence", Int (Z.of_nat (length rows) + 1)); ("previous_event_hash", head_of rows);
   ("observed_at_ns", Int now)] ++ to_dict e.

(** The journal: its file, and how often its clock was read. *)
Record Disk := mkDisk { file : option string; ticks : nat }.

Context (clock_ns : nat → Z) (written : nat → nat → nat) (limit : Z).
Notation P := (prog Disk RecoveryExn).

(** [os.write] of a frame of some length: it stores the first [written] of its bytes. *)
Definition write (frame : string) : P nat := λ d,
  let n := Nat.min (written (ticks d) (String.length frame)) (String.length frame) in
  (mkDisk (Some (default "" (file d) +:+ take_bytes n frame)) (ticks d), Ok n).

Definition load : P (list receipt_dict) := λ d, (d, replay limit (file d)).
Definition now_ns : P Z := λ d, (mkDisk (file d) (S (ticks d)), Ok (clock_ns (ticks d))).

Definition append (e : RecoveryEvent) : P receipt_dict :=
  rows ← load;
  now ← now_ns;
  let body := row_body rows now e in
  h ← of_result (of_hbp (canonical_sha256 (Obj body)));
  let row := body ++ [("event_hash", Str h)] in
  frame ← of_result (of_frame (encode_hbp_frame row));
  _ ← raise_if (limit + 40 <? blen frame) (PrismRecoveryError "encoded journal frame exceeds limit");
  n ← write frame;
  _ ← raise_if (negb (Nat.eqb n (String.length frame))) (PrismRecoveryError "partial journal write");
  mret row.

(** An event is made, and appended. *)
Definition record (e : RecoveryEvent) : P receipt_dict := e ← of_result (make_event e); append e.

Definition effect_intent (prism slot task : string) (attempt fence : Z) (effect_id effect_hash : string) : P receipt_dict :=
  record (mkEvent task "effect_intent" [("effect_id", Str effect_id); ("effect_hash", Str effect_hash)] prism (Some slot) (Some task) (Some attempt) (Some fence)).
Definition effect_receipt (prism slot task : string) (attempt fence : Z) (effect_id receipt_hash : string) (recovered : bool) : P receipt_dict :=
  record (mkEvent task "effect_receipt" [("effect_id", Str effect_id); ("receipt_hash", Str receipt_hash); ("recovered", Bool recovered)] prism (Some slot)
            (Some task) (Some attempt) (Some fence)).

Definition checkpoint (state : receipt_dict) (prism : string) : P receipt_dict :=
  rows ← load;
  digest ← of_result (of_hbp (canonical_sha256 (Obj state)));
  record (mkEvent prism "checkpoint" [("state_digest", Str digest); ("covered_sequence", Int (Z.of_nat (length rows))); ("covered_head", head_of rows)] prism
            None None None None).

(** [doctor], without the time it took: the count and the head, or what is wrong. *)
Definition doctor : P (Z * json + string) := λ d,
  match replay limit (file d) with
  | Ok rows => (d, Ok (inl (Z.of_nat (length rows), head_of rows)))
  | Err (PrismRecoveryError msg) => (d, Ok (inr msg))
  | Err x => (d, Err x)
  end.
End Journal.

(** ** Recovery *)

(** The dicts and the set of [recover_state]. *)
Record Recovered := mkRecovered {
  rs_tasks : list (string * string);
  rs_fences : list (string * Z);
  rs_intents : list (string * receipt_dict);
  rs_receipts : list (string * receipt_dict);
  rs_active : list string;
}.
#[export] Instance Recovered_eta : Eta Recovered := λ s, mkRecovered (rs_tasks s) (rs_fences s) (rs_intents s) (rs_receipts s) (rs_active s).
Definition nothing : Recovered := mkRecovered [] [] [] [] [].

Definition is_type (row : receipt_dict) (t : string) : bool := Val.eq (Val.get "event_type" row) (Str t).
(** [dict(row.get("payload") or {})] *)
Definition payload_of (row : receipt_dict) : result RecoveryExn receipt_dict :=
  match Val.or_else (Val.get "payload" row) (Obj []) with Obj p => Ok p | _ => Err BadValue end.
(** [int(v)] *)
Definition as_int (v : json) : result RecoveryExn Z := or_raise (Val.to_float v) BadValue.

(** The three parts of the loop's body. *)
Definition recover_task (row : receipt_dict) (task : string) (p : receipt_dict) (s : Recovered) : result RecoveryExn Recovered :=
  if negb (Str.truthy task) then Ok s
  else if is_type row "task_queued" then Ok (s <| rs_tasks ::= dput task "queued" |> <| rs_active ::= λ l, if bool_decide (task ∈ l) then l else l ++ [task] |>)
  else if is_type row "task_started" then Ok (s <| rs_tasks ::= dput task "running" |> <| rs_active ::= λ l, if bool_decide (task ∈ l) then l else l ++ [task] |>)
  else if is_type row "task_terminal" then
    if negb (Val.truthy (Val.get "receipt_hash" p)) then Err (PrismRecoveryError "terminal event missing receipt")
    else Ok (s <| rs_tasks ::= dput task (Val.str (Val.or_else (Val.get "state" p) (Str "blocked"))) |> <| rs_active ::= List.filter (λ t, negb (String.eqb t task)) |>)
  else Ok s.
Definition recover_fence (row : receipt_dict) (task : string) (s : Recovered) : result RecoveryExn Recovered :=
  match Str.truthy task, Val.get "fence" row with
  | false, _ | _, Null => Ok s
  | true, v =>
      let? f := as_int v in
      if f <? default 0 (dget task (rs_fences s)) then Err (PrismRecoveryError "fence regressed during replay")
      else Ok (s <| rs_fences ::= dput task f |>)
  end.
Definition recover_effect (row p : receipt_dict) (s : Recovered) : result RecoveryExn Recovered :=
  let effect := Val.text (Val.get "effect_id" p) in
  if is_type row "effect_intent" then
    if negb (Str.truthy effect) then Err (PrismRecoveryError "effect intent missing id")
    else Ok (s <| rs_intents ::= dput effect row |>)
  else if is_type row "effect_receipt" then
    if negb (Str.truthy effect) || bool_decide (dget effect (rs_intents s) = None) then Err (PrismRecoveryError "effect receipt has no prior intent")
    else Ok (s <| rs_receipts ::= dput effect row |>)
  else Ok s.
Definition recover_row (s : Recovered) (row : receipt_dict) : result RecoveryExn Recovered :=
  let task := Val.text (Val.get "task_id" row) in
  let? p := payload_of row in
  let? s := recover_task row task p s in
  let? s := recover_fence row task s in
  recover_effect row p s.
Definition recover_rows (rows : list receipt_dict) : result RecoveryExn Recovered :=
  foldl (λ acc row, let? s := acc in recover_row s row) (Ok nothing) rows.

Definition orphans (s : Recovered) : list string :=
  py_sorted (List.filter (λ e, bool_decide (dget e (rs_receipts s) = None)) (rs_intents s).*1).

(** [recover_state]: the document without its digest. *)
Definition recovered_document (s : Recovered) : receipt_dict :=
  [("schema", Str "simplicio.prism-recovered-state/v1"); ("tasks", Obj ((λ kv, (kv.1, Str kv.2)) <$> sort_dict (rs_tasks s)));
   ("fences", Obj ((λ kv, (kv.1, Int kv.2)) <$> sort_dict (rs_fences s))); ("active_children", List (Str <$> py_sorted (rs_active s)));
   ("effect_intents", List (Str <$> py_sorted (rs_intents s).*1)); ("effect_receipts", List (Str <$> py_sorted (rs_receipts s).*1));
   ("orphan_intents", List (Str <$> orphans s))].

(** [row[key]] *)
Definition field (key : string) (row : receipt_dict) : result RecoveryExn json := or_raise (dget key row) BadValue.

Section Recovery.
Context `{Nfc} (parse_float : string → Z) (clock_ns : nat → Z) (written : nat → nat → nat) (limit : Z).
Notation P := (prog Disk RecoveryExn).

Definition recover_state (rows : list receipt_dict) : result RecoveryExn (Recovered * receipt_dict) :=
  let? s := recover_rows rows in
  let d := recovered_document s in
  let? h := of_hbp (canonical_sha256 (Obj d)) in
  Ok (s, d ++ [("state_digest", Str h)]).

(** [by_effect]: the last intent of every effect; the rows are those of [replay]. *)
Definition by_effect (rows : list receipt_dict) : result RecoveryExn (list (string * receipt_dict)) :=
  foldl (λ acc row, let? d := acc in
           if is_type row "effect_intent" then
             let? p := field "payload" row in
             match p with
             | Obj p => let? e := field "effect_id" p in Ok (dput (Val.str e) row d)
             | _ => Err BadValue
             end
           else Ok d) (Ok []) rows.

(** The loop over the orphans: what was reconciled, and what remains. *)
Fixpoint reconcile_loop (lookup : string → option string) (intents : list (string * receipt_dict)) (l : list string) : P (list string * list string) :=
  match l with
  | [] => mret ([], [])
  | e :: l' =>
      match lookup e with
      | None | Some "" =>
          '(done, required) ← reconcile_loop lookup intents l';
          mret (done, e :: required)
      | Some h =>
          intent ← of_result (or_raise (dget e intents) BadValue);
          prism ← of_result (field "prism_id" intent);
          slot ← of_result (field "slot_id" intent);
          task ← of_result (field "task_id" intent);
          a ← of_result (let? v := field "attempt" intent in as_int v);
          f ← of_result (let? v := field "fence" intent in as_int v);
          _ ← effect_receipt parse_float clock_ns written limit (Val.str prism) (Val.str slot) (Val.str task) a f e h true;
          '(done, required) ← reconcile_loop lookup intents l';
          mret (e :: done, required)
      end
  end.

(** [reconcile_orphan_intents]: the effects reconciled and those that still
    require recovery; it runs none of them again. *)
Definition reconcile_orphan_intents (lookup : string → option string) : P (list string * list string) :=
  rows ← load parse_float limit;
  '(s, _) ← of_result (recover_state rows);
  intents ← of_result (by_effect rows);
  '(done, required) ← reconcile_loop lookup intents (orphans s);
  mret (py_sorted done, py_sorted required).

(** [assert_current_fence] *)
Definition assert_current_fence (s : Recovered) (task : string) (f : Z) : result RecoveryExn unit :=
  match dget task (rs_fences s) with
  | Some current => if current =? f then Ok tt else Err (PrismRecoveryError "STALE_FENCE")
  | None => Err (PrismRecoveryError "STALE_FENCE")
  end.
End Recovery.

(** * Specification *)

(** A write stores the whole frame. *)
Definition full_writes (written : nat → nat → nat) : Prop := ∀ n len, (len <= written n len)%nat.

(** The row that is read back from what [append] returned: the same document,
    its texts in normal form C, sorted by key, with the hash at the end. *)
Definition read_back `{Nfc} (row row' : receipt_dict) : Prop := ∃ w h,
  normalize (Obj row) = Ok (Obj (w ++ [("event_hash", Str h)])) ∧ row' = sorted_fields w ++ [("event_hash", Str h)].

(** The row that is written for an event after some rows, and its frame. *)
Definition framed_row `{Nfc} (limit : Z) (rows : list receipt_dict) (now : Z) (e : RecoveryEvent) : result RecoveryExn (receipt_dict * string) :=
  let? h := of_hbp (canonical_sha256 (Obj (row_body rows now e))) in
  let row := row_body rows now e ++ [("event_hash", Str h)] in
  let? frame := of_frame (encode_hbp_frame row) in
  if limit + 40 <? blen frame then Err (PrismRecoveryError "encoded journal frame exceeds limit") else Ok (row, frame).

(** What a row says of the task [t]: its fence; its state and whether it is still active. *)
Definition of_task (t : string) (row : receipt_dict) : bool := Str.truthy t && String.eqb (Val.text (Val.get "task_id" row)) t.
Definition row_fence (t : string) (row : receipt_dict) : option Z :=
  if of_task t row then Val.to_float (Val.get "fence" row) else None.
Definition row_state (t : string) (row : receipt_dict) : option (string * bool) :=
  if negb (of_task t row) then None
  else if is_type row "task_queued" then Some ("queued", true)
  else if is_type row "task_started" then Some ("running", true)
  else if is_type row "task_terminal" then Some (Val.str (Val.or_else (Val.get "state" (ok_or [] (payload_of row))) (Str "blocked")), false)
  else None.
(** The effect that a row of the given type is about. *)
Definition effect_of (kind : string) (row : receipt_dict) : option string :=
  if is_type row kind then
    let e := Val.text (Val.get "effect_id" (ok_or [] (payload_of row))) in if Str.truthy e then Some e else None
  else None.
Definition reported (kind e : string) (rows : list receipt_dict) : Prop := ∃ row, row ∈ rows ∧ effect_of kind row = Some e.

(** A row that may follow the rows [before]: a terminal row has its receipt, the
    fence of a task never goes back, an effect is named, a receipt comes after
    an intent. *)
Record may_follow (before : list receipt_dict) (row : receipt_dict) : Prop := {
  mf_payload : ∃ p, payload_of row = Ok p ∧
    (Val.text (Val.get "task_id" row) ≠ "" → is_type row "task_terminal" = true → Val.truthy (Val.get "receipt_hash" p) = true);
  mf_fence t : of_task t row = true → Val.get "fence" row ≠ Null →
    ∃ f, row_fence t row = Some f ∧ 0 <= f ∧ ∀ r g, r ∈ before → row_fence t r = Some g → g <= f;
  mf_intent : is_type row "effect_intent" = true → ∃ e, effect_of "effect_intent" row = Some e;
  mf_receipt : is_type row "effect_receipt" = true → ∃ e, effect_of "effect_receipt" row = Some e ∧ reported "effect_intent" e before;
}.
Definition consistent (rows : list receipt_dict) : Prop := ∀ before row after, rows = before ++ row :: after → may_follow before row.

(** The hash the next row refers to, after rows that start at one. *)
Definition tail_hash (prev : string) (rows : list receipt_dict) : string :=
  match last rows with Some row => Val.str (Val.get "event_hash" row) | None => prev end.

(** The event as it is read back. *)
Definition nfc_event `{Nfc} (e : RecoveryEvent) (p : receipt_dict) : RecoveryEvent :=
  mkEvent (nfc (aggregate_id e)) (event_type e) p (nfc (prism_id e)) (nfc <$> slot_id e) (nfc <$> task_id e) (attempt e) (fence e).

(** What a part of the loop's body does to the tasks, on a row that names a task. *)
Definition moved_task (row : receipt_dict) (s s' : Recovered) : Prop :=
  (∀ t, dget t (rs_tasks s') = match row_state t row with Some (st, _) => Some st | None => dget t (rs_tasks s) end) ∧
  (∀ t, t ∈ rs_active s' ↔ match row_state t row with Some (_, b) => b = true | None => t ∈ rs_active s end) ∧
  rs_fences s' = rs_fences s ∧ rs_intents s' = rs_intents s ∧ rs_receipts s' = rs_receipts s.

(** The state after rows, in terms of the rows. *)
Record describes (rows : list receipt_dict) (s : Recovered) : Prop := {
  ds_task t : dget t (rs_tasks s) = fst <$> last (omap (row_state t) rows);
  ds_active t : t ∈ rs_active s ↔ ∃ st, last (omap (row_state t) rows) = Some (st, true);
  ds_fence t : dget t (rs_fences s) = last (omap (row_fence t) rows);
  ds_bound t r g : r ∈ rows → row_fence t r = Some g → 0 <= g <= default 0 (dget t (rs_fences s));
  ds_intent e : is_Some (dget e (rs_intents s)) ↔ reported "effect_intent" e rows;
  ds_receipt e : is_Some (dget e (rs_receipts s)) ↔ reported "effect_receipt" e rows;
}.

(** The effects whose receipt is known. *)
Definition known (lookup : string → option string) (e : string) : bool := match lookup e with None | Some "" => false | _ => true end.

(** A journal with one intent. *)
Section DemoDefinitions.
#[local] Existing Instance nfc_id.
Definition demo_clock (n : nat) : Z := 1000 + Z.of_nat n.
Definition whole (n len : nat) : nat := len.
Definition demo_intent (fence : Z) : prog Disk RecoveryExn receipt_dict :=
  effect_intent float_0 demo_clock whole 4096 "prism" "slot" "task" 1 fence "effect" "hash".
Definition demo_disk : Disk := Eval vm_compute in (demo_intent 1 (mkDisk None 0)).1.
Definition demo_rows : list receipt_dict := Eval vm_compute in ok_or [] (replay float_0 4096 (file demo_disk)).
Definition demo_recovered : Recovered := Eval vm_compute in ok_or nothing (recover_rows demo_rows).
Definition demo_lookup (e : string) : option string := Some "receipt".
Definition torn (n len : nat) : nat := 10.
Definition demo_event : RecoveryEvent := mkEvent "task" "lease_takeover" [] "prism" None (Some "task") None (Some 2).
Definition demo_reconciled : Disk := Eval vm_compute in (reconcile_orphan_intents float_0 demo_clock whole 4096 demo_lookup demo_disk).1.
Definition demo_taken : Disk := Eval vm_compute in (append float_0 demo_clock whole 4096 demo_event demo_disk).1.
End DemoDefinitions.

(** * Lemmas *)

(** ** Frames *)

Lemma take_bytes_app n a b : (n <= String.length a)%nat → take_bytes n (a +:+ b) = take_bytes n a.
Proof. revert a. induction n as [|n IH]; [done|]. intros [|c a] Hn; cbn [String.length] in Hn; [lia|]. change (String c a +:+ b) with (String c (a +:+ b)). cbn [take_bytes]. rewrite IH by lia. done. Qed.
Lemma drop_bytes_app n a b : (n <= String.length a)%nat → drop_bytes n (a +:+ b) = drop_bytes n a +:+ b.
Proof. revert a. induction n as [|n IH]; [done|]. intros [|c a] Hn; cbn [String.length] in Hn; [lia|]. change (String c a +:+ b) with (String c (a +:+ b)). cbn [drop_bytes]. apply IH. lia. Qed.
Lemma drop_length n s : (n <= String.length s)%nat → String.length (drop_bytes n s) = (String.length s - n)%nat.
Proof. intros Hn. pose proof (f_equal String.length (take_drop n s)) as E. rewrite slength_app, take_length in E by done. lia. Qed.
Lemma take_take n m s : (n <= m)%nat → take_bytes n (take_bytes m s) = take_bytes n s.
Proof. revert m s. induction n as [|n IH]; [done|]. intros [|m] [|c s] Hn; try done; [lia|]. cbn [take_bytes]. rewrite IH by lia. done. Qed.
Lemma drop_take n m s : (n <= m)%nat → drop_bytes n (take_bytes m s) = take_bytes (m - n) (drop_bytes n s).
Proof. revert m s. induction n as [|n IH]; intros m s Hn; [by rewrite Nat.sub_0_r|]. destruct m as [|m]; [lia|]. destruct s as [|c s]; [by destruct (S m - S n)%nat|]. cbn. apply IH. lia. Qed.

Lemma raw_frame_length p : String.length (raw_frame p) = (40 + String.length p)%nat.
Proof. unfold raw_frame. rewrite !slength_app, pack_length, digest_length. cbn. lia. Qed.
Lemma raw_frame_magic p : take_bytes 4 (raw_frame p) = HBP_MAGIC.
Proof. by apply take_app. Qed.
Lemma raw_frame_size p : blen p < 2 ^ 32 → unpack_u32 (take_bytes 4 (drop_bytes 4 (raw_frame p))) = blen p.
Proof.
  intros Hp. unfold raw_frame. rewrite (drop_app 4 HBP_MAGIC) by done. rewrite (take_app 4) by apply pack_length. apply unpack_pack. unfold blen in *. lia.
Qed.

Section Frames.
Context (limit : Z).
Notation truncated := (Err (PrismRecoveryError "journal truncated frame") : result RecoveryExn (list string)).

Lemma split_frames_eq fuel raw : raw ≠ "" → split_frames (S fuel) limit raw =
  if blen raw <? 8 then Err (PrismRecoveryError "journal truncated header")
  else if negb (String.eqb (take_bytes 4 raw) HBP_MAGIC) then Err (PrismRecoveryError "journal frame magic mismatch")
  else let size := unpack_u32 (take_bytes 4 (drop_bytes 4 raw)) in
    if limit <? size then Err (PrismRecoveryError "journal frame exceeds limit")
    else if blen raw <? 8 + size + 32 then truncated
    else let? rest := split_frames fuel limit (drop_bytes (Z.to_nat (8 + size + 32)) raw) in Ok (take_bytes (Z.to_nat (8 + size + 32)) raw :: rest).
Proof. by destruct raw. Qed.

Lemma size_bounds raw : 8 <= blen raw → 0 <= unpack_u32 (take_bytes 4 (drop_bytes 4 raw)).
Proof. intros Hl. unfold blen in Hl. apply unpack_bounds, take_length. rewrite drop_length by lia. lia. Qed.

Lemma split_fuel n m raw : (String.length raw <= n)%nat → (String.length raw <= m)%nat → split_frames n limit raw = split_frames m limit raw.
Proof.
  revert m raw. induction n as [|n IH]; intros m raw Hn Hm; [by destruct raw; [destruct m|cbn in Hn; lia]|].
  destruct raw as [|c raw]; [by destruct m|]. destruct m as [|m]; [cbn in Hm; lia|]. set (s := String c raw) in *. rewrite !split_frames_eq by done.
  destruct (blen s <? 8) eqn:E8; [done|]. destruct (negb _); [done|]. cbv zeta. set (size := unpack_u32 _). destruct (limit <? size); [done|].
  destruct (blen s <? 8 + size + 32) eqn:Es; [done|]. zbool. pose proof (size_bounds s E8) as Hs. fold size in Hs. unfold blen in *. clearbody size s.
  by rewrite (IH m (drop_bytes (Z.to_nat (8 + size + 32)) s)) by (rewrite drop_length by lia; lia).
Qed.

Lemma split_frames_app n raw fs : (String.length raw <= n)%nat → split_frames n limit raw = Ok fs → ∀ rest m, (String.length (raw +:+ rest) <= m)%nat →
  split_frames m limit (raw +:+ rest) = let? r := split_frames m limit rest in Ok (fs ++ r).
Proof.
  revert raw fs. induction n as [|n IH]; intros raw fs Hn Hok rest m Hm.
  { destruct raw; [|cbn in Hn; lia]. injection Hok as <-. change ("" +:+ rest) with rest. by destruct (split_frames m limit rest). }
  destruct raw as [|c raw]; [injection Hok as <-; change ("" +:+ rest) with rest; by destruct (split_frames m limit rest)|].
  destruct m as [|m]; [rewrite slength_app in Hm; cbn in Hm; lia|]. set (s := String c raw) in *. rewrite split_frames_eq in Hok by done. rewrite split_frames_eq by done.
  destruct (blen s <? 8) eqn:E8; [done|]. destruct (negb _) eqn:Em; [done|]. cbv zeta in *. set (size := unpack_u32 _) in Hok.
  destruct (limit <? size) eqn:El; [done|]. destruct (blen s <? 8 + size + 32) eqn:Es; [done|].
  destruct (split_frames n limit _) as [r|] eqn:Er; [cbn [rbind] in Hok|done]. injection Hok as <-. zbool.
  pose proof (size_bounds s E8) as Hs. fold size in Hs. unfold blen in *. rewrite slength_app in *. 
  rewrite (proj2 (Z.ltb_ge _ _)) by lia. rewrite take_bytes_app, Em by lia.
  rewrite (drop_bytes_app 4) by lia. rewrite take_bytes_app by (rewrite drop_length by lia; lia). fold size.
  clearbody size. rewrite (proj2 (Z.ltb_ge _ _)), (proj2 (Z.ltb_ge _ _)) by lia. clearbody s. rewrite drop_bytes_app, take_bytes_app by lia.
  rewrite (IH (drop_bytes (Z.to_nat (8 + size + 32)) s) _ ltac:(rewrite drop_length by lia; lia) Er) by (rewrite slength_app, drop_length by lia; lia).
  rewrite (split_fuel m (S m) rest) by (cbn [String.length] in *; lia). by destruct (split_frames (S m) limit rest).
Qed.

Lemma split_one m p : blen p <= limit → limit <= HBP_MAX_FRAME_BYTES → (40 + String.length p <= m)%nat → split_frames m limit (raw_frame p) = Ok [raw_frame p].
Proof.
  intros Hp Hl Hm. destruct m as [|m]; [lia|]. pose proof (raw_frame_length p) as Hlen. unfold HBP_MAX_FRAME_BYTES in Hl.
  rewrite split_frames_eq by (intros E; rewrite E in Hlen; cbn in Hlen; lia). rewrite raw_frame_size by lia. unfold blen in *. rewrite Hlen.
  rewrite (proj2 (Z.ltb_ge _ _)) by lia. rewrite raw_frame_magic, String.eqb_refl. cbn [negb]. cbv zeta.
  rewrite (proj2 (Z.ltb_ge _ _)), (proj2 (Z.ltb_ge _ _)) by lia.
  assert (drop_bytes (Z.to_nat (8 + Z.of_nat (String.length p) + 32)) (raw_frame p) = "") as ->.
  { pose proof (drop_length (40 + String.length p) (raw_frame p) ltac:(lia)) as Hd. replace (Z.to_nat _) with (40 + String.length p)%nat by lia.
    destruct (drop_bytes _ _); [done|cbn in Hd; lia]. }
  destruct m; cbn [split_frames rbind]; f_equal; f_equal.
  all: pose proof (take_drop (40 + String.length p) (raw_frame p)) as E; replace (Z.to_nat _) with (40 + String.length p)%nat by lia.
  all: assert (drop_bytes (40 + String.length p) (raw_frame p) = "") as E2 by (pose proof (drop_length (40 + String.length p) (raw_frame p) ltac:(lia)) as Hd; destruct (drop_bytes _ _); [done|cbn in Hd; lia]).
  all: by rewrite E2, sapp_nil in E.
Qed.

(** A frame that was not written to its end. *)
Lemma split_torn m p k : blen p <= limit → limit <= HBP_MAX_FRAME_BYTES → (0 < k < 40 + String.length p)%nat → (k <= m)%nat →
  ∃ msg, split_frames m limit (take_bytes k (raw_frame p)) = Err (PrismRecoveryError msg).
Proof.
  intros Hp Hl Hk Hm. pose proof (raw_frame_length p) as Hlen. assert (String.length (take_bytes k (raw_frame p)) = k) as Hk' by (apply take_length; lia).
  destruct m as [|m]; [lia|]. unfold HBP_MAX_FRAME_BYTES in Hl. unfold blen in *.
  rewrite split_frames_eq by (intros E; rewrite E in Hk'; cbn in Hk'; lia). unfold blen. rewrite Hk'.
  destruct (Z.of_nat k <? 8) eqn:E8; [by eexists|]. zbool. rewrite take_take, raw_frame_magic, String.eqb_refl by lia. cbn [negb]. cbv zeta.
  rewrite drop_take, take_take, raw_frame_size by (unfold blen; lia). unfold blen.
  rewrite (proj2 (Z.ltb_ge _ _)) by lia. rewrite (proj2 (Z.ltb_lt _ _)) by lia. by eexists.
Qed.
End Frames.

(** ** Rows *)
Section Rows.
#[local] Arguments dget _ _ _ /.
Context `{Nfc} (pf : string → Z).

Lemma get_event_hash row h : Val.get "event_hash" (without_event_hash row ++ [("event_hash", Str h)]) = Str h.
Proof.
  unfold Val.get, without_event_hash. rewrite dget_snoc.
  { by rewrite decide_True. }
  apply dget_None. by rewrite dget_del, decide_True.
Qed.

Lemma check_row_inv n prev row row' : check_row n prev row = Ok row' →
  ∃ h, row' = without_event_hash row ++ [("event_hash", Str h)] ∧ Val.get "event_hash" row' = Str h ∧ is_ascii h = true.
Proof.
  unfold check_row. destruct (negb _); [done|]. destruct (negb _); [done|]. destruct (negb _); [done|].
  intros (known & _ & Hrow)%rbind_Ok. destruct (negb known); [done|]. apply rbind_Ok in Hrow as (h & Hh & Hrow).
  destruct (Val.eq (Str h) _) eqn:E; [|done]. apply Str_eq in E. injection Hrow as <-. exists h. rewrite E, get_event_hash.
  split; [done|]. split; [done|]. unfold of_hbp in Hh. destruct (canonical_sha256 _) eqn:Eh; [|done]. injection Hh as <-.
  by apply canonical_sha256_text in Eh as [].
Qed.

Lemma tail_hash_cons prev row rows : tail_hash prev (row :: rows) = tail_hash (Val.str (Val.get "event_hash" row)) rows.
Proof. unfold tail_hash. rewrite last_cons. by destruct (last rows). Qed.

Lemma replay_frames_app n prev fs gs : replay_frames pf n prev (fs ++ gs) =
  let? rows := replay_frames pf n prev fs in
  let? more := replay_frames pf (n + Z.of_nat (length rows)) (tail_hash prev rows) gs in Ok (rows ++ more).
Proof.
  revert n prev. induction fs as [|f fs IH]; intros n prev; cbn [app replay_frames rbind].
  { cbn [length tail_hash last]. rewrite Z.add_0_r. unfold tail_hash. cbn [last]. by destruct (replay_frames pf n prev gs). }
  destruct (match decode_hbp_frame pf f with Ok d => Ok d | Err _ => _ end) as [row|x]; [|done]. cbn [rbind].
  destruct (check_row n prev row) as [row'|x]; [|done]. cbn [rbind]. rewrite IH.
  destruct (replay_frames pf (n + 1) _ fs) as [rows|x]; [|done]. cbn [rbind length]. rewrite tail_hash_cons.
  replace (n + 1 + Z.of_nat (length rows)) with (n + Z.of_nat (S (length rows))) by lia.
  by destruct (replay_frames pf (n + Z.of_nat (S (length rows))) _ gs).
Qed.

Lemma replay_head n prev fs rows : is_ascii prev = true → replay_frames pf n prev fs = Ok rows →
  is_ascii (tail_hash prev rows) = true ∧ match last rows with Some row => Val.get "event_hash" row | None => Str prev end = Str (tail_hash prev rows).
Proof.
  revert n prev rows. induction fs as [|f fs IH]; intros n prev rows Hp; cbn [replay_frames].
  { by intros [= <-]. }
  intros (row & _ & (row' & Hc & (rest & Hr & [= <-])%rbind_Ok)%rbind_Ok)%rbind_Ok.
  apply check_row_inv in Hc as (h & _ & Hh & Ha). rewrite Hh in Hr. destruct (IH _ _ _ Ha Hr) as [H1 H2].
  rewrite tail_hash_cons, Hh. split; [done|]. rewrite last_cons. unfold tail_hash in *. destruct (last rest); [done|]. by rewrite Hh.
Qed.

(** *** A row, written and read back *)
Lemma event_type_ascii t : t ∈ EVENT_TYPES → is_ascii t = true.
Proof. intros Ht. revert t Ht. apply Forall_forall. by_compute. Qed.

Lemma make_event_Ok e ev : make_event e = Ok ev → ev = e ∧ event_type e ∈ EVENT_TYPES.
Proof. unfold make_event. destruct (_ || _); [done|]. case_bool_decide; cbn [negb]; [|done]. do 2 (destruct (below_one _); [done|]). by intros [= <-]. Qed.

Lemma row_body_keys rows now e : NoDup ((row_body rows now e).*1 ++ ["event_hash"]).
Proof. by_compute. Qed.
Lemma row_keys rows now e : NoDup (row_body rows now e).*1.
Proof. by_compute. Qed.
Lemma row_keys' rows now e h : NoDup (row_body rows now e ++ [("event_hash", h)]).*1.
Proof. by_compute. Qed.

Lemma normalize_payload rows now e w : normalize (Obj (row_body rows now e)) = Ok w → ∃ p, normalize (Obj (payload e)) = Ok (Obj p).
Proof.
  destruct (normalize (Obj (payload e))) as [v|x] eqn:E; [intros _; destruct (normalize_Obj_inv _ _ E) as [p ->]; by exists p|].
  rewrite normalize_Obj. unfold row_body, to_dict. cbn [app normalize_fields]. rewrite E.
  destruct (normalize (head_of rows)); [|done]. done.
Qed.

Section Written.
Context (rows : list receipt_dict) (now : Z) (e : RecoveryEvent) (g : string) (p : receipt_dict) (h : string).
Context (Hhead : head_of rows = Str g) (Hg : is_ascii g = true) (He : event_type e ∈ EVENT_TYPES).
Context (Hp : normalize (Obj (payload e)) = Ok (Obj p)) (Hh : canonical_sha256 (Obj (row_body rows now e)) = Ok h).
Notation w := (row_body rows now (nfc_event e p)).

Lemma normalize_row_fields : Forall2 (λ x y, nfc x.1 = y.1 ∧ normalize x.2 = Ok y.2) (row_body rows now e) w.
Proof using Hhead Hg He Hp.
  unfold row_body, to_dict, nfc_event. rewrite Hhead. cbn [app aggregate_id event_type payload prism_id slot_id task_id attempt fence].
  repeat (apply Forall2_cons; split; [cbn [fst snd]; split; [by apply nfc_ascii|]|]); try done; try constructor.
  - cbn [normalize]. do 2 f_equal. by apply nfc_ascii.
  - cbn [normalize]. do 2 f_equal. by apply nfc_ascii.
  - cbn [normalize]. do 2 f_equal. by apply nfc_ascii, event_type_ascii.
  - by destruct (slot_id e).
  - by destruct (task_id e).
  - by destruct (attempt e).
  - by destruct (fence e).
Qed.

Lemma normalize_row : normalize (Obj (row_body rows now e ++ [("event_hash", Str h)])) = Ok (Obj (w ++ [("event_hash", Str h)])).
Proof using Hhead Hg He Hp Hh.
  apply normalize_fields_map; [apply row_keys'|]. apply Forall2_app; [apply normalize_row_fields|].
  repeat constructor; cbn [fst snd]; [by apply nfc_ascii|]. cbn [normalize]. do 2 f_equal. apply nfc_ascii, (canonical_sha256_text _ _ Hh).
Qed.

Lemma check_written : check_row (Z.of_nat (length rows) + 1) g (sorted_fields (w ++ [("event_hash", Str h)])) = Ok (sorted_fields w ++ [("event_hash", Str h)]).
Proof using Hhead Hg He Hp Hh.
  unfold check_row. unfold without_event_hash. rewrite ddel_sorted by apply row_body_keys.
  assert (canonical_sha256 (Obj (sorted_fields w)) = Ok h) as Hh'.
  { rewrite <- canon_Obj_sorted. eapply canonical_sha256_canon; [|exact Hh]. apply normalize_fields_map; [apply row_keys|apply normalize_row_fields]. }
  rewrite !get_sorted by apply row_keys || apply row_keys'. rewrite Hh'. clear Hh'.
  generalize (sorted_fields w) as out. intros out. unfold row_body, to_dict, nfc_event, Val.get. cbn -[canon head_of EVENT_TYPES Val.eq known_type]. rewrite Hhead.
  change (canon (Str ?s)) with (Str s). change (canon (Int ?s)) with (Int s).
  cbn [Val.eq Val.number negb known_type]. rewrite !String.eqb_refl, Z.eqb_refl. cbn [negb rbind]. rewrite bool_decide_eq_true_2 by done. done.
Qed.
End Written.
End Rows.

(** ** Appending *)
Section Append.
Context `{Nfc} (pf : string → Z) (clock_ns : nat → Z) (written : nat → nat → nat) (limit : Z).

Lemma init_limit : PrismJournal_init limit = Ok limit → limit <= HBP_MAX_FRAME_BYTES.
Proof. unfold PrismJournal_init. destruct (_ && _) eqn:E; [|done]. zbool. lia. Qed.

Lemma journal_append_eq e d : append pf clock_ns written limit e d =
  match replay pf limit (file d) with
  | Err x => (d, Err x)
  | Ok rows =>
      match framed_row limit rows (clock_ns (ticks d)) e with
      | Err x => (mkDisk (file d) (S (ticks d)), Err x)
      | Ok (row, frame) =>
          let n := Nat.min (written (S (ticks d)) (String.length frame)) (String.length frame) in
          (mkDisk (Some (default "" (file d) +:+ take_bytes n frame)) (S (ticks d)),
           if Nat.eqb n (String.length frame) then Ok row else Err (PrismRecoveryError "partial journal write"))
      end
  end.
Proof.
  unfold append, framed_row, load, now_ns, write, of_result, mbind, prog_bind, raise_if, raise, mret, prog_ret.
  destruct (replay pf limit (file d)) as [rows|x]; [|done]. cbn [file ticks].
  destruct (of_hbp (canonical_sha256 (Obj (row_body rows (clock_ns (ticks d)) e)))) as [h|x]; [|done]. cbn [rbind].
  destruct (of_frame (encode_hbp_frame _)) as [frame|x]; [|done]. cbn [rbind].
  destruct (limit + 40 <? blen frame); [done|]. cbv zeta. cbn [file ticks]. by destruct (Nat.eqb _ _).
Qed.

Lemma frames_default f : frames limit f = split_frames (String.length (default "" f)) limit (default "" f).
Proof. by destruct f. Qed.

Lemma frames_app f fs rest : frames limit f = Ok fs →
  frames limit (Some (default "" f +:+ rest)) = let? r := split_frames (String.length rest) limit rest in Ok (fs ++ r).
Proof.
  rewrite frames_default. cbn [frames]. intros Hf. rewrite (split_frames_app limit _ _ _ (le_n _) Hf rest _ (le_n _)).
  by rewrite (split_fuel limit _ (String.length rest)) by (rewrite ?slength_app; lia).
Qed.

Lemma framed_row_inv rows now e row frame : framed_row limit rows now e = Ok (row, frame) →
  ∃ h payload, canonical_sha256 (Obj (row_body rows now e)) = Ok h ∧ row = row_body rows now e ++ [("event_hash", Str h)] ∧
    encode_hbp_frame row = Ok frame ∧ frame = raw_frame payload ∧ blen payload <= limit.
Proof.
  unfold framed_row. intros (h & Hh & (frame' & Hf & Hl)%rbind_Ok)%rbind_Ok.
  destruct (canonical_sha256 _) as [h'|] eqn:Eh; [|done]. injection Hh as ->.
  destruct (encode_hbp_frame _) as [f|[]] eqn:Ef; [|done..]. injection Hf as ->. destruct (limit + 40 <? blen frame') eqn:El; [done|].
  injection Hl as <- <-. pose proof Ef as Hen. unfold encode_hbp_frame in Ef. destruct (canonical_bytes _) as [p|] eqn:Ep; [|done]. cbn [of_canonical rbind] in Ef.
  destruct (blen p >? HBP_MAX_FRAME_BYTES) eqn:Em; [done|]. injection Ef as <-. exists h, p. split; [done|]. split; [done|].
  split; [exact Hen|]. split; [done|].
  change (HBP_MAGIC +:+ _) with (raw_frame p) in El. unfold blen in *. rewrite raw_frame_length in El. zbool. lia.
Qed.

(** A row that was written whole. *)
Lemma replay_written f rows now e row frame : limit <= HBP_MAX_FRAME_BYTES → event_type e ∈ EVENT_TYPES →
  replay pf limit f = Ok rows → framed_row limit rows now e = Ok (row, frame) →
  ∃ p h, let row' := sorted_fields (row_body rows now (nfc_event e p)) ++ [("event_hash", Str h)] in
    normalize (Obj (payload e)) = Ok (Obj p) ∧ read_back row row' ∧ replay pf limit (Some (default "" f +:+ frame)) = Ok (rows ++ [row']).
Proof.
  intros Hlim He Hr Hf. apply framed_row_inv in Hf as (h & payload & Hh & -> & Hen & -> & Hl).
  unfold replay in *. apply rbind_Ok in Hr as (fs & Hfs & Hr). rewrite (frames_app _ _ _ Hfs).
  rewrite split_one by (done || rewrite raw_frame_length; lia). cbn [rbind]. rewrite replay_frames_app, Hr. cbn [rbind].
  destruct (replay_head pf 1 GENESIS_HASH fs rows ltac:(by vm_compute) Hr) as [Ha Hhead].
  assert (head_of rows = Str (tail_hash GENESIS_HASH rows)) as Hhead' by exact Hhead.
  pose proof (proj1 (canonical_sha256_Ok _ _) Hh) as (b & (w & Hw & _)%canonical_bytes_Ok & _).
  apply normalize_payload in Hw as (p & Hp).
  pose proof (normalize_row rows now e _ p h Hhead' Ha He Hp Hh) as Hn.
  exists p, h. cbv zeta. split; [done|]. split; [by exists (row_body rows now (nfc_event e p)), h|].
  cbn [replay_frames]. rewrite (decode_encoded pf _ _ _ Hen Hn). cbn [rbind].
  rewrite (Z.add_comm 1), (check_written rows now e _ p h Hhead' Ha He Hp Hh). done.
Qed.

(** A row that was not. *)
Lemma replay_torn f rows now e row frame n : limit <= HBP_MAX_FRAME_BYTES → replay pf limit f = Ok rows →
  framed_row limit rows now e = Ok (row, frame) → (n < String.length frame)%nat →
  let r := replay pf limit (Some (default "" f +:+ take_bytes n frame)) in r = Ok rows ∨ ∃ msg, r = Err (PrismRecoveryError msg).
Proof.
  intros Hlim Hr Hf Hn. cbv zeta. apply framed_row_inv in Hf as (h & payload & Hh & -> & Hen & -> & Hl).
  unfold replay in *. apply rbind_Ok in Hr as (fs & Hfs & Hr). rewrite (frames_app _ _ _ Hfs). rewrite raw_frame_length in Hn.
  destruct n as [|n]; [left; cbn; by rewrite app_nil_r, Hr|]. right.
  destruct (split_torn limit (String.length (take_bytes (S n) (raw_frame payload))) payload (S n)) as [msg ->]; [done|done|lia| |by exists msg].
  rewrite take_length by (rewrite raw_frame_length; lia). done.
Qed.

(** Appending, when the journal is readable. *)
Lemma append_Ok e d rows d' row : limit <= HBP_MAX_FRAME_BYTES → event_type e ∈ EVENT_TYPES → replay pf limit (file d) = Ok rows →
  append pf clock_ns written limit e d = (d', Ok row) →
  ∃ p h, let row' := sorted_fields (row_body rows (clock_ns (ticks d)) (nfc_event e p)) ++ [("event_hash", Str h)] in
    normalize (Obj (payload e)) = Ok (Obj p) ∧ read_back row row' ∧ replay pf limit (file d') = Ok (rows ++ [row']).
Proof.
  intros Hlim He Hr Ha. rewrite journal_append_eq, Hr in Ha. destruct (framed_row _ _ _ _) as [[row0 frame]|] eqn:Ef; [|done]. cbv zeta in Ha.
  destruct (Nat.eqb _ _) eqn:En; [|done]. injection Ha as <- <-. cbn [file]. apply Nat.eqb_eq in En. rewrite En.
  assert (take_bytes (String.length frame) frame = frame) as ->.
  { pose proof (take_app (String.length frame) frame "" eq_refl) as E. by rewrite sapp_nil in E. }
  by eapply replay_written.
Qed.

Lemma append_Err e d rows d' x : limit <= HBP_MAX_FRAME_BYTES → replay pf limit (file d) = Ok rows →
  append pf clock_ns written limit e d = (d', Err x) →
  replay pf limit (file d') = Ok rows ∨ x = PrismRecoveryError "partial journal write" ∧ ∃ msg, replay pf limit (file d') = Err (PrismRecoveryError msg).
Proof.
  intros Hlim Hr Ha. rewrite journal_append_eq, Hr in Ha. destruct (framed_row _ _ _ _) as [[row0 frame]|] eqn:Ef; [|injection Ha as <- <-; by left]. cbv zeta in Ha.
  destruct (Nat.eqb _ _) eqn:En; [done|]. injection Ha as <- <-. apply Nat.eqb_neq in En. cbn [file].
  destruct (replay_torn (file d) rows _ e row0 frame (Nat.min (written (S (ticks d)) (String.length frame)) (String.length frame)) Hlim Hr Ef ltac:(lia)) as [E|E]; auto.
Qed.
End Append.

(** ** Recovery *)

Lemma last_omap_snoc {A B} (f : A → option B) l x : last (omap f (l ++ [x])) = match f x with Some y => Some y | None => last (omap f l) end.
Proof. rewrite omap_app. cbn. destruct (f x); [by rewrite last_snoc|by rewrite app_nil_r]. Qed.

Lemma of_task_spec t row : of_task t row = true ↔ t ≠ "" ∧ Val.text (Val.get "task_id" row) = t.
Proof. unfold of_task. rewrite andb_true_iff, String.eqb_eq, Str.truthy_ne. done. Qed.
Lemma of_task_none t row : Val.text (Val.get "task_id" row) = "" → of_task t row = false.
Proof. intros E. destruct (of_task t row) eqn:Ht; [|done]. apply of_task_spec in Ht as [? ?]. congruence. Qed.
Lemma of_task_self row : Val.text (Val.get "task_id" row) ≠ "" → of_task (Val.text (Val.get "task_id" row)) row = true.
Proof. intros Hne. by apply of_task_spec. Qed.
Lemma of_task_other t row : t ≠ Val.text (Val.get "task_id" row) → of_task t row = false.
Proof. intros Hne. destruct (of_task t row) eqn:Ht; [|done]. apply of_task_spec in Ht as [_ ?]. congruence. Qed.

Lemma elem_of_discard (t t' : string) l : t ∈ List.filter (λ x, negb (String.eqb x t')) l ↔ t ∈ l ∧ t ≠ t'.
Proof. rewrite !list_elem_of_In, filter_In, negb_true_iff, String.eqb_neq. done. Qed.
Lemma elem_of_added (t t' : string) l : t ∈ (if bool_decide (t' ∈ l) then l else l ++ [t']) ↔ t ∈ l ∨ t = t'.
Proof. case_bool_decide; [|rewrite elem_of_app, list_elem_of_singleton]; naive_solver. Qed.

Lemma recover_task_exact row p s : payload_of row = Ok p → let task := Val.text (Val.get "task_id" row) in
  (task ≠ "" → is_type row "task_terminal" = true → Val.truthy (Val.get "receipt_hash" p) = true) ∧ (∃ s', recover_task row task p s = Ok s' ∧ moved_task row s s')
  ∨ task ≠ "" ∧ is_type row "task_terminal" = true ∧ Val.truthy (Val.get "receipt_hash" p) = false ∧
    recover_task row task p s = Err (PrismRecoveryError "terminal event missing receipt").
Proof.
  intros Hp task. unfold recover_task. destruct (Str.truthy task) eqn:Ht; cbn [negb].
  2:{ left. assert (task = "") as E. { destruct task; [done|discriminate Ht]. } split; [by rewrite E|]. eexists. split; [done|].
      assert (∀ t, of_task t row = false) as Hn by (intros; by apply of_task_none).
      unfold moved_task, row_state. split; [|split; [|done]]; intros t; by rewrite Hn. }
  apply Str.truthy_ne in Ht. assert (of_task task row = true) as Hself by by apply of_task_self.
  assert (∀ st b s', (rs_tasks s' = dput task st (rs_tasks s)) → (∀ t, t ∈ rs_active s' ↔ if decide (t = task) then b = true else t ∈ rs_active s) →
    rs_fences s' = rs_fences s → rs_intents s' = rs_intents s → rs_receipts s' = rs_receipts s → row_state task row = Some (st, b) → moved_task row s s') as Hmove.
  { intros st b s' H1 H2 H3 H4 H5 Hst. split; [|split; [|done]].
    - intros t. rewrite H1, dget_put. destruct (decide (t = task)) as [->|Hne]; [by rewrite Hst|].
      unfold row_state. by rewrite (of_task_other t row Hne).
    - intros t. rewrite H2. destruct (decide (t = task)) as [->|Hne]; [by rewrite Hst|]. unfold row_state. by rewrite (of_task_other t row Hne). }
  destruct (is_type row "task_queued") eqn:Eq.
  { left. assert (is_type row "task_terminal" = false) as Etm.
    { unfold is_type in *. apply eq_Str in Eq. by rewrite Eq. }
    split; [by rewrite Etm|]. eexists. split; [done|]. eapply (Hmove "queued" true); [done| |done..|].
    - intros t. cbn. rewrite elem_of_added. destruct (decide _); naive_solver.
    - unfold row_state. by rewrite Hself, Eq. }
  destruct (is_type row "task_started") eqn:Es.
  { left. assert (is_type row "task_terminal" = false) as Etm.
    { unfold is_type in *. apply eq_Str in Es. by rewrite Es. }
    split; [by rewrite Etm|]. eexists. split; [done|]. eapply (Hmove "running" true); [done| |done..|].
    - intros t. cbn. rewrite elem_of_added. destruct (decide _); naive_solver.
    - unfold row_state. by rewrite Hself, Eq, Es. }
  destruct (is_type row "task_terminal") eqn:Et.
  - destruct (Val.truthy (Val.get "receipt_hash" p)) eqn:Er; [left|right; done]. split; [done|]. eexists. split; [done|].
    eapply (Hmove _ false); [done| |done..|].
    + intros t. cbn. rewrite elem_of_discard. destruct (decide _); naive_solver.
    + unfold row_state. by rewrite Hself, Eq, Es, Et, Hp.
  - left. split; [done|]. eexists. split; [done|]. unfold moved_task, row_state. rewrite Eq, Es, Et.
    split; [|split; [|done]]; intros t; by destruct (of_task t row).
Qed.

Lemma recover_fence_exact row s : let task := Val.text (Val.get "task_id" row) in
  match recover_fence row task s with
  | Ok s' => (∀ t, of_task t row = true → Val.get "fence" row ≠ Null → ∃ f, row_fence t row = Some f ∧ default 0 (dget t (rs_fences s)) <= f) ∧
      (∀ t, dget t (rs_fences s') = match row_fence t row with Some f => Some f | None => dget t (rs_fences s) end) ∧
      rs_tasks s' = rs_tasks s ∧ rs_active s' = rs_active s ∧ rs_intents s' = rs_intents s ∧ rs_receipts s' = rs_receipts s
  | Err _ => ∃ t, of_task t row = true ∧ Val.get "fence" row ≠ Null ∧ ∀ f, row_fence t row = Some f → f < default 0 (dget t (rs_fences s))
  end.
Proof.
  intros task. destruct (Str.truthy task) eqn:Ht.
  2:{ unfold recover_fence. rewrite Ht. assert (task = "") as E by (destruct task; [done|discriminate Ht]). assert (∀ t, of_task t row = false) as Hn by (intros; by apply of_task_none).
    split; [intros t; by rewrite Hn|]. split; [|done]. intros t. unfold row_fence. by rewrite Hn. }
  apply Str.truthy_ne in Ht. assert (of_task task row = true) as Hself by by apply of_task_self.
  assert (Val.get "fence" row = Null ∨ Val.get "fence" row ≠ Null) as [E|E] by (destruct (Val.get "fence" row); auto).
  { unfold recover_fence. rewrite (proj2 (Str.truthy_ne task) Ht), E. split; [done|]. split; [|done]. intros t. unfold row_fence. rewrite E. by destruct (of_task t row). }
  assert (recover_fence row task s = let? f := as_int (Val.get "fence" row) in
      if f <? default 0 (dget task (rs_fences s)) then Err (PrismRecoveryError "fence regressed during replay") else Ok (s <| rs_fences ::= dput task f |>)) as ->.
  { unfold recover_fence. rewrite (proj2 (Str.truthy_ne task) Ht). by destruct (Val.get "fence" row). }
  unfold as_int, or_raise. destruct (Val.to_float (Val.get "fence" row)) as [f|] eqn:Ef; cbn [rbind].
  2:{ exists task. split; [done|]. split; [done|]. intros f. unfold row_fence. by rewrite Hself, Ef. }
  assert (row_fence task row = Some f) as Hf by (unfold row_fence; by rewrite Hself).
  destruct (f <? _) eqn:El; zbool.
  - exists task. split; [done|]. split; [done|]. intros f'. rewrite Hf. by intros [= <-].
  - split; [|split; [|done]].
    + intros t Hof _. apply of_task_spec in Hof as [_ <-]. by exists f.
    + intros t. cbn. rewrite dget_put. destruct (decide (t = task)) as [->|Hne]; [by rewrite Hf|].
      unfold row_fence. by rewrite (of_task_other t row Hne).
Qed.

Lemma recover_effect_exact row p s : payload_of row = Ok p →
  match recover_effect row p s with
  | Ok s' => (is_type row "effect_intent" = true → ∃ e, effect_of "effect_intent" row = Some e) ∧
      (is_type row "effect_receipt" = true → ∃ e, effect_of "effect_receipt" row = Some e ∧ is_Some (dget e (rs_intents s))) ∧
      (∀ e, is_Some (dget e (rs_intents s')) ↔ effect_of "effect_intent" row = Some e ∨ is_Some (dget e (rs_intents s))) ∧
      (∀ e, is_Some (dget e (rs_receipts s')) ↔ effect_of "effect_receipt" row = Some e ∨ is_Some (dget e (rs_receipts s))) ∧
      rs_tasks s' = rs_tasks s ∧ rs_active s' = rs_active s ∧ rs_fences s' = rs_fences s
  | Err _ => is_type row "effect_intent" = true ∧ effect_of "effect_intent" row = None ∨
      is_type row "effect_receipt" = true ∧ ∀ e, effect_of "effect_receipt" row = Some e → dget e (rs_intents s) = None
  end.
Proof.
  intros Hp. assert (∀ {V} e e' (v : V) d, is_Some (dget e (dput e' v d)) ↔ Some e' = Some e ∨ is_Some (dget e d)) as Hput.
  { intros. rewrite dget_put. destruct (decide _) as [->|Hne]; [|naive_solver]. split; [by left|by eexists]. }
  unfold recover_effect, effect_of. rewrite Hp. cbn [ok_or]. set (e := Val.text (Val.get "effect_id" p)).
  destruct (is_type row "effect_intent") eqn:Ei.
  - assert (is_type row "effect_receipt" = false) as -> by (unfold is_type in *; apply eq_Str in Ei; by rewrite Ei).
    destruct (Str.truthy e) eqn:Et; cbn [negb]; [|by left]. split; [by eexists|]. split; [done|]. cbn.
    split; [intros e'; apply Hput|]. naive_solver.
  - destruct (is_type row "effect_receipt") eqn:Er; [|naive_solver].
    destruct (Str.truthy e) eqn:Et; cbn [negb orb]; [|right; naive_solver].
    destruct (dget e (rs_intents s)) as [v|] eqn:Eg.
    + rewrite bool_decide_eq_false_2 by done. split; [done|]. split; [exists e; rewrite Eg; by eauto|]. cbn.
      split; [naive_solver|]. split; [intros e'; apply Hput|done].
    + rewrite bool_decide_eq_true_2 by done. right. split; [done|]. by intros ? [= <-].
Qed.

Lemma reported_snoc kind e rows row : reported kind e (rows ++ [row]) ↔ effect_of kind row = Some e ∨ reported kind e rows.
Proof. unfold reported. setoid_rewrite elem_of_app. setoid_rewrite list_elem_of_singleton. naive_solver. Qed.

Lemma describes_nothing : describes [] nothing.
Proof.
  split; try done.
  - intros t. split; [intros Ht; by apply not_elem_of_nil in Ht|by intros [st ?]].
  - intros t r g Hr. by apply not_elem_of_nil in Hr.
  - intros e. split; [by intros [? ?]|]. intros (r & Hr & _). by apply not_elem_of_nil in Hr.
  - intros e. split; [by intros [? ?]|]. intros (r & Hr & _). by apply not_elem_of_nil in Hr.
Qed.

Lemma recover_row_exact rows s row : describes rows s →
  match recover_row s row with
  | Ok s' => may_follow rows row ∧ describes (rows ++ [row]) s'
  | Err _ => ¬ may_follow rows row
  end.
Proof.
  intros [Htask Hact Hfen Hbound Hint Hrec]. unfold recover_row. destruct (payload_of row) as [p|x] eqn:Ep; cbn [rbind].
  2:{ intros [(p & Hp & _) _ _ _]. congruence. }
  destruct (recover_task_exact row p s Ep) as [(Hcond & s1 & -> & Ht1 & Ha1 & Hf1 & Hi1 & Hr1)|(Hne & Hterm & Hno & ->)]; cbn [rbind].
  2:{ intros [(p' & Hp & Hok) _ _ _]. rewrite Ep in Hp. injection Hp as <-. specialize (Hok Hne Hterm). congruence. }
  pose proof (recover_fence_exact row s1) as Hfe. cbv zeta in Hfe. destruct (recover_fence row _ s1) as [s2|x]; cbn [rbind].
  2:{ destruct Hfe as (t & Hof & Hnn & Hlt). intros [_ Hmf _ _]. destruct (Hmf t Hof Hnn) as (f & Hf & Hpos & Hall).
      specialize (Hlt f Hf). rewrite Hf1, Hfen in Hlt. destruct (last (omap (row_fence t) rows)) as [g|] eqn:El; cbn in Hlt; [|lia].
      apply last_Some_elem_of in El. apply list_elem_of_omap in El as (r & Hr & Hg). specialize (Hall r g Hr Hg). lia. }
  destruct Hfe as (Hge & Hf2 & Ht2 & Ha2 & Hi2 & Hr2). pose proof (recover_effect_exact row p s2 Ep) as He.
  destruct (recover_effect row p s2) as [s3|x].
  2:{ intros [_ _ Hmi Hmr]. destruct He as [[H1 H2]|[H1 H2]].
      - destruct (Hmi H1) as [e He]. congruence.
      - destruct (Hmr H1) as (e & He & Hrep). specialize (H2 e He). rewrite Hi2, Hi1 in H2. apply Hint in Hrep as [v Hv]. congruence. }
  destruct He as (H3 & H4 & Hi3 & Hr3 & Ht3 & Ha3 & Hf3).
  assert (∀ t f, row_fence t row = Some f → 0 <= f ∧ default 0 (dget t (rs_fences s)) <= f) as Hrow.
  { intros t f Hf. pose proof Hf as Hf'. unfold row_fence in Hf'. destruct (of_task t row) eqn:Hof; [|done].
    destruct (Hge t Hof) as (f' & E & Hle); [intros E; by rewrite E in Hf'|]. rewrite Hf in E. injection E as <-. rewrite Hf1 in Hle. split; [|done].
    destruct (dget t (rs_fences s)) as [g|] eqn:Eg; cbn in Hle; [|done]. rewrite Hfen in Eg. apply last_Some_elem_of in Eg.
    apply list_elem_of_omap in Eg as (r & Hr & Hg). specialize (Hbound t r g Hr Hg). lia. }
  split; [split|split].
  - by exists p.
  - intros t Hof Hnn. destruct (Hge t Hof Hnn) as (f & Hf & Hle). exists f. split; [done|]. split; [by apply (Hrow t f)|].
    intros r g Hr Hg. destruct (Hbound t r g Hr Hg). rewrite Hf1 in Hle. lia.
  - done.
  - intros Hr. destruct (H4 Hr) as (e & He & Hs). exists e. split; [done|]. apply Hint. by rewrite <- Hi1, <- Hi2.
  - intros t. rewrite Ht3, Ht2, Ht1, last_omap_snoc, Htask. by destruct (row_state t row) as [[]|].
  - intros t. rewrite Ha3, Ha2, Ha1. setoid_rewrite last_omap_snoc. specialize (Hact t). destruct (row_state t row) as [[st b]|]; naive_solver.
  - intros t. rewrite Hf3, Hf2, Hf1, last_omap_snoc, Hfen. by destruct (row_fence t row).
  - intros t r g Hr Hg. rewrite Hf3, Hf2, Hf1. apply elem_of_app in Hr as [Hr|Hr]; [|apply list_elem_of_singleton in Hr as ->].
    + specialize (Hbound t r g Hr Hg). destruct (row_fence t row) as [f|] eqn:Ef; [|done]. apply Hrow in Ef. cbn. lia.
    + rewrite Hg. cbn. apply Hrow in Hg. lia.
  - intros e. by rewrite Hi3, Hi2, Hi1, Hint, reported_snoc.
  - intros e. by rewrite Hr3, Hr2, Hr1, Hrec, reported_snoc.
Qed.

Lemma recover_rows_snoc rows row : recover_rows (rows ++ [row]) = let? s := recover_rows rows in recover_row s row.
Proof. unfold recover_rows. by rewrite foldl_app. Qed.

Lemma consistent_snoc rows row : consistent (rows ++ [row]) ↔ consistent rows ∧ may_follow rows row.
Proof.
  unfold consistent. split.
  - intros Hc. split; [|by apply (Hc rows row [])]. intros b r a ->. apply (Hc b r (a ++ [row])). by rewrite <- app_assoc.
  - intros [Hc Hm] b r a E. destruct a as [|x a _] using rev_ind.
    + apply app_inj_tail in E as [-> ->]. done.
    + rewrite app_comm_cons, app_assoc in E. apply app_inj_tail in E as [-> _]. by eapply Hc.
Qed.

Lemma recover_rows_exact rows : match recover_rows rows with Ok s => consistent rows ∧ describes rows s | Err _ => ¬ consistent rows end.
Proof.
  induction rows as [|row rows IH] using rev_ind; [split; [|apply describes_nothing]; by intros [] ?|].
  rewrite recover_rows_snoc. destruct (recover_rows rows) as [s|x]; cbn [rbind]; [|rewrite consistent_snoc; naive_solver].
  destruct IH as [Hc Hd]. pose proof (recover_row_exact rows s row Hd) as Hr. destruct (recover_row s row); rewrite consistent_snoc; naive_solver.
Qed.

Lemma elem_of_orphans s e : e ∈ orphans s ↔ is_Some (dget e (rs_intents s)) ∧ dget e (rs_receipts s) = None.
Proof.
  unfold orphans. rewrite elem_of_py_sorted, list_elem_of_In, filter_In, <- list_elem_of_In, bool_decide_eq_true.
  destruct (dget e (rs_intents s)) as [v|] eqn:E.
  - apply dget_Some_elem in E. naive_solver.
  - apply dget_None in E. split; [tauto|]. by intros [[] _].
Qed.

(** ** Reconciliation *)

Lemma get_row k w h : k ≠ "event_hash" → Val.get k (w ++ [("event_hash", Str h)]) = Val.get k w.
Proof.
  intros Hk. unfold Val.get. f_equal. induction w as [|[k' v] w IH].
  - by rewrite app_nil_l, dget_cons, decide_False by congruence.
  - by rewrite <- app_comm_cons, !dget_cons, IH.
Qed.

Section Reconcile.
Context `{Nfc} (pf : string → Z) (clock_ns : nat → Z) (written : nat → nat → nat) (limit : Z).
Context (lookup : string → option string).

Lemma receipt_row rows now prism slot task a f e h p hash : e ≠ "" → nfc e = e →
  normalize (Obj [("effect_id", Str e); ("receipt_hash", Str h); ("recovered", Bool true)]) = Ok (Obj p) →
  let row := sorted_fields (row_body rows now (nfc_event (mkEvent task "effect_receipt" [("effect_id", Str e); ("receipt_hash", Str h); ("recovered", Bool true)]
    prism (Some slot) (Some task) (Some a) (Some f)) p)) ++ [("event_hash", Str hash)] in
  is_type row "effect_receipt" = true ∧ effect_of "effect_receipt" row = Some e.
Proof.
  intros Hne Hfix Hp row.
  assert (normalize (Obj [("effect_id", Str e); ("receipt_hash", Str h); ("recovered", Bool true)]) =
    Ok (Obj [("effect_id", Str e); ("receipt_hash", Str (nfc h)); ("recovered", Bool true)])) as Hp'.
  { apply normalize_fields_map; [by_compute|]. repeat constructor; cbn [fst snd]; try (by apply nfc_ascii). cbn [normalize]. by rewrite Hfix. }
  rewrite Hp in Hp'. injection Hp' as ->.
  assert (is_type row "effect_receipt" = true) as Ht.
  { unfold is_type, row. rewrite get_row by done. rewrite get_sorted by apply row_keys. done. }
  split; [done|]. unfold effect_of, payload_of. rewrite Ht.
  assert (Val.get "payload" row = Obj (sorted_fields [("effect_id", Str e); ("receipt_hash", Str (nfc h)); ("recovered", Bool true)])) as ->.
  { unfold row. rewrite get_row by done. rewrite get_sorted by apply row_keys. apply canon_Obj_sorted. }
  unfold Val.or_else.
  assert (Val.truthy (Obj (sorted_fields [("effect_id", Str e); ("receipt_hash", Str (nfc h)); ("recovered", Bool true)])) = true) as ->.
  { cbn [Val.truthy]. apply negb_true_iff, Nat.eqb_neq. rewrite <- (length_fmap fst), sorted_fields_keys. done. }
  cbn [ok_or]. rewrite get_sorted by by_compute. change (Val.get "effect_id" _) with (Str e). cbn [canon]. unfold Val.text. cbn [Val.truthy Val.str].
  by rewrite (proj2 (Str.truthy_ne e) Hne), (proj2 (Str.truthy_ne e) Hne).
Qed.

Lemma reconcile_loop_Ok intents l d rows d' done required : limit <= HBP_MAX_FRAME_BYTES → Forall (λ e, e ≠ "" ∧ nfc e = e) l →
  replay pf limit (file d) = Ok rows → reconcile_loop pf clock_ns written limit lookup intents l d = (d', Ok (done, required)) →
  done = List.filter (known lookup) l ∧ required = List.filter (λ e, negb (known lookup e)) l ∧
  ∃ more, replay pf limit (file d') = Ok (rows ++ more) ∧
    Forall2 (λ e row, is_type row "effect_receipt" = true ∧ effect_of "effect_receipt" row = Some e) done more.
Proof.
  intros Hlim. revert d rows d' done required. induction l as [|e l IH]; intros d rows d' done required Hl Hr Hrun; cbn [reconcile_loop List.filter] in *.
  { injection Hrun as <- <- <-. split; [done|]. split; [done|]. exists []. by rewrite app_nil_r. }
  apply Forall_cons in Hl as [[Hne Hfix] Hl].
  destruct (known lookup e) eqn:Ek; cbn [negb].
  - unfold known in Ek. destruct (lookup e) as [[|c h']|] eqn:El; [done| |done]. set (h := String c h') in *.
    unfold of_result, mbind, prog_bind in Hrun. cbn beta iota in Hrun.
    destruct (or_raise (dget e intents) BadValue) as [intent|]; [|done].
    destruct (field "prism_id" intent) as [prism|]; [|done]. destruct (field "slot_id" intent) as [slot|]; [|done].
    destruct (field "task_id" intent) as [task|]; [|done]. destruct (rbind (field "attempt" intent) as_int) as [a|]; [|done].
    destruct (rbind (field "fence" intent) as_int) as [f|]; [|done].
    destruct (effect_receipt pf clock_ns written limit _ _ _ a f e h true d) as [d1 [row|]] eqn:Ea; [|done].
    destruct (reconcile_loop pf clock_ns written limit lookup intents l d1) as [d2 [[dn rq]|]] eqn:Eloop; [|done]. injection Hrun as <- <- <-.
    unfold effect_receipt, record, of_result, mbind, prog_bind in Ea. destruct (make_event _) as [ev|] eqn:Eev; [|done].
    apply make_event_Ok in Eev as [-> Het].
    destruct (append_Ok pf clock_ns written limit _ _ rows _ _ Hlim Het Hr Ea) as (p & hash & Hp & _ & Hr1).
    destruct (IH _ _ _ _ _ Hl Hr1 Eloop) as (-> & -> & more & Hr2 & Hall). split; [done|]. split; [done|].
    eexists (_ :: more). split; [rewrite Hr2, <- app_assoc; done|]. constructor; [|done]. by apply receipt_row.
  - assert ((reconcile_loop pf clock_ns written limit lookup intents l ≫= λ '(dn, rq), mret (dn, e :: rq)) d = (d', Ok (done, required))) as Hrun'.
    { unfold known in Ek. destruct (lookup e) as [[|c h]|]; [done|done|done]. }
    clear Hrun. unfold mbind, prog_bind in Hrun'. destruct (reconcile_loop pf clock_ns written limit lookup intents l d) as [d2 [[dn rq]|]] eqn:Eloop; [|done].
    injection Hrun' as <- <- <-. destruct (IH _ _ _ _ _ Hl Hr Eloop) as (-> & -> & Hmore). done.
Qed.
End Reconcile.

(** * Properties *)
Section Properties.
Context `{Nfc} (pf : string → Z) (clock_ns : nat → Z) (written : nat → nat → nat) (limit : Z).

(** C26: Appending to a readable journal adds one row or none, wherever the write
    stops. A row that is returned is the last row of the next replay, after the
    rows that were there. When the append raises, the rows are as they were, or
    part of the frame was stored: then every later replay raises, and no append
    touches the file again. When writes are whole, an append returns its row
    exactly if the row can be framed within the limit. *)
Theorem append_crash_safe d e rows : PrismJournal_init limit = Ok limit → make_event e = Ok e → replay pf limit (file d) = Ok rows →
  match append pf clock_ns written limit e d with
  | (d', Ok row) => ∃ row', read_back row row' ∧ replay pf limit (file d') = Ok (rows ++ [row'])
  | (d', Err x) =>
      replay pf limit (file d') = Ok rows ∨
      x = PrismRecoveryError "partial journal write" ∧
      ∃ msg, replay pf limit (file d') = Err (PrismRecoveryError msg) ∧
        ∀ e2, append pf clock_ns written limit e2 d' = (d', Err (PrismRecoveryError msg))
  end ∧
  (full_writes written →
   (append pf clock_ns written limit e d).2 = let? rf := framed_row limit rows (clock_ns (ticks d)) e in Ok rf.1).
Proof.
  intros Hlim%init_limit Hm Hr. apply make_event_Ok in Hm as [_ He]. split.
  - destruct (append pf clock_ns written limit e d) as [d' [row|x]] eqn:Ea.
    + destruct (append_Ok pf clock_ns written limit e d rows d' row Hlim He Hr Ea) as (p & h & _ & Hb & Hr'). by eexists.
    + destruct (append_Err pf clock_ns written limit e d rows d' x Hlim Hr Ea) as [Hsame|(-> & msg & Hmsg)]; [by left|].
      right. split; [done|]. exists msg. split; [done|]. intros e2. by rewrite journal_append_eq, Hmsg.
  - intros Hfull. rewrite journal_append_eq, Hr. destruct (framed_row _ _ _ _) as [[row frame]|x]; [|done]. cbv zeta. cbn [rbind fst snd].
    rewrite Nat.min_r by apply Hfull. by rewrite Nat.eqb_refl.
Qed.

(** Recovery is exact. It succeeds exactly on consistent journals: terminal
    rows with a receipt, fences of a task that never go back, receipts after
    their intents. Then a task is in the state of the last row that says one, and
    active until a terminal row; its fence is the last one; and the orphans are
    the effects with an intent and no receipt. *)
Theorem recover_exact rows :
  ((∃ s, recover_rows rows = Ok s) ↔ consistent rows) ∧
  ∀ s, recover_rows rows = Ok s →
    (∀ t, dget t (rs_tasks s) = fst <$> last (omap (row_state t) rows) ∧
          (t ∈ rs_active s ↔ ∃ st, last (omap (row_state t) rows) = Some (st, true)) ∧
          dget t (rs_fences s) = last (omap (row_fence t) rows)) ∧
    (∀ e, e ∈ orphans s ↔ reported "effect_intent" e rows ∧ ¬ reported "effect_receipt" e rows).
Proof.
  pose proof (recover_rows_exact rows) as Hx. destruct (recover_rows rows) as [s|x]; (split; [naive_solver|]); [|done].
  intros s' [= <-]. destruct Hx as [_ Hd]. split.
  - intros t. split; [apply (ds_task _ _ Hd)|]. split; [apply (ds_active _ _ Hd)|apply (ds_fence _ _ Hd)].
  - intros e. rewrite elem_of_orphans, (ds_intent _ _ Hd), <- (ds_receipt _ _ Hd). by rewrite eq_None_not_Some.
Qed.

(** Reconciliation settles the orphans whose receipt is known, and no others:
    it appends one receipt for each, keeps every row, and the orphans of the new
    journal, when it is consistent, are the effects it reported as required. *)
Theorem reconcile_settles lookup d d' rows s done required :
  PrismJournal_init limit = Ok limit → replay pf limit (file d) = Ok rows → recover_rows rows = Ok s → Forall (λ e, nfc e = e) (orphans s) →
  reconcile_orphan_intents pf clock_ns written limit lookup d = (d', Ok (done, required)) →
  (∀ e, e ∈ done ↔ e ∈ orphans s ∧ known lookup e = true) ∧ (∀ e, e ∈ required ↔ e ∈ orphans s ∧ known lookup e = false) ∧
  ∃ more, replay pf limit (file d') = Ok (rows ++ more) ∧ length more = length done ∧
    ∀ s', recover_rows (rows ++ more) = Ok s' → ∀ e, e ∈ orphans s' ↔ e ∈ required.
Proof.
  intros Hlim%init_limit Hr Hs Hnfc Hrun. unfold reconcile_orphan_intents, load, of_result, mbind, prog_bind in Hrun. rewrite Hr in Hrun.
  cbn beta iota in Hrun. destruct (recover_state rows) as [[s0 doc]|] eqn:Ers; [|done].
  assert (s0 = s) as ->.
  { unfold recover_state in Ers. rewrite Hs in Ers. cbn [rbind] in Ers. by apply rbind_Ok in Ers as (h & _ & [= <- _]). }
  destruct (by_effect rows) as [intents|]; [|done].
  destruct (reconcile_loop pf clock_ns written limit lookup intents (orphans s) d) as [d1 [[dn rq]|]] eqn:Eloop; [|done]. injection Hrun as <- <- <-.
  pose proof (recover_rows_exact rows) as Hx. rewrite Hs in Hx. destruct Hx as [_ Hd].
  assert (Forall (λ e, e ≠ "" ∧ nfc e = e) (orphans s)) as Hok.
  { rewrite Forall_forall in *. intros e He. split; [|by apply Hnfc]. apply elem_of_orphans in He as [Hi _]. apply (ds_intent _ _ Hd) in Hi as (row & _ & Hrow).
    unfold effect_of in Hrow. destruct (is_type _ _); [|done]. destruct (Str.truthy _) eqn:Et; [|done]. injection Hrow as <-. by apply Str.truthy_ne. }
  destruct (reconcile_loop_Ok pf clock_ns written limit lookup intents _ d rows _ _ _ Hlim Hok Hr Eloop) as (-> & -> & more & Hr' & Hmore).
  assert (∀ b e, e ∈ py_sorted (List.filter (λ e, b (known lookup e)) (orphans s)) ↔ e ∈ orphans s ∧ b (known lookup e) = true) as Hfil.
  { intros b e. by rewrite elem_of_py_sorted, list_elem_of_In, filter_In, <- list_elem_of_In. }
  split; [apply (Hfil (λ b, b))|]. split; [intros e; rewrite (Hfil negb), negb_true_iff; done|].
  exists more. split; [done|]. split; [unfold py_sorted; rewrite merge_sort_Permutation; symmetry; by eapply Forall2_length|].
  intros s' Hs' e. pose proof (recover_rows_exact (rows ++ more)) as Hx. rewrite Hs' in Hx. destruct Hx as [_ Hd'].
  rewrite (Hfil negb), negb_true_iff, !elem_of_orphans.
  assert (∀ kind, reported kind e (rows ++ more) ↔ reported kind e rows ∨ reported kind e more) as Happ.
  { intros kind. unfold reported. setoid_rewrite elem_of_app. naive_solver. }
  assert (¬ reported "effect_intent" e more) as Hno.
  { intros (row & Hin & Heff). apply list_elem_of_lookup in Hin as [i Hi]. destruct (Forall2_lookup_r _ _ _ _ _ Hmore Hi) as (e' & _ & Ht & _).
    unfold effect_of, is_type in *. apply eq_Str in Ht. by rewrite Ht in Heff. }
  assert (reported "effect_receipt" e more ↔ e ∈ orphans s ∧ known lookup e = true) as Hyes.
  { rewrite <- (Hfil (λ b, b)), elem_of_py_sorted. split.
    - intros (row & Hin & Heff). apply list_elem_of_lookup in Hin as [i Hi]. destruct (Forall2_lookup_r _ _ _ _ _ Hmore Hi) as (e' & He' & _ & Heff').
      rewrite Heff in Heff'. injection Heff' as ->. by eapply list_elem_of_lookup_2.
    - intros Hin. apply list_elem_of_lookup in Hin as [i Hi]. destruct (Forall2_lookup_l _ _ _ _ _ Hmore Hi) as (row & Hrow & _ & Heff).
      exists row. split; [by eapply list_elem_of_lookup_2|done]. }
  rewrite elem_of_orphans in Hyes. pose proof (ds_intent _ _ Hd e) as Hi1. pose proof (ds_receipt _ _ Hd e) as Hr1.
  pose proof (ds_intent _ _ Hd' e) as Hi2. pose proof (ds_receipt _ _ Hd' e) as Hr2. rewrite Happ in Hi2, Hr2.
  rewrite eq_None_not_Some in Hyes. rewrite !eq_None_not_Some, Hi2, Hr2, Hyes, Hi1, Hr1. destruct (known lookup e); intuition congruence.
Qed.
End Properties.

(** * Examples *)
Section Demo.
#[local] Existing Instance nfc_id.

Lemma demo_readable : replay float_0 4096 (file demo_disk) = Ok demo_rows.
Proof. vm_compute. reflexivity. Qed.

Lemma append_crash_safe_witness : ∃ d' msg,
  append float_0 demo_clock torn 4096 demo_event demo_disk = (d', Err (PrismRecoveryError "partial journal write")) ∧
  ∀ e2, append float_0 demo_clock torn 4096 e2 d' = (d', Err (PrismRecoveryError msg)).
Proof.
  assert ((append float_0 demo_clock torn 4096 demo_event demo_disk).2 = Err (PrismRecoveryError "partial journal write")) as E1 by (vm_compute; reflexivity).
  assert (replay float_0 4096 (file (append float_0 demo_clock torn 4096 demo_event demo_disk).1) = Err (PrismRecoveryError "journal truncated frame")) as E2
    by (vm_compute; reflexivity).
  destruct (append_crash_safe float_0 demo_clock torn 4096 demo_disk demo_event demo_rows eq_refl eq_refl demo_readable) as [Hx _].
  destruct (append float_0 demo_clock torn 4096 demo_event demo_disk) as [d' r]. cbn [fst snd] in E1, E2. rewrite E1 in Hx |- *.
  destruct Hx as [Hx|(_ & msg & _ & Hx)]; [rewrite E2 in Hx; discriminate Hx|]. exists d', msg. split; [reflexivity|exact Hx].
Defined.

Lemma recover_exact_witness : consistent demo_rows ∧ orphans demo_recovered = ["effect"] ∧
  (reported "effect_intent" "effect" demo_rows ∧ ¬ reported "effect_receipt" "effect" demo_rows).
Proof.
  assert (recover_rows demo_rows = Ok demo_recovered) as E by (vm_compute; reflexivity).
  destruct (recover_exact demo_rows) as [H1 H2]. split; [apply H1; exists demo_recovered; exact E|].
  assert (orphans demo_recovered = ["effect"]) as Eo by (vm_compute; reflexivity). split; [exact Eo|].
  apply (H2 demo_recovered E). rewrite Eo. by left.
Defined.

Lemma reconcile_settles_witness : ∃ more, replay float_0 4096 (file demo_reconciled) = Ok (demo_rows ++ more) ∧ length more = 1%nat ∧
    ∀ s', recover_rows (demo_rows ++ more) = Ok s' → ∀ e, e ∈ orphans s' ↔ e ∈ [].
Proof.
  assert (recover_rows demo_rows = Ok demo_recovered) as E by (vm_compute; reflexivity).
  assert (Forall (λ e, nfc e = e) (orphans demo_recovered)) as Hn by (apply Forall_forall; intros; reflexivity).
  assert (reconcile_orphan_intents float_0 demo_clock whole 4096 demo_lookup demo_disk = (demo_reconciled, Ok (["effect"], []))) as Hr by (vm_compute; reflexivity).
  exact (proj2 (proj2 (reconcile_settles float_0 demo_clock whole 4096 demo_lookup demo_disk demo_reconciled demo_rows demo_recovered ["effect"] []
    eq_refl demo_readable E Hn Hr))).
Defined.

(** An orphan intent of fence 1 is reconciled after the lease moved to fence 2:
    its receipt carries the old fence, and no recovery of the journal succeeds
    any more, whatever is appended. *)
Example reconcile_after_takeover :
  let '(d', r) := reconcile_orphan_intents float_0 demo_clock whole 4096 demo_lookup demo_taken in
  r = Ok (["effect"], []) ∧
  recover_rows (ok_or [] (replay float_0 4096 (file demo_taken))) ≠ Err (PrismRecoveryError "fence regressed during replay") ∧
  recover_rows (ok_or [] (replay float_0 4096 (file d'))) = Err (PrismRecoveryError "fence regressed during replay").
Proof. vm_compute. split; [reflexivity|]. split; [discriminate|reflexivity]. Qed.

Lemma inconsistent_forever rows more x : recover_rows rows = Err x → ∃ y, recover_rows (rows ++ more) = Err y.
Proof.
  intros E. induction more as [|row more IH] using rev_ind; [exists x; by rewrite app_nil_r|]. destruct IH as [y IH].
  exists y. by rewrite app_assoc, recover_rows_snoc, IH.
Qed.

(** The journal takes a row whose fence went back. *)
Example stale_fence_is_appended :
  (r ← append float_0 demo_clock whole 4096 (mkEvent "task" "lease_heartbeat" [] "prism" None (Some "task") None (Some 1)); mret tt) demo_taken =
  ((append float_0 demo_clock whole 4096 (mkEvent "task" "lease_heartbeat" [] "prism" None (Some "task") None (Some 1)) demo_taken).1, Ok tt).
Proof. vm_compute. reflexivity. Qed.
End Demo.
