(* ===== verification/PrismContracts.v ===== *)
(** Contracts of hierarchical Prism execution
    ([simplicio_loop/prism_contracts.py], with the canonical JSON of
    [simplicio_loop/hbp_ledger.py]): content-addressed identities of prisms,
    slots and task ownerships, admission of a task to a slot, and validation of
    a whole hierarchy. Strings are taken in Unicode normal form C, on which the
    normalisation of [canonical_bytes] is the identity. *)
From S2P Require Import Prelude PyLib.
Local Open Scope Z_scope.
Local Open Scope py_scope.

(** * Definitions *)

Definition PRISM_SCHEMA : string := "simplicio.prism-execution/v1".
Definition SLOT_SCHEMA : string := "simplicio.slot-supervisor/v1".
Definition OWNERSHIP_SCHEMA : string := "simplicio.task-ownership/v1".
Definition MIN_TASKS_PER_SLOT : Z := 10.
Definition MAX_PRISM_DEPTH : nat := 4.
Definition PRISM_STATES : list string :=
  ["declared"; "running"; "reducing"; "completed"; "partial"; "blocked"; "cancelled"].
Definition SLOT_STATES : list string :=
  ["declared"; "ready"; "running"; "reducing"; "completed"; "partial"; "blocked"; "cancelled"].
Definition TASK_STATES : list string :=
  ["queued"; "ready"; "running"; "validating"; "accepted"; "failed"; "blocked"; "cancelled"].
Definition TERMINAL_TASK_STATES : list string := ["accepted"; "failed"; "blocked"; "cancelled"].

Inductive PrismExn : Type := PrismContractError (msg : string).

Notation checked := (result PrismExn).

(** [if not ok: raise PrismContractError(msg)] *)
Definition require (ok : bool) (msg : string) : checked unit :=
  if ok then Ok tt else Err (PrismContractError msg).

Definition text (value name : string) : checked string :=
  let r := Str.strip value in
  if Str.truthy r then Ok r else Err (PrismContractError (name +:+ " is required")).

Fixpoint texts (l : list string) : checked (list string) :=
  match l with
  | [] => Ok []
  | x :: l' => let? y := text x "sequence value" in let? ys := texts l' in Ok (y :: ys)
  end.

(** [_tuple]: stripped, without duplicates, sorted. *)
Definition tuple (l : list string) : checked (list string) :=
  let? ys := texts l in Ok (sorted_set ys).

Definition is_hex (c : Ascii.ascii) : bool :=
  let n := Ascii.nat_of_ascii c in ((48 <=? n) && (n <=? 57) || (97 <=? n) && (n <=? 102))%nat.

Definition sha (value name : string) : checked string :=
  let? t := text value name in
  let r := Str.lower t in
  let? _ := require ((String.length r =? 64)%nat && forallb is_hex (String.list_ascii_of_string r))
              (name +:+ " must be a lowercase SHA-256") in
  Ok r.

(** [dict(pairs)]: the last value of a key, at the place of its first. *)
Fixpoint dict_set (k : string) (v : Z) (l : list (string * Z)) : list (string * Z) :=
  match l with
  | [] => [(k, v)]
  | (k', v') :: l' => if String.eqb k k' then (k, v) :: l' else (k', v') :: dict_set k v l'
  end.
Definition dict_of (l : list (string * Z)) : list (string * Z) :=
  foldl (λ d '(k, v), dict_set k v d) [] l.

Definition pair_le (x y : string * Z) : Prop :=
  (x.1 ≠ y.1 ∧ String.le x.1 y.1) ∨ (x.1 = y.1 ∧ x.2 <= y.2).
#[export] Instance pair_le_dec x y : Decision (pair_le x y).
Proof. unfold pair_le. apply _. Defined.

Fixpoint mapping_items (l : list (string * Z)) (name : string) : checked (list (string * Z)) :=
  match l with
  | [] => Ok []
  | (k, v) :: l' =>
      let? _ := require (negb (v <? 0)) (name +:+ "." +:+ k +:+ " must be a non-negative integer") in
      let? k' := text k (name +:+ " key") in
      let? rest := mapping_items l' name in
      Ok ((k', v) :: rest)
  end.

(** [_mapping(dict(pairs), name)] *)
Definition mapping (pairs : list (string * Z)) (name : string) : checked (list (string * Z)) :=
  let? l := mapping_items (dict_of pairs) name in Ok (merge_sort pair_le l).

(** [str(value or "").strip() or None] *)
Definition optional_text (v : option string) : option string :=
  match v with
  | Some s => let r := Str.strip s in if Str.truthy r then Some r else None
  | None => None
  end.

Definition canonical_sha256 (v : Json.json) : string := Sha256.hexdigest (Json.dumps false v).

Definition content_id (prefix : string) (v : Json.json) : string :=
  prefix +:+ ":" +:+ canonical_sha256 v.

Definition json_opt (v : option string) : Json.json :=
  match v with Some s => Json.Str s | None => Json.Null end.
Definition json_strs (l : list string) : Json.json := Json.List (Json.Str <$> l).
Definition json_pairs (l : list (string * Z)) : Json.json :=
  Json.List ((λ '(k, v), Json.List [Json.Str k; Json.Int v]) <$> l).

(** A given identity has to be the computed one. *)
Definition check_identity (given computed name : string) : checked unit :=
  require (negb (Str.truthy given && negb (String.eqb given computed)))
    (name +:+ " does not match canonical content").

(** ** Prisms *)
Module Prism.
Record PrismExecution := mk {
  goal_id : string;
  owner_agent : string;
  policy_hash : string;
  config_hash : string;
  source_generation : string;
  reducer_ref : string;
  parent_prism_id : option string;
  budget : list (string * Z);
  child_slot_ids : list string;
  state : string;
  max_depth : Z;
  prism_id : string;
  schema : string;
}.
#[export] Instance PrismExecution_eta : Eta PrismExecution := λ p,
  mk (goal_id p) (owner_agent p) (policy_hash p) (config_hash p) (source_generation p) (reducer_ref p)
    (parent_prism_id p) (budget p) (child_slot_ids p) (state p) (max_depth p) (prism_id p) (schema p).

(** The payload the identity is computed from: neither the state nor the
    children count. *)
Definition prism_identity (p : PrismExecution) : string := content_id "prism" (Json.Obj [
  ("goal_id", Json.Str (goal_id p)); ("owner_agent", Json.Str (owner_agent p));
  ("policy_hash", Json.Str (policy_hash p)); ("config_hash", Json.Str (config_hash p));
  ("source_generation", Json.Str (source_generation p)); ("reducer_ref", Json.Str (reducer_ref p));
  ("parent_prism_id", json_opt (parent_prism_id p)); ("budget", json_pairs (budget p));
  ("max_depth", Json.Int (max_depth p)); ("schema", Json.Str (schema p))]).

(** [__post_init__] *)
Definition PrismExecution_init (p : PrismExecution) : checked PrismExecution :=
  let? goal := text (goal_id p) "goal_id" in
  let? owner := text (owner_agent p) "owner_agent" in
  let? gen := text (source_generation p) "source_generation" in
  let? red := text (reducer_ref p) "reducer_ref" in
  let? ph := sha (policy_hash p) "policy_hash" in
  let? ch := sha (config_hash p) "config_hash" in
  let? children := tuple (child_slot_ids p) in
  let? b := mapping (budget p) "budget" in
  let? _ := require (String.eqb (schema p) PRISM_SCHEMA) "unknown PrismExecution schema" in
  let? _ := require (bool_decide (state p ∈ PRISM_STATES)) "unsupported prism state" in
  let? _ := require ((1 <=? max_depth p) && (max_depth p <=? Z.of_nat MAX_PRISM_DEPTH))
              "max_depth must be in [1, 4]" in
  let p' := mk goal owner ph ch gen red (optional_text (parent_prism_id p)) b children (state p)
              (max_depth p) (prism_id p) (schema p) in
  let? _ := check_identity (prism_id p) (prism_identity p') "prism_id" in
  Ok (p' <| prism_id := prism_identity p' |>).
End Prism.

(** ** Slots *)
Module Slot.
Record SlotSupervisor := mk {
  parent_prism_id : string;
  supervisor_agent : string;
  capacity : Z;
  task_ids : list string;
  child_slot_ids : list string;
  parent_slot_id : option string;
  resource_budget : list (string * Z);
  state : string;
  slot_id : string;
  schema : string;
}.
#[export] Instance SlotSupervisor_eta : Eta SlotSupervisor := λ s,
  mk (parent_prism_id s) (supervisor_agent s) (capacity s) (task_ids s) (child_slot_ids s)
    (parent_slot_id s) (resource_budget s) (state s) (slot_id s) (schema s).

Definition slot_identity (s : SlotSupervisor) : string := content_id "slot" (Json.Obj [
  ("parent_prism_id", Json.Str (parent_prism_id s)); ("supervisor_agent", Json.Str (supervisor_agent s));
  ("capacity", Json.Int (capacity s)); ("parent_slot_id", json_opt (parent_slot_id s));
  ("resource_budget", json_pairs (resource_budget s)); ("schema", Json.Str (schema s))]).

Definition SlotSupervisor_init (s : SlotSupervisor) : checked SlotSupervisor :=
  let? prism := text (parent_prism_id s) "parent_prism_id" in
  let? agent := text (supervisor_agent s) "supervisor_agent" in
  let? tasks := tuple (task_ids s) in
  let? children := tuple (child_slot_ids s) in
  let? rb := mapping (resource_budget s) "resource_budget" in
  let? _ := require (String.eqb (schema s) SLOT_SCHEMA) "unknown SlotSupervisor schema" in
  let? _ := require (bool_decide (state s ∈ SLOT_STATES)) "unsupported slot state" in
  let? _ := require (negb (capacity s <? MIN_TASKS_PER_SLOT)) "slot capacity must be at least 10" in
  let? _ := require (negb (capacity s <? Z.of_nat (length tasks))) "slot exceeds declared task capacity" in
  let? _ := require (negb (bool_decide (slot_id s ∈ children))) "slot cannot contain itself" in
  let s' := mk prism agent (capacity s) tasks children (optional_text (parent_slot_id s)) rb (state s)
              (slot_id s) (schema s) in
  let? _ := check_identity (slot_id s) (slot_identity s') "slot_id" in
  Ok (s' <| slot_id := slot_identity s' |>).

(** [digest]: the hash of all the fields. *)
Definition slot_digest (s : SlotSupervisor) : string := canonical_sha256 (Json.Obj [
  ("parent_prism_id", Json.Str (parent_prism_id s)); ("supervisor_agent", Json.Str (supervisor_agent s));
  ("capacity", Json.Int (capacity s)); ("task_ids", json_strs (task_ids s));
  ("child_slot_ids", json_strs (child_slot_ids s)); ("parent_slot_id", json_opt (parent_slot_id s));
  ("resource_budget", json_pairs (resource_budget s)); ("state", Json.Str (state s));
  ("slot_id", Json.Str (slot_id s)); ("schema", Json.Str (schema s))]).
End Slot.
Import Slot.

(** ** Ownership of a task *)
Module Ownership.
Record TaskOwnership := mk {
  task_id : string;
  o_slot_id : string;
  attempt : Z;
  owner_agent : string;
  lease_id : string;
  fence : Z;
  source_generation : string;
  capabilities : list string;
  allowed_transitions : list string;
  causal_parent : option string;
  state : string;
  ownership_id : string;
  schema : string;
}.
#[export] Instance TaskOwnership_eta : Eta TaskOwnership := λ o,
  mk (task_id o) (o_slot_id o) (attempt o) (owner_agent o) (lease_id o) (fence o) (source_generation o)
    (capabilities o) (allowed_transitions o) (causal_parent o) (state o) (ownership_id o) (schema o).

(** [_contract_dict(include_identity=False)] drops every identity field by
    name, [slot_id] among them; then the state is dropped. *)
Definition ownership_identity (o : TaskOwnership) : string := content_id "ownership" (Json.Obj [
  ("task_id", Json.Str (task_id o)); ("attempt", Json.Int (attempt o));
  ("owner_agent", Json.Str (owner_agent o)); ("lease_id", Json.Str (lease_id o));
  ("fence", Json.Int (fence o)); ("source_generation", Json.Str (source_generation o));
  ("capabilities", json_strs (capabilities o)); ("allowed_transitions", json_strs (allowed_transitions o));
  ("causal_parent", json_opt (causal_parent o)); ("schema", Json.Str (schema o))]).

Definition TaskOwnership_init (o : TaskOwnership) : checked TaskOwnership :=
  let? t := text (task_id o) "task_id" in
  let? sl := text (o_slot_id o) "slot_id" in
  let? ow := text (owner_agent o) "owner_agent" in
  let? le := text (lease_id o) "lease_id" in
  let? ge := text (source_generation o) "source_generation" in
  let? caps := tuple (capabilities o) in
  let? trans := tuple (allowed_transitions o) in
  let? _ := require (String.eqb (schema o) OWNERSHIP_SCHEMA) "unknown TaskOwnership schema" in
  let? _ := require (negb (attempt o <? 1)) "attempt must be a positive integer" in
  let? _ := require (negb (fence o <? 1)) "fence must be a positive integer" in
  let? _ := require (negb (bool_decide (caps = []))) "at least one capability is required" in
  let? _ := require (negb (bool_decide (trans = []))) "allowed_transitions cannot be empty" in
  let? _ := require (bool_decide (Forall (λ t, t ∈ TASK_STATES) trans)) "unknown task transition" in
  let? _ := require (bool_decide (state o ∈ TASK_STATES)) "unsupported task state" in
  let o' := mk t sl (attempt o) ow le (fence o) ge caps trans (optional_text (causal_parent o)) (state o)
              (ownership_id o) (schema o) in
  let? _ := check_identity (ownership_id o) (ownership_identity o') "ownership_id" in
  Ok (o' <| ownership_id := ownership_identity o' |>).

(** [transition]: by the owner, under its fence, to an allowed state. *)
Definition transition (o : TaskOwnership) (st : string) (fence_ : Z) (agent : string) : checked TaskOwnership :=
  let? stale :=
    if negb (fence_ =? fence o) then Ok true
    else let? a := text agent "owner_agent" in Ok (negb (String.eqb a (owner_agent o))) in
  let? _ := require (negb stale) "stale or non-owner transition" in
  let? _ := require (bool_decide (st ∈ allowed_transitions o)) "transition is not authorized" in
  TaskOwnership_init (o <| state := st |> <| ownership_id := "" |>).
End Ownership.
Import Ownership.

(** ** Admission of a task to a slot *)

Record AdmissionReceipt := mkAdmission {
  ar_slot_id : string;
  ar_task_id : string;
  ar_admitted : bool;
  ar_reason_code : string;
  ar_position : Z;
  ar_slot_digest : string;
}.

Definition admit_task (s : SlotSupervisor) (o : TaskOwnership) : checked (SlotSupervisor * AdmissionReceipt) :=
  let? _ := require (String.eqb (o_slot_id o) (slot_id s)) "ownership crosses slot" in
  let? _ := require (negb (bool_decide (task_id o ∈ task_ids s))) "duplicate task admission" in
  let n := Z.of_nat (length (task_ids s)) in
  if capacity s <=? n then
    Ok (s, mkAdmission (slot_id s) (task_id o) false "SLOT_LOGICAL_CAPACITY" (n + 1) (slot_digest s))
  else
    let? updated := SlotSupervisor_init (s <| task_ids := task_ids s ++ [task_id o] |> <| slot_id := "" |>) in
    Ok (updated, mkAdmission (slot_id s) (task_id o) true "ADMITTED"
          (Z.of_nat (length (task_ids updated))) (slot_digest updated)).

(** ** Validation of a hierarchy *)

(** [{item.id: item.parent for item in items}] *)
Definition parents_of {A} (id : A → string) (parent : A → option string) (l : list A) :
    gmap string (option string) :=
  foldl (λ m x, <[id x := parent x]> m) ∅ l.

(** The loop of [check_parent_chain] from [cursor]; each turn lengthens the
    chain, which is refused past [max_depth], so [S max_depth] turns are enough. *)
Fixpoint parent_chain (fuel : nat) (parents : gmap string (option string)) (max_depth : nat) (kind : string)
    (seen : list string) (depth : nat) (cursor : option string) : checked nat :=
  match fuel with
  | O => Err (PrismContractError (kind +:+ " hierarchy exceeds max_depth"))
  | S fuel' =>
      match cursor with
      | None => Ok depth
      | Some c =>
          if negb (Str.truthy c) then Ok depth
          else
            let? _ := require (negb (bool_decide (c ∈ seen))) (kind +:+ " hierarchy contains a cycle") in
            let? _ := require (S depth <=? max_depth)%nat (kind +:+ " hierarchy exceeds max_depth") in
            parent_chain fuel' parents max_depth kind (c :: seen) (S depth) (default None (parents !! c))
      end
  end.

Definition check_parent_chain (parents : gmap string (option string)) (max_depth : nat) (kind node : string) :
    checked nat :=
  parent_chain (S max_depth) parents max_depth kind [] 0 (Some node).

Fixpoint check_chains (parents : gmap string (option string)) (max_depth : nat) (kind : string)
    (nodes : list string) : checked (list nat) :=
  match nodes with
  | [] => Ok []
  | n :: nodes' =>
      let? d := check_parent_chain parents max_depth kind n in
      let? ds := check_chains parents max_depth kind nodes' in
      Ok (d :: ds)
  end.

(** [parent and parent not in known] is false *)
Definition parent_known (known : list string) (parent : option string) : bool :=
  match parent with
  | Some p => negb (Str.truthy p) || bool_decide (p ∈ known)
  | None => true
  end.

Fixpoint check_prisms (prisms slots : list string) (l : list Prism.PrismExecution) : checked unit :=
  match l with
  | [] => Ok tt
  | p :: l' =>
      let? _ := require (parent_known prisms (Prism.parent_prism_id p)) "unknown parent prism" in
      let? _ := require (bool_decide (Forall (λ c, c ∈ slots) (Prism.child_slot_ids p)))
                  "prism references unknown child slot" in
      check_prisms prisms slots l'
  end.

Fixpoint check_slots (prisms slots : list string) (l : list SlotSupervisor) : checked unit :=
  match l with
  | [] => Ok tt
  | s :: l' =>
      let? _ := require (bool_decide (Slot.parent_prism_id s ∈ prisms)) "slot references unknown prism" in
      let? _ := require (parent_known slots (parent_slot_id s)) "slot references unknown parent slot" in
      let? _ := require (bool_decide (Forall (λ c, c ∈ slots) (child_slot_ids s)))
                  "slot references unknown child slot" in
      check_slots prisms slots l'
  end.

(** The ownership loop; [owners] are the tasks owned so far, latest first. *)
Fixpoint check_owners (slots : list SlotSupervisor) (owners : list string) (l : list TaskOwnership) :
    checked (list string) :=
  match l with
  | [] => Ok owners
  | o :: l' =>
      let? _ := require (negb (bool_decide (task_id o ∈ owners))) "task has multiple accountable owners" in
      match list_find (λ s, slot_id s = o_slot_id o) (reverse slots) with
      | None => Err (PrismContractError "ownership references unknown slot")
      | Some (_, s) =>
          let? _ := require (bool_decide (task_id o ∈ task_ids s)) "ownership task is not admitted by its slot" in
          check_owners slots (task_id o :: owners) l'
      end
  end.

Record HierarchyReport := mkReport {
  hr_prisms : list string;
  hr_slots : list string;
  hr_tasks : list string;
  hr_max_observed_depth : nat;
  hr_digest : string;
}.

Definition hierarchy_digest (ps ss ts : list string) (d : nat) : string := canonical_sha256 (Json.Obj [
  ("schema", Json.Str "simplicio.prism-hierarchy-validation/v1"); ("prisms", json_strs ps);
  ("slots", json_strs ss); ("tasks", json_strs ts); ("max_observed_depth", Json.Int (Z.of_nat d));
  ("valid", Json.Bool true)]).

Definition validate_hierarchy (prisms : list Prism.PrismExecution) (slots : list SlotSupervisor)
    (ownerships : list TaskOwnership) (max_depth : nat) : checked HierarchyReport :=
  let? _ := require ((1 <=? max_depth) && (max_depth <=? MAX_PRISM_DEPTH))%nat "invalid hierarchy max_depth" in
  let pids := Prism.prism_id <$> prisms in
  let sids := slot_id <$> slots in
  let? _ := require (bool_decide (NoDup pids) && bool_decide (NoDup sids)) "duplicate prism or slot identity" in
  let? _ := check_prisms pids sids prisms in
  let? _ := check_slots pids sids slots in
  let? pd := check_chains (parents_of Prism.prism_id Prism.parent_prism_id prisms) max_depth "prism" pids in
  let? sd := check_chains (parents_of slot_id parent_slot_id slots) max_depth "slot" sids in
  let declared := mjoin (task_ids <$> slots) in
  let? owners := check_owners slots [] ownerships in
  let? _ := require (bool_decide (Forall (λ t, t ∈ owners) declared ∧ Forall (λ t, t ∈ declared) owners))
              "every admitted task requires exactly one owner" in
  let ps := sorted_set pids in let ss := sorted_set sids in let ts := sorted_set owners in
  let d := foldr Nat.max O (pd ++ sd) in
  Ok (mkReport ps ss ts d (hierarchy_digest ps ss ts d)).

(** * Specification *)

(** A contract the constructor gives back unchanged: what the constructors
    build, and what [dataclasses.replace] rebuilds. *)
Definition slot_ok (s : SlotSupervisor) : Prop := SlotSupervisor_init s = Ok s.
Definition ownership_ok (o : TaskOwnership) : Prop := TaskOwnership_init o = Ok o.

(** [c] reaches a root after [n] nodes of the parent relation. *)
Inductive rooted (parents : gmap string (option string)) : nat → string → Prop :=
| rooted_root c : c ≠ "" → (parents !! c = None ∨ parents !! c = Some None ∨ parents !! c = Some (Some "")) →
    rooted parents 1 c
| rooted_step n c p : c ≠ "" → parents !! c = Some (Some p) → p ≠ "" → rooted parents n p →
    rooted parents (S n) c.

Definition known (ids : list string) (parent : option string) : Prop :=
  ∀ p, parent = Some p → p ≠ "" → p ∈ ids.

Definition shallow (parents : gmap string (option string)) (max_depth : nat) (ids : list string) : Prop :=
  ∀ c, c ∈ ids → c ≠ "" → ∃ n, (n <= max_depth)%nat ∧ rooted parents n c.

(** What a valid hierarchy is: unique identities, closed references, parent
    chains that end within the depth, and exactly one owner, through the slot
    that admitted it, for every admitted task. *)
Record valid_hierarchy (ps : list Prism.PrismExecution) (ss : list SlotSupervisor)
    (os : list TaskOwnership) (max_depth : nat) : Prop := {
  vh_depth : (1 <= max_depth <= MAX_PRISM_DEPTH)%nat;
  vh_prism_ids : NoDup (Prism.prism_id <$> ps);
  vh_slot_ids : NoDup (slot_id <$> ss);
  vh_prisms p : p ∈ ps → known (Prism.prism_id <$> ps) (Prism.parent_prism_id p) ∧
    ∀ c, c ∈ Prism.child_slot_ids p → c ∈ slot_id <$> ss;
  vh_slots s : s ∈ ss → Slot.parent_prism_id s ∈ Prism.prism_id <$> ps ∧
    known (slot_id <$> ss) (parent_slot_id s) ∧ ∀ c, c ∈ child_slot_ids s → c ∈ slot_id <$> ss;
  vh_prism_chains : shallow (parents_of Prism.prism_id Prism.parent_prism_id ps) max_depth (Prism.prism_id <$> ps);
  vh_slot_chains : shallow (parents_of slot_id parent_slot_id ss) max_depth (slot_id <$> ss);
  vh_one_owner : NoDup (task_id <$> os);
  vh_owner o : o ∈ os → ∃ s, s ∈ ss ∧ slot_id s = o_slot_id o ∧ task_id o ∈ task_ids s;
  vh_owned t s : s ∈ ss → t ∈ task_ids s → t ∈ task_id <$> os;
}.

(** Examples: an empty slot and the ownership of a task in it. *)
Definition demo_hash : string := Sha256.hexdigest "".
Definition demo_slot : SlotSupervisor := ok_or (Slot.mk "" "" 0 [] [] None [] "" "" "")
  (SlotSupervisor_init (Slot.mk "prism:x" "agent" 10 [] [] None [("cpu", 2)] "declared" "" SLOT_SCHEMA)).
Definition demo_owner_draft : TaskOwnership :=
  Ownership.mk "task-1" (slot_id demo_slot) 1 "agent" "lease" 1 "gen" ["edit"] ["running"; "accepted"]
    None "queued" "" OWNERSHIP_SCHEMA.
Definition demo_owner : TaskOwnership := ok_or demo_owner_draft (TaskOwnership_init demo_owner_draft).

(** The values [_tuple] leaves alone. *)
Definition tidy (l : list string) : Prop := Forall (λ x, Str.strip x = x ∧ x ≠ "") l.

Definition chain_ends (parents : gmap string (option string)) (n : nat) (cursor : option string) : Prop :=
  match cursor with
  | None => n = O
  | Some c => (c = "" ∧ n = O) ∨ (c ≠ "" ∧ rooted parents n c)
  end.

(** * Lemmas *)

Lemma require_Ok b msg u : require b msg = Ok u ↔ b = true.
Proof. destruct b, u; done. Qed.

Lemma bind_require {A} b msg (k : unit → checked A) r :
  rbind (require b msg) k = Ok r ↔ b = true ∧ k tt = Ok r.
Proof. destruct b; simpl; naive_solver. Qed.

(** ** Text fields *)

Lemma text_Ok v n r : text v n = Ok r ↔ r = Str.strip v ∧ r ≠ "".
Proof.
  unfold text. destruct (Str.truthy (Str.strip v)) eqn:E.
  - apply Str.truthy_ne in E. split; [by intros [= <-]|by intros [-> _]].
  - split; [done|]. intros [-> H]. apply Str.truthy_ne in H. congruence.
Qed.

Lemma text_idemp v n r m : text v n = Ok r → text r m = Ok r.
Proof. rewrite !text_Ok. intros [-> H]. by rewrite Str.strip_idemp. Qed.

Lemma texts_Ok l r : texts l = Ok r ↔ r = Str.strip <$> l ∧ Forall (λ x, x ≠ "") r.
Proof.
  revert r. induction l as [|x l IH]; intros r; simpl.
  - split; [intros [= <-]; done|by intros [-> _]].
  - rewrite rbind_Ok. split.
    + intros (y & [-> Hy]%text_Ok & (ys & [-> Hys]%IH & [= <-])%rbind_Ok). by split; [|constructor].
    + intros [-> H]. inv H. exists (Str.strip x). rewrite text_Ok. split; [done|].
      rewrite rbind_Ok. exists (Str.strip <$> l). by rewrite IH.
Qed.

Lemma tidy_texts l : tidy l → texts l = Ok l.
Proof.
  intros H. apply texts_Ok. induction H as [|x l [Hx Hne] _ [IH1 IH2]]; [done|].
  rewrite fmap_cons, Hx, <- IH1. by split; [|constructor].
Qed.

Lemma tuple_tidy l r : tuple l = Ok r → tidy r ∧ sorted_set r = r.
Proof.
  unfold tuple. rewrite rbind_Ok. intros (ys & [-> Hys]%texts_Ok & [= <-]). split.
  - apply Forall_forall. intros x Hx. rewrite elem_of_sorted_set in Hx.
    rewrite Forall_forall in Hys. split; [|exact (Hys x Hx)].
    apply list_elem_of_fmap in Hx as (y & -> & _). apply Str.strip_idemp.
  - apply sorted_set_idemp.
Qed.

Lemma tuple_of_tidy l : tidy l → tuple l = Ok (sorted_set l).
Proof. intros H. unfold tuple. by rewrite (tidy_texts l H). Qed.

Lemma tidy_sorted l : tidy l → tidy (sorted_set l).
Proof. unfold tidy. rewrite !Forall_forall. intros H x Hx. apply H. by rewrite elem_of_sorted_set in Hx. Qed.

Lemma tuple_idemp l r : tuple l = Ok r → tuple r = Ok r.
Proof. intros [H1 H2]%tuple_tidy. by rewrite (tuple_of_tidy r H1), H2. Qed.

(** ** Slots *)

(** The fields of a well-formed slot pass their own checks. *)
Lemma slot_ok_fields s :
  slot_ok s →
  text (Slot.parent_prism_id s) "parent_prism_id" = Ok (Slot.parent_prism_id s) ∧
  text (supervisor_agent s) "supervisor_agent" = Ok (supervisor_agent s) ∧
  tuple (task_ids s) = Ok (task_ids s) ∧ tuple (child_slot_ids s) = Ok (child_slot_ids s) ∧
  mapping (resource_budget s) "resource_budget" = Ok (resource_budget s) ∧
  Slot.schema s = SLOT_SCHEMA ∧ Slot.state s ∈ SLOT_STATES ∧
  MIN_TASKS_PER_SLOT <= capacity s ∧ Z.of_nat (length (task_ids s)) <= capacity s ∧
  slot_id s ∉ child_slot_ids s ∧ optional_text (parent_slot_id s) = parent_slot_id s ∧
  slot_identity s = slot_id s.
Proof.
  unfold slot_ok, SlotSupervisor_init. intros H.
  apply rbind_Ok in H as (a & Ha & H). apply rbind_Ok in H as (b & Hb & H).
  apply rbind_Ok in H as (c & Hc & H). apply rbind_Ok in H as (d & Hd & H).
  apply rbind_Ok in H as (e & He & H). rewrite !bind_require in H.
  destruct H as (H1%String.eqb_eq & H2%bool_decide_eq_true_1 & H3%negb_true_iff%Z.ltb_ge &
    H4%negb_true_iff%Z.ltb_ge & H5%negb_true_iff%bool_decide_eq_false_1 & H).
  apply rbind_Ok in H as (u & _ & H). destruct s as [p ag cap ts cs ps rb st sid sch]. simpl in *.
  injection H as -> -> -> -> E -> E'. do 10 (split; [done|]). split; [done|].
  by rewrite <- E' at 2; rewrite E.
Qed.

(** Rebuilding a well-formed slot with other tidy tasks changes nothing else. *)
Lemma slot_rebuild s ts sid :
  slot_ok s → tidy ts → Z.of_nat (length (sorted_set ts)) <= capacity s → sid = "" ∨ sid = slot_id s →
  SlotSupervisor_init (s <| task_ids := ts |> <| slot_id := sid |>) = Ok (s <| task_ids := sorted_set ts |>).
Proof.
  intros Hs Ht Hlen Hsid. destruct (slot_ok_fields s Hs)
    as (H1 & H2 & H3 & H4 & H5 & H6 & H7 & H8 & _ & H10 & H11 & H12).
  unfold SlotSupervisor_init. destruct s as [p ag cap tsk cs ps rb st sid' sch]. simpl in *.
  rewrite H1. cbn [rbind]. rewrite H2. cbn [rbind]. rewrite (tuple_of_tidy ts Ht). cbn [rbind].
  rewrite H4. cbn [rbind]. rewrite H5. cbn [rbind]. rewrite !bind_require.
  split; [by apply String.eqb_eq|]. split; [by apply bool_decide_eq_true_2|].
  split; [by apply negb_true_iff, Z.ltb_ge|]. split; [by apply negb_true_iff, Z.ltb_ge|].
  assert (sid ∉ cs) as Hcs.
  { destruct Hsid as [-> | ->]; [|done]. apply tuple_tidy in H4 as [H4 _].
    intros Hin. unfold tidy in H4. rewrite Forall_forall in H4. by apply (H4 "" Hin). }
  split; [by apply negb_true_iff, bool_decide_eq_false_2|].
  assert (slot_identity (Slot.mk p ag cap (sorted_set ts) cs (optional_text ps) rb st sid sch) = sid') as Hid.
  { rewrite H11. exact H12. }
  rewrite Hid. unfold check_identity. rewrite bind_require. split; [|by rewrite H11].
  destruct Hsid as [-> | ->]; [done|]. rewrite String.eqb_refl. by rewrite andb_false_r.
Qed.

(** ** Parent chains *)

Lemma parents_of_lookup {A} (id : A → string) (parent : A → option string) l x :
  NoDup (id <$> l) → x ∈ l → parents_of id parent l !! id x = Some (parent x).
Proof.
  unfold parents_of. intros Hnd Hx.
  assert (∀ (m : gmap string (option string)) l, NoDup (id <$> l) → x ∈ l → foldl (λ m x, <[id x := parent x]> m) m l !! id x = Some (parent x)) as H;
    [|by apply H].
  clear. intros m l. revert m. induction l as [|y l IH]; intros m Hnd Hx; [by apply not_elem_of_nil in Hx|].
  simpl in Hnd. apply NoDup_cons in Hnd as [Hy Hnd]. simpl.
  apply elem_of_cons in Hx as [->|Hx]; [|by apply IH].
  clear IH. assert (∀ m : gmap string (option string), id y ∉ id <$> l → foldl (λ m x, <[id x := parent x]> m) m l !! id y = m !! id y) as Hskip.
  { clear. induction l as [|z l IH]; intros m Hy; [done|]. simpl in *. apply not_elem_of_cons in Hy as [Hne Hy].
    rewrite IH by done. by rewrite lookup_insert_ne. }
  rewrite Hskip by done. apply lookup_insert_eq.
Qed.

Lemma rooted_next parents n c :
  c ≠ "" → rooted parents (S n) c ↔ chain_ends parents n (default None (parents !! c)).
Proof.
  intros Hc. split.
  - inversion 1 as [c' Hc' Hp|n' c' p Hc' Hp Hpe Hr]; subst.
    + destruct Hp as [-> | [-> | ->]]; simpl; auto.
    + rewrite Hp. simpl. by right.
  - destruct (parents !! c) as [[p|]|] eqn:E; simpl.
    + intros [[-> ->]|[Hp Hr]]; [apply rooted_root; auto|by eapply rooted_step].
    + intros ->. apply rooted_root; auto.
    + intros ->. apply rooted_root; auto.
Qed.

Lemma rooted_pos parents n c : rooted parents n c → (0 < n)%nat.
Proof. destruct 1; lia. Qed.

Lemma rooted_fun parents n m c : rooted parents n c → rooted parents m c → n = m.
Proof.
  intros H. revert m. induction H as [c Hc Hp|n c p Hc Hp Hne Hr IH]; intros m Hm; inv Hm; [done| | |].
  - naive_solver.
  - naive_solver.
  - f_equal. apply IH. congruence.
Qed.

(** Every identity names a chain of bounded length. *)
Lemma parent_chain_sound fuel parents md kind seen depth c d :
  parent_chain fuel parents md kind seen depth (Some c) = Ok d → c ≠ "" →
  (depth < d <= md)%nat ∧ rooted parents (d - depth) c.
Proof.
  revert seen depth c. induction fuel as [|fuel IH]; intros seen depth c H Hc; [done|].
  cbn [parent_chain] in H. rewrite (proj2 (Str.truthy_ne c) Hc) in H. cbn [negb] in H.
  rewrite !bind_require in H. destruct H as (_ & Hm%Nat.leb_le & H).
  assert (chain_ends parents (d - S depth) (default None (parents !! c)) ∧ (S depth <= d <= md)%nat) as [He Hd].
  { destruct (default None (parents !! c)) as [p|] eqn:E.
    - destruct (decide (p = "")) as [->|Hp].
      + destruct fuel; [done|]. simpl in H. injection H as <-. split; [left; split; [done|lia]|lia].
      + destruct (IH _ _ _ H Hp) as [Hd Hr]. split; [right; done|lia].
    - destruct fuel; [done|]. simpl in H. injection H as <-. split; [simpl; lia|lia]. }
  split; [lia|]. replace (d - depth)%nat with (S (d - S depth)) by lia. by apply rooted_next.
Qed.

Lemma parent_chain_complete fuel parents md kind seen depth c n :
  rooted parents n c → (depth + n <= md)%nat → (n < fuel)%nat →
  (∀ x k, x ∈ seen → rooted parents k x → (n < k)%nat) →
  parent_chain fuel parents md kind seen depth (Some c) = Ok (depth + n)%nat.
Proof.
  intros Hr. revert fuel seen depth. induction Hr as [c Hc Hp|n c p Hc Hp Hne Hr IH];
    intros fuel seen depth Hm Hf Hs; destruct fuel as [|fuel]; [lia| |lia|]; cbn [parent_chain];
    rewrite (proj2 (Str.truthy_ne c) Hc); cbn [negb]; rewrite !bind_require.
  - split; [apply negb_true_iff, bool_decide_eq_false_2; intros Hin;
      specialize (Hs c 1%nat Hin (rooted_root _ c Hc Hp)); lia|].
    split; [apply Nat.leb_le; lia|]. destruct fuel; [lia|].
    destruct Hp as [-> | [-> | ->]]; simpl; f_equal; lia.
  - split; [apply negb_true_iff, bool_decide_eq_false_2; intros Hin;
      specialize (Hs c (S n) Hin (rooted_step _ n c p Hc Hp Hne Hr)); lia|].
    split; [apply Nat.leb_le; lia|]. rewrite Hp. simpl.
    rewrite (IH fuel (c :: seen) (S depth)); [f_equal; lia|lia|lia|].
    intros x k Hx Hk. apply elem_of_cons in Hx as [->|Hx].
    + rewrite (rooted_fun _ _ _ _ Hk (rooted_step _ n c p Hc Hp Hne Hr)). lia.
    + specialize (Hs x k Hx Hk). lia.
Qed.

Lemma check_chains_Ok parents md kind nodes :
  (∃ ds, check_chains parents md kind nodes = Ok ds) ↔ shallow parents md nodes.
Proof.
  induction nodes as [|n nodes IH]; simpl.
  - split; [intros _ c Hc; by apply not_elem_of_nil in Hc|intros _; by eexists].
  - split.
    + intros [ds H]. apply rbind_Ok in H as (d & Hd & H). apply rbind_Ok in H as (ds' & Hds & _).
      intros c Hc Hne. apply elem_of_cons in Hc as [->|Hc].
      * apply parent_chain_sound in Hd as [Hd Hr]; [|done]. exists (d - 0)%nat. split; [lia|done].
      * by apply (proj1 IH (ex_intro _ ds' Hds)).
    + intros H. assert (shallow parents md nodes) as H' by (intros c Hc; apply H; by right).
      apply IH in H' as [ds ->].
      destruct (decide (n = "")) as [->|Hne]; [by eexists|].
      destruct (H n ltac:(by left) Hne) as (k & Hk & Hr). unfold check_parent_chain.
      pose proof (rooted_pos _ _ _ Hr).
      rewrite (parent_chain_complete (S md) parents md kind [] 0 n k Hr); [by eexists|lia|lia|].
      intros x j Hx. by apply not_elem_of_nil in Hx.
Qed.

(** ** References and owners *)

Lemma parent_known_spec ids parent : parent_known ids parent = true ↔ known ids parent.
Proof.
  unfold parent_known, known. destruct parent as [p|]; [|naive_solver].
  rewrite orb_true_iff, negb_true_iff, bool_decide_eq_true. split.
  - intros [H|H] p' [= <-] Hne; [|done]. apply Str.truthy_ne in Hne. congruence.
  - intros H. destruct (Str.truthy p) eqn:E; [|by left]. right. apply H; [done|]. by apply Str.truthy_ne.
Qed.

Lemma check_prisms_Ok ps ss l u :
  check_prisms ps ss l = Ok u ↔
  ∀ p, p ∈ l → known ps (Prism.parent_prism_id p) ∧ ∀ c, c ∈ Prism.child_slot_ids p → c ∈ ss.
Proof.
  induction l as [|p l IH]; simpl.
  - destruct u. split; [intros _ p Hp; by apply not_elem_of_nil in Hp|done].
  - rewrite !bind_require, parent_known_spec, bool_decide_eq_true, Forall_forall, IH.
    setoid_rewrite elem_of_cons. naive_solver.
Qed.

Lemma check_slots_Ok ps ss l u :
  check_slots ps ss l = Ok u ↔
  ∀ s, s ∈ l → Slot.parent_prism_id s ∈ ps ∧ known ss (parent_slot_id s) ∧
    ∀ c, c ∈ child_slot_ids s → c ∈ ss.
Proof.
  induction l as [|s l IH]; simpl.
  - destruct u. split; [intros _ s Hs; by apply not_elem_of_nil in Hs|done].
  - rewrite !bind_require, parent_known_spec, !bool_decide_eq_true, Forall_forall, IH.
    setoid_rewrite elem_of_cons. naive_solver.
Qed.

Lemma find_slot slots x :
  match list_find (λ s, slot_id s = x) (reverse slots) with
  | Some (_, s) => s ∈ slots ∧ slot_id s = x
  | None => ∀ s, s ∈ slots → slot_id s ≠ x
  end.
Proof.
  destruct (list_find _ _) as [[i s]|] eqn:E.
  - apply list_find_Some in E as (Hi & Hx & _). split; [|done].
    apply elem_of_reverse. by eapply list_elem_of_lookup_2.
  - apply list_find_None in E. rewrite Forall_forall in E. intros s Hs. apply E. by apply elem_of_reverse.
Qed.

Lemma slot_unique slots s s' :
  NoDup (slot_id <$> slots) → s ∈ slots → s' ∈ slots → slot_id s = slot_id s' → s = s'.
Proof.
  intros Hnd [i Hi]%list_elem_of_lookup_1 [j Hj]%list_elem_of_lookup_1 Heq.
  assert (i = j) as ->; [|congruence].
  eapply (NoDup_lookup (slot_id <$> slots)); [done|rewrite list_lookup_fmap, Hi; done|].
  rewrite list_lookup_fmap, Hj. simpl. congruence.
Qed.

Lemma check_owners_Ok slots owners l r :
  NoDup (slot_id <$> slots) →
  check_owners slots owners l = Ok r ↔
  r = reverse (task_id <$> l) ++ owners ∧ NoDup (task_id <$> l) ∧
  (∀ t, t ∈ task_id <$> l → t ∉ owners) ∧
  ∀ o, o ∈ l → ∃ s, s ∈ slots ∧ slot_id s = o_slot_id o ∧ task_id o ∈ task_ids s.
Proof.
  intros Hnd. revert owners. induction l as [|o l IH]; intros owners.
  - simpl. split; [intros [= <-]; split; [done|]; split; [constructor|]; split; intros ? H; by apply not_elem_of_nil in H|].
    by intros [-> _].
  - cbn [check_owners]. rewrite bind_require, negb_true_iff, bool_decide_eq_false.
    pose proof (find_slot slots (o_slot_id o)) as Hfind.
    destruct (list_find _ _) as [[i s]|].
    + destruct Hfind as [Hs Hid]. rewrite bind_require, bool_decide_eq_true, IH.
      simpl. rewrite reverse_cons, <- app_assoc. simpl. rewrite NoDup_cons. split.
      * intros (Hno & Hin & Hr & Hnd' & Hdis & Hall). split; [done|].
        split; [split; [intros Hx; by apply (Hdis _ Hx); left|done]|]. split.
        { intros t [->|Ht]%elem_of_cons; [done|]. intros Hto. apply (Hdis t Ht). by right. }
        intros o' [->|Ho']%elem_of_cons; [by exists s|by apply Hall].
      * intros (Hr & [Hx Hnd'] & Hdis & Hall). split; [apply Hdis; by left|].
        destruct (Hall o ltac:(by left)) as (s' & Hs' & Hid' & Hin').
        rewrite (slot_unique slots s s') by (done || congruence). split; [done|]. split; [done|].
        split; [done|]. split.
        { intros t Ht [->|Hto]%elem_of_cons; [done|]. apply (Hdis t); [by right|done]. }
        intros o' Ho'. apply Hall. by right.
    + split; [naive_solver|]. intros (_ & _ & _ & Hall).
      destruct (Hall o ltac:(by left)) as (s & Hs & Hid & _). by destruct (Hfind s Hs).
Qed.

Lemma ownership_task o : ownership_ok o → Str.strip (task_id o) = task_id o ∧ task_id o ≠ "".
Proof.
  unfold ownership_ok, TaskOwnership_init. intros H. apply rbind_Ok in H as (t & [-> Ht]%text_Ok & H).
  assert (Str.strip (task_id o) = task_id o) as E; [|by rewrite E in Ht].
  repeat match goal with
  | H : rbind (require _ _) _ = Ok _ |- _ => apply bind_require in H as [_ H]
  | H : rbind (check_identity _ _ _) _ = Ok _ |- _ => unfold check_identity in H
  | H : rbind _ _ = Ok _ |- _ => apply rbind_Ok in H as (? & _ & H)
  end.
  destruct o. simpl in *. by injection H.
Qed.

Lemma slot_tasks_nodup s : slot_ok s → NoDup (task_ids s).
Proof.
  intros Hs. destruct (slot_ok_fields s Hs) as (_ & _ & Ht & _). apply tuple_tidy in Ht as [_ <-].
  apply NoDup_sorted_set.
Qed.

Lemma ownership_owner o : ownership_ok o → Str.strip (owner_agent o) = owner_agent o ∧ owner_agent o ≠ "".
Proof.
  unfold ownership_ok, TaskOwnership_init. intros H. apply rbind_Ok in H as (? & _ & H).
  apply rbind_Ok in H as (? & _ & H). apply rbind_Ok in H as (t & [-> Ht]%text_Ok & H).
  assert (Str.strip (owner_agent o) = owner_agent o) as E; [|by rewrite E in Ht].
  repeat match goal with
  | H : rbind (require _ _) _ = Ok _ |- _ => apply bind_require in H as [_ H]
  | H : rbind (check_identity _ _ _) _ = Ok _ |- _ => unfold check_identity in H
  | H : rbind _ _ = Ok _ |- _ => apply rbind_Ok in H as (? & _ & H)
  end.
  destruct o. simpl in *. by injection H.
Qed.

(** A well-formed ownership restated in an allowed state is well-formed. *)
Lemma ownership_restate o st :
  ownership_ok o → st ∈ allowed_transitions o →
  TaskOwnership_init (o <| Ownership.state := st |> <| ownership_id := "" |>) = Ok (o <| Ownership.state := st |>).
Proof.
  unfold ownership_ok, TaskOwnership_init. intros H Hst.
  destruct o as [t sl at_ ow le fe ge ca al cp sta oid sch]. simpl in *.
  apply rbind_Ok in H as (t' & Ht & H). apply rbind_Ok in H as (sl' & Hsl & H).
  apply rbind_Ok in H as (ow' & How & H). apply rbind_Ok in H as (le' & Hle & H).
  apply rbind_Ok in H as (ge' & Hge & H). apply rbind_Ok in H as (ca' & Hca & H).
  apply rbind_Ok in H as (al' & Hal & H). rewrite !bind_require in H.
  destruct H as (H1 & H2 & H3 & H4 & H5 & H6 & H7 & H). apply rbind_Ok in H as (u & _ & H).
  injection H as -> -> -> -> -> -> -> Hcp Hoid.
  rewrite Ht. cbn [rbind]. rewrite Hsl. cbn [rbind]. rewrite How. cbn [rbind]. rewrite Hle. cbn [rbind].
  rewrite Hge. cbn [rbind]. rewrite Hca. cbn [rbind]. rewrite Hal. cbn [rbind]. rewrite !bind_require.
  do 6 (split; [done|]). split.
  { apply bool_decide_eq_true_2. apply bool_decide_eq_true_1 in H6. rewrite Forall_forall in H6. by apply H6. }
  cbn [check_identity Str.truthy String.eqb negb andb require rbind]. rewrite Hcp in *.
  f_equal. unfold ownership_identity in *. simpl in *. by rewrite Hoid.
Qed.

(** * Properties *)

(** [validate_hierarchy] accepts exactly the valid hierarchies: unique
    prism and slot identities, every reference inside the hierarchy, every
    chain of parents ending at a root within the depth (hence no cycle), every
    ownership through a slot that admitted its task, and exactly one owner for
    every admitted task. *)
Theorem validate_hierarchy_exact ps ss os md :
  (∃ r, validate_hierarchy ps ss os md = Ok r) ↔ valid_hierarchy ps ss os md.
Proof.
  unfold validate_hierarchy. split.
  - intros [r H]. rewrite !bind_require in H. destruct H as (Hd & Hids & H).
    apply andb_true_iff in Hd as [Hd1%Nat.leb_le Hd2%Nat.leb_le].
    apply andb_true_iff in Hids as [Hp%bool_decide_eq_true_1 Hs%bool_decide_eq_true_1].
    apply rbind_Ok in H as (u1 & Hcp & H). apply rbind_Ok in H as (u2 & Hcs & H).
    apply rbind_Ok in H as (pd & Hpd & H). apply rbind_Ok in H as (sd & Hsd & H).
    apply rbind_Ok in H as (owners & Ho & H). rewrite bind_require, bool_decide_eq_true in H.
    destruct H as [[Hdecl _] _]. apply (check_owners_Ok ss [] os owners Hs) in Ho as (-> & Hnd & _ & Hall).
    rewrite app_nil_r, Forall_forall in Hdecl. constructor; [lia|done|done|..|done|done|].
    + by apply (check_prisms_Ok _ _ _ u1).
    + by apply (check_slots_Ok _ _ _ u2).
    + apply (check_chains_Ok _ _ "prism"). by eexists.
    + apply (check_chains_Ok _ _ "slot"). by eexists.
    + intros t s Hss Ht. rewrite <- elem_of_reverse. apply Hdecl.
      apply list_elem_of_join. exists (task_ids s). split; [done|]. by apply list_elem_of_fmap_2.
  - intros [Hd Hp Hs Hps Hss Hpc Hsc Hnd Hown Howned].
    apply (check_chains_Ok _ _ "prism") in Hpc as [pd Hpd].
    apply (check_chains_Ok _ _ "slot") in Hsc as [sd Hsd].
    eexists. rewrite !bind_require. split; [apply andb_true_iff; by rewrite !Nat.leb_le|].
    split; [apply andb_true_iff; by rewrite !bool_decide_eq_true|].
    rewrite (proj2 (check_prisms_Ok _ _ ps tt) Hps). cbn [rbind].
    rewrite (proj2 (check_slots_Ok _ _ ss tt) Hss). cbn [rbind].
    rewrite Hpd. cbn [rbind]. rewrite Hsd. cbn [rbind].
    rewrite (proj2 (check_owners_Ok ss [] os (reverse (task_id <$> os) ++ []) Hs)).
    2:{ do 2 (split; [done|]). split; [intros t _ Ht; by apply not_elem_of_nil in Ht|done]. }
    cbn [rbind]. rewrite bind_require, bool_decide_eq_true, app_nil_r. split; [|reflexivity].
    split; apply Forall_forall; intros t Ht.
    + apply list_elem_of_join in Ht as (l & Hl & (s & -> & Hs')%list_elem_of_fmap).
      apply elem_of_reverse. by apply (Howned t s).
    + apply elem_of_reverse, list_elem_of_fmap in Ht as (o & -> & Ho).
      destruct (Hown o Ho) as (s & Hs' & _ & Hin). apply list_elem_of_join.
      exists (task_ids s). split; [done|]. by apply list_elem_of_fmap_2.
Qed.

(** [admit_task] on well-formed contracts: a full slot is returned
    unchanged with a queue position; otherwise the task is added, in order,
    within the capacity, and the slot keeps its content-addressed identity and
    stays well-formed. *)
Theorem admit_task_spec s o :
  slot_ok s → ownership_ok o → o_slot_id o = slot_id s → task_id o ∉ task_ids s →
  ∃ s' rc, admit_task s o = Ok (s', rc) ∧ slot_ok s' ∧ slot_id s' = slot_id s ∧
    ar_position rc = Z.of_nat (length (task_ids s)) + 1 ∧
    if capacity s <=? Z.of_nat (length (task_ids s)) then
      s' = s ∧ ar_admitted rc = false ∧ ar_reason_code rc = "SLOT_LOGICAL_CAPACITY"
    else ar_admitted rc = true ∧ s' = s <| task_ids := sorted_set (task_ids s ++ [task_id o]) |> ∧
      Z.of_nat (length (task_ids s')) <= capacity s'.
Proof.
  intros Hs Ho Hid Hnew. unfold admit_task.
  rewrite Hid, String.eqb_refl, bool_decide_eq_false_2 by done. cbn [require rbind negb].
  destruct (Z.leb_spec (capacity s) (Z.of_nat (length (task_ids s)))) as [Hle|Hgt].
  { eexists _, _. split; [reflexivity|]. by repeat (split; [done|]). }
  assert (tidy (task_ids s)) as Ht.
  { destruct (slot_ok_fields s Hs) as (_ & _ & Ht & _). by apply tuple_tidy in Ht as [Ht _]. }
  assert (Str.strip (task_id o) = task_id o ∧ task_id o ≠ "") as Hto by (by apply ownership_task).
  assert (tidy (task_ids s ++ [task_id o])) as Ht' by (apply Forall_app; split; [done|]; by constructor).
  assert (length (sorted_set (task_ids s ++ [task_id o])) = S (length (task_ids s))) as Hlen.
  { rewrite (sorted_set_perm (task_ids s ++ [task_id o])); [rewrite length_app; simpl; lia|].
    apply NoDup_app. split; [by apply slot_tasks_nodup|]. split; [|apply NoDup_singleton].
    intros x Hx Hin. apply list_elem_of_singleton in Hin. congruence. }
  rewrite (slot_rebuild s _ "" Hs Ht') by (auto || lia). cbn [rbind].
  eexists _, _. split; [reflexivity|]. split.
  { unfold slot_ok.
    pose proof (slot_rebuild s (sorted_set (task_ids s ++ [task_id o])) (slot_id s) Hs) as H.
    rewrite sorted_set_idemp in H. destruct s. apply H; [by apply tidy_sorted|lia|by right]. }
  split; [done|]. simpl. rewrite Hlen. split; [lia|]. split; [done|]. split; [done|lia].
Qed.

Lemma admit_task_spec_witness :
  ∃ s' rc, admit_task demo_slot demo_owner = Ok (s', rc) ∧ ar_admitted rc = true ∧ slot_id s' = slot_id demo_slot.
Proof.
  destruct (admit_task_spec demo_slot demo_owner) as (s' & rc & H & _ & Hid & _ & Hcase).
  - vm_compute. reflexivity.
  - vm_compute. reflexivity.
  - vm_compute. reflexivity.
  - apply not_elem_of_nil.
  - exists s', rc. split; [exact H|]. split; [exact (proj1 Hcase)|exact Hid].
Defined.

(** a transition of a well-formed ownership happens exactly for its owner
    under its current fence to one of its allowed states, and changes the state
    alone: the ownership keeps its identity. *)
Theorem transition_exact o st f a o' :
  ownership_ok o →
  transition o st f a = Ok o' ↔
  f = fence o ∧ Str.strip a = owner_agent o ∧ st ∈ allowed_transitions o ∧
  o' = o <| Ownership.state := st |>.
Proof.
  intros Ho. unfold transition. destruct (Z.eqb_spec f (fence o)) as [->|Hf]; cbn [negb rbind require].
  2:{ split; [done|naive_solver]. }
  pose proof (ownership_owner o Ho) as [Hs Hne].
  destruct (text a "owner_agent") as [x|e] eqn:Et; cbn [rbind].
  - apply text_Ok in Et as [-> _]. rewrite !bind_require, negb_involutive, String.eqb_eq, bool_decide_eq_true.
    split.
    + intros (Heq & Hin & H). rewrite (ownership_restate o st Ho Hin) in H. naive_solver.
    + intros (_ & Heq & Hin & ->). do 2 (split; [done|]). by apply ownership_restate.
  - split; [done|]. intros (_ & Heq & _). exfalso.
    assert (text a "owner_agent" = Ok (owner_agent o)) as H by (by apply text_Ok). congruence.
Qed.

Lemma transition_exact_witness :
  transition demo_owner "running" 1 " agent " = Ok (demo_owner <| Ownership.state := "running" |>).
Proof.
  apply transition_exact; [vm_compute; reflexivity|]. split; [reflexivity|]. split; [reflexivity|].
  split; [|reflexivity]. apply (bool_decide_unpack _). vm_compute. exact I.
Defined.

(** the identity of an ownership does not cover its slot: [_contract_dict]
    removes the [slot_id] field along with the identities, so two well-formed
    ownerships of one task in different slots share their identity. *)
Theorem ownership_identity_ignores_slot o o1 sl o2 :
  TaskOwnership_init (o <| ownership_id := "" |>) = Ok o1 →
  TaskOwnership_init (o <| o_slot_id := sl |> <| ownership_id := "" |>) = Ok o2 →
  ownership_id o1 = ownership_id o2 ∧ o_slot_id o1 = Str.strip (o_slot_id o) ∧ o_slot_id o2 = Str.strip sl.
Proof.
  unfold TaskOwnership_init. simpl. intros H1 H2.
  repeat match goal with
  | H : rbind (require _ _) _ = Ok _ |- _ => apply bind_require in H as [_ H]
  | H : rbind (check_identity _ _ _) _ = Ok _ |- _ => unfold check_identity in H
  | H : rbind _ _ = Ok _ |- _ => let x := fresh "x" in let E := fresh "E" in apply rbind_Ok in H as (x & E & H)
  end.
  simplify_eq. simpl.
  repeat match goal with H : text _ _ = Ok _ |- _ => apply text_Ok in H as [-> _] end.
  repeat match goal with H : tuple ?l = Ok _, H' : tuple ?l = Ok _ |- _ => rewrite H in H'; injection H' as -> end.
  done.
Qed.

Lemma ownership_identity_ignores_slot_witness :
  ∃ o1 o2, TaskOwnership_init demo_owner_draft = Ok o1 ∧
    TaskOwnership_init (demo_owner_draft <| o_slot_id := "slot:other" |>) = Ok o2 ∧
    ownership_id o1 = ownership_id o2.
Proof.
  destruct (TaskOwnership_init demo_owner_draft) as [o1|] eqn:E1; [|vm_compute in E1; discriminate].
  destruct (TaskOwnership_init (demo_owner_draft <| o_slot_id := "slot:other" |>)) as [o2|] eqn:E2;
    [|vm_compute in E2; discriminate].
  exists o1, o2. split; [reflexivity|]. split; [reflexivity|].
  exact (proj1 (ownership_identity_ignores_slot demo_owner_draft o1 "slot:other" o2 E1 E2)).
Defined.

(** The check against a slot that contains itself compares the identity the
    caller passed, not the computed one: it is vacuous when none is passed. *)
Lemma slot_contains_itself :
  let s := demo_slot <| child_slot_ids := [slot_id demo_slot] |> in
  SlotSupervisor_init (s <| slot_id := "" |>) = Ok s ∧ slot_id s ∈ child_slot_ids s.
Proof.
  split; [vm_compute; reflexivity|]. apply (bool_decide_unpack _). vm_compute. exact I.
Qed.
