(* ===== verification/PrismAgents.v ===== *)
(** Accountable agents of Prism tasks ([simplicio_loop/prism_agents.py]): the
    descriptors of agents, who owns a transition of a task and until when,
    heartbeats and takeovers, messages in bounded mailboxes, signed receipts.
    Texts are as in [HbpLedger]; the clock is a function of how often it was
    read. *)
From stdpp Require Import gmap pretty sorting.
From S2P Require Import Prelude PyLib PyText PyJson Effects PrismContracts HbpLedger.
Import Json.
Local Open Scope Z_scope.
Local Open Scope py_scope.

(** * Definitions *)

Definition ASSIGNMENT_SCHEMA : string := "simplicio.prism-agent-assignment/v1".
Definition MESSAGE_SCHEMA : string := "simplicio.prism-agent-message/v1".
Definition RECEIPT_SCHEMA : string := "simplicio.prism-agent-receipt/v1".
Definition INDEPENDENT_ROLES : list string := ["review"; "completion"].

(** [PrismAgentError]; what the canonical form raises; a missing mailbox. *)
Inductive AgentExn : Type :=
| PrismAgentError (msg : string)
| CanonicalRaised (x : HbpExn)
| KeyError.

Definition refuse_if (b : bool) (msg : string) : result AgentExn unit := if b then Err (PrismAgentError msg) else Ok tt.
Definition of_hbp {A} (m : result HbpExn A) : result AgentExn A := match m with Ok a => Ok a | Err x => Err (CanonicalRaised x) end.

(** The first field of the list that is blank. *)
Fixpoint required (fields : list (string * string)) : result AgentExn unit :=
  match fields with
  | [] => Ok tt
  | (name, value) :: fields' => if Str.truthy (Str.strip value) then required fields' else Err (PrismAgentError (name +:+ " is required"))
  end.

(** [tuple(sorted({str(item).strip() for item in items if str(item).strip()}))] *)
Definition clean (items : list string) : list string := sorted_set (List.filter Str.truthy (Str.strip <$> items)).

Record AgentDescriptor := mkAgent {
  d_agent_id : string; d_host : string; capabilities : list string; roles : list string; max_inbox : Z; max_outbox : Z }.
#[export] Instance AgentDescriptor_eta : Eta AgentDescriptor := λ d,
  mkAgent (d_agent_id d) (d_host d) (capabilities d) (roles d) (max_inbox d) (max_outbox d).

(** [AgentDescriptor.__post_init__] *)
Definition make_agent (d : AgentDescriptor) : result AgentExn AgentDescriptor :=
  let? _ := required [("agent_id", d_agent_id d); ("host", d_host d)] in
  let d := d <| capabilities := clean (capabilities d) |> <| roles := clean (roles d) |> in
  let? _ := refuse_if (bool_decide (capabilities d = []) || bool_decide (roles d = [])) "agent capabilities and roles are required" in
  let? _ := refuse_if (Z.min (max_inbox d) (max_outbox d) <? 1) "mailbox capacities must be positive" in
  Ok d.

Record AgentAssignment := mkAssignment {
  prism_id : string; slot_id : string; task_id : string; transition : string; role : string; agent_id : string; host : string;
  attempt : Z; fence : Z; lease_id : string; lease_expires_ns : Z; accountable : bool; helper_ids : list string;
  previous_assignment_hash : option string; a_schema : string }.
#[export] Instance AgentAssignment_eta : Eta AgentAssignment := λ a,
  mkAssignment (prism_id a) (slot_id a) (task_id a) (transition a) (role a) (agent_id a) (host a) (attempt a) (fence a) (lease_id a)
    (lease_expires_ns a) (accountable a) (helper_ids a) (previous_assignment_hash a) (a_schema a).

(** [AgentAssignment.__post_init__], which [dataclasses.replace] runs again. *)
Definition make_assignment (a : AgentAssignment) : result AgentExn AgentAssignment :=
  let? _ := required [("prism_id", prism_id a); ("slot_id", slot_id a); ("task_id", task_id a); ("transition", transition a);
                      ("role", role a); ("agent_id", agent_id a); ("host", host a); ("lease_id", lease_id a)] in
  let? _ := refuse_if (negb (String.eqb (a_schema a) ASSIGNMENT_SCHEMA)) "unknown assignment schema" in
  let? _ := refuse_if (negb (bool_decide (transition a ∈ TASK_STATES))) "unknown transition" in
  let? _ := refuse_if ((attempt a <? 1) || (fence a <? 1) || (lease_expires_ns a <? 1)) "attempt, fence, and expiry must be positive" in
  Ok (a <| helper_ids := sorted_set (helper_ids a) |>).

(** [AgentAssignment.to_dict] *)
Definition assignment_dict (a : AgentAssignment) : receipt_dict :=
  [("prism_id", Str (prism_id a)); ("slot_id", Str (slot_id a)); ("task_id", Str (task_id a)); ("transition", Str (transition a));
   ("role", Str (role a)); ("agent_id", Str (agent_id a)); ("host", Str (host a)); ("attempt", Int (attempt a)); ("fence", Int (fence a));
   ("lease_id", Str (lease_id a)); ("lease_expires_ns", Int (lease_expires_ns a)); ("accountable", Bool (accountable a));
   ("helper_ids", json_strs (helper_ids a)); ("previous_assignment_hash", json_opt (previous_assignment_hash a)); ("schema", Str (a_schema a))].

Record AgentMessage := mkMessage {
  m_prism_id : string; m_slot_id : string; m_task_id : string; m_attempt : Z; m_fence : Z; sender_id : string; recipient_id : string;
  m_transition : string; payload_hash : string; sequence : Z; m_schema : string }.

(** [AgentMessage.__post_init__] *)
Definition make_message (m : AgentMessage) : result AgentExn AgentMessage :=
  let? _ := refuse_if (negb (String.eqb (m_schema m) MESSAGE_SCHEMA)) "unknown message schema" in
  let? _ := refuse_if (Z.min (Z.min (m_attempt m) (m_fence m)) (sequence m) <? 1) "attempt, fence, and sequence must be positive" in
  let? _ := refuse_if (negb (text_len (payload_hash m) =? 64)) "payload_hash must be SHA-256" in
  Ok m.

(** [collections.deque(maxlen=n)]: a full one drops its first element. *)
Record Deque := mkDeque { maxlen : Z; rows : list receipt_dict }.
Definition deque_append (d : Deque) (row : receipt_dict) : Deque :=
  let l := rows d ++ [row] in mkDeque (maxlen d) (drop (length l - Z.to_nat (maxlen d)) l).
Definition deque_full (d : Deque) : bool := maxlen d <=? Z.of_nat (length (rows d)).

Record Metrics := mkMetrics {
  n_assignments : Z; n_heartbeats : Z; n_takeovers : Z; n_messages : Z; n_queue_overflow : Z; n_stale_rejections : Z }.
#[export] Instance Metrics_eta : Eta Metrics := λ m,
  mkMetrics (n_assignments m) (n_heartbeats m) (n_takeovers m) (n_messages m) (n_queue_overflow m) (n_stale_rejections m).

Record Registry := mkRegistry {
  default_ttl_ns : Z;
  agents : list (string * AgentDescriptor);
  assignments : gmap (string * string) AgentAssignment;
  history : list receipt_dict;
  inboxes : list (string * Deque);
  outboxes : list (string * Deque);
  last_sequence : Z;
  metrics : Metrics;
  ticks : nat }.
#[export] Instance Registry_eta : Eta Registry := λ s,
  mkRegistry (default_ttl_ns s) (agents s) (assignments s) (history s) (inboxes s) (outboxes s) (last_sequence s) (metrics s) (ticks s).

(** [PrismAgentRegistry.__init__] *)
Definition new_registry (ttl : Z) : result AgentExn Registry :=
  let? _ := refuse_if (ttl <? 1) "default_ttl_ns must be positive" in
  Ok (mkRegistry ttl [] ∅ [] [] [] 0 (mkMetrics 0 0 0 0 0 0) 0).

(** ** Who may own a transition *)

Definition can_serve (capability role_ : string) (exclude : list string) (d : AgentDescriptor) : bool :=
  bool_decide (capability ∈ capabilities d) && bool_decide (role_ ∈ roles d) && negb (bool_decide (d_agent_id d ∈ exclude)).

Definition load (s : Registry) (id : string) : nat :=
  length (List.filter (λ a, String.eqb (agent_id a) id) (map_to_list (assignments s)).*2).

(** [(load[item.agent_id], item.agent_id)] *)
Definition agent_le (s : Registry) (x y : AgentDescriptor) : Prop :=
  (load s (d_agent_id x) < load s (d_agent_id y))%nat ∨
  load s (d_agent_id x) = load s (d_agent_id y) ∧ String.le (d_agent_id x) (d_agent_id y).
#[export] Instance agent_le_dec s x y : Decision (agent_le s x y).
Proof. unfold agent_le. apply _. Defined.

Definition candidates (s : Registry) (capability role_ : string) (exclude : list string) : list AgentDescriptor :=
  List.filter (can_serve capability role_ exclude) (agents s).*2.
Definition eligible (s : Registry) (capability role_ : string) (exclude : list string) : list AgentDescriptor :=
  merge_sort (agent_le s) (candidates s capability role_ exclude).

(** [{implementer_id} if implementer_id and role in INDEPENDENT_ROLES else set()] *)
Definition excluded (implementer_id : option string) (role_ : string) : list string :=
  match implementer_id with
  | Some i => if Str.truthy i && bool_decide (role_ ∈ INDEPENDENT_ROLES) then [i] else []
  | None => []
  end.

Section Agents.
Context `{Nfc} (clock_ns : nat → Z).
Notation P := (prog Registry AgentExn).

Definition assignment_hash (a : AgentAssignment) : result HbpExn string := canonical_sha256 (Obj (assignment_dict a)).

(** [AgentMessage.to_dict] *)
Definition message_body (m : AgentMessage) : receipt_dict :=
  [("prism_id", Str (m_prism_id m)); ("slot_id", Str (m_slot_id m)); ("task_id", Str (m_task_id m)); ("attempt", Int (m_attempt m));
   ("fence", Int (m_fence m)); ("sender_id", Str (sender_id m)); ("recipient_id", Str (recipient_id m)); ("transition", Str (m_transition m));
   ("payload_hash", Str (payload_hash m)); ("sequence", Int (sequence m)); ("schema", Str (m_schema m))].
Definition message_dict (m : AgentMessage) : result HbpExn receipt_dict :=
  let? h := canonical_sha256 (Obj (message_body m)) in Ok (message_body m ++ [("message_hash", Str h)]).

Definition modify (f : Registry → Registry) : P unit := λ s, (f s, Ok tt).
Definition count (f : Metrics → Metrics) : P unit := modify (λ s, s <| metrics := f (metrics s) |>).
Definition fail {A} (msg : string) : P A := raise (PrismAgentError msg).

(** [int(self.clock_ns())] *)
Definition now : P Z := λ s, (s <| ticks := S (ticks s) |>, Ok (clock_ns (ticks s))).

Definition ttl_of (s : Registry) (ttl_ns : option Z) : Z := default (default_ttl_ns s) ttl_ns.

Definition register (d : AgentDescriptor) : P unit :=
  s ← get_state;
  _ ← raise_if (bool_decide (is_Some (dget (d_agent_id d) (agents s)))) (PrismAgentError "duplicate agent");
  _ ← modify (λ s, s <| agents := dput (d_agent_id d) d (agents s) |>);
  _ ← modify (λ s, s <| inboxes := dput (d_agent_id d) (mkDeque (max_inbox d) []) (inboxes s) |>);
  modify (λ s, s <| outboxes := dput (d_agent_id d) (mkDeque (max_outbox d) []) (outboxes s) |>).

(** [self.assignments[key] = a] and the row of the history. *)
Definition record_owner (key : string * string) (a : AgentAssignment) : P unit :=
  _ ← modify (λ s, s <| assignments := <[key := a]> (assignments s) |>);
  h ← of_result (of_hbp (assignment_hash a));
  modify (λ s, s <| history := history s ++ [dput "assignment_hash" (Str h) (assignment_dict a)] |>).

Definition assign (o : Ownership.TaskOwnership) (prism transition_ capability role_ : string) (implementer_id : option string)
    (helpers : list string) (ttl_ns : option Z) : P AgentAssignment :=
  let key := (Ownership.task_id o, transition_) in
  s ← get_state;
  _ ← raise_if (bool_decide (is_Some (assignments s !! key))) (PrismAgentError "transition already has an accountable owner");
  match eligible s capability role_ (excluded implementer_id role_) with
  | [] => fail "CAPABILITY_MISSING_OR_INDEPENDENCE_UNAVAILABLE"
  | owner :: _ =>
      t ← now;
      let ttl := ttl_of s ttl_ns in
      _ ← raise_if (ttl <? 1) (PrismAgentError "ttl_ns must be positive");
      a ← of_result (make_assignment (mkAssignment prism (Ownership.o_slot_id o) (Ownership.task_id o) transition_ role_ (d_agent_id owner)
            (d_host owner) (Ownership.attempt o) (Ownership.fence o) (Ownership.lease_id o) (t + ttl) true helpers None ASSIGNMENT_SCHEMA));
      _ ← record_owner key a;
      _ ← count (λ m, m <| n_assignments := n_assignments m + 1 |>);
      mret a
  end.

Definition heartbeat (task transition_ : string) (agent : string) (fence_ : Z) (ttl_ns : option Z) : P AgentAssignment :=
  let key := (task, transition_) in
  s ← get_state;
  match assignments s !! key with
  | None => fail "assignment missing"
  | Some current =>
      if negb (String.eqb (agent_id current) agent) || negb (fence current =? fence_) then
        _ ← count (λ m, m <| n_stale_rejections := n_stale_rejections m + 1 |>); fail "stale heartbeat"
      else
        let ttl := ttl_of s ttl_ns in
        _ ← raise_if (ttl <? 1) (PrismAgentError "ttl_ns must be positive");
        t ← now;
        updated ← of_result (make_assignment (current <| lease_expires_ns := t + ttl |>));
        _ ← modify (λ s, s <| assignments := <[key := updated]> (assignments s) |>);
        _ ← count (λ m, m <| n_heartbeats := n_heartbeats m + 1 |>);
        mret updated
  end.

Definition takeover (task transition_ capability : string) (now_ns : option Z) : P AgentAssignment :=
  let key := (task, transition_) in
  s ← get_state;
  match assignments s !! key with
  | None => fail "assignment missing"
  | Some current =>
      t ← match now_ns with Some n => mret n | None => now end;
      _ ← raise_if (t <=? lease_expires_ns current) (PrismAgentError "lease is still active");
      match eligible s capability (role current) [agent_id current] with
      | [] => fail "takeover capability missing"
      | owner :: _ =>
          h ← of_result (of_hbp (assignment_hash current));
          updated ← of_result (make_assignment (current <| agent_id := d_agent_id owner |> <| host := d_host owner |>
            <| attempt := attempt current + 1 |> <| fence := fence current + 1 |>
            <| lease_id := lease_id current +:+ ":takeover:" +:+ pretty (attempt current + 1) |>
            <| lease_expires_ns := t + default_ttl_ns s |> <| previous_assignment_hash := Some h |>));
          _ ← record_owner key updated;
          _ ← count (λ m, m <| n_takeovers := n_takeovers m + 1 |>);
          mret updated
      end
  end.

(** [current is None or current.assignment_hash != assignment.assignment_hash] *)
Definition is_stale (s : Registry) (a : AgentAssignment) : result AgentExn bool :=
  match assignments s !! (task_id a, transition a) with
  | None => Ok true
  | Some current =>
      let? h := of_hbp (assignment_hash current) in
      let? h' := of_hbp (assignment_hash a) in
      Ok (negb (String.eqb h h'))
  end.

(** [self.inboxes[i]] *)
Definition box (i : string) (boxes : list (string * Deque)) : result AgentExn Deque :=
  match dget i boxes with Some d => Ok d | None => Err KeyError end.

Definition send (a : AgentAssignment) (sender recipient : string) (payload : receipt_dict) : P AgentMessage :=
  s ← get_state;
  stale ← of_result (is_stale s a);
  if stale : bool then
    _ ← count (λ m, m <| n_stale_rejections := n_stale_rejections m + 1 |>); fail "stale assignment cannot send"
  else
    _ ← raise_if (negb (bool_decide (is_Some (dget sender (agents s)))) || negb (bool_decide (is_Some (dget recipient (agents s)))))
          (PrismAgentError "unknown sender or recipient");
    inbox ← of_result (box recipient (inboxes s));
    outbox ← of_result (box sender (outboxes s));
    if deque_full inbox || deque_full outbox then
      _ ← count (λ m, m <| n_queue_overflow := n_queue_overflow m + 1 |>); fail "agent mailbox overflow"
    else
      _ ← modify (λ s, s <| last_sequence := last_sequence s + 1 |>);
      h ← of_result (of_hbp (canonical_sha256 (Obj payload)));
      message ← of_result (make_message (mkMessage (prism_id a) (slot_id a) (task_id a) (attempt a) (fence a) sender recipient (transition a) h
                  (last_sequence s + 1) MESSAGE_SCHEMA));
      row ← of_result (of_hbp (message_dict message));
      _ ← modify (λ s, s <| outboxes := dput sender (deque_append outbox row) (outboxes s) |>);
      _ ← modify (λ s, s <| inboxes := dput recipient (deque_append inbox row) (inboxes s) |>);
      _ ← count (λ m, m <| n_messages := n_messages m + 1 |>);
      mret message.

Definition VERDICTS : list string := ["accepted"; "failed"; "blocked"; "cancelled"].

Definition receipt_body (hash signer verdict : string) (current : AgentAssignment) (evidence_hashes : list string) : receipt_dict :=
  [("schema", Str RECEIPT_SCHEMA); ("assignment_hash", Str hash); ("agent_id", Str signer); ("task_id", Str (task_id current));
   ("transition", Str (transition current)); ("attempt", Int (attempt current)); ("fence", Int (fence current)); ("verdict", Str verdict);
   ("evidence_hashes", json_strs (sorted_set evidence_hashes))].

Definition receipt (a : AgentAssignment) (signer verdict : string) (evidence_hashes : list string) : P receipt_dict :=
  s ← get_state;
  stale ← of_result (is_stale s a);
  match assignments s !! (task_id a, transition a) with
  | None => fail "stale assignment cannot sign"
  | Some current =>
      if stale : bool then fail "stale assignment cannot sign"
      else
        _ ← raise_if (negb (String.eqb signer (agent_id current))) (PrismAgentError "helper or non-owner cannot sign");
        t ← now;
        _ ← raise_if (lease_expires_ns current <? t) (PrismAgentError "expired assignment cannot sign");
        _ ← raise_if (negb (bool_decide (verdict ∈ VERDICTS))) (PrismAgentError "unsupported agent verdict");
        _ ← raise_if (existsb (λ v, negb (text_len v =? 64)) evidence_hashes) (PrismAgentError "evidence hashes must be SHA-256");
        hash ← of_result (of_hbp (assignment_hash current));
        let payload := receipt_body hash signer verdict current evidence_hashes in
        h ← of_result (of_hbp (canonical_sha256 (Obj payload)));
        mret (payload ++ [("receipt_hash", Str h)])
  end.

Definition depth (boxes : list (string * Deque)) (i : string) : result AgentExn json :=
  let? d := box i boxes in Ok (Int (Z.of_nat (length (rows d)))).
Fixpoint depths (s : Registry) (ids : list string) : result AgentExn receipt_dict :=
  match ids with
  | [] => Ok []
  | i :: ids' =>
      let? inbox := depth (inboxes s) i in
      let? outbox := depth (outboxes s) i in
      let? rest := depths s ids' in
      Ok ((i, Obj [("inbox", inbox); ("outbox", outbox)]) :: rest)
  end.
Definition metrics_dict (m : Metrics) : receipt_dict :=
  [("assignments", Int (n_assignments m)); ("heartbeats", Int (n_heartbeats m)); ("takeovers", Int (n_takeovers m));
   ("messages", Int (n_messages m)); ("queue_overflow", Int (n_queue_overflow m)); ("stale_rejections", Int (n_stale_rejections m))].

Definition status (s : Registry) : result AgentExn receipt_dict :=
  let? queue_depth := depths s (py_sorted (agents s).*1) in
  let payload :=
    [("schema", Str "simplicio.prism-agent-status/v1"); ("agents", json_strs (py_sorted (agents s).*1));
     ("active_assignments", json_strs (py_sorted ((λ kv, kv.1.1 +:+ ":" +:+ kv.1.2) <$> map_to_list (assignments s))));
     ("queue_depth", Obj queue_depth); ("metrics", Obj (metrics_dict (metrics s)))] in
  let? digest := of_hbp (canonical_sha256 (Obj payload)) in
  Ok (payload ++ [("digest", Str digest)]).

(** ** What callers do with a registry, whatever it raises *)
Inductive Call : Type :=
| Register (d : AgentDescriptor)
| Assign (o : Ownership.TaskOwnership) (prism transition_ capability role_ : string) (implementer_id : option string) (helpers : list string) (ttl_ns : option Z)
| Heartbeat (task transition_ agent : string) (fence_ : Z) (ttl_ns : option Z)
| Takeover (task transition_ capability : string) (now_ns : option Z)
| Send (a : AgentAssignment) (sender recipient : string) (payload : receipt_dict)
| Receipt (a : AgentAssignment) (signer verdict : string) (evidence_hashes : list string).

Definition discard {A} (m : P A) : P unit := _ ← m; mret tt.
Definition perform (c : Call) : P unit :=
  match c with
  | Register d => d' ← of_result (make_agent d); register d'
  | Assign o p t c r i hs ttl => discard (assign o p t c r i hs ttl)
  | Heartbeat k t i f ttl => discard (heartbeat k t i f ttl)
  | Takeover k t c n => discard (takeover k t c n)
  | Send a x y pl => discard (send a x y pl)
  | Receipt a x v hs => discard (receipt a x v hs)
  end.
Definition after (cs : list Call) (s : Registry) : Registry := foldl (λ s c, (perform c s).1) s cs.
End Agents.

(** ** What may happen to a registry *)
Section Spec.
Context `{Nfc} (clock_ns : nat → Z).

(** Agents, mailboxes and the default time to live stay. *)
Record frame (s s' : Registry) : Prop := {
  frame_ttl : default_ttl_ns s' = default_ttl_ns s;
  frame_agents : agents s' = agents s;
  frame_inboxes : inboxes s' = inboxes s;
  frame_outboxes : outboxes s' = outboxes s;
}.

(** Nothing but the metrics, the clock and numbers no message got. *)
Record quiet (s s' : Registry) : Prop := {
  quiet_frame :> frame s s';
  quiet_assignments : assignments s' = assignments s;
  quiet_history : history s' = history s;
  quiet_sequence : last_sequence s <= last_sequence s';
}.

(** [a] becomes the assignment of [key]. *)
Record owned (s : Registry) (key : string * string) (a : AgentAssignment) (s' : Registry) : Prop := {
  owned_frame :> frame s s';
  owned_assignments : assignments s' = <[key := a]> (assignments s);
  owned_sequence : last_sequence s' = last_sequence s;
}.

(** The agent that serves [role_] with the least load, the first by name. *)
Definition elected (s : Registry) (capability role_ : string) (exclude : list string) (d : AgentDescriptor) : Prop :=
  d ∈ (agents s).*2 ∧ can_serve capability role_ exclude d = true ∧
  ∀ d', d' ∈ (agents s).*2 → can_serve capability role_ exclude d' = true → agent_le s d d'.

(** How an assignment becomes the one of its transition. *)
Inductive appointed (s : Registry) : string * string → AgentAssignment → Prop :=
| Assigned key a capability exclude d :
    assignments s !! key = None → elected s capability (role a) exclude d →
    agent_id a = d_agent_id d → host a = d_host d → key = (task_id a, transition a) → accountable a = true →
    make_assignment a = Ok a → appointed s key a
| Renewed key current t :
    assignments s !! key = Some current → make_assignment (current <| lease_expires_ns := t |>) = Ok (current <| lease_expires_ns := t |>) →
    appointed s key (current <| lease_expires_ns := t |>)
| TakenOver key current capability d t l h :
    assignments s !! key = Some current → lease_expires_ns current < t → elected s capability (role current) [agent_id current] d →
    assignment_hash current = Ok h →
    let a := current <| agent_id := d_agent_id d |> <| host := d_host d |> <| attempt := attempt current + 1 |> <| fence := fence current + 1 |>
      <| lease_id := l |> <| lease_expires_ns := t + default_ttl_ns s |> <| previous_assignment_hash := Some h |> in
    make_assignment a = Ok a → appointed s key a.

(** A message leaves: a new number, the same row at the end of both mailboxes. *)
Record delivered (s : Registry) (m : AgentMessage) (s' : Registry) : Prop := {
  dl_agents : agents s' = agents s;
  dl_ttl : default_ttl_ns s' = default_ttl_ns s;
  dl_assignments : assignments s' = assignments s;
  dl_number : sequence m = last_sequence s + 1 ∧ last_sequence s' = last_sequence s + 1;
  dl_row : ∃ row inbox outbox, message_dict m = Ok row ∧ dget (recipient_id m) (inboxes s) = Some inbox ∧ dget (sender_id m) (outboxes s) = Some outbox ∧
    deque_full inbox = false ∧ deque_full outbox = false ∧
    inboxes s' = dput (recipient_id m) (deque_append inbox row) (inboxes s) ∧ outboxes s' = dput (sender_id m) (deque_append outbox row) (outboxes s);
}.

Inductive step (s s' : Registry) : Prop :=
| Nothing : quiet s s' → step s s'
| Joined d : make_agent d = Ok d → dget (d_agent_id d) (agents s) = None →
    s' = s <| agents := dput (d_agent_id d) d (agents s) |> <| inboxes := dput (d_agent_id d) (mkDeque (max_inbox d) []) (inboxes s) |>
           <| outboxes := dput (d_agent_id d) (mkDeque (max_outbox d) []) (outboxes s) |> → step s s'
| Appointed key a : appointed s key a → owned s key a s' → step s s'
| Delivered m : delivered s m s' → step s s'.

(** An assignment in normal form C, which is what its hash covers. *)
Definition nfc_assignment (a : AgentAssignment) : AgentAssignment :=
  mkAssignment (nfc (prism_id a)) (nfc (slot_id a)) (nfc (task_id a)) (nfc (transition a)) (nfc (role a)) (nfc (agent_id a)) (nfc (host a)) (attempt a)
    (fence a) (nfc (lease_id a)) (lease_expires_ns a) (accountable a) (nfc <$> helper_ids a) (nfc <$> previous_assignment_hash a) (nfc (a_schema a)).

(** ** The state of a registry *)

Definition rows_of (boxes : list (string * Deque)) (i : string) : list receipt_dict := match dget i boxes with Some d => rows d | None => [] end.
Definition names (field i : string) (row : receipt_dict) : bool := match dget field row with Some (Str s) => String.eqb s i | _ => false end.
Definition number_of (row : receipt_dict) : Z := match dget "sequence" row with Some (Int n) => n | _ => 0 end.

(** The messages of [x] to [y], as [x] keeps them and as [y] does. *)
Definition sent (s : Registry) (x y : string) : list receipt_dict := List.filter (names "recipient_id" y) (rows_of (outboxes s) x).
Definition received (s : Registry) (x y : string) : list receipt_dict := List.filter (names "sender_id" x) (rows_of (inboxes s) y).

Record owners_ok (s : Registry) : Prop := {
  ok_ttl : 1 <= default_ttl_ns s;
  ok_agents : ∀ i d, dget i (agents s) = Some d → d_agent_id d = i ∧ make_agent d = Ok d;
  ok_keys : NoDup (agents s).*1;
  ok_owner : ∀ key a, assignments s !! key = Some a →
    key = (task_id a, transition a) ∧ make_assignment a = Ok a ∧ accountable a = true ∧
    ∃ d, dget (agent_id a) (agents s) = Some d ∧ host a = d_host d ∧ role a ∈ roles d;
}.

(** A mailbox of at most [n] rows, numbered upwards to at most [last]. *)
Definition box_ok (n last : Z) (d : Deque) : Prop :=
  maxlen d = n ∧ Z.of_nat (length (rows d)) <= n ∧ StronglySorted Z.lt (number_of <$> rows d) ∧ Forall (λ r, 1 <= number_of r <= last) (rows d).

Record mailboxes_ok (s : Registry) : Prop := {
  ok_boxes : ∀ i, match dget i (agents s) with
    | Some d => ∃ inbox outbox, dget i (inboxes s) = Some inbox ∧ dget i (outboxes s) = Some outbox ∧
        box_ok (max_inbox d) (last_sequence s) inbox ∧ box_ok (max_outbox d) (last_sequence s) outbox
    | None => dget i (inboxes s) = None ∧ dget i (outboxes s) = None end;
  ok_channels : ∀ x y, sent s x y = received s x y;
  ok_from : ∀ x row, row ∈ rows_of (outboxes s) x → names "sender_id" x row = true;
  ok_to : ∀ y row, row ∈ rows_of (inboxes s) y → names "recipient_id" y row = true;
  ok_last : 0 <= last_sequence s;
}.

(** The two assignments have one hash. *)
Definition same_hash (a b : AgentAssignment) : Prop := ∃ h, assignment_hash a = Ok h ∧ assignment_hash b = Ok h.

(** An assignment is never removed, and its attempt and fence move up together. *)
Definition advances (s s' : Registry) : Prop := ∀ key a, assignments s !! key = Some a →
  ∃ a', assignments s' !! key = Some a' ∧ attempt a <= attempt a' ∧ fence a' - fence a = attempt a' - attempt a ∧ role a' = role a.

(** A registry that [cs] were called on. *)
Definition reachable (s : Registry) : Prop := ∃ ttl s0 cs, new_registry ttl = Ok s0 ∧ s = after clock_ns cs s0.
End Spec.

(** ** An example *)
Definition demo_clock (n : nat) : Z := 1000 + 10 * Z.of_nat n.
Definition demo_developer : AgentDescriptor := mkAgent "dev" "host-a" [" rocq "; "rocq"] ["implement"; "review"] 2 1.
Definition demo_reviewer : AgentDescriptor := mkAgent "aud" "host-b" ["rocq"] ["review"] 2 1.
Definition demo_calls : list Call := [Register demo_developer; Register demo_reviewer;
  Assign demo_owner "prism:1" "validating" "rocq" "review" (Some "dev") ["h2"; "h1"] (Some 100)].
Definition demo_start : Registry := mkRegistry 500 [] ∅ [] [] [] 0 (mkMetrics 0 0 0 0 0 0) 0.
Definition demo_registry : Registry := Eval vm_compute in after (H := nfc_id) demo_clock demo_calls demo_start.
Definition demo_task : string := Eval vm_compute in Ownership.task_id demo_owner.
Definition demo_owner_of (s : Registry) : AgentAssignment :=
  default (mkAssignment "" "" "" "" "" "" "" 0 0 "" 0 false [] None "") (assignments s !! (demo_task, "validating")).
Definition demo_assignment : AgentAssignment := Eval vm_compute in demo_owner_of demo_registry.
Definition demo_taken : Registry := Eval vm_compute in (takeover (H := nfc_id) demo_clock demo_task "validating" "rocq" (Some 2000) demo_registry).1.
Definition demo_successor : AgentAssignment := Eval vm_compute in demo_owner_of demo_taken.
(** A heartbeat, then a takeover. *)
Definition demo_renewed : Registry := Eval vm_compute in after (H := nfc_id) demo_clock
  [Heartbeat demo_task "validating" "aud" 1 None; Takeover demo_task "validating" "rocq" (Some 9000)] demo_registry.
(** The bound of one message, reached by one message. *)
Definition demo_busy : Registry := Eval vm_compute in (send (H := nfc_id) demo_assignment "aud" "dev" [("note", Str "hi")] demo_registry).1.
Definition demo_full_box : Deque := Eval vm_compute in default (mkDeque 0 []) (dget "aud" (outboxes demo_busy)).

(** * Lemmas *)

#[export] Instance frame_preorder : PreOrder frame.
Proof. split; [done|]. intros s s' s'' [] []. constructor; congruence. Qed.
#[export] Instance quiet_preorder : PreOrder quiet.
Proof. split; [by constructor|]. intros s s' s'' [] []. constructor; [by etransitivity|congruence|congruence|lia]. Qed.

Section Lemmas.
Context `{Nfc} (clock_ns : nat → Z).
Implicit Types s : Registry.

Lemma bind_refuse {A} b msg (k : unit → result AgentExn A) r : (let? x := refuse_if b msg in k x) = Ok r ↔ b = false ∧ k tt = Ok r.
Proof. destruct b; cbn; naive_solver. Qed.

Lemma clean_idemp l : clean (clean l) = clean l.
Proof.
  unfold clean. set (t := List.filter Str.truthy (Str.strip <$> l)).
  assert (Forall (λ x, Str.strip x = x ∧ Str.truthy x = true) (sorted_set t)) as Ht.
  { rewrite Forall_forall. intros x Hx. rewrite elem_of_sorted_set in Hx. subst t. apply elem_of_Listfilter in Hx as [(y & -> & _)%list_elem_of_fmap Htr]. by rewrite Str.strip_idemp. }
  assert (List.filter Str.truthy (Str.strip <$> sorted_set t) = sorted_set t) as ->; [|apply sorted_set_idemp].
  induction Ht as [|x l' [Hx Htr] _ IH]; [done|]. cbn [fmap list_fmap List.filter]. by rewrite Hx, Htr, IH.
Qed.

Lemma make_agent_Ok d d' : make_agent d = Ok d' → make_agent d' = Ok d' ∧ d_agent_id d' = d_agent_id d.
Proof.
  unfold make_agent. intros ([] & Hr & Hd)%rbind_Ok. rewrite !bind_refuse in Hd. destruct Hd as (Hc & Hm & [= <-]).
  split; [|done]. destruct d as [i h c r mi mo]. cbn [d_agent_id d_host capabilities roles max_inbox max_outbox] in *.
  apply rbind_Ok. exists tt. split; [exact Hr|]. rewrite !bind_refuse. cbn [d_agent_id d_host capabilities roles max_inbox max_outbox] in *.
  rewrite !clean_idemp. done.
Qed.

Lemma make_assignment_Ok a a' : make_assignment a = Ok a' → a' = a <| helper_ids := sorted_set (helper_ids a) |> ∧ make_assignment a' = Ok a' ∧
  1 <= attempt a ∧ 1 <= fence a.
Proof.
  unfold make_assignment. intros ([] & Hr & Ha)%rbind_Ok. rewrite !bind_refuse in Ha. destruct Ha as (Hs & Ht & Hn & [= <-]).
  split; [done|]. split; [|apply orb_false_iff in Hn as [[Hn1 Hn2]%orb_false_iff Hn3]; lia]. destruct a.
  cbn [prism_id slot_id task_id transition role agent_id host attempt fence lease_id lease_expires_ns a_schema] in *.
  apply rbind_Ok. exists tt. split; [exact Hr|]. rewrite !bind_refuse. do 3 (split; [done|]). cbn [helper_ids]. by rewrite sorted_set_idemp.
Qed.

Lemma replace_fixed a a' : helper_ids a = sorted_set (helper_ids a) → make_assignment a = Ok a' → a' = a.
Proof. intros Hh [-> _]%make_assignment_Ok. destruct a. cbn in *. by rewrite <- Hh. Qed.

Lemma fixed_helpers a : make_assignment a = Ok a → helper_ids a = sorted_set (helper_ids a).
Proof. intros (Ha & _)%make_assignment_Ok. by rewrite Ha at 1. Qed.

#[local] Instance agent_le_total s : Total (agent_le s).
Proof. intros x y. unfold agent_le. destruct (Nat.lt_trichotomy (load s (d_agent_id x)) (load s (d_agent_id y))) as [|[E|]]; [by left; left| |by right; left].
  destruct (total String.le (d_agent_id x) (d_agent_id y)); [left|right]; right; split; auto. Qed.
#[local] Instance agent_le_trans s : Transitive (agent_le s).
Proof. intros x y z. unfold agent_le. intros [?|[? ?]] [?|[? ?]]; [left; lia|left; lia|left; lia|right]. split; [congruence|by etransitivity]. Qed.

Lemma eligible_elected s c r ex d l : eligible s c r ex = d :: l → elected s c r ex d.
Proof.
  intros E. assert (∀ x, x ∈ d :: l ↔ x ∈ (agents s).*2 ∧ can_serve c r ex x = true) as Hin.
  { intros x. rewrite <- E. unfold eligible. rewrite merge_sort_Permutation. unfold candidates. by rewrite elem_of_Listfilter. }
  pose proof (StronglySorted_merge_sort (agent_le s) (candidates s c r ex)) as Hs. fold (eligible s c r ex) in Hs. rewrite E in Hs.
  apply StronglySorted_inv in Hs as [_ Hs]. rewrite Forall_forall in Hs. destruct (proj1 (Hin d)) as [H1 H2]; [by left|].
  split; [done|]. split; [done|]. intros d' Hd' Hc. assert (d' ∈ d :: l) as [->|Hd'']%elem_of_cons by (by apply Hin); [by right|by apply Hs].
Qed.

Lemma eligible_nil s c r ex : eligible s c r ex = [] ↔ ∀ d, d ∈ (agents s).*2 → can_serve c r ex d = false.
Proof.
  rewrite list_nil_iff. unfold eligible. setoid_rewrite merge_sort_Permutation. unfold candidates. setoid_rewrite elem_of_Listfilter. split.
  - intros Hn d Hd. apply not_true_iff_false. intros Hc. by apply (Hn d).
  - intros Hn d [Hd Hc]. by rewrite Hn in Hc.
Qed.

(** ** What each operation does *)

Lemma wp_now Q s : wp (now clock_ns) Q s ↔ Q (Ok (clock_ns (ticks s))) (s <| ticks := S (ticks s) |>).
Proof. done. Qed.
Lemma wp_modify f Q s : wp (modify f) Q s ↔ Q (Ok tt) (f s).
Proof. done. Qed.
Lemma wp_get (Q : result AgentExn Registry → Registry → Prop) s : wp get_state Q s ↔ Q (Ok s) s.
Proof. done. Qed.
Lemma wp_fail {A} msg (Q : result AgentExn A → Registry → Prop) s : wp (fail msg) Q s ↔ Q (Err (PrismAgentError msg)) s.
Proof. done. Qed.

Lemma wp_record_owner key a Q s : wp (record_owner key a) Q s ↔
  let s1 := s <| assignments := <[key := a]> (assignments s) |> in
  match assignment_hash a with
  | Ok h => Q (Ok tt) (s1 <| history := history s ++ [dput "assignment_hash" (Str h) (assignment_dict a)] |>)
  | Err x => Q (Err (CanonicalRaised x)) s1
  end.
Proof. unfold record_owner. rewrite wp_bind, wp_modify, wp_of_result. by destruct (assignment_hash a). Qed.

Lemma wp_register d Q s :
  (is_Some (dget (d_agent_id d) (agents s)) → Q (Err (PrismAgentError "duplicate agent")) s) →
  (dget (d_agent_id d) (agents s) = None →
   Q (Ok tt) (s <| agents := dput (d_agent_id d) d (agents s) |> <| inboxes := dput (d_agent_id d) (mkDeque (max_inbox d) []) (inboxes s) |>
                <| outboxes := dput (d_agent_id d) (mkDeque (max_outbox d) []) (outboxes s) |>)) →
  wp (register d) Q s.
Proof.
  intros H1 H2. unfold register. rewrite wp_bind, wp_get, wp_bind, wp_raise_if, bool_decide_eq_true, bool_decide_eq_false.
  split; [done|]. rewrite <- eq_None_not_Some. intros Hn. exact (H2 Hn).
Qed.

(** An assignment succeeds or raises, and what it changes. *)
Lemma wp_assign o p tr c r i hs ttl Q s :
  (∀ e s', quiet s s' → Q (Err e) s') →
  (∀ d a s' x, assignments s !! (Ownership.task_id o, tr) = None → elected s c r (excluded i r) d →
     make_assignment (mkAssignment p (Ownership.o_slot_id o) (Ownership.task_id o) tr r (d_agent_id d) (d_host d) (Ownership.attempt o)
       (Ownership.fence o) (Ownership.lease_id o) (clock_ns (ticks s) + ttl_of s ttl) true hs None ASSIGNMENT_SCHEMA) = Ok a →
     1 <= ttl_of s ttl → owned s (Ownership.task_id o, tr) a s' → (x = Ok a ∨ ∃ y, assignment_hash a = Err y ∧ x = Err (CanonicalRaised y)) → Q x s') →
  wp (assign clock_ns o p tr c r i hs ttl) Q s.
Proof.
  intros He Ho. unfold assign. rewrite wp_bind, wp_get, wp_bind, wp_raise_if, bool_decide_eq_true, bool_decide_eq_false.
  split; [by intros _; apply He|]. rewrite <- eq_None_not_Some. intros Hk.
  destruct (eligible s c r (excluded i r)) as [|d l] eqn:El; [by apply He|]. apply eligible_elected in El.
  rewrite wp_bind, wp_now, wp_bind, wp_raise_if. split; [by intros _; apply He|]. intros Httl%Z.ltb_ge.
  rewrite wp_of_result. destruct (make_assignment _) as [a|e] eqn:Ea; [|by apply He].
  rewrite wp_bind, wp_record_owner. cbv zeta.
  destruct (assignment_hash a) as [h|x] eqn:Eh; [|by eapply (Ho d a); eauto].
  rewrite wp_bind. by eapply (Ho d a); eauto.
Qed.

Lemma wp_agent_heartbeat k tr i f ttl Q s :
  (∀ e s', quiet s s' → Q (Err e) s') →
  (∀ current a s', assignments s !! (k, tr) = Some current → agent_id current = i → fence current = f →
     make_assignment (current <| lease_expires_ns := clock_ns (ticks s) + ttl_of s ttl |>) = Ok a → 1 <= ttl_of s ttl →
     owned s (k, tr) a s' → history s' = history s → Q (Ok a) s') →
  wp (heartbeat clock_ns k tr i f ttl) Q s.
Proof.
  intros He Ho. unfold heartbeat. rewrite wp_bind, wp_get. destruct (assignments s !! (k, tr)) as [current|] eqn:Ek; [|by apply He].
  destruct (negb (String.eqb (agent_id current) i) || negb (fence current =? f)) eqn:Es; [by apply He|].
  apply orb_false_iff in Es as [Hi%negb_false_iff%String.eqb_eq Hf%negb_false_iff%Z.eqb_eq].
  rewrite wp_bind, wp_raise_if. split; [by intros _; apply He|]. intros Httl%Z.ltb_ge.
  rewrite wp_bind, wp_now, wp_of_result. destruct (make_assignment _) as [a|e] eqn:Ea; [|by apply He].
  rewrite wp_bind, wp_modify, wp_bind. by eapply (Ho current a).
Qed.

Lemma wp_takeover k tr c n Q s :
  (∀ e s', quiet s s' → Q (Err e) s') →
  (∀ current d h a s' x, let t := default (clock_ns (ticks s)) n in
     assignments s !! (k, tr) = Some current → lease_expires_ns current < t → elected s c (role current) [agent_id current] d →
     assignment_hash current = Ok h →
     make_assignment (current <| agent_id := d_agent_id d |> <| host := d_host d |> <| attempt := attempt current + 1 |> <| fence := fence current + 1 |>
       <| lease_id := lease_id current +:+ ":takeover:" +:+ pretty (attempt current + 1) |>
       <| lease_expires_ns := t + default_ttl_ns s |> <| previous_assignment_hash := Some h |>) = Ok a →
     owned s (k, tr) a s' → (x = Ok a ∨ ∃ y, assignment_hash a = Err y ∧ x = Err (CanonicalRaised y)) → Q x s') →
  wp (takeover clock_ns k tr c n) Q s.
Proof.
  intros He Ho. unfold takeover. rewrite wp_bind, wp_get. destruct (assignments s !! (k, tr)) as [current|] eqn:Ek; [|by apply He].
  assert (∃ s1, quiet s s1 ∧ frame s s1 ∧ last_sequence s1 = last_sequence s ∧
    match n with Some n => mret n | None => now clock_ns end s = (s1, Ok (default (clock_ns (ticks s)) n))) as (s1 & Hq & Hf & Hl & Hrun).
  { destruct n; eexists; (split; [|split; [|split; [|reflexivity]]]); done. }
  rewrite wp_bind. unfold wp at 1. rewrite Hrun. cbn [fst snd]. rewrite wp_bind, wp_raise_if. split; [by intros _; apply He|]. intros Ht%Z.leb_gt.
  destruct (eligible s c (role current) [agent_id current]) as [|d l] eqn:El; [by apply He|]. apply eligible_elected in El.
  rewrite wp_of_result. destruct (assignment_hash current) as [h|x] eqn:Eh; [|by apply He]. cbn [of_hbp].
  rewrite wp_of_result. destruct (make_assignment _) as [a|e] eqn:Ea; [|by apply He].
  assert (∀ s2, frame s1 s2 → assignments s2 = <[(k, tr) := a]> (assignments s1) → last_sequence s2 = last_sequence s1 → owned s (k, tr) a s2) as Hown.
  { intros s2 Hf2 Ha2 Hl2. constructor; [by etransitivity|by rewrite Ha2, (quiet_assignments _ _ Hq)|congruence]. }
  rewrite wp_bind, wp_record_owner. cbv zeta.
  destruct (assignment_hash a) as [h'|x] eqn:Eh'; [rewrite wp_bind|]; (eapply (Ho current d h a); [done|exact Ht|exact El|exact Eh|exact Ea|by apply Hown|eauto]).
Qed.

Lemma wp_send a x y pl Q s :
  (∀ e s', quiet s s' → Q (Err e) s') →
  (∀ m s', is_stale s a = Ok false → sender_id m = x → recipient_id m = y → m_task_id m = task_id a → m_transition m = transition a →
     m_attempt m = attempt a → m_fence m = fence a → delivered s m s' → Q (Ok m) s') →
  wp (send a x y pl) Q s.
Proof.
  intros He Ho. unfold send. rewrite wp_bind, wp_get, wp_of_result. destruct (is_stale s a) as [[]|] eqn:Est; [by apply He| |by apply He].
  rewrite wp_bind, wp_raise_if. split; [by intros _; apply He|]. intros _. rewrite wp_of_result.
  unfold box. destruct (dget y (inboxes s)) as [ib|] eqn:Ei; [|by apply He]. rewrite wp_of_result. destruct (dget x (outboxes s)) as [ob|] eqn:Eo; [|by apply He].
  destruct (deque_full ib || deque_full ob) eqn:Ef; [by apply He|]. apply orb_false_iff in Ef as [Ef1 Ef2].
  rewrite wp_bind, wp_modify.
  assert (quiet s (s <| last_sequence := last_sequence s + 1 |>)) as Hq by (constructor; [done|done|done|cbn; lia]).
  rewrite wp_of_result. destruct (canonical_sha256 _) as [h|e]; [|by apply He]. cbn [of_hbp].
  rewrite wp_of_result. unfold make_message. destruct (_ : result AgentExn AgentMessage) as [m|e] eqn:Em; [|by apply He].
  rewrite !bind_refuse in Em. destruct Em as (_ & _ & _ & [= <-]).
  rewrite wp_of_result. destruct (message_dict _) as [row|e] eqn:Er; [|by apply He]. cbn [of_hbp].
  rewrite wp_bind, wp_modify, wp_bind, wp_modify, wp_bind. apply Ho; [done..|]. constructor; [done|done|done|done|].
  exists row, ib, ob. done.
Qed.

Lemma wp_receipt a x v hs Q s :
  (∀ r s', quiet s s' → Q r s') → wp (receipt clock_ns a x v hs) Q s.
Proof.
  intros He. unfold receipt. rewrite wp_bind, wp_get, wp_of_result. destruct (is_stale s a) as [stale|]; [|by apply He].
  destruct (assignments s !! _) as [current|]; [|by apply He]. destruct stale; [by apply He|].
  rewrite wp_bind, wp_raise_if. split; [by intros _; apply He|]. intros _. rewrite wp_bind, wp_now.
  do 3 (rewrite wp_bind, wp_raise_if; split; [by intros _; apply He|]; intros _).
  rewrite wp_of_result. destruct (assignment_hash current); [|by apply He]. cbn [of_hbp].
  rewrite wp_of_result. destruct (canonical_sha256 _); [by apply He|by apply He].
Qed.

(** ** Hashes of assignments *)

Lemma normalize_strs l : normalize (json_strs l) = Ok (json_strs (nfc <$> l)).
Proof.
  unfold json_strs. rewrite normalize_List. assert (normalize_items (Str <$> l) = Ok (Str <$> (nfc <$> l))) as ->; [|done].
  induction l as [|x l IH]; [done|]. cbn [fmap list_fmap normalize_items]. by rewrite IH.
Qed.

Lemma assignment_keys a : NoDup (assignment_dict a).*1.
Proof. by_compute. Qed.

Lemma normalize_assignment a : normalize (Obj (assignment_dict a)) = Ok (Obj (assignment_dict (nfc_assignment a))).
Proof.
  apply normalize_fields_map; [apply assignment_keys|].
  repeat constructor; cbn [fst snd nfc_assignment prism_id slot_id task_id transition role agent_id host attempt fence lease_id lease_expires_ns
    accountable helper_ids previous_assignment_hash a_schema]; try (by apply nfc_ascii); [apply normalize_strs|].
  by destruct (previous_assignment_hash a).
Qed.

Lemma json_strs_inj l l' : json_strs l = json_strs l' → l = l'.
Proof. unfold json_strs. intros [= E]. revert l' E. induction l as [|x l IH]; intros [|y l'] E; try done. injection E as -> E. by rewrite (IH l'). Qed.
Lemma json_opt_inj o o' : json_opt o = json_opt o' → o = o'.
Proof. destruct o, o'; cbn; congruence. Qed.
Lemma canon_strs l : canon (json_strs l) = json_strs l.
Proof. unfold json_strs. cbn [canon]. f_equal. induction l as [|x l IH]; [done|]. cbn [fmap list_fmap map canon]. by rewrite IH. Qed.
Lemma canon_opt o : canon (json_opt o) = json_opt o.
Proof. by destruct o. Qed.

Lemma assignment_dict_inj a b : canon (Obj (assignment_dict a)) = canon (Obj (assignment_dict b)) → a = b.
Proof.
  intros E. assert (∀ k, canon (Val.get k (assignment_dict a)) = canon (Val.get k (assignment_dict b))) as Hk.
  { intros k. apply canon_get; [apply assignment_keys|apply assignment_keys|done]. }
  assert (∀ k f, (∀ x, Val.get k (assignment_dict x) = Str (f x)) → f a = f b) as Hs.
  { intros k f Hf. specialize (Hk k). rewrite !Hf in Hk. by injection Hk. }
  assert (∀ k f, (∀ x, Val.get k (assignment_dict x) = Int (f x)) → f a = f b) as Hi.
  { intros k f Hf. specialize (Hk k). rewrite !Hf in Hk. by injection Hk. }
  assert (helper_ids a = helper_ids b) as Hh.
  { specialize (Hk "helper_ids"). change (canon (json_strs (helper_ids a)) = canon (json_strs (helper_ids b))) in Hk. rewrite !canon_strs in Hk. by apply json_strs_inj. }
  assert (previous_assignment_hash a = previous_assignment_hash b) as Hp.
  { specialize (Hk "previous_assignment_hash"). change (canon (json_opt (previous_assignment_hash a)) = canon (json_opt (previous_assignment_hash b))) in Hk.
    rewrite !canon_opt in Hk. by apply json_opt_inj. }
  assert (accountable a = accountable b) as Ha.
  { specialize (Hk "accountable"). change (Bool (accountable a) = Bool (accountable b)) in Hk. congruence. }
  pose proof (Hs "prism_id" prism_id (λ _, eq_refl)). pose proof (Hs "slot_id" slot_id (λ _, eq_refl)). pose proof (Hs "task_id" task_id (λ _, eq_refl)).
  pose proof (Hs "transition" transition (λ _, eq_refl)). pose proof (Hs "role" role (λ _, eq_refl)). pose proof (Hs "agent_id" agent_id (λ _, eq_refl)).
  pose proof (Hs "host" host (λ _, eq_refl)). pose proof (Hs "lease_id" lease_id (λ _, eq_refl)). pose proof (Hs "schema" a_schema (λ _, eq_refl)).
  pose proof (Hi "attempt" attempt (λ _, eq_refl)). pose proof (Hi "fence" fence (λ _, eq_refl)). pose proof (Hi "lease_expires_ns" lease_expires_ns (λ _, eq_refl)).
  clear Hk Hs Hi E. destruct a, b. cbn in *. by f_equal.
Qed.

Lemma assignment_hash_nfc a : assignment_hash a = canonical_sha256 (Obj (assignment_dict (nfc_assignment a))).
Proof.
  unfold assignment_hash, canonical_sha256, canonical_bytes. rewrite normalize_assignment.
  rewrite (normal_normalize (Obj (assignment_dict (nfc_assignment a)))); [done|]. apply (normalize_normal (Obj (assignment_dict a))), normalize_assignment.
Qed.

(** One hash, one assignment. *)
Lemma assignment_hash_binds a b h : assignment_hash a = Ok h → assignment_hash b = Ok h → sha256_collision ∨ nfc_assignment a = nfc_assignment b.
Proof.
  rewrite !assignment_hash_nfc. intros Ha Hb.
  assert (∀ x, normal (Obj (assignment_dict (nfc_assignment x))) = true) as Hn by (intros x; apply (normalize_normal (Obj (assignment_dict x))), normalize_assignment).
  destruct (hash_binds _ _ h (Hn a) (Hn b) Ha Hb) as [Hc|Hc]; [by left|right]. by apply assignment_dict_inj.
Qed.

Lemma is_stale_fresh s a : is_stale s a = Ok false →
  ∃ current, assignments s !! (task_id a, transition a) = Some current ∧ same_hash a current.
Proof.
  unfold is_stale. destruct (assignments s !! _) as [current|]; [|done]. intros (h & Hh & (h' & Hh' & [= E%negb_false_iff%String.eqb_eq])%rbind_Ok)%rbind_Ok.
  exists current. split; [done|]. subst h'. unfold of_hbp in *. destruct (assignment_hash current) eqn:E1; [|done]. destruct (assignment_hash a) eqn:E2; [|done].
  simplify_eq. by eexists.
Qed.

(** ** Every call is a step *)

Lemma wp_discard {A} (m : prog Registry AgentExn A) (R : Registry → Prop) s : wp m (λ _, R) s → R (discard m s).1.
Proof. unfold wp, discard, mbind, prog_bind. destruct (m s) as [s' [x|e]]; done. Qed.

Lemma perform_step c s : owners_ok s → step s (perform clock_ns c s).1.
Proof.
  intros Hok. destruct c as [d|o p tr c r i hs ttl|k tr i f ttl|k tr c n|a x y pl|a x v hs]; cbn [perform].
  - unfold mbind, prog_bind, of_result. destruct (make_agent d) as [d'|e] eqn:Ed; [|by apply Nothing]. apply make_agent_Ok in Ed as [Hd _].
    apply (wp_register d' (λ _, step s)); [by intros _; apply Nothing|]. intros Hn. by apply (Joined _ _ d').
  - apply wp_discard, wp_assign; [intros e s' Hq; by apply Nothing|]. intros d a s' x Hk Hel Ha _ Hown _.
    apply make_assignment_Ok in Ha as (Ha & Hf & _). apply (Appointed _ _ (Ownership.task_id o, tr) a); [|done].
    apply (Assigned s _ a c (excluded i r) d); by rewrite ?Ha in *.
  - apply wp_discard, wp_agent_heartbeat; [intros e s' Hq; by apply Nothing|]. intros cur a s' Hk _ _ Ha _ Hown _.
    destruct (ok_owner s Hok _ _ Hk) as (_ & Hcur & _). apply fixed_helpers in Hcur.
    pose proof Ha as E. apply replace_fixed in E; [|exact Hcur]. subst a. by apply (Appointed _ _ (k, tr) _ (Renewed s (k, tr) cur _ Hk Ha)).
  - apply wp_discard, wp_takeover; [intros e s' Hq; by apply Nothing|]. intros cur d h a s' x t Hk Ht Hel Hh Ha Hown _.
    destruct (ok_owner s Hok _ _ Hk) as (_ & Hcur & _). apply fixed_helpers in Hcur.
    pose proof Ha as E. apply replace_fixed in E; [|exact Hcur]. subst a. by apply (Appointed _ _ (k, tr) _ (TakenOver s (k, tr) cur c d t _ h Hk Ht Hel Hh Ha)).
  - apply wp_discard, wp_send; [intros e s' Hq; by apply Nothing|]. intros m s' _ _ _ _ _ _ _ Hd. by apply (Delivered _ _ m).
  - apply wp_discard, wp_receipt. intros r s' Hq. by apply Nothing.
Qed.

(** ** Owners *)

Lemma agent_known s d : owners_ok s → d ∈ (agents s).*2 → dget (d_agent_id d) (agents s) = Some d.
Proof.
  intros Hok ([i d'] & -> & Hin)%list_elem_of_fmap. cbn [snd]. apply elem_of_dget in Hin; [|by apply ok_keys]. by destruct (ok_agents s Hok _ _ Hin) as [-> _].
Qed.

Lemma can_serve_spec c r ex d : can_serve c r ex d = true ↔ c ∈ capabilities d ∧ r ∈ roles d ∧ d_agent_id d ∉ ex.
Proof. unfold can_serve. rewrite !andb_true_iff, negb_true_iff, !bool_decide_eq_true, bool_decide_eq_false. tauto. Qed.

Lemma frame_owners s s' : frame s s' → assignments s' = assignments s → owners_ok s → owners_ok s'.
Proof. intros [H1 H2 _ _] H3 []. constructor; rewrite ?H1, ?H2, ?H3; done. Qed.

Lemma appointed_owner s key a : owners_ok s → appointed s key a →
  key = (task_id a, transition a) ∧ make_assignment a = Ok a ∧ accountable a = true ∧
  ∃ d, dget (agent_id a) (agents s) = Some d ∧ host a = d_host d ∧ role a ∈ roles d.
Proof.
  intros Hok Hap. inversion Hap; subst.
  - destruct H1 as (Hin & (_ & Hr & _)%can_serve_spec & _). do 3 (split; [done|]). exists d. rewrite H2. split; [by apply agent_known|done].
  - destruct (ok_owner s Hok _ _ H0) as (Hk & _ & Hacc & d & Hd). split; [done|]. split; [done|]. split; [done|]. by exists d.
  - destruct (ok_owner s Hok _ _ H0) as (Hk & _ & Hacc & _). destruct H2 as (Hin & (_ & Hr & _)%can_serve_spec & _).
    split; [done|]. split; [done|]. split; [done|]. exists d. split; [by apply agent_known|done].
Qed.

Lemma step_owners s s' : owners_ok s → step s s' → owners_ok s'.
Proof.
  intros Hok [[Hf Ha _ _]|d Hd Hn ->|key a Hap [Hf Ha _]|m [Hag Httl Ha _ _]].
  - by apply (frame_owners s).
  - destruct Hok. constructor; cbn; [done| |by apply dput_NoDup|].
    + intros i d'. rewrite dget_put. destruct (decide _) as [->|]; [intros [= <-]; done|apply ok_agents0].
    + intros key a Hk. destruct (ok_owner0 key a Hk) as (? & ? & ? & d' & Hd' & ?). do 3 (split; [done|]). exists d'. rewrite dget_put_ne; [done|].
      intros E. rewrite E in Hd'. congruence.
  - destruct Hf as [F1 F2 _ _]. pose proof (appointed_owner s key a Hok Hap) as Hnew. destruct Hok. constructor; rewrite ?F1, ?F2, ?Ha; [done..|].
    intros key' a'. rewrite lookup_insert_Some. intros [[<- <-]|[_ Hk]]; [done|by apply ok_owner0].
  - destruct Hok. constructor; rewrite ?Hag, ?Httl, ?Ha; done.
Qed.

(** ** Mailboxes *)

Lemma rows_of_put i d boxes j : rows_of (dput i d boxes) j = if decide (j = i) then rows d else rows_of boxes j.
Proof. unfold rows_of. rewrite dget_put. by destruct (decide _). Qed.

Lemma append_rows d row : deque_full d = false → rows (deque_append d row) = rows d ++ [row].
Proof.
  unfold deque_full, deque_append. intros Hf%Z.leb_gt. cbn [rows]. rewrite length_app. cbn [length].
  replace (_ - _)%nat with 0%nat by lia. done.
Qed.

Lemma message_dict_Ok m row : message_dict m = Ok row →
  (∀ i, names "sender_id" i row = String.eqb (sender_id m) i) ∧ (∀ i, names "recipient_id" i row = String.eqb (recipient_id m) i) ∧ number_of row = sequence m.
Proof. unfold message_dict. intros (h & _ & [= <-])%rbind_Ok. done. Qed.

Lemma box_weaken n l l' d : l <= l' → box_ok n l d → box_ok n l' d.
Proof. intros Hl (H1 & H2 & H3 & H4). do 3 (split; [done|]). eapply Forall_impl; [exact H4|]. cbn. lia. Qed.

Lemma box_append n l d row : 0 <= l → number_of row = l + 1 → deque_full d = false → box_ok n l d → box_ok n (l + 1) (deque_append d row).
Proof.
  intros Hl Hn Hf (H1 & H2 & H3 & H4). unfold box_ok. rewrite append_rows by done. split; [done|]. split.
  { unfold deque_full in Hf. apply Z.leb_gt in Hf. rewrite length_app. cbn [length]. lia. }
  split.
  - rewrite fmap_app. apply StronglySorted_app_2; [|done|by repeat constructor]. intros x y (r & -> & Hr)%list_elem_of_fmap ->%list_elem_of_singleton.
    rewrite Forall_forall in H4. specialize (H4 r Hr). cbn. lia.
  - apply Forall_app. split; [|apply Forall_singleton; lia]. eapply Forall_impl; [exact H4|]. cbn. lia.
Qed.

Lemma mailboxes_same s s' : agents s' = agents s → inboxes s' = inboxes s → outboxes s' = outboxes s → last_sequence s <= last_sequence s' →
  mailboxes_ok s → mailboxes_ok s'.
Proof.
  intros H1 H2 H3 H4 []. constructor; unfold sent, received in *; rewrite ?H1, ?H2, ?H3; [|done..|lia].
  intros i. specialize (ok_boxes0 i). destruct (dget i (agents s)) as [d|]; [|done]. destruct ok_boxes0 as (ib & ob & ? & ? & ? & ?).
  exists ib, ob. split; [done|]. split; [done|]. split; by eapply box_weaken.
Qed.

Lemma mailboxes_joined s d : make_agent d = Ok d → dget (d_agent_id d) (agents s) = None → mailboxes_ok s →
  mailboxes_ok (s <| agents := dput (d_agent_id d) d (agents s) |> <| inboxes := dput (d_agent_id d) (mkDeque (max_inbox d) []) (inboxes s) |>
    <| outboxes := dput (d_agent_id d) (mkDeque (max_outbox d) []) (outboxes s) |>).
Proof.
  intros Hd Hn []. pose proof (ok_boxes0 (d_agent_id d)) as Hnew. rewrite Hn in Hnew. destruct Hnew as [Hni Hno].
  assert (∀ boxes n j, dget (d_agent_id d) boxes = None → rows_of (dput (d_agent_id d) (mkDeque n []) boxes) j = rows_of boxes j) as Hrows.
  { intros boxes n j Hb. rewrite rows_of_put. destruct (decide (j = d_agent_id d)) as [->|]; [|done]. unfold rows_of. by rewrite Hb. }
  assert (1 <= max_inbox d ∧ 1 <= max_outbox d) as [? ?].
  { unfold make_agent in Hd. apply rbind_Ok in Hd as (? & _ & Hd). rewrite !bind_refuse in Hd. destruct Hd as (_ & Hm & _). cbn in Hm. lia. }
  constructor; unfold sent, received in *; cbn.
  - intros i. rewrite !dget_put. destruct (decide (i = d_agent_id d)) as [->|]; [|apply ok_boxes0].
    eexists _, _. split; [done|]. split; [done|]. split; (split; [done|]; split; [cbn; lia|]; split; constructor).
  - intros x y. rewrite !Hrows by done. done.
  - intros x row. rewrite Hrows by done. apply ok_from0.
  - intros y row. rewrite Hrows by done. apply ok_to0.
  - done.
Qed.

Lemma mailboxes_delivered s s' m : delivered s m s' → mailboxes_ok s → mailboxes_ok s'.
Proof.
  intros [Hag _ _ [Hnum Hlast] (row & ib & ob & Hrow & Hi & Ho & Hfi & Hfo & Hin & Hout)] [].
  destruct (message_dict_Ok m row Hrow) as (Hs & Hr & Hn). rewrite Hnum in Hn.
  assert (∀ j, rows_of (inboxes s') j = rows_of (inboxes s) j ++ if decide (j = recipient_id m) then [row] else []) as Hri.
  { intros j. rewrite Hin, rows_of_put. destruct (decide _) as [->|]; [|by rewrite app_nil_r]. rewrite append_rows by done. unfold rows_of. by rewrite Hi. }
  assert (∀ j, rows_of (outboxes s') j = rows_of (outboxes s) j ++ if decide (j = sender_id m) then [row] else []) as Hro.
  { intros j. rewrite Hout, rows_of_put. destruct (decide _) as [->|]; [|by rewrite app_nil_r]. rewrite append_rows by done. unfold rows_of. by rewrite Ho. }
  constructor.
  - intros i. rewrite Hag. specialize (ok_boxes0 i). destruct (dget i (agents s)) as [d|] eqn:Ed.
    + destruct ok_boxes0 as (ib' & ob' & Hib & Hob & Hbi & Hbo). rewrite Hin, Hout, !dget_put, Hlast.
      assert (∀ (b b' : Deque) n, box_ok n (last_sequence s) b → deque_full b = false → box_ok n (last_sequence s + 1) (deque_append b row)) as Happ.
      { intros b _ n Hb Hf. by apply box_append. }
      assert (∀ n b, box_ok n (last_sequence s) b → box_ok n (last_sequence s + 1) b) as Hweak by (intros n b; apply box_weaken; lia).
      destruct (decide (i = recipient_id m)) as [->|], (decide (_ = sender_id m)) as [E|]; try rewrite <- E in *; simplify_eq; eexists _, _; eauto 10.
    + destruct ok_boxes0 as [? ?]. rewrite Hin, Hout, !dget_put. destruct (decide (i = recipient_id m)) as [->|], (decide (_ = sender_id m)) as [E|]; try rewrite <- E in *; by simplify_eq.
  - intros x y. unfold sent, received. rewrite Hri, Hro, !List.filter_app. f_equal; [apply ok_channels0|].
    destruct (decide (x = sender_id m)) as [->|Hx], (decide (y = recipient_id m)) as [->|Hy]; cbn [List.filter]; rewrite ?Hs, ?Hr, ?String.eqb_refl; try done.
    + rewrite (proj2 (String.eqb_neq _ _)) by done. done.
    + rewrite (proj2 (String.eqb_neq _ _)) by done. done.
  - intros x r. rewrite Hro. intros [Hx|Hx]%elem_of_app; [by apply ok_from0|]. destruct (decide (x = sender_id m)) as [->|]; [|by apply not_elem_of_nil in Hx].
    apply list_elem_of_singleton in Hx as ->. by rewrite Hs, String.eqb_refl.
  - intros y r. rewrite Hri. intros [Hx|Hx]%elem_of_app; [by apply ok_to0|]. destruct (decide (y = recipient_id m)) as [->|]; [|by apply not_elem_of_nil in Hx].
    apply list_elem_of_singleton in Hx as ->. by rewrite Hr, String.eqb_refl.
  - lia.
Qed.

Lemma step_mailboxes s s' : step s s' → mailboxes_ok s → mailboxes_ok s'.
Proof.
  intros [[[_ H1 H2 H3] _ _ H4]|d Hd Hn ->|key a _ [[_ H1 H2 H3] _ H4]|m Hm].
  - by apply mailboxes_same.
  - by apply mailboxes_joined.
  - apply mailboxes_same; [done..|lia].
  - by apply (mailboxes_delivered s s' m).
Qed.

(** ** Along the calls *)

Lemma after_ind (R : Registry → Registry → Prop) `{!PreOrder R} cs s :
  (∀ s s', owners_ok s → step s s' → R s s') → owners_ok s → owners_ok (after clock_ns cs s) ∧ R s (after clock_ns cs s).
Proof.
  intros HR. revert s. unfold after. induction cs as [|c cs IH]; intros s Hok; [done|]. cbn [foldl].
  pose proof (perform_step c s Hok) as Hst. destruct (IH _ (step_owners _ _ Hok Hst)) as [H1 H2]. split; [done|]. etransitivity; [by apply HR|done].
Qed.

#[export] Instance advances_preorder : PreOrder advances.
Proof.
  split; [intros s key a Ha; exists a; split; [done|]; split; [lia|]; split; [lia|done]|]. intros s1 s2 s3 H12 H23 key a Ha. destruct (H12 key a Ha) as (b & Hb & ? & ? & ?). destruct (H23 key b Hb) as (c & Hc & ? & ? & ?).
  exists c. split; [done|]. split; [lia|]. split; [lia|congruence].
Qed.

Lemma step_advances s s' : step s s' → advances s s'.
Proof.
  intros [Hq|d _ _ ->|key a Hap Hown|m Hm].
  - intros key a Ha. exists a. rewrite (quiet_assignments _ _ Hq). split; [done|]. split; [lia|]. split; [lia|done].
  - intros key a Ha. exists a. cbn. split; [done|]. split; [lia|]. split; [lia|done].
  - intros key' b Hb. rewrite (owned_assignments _ _ _ _ Hown). destruct (decide (key' = key)) as [->|Hne].
    + exists a. rewrite lookup_insert_eq. split; [done|]. inversion Hap; simplify_eq; cbn; split; [lia|split; [lia|done]|lia|split; [lia|done]].
    + exists b. rewrite lookup_insert_ne by done. split; [done|]. split; [lia|]. split; [lia|done].
  - intros key a Ha. exists a. rewrite (dl_assignments _ _ _ Hm). split; [done|]. split; [lia|]. split; [lia|done].
Qed.
End Lemmas.

(** * Properties *)
Section Properties.
Context `{Nfc} (clock_ns : nat → Z).

Lemma new_registry_ok ttl s : new_registry ttl = Ok s → owners_ok s ∧ mailboxes_ok s.
Proof.
  unfold new_registry. rewrite bind_refuse. intros [Ht%Z.ltb_ge [= <-]]. split.
  - constructor; cbn; [done|done|constructor|]. intros key a. by rewrite lookup_empty.
  - constructor; cbn; try done.
    + intros x row Hin. by apply not_elem_of_nil in Hin.
    + intros x row Hin. by apply not_elem_of_nil in Hin.
Qed.

Lemma after_owners cs s : owners_ok s → owners_ok (after clock_ns cs s).
Proof. intros Hok. apply (after_ind clock_ns advances cs s); [|done]. intros x y _. apply step_advances. Qed.

Lemma after_mailboxes cs s : owners_ok s → mailboxes_ok s → mailboxes_ok (after clock_ns cs s).
Proof.
  intros Hok. assert (PreOrder (λ s s', mailboxes_ok s → mailboxes_ok s')) as Hpre by (split; [by intros ?|by intros ???; auto]).
  apply (after_ind clock_ns (λ s s', mailboxes_ok s → mailboxes_ok s') cs s); [|done]. intros x y _. apply step_mailboxes.
Qed.

Lemma registry_reachable_ok s : reachable clock_ns s → owners_ok s ∧ mailboxes_ok s.
Proof.
  intros (ttl & s0 & cs & Hnew & ->). destruct (new_registry_ok _ _ Hnew) as [Ho Hm]. split; [by apply after_owners|by apply after_mailboxes].
Qed.

Lemma after_advances cs s : owners_ok s → advances s (after clock_ns cs s).
Proof. intros Hok. apply (after_ind clock_ns advances cs s); [|done]. intros x y _. apply step_advances. Qed.

(** An assignment that is not the current one can do nothing. *)
Lemma behind_is_stale s a current : assignments s !! (task_id a, transition a) = Some current →
  same_hash a current ∨ is_stale s a ≠ Ok false.
Proof.
  intros Hk. destruct (is_stale s a) as [[]|e] eqn:E; [by right| |by right].
  apply is_stale_fresh in E as (c & Hc & Hh). rewrite Hk in Hc. injection Hc as <-. by left.
Qed.

Lemma stale_send a x y pl s : is_stale s a ≠ Ok false → ∃ e, (send a x y pl s).2 = Err e.
Proof.
  intros Hs. unfold send, mbind, prog_bind, get_state, of_result. destruct (is_stale s a) as [[]|e]; [|done|].
  - by eexists.
  - by eexists.
Qed.
Lemma stale_receipt a x v hs s : is_stale s a ≠ Ok false → ∃ e, (receipt clock_ns a x v hs s).2 = Err e.
Proof.
  intros Hs. unfold receipt, mbind, prog_bind, get_state, of_result. destruct (is_stale s a) as [[]|e]; [|done|].
  - destruct (assignments s !! _); by eexists.
  - by eexists.
Qed.

Lemma box_known i boxes d : dget i boxes = Some d → depth boxes i = Ok (Int (Z.of_nat (length (rows d)))).
Proof. unfold depth, box. by intros ->. Qed.

Lemma depths_Ok s ids : mailboxes_ok s → Forall (λ i, is_Some (dget i (agents s))) ids → ∃ l, depths s ids = Ok l ∧ l.*1 = ids.
Proof.
  intros Hm. induction 1 as [|i ids [d Hd] _ (l & Hl & Hi)]; [by exists []|]. pose proof (ok_boxes s Hm i) as Hb. rewrite Hd in Hb.
  destruct Hb as (ib & ob & Hib & Hob & _). cbn [depths]. rewrite (box_known _ _ _ Hib). cbn [rbind]. rewrite (box_known _ _ _ Hob). cbn [rbind]. rewrite Hl. cbn [rbind].
  eexists. split; [done|]. cbn. by rewrite Hi.
Qed.

(** C25: once a takeover has passed a transition on, the assignment it replaced
    can never act again, whatever is called in between: nothing can be sent or
    signed with it, and no heartbeat under its fence is accepted, unless the
    owner of a later attempt has the very same SHA-256 hash. *)
Theorem superseded_never_acts s k tr c n s1 a b cs :
  reachable clock_ns s → assignments s !! (k, tr) = Some a → takeover clock_ns k tr c n s = (s1, Ok b) →
  let s2 := after clock_ns cs s1 in
  (∃ current, assignments s2 !! (k, tr) = Some current ∧ attempt a < attempt current ∧ same_hash a current) ∨
    (∀ x y pl, ∃ e, (send a x y pl s2).2 = Err e) ∧
    (∀ x v hs, ∃ e, (receipt clock_ns a x v hs s2).2 = Err e) ∧
    (∀ x ttl, (heartbeat clock_ns k tr x (fence a) ttl s2).2 = Err (PrismAgentError "stale heartbeat")).
Proof.
  intros [Hok _]%registry_reachable_ok Hk Ht s2.
  assert (owners_ok s1 ∧ ∃ a1, assignments s1 !! (k, tr) = Some a1 ∧ attempt a1 = attempt a + 1 ∧ fence a1 = fence a + 1) as (Hok1 & a1 & Ha1 & Hatt & Hf).
  { assert (owners_ok s1) as Hok1.
    { pose proof (perform_step clock_ns (Takeover k tr c n) s Hok) as Hst. apply step_owners in Hst; [|done].
      cbn [perform] in Hst. unfold discard, mbind, prog_bind in Hst. by rewrite Ht in Hst. }
    split; [done|]. pose proof (wp_takeover clock_ns k tr c n (λ r s', r = Ok b → ∃ a1, assignments s' !! (k, tr) = Some a1 ∧ attempt a1 = attempt a + 1 ∧ fence a1 = fence a + 1) s) as Hwp.
    unfold wp in Hwp. rewrite Ht in Hwp. refine (Hwp _ _ eq_refl); [by intros ???|]. clear Hwp. intros cur d h a' s' x Hcur _ _ _ Ha' Hown _ _.
    rewrite Hk in Hcur. injection Hcur as <-. exists a'. rewrite (owned_assignments _ _ _ _ Hown), lookup_insert_eq. apply make_assignment_Ok in Ha' as (-> & _). done. }
  destruct (after_advances cs s1 Hok1 _ _ Ha1) as (a2 & Ha2 & Hle & Hff & _). fold s2 in Ha2.
  destruct (ok_owner s Hok _ _ Hk) as ([= -> ->] & _). destruct (behind_is_stale s2 a a2 Ha2) as [Hc|Hs]; [left; exists a2; split; [done|]; split; [lia|done]|right].
  split; [intros; by apply stale_send|]. split; [intros; by apply stale_receipt|]. intros x ttl. unfold heartbeat, mbind, prog_bind, get_state. rewrite Ha2.
  rewrite (proj2 (Z.eqb_neq (fence a2) (fence a))) by lia. by rewrite orb_true_r.
Qed.

(** [assign] gives a transition that has no owner to the agent with the
    capability and the role that has the least assignments, the first by name
    among those; for a review or a completion never to the implementer. It is
    refused, with nothing changed, when the transition has an owner or no agent
    qualifies, and any other error before the assignment is stored changes no
    assignment. *)
Theorem assign_exact s o p tr c r i hs ttl :
  let key := (Ownership.task_id o, tr) in
  let '(s', res) := assign clock_ns o p tr c r i hs ttl s in
  match res with
  | Ok a => assignments s !! key = None ∧ assignments s' = <[key := a]> (assignments s) ∧ frame s s' ∧
      (∃ d, elected s c r (excluded i r) d ∧ agent_id a = d_agent_id d ∧ host a = d_host d) ∧
      (∀ j, i = Some j → j ≠ "" → r ∈ INDEPENDENT_ROLES → agent_id a ≠ j) ∧
      attempt a = Ownership.attempt o ∧ fence a = Ownership.fence o ∧ role a = r ∧ accountable a = true ∧
      1 <= ttl_of s ttl ∧ lease_expires_ns a = clock_ns (ticks s) + ttl_of s ttl
  | Err e => assignments s' = assignments s ∨ ∃ a, assignments s' = <[key := a]> (assignments s) ∧ ∃ x, assignment_hash a = Err x ∧ e = CanonicalRaised x
  end ∧
  (is_Some (assignments s !! key) → s' = s ∧ res = Err (PrismAgentError "transition already has an accountable owner")) ∧
  (assignments s !! key = None → (∀ d, d ∈ (agents s).*2 → can_serve c r (excluded i r) d = false) →
     s' = s ∧ res = Err (PrismAgentError "CAPABILITY_MISSING_OR_INDEPENDENCE_UNAVAILABLE")).
Proof.
  intros key. destruct (assign clock_ns o p tr c r i hs ttl s) as [s' res] eqn:Hrun.
  split; [|split].
  - pose proof (wp_assign clock_ns o p tr c r i hs ttl (λ res s', match res with
      | Ok a => assignments s !! key = None ∧ assignments s' = <[key := a]> (assignments s) ∧ frame s s' ∧
          (∃ d, elected s c r (excluded i r) d ∧ agent_id a = d_agent_id d ∧ host a = d_host d) ∧
          (∀ j, i = Some j → j ≠ "" → r ∈ INDEPENDENT_ROLES → agent_id a ≠ j) ∧
          attempt a = Ownership.attempt o ∧ fence a = Ownership.fence o ∧ role a = r ∧ accountable a = true ∧
          1 <= ttl_of s ttl ∧ lease_expires_ns a = clock_ns (ticks s) + ttl_of s ttl
      | Err e => assignments s' = assignments s ∨ ∃ a, assignments s' = <[key := a]> (assignments s) ∧ ∃ x, assignment_hash a = Err x ∧ e = CanonicalRaised x
      end) s) as Hwp.
    unfold wp in Hwp. rewrite Hrun in Hwp. apply Hwp; [intros e s2 Hq; left; by apply quiet_assignments|].
    intros d a s2 x Hk Hel Ha Httl Hown [->|(y & Hy & ->)]; [|right; exists a; split; [by destruct Hown|by exists y]].
    apply make_assignment_Ok in Ha as (-> & _). split; [done|]. split; [by destruct Hown|]. split; [by destruct Hown|].
    split; [by exists d|]. split; [|done]. intros j -> Hj Hr. cbn. destruct Hel as (_ & Hcs & _). rewrite can_serve_spec in Hcs. destruct Hcs as (_ & _ & Hex).
    intros <-. apply Hex. unfold excluded. rewrite (proj2 (Str.truthy_ne _) Hj), bool_decide_eq_true_2 by done. by left.
  - intros Hs. unfold assign, mbind, prog_bind, get_state in Hrun. fold key in Hrun. rewrite bool_decide_eq_true_2 in Hrun by done. by injection Hrun as <- <-.
  - intros Hn Hall. apply eligible_nil in Hall. unfold assign, mbind, prog_bind, get_state in Hrun. fold key in Hrun.
    rewrite bool_decide_eq_false_2 in Hrun by by rewrite Hn. cbn in Hrun. rewrite Hall in Hrun. by injection Hrun as <- <-.
Qed.

(** A transition stays owned: it cannot be assigned again, whatever happened to it. *)
Lemma owned_for_good s o p tr c r i hs ttl cs :
  owners_ok s → is_Some (assignments s !! (Ownership.task_id o, tr)) →
  let s' := after clock_ns cs s in assign clock_ns o p tr c r i hs ttl s' = (s', Err (PrismAgentError "transition already has an accountable owner")).
Proof.
  intros Hok [a Ha] s'. destruct (after_advances cs s Hok _ _ Ha) as (a' & Ha' & _). fold s' in Ha'.
  unfold assign, mbind, prog_bind, get_state. rewrite bool_decide_eq_true_2; [done|by exists a'].
Qed.

(** in every registry that can be reached, each assignment stands under
    its own task and transition, is valid and accountable, and belongs to a
    registered agent that has its role and whose host it names. *)
Theorem owners_invariant s : reachable clock_ns s → owners_ok s.
Proof. by intros [Hok _]%registry_reachable_ok. Qed.

(** C40: in every registry that can be reached, no message is lost, duplicated
    or reordered: what an agent's outbox has for another is exactly, and in the
    same order, what the other's inbox has from it. A mailbox never holds more
    than the agent's bound, its messages are numbered upwards, and every agent
    has its mailboxes, so that the depths of the status are defined. *)
Theorem mailboxes_invariant s : reachable clock_ns s →
  (∀ x y, sent s x y = received s x y) ∧
  (∀ i d, dget i (agents s) = Some d → ∃ inbox outbox, dget i (inboxes s) = Some inbox ∧ dget i (outboxes s) = Some outbox ∧
     box_ok (max_inbox d) (last_sequence s) inbox ∧ box_ok (max_outbox d) (last_sequence s) outbox) ∧
  ∃ l, depths s (py_sorted (agents s).*1) = Ok l ∧ l.*1 = py_sorted (agents s).*1.
Proof.
  intros [_ Hm]%registry_reachable_ok. split; [apply Hm|]. split.
  - intros i d Hd. pose proof (ok_boxes s Hm i) as Hb. by rewrite Hd in Hb.
  - apply depths_Ok; [done|]. apply Forall_forall. intros i. rewrite elem_of_py_sorted. intros Hi.
    destruct (dget i (agents s)) as [d|] eqn:E; [by exists d|]. by apply dget_None in E.
Qed.

(** a receipt is signed exactly by the agent that owns the transition,
    through an assignment with the hash of the current one, before the lease
    ends, with a known verdict and hashes of the right length; it names the
    current attempt and fence, and signing changes nothing but the clock. *)
Theorem receipt_exact s a x v hs s' r :
  receipt clock_ns a x v hs s = (s', Ok r) ↔
  ∃ current hash h, assignments s !! (task_id a, transition a) = Some current ∧
    assignment_hash current = Ok hash ∧ assignment_hash a = Ok hash ∧ x = agent_id current ∧
    clock_ns (ticks s) <= lease_expires_ns current ∧ v ∈ VERDICTS ∧ Forall (λ y, text_len y = 64) hs ∧
    canonical_sha256 (Obj (receipt_body hash x v current hs)) = Ok h ∧
    s' = s <| ticks := S (ticks s) |> ∧ r = receipt_body hash x v current hs ++ [("receipt_hash", Str h)].
Proof.
  assert (existsb (λ y, negb (text_len y =? 64)) hs = false ↔ Forall (λ y, text_len y = 64) hs) as Hlen.
  { rewrite <- not_true_iff_false, existsb_exists, Forall_forall. setoid_rewrite negb_true_iff. setoid_rewrite Z.eqb_neq. split.
    - intros Hn y Hy. destruct (decide (text_len y = 64)); [done|]. exfalso. apply Hn. exists y. split; [by apply list_elem_of_In|done].
    - intros Hall (y & Hy%list_elem_of_In & Hne). by apply Hne, Hall. }
  unfold receipt, is_stale, mbind, prog_bind, get_state, of_result, raise_if, now, mret, prog_ret.
  destruct (assignments s !! _) as [current|] eqn:Ek; [|split; [done|by intros (? & ? & ? & ? & _)]].
  unfold of_hbp at 1 2. destruct (assignment_hash current) as [h1|] eqn:E1; cbn [rbind]; [|split; [done|intros (? & ? & ? & [= <-] & ? & _); congruence]].
  destruct (assignment_hash a) as [h2|] eqn:E2; cbn [rbind]; [|split; [done|intros (? & ? & ? & _ & _ & ? & _); congruence]].
  destruct (String.eqb_spec h1 h2) as [<-|Hne]; cbn [negb]; [|split; [done|intros (? & ? & ? & [= <-] & ? & ? & _); congruence]].
  destruct (String.eqb_spec x (agent_id current)) as [->|Hx]; cbn [negb]; [|split; [done|intros (? & ? & ? & [= <-] & _ & _ & ? & _); congruence]].
  destruct (Z.ltb_spec (lease_expires_ns current) (clock_ns (ticks s))) as [Ht|Ht]; [split; [done|intros (? & ? & ? & [= <-] & _ & _ & _ & ? & _); lia]|].
  destruct (bool_decide_reflect (v ∈ VERDICTS)) as [Hv|Hv]; cbn [negb]; [|split; [done|by intros (? & ? & ? & _ & _ & _ & _ & _ & ? & _)]].
  destruct (existsb _ hs) eqn:El.
  { split; [done|]. intros (? & ? & ? & _ & _ & _ & _ & _ & _ & Hl%Hlen & _). congruence. }
  cbn [of_hbp]. destruct (canonical_sha256 _) as [h|] eqn:Eh; cbn [of_hbp]; [|split; [done|intros (? & ? & ? & [= <-] & ? & _ & _ & _ & _ & _ & ? & _); congruence]].
  split.
  - intros [= <- <-]. exists current, h1, h. by rewrite <- Hlen.
  - intros (cur & hash & h' & [= <-] & Hh & _ & _ & _ & _ & _ & Hc & -> & ->). assert (hash = h1) as -> by congruence. rewrite Hc in Eh. by injection Eh as ->.
Qed.

(** a takeover passes an expired transition on to an agent with the
    capability and the role that is not the present owner, the one with the
    least assignments; attempt and fence go up by one, the lease starts anew
    and the predecessor's hash is kept. While the lease runs it is refused. *)
Theorem takeover_exact s k tr c n current :
  owners_ok s → assignments s !! (k, tr) = Some current →
  let t := default (clock_ns (ticks s)) n in
  let '(s', res) := takeover clock_ns k tr c n s in
  match res with
  | Ok b => lease_expires_ns current < t ∧ assignments s' = <[(k, tr) := b]> (assignments s) ∧ frame s s' ∧
      (∃ d, elected s c (role current) [agent_id current] d ∧ agent_id b = d_agent_id d ∧ agent_id b ≠ agent_id current) ∧
      attempt b = attempt current + 1 ∧ fence b = fence current + 1 ∧ lease_expires_ns b = t + default_ttl_ns s ∧
      role b = role current ∧ helper_ids b = helper_ids current ∧
      ∃ h, assignment_hash current = Ok h ∧ previous_assignment_hash b = Some h
  | Err _ => True
  end ∧
  (t <= lease_expires_ns current → res = Err (PrismAgentError "lease is still active") ∧ assignments s' = assignments s).
Proof.
  intros Hok Hk t. destruct (takeover clock_ns k tr c n s) as [s' res] eqn:Hrun. split.
  - pose proof (wp_takeover clock_ns k tr c n (λ res s', match res with
      | Ok b => lease_expires_ns current < t ∧ assignments s' = <[(k, tr) := b]> (assignments s) ∧ frame s s' ∧
          (∃ d, elected s c (role current) [agent_id current] d ∧ agent_id b = d_agent_id d ∧ agent_id b ≠ agent_id current) ∧
          attempt b = attempt current + 1 ∧ fence b = fence current + 1 ∧ lease_expires_ns b = t + default_ttl_ns s ∧
          role b = role current ∧ helper_ids b = helper_ids current ∧
          ∃ h, assignment_hash current = Ok h ∧ previous_assignment_hash b = Some h
      | Err _ => True end) s) as Hwp.
    unfold wp in Hwp. rewrite Hrun in Hwp. apply Hwp; [done|]. clear Hwp Hrun. intros cur d h b s2 x Hcur Ht Hel Hh Hb Hown [->|(y & _ & ->)]; [|done].
    rewrite Hk in Hcur. injection Hcur as <-. destruct (ok_owner s Hok _ _ Hk) as (_ & Hfix & _). apply fixed_helpers in Hfix.
    apply replace_fixed in Hb; [|exact Hfix]. subst b. split; [done|]. split; [by destruct Hown|]. split; [by destruct Hown|]. split.
    { exists d. split; [done|]. split; [done|]. cbn. destruct Hel as (_ & Hcs & _). rewrite can_serve_spec in Hcs. destruct Hcs as (_ & _ & Hex).
      intros E. apply Hex. rewrite E. by left. }
    do 5 (split; [done|]). by exists h.
  - intros Hle. unfold takeover, mbind, prog_bind, get_state in Hrun. rewrite Hk in Hrun. unfold t in Hle. destruct n as [n|]; cbn in Hle, Hrun;
      rewrite (proj2 (Z.leb_le _ _) Hle) in Hrun; by injection Hrun as <- <-.
Qed.

(** no operation of a registry empties a mailbox: an agent whose outbox
    is full can send nothing more, whatever is called. *)
Theorem full_outbox_is_final s x d cs a y pl :
  reachable clock_ns s → dget x (outboxes s) = Some d → deque_full d = true →
  ∃ e, (send a x y pl (after clock_ns cs s)).2 = Err e.
Proof.
  intros [Hok Hm]%registry_reachable_ok Hd Hf. set (R := λ s s' : Registry, mailboxes_ok s → mailboxes_ok s' ∧ (dget x (outboxes s) = Some d → dget x (outboxes s') = Some d)).
  assert (PreOrder R) as HR by (split; [done|intros s1 s2 s3 H12 H23 Hm1; destruct (H12 Hm1) as [Hm2 ?]; destruct (H23 Hm2); auto]).
  destruct (after_ind clock_ns R cs s) as [_ Hlast]; [|done|].
  - intros s1 s2 _ Hst Hm1. split; [by apply (step_mailboxes s1)|]. intros Hd1. destruct Hst as [Hq|d' _ Hn ->|key b _ Hown|m Hdel].
    + by rewrite (frame_outboxes _ _ (quiet_frame _ _ Hq)).
    + cbn. rewrite dget_put_ne; [done|]. intros ->. pose proof (ok_boxes s1 Hm1 (d_agent_id d')) as Hb. rewrite Hn in Hb. destruct Hb. congruence.
    + by rewrite (frame_outboxes _ _ (owned_frame _ _ _ _ Hown)).
    + destruct (dl_row _ _ _ Hdel) as (row & ib & ob & _ & _ & Ho & _ & Hfo & _ & ->). rewrite dget_put_ne; [done|]. intros ->. congruence.
  - destruct (Hlast Hm) as [_ Hd']. specialize (Hd' Hd). unfold send, mbind, prog_bind, get_state, of_result, raise_if.
    destruct (is_stale _ a) as [[]|]; [by eexists| |by eexists]. destruct (_ || _); [by eexists|]. unfold box. destruct (dget y _); [|by eexists].
    cbn. rewrite Hd'. rewrite Hf, orb_true_r. by eexists.
Qed.
End Properties.

(** ** The example *)

Lemma demo_registry_reachable : reachable (H := nfc_id) demo_clock demo_registry.
Proof. exists 500, demo_start, demo_calls. split; [reflexivity|]. vm_compute. reflexivity. Qed.

Lemma demo_current : assignments demo_registry !! (demo_task, "validating") = Some demo_assignment.
Proof. vm_compute. reflexivity. Qed.

Lemma demo_takes : takeover (H := nfc_id) demo_clock demo_task "validating" "rocq" (Some 2000) demo_registry = (demo_taken, Ok demo_successor).
Proof. vm_compute. reflexivity. Qed.

Lemma superseded_never_acts_witness :
  (∃ current, assignments (after (H := nfc_id) demo_clock [Heartbeat demo_task "validating" "dev" 2 None] demo_taken) !! (demo_task, "validating") = Some current ∧
     attempt demo_assignment < attempt current ∧ same_hash (H := nfc_id) demo_assignment current) ∨
  ∃ e, (send (H := nfc_id) demo_assignment "aud" "dev" [] (after (H := nfc_id) demo_clock [Heartbeat demo_task "validating" "dev" 2 None] demo_taken)).2 = Err e.
Proof.
  destruct (superseded_never_acts (H := nfc_id) demo_clock demo_registry demo_task "validating" "rocq" (Some 2000) demo_taken demo_assignment demo_successor
    [Heartbeat demo_task "validating" "dev" 2 None] demo_registry_reachable demo_current demo_takes) as [Hc|[Hs _]]; [left; exact Hc|right; exact (Hs "aud" "dev" [])].
Defined.

Lemma owners_invariant_witness : owners_ok demo_registry.
Proof. exact (owners_invariant (H := nfc_id) demo_clock demo_registry demo_registry_reachable). Defined.

Lemma mailboxes_invariant_witness : ∃ l, depths demo_registry (py_sorted (agents demo_registry).*1) = Ok l ∧ l.*1 = ["aud"; "dev"].
Proof. exact (proj2 (proj2 (mailboxes_invariant (H := nfc_id) demo_clock demo_registry demo_registry_reachable))). Defined.

Lemma takeover_exact_witness : attempt demo_successor = 2 ∧ agent_id demo_successor ≠ "aud".
Proof.
  pose proof (takeover_exact (H := nfc_id) demo_clock demo_registry demo_task "validating" "rocq" (Some 2000) demo_assignment
    (proj1 (registry_reachable_ok (H := nfc_id) demo_clock demo_registry demo_registry_reachable)) demo_current) as Ht.
  cbv zeta in Ht. rewrite demo_takes in Ht. destruct Ht as [(_ & _ & _ & (d & _ & _ & Hne) & Ha & _) _]. split; [exact Ha|exact Hne].
Defined.

Lemma full_outbox_is_final_witness :
  ∃ e, (send (H := nfc_id) demo_assignment "aud" "dev" [] (after (H := nfc_id) demo_clock [Receipt demo_assignment "aud" "accepted" []] demo_busy)).2 = Err e.
Proof.
  apply (full_outbox_is_final (H := nfc_id) demo_clock demo_busy "aud" demo_full_box).
  - exists 500, demo_start, (demo_calls ++ [Send demo_assignment "aud" "dev" [("note", Str "hi")]]). split; [reflexivity|]. vm_compute. reflexivity.
  - vm_compute. reflexivity.
  - reflexivity.
Defined.

(** ** What the code does not do *)

(** The takeover of a review may choose the implementer of the task, whom the
    assignment had excluded: only the owner that failed is excluded. *)
Lemma implementer_takes_over :
  agent_id demo_assignment = "aud" ∧ role demo_assignment ∈ INDEPENDENT_ROLES ∧
  agent_id demo_successor = "dev" ∧ role demo_successor = "review" ∧
  takeover (H := nfc_id) demo_clock demo_task "validating" "rocq" (Some 2000) demo_registry = (demo_taken, Ok demo_successor).
Proof.
  split; [reflexivity|]. split; [apply (bool_decide_unpack _); vm_compute; exact I|]. split; [reflexivity|]. split; [reflexivity|]. exact demo_takes.
Qed.

(** A heartbeat is not in the history: the hash that a later takeover gives as
    its predecessor's is that of no row. *)
Lemma heartbeat_breaks_history :
  length (history demo_renewed) = 2%nat ∧
  match last (history demo_renewed) with
  | Some row => existsb (λ r, Val.eq (Val.get "assignment_hash" r) (Val.get "previous_assignment_hash" row)) (history demo_renewed) = false
  | None => False
  end.
Proof. split; vm_compute; reflexivity. Qed.
