(* ===== verification/PrismScheduler.v ===== *)
(** The Prism scheduler ([simplicio_loop/prism_scheduler.py]): a hierarchical
    ready-set scheduler over an admission controller with a multi-dimensional
    budget, exclusive resources and reserved capacity. Dicts whose iteration
    order only feeds sets, sums and sorts are finite maps. *)
From stdpp Require Import pretty.
From S2P Require Import Prelude PyLib PyText PrismContracts.
Import Slot Ownership.
Local Open Scope Z_scope.
Local Open Scope py_scope.

(** * Definitions *)

Definition TASK_KINDS : list string := ["implementation"; "recovery"; "validation"; "review"; "integration"].
Definition TERMINAL : list string := ["accepted"; "failed"; "blocked"; "cancelled"].

(** The exceptions: the scheduler's, the contracts' and failing subscripts. *)
Inductive SchedulerExn : Type :=
| PrismSchedulerError (msg : string)
| ContractError (e : PrismExn)
| KeyError (key : string).

Notation scheduled := (result SchedulerExn).

Definition ensure (ok : bool) (msg : string) : scheduled unit :=
  if ok then Ok tt else Err (PrismSchedulerError msg).

Definition lift {A} (m : result PrismExn A) : scheduled A :=
  match m with Ok a => Ok a | Err e => Err (ContractError e) end.

(** [_positive], on integers. *)
Definition positive (v : Z) (name : string) (maximum : option Z) : scheduled unit :=
  let? _ := ensure (negb (v <? 1)) (name +:+ " must be a positive integer") in
  match maximum with
  | Some m => ensure (negb (m <? v)) (name +:+ " exceeds " +:+ pretty m)
  | None => Ok tt
  end.

Record PrismPolicy := mkPolicy {
  max_tasks_per_slot : Z;
  max_active_slots : option Z;
  global_worker_limit : Z;
  pp_max_depth : Z;
  adaptive_concurrency : bool;
  recovery_reserve : Z;
  validation_reserve : Z;
}.

(** [PrismPolicy.__post_init__] *)
Definition PrismPolicy_check (p : PrismPolicy) : scheduled unit :=
  let? _ := positive (max_tasks_per_slot p) "max_tasks_per_slot" None in
  let? _ := ensure (negb (max_tasks_per_slot p <? MIN_TASKS_PER_SLOT)) "max_tasks_per_slot must be at least 10" in
  let? _ := match max_active_slots p with
            | Some m => positive m "max_active_slots" None
            | None => Ok tt
            end in
  let? _ := positive (global_worker_limit p) "global_worker_limit" None in
  let? _ := positive (pp_max_depth p) "max_depth" (Some (Z.of_nat MAX_PRISM_DEPTH)) in
  let? _ := ensure (negb (Z.min (recovery_reserve p) (validation_reserve p) <? 0))
              "reserved capacity cannot be negative" in
  ensure (negb (global_worker_limit p <=? recovery_reserve p + validation_reserve p))
    "reserved capacity must leave an implementation worker".

(** ** Resources *)

Record ResourceVector := mkVector {
  workers : Z;
  cpu_millis : Z;
  rss_bytes : Z;
  io_units : Z;
  provider_requests : Z;
  tokens : Z;
  disk_bytes : Z;
  model_slots : Z;
  network_queue : Z;
  context_tokens : Z;
  evidence_bytes : Z;
}.
#[export] Instance ResourceVector_eta : Eta ResourceVector := λ v,
  mkVector (workers v) (cpu_millis v) (rss_bytes v) (io_units v) (provider_requests v) (tokens v)
    (disk_bytes v) (model_slots v) (network_queue v) (context_tokens v) (evidence_bytes v).

(** [dataclasses.asdict]: the fields in order. *)
Definition DIMENSIONS : list (string * (ResourceVector → Z)) :=
  [("workers", workers); ("cpu_millis", cpu_millis); ("rss_bytes", rss_bytes); ("io_units", io_units);
   ("provider_requests", provider_requests); ("tokens", tokens); ("disk_bytes", disk_bytes);
   ("model_slots", model_slots); ("network_queue", network_queue); ("context_tokens", context_tokens);
   ("evidence_bytes", evidence_bytes)].

(** [ResourceVector.__post_init__] raises nothing. *)
Definition valid_vector (v : ResourceVector) : bool :=
  forallb (λ '(_, get), negb (get v <? 0)) DIMENSIONS.

Definition plus (a b : ResourceVector) : ResourceVector :=
  mkVector (workers a + workers b) (cpu_millis a + cpu_millis b) (rss_bytes a + rss_bytes b)
    (io_units a + io_units b) (provider_requests a + provider_requests b) (tokens a + tokens b)
    (disk_bytes a + disk_bytes b) (model_slots a + model_slots b) (network_queue a + network_queue b)
    (context_tokens a + context_tokens b) (evidence_bytes a + evidence_bytes b).

(** [fits]: [None] when it fits, else the first dimension that does not; a
    zero ceiling is no ceiling. *)
Fixpoint first_pressure (dims : list (string * (ResourceVector → Z))) (v limit : ResourceVector) : option string :=
  match dims with
  | [] => None
  | (name, get) :: dims' =>
      if negb (get limit =? 0) && (get limit <? get v) then Some name else first_pressure dims' v limit
  end.
Definition fits (v limit : ResourceVector) : option string := first_pressure DIMENSIONS v limit.

Record BudgetObservation := mkObservation {
  limit : ResourceVector;
  measured : list string;
  unavailable : list string;
  null_reasons : list (string * string);
  provider_retry_after_ns : option Z;
  observed_at_ns : Z;
  device_workers : list (string * Z);
}.

(** [BudgetObservation.__post_init__] *)
Definition BudgetObservation_init (o : BudgetObservation) : scheduled BudgetObservation :=
  let? _ := ensure (match provider_retry_after_ns o with Some n => negb (n <? 0) | None => true end)
              "provider_retry_after_ns cannot be negative" in
  let? _ := ensure (forallb (λ '(n, _), bool_decide (n ∈ unavailable o)) (null_reasons o))
              "null_reasons require unavailable metrics" in
  let? _ := ensure (forallb (λ '(_, why), Str.truthy (Str.strip why)) (null_reasons o)) "empty null_reason" in
  let? _ := ensure (forallb (λ '(d, w), Str.truthy d && negb (w <? 1)) (device_workers o))
              "invalid device worker capacity" in
  Ok (mkObservation (limit o) (sorted_set (measured o)) (sorted_set (unavailable o)) (null_reasons o)
        (provider_retry_after_ns o) (observed_at_ns o) (device_workers o)).

(** ** Tasks *)

Record ScheduledTask := mkTask {
  st_task_id : string;
  st_slot_id : string;
  ownership : TaskOwnership;
  depends_on : list string;
  hard_conflicts : list string;
  soft_contention : list string;
  exclusive_resources : list string;
  priority : Z;
  kind : string;
  resources : ResourceVector;
}.

(** The stripped, non-empty values, without duplicates, sorted. *)
Definition clean (l : list string) : list string :=
  sorted_set (List.filter Str.truthy (Str.strip <$> l)).

(** [ScheduledTask.__post_init__] *)
Definition ScheduledTask_init (t : ScheduledTask) : scheduled ScheduledTask :=
  let? _ := ensure (String.eqb (st_task_id t) (task_id (ownership t))
                    && String.eqb (st_slot_id t) (o_slot_id (ownership t)))
              "task identity does not match ownership" in
  let deps := clean (depends_on t) in
  let hard := clean (hard_conflicts t) in
  let? _ := ensure (bool_decide (kind t ∈ TASK_KINDS)) "unknown task kind" in
  let? _ := ensure (negb (workers (resources t) <? 1)) "each active task consumes at least one worker" in
  let? _ := ensure (negb (bool_decide (st_task_id t ∈ deps) || bool_decide (st_task_id t ∈ hard)))
              "task cannot depend on or conflict with itself" in
  Ok (mkTask (st_task_id t) (st_slot_id t) (ownership t) deps hard (clean (soft_contention t))
        (clean (exclusive_resources t)) (priority t) (kind t) (resources t)).

(** ** The admission controller *)

(** What a decision rests on; the fields are the entries of its evidence. *)
Inductive Evidence : Type :=
| CapacityUnknown (ev_unavailable : list string) (ev_null : list (string * string)) (ev_limit : ResourceVector)
| RetryAfter (retry_after_ns : Z)
| Exclusive (ev_resources : list string)
| Reserved (implementation_active reserved_workers : Z)
| Pressure (ev_usage ev_limit : ResourceVector)
| Granted (ev_unavailable : list string) (ev_null : list (string * string)) (ev_limit : ResourceVector)
    (ev_device_workers : list (string * Z)).

Record AdmissionDecision := mkDecision {
  ad_task_id : string;
  ad_slot_id : string;
  ad_admitted : bool;
  ad_reason_code : string;
  ad_evidence : Evidence;
}.

Record AdmissionController := mkController {
  ac_policy : PrismPolicy;
  observation : BudgetObservation;
  active : gmap string ScheduledTask;
  per_slot : gmap string Z;
  exclusive : gmap string string;
  ac_decisions : list AdmissionDecision;
}.
#[export] Instance AdmissionController_eta : Eta AdmissionController := λ c,
  mkController (ac_policy c) (observation c) (active c) (per_slot c) (exclusive c) (ac_decisions c).

(** [AdmissionController.__init__] *)
Definition default_observation (p : PrismPolicy) : BudgetObservation :=
  mkObservation (mkVector (global_worker_limit p) 0 0 0 0 0 0 0 0 0 0) [] [] [] None 0 [].
Definition AdmissionController_init (p : PrismPolicy) (o : option BudgetObservation) : AdmissionController :=
  mkController p (default (default_observation p) o) ∅ ∅ ∅ [].

Definition update (c : AdmissionController) (o : BudgetObservation) : AdmissionController :=
  c <| observation := o |>.

Definition zero_vector : ResourceVector := mkVector 0 0 0 0 0 0 0 0 0 0 0.
Definition usage (c : AdmissionController) : ResourceVector :=
  foldl (λ u t, plus u (resources t)) zero_vector (map_to_list (active c)).*2.

Definition is_implementation (t : ScheduledTask) : bool := String.eqb (kind t) "implementation".

Definition effective_limit (o : BudgetObservation) : ResourceVector :=
  if bool_decide (unavailable o = []) then limit o
  else (limit o) <| workers := Z.min (workers (limit o)) 1 |>.

(** The verdict of [decide], before it is recorded. *)
Definition verdict (c : AdmissionController) (t : ScheduledTask) (now_ns : Z) : bool * string * Evidence :=
  let o := observation c in
  if bool_decide ("workers" ∈ unavailable o) then
    (false, "PHYSICAL_CAPACITY_UNAVAILABLE", CapacityUnknown (unavailable o) (null_reasons o) (limit o))
  else
    let retry :=
      match provider_retry_after_ns o with
      | Some n => if (now_ns <? n) && negb (provider_requests (resources t) =? 0) then Some n else None
      | None => None
      end in
    match retry with
    | Some n => (false, "PROVIDER_RETRY_AFTER", RetryAfter n)
    | None =>
        if existsb (λ r, bool_decide (is_Some (exclusive c !! r))) (exclusive_resources t) then
          (false, "EXCLUSIVE_RESOURCE_BUSY", Exclusive (exclusive_resources t))
        else
          let lim := effective_limit o in
          let implementation_active := mcount is_implementation (active c) in
          let reserve := recovery_reserve (ac_policy c) + validation_reserve (ac_policy c) in
          if is_implementation t && (Z.max 1 (workers lim - reserve) <=? implementation_active) then
            (false, "RESERVED_CAPACITY", Reserved implementation_active reserve)
          else
            let requested := plus (usage c) (resources t) in
            match fits requested lim with
            | Some dimension => (false, Text.upper dimension +:+ "_PRESSURE", Pressure requested lim)
            | None =>
                (true, if bool_decide (unavailable o = []) then "ADMITTED" else "METRIC_UNAVAILABLE_CONSERVATIVE",
                 Granted (unavailable o) (null_reasons o) lim (device_workers o))
            end
    end.

Definition decide_task (c : AdmissionController) (t : ScheduledTask) (now_ns : Z) :
    scheduled (AdmissionController * AdmissionDecision) :=
  let? _ := ensure (negb (bool_decide (is_Some (active c !! st_task_id t)))) "task is already physically active" in
  let '(ok, why, ev) := verdict c t now_ns in
  let d := mkDecision (st_task_id t) (st_slot_id t) ok why ev in
  Ok (c <| ac_decisions ::= (λ l, l ++ [d]) |>, d).

Definition acquire (c : AdmissionController) (t : ScheduledTask) (d : AdmissionDecision) :
    scheduled AdmissionController :=
  let? _ := ensure (ad_admitted d && String.eqb (ad_task_id d) (st_task_id t))
              "only the matching admitted decision may acquire" in
  let? _ := ensure (negb (bool_decide (is_Some (active c !! st_task_id t)))) "duplicate physical acquire" in
  Ok (c <| active ::= <[st_task_id t := t]> |>
        <| per_slot ::= <[st_slot_id t := get0 (per_slot c) (st_slot_id t) + 1]> |>
        <| exclusive ::= (λ m, foldl (λ m r, <[r := st_task_id t]> m) m (exclusive_resources t)) |>).

(** [release]: frees only the exclusive resources still held by the task. *)
Definition free_exclusive (tid : string) (m : gmap string string) (rs : list string) : gmap string string :=
  foldl (λ m r, if bool_decide (m !! r = Some tid) then delete r m else m) m rs.

Definition release (c : AdmissionController) (tid : string) : scheduled AdmissionController :=
  match active c !! tid with
  | None => Err (PrismSchedulerError "cannot release an inactive task")
  | Some t =>
      let? n := or_raise (per_slot c !! st_slot_id t) (KeyError (st_slot_id t)) in
      Ok (c <| active ::= delete tid |>
            <| per_slot ::= <[st_slot_id t := n - 1]> |>
            <| exclusive ::= (λ m, free_exclusive tid m (exclusive_resources t)) |>)
  end.

(** ** The scheduler *)

Record PrismScheduler := mkScheduler {
  policy : PrismPolicy;
  controller : AdmissionController;
  slots : gmap string SlotSupervisor;
  children : gmap string (gset string);
  tasks : gmap string ScheduledTask;
  states : gmap string string;
  queued_reasons : gmap string string;
  served : gmap string Z;
  decisions : list AdmissionDecision;
  max_overlap : Z;
  affected_ready_sets : gset string;
}.
#[export] Instance PrismScheduler_eta : Eta PrismScheduler := λ s,
  mkScheduler (policy s) (controller s) (slots s) (children s) (tasks s) (states s) (queued_reasons s)
    (served s) (decisions s) (max_overlap s) (affected_ready_sets s).

Definition PrismScheduler_init (p : PrismPolicy) (o : option BudgetObservation) : PrismScheduler :=
  mkScheduler p (AdmissionController_init p o) ∅ ∅ ∅ ∅ ∅ ∅ [] 0 ∅.

(** [parent_slot_id] when it is a non-empty string. *)
Definition parent_of (sl : SlotSupervisor) : option string :=
  match parent_slot_id sl with
  | Some p => if Str.truthy p then Some p else None
  | None => None
  end.

Definition register_slot (s : PrismScheduler) (sl : SlotSupervisor) : scheduled PrismScheduler :=
  let? _ := ensure (negb (bool_decide (is_Some (slots s !! slot_id sl)))) "duplicate slot" in
  let? _ := ensure (match max_active_slots (policy s) with
                    | Some m => negb (m <=? Z.of_nat (size (slots s)))
                    | None => true
                    end) "max_active_slots exceeded" in
  let? _ := ensure (negb (capacity sl <? max_tasks_per_slot (policy s)))
              "slot capacity is below scheduler minimum" in
  let? _ := ensure (match parent_of sl with
                    | Some p => bool_decide (is_Some (slots s !! p))
                    | None => true
                    end) "parent slot must be registered first" in
  let s := s <| slots ::= <[slot_id sl := sl]> |> in
  Ok (match parent_of sl with
      | Some p => s <| children ::= <[p := {[slot_id sl]} ∪ default ∅ (children s !! p)]> |>
      | None => s
      end).

Definition submit (s : PrismScheduler) (t : ScheduledTask) : scheduled (PrismScheduler * AdmissionReceipt) :=
  let? _ := ensure (negb (bool_decide (is_Some (tasks s !! st_task_id t)))) "duplicate task" in
  match slots s !! st_slot_id t with
  | None => Err (PrismSchedulerError "task references unknown slot")
  | Some sl =>
      let? _ := ensure (forallb (λ d, bool_decide (is_Some (tasks s !! d))) (depends_on t))
                  "dependency must be submitted first" in
      let? (updated, rc) := lift (admit_task sl (ownership t)) in
      let s := s <| tasks ::= <[st_task_id t := t]> |> <| states ::= <[st_task_id t := "queued"]> |> in
      Ok (if ar_admitted rc
          then s <| slots ::= <[slot_id sl := updated]> |>
                 <| queued_reasons ::= <[st_task_id t := "READY_CHECK_PENDING"]> |>
          else s <| queued_reasons ::= <[st_task_id t := ar_reason_code rc]> |>, rc)
  end.

(** [apply_delta]: the given tasks and those that depend on one of them. *)
Definition apply_delta (s : PrismScheduler) (ids : list string) : scheduled (PrismScheduler * list string) :=
  let? _ := ensure (forallb (λ i, bool_decide (is_Some (tasks s !! i))) ids) "delta references unknown tasks" in
  let dependants := st_task_id <$> List.filter (λ t, existsb (λ d, bool_decide (d ∈ ids)) (depends_on t))
                                     (map_to_list (tasks s)).*2 in
  let affected := sorted_set (ids ++ dependants) in
  Ok (s <| affected_ready_sets ::= union (list_to_set affected) |>, affected).

Definition ready (s : PrismScheduler) (t : ScheduledTask) : bool :=
  if negb (bool_decide (states s !! st_task_id t = Some "queued")) then false
  else if bool_decide (queued_reasons s !! st_task_id t = Some "SLOT_LOGICAL_CAPACITY") then false
  else if existsb (λ d, negb (bool_decide (states s !! d = Some "accepted"))) (depends_on t) then false
  else if existsb (λ h, bool_decide (is_Some (active (controller s) !! h))) (hard_conflicts t) then false
  else negb (existsb (λ a, bool_decide (st_task_id t ∈ hard_conflicts a)) (map_to_list (active (controller s))).*2).

(** The key [(served, -priority, slot_id, task_id)] of the ready set. *)
Definition ready_le (s : PrismScheduler) (x y : ScheduledTask) : Prop :=
  let kx := get0 (served s) (st_slot_id x) in let ky := get0 (served s) (st_slot_id y) in
  kx < ky ∨ (kx = ky ∧ (priority y < priority x ∨ (priority x = priority y ∧
    ((st_slot_id x ≠ st_slot_id y ∧ String.le (st_slot_id x) (st_slot_id y)) ∨
     (st_slot_id x = st_slot_id y ∧ String.le (st_task_id x) (st_task_id y)))))).
#[export] Instance ready_le_dec s x y : Decision (ready_le s x y).
Proof. unfold ready_le. apply _. Defined.

Definition ready_set (s : PrismScheduler) : list string :=
  st_task_id <$> merge_sort (ready_le s) (List.filter (ready s) (map_to_list (tasks s)).*2).

Fixpoint batch_loop (ids : list string) (s : PrismScheduler) (now_ns : Z) :
    scheduled (PrismScheduler * list ScheduledTask) :=
  match ids with
  | [] => Ok (s, [])
  | i :: ids' =>
      let? t := or_raise (tasks s !! i) (KeyError i) in
      if negb (ready s t) then batch_loop ids' (s <| queued_reasons ::= <[i := "HARD_CONFLICT_ACTIVE"]> |>) now_ns
      else
        let? (c, d) := decide_task (controller s) t now_ns in
        let s := s <| controller := c |> <| decisions ::= (λ l, l ++ [d]) |> in
        if negb (ad_admitted d) then
          batch_loop ids' (s <| queued_reasons ::= <[i := ad_reason_code d]> |>) now_ns
        else
          let? c := acquire (controller s) t d in
          let s := s <| controller := c |> <| states ::= <[i := "running"]> |> <| queued_reasons ::= delete i |>
                     <| served ::= <[st_slot_id t := get0 (served s) (st_slot_id t) + 1]> |> in
          let? (s', selected) := batch_loop ids' s now_ns in
          Ok (s', t :: selected)
  end.

Definition next_batch (s : PrismScheduler) (now_ns : Z) : scheduled (PrismScheduler * list ScheduledTask) :=
  let? (s', selected) := batch_loop (ready_set s) s now_ns in
  Ok (s' <| max_overlap ::= Z.max (Z.of_nat (size (active (controller s')))) |>, selected).

Definition complete (s : PrismScheduler) (i st agent : string) (fence_ : Z) : scheduled PrismScheduler :=
  let? _ := ensure (bool_decide (st ∈ TERMINAL)) "completion state must be terminal" in
  match tasks s !! i with
  | None => Err (PrismSchedulerError "task is not active")
  | Some t =>
      let? _ := ensure (bool_decide (states s !! i = Some "running")) "task is not active" in
      let? _ := ensure (String.eqb (owner_agent (ownership t)) agent && (fence (ownership t) =? fence_))
                  "stale or non-owner completion" in
      let? c := release (controller s) i in
      Ok (s <| controller := c |> <| states ::= <[i := st]> |>)
  end.

(** The [while frontier] loop of [cancel_slot]: every slot enters the frontier
    once, so one turn per registered slot and one to spare is enough. *)
Fixpoint closure (fuel : nat) (kids : gmap string (gset string)) (targets : gset string) (frontier : list string) :
    gset string :=
  match fuel, frontier with
  | S fuel', parent :: frontier' =>
      let fresh := List.filter (λ ch, negb (bool_decide (ch ∈ targets))) (elements (default ∅ (kids !! parent))) in
      closure fuel' kids (list_to_set fresh ∪ targets) (reverse fresh ++ frontier')
  | _, _ => targets
  end.

Fixpoint cancel_tasks (targets : gset string) (items : list (string * ScheduledTask)) (s : PrismScheduler) :
    scheduled (PrismScheduler * list string) :=
  match items with
  | [] => Ok (s, [])
  | (i, t) :: items' =>
      if negb (bool_decide (st_slot_id t ∈ targets)) then cancel_tasks targets items' s
      else
        let? st := or_raise (states s !! i) (KeyError i) in
        if bool_decide (st ∈ TERMINAL) then cancel_tasks targets items' s
        else
          let? c := if String.eqb st "running" then release (controller s) i else Ok (controller s) in
          let? (s', ids) := cancel_tasks targets items'
                              (s <| controller := c |> <| states ::= <[i := "cancelled"]> |>) in
          Ok (s', i :: ids)
  end.

Definition cancel_targets (s : PrismScheduler) (sid : string) : gset string :=
  closure (S (size (slots s))) (children s) {[sid]} [sid].

Definition cancel_slot (s : PrismScheduler) (sid : string) : scheduled (PrismScheduler * list string) :=
  let? _ := ensure (bool_decide (is_Some (slots s !! sid))) "unknown slot" in
  let? (s', ids) := cancel_tasks (cancel_targets s sid) (map_to_list (tasks s)) s in
  Ok (s', py_sorted ids).

(** ** Execution *)

(** How an external worker ends: returns a state, is cancelled, or raises. *)
Inductive WorkerOutcome : Type :=
| WReturned (st : string)
| WCancelled
| WFailed.

Definition outcome_state (o : WorkerOutcome) : string :=
  match o with
  | WReturned st => if bool_decide (st ∈ TERMINAL) then st else "failed"
  | WCancelled => "cancelled"
  | WFailed => "failed"
  end.

(** The run of a worker: the slots that are cancelled while it runs, by itself or
    by its host, and how it ends. *)
Record WorkerRun := mkRun { wr_cancels : list string; wr_outcome : WorkerOutcome }.

(** A call of [cancel_slot]; what it raises is its caller's affair. *)
Definition call_cancel (s : PrismScheduler) (sid : string) : PrismScheduler :=
  match cancel_slot s sid with Ok (s', _) => s' | Err _ => s end.

(** [run_one]: the worker runs, and its task is completed if it is still running. *)
Definition run_one (s : PrismScheduler) (t : ScheduledTask) (r : WorkerRun) : scheduled PrismScheduler :=
  let s := foldl call_cancel s (wr_cancels r) in
  if bool_decide (states s !! st_task_id t = Some "running") then
    complete s (st_task_id t) (outcome_state (wr_outcome r)) (owner_agent (ownership t)) (fence (ownership t))
  else Ok s.

(** A task group: its tasks end one after the other. *)
Fixpoint run_group (s : PrismScheduler) (batch : list ScheduledTask) (worker : ScheduledTask → WorkerRun) :
    scheduled PrismScheduler :=
  match batch with
  | [] => Ok s
  | t :: batch' => let? s' := run_one s t (worker t) in run_group s' batch' worker
  end.

Definition all_terminal (s : PrismScheduler) : bool :=
  forallb (λ st, bool_decide (st ∈ TERMINAL)) (map_to_list (states s)).*2.

(** The tasks still queued when nothing can start are blocked. *)
Definition block_task (s : PrismScheduler) (i : string) : PrismScheduler :=
  s <| states ::= <[i := "blocked"]> |> <| queued_reasons ::= <[i := "UNSATISFIED_DEPENDENCY_OR_BUDGET"]> |>.
Definition block_queued (s : PrismScheduler) : PrismScheduler :=
  foldl block_task s (map_to_list (filter (λ kv, kv.2 = "queued") (states s))).*1.

(** [execute]; [order] is the order in which the tasks of a group end and
    [clock] the time of each batch. Every batch ends a task, so one turn per
    task and one to spare is enough. *)
Fixpoint execute_loop (fuel : nat) (s : PrismScheduler) (worker : ScheduledTask → WorkerRun)
    (order : list ScheduledTask → list ScheduledTask) (clock : nat → Z) : scheduled PrismScheduler :=
  if all_terminal s then Ok s
  else
    match fuel with
    | O => Err (PrismSchedulerError "out of fuel")
    | S fuel' =>
        let? (s1, batch) := next_batch s (clock fuel') in
        match batch with
        | [] => Ok (block_queued s1)
        | _ :: _ =>
            let? s2 := run_group s1 (order batch) worker in
            execute_loop fuel' s2 worker order clock
        end
    end.

Definition execute (s : PrismScheduler) (worker : ScheduledTask → WorkerRun)
    (order : list ScheduledTask → list ScheduledTask) (clock : nat → Z) : scheduled PrismScheduler :=
  execute_loop (S (size (tasks s))) s worker order clock.

(** * Specification *)

Definition in_slot (sid : string) (t : ScheduledTask) : bool := String.eqb (st_slot_id t) sid.
Definition is_queued (st : string) : bool := String.eqb st "queued".

(** The scheduler never runs what it must not: a task is physically active
    exactly while it is running, what a running or an accepted task
    depends on has been accepted, no two
    active tasks are in hard conflict, and an exclusive resource is held by the
    one active task that uses it. *)
Record sched_wf (s : PrismScheduler) : Prop := {
  sw_task i t : tasks s !! i = Some t →
    st_task_id t = i ∧ i ∉ hard_conflicts t ∧ valid_vector (resources t) = true;
  sw_dom i : is_Some (states s !! i) ↔ is_Some (tasks s !! i);
  sw_state i st : states s !! i = Some st → st = "queued" ∨ st = "running" ∨ st ∈ TERMINAL;
  sw_active i t : active (controller s) !! i = Some t ↔ tasks s !! i = Some t ∧ states s !! i = Some "running";
  sw_deps i t d : active (controller s) !! i = Some t → d ∈ depends_on t → states s !! d = Some "accepted";
  sw_accepted i t d : tasks s !! i = Some t → states s !! i = Some "accepted" → d ∈ depends_on t →
    states s !! d = Some "accepted";
  sw_conflict i j t u : active (controller s) !! i = Some t → active (controller s) !! j = Some u →
    j ∉ hard_conflicts t;
  sw_exclusive i t r : active (controller s) !! i = Some t → r ∈ exclusive_resources t →
    exclusive (controller s) !! r = Some i;
  sw_per_slot i t : active (controller s) !! i = Some t → is_Some (per_slot (controller s) !! st_slot_id t);
}.

(** The active tasks fit the observed limit in every limited dimension, and the
    implementation tasks are no more than the workers left beside the reserve,
    or one. The code counts these tasks, not the workers each occupies. *)
Definition within_capacity (c : AdmissionController) : Prop :=
  (∀ n get, (n, get) ∈ DIMENSIONS → get (limit (observation c)) ≠ 0 →
     get (usage c) <= get (limit (observation c))) ∧
  mcount is_implementation (active c) <=
    Z.max 1 (workers (limit (observation c)) - (recovery_reserve (ac_policy c) + validation_reserve (ac_policy c))).

(** The workers the active implementation tasks occupy. *)
Definition implementation_workers (c : AdmissionController) : Z :=
  msum (λ t, if is_implementation t then workers (resources t) else 0) (active c).

(** The calls of the hosts of the scheduler; [steady] ones never change the
    observed budget. *)
Inductive sched_step (steady : bool) : PrismScheduler → PrismScheduler → Prop :=
| do_register s sl s' : register_slot s sl = Ok s' → sched_step steady s s'
| do_submit s t0 t s' rc : ScheduledTask_init t0 = Ok t → valid_vector (resources t) = true →
    submit s t = Ok (s', rc) → sched_step steady s s'
| do_delta s ids s' r : apply_delta s ids = Ok (s', r) → sched_step steady s s'
| do_next s now s' b : next_batch s now = Ok (s', b) → sched_step steady s s'
| do_complete s i st a f s' : complete s i st a f = Ok s' → sched_step steady s s'
| do_cancel s sid s' ids : cancel_slot s sid = Ok (s', ids) → sched_step steady s s'
| do_update s o : steady = false → valid_vector (limit o) = true →
    sched_step steady s (s <| controller ::= (λ c, update c o) |>).

Definition sched_reachable (steady : bool) (s : PrismScheduler) : Prop :=
  ∃ p o, PrismPolicy_check p = Ok tt ∧ (∀ ob, o = Some ob → valid_vector (limit ob) = true) ∧
    rtc (sched_step steady) (PrismScheduler_init p o) s.

(** No task is running outside a batch. *)
Definition quiescent (s : PrismScheduler) : Prop := ∀ i, states s !! i ≠ Some "running".

(** A registered child of a slot. *)
Definition child_of (kids : gmap string (gset string)) (p c : string) : Prop := c ∈ default ∅ (kids !! p).

#[export] Instance child_of_dec kids p c : Decision (child_of kids p c).
Proof. unfold child_of. apply _. Defined.

(** Every child is a registered slot. *)
Definition hierarchy_wf (s : PrismScheduler) : Prop := ∀ p c, child_of (children s) p c → is_Some (slots s !! c).

(** The loop's invariant: the frontier is part of the targets, the targets are
    below the root, and the rest of the targets have all their children in. *)
Definition closing (kids : gmap string (gset string)) (root : string) (targets : gset string) (frontier : list string) : Prop :=
  root ∈ targets ∧ (∀ x, x ∈ frontier → x ∈ targets) ∧ (∀ x, x ∈ targets → rtc (child_of kids) root x) ∧
  (∀ x c, x ∈ targets → x ∉ frontier → child_of kids x c → c ∈ targets).

(** What the loop ends in: every task is in a terminal state, or was running
    before the loop began and still is; the states that were terminal before are
    the same. *)
Definition ends (s s' : PrismScheduler) : Prop :=
  tasks s' = tasks s ∧
  (∀ i, is_Some (states s !! i) → is_Some (states s' !! i)) ∧
  (∀ i st, states s' !! i = Some st → st ∈ TERMINAL ∨ st = "running" ∧ states s !! i = Some "running") ∧
  (∀ i st, states s !! i = Some st → st ∈ TERMINAL → states s' !! i = Some st) ∧
  (∀ i t d, tasks s' !! i = Some t → states s' !! i = Some "accepted" → d ∈ depends_on t →
     states s' !! d = Some "accepted").

(** Tasks only end. *)
Definition advances (s s' : PrismScheduler) : Prop := ∀ i,
  states s' !! i = states s !! i ∨
  ∃ st st', states s !! i = Some st ∧ st ∉ TERMINAL ∧ states s' !! i = Some st' ∧ st' ∈ TERMINAL.

Definition ids (l : list ScheduledTask) : list string := st_task_id <$> l.

Definition steady_capacity (s s' : PrismScheduler) : Prop :=
  observation (controller s') = observation (controller s) ∧
  (within_capacity (controller s) → within_capacity (controller s')).

(** What a batch is: distinct queued tasks become running, nothing else moves. *)
Definition batch_of (s s' : PrismScheduler) (sel : list ScheduledTask) : Prop :=
  sched_wf s' ∧ tasks s' = tasks s ∧ slots s' = slots s ∧ NoDup (ids sel) ∧
  (∀ t, t ∈ sel → tasks s !! st_task_id t = Some t ∧ states s !! st_task_id t = Some "queued") ∧
  (∀ i, states s' !! i = if decide (i ∈ ids sel) then Some "running" else states s !! i) ∧
  mcount is_queued (states s') + Z.of_nat (length sel) = mcount is_queued (states s).

Definition observed (s : PrismScheduler) : Prop := 0 <= workers (limit (observation (controller s))).

(** The controller with one more active task. *)
Definition started (c : AdmissionController) (t : ScheduledTask) : AdmissionController :=
  c <| active ::= <[st_task_id t := t]> |>
    <| per_slot ::= <[st_slot_id t := get0 (per_slot c) (st_slot_id t) + 1]> |>
    <| exclusive ::= (λ m, foldl (λ m r, <[r := st_task_id t]> m) m (exclusive_resources t)) |>.

(** A run to check the theorems on: a slot with three tasks, of which the
    second depends on the first and the third conflicts with it. *)
Definition demo_policy : PrismPolicy := mkPolicy 10 None 4 3 true 1 1.
Definition demo_slot : SlotSupervisor := ok_or (Slot.mk "" "" 0 [] [] None [] "" "" "")
  (SlotSupervisor_init (Slot.mk "prism:x" "agent" 10 [] [] None [] "declared" "" SLOT_SCHEMA)).
Definition demo_child : SlotSupervisor := ok_or (Slot.mk "" "" 0 [] [] None [] "" "" "")
  (SlotSupervisor_init (Slot.mk "prism:x" "agent-2" 10 [] [] (Some (slot_id demo_slot)) [] "declared" "" SLOT_SCHEMA)).
Definition demo_owner (i sid : string) : TaskOwnership :=
  Ownership.mk i sid 1 "agent" "lease" 1 "gen" ["edit"] ["running"; "accepted"] None "queued" "" OWNERSHIP_SCHEMA.
Definition demo_draft (i sid : string) (deps hard ex : list string) : ScheduledTask :=
  mkTask i sid (demo_owner i sid) deps hard [] ex 0 "implementation" (mkVector 1 0 0 0 0 0 0 0 0 0 0).
Definition demo_a : ScheduledTask := demo_draft "a" (slot_id demo_slot) [] [] ["gpu"].
Definition demo_b : ScheduledTask := demo_draft "b" (slot_id demo_slot) ["a"] [] ["gpu"].
Definition demo_c : ScheduledTask := demo_draft "c" (slot_id demo_child) [] ["a"] [].

Definition demo_registered : PrismScheduler :=
  let s := ok_or (PrismScheduler_init demo_policy None) (register_slot (PrismScheduler_init demo_policy None) demo_slot) in
  ok_or s (register_slot s demo_child).
Definition demo_submit (s : PrismScheduler) (t : ScheduledTask) : PrismScheduler :=
  (ok_or (s, mkAdmission "" "" false "" 0 "") (submit s t)).1.
Definition demo_queued : PrismScheduler :=
  demo_submit (demo_submit (demo_submit demo_registered demo_a) demo_b) demo_c.
Definition demo_running : PrismScheduler := (ok_or (demo_queued, []) (next_batch demo_queued 0)).1.

(** The worker of [b] raises; the others end accepted, one after a cancellation that is refused. *)
Definition demo_worker (t : ScheduledTask) : WorkerRun :=
  if String.eqb (st_task_id t) "b" then mkRun [] WFailed else mkRun ["no-such-slot"] (WReturned "accepted").

(** An implementation task that takes all four workers. *)
Definition demo_wide : ScheduledTask :=
  mkTask "wide" (slot_id demo_slot) (demo_owner "wide" (slot_id demo_slot)) [] [] [] [] 0 "implementation" (mkVector 4 0 0 0 0 0 0 0 0 0 0).

(** * Lemmas *)

(** Two of the four workers are reserved, and one implementation task is given all four. *)
Example reserve_occupied :
  recovery_reserve demo_policy + validation_reserve demo_policy = 2 ∧
  (ad_admitted ∘ snd) <$> (match decide_task (AdmissionController_init demo_policy None) demo_wide 0 with Ok r => Some r | Err _ => None end) = Some true.
Proof. vm_compute. done. Qed.

Lemma ensure_Ok {A} b msg (k : unit → scheduled A) r :
  rbind (ensure b msg) k = Ok r ↔ b = true ∧ k tt = Ok r.
Proof. destruct b; simpl; naive_solver. Qed.

(** ** Resource vectors *)

Lemma get_plus n get a b : (n, get) ∈ DIMENSIONS → get (plus a b) = get a + get b.
Proof.
  unfold DIMENSIONS. intros H.
  repeat (apply elem_of_cons in H as [[= _ ->]|H]; [reflexivity|]). by apply not_elem_of_nil in H.
Qed.

Lemma get_zero n get : (n, get) ∈ DIMENSIONS → get zero_vector = 0.
Proof.
  unfold DIMENSIONS. intros H.
  repeat (apply elem_of_cons in H as [[= _ ->]|H]; [reflexivity|]). by apply not_elem_of_nil in H.
Qed.

Lemma valid_get n get v : valid_vector v = true → (n, get) ∈ DIMENSIONS → 0 <= get v.
Proof.
  unfold valid_vector. rewrite forallb_forall. intros H Hin. apply list_elem_of_In, H in Hin.
  apply negb_true_iff, Z.ltb_ge in Hin. done.
Qed.

Lemma get_usage c n get :
  (n, get) ∈ DIMENSIONS → get (usage c) = msum (λ t, get (resources t)) (active c).
Proof.
  intros Hin. unfold usage, msum. rewrite map_fold_foldr.
  assert (∀ l z, get (foldl (λ u t, plus u (resources t)) z l.*2) =
    get z + foldr (uncurry (λ (_ : string) t acc, get (resources t) + acc)) 0 l) as H.
  { induction l as [|[k t] l IH]; intros z; simpl; [lia|]. rewrite IH, (get_plus n) by done. lia. }
  rewrite H, (get_zero n) by done. reflexivity.
Qed.

Lemma first_pressure_None dims v lim :
  first_pressure dims v lim = None ↔ ∀ n get, (n, get) ∈ dims → get lim ≠ 0 → get v <= get lim.
Proof.
  induction dims as [|[n get] dims IH]; simpl.
  - split; [intros _ n get H; by apply not_elem_of_nil in H|done].
  - destruct (Z.eqb_spec (get lim) 0) as [H0|H0]; simpl;
      [|destruct (Z.ltb_spec (get lim) (get v)) as [Hlt|Hge]]; simpl.
    + rewrite IH. split; intros H n' get'; [|intros; apply (H n'); [by right|done]].
      intros [[= -> ->]|Hin]%elem_of_cons; [done|]. by apply (H n').
    + split; [done|]. intros H. specialize (H n get ltac:(by left) H0). lia.
    + rewrite IH. split; intros H n' get'; [|intros; apply (H n'); [by right|done]].
      intros [[= -> ->]|Hin]%elem_of_cons; [done|]. by apply (H n').
Qed.

(** ** Exclusive resources *)

Lemma hold_exclusive tid rs (m : gmap string string) r :
  foldl (λ m r, <[r := tid]> m) m rs !! r = if decide (r ∈ rs) then Some tid else m !! r.
Proof.
  revert m. induction rs as [|r' rs IH]; intros m; [done|]. simpl. rewrite IH.
  destruct (decide (r ∈ rs)) as [H|H].
  - by rewrite decide_True by (by right).
  - destruct (decide (r = r')) as [->|Hne].
    + rewrite lookup_insert_eq. by rewrite decide_True by (by left).
    + rewrite lookup_insert_ne by done. rewrite decide_False; [done|].
      by intros [?|?]%elem_of_cons.
Qed.

Lemma free_exclusive_other tid rs (m : gmap string string) r j :
  j ≠ tid → m !! r = Some j → free_exclusive tid m rs !! r = Some j.
Proof.
  unfold free_exclusive. intros Hj. revert m. induction rs as [|r' rs IH]; intros m Hm; [done|].
  simpl. apply IH. case_bool_decide as Hb; [|done].
  rewrite lookup_delete_ne; [done|]. intros ->. congruence.
Qed.

(** ** Starting and ending a task *)

Lemma sched_wf_ext s s' :
  tasks s' = tasks s → states s' = states s → active (controller s') = active (controller s) →
  exclusive (controller s') = exclusive (controller s) → per_slot (controller s') = per_slot (controller s) →
  sched_wf s → sched_wf s'.
Proof. intros E1 E2 E3 E4 E5 []. constructor; rewrite ?E1, ?E2, ?E3, ?E4, ?E5; done. Qed.

Lemma ready_spec s t :
  ready s t = true → states s !! st_task_id t = Some "queued" ∧
  (∀ d, d ∈ depends_on t → states s !! d = Some "accepted") ∧
  (∀ h, h ∈ hard_conflicts t → active (controller s) !! h = None) ∧
  (∀ j u, active (controller s) !! j = Some u → st_task_id t ∉ hard_conflicts u).
Proof.
  unfold ready. destruct (bool_decide (states s !! st_task_id t = Some "queued")) eqn:E1; [|done].
  apply bool_decide_eq_true_1 in E1. simpl. case_bool_decide; [done|].
  destruct (existsb _ (depends_on t)) eqn:E2; [done|].
  destruct (existsb _ (hard_conflicts t)) eqn:E3; [done|].
  intros E4%negb_true_iff. split; [done|]. rewrite <- not_true_iff_false in E2, E3, E4.
  rewrite existsb_exists in E2, E3, E4. split; [|split].
  - intros d Hd. destruct (decide (states s !! d = Some "accepted")) as [|Hn]; [done|].
    destruct E2. exists d. rewrite <- list_elem_of_In. split; [done|]. by rewrite bool_decide_eq_false_2.
  - intros h Hh. destruct (active (controller s) !! h) as [u|] eqn:Eu; [|done].
    destruct E3. exists h. rewrite <- list_elem_of_In. split; [done|]. rewrite Eu. done.
  - intros j u Hj Hin. destruct E4. exists u. rewrite <- list_elem_of_In. split.
    + apply list_elem_of_fmap. exists (j, u). split; [done|]. by apply elem_of_map_to_list.
    + by apply bool_decide_eq_true_2.
Qed.

Lemma verdict_admitted c t now why ev :
  verdict c t now = (true, why, ev) →
  (∀ r, r ∈ exclusive_resources t → exclusive c !! r = None) ∧
  (∀ n get, (n, get) ∈ DIMENSIONS → get (effective_limit (observation c)) ≠ 0 →
     get (plus (usage c) (resources t)) <= get (effective_limit (observation c))) ∧
  (is_implementation t = true → mcount is_implementation (active c) <
     Z.max 1 (workers (effective_limit (observation c)) -
              (recovery_reserve (ac_policy c) + validation_reserve (ac_policy c)))).
Proof.
  unfold verdict. case_bool_decide; [done|].
  destruct (match provider_retry_after_ns (observation c) with Some _ => _ | None => _ end); [done|].
  destruct (existsb _ (exclusive_resources t)) eqn:E1; [done|].
  destruct (is_implementation t && _) eqn:E2; [done|].
  destruct (fits _ _) eqn:E3; [done|]. intros _. split; [|split].
  - intros r Hr. rewrite <- not_true_iff_false, existsb_exists in E1.
    destruct (exclusive c !! r) eqn:Er; [|done]. destruct E1. exists r. rewrite <- list_elem_of_In.
    split; [done|]. rewrite Er. done.
  - by apply first_pressure_None.
  - intros Hi. rewrite Hi in E2. simpl in E2. by apply Z.leb_gt.
Qed.

Lemma wf_started s t :
  sched_wf s → tasks s !! st_task_id t = Some t → ready s t = true →
  (∀ r, r ∈ exclusive_resources t → exclusive (controller s) !! r = None) →
  sched_wf (s <| controller ::= (λ c, started c t) |> <| states ::= <[st_task_id t := "running"]> |>).
Proof.
  intros Hwf Ht (Hq & Hd & Hh & Hh')%ready_spec Hex. set (i := st_task_id t) in *.
  assert (active (controller s) !! i = None) as Hni.
  { destruct (active (controller s) !! i) as [u|] eqn:E; [|done].
    apply (sw_active s Hwf) in E as [_ E]. congruence. }
  destruct Hwf. constructor; simpl; fold i.
  - done.
  - intros j. rewrite lookup_insert. case_decide as E; [|done]. subst j. rewrite Ht.
    split; intros _; by eexists.
  - intros j st. rewrite lookup_insert. case_decide; [intros [= <-]; auto|eauto].
  - intros j u. rewrite !lookup_insert. case_decide as E; [|done].
    subst j. rewrite Ht. split; [by intros [= <-]|]. by intros [[= <-] _].
  - intros j u d. rewrite lookup_insert. case_decide as E.
    + intros [= <-] Hin. rewrite lookup_insert_ne; [by apply Hd|].
      intros <-. specialize (Hd i Hin). congruence.
    + intros Hj Hin. rewrite lookup_insert_ne; [by eapply sw_deps0|].
      intros <-. specialize (sw_deps0 j u i Hj Hin). congruence.
  - intros j u d Hu. rewrite lookup_insert. case_decide; [done|]. intros Hj Hin.
    specialize (sw_accepted0 j u d Hu Hj Hin). rewrite lookup_insert_ne; [done|]. intros <-. congruence.
  - intros j k u v. rewrite !lookup_insert. repeat case_decide; subst.
    + intros [= <-] [= <-]. by destruct (sw_task0 i t Ht) as (_ & ? & _).
    + intros [= <-] Hk Hin. apply Hh in Hin. congruence.
    + intros Hj [= <-]. by apply (Hh' j).
    + eauto.
  - intros j u r. rewrite lookup_insert. case_decide as E.
    + intros [= <-] Hr. subst j. rewrite hold_exclusive. by rewrite decide_True.
    + intros Hj Hr. rewrite hold_exclusive. rewrite decide_False; [eauto|].
      intros Hr'. specialize (sw_exclusive0 j u r Hj Hr). rewrite Hex in sw_exclusive0 by done. done.
  - intros j u. rewrite !lookup_insert. case_decide as E.
    + intros [= <-]. rewrite decide_True by done. by eexists.
    + intros Hj. case_decide; [by eexists|eauto].
Qed.

Lemma capacity_started c t :
  within_capacity c → active c !! st_task_id t = None →
  (∀ n get, (n, get) ∈ DIMENSIONS → get (effective_limit (observation c)) ≠ 0 →
     get (plus (usage c) (resources t)) <= get (effective_limit (observation c))) →
  (is_implementation t = true → mcount is_implementation (active c) <
     Z.max 1 (workers (effective_limit (observation c)) -
              (recovery_reserve (ac_policy c) + validation_reserve (ac_policy c)))) →
  0 <= workers (limit (observation c)) →
  within_capacity (started c t).
Proof.
  intros [Hd Hi] Hn Hfit Himp Hw.
  assert (∀ n get, (n, get) ∈ DIMENSIONS → get (limit (observation c)) ≠ 0 →
    get (effective_limit (observation c)) ≠ 0 ∧
    get (effective_limit (observation c)) <= get (limit (observation c))) as Heff.
  { intros n get Hin Hne. unfold effective_limit. case_bool_decide; [done|].
    unfold DIMENSIONS in Hin.
    apply elem_of_cons in Hin as [[= _ ->]|Hin]; [simpl; lia|].
    repeat (apply elem_of_cons in Hin as [[= _ ->]|Hin]; [split; [exact Hne|simpl; lia]|]).
    by apply not_elem_of_nil in Hin. }
  assert (workers (effective_limit (observation c)) <= workers (limit (observation c))) as Hwl.
  { unfold effective_limit. case_bool_decide; simpl; lia. }
  split.
  - intros n get Hin Hne. rewrite (get_usage _ n) by done. simpl. rewrite msum_insert by done.
    rewrite <- (get_usage c n) by done. destruct (Heff n get Hin Hne) as [Hne' Hle].
    specialize (Hfit n get Hin Hne'). rewrite (get_plus n) in Hfit by done. simpl in *. lia.
  - simpl. rewrite mcount_insert by done. destruct (is_implementation t); [|lia].
    specialize (Himp eq_refl). lia.
Qed.

(** Ending an active task keeps the rest as it was. *)
Lemma release_active s i t :
  sched_wf s → active (controller s) !! i = Some t →
  ∃ c, release (controller s) i = Ok c ∧ active c = delete i (active (controller s)) ∧
    observation c = observation (controller s) ∧ ac_policy c = ac_policy (controller s) ∧
    ∀ st, st ≠ "running" → (st = "queued" ∨ st ∈ TERMINAL) →
      sched_wf (s <| controller := c |> <| states ::= <[i := st]> |>).
Proof.
  intros Hwf Ht. destruct (sw_per_slot s Hwf i t Ht) as [n Hn]. unfold release. rewrite Ht, Hn. simpl.
  eexists. split; [reflexivity|]. split; [done|]. split; [done|]. split; [done|].
  intros st Hst Hst'. pose proof (proj1 (sw_active s Hwf i t) Ht) as [Htk Hr].
  destruct Hwf. constructor; simpl.
  - done.
  - intros j. rewrite lookup_insert. case_decide as E; [|done]. subst j. rewrite Htk.
    split; intros _; by eexists.
  - intros j st'. rewrite lookup_insert. case_decide; [intros [= <-]; naive_solver|eauto].
  - intros j u. rewrite lookup_insert, lookup_delete. case_decide as E; [|done].
    split; [done|]. intros [_ [= ?]]. done.
  - intros j u d [_ Hj]%lookup_delete_Some Hin. specialize (sw_deps0 j u d Hj Hin).
    rewrite lookup_insert_ne; [done|]. intros <-. congruence.
  - intros j u d Hu. rewrite lookup_insert. case_decide as E.
    + intros _ Hin. subst j. rewrite Htk in Hu. injection Hu as <-. specialize (sw_deps0 i t d Ht Hin).
      rewrite lookup_insert_ne; [done|]. intros <-. congruence.
    + intros Hj Hin. specialize (sw_accepted0 j u d Hu Hj Hin). rewrite lookup_insert_ne; [done|].
      intros <-. congruence.
  - intros j k u v [_ Hj]%lookup_delete_Some [_ Hk]%lookup_delete_Some. eauto.
  - intros j u r [Hne Hj]%lookup_delete_Some Hin. apply free_exclusive_other; [done|eauto].
  - intros j u [_ Hj]%lookup_delete_Some. rewrite lookup_insert. case_decide; [by eexists|eauto].
Qed.

Lemma capacity_released c c' i t :
  within_capacity c → active c !! i = Some t → valid_vector (resources t) = true →
  active c' = delete i (active c) → observation c' = observation c → ac_policy c' = ac_policy c →
  within_capacity c'.
Proof.
  intros [Hd Hi] Ht Hv Ha Ho Hp. unfold within_capacity. rewrite Ho, Hp, Ha. split.
  - intros n get Hin Hne. rewrite (get_usage _ n), Ha, (msum_delete _ _ i t) by done.
    rewrite <- (get_usage c n) by done. specialize (Hd n get Hin Hne).
    pose proof (valid_get n get _ Hv Hin). simpl in *. lia.
  - rewrite (mcount_delete _ _ i t) by done. destruct (is_implementation t); lia.
Qed.

(** ** Batches *)

Lemma batch_skip s s1 s' sel :
  tasks s1 = tasks s → states s1 = states s → slots s1 = slots s →
  batch_of s1 s' sel → batch_of s s' sel.
Proof. unfold batch_of. intros -> -> ->. done. Qed.

Lemma decide_task_Ok c t now :
  active c !! st_task_id t = None →
  ∃ ok why ev, verdict c t now = (ok, why, ev) ∧
    let d := mkDecision (st_task_id t) (st_slot_id t) ok why ev in
    decide_task c t now = Ok (c <| ac_decisions ::= (λ l, l ++ [d]) |>, d).
Proof.
  intros Hn. unfold decide_task. rewrite Hn. destruct (verdict c t now) as [[ok why] ev].
  by exists ok, why, ev.
Qed.

Lemma batch_loop_spec l s now :
  sched_wf s → (∀ i, i ∈ l → is_Some (tasks s !! i)) → 0 <= workers (limit (observation (controller s))) →
  ∃ s' sel, batch_loop l s now = Ok (s', sel) ∧ batch_of s s' sel ∧ steady_capacity s s'.
Proof.
  revert s. induction l as [|i l IH]; intros s Hwf Hl Hw.
  { exists s, []. split; [done|]. split; [|done]. split; [exact Hwf|]. do 2 (split; [done|]).
    split; [constructor|]. split; [|split].
    - intros t Ht. by apply not_elem_of_nil in Ht.
    - intros i. rewrite decide_False; [done|]. apply not_elem_of_nil.
    - simpl. lia. }
  destruct (Hl i ltac:(by left)) as [t Ht]. pose proof (sw_task s Hwf i t Ht) as (Hid & _ & _).
  assert (∀ j, j ∈ l → is_Some (tasks s !! j)) as Hl' by (intros j Hj; apply Hl; by right).
  cbn [batch_loop]. rewrite Ht. cbn [or_raise rbind].
  destruct (ready s t) eqn:Hr; cbn [negb].
  2:{ set (s1 := s <| queued_reasons ::= _ |>).
      assert (sched_wf s1) as Hwf1 by (by apply (sched_wf_ext s)).
      destruct (IH s1 Hwf1 Hl' Hw) as (s' & sel & -> & Hb & Hc). exists s', sel.
      split; [done|]. split; [by apply (batch_skip s s1)|done]. }
  pose proof (ready_spec s t Hr) as (Hq & _).
  assert (active (controller s) !! st_task_id t = None) as Hni.
  { destruct (active (controller s) !! st_task_id t) as [u|] eqn:E; [|done].
    apply (sw_active s Hwf) in E as [_ E]. congruence. }
  destruct (decide_task_Ok (controller s) t now Hni) as (ok & why & ev & Hv & ->). cbn [rbind ad_admitted ad_reason_code].
  set (d := mkDecision _ _ _ _ _). set (c := _ <| ac_decisions ::= _ |>).
  destruct ok; cbn [negb].
  2:{ set (s1 := s <| controller := c |> <| decisions ::= _ |> <| queued_reasons ::= _ |>).
      assert (sched_wf s1) as Hwf1 by (by apply (sched_wf_ext s)).
      destruct (IH s1 Hwf1 Hl' Hw) as (s' & sel & -> & Hb & Hc). exists s', sel.
      split; [done|]. split; [by apply (batch_skip s s1)|done]. }
  apply verdict_admitted in Hv as (Hex & Hfit & Himp).
  assert (acquire c t d = Ok (started c t)) as Hacq.
  { unfold acquire. unfold d at 1 2. cbn [ad_admitted ad_task_id]. rewrite String.eqb_refl.
    change (active c) with (active (controller s)). by rewrite Hni. }
  set (s0 := s <| controller := c |> <| decisions ::= _ |>).
  change (controller s0) with c. rewrite Hacq. cbn [rbind].
  assert (sched_wf s0) as Hwf0 by (by apply (sched_wf_ext s)).
  assert (tasks s0 !! st_task_id t = Some t) as Ht0 by (by rewrite Hid).
  pose proof (wf_started s0 t Hwf0 Ht0 Hr Hex) as Hwf1. rewrite Hid in Hwf1.
  set (s1 := s0 <| controller := started c t |> <| states ::= <[i := "running"]> |>
               <| queued_reasons ::= delete i |>
               <| served ::= <[st_slot_id t := get0 (served s0) (st_slot_id t) + 1]> |>).
  assert (sched_wf s1) as Hwf1' by (by apply (sched_wf_ext _ s1) in Hwf1).
  destruct (IH s1 Hwf1' Hl' Hw) as (s' & sel & Hrun & (Hb1 & Hb2 & Hb3 & Hb4 & Hb5 & Hb6 & Hb7) & Hc1 & Hc2).
  match goal with |- context [batch_loop l ?x now] => change x with s1 end. rewrite Hrun. cbn [rbind].
  assert (i ∉ ids sel) as Hi.
  { intros (u & Heq & Hu)%list_elem_of_fmap. destruct (Hb5 u Hu) as [_ Hbad].
    rewrite <- Heq in Hbad. simpl in Hbad. rewrite lookup_insert_eq in Hbad. done. }
  exists s', (t :: sel). split; [done|]. split.
  - split; [done|]. split; [done|]. split; [done|]. split; [|split; [|split]].
    + simpl. rewrite Hid. by constructor.
    + intros u [->|Hu]%elem_of_cons; [split; [by rewrite Hid|exact Hq]|].
      destruct (Hb5 u Hu) as [Hu1 Hu2]. split; [done|]. simpl in Hu2.
      rewrite lookup_insert_ne in Hu2; [done|]. intros ->. apply Hi. by apply list_elem_of_fmap_2.
    + intros j. rewrite Hb6. simpl. rewrite Hid. destruct (decide (j ∈ ids sel)) as [Hj|Hj].
      * by rewrite decide_True by (by right).
      * rewrite lookup_insert. case_decide as E.
        -- subst j. by rewrite decide_True by (by left).
        -- rewrite decide_False; [done|]. by intros [?|?]%elem_of_cons.
    + simpl length. rewrite Nat2Z.inj_succ.
      assert (mcount is_queued (states s1) = mcount is_queued (states s) - 1) as Hcnt.
      { unfold mcount. simpl. rewrite (msum_replace _ _ i "queued") by (by rewrite <- Hid). simpl. lia. }
      lia.
  - split; [done|]. intros Hcap. apply Hc2. simpl. by apply capacity_started.
Qed.

Lemma elem_of_ready_set s i : sched_wf s → i ∈ ready_set s → ∃ t, tasks s !! i = Some t ∧ ready s t = true.
Proof.
  intros Hwf (t & -> & Ht)%list_elem_of_fmap. rewrite (merge_sort_Permutation (ready_le s)) in Ht.
  apply list_elem_of_In, filter_In in Ht as [Ht Hr]. apply list_elem_of_In in Ht.
  apply list_elem_of_fmap in Ht as ([j u] & -> & Hin). apply elem_of_map_to_list in Hin. simpl in *.
  destruct (sw_task s Hwf j u Hin) as (-> & _). by exists u.
Qed.

Lemma next_batch_spec s now :
  sched_wf s → 0 <= workers (limit (observation (controller s))) →
  ∃ s' sel, next_batch s now = Ok (s', sel) ∧ batch_of s s' sel ∧ steady_capacity s s'.
Proof.
  intros Hwf Hw. unfold next_batch.
  destruct (batch_loop_spec (ready_set s) s now Hwf) as (s1 & sel & -> & Hb & Hc); [|done|].
  { intros i Hi. destruct (elem_of_ready_set s i Hwf Hi) as (t & ? & _). by eexists. }
  simpl. eexists _, sel. split; [reflexivity|]. split; [|done].
  destruct Hb as (H1 & H2 & H3 & H4 & H5 & H6 & H7). repeat (split; [done|]).
  split; [by apply (sched_wf_ext s1)|]. done.
Qed.

(** ** The other calls *)

Lemma complete_spec s i st a f s' :
  sched_wf s → complete s i st a f = Ok s' →
  st ∈ TERMINAL ∧ states s !! i = Some "running" ∧ sched_wf s' ∧ tasks s' = tasks s ∧
  states s' = <[i := st]> (states s) ∧ steady_capacity s s'.
Proof.
  intros Hwf H. unfold complete in H. rewrite ensure_Ok in H. destruct H as [Hst%bool_decide_eq_true_1 H].
  destruct (tasks s !! i) as [t|] eqn:Ht; [|done]. rewrite !ensure_Ok in H.
  destruct H as (Hr%bool_decide_eq_true_1 & _ & H).
  assert (active (controller s) !! i = Some t) as Ha by (by apply (sw_active s Hwf)).
  destruct (release_active s i t Hwf Ha) as (c & Hc & Hac & Hob & Hpo & Hnew). rewrite Hc in H. simpl in H.
  injection H as <-. split; [done|]. split; [done|]. split.
  { apply Hnew; [|by right]. intros ->. unfold TERMINAL in Hst.
    repeat (apply elem_of_cons in Hst as [Hst|Hst]; [done|]). by apply not_elem_of_nil in Hst. }
  split; [done|]. split; [done|]. split; [done|]. intros Hcap. simpl.
  destruct (sw_task s Hwf i t Ht) as (_ & _ & Hv). by eapply capacity_released.
Qed.

Lemma cancelled_terminal : "cancelled" ∈ TERMINAL ∧ "cancelled" ≠ "running".
Proof. split; [|done]. unfold TERMINAL. set_solver. Qed.

Lemma wf_cancel_waiting s i t :
  sched_wf s → tasks s !! i = Some t → states s !! i = Some "queued" →
  sched_wf (s <| states ::= <[i := "cancelled"]> |>).
Proof.
  intros Hwf Ht Hq. destruct Hwf. constructor; simpl; try done.
  - intros j. rewrite lookup_insert. case_decide as E; [|done]. subst j. rewrite Ht. split; intros _; by eexists.
  - intros j st. rewrite lookup_insert. case_decide; [intros [= <-]; right; right; apply cancelled_terminal|eauto].
  - intros j u. rewrite sw_active0, lookup_insert. case_decide as E; [|done]. subst j. split; [|naive_solver].
    intros [_ ?]. congruence.
  - intros j u d Hj Hin. specialize (sw_deps0 j u d Hj Hin). rewrite lookup_insert_ne; [done|].
    intros <-. congruence.
  - intros j u d Hu. rewrite lookup_insert. case_decide; [done|]. intros Hj Hin.
    specialize (sw_accepted0 j u d Hu Hj Hin). rewrite lookup_insert_ne; [done|]. intros <-. congruence.
Qed.

Lemma cancel_tasks_spec targets items s :
  sched_wf s → (∀ i t, (i, t) ∈ items → tasks s !! i = Some t) →
  ∃ s' l, cancel_tasks targets items s = Ok (s', l) ∧ sched_wf s' ∧ tasks s' = tasks s ∧
    steady_capacity s s' ∧
    (∀ i, i ∈ l → ∃ t, (i, t) ∈ items ∧ st_slot_id t ∈ targets) ∧
    (∀ i t, (i, t) ∈ items → st_slot_id t ∈ targets → ∃ st, states s' !! i = Some st ∧ st ∈ TERMINAL) ∧
    (∀ i st, states s !! i = Some st → st ∈ TERMINAL → states s' !! i = Some st).
Proof.
  revert s. induction items as [|[i t] items IH]; intros s Hwf Hit.
  { exists s, []. split; [done|]. repeat (split; [done|]). split; [|split]; [| |done].
    - intros i Hi. by apply not_elem_of_nil in Hi.
    - intros i t H. by apply not_elem_of_nil in H. }
  assert (∀ j u, (j, u) ∈ items → tasks s !! j = Some u) as Hit' by (intros j u Hj; apply Hit; by right).
  pose proof (Hit i t ltac:(by left)) as Ht.
  cbn [cancel_tasks]. destruct (decide (st_slot_id t ∈ targets)) as [Hin|Hout].
  2:{ rewrite bool_decide_eq_false_2 by done. cbn [negb].
      destruct (IH s Hwf Hit') as (s' & l & Hrun & H1 & H2 & H3 & H4 & H5 & H6). exists s', l.
      do 4 (split; [done|]). split; [|split; [|done]].
      - intros j Hj. destruct (H4 j Hj) as (u & Hu & ?). exists u. split; [by right|done].
      - intros j u [[= -> ->]|Hj]%elem_of_cons Hu; [done|eauto]. }
  rewrite bool_decide_eq_true_2 by done. cbn [negb].
  destruct (proj2 (sw_dom s Hwf i) ltac:(by eexists)) as [st Hst]. rewrite Hst. cbn [or_raise rbind].
  case_bool_decide as Hterm.
  { destruct (IH s Hwf Hit') as (s' & l & Hrun & H1 & H2 & H3 & H4 & H5 & H6). exists s', l.
    do 4 (split; [done|]). split; [|split; [|done]].
    - intros j Hj. destruct (H4 j Hj) as (u & Hu & ?). exists u. split; [by right|done].
    - intros j u [[= -> ->]|Hj]%elem_of_cons Hu; [|eauto]. exists st. split; [by apply H6|done]. }
  assert (∃ c, (if String.eqb st "running" then release (controller s) i else Ok (controller s)) = Ok c ∧
    let s1 := s <| controller := c |> <| states ::= <[i := "cancelled"]> |> in
    sched_wf s1 ∧ steady_capacity s s1) as (c & -> & Hwf1 & Hc1).
  { destruct (String.eqb_spec st "running") as [->|Hnr].
    - assert (active (controller s) !! i = Some t) as Ha by (by apply (sw_active s Hwf)).
      destruct (release_active s i t Hwf Ha) as (c & Hc & Hac & Hob & Hpo & Hnew). exists c.
      split; [done|]. split; [apply Hnew; [|right]; apply cancelled_terminal|]. split; [done|].
      intros Hcap. simpl. destruct (sw_task s Hwf i t Ht) as (_ & _ & Hv). by eapply capacity_released.
    - exists (controller s). split; [done|]. split; [|done].
      assert (st = "queued") as -> by (destruct (sw_state s Hwf i st Hst) as [?|[?|?]]; done).
      pose proof (wf_cancel_waiting s i t Hwf Ht Hst) as H. by destruct s. }
  cbn [rbind]. set (s1 := s <| controller := c |> <| states ::= _ |>) in *.
  destruct (IH s1 Hwf1 Hit') as (s' & l & -> & H1 & H2 & H3 & H4 & H5 & H6). cbn [rbind].
  exists s', (i :: l). split; [done|]. split; [done|]. split; [done|]. split.
  { destruct Hc1 as [Ho1 Hc1], H3 as [Ho3 Hc3]. split; [congruence|auto]. }
  assert (states s' !! i = Some "cancelled") as Hic.
  { apply H6; [simpl; apply lookup_insert_eq|apply cancelled_terminal]. }
  split; [|split].
  - intros j [->|Hj]%elem_of_cons; [exists t; split; [by left|done]|].
    destruct (H4 j Hj) as (u & Hu & ?). exists u. split; [by right|done].
  - intros j u [[= -> ->]|Hj]%elem_of_cons Hu; [|eauto]. exists "cancelled". split; [done|apply cancelled_terminal].
  - intros j st' Hj Hst'. apply H6; [|done]. simpl. rewrite lookup_insert_ne; [done|].
    intros <-. congruence.
Qed.

(** What a cancellation leaves alone and what it reports. *)
Lemma cancel_tasks_others targets items s s' l :
  NoDup items.*1 → cancel_tasks targets items s = Ok (s', l) →
  (∀ i, i ∈ l ↔ ∃ t st, (i, t) ∈ items ∧ st_slot_id t ∈ targets ∧ states s !! i = Some st ∧ st ∉ TERMINAL) ∧
  (∀ i, states s' !! i = if decide (i ∈ l) then Some "cancelled" else states s !! i).
Proof.
  revert s l. induction items as [|[i t] items IH]; intros s l Hnd H; cbn [cancel_tasks] in H.
  { injection H as <- <-. split; [|intros i; symmetry; apply decide_False, not_elem_of_nil].
    intros i. split; [intros Hi; by apply not_elem_of_nil in Hi|].
    intros (t & st & Hin & _). by apply not_elem_of_nil in Hin. }
  apply NoDup_cons in Hnd as [Hni Hnd].
  destruct (negb (bool_decide (st_slot_id t ∈ targets))) eqn:Hin.
  { apply negb_true_iff, bool_decide_eq_false_1 in Hin. destruct (IH _ _ Hnd H) as [H1 H2]. split; [|done].
    intros j. rewrite H1. split; [intros (u & st & Hj & Hu); exists u, st; split; [by right|done]|].
    intros (u & st & [[= -> ->]|Hj]%elem_of_cons & Hu & Hst); [done|by exists u, st]. }
  apply negb_false_iff, bool_decide_eq_true_1 in Hin. apply rbind_Ok in H as (st & Hst & H).
  destruct (states s !! i) as [st'|] eqn:Hsi; [|done]. injection Hst as ->.
  case_bool_decide as Hterm.
  { destruct (IH _ _ Hnd H) as [H1 H2]. split; [|done]. intros j. rewrite H1. split; [intros (u & st' & Hj & Hu); exists u, st'; split; [by right|done]|].
    intros (u & st' & [[= -> ->]|Hj]%elem_of_cons & Hu & Hst' & Hnt); [congruence|by exists u, st']. }
  apply rbind_Ok in H as (c & _ & H). apply rbind_Ok in H as ([s1 l1] & H & H').
  injection H' as <- <-. destruct (IH _ _ Hnd H) as [H1 H2]. simpl in H1, H2. split.
  - intros j. rewrite elem_of_cons, H1. split.
    + intros [->|(u & st' & Hj & Hu & Hst' & Hnt)]; [exists t, st; split; [by left|done]|].
      exists u, st'. split; [by right|]. rewrite lookup_insert_ne in Hst'; [done|].
      intros ->. apply Hni. apply list_elem_of_fmap. by exists (j, u).
    + intros (u & st' & [[= -> ->]|Hj]%elem_of_cons & Hu & Hst' & Hnt); [by left|]. right.
      exists u, st'. rewrite lookup_insert_ne; [done|].
      intros ->. apply Hni. apply list_elem_of_fmap. by exists (j, u).
  - intros j. rewrite H2. rewrite lookup_insert. destruct (decide (j ∈ l1)) as [Hj|Hj].
    + by rewrite decide_True by (by right).
    + case_decide as E.
      * subst. by rewrite decide_True by (by left).
      * rewrite decide_False; [done|]. by intros [?|?]%elem_of_cons.
Qed.

Lemma submit_spec s t s' rc :
  sched_wf s → st_task_id t ∉ hard_conflicts t → valid_vector (resources t) = true →
  submit s t = Ok (s', rc) → sched_wf s' ∧ controller s' = controller s.
Proof.
  intros Hwf Hnc Hv H. unfold submit in H. rewrite ensure_Ok in H.
  destruct H as [Hn%negb_true_iff%bool_decide_eq_false_1 H]. rewrite <- eq_None_not_Some in Hn.
  destruct (slots s !! st_slot_id t) as [sl|]; [|done]. rewrite ensure_Ok in H. destruct H as [_ H].
  apply rbind_Ok in H as ([updated rc'] & _ & H). cbn zeta in H.
  assert (states s !! st_task_id t = None) as Hns.
  { apply eq_None_not_Some. intros Hs. apply (sw_dom s Hwf) in Hs as [? ?]. congruence. }
  set (s1 := s <| tasks ::= <[st_task_id t := t]> |> <| states ::= <[st_task_id t := "queued"]> |>) in *.
  assert (sched_wf s1) as Hwf'.
  { destruct Hwf. constructor; simpl; try done.
    - intros j u. rewrite lookup_insert. case_decide; [intros [= <-]; by subst|eauto].
    - intros j. rewrite !lookup_insert. case_decide; [split; intros _; by eexists|done].
    - intros j st. rewrite lookup_insert. case_decide; [intros [= <-]; by left|eauto].
    - intros j u. rewrite sw_active0, !lookup_insert. case_decide as E; [|done]. subst j.
      split; [intros [? _]; congruence|naive_solver].
    - intros j u d Hj Hin. specialize (sw_deps0 j u d Hj Hin). rewrite lookup_insert_ne; [done|].
      intros <-. congruence.
    - intros j u d. rewrite !lookup_insert. case_decide; [done|]. intros Hu Hj Hin.
      specialize (sw_accepted0 j u d Hu Hj Hin). rewrite decide_False; [done|]. intros <-. congruence. }
  destruct (ar_admitted rc'); injection H as <- _; (split; [|done]);
    match goal with |- sched_wf ?x =>
      exact (sched_wf_ext s1 x eq_refl eq_refl eq_refl eq_refl eq_refl Hwf') end.
Qed.

Lemma sched_step_inv steady s s' :
  sched_wf s → observed s → sched_step steady s s' →
  sched_wf s' ∧ (steady_capacity s s' ∨ (steady = false ∧ observed s')).
Proof.
  intros Hwf Hob Hs.
  destruct Hs as [s sl s' H|s t0 t s' rc Ht Hv H|s l s' r H|s now s' b H|s i st a f s' H|s sid s' l H|s o Hf Hov].
  - unfold register_slot in H. rewrite !ensure_Ok in H. destruct H as (_ & _ & _ & _ & H).
    injection H as <-. split; [destruct (parent_of sl); by apply (sched_wf_ext s)|].
    left. by destruct (parent_of sl).
  - destruct (submit_spec s t s' rc Hwf) as [Hwf' Hc]; [|done|done|].
    + unfold ScheduledTask_init in Ht. rewrite !ensure_Ok in Ht. destruct Ht as (_ & _ & _ & Hself & Ht).
      injection Ht as <-. simpl. apply negb_true_iff, orb_false_iff in Hself as [_ Hself].
      by apply bool_decide_eq_false_1 in Hself.
    + split; [done|]. left. unfold steady_capacity. by rewrite Hc.
  - unfold apply_delta in H. rewrite ensure_Ok in H. destruct H as [_ H]. injection H as <- _.
    split; [by apply (sched_wf_ext s)|by left].
  - destruct (next_batch_spec s now Hwf Hob) as (s1 & sel & Hn & (Hwf' & _) & Hc).
    rewrite H in Hn. injection Hn as -> ->. split; [done|]. by left.
  - apply complete_spec in H as (_ & _ & Hwf' & _ & _ & Hc); [|done]. split; [done|]. by left.
  - unfold cancel_slot in H. rewrite ensure_Ok in H. destruct H as [_ H].
    destruct (cancel_tasks_spec (cancel_targets s sid) (map_to_list (tasks s)) s Hwf)
      as (s1 & l1 & Hrun & Hwf' & _ & Hc & _).
    { intros i t Hin. by apply elem_of_map_to_list. }
    rewrite Hrun in H. simpl in H. injection H as <- _. split; [done|]. by left.
  - split; [by apply (sched_wf_ext s)|]. right. split; [done|]. unfold observed. simpl.
    apply (valid_get "workers" workers _ Hov). by left.
Qed.

Lemma wf_scheduler_init p o : sched_wf (PrismScheduler_init p o).
Proof. constructor; simpl; intros *; rewrite ?lookup_empty; naive_solver. Qed.

Lemma policy_workers p : PrismPolicy_check p = Ok tt → 1 <= global_worker_limit p.
Proof.
  unfold PrismPolicy_check, positive. intros Hp.
  do 3 (apply rbind_Ok in Hp as (? & _ & Hp)). apply rbind_Ok in Hp as (? & Hp & _).
  rewrite ensure_Ok in Hp. destruct Hp as [Hp%negb_true_iff%Z.ltb_ge _]. done.
Qed.

Lemma default_valid p : 1 <= global_worker_limit p → valid_vector (limit (default_observation p)) = true.
Proof.
  intros H. unfold valid_vector. apply forallb_forall. intros [n get] Hin%list_elem_of_In.
  apply negb_true_iff, Z.ltb_ge. unfold DIMENSIONS in Hin.
  repeat (apply elem_of_cons in Hin as [[= _ ->]|Hin]; [simpl; lia|]). by apply not_elem_of_nil in Hin.
Qed.

Lemma capacity_init p o :
  PrismPolicy_check p = Ok tt → (∀ ob, o = Some ob → valid_vector (limit ob) = true) →
  within_capacity (AdmissionController_init p o) ∧ observed (PrismScheduler_init p o).
Proof.
  intros Hp%policy_workers Ho.
  assert (valid_vector (limit (default (default_observation p) o)) = true) as Hv.
  { destruct o as [ob|]; [by apply Ho|by apply default_valid]. }
  split; [split|].
  - intros n get Hin Hne. rewrite (get_usage _ n) by done. exact (valid_get n get _ Hv Hin).
  - change (0 <= Z.max 1 (workers (limit (default (default_observation p) o))
      - (recovery_reserve p + validation_reserve p))). lia.
  - apply (valid_get "workers" workers _ Hv). by left.
Qed.

(** ** Execution *)

Lemma outcome_terminal o : outcome_state o ∈ TERMINAL ∧ outcome_state o ≠ "running".
Proof.
  destruct o; simpl; [case_bool_decide as H|..]; (split; [first [exact H|unfold TERMINAL; set_solver]|]); try done.
  intros ->. unfold TERMINAL in H. set_solver.
Qed.

Lemma terminal_not_waiting st : st ∈ TERMINAL → is_queued st = false ∧ st ≠ "running".
Proof. unfold TERMINAL. intros H. repeat (apply elem_of_cons in H as [->|H]; [done|]). by apply not_elem_of_nil in H. Qed.

Lemma advances_refl s : advances s s.
Proof. intros i. by left. Qed.

Lemma advances_trans s1 s2 s3 : advances s1 s2 → advances s2 s3 → advances s1 s3.
Proof.
  intros H12 H23 i. destruct (H23 i) as [->|(st & st' & Hs & Hn & Hs' & Ht)]; [apply H12|].
  destruct (H12 i) as [<-|(st0 & st1 & H0 & Hn0 & H1 & Ht1)]; [by right; exists st, st'|]. congruence.
Qed.

Lemma advances_terminal s s' i st : advances s s' → states s !! i = Some st → st ∈ TERMINAL → states s' !! i = Some st.
Proof. intros Ha Hi Ht. destruct (Ha i) as [->|(st0 & st' & H0 & Hn & _)]; [done|congruence]. Qed.

Lemma mcount_le {A} (P : A → bool) (m1 m2 : gmap string A) :
  (∀ i x, m1 !! i = Some x → P x = true → ∃ y, m2 !! i = Some y ∧ P y = true) → mcount P m1 <= mcount P m2.
Proof.
  revert m2. induction m1 as [|i x m1 Hi IH] using map_ind; intros m2 H.
  { rewrite mcount_none by (intros i x; by rewrite lookup_empty). apply mcount_nonneg. }
  rewrite mcount_insert by done. destruct (P x) eqn:HP.
  - destruct (H i x) as (y & Hy & HPy); [by rewrite lookup_insert_eq|done|].
    specialize (IH (delete i m2)). rewrite (mcount_delete P m2 i y Hy), HPy in IH.
    enough (mcount P m1 <= mcount P m2 - 1) by lia. apply IH. intros j z Hj Hz.
    assert (j ≠ i) by congruence. destruct (H j z) as (w & Hw & ?); [by rewrite lookup_insert_ne|done|].
    exists w. by rewrite lookup_delete_ne.
  - enough (mcount P m1 <= mcount P m2) by lia. apply IH. intros j z Hj Hz. apply (H j z); [|done].
    rewrite lookup_insert_ne; [done|congruence].
Qed.

Lemma advances_queued s s' : advances s s' → mcount is_queued (states s') <= mcount is_queued (states s).
Proof.
  intros Ha. apply mcount_le. intros i st Hi Hq. destruct (Ha i) as [E|(st0 & st' & _ & _ & Hs' & Ht)].
  - exists st. by rewrite <- E.
  - rewrite Hi in Hs'. injection Hs' as ->. apply terminal_not_waiting in Ht as [Ht _]. congruence.
Qed.

Lemma call_cancel_spec s sid : sched_wf s →
  sched_wf (call_cancel s sid) ∧ tasks (call_cancel s sid) = tasks s ∧ steady_capacity s (call_cancel s sid) ∧
  advances s (call_cancel s sid).
Proof.
  intros Hwf. unfold call_cancel, cancel_slot. destruct (bool_decide (is_Some (slots s !! sid))); cbn [ensure rbind];
    [|by split; [|split; [|split; [|apply advances_refl]]]].
  destruct (cancel_tasks_spec (cancel_targets s sid) (map_to_list (tasks s)) s Hwf)
    as (s1 & l1 & Hrun & Hwf' & Ht & Hc & _).
  { intros i t Hin. by apply elem_of_map_to_list. }
  destruct (cancel_tasks_others _ _ _ _ _ (NoDup_fst_map_to_list _) Hrun) as [H1 H2].
  rewrite Hrun. cbn [rbind]. split; [done|]. split; [done|]. split; [done|]. intros i. rewrite H2.
  case_decide as Hi; [right|by left]. apply H1 in Hi as (t & st & _ & _ & Hst & Hn). exists st, "cancelled".
  do 3 (split; [done|]). apply cancelled_terminal.
Qed.

Lemma call_cancels_spec sids s : sched_wf s →
  let s' := foldl call_cancel s sids in
  sched_wf s' ∧ tasks s' = tasks s ∧ steady_capacity s s' ∧ advances s s'.
Proof.
  revert s. induction sids as [|sid sids IH]; intros s Hwf; cbn [foldl]; [by split; [|split; [|split; [|apply advances_refl]]]|].
  destruct (call_cancel_spec s sid Hwf) as (Hwf1 & Ht1 & [Ho1 Hc1] & Ha1).
  destruct (IH _ Hwf1) as (Hwf2 & Ht2 & [Ho2 Hc2] & Ha2). split; [done|]. split; [congruence|].
  split; [split; [congruence|auto]|by eapply advances_trans].
Qed.

(** A worker that ends leaves its task ended. *)
Lemma run_one_spec s t r :
  sched_wf s → tasks s !! st_task_id t = Some t →
  (∃ st, states s !! st_task_id t = Some st ∧ (st = "running" ∨ st ∈ TERMINAL)) →
  ∃ s', run_one s t r = Ok s' ∧ sched_wf s' ∧ tasks s' = tasks s ∧ steady_capacity s s' ∧ advances s s' ∧
    ∃ st, states s' !! st_task_id t = Some st ∧ st ∈ TERMINAL.
Proof.
  intros Hwf Ht (st & Hst & Hcase). destruct (outcome_terminal (wr_outcome r)) as [Hterm Hnr].
  destruct (call_cancels_spec (wr_cancels r) s Hwf) as (Hwf1 & Ht1 & [Ho1 Hc1] & Ha1).
  unfold run_one. set (s1 := foldl call_cancel s (wr_cancels r)) in *. rewrite <- Ht1 in Ht.
  assert (∃ st1, states s1 !! st_task_id t = Some st1 ∧ (st1 = "running" ∨ st1 ∈ TERMINAL)) as (st1 & Hst1 & Hcase1).
  { destruct (Ha1 (st_task_id t)) as [->|(_ & st' & _ & _ & -> & ?)]; [by exists st|]. exists st'. split; [done|by right]. }
  destruct Hcase1 as [->|Hend]; cycle 1.
  { rewrite bool_decide_eq_false_2 by (rewrite Hst1; intros [= ->]; unfold TERMINAL in Hend; set_solver).
    exists s1. do 5 (split; [done|]). by exists st1. }
  assert (active (controller s1) !! st_task_id t = Some t) as Ha by (by apply (sw_active s1 Hwf1)).
  destruct (release_active s1 _ t Hwf1 Ha) as (c & Hc & _).
  rewrite bool_decide_eq_true_2 by done.
  destruct (complete s1 (st_task_id t) (outcome_state (wr_outcome r)) (owner_agent (ownership t)) (fence (ownership t))) as [s'|e] eqn:Hrun; cycle 1.
  { exfalso. unfold complete in Hrun. rewrite (bool_decide_eq_true_2 _ Hterm), Ht in Hrun. cbn [ensure rbind] in Hrun.
    rewrite (bool_decide_eq_true_2 _ Hst1), String.eqb_refl, Z.eqb_refl, Hc in Hrun. done. }
  exists s'. apply complete_spec in Hrun as (_ & _ & Hwf' & Ht' & Hs' & [Ho' Hc']); [|done].
  split; [done|]. split; [done|]. split; [congruence|]. split; [split; [congruence|auto]|]. split.
  - eapply advances_trans; [exact Ha1|]. intros i. rewrite Hs', lookup_insert. case_decide as E; [|by left].
    subst i. right. exists "running", (outcome_state (wr_outcome r)). split; [done|]. split; [|done]. unfold TERMINAL. set_solver.
  - rewrite Hs', lookup_insert_eq. by eexists.
Qed.

Lemma run_group_spec l s worker :
  sched_wf s →
  (∀ t, t ∈ l → tasks s !! st_task_id t = Some t ∧ ∃ st, states s !! st_task_id t = Some st ∧ (st = "running" ∨ st ∈ TERMINAL)) →
  ∃ s', run_group s l worker = Ok s' ∧ sched_wf s' ∧ tasks s' = tasks s ∧ steady_capacity s s' ∧ advances s s' ∧
    (∀ t, t ∈ l → ∃ st, states s' !! st_task_id t = Some st ∧ st ∈ TERMINAL).
Proof.
  revert s. induction l as [|t l IH]; intros s Hwf Hl.
  { exists s. do 4 (split; [done|]). split; [apply advances_refl|]. intros t Ht. by apply not_elem_of_nil in Ht. }
  destruct (Hl t ltac:(by left)) as [Ht Hr].
  destruct (run_one_spec s t (worker t) Hwf Ht Hr) as (s1 & Hrun & Hwf1 & Ht1 & [Ho1 Hc1] & Ha1 & st1 & Hst1 & Hend1).
  cbn [run_group]. rewrite Hrun. cbn [rbind].
  destruct (IH s1 Hwf1) as (s' & -> & Hwf' & Ht' & [Ho' Hc'] & Ha' & Hin).
  { intros u Hu. rewrite Ht1. destruct (Hl u ltac:(by right)) as [? (st & Hst & Hcase)]. split; [done|].
    destruct (Ha1 (st_task_id u)) as [->|(_ & st' & _ & _ & -> & ?)]; [by exists st|]. exists st'. split; [done|by right]. }
  exists s'. split; [done|]. split; [done|]. split; [congruence|]. split; [split; [congruence|auto]|].
  split; [by eapply advances_trans|]. intros u [->|Hu]%elem_of_cons; [|by apply Hin].
  exists st1. split; [|done]. by apply (advances_terminal s1).
Qed.

Lemma all_terminal_spec s :
  all_terminal s = true ↔ ∀ i st, states s !! i = Some st → st ∈ TERMINAL.
Proof.
  unfold all_terminal. rewrite forallb_forall. split; intros H.
  - intros i st Hi. refine (bool_decide_eq_true_1 _ (H st _)). apply list_elem_of_In, list_elem_of_fmap.
    exists (i, st). split; [done|]. by apply elem_of_map_to_list.
  - intros st Hin. apply list_elem_of_In, list_elem_of_fmap in Hin as ([i st'] & -> & Hi).
    apply elem_of_map_to_list in Hi. apply bool_decide_eq_true_2. exact (H i st' Hi).
Qed.

Lemma block_fold l s :
  tasks (foldl block_task s l) = tasks s ∧ ∀ i, states (foldl block_task s l) !! i = if decide (i ∈ l) then Some "blocked" else states s !! i.
Proof.
  revert s. induction l as [|j l IH]; intros s; cbn [foldl]; [done|].
  destruct (IH (block_task s j)) as [-> H].
  split; [done|]. intros i. rewrite H. simpl. destruct (decide (i ∈ l)) as [Hi|Hi].
  - by rewrite decide_True by (by right).
  - rewrite lookup_insert. case_decide as E.
    + subst. by rewrite decide_True by (by left).
    + rewrite decide_False; [done|]. by intros [?|?]%elem_of_cons.
Qed.

Lemma block_queued_spec s :
  tasks (block_queued s) = tasks s ∧
  ∀ i, states (block_queued s) !! i =
    if bool_decide (states s !! i = Some "queued") then Some "blocked" else states s !! i.
Proof.
  unfold block_queued. destruct (block_fold (map_to_list (filter (λ kv, kv.2 = "queued") (states s))).*1 s) as [Ht Hs].
  split; [done|]. intros i. rewrite Hs.
  assert (i ∈ (map_to_list (filter (λ kv, kv.2 = "queued") (states s))).*1 ↔ states s !! i = Some "queued") as Hiff.
  { rewrite list_elem_of_fmap. split.
    - intros ([j st] & -> & Hin). apply elem_of_map_to_list, map_lookup_filter_Some in Hin as [? Hst].
      simpl in Hst. by subst.
    - intros Hi. exists (i, "queued"). split; [done|]. apply elem_of_map_to_list, map_lookup_filter_Some. done. }
  case_bool_decide as Hq; [by rewrite decide_True by (by apply Hiff)|].
  rewrite decide_False; [done|]. by rewrite Hiff.
Qed.

Section Loop.
Context (worker : ScheduledTask → WorkerRun) (order : list ScheduledTask → list ScheduledTask).
Context (clock : nat → Z) (Hord : ∀ b, order b ≡ₚ b).

Lemma blocked_end s : sched_wf s → ends s (block_queued s).
Proof.
  intros Hwf. destruct (block_queued_spec s) as [Ht Hs]. split; [done|]. split; [|split; [|split]].
  - intros i Hi. rewrite Hs. case_bool_decide; [by eexists|done].
  - intros i st. rewrite Hs. case_bool_decide as Hb; [intros [= <-]; left; unfold TERMINAL; set_solver|].
    intros Hi. destruct (sw_state s Hwf i st Hi) as [->|[->|?]]; [done|by right|by left].
  - intros i st Hi Hst. rewrite Hs, bool_decide_eq_false_2; [done|]. rewrite Hi. intros [= ->].
    unfold TERMINAL in Hst. set_solver.
  - intros i t d. rewrite Ht, !Hs. intros Hi. case_bool_decide as Hb; [done|]. intros Ha Hd.
    pose proof (sw_accepted s Hwf i t d Hi Ha Hd) as Hacc. rewrite bool_decide_eq_false_2; [done|]. congruence.
Qed.

Lemma done_end s : sched_wf s → all_terminal s = true → ends s s.
Proof.
  intros Hwf Ha. split; [done|]. split; [done|]. split; [|split; [done|by apply sw_accepted]].
  intros i st Hi. left. by apply (proj1 (all_terminal_spec s) Ha i).
Qed.

(** A batch that ran, before the rest of the loop. *)
Lemma batch_ends s s2 s' sel :
  tasks s2 = tasks s → (∀ t, t ∈ sel → states s !! st_task_id t = Some "queued") →
  (∀ i, i ∉ ids sel → states s2 !! i = states s !! i ∨
     ∃ st st', states s !! i = Some st ∧ st ∉ TERMINAL ∧ states s2 !! i = Some st' ∧ st' ∈ TERMINAL) →
  (∀ t, t ∈ sel → ∃ st, states s2 !! st_task_id t = Some st ∧ st ∈ TERMINAL) → ends s2 s' → ends s s'.
Proof.
  intros Ht Hsel Hout Hin (H1 & H2 & H3 & H4 & H5).
  assert (∀ i, i ∈ ids sel → states s !! i = Some "queued" ∧ ∃ st, states s2 !! i = Some st ∧ st ∈ TERMINAL) as Hids.
  { intros i (t & -> & Hti)%list_elem_of_fmap. split; [by apply Hsel|by apply Hin]. }
  split; [congruence|]. split; [|split; [|split; [|done]]].
  - intros i Hi. apply H2. destruct (decide (i ∈ ids sel)) as [Hs|Hs].
    + destruct (Hids i Hs) as (_ & st & -> & _). by eexists.
    + destruct (Hout i Hs) as [->|(_ & st' & _ & _ & -> & _)]; [done|by eexists].
  - intros i st Hi. destruct (H3 i st Hi) as [?|[-> Hr]]; [by left|]. right. split; [done|].
    destruct (decide (i ∈ ids sel)) as [Hs|Hs].
    + destruct (Hids i Hs) as (_ & st & Hst & Hend). rewrite Hr in Hst. injection Hst as <-. unfold TERMINAL in Hend. set_solver.
    + destruct (Hout i Hs) as [<-|(_ & st' & _ & _ & Hst & Hend)]; [done|]. rewrite Hr in Hst. injection Hst as <-.
      unfold TERMINAL in Hend. set_solver.
  - intros i st Hi Hst. apply H4; [|done]. destruct (decide (i ∈ ids sel)) as [Hs|Hs].
    + destruct (Hids i Hs) as [Hq _]. rewrite Hi in Hq. injection Hq as ->. unfold TERMINAL in Hst. set_solver.
    + destruct (Hout i Hs) as [->|(st0 & _ & H0 & Hn & _)]; [done|congruence].
Qed.

Lemma execute_loop_ends fuel s :
  sched_wf s → observed s → mcount is_queued (states s) < Z.of_nat fuel →
  ∃ s', execute_loop fuel s worker order clock = Ok s' ∧ ends s s'.
Proof.
  revert s. induction fuel as [|fuel IH]; intros s Hwf Hob Hf.
  { pose proof (mcount_nonneg is_queued (states s)). lia. }
  cbn [execute_loop]. destruct (all_terminal s) eqn:Hall; [exists s; split; [done|by apply done_end]|].
  destruct (next_batch_spec s (clock fuel) Hwf Hob) as (s1 & sel & -> & Hb & [Hob1 _]). cbn [rbind].
  destruct Hb as (Hwf1 & Ht1 & _ & Hnd & Hsel & Hst1 & Hcnt).
  destruct sel as [|t sel].
  { exists (block_queued s1). split; [done|].
    assert (∀ i, states s1 !! i = states s !! i) as Heq.
    { intros i. rewrite Hst1. apply decide_False, not_elem_of_nil. }
    destruct (blocked_end s1 Hwf1) as (H1 & H2 & H3 & H4 & H5). split; [congruence|].
    split; [|split; [|split; [|done]]]; intros i; rewrite <- Heq; auto. }
  set (b := t :: sel) in *.
  destruct (run_group_spec (order b) s1 worker Hwf1) as (s2 & -> & Hwf2 & Ht2 & [Hob2 _] & Ha2 & Hin).
  { intros u Hu. rewrite Hord in Hu. destruct (Hsel u Hu) as [? _]. rewrite Ht1. split; [done|].
    exists "running". split; [|by left]. rewrite Hst1, decide_True; [done|]. by apply list_elem_of_fmap_2. }
  cbn [rbind]. destruct (IH s2 Hwf2) as (s' & Hrun & Hends).
  - unfold observed. rewrite Hob2, Hob1. exact Hob.
  - pose proof (advances_queued _ _ Ha2). unfold b in Hcnt. cbn [length] in Hcnt. lia.
  - exists s'. split; [done|]. eapply (batch_ends s s2 s' b); [congruence|by apply Hsel| | |done].
    + intros i Hi. specialize (Ha2 i). rewrite Hst1, decide_False in Ha2 by done. done.
    + intros u Hu. apply Hin. by rewrite Hord.
Qed.
End Loop.

Lemma queued_bound s : sched_wf s → mcount is_queued (states s) <= Z.of_nat (size (tasks s)).
Proof.
  intros Hwf. assert (size (tasks s) = size (states s)) as ->.
  { rewrite <- !size_dom. f_equal. apply set_eq. intros i. rewrite !elem_of_dom. symmetry. apply (sw_dom s Hwf). }
  apply mcount_le_size.
Qed.

Lemma sched_reachable_inv steady s : sched_reachable steady s →
  sched_wf s ∧ observed s ∧ (steady = true → within_capacity (controller s)).
Proof.
  intros (p & o & Hp & Ho & Hr). destruct (capacity_init p o Hp Ho) as [Hcap Hob].
  remember (PrismScheduler_init p o) as s0 eqn:E0.
  assert (sched_wf s0) as Hwf by (subst; apply wf_scheduler_init).
  assert (within_capacity (controller s0)) as Hcap0 by (by subst). clear E0 Hcap Hp Ho p o.
  induction Hr as [s|s1 s2 s3 Hs Hr IH]; [done|].
  destruct (sched_step_inv steady s1 s2 Hwf Hob Hs) as [Hwf2 [[Hob2 Hc2]|[-> Hob2]]].
  - apply IH; [unfold observed; by rewrite Hob2|done|auto].
  - assert (∀ s, sched_wf s → observed s → rtc (sched_step false) s s3 → sched_wf s3 ∧ observed s3) as Hgo.
    { clear. intros s Hwf Hob Hr. induction Hr as [s|s1 s2 s3 Hs Hr IH]; [done|].
      destruct (sched_step_inv false s1 s2 Hwf Hob Hs) as [Hwf2 [[Hob2 _]|[_ Hob2]]]; apply IH; try done.
      unfold observed. by rewrite Hob2. }
    destruct (Hgo s2 Hwf2 Hob2 Hr). done.
Qed.

(** ** The slot hierarchy *)

Lemma batch_loop_frame l s now s' sel :
  batch_loop l s now = Ok (s', sel) → children s' = children s ∧ slots s' = slots s.
Proof.
  revert s sel. induction l as [|i l IH]; intros s sel H; cbn [batch_loop] in H; [by injection H as <- <-|].
  apply rbind_Ok in H as (t & _ & H). destruct (negb (ready s t)); [by apply IH in H|].
  apply rbind_Ok in H as ([c d] & _ & H). cbv zeta in H. destruct (negb (ad_admitted d)); [by apply IH in H|].
  apply rbind_Ok in H as (c' & _ & H). apply rbind_Ok in H as ([s1 sel1] & H & H').
  injection H' as <- <-. by apply IH in H.
Qed.

Lemma cancel_tasks_frame targets items s s' l :
  cancel_tasks targets items s = Ok (s', l) → children s' = children s ∧ slots s' = slots s.
Proof.
  revert s l. induction items as [|[i t] items IH]; intros s l H; cbn [cancel_tasks] in H; [by injection H as <- <-|].
  destruct (negb _); [by apply IH in H|]. apply rbind_Ok in H as (st & _ & H).
  case_bool_decide; [by apply IH in H|].
  apply rbind_Ok in H as (c & _ & H). apply rbind_Ok in H as ([s1 sel1] & H & H').
  injection H' as <- <-. by apply IH in H.
Qed.

Lemma hierarchy_ext s s' :
  children s' = children s → (∀ i, is_Some (slots s !! i) → is_Some (slots s' !! i)) →
  hierarchy_wf s → hierarchy_wf s'.
Proof. intros Hc Hs H p c. rewrite Hc. intros Hp. apply Hs. by apply (H p). Qed.

Lemma hierarchy_step steady s s' : hierarchy_wf s → sched_step steady s s' → hierarchy_wf s'.
Proof.
  intros Hh Hs.
  destruct Hs as [s sl s' H|s t0 t s' rc Ht Hv H|s l s' r H|s now s' b H|s i st a f s' H|s sid s' l H|s o Hf Hov].
  - unfold register_slot in H. rewrite !ensure_Ok in H. destruct H as (_ & _ & _ & _ & H). injection H as <-.
    assert (∀ i, is_Some (slots s !! i) → is_Some (<[slot_id sl := sl]> (slots s) !! i)) as Hmono.
    { intros i Hi. rewrite lookup_insert. case_decide; [by eexists|done]. }
    destruct (parent_of sl) as [p|]; [|by apply (hierarchy_ext s)].
    intros q c. unfold child_of. simpl. rewrite lookup_insert. case_decide as E.
    + subst q. simpl. intros [->%elem_of_singleton|Hc]%elem_of_union; [rewrite lookup_insert_eq; by eexists|].
      apply Hmono. by apply (Hh p).
    + intros Hc. apply Hmono. by apply (Hh q).
  - unfold submit in H. rewrite ensure_Ok in H. destruct H as [_ H].
    destruct (slots s !! st_slot_id t); [|done]. rewrite ensure_Ok in H. destruct H as [_ H].
    apply rbind_Ok in H as ([updated rc'] & _ & H). cbn zeta in H.
    destruct (ar_admitted rc'); injection H as <- _; [|done]. apply (hierarchy_ext s); [done| |done].
    intros i Hi. simpl. rewrite lookup_insert. case_decide; [by eexists|done].
  - unfold apply_delta in H. rewrite ensure_Ok in H. destruct H as [_ H]. by injection H as <- _.
  - unfold next_batch in H. apply rbind_Ok in H as ([s1 sel] & H & H'). injection H' as <- _.
    apply batch_loop_frame in H as [Hc Hsl]. apply (hierarchy_ext s); simpl; [done|by rewrite Hsl|done].
  - unfold complete in H. rewrite ensure_Ok in H. destruct H as [_ H].
    destruct (tasks s !! i) as [t|]; [|done]. rewrite !ensure_Ok in H. destruct H as (_ & _ & H).
    apply rbind_Ok in H as (c & _ & H). by injection H as <-.
  - unfold cancel_slot in H. rewrite ensure_Ok in H. destruct H as [_ H].
    apply rbind_Ok in H as ([s1 sel] & H & H'). injection H' as <- _.
    apply cancel_tasks_frame in H as [Hc Hsl]. apply (hierarchy_ext s); [done|by rewrite Hsl|done].
  - done.
Qed.

Lemma reachable_hierarchy steady s : sched_reachable steady s → hierarchy_wf s.
Proof.
  intros (p & o & _ & _ & Hr).
  assert (hierarchy_wf (PrismScheduler_init p o)) as H.
  { intros q c. unfold child_of. simpl. rewrite lookup_empty. set_solver. }
  induction Hr as [|s1 s2 s3 Hs Hr IH]; [done|]. apply IH. by apply (hierarchy_step steady s1).
Qed.

Section Closure.
Context (kids : gmap string (gset string)) (registered : gset string) (root : string).
Context (Hkids : ∀ p c, child_of kids p c → c ∈ registered).

Lemma closing_done targets : closing kids root targets [] → ∀ x, x ∈ targets ↔ rtc (child_of kids) root x.
Proof.
  intros (Hr & _ & Hs & Hc) x. split; [apply Hs|]. intros Hrtc. clear Hs. revert Hr.
  induction Hrtc as [x|x y z Hxy _ IH]; [done|]. intros Hx. apply IH. apply (Hc x y Hx); [|done].
  apply not_elem_of_nil.
Qed.

Lemma closure_spec fuel targets frontier :
  closing kids root targets frontier →
  (size (registered ∖ targets) + length frontier < fuel)%nat →
  ∀ x, x ∈ closure fuel kids targets frontier ↔ rtc (child_of kids) root x.
Proof.
  revert targets frontier. induction fuel as [|fuel IH]; intros targets frontier Hcl Hf; [lia|].
  destruct frontier as [|p frontier]; [by apply closing_done|]. cbn [closure].
  set (fresh := List.filter _ _).
  assert (∀ c, c ∈ fresh ↔ child_of kids p c ∧ c ∉ targets) as Hfresh.
  { intros c. unfold fresh. rewrite list_elem_of_In, filter_In, <- list_elem_of_In, elem_of_elements.
    rewrite negb_true_iff, bool_decide_eq_false. done. }
  assert (NoDup fresh) as Hnd by (apply NoDup_ListNoDup, List.NoDup_filter, NoDup_ListNoDup, NoDup_elements).
  apply IH.
  - destruct Hcl as (Hr & Hfr & Hs & Hc). split; [set_solver|]. split; [|split].
    + intros x [Hx|Hx]%elem_of_app; [|assert (x ∈ targets) by (apply Hfr; by right); set_solver].
      apply elem_of_reverse in Hx. set_solver.
    + intros x [Hx%elem_of_list_to_set|Hx]%elem_of_union; [|by apply Hs].
      apply Hfresh in Hx as [Hx _]. eapply rtc_r; [|exact Hx]. apply Hs, Hfr. by left.
    + intros x c Hx Hnf Hxc. rewrite elem_of_union, elem_of_list_to_set.
      apply not_elem_of_app in Hnf as [Hnf1 Hnf2]. rewrite elem_of_reverse in Hnf1.
      rewrite elem_of_union, elem_of_list_to_set in Hx. destruct Hx as [Hx|Hx]; [done|].
      destruct (decide (c ∈ targets)) as [|Hct]; [by right|]. destruct (decide (x = p)) as [->|Hne].
      * left. by apply Hfresh.
      * right. apply (Hc x c Hx); [|done]. by apply not_elem_of_cons.
  - assert (size (registered ∖ targets) =
      length fresh + size (registered ∖ (list_to_set fresh ∪ targets)))%nat as Hsz.
    { rewrite <- (size_list_to_set (C := gset string) fresh Hnd). rewrite <- size_union by set_solver. f_equal.
      apply set_eq. intros x. rewrite elem_of_union, !elem_of_difference, elem_of_union, elem_of_list_to_set.
      rewrite Hfresh. destruct (decide (child_of kids p x)) as [Hk|]; [|naive_solver].
      apply Hkids in Hk as Hk'. destruct (decide (x ∈ targets)); naive_solver. }
    rewrite length_app, length_reverse. cbn [length] in Hf. lia.
Qed.
End Closure.

Lemma cancel_targets_spec s sid : hierarchy_wf s → is_Some (slots s !! sid) →
  ∀ x, x ∈ cancel_targets s sid ↔ rtc (child_of (children s)) sid x.
Proof.
  intros Hh Hsid. unfold cancel_targets. apply (closure_spec (children s) (dom (slots s)) sid).
  - intros p c Hc. apply elem_of_dom. by apply (Hh p).
  - split; [set_solver|]. split; [set_solver|]. split.
    + intros x ->%elem_of_singleton. constructor.
    + intros x c ->%elem_of_singleton. set_solver.
  - cbn [length]. rewrite size_difference, size_singleton, size_dom.
    + assert (size (slots s) ≠ 0%nat); [|lia]. intros H0%map_size_empty_inv. rewrite H0, lookup_empty in Hsid.
      by destruct Hsid.
    + intros x ->%elem_of_singleton. by apply elem_of_dom.
Qed.

(** ** The demo run *)

Lemma sched_demo_reachable : sched_reachable true demo_queued.
Proof.
  exists demo_policy, None. split; [vm_compute; reflexivity|]. split; [done|].
  set (s0 := PrismScheduler_init demo_policy None).
  set (s1 := ok_or s0 (register_slot s0 demo_slot)).
  apply (rtc_l _ s0 s1); [apply (do_register true s0 demo_slot s1); vm_compute; reflexivity|].
  apply (rtc_l _ s1 demo_registered); [apply (do_register true s1 demo_child demo_registered); vm_compute; reflexivity|].
  set (s3 := demo_submit demo_registered demo_a). set (s4 := demo_submit s3 demo_b).
  set (r := λ s t, (ok_or (s, mkAdmission "" "" false "" 0 "") (submit s t)).2).
  apply (rtc_l _ demo_registered s3).
  { apply (do_submit true demo_registered demo_a demo_a s3 (r demo_registered demo_a)); vm_compute; reflexivity. }
  apply (rtc_l _ s3 s4).
  { apply (do_submit true s3 demo_b demo_b s4 (r s3 demo_b)); vm_compute; reflexivity. }
  apply (rtc_l _ s4 demo_queued); [|constructor].
  apply (do_submit true s4 demo_c demo_c demo_queued (r s4 demo_c)); vm_compute; reflexivity.
Qed.

Lemma sched_demo_running : sched_reachable true demo_running.
Proof.
  destruct sched_demo_reachable as (p & o & Hp & Ho & Hr). exists p, o. split; [exact Hp|]. split; [exact Ho|].
  refine (rtc_r _ demo_queued _ Hr _).
  apply (do_next true demo_queued 0 demo_running (ok_or (demo_queued, []) (next_batch demo_queued 0)).2).
  vm_compute. reflexivity.
Qed.

Lemma demo_quiescent : quiescent demo_queued.
Proof.
  intros i Hi. assert (forallb (λ kv, negb (String.eqb kv.2 "running")) (map_to_list (states demo_queued)) = true) as H
    by (vm_compute; reflexivity).
  rewrite forallb_forall in H. apply elem_of_map_to_list, list_elem_of_In, H in Hi. discriminate Hi.
Qed.

(** * Properties *)

(** C9: in every state the scheduler can reach, a task is physically active
    exactly while it is running, whatever a running or accepted task depends on
    has been accepted, no active task is in hard conflict with an active task
    (whichever of the two declares it), and no two active tasks share an
    exclusive resource. *)
Theorem scheduler_safety steady s : sched_reachable steady s →
  (∀ i t, active (controller s) !! i = Some t ↔ tasks s !! i = Some t ∧ states s !! i = Some "running") ∧
  (∀ i t d, tasks s !! i = Some t → states s !! i = Some "running" ∨ states s !! i = Some "accepted" →
     d ∈ depends_on t → states s !! d = Some "accepted") ∧
  (∀ i j t u, active (controller s) !! i = Some t → active (controller s) !! j = Some u → j ∉ hard_conflicts t) ∧
  (∀ i j t u r, active (controller s) !! i = Some t → active (controller s) !! j = Some u →
     r ∈ exclusive_resources t → r ∈ exclusive_resources u → i = j).
Proof.
  intros (Hwf & _ & _)%sched_reachable_inv. split; [apply (sw_active s Hwf)|]. split; [|split].
  - intros i t d Ht [Hr|Ha] Hd; [|exact (sw_accepted s Hwf i t d Ht Ha Hd)].
    apply (sw_deps s Hwf i t d); [by apply (sw_active s Hwf)|done].
  - apply (sw_conflict s Hwf).
  - intros i j t u r Hi Hj Hri Hrj. pose proof (sw_exclusive s Hwf i t r Hi Hri) as E1.
    pose proof (sw_exclusive s Hwf j u r Hj Hrj) as E2. congruence.
Qed.

Lemma scheduler_safety_witness :
  active (controller demo_running) !! "a" = Some demo_a ∧ active (controller demo_running) !! "c" = None ∧
  ∀ j u, active (controller demo_running) !! j = Some u → j ∉ hard_conflicts demo_a ∧ "a" ∉ hard_conflicts u.
Proof.
  assert (active (controller demo_running) !! "a" = Some demo_a) as Ha by (vm_compute; reflexivity).
  destruct (scheduler_safety true demo_running sched_demo_running) as (_ & _ & H & _).
  split; [exact Ha|]. split; [vm_compute; reflexivity|].
  intros j u Hj. split; [exact (H "a" j demo_a u Ha Hj)|exact (H j "a" u demo_a Hj Ha)].
Defined.

Lemma implementation_workers_count (m : gmap string ScheduledTask) :
  (∀ i t, m !! i = Some t → is_implementation t = true → workers (resources t) = 1) →
  msum (λ t, if is_implementation t then workers (resources t) else 0) m = mcount is_implementation m.
Proof.
  induction m as [|i t m Hi IH] using map_ind; intros H; [done|].
  rewrite msum_insert, mcount_insert by done. rewrite IH.
  - specialize (H i t). rewrite lookup_insert_eq in H. destruct (is_implementation t); [|done]. by rewrite H.
  - intros j u Hj. apply (H j u). rewrite lookup_insert_ne; [done|congruence].
Qed.

(** C37: while the observed budget does not change, the active tasks together
    stay within it in every limited dimension, and there are at most as many
    active implementation tasks as workers beside those reserved for recovery and
    validation, or one. The code counts tasks: the reserved workers are free of
    implementation when each implementation task takes one worker (and the limit
    leaves any beside the reserve); a single task that takes more can occupy them
    ([reserve_occupied]). *)
Theorem scheduler_capacity s : sched_reachable true s →
  let c := controller s in
  let beside := workers (limit (observation c)) - (recovery_reserve (ac_policy c) + validation_reserve (ac_policy c)) in
  (∀ n get, (n, get) ∈ DIMENSIONS → get (limit (observation c)) ≠ 0 → get (usage c) <= get (limit (observation c))) ∧
  mcount is_implementation (active c) <= Z.max 1 beside ∧
  ((∀ i t, active c !! i = Some t → is_implementation t = true → workers (resources t) = 1) →
   implementation_workers c <= Z.max 1 beside).
Proof.
  intros (_ & _ & H)%sched_reachable_inv. destruct (H eq_refl) as [Hd Hi]. split; [done|]. split; [done|].
  intros H1. unfold implementation_workers. by rewrite implementation_workers_count.
Qed.

Lemma scheduler_capacity_witness :
  mcount is_implementation (active (controller demo_running)) <= 2 ∧ workers (usage (controller demo_running)) <= 4.
Proof.
  destruct (scheduler_capacity demo_running sched_demo_running) as (H & Hi & _). split; [exact Hi|].
  assert (workers (limit (observation (controller demo_running))) = 4) as E by (vm_compute; reflexivity).
  rewrite <- E. apply (H "workers" workers); [by left|]. rewrite E. discriminate.
Defined.

(** C11: [execute] ends when its workers do. However each worker it starts ends
    (with a state, an exception or a cancellation), whatever slots are cancelled
    meanwhile, and in whatever order the tasks of a batch end, [execute] returns: every
    task is then in a terminal state, but for tasks that were already running when it
    was called, which it does not wait for; the states that were terminal before
    are the same, and an accepted task had everything it depends on accepted. That
    every worker ends is an assumption ([execute] has no time-out), and no other
    call of the scheduler than [cancel_slot] comes in while it runs. *)
Theorem execute_converges steady s worker order clock :
  sched_reachable steady s → (∀ b, order b ≡ₚ b) →
  ∃ s', execute s worker order clock = Ok s' ∧ ends s s' ∧ (quiescent s → all_terminal s' = true).
Proof.
  intros (Hwf & Hob & _)%sched_reachable_inv Hord.
  destruct (execute_loop_ends worker order clock Hord (S (size (tasks s))) s Hwf Hob) as (s' & Hrun & He).
  { pose proof (queued_bound s Hwf). lia. }
  exists s'. split; [done|]. split; [done|]. intros Hq. apply all_terminal_spec. intros i st Hi.
  destruct He as (_ & _ & He & _). destruct (He i st Hi) as [?|[-> Hr]]; [done|]. by destruct (Hq i).
Qed.

Lemma execute_converges_witness :
  ∃ s', execute demo_queued demo_worker (@reverse _) (λ _, 0) = Ok s' ∧ all_terminal s' = true ∧
        states s' !! "a" = Some "accepted" ∧ states s' !! "b" = Some "failed" ∧ states s' !! "c" = Some "accepted".
Proof.
  destruct (execute_converges true demo_queued demo_worker (@reverse _) (λ _, 0)
    sched_demo_reachable (λ b, reverse_Permutation b)) as (s' & H & _ & He).
  exists s'. split; [exact H|]. split; [exact (He demo_quiescent)|].
  set (r := execute _ _ _ _) in H.
  assert (∀ i st, states (ok_or demo_queued r) !! i = st → states s' !! i = st) as Hget by (rewrite H; cbn [ok_or]; auto).
  split; [|split]; apply Hget; vm_compute; reflexivity.
Defined.

(** A worker that cancels the slot it runs in ends its own task, and the tasks that waited, cancelled. *)
Example execute_cancelled :
  (λ s', map_to_list (states s')) <$>
    (match execute demo_queued (λ t, mkRun [slot_id demo_slot] (WReturned "accepted")) id (λ _, 0) with Ok s' => Some s' | Err _ => None end)
  = Some (map_to_list (<["a" := "cancelled"]> (<["b" := "cancelled"]> (<["c" := "cancelled"]> (∅ : gmap string string))))).
Proof. vm_compute. done. Qed.

(** cancelling a registered slot succeeds and ends exactly the unfinished
    tasks of that slot and of every slot nested below it, at any depth: they
    are reported and become cancelled, and every other task keeps its state. *)
Theorem cancel_slot_subtree steady s sid : sched_reachable steady s → is_Some (slots s !! sid) →
  ∃ s' cancelled, cancel_slot s sid = Ok (s', cancelled) ∧
    (∀ i, i ∈ cancelled ↔ ∃ t st, tasks s !! i = Some t ∧ rtc (child_of (children s)) sid (st_slot_id t) ∧
                            states s !! i = Some st ∧ st ∉ TERMINAL) ∧
    (∀ i, states s' !! i = if decide (i ∈ cancelled) then Some "cancelled" else states s !! i).
Proof.
  intros Hr Hsid. pose proof (sched_reachable_inv steady s Hr) as (Hwf & _ & _).
  pose proof (cancel_targets_spec s sid (reachable_hierarchy steady s Hr) Hsid) as Htg.
  assert (∀ i t, (i, t) ∈ map_to_list (tasks s) ↔ tasks s !! i = Some t) as Hit by (intros; apply elem_of_map_to_list).
  destruct (cancel_tasks_spec (cancel_targets s sid) (map_to_list (tasks s)) s Hwf) as (s' & l & Hrun & _).
  { intros i t. by rewrite Hit. }
  destruct (cancel_tasks_others _ _ _ _ _ (NoDup_fst_map_to_list _) Hrun) as [H1 H2].
  assert (∀ i, i ∈ py_sorted l ↔ i ∈ l) as Hsort by (intros i; apply elem_of_py_sorted).
  exists s', (py_sorted l). unfold cancel_slot. rewrite bool_decide_eq_true_2 by done. cbn [ensure rbind].
  rewrite Hrun. split; [done|]. split.
  - intros i. rewrite Hsort, H1. by setoid_rewrite Hit; setoid_rewrite Htg.
  - intros i. rewrite H2. apply decide_ext. by rewrite Hsort.
Qed.

Lemma cancel_slot_subtree_witness :
  ∃ s' cancelled, cancel_slot demo_running (slot_id demo_slot) = Ok (s', cancelled) ∧
    states s' !! "a" = Some "cancelled" ∧ states s' !! "c" = Some "cancelled" ∧ cancelled = ["a"; "b"; "c"].
Proof.
  destruct (cancel_slot_subtree true demo_running (slot_id demo_slot) sched_demo_running)
    as (s' & l & H & _ & _).
  { apply (bool_decide_unpack _). vm_compute. exact I. }
  exists s', l. split; [exact H|]. set (r := cancel_slot _ _) in H.
  assert (s' = (ok_or (demo_running, []) r).1 ∧ l = (ok_or (demo_running, []) r).2) as [-> ->]
    by (rewrite H; split; reflexivity).
  split; [vm_compute; reflexivity|]. split; vm_compute; reflexivity.
Defined.
