(* ===== verification/PrismBudgets.v ===== *)
(** Adaptive budgets and device leases ([simplicio_loop/prism_budgets.py]): how
    one observed sample becomes the budget of the admission controller, the
    governor that applies pressure at once and relief after stable samples, and
    the ledger of fenced device leases. *)
From stdpp Require Import pretty.
From S2P Require Import Prelude PyLib PrismContracts PrismScheduler.
Local Open Scope Z_scope.
Local Open Scope py_scope.

(** * Definitions *)

Definition BUDGET_STATUS_SCHEMA : string := "simplicio.prism-budget-status/v1".
Definition DEVICE_REBALANCE_SCHEMA : string := "simplicio.prism-device-rebalance/v1".
Definition THROUGHPUT_SCHEMA : string := "simplicio.prism-throughput/v1".
Definition RESOURCE_NAMES : list string := DIMENSIONS.*1.

(** The module's error, those of the scheduler's constructors, a failing
    subscript. *)
Inductive BudgetExn : Type :=
| PrismBudgetError (msg : string)
| SchedulerError (e : SchedulerExn)
| MissingKey (key : string).

Notation budgeted := (result BudgetExn).

Definition check (ok : bool) (msg : string) : budgeted unit :=
  if ok then Ok tt else Err (PrismBudgetError msg).

Definition lift_scheduler {A} (m : scheduled A) : budgeted A :=
  match m with Ok a => Ok a | Err e => Err (SchedulerError e) end.

(** [_bounded_int], on integers and [None]. *)
Definition bounded_int (v : option Z) (name : string) (minimum : Z) : budgeted unit :=
  check (match v with Some z => negb (z <? minimum) | None => true end)
    (name +:+ " must be an integer >= " +:+ pretty minimum).

Record DeviceCapacity := mkDevice {
  device_id : string;
  worker_limit : Z;
  trusted : bool;
  connected : bool;
  dc_capabilities : list string;
}.
#[export] Instance DeviceCapacity_eta : Eta DeviceCapacity := λ d,
  mkDevice (device_id d) (worker_limit d) (trusted d) (connected d) (dc_capabilities d).

(** [DeviceCapacity.__post_init__] *)
Definition DeviceCapacity_init (d : DeviceCapacity) : budgeted DeviceCapacity :=
  let? _ := check (Str.truthy (device_id d)) "device_id is required" in
  let? _ := bounded_int (Some (worker_limit d)) "worker_limit" 1 in
  Ok (d <| dc_capabilities ::= (λ l, sorted_set (List.filter Str.truthy l)) |>).

(** ** Samples *)

(** The eleven metrics are kept by name; one that is [None] has no entry. *)
Record BudgetSample := mkSample {
  metrics : gmap string Z;
  bs_retry_after_ns : option Z;
  bs_observed_at_ns : Z;
  bs_null_reasons : list (string * string);
}.

(** [BudgetSample.__post_init__] *)
Fixpoint check_metrics (names : list string) (s : BudgetSample) : budgeted unit :=
  match names with
  | [] => Ok tt
  | n :: names' => let? _ := bounded_int (metrics s !! n) n 0 in check_metrics names' s
  end.
Definition null_reason_ok (s : BudgetSample) (name reason : string) : bool :=
  match metrics s !! name with
  | None => true
  | Some v => String.eqb name "workers" && (v =? 0)
  end && Str.truthy (Str.strip reason).
Definition BudgetSample_check (s : BudgetSample) : budgeted unit :=
  let? _ := check_metrics RESOURCE_NAMES s in
  let? _ := bounded_int (bs_retry_after_ns s) "provider_retry_after_ns" 0 in
  let? _ := bounded_int (Some (bs_observed_at_ns s)) "observed_at_ns" 0 in
  let? _ := check (forallb (λ '(n, _), bool_decide (n ∈ RESOURCE_NAMES)) (bs_null_reasons s))
              "unknown null_reason dimensions" in
  check (forallb (λ '(n, r), null_reason_ok s n r) (bs_null_reasons s)) "null_reason requires an unknown metric".

(** [dict.setdefault] on a dict kept as its list of items. *)
Definition setdefault (k v : string) (d : list (string * string)) : list (string * string) :=
  if bool_decide (k ∈ d.*1) then d else d ++ [(k, v)].

(** The devices the budget counts. *)
Definition usable (d : DeviceCapacity) : bool := connected d && trusted d && negb (worker_limit d =? 0).

Definition configured_workers (s : BudgetSample) (p : PrismPolicy) (devices : list DeviceCapacity) : Z :=
  let w := default (global_worker_limit p) (metrics s !! "workers") in
  if bool_decide (devices = []) then w
  else Z.min w (Z.max 1 (zsum (worker_limit <$> List.filter usable devices))).

(** The loop over [RESOURCE_NAMES]: values, measured, unavailable and reasons. *)
Record Reading := mkReading {
  r_values : list (string * Z);
  r_measured : list string;
  r_unavailable : list string;
  r_reasons : list (string * string);
}.
#[export] Instance Reading_eta : Eta Reading := λ r,
  mkReading (r_values r) (r_measured r) (r_unavailable r) (r_reasons r).

Definition read_metric (s : BudgetSample) (w : Z) (acc : Reading) (name : string) : Reading :=
  match (if String.eqb name "workers" then Some w else metrics s !! name) with
  | None =>
      acc <| r_unavailable ::= (λ l, l ++ [name]) |> <| r_reasons ::= setdefault name "metric_not_observed" |>
          <| r_values ::= (λ l, l ++ [(name, 1)]) |>
  | Some v =>
      let acc := if String.eqb name "workers" && (v =? 0)
                 then acc <| r_unavailable ::= (λ l, l ++ [name]) |>
                          <| r_reasons ::= setdefault name "physical_capacity_unavailable" |>
                 else acc in
      acc <| r_measured ::= (λ l, l ++ [name]) |> <| r_values ::= (λ l, l ++ [(name, v)]) |>
  end.
Definition reading (s : BudgetSample) (w : Z) : Reading :=
  foldl (read_metric s w) (mkReading [] [] [] (bs_null_reasons s)) RESOURCE_NAMES.

(** [ResourceVector] of the values by name, which are complete. *)
Definition value_of (l : list (string * Z)) (name : string) : Z :=
  match List.find (λ '(n, _), String.eqb n name) l with Some (_, v) => v | None => 0 end.
Definition vector_of (l : list (string * Z)) : ResourceVector :=
  mkVector (value_of l "workers") (value_of l "cpu_millis") (value_of l "rss_bytes") (value_of l "io_units")
    (value_of l "provider_requests") (value_of l "tokens") (value_of l "disk_bytes") (value_of l "model_slots")
    (value_of l "network_queue") (value_of l "context_tokens") (value_of l "evidence_bytes").

(** [BudgetSample.observation] *)
Definition sample_observation (s : BudgetSample) (p : PrismPolicy) (devices : list DeviceCapacity) :
    budgeted BudgetObservation :=
  let r := reading s (configured_workers s p devices) in
  let conn := List.filter usable devices in
  let? _ := lift_scheduler (ensure (valid_vector (vector_of (r_values r))) "resource values must be non-negative integers") in
  lift_scheduler (BudgetObservation_init
    (mkObservation (vector_of (r_values r)) (r_measured r) (r_unavailable r) (r_reasons r)
       (bs_retry_after_ns s) (bs_observed_at_ns s)
       (merge_sort pair_le ((λ d, (device_id d, worker_limit d)) <$> conn)))).

(** ** The governor *)

Record BudgetEvent := mkEvent {
  ev_applied : bool;
  ev_reason : string;
  ev_observed_at_ns : Z;
  ev_limits : ResourceVector;
  ev_unavailable : list string;
  ev_null_reasons : list (string * string);
  ev_hash : string;
}.

Record AdaptiveBudgetGovernor := mkGovernor {
  ag_policy : PrismPolicy;
  relief_samples : Z;
  ag_devices : gmap string DeviceCapacity;
  current : option BudgetObservation;
  candidate : option BudgetObservation;
  relief_streak : Z;
  events : list BudgetEvent;
}.
#[export] Instance AdaptiveBudgetGovernor_eta : Eta AdaptiveBudgetGovernor := λ g,
  mkGovernor (ag_policy g) (relief_samples g) (ag_devices g) (current g) (candidate g) (relief_streak g) (events g).

Definition by_device (l : list DeviceCapacity) : gmap string DeviceCapacity :=
  foldl (λ m d, <[device_id d := d]> m) ∅ l.

Definition AdaptiveBudgetGovernor_init (p : PrismPolicy) (n : Z) (devices : list DeviceCapacity) :
    budgeted AdaptiveBudgetGovernor :=
  let? _ := check (negb (n <? 1)) "relief_samples must be positive" in
  Ok (mkGovernor p n (by_device devices) None None 0 []).

Definition limits (o : BudgetObservation) : list Z := (λ '(_, get), get (limit o)) <$> DIMENSIONS.

(** [==] of two observations: field by field, the reasons as dicts. *)
Definition obs_eqb (a b : BudgetObservation) : bool :=
  bool_decide (limits a = limits b) && bool_decide (measured a = measured b) &&
  bool_decide (unavailable a = unavailable b) &&
  bool_decide (list_to_map (null_reasons a) =@{gmap string string} list_to_map (null_reasons b)) &&
  bool_decide (provider_retry_after_ns a = provider_retry_after_ns b) &&
  bool_decide (observed_at_ns a = observed_at_ns b) && bool_decide (device_workers a = device_workers b).

Definition json_vector (v : ResourceVector) : Json.json := Json.Obj ((λ '(n, get), (n, Json.Int (get v))) <$> DIMENSIONS).
Definition json_dict (d : list (string * string)) : Json.json := Json.Obj ((λ '(k, v), (k, Json.Str v)) <$> d).
Definition event_body (ok : bool) (why : string) (o : BudgetObservation) : Json.json := Json.Obj [
  ("applied", Json.Bool ok); ("reason_code", Json.Str why); ("observed_at_ns", Json.Int (observed_at_ns o));
  ("limits", json_vector (limit o)); ("unavailable", json_strs (unavailable o));
  ("null_reasons", json_dict (null_reasons o))].

(** The verdict on an observation: applied or not, the reason, and the
    candidate and streak that are kept. *)
Definition judge (g : AdaptiveBudgetGovernor) (o : BudgetObservation) :
    bool * string * option BudgetObservation * Z :=
  match current g with
  | None => (true, "INITIAL_SAMPLE", candidate g, relief_streak g)
  | Some c =>
      let pressure := existsb (λ '(old, new), new <? old) (zip (limits c) (limits o)) in
      let provider_pressure :=
        match provider_retry_after_ns o with
        | Some n => negb (bool_decide (provider_retry_after_ns c = Some n))
        | None => false
        end in
      if pressure || provider_pressure then (true, "PRESSURE_APPLIED", None, 0)
      else if bool_decide (limits o = limits c) then (true, "STABLE", None, 0)
      else
        let '(cand, streak) :=
          match candidate g with
          | Some k => if obs_eqb k o then (k, relief_streak g + 1) else (o, 1)
          | None => (o, 1)
          end in
        if streak <? relief_samples g then (false, "RELIEF_HYSTERESIS", Some cand, streak)
        else (true, "RELIEF_APPLIED", None, 0)
  end.

Definition observe (g : AdaptiveBudgetGovernor) (s : BudgetSample) :
    budgeted (AdaptiveBudgetGovernor * BudgetObservation) :=
  let? o := sample_observation s (ag_policy g) (map_to_list (ag_devices g)).*2 in
  let '(ok, why, cand, streak) := judge g o in
  let ev := mkEvent ok why (observed_at_ns o) (limit o) (unavailable o) (null_reasons o)
              (canonical_sha256 (event_body ok why o)) in
  let cur := if ok then Some o else current g in
  Ok (g <| current := cur |> <| candidate := cand |> <| relief_streak := streak |>
        <| events ::= (λ l, l ++ [ev]) |>, default o cur).

Definition update_device (g : AdaptiveBudgetGovernor) (d : DeviceCapacity) : AdaptiveBudgetGovernor :=
  g <| ag_devices ::= <[device_id d := d]> |>.

(** [status] *)
Definition json_opt_vector (o : option BudgetObservation) : Json.json :=
  match o with Some o => json_vector (limit o) | None => Json.Null end.
Definition json_device (d : DeviceCapacity) : Json.json := Json.Obj [
  ("device_id", Json.Str (device_id d)); ("worker_limit", Json.Int (worker_limit d));
  ("trusted", Json.Bool (trusted d)); ("connected", Json.Bool (connected d));
  ("capabilities", json_strs (dc_capabilities d))].
Definition json_event (e : BudgetEvent) : Json.json := Json.Obj [
  ("applied", Json.Bool (ev_applied e)); ("reason_code", Json.Str (ev_reason e));
  ("observed_at_ns", Json.Int (ev_observed_at_ns e)); ("limits", json_vector (ev_limits e));
  ("unavailable", json_strs (ev_unavailable e)); ("null_reasons", json_dict (ev_null_reasons e));
  ("event_hash", Json.Str (ev_hash e))].
Definition device_le (a b : DeviceCapacity) : Prop := String.le (device_id a) (device_id b).
#[export] Instance device_le_dec a b : Decision (device_le a b) := _.
Definition status (g : AdaptiveBudgetGovernor) : list (string * Json.json) :=
  let payload := [
    ("schema", Json.Str BUDGET_STATUS_SCHEMA);
    ("current", json_opt_vector (current g));
    ("devices", Json.List (json_device <$> merge_sort device_le (map_to_list (ag_devices g)).*2));
    ("events", Json.List (json_event <$> events g));
    ("relief_streak", Json.Int (relief_streak g))] in
  payload ++ [("status_hash", Json.Str (canonical_sha256 (Json.Obj payload)))].

(** ** Device leases *)

Record DeviceLease := mkLease {
  dl_task_id : string;
  dl_device_id : string;
  dl_fence : Z;
  dl_capability : string;
}.
#[export] Instance DeviceLease_eta : Eta DeviceLease := λ l,
  mkLease (dl_task_id l) (dl_device_id l) (dl_fence l) (dl_capability l).
#[export] Instance DeviceLease_eq_dec : EqDecision DeviceLease.
Proof. solve_decision. Defined.

(** [DeviceLease.__post_init__], which [dataclasses.replace] runs again. *)
Definition DeviceLease_init (l : DeviceLease) : budgeted DeviceLease :=
  let? _ := check (Str.truthy (dl_task_id l) && Str.truthy (dl_device_id l) && Str.truthy (dl_capability l))
              "lease identity and capability are required" in
  let? _ := bounded_int (Some (dl_fence l)) "fence" 1 in
  Ok l.

Record DeviceLeaseLedger := mkLedger {
  devices : gmap string DeviceCapacity;
  leases : gmap string DeviceLease;
  ll_served : gmap string Z;
}.
#[export] Instance DeviceLeaseLedger_eta : Eta DeviceLeaseLedger := λ l, mkLedger (devices l) (leases l) (ll_served l).

Definition DeviceLeaseLedger_init (ds : list DeviceCapacity) : budgeted DeviceLeaseLedger :=
  let? _ := check (Nat.eqb (size (by_device ds)) (length ds)) "duplicate device" in
  Ok (mkLedger (by_device ds) ∅ (foldl (λ m d, <[device_id d := 0]> m) ∅ ds)).

Definition on_device (i : string) (l : DeviceLease) : bool := String.eqb (dl_device_id l) i.

Definition can_take (l : DeviceLeaseLedger) (capability : string) (d : DeviceCapacity) : bool :=
  connected d && trusted d && bool_decide (capability ∈ dc_capabilities d) &&
  (mcount (on_device (device_id d)) (leases l) <? worker_limit d).
Definition candidates (l : DeviceLeaseLedger) (capability : string) : list DeviceCapacity :=
  List.filter (can_take l capability) (map_to_list (devices l)).*2.

(** [min(candidates, key=...)]: least served, then the smaller name. *)
Fixpoint keyed (l : DeviceLeaseLedger) (ds : list DeviceCapacity) : budgeted (list (Z * DeviceCapacity)) :=
  match ds with
  | [] => Ok []
  | d :: ds' =>
      let? n := or_raise (ll_served l !! device_id d) (MissingKey (device_id d)) in
      let? rest := keyed l ds' in
      Ok ((n, d) :: rest)
  end.
Definition key_lt (x y : Z * DeviceCapacity) : bool :=
  (x.1 <? y.1) || ((x.1 =? y.1) && negb (bool_decide (String.le (device_id y.2) (device_id x.2)))).
Definition least (x : Z * DeviceCapacity) (l : list (Z * DeviceCapacity)) : Z * DeviceCapacity :=
  foldl (λ best y, if key_lt y best then y else best) x l.

(** The chosen device with how much it served, if there is a candidate. *)
Definition choose (l : DeviceLeaseLedger) (capability : string) : budgeted (option (Z * DeviceCapacity)) :=
  let? ks := keyed l (candidates l capability) in
  Ok (match ks with [] => None | k :: ks' => Some (least k ks') end).

(** A lease is given to a device. *)
Definition place (l : DeviceLeaseLedger) (lease : DeviceLease) (n : Z) : DeviceLeaseLedger :=
  l <| leases ::= <[dl_task_id lease := lease]> |> <| ll_served ::= <[dl_device_id lease := n + 1]> |>.

Definition assign (l : DeviceLeaseLedger) (tid capability : string) : budgeted (DeviceLeaseLedger * DeviceLease) :=
  let? _ := check (negb (bool_decide (is_Some (leases l !! tid)))) "task already has a current device lease" in
  let? c := choose l capability in
  match c with
  | None => Err (PrismBudgetError "DEVICE_CAPABILITY_UNAVAILABLE")
  | Some (n, d) =>
      let? lease := DeviceLease_init (mkLease tid (device_id d) 1 capability) in
      Ok (place l lease n, lease)
  end.

Record RebalanceAction := mkAction {
  ra_task_id : string;
  ra_from : string;
  ra_to : option string;
  ra_old_fence : Z;
  ra_new_fence : option Z;
  ra_reason : string;
  ra_hash : string;
}.

Definition action_body (tid from : string) (to : option string) (old : Z) (new : option Z) (why : string) : Json.json :=
  Json.Obj [
    ("schema", Json.Str DEVICE_REBALANCE_SCHEMA); ("task_id", Json.Str tid); ("from_device", Json.Str from);
    ("to_device", json_opt to); ("old_fence", Json.Int old);
    ("new_fence", match new with Some n => Json.Int n | None => Json.Null end);
    ("reason_code", Json.Str why); ("work_duplicated", Json.Bool false)].
Definition rebalance_action (tid from : string) (to : option string) (old : Z) (new : option Z) (why : string) :
    RebalanceAction :=
  mkAction tid from to old new why (canonical_sha256 (action_body tid from to old new why)).

(** The loop of [disconnect] over the leases as they were. *)
Fixpoint rebalance (from : string) (items : list (string * DeviceLease)) (l : DeviceLeaseLedger) :
    budgeted (DeviceLeaseLedger * list RebalanceAction) :=
  match items with
  | [] => Ok (l, [])
  | (tid, lease) :: items' =>
      if negb (on_device from lease) then rebalance from items' l
      else
        let? c := choose l (dl_capability lease) in
        let? (l', action) :=
          match c with
          | None => Ok (l, rebalance_action tid from None (dl_fence lease) None "DEVICE_LOST_RECOVERY_REQUIRED")
          | Some (n, d) =>
              let? new := DeviceLease_init (lease <| dl_device_id := device_id d |> <| dl_fence ::= Z.succ |>) in
              Ok (l <| leases ::= <[tid := new]> |> <| ll_served ::= <[device_id d := n + 1]> |>,
                  rebalance_action tid from (Some (device_id d)) (dl_fence lease) (Some (dl_fence new))
                    "DEVICE_LOST_REBALANCED")
          end in
        let? (l'', actions) := rebalance from items' l' in
        Ok (l'', action :: actions)
  end.

Definition lease_item_le (x y : string * DeviceLease) : Prop := String.le x.1 y.1.
#[export] Instance lease_item_le_dec x y : Decision (lease_item_le x y) := _.

Definition disconnect (l : DeviceLeaseLedger) (i : string) : budgeted (DeviceLeaseLedger * list RebalanceAction) :=
  match devices l !! i with
  | None => Err (PrismBudgetError "unknown device")
  | Some d =>
      let? d' := DeviceCapacity_init (d <| connected := false |>) in
      let l := l <| devices ::= <[i := d']> |> in
      rebalance i (merge_sort lease_item_le (map_to_list (leases l))) l
  end.

Definition assert_current (l : DeviceLeaseLedger) (lease : DeviceLease) : budgeted unit :=
  check (bool_decide (leases l !! dl_task_id lease = Some lease)) "STALE_DEVICE_FENCE".

(** ** Throughput *)

Definition json_opt_int (v : option Z) : Json.json := match v with Some z => Json.Int z | None => Json.Null end.

(** A count per thousand verified tasks. *)
Definition per_task_milli (v : option Z) (verified : Z) : option Z :=
  match v with
  | Some n => if verified =? 0 then None else Some (n * 1000 / verified)
  | None => None
  end.
Definition tasks_per_second_milli (verified elapsed_ns : Z) : Z :=
  if negb (elapsed_ns =? 0) && negb (verified =? 0) then verified * 1000000000000 / elapsed_ns else 0.

Definition throughput_receipt (verified elapsed_ns : Z) (token_count cost_units : option Z) :
    budgeted (list (string * Json.json)) :=
  let? _ := bounded_int (Some verified) "verified_tasks" 0 in
  let? _ := bounded_int (Some elapsed_ns) "elapsed_ns" 0 in
  let? _ := bounded_int token_count "token_count" 0 in
  let? _ := bounded_int cost_units "cost_units" 0 in
  let payload := [
    ("schema", Json.Str THROUGHPUT_SCHEMA);
    ("verified_tasks", Json.Int verified);
    ("elapsed_ns", Json.Int elapsed_ns);
    ("throughput_tasks_per_second_milli", Json.Int (tasks_per_second_milli verified elapsed_ns));
    ("token_count", json_opt_int token_count);
    ("tokens_per_verified_task_milli", json_opt_int (per_task_milli token_count verified));
    ("cost_units", json_opt_int cost_units);
    ("cost_units_per_verified_task_milli", json_opt_int (per_task_milli cost_units verified));
    ("null_reasons", Json.Obj (
       (if bool_decide (token_count = None) then [("tokens_per_verified_task_milli", Json.Str "token_count_not_observed")] else []) ++
       (if bool_decide (cost_units = None) then [("cost_units_per_verified_task_milli", Json.Str "cost_not_observed")] else [])))] in
  Ok (payload ++ [("receipt_hash", Json.Str (canonical_sha256 (Json.Obj payload)))]).

(** * Specification *)

(** An observation that only raises limits: no dimension is lower, some is
    different, and the provider asks for no new delay. *)
Definition relief (c o : BudgetObservation) : Prop :=
  (∀ n get, (n, get) ∈ DIMENSIONS → get (limit c) <= get (limit o)) ∧ limits o ≠ limits c ∧
  (provider_retry_after_ns o = None ∨ provider_retry_after_ns o = provider_retry_after_ns c).

(** The same sample again and again. *)
Fixpoint observe_n (k : nat) (g : AdaptiveBudgetGovernor) (s : BudgetSample) : budgeted AdaptiveBudgetGovernor :=
  match k with
  | O => Ok g
  | S k' => let? g' := observe_n k' g s in let? (g'', _) := observe g' s in Ok g''
  end.

Fixpoint observe_all (g : AdaptiveBudgetGovernor) (l : list BudgetSample) : budgeted AdaptiveBudgetGovernor :=
  match l with
  | [] => Ok g
  | s :: l' => let? (g', _) := observe g s in observe_all g' l'
  end.

(** The ledger's invariant: devices and leases are under their own names, and
    no device holds more leases than it takes. *)
Record ledger_wf (l : DeviceLeaseLedger) : Prop := {
  lw_device i d : devices l !! i = Some d → device_id d = i ∧ Str.truthy i = true ∧ 1 <= worker_limit d;
  lw_served i : is_Some (devices l !! i) → is_Some (ll_served l !! i);
  lw_lease t x : leases l !! t = Some x →
    dl_task_id x = t ∧ Str.truthy t = true ∧ Str.truthy (dl_capability x) = true ∧ 1 <= dl_fence x;
  lw_placed t x : leases l !! t = Some x → is_Some (devices l !! dl_device_id x);
  lw_capacity i d : devices l !! i = Some d → mcount (on_device i) (leases l) <= worker_limit d;
}.

Inductive ledger_step : DeviceLeaseLedger → DeviceLeaseLedger → Prop :=
| do_assign l t c l' x : assign l t c = Ok (l', x) → ledger_step l l'
| do_disconnect l i l' acts : disconnect l i = Ok (l', acts) → ledger_step l l'.

Definition ledger_reachable (l : DeviceLeaseLedger) : Prop :=
  ∃ ds l0, (∀ d, d ∈ ds → ∃ d0, DeviceCapacity_init d0 = Ok d) ∧ DeviceLeaseLedger_init ds = Ok l0 ∧ rtc ledger_step l0 l.

(** A lease moved to a device that can run it, under a higher fence. *)
Definition moved (ds : gmap string DeviceCapacity) (x y : DeviceLease) : Prop :=
  dl_task_id y = dl_task_id x ∧ dl_capability y = dl_capability x ∧ dl_fence y = dl_fence x + 1 ∧
  ∃ d, ds !! dl_device_id y = Some d ∧ connected d = true ∧ trusted d = true ∧ dl_capability y ∈ dc_capabilities d.

(** A lease stays or is replaced under a higher fence. *)
Definition advanced (l l' : DeviceLeaseLedger) : Prop :=
  ∀ t x, leases l !! t = Some x → ∃ y, leases l' !! t = Some y ∧ (y = x ∨ dl_fence x < dl_fence y).

(** Concrete samples and devices to check the theorems on. *)
Definition demo_policy : PrismPolicy := mkPolicy 10 None 8 3 true 1 1.
Definition demo_sample (w t : Z) : BudgetSample :=
  mkSample (list_to_map ((λ n, (n, if String.eqb n "workers" then w else 100)) <$> RESOURCE_NAMES)) None t [].
Definition demo_start : AdaptiveBudgetGovernor := mkGovernor demo_policy 3 ∅ None None 0 [].
Definition demo_governor : AdaptiveBudgetGovernor :=
  ok_or demo_start (let? (g, _) := observe demo_start (demo_sample 2 0) in Ok g).
Definition demo_observation (w t : Z) : BudgetObservation :=
  ok_or (default_observation demo_policy) (sample_observation (demo_sample w t) demo_policy []).
Definition demo_devices : list DeviceCapacity :=
  [mkDevice "laptop" 1 true true ["python"]; mkDevice "server" 2 true true ["python"; "rust"]].
Definition demo_ledger0 : DeviceLeaseLedger := ok_or (mkLedger ∅ ∅ ∅) (DeviceLeaseLedger_init demo_devices).
Definition demo_ledger : DeviceLeaseLedger :=
  ok_or demo_ledger0 (let? (l, _) := assign demo_ledger0 "task" "python" in Ok l).
Definition demo_ledger_lost : DeviceLeaseLedger :=
  ok_or demo_ledger (let? (l, _) := disconnect demo_ledger "laptop" in Ok l).

(** * Lemmas *)

Lemma check_Ok {A} b msg (k : unit → budgeted A) r :
  rbind (check b msg) k = Ok r ↔ b = true ∧ k tt = Ok r.
Proof. destruct b; simpl; naive_solver. Qed.

(** ** The governor *)

Lemma obs_eqb_refl o : obs_eqb o o = true.
Proof. unfold obs_eqb. by rewrite !bool_decide_eq_true_2. Qed.

Lemma obs_eqb_clock a b : obs_eqb a b = true → observed_at_ns a = observed_at_ns b.
Proof. unfold obs_eqb. intros H. rewrite !andb_true_iff, !bool_decide_eq_true in H. tauto. Qed.

Lemma observation_clock o o' : BudgetObservation_init o = Ok o' → observed_at_ns o' = observed_at_ns o.
Proof.
  unfold BudgetObservation_init. rewrite !ensure_Ok. intros (_ & _ & _ & _ & H). injection H as <-. reflexivity.
Qed.

Lemma sample_clock s p ds o : sample_observation s p ds = Ok o → observed_at_ns o = bs_observed_at_ns s.
Proof.
  unfold sample_observation. intros H. apply rbind_Ok in H as (_ & _ & H). unfold lift_scheduler in H.
  destruct (BudgetObservation_init _) as [o'|] eqn:E; [|discriminate H]. injection H as <-.
  exact (observation_clock _ _ E).
Qed.

Lemma existsb_zip_le (a b : list Z) :
  length a = length b → (∀ i x y, a !! i = Some x → b !! i = Some y → x <= y) →
  existsb (λ '(old, new), new <? old) (zip a b) = false.
Proof.
  revert b. induction a as [|x a IH]; intros [|y b] Hl Hle; try done. simpl in *.
  rewrite IH; [|lia|intros i u v Hu Hv; exact (Hle (S i) u v Hu Hv)].
  pose proof (Hle 0%nat x y eq_refl eq_refl). rewrite orb_false_r. apply Z.ltb_ge. done.
Qed.

Lemma judge_relief g c o :
  current g = Some c → relief c o →
  judge g o =
    let '(cand, streak) :=
      match candidate g with
      | Some k => if obs_eqb k o then (k, relief_streak g + 1) else (o, 1)
      | None => (o, 1)
      end in
    if streak <? relief_samples g then (false, "RELIEF_HYSTERESIS", Some cand, streak)
    else (true, "RELIEF_APPLIED", None, 0).
Proof.
  intros Hc (Hle & Hne & Hp). unfold judge. rewrite Hc.
  rewrite existsb_zip_le; [| |].
  - replace (match provider_retry_after_ns o with Some n => _ | None => false end) with false.
    + simpl. by rewrite bool_decide_eq_false_2.
    + destruct Hp as [->|Hp]; [done|]. destruct (provider_retry_after_ns o) as [n|]; [|done].
      symmetry. apply negb_false_iff, bool_decide_eq_true_2. by rewrite Hp.
  - unfold limits. by rewrite !length_fmap.
  - intros i x y. unfold limits. rewrite !list_lookup_fmap.
    destruct (DIMENSIONS !! i) as [[n get]|] eqn:E; [|done]. simpl. intros [= <-] [= <-].
    apply (Hle n). by apply list_elem_of_lookup_2 in E.
Qed.

(** The devices, the policy and the threshold never change. *)
Lemma observe_eq g s o :
  sample_observation s (ag_policy g) (map_to_list (ag_devices g)).*2 = Ok o →
  ∃ g' r, observe g s = Ok (g', r) ∧ ag_policy g' = ag_policy g ∧ ag_devices g' = ag_devices g ∧
    relief_samples g' = relief_samples g ∧
    let '(ok, why, cand, streak) := judge g o in
    current g' = (if ok then Some o else current g) ∧ candidate g' = cand ∧ relief_streak g' = streak ∧
    r = default o (current g') ∧ ∃ h, events g' = events g ++ [mkEvent ok why (observed_at_ns o) (limit o) (unavailable o) (null_reasons o) h].
Proof.
  intros Ho. unfold observe. rewrite Ho. cbn [rbind]. destruct (judge g o) as [[[ok why] cand] streak].
  eexists _, _. split; [reflexivity|]. do 7 (split; [reflexivity|]).
  eexists. reflexivity.
Qed.

Lemma observe_inv g s g' r : observe g s = Ok (g', r) →
  ∃ o, sample_observation s (ag_policy g) (map_to_list (ag_devices g)).*2 = Ok o.
Proof. unfold observe. intros H. apply rbind_Ok in H as (o & Ho & _). by exists o. Qed.

Lemma observe_n_hold g s o c k :
  sample_observation s (ag_policy g) (map_to_list (ag_devices g)).*2 = Ok o →
  current g = Some c → candidate g = None → relief c o → (0 < k)%nat → Z.of_nat k < relief_samples g →
  ∃ g', observe_n k g s = Ok g' ∧ ag_policy g' = ag_policy g ∧ ag_devices g' = ag_devices g ∧
    relief_samples g' = relief_samples g ∧ current g' = Some c ∧ candidate g' = Some o ∧ relief_streak g' = Z.of_nat k.
Proof.
  intros Ho Hc Hk0 Hr. induction k as [|[|k] IH]; intros Hk Hlt; [lia| |].
  - cbn [observe_n rbind]. destruct (observe_eq g s o Ho) as (g' & r & -> & H1 & H2 & H3 & H).
    rewrite (judge_relief g c o Hc Hr), Hk0 in H. rewrite (proj2 (Z.ltb_lt _ _)) in H by lia.
    destruct H as (H4 & H5 & H6 & _). exists g'. by rewrite H4.
  - destruct IH as (g1 & Hrun & H1 & H2 & H3 & H4 & H5 & H6); [lia|lia|].
    change (observe_n (S (S k)) g s) with (let? g' := observe_n (S k) g s in let? (g'', _) := observe g' s in Ok g'').
    rewrite Hrun. cbn [rbind]. rewrite <- H1, <- H2 in Ho.
    destruct (observe_eq g1 s o Ho) as (g' & r & -> & G1 & G2 & G3 & H). cbn [rbind].
    rewrite (judge_relief g1 c o H4 Hr), H5, obs_eqb_refl, H6, H3 in H.
    rewrite (proj2 (Z.ltb_lt _ _)) in H by lia. destruct H as (G4 & G5 & G6 & _).
    exists g'. split; [done|]. split; [congruence|]. split; [congruence|]. split; [congruence|].
    split; [congruence|]. split; [done|]. lia.
Qed.

Lemma judge_fresh g o seen :
  2 <= relief_samples g → observed_at_ns o ∉ seen → (∀ k, candidate g = Some k → observed_at_ns k ∈ seen) →
  ∀ ok why cand streak, judge g o = (ok, why, cand, streak) →
    why ≠ "RELIEF_APPLIED" ∧ ∀ k, cand = Some k → observed_at_ns k ∈ seen ++ [observed_at_ns o].
Proof.
  intros Hn Hfresh Hcand ok why cand streak. unfold judge. destruct (current g) as [c|].
  2:{ intros H. injection H as <- <- <- <-. split; [discriminate|]. intros k Hk. apply elem_of_app. left. by apply Hcand. }
  destruct (existsb _ _ || _).
  { intros H. injection H as <- <- <- <-. split; [discriminate|]. intros k Hk. discriminate Hk. }
  destruct (bool_decide (limits o = limits c)).
  { intros H. injection H as <- <- <- <-. split; [discriminate|]. intros k Hk. discriminate Hk. }
  assert ((match candidate g with
           | Some k => if obs_eqb k o then (k, relief_streak g + 1) else (o, 1)
           | None => (o, 1)
           end) = (o, 1)) as ->.
  { destruct (candidate g) as [k|] eqn:Ek; [|done]. destruct (obs_eqb k o) eqn:Eq; [|done].
    apply obs_eqb_clock in Eq. destruct Hfresh. rewrite <- Eq. by apply Hcand. }
  rewrite (proj2 (Z.ltb_lt _ _)) by lia. intros H. injection H as <- <- <- <-. split; [discriminate|].
  intros k Hk. injection Hk as <-. apply elem_of_app. right. by left.
Qed.

Lemma observe_all_cons g s l g' :
  observe_all g (s :: l) = Ok g' → ∃ g1 r, observe g s = Ok (g1, r) ∧ observe_all g1 l = Ok g'.
Proof. intros H. apply rbind_Ok in H as ([g1 r] & Hobs & Hrun). by exists g1, r. Qed.

(** The candidate was seen in an earlier sample, and its streak is one. *)
Lemma observe_all_fresh l g g' seen :
  2 <= relief_samples g → NoDup (seen ++ (bs_observed_at_ns <$> l)) →
  (∀ k, candidate g = Some k → observed_at_ns k ∈ seen) →
  observe_all g l = Ok g' →
  ∀ e, e ∈ events g' → e ∈ events g ∨ ev_reason e ≠ "RELIEF_APPLIED".
Proof.
  revert g seen. induction l as [|s l IH]; intros g seen Hn Hnd Hcand Hrun e He.
  { injection Hrun as <-. by left. }
  destruct (observe_all_cons g s l g' Hrun) as (g1 & r & Hobs & Hrun').
  clear Hrun. rename Hrun' into Hrun. destruct (observe_inv g s g1 r Hobs) as [o Ho].
  destruct (observe_eq g s o Ho) as (g2 & r2 & Hobs' & _ & _ & Hrs & H). rewrite Hobs in Hobs'.
  injection Hobs' as <- <-. pose proof (sample_clock _ _ _ _ Ho) as Hclk.
  rewrite fmap_cons, cons_middle, app_assoc in Hnd. rewrite <- Hclk in Hnd.
  assert (observed_at_ns o ∉ seen) as Hfresh.
  { apply NoDup_app in Hnd as (Hnd & _ & _). apply NoDup_app in Hnd as (_ & Hno & _). intros Hin.
    apply (Hno _ Hin). by left. }
  pose proof (judge_fresh g o seen Hn Hfresh Hcand) as Hj.
  destruct (judge g o) as [[[ok why] cand] streak] eqn:Ej. destruct (Hj _ _ _ _ eq_refl) as [Hwhy Hc].
  destruct H as (_ & Hcd & _ & _ & h & Hev).
  destruct (IH g1 (seen ++ [observed_at_ns o])) with (e := e) as [Hin|Hne]; [by rewrite Hrs|done| |done|done| |by right].
  - intros k Hk. apply Hc. congruence.
  - rewrite Hev in Hin. apply elem_of_app in Hin as [Hin| ->%list_elem_of_singleton]; [by left|by right].
Qed.

(** ** The ledger *)

Lemma DeviceCapacity_ok d d' : DeviceCapacity_init d = Ok d' →
  device_id d' = device_id d ∧ worker_limit d' = worker_limit d ∧ connected d' = connected d ∧ trusted d' = trusted d ∧
  Str.truthy (device_id d) = true ∧ 1 <= worker_limit d.
Proof.
  unfold DeviceCapacity_init, bounded_int. rewrite !check_Ok. intros (Ht & Hw & H). injection H as <-.
  apply negb_true_iff, Z.ltb_ge in Hw. done.
Qed.

Lemma DeviceCapacity_total d : Str.truthy (device_id d) = true → 1 <= worker_limit d →
  ∃ d', DeviceCapacity_init d = Ok d'.
Proof.
  intros Ht Hw. unfold DeviceCapacity_init, bounded_int. rewrite Ht. cbn [check rbind].
  rewrite (proj2 (Z.ltb_ge _ _)) by done. cbn [negb check rbind]. by eexists.
Qed.

Lemma DeviceLease_total l : Str.truthy (dl_task_id l) = true → Str.truthy (dl_device_id l) = true →
  Str.truthy (dl_capability l) = true → 1 <= dl_fence l → DeviceLease_init l = Ok l.
Proof.
  intros H1 H2 H3 Hf. unfold DeviceLease_init, bounded_int. rewrite H1, H2, H3. cbn [andb check rbind].
  by rewrite (proj2 (Z.ltb_ge _ _)).
Qed.

Lemma DeviceLease_ok l l' : DeviceLease_init l = Ok l' →
  l' = l ∧ Str.truthy (dl_task_id l) = true ∧ Str.truthy (dl_capability l) = true ∧ 1 <= dl_fence l.
Proof.
  unfold DeviceLease_init, bounded_int. rewrite !check_Ok, !andb_true_iff. intros ([[H1 H2] H3] & Hf & H).
  injection H as <-. by apply negb_true_iff, Z.ltb_ge in Hf.
Qed.

Lemma elem_of_candidates l cap d : ledger_wf l → d ∈ candidates l cap →
  devices l !! device_id d = Some d ∧ connected d = true ∧ trusted d = true ∧ cap ∈ dc_capabilities d ∧
  mcount (on_device (device_id d)) (leases l) < worker_limit d.
Proof.
  intros Hwf H. apply list_elem_of_In, filter_In in H as [Hin H]. apply list_elem_of_In in Hin.
  apply list_elem_of_fmap in Hin as ([i d'] & -> & Hi). apply elem_of_map_to_list in Hi. simpl in *.
  destruct (lw_device l Hwf i d' Hi) as (-> & _). unfold can_take in H.
  rewrite !andb_true_iff, bool_decide_eq_true, Z.ltb_lt in H.
  destruct (lw_device l Hwf i d' Hi) as (<- & _). naive_solver.
Qed.

Lemma keyed_spec l ds : (∀ d, d ∈ ds → is_Some (ll_served l !! device_id d)) →
  ∃ ks, keyed l ds = Ok ks ∧ ks.*2 = ds ∧ ∀ n d, (n, d) ∈ ks → ll_served l !! device_id d = Some n.
Proof.
  induction ds as [|d ds IH]; intros H.
  { exists []. split; [done|]. split; [done|]. intros n d Hin. by apply not_elem_of_nil in Hin. }
  destruct (H d ltac:(by left)) as [n Hn]. destruct IH as (ks & Hk & Hds & Hks); [intros u Hu; apply H; by right|].
  exists ((n, d) :: ks). cbn [keyed]. rewrite Hn. cbn [or_raise rbind]. rewrite Hk. split; [done|].
  split; [by rewrite fmap_cons, Hds|]. intros n' d' [[= -> ->]|Hin]%elem_of_cons; [done|eauto].
Qed.

Lemma least_in x ks : least x ks ∈ x :: ks.
Proof.
  revert x. unfold least. induction ks as [|k ks IH]; intros x; cbn [foldl]; [by left|].
  specialize (IH (if key_lt k x then k else x)).
  apply elem_of_cons in IH as [->|IH]; [destruct (key_lt k x); [right|]; left|right; right]; done.
Qed.

Lemma choose_spec l cap : ledger_wf l →
  (choose l cap = Ok None ∧ candidates l cap = []) ∨
  (∃ n d, choose l cap = Ok (Some (n, d)) ∧ d ∈ candidates l cap).
Proof.
  intros Hwf. unfold choose. destruct (keyed_spec l (candidates l cap)) as (ks & -> & Hds & Hks).
  { intros d Hd. apply (elem_of_candidates l cap d Hwf) in Hd as (Hd & _). apply (lw_served l Hwf). by eexists. }
  cbn [rbind]. destruct ks as [|k ks]; [left; by simpl in Hds|right].
  destruct (least k ks) as [n d] eqn:E. exists n, d. split; [done|]. rewrite <- Hds.
  apply list_elem_of_fmap. exists (n, d). split; [done|]. rewrite <- E. apply least_in.
Qed.

(** Placing a lease on a device with room, in the place of one that was not on
    it. *)
Lemma place_wf l t x n d :
  ledger_wf l → devices l !! device_id d = Some d → mcount (on_device (device_id d)) (leases l) < worker_limit d →
  dl_task_id x = t → dl_device_id x = device_id d → Str.truthy t = true → Str.truthy (dl_capability x) = true →
  1 <= dl_fence x →
  ledger_wf (l <| leases ::= <[t := x]> |> <| ll_served ::= <[device_id d := n]> |>).
Proof.
  intros Hwf Hd Hroom Ht Hx Htt Hc Hf. destruct Hwf. constructor; simpl.
  - done.
  - intros i Hi. rewrite lookup_insert. case_decide; [by eexists|auto].
  - intros u y. rewrite lookup_insert. case_decide; [intros [= <-]; by subst|eauto].
  - intros u y. rewrite lookup_insert. case_decide; [intros [= <-]; rewrite Hx; by eexists|eauto].
  - intros i d' Hi. specialize (lw_capacity0 i d' Hi). unfold mcount in *.
    destruct (leases l !! t) as [y|] eqn:Ey.
    + rewrite (msum_replace _ _ t y) by done. unfold on_device at 2 3. rewrite Hx.
      destruct (String.eqb_spec (device_id d) i) as [<-|]; [|destruct (String.eqb _ _); lia].
      rewrite Hd in Hi. injection Hi as <-. destruct (String.eqb _ _); lia.
    + rewrite msum_insert by done. unfold on_device at 1. rewrite Hx.
      destruct (String.eqb_spec (device_id d) i) as [<-|]; [|lia]. rewrite Hd in Hi. injection Hi as <-. lia.
Qed.

Lemma ledger_wf_devices l i d d' :
  ledger_wf l → devices l !! i = Some d → device_id d' = i → worker_limit d' = worker_limit d →
  ledger_wf (l <| devices ::= <[i := d']> |>).
Proof.
  intros Hwf Hd Hi Hw. destruct Hwf. constructor; simpl; try done.
  - intros j e. rewrite lookup_insert. case_decide as E; [|eauto]. intros [= <-]. subst j.
    destruct (lw_device0 i d Hd) as (_ & ? & ?). by rewrite Hw.
  - intros j. rewrite lookup_insert. case_decide as E; [|eauto]. intros _. subst j. apply lw_served0. by eexists.
  - intros t x Hx. rewrite lookup_insert. case_decide; [by eexists|eauto].
  - intros j e. rewrite lookup_insert. case_decide as E; [|eauto]. intros [= <-]. subst j. rewrite Hw. eauto.
Qed.

Lemma rebalance_spec from items l :
  ledger_wf l → NoDup items.*1 → (∀ t x, (t, x) ∈ items → leases l !! t = Some x) →
  ∃ l' acts, rebalance from items l = Ok (l', acts) ∧ ledger_wf l' ∧ devices l' = devices l ∧
    (∀ t, t ∉ items.*1 → leases l' !! t = leases l !! t) ∧
    ∀ t x, (t, x) ∈ items → ∃ y, leases l' !! t = Some y ∧
      (y = x ∨ (dl_device_id x = from ∧ moved (devices l) x y)).
Proof.
  revert l. induction items as [|[t x] items IH]; intros l Hwf Hnd Hit.
  { exists l, []. split; [done|]. split; [done|]. split; [done|]. split; [done|].
    intros t x H. by apply not_elem_of_nil in H. }
  pose proof (Hit t x ltac:(by left)) as Hx. apply NoDup_cons in Hnd as [Hni Hnd].
  assert (∀ u y, (u, y) ∈ items → leases l !! u = Some y) as Hit' by (intros u y Hu; apply Hit; by right).
  cbn [rebalance]. unfold on_device at 1. destruct (String.eqb_spec (dl_device_id x) from) as [Hfrom|Hne]; cbn [negb].
  2:{ destruct (IH l Hwf Hnd Hit') as (l' & acts & -> & H1 & H2 & H3 & H4). exists l', acts.
      split; [done|]. split; [done|]. split; [done|]. split.
      - intros u [Hu Hu']%not_elem_of_cons. by apply H3.
      - intros u y [[= -> ->]|Hu]%elem_of_cons; [|by apply H4]. exists x. rewrite H3 by done. by split; [|left]. }
  assert (∃ l1 act, (let? c := choose l (dl_capability x) in
      match c with
      | None => Ok (l, rebalance_action t from None (dl_fence x) None "DEVICE_LOST_RECOVERY_REQUIRED")
      | Some (n, d) =>
          let? new := DeviceLease_init (x <| dl_device_id := device_id d |> <| dl_fence ::= Z.succ |>) in
          Ok (l <| leases ::= <[t := new]> |> <| ll_served ::= <[device_id d := n + 1]> |>,
              rebalance_action t from (Some (device_id d)) (dl_fence x) (Some (dl_fence new)) "DEVICE_LOST_REBALANCED")
      end) = Ok (l1, act) ∧ ledger_wf l1 ∧ devices l1 = devices l ∧
      (∀ u, u ≠ t → leases l1 !! u = leases l !! u) ∧
      ∃ y, leases l1 !! t = Some y ∧ (y = x ∨ moved (devices l) x y)) as (l1 & act & Hstep & Hwf1 & Hd1 & Ho1 & y & Hy & Hxy).
  { destruct (lw_lease l Hwf t x Hx) as (H1 & H2 & H3 & H4).
    destruct (choose_spec l (dl_capability x) Hwf) as [[-> _]|(n & d & -> & Hd)]; cbn [rbind].
    - eexists l, _. split; [reflexivity|]. split; [done|]. split; [done|]. split; [done|]. exists x. by split; [|left].
    - destruct (elem_of_candidates l _ d Hwf Hd) as (Hdd & Hc & Ht & Hcap & Hroom).
      destruct (lw_device l Hwf _ d Hdd) as (_ & Htd & _).
      rewrite DeviceLease_total; [|simpl; try done; congruence..|simpl; lia]. cbn [rbind].
      eexists _, _. split; [reflexivity|]. split.
      { apply place_wf; try done; simpl; lia. }
      split; [done|]. split; [intros u Hu; by apply lookup_insert_ne|].
      eexists. split; [apply lookup_insert_eq|]. right. unfold moved. simpl.
      split; [done|]. split; [done|]. split; [lia|]. by exists d. }
  assert (∀ A (m1 : budgeted (option (Z * DeviceCapacity))) (f : _ → budgeted (DeviceLeaseLedger * RebalanceAction)) (k : _ → budgeted A),
    rbind m1 (λ c, rbind (f c) k) = rbind (rbind m1 f) k) as Hassoc by (intros A [] f k; done).
  rewrite Hassoc. rewrite Hstep. cbn [rbind].
  destruct (IH l1 Hwf1 Hnd) as (l' & acts & -> & H1 & H2 & H3 & H4).
  { intros u z Hu. rewrite Ho1; [by apply Hit'|]. intros ->. apply Hni. apply list_elem_of_fmap. by exists (t, z). }
  cbn [rbind]. exists l', (act :: acts). split; [done|]. split; [done|]. split; [congruence|]. split.
  - intros u [Hu Hu']%not_elem_of_cons. rewrite H3 by done. by apply Ho1.
  - intros u z [[= -> ->]|Hu]%elem_of_cons.
    + exists y. rewrite H3 by done. split; [done|]. naive_solver.
    + rewrite <- Hd1. by apply H4.
Qed.

(** A sample that says why its worker count is unknown passes its own check and
    still cannot be observed: the count is taken from the policy, so it is not
    among the unavailable metrics. *)
Lemma unknown_workers_reason :
  let s := mkSample ∅ None 0 [("workers", "not measured")] in
  BudgetSample_check s = Ok tt ∧
  sample_observation s demo_policy [] = Err (SchedulerError (PrismSchedulerError "null_reasons require unavailable metrics")).
Proof. split; vm_compute; reflexivity. Qed.

Lemma by_device_lookup l i d : by_device l !! i = Some d → d ∈ l ∧ device_id d = i.
Proof.
  unfold by_device. assert (∀ (m : gmap string DeviceCapacity),
    foldl (λ m d, <[device_id d := d]> m) m l !! i = Some d → m !! i = Some d ∨ (d ∈ l ∧ device_id d = i)) as H.
  { induction l as [|e l IH]; intros m H; cbn [foldl] in H; [by left|].
    destruct (IH _ H) as [He|[Hd Hi]]; [|right; split; [by right|done]].
    rewrite lookup_insert in He. case_decide; [|by left]. injection He as ->. right. split; [by left|done]. }
  intros Hl. destruct (H ∅ Hl) as [He|He]; [|done]. by rewrite lookup_empty in He.
Qed.

Lemma served_lookup l i (d : DeviceCapacity) : d ∈ l → device_id d = i →
  is_Some (foldl (λ m d, <[device_id d := 0]> m) (∅ : gmap string Z) l !! i).
Proof.
  assert (∀ (m : gmap string Z), is_Some (m !! i) ∨ (∃ d, d ∈ l ∧ device_id d = i) →
    is_Some (foldl (λ m d, <[device_id d := 0]> m) m l !! i)) as H.
  { induction l as [|e l IH]; intros m H; cbn [foldl].
    - destruct H as [H|(u & Hu & _)]; [done|by apply not_elem_of_nil in Hu].
    - apply IH. destruct H as [H|(u & [->|Hu]%elem_of_cons & Hi)]; [left..|right; by exists u];
        rewrite lookup_insert; case_decide; try done; by eexists. }
  intros Hd Hi. apply H. right. by exists d.
Qed.

Lemma wf_ledger_init ds l :
  (∀ d, d ∈ ds → ∃ d0, DeviceCapacity_init d0 = Ok d) → DeviceLeaseLedger_init ds = Ok l → ledger_wf l.
Proof.
  intros Hds H. unfold DeviceLeaseLedger_init in H. rewrite check_Ok in H. destruct H as [_ H]. injection H as <-.
  assert (∀ i d, by_device ds !! i = Some d → device_id d = i ∧ Str.truthy i = true ∧ 1 <= worker_limit d) as Hdev.
  { intros i d Hd. apply by_device_lookup in Hd as [Hd Hi]. destruct (Hds d Hd) as [d0 Hd0].
    apply DeviceCapacity_ok in Hd0 as (H1 & H2 & _ & _ & H5 & H6). rewrite <- Hi, H1, H2. done. }
  constructor; simpl; try done.
  - intros i [d Hd]. apply by_device_lookup in Hd as [Hd Hi]. by apply (served_lookup ds i d).
  - intros i d Hd. destruct (Hdev i d Hd) as (_ & _ & ?). change (0 <= worker_limit d). lia.
Qed.

Lemma assign_spec l t c l' x : ledger_wf l → assign l t c = Ok (l', x) →
  ledger_wf l' ∧ leases l !! t = None ∧ leases l' = <[t := x]> (leases l).
Proof.
  intros Hwf H. unfold assign in H. rewrite check_Ok in H.
  destruct H as [Hn%negb_true_iff%bool_decide_eq_false_1%eq_None_not_Some H].
  destruct (choose_spec l c Hwf) as [[Hc _]|(n & d & Hc & Hd)]; rewrite Hc in H; cbn [rbind] in H; [done|].
  apply rbind_Ok in H as (y & Hy & H). injection H as <- <-.
  apply DeviceLease_ok in Hy as (-> & H1 & H2 & H3). simpl in H1, H2, H3.
  destruct (elem_of_candidates l _ d Hwf Hd) as (Hdd & _ & _ & _ & Hroom).
  split; [|done]. by apply (place_wf l t _ (n + 1) d).
Qed.

(** Every lease of a lost device either stays, for recovery, or moves. *)
Lemma disconnect_spec l i : ledger_wf l → is_Some (devices l !! i) →
  ∃ l' acts, disconnect l i = Ok (l', acts) ∧ ledger_wf l' ∧
    (∃ d, devices l' !! i = Some d ∧ connected d = false) ∧
    ∀ t, (leases l !! t = None → leases l' !! t = None) ∧
      ∀ x, leases l !! t = Some x → ∃ y, leases l' !! t = Some y ∧
        (y = x ∨ (dl_device_id x = i ∧ moved (devices l') x y)).
Proof.
  intros Hwf [d Hd]. unfold disconnect. rewrite Hd. destruct (lw_device l Hwf i d Hd) as (Hi & Ht & Hw).
  destruct (DeviceCapacity_total (d <| connected := false |>)) as [d' Hd']; [by simpl; subst|done|].
  rewrite Hd'. cbn [rbind]. apply DeviceCapacity_ok in Hd' as (H1 & H2 & H3 & _). simpl in H1, H2, H3.
  set (l1 := l <| devices ::= <[i := d']> |>).
  assert (ledger_wf l1) as Hwf1 by (apply (ledger_wf_devices l i d d'); try done; congruence).
  assert (∀ t x, (t, x) ∈ merge_sort lease_item_le (map_to_list (leases l1)) ↔ leases l !! t = Some x) as Hit.
  { intros t x. rewrite (merge_sort_Permutation lease_item_le). apply elem_of_map_to_list. }
  destruct (rebalance_spec i (merge_sort lease_item_le (map_to_list (leases l1))) l1 Hwf1) as (l' & acts & Hrun & G1 & G2 & G3 & G4).
  - rewrite (merge_sort_Permutation lease_item_le). apply NoDup_fst_map_to_list.
  - intros t x. by rewrite Hit.
  - exists l', acts. split; [exact Hrun|]. split; [done|]. split.
    { exists d'. rewrite G2. split; [apply lookup_insert_eq|done]. }
    intros t. split.
    + intros Hn. rewrite G3; [done|]. intros ([u x] & -> & Hin)%list_elem_of_fmap. apply Hit in Hin. simpl in Hn. congruence.
    + intros x Hx. destruct (G4 t x) as (y & Hy & Hxy); [by apply Hit|]. exists y. rewrite G2. done.
Qed.

Lemma ledger_step_inv l l' : ledger_wf l → ledger_step l l' → ledger_wf l' ∧ advanced l l'.
Proof.
  intros Hwf Hs. destruct Hs as [l t c l' x H|l i l' acts H].
  - apply assign_spec in H as (Hwf' & Hn & Hl); [|done]. split; [done|]. intros u y Hu. exists y.
    split; [|by left]. rewrite Hl, lookup_insert_ne; [done|]. intros ->. congruence.
  - destruct (devices l !! i) as [d|] eqn:Ed; [|by unfold disconnect in H; rewrite Ed in H].
    destruct (disconnect_spec l i Hwf) as (l2 & a & H2 & Hwf' & _ & Hl); [by eexists|].
    rewrite H in H2. injection H2 as -> ->. split; [done|]. intros t x Hx.
    destruct (Hl t) as [_ Hl']. destruct (Hl' x Hx) as (y & Hy & Hxy). exists y.
    split; [done|]. destruct Hxy as [->|(_ & _ & _ & Hf & _)]; [by left|right; lia].
Qed.

Lemma ledger_steps_inv l l' : ledger_wf l → rtc ledger_step l l' → ledger_wf l' ∧ advanced l l'.
Proof.
  intros Hwf Hr. induction Hr as [l|l1 l2 l3 Hs Hr IH].
  - split; [done|]. intros t x Hx. exists x. by split; [|left].
  - destruct (ledger_step_inv l1 l2 Hwf Hs) as [Hwf2 Ha]. destruct (IH Hwf2) as [Hwf3 Hb]. split; [done|].
    intros t x Hx. destruct (Ha t x Hx) as (y & Hy & Hxy). destruct (Hb t y Hy) as (z & Hz & Hyz).
    exists z. split; [done|]. destruct Hxy as [->|]; [done|]. right. destruct Hyz as [->|]; lia.
Qed.

Lemma ledger_reachable_wf l : ledger_reachable l → ledger_wf l.
Proof.
  intros (ds & l0 & Hds & H0 & Hr). exact (proj1 (ledger_steps_inv l0 l (wf_ledger_init ds l0 Hds H0) Hr)).
Qed.

Lemma assert_current_Ok l x : assert_current l x = Ok tt ↔ leases l !! dl_task_id x = Some x.
Proof. unfold assert_current, check. case_bool_decide; naive_solver. Qed.

Lemma assert_current_Err l x :
  leases l !! dl_task_id x ≠ Some x → assert_current l x = Err (PrismBudgetError "STALE_DEVICE_FENCE").
Proof. intros H. unfold assert_current, check. by rewrite bool_decide_eq_false_2. Qed.

(** * Properties *)

(** the governor answers pressure at once and relief after stable samples.
    An observation below the current budget in any dimension becomes the budget
    immediately and drops the pending relief. An observation that only raises
    limits, repeated unchanged, leaves the budget alone until the
    [relief_samples]-th time, and becomes the budget then. *)
Theorem governor_hysteresis g s o c :
  sample_observation s (ag_policy g) (map_to_list (ag_devices g)).*2 = Ok o → current g = Some c →
  ((∃ n get, (n, get) ∈ DIMENSIONS ∧ get (limit o) < get (limit c)) →
     ∃ g', observe g s = Ok (g', o) ∧ current g' = Some o ∧ candidate g' = None ∧ relief_streak g' = 0) ∧
  (relief c o → candidate g = None →
     (∀ k, Z.of_nat k < relief_samples g → ∃ g', observe_n k g s = Ok g' ∧ current g' = Some c) ∧
     (1 < relief_samples g → ∃ g', observe_n (Z.to_nat (relief_samples g)) g s = Ok g' ∧ current g' = Some o)).
Proof.
  intros Ho Hc. split.
  - intros (n & get & Hin & Hlt). destruct (observe_eq g s o Ho) as (g' & r & Hrun & _ & _ & _ & H).
    assert (judge g o = (true, "PRESSURE_APPLIED", None, 0)) as Hj.
    { unfold judge. rewrite Hc. rewrite (proj2 (existsb_exists _ _)); [done|].
      exists (get (limit c), get (limit o)). split; [|by apply Z.ltb_lt].
      apply list_elem_of_In, list_elem_of_lookup. apply list_elem_of_lookup in Hin as [i Hi]. exists i.
      apply lookup_zip_with_Some. exists (get (limit c)), (get (limit o)). unfold limits.
      rewrite !list_lookup_fmap, Hi. done. }
    rewrite Hj in H. destruct H as (H1 & H2 & H3 & H4 & _). rewrite H1 in H4. simpl in H4. subst r. by exists g'.
  - intros Hr Hk. split.
    + intros [|k] Hlt; [by exists g|].
      destruct (observe_n_hold g s o c (S k) Ho Hc Hk Hr) as (g' & H & _ & _ & _ & Hcur & _); [lia|done|]. by exists g'.
    + intros H1. assert (∃ m, Z.to_nat (relief_samples g) = S m ∧ (0 < m)%nat ∧ Z.of_nat m + 1 = relief_samples g)
        as (m & -> & Hm & Hn) by (exists (Nat.pred (Z.to_nat (relief_samples g))); lia).
      destruct (observe_n_hold g s o c m Ho Hc Hk Hr Hm) as (g1 & Hrun & G1 & G2 & G3 & G4 & G5 & G6); [lia|].
      cbn [observe_n]. rewrite Hrun. cbn [rbind]. rewrite <- G1, <- G2 in Ho.
      destruct (observe_eq g1 s o Ho) as (g' & r & -> & _ & _ & _ & H). cbn [rbind].
      rewrite (judge_relief g1 c o G4 Hr), G5, obs_eqb_refl, G6, G3 in H.
      rewrite (proj2 (Z.ltb_ge _ _)) in H by lia. exists g'. split; [done|]. apply H.
Qed.

Lemma governor_hysteresis_witness :
  (∃ g', observe_n 3 demo_governor (demo_sample 6 5) = Ok g' ∧ current g' = Some (demo_observation 6 5)) ∧
  (∃ g', observe_n 2 demo_governor (demo_sample 6 5) = Ok g' ∧ current g' = Some (demo_observation 2 0)).
Proof.
  assert (sample_observation (demo_sample 6 5) (ag_policy demo_governor) (map_to_list (ag_devices demo_governor)).*2
    = Ok (demo_observation 6 5)) as Ho by (vm_compute; reflexivity).
  assert (current demo_governor = Some (demo_observation 2 0)) as Hc by (vm_compute; reflexivity).
  assert (candidate demo_governor = None) as Hk by (vm_compute; reflexivity).
  assert (relief_samples demo_governor = 3) as Hn by (vm_compute; reflexivity).
  assert (relief (demo_observation 2 0) (demo_observation 6 5)) as Hr.
  { split; [|split; [vm_compute; discriminate|left; vm_compute; reflexivity]].
    assert (forallb (λ '(_, get), get (limit (demo_observation 2 0)) <=? get (limit (demo_observation 6 5))) DIMENSIONS = true)
      as H by (vm_compute; reflexivity).
    rewrite forallb_forall in H. intros n get Hin. apply list_elem_of_In in Hin. apply Z.leb_le. exact (H _ Hin). }
  destruct (governor_hysteresis demo_governor (demo_sample 6 5) _ _ Ho Hc) as [_ H].
  destruct (H Hr Hk) as [H1 H2]. rewrite Hn in H1, H2. split.
  - exact (H2 ltac:(lia)).
  - exact (H1 2%nat ltac:(lia)).
Defined.

(** a finding. Two samples of different times never count as the same
    relief, because the time of observation takes part in the comparison: when
    no two samples carry the same time and more than one sample is required,
    relief is never applied, however long the better capacity lasts. *)
Theorem relief_needs_equal_times p n ds g samples g' :
  AdaptiveBudgetGovernor_init p n ds = Ok g → 2 <= n → NoDup (bs_observed_at_ns <$> samples) →
  observe_all g samples = Ok g' → ∀ e, e ∈ events g' → ev_reason e ≠ "RELIEF_APPLIED".
Proof.
  intros Hg Hn Hnd Hrun e He. unfold AdaptiveBudgetGovernor_init in Hg. rewrite check_Ok in Hg.
  destruct Hg as [_ Hg]. injection Hg as <-.
  destruct (observe_all_fresh samples (mkGovernor p n (by_device ds) None None 0 []) g' [] Hn Hnd
    ltac:(discriminate) Hrun e He) as [Hin|H]; [by apply not_elem_of_nil in Hin|done].
Qed.

Lemma relief_needs_equal_times_witness :
  ∃ g', observe_all demo_start [demo_sample 2 0; demo_sample 6 1; demo_sample 6 2; demo_sample 6 3; demo_sample 6 4] = Ok g' ∧
    (∀ e, e ∈ events g' → ev_reason e ≠ "RELIEF_APPLIED") ∧ current g' = Some (demo_observation 2 0).
Proof.
  set (samples := [demo_sample 2 0; demo_sample 6 1; demo_sample 6 2; demo_sample 6 3; demo_sample 6 4]).
  set (g' := ok_or demo_start (observe_all demo_start samples)).
  assert (observe_all demo_start samples = Ok g') as Hrun by (vm_compute; reflexivity).
  exists g'. split; [exact Hrun|]. split; [|vm_compute; reflexivity].
  refine (relief_needs_equal_times demo_policy 3 [] demo_start samples g' eq_refl _ _ Hrun); [lia|].
  apply (bool_decide_unpack _). vm_compute. exact I.
Defined.

(** device leases stay safe over every sequence of assignments and device
    losses: no device ever holds more leases than its worker limit, a lost
    device always disconnects and each of its leases either stays for recovery
    or moves to a connected, trusted, capable device under the next fence, and a
    lease that stopped being current is refused as stale ever after. *)
Theorem device_leases_safe l : ledger_reachable l →
  (∀ i d, devices l !! i = Some d → mcount (on_device i) (leases l) <= worker_limit d) ∧
  (∀ i, is_Some (devices l !! i) → ∃ l' acts, disconnect l i = Ok (l', acts) ∧
     ∀ t x, leases l !! t = Some x → ∃ y, leases l' !! t = Some y ∧
       (y = x ∨ (dl_device_id x = i ∧ moved (devices l') x y))) ∧
  (∀ l1 l2 x, rtc ledger_step l l1 → rtc ledger_step l1 l2 → assert_current l x = Ok tt →
     assert_current l1 x ≠ Ok tt → assert_current l2 x = Err (PrismBudgetError "STALE_DEVICE_FENCE")).
Proof.
  intros Hwf%ledger_reachable_wf. split; [apply (lw_capacity l Hwf)|]. split.
  - intros i Hi. destruct (disconnect_spec l i Hwf Hi) as (l' & acts & H & _ & _ & Hl). exists l', acts.
    split; [done|]. intros t. apply Hl.
  - intros l1 l2 x Hr1 Hr2 H0 H1. apply assert_current_Ok in H0. rewrite assert_current_Ok in H1. apply assert_current_Err. intros E2.
    destruct (ledger_steps_inv l l1 Hwf Hr1) as [Hwf1 Ha]. destruct (ledger_steps_inv l1 l2 Hwf1 Hr2) as [_ Hb].
    destruct (Ha _ x H0) as (y & Hy & [->|Hxy]); [done|]. destruct (Hb _ y Hy) as (z & Hz & Hyz).
    rewrite E2 in Hz. injection Hz as <-. destruct Hyz as [->|]; lia.
Qed.

Lemma device_leases_safe_witness :
  let x := mkLease "task" "laptop" 1 "python" in
  assert_current demo_ledger x = Ok tt ∧ assert_current demo_ledger_lost x ≠ Ok tt ∧
  leases demo_ledger_lost !! "task" = Some (mkLease "task" "server" 2 "python") ∧
  ∀ l2, rtc ledger_step demo_ledger_lost l2 → assert_current l2 x = Err (PrismBudgetError "STALE_DEVICE_FENCE").
Proof.
  intros x.
  assert (ledger_reachable demo_ledger) as Hreach.
  { exists demo_devices, demo_ledger0. split; [|split; [vm_compute; reflexivity|]].
    - intros d Hd. exists d. apply elem_of_cons in Hd as [->|Hd]; [vm_compute; reflexivity|].
      apply list_elem_of_singleton in Hd as ->. vm_compute. reflexivity.
    - apply rtc_once, (do_assign _ "task" "python" _ x). vm_compute. reflexivity. }
  assert (assert_current demo_ledger x = Ok tt) as H0 by (vm_compute; reflexivity).
  assert (assert_current demo_ledger_lost x ≠ Ok tt) as H1 by (vm_compute; discriminate).
  destruct (device_leases_safe demo_ledger Hreach) as (_ & _ & H).
  split; [exact H0|]. split; [exact H1|]. split; [vm_compute; reflexivity|]. intros l2 Hr.
  refine (H demo_ledger_lost l2 x _ Hr H0 H1).
  apply rtc_once, (do_disconnect _ "laptop" _
    (ok_or [] (let? (_, a) := disconnect demo_ledger "laptop" in Ok a))). vm_compute. reflexivity.
Defined.
