(* ===== verification/PrismReducer.v ===== *)
(** The Prism reducer ([simplicio_loop/prism_reducer.py]): results are
    accumulated in any order and reduced to slot and prism receipts that do not
    depend on it. *)
From S2P Require Import Prelude PyLib Graph PrismContracts.
Local Open Scope Z_scope.
Local Open Scope py_scope.

(** * Definitions *)

Definition RESULT_SCHEMA : string := "simplicio.prism-task-result/v1".
Definition CANDIDATE_SCHEMA : string := "simplicio.loop.candidate/v1".
Definition SLOT_RECEIPT_SCHEMA : string := "simplicio.prism-slot-reducer-receipt/v1".
Definition PRISM_RECEIPT_SCHEMA : string := "simplicio.prism-reducer-receipt/v1".
Definition CONFLICT_BUNDLE_SCHEMA : string := "simplicio.loop.conflict-bundle/v1".
Definition TERMINAL_VERDICTS : list string := ["accepted"; "failed"; "blocked"; "cancelled"].

Inductive ReducerExn : Type :=
| PrismReducerError (msg : string).

Notation reduced := (result ReducerExn).

Definition demand (ok : bool) (msg : string) : reduced unit :=
  if ok then Ok tt else Err (PrismReducerError msg).

(** [_sha] *)
Definition sha_text (value name : string) : reduced string :=
  let r := Str.lower (Str.strip value) in
  let? _ := demand (Nat.eqb (String.length r) 64 && forallb is_hex (String.list_ascii_of_string r))
              (name +:+ " must be lowercase SHA-256") in
  Ok r.

(** [_items] *)
Definition items_of (l : list string) : list string := sorted_set (List.filter Str.truthy (Str.strip <$> l)).

(** [for name in (...): if not str(getattr(self, name)).strip()] *)
Fixpoint required (fields : list (string * string)) : reduced unit :=
  match fields with
  | [] => Ok tt
  | (name, v) :: fields' =>
      let? _ := demand (Str.truthy (Str.strip v)) (name +:+ " is required") in required fields'
  end.

Fixpoint sha_all (l : list string) (name : string) : reduced (list string) :=
  match l with
  | [] => Ok []
  | v :: l' => let? h := sha_text v name in let? rest := sha_all l' name in Ok (h :: rest)
  end.

Record ExpectedTask := mkExpected {
  ex_task_id : string;
  ex_slot_id : string;
  ex_owner_agent : string;
  ex_fence : Z;
  ex_source_generation : string;
  ex_depends_on : list string;
}.
#[export] Instance ExpectedTask_eta : Eta ExpectedTask := λ e,
  mkExpected (ex_task_id e) (ex_slot_id e) (ex_owner_agent e) (ex_fence e) (ex_source_generation e) (ex_depends_on e).

(** [ExpectedTask.__post_init__] *)
Definition ExpectedTask_init (e : ExpectedTask) : reduced ExpectedTask :=
  let? _ := required [("task_id", ex_task_id e); ("slot_id", ex_slot_id e); ("owner_agent", ex_owner_agent e);
                      ("source_generation", ex_source_generation e)] in
  let? _ := demand (negb (ex_fence e <? 1)) "fence must be positive" in
  let deps := items_of (ex_depends_on e) in
  let? _ := demand (negb (bool_decide (ex_task_id e ∈ deps))) "task cannot depend on itself" in
  Ok (e <| ex_depends_on := deps |>).

Record TaskResult := mkResult {
  tr_task_id : string;
  tr_slot_id : string;
  tr_owner_agent : string;
  tr_attempt : Z;
  tr_fence : Z;
  tr_source_generation : string;
  tr_verdict : string;
  tr_receipt_hash : string;
  tr_artifact_hashes : list string;
  tr_write_set : list string;
  tr_impact_test_hash : option string;
  tr_schema : string;
}.
#[export] Instance TaskResult_eta : Eta TaskResult := λ t,
  mkResult (tr_task_id t) (tr_slot_id t) (tr_owner_agent t) (tr_attempt t) (tr_fence t) (tr_source_generation t)
    (tr_verdict t) (tr_receipt_hash t) (tr_artifact_hashes t) (tr_write_set t) (tr_impact_test_hash t) (tr_schema t).

(** [TaskResult.__post_init__] *)
Definition TaskResult_init (t : TaskResult) : reduced TaskResult :=
  let? _ := required [("task_id", tr_task_id t); ("slot_id", tr_slot_id t); ("owner_agent", tr_owner_agent t);
                      ("source_generation", tr_source_generation t)] in
  let? _ := demand (String.eqb (tr_schema t) RESULT_SCHEMA) "unknown task result schema" in
  let? _ := demand (negb (Z.min (tr_attempt t) (tr_fence t) <? 1)) "attempt and fence must be positive" in
  let? _ := demand (bool_decide (tr_verdict t ∈ TERMINAL_VERDICTS)) "unsupported task verdict" in
  let? h := sha_text (tr_receipt_hash t) "receipt_hash" in
  let? arts := sha_all (tr_artifact_hashes t) "artifact_hash" in
  let? impact := match tr_impact_test_hash t with
                 | None => Ok None
                 | Some v => let? v' := sha_text v "impact_test_hash" in Ok (Some v')
                 end in
  Ok (t <| tr_receipt_hash := h |> <| tr_artifact_hashes := sorted_set arts |>
        <| tr_write_set ::= items_of |> <| tr_impact_test_hash := impact |>).

Definition result_json (t : TaskResult) : Json.json := Json.Obj [
  ("task_id", Json.Str (tr_task_id t)); ("slot_id", Json.Str (tr_slot_id t));
  ("owner_agent", Json.Str (tr_owner_agent t)); ("attempt", Json.Int (tr_attempt t));
  ("fence", Json.Int (tr_fence t)); ("source_generation", Json.Str (tr_source_generation t));
  ("verdict", Json.Str (tr_verdict t)); ("receipt_hash", Json.Str (tr_receipt_hash t));
  ("artifact_hashes", json_strs (tr_artifact_hashes t)); ("write_set", json_strs (tr_write_set t));
  ("impact_test_hash", json_opt (tr_impact_test_hash t)); ("schema", Json.Str (tr_schema t))].
Definition result_hash (t : TaskResult) : string := canonical_sha256 (result_json t).

(** ** Candidates *)

Record Candidate := mkCandidate {
  cd_task_id : string;
  cd_attempt : Z;
  cd_slot_id : string;
  cd_base_tree_hash : string;
  cd_head_tree_hash : string;
  cd_tree_hash : string;
  cd_changed_paths : list string;
  cd_plan_hash : string;
  cd_generation : string;
  cd_operator_receipt_hash : string;
  cd_evidence_receipt_hash : string;
  cd_verification_status : string;
  cd_schema : string;
}.

(** [Candidate.__post_init__] *)
Definition Candidate_init (c : Candidate) : reduced Candidate :=
  let? _ := required [("task_id", cd_task_id c); ("slot_id", cd_slot_id c); ("generation", cd_generation c);
                      ("verification_status", cd_verification_status c)] in
  let? _ := demand (String.eqb (cd_schema c) CANDIDATE_SCHEMA) "unknown candidate schema" in
  let? _ := demand (negb (cd_attempt c <? 1)) "candidate attempt must be positive" in
  let? _ := demand (bool_decide (cd_verification_status c ∈ ["verified"; "failed"; "blocked"]))
              "unsupported candidate verification status" in
  let? base := sha_text (cd_base_tree_hash c) "base_tree_hash" in
  let? head := sha_text (cd_head_tree_hash c) "head_tree_hash" in
  let? tree := sha_text (cd_tree_hash c) "tree_hash" in
  let? plan := sha_text (cd_plan_hash c) "plan_hash" in
  let? oper := sha_text (cd_operator_receipt_hash c) "operator_receipt_hash" in
  let? evid := sha_text (cd_evidence_receipt_hash c) "evidence_receipt_hash" in
  Ok (mkCandidate (cd_task_id c) (cd_attempt c) (cd_slot_id c) base head tree (items_of (cd_changed_paths c)) plan
        (cd_generation c) oper evid (cd_verification_status c) (cd_schema c)).

Definition candidate_hash (c : Candidate) : string := canonical_sha256 (Json.Obj [
  ("task_id", Json.Str (cd_task_id c)); ("attempt", Json.Int (cd_attempt c)); ("slot_id", Json.Str (cd_slot_id c));
  ("base_tree_hash", Json.Str (cd_base_tree_hash c)); ("head_tree_hash", Json.Str (cd_head_tree_hash c));
  ("tree_hash", Json.Str (cd_tree_hash c)); ("changed_paths", json_strs (cd_changed_paths c));
  ("plan_hash", Json.Str (cd_plan_hash c)); ("generation", Json.Str (cd_generation c));
  ("operator_receipt_hash", Json.Str (cd_operator_receipt_hash c));
  ("evidence_receipt_hash", Json.Str (cd_evidence_receipt_hash c));
  ("verification_status", Json.Str (cd_verification_status c)); ("schema", Json.Str (cd_schema c))]).

(** ** The reducer *)

Record PrismReducer := mkReducer {
  expected : gmap string ExpectedTask;
  results : gmap string TaskResult;
  replay_count : Z;
}.
#[export] Instance PrismReducer_eta : Eta PrismReducer := λ r, mkReducer (expected r) (results r) (replay_count r).

(** The dependencies of a task; the callers only ask for expected ones. *)
Definition deps_of (e : gmap string ExpectedTask) (i : string) : list string :=
  match e !! i with Some t => ex_depends_on t | None => [] end.

(** The pending tasks that depend on no pending task. *)
Definition sources (e : gmap string ExpectedTask) (pending : gset string) : list string :=
  List.filter (λ i, forallb (λ d, negb (bool_decide (d ∈ pending))) (deps_of e i)) (elements pending).

(** [_assert_acyclic]: every turn removes a task, so one turn per task is enough. *)
Fixpoint assert_acyclic (fuel : nat) (e : gmap string ExpectedTask) (pending : gset string) : reduced unit :=
  if bool_decide (pending = ∅) then Ok tt
  else match fuel with
       | O => Err (PrismReducerError "out of fuel")
       | S fuel' =>
           let ready := sources e pending in
           let? _ := demand (negb (bool_decide (ready = []))) "expected task graph contains a cycle" in
           assert_acyclic fuel' e (pending ∖ list_to_set ready)
       end.

Definition expected_map (l : list ExpectedTask) : gmap string ExpectedTask :=
  foldl (λ m e, <[ex_task_id e := e]> m) ∅ l.

Definition PrismReducer_init (l : list ExpectedTask) : reduced PrismReducer :=
  let e := expected_map l in
  let? _ := demand (Nat.eqb (size e) (length l)) "duplicate expected task" in
  let? _ := demand (negb (bool_decide (e = ∅))) "expected task set cannot be empty" in
  let? _ := demand (forallb (λ t, forallb (λ d, bool_decide (is_Some (e !! d))) (ex_depends_on t)) l)
              "expected dependency is unknown" in
  let? _ := assert_acyclic (size e) e (dom e) in
  Ok (mkReducer e ∅ 0).

Definition submit (r : PrismReducer) (t : TaskResult) : reduced (PrismReducer * string) :=
  match expected r !! tr_task_id t with
  | None => Err (PrismReducerError "result references unknown task")
  | Some e =>
      let? _ := demand (String.eqb (tr_slot_id t) (ex_slot_id e)) "result crosses slot" in
      let? _ := demand (String.eqb (tr_owner_agent t) (ex_owner_agent e)) "result owner mismatch" in
      let? _ := demand (tr_fence t =? ex_fence e) "result fence is stale" in
      let? _ := demand (String.eqb (tr_source_generation t) (ex_source_generation e)) "result generation is stale" in
      match results r !! tr_task_id t with
      | Some previous =>
          let? _ := demand (String.eqb (result_hash previous) (result_hash t))
                      "duplicate task result changed immutable content" in
          Ok (r <| replay_count ::= Z.succ |>, "IDEMPOTENT_REPLAY")
      | None => Ok (r <| results ::= <[tr_task_id t := t]> |>, "ACCEPTED_FOR_REDUCTION")
      end
  end.

(** [_topological] *)
Fixpoint topological_loop (fuel : nat) (e : gmap string ExpectedTask) (pending : gset string) : reduced (list string) :=
  if bool_decide (pending = ∅) then Ok []
  else match fuel with
       | O => Err (PrismReducerError "out of fuel")
       | S fuel' =>
           let ready := py_sorted (sources e pending) in
           let? _ := demand (negb (bool_decide (ready = []))) "result graph cannot be ordered" in
           let? rest := topological_loop fuel' e (pending ∖ list_to_set ready) in
           Ok (ready ++ rest)
       end.
Definition topological (r : PrismReducer) (ids : gset string) : reduced (list string) :=
  topological_loop (size ids) (expected r) ids.

Record Conflict := mkConflict {
  cf_left : string;
  cf_right : string;
  cf_write_set : list string;
}.

Definition overlap_of (a b : TaskResult) : list string :=
  sorted_set (List.filter (λ p, bool_decide (p ∈ tr_write_set b)) (tr_write_set a)).

(** Two present results; a direct dependency between them excuses the overlap. *)
Definition conflict_of (r : PrismReducer) (p : string * string) : option Conflict :=
  let '(l, q) := p in
  match results r !! l, results r !! q with
  | Some a, Some b =>
      if bool_decide (overlap_of a b = []) then None
      else if bool_decide (l ∈ deps_of (expected r) q) || bool_decide (q ∈ deps_of (expected r) l) then None
      else Some (mkConflict l q (overlap_of a b))
  | _, _ => None
  end.
Definition conflicts_of (r : PrismReducer) (ids : list string) : list Conflict :=
  omap (conflict_of r) (pairs (py_sorted ids)).

Definition json_conflict (c : Conflict) : Json.json := Json.Obj [
  ("left", Json.Str (cf_left c)); ("right", Json.Str (cf_right c)); ("write_set", json_strs (cf_write_set c));
  ("reason_code", Json.Str "MECHANICAL_WRITE_CONFLICT")].

(** The hash and the receipt of a present result. *)
Definition hash_of (r : PrismReducer) (i : string) : string :=
  match results r !! i with Some t => result_hash t | None => "" end.
Definition receipt_of (r : PrismReducer) (i : string) : string :=
  match results r !! i with Some t => tr_receipt_hash t | None => "" end.

Definition conflict_bundle (r : PrismReducer) (sid : string) (cs : list Conflict) : Json.json :=
  match cs with
  | [] => Json.Null
  | _ :: _ =>
      let ids := sorted_set (mjoin ((λ c, [cf_left c; cf_right c]) <$> cs)) in
      let payload := [
        ("schema", Json.Str CONFLICT_BUNDLE_SCHEMA); ("slot_id", Json.Str sid);
        ("reason_code", Json.Str "MECHANICAL_WRITE_CONFLICT"); ("task_ids", json_strs ids);
        ("conflicts", Json.List (json_conflict <$> cs));
        ("candidate_refs", Json.List ((λ i, Json.Obj [("task_id", Json.Str i); ("result_hash", Json.Str (hash_of r i))]) <$> ids));
        ("resolution", Json.Str "bounded_integration_task_required"); ("winner", Json.Null)] in
      Json.Obj (payload ++ [("bundle_hash", Json.Str (canonical_sha256 (Json.Obj payload)))])
  end.

Definition accepted_result (r : PrismReducer) (i : string) : bool :=
  match results r !! i with Some t => String.eqb (tr_verdict t) "accepted" | None => false end.
Definition tested_result (r : PrismReducer) (i : string) : bool :=
  match results r !! i with Some t => negb (bool_decide (tr_impact_test_hash t = None)) | None => false end.

Record SlotReceipt := mkSlotReceipt {
  sr_slot_id : string;
  sr_expected : list string;
  sr_ordered : list string;
  sr_missing : list string;
  sr_blocked_by_dependency : list string;
  sr_conflicts : list Conflict;
  sr_tests_missing : list string;
  sr_verdict : string;
  sr_reason_code : string;
  sr_zero_loss : bool;
  sr_receipt_hash : string;
}.

(** The chain of verdicts of [reduce_slot]. *)
Definition slot_verdict (missing : list string) (conflicts : list Conflict)
    (blocked nonaccepted tests_missing : list string) : string * string :=
  if negb (bool_decide (missing = [])) then ("partial", "MISSING_RESULTS")
  else if negb (Nat.eqb (length conflicts) 0) then ("blocked", "COMPOSITION_CONFLICT")
  else if negb (bool_decide (blocked = [])) then ("blocked", "DEPENDENCY_NOT_ACCEPTED")
  else if negb (bool_decide (nonaccepted = [])) then ("blocked", "CHILD_NOT_ACCEPTED")
  else if negb (bool_decide (tests_missing = [])) then ("blocked", "IMPACT_TEST_RECEIPT_MISSING")
  else ("accepted", "REDUCED").

Definition slot_payload (r : PrismReducer) (s : SlotReceipt) : Json.json := Json.Obj [
  ("schema", Json.Str SLOT_RECEIPT_SCHEMA); ("slot_id", Json.Str (sr_slot_id s));
  ("expected_task_ids", json_strs (sr_expected s));
  ("result_refs", Json.List ((λ i, Json.Obj [("task_id", Json.Str i); ("result_hash", Json.Str (hash_of r i));
                                              ("receipt_hash", Json.Str (receipt_of r i))]) <$> sr_ordered s));
  ("missing_task_ids", json_strs (sr_missing s)); ("duplicate_task_ids", Json.List []);
  ("blocked_by_dependency", json_strs (sr_blocked_by_dependency s));
  ("conflicts", Json.List (json_conflict <$> sr_conflicts s));
  ("conflict_bundle", conflict_bundle r (sr_slot_id s) (sr_conflicts s));
  ("tests_missing", json_strs (sr_tests_missing s)); ("verdict", Json.Str (sr_verdict s));
  ("reason_code", Json.Str (sr_reason_code s)); ("zero_loss", Json.Bool (sr_zero_loss s));
  ("requires_delivery_authorization", Json.Bool (String.eqb (sr_verdict s) "accepted"));
  ("completion_promoted", Json.Bool false)].

Definition slot_ids (r : PrismReducer) (sid : string) : gset string :=
  dom (filter (λ kv, ex_slot_id kv.2 = sid) (expected r)).

Definition reduce_slot (r : PrismReducer) (sid : string) : reduced SlotReceipt :=
  let ids := slot_ids r sid in
  let? _ := demand (negb (bool_decide (ids = ∅))) "unknown or empty slot" in
  let present := ids ∩ dom (results r) in
  let missing := py_sorted (elements (ids ∖ present)) in
  let? ordered := topological r present in
  let conflicts := conflicts_of r ordered in
  let blocked := List.filter (λ i, existsb (λ d, negb (accepted_result r d)) (deps_of (expected r) i)) ordered in
  let nonaccepted := py_sorted (List.filter (λ i, negb (accepted_result r i)) (elements present)) in
  let untested := py_sorted (List.filter (λ i, accepted_result r i && negb (tested_result r i)) (elements present)) in
  let '(verdict, why) := slot_verdict missing conflicts blocked nonaccepted untested in
  let rc := mkSlotReceipt sid (py_sorted (elements ids)) ordered missing (py_sorted blocked) conflicts untested verdict why
              (Nat.eqb (size present + length missing) (size ids)) "" in
  Ok (mkSlotReceipt sid (py_sorted (elements ids)) ordered missing (py_sorted blocked) conflicts untested verdict why
        (Nat.eqb (size present + length missing) (size ids)) (canonical_sha256 (slot_payload r rc))).

Record PrismReceipt := mkPrismReceipt {
  pr_slot_refs : list (string * string);
  pr_verdict : string;
  pr_replay_count : Z;
  pr_receipt_hash : string;
}.

Fixpoint reduce_slots (r : PrismReducer) (sids : list string) : reduced (list SlotReceipt) :=
  match sids with
  | [] => Ok []
  | sid :: sids' => let? s := reduce_slot r sid in let? rest := reduce_slots r sids' in Ok (s :: rest)
  end.

Definition reduce_prism (r : PrismReducer) (sids : list string) : reduced PrismReceipt :=
  let unique := sorted_set sids in
  let? _ := demand (negb (bool_decide (unique = []))) "at least one slot is required" in
  let? slots := reduce_slots r unique in
  let verdict := if forallb (λ s, String.eqb (sr_verdict s) "accepted") slots then "accepted" else "blocked" in
  let refs := (λ s, (sr_slot_id s, sr_receipt_hash s)) <$> slots in
  let payload := Json.Obj [
    ("schema", Json.Str PRISM_RECEIPT_SCHEMA);
    ("slot_receipt_refs", Json.List ((λ '(i, h), Json.Obj [("slot_id", Json.Str i); ("receipt_hash", Json.Str h)]) <$> refs));
    ("verdict", Json.Str verdict); ("completion_promoted", Json.Bool false);
    ("completion_oracle_input_ready", Json.Bool (String.eqb verdict "accepted"));
    ("replay_count", Json.Int (replay_count r))] in
  Ok (mkPrismReceipt refs verdict (replay_count r) (canonical_sha256 payload)).

(** * Specification *)

(** The reducer's invariant: tasks and results are under their own names, the
    results are those of expected tasks, the graph has no cycle. *)
Record reducer_wf (r : PrismReducer) : Prop := {
  rw_result i t : results r !! i = Some t → tr_task_id t = i ∧ is_Some (expected r !! i);
  rw_acyclic : acyclic (deps_of (expected r)) (dom (expected r));
}.

Fixpoint submit_all (r : PrismReducer) (l : list TaskResult) : reduced PrismReducer :=
  match l with
  | [] => Ok r
  | t :: l' => let? (r', _) := submit r t in submit_all r' l'
  end.

(** What is submitted to a reducer before it reduces. *)
Definition reducer_reachable (r : PrismReducer) : Prop :=
  ∃ l r0 ts, PrismReducer_init l = Ok r0 ∧ submit_all r0 ts = Ok r.

(** The result may be submitted: it is the current attempt of an expected task. *)
Definition admissible (r : PrismReducer) (t : TaskResult) : bool :=
  match expected r !! tr_task_id t with
  | Some e => String.eqb (tr_slot_id t) (ex_slot_id e) && String.eqb (tr_owner_agent t) (ex_owner_agent e) &&
              (tr_fence t =? ex_fence e) && String.eqb (tr_source_generation t) (ex_source_generation e)
  | None => false
  end.

(** A slot is done: each of its tasks and everything it depends on is accepted,
    the task with an impact test, and two tasks that write a common path depend
    on one another. *)
Definition slot_done (r : PrismReducer) (sid : string) : Prop :=
  (∀ i e, expected r !! i = Some e → ex_slot_id e = sid →
     ∃ t, results r !! i = Some t ∧ tr_verdict t = "accepted" ∧ tr_impact_test_hash t ≠ None ∧
       ∀ d, d ∈ ex_depends_on e → ∃ u, results r !! d = Some u ∧ tr_verdict u = "accepted") ∧
  (∀ i j t u p, i ∈ slot_ids r sid → j ∈ slot_ids r sid → i ≠ j →
     results r !! i = Some t → results r !! j = Some u → p ∈ tr_write_set t → p ∈ tr_write_set u →
     i ∈ deps_of (expected r) j ∨ j ∈ deps_of (expected r) i).

(** A slot of two tasks, the second after the first, and their results. *)
Definition demo_expected : list ExpectedTask :=
  [mkExpected "build" "slot" "agent" 1 "gen" []; mkExpected "test" "slot" "agent" 1 "gen" ["build"]].
Definition demo_result (i : string) : TaskResult :=
  mkResult i "slot" "agent" 1 1 "gen" "accepted" (Sha256.hexdigest i) [] ["src/a.py"] (Some (Sha256.hexdigest i)) RESULT_SCHEMA.
Definition demo_results : list TaskResult := [demo_result "test"; demo_result "build"; demo_result "test"].
Definition demo_reducer0 : PrismReducer := ok_or (mkReducer ∅ ∅ 0) (PrismReducer_init demo_expected).
Definition demo_reducer : PrismReducer := ok_or demo_reducer0 (submit_all demo_reducer0 demo_results).

(** * Lemmas *)

Lemma demand_Ok {A} b msg (k : unit → reduced A) r :
  rbind (demand b msg) k = Ok r ↔ b = true ∧ k tt = Ok r.
Proof. destruct b; simpl; naive_solver. Qed.

(** ** The graph *)

Lemma elem_of_sources e P i : i ∈ sources e P ↔ i ∈ P ∧ ∀ d, d ∈ deps_of e i → d ∉ P.
Proof.
  unfold sources. rewrite list_elem_of_In, filter_In, <- list_elem_of_In, elem_of_elements, forallb_forall.
  apply and_iff_compat_l. split; intros H d Hd.
  - apply list_elem_of_In, H, negb_true_iff, bool_decide_eq_false in Hd. done.
  - apply list_elem_of_In, H in Hd. by rewrite bool_decide_eq_false_2.
Qed.

Lemma assert_acyclic_sound fuel e P : assert_acyclic fuel e P = Ok tt → acyclic (deps_of e) P.
Proof.
  revert P. induction fuel as [|fuel IH]; intros P H; cbn [assert_acyclic] in H;
    case_bool_decide as HP; try discriminate H.
  1,2: subst P; intros Q HQ Hne; destruct Hne; set_solver.
  rewrite demand_Ok in H. destruct H as [_ H]. intros Q HQ Hne.
  destruct (decide (∃ i, i ∈ Q ∧ i ∈ sources e P)) as [(i & Hi & [_ Hs]%elem_of_sources)|Hno].
  - exists i. split; [done|]. intros d Hd Hdq. by apply (Hs d Hd), HQ.
  - apply (IH _ H); [|done]. intros i Hi. apply elem_of_difference. split; [by apply HQ|].
    rewrite elem_of_list_to_set. intros Hs. apply Hno. by exists i.
Qed.

Lemma size_minus_sources (P : gset string) (l : list string) :
  l ≠ [] → (∀ i, i ∈ l → i ∈ P) → (size (P ∖ list_to_set l) < size P)%nat.
Proof.
  intros Hl Hin. apply subset_size. split; [set_solver|]. destruct l as [|i l]; [done|].
  intros H. specialize (H i (Hin i ltac:(by left))). set_solver.
Qed.

Lemma topological_loop_spec fuel e P :
  acyclic (deps_of e) P → (size P ≤ fuel)%nat →
  ∃ l, topological_loop fuel e P = Ok l ∧ NoDup l ∧ (∀ i, i ∈ l ↔ i ∈ P) ∧ causal (deps_of e) l.
Proof.
  revert P. induction fuel as [|fuel IH]; intros P Hac Hsz; cbn [topological_loop]; case_bool_decide as HP.
  1,3: exists []; subst P; split; [done|]; split; [constructor|]; split; [set_solver|]; intros k i d H; by rewrite lookup_nil in H.
  { destruct HP. apply leibniz_equiv, size_empty_inv. lia. }
  set (ready := py_sorted (sources e P)).
  assert (∀ i, i ∈ ready ↔ i ∈ P ∧ ∀ d, d ∈ deps_of e i → d ∉ P) as Hready.
  { intros i. unfold ready. rewrite elem_of_py_sorted. apply elem_of_sources. }
  assert (ready ≠ []) as Hne.
  { destruct (Hac P) as (i & Hi); [done|done|]. apply Hready in Hi. intros E. rewrite E in Hi. by apply not_elem_of_nil in Hi. }
  rewrite bool_decide_eq_false_2 by done. cbn [negb demand rbind].
  assert (size (P ∖ list_to_set ready) < size P)%nat as Hlt.
  { apply size_minus_sources; [done|]. intros i Hi. by apply Hready. }
  destruct (IH (P ∖ list_to_set ready)) as (rest & -> & Hnd & Hel & Hca); [|lia|].
  { intros Q HQ. apply Hac. set_solver. }
  cbn [rbind]. exists (ready ++ rest). split; [done|].
  assert (∀ i, i ∈ ready ++ rest ↔ i ∈ P) as Hall.
  { intros i. rewrite elem_of_app, Hel, elem_of_difference, elem_of_list_to_set.
    destruct (decide (i ∈ ready)) as [Hi|Hi]; [|tauto]. apply Hready in Hi as Hi'. tauto. }
  split; [|split; [done|]].
  - apply NoDup_app. split; [|split; [|done]].
    + unfold ready, py_sorted. rewrite merge_sort_Permutation.
      apply NoDup_ListNoDup, List.NoDup_filter, NoDup_ListNoDup, NoDup_elements.
    + intros i Hi Hr. apply Hel, elem_of_difference in Hr as [_ Hr]. apply Hr. by apply elem_of_list_to_set.
  - apply causal_app; [|done]. intros i d Hi Hd. rewrite Hall. apply Hready in Hi as [_ Hi]. by apply Hi.
Qed.

(** ** Accumulation *)

Lemma reducer_submit_spec r t :
  submit r t =
    if admissible r t then
      match results r !! tr_task_id t with
      | Some p => if String.eqb (result_hash p) (result_hash t)
                  then Ok (r <| replay_count ::= Z.succ |>, "IDEMPOTENT_REPLAY")
                  else Err (PrismReducerError "duplicate task result changed immutable content")
      | None => Ok (r <| results ::= <[tr_task_id t := t]> |>, "ACCEPTED_FOR_REDUCTION")
      end
    else submit r t.
Proof.
  unfold submit, admissible. destruct (expected r !! tr_task_id t) as [e|]; [|done].
  destruct (String.eqb (tr_slot_id t) (ex_slot_id e)); [|done].
  destruct (String.eqb (tr_owner_agent t) (ex_owner_agent e)); [|done].
  destruct (tr_fence t =? ex_fence e); [|done].
  destruct (String.eqb (tr_source_generation t) (ex_source_generation e)); [|done].
  cbn [andb demand rbind]. destruct (results r !! tr_task_id t); [|done].
  by destruct (String.eqb _ _).
Qed.

Lemma submit_Ok r t r' m : submit r t = Ok (r', m) →
  admissible r t = true ∧ expected r' = expected r ∧
  ((∃ p, results r !! tr_task_id t = Some p ∧ result_hash p = result_hash t ∧ results r' = results r ∧
      replay_count r' = replay_count r + 1) ∨
   (results r !! tr_task_id t = None ∧ results r' = <[tr_task_id t := t]> (results r) ∧ replay_count r' = replay_count r)).
Proof.
  intros H. assert (admissible r t = true) as Ha.
  { unfold submit in H. unfold admissible. destruct (expected r !! tr_task_id t) as [e|]; [|done].
    rewrite !demand_Ok in H. destruct H as (-> & -> & -> & -> & _). done. }
  rewrite reducer_submit_spec, Ha in H. split; [done|].
  destruct (results r !! tr_task_id t) as [p|] eqn:E.
  - destruct (String.eqb_spec (result_hash p) (result_hash t)); [|done]. injection H as <- _.
    split; [done|]. left. exists p. by split; [|split; [|split; [|simpl; lia]]].
  - injection H as <- _. split; [done|]. by right.
Qed.

Lemma submit_admissible r t :
  admissible r t = true → (∀ p, results r !! tr_task_id t = Some p → result_hash p = result_hash t) →
  ∃ r' m, submit r t = Ok (r', m).
Proof.
  intros Ha Hp. rewrite reducer_submit_spec, Ha. destruct (results r !! tr_task_id t) as [p|]; [|by eexists _, _].
  rewrite (Hp p eq_refl), String.eqb_refl. by eexists _, _.
Qed.

Lemma admissible_expected r r' t : expected r' = expected r → admissible r' t = admissible r t.
Proof. unfold admissible. by intros ->. Qed.

Lemma submit_all_inv l r r' : submit_all r l = Ok r' →
  expected r' = expected r ∧ (∀ t, t ∈ l → admissible r t = true) ∧
  (∀ i, results r' !! i = match results r !! i with
                          | Some p => Some p
                          | None => List.find (λ t, String.eqb (tr_task_id t) i) l
                          end) ∧
  replay_count r' = replay_count r + Z.of_nat (length l) - (Z.of_nat (size (results r')) - Z.of_nat (size (results r))) ∧
  (∀ t, t ∈ l → ∃ p, results r' !! tr_task_id t = Some p ∧ result_hash p = result_hash t).
Proof.
  revert r. induction l as [|t l IH]; intros r H.
  { injection H as <-. split; [done|]. split; [intros t Ht; by apply not_elem_of_nil in Ht|].
    split; [intros i; by destruct (results r !! i)|]. split; [simpl; lia|]. intros t Ht. by apply not_elem_of_nil in Ht. }
  cbn [submit_all] in H. apply rbind_Ok in H as ([r1 m] & Hs & H).
  apply submit_Ok in Hs as (Ha & He & Hcase). destruct (IH r1 H) as (G1 & G2 & G3 & G4 & G5).
  split; [congruence|]. split; [|split; [|split]].
  - intros u [->|Hu]%elem_of_cons; [done|]. rewrite <- (admissible_expected r r1 u He). by apply G2.
  - intros i. rewrite G3. destruct Hcase as [(p & Hp & _ & -> & _)|(Hn & -> & _)].
    + destruct (results r !! i) eqn:E; [done|]. cbn [List.find].
      destruct (String.eqb_spec (tr_task_id t) i); [congruence|done].
    + rewrite lookup_insert. cbn [List.find]. case_decide as E.
      * subst i. by rewrite Hn, String.eqb_refl.
      * destruct (results r !! i); [done|]. by rewrite (proj2 (String.eqb_neq _ _) E).
  - rewrite G4. cbn [length]. destruct Hcase as [(p & _ & _ & -> & ->)|(Hn & -> & ->)]; [lia|].
    rewrite map_size_insert_None by done. lia.
  - intros u [->|Hu]%elem_of_cons; [|by apply G5]. setoid_rewrite G3.
    destruct Hcase as [(p & Hp & Hh & -> & _)|(Hn & -> & _)].
    + exists p. by rewrite Hp.
    + exists t. by rewrite lookup_insert_eq.
Qed.

Lemma submit_all_total l r :
  (∀ t, t ∈ l → admissible r t = true) →
  (∀ t p, t ∈ l → results r !! tr_task_id t = Some p → result_hash p = result_hash t) →
  (∀ t u, t ∈ l → u ∈ l → tr_task_id t = tr_task_id u → result_hash t = result_hash u) →
  ∃ r', submit_all r l = Ok r'.
Proof.
  revert r. induction l as [|t l IH]; intros r Ha Hr Hc; [by eexists|]. cbn [submit_all].
  destruct (submit_admissible r t) as (r1 & m & Hs); [apply Ha; by left|intros p; apply Hr; by left|].
  rewrite Hs. cbn [rbind]. apply submit_Ok in Hs as (_ & He & Hcase). apply IH.
  - intros u Hu. rewrite (admissible_expected r r1 u He). apply Ha. by right.
  - intros u p Hu Hp. destruct Hcase as [(q & _ & _ & E & _)|(_ & E & _)]; rewrite E in Hp.
    + apply Hr; [by right|done].
    + rewrite lookup_insert in Hp. case_decide as Eq; [|apply Hr; [by right|done]].
      injection Hp as <-. apply Hc; [by left|by right|done].
  - intros u v Hu Hv. apply Hc; by right.
Qed.

Lemma reducer_wf_reachable r : reducer_reachable r → reducer_wf r.
Proof.
  intros (l & r0 & ts & H0 & H). unfold PrismReducer_init in H0. rewrite !demand_Ok in H0.
  destruct H0 as (_ & _ & _ & H0). apply rbind_Ok in H0 as ([] & Hac & H0). injection H0 as <-.
  apply assert_acyclic_sound in Hac. destruct (submit_all_inv ts _ r H) as (He & Ha & Hr & _). simpl in He, Hr.
  split; [|by rewrite He]. intros i t Ht. rewrite Hr, lookup_empty in Ht.
  apply find_some in Ht as [Hin Heq%String.eqb_eq]. apply list_elem_of_In, Ha in Hin. split; [done|].
  unfold admissible in Hin. simpl in Hin. rewrite He. rewrite Heq in Hin. destruct (expected_map l !! i); [by eexists|done].
Qed.

(** ** Conflicts *)

(** Two results of the slot are compatible. *)
Definition compatible (r : PrismReducer) (i j : string) : Prop :=
  ∀ t u p, results r !! i = Some t → results r !! j = Some u → p ∈ tr_write_set t → p ∈ tr_write_set u →
    i ∈ deps_of (expected r) j ∨ j ∈ deps_of (expected r) i.

Lemma compatible_sym r i j : compatible r i j → compatible r j i.
Proof. intros H t u p Ht Hu Hpt Hpu. destruct (H u t p Hu Ht Hpu Hpt); auto. Qed.

Lemma conflict_of_None r i j : conflict_of r (i, j) = None ↔ compatible r i j.
Proof.
  unfold conflict_of, compatible. destruct (results r !! i) as [t|], (results r !! j) as [u|]; try (split; naive_solver).
  assert (∀ p, p ∈ overlap_of t u ↔ p ∈ tr_write_set t ∧ p ∈ tr_write_set u) as Hov.
  { intros p. unfold overlap_of. rewrite elem_of_sorted_set, list_elem_of_In, filter_In, <- list_elem_of_In.
    by rewrite bool_decide_eq_true. }
  case_bool_decide as E.
  { split; [|done]. intros _ t' u' p [= <-] [= <-] Hp1 Hp2. exfalso.
    assert (p ∈ overlap_of t u) as Hp by (by apply Hov). rewrite E in Hp. by apply not_elem_of_nil in Hp. }
  destruct (bool_decide (i ∈ _) || bool_decide (j ∈ _)) eqn:Ed.
  - split; [|done]. intros _ t' u' p _ _ _ _. apply orb_true_iff in Ed as [H|H]; apply bool_decide_eq_true_1 in H; auto.
  - split; [done|]. intros H. exfalso. apply orb_false_iff in Ed as [H1%bool_decide_eq_false_1 H2%bool_decide_eq_false_1].
    destruct (overlap_of t u) as [|p l] eqn:El; [done|].
    assert (p ∈ tr_write_set t ∧ p ∈ tr_write_set u) as [Hp1 Hp2] by (apply Hov; by left).
    destruct (H t u p eq_refl eq_refl Hp1 Hp2); done.
Qed.

Lemma conflicts_of_nil r ids : NoDup ids →
  conflicts_of r ids = [] ↔ ∀ i j, i ∈ ids → j ∈ ids → i ≠ j → compatible r i j.
Proof.
  intros Hnd. unfold conflicts_of.
  assert (NoDup (py_sorted ids)) as Hnd' by (unfold py_sorted; by rewrite merge_sort_Permutation).
  assert (∀ l, omap (conflict_of r) l = [] ↔ ∀ p, p ∈ l → conflict_of r p = None) as Hom.
  { induction l as [|p l IH]; [split; [intros _ p H; by apply not_elem_of_nil in H|done]|].
    cbn [omap list_omap]. destruct (conflict_of r p) eqn:E.
    - split; [done|]. intros H. rewrite (H p) in E; [done|by left].
    - rewrite IH. split; intros H q; [intros [->|Hq]%elem_of_cons; [done|by apply H]|intros Hq; apply H; by right]. }
  rewrite Hom. split.
  - intros H i j Hi Hj Hne.
    destruct (elem_of_pairs (py_sorted ids) i j) as [Hp|Hp]; [done|done|by apply elem_of_py_sorted..| |];
      apply H, conflict_of_None in Hp; [exact Hp|exact (compatible_sym _ _ _ Hp)].
  - intros H [i j] Hp. apply pairs_elem_of in Hp as (Hi & Hj & Hne); [|done].
    rewrite elem_of_py_sorted in Hi, Hj. apply conflict_of_None. by apply H.
Qed.

(** ** Slots *)

Lemma elem_of_slot_ids r sid i : i ∈ slot_ids r sid ↔ ∃ e, expected r !! i = Some e ∧ ex_slot_id e = sid.
Proof. unfold slot_ids. rewrite elem_of_dom. unfold is_Some. setoid_rewrite map_lookup_filter_Some. done. Qed.

Lemma slot_verdict_accepted m c b n t :
  (slot_verdict m c b n t).1 = "accepted" ↔ m = [] ∧ c = [] ∧ b = [] ∧ n = [] ∧ t = [].
Proof.
  unfold slot_verdict.
  destruct (bool_decide_reflect (m = [])); cbn [negb fst]; [|split; [intros H; discriminate H|tauto]].
  destruct c; cbn [length Nat.eqb negb fst]; [|split; [intros H; discriminate H|intros (_ & H & _); discriminate H]].
  do 3 (case_bool_decide; cbn [negb fst]; [|split; [intros H'; discriminate H'|tauto]]). tauto.
Qed.

Lemma accepted_result_spec r i : accepted_result r i = true ↔ ∃ t, results r !! i = Some t ∧ tr_verdict t = "accepted".
Proof. unfold accepted_result. destruct (results r !! i); [rewrite String.eqb_eq|]; naive_solver. Qed.

Lemma tested_result_spec r i :
  tested_result r i = true ↔ ∃ t, results r !! i = Some t ∧ tr_impact_test_hash t ≠ None.
Proof.
  unfold tested_result. destruct (results r !! i); [rewrite negb_true_iff, bool_decide_eq_false|]; naive_solver.
Qed.

(** The order, the missing tasks and the verdict of a slot. *)
Lemma reduce_slot_spec r sid : reducer_wf r → slot_ids r sid ≠ ∅ →
  ∃ s, reduce_slot r sid = Ok s ∧ sr_slot_id s = sid ∧ sr_zero_loss s = true ∧ NoDup (sr_ordered s) ∧
    (∀ i, i ∈ sr_ordered s ↔ i ∈ slot_ids r sid ∧ is_Some (results r !! i)) ∧
    causal (deps_of (expected r)) (sr_ordered s) ∧ (sr_verdict s = "accepted" ↔ slot_done r sid).
Proof.
  intros Hwf Hne. unfold reduce_slot. rewrite bool_decide_eq_false_2 by done. cbn [negb demand rbind].
  set (ids := slot_ids r sid). set (present := ids ∩ dom (results r)).
  destruct (topological_loop_spec (size present) (expected r) present) as (ordered & Ht & Hnd & Hel & Hca); [|done|].
  { intros Q HQ. apply (rw_acyclic r Hwf). intros i Hi. apply HQ in Hi. apply elem_of_intersection in Hi as [Hi _].
    apply elem_of_slot_ids in Hi as (e & He & _). apply elem_of_dom. by eexists. }
  unfold topological. rewrite Ht. cbn [rbind]. set (missing := py_sorted (elements (ids ∖ present))).
  destruct (slot_verdict missing _ _ _ _) as [verdict why] eqn:Ev.
  assert (∀ i, i ∈ present ↔ i ∈ ids ∧ is_Some (results r !! i)) as Hpres.
  { intros i. unfold present. by rewrite elem_of_intersection, elem_of_dom. }
  eexists. split; [reflexivity|]. cbn [sr_slot_id sr_zero_loss sr_ordered sr_verdict].
  split; [done|]. split; [|split; [done|split; [|split; [done|]]]].
  - apply Nat.eqb_eq. unfold missing, py_sorted. rewrite merge_sort_Permutation.
    change (length (elements (ids ∖ present))) with (size (ids ∖ present)).
    rewrite size_difference by (unfold present; set_solver).
    assert (size present ≤ size ids)%nat by (apply subseteq_size; unfold present; set_solver). lia.
  - intros i. by rewrite Hel, Hpres.
  - replace verdict with (verdict, why).1 by done. rewrite <- Ev, slot_verdict_accepted, conflicts_of_nil by done.
    unfold missing. rewrite !list_nil_iff. setoid_rewrite elem_of_py_sorted.
    setoid_rewrite elem_of_Listfilter. setoid_rewrite elem_of_elements. setoid_rewrite elem_of_difference.
    setoid_rewrite Hel. clear Ev Ht Hnd Hel Hca.
    split.
    + intros (Hm & Hc & Hb & Hn & Hu).
      assert (∀ i, i ∈ ids → i ∈ present) as Hin.
      { intros i Hi. destruct (decide (i ∈ present)) as [|Hno]; [done|]. by destruct (Hm i). }
      split.
      * intros i e He Hsid. assert (i ∈ ids) as Hi by (apply elem_of_slot_ids; eauto). apply Hin in Hi as Hp.
        assert (accepted_result r i = true) as Ha.
        { apply not_false_iff_true. intros Hf. apply (Hn i). by rewrite Hf. }
        assert (tested_result r i = true) as Hts.
        { apply not_false_iff_true. intros Hf. apply (Hu i). by rewrite Ha, Hf. }
        apply accepted_result_spec in Ha as (t & Ht & Hv). apply tested_result_spec in Hts as (t' & Ht' & Himp).
        exists t. split; [done|]. split; [done|]. split; [congruence|]. intros d Hd. apply accepted_result_spec.
        apply not_false_iff_true. intros Hf. apply (Hb i). split; [done|]. apply existsb_exists. exists d.
        unfold deps_of. rewrite He, Hf. split; [by apply list_elem_of_In|done].
      * intros i j t u p Hi Hj Hij. apply (Hc i j); [by apply Hin|by apply Hin|done].
    + intros [Hd Hc].
      assert (∀ i, i ∈ ids → ∃ e t, expected r !! i = Some e ∧ results r !! i = Some t ∧ tr_verdict t = "accepted" ∧
        tr_impact_test_hash t ≠ None ∧ ∀ d, d ∈ ex_depends_on e → accepted_result r d = true) as Hall.
      { intros i Hi. apply elem_of_slot_ids in Hi as (e & He & Hs). destruct (Hd i e He Hs) as (t & Ht & Hv & Himp & Hdep).
        exists e, t. do 4 (split; [done|]). intros d Hde. apply accepted_result_spec. by apply Hdep. }
      split; [|split; [|split; [|split]]].
      * intros i [Hi Hno]. destruct (Hall i Hi) as (e & t & _ & Ht & _). apply Hno, Hpres. split; [done|]. by eexists.
      * intros i j Hi Hj Hij t u p. apply Hpres in Hi as [Hi _], Hj as [Hj _]. by apply Hc.
      * intros i [Hi Hex]. apply Hpres in Hi as [Hi _]. destruct (Hall i Hi) as (e & t & He & _ & _ & _ & Hdep).
        apply existsb_exists in Hex as (d & Hde & Hf). unfold deps_of in Hde. rewrite He in Hde.
        rewrite (Hdep d) in Hf; [done|]. by apply list_elem_of_In.
      * intros i [Hi Hf]. apply Hpres in Hi as [Hi _]. destruct (Hall i Hi) as (e & t & _ & Ht & Hv & _).
        rewrite (proj2 (accepted_result_spec r i)) in Hf by eauto. done.
      * intros i [Hi Hf]. apply Hpres in Hi as [Hi _]. destruct (Hall i Hi) as (e & t & _ & Ht & _ & Himp & _).
        rewrite (proj2 (tested_result_spec r i)) in Hf by eauto. by rewrite andb_false_r in Hf.
Qed.

Lemma reduce_slots_spec r sids : reducer_wf r → (∀ sid, sid ∈ sids → slot_ids r sid ≠ ∅) →
  ∃ l, reduce_slots r sids = Ok l ∧
    (forallb (λ s, String.eqb (sr_verdict s) "accepted") l = true ↔ ∀ sid, sid ∈ sids → slot_done r sid).
Proof.
  intros Hwf. induction sids as [|sid sids IH]; intros Hne.
  { exists []. split; [done|]. split; [|done]. intros _ sid H. by apply not_elem_of_nil in H. }
  destruct (reduce_slot_spec r sid Hwf) as (s & Hs & _ & _ & _ & _ & _ & Hv); [apply Hne; by left|].
  destruct IH as (l & Hl & Hall); [intros x Hx; apply Hne; by right|].
  exists (s :: l). cbn [reduce_slots]. rewrite Hs. cbn [rbind]. rewrite Hl. split; [done|].
  cbn [forallb]. rewrite andb_true_iff, String.eqb_eq, Hall, Hv. split.
  - intros [H1 H2] x [->|Hx]%elem_of_cons; auto.
  - intros H. split; [|intros x Hx]; apply H; [by left|by right].
Qed.

(** * Properties *)

(** accumulation is commutative: whatever the order in which the same
    results arrive, with any number of replays among them, they are all taken
    and leave the reducer in the same state, so with the same receipts, provided
    the results submitted have no hash collision among them. *)
Theorem submit_order_irrelevant r l l' r' :
  submit_all r l = Ok r' → l ≡ₚ l' →
  (∀ t u, t ∈ l → u ∈ l → result_hash t = result_hash u → t = u) →
  submit_all r l' = Ok r'.
Proof.
  intros H Hp Hcol. destruct (submit_all_inv l r r' H) as (He & Ha & Hr & Hc & Hst).
  assert (∀ t u, t ∈ l → u ∈ l → tr_task_id t = tr_task_id u → t = u) as Huniq.
  { intros t u Ht Hu Heq. apply Hcol; [done..|]. destruct (Hst t Ht) as (p & Hp1 & <-), (Hst u Hu) as (q & Hq & <-).
    rewrite Heq in Hp1. congruence. }
  destruct (submit_all_total l' r) as [r2 H2].
  - intros t Ht. apply Ha. by rewrite Hp.
  - intros t p Ht Hpr. destruct (Hst t) as (q & Hq & Hqh); [by rewrite Hp|]. rewrite Hr, Hpr in Hq. congruence.
  - intros t u Ht Hu Heq. rewrite (Huniq t u); [done|by rewrite Hp..|done].
  - rewrite H2. f_equal. destruct (submit_all_inv l' r r2 H2) as (He2 & _ & Hr2 & Hc2 & _).
    assert (results r2 = results r') as Eres.
    { apply map_eq. intros i. rewrite Hr, Hr2. destruct (results r !! i); [done|].
      destruct (List.find _ l) as [t|] eqn:E1, (List.find _ l') as [u|] eqn:E2; try done.
      - apply find_some in E1 as [H1 Q1%String.eqb_eq], E2 as [H3 Q3%String.eqb_eq].
        rewrite <- list_elem_of_In in H1, H3. rewrite <- Hp in H3. f_equal. apply Huniq; [done..|congruence].
      - apply find_some in E1 as [H1 Q1]. rewrite <- list_elem_of_In, Hp, list_elem_of_In in H1.
        apply (find_none _ _ E2) in H1. congruence.
      - apply find_some in E2 as [H1 Q1]. rewrite <- list_elem_of_In, <- Hp, list_elem_of_In in H1.
        apply (find_none _ _ E1) in H1. congruence. }
    assert (replay_count r2 = replay_count r') as Ecnt by (rewrite Hc, Hc2, Eres, (Permutation_length Hp); done).
    destruct r2, r'. simpl in *. congruence.
Qed.

Lemma submit_order_irrelevant_witness :
  submit_all demo_reducer0 (reverse demo_results) = Ok demo_reducer ∧ replay_count demo_reducer = 1.
Proof.
  split; [|vm_compute; reflexivity].
  refine (submit_order_irrelevant demo_reducer0 demo_results (reverse demo_results) demo_reducer _ _ _).
  - vm_compute. reflexivity.
  - symmetry. apply reverse_Permutation.
  - assert (String.eqb (result_hash (demo_result "test")) (result_hash (demo_result "build")) = false) as Hne
      by (vm_compute; reflexivity).
    apply String.eqb_neq in Hne.
    assert (∀ t, t ∈ demo_results → t = demo_result "test" ∨ t = demo_result "build") as Hin.
    { intros t Ht. unfold demo_results in Ht. apply elem_of_cons in Ht as [Ht|Ht]; [left; exact Ht|].
      apply elem_of_cons in Ht as [Ht|Ht]; [right; exact Ht|].
      apply list_elem_of_singleton in Ht. left. exact Ht. }
    intros t u Ht Hu Heq. destruct (Hin t Ht) as [->| ->], (Hin u Hu) as [->| ->]; [reflexivity| | |reflexivity].
    + destruct (Hne Heq).
    + destruct (Hne (eq_sym Heq)).
Defined.

(** C16: reduction is exact and loses nothing. For slots of a reducer that was
    built and fed, [reduce_prism] always returns: it accepts exactly when every
    slot is done. Each slot receipt accounts for all the expected tasks of the
    slot and lists exactly the results present, each once, no result before one
    it depends on. *)
Theorem reduce_prism_exact r sids :
  reducer_reachable r → sids ≠ [] → (∀ sid, sid ∈ sids → slot_ids r sid ≠ ∅) →
  (∃ rc, reduce_prism r sids = Ok rc ∧
     (pr_verdict rc = "accepted" ↔ ∀ sid, sid ∈ sids → slot_done r sid)) ∧
  ∀ sid, sid ∈ sids → ∃ s, reduce_slot r sid = Ok s ∧ sr_zero_loss s = true ∧ NoDup (sr_ordered s) ∧
    (∀ i, i ∈ sr_ordered s ↔ i ∈ slot_ids r sid ∧ is_Some (results r !! i)) ∧
    causal (deps_of (expected r)) (sr_ordered s) ∧ (sr_verdict s = "accepted" ↔ slot_done r sid).
Proof.
  intros Hwf%reducer_wf_reachable Hne Hids. split.
  - unfold reduce_prism. rewrite bool_decide_eq_false_2.
    2:{ rewrite list_nil_iff. intros H. destruct sids as [|sid sids]; [done|].
        apply (H sid), elem_of_sorted_set. by left. }
    cbn [negb demand rbind].
    destruct (reduce_slots_spec r (sorted_set sids) Hwf) as (l & -> & Hall).
    { intros sid Hs. apply Hids. by rewrite elem_of_sorted_set in Hs. }
    cbn [rbind]. eexists. split; [reflexivity|]. cbn [pr_verdict].
    setoid_rewrite elem_of_sorted_set in Hall. rewrite <- Hall. by destruct (forallb _ l).
  - intros sid Hs. destruct (reduce_slot_spec r sid Hwf (Hids sid Hs)) as (s & H & _ & Hrest). by exists s.
Qed.

Lemma reduce_prism_exact_witness :
  slot_done demo_reducer "slot" ∧ ∃ s, reduce_slot demo_reducer "slot" = Ok s ∧ sr_ordered s = ["build"; "test"].
Proof.
  assert (reducer_reachable demo_reducer) as Hr.
  { exists demo_expected, demo_reducer0, demo_results. split; vm_compute; reflexivity. }
  assert (∀ sid, sid ∈ ["slot"] → slot_ids demo_reducer sid ≠ ∅) as Hs.
  { intros sid ->%list_elem_of_singleton. apply (bool_decide_unpack _). vm_compute. exact I. }
  destruct (reduce_prism_exact demo_reducer ["slot"] Hr ltac:(discriminate) Hs) as [_ H].
  destruct (H "slot" ltac:(by left)) as (s & Hrun & _ & _ & _ & _ & Hv).
  set (rs := reduce_slot demo_reducer "slot") in *.
  assert (∀ A (f : SlotReceipt → A) d x, f (ok_or d rs) = x → f s = x) as Hget
    by (rewrite Hrun; cbn [ok_or]; auto).
  split.
  - apply Hv. apply (Hget _ sr_verdict (mkSlotReceipt "" [] [] [] [] [] [] "" "" false "")). vm_compute. reflexivity.
  - exists s. split; [exact Hrun|]. apply (Hget _ sr_ordered (mkSlotReceipt "" [] [] [] [] [] [] "" "" false "")).
    vm_compute. reflexivity.
Defined.
