(* ===== verification/FabricScheduler.v ===== *)
(** The asyncio execution fabric ([simplicio_loop/fabric_scheduler.py]). The
    coroutines are cut at their awaits: every section that runs under the
    condition, and every section of a job's task between two awaits, is one
    operation on the shared state, and the event loop interleaves them in any
    order. Times are integers (nanoseconds) instead of floats. *)
From S2P Require Import Prelude PyLib.
Local Open Scope Z_scope.
Local Open Scope py_scope.

(** * Definitions *)

Definition FABRIC_SCHEMA : string := "simplicio.fabric-scheduler/v1".
Definition JOURNAL_SCHEMA : string := "simplicio.fabric-transition/v1".
Definition TERMINAL_STATES : list string := ["succeeded"; "failed"; "cancelled"].
Definition WRITE_MODES : list string := ["write"; "build"; "release"].
Definition VALID_STATES : list string :=
  ["queued"; "ready"; "running"; "draining"; "succeeded"; "failed"; "cancelled"].

Inductive FabricExn : Type :=
| FabricClosed
| DuplicateJob (job : string)
| ReplayError (line : Z)
| ValueError (msg : string).

Notation fabric := (result FabricExn).

Definition valid (ok : bool) (msg : string) : fabric unit := if ok then Ok tt else Err (ValueError msg).

Definition digest (v : Json.json) : string := Sha256.hexdigest (Json.dumps false v).

(** [run] is the caller's coroutine: what it does is a [JobOutcome] below. *)
Record FabricJob := mkJob {
  job_id : string;
  capability : string;
  jresources : gset string;
  mode : string;
  jpriority : Z;
  timeout_ns : option Z;
}.

(** [FabricJob.__post_init__] *)
Definition FabricJob_check (j : FabricJob) : fabric unit :=
  let? _ := valid (Str.truthy (Str.strip (job_id j)) && Str.truthy (Str.strip (capability j)))
              "job_id and capability are required" in
  let? _ := valid (bool_decide (mode j ∈ "read" :: WRITE_MODES)) "unsupported job mode" in
  valid (match timeout_ns j with Some t => negb (t <=? 0) | None => true end) "timeout_seconds must be positive".

(** ** The journal *)

Record Transition := mkTransition {
  tn_schema : string;
  tn_sequence : Z;
  tn_prev_hash : string;
  tn_job_id : string;
  tn_state : string;
  tn_observed_at_ns : Z;
  tn_detail : list (string * Json.json);
  tn_hash : string;
}.
#[export] Instance Transition_eta : Eta Transition := λ r,
  mkTransition (tn_schema r) (tn_sequence r) (tn_prev_hash r) (tn_job_id r) (tn_state r) (tn_observed_at_ns r)
    (tn_detail r) (tn_hash r).

Definition transition_body (r : Transition) : Json.json := Json.Obj [
  ("schema", Json.Str (tn_schema r)); ("sequence", Json.Int (tn_sequence r));
  ("prev_hash", Json.Str (tn_prev_hash r)); ("job_id", Json.Str (tn_job_id r));
  ("state", Json.Str (tn_state r)); ("observed_at_ns", Json.Int (tn_observed_at_ns r));
  ("detail", Json.Obj (tn_detail r))].

(** The checks of [replay] on the parsed rows, in order. *)
Fixpoint replay_rows (n : Z) (previous : string) (rows : list Transition) : fabric unit :=
  match rows with
  | [] => Ok tt
  | r :: rows' =>
      if negb (String.eqb (tn_schema r) JOURNAL_SCHEMA) || negb (tn_sequence r =? n)
         || negb (String.eqb (tn_prev_hash r) previous) || negb (bool_decide (tn_state r ∈ VALID_STATES))
         || negb (String.eqb (tn_hash r) (digest (transition_body r)))
      then Err (ReplayError n)
      else replay_rows (n + 1) (tn_hash r) rows'
  end.
Definition replay (rows : list Transition) : fabric (list Transition) :=
  let? _ := replay_rows 1 "" rows in Ok rows.

Definition last_hash (rows : list Transition) : string :=
  match last rows with Some r => tn_hash r | None => "" end.
Definition next_row (rows : list Transition) (job st : string) (clk : Z) (detail : list (string * Json.json)) : Transition :=
  let r := mkTransition JOURNAL_SCHEMA (Z.of_nat (length rows) + 1) (last_hash rows) job st clk detail "" in
  r <| tn_hash := digest (transition_body r) |>.
Definition append (rows : list Transition) (job st : string) (clk : Z) (detail : list (string * Json.json)) :
    fabric (list Transition) :=
  let? _ := valid (bool_decide (st ∈ VALID_STATES)) "invalid fabric state" in
  Ok (rows ++ [next_row rows job st clk detail]).

(** [terminal] *)
Definition terminal (rows : list Transition) : gmap string string :=
  foldl (λ m r, if bool_decide (tn_state r ∈ TERMINAL_STATES) then <[tn_job_id r := tn_state r]> m else m) ∅ rows.

(** ** The scheduler *)

Record Pending := mkPending {
  p_job : FabricJob;
  p_sequence : Z;
  p_enqueued_at : Z;
}.

(** Where the task of a dispatched job is: not started yet, inside the
    job's coroutine, waiting for the condition in its [finally] block, or gone
    without having run that block. *)
Inductive Phase : Type :=
| Created
| Started
| Ending
| Lost.

Record FabricTask := mkTask {
  ft_job : FabricJob;
  ft_phase : Phase;
  ft_cancel : bool;
}.
#[export] Instance FabricTask_eta : Eta FabricTask := λ t, mkTask (ft_job t) (ft_phase t) (ft_cancel t).

(** What the caller sees in its future. *)
Inductive FutureState : Type :=
| FPending
| FCancelled
| FException (name : string)
| FResult.

Record Fabric := mkFabric {
  max_running : Z;
  queue_capacity : Z;
  capability_limits : gmap string Z;
  capability_queue_limits : gmap string Z;
  resource_queue_limits : gmap string Z;
  aging_ns : Z;
  journal : list Transition;
  pending : list Pending;
  waiters : list FabricJob;
  ftasks : gmap Z FabricTask;
  running : list (string * Z);
  running_jobs : gmap string FabricJob;
  capability_running : gmap string Z;
  states : gmap string string;
  futures : gmap Z FutureState;
  sequence : Z;
  accepting : bool;
  stop : bool;
  max_observed_running : Z;
  producer_waits : Z;
  starvation_promotions : Z;
}.
#[export] Instance Fabric_eta : Eta Fabric := λ s,
  mkFabric (max_running s) (queue_capacity s) (capability_limits s) (capability_queue_limits s)
    (resource_queue_limits s) (aging_ns s) (journal s) (pending s) (waiters s) (ftasks s) (running s)
    (running_jobs s) (capability_running s) (states s) (futures s) (sequence s) (accepting s) (stop s)
    (max_observed_running s) (producer_waits s) (starvation_promotions s).

Definition positive_limits (m : gmap string Z) : bool := forallb (λ kv, negb (kv.2 <? 1)) (map_to_list m).

(** [AsyncFabricScheduler.__init__] over the rows read from the journal. *)
Definition Fabric_init (max_running queue_capacity : Z) (limits queue_limits resource_limits : gmap string Z)
    (aging_ns : Z) (rows : list Transition) : fabric Fabric :=
  let? _ := valid (negb ((max_running <? 1) || (queue_capacity <? 1) || (aging_ns <=? 0)))
              "capacity and aging_seconds must be positive" in
  let? _ := valid (positive_limits limits && positive_limits queue_limits && positive_limits resource_limits)
              "capability/resource limits must be positive" in
  let? rows := replay rows in
  Ok (mkFabric max_running queue_capacity limits queue_limits resource_limits aging_ns rows [] [] ∅ [] ∅ ∅
        (terminal rows) ∅ 0 true false 0 0 0).

(** [self._states[job] = state] and [self.journal.append(job, state, ...)];
    the states the scheduler records are all valid. [clk n] is the
    time read for the [n]-th row. *)
Definition record (s : Fabric) (job st : string) (clk : nat → Z) (detail : list (string * Json.json)) : Fabric :=
  s <| states ::= <[job := st]> |> <| journal ::= (λ rows, rows ++ [next_row rows job st (clk (length rows)) detail]) |>.

Definition count_pending (P : FabricJob → bool) (s : Fabric) : Z :=
  Z.of_nat (length (List.filter (λ p, P (p_job p)) (pending s))).

Definition has_capability (c : string) (j : FabricJob) : bool := String.eqb (capability j) c.
Definition uses_resource (r : string) (j : FabricJob) : bool := bool_decide (r ∈ jresources j).

Definition admission_full (s : Fabric) (j : FabricJob) : bool :=
  (queue_capacity s <=? Z.of_nat (length (pending s)))
  || match capability_queue_limits s !! capability j with
     | Some limit => limit <=? count_pending (has_capability (capability j)) s
     | None => false
     end
  || existsb (λ r, match resource_queue_limits s !! r with
                   | Some limit => limit <=? count_pending (uses_resource r) s
                   | None => false
                   end) (elements (jresources j)).

Definition enqueue (s : Fabric) (j : FabricJob) (now : Z) (clk : nat → Z) : Fabric :=
  let q := sequence s + 1 in
  record (s <| sequence := q |> <| futures ::= <[q := FPending]> |> <| pending ::= (λ l, l ++ [mkPending j q now]) |>)
    (job_id j) "queued" clk
    [("capability", Json.Str (capability j)); ("mode", Json.Str (mode j));
     ("resources", Json.List (Json.Str <$> py_sorted (elements (jresources j)))); ("priority", Json.Int (jpriority j))].

(** A submission is queued (its future has that number), waits on the
    condition, or raises. *)
Inductive Reply : Type :=
| Queued (seq : Z)
| Waiting
| Raised (e : FabricExn).

(** The body of the [while self._admission_full(job)] loop, once per turn. *)
Definition try_enqueue (s : Fabric) (j : FabricJob) (now : Z) (clk : nat → Z) : Fabric * Reply :=
  if admission_full s j then (s <| producer_waits ::= Z.succ |> <| waiters ::= (λ l, l ++ [j]) |>, Waiting)
  else (enqueue s j now clk, Queued (sequence s + 1)).

(** [submit], up to the return or to its first wait. *)
Definition submit (s : Fabric) (j : FabricJob) (now : Z) (clk : nat → Z) : Fabric * Reply :=
  if negb (accepting s) then (s, Raised FabricClosed)
  else if bool_decide (is_Some (states s !! job_id j))
          || existsb (λ p, String.eqb (job_id (p_job p)) (job_id j)) (pending s)
       then (s, Raised (DuplicateJob (job_id j)))
       else try_enqueue s j now clk.

(** [submit] again, when the [k]-th waiter is woken. *)
Definition resume (s : Fabric) (k : nat) (now : Z) (clk : nat → Z) : Fabric * Reply :=
  match waiters s !! k with
  | None => (s, Waiting)
  | Some j =>
      let s := s <| waiters ::= delete k |> in
      if negb (accepting s) then (s, Raised FabricClosed) else try_enqueue s j now clk
  end.

Definition writes (j : FabricJob) : bool := bool_decide (mode j ∈ WRITE_MODES).

Definition resources_available (s : Fabric) (c : FabricJob) : bool :=
  forallb (λ r, bool_decide (jresources c ∩ jresources r = ∅) || negb (writes c || writes r)) (map_to_list (running_jobs s)).*2
  && negb (String.eqb (mode c) "release" && negb (bool_decide (running_jobs s = ∅)))
  && negb (existsb (λ r, String.eqb (mode r) "release") (map_to_list (running_jobs s)).*2).

Definition capacity_available (s : Fabric) (j : FabricJob) : bool :=
  (Z.of_nat (length (running s)) <? max_running s)
  && (get0 (capability_running s) (capability j) <? default (max_running s) (capability_limits s !! capability j)).

Definition age_steps (s : Fabric) (p : Pending) (now : Z) : Z := (now - p_enqueued_at p) ÷ aging_ns s.

(** [rank], compared as a pair: priority and age first, then the older. *)
Definition outranks (s : Fabric) (now : Z) (a b : Pending) : bool :=
  let ka := jpriority (p_job a) + age_steps s a now in
  let kb := jpriority (p_job b) + age_steps s b now in
  (kb <? ka) || ((ka =? kb) && (p_sequence a <? p_sequence b)).

Definition candidates (s : Fabric) : list Pending :=
  List.filter (λ p, capacity_available s (p_job p) && resources_available s (p_job p)) (pending s).

(** [_choose], without its counter. *)
Definition choose (s : Fabric) (now : Z) : option Pending :=
  match candidates s with
  | [] => None
  | p :: ps => Some (foldl (λ best q, if outranks s now q best then q else best) p ps)
  end.

(** [self._pending.remove(item)]: the sequence numbers tell the items apart. *)
Fixpoint remove_pending (q : Z) (l : list Pending) : list Pending :=
  match l with
  | [] => []
  | p :: l' => if p_sequence p =? q then l' else p :: remove_pending q l'
  end.

(** One dispatch of [_dispatch_loop]; [None]: nothing can be dispatched. *)
Definition dispatch (s : Fabric) (now : Z) (clk : nat → Z) : option Fabric :=
  match choose s now with
  | None => None
  | Some p =>
      let j := p_job p in
      let s := if 0 <? age_steps s p now then s <| starvation_promotions ::= Z.succ |> else s in
      let s := record (s <| pending ::= remove_pending (p_sequence p) |>) (job_id j) "ready" clk [] in
      let s := s <| ftasks ::= <[p_sequence p := mkTask j Created false]> |>
                 <| running ::= dput (job_id j) (p_sequence p) |>
                 <| running_jobs ::= <[job_id j := j]> |>
                 <| capability_running ::= <[capability j := get0 (capability_running s) (capability j) + 1]> |> in
      Some (s <| max_observed_running ::= Z.max (Z.of_nat (length (running s))) |>)
  end.

(** The dispatcher returns, and with it the task group can end. *)
Definition can_stop (s : Fabric) : bool :=
  stop s && Nat.eqb (length (pending s)) 0 && Nat.eqb (length (running s)) 0.

(** [_execute] up to its first await. *)
Definition execute_start (s : Fabric) (q : Z) (t : FabricTask) (clk : nat → Z) : Fabric :=
  record (s <| ftasks ::= <[q := t <| ft_phase := Started |>]> |>) (job_id (ft_job t)) "running" clk [].

(** How the job's coroutine ends; an exception with the first 500 characters of
    its message. *)
Inductive JobOutcome : Type :=
| OCancelled
| OTimeout
| ORaised (name message : string)
| OReturned (child_cancelled child_timed_out : bool).

Definition outcome_state (o : JobOutcome) : string :=
  match o with
  | OCancelled | OReturned true _ => "cancelled"
  | OTimeout | ORaised _ _ | OReturned false true => "failed"
  | OReturned false false => "succeeded"
  end.
Definition outcome_detail (o : JobOutcome) : list (string * Json.json) :=
  match o with
  | OCancelled => [("reason", Json.Str "cancelled")]
  | OTimeout => [("reason", Json.Str "timeout")]
  | ORaised name message => [("reason", Json.Str name); ("message", Json.Str message)]
  | OReturned true _ => [("reason", Json.Str "child_cancelled")]
  | OReturned false true => [("reason", Json.Str "child_timeout")]
  | OReturned false false => []
  end.
Definition outcome_future (o : JobOutcome) : FutureState :=
  match o with
  | OCancelled | OReturned true _ => FCancelled
  | OTimeout | OReturned false true => FException "TimeoutError"
  | ORaised name _ => FException name
  | OReturned false false => FResult
  end.

(** [if not item.future.done(): ...] *)
Definition resolve (s : Fabric) (q : Z) (f : FutureState) : Fabric :=
  match futures s !! q with
  | Some FPending => s <| futures ::= <[q := f]> |>
  | _ => s
  end.

(** [_execute] from the end of the job to the [finally] block. *)
Definition execute_outcome (s : Fabric) (q : Z) (t : FabricTask) (o : JobOutcome) (clk : nat → Z) : Fabric :=
  resolve (record (s <| ftasks ::= <[q := t <| ft_phase := Ending |> <| ft_cancel := false |>]> |>)
             (job_id (ft_job t)) (outcome_state o) clk (outcome_detail o)) q (outcome_future o).

(** The [finally] block. *)
Definition execute_release (s : Fabric) (q : Z) (t : FabricTask) : Fabric :=
  let c := capability (ft_job t) in
  let remaining := default 1 (capability_running s !! c) - 1 in
  s <| ftasks ::= delete q |> <| running ::= ddel (job_id (ft_job t)) |>
    <| running_jobs ::= delete (job_id (ft_job t)) |>
    <| capability_running ::= (λ m, if remaining =? 0 then delete c m else <[c := remaining]> m) |>.

(** A cancellation reaches a task that has not started, or that waits for the
    condition in its [finally] block: the rest of the coroutine does not run. *)
Definition execute_lost (s : Fabric) (q : Z) (t : FabricTask) : Fabric :=
  s <| ftasks ::= <[q := t <| ft_phase := Lost |>]> |>.

Definition cancel_task (s : Fabric) (q : Z) : Fabric :=
  match ftasks s !! q with
  | Some t => s <| ftasks ::= <[q := t <| ft_cancel := true |>]> |>
  | None => s
  end.

Definition cancel (s : Fabric) (job : string) (clk : nat → Z) : Fabric * bool :=
  match List.find (λ p, String.eqb (job_id (p_job p)) job) (pending s) with
  | Some p =>
      let s := record (s <| pending ::= remove_pending (p_sequence p) |>) job "cancelled" clk
                 [("reason", Json.Str "cancelled_before_run")] in
      (resolve s (p_sequence p) FCancelled, true)
  | None =>
      match dget job (running s) with
      | None => (s, false)
      | Some q => (cancel_task s q, true)
      end
  end.

(** The section of [shutdown] under the condition. *)
Definition drain (s : Fabric) (clk : nat → Z) : Fabric :=
  let s := foldl (λ s p, record s (job_id (p_job p)) "draining" clk []) s (pending s) in
  foldl (λ s i, record s i "draining" clk []) s (running s).*1.
Definition cancel_pending (s : Fabric) (p : Pending) (clk : nat → Z) : Fabric :=
  resolve (record (s <| pending ::= remove_pending (p_sequence p) |>) (job_id (p_job p)) "cancelled" clk
             [("reason", Json.Str "shutdown")]) (p_sequence p) FCancelled.
Definition shutdown (s : Fabric) (cancel_all : bool) (clk : nat → Z) : Fabric :=
  let s := drain (s <| accepting := false |>) clk in
  let s := if cancel_all
           then let s := foldl (λ s p, cancel_pending s p clk) s (pending s) in
                foldl cancel_task s (running s).*2
           else s in
  s <| stop := true |>.

(** * Specification *)

(** The sections as the event loop interleaves them. Nothing in the code keeps a
    host from submitting a job while another submission of the same id waits for
    room; one that never does is [strict], and what holds of a strict host only is
    said to. *)
Inductive fabric_step (strict : bool) : Fabric → Fabric → Prop :=
| f_submit s j now clk : FabricJob_check j = Ok tt →
    (strict = true → ∀ w, w ∈ waiters s → job_id w ≠ job_id j) → fabric_step strict s (submit s j now clk).1
| f_resume s k j now clk : waiters s !! k = Some j → fabric_step strict s (resume s k now clk).1
| f_dispatch s now clk s' : dispatch s now clk = Some s' → fabric_step strict s s'
| f_start s q t clk : ftasks s !! q = Some t → ft_phase t = Created → ft_cancel t = false →
    fabric_step strict s (execute_start s q t clk)
| f_outcome s q t o clk : ftasks s !! q = Some t → ft_phase t = Started →
    fabric_step strict s (execute_outcome s q t o clk)
| f_release s q t : ftasks s !! q = Some t → ft_phase t = Ending → ft_cancel t = false →
    fabric_step strict s (execute_release s q t)
| f_lost s q t : ftasks s !! q = Some t → ft_phase t = Created ∨ ft_phase t = Ending → ft_cancel t = true →
    fabric_step strict s (execute_lost s q t)
| f_cancel s i clk : fabric_step strict s (cancel s i clk).1
| f_shutdown s b clk : fabric_step strict s (shutdown s b clk).

Definition fabric_reachable (strict : bool) (s : Fabric) : Prop :=
  ∃ n cap lims qlims rlims aging rows s0,
    Fabric_init n cap lims qlims rlims aging rows = Ok s0 ∧ rtc (fabric_step strict) s0 s.

Definition pending_ids (s : Fabric) : list string := (λ p, job_id (p_job p)) <$> pending s.

Definition task_has (c : string) (t : FabricTask) : bool := has_capability c (ft_job t).

(** What is running: every entry is of a task, the counters count the tasks,
    the limits hold, and the jobs of the entries exclude one another if they
    conflict. *)
Record running_wf (s : Fabric) : Prop := {
  fw_running i q : dget i (running s) = Some q →
    ∃ t, ftasks s !! q = Some t ∧ job_id (ft_job t) = i ∧ running_jobs s !! i = Some (ft_job t);
  fw_jobs i j : running_jobs s !! i = Some j → job_id j = i ∧ i ∈ (running s).*1;
  fw_capability c : get0 (capability_running s) c = mcount (task_has c) (ftasks s);
  fw_counted c : is_Some (capability_running s !! c) → 0 < get0 (capability_running s) c;
  fw_limit : Z.of_nat (length (running s)) <= max_running s;
  fw_cap_limit c : mcount (task_has c) (ftasks s) <= default (max_running s) (capability_limits s !! c);
  fw_exclusive i j a b : running_jobs s !! i = Some a → running_jobs s !! j = Some b → i ≠ j →
    jresources a ∩ jresources b ≠ ∅ → writes a = false ∧ writes b = false;
  fw_release i j a b : running_jobs s !! i = Some a → running_jobs s !! j = Some b →
    mode a = "release" → i = j;
}.

(** What is queued: within the queue limits; sequence numbers are fresh. *)
Record queue_wf (s : Fabric) : Prop := {
  fw_queue : Z.of_nat (length (pending s)) <= queue_capacity s;
  fw_queue_capability c lim : capability_queue_limits s !! c = Some lim → count_pending (has_capability c) s <= lim;
  fw_queue_resource r lim : resource_queue_limits s !! r = Some lim → count_pending (uses_resource r) s <= lim;
  fw_seq_nodup : NoDup (p_sequence <$> pending s);
  fw_seq_pending p : p ∈ pending s → p_sequence p <= sequence s ∧ ftasks s !! p_sequence p = None;
  fw_seq_task q : is_Some (ftasks s !! q) → q <= sequence s;
}.

(** Every job id is in at most one place, and known unless it waits; so every
    task has its entry. *)
Record ids_wf (s : Fabric) : Prop := {
  fw_task q t : ftasks s !! q = Some t → dget (job_id (ft_job t)) (running s) = Some q;
  fw_unique : NoDup (pending_ids s ++ (running s).*1 ++ (job_id <$> waiters s));
  fw_known i : i ∈ pending_ids s ++ (running s).*1 → is_Some (states s !! i);
  fw_waiting j : j ∈ waiters s → states s !! job_id j = None;
}.

(** The ids are under control only if the host is strict. *)
Definition fabric_wf (strict : bool) (s : Fabric) : Prop := running_wf s ∧ queue_wf s ∧ (strict = true → ids_wf s).

(** The journal is a valid chain, and a terminal state shown by the scheduler is
    the last terminal state of the job in it. *)
Definition journal_ok (s : Fabric) : Prop :=
  replay_rows 1 "" (journal s) = Ok tt ∧
  ∀ i st, states s !! i = Some st → st ∈ TERMINAL_STATES → terminal (journal s) !! i = Some st.

(** A run with two jobs that write the same resource: the first is dispatched,
    cancelled before its task starts, and lost. *)
Definition demo_job (i : string) : FabricJob := mkJob i "python" {["repo"]} "write" 0 None.
Definition demo_clock : nat → Z := Z.of_nat.
Definition demo_s0 : Fabric :=
  ok_or (mkFabric 0 0 ∅ ∅ ∅ 0 [] [] [] ∅ [] ∅ ∅ ∅ ∅ 0 false false 0 0 0) (Fabric_init 2 4 ∅ ∅ ∅ 1000 []).
Definition demo_s1 : Fabric := (submit demo_s0 (demo_job "a") 0 demo_clock).1.
Definition demo_s2 : Fabric := (submit demo_s1 (demo_job "b") 5 demo_clock).1.
Definition demo_s3 : Fabric := default demo_s2 (dispatch demo_s2 9 demo_clock).
Definition demo_s4 : Fabric := (cancel demo_s3 "a" demo_clock).1.
Definition demo_s5 : Fabric := execute_lost demo_s4 1 (mkTask (demo_job "a") Created true).

(** The same job submitted twice while the queue is full. *)
Definition twice_s0 : Fabric :=
  ok_or demo_s0 (Fabric_init 1 1 ∅ ∅ ∅ 1000 []).
Definition twice_s1 : Fabric := (submit twice_s0 (demo_job "a") 0 demo_clock).1.
Definition twice_s2 : Fabric := (submit twice_s1 (demo_job "b") 0 demo_clock).1.
Definition twice_s3 : Fabric := (submit twice_s2 (demo_job "b") 0 demo_clock).1.
Definition twice_s4 : Fabric := (cancel twice_s3 "a" demo_clock).1.
Definition twice_s5 : Fabric := (resume twice_s4 0 0 demo_clock).1.
Definition twice_s6 : Fabric := default twice_s5 (dispatch twice_s5 0 demo_clock).
Definition twice_s7 : Fabric := (resume twice_s6 0 0 demo_clock).1.

(** A job that has succeeded while the shutdown takes the condition first. *)
Definition late_s4 : Fabric := execute_start demo_s3 1 (mkTask (demo_job "a") Created false) demo_clock.
Definition late_s5 : Fabric :=
  execute_outcome late_s4 1 (mkTask (demo_job "a") Started false) (OReturned false false) demo_clock.
Definition late_s6 : Fabric := shutdown late_s5 false demo_clock.

(** * Lemmas *)

(** ** Pending items *)

Lemma remove_pending_perm p l : p ∈ l → NoDup (p_sequence <$> l) → l ≡ₚ p :: remove_pending (p_sequence p) l.
Proof.
  induction l as [|x l IH]; intros Hp Hnd; [by apply not_elem_of_nil in Hp|].
  apply NoDup_cons in Hnd as [Hx Hnd]. cbn [remove_pending]. destruct (Z.eqb_spec (p_sequence x) (p_sequence p)) as [E|E].
  - apply elem_of_cons in Hp as [->|Hp]; [done|]. destruct Hx. rewrite E.
    by apply (list_elem_of_fmap_2 p_sequence).
  - apply elem_of_cons in Hp as [->|Hp]; [done|]. rewrite (IH Hp Hnd) at 1. apply perm_swap.
Qed.

Lemma filter_perm_length (P : Pending → bool) l l' :
  l ≡ₚ l' → length (List.filter P l) = length (List.filter P l').
Proof. induction 1; simpl; repeat destruct (P _); simpl; lia. Qed.

Lemma count_pending_remove P s p :
  p ∈ pending s → NoDup (p_sequence <$> pending s) →
  count_pending P (s <| pending ::= remove_pending (p_sequence p) |>) <= count_pending P s.
Proof.
  intros Hp Hnd. unfold count_pending. simpl.
  rewrite (filter_perm_length _ _ _ (remove_pending_perm p (pending s) Hp Hnd)). simpl.
  destruct (P (p_job p)); simpl; lia.
Qed.

(** ** Changes the invariants do not see *)

Lemma record_wf b s i st clk d : fabric_wf b s → (b = true → i ∉ job_id <$> waiters s) → fabric_wf b (record s i st clk d).
Proof.
  intros (Hr & Hq & Hi) Hw. split; [by destruct Hr|]. split; [by destruct Hq|].
  intros Hb. specialize (Hw Hb). destruct (Hi Hb). constructor; [done|done| |].
  - intros k Hk. simpl. rewrite lookup_insert. case_decide; [by eexists|by apply fw_known0].
  - intros j Hj. simpl. rewrite lookup_insert. case_decide as E; [|by apply fw_waiting0].
    destruct Hw. rewrite E. by apply (list_elem_of_fmap_2 job_id).
Qed.

Lemma fabric_wf_ext b s s' :
  max_running s' = max_running s → queue_capacity s' = queue_capacity s → capability_limits s' = capability_limits s →
  capability_queue_limits s' = capability_queue_limits s → resource_queue_limits s' = resource_queue_limits s →
  pending s' = pending s → waiters s' = waiters s → ftasks s' = ftasks s → running s' = running s →
  running_jobs s' = running_jobs s → capability_running s' = capability_running s → states s' = states s →
  sequence s' = sequence s → fabric_wf b s → fabric_wf b s'.
Proof.
  intros E1 E2 E3 E4 E5 E6 E7 E8 E9 E10 E11 E12 E13 ([] & [] & Hi).
  split; [|split; [|intros Hb; destruct (Hi Hb)]]; constructor; unfold count_pending, pending_ids in *;
    rewrite ?E1, ?E2, ?E3, ?E4, ?E5, ?E6, ?E7, ?E8, ?E9, ?E10, ?E11, ?E12, ?E13; done.
Qed.

Lemma resolve_wf b s q f : fabric_wf b s → fabric_wf b (resolve s q f).
Proof. unfold resolve. destruct (futures s !! q) as [[]|]; try done. by apply fabric_wf_ext. Qed.

Lemma tasks_same c (m : gmap Z FabricTask) q t t' :
  m !! q = Some t → ft_job t' = ft_job t → mcount (task_has c) (<[q := t']> m) = mcount (task_has c) m.
Proof.
  intros Ht Hj. unfold mcount. rewrite (msum_replace _ m q t t') by done. unfold task_has. rewrite Hj. lia.
Qed.

Lemma task_update_wf b s q t t' :
  fabric_wf b s → ftasks s !! q = Some t → ft_job t' = ft_job t → fabric_wf b (s <| ftasks ::= <[q := t']> |>).
Proof.
  intros (Hr & Hq & Hi) Ht Hj. split; [|split].
  - destruct Hr. constructor; simpl; try done.
    + intros i q' Hi'. destruct (fw_running0 i q' Hi') as (u & Hu & H1 & H2). rewrite lookup_insert.
      case_decide as E; [|by exists u]. subst q'. exists t'. rewrite Hj. rewrite Ht in Hu. by injection Hu as <-.
    + intros c. by rewrite (tasks_same c _ q t).
    + intros c. by rewrite (tasks_same c _ q t).
  - destruct Hq. constructor; simpl; try done.
    + intros p Hp. destruct (fw_seq_pending0 p Hp) as [? Hn]. split; [done|]. rewrite lookup_insert_ne; [done|].
      intros ->. congruence.
    + intros q'. rewrite lookup_insert. case_decide as E; [|eauto]. subst q'. intros _. apply fw_seq_task0. by eexists.
  - intros Hb. destruct (Hi Hb). constructor; simpl; try done.
    intros q' u. rewrite lookup_insert. case_decide as E; [|eauto]. intros [= <-]. subst q'. rewrite Hj. eauto.
Qed.

Lemma cancel_task_wf b s q : fabric_wf b s → fabric_wf b (cancel_task s q).
Proof.
  intros H. unfold cancel_task. destruct (ftasks s !! q) as [t|] eqn:E; [|done]. by apply (task_update_wf b s q t).
Qed.

(** ** Leaving the queue *)

Lemma pending_ids_remove s p :
  p ∈ pending s → NoDup (p_sequence <$> pending s) →
  pending_ids s ≡ₚ job_id (p_job p) :: pending_ids (s <| pending ::= remove_pending (p_sequence p) |>).
Proof. intros Hp Hnd. unfold pending_ids. by rewrite (remove_pending_perm p (pending s) Hp Hnd) at 1. Qed.

Lemma queue_remove s p : queue_wf s → p ∈ pending s →
  queue_wf (s <| pending ::= remove_pending (p_sequence p) |>) ∧
  ∀ x, x ∈ remove_pending (p_sequence p) (pending s) → x ∈ pending s ∧ p_sequence x ≠ p_sequence p.
Proof.
  intros Hq Hp. pose proof (remove_pending_perm p (pending s) Hp (fw_seq_nodup s Hq)) as Hperm.
  assert (NoDup (p_sequence <$> p :: remove_pending (p_sequence p) (pending s))) as Hnd
    by (rewrite <- Hperm; apply (fw_seq_nodup s Hq)).
  apply NoDup_cons in Hnd as [Hni Hnd].
  assert (∀ x, x ∈ remove_pending (p_sequence p) (pending s) → x ∈ pending s ∧ p_sequence x ≠ p_sequence p) as Hin.
  { intros x Hx. split; [rewrite Hperm; by right|]. intros E. apply Hni, list_elem_of_fmap.
    by exists x. }
  split; [|done]. pose proof (Permutation_length Hperm) as Hl. simpl in Hl.
  pose proof (λ P, count_pending_remove P s p Hp (fw_seq_nodup s Hq)) as Hc.
  destruct Hq. constructor; simpl; try done.
  - lia.
  - intros c lim Hlim. exact (Z.le_trans _ _ _ (Hc (has_capability c)) (fw_queue_capability0 c lim Hlim)).
  - intros r lim Hlim. exact (Z.le_trans _ _ _ (Hc (uses_resource r)) (fw_queue_resource0 r lim Hlim)).
  - intros x Hx. apply fw_seq_pending0. by apply Hin.
Qed.

Lemma ids_remove s p : queue_wf s → ids_wf s → p ∈ pending s →
  ids_wf (s <| pending ::= remove_pending (p_sequence p) |>) ∧
  job_id (p_job p) ∉ (running s).*1 ∧ job_id (p_job p) ∉ (job_id <$> waiters s) ∧
  job_id (p_job p) ∉ pending_ids (s <| pending ::= remove_pending (p_sequence p) |>).
Proof.
  intros Hq Hi Hp. pose proof (pending_ids_remove s p Hp (fw_seq_nodup s Hq)) as Hperm.
  pose proof (fw_unique s Hi) as Hu. rewrite Hperm in Hu. cbn [app] in Hu. apply NoDup_cons in Hu as [Hni Hu].
  rewrite !elem_of_app in Hni. split; [|tauto]. destruct Hi. constructor; [done|done| |done].
  intros i Hin. apply fw_known0. rewrite Hperm. cbn [app]. right. done.
Qed.

Lemma cancelled_wf b s p clk d i f :
  fabric_wf b s → p ∈ pending s → i = job_id (p_job p) →
  fabric_wf b (resolve (record (s <| pending ::= remove_pending (p_sequence p) |>) i "cancelled" clk d) (p_sequence p) f).
Proof.
  intros (Hr & Hq & Hi) Hp ->. apply resolve_wf, record_wf.
  - split; [by destruct Hr|]. split; [by apply queue_remove|]. intros Hb. apply ids_remove; auto.
  - intros Hb. by apply (ids_remove s p Hq (Hi Hb) Hp).
Qed.

(** ** Entering the queue *)

Lemma admission_room s j : admission_full s j = false →
  Z.of_nat (length (pending s)) < queue_capacity s ∧
  (∀ lim, capability_queue_limits s !! capability j = Some lim → count_pending (has_capability (capability j)) s < lim) ∧
  (∀ r lim, r ∈ jresources j → resource_queue_limits s !! r = Some lim → count_pending (uses_resource r) s < lim).
Proof.
  unfold admission_full. intros H. apply orb_false_iff in H as [[H1 H2]%orb_false_iff H3].
  split; [by apply Z.leb_gt|]. split.
  - intros lim Hl. rewrite Hl in H2. by apply Z.leb_gt.
  - intros r lim Hr Hl. rewrite <- not_true_iff_false, existsb_exists in H3.
    destruct (Z.lt_ge_cases (count_pending (uses_resource r) s) lim) as [|Hge]; [done|]. destruct H3. exists r.
    split; [by apply list_elem_of_In, elem_of_elements|]. rewrite Hl. by apply Z.leb_le.
Qed.

Lemma NoDup_add {A} (x : A) l l' : l' ≡ₚ x :: l → x ∉ l → NoDup l → NoDup l'.
Proof. intros -> Hx Hl. by apply NoDup_cons. Qed.

Lemma count_pending_snoc P s p :
  count_pending P (s <| pending ::= (λ l, l ++ [p]) |>) = count_pending P s + (if P (p_job p) then 1 else 0).
Proof.
  unfold count_pending. simpl. rewrite List.filter_app, length_app. simpl. destruct (P (p_job p)); simpl; lia.
Qed.

Lemma queue_enqueue s j now clk : queue_wf s → admission_full s j = false → queue_wf (enqueue s j now clk).
Proof.
  intros Hq Hroom. apply admission_room in Hroom as (H1 & H2 & H3).
  pose proof (λ P, count_pending_snoc P s (mkPending j (sequence s + 1) now)) as Hc.
  destruct Hq. constructor; simpl.
  - rewrite length_app. simpl. lia.
  - intros c lim Hlim. specialize (Hc (has_capability c)). specialize (fw_queue_capability0 c lim Hlim).
    change (count_pending (has_capability c) (s <| pending ::= (λ l, l ++ [mkPending j (sequence s + 1) now]) |>) <= lim).
    rewrite Hc. simpl. destruct (has_capability c j) eqn:E; [|lia]. apply String.eqb_eq in E. subst c.
    specialize (H2 lim Hlim). lia.
  - intros r lim Hlim. specialize (Hc (uses_resource r)). specialize (fw_queue_resource0 r lim Hlim).
    change (count_pending (uses_resource r) (s <| pending ::= (λ l, l ++ [mkPending j (sequence s + 1) now]) |>) <= lim).
    rewrite Hc. simpl. destruct (uses_resource r j) eqn:E; [|lia]. apply bool_decide_eq_true_1 in E.
    specialize (H3 r lim E Hlim). lia.
  - rewrite fmap_app. apply NoDup_app. split; [done|]. split; [|apply NoDup_singleton].
    intros q Hq Hin. apply list_elem_of_singleton in Hin as ->. simpl in Hq.
    apply list_elem_of_fmap in Hq as (p & Hp & Hin). apply fw_seq_pending0 in Hin as [Hle _]. lia.
  - intros p [Hp| ->%list_elem_of_singleton]%elem_of_app; simpl.
    + apply fw_seq_pending0 in Hp as [Hle Hn]. split; [lia|done].
    + split; [lia|]. apply eq_None_not_Some. intros Hs. apply fw_seq_task0 in Hs. lia.
  - intros q Hq. apply fw_seq_task0 in Hq. lia.
Qed.

Lemma fabric_enqueue b s j now clk :
  fabric_wf b s → admission_full s j = false → (b = true → states s !! job_id j = None ∧ job_id j ∉ (job_id <$> waiters s)) →
  fabric_wf b (enqueue s j now clk).
Proof.
  intros (Hr & Hq & Hi) Hroom Hid. split; [by destruct Hr|]. split; [by apply queue_enqueue|].
  intros Hb. specialize (Hi Hb). destruct (Hid Hb) as [Hst Hw].
  assert (pending_ids (enqueue s j now clk) = pending_ids s ++ [job_id j]) as Hp.
  { unfold pending_ids. simpl. by rewrite fmap_app. }
  constructor.
  - apply (fw_task s Hi).
  - rewrite Hp.
    change (NoDup ((pending_ids s ++ [job_id j]) ++ (running s).*1 ++ (job_id <$> waiters s))).
    rewrite <- app_assoc, Permutation_app_swap_app. cbn [app]. apply NoDup_cons. split; [|apply (fw_unique s Hi)].
    rewrite app_assoc, elem_of_app. intros [Hin|Hin]; [|done].
    apply (fw_known s Hi) in Hin. rewrite Hst in Hin. by destruct Hin.
  - intros i Hin. simpl. rewrite lookup_insert. case_decide; [by eexists|]. apply (fw_known s Hi).
    rewrite Hp in Hin. rewrite !elem_of_app, list_elem_of_singleton in Hin. rewrite elem_of_app.
    simpl in Hin. destruct Hin as [[?|?]|?]; [by left|congruence|by right].
  - intros k Hk. simpl. rewrite lookup_insert. case_decide as E; [|by apply (fw_waiting s Hi)].
    destruct Hw. rewrite E. by apply (list_elem_of_fmap_2 job_id).
Qed.

Lemma fabric_try_enqueue b s j now clk :
  fabric_wf b s → (b = true → states s !! job_id j = None ∧ job_id j ∉ (job_id <$> waiters s)) →
  fabric_wf b (try_enqueue s j now clk).1.
Proof.
  intros Hwf Hid. unfold try_enqueue. destruct (admission_full s j) eqn:E; [|by apply fabric_enqueue].
  destruct Hwf as (Hr & Hq & Hi). cbn [fst]. split; [by destruct Hr|]. split; [by destruct Hq|].
  intros Hb. specialize (Hi Hb). destruct (Hid Hb) as [Hst Hw].
  constructor; simpl.
  - apply (fw_task s Hi).
  - apply (NoDup_add (job_id j) (pending_ids s ++ (running s).*1 ++ (job_id <$> waiters s))); [| |apply (fw_unique s Hi)].
    { rewrite fmap_app. change (pending_ids s ++ (running s).*1 ++ (job_id <$> waiters s) ++ [job_id j]
        ≡ₚ job_id j :: pending_ids s ++ (running s).*1 ++ (job_id <$> waiters s)).
      rewrite !app_assoc. apply Permutation_app_comm. }
    rewrite app_assoc, elem_of_app. intros [Hin|Hin]; [|done].
    apply (fw_known s Hi) in Hin. rewrite Hst in Hin. by destruct Hin.
  - apply (fw_known s Hi).
  - intros k [Hk| ->%list_elem_of_singleton]%elem_of_app; [by apply (fw_waiting s Hi)|done].
Qed.

Lemma fabric_submit b s j now clk :
  fabric_wf b s → (b = true → ∀ w, w ∈ waiters s → job_id w ≠ job_id j) → fabric_wf b (submit s j now clk).1.
Proof.
  intros Hwf Hw. unfold submit. destruct (accepting s); cbn [negb]; [|done].
  destruct (bool_decide _ || _) eqn:E; [done|]. apply orb_false_iff in E as [E%bool_decide_eq_false_1 _].
  apply eq_None_not_Some in E. apply fabric_try_enqueue; [done|]. intros Hb. split; [done|].
  intros (w & Hid & Hin)%list_elem_of_fmap. by apply (Hw Hb w Hin).
Qed.

Lemma fabric_resume b s k j now clk :
  fabric_wf b s → waiters s !! k = Some j → fabric_wf b (resume s k now clk).1.
Proof.
  intros (Hr & Hq & Hi) Hk. unfold resume. rewrite Hk.
  pose proof (delete_Permutation (waiters s) k j Hk) as Hperm.
  assert (b = true → job_id j ∉ (pending_ids s ++ (running s).*1) ++ (job_id <$> delete k (waiters s)) ∧
    NoDup ((pending_ids s ++ (running s).*1) ++ (job_id <$> delete k (waiters s)))) as Hu.
  { intros Hb. pose proof (fw_unique s (Hi Hb)) as Hu. rewrite Hperm, fmap_cons in Hu.
    rewrite !app_assoc, <- Permutation_middle in Hu. by apply NoDup_cons in Hu. }
  assert (fabric_wf b (s <| waiters ::= delete k |>)) as Hwf'.
  { split; [by destruct Hr|]. split; [by destruct Hq|]. intros Hb. constructor; simpl.
    - apply (fw_task s (Hi Hb)).
    - rewrite app_assoc. by apply Hu.
    - apply (fw_known s (Hi Hb)).
    - intros w Hw. apply (fw_waiting s (Hi Hb)). rewrite Hperm. by right. }
  destruct (negb (accepting _)); [exact Hwf'|]. apply fabric_try_enqueue; [exact Hwf'|]. intros Hb. split.
  - simpl. apply (fw_waiting s (Hi Hb)). by apply list_elem_of_lookup_2 in Hk.
  - simpl. intros Hin. apply (proj1 (Hu Hb)). apply elem_of_app. by right.
Qed.

(** ** Dispatch *)

Lemma choose_in s now p : choose s now = Some p →
  p ∈ pending s ∧ capacity_available s (p_job p) = true ∧ resources_available s (p_job p) = true.
Proof.
  unfold choose. destruct (candidates s) as [|c cs] eqn:Ec; [done|]. intros [= Hp].
  assert (p ∈ c :: cs) as Hin.
  { rewrite <- Hp. clear. revert c. induction cs as [|x cs IH]; intros c; cbn [foldl]; [by left|].
    specialize (IH (if outranks s now x c then x else c)).
    apply elem_of_cons in IH as [IH|IH]; [|right; by right]. rewrite IH. destruct (outranks s now x c); [right|]; by left. }
  rewrite <- Ec in Hin. unfold candidates in Hin. apply list_elem_of_In, filter_In in Hin as [Hin H].
  apply andb_true_iff in H. apply list_elem_of_In in Hin. done.
Qed.

Lemma resources_available_spec s c : resources_available s c = true →
  (∀ i r, running_jobs s !! i = Some r → jresources c ∩ jresources r ≠ ∅ → writes c = false ∧ writes r = false) ∧
  (mode c = "release" → running_jobs s = ∅) ∧ (∀ i r, running_jobs s !! i = Some r → mode r ≠ "release").
Proof.
  unfold resources_available. rewrite !andb_true_iff, !negb_true_iff. intros [[H1 H2] H3].
  assert (∀ i r, running_jobs s !! i = Some r → r ∈ (map_to_list (running_jobs s)).*2) as Hin.
  { intros i r Hi. apply list_elem_of_fmap. exists (i, r). split; [done|]. by apply elem_of_map_to_list. }
  split; [|split].
  - intros i r Hi Hov. rewrite forallb_forall in H1. specialize (H1 r). rewrite <- list_elem_of_In in H1.
    specialize (H1 (Hin i r Hi)). apply orb_true_iff in H1 as [H1%bool_decide_eq_true_1|H1]; [done|].
    by apply negb_true_iff, orb_false_iff in H1.
  - intros Hm. rewrite Hm in H2. simpl in H2. apply negb_false_iff, bool_decide_eq_true_1 in H2. done.
  - intros i r Hi Hm. rewrite <- not_true_iff_false, existsb_exists in H3. apply H3. exists r.
    rewrite <- list_elem_of_In. split; [by apply (Hin i)|]. by apply String.eqb_eq.
Qed.

Lemma length_dput {V} k (v : V) d : (length (dput k v d) <= S (length d))%nat.
Proof. induction d as [|[k' v'] d IH]; cbn [dput length]; [lia|]. destruct (String.eqb k' k); cbn [length]; lia. Qed.

(** The running part once a job with a fresh number is added. *)
Lemma running_add s j q :
  running_wf s → ftasks s !! q = None → capacity_available s j = true → resources_available s j = true →
  running_wf (s <| ftasks ::= <[q := mkTask j Created false]> |> <| running ::= dput (job_id j) q |>
    <| running_jobs ::= <[job_id j := j]> |>
    <| capability_running ::= <[capability j := get0 (capability_running s) (capability j) + 1]> |>).
Proof.
  intros Hr Hq Hcap Hres. apply andb_true_iff in Hcap as [Hmax%Z.ltb_lt Hclim%Z.ltb_lt].
  apply resources_available_spec in Hres as (Hov & Hrel & Hnorel).
  destruct Hr. constructor; simpl.
  - intros i q'. rewrite dget_put. case_decide as E.
    + intros [= <-]. exists (mkTask j Created false). subst i. by rewrite !lookup_insert_eq.
    + intros Hi. destruct (fw_running0 i q' Hi) as (t & Ht & H1 & H2). exists t. rewrite !lookup_insert_ne; [done| |].
      * congruence.
      * intros ->. congruence.
  - intros i k. rewrite lookup_insert, dput_keys. case_decide as E.
    + intros [= <-]. split; [by subst|]. left. by subst.
    + intros Hk. destruct (fw_jobs0 i k Hk). split; [done|by right].
  - intros c. rewrite get0_insert, mcount_insert by done. unfold task_has at 1, has_capability at 1. cbn [ft_job].
    destruct (String.eqb_spec (capability j) c) as [->|Hne].
    + rewrite decide_True by done. rewrite fw_capability0. lia.
    + rewrite decide_False by done. rewrite fw_capability0. lia.
  - intros c. rewrite get0_insert, lookup_insert. case_decide as E; [|auto].
    intros _. rewrite fw_capability0. pose proof (mcount_nonneg (task_has (capability j)) (ftasks s)). lia.
  - pose proof (length_dput (job_id j) q (running s)). lia.
  - intros c. rewrite mcount_insert by done. unfold task_has at 1, has_capability at 1. cbn [ft_job].
    destruct (String.eqb_spec (capability j) c) as [<-|Hne]; [|apply fw_cap_limit0].
    rewrite fw_capability0 in Hclim. lia.
  - intros i k a b. rewrite !lookup_insert. repeat case_decide; subst.
    + done.
    + intros [= <-] Hb _ Hab. by apply (Hov k b).
    + intros Ha [= <-] _ Hab. rewrite intersection_comm_L in Hab. destruct (Hov i a Ha Hab). done.
    + apply fw_exclusive0.
  - intros i k a b. rewrite !lookup_insert. repeat case_decide; subst.
    + done.
    + intros [= <-] Hb Hm. rewrite (Hrel Hm), lookup_empty in Hb. done.
    + intros Ha [= <-] Hm. by destruct (Hnorel i a Ha).
    + apply fw_release0.
Qed.

Lemma fabric_dispatch b s now clk s' : fabric_wf b s → dispatch s now clk = Some s' → fabric_wf b s'.
Proof.
  intros (Hr & Hq & Hi) H. unfold dispatch in H. destruct (choose s now) as [p|] eqn:Ep; [|done].
  apply choose_in in Ep as (Hp & Hcap & Hres). set (s0 := if 0 <? age_steps s p now then _ else s) in H.
  assert (fabric_wf b s0) as (Hr0 & Hq0 & Hi0).
  { unfold s0. destruct (0 <? age_steps s p now); [|done]. by apply (fabric_wf_ext b s). }
  assert (pending s0 = pending s ∧ capacity_available s0 (p_job p) = true ∧ resources_available s0 (p_job p) = true) as (Ep & Hcap0 & Hres0).
  { unfold s0. by destruct (0 <? age_steps s p now). }
  rewrite <- Ep in Hp. clearbody s0. clear Hr Hq Hi Hcap Hres Ep.
  destruct (queue_remove s0 p Hq0 Hp) as [Hq1 Hrest].
  destruct (fw_seq_pending s0 Hq0 p Hp) as [Hle Hnt].
  set (j := p_job p) in *. set (q := p_sequence p) in *.
  injection H as <-. split; [|split].
  - set (s1 := record (s0 <| pending ::= remove_pending q |>) (job_id j) "ready" clk []).
    assert (running_wf s1) as Hr1 by (destruct Hr0; constructor; assumption).
    destruct (running_add s1 j q Hr1 Hnt Hcap0 Hres0). constructor; assumption.
  - destruct Hq1. constructor; try done; simpl.
    + intros x Hx. destruct (fw_seq_pending0 x Hx) as [H1 H2]. split; [done|].
      rewrite lookup_insert_ne; [done|]. apply Hrest in Hx as [_ Hx]. congruence.
    + intros q'. rewrite lookup_insert. case_decide as E; [|apply fw_seq_task0]. intros _. by subst q'.
  - intros Hb. destruct (ids_remove s0 p Hq0 (Hi0 Hb) Hp) as (Hi1 & Hnr & Hnw & Hnp). fold j q in Hi1, Hnr, Hnw, Hnp.
    destruct Hi1. constructor; simpl; rewrite ?(dput_new (job_id j) q (running s0) Hnr).
    + intros q' t. rewrite lookup_insert. case_decide as E.
      * intros [= <-]. simpl. rewrite dget_snoc by done. rewrite decide_True by done. by subst.
      * intros Ht. rewrite dget_snoc by done. rewrite decide_False; [by apply fw_task0|].
        intros Heq. apply fw_task0 in Ht. simpl in Ht. apply dget_Some_elem in Ht. by rewrite Heq in Ht.
    + rewrite fmap_app. cbn [fmap list_fmap fst]. rewrite <- app_assoc, (Permutation_app_swap_app (running s0).*1).
      rewrite Permutation_app_swap_app. cbn [app]. apply NoDup_cons. split; [|exact fw_unique0].
      rewrite !elem_of_app. naive_solver.
    + intros i Hin. rewrite lookup_insert. case_decide as E; [by eexists|]. apply fw_known0.
      rewrite fmap_app, !elem_of_app in Hin. cbn [fmap list_fmap fst] in Hin. rewrite list_elem_of_singleton in Hin.
      rewrite elem_of_app. destruct Hin as [?|[?|?]]; [by left|by right|congruence].
    + intros w Hw. rewrite lookup_insert. case_decide as E; [|by apply fw_waiting0].
      destruct Hnw. rewrite E. by apply (list_elem_of_fmap_2 job_id).
Qed.

(** ** The end of a job *)

Lemma capability_release (m : gmap string Z) c (n : string → Z) :
  (∀ k, get0 m k = n k) → (∀ k, is_Some (m !! k) → 0 < get0 m k) → 0 < n c →
  let remaining := default 1 (m !! c) - 1 in
  let m' := if remaining =? 0 then delete c m else <[c := remaining]> m in
  (∀ k, get0 m' k = if decide (c = k) then n k - 1 else n k) ∧ (∀ k, is_Some (m' !! k) → 0 < get0 m' k).
Proof.
  intros Hm Hpos Hc remaining m'.
  assert (m !! c = Some (n c)) as Hmc.
  { specialize (Hm c). unfold get0 in Hm. destruct (m !! c); simpl in Hm; [congruence|lia]. }
  assert (remaining = n c - 1) as Hrem by (unfold remaining; by rewrite Hmc).
  unfold m'. rewrite Hrem. destruct (Z.eqb_spec (n c - 1) 0) as [E|E].
  - split; intros k; unfold get0; rewrite lookup_delete; case_decide as Ek; simpl.
    + subst. lia.
    + apply Hm.
    + by intros [].
    + apply Hpos.
  - split; intros k; rewrite get0_insert.
    + case_decide; [by subst|apply Hm].
    + rewrite lookup_insert. case_decide as Ek; [intros _; lia|apply Hpos].
Qed.

Lemma running_release s q t : running_wf s → ftasks s !! q = Some t → running_wf (execute_release s q t).
Proof.
  intros Hr Ht. set (i := job_id (ft_job t)).
  destruct (capability_release (capability_running s) (capability (ft_job t))
    (λ c, mcount (task_has c) (ftasks s)) (fw_capability s Hr) (fw_counted s Hr)) as [Hc1 Hc2].
  { pose proof (mcount_pos (task_has (capability (ft_job t))) _ q t Ht (String.eqb_refl _)). lia. }
  assert (∀ c, mcount (task_has c) (delete q (ftasks s)) =
    if decide (capability (ft_job t) = c) then mcount (task_has c) (ftasks s) - 1
    else mcount (task_has c) (ftasks s)) as Hcnt.
  { intros c. rewrite (mcount_delete _ _ q t) by done. unfold task_has at 2, has_capability.
    destruct (String.eqb_spec (capability (ft_job t)) c), (decide (capability (ft_job t) = c)); done || lia. }
  destruct Hr. constructor; simpl; fold i.
  - intros k q'. rewrite dget_del. case_decide as E; [done|]. intros Hk.
    destruct (fw_running0 k q' Hk) as (u & Hu & H1 & H2). exists u.
    rewrite !lookup_delete_ne; [done|congruence|]. intros <-. rewrite Ht in Hu. injection Hu as <-. by destruct E.
  - intros k j [Hne Hk]%lookup_delete_Some. destruct (fw_jobs0 k j Hk) as [H1 H2]. split; [done|].
    rewrite ddel_keys. apply list_elem_of_In, filter_In. split; [by apply list_elem_of_In|].
    apply negb_true_iff, String.eqb_neq. congruence.
  - intros c. rewrite Hcnt. apply Hc1.
  - apply Hc2.
  - pose proof (length_ddel i (running s)). lia.
  - intros c. rewrite Hcnt. specialize (fw_cap_limit0 c). case_decide; lia.
  - intros k1 k2 a b [_ Ha]%lookup_delete_Some [_ Hb]%lookup_delete_Some. eauto.
  - intros k1 k2 a b [_ Ha]%lookup_delete_Some [_ Hb]%lookup_delete_Some. eauto.
Qed.

Lemma fabric_release b s q t : fabric_wf b s → ftasks s !! q = Some t → fabric_wf b (execute_release s q t).
Proof.
  intros (Hr & Hq & Hi) Ht. split; [by apply running_release|]. split.
  - destruct Hq. constructor; simpl; try done.
    + intros p Hp. destruct (fw_seq_pending0 p Hp) as [? Hn]. split; [done|]. apply lookup_delete_None. by right.
    + intros q' [u [_ Hu]%lookup_delete_Some]. apply fw_seq_task0. by eexists.
  - intros Hb. specialize (Hi Hb). pose proof (fw_task s Hi q t Ht) as Hid.
    assert (∀ k, k ∈ (running (execute_release s q t)).*1 → k ∈ (running s).*1) as Hsub.
    { intros k. cbn [execute_release running]. simpl. rewrite ddel_keys, list_elem_of_In, filter_In, <- list_elem_of_In. tauto. }
    destruct Hi. constructor; simpl.
    + intros q' u [Hne Hu]%lookup_delete_Some. rewrite dget_del. case_decide as E; [|eauto].
      apply fw_task0 in Hu. rewrite E, Hid in Hu. congruence.
    + eapply sublist_NoDup; [exact fw_unique0|]. apply sublist_app; [done|]. apply sublist_app; [|done].
      rewrite ddel_keys. apply Listfilter_sublist.
    + intros k Hk. apply fw_known0. rewrite elem_of_app in Hk |- *. destruct Hk as [|Hk]; [by left|right].
      by apply Hsub.
    + done.
Qed.

(** A running id is not waiting. *)
Lemma running_not_waiting s i : ids_wf s → i ∈ (running s).*1 → i ∉ (job_id <$> waiters s).
Proof.
  intros Hi Hr Hw. pose proof (fw_unique s Hi) as Hu. rewrite app_assoc in Hu. apply NoDup_app in Hu as (_ & Hu & _).
  apply (Hu i); [apply elem_of_app; by right|done].
Qed.

Lemma task_not_waiting b s q t : fabric_wf b s → ftasks s !! q = Some t → b = true → job_id (ft_job t) ∉ (job_id <$> waiters s).
Proof.
  intros (_ & _ & Hi) Ht Hb. apply running_not_waiting; [auto|]. apply (dget_Some_elem _ _ q). by apply (fw_task s (Hi Hb)).
Qed.

Lemma fabric_cancel b s i clk : fabric_wf b s → fabric_wf b (cancel s i clk).1.
Proof.
  intros Hwf. unfold cancel. destruct (List.find _ (pending s)) as [p|] eqn:E; cbn [fst].
  - apply find_some in E as [Hp He]. apply list_elem_of_In in Hp. apply String.eqb_eq in He.
    by apply cancelled_wf.
  - destruct (dget i (running s)) as [q|]; cbn [fst]; [by apply cancel_task_wf|done].
Qed.

Lemma record_fold_wf b l s clk st :
  fabric_wf b s → (b = true → ∀ i, i ∈ l → i ∉ (job_id <$> waiters s)) →
  fabric_wf b (foldl (λ s i, record s i st clk []) s l).
Proof.
  revert s. induction l as [|i l IH]; intros s Hwf Hl; [done|]. cbn [foldl]. apply IH.
  - apply record_wf; [done|]. intros Hb. apply (Hl Hb). by left.
  - intros Hb k Hk. apply (Hl Hb k). by right.
Qed.

Lemma record_fold_frame l s clk st :
  pending (foldl (λ s i, record s i st clk []) s l) = pending s ∧
  running (foldl (λ s i, record s i st clk []) s l) = running s ∧
  waiters (foldl (λ s i, record s i st clk []) s l) = waiters s.
Proof. revert s. induction l as [|i l IH]; intros s; [done|]. cbn [foldl]. by destruct (IH (record s i st clk [])) as (-> & -> & ->). Qed.

Lemma foldl_fmap_record l s clk st :
  foldl (λ s p, record s (job_id (p_job p)) st clk []) s l =
  foldl (λ s i, record s i st clk []) s ((λ p, job_id (p_job p)) <$> l).
Proof. revert s. induction l as [|p l IH]; intros s; [done|]. apply IH. Qed.

Lemma drain_wf b s clk : fabric_wf b s → fabric_wf b (drain s clk) ∧ pending (drain s clk) = pending s.
Proof.
  intros Hwf. unfold drain. rewrite foldl_fmap_record. fold (pending_ids s).
  set (s1 := foldl _ s (pending_ids s)).
  destruct (record_fold_frame (pending_ids s) s clk "draining") as (Hp & Hr & Hw). fold s1 in Hp, Hr, Hw.
  assert (fabric_wf b s1) as Hwf1.
  { apply record_fold_wf; [done|]. intros Hb i Hi Hin. destruct Hwf as (_ & _ & Hids). pose proof (fw_unique s (Hids Hb)) as Hu.
    apply NoDup_app in Hu as (_ & Hu & _). apply (Hu i Hi). apply elem_of_app. by right. }
  split.
  - apply record_fold_wf; [done|]. rewrite Hr, Hw. intros Hb i Hi. destruct Hwf as (_ & _ & Hids). apply running_not_waiting; auto.
  - by destruct (record_fold_frame (running s1).*1 s1 clk "draining") as (-> & _).
Qed.

Lemma cancel_pending_pending s p clk : pending (cancel_pending s p clk) = remove_pending (p_sequence p) (pending s).
Proof.
  unfold cancel_pending, resolve. by destruct (futures _ !! _) as [[]|].
Qed.

Lemma cancel_pending_fold b l s clk :
  fabric_wf b s → NoDup (p_sequence <$> l) → (∀ p, p ∈ l → p ∈ pending s) →
  fabric_wf b (foldl (λ s p, cancel_pending s p clk) s l).
Proof.
  revert s. induction l as [|p l IH]; intros s Hwf Hnd Hl; [done|]. cbn [foldl].
  apply NoDup_cons in Hnd as [Hni Hnd]. pose proof (Hl p ltac:(by left)) as Hp. apply IH; [|done|].
  - by apply cancelled_wf.
  - intros x Hx. rewrite cancel_pending_pending.
    assert (x ∈ p :: remove_pending (p_sequence p) (pending s)) as Hin.
    { rewrite <- (remove_pending_perm p (pending s) Hp); [apply Hl; by right|]. apply (fw_seq_nodup s). by destruct Hwf as (_ & ? & _). }
    apply elem_of_cons in Hin as [->|]; [|done]. destruct Hni. by apply (list_elem_of_fmap_2 p_sequence).
Qed.

Lemma cancel_task_fold b l s : fabric_wf b s → fabric_wf b (foldl cancel_task s l).
Proof. revert s. induction l as [|q l IH]; intros s Hwf; [done|]. cbn [foldl]. apply IH. by apply cancel_task_wf. Qed.

Lemma fabric_shutdown strict s b clk : fabric_wf strict s → fabric_wf strict (shutdown s b clk).
Proof.
  intros Hwf. unfold shutdown.
  assert (fabric_wf strict (s <| accepting := false |>)) as Hwf0 by (by apply (fabric_wf_ext strict s)).
  destruct (drain_wf _ _ clk Hwf0) as [Hwf1 _]. set (s1 := drain _ clk) in *.
  match goal with |- fabric_wf _ (?x <| stop := true |>) => assert (fabric_wf strict x) as Hx; [|by apply (fabric_wf_ext strict x)] end.
  destruct b; [|done]. cbv zeta. apply cancel_task_fold. apply cancel_pending_fold; [done| |done].
  apply (fw_seq_nodup s1). by destruct Hwf1 as (_ & ? & _).
Qed.

Lemma fabric_init_wf n cap lims qlims rlims aging rows s :
  Fabric_init n cap lims qlims rlims aging rows = Ok s → (∀ b, fabric_wf b s) ∧ journal_ok s.
Proof.
  unfold Fabric_init, valid. intros H. destruct (negb _) eqn:E1; [|discriminate H]. cbn [rbind] in H.
  destruct (positive_limits lims && _ && _) eqn:E2; [|discriminate H]. cbn [rbind] in H.
  unfold replay in H. destruct (replay_rows 1 "" rows) as [[]|] eqn:E3; [|discriminate H]. cbn [rbind] in H. injection H as <-.
  apply negb_true_iff, orb_false_iff in E1 as [[E1%Z.ltb_ge E1']%orb_false_iff _]. apply Z.ltb_ge in E1'.
  rewrite !andb_true_iff in E2. destruct E2 as [[P1 P2] P3].
  assert (∀ m k v, positive_limits m = true → m !! k = Some v → 1 <= v) as Hpos.
  { intros m k v Hp Hv. unfold positive_limits in Hp. rewrite forallb_forall in Hp.
    apply elem_of_map_to_list, list_elem_of_In in Hv. apply Hp, negb_true_iff, Z.ltb_ge in Hv. done. }
  split.
  - intros b. split; [|split; [|intros _]]; constructor; simpl; try done.
    + intros c. unfold get0. by rewrite lookup_empty.
    + lia.
    + intros c. change (0 <= default n (lims !! c)). destruct (lims !! c) eqn:E; simpl; [|lia].
      pose proof (Hpos _ _ _ P1 E). lia.
    + lia.
    + intros c lim Hl. pose proof (Hpos _ _ _ P2 Hl). unfold count_pending. simpl. lia.
    + intros c lim Hl. pose proof (Hpos _ _ _ P3 Hl). unfold count_pending. simpl. lia.
    + constructor.
    + intros p Hp. by apply not_elem_of_nil in Hp.
    + intros q [v Hv]. by rewrite ?lookup_empty in Hv.
    + constructor.
    + intros i Hi. by apply not_elem_of_nil in Hi.
    + intros j Hj. by apply not_elem_of_nil in Hj.
  - split; [done|]. simpl. done.
Qed.

Lemma fabric_step_wf strict s s' : fabric_wf strict s → fabric_step strict s s' → fabric_wf strict s'.
Proof.
  intros Hwf Hs.
  destruct Hs as [s j now clk _ Hw|s k j now clk Hk|s now clk s' H|s q t clk Ht _ _|s q t o clk Ht _|s q t Ht _ _|s q t Ht _ _|s i clk|s b clk].
  - apply fabric_submit; auto.
  - by apply (fabric_resume _ s k j).
  - by apply (fabric_dispatch _ s now clk).
  - apply record_wf; [by apply (task_update_wf _ s q t)|]. by apply (task_not_waiting _ s q t).
  - apply resolve_wf, record_wf; [by apply (task_update_wf _ s q t)|]. by apply (task_not_waiting _ s q t).
  - by apply fabric_release.
  - by apply (task_update_wf _ s q t).
  - by apply fabric_cancel.
  - by apply fabric_shutdown.
Qed.

(** ** The journal *)

Lemma replay_rows_snoc rows n prev r :
  replay_rows n prev rows = Ok tt →
  tn_schema r = JOURNAL_SCHEMA → tn_sequence r = n + Z.of_nat (length rows) →
  tn_prev_hash r = default prev (tn_hash <$> last rows) → tn_state r ∈ VALID_STATES →
  tn_hash r = digest (transition_body r) → replay_rows n prev (rows ++ [r]) = Ok tt.
Proof.
  revert n prev. induction rows as [|x rows IH]; intros n prev H Hs Hq Hp Hv Hh.
  - cbn [app replay_rows]. rewrite Hs, String.eqb_refl. cbn [last fmap option_fmap option_map default] in Hp.
    rewrite Hp, String.eqb_refl, Hh, String.eqb_refl.
    rewrite bool_decide_eq_true_2 by done. rewrite (proj2 (Z.eqb_eq _ _)); [done|]. simpl in Hq. lia.
  - cbn [app replay_rows] in H |- *. destruct (_ || _); [discriminate H|]. apply (IH _ _ H); try done.
    + rewrite Hq. cbn [length]. lia.
    + rewrite Hp. destruct rows as [|y rows]; [done|]. rewrite last_cons_cons.
      destruct (last (y :: rows)) eqn:E; [done|]. by apply last_None in E.
Qed.

Lemma last_hash_default rows : last_hash rows = default "" (tn_hash <$> last rows).
Proof. unfold last_hash. by destruct (last rows). Qed.

Lemma terminal_snoc rows r :
  terminal (rows ++ [r]) =
    if bool_decide (tn_state r ∈ TERMINAL_STATES) then <[tn_job_id r := tn_state r]> (terminal rows) else terminal rows.
Proof. unfold terminal. by rewrite foldl_app. Qed.

Lemma journal_record s i st clk d : journal_ok s → st ∈ VALID_STATES → journal_ok (record s i st clk d).
Proof.
  intros [Hr Ht] Hv. split.
  - change (replay_rows 1 "" (journal s ++ [next_row (journal s) i st (clk (length (journal s))) d]) = Ok tt).
    apply replay_rows_snoc; [done|reflexivity| |apply last_hash_default|exact Hv|reflexivity].
    change (Z.of_nat (length (journal s)) + 1 = 1 + Z.of_nat (length (journal s))). lia.
  - intros k st' Hk Hst. change (journal (record s i st clk d)) with (journal s ++ [next_row (journal s) i st (clk (length (journal s))) d]).
    rewrite terminal_snoc. change (tn_state (next_row _ _ _ _ _)) with st. change (tn_job_id (next_row _ _ _ _ _)) with i.
    change (states (record s i st clk d)) with (<[i := st]> (states s)) in Hk. rewrite lookup_insert in Hk.
    case_decide as E.
    + injection Hk as <-. rewrite bool_decide_eq_true_2 by done. subst k. apply lookup_insert_eq.
    + specialize (Ht k st' Hk Hst). case_bool_decide; [|done]. by rewrite lookup_insert_ne.
Qed.

Lemma journal_frame s s' : journal s' = journal s → states s' = states s → journal_ok s → journal_ok s'.
Proof. unfold journal_ok. by intros -> ->. Qed.

Lemma journal_resolve s q f : journal_ok s → journal_ok (resolve s q f).
Proof. unfold resolve. destruct (futures s !! q) as [[]|]; try done. Qed.

Lemma outcome_valid o : outcome_state o ∈ VALID_STATES.
Proof. apply (bool_decide_unpack _). destruct o as [| | |[] []]; vm_compute; exact I. Qed.

Lemma valid_states_in st : bool_decide (st ∈ VALID_STATES) = true → st ∈ VALID_STATES.
Proof. apply bool_decide_eq_true_1. Qed.

Lemma journal_try_enqueue s j now clk : journal_ok s → journal_ok (try_enqueue s j now clk).1.
Proof.
  intros H. unfold try_enqueue. destruct (admission_full s j); cbn [fst]; [by apply (journal_frame s)|].
  apply journal_record; [by apply (journal_frame s)|by apply valid_states_in].
Qed.

Lemma journal_drain_fold l s clk : journal_ok s → journal_ok (foldl (λ s i, record s i "draining" clk []) s l).
Proof.
  revert s. induction l as [|i l IH]; intros s H; [done|]. cbn [foldl]. apply IH.
  apply journal_record; [done|by apply valid_states_in].
Qed.

Lemma journal_cancelled s p i clk d f :
  journal_ok s →
  journal_ok (resolve (record (s <| pending ::= remove_pending (p_sequence p) |>) i "cancelled" clk d) (p_sequence p) f).
Proof. intros H. apply journal_resolve, journal_record; [by apply (journal_frame s)|by apply valid_states_in]. Qed.

Lemma journal_cancel_task s q : journal_ok s → journal_ok (cancel_task s q).
Proof. unfold cancel_task. by destruct (ftasks s !! q). Qed.

Lemma journal_shutdown s b clk : journal_ok s → journal_ok (shutdown s b clk).
Proof.
  intros H. unfold shutdown.
  assert (journal_ok (drain (s <| accepting := false |>) clk)) as H1.
  { unfold drain. rewrite foldl_fmap_record. apply journal_drain_fold, journal_drain_fold. by apply (journal_frame s). }
  set (s1 := drain _ clk) in *. destruct b; [|by apply (journal_frame s1)]. cbv zeta.
  match goal with |- journal_ok (?x <| stop := true |>) => apply (journal_frame x); [done|done|] end.
  assert (∀ l s, journal_ok s → journal_ok (foldl cancel_task s l)) as Hc.
  { intros l. induction l as [|q l IH]; intros s' Hs; [done|]. cbn [foldl]. by apply IH, journal_cancel_task. }
  apply Hc. generalize (pending s1) at 1. intros l. clear -H1. revert H1. generalize s1. clear s1.
  induction l as [|p l IH]; intros s1 H1; [done|]. cbn [foldl]. by apply IH, journal_cancelled.
Qed.

Lemma journal_step strict s s' : journal_ok s → fabric_step strict s s' → journal_ok s'.
Proof.
  intros H Hs.
  destruct Hs as [s j now clk _ _|s k j now clk Hk|s now clk s' Hd|s q t clk _ _ _|s q t o clk _ _|s q t _ _ _|s q t _ _ _|s i clk|s b clk].
  - unfold submit. destruct (negb _); [done|]. destruct (_ || _); [done|]. by apply journal_try_enqueue.
  - unfold resume. rewrite Hk. destruct (negb _); [by apply (journal_frame s)|].
    apply journal_try_enqueue. by apply (journal_frame s).
  - unfold dispatch in Hd. destruct (choose s now) as [p|]; [|discriminate Hd].
    set (s0 := if 0 <? age_steps s p now then _ else s) in Hd.
    assert (journal_ok s0) as H0 by (unfold s0; by destruct (0 <? age_steps s p now)).
    clearbody s0. injection Hd as <-.
    refine (journal_frame (record (s0 <| pending ::= remove_pending (p_sequence p) |>) (job_id (p_job p)) "ready" clk [])
      _ eq_refl eq_refl _).
    apply journal_record; [by apply (journal_frame s0)|by apply valid_states_in].
  - apply journal_record; [by apply (journal_frame s)|by apply valid_states_in].
  - apply journal_resolve, journal_record; [by apply (journal_frame s)|apply outcome_valid].
  - by apply (journal_frame s).
  - by apply (journal_frame s).
  - unfold cancel. destruct (List.find _ (pending s)) as [p|]; cbn [fst]; [by apply journal_cancelled|].
    destruct (dget i (running s)); cbn [fst]; [by apply journal_cancel_task|done].
  - by apply journal_shutdown.
Qed.

(** ** Reachable states *)

Lemma fabric_reachable_wf strict s : fabric_reachable strict s → fabric_wf strict s.
Proof.
  intros (n & cap & lims & qlims & rlims & aging & rows & s0 & H0 & Hr).
  destruct (fabric_init_wf _ _ _ _ _ _ _ _ H0) as [Hwf _]. clear H0. specialize (Hwf strict).
  induction Hr as [|s1 s2 s3 Hs Hr IH]; [done|]. apply IH. by apply (fabric_step_wf strict s1).
Qed.

Lemma fabric_reachable_journal strict s : fabric_reachable strict s → journal_ok s.
Proof.
  intros (n & cap & lims & qlims & rlims & aging & rows & s0 & H0 & Hr).
  destruct (fabric_init_wf _ _ _ _ _ _ _ _ H0) as [_ Hj]. clear H0.
  induction Hr as [|s1 s2 s3 Hs Hr IH]; [done|]. apply IH. by apply (journal_step strict s1).
Qed.

(** Under a strict host every task has its entry. *)
Lemma task_entry s q t : fabric_wf true s → ftasks s !! q = Some t →
  dget (job_id (ft_job t)) (running s) = Some q ∧ running_jobs s !! job_id (ft_job t) = Some (ft_job t).
Proof.
  intros (Hr & _ & Hi) Ht. pose proof (fw_task s (Hi eq_refl) q t Ht) as Hd. split; [done|].
  destruct (fw_running s Hr _ _ Hd) as (u & Hu & _ & Hj). rewrite Ht in Hu. by injection Hu as <-.
Qed.

Lemma tasks_in_tables s : fabric_wf true s → (size (ftasks s) <= length (running s))%nat.
Proof.
  intros Hwf. rewrite <- length_map_to_list. set (l := map_to_list (ftasks s)).
  assert (∀ kt, kt ∈ l → dget (job_id (ft_job kt.2)) (running s) = Some kt.1) as Hl.
  { intros [q t] Hin%elem_of_map_to_list. by apply (task_entry s q t). }
  assert (NoDup ((λ kt, job_id (ft_job kt.2)) <$> l)) as Hnd.
  { assert (NoDup l.*1) as Hf by apply NoDup_fst_map_to_list. clearbody l. induction l as [|kt l IH]; [constructor|].
    cbn [fmap list_fmap] in Hf |- *. apply NoDup_cons in Hf as [Hk Hf]. apply NoDup_cons. split; [|apply IH; [|done]; intros x Hx; apply Hl; by right].
    intros (x & Hid & Hx)%list_elem_of_fmap. apply Hk. pose proof (Hl kt ltac:(by left)) as H1. rewrite Hid, (Hl x ltac:(by right)) in H1.
    injection H1 as H1. rewrite <- H1. by apply list_elem_of_fmap_2. }
  assert (((λ kt, job_id (ft_job kt.2)) <$> l) ⊆+ (running s).*1) as Hsub.
  { apply NoDup_submseteq; [done|]. intros i (kt & -> & Hin)%list_elem_of_fmap. by eapply dget_Some_elem, Hl. }
  apply submseteq_length in Hsub. by rewrite !length_fmap in Hsub.
Qed.

(** ** A lost task *)

Definition stuck (s : Fabric) (q : Z) : Prop :=
  (∃ t, ftasks s !! q = Some t ∧ ft_phase t = Lost) ∧ futures s !! q = Some FPending.

Lemma stuck_frame s s' q : ftasks s' !! q = ftasks s !! q → futures s' !! q = futures s !! q → stuck s q → stuck s' q.
Proof. unfold stuck. by intros -> ->. Qed.

Lemma resolve_other s q q' f : q' ≠ q → ftasks (resolve s q' f) = ftasks s ∧ futures (resolve s q' f) !! q = futures s !! q.
Proof.
  intros Hne. unfold resolve. destruct (futures s !! q') as [[]|]; try done. split; [done|]. by apply lookup_insert_ne.
Qed.

Lemma stuck_cancel_task s q q' : stuck s q → stuck (cancel_task s q') q.
Proof.
  intros [(t & Ht & Hl) Hf]. unfold cancel_task. destruct (ftasks s !! q') as [t'|] eqn:E; [|split; [by exists t|done]].
  split; [|done]. simpl. rewrite lookup_insert. case_decide as Eq; [|by exists t]. subst q'.
  rewrite Ht in E. injection E as <-. by eexists.
Qed.

Lemma stuck_enqueue s j now clk q : queue_wf s → stuck s q → stuck (try_enqueue s j now clk).1 q.
Proof.
  intros Hq Hst. unfold try_enqueue. destruct (admission_full s j); cbn [fst]; [by apply (stuck_frame s)|].
  apply (stuck_frame s); [done| |done]. simpl. apply lookup_insert_ne.
  destruct Hst as [(t & Ht & _) _]. pose proof (fw_seq_task s Hq q ltac:(by eexists)). lia.
Qed.

Lemma stuck_cancelled s p i clk d f q :
  queue_wf s → p ∈ pending s → stuck s q →
  stuck (resolve (record (s <| pending ::= remove_pending (p_sequence p) |>) i "cancelled" clk d) (p_sequence p) f) q.
Proof.
  intros Hq Hp Hst. assert (p_sequence p ≠ q) as Hne.
  { intros <-. destruct Hst as [(t & Ht & _) _]. destruct (fw_seq_pending s Hq p Hp) as [_ Hn]. congruence. }
  destruct (resolve_other (record (s <| pending ::= remove_pending (p_sequence p) |>) i "cancelled" clk d) q (p_sequence p) f Hne)
    as [E1 E2]. apply (stuck_frame s); [by rewrite E1|by rewrite E2|done].
Qed.

Lemma stuck_shutdown s b clk q : fabric_wf true s → stuck s q → stuck (shutdown s b clk) q.
Proof.
  intros Hwf Hst. unfold shutdown.
  assert (∀ l s st, stuck s q → stuck (foldl (λ s i, record s i st clk []) s l) q) as Hrec.
  { intros l. induction l as [|i l IH]; intros s' st H; [done|]. cbn [foldl]. apply IH. by apply (stuck_frame s'). }
  assert (fabric_wf true (s <| accepting := false |>)) as Hwf0 by (by apply (fabric_wf_ext true s)).
  destruct (drain_wf _ _ clk Hwf0) as [Hwf1 _].
  assert (stuck (drain (s <| accepting := false |>) clk) q) as H1.
  { unfold drain. rewrite foldl_fmap_record. by apply Hrec, Hrec. }
  set (s1 := drain _ clk) in *. clearbody s1. clear s Hwf Hst Hwf0.
  destruct b; [|exact H1]. cbv zeta.
  match goal with |- stuck (?x <| stop := true |>) q => assert (stuck x q) as Hx; [|exact Hx] end.
  assert (∀ l s, stuck s q → stuck (foldl cancel_task s l) q) as Hc.
  { intros l. induction l as [|x l IH]; intros s' Hs; [done|]. cbn [foldl]. by apply IH, stuck_cancel_task. }
  apply Hc. clear Hc Hrec.
  assert (NoDup (p_sequence <$> pending s1)) as Hnd by (apply fw_seq_nodup; by destruct Hwf1 as (_ & ? & _)).
  assert (∀ p, p ∈ pending s1 → p ∈ pending s1) as Hin by done. revert Hnd Hin.
  generalize (pending s1) at 1 2 4. intros l. revert s1 Hwf1 H1.
  induction l as [|p l IH]; intros s1 Hwf1 H1 Hnd Hin; [done|]. cbn [foldl].
  apply NoDup_cons in Hnd as [Hni Hnd]. pose proof (Hin p ltac:(by left)) as Hp. apply IH; [|by apply stuck_cancelled; [destruct Hwf1 as (_ & ? & _)| |]|done|].
  - by apply cancelled_wf.
  - intros x Hx. rewrite cancel_pending_pending.
    assert (x ∈ p :: remove_pending (p_sequence p) (pending s1)) as Hxin.
    { rewrite <- (remove_pending_perm p (pending s1) Hp); [apply Hin; by right|]. apply (fw_seq_nodup s1). by destruct Hwf1 as (_ & ? & _). }
    apply elem_of_cons in Hxin as [->|]; [|done]. destruct Hni. by apply (list_elem_of_fmap_2 p_sequence).
Qed.

Lemma stuck_step s s' q : fabric_wf true s → stuck s q → fabric_step true s s' → stuck s' q.
Proof.
  intros Hwf Hst Hs. pose proof Hwf as (Hr & Hq & Hi).
  assert (∀ q' t, ftasks s !! q' = Some t → ft_phase t ≠ Lost → q' ≠ q) as Hne.
  { intros q' t Ht Hp ->. destruct Hst as [(u & Hu & Hl) _]. congruence. }
  destruct Hs as [s j now clk _ Hw|s k j now clk Hk|s now clk s' Hd|s q' t clk Ht Hp _|s q' t o clk Ht Hp|s q' t Ht Hp _|s q' t Ht Hp _|s i clk|s b clk].
  - unfold submit. destruct (negb _); [done|]. destruct (_ || _); [done|]. by apply stuck_enqueue.
  - unfold resume. rewrite Hk. destruct (negb _); [done|]. apply stuck_enqueue; [by destruct Hq|done].
  - unfold dispatch in Hd. destruct (choose s now) as [p|] eqn:Ep; [|discriminate Hd]. injection Hd as <-.
    apply choose_in in Ep as (Hp & _). destruct (fw_seq_pending s Hq p Hp) as [_ Hn].
    apply (stuck_frame s); [| |done]; destruct (0 <? age_steps s p now); try done; simpl; apply lookup_insert_ne;
      intros <-; destruct Hst as [(t & Ht & _) _]; congruence.
  - apply (stuck_frame s); [|done|done]. simpl. apply lookup_insert_ne, (Hne q' t Ht). by rewrite Hp.
  - assert (q' ≠ q) as Hqq by (apply (Hne q' t Ht); by rewrite Hp). unfold execute_outcome.
    match goal with |- stuck (resolve ?x q' ?f) q => destruct (resolve_other x q q' f Hqq) as [E1 E2] end.
    apply (stuck_frame s); [rewrite E1; by apply lookup_insert_ne|by rewrite E2|done].
  - apply (stuck_frame s); [|done|done]. simpl. apply lookup_delete_ne, (Hne q' t Ht). by rewrite Hp.
  - apply (stuck_frame s); [|done|done]. simpl. apply lookup_insert_ne, (Hne q' t Ht). by destruct Hp as [->| ->].
  - unfold cancel. destruct (List.find _ (pending s)) as [p|] eqn:E; cbn [fst].
    + apply find_some in E as [Hp _]. apply list_elem_of_In in Hp. by apply stuck_cancelled.
    + destruct (dget i (running s)); cbn [fst]; [by apply stuck_cancel_task|done].
  - by apply stuck_shutdown.
Qed.

(** ** The demo runs *)

Lemma fabric_demo_dispatched : fabric_reachable true demo_s3.
Proof.
  exists 2, 4, ∅, ∅, ∅, 1000, [], demo_s0. split; [vm_compute; reflexivity|].
  apply (rtc_l _ demo_s0 demo_s1).
  { apply (f_submit true demo_s0 (demo_job "a") 0 demo_clock); [vm_compute; reflexivity|].
    intros _ w Hw. change (waiters demo_s0) with (@nil FabricJob) in Hw. by apply not_elem_of_nil in Hw. }
  apply (rtc_l _ demo_s1 demo_s2).
  { apply (f_submit true demo_s1 (demo_job "b") 5 demo_clock); [vm_compute; reflexivity|].
    intros _ w Hw. change (waiters demo_s1) with (@nil FabricJob) in Hw. by apply not_elem_of_nil in Hw. }
  apply (rtc_l _ demo_s2 demo_s3); [|constructor].
  apply (f_dispatch true demo_s2 9 demo_clock). vm_compute. reflexivity.
Qed.

Lemma fabric_demo_lost : fabric_reachable true demo_s5.
Proof.
  destruct fabric_demo_dispatched as (n & cap & l1 & l2 & l3 & ag & rows & s0 & H0 & Hr).
  exists n, cap, l1, l2, l3, ag, rows, s0. split; [exact H0|].
  etransitivity; [exact Hr|]. apply (rtc_l _ demo_s3 demo_s4).
  - exact (f_cancel true demo_s3 "a" demo_clock).
  - apply (rtc_l _ demo_s4 demo_s5); [|constructor].
    apply (f_lost true demo_s4 1 (mkTask (demo_job "a") Created true)); [vm_compute; reflexivity|by left|reflexivity].
Qed.

(** A finding: the duplicate check comes before the wait, so two submissions of
    one id that both wait are both queued and run as two jobs; the second
    dispatch would even share the first one's entry in the running tables. *)
Lemma waiting_duplicates : fabric_reachable false twice_s7 ∧
  (running twice_s7).*1 = ["b"] ∧ pending_ids twice_s7 = ["b"].
Proof.
  split; [|split; vm_compute; reflexivity].
  exists 1, 1, ∅, ∅, ∅, 1000, [], twice_s0. split; [vm_compute; reflexivity|].
  assert (∀ s j, FabricJob_check j = Ok tt → fabric_step false s (submit s j 0 demo_clock).1) as Hsub.
  { intros s j Hj. apply f_submit; [exact Hj|intros H; discriminate H]. }
  apply (rtc_l _ _ twice_s1); [apply Hsub; vm_compute; reflexivity|].
  apply (rtc_l _ _ twice_s2); [apply Hsub; vm_compute; reflexivity|].
  apply (rtc_l _ _ twice_s3); [apply Hsub; vm_compute; reflexivity|].
  apply (rtc_l _ _ twice_s4); [exact (f_cancel false twice_s3 "a" demo_clock)|].
  apply (rtc_l _ _ twice_s5); [apply (f_resume false twice_s4 0 (demo_job "b") 0 demo_clock); vm_compute; reflexivity|].
  apply (rtc_l _ _ twice_s6); [apply (f_dispatch false twice_s5 0 demo_clock); vm_compute; reflexivity|].
  apply (rtc_l _ _ twice_s7); [|constructor].
  apply (f_resume false twice_s6 0 (demo_job "b") 0 demo_clock). vm_compute. reflexivity.
Qed.

(** A finding: a shutdown between the end of a job and its [finally] block puts
    the finished job back to draining, for good: the task only leaves. *)
Lemma shutdown_reverts_terminal :
  states late_s5 !! "a" = Some "succeeded" ∧ states late_s6 !! "a" = Some "draining" ∧
  terminal (journal late_s6) !! "a" = Some "succeeded" ∧
  states (execute_release late_s6 1 (mkTask (demo_job "a") Ending false)) !! "a" = Some "draining".
Proof. repeat split; vm_compute; reflexivity. Qed.

(** * Properties *)

(** C22: in every reachable state of the fabric at most its limit of the tasks
    of a capability run, and the queue is within its capacity and its limits per
    capability and per resource. Of the jobs in the tables of what runs there are
    at most [max_running], two that share a resource are both readers, and a
    release is alone. Every task that runs is in the tables under its own id, so
    that the same holds of the tasks, if no job was submitted while another
    submission of its id waited for room: of those submit queues both
    ([waiting_duplicates]). *)
Theorem fabric_exclusion strict s : fabric_reachable strict s →
  (∀ c, mcount (task_has c) (ftasks s) <= default (max_running s) (capability_limits s !! c)) ∧
  (Z.of_nat (length (pending s)) <= queue_capacity s ∧
   (∀ c lim, capability_queue_limits s !! c = Some lim → count_pending (has_capability c) s <= lim) ∧
   (∀ r lim, resource_queue_limits s !! r = Some lim → count_pending (uses_resource r) s <= lim)) ∧
  (Z.of_nat (length (running s)) <= max_running s ∧
   ∀ i j a b, running_jobs s !! i = Some a → running_jobs s !! j = Some b → i ≠ j →
     (jresources a ∩ jresources b ≠ ∅ → writes a = false ∧ writes b = false) ∧ mode a ≠ "release") ∧
  (strict = true → Z.of_nat (size (ftasks s)) <= max_running s ∧
   ∀ p q t u, ftasks s !! p = Some t → ftasks s !! q = Some u → p ≠ q →
     (jresources (ft_job t) ∩ jresources (ft_job u) ≠ ∅ → writes (ft_job t) = false ∧ writes (ft_job u) = false) ∧
     mode (ft_job t) ≠ "release").
Proof.
  intros Hreach%fabric_reachable_wf. pose proof Hreach as (Hr & Hq & _).
  assert (∀ i j a b, running_jobs s !! i = Some a → running_jobs s !! j = Some b → i ≠ j →
    (jresources a ∩ jresources b ≠ ∅ → writes a = false ∧ writes b = false) ∧ mode a ≠ "release") as Hex.
  { intros i j a b Ha Hb Hij. split; [by apply (fw_exclusive s Hr i j)|]. intros Hm. by apply Hij, (fw_release s Hr i j a b). }
  split; [apply (fw_cap_limit s Hr)|]. split; [|split; [split; [apply (fw_limit s Hr)|exact Hex]|]].
  - split; [apply (fw_queue s Hq)|]. split; [apply (fw_queue_capability s Hq)|apply (fw_queue_resource s Hq)].
  - intros ->. split; [etransitivity; [|apply (fw_limit s Hr)]; pose proof (tasks_in_tables s Hreach); lia|].
    intros p q t u Ht Hu Hne. destruct (task_entry s p t Hreach Ht) as [E1 Hj1], (task_entry s q u Hreach Hu) as [E2 Hj2].
    apply (Hex _ _ _ _ Hj1 Hj2). congruence.
Qed.

Lemma fabric_exclusion_witness :
  running_jobs demo_s3 !! "a" = Some (demo_job "a") ∧
  (∀ j b, running_jobs demo_s3 !! j = Some b → "a" ≠ j → "repo" ∉ jresources b) ∧ pending_ids demo_s3 = ["b"].
Proof.
  assert (running_jobs demo_s3 !! "a" = Some (demo_job "a")) as Ha by (vm_compute; reflexivity).
  destruct (fabric_exclusion true demo_s3 fabric_demo_dispatched) as (_ & _ & [_ Hex] & _).
  split; [exact Ha|]. split; [|vm_compute; reflexivity]. intros j b Hb Hj Hin.
  destruct (Hex "a" j (demo_job "a") b Ha Hb Hj) as [H _]. destruct H as [H _].
  - intros E. assert ("repo" ∈ jresources (demo_job "a")) as Hm by (apply (bool_decide_unpack _); vm_compute; exact I).
    apply (not_elem_of_empty (C := gset string) "repo"). rewrite <- E. apply elem_of_intersection. split; [exact Hm|exact Hin].
  - vm_compute in H. discriminate H.
Defined.

(** the journal of every reachable fabric replays: its sequence numbers and
    its hash chain are valid, and a fabric restarted from it knows the terminal
    state of every job the old one showed as terminal. *)
Theorem fabric_journal_replays strict s n cap lims qlims rlims aging s0 :
  fabric_reachable strict s → Fabric_init n cap lims qlims rlims aging (journal s) = Ok s0 →
  replay (journal s) = Ok (journal s) ∧ journal s0 = journal s ∧ states s0 = terminal (journal s) ∧
  ∀ i st, states s !! i = Some st → st ∈ TERMINAL_STATES → states s0 !! i = Some st.
Proof.
  intros Hr H0. apply fabric_reachable_journal in Hr as [Hrep Hterm].
  assert (replay (journal s) = Ok (journal s)) as Hrp by (unfold replay; by rewrite Hrep).
  unfold Fabric_init in H0. apply rbind_Ok in H0 as ([] & _ & H0). apply rbind_Ok in H0 as ([] & _ & H0).
  rewrite Hrp in H0. cbn [rbind] in H0. injection H0 as <-. split; [done|]. split; [done|]. split; [done|].
  exact Hterm.
Qed.

Lemma fabric_journal_replays_witness :
  ∃ s0, Fabric_init 2 4 ∅ ∅ ∅ 1000 (journal demo_s4) = Ok s0 ∧ states s0 = terminal (journal demo_s4) ∧
    length (journal demo_s4) = 3%nat.
Proof.
  assert (fabric_reachable true demo_s4) as Hr.
  { destruct fabric_demo_dispatched as (n & cap & l1 & l2 & l3 & ag & rows & s0 & H0 & Hr).
    exists n, cap, l1, l2, l3, ag, rows, s0. split; [exact H0|].
    etransitivity; [exact Hr|]. apply rtc_once. exact (f_cancel true demo_s3 "a" demo_clock). }
  set (m := Fabric_init 2 4 ∅ ∅ ∅ 1000 (journal demo_s4)).
  assert (is_ok m = true) as Hok by (vm_compute; reflexivity).
  destruct m as [s0|e] eqn:E; [|discriminate Hok]. exists s0. split; [reflexivity|].
  destruct (fabric_journal_replays true demo_s4 2 4 ∅ ∅ ∅ 1000 s0 Hr E) as (_ & _ & Hst & _).
  split; [exact Hst|vm_compute; reflexivity].
Defined.

(** a finding. A task that a cancellation reaches before its first step, or
    while its [finally] block waits for the condition, leaves without freeing
    its place: whatever happens afterwards, the dispatcher can never return, so
    [shutdown] never does, and a future still pending stays pending. *)
Theorem lost_task_blocks_shutdown s q t s' :
  fabric_reachable true s → ftasks s !! q = Some t → ft_phase t = Lost → futures s !! q = Some FPending →
  rtc (fabric_step true) s s' → can_stop s' = false ∧ futures s' !! q = Some FPending.
Proof.
  intros Hreach%fabric_reachable_wf Ht Hl Hf Hr.
  assert (stuck s q) as Hst by (split; [by exists t|done]). clear Ht Hl Hf.
  assert (fabric_wf true s' ∧ stuck s' q) as [Hwf' [(t' & Ht' & _) Hf']].
  { induction Hr as [s|s1 s2 s3 Hs Hr IH]; [done|]. apply IH; [by apply (fabric_step_wf true s1)|by apply (stuck_step s1)]. }
  split; [|done]. apply (task_entry s' q t' Hwf') in Ht' as [Ht' _]. unfold can_stop.
  destruct (running s'); [discriminate Ht'|]. by rewrite andb_false_r.
Qed.

Lemma lost_task_blocks_shutdown_witness :
  can_stop (shutdown demo_s5 true demo_clock) = false ∧
  ∀ s', rtc (fabric_step true) demo_s5 s' → can_stop s' = false ∧ futures s' !! 1 = Some FPending.
Proof.
  split; [vm_compute; reflexivity|]. intros s' Hr.
  refine (lost_task_blocks_shutdown demo_s5 1 (mkTask (demo_job "a") Lost true) s' fabric_demo_lost _ eq_refl _ Hr);
    vm_compute; reflexivity.
Defined.
