(* ===== verification/PlanDag.v ===== *)
(** The PlanDAG compiler ([simplicio_loop/plan_dag.py]): normalisation of a
    plan, the dependency order, write conflicts, execution waves, drift and
    replanning. The raw mappings of the callers are typed records whose optional
    entries are [None] when the key is missing or null. *)
From stdpp Require Import pretty.
From S2P Require Import Prelude PyLib PyText Graph.
Import Text.
Local Open Scope Z_scope.
Local Open Scope py_scope.

(** * Definitions *)

Definition PLAN_SCHEMA : string := "simplicio.plan-dag/v1".
Definition RECEIPT_SCHEMA : string := "simplicio.plan-dag-receipt/v1".

(** [PlanError]: the reason code and its detail. [PlanKeyError] is what a
    subscript of a dict without the key raises, [PlanIndexError] that of a list
    out of range. *)
Inductive PlanExn : Type :=
| PlanError (reason detail : string)
| PlanKeyError (key : string)
| PlanIndexError.

Notation planned := (result PlanExn).

Definition plan_check (ok : bool) (reason detail : string) : planned unit :=
  if ok then Ok tt else Err (PlanError reason detail).

(** [_canonical], [_hash] and [_strings]. *)
Definition canonical (v : Json.json) : string := Json.dumps false v.
Definition plan_hash_of (v : Json.json) : string := "sha256:" +:+ Sha256.hexdigest (canonical v).
Definition strings (l : list string) : list string := sorted_set (List.filter Str.truthy (Str.strip <$> l)).

(** ** Targets *)

Definition TARGET_KINDS : list string := ["file"; "dir"; "symbol"; "config"; "db"; "api"].

Definition norm_name (name : string) : string := lstrip_char slash (normpath ("/" +:+ name)).

(** [_target] *)
Definition target (value : string) : string :=
  let raw := replace backslash slash (Str.strip value) in
  match partition colon raw with
  | Some (kind, name) =>
      if bool_decide (kind ∈ TARGET_KINDS)
      then kind +:+ ":" +:+ (if bool_decide (kind ∈ ["file"; "dir"]) then norm_name name else name)
      else "file:" +:+ norm_name raw
  | None => "file:" +:+ norm_name raw
  end.

(** A normalised target cut at its first colon. *)
Definition kind_name (t : string) : string * string :=
  match partition colon t with Some p => p | None => (t, "") end.

Definition under_dir (dir name : string) : bool :=
  String.eqb name dir || startswith (rstrip_char slash dir +:+ "/") name.

Definition targets_conflict (left right : string) : bool :=
  let left := target left in
  let right := target right in
  if String.eqb left right then true
  else
    let '(lkind, lname) := kind_name left in
    let '(rkind, rname) := kind_name right in
    if String.eqb lkind "dir" && String.eqb rkind "file" then under_dir lname rname
    else if String.eqb rkind "dir" && String.eqb lkind "file" then under_dir rname lname
    else false.

(** ** Intent and nodes *)

Record RawIntent := mkRawIntent {
  ri_goal : option string;
  ri_acceptance : list string;
  ri_oracle : list (string * Json.json);
  ri_risks : list (list (string * Json.json));
  ri_non_goals : list string;
}.

Record Intent := mkIntent {
  in_goal : string;
  in_acceptance : list string;
  in_risks : list (list (string * Json.json));
  in_non_goals : list string;
  in_oracle : list (string * Json.json);
}.

Definition risk_le (x y : list (string * Json.json)) : Prop := String.le (canonical (Json.Obj x)) (canonical (Json.Obj y)).
#[export] Instance risk_le_dec x y : Decision (risk_le x y) := _.

(** [_normalize_intent] *)
Definition normalize_intent (i : RawIntent) : planned Intent :=
  let goal := join " " (split_ws (default "" (ri_goal i))) in
  let acceptance := strings (ri_acceptance i) in
  let? _ := plan_check (Str.truthy goal) "goal_missing" "" in
  let? _ := plan_check (negb (bool_decide (acceptance = []))) "acceptance_criteria_missing" "" in
  let? _ := plan_check (negb (Nat.eqb (length (ri_oracle i)) 0)) "oracle_missing" "" in
  Ok (mkIntent goal acceptance (merge_sort risk_le (ri_risks i)) (strings (ri_non_goals i)) (ri_oracle i)).

Record RawNode := mkRawNode {
  rn_node_id : option string;
  rn_logical_task_id : option string;
  rn_capability : option string;
  rn_inputs : list string;
  rn_outputs : list string;
  rn_depends_on : list string;
  rn_read_set : list string;
  rn_write_set : list string;
  rn_context_refs : list string;
  rn_tests : list string;
  rn_criteria : list string;
  rn_generation_sensitive : bool;
  rn_risk : option string;
  rn_rollback : option string;
}.

Record Node := mkNode {
  node_id : string;
  logical_task_id : string;
  capability : string;
  inputs : list string;
  outputs : list string;
  depends_on : list string;
  read_set : list string;
  write_set : list string;
  context_refs : list string;
  tests : list string;
  acceptance_criteria_refs : list string;
  generation_sensitive : bool;
  risk : string;
  rollback_strategy : string;
  node_hash : string;
}.
#[export] Instance Node_eta : Eta Node := λ n,
  mkNode (node_id n) (logical_task_id n) (capability n) (inputs n) (outputs n) (depends_on n) (read_set n) (write_set n)
    (context_refs n) (tests n) (acceptance_criteria_refs n) (generation_sensitive n) (risk n) (rollback_strategy n) (node_hash n).

(** [x or d] on an optional string. *)
Definition or_default (x : option string) (d : string) : string :=
  match x with Some s => if Str.truthy s then s else d | None => d end.

Definition json_strings (l : list string) : Json.json := Json.List (Json.Str <$> l).

(** The node as JSON without its hash; slots are never part of it. *)
Definition node_body (n : Node) : list (string * Json.json) := [
  ("node_id", Json.Str (node_id n)); ("logical_task_id", Json.Str (logical_task_id n));
  ("capability", Json.Str (capability n)); ("inputs", json_strings (inputs n)); ("outputs", json_strings (outputs n));
  ("depends_on", json_strings (depends_on n)); ("read_set", json_strings (read_set n));
  ("write_set", json_strings (write_set n)); ("context_refs", json_strings (context_refs n));
  ("tests", json_strings (tests n)); ("acceptance_criteria_refs", json_strings (acceptance_criteria_refs n));
  ("generation_sensitive", Json.Bool (generation_sensitive n)); ("risk", Json.Str (risk n));
  ("rollback_strategy", Json.Str (rollback_strategy n)); ("assigned_slot", Json.Null)].
Definition with_hash (n : Node) : Node := n <| node_hash := plan_hash_of (Json.Obj (node_body n)) |>.

(** [_normalize_node] *)
Definition normalize_node (raw : RawNode) : planned Node :=
  let id := Str.strip (default "" (rn_node_id raw)) in
  let logical := Str.strip (or_default (rn_logical_task_id raw) id) in
  let cap := Str.strip (default "" (rn_capability raw)) in
  let? _ := plan_check (Str.truthy id && Str.truthy logical && Str.truthy cap) "node_identity_missing" id in
  Ok (with_hash (mkNode id logical cap (strings (rn_inputs raw)) (strings (rn_outputs raw)) (strings (rn_depends_on raw))
        (strings (target <$> rn_read_set raw)) (strings (target <$> rn_write_set raw)) (strings (rn_context_refs raw))
        (strings (rn_tests raw)) (strings (rn_criteria raw)) (rn_generation_sensitive raw)
        (or_default (rn_risk raw) "medium") (or_default (rn_rollback raw) "revert") "")).

Fixpoint normalize_nodes (l : list RawNode) : planned (list Node) :=
  match l with
  | [] => Ok []
  | r :: l' => let? n := normalize_node r in let? rest := normalize_nodes l' in Ok (n :: rest)
  end.

(** ** Order *)

Definition ids (nodes : list Node) : list string := node_id <$> nodes.
Definition find_node (nodes : list Node) (i : string) : option Node :=
  List.find (λ n, String.eqb (node_id n) i) nodes.
Definition deps_in (nodes : list Node) (i : string) : list string :=
  match find_node nodes i with Some n => depends_on n | None => [] end.

(** The first loop of [_topological]: a dependency nobody provides. *)
Fixpoint missing_dependency (known : list string) (nodes : list Node) : planned unit :=
  match nodes with
  | [] => Ok tt
  | n :: nodes' =>
      match List.find (λ d, negb (bool_decide (d ∈ known))) (depends_on n) with
      | Some d => Err (PlanError "dependency_missing" (node_id n +:+ "->" +:+ d))
      | None => missing_dependency known nodes'
      end
  end.

Definition indegrees (nodes : list Node) : gmap string Z :=
  foldl (λ m n, <[node_id n := Z.of_nat (length (depends_on n))]> m) ∅ nodes.
Definition followers (nodes : list Node) (i : string) : list string :=
  ids (List.filter (λ n, bool_decide (i ∈ depends_on n)) nodes).

(** [for follower in sorted(followers[current])] *)
Fixpoint release_followers (fs : list string) (deg : gmap string Z) (ready : list string) : gmap string Z * list string :=
  match fs with
  | [] => (deg, ready)
  | f :: fs' =>
      let d := get0 deg f - 1 in
      release_followers fs' (<[f := d]> deg) (if d =? 0 then py_sorted (ready ++ [f]) else ready)
  end.

(** The [while ready] loop; every node enters [ready] once, so one turn per node
    and one to spare is enough. *)
Fixpoint kahn (fuel : nat) (nodes : list Node) (deg : gmap string Z) (ready ordered : list string) :
    gmap string Z * list string :=
  match fuel, ready with
  | S fuel', cur :: ready' =>
      let '(deg', ready'') := release_followers (py_sorted (followers nodes cur)) deg ready' in
      kahn fuel' nodes deg' ready'' (ordered ++ [cur])
  | _, _ => (deg, ordered)
  end.

(** [_topological] *)
Definition topological (nodes : list Node) : planned (list string) :=
  let? _ := missing_dependency (ids nodes) nodes in
  let deg := indegrees nodes in
  let ready := py_sorted (List.filter (λ i, get0 deg i =? 0) (ids nodes)) in
  let '(deg', ordered) := kahn (S (length nodes)) nodes deg ready [] in
  let? _ := plan_check (Nat.eqb (length ordered) (length nodes)) "dag_cycle"
              (join "," (py_sorted (List.filter (λ i, negb (get0 deg' i =? 0)) (ids nodes)))) in
  Ok ordered.

(** ** Conflicts and waves *)

Record Conflict := mkConflict {
  c_left : string;
  c_right : string;
  c_targets : list string;
}.

Definition collisions (a b : Node) : list string :=
  sorted_set (mjoin ((λ l, (λ r, l +:+ "|" +:+ r) <$> List.filter (targets_conflict l) (write_set b)) <$> write_set a)).

Definition conflict_between (nodes : list Node) (p : string * string) : option Conflict :=
  match find_node nodes p.1, find_node nodes p.2 with
  | Some a, Some b =>
      if bool_decide (collisions a b = []) then None else Some (mkConflict p.1 p.2 (collisions a b))
  | _, _ => None
  end.

(** [_conflicts] *)
Definition conflicts_of (nodes : list Node) : list Conflict :=
  omap (conflict_between nodes) (pairs (py_sorted (ids nodes))).

(** [frozenset((a, b)) in conflict_pairs] *)
Definition in_conflict (cs : list Conflict) (a b : string) : bool :=
  existsb (λ c, (String.eqb (c_left c) a && String.eqb (c_right c) b) || (String.eqb (c_left c) b && String.eqb (c_right c) a)) cs.

(** The [while True] loop of [_waves] from wave [w]: the waves with the node
    added and the wave it went to. A wave past the end by more than one is an
    [IndexError]. *)
Fixpoint add_to_wave (cs : list Conflict) (i : string) (w : nat) (waves : list (list string)) :
    planned (list (list string) * nat) :=
  match w, waves with
  | O, [] => Ok ([[i]], 0%nat)
  | S _, [] => Err PlanIndexError
  | S w', wave :: waves' => let? p := add_to_wave cs i w' waves' in Ok (wave :: p.1, S p.2)
  | O, wave :: waves' =>
      if forallb (λ peer, negb (in_conflict cs i peer)) wave then Ok ((wave ++ [i]) :: waves', 0%nat)
      else let? p := add_to_wave cs i 0 waves' in Ok (wave :: p.1, S p.2)
  end.

(** [wave_of[parent]] fails on a parent that is not placed yet. *)
Fixpoint earliest_wave (wave_of : gmap string nat) (parents : list string) : planned nat :=
  match parents with
  | [] => Ok 0%nat
  | p :: parents' =>
      let? w := or_raise (wave_of !! p) (PlanKeyError p) in
      let? rest := earliest_wave wave_of parents' in
      Ok (Nat.max (S w) rest)
  end.

Fixpoint place_nodes (nodes : list Node) (cs : list Conflict) (ordered : list string)
    (wave_of : gmap string nat) (waves : list (list string)) : planned (list (list string)) :=
  match ordered with
  | [] => Ok waves
  | i :: ordered' =>
      let? n := or_raise (find_node nodes i) (PlanKeyError i) in
      let? w := earliest_wave wave_of (depends_on n) in
      let? p := add_to_wave cs i w waves in
      place_nodes nodes cs ordered' (<[i := p.2]> wave_of) p.1
  end.

(** [_waves] *)
Definition waves_of (nodes : list Node) (ordered : list string) (cs : list Conflict) : planned (list (list string)) :=
  let? ws := place_nodes nodes cs ordered ∅ [] in
  Ok (py_sorted <$> List.filter (λ w, negb (bool_decide (w = []))) ws).

(** ** The plan *)

Record Plan := mkPlan {
  plan_id : string;
  goal_id : string;
  revision : Z;
  intent : Intent;
  context_snapshot_id : string;
  context_hash : string;
  fast_generation : string;
  evidence_refs : list string;
  nodes : list Node;
  topological_order : list string;
  conflicts : list Conflict;
  execution_waves : list (list string);
  history : list (list (string * Json.json));
  plan_hash : string;
}.
#[export] Instance Plan_eta : Eta Plan := λ p,
  mkPlan (plan_id p) (goal_id p) (revision p) (intent p) (context_snapshot_id p) (context_hash p) (fast_generation p)
    (evidence_refs p) (nodes p) (topological_order p) (conflicts p) (execution_waves p) (history p) (plan_hash p).

(** The producers of the inputs of [n], itself apart. *)
Definition inferred (nodes : list Node) (n : Node) : list string :=
  ids (List.filter (λ p, negb (String.eqb (node_id p) (node_id n)) && existsb (λ i, bool_decide (i ∈ outputs p)) (inputs n)) nodes).
Definition infer_deps (nodes : list Node) (n : Node) : Node :=
  with_hash (n <| depends_on := sorted_set (depends_on n ++ inferred nodes n) |>).

Definition intent_json (i : Intent) : Json.json := Json.Obj [
  ("goal", Json.Str (in_goal i)); ("acceptance_criteria", json_strings (in_acceptance i));
  ("risks", Json.List (Json.Obj <$> in_risks i)); ("non_goals", json_strings (in_non_goals i));
  ("oracle", Json.Obj (in_oracle i))].
Definition node_json (n : Node) : Json.json := Json.Obj (node_body n ++ [("node_hash", Json.Str (node_hash n))]).
Definition conflict_json (c : Conflict) : Json.json := Json.Obj [
  ("left", Json.Str (c_left c)); ("right", Json.Str (c_right c)); ("reason_code", Json.Str "write_set_conflict");
  ("targets", json_strings (c_targets c))].
Definition plan_json (p : Plan) : Json.json := Json.Obj [
  ("schema", Json.Str PLAN_SCHEMA); ("plan_id", Json.Str (plan_id p)); ("goal_id", Json.Str (goal_id p));
  ("revision", Json.Int (revision p)); ("intent", intent_json (intent p));
  ("context_snapshot_id", Json.Str (context_snapshot_id p)); ("context_hash", Json.Str (context_hash p));
  ("fast_generation", Json.Str (fast_generation p)); ("evidence_refs", json_strings (evidence_refs p));
  ("nodes", Json.List (node_json <$> nodes p)); ("topological_order", json_strings (topological_order p));
  ("conflicts", Json.List (conflict_json <$> conflicts p));
  ("execution_waves", Json.List (json_strings <$> execution_waves p));
  ("history", Json.List (Json.Obj <$> history p)); ("planner", Json.Str "deterministic-python-compiler");
  ("llm_calls_after_compile", Json.Int 0)].

(** The arguments of [compile_plan] apart from the intent and the nodes. *)
Record Request := mkRequest {
  rq_plan_id : string;
  rq_goal_id : string;
  rq_snapshot : string;
  rq_context_hash : string;
  rq_generation : string;
  rq_evidence : list string;
  rq_revision : Z;
  rq_history : list (list (string * Json.json));
}.

(** The nodes of the plan, in the order they were given. *)
Definition compile_nodes (raw : list RawNode) : planned (list Node) :=
  let? normalized := normalize_nodes raw in
  let? _ := plan_check (Nat.eqb (length (remove_dups (ids normalized))) (length normalized)
                        && negb (Nat.eqb (length normalized) 0)) "node_id_duplicate_or_empty" "" in
  Ok (infer_deps normalized <$> normalized).

Definition compile_plan (rq : Request) (raw_intent : RawIntent) (raw : list RawNode) : planned Plan :=
  let? i := normalize_intent raw_intent in
  let? _ := plan_check (Str.truthy (rq_snapshot rq) && Str.truthy (rq_context_hash rq) && Str.truthy (rq_generation rq))
              "pinned_context_missing" "" in
  let? _ := plan_check (negb (Nat.eqb (length (rq_evidence rq)) 0)) "planning_evidence_missing" "" in
  let? ns := compile_nodes raw in
  let? ordered := topological ns in
  let cs := conflicts_of ns in
  let? waves := waves_of ns ordered cs in
  let p := mkPlan (rq_plan_id rq) (rq_goal_id rq) (rq_revision rq) i (rq_snapshot rq) (rq_context_hash rq) (rq_generation rq)
             (strings (rq_evidence rq)) (omap (find_node ns) (py_sorted (ids ns))) ordered cs waves (rq_history rq) "" in
  Ok (p <| plan_hash := plan_hash_of (plan_json p) |>).

(** ** Drift and replanning *)

Record DriftResult := mkDriftResult {
  reason_code : option string;
  directly_affected : list string;
  invalidated_nodes : list string;
  evidence : list string;
}.

Definition direct_drift (p : Plan) (generation : string) (changed : list string) : list string :=
  ids (List.filter (λ n, existsb (λ r, bool_decide (r ∈ changed)) (context_refs n)
                         || (negb (String.eqb generation (fast_generation p)) && generation_sensitive n)) (nodes p)).

(** One pass of the [while progressed] loop: the invalidated ids and whether
    one was added. *)
Definition invalidate_node (acc : list string * bool) (n : Node) : list string * bool :=
  let '(inv, progressed) := acc in
  if negb (bool_decide (node_id n ∈ inv)) && existsb (λ d, bool_decide (d ∈ inv)) (depends_on n)
  then (inv ++ [node_id n], true) else (inv, progressed).

(** Every pass but the last invalidates a node, so one pass per node and one to
    spare is enough. *)
Fixpoint invalidate (fuel : nat) (nodes : list Node) (inv : list string) : list string :=
  match fuel with
  | O => inv
  | S fuel' =>
      let '(inv', progressed) := foldl invalidate_node (inv, false) nodes in
      if progressed then invalidate fuel' nodes inv' else inv'
  end.

Definition detect_drift (p : Plan) (current_hash generation : string) (changed_refs ev : list string) : DriftResult :=
  let direct := direct_drift p generation (strings changed_refs) in
  let moved := negb (String.eqb generation (fast_generation p)) in
  let reason := if moved then Some "observable_generation_drift"
                else if negb (String.eqb current_hash (context_hash p)) || negb (Nat.eqb (length direct) 0)
                     then Some "observable_context_drift" else None in
  let inv := invalidate (S (length (nodes p))) (nodes p) direct in
  mkDriftResult reason (py_sorted direct) (List.filter (λ i, bool_decide (i ∈ inv)) (topological_order p)) (strings ev).

(** The normalised intent given to [compile_plan] again. *)
Definition raw_of_intent (i : Intent) : RawIntent :=
  mkRawIntent (Some (in_goal i)) (in_acceptance i) (in_oracle i) (in_risks i) (in_non_goals i).

Definition history_row (p : Plan) (reason : string) (d : DriftResult) : list (string * Json.json) := [
  ("revision", Json.Int (revision p)); ("plan_hash", Json.Str (plan_hash p)); ("reason_code", Json.Str reason);
  ("invalidated_nodes", json_strings (invalidated_nodes d)); ("evidence", json_strings (evidence d))].

Definition replan (p : Plan) (d : DriftResult) (replacement : list RawNode) (current_hash generation : string) : planned Plan :=
  match reason_code d, evidence d with
  | Some reason, _ :: _ =>
      compile_plan (mkRequest (plan_id p) (goal_id p) (context_snapshot_id p) current_hash generation (evidence_refs p)
                      (revision p + 1) (history p ++ [history_row p reason d])) (raw_of_intent (intent p)) replacement
  | _, _ => Err (PlanError "replan_without_observable_cause" "")
  end.

(** ** Slots *)

Record SlotReceipt := mkSlotReceipt {
  sr_plan_id : string;
  sr_plan_revision : Z;
  sr_plan_hash : string;
  sr_assignments : list (string * string);
  sr_receipt_hash : string;
}.
#[export] Instance SlotReceipt_eta : Eta SlotReceipt := λ r,
  mkSlotReceipt (sr_plan_id r) (sr_plan_revision r) (sr_plan_hash r) (sr_assignments r) (sr_receipt_hash r).

Definition receipt_json (r : SlotReceipt) : Json.json := Json.Obj [
  ("schema", Json.Str RECEIPT_SCHEMA); ("event", Json.Str "slots_bound"); ("plan_id", Json.Str (sr_plan_id r));
  ("plan_revision", Json.Int (sr_plan_revision r)); ("plan_hash", Json.Str (sr_plan_hash r));
  ("assignments", Json.Obj (prod_map id Json.Str <$> sr_assignments r)); ("logical_tasks_unchanged", Json.Bool true)].

Definition bind_slots (p : Plan) (assignments : gmap string string) : planned SlotReceipt :=
  let keys := (map_to_list assignments).*1 in
  let unknown := py_sorted (List.filter (λ i, negb (bool_decide (i ∈ ids (nodes p)))) keys) in
  let? _ := plan_check (Nat.eqb (length unknown) 0) "slot_assignment_unknown_node" (join "," unknown) in
  let r := mkSlotReceipt (plan_id p) (revision p) (plan_hash p)
             (omap (λ i, (λ s, (i, s)) <$> assignments !! i) (py_sorted keys)) "" in
  Ok (r <| sr_receipt_hash := plan_hash_of (receipt_json r) |>).

(** * Examples *)

Definition demo_intent : RawIntent :=
  mkRawIntent (Some " Ship  the feature ") ["tests pass"] [("kind", Json.Str "pytest")] [] [].
Definition demo_node (i : string) (ins outs deps writes : list string) : RawNode :=
  mkRawNode (Some i) None (Some "code") ins outs deps [] writes ["ctx-" +:+ i] [] [] (String.eqb i "a") None None.
Definition demo_request : Request := mkRequest "plan" "goal" "snap" "h0" "g0" ["receipt"] 1 [].
(** [b] consumes what [a] makes, [c] writes where [b] writes, [d] waits for both. *)
Definition demo_nodes : list RawNode :=
  [demo_node "d" [] [] ["b"; "c"] []; demo_node "c" [] [] [] ["dir:src"]; demo_node "b" ["api"] [] [] ["src/x.py"];
   demo_node "a" [] ["api"] [] ["src/y.py"]].
Definition demo_cycle : list RawNode := [demo_node "a" ["x"] ["y"] [] []; demo_node "b" ["y"] ["x"] [] []].
Definition demo_plan : Plan :=
  ok_or (mkPlan "" "" 0 (mkIntent "" [] [] [] []) "" "" "" [] [] [] [] [] [] "") (compile_plan demo_request demo_intent demo_nodes).
Definition demo_cycle_nodes : list Node := ok_or [] (compile_nodes demo_cycle).

(** * Specification *)

(** What [compile_nodes] establishes: distinct ids and duplicate-free
    dependency lists. *)
Record nodes_wf (l : list Node) : Prop := {
  wf_ids : NoDup (ids l);
  wf_deps : ∀ n, n ∈ l → NoDup (depends_on n);
}.

Definition deps_known (l : list Node) : Prop := ∀ i d, d ∈ deps_in l i → d ∈ ids l.

Definition unordered (l : list Node) (ordered : list string) (i : string) : list string :=
  List.filter (λ d, negb (bool_decide (d ∈ ordered))) (deps_in l i).

Record kahn_inv (l : list Node) (deg : gmap string Z) (ready ordered : list string) : Prop := {
  k_deg : ∀ i, i ∈ ids l → get0 deg i = Z.of_nat (length (unordered l ordered i));
  k_ready : ∀ i, i ∈ ready ↔ i ∈ ids l ∧ i ∉ ordered ∧ unordered l ordered i = [];
  k_ready_nodup : NoDup ready;
  k_nodup : NoDup ordered;
  k_incl : ∀ i, i ∈ ordered → i ∈ ids l;
  k_closed : ∀ i d, i ∈ ordered → d ∈ deps_in l i → d ∈ ordered;
  k_causal : causal (deps_in l) ordered;
}.

(** The code found no collision between the writes of two nodes. *)
Definition no_collision (a b : Node) : Prop :=
  ∀ s t, s ∈ write_set a → t ∈ write_set b → targets_conflict s t = false.

(** A path in normal form, as its components below the root: there is one, none is
    empty, "." or "..", or holds a slash or a backslash, and the whole does not end
    in white space. *)
Record clean_path (l : list string) : Prop := {
  cp_below : l ≠ [];
  cp_comps : ∀ c, c ∈ l → c ∉ [""; "."; ".."] ∧
    all_chars (λ d, negb (Ascii.eqb d slash) && negb (Ascii.eqb d backslash)) c = true;
  cp_end : Str.rstrip (join "/" l) = join "/" l;
}.

(** Two nodes write to nothing in common: no target is written by both, and
    neither writes a directory that lies above a file the other writes (or bears
    its name). *)
Definition disjoint_writes (a b : Node) : Prop :=
  (∀ t, t ∈ write_set a → t ∉ write_set b) ∧
  ∀ dir file, clean_path dir → clean_path file →
    "dir:" +:+ join "/" dir ∈ write_set a ∧ "file:" +:+ join "/" file ∈ write_set b ∨
    "dir:" +:+ join "/" dir ∈ write_set b ∧ "file:" +:+ join "/" file ∈ write_set a →
    ¬ dir `prefix_of` file.

(** The wave of a node in a list of waves. *)
Definition in_wave (ws : list (list string)) (i : string) (w : nat) : Prop := ∃ wv, ws !! w = Some wv ∧ i ∈ wv.

Record waves_inv (l : list Node) (cs : list Conflict) (placed : list string) (wave_of : gmap string nat)
    (ws : list (list string)) : Prop := {
  w_join : mjoin ws ≡ₚ placed;
  w_of : ∀ i w, wave_of !! i = Some w → in_wave ws i w;
  w_placed : ∀ i, i ∈ placed → is_Some (wave_of !! i);
  w_deps : ∀ i d w, wave_of !! i = Some w → d ∈ deps_in l i → ∃ v, wave_of !! d = Some v ∧ (v < w)%nat;
  w_apart : ∀ wv a b, wv ∈ ws → a ∈ wv → b ∈ wv → a ≠ b → in_conflict cs a b = false;
  w_nonempty : ∀ wv, wv ∈ ws → wv ≠ [];
}.

(** What the steps before the order demand of the arguments. *)
Definition request_ok (rq : Request) (it : RawIntent) : Prop :=
  (∃ i, normalize_intent it = Ok i) ∧ rq_snapshot rq ≠ "" ∧ rq_context_hash rq ≠ "" ∧ rq_generation rq ≠ "" ∧ rq_evidence rq ≠ [].

(** [y] waits for [x]. *)
Definition feeds (l : list Node) (x y : string) : Prop := x ∈ deps_in l y ∧ y ∈ ids l.

(** What one pass over a part [s] of the nodes does to [inv]. *)
Record pass_post (l s : list Node) (inv : list string) (b : bool) (inv' : list string) (b' : bool) : Prop := {
  ps_nodup : NoDup inv';
  ps_incl : ∀ i, i ∈ inv → i ∈ inv';
  ps_new : ∀ i, i ∈ inv' → i ∈ inv ∨ i ∈ ids s ∧ ∃ j, j ∈ inv ∧ rtc (feeds l) j i;
  ps_keep : b = true → b' = true;
  ps_more : b' = true → b = true ∨ (length inv < length inv')%nat;
  ps_stop : b' = false → inv' = inv ∧ ∀ n d, n ∈ s → d ∈ depends_on n → d ∈ inv → node_id n ∈ inv;
}.

(** * Lemmas *)

(** ** Nodes by id *)

Lemma elem_of_ids l i : i ∈ ids l ↔ ∃ n, n ∈ l ∧ node_id n = i.
Proof. unfold ids. rewrite list_elem_of_fmap. naive_solver. Qed.

Lemma find_node_Some l i n : find_node l i = Some n → n ∈ l ∧ node_id n = i.
Proof.
  unfold find_node. intros H. apply find_some in H as [H1 H2]. apply String.eqb_eq in H2.
  by rewrite list_elem_of_In.
Qed.

Lemma find_node_elem l n : NoDup (ids l) → n ∈ l → find_node l (node_id n) = Some n.
Proof.
  induction l as [|m l IH]; intros Hnd Hn; [by apply not_elem_of_nil in Hn|].
  apply NoDup_cons in Hnd as [Hm Hnd]. unfold find_node. cbn [List.find].
  destruct (String.eqb_spec (node_id m) (node_id n)) as [Heq|Hne].
  - apply elem_of_cons in Hn as [->|Hn]; [done|]. destruct Hm. rewrite Heq. apply elem_of_ids. by exists n.
  - apply elem_of_cons in Hn as [->|Hn]; [done|]. by apply IH.
Qed.

Lemma find_node_perm l1 l2 i : NoDup (ids l1) → l1 ≡ₚ l2 → find_node l1 i = find_node l2 i.
Proof.
  intros Hnd Hp. assert (NoDup (ids l2)) as Hnd2 by (unfold ids in *; by rewrite <- Hp).
  destruct (find_node l1 i) as [n|] eqn:E1.
  - apply find_node_Some in E1 as [Hn <-]. symmetry. apply find_node_elem; [done|]. by rewrite <- Hp.
  - destruct (find_node l2 i) as [n|] eqn:E2; [|done]. apply find_node_Some in E2 as [Hn <-].
    rewrite (find_node_elem l1 n) in E1; [done|done|by rewrite Hp].
Qed.

Lemma deps_in_elem l n : NoDup (ids l) → n ∈ l → deps_in l (node_id n) = depends_on n.
Proof. intros Hnd Hn. unfold deps_in. by rewrite find_node_elem. Qed.

(** ** The order *)

Lemma wf_deps_in l i : nodes_wf l → NoDup (deps_in l i).
Proof.
  intros Hwf. unfold deps_in. destruct (find_node l i) as [n|] eqn:E; [|constructor].
  apply find_node_Some in E as [Hn _]. by apply (wf_deps l Hwf).
Qed.

Lemma missing_dependency_sound known l :
  missing_dependency known l = Ok tt ↔ ∀ n d, n ∈ l → d ∈ depends_on n → d ∈ known.
Proof.
  induction l as [|n l IH]; cbn [missing_dependency].
  { split; [intros _ n d Hn; by apply not_elem_of_nil in Hn|done]. }
  destruct (List.find _ (depends_on n)) as [d|] eqn:E.
  - apply find_some in E as [Hd Hb]. rewrite <- list_elem_of_In in Hd. apply negb_true_iff, bool_decide_eq_false in Hb.
    split; [done|]. intros H. destruct Hb. apply (H n); [by left|done].
  - rewrite IH. split; intros H m d Hm Hd.
    + apply elem_of_cons in Hm as [->|Hm]; [|by apply (H m)]. rewrite list_elem_of_In in Hd. apply (find_none _ _ E) in Hd. by apply negb_false_iff, bool_decide_eq_true in Hd.
    + apply (H m); [by right|done].
Qed.

Lemma missing_dependency_known l : NoDup (ids l) → missing_dependency (ids l) l = Ok tt ↔ deps_known l.
Proof.
  intros Hnd. rewrite missing_dependency_sound. split.
  - intros H i d Hd. unfold deps_in in Hd. destruct (find_node l i) as [n|] eqn:E; [|by apply not_elem_of_nil in Hd].
    apply find_node_Some in E as [Hn _]. by apply (H n).
  - intros H n d Hn Hd. apply (H (node_id n)). by rewrite deps_in_elem.
Qed.

Lemma missing_dependency_err known l e : missing_dependency known l = Err e → ∃ d, e = PlanError "dependency_missing" d.
Proof. induction l as [|n l IH]; cbn [missing_dependency]; [done|]. destruct (List.find _ _); [naive_solver|done]. Qed.

Lemma indegrees_lookup l acc i :
  NoDup (ids l) → i ∈ ids l →
  get0 (foldl (λ m n, <[node_id n := Z.of_nat (length (depends_on n))]> m) acc l) i = Z.of_nat (length (deps_in l i)).
Proof.
  intros Hnd Hi. apply elem_of_ids in Hi as (n & Hn & <-). rewrite deps_in_elem by done.
  revert acc. induction l as [|m l IH] using rev_ind; intros acc; [by apply not_elem_of_nil in Hn|].
  rewrite foldl_snoc. unfold ids in Hnd. rewrite fmap_app in Hnd. apply NoDup_app in Hnd as (Hnd & Hm & _).
  apply elem_of_app in Hn as [Hn|Hn%list_elem_of_singleton].
  - rewrite get0_insert_ne; [by apply IH|]. intros Heq. apply (Hm (node_id n)); [by apply list_elem_of_fmap_2|].
    rewrite <- Heq. by left.
  - subst n. by rewrite get0_insert_eq.
Qed.

Lemma elem_of_followers l i f : NoDup (ids l) → f ∈ followers l i ↔ f ∈ ids l ∧ i ∈ deps_in l f.
Proof.
  intros Hnd. unfold followers. rewrite elem_of_ids. setoid_rewrite elem_of_Listfilter. setoid_rewrite bool_decide_eq_true. split.
  - intros (n & [Hn Hi] & <-). split; [apply elem_of_ids; by exists n|]. by rewrite deps_in_elem.
  - intros [(n & Hn & <-)%elem_of_ids Hi]. exists n. by rewrite deps_in_elem in Hi.
Qed.

Lemma NoDup_followers l i : NoDup (ids l) → NoDup (py_sorted (followers l i)).
Proof.
  intros Hnd. unfold py_sorted. rewrite (merge_sort_Permutation String.le). by apply NoDup_Listfilter_fmap.
Qed.

Lemma release_followers_deg fs deg ready deg' ready' f :
  NoDup fs → release_followers fs deg ready = (deg', ready') →
  get0 deg' f = (if bool_decide (f ∈ fs) then get0 deg f - 1 else get0 deg f).
Proof.
  revert deg ready. induction fs as [|g fs IH]; intros deg ready Hnd H; cbn [release_followers] in H; [by simplify_eq|].
  apply NoDup_cons in Hnd as [Hg Hnd]. rewrite (IH _ _ Hnd H). rewrite get0_insert.
  destruct (decide (g = f)) as [->|Hne].
  - rewrite (bool_decide_eq_false_2 _ Hg), bool_decide_eq_true_2; [done|by left].
  - rewrite (bool_decide_ext (f ∈ g :: fs) (f ∈ fs)); [done|]. rewrite elem_of_cons. naive_solver.
Qed.

Lemma release_followers_ready fs deg ready deg' ready' :
  NoDup fs → release_followers fs deg ready = (deg', ready') →
  ready' ≡ₚ ready ++ List.filter (λ f, get0 deg f - 1 =? 0) fs.
Proof.
  revert deg ready. induction fs as [|g fs IH]; intros deg ready Hnd H; cbn [release_followers] in H.
  { simplify_eq. by rewrite app_nil_r. }
  apply NoDup_cons in Hnd as [Hg Hnd]. rewrite (IH _ _ Hnd H). cbn [List.filter].
  rewrite (filter_ext_in (λ f, get0 (<[g:=get0 deg g - 1]> deg) f - 1 =? 0) (λ f, get0 deg f - 1 =? 0) fs).
  - destruct (get0 deg g - 1 =? 0); [|done]. unfold py_sorted. rewrite (merge_sort_Permutation String.le), <- app_assoc. done.
  - intros f Hf. rewrite get0_insert_ne; [done|]. intros ->. by rewrite <- list_elem_of_In in Hf.
Qed.

(** *** Kahn's loop *)

Lemma unordered_nil l o i : unordered l o i = [] ↔ ∀ d, d ∈ deps_in l i → d ∈ o.
Proof.
  unfold unordered. rewrite list_nil_iff. setoid_rewrite elem_of_Listfilter. split; intros H d Hd.
  - destruct (decide (d ∈ o)) as [?|Ho]; [done|]. destruct (H d). by rewrite bool_decide_eq_false_2.
  - destruct Hd as [Hd Hb]. rewrite bool_decide_eq_true_2 in Hb; [done|by apply H].
Qed.

(** One more ordered element lowers the count of the nodes that wait for it. *)
Lemma unordered_snoc l o c i : NoDup (deps_in l i) → c ∉ o →
  Z.of_nat (length (unordered l (o ++ [c]) i))
  = Z.of_nat (length (unordered l o i)) - (if bool_decide (c ∈ deps_in l i) then 1 else 0).
Proof.
  unfold unordered. generalize (deps_in l i). intros ds Hnd Hc. induction ds as [|d ds IH]; [done|].
  apply NoDup_cons in Hnd as [Hd Hnd]. specialize (IH Hnd). cbn [List.filter].
  destruct (decide (d = c)) as [->|Hne].
  - rewrite (bool_decide_eq_true_2 (c ∈ o ++ [c])) by (apply elem_of_app; right; by left).
    rewrite (bool_decide_eq_false_2 (c ∈ o) Hc). rewrite (bool_decide_eq_true_2 (c ∈ c :: ds)) by by left.
    rewrite (bool_decide_eq_false_2 (c ∈ ds) Hd) in IH. cbn [negb length]. lia.
  - rewrite (bool_decide_ext (d ∈ o ++ [c]) (d ∈ o)) by (rewrite elem_of_app, list_elem_of_singleton; naive_solver).
    rewrite (bool_decide_ext (c ∈ d :: ds) (c ∈ ds)) by (rewrite elem_of_cons; naive_solver).
    destruct (bool_decide (d ∈ o)); cbn [negb length]; lia.
Qed.

Lemma kahn_step l deg c ready o deg' ready' :
  nodes_wf l → kahn_inv l deg (c :: ready) o →
  release_followers (py_sorted (followers l c)) deg ready = (deg', ready') →
  kahn_inv l deg' ready' (o ++ [c]).
Proof.
  intros Hwf Hinv Hr. pose proof (wf_ids l Hwf) as Hids. pose proof (NoDup_followers l c Hids) as Hfs.
  destruct (proj1 (k_ready l _ _ _ Hinv c)) as (Hc & Hco & Hcd); [by left|].
  rewrite unordered_nil in Hcd. pose proof (k_ready_nodup l _ _ _ Hinv) as Hnd. apply NoDup_cons in Hnd as [Hcr Hnd].
  assert (∀ i, i ∈ ids l → Z.of_nat (length (unordered l (o ++ [c]) i)) =
            if bool_decide (i ∈ py_sorted (followers l c)) then get0 deg i - 1 else get0 deg i) as Hcount.
  { intros i Hi. rewrite unordered_snoc; [|by apply wf_deps_in|done]. rewrite (k_deg l _ _ _ Hinv i Hi).
    rewrite (bool_decide_ext (i ∈ py_sorted (followers l c)) (c ∈ deps_in l i)); [case_bool_decide; lia|].
    rewrite elem_of_py_sorted, elem_of_followers by done. naive_solver. }
  assert (∀ i, i ∈ ids l → unordered l (o ++ [c]) i = [] ↔
            (if bool_decide (i ∈ py_sorted (followers l c)) then get0 deg i - 1 else get0 deg i) = 0) as Hzero.
  { intros i Hi. rewrite <- Hcount by done. destruct (unordered l (o ++ [c]) i); simpl; [done|]. split; [done|lia]. }
  assert (∀ i, i ∈ py_sorted (followers l c) → i ∈ ids l ∧ c ∈ deps_in l i) as Hfol.
  { intros i. by rewrite elem_of_py_sorted, elem_of_followers. }
  assert (∀ i, i ∈ o ++ [c] → c ∉ deps_in l i) as Hnoself.
  { intros i Hi Hci. apply elem_of_app in Hi as [Hi|Hi%list_elem_of_singleton].
    - apply Hco. by apply (k_closed l _ _ _ Hinv i).
    - subst i. apply Hco. by apply Hcd. }
  pose proof (release_followers_ready _ _ _ _ _ Hfs Hr) as Hready.
  split.
  - intros i Hi. rewrite (release_followers_deg _ _ _ _ _ i Hfs Hr). by rewrite Hcount.
  - intros i. rewrite Hready, elem_of_app, elem_of_Listfilter, Z.eqb_eq. split.
    + intros [Hi|[Hi Hd]].
      * destruct (proj1 (k_ready l _ _ _ Hinv i)) as (Hi1 & Hi2 & Hi3); [by right|]. split; [done|].
        split; [rewrite elem_of_app, list_elem_of_singleton; naive_solver|].
        rewrite unordered_nil in *. intros d Hdd. apply elem_of_app. left. by apply Hi3.
      * destruct (Hfol i Hi) as [Hi1 Hi2]. split; [done|]. split; [intros Hin; by apply (Hnoself i)|].
        apply Hzero; [done|]. by rewrite bool_decide_eq_true_2.
    + intros (Hi & Hio & Hu). apply Hzero in Hu; [|done]. destruct (decide (i ∈ py_sorted (followers l c))) as [Hf|Hf].
      * right. split; [done|]. by rewrite bool_decide_eq_true_2 in Hu.
      * left. rewrite bool_decide_eq_false_2 in Hu by done. rewrite elem_of_app, list_elem_of_singleton in Hio.
        assert (i ∈ c :: ready) as Hin; [|apply elem_of_cons in Hin as [->|?]; [naive_solver|done]].
        apply (k_ready l _ _ _ Hinv). split; [done|]. split; [naive_solver|].
        rewrite (k_deg l _ _ _ Hinv i Hi) in Hu. by destruct (unordered l o i).
  - rewrite Hready. apply NoDup_app. split; [done|]. split.
    + intros i Hi (Hf & _)%elem_of_Listfilter. apply Hfol in Hf as [_ Hf].
      destruct (proj1 (k_ready l _ _ _ Hinv i)) as (_ & _ & Hu); [by right|]. rewrite unordered_nil in Hu. by apply Hco, Hu.
    + by apply NoDup_Listfilter.
  - apply NoDup_app. split; [apply (k_nodup l _ _ _ Hinv)|]. split; [|apply NoDup_singleton].
    intros i Hi Hi'. apply list_elem_of_singleton in Hi'. by subst i.
  - intros i Hi. apply elem_of_app in Hi as [Hi|Hi%list_elem_of_singleton]; [by apply (k_incl l _ _ _ Hinv)|by subst i].
  - intros i d Hi Hd. apply elem_of_app. left. apply elem_of_app in Hi as [Hi|Hi%list_elem_of_singleton].
    + by apply (k_closed l _ _ _ Hinv i).
    + subst i. by apply Hcd.
  - apply causal_snoc; [apply (k_causal l _ _ _ Hinv)|done].
Qed.

Lemma kahn_end l fuel deg ready o deg' o' :
  nodes_wf l → kahn_inv l deg ready o → (length l < fuel + length o)%nat →
  kahn fuel l deg ready o = (deg', o') → kahn_inv l deg' [] o'.
Proof.
  intros Hwf. revert deg ready o. induction fuel as [|fuel IH]; intros deg ready o Hinv Hlen H; cbn [kahn] in H.
  - exfalso. assert (length o ≤ length (ids l))%nat as Hle.
    { apply submseteq_length, NoDup_submseteq; [apply (k_nodup l _ _ _ Hinv)|apply (k_incl l _ _ _ Hinv)]. }
    unfold ids in Hle. rewrite length_fmap in Hle. lia.
  - destruct ready as [|c ready]; [by simplify_eq|].
    destruct (release_followers _ deg ready) as [deg1 ready1] eqn:Er.
    refine (IH _ _ _ (kahn_step _ _ _ _ _ _ _ Hwf Hinv Er) _ H). rewrite length_app. simpl. lia.
Qed.

Lemma kahn_start l : nodes_wf l →
  kahn_inv l (indegrees l) (py_sorted (List.filter (λ i, get0 (indegrees l) i =? 0) (ids l))) [].
Proof.
  intros Hwf. pose proof (wf_ids l Hwf) as Hids.
  assert (∀ i, unordered l [] i = deps_in l i) as Hun.
  { intros i. unfold unordered. induction (deps_in l i) as [|d ds IH]; [done|]. cbn [List.filter].
    rewrite bool_decide_eq_false_2 by apply not_elem_of_nil. cbn [negb]. by rewrite IH. }
  assert (∀ i, i ∈ ids l → get0 (indegrees l) i = Z.of_nat (length (deps_in l i))) as Hdeg.
  { intros i Hi. by apply indegrees_lookup. }
  split.
  - intros i Hi. by rewrite Hun, Hdeg.
  - intros i. rewrite elem_of_py_sorted, elem_of_Listfilter, Z.eqb_eq, Hun. split.
    + intros [Hi H0]. rewrite Hdeg in H0 by done. split; [done|]. split; [apply not_elem_of_nil|]. by destruct (deps_in l i).
    + intros (Hi & _ & H0). split; [done|]. by rewrite Hdeg, H0.
  - unfold py_sorted. rewrite (merge_sort_Permutation String.le). by apply NoDup_Listfilter.
  - constructor.
  - intros i Hi. by apply not_elem_of_nil in Hi.
  - intros i d Hi. by apply not_elem_of_nil in Hi.
  - apply causal_nil.
Qed.

(** The loop ends with every node exactly if the graph has no cycle. *)
Lemma kahn_complete l deg o : nodes_wf l → deps_known l → kahn_inv l deg [] o →
  acyclic (deps_in l) (list_to_set (ids l)) → o ≡ₚ ids l.
Proof.
  intros Hwf Hknown Hinv Hac. apply NoDup_Permutation; [apply (k_nodup l _ _ _ Hinv)|apply (wf_ids l Hwf)|].
  intros i. split; [apply (k_incl l _ _ _ Hinv)|]. intros Hi.
  destruct (decide (i ∈ o)) as [?|Hio]; [done|exfalso].
  destruct (Hac (list_to_set (ids l) ∖ list_to_set o)) as (j & Hj & Hmin).
  - intros x [Hx _]%elem_of_difference. done.
  - apply (non_empty_inhabited_L i), elem_of_difference. by rewrite !elem_of_list_to_set.
  - apply elem_of_difference in Hj. rewrite !elem_of_list_to_set in Hj. destruct Hj as [Hj Hjo].
    apply (not_elem_of_nil j). apply (k_ready l _ _ _ Hinv j). split; [done|]. split; [done|].
    apply unordered_nil. intros d Hd. destruct (decide (d ∈ o)) as [?|Hdo]; [done|]. destruct (Hmin d Hd).
    apply elem_of_difference. rewrite !elem_of_list_to_set. split; [|done]. by apply (Hknown j).
Qed.

Lemma plan_check_Ok {A} b r d (k : unit → planned A) x :
  rbind (plan_check b r d) k = Ok x ↔ b = true ∧ k tt = Ok x.
Proof. unfold plan_check. destruct b; simpl; naive_solver. Qed.

Lemma topological_sound l o : nodes_wf l → topological l = Ok o →
  deps_known l ∧ o ≡ₚ ids l ∧ causal (deps_in l) o.
Proof.
  intros Hwf H. unfold topological in H. apply rbind_Ok in H as ([] & Hm & H).
  apply missing_dependency_known in Hm; [|apply (wf_ids l Hwf)].
  destruct (kahn _ l _ _ _) as [deg' o'] eqn:Ek. apply plan_check_Ok in H as [Hlen [= <-]].
  apply (kahn_end l) in Ek; [|done|by apply kahn_start|simpl; lia].
  split; [done|]. split; [|apply (k_causal l _ _ _ Ek)].
  apply submseteq_length_Permutation.
  - apply NoDup_submseteq; [apply (k_nodup l _ _ _ Ek)|apply (k_incl l _ _ _ Ek)].
  - apply Nat.eqb_eq in Hlen. unfold ids. rewrite length_fmap. lia.
Qed.

Lemma topological_total l : nodes_wf l → deps_known l → acyclic (deps_in l) (list_to_set (ids l)) → ∃ o, topological l = Ok o.
Proof.
  intros Hwf Hk Hac. unfold topological.
  rewrite (proj2 (missing_dependency_known l (wf_ids l Hwf)) Hk). cbn [rbind].
  destruct (kahn _ l _ _ _) as [deg' o'] eqn:Ek. apply (kahn_end l) in Ek; [|done|by apply kahn_start|simpl; lia].
  pose proof (kahn_complete l _ _ Hwf Hk Ek Hac) as Hp. exists o'. apply plan_check_Ok. split; [|done].
  apply Nat.eqb_eq. rewrite Hp. apply length_fmap.
Qed.

Lemma topological_err l e : topological l = Err e → ∃ r d, e = PlanError r d ∧ r ∈ ["dependency_missing"; "dag_cycle"].
Proof.
  unfold topological. destruct (missing_dependency (ids l) l) as [[]|e'] eqn:Em; cbn [rbind].
  - destruct (kahn _ l _ _ _) as [deg' o']. unfold plan_check. destruct (Nat.eqb _ _); cbn [rbind]; [done|].
    intros [= <-]. do 2 eexists. split; [done|]. by right; left.
  - intros [= <-]. apply missing_dependency_err in Em as [d ->]. do 2 eexists. split; [done|]. by left.
Qed.

(** ** Conflicts and waves *)

Lemma targets_conflict_sym s t : targets_conflict s t = targets_conflict t s.
Proof.
  unfold targets_conflict. generalize (target s) (target t). intros a b. rewrite (String.eqb_sym b a).
  destruct (String.eqb_spec a b) as [|Hne]; [done|]. destruct (kind_name a) as [k x], (kind_name b) as [k' y].
  destruct (String.eqb_spec k "dir") as [->|], (String.eqb_spec k' "dir") as [->|]; try done;
    destruct (String.eqb_spec k "file") as [->|], (String.eqb_spec k' "file") as [->|]; done.
Qed.

Lemma no_collision_sym a b : no_collision a b → no_collision b a.
Proof. intros H s t Hs Ht. rewrite targets_conflict_sym. by apply H. Qed.

Lemma collisions_nil a b : collisions a b = [] ↔ no_collision a b.
Proof.
  unfold collisions, no_collision. rewrite list_nil_iff. setoid_rewrite elem_of_sorted_set.
  setoid_rewrite list_elem_of_join. split.
  - intros H s t Hs Ht. destruct (targets_conflict s t) eqn:E; [|done]. exfalso.
    apply (H (s +:+ "|" +:+ t)). eexists. split; [|apply list_elem_of_fmap_2; exact Hs].
    apply list_elem_of_fmap. exists t. split; [done|]. by apply elem_of_Listfilter.
  - intros H x (l & Hx & Hl). apply list_elem_of_fmap in Hl as (s & -> & Hs).
    apply list_elem_of_fmap in Hx as (t & _ & Ht). apply elem_of_Listfilter in Ht as [Ht Hc]. by rewrite (H s t) in Hc.
Qed.

(** *** Paths in normal form are their own targets *)

Lemma join_cons x y l : join "/" (x :: y :: l) = x +:+ String slash (join "/" (y :: l)).
Proof. done. Qed.

Lemma all_chars_join q l : q slash = true → (∀ x, x ∈ l → all_chars q x = true) → all_chars q (join "/" l) = true.
Proof.
  intros Hq. induction l as [|x [|y l] IH]; intros H; [done|by apply H; left|].
  rewrite join_cons, all_chars_app, all_chars_cons, Hq, (H x) by (by left). apply IH. intros z Hz. apply H. by right.
Qed.

Lemma replace_none a b s : all_chars (λ d, negb (Ascii.eqb d a)) s = true → replace a b s = s.
Proof.
  induction s as [|c s IH]; [done|]. rewrite all_chars_cons, andb_true_iff, negb_true_iff. intros [Hc Hs].
  cbn [replace]. by rewrite Hc, IH.
Qed.

Lemma split_on_ne c s : split_on c s ≠ [].
Proof. induction s as [|d s IH]; [done|]. cbn [split_on]. destruct (split_on c s); [done|]. by destruct (Ascii.eqb d c). Qed.

Lemma split_on_first c x s : all_chars (λ d, negb (Ascii.eqb d c)) x = true → split_on c (x +:+ String c s) = x :: split_on c s.
Proof.
  induction x as [|d x IH].
  - intros _. change ("" +:+ String c s) with (String c s). cbn [split_on]. pose proof (split_on_ne c s).
    destruct (split_on c s); [done|]. by rewrite Ascii.eqb_refl.
  - rewrite all_chars_cons, andb_true_iff, negb_true_iff. intros [Hd Hx].
    change (String d x +:+ String c s) with (String d (x +:+ String c s)). cbn [split_on]. rewrite IH by done. by rewrite Hd.
Qed.

Lemma split_on_single c x : all_chars (λ d, negb (Ascii.eqb d c)) x = true → split_on c x = [x].
Proof.
  induction x as [|d x IH]; [done|]. rewrite all_chars_cons, andb_true_iff, negb_true_iff. intros [Hd Hx].
  cbn [split_on]. by rewrite IH, Hd.
Qed.

Definition no_slash (c : string) : Prop := all_chars (λ d, negb (Ascii.eqb d slash)) c = true.

Lemma split_on_join l : l ≠ [] → (∀ x, x ∈ l → no_slash x) → split_on slash (join "/" l) = l.
Proof.
  induction l as [|x [|y l] IH]; intros Hne H; [done|apply split_on_single, H; by left|].
  rewrite join_cons, split_on_first by (apply H; by left). rewrite IH; [done|done|]. intros z Hz. apply H. by right.
Qed.

Lemma norm_comps l acc : (∀ c, c ∈ l → c ∉ [""; "."; ".."]) → foldl (norm_comp true) acc l = reverse l ++ acc.
Proof.
  revert acc. induction l as [|c l IH]; intros acc H; [done|]. cbn [foldl]. rewrite IH by (intros d Hd; apply H; by right).
  specialize (H c ltac:(by left)). rewrite !not_elem_of_cons in H. destruct H as (H1 & H2 & H3 & _). unfold norm_comp.
  rewrite bool_decide_eq_false_2 by (rewrite !not_elem_of_cons; split_and!; [done..|by apply not_elem_of_nil]).
  rewrite (proj2 (String.eqb_neq c "..") H3). cbn [negb orb]. by rewrite reverse_cons, <- app_assoc.
Qed.

Lemma clean_no_slash l : clean_path l → ∀ c, c ∈ l → no_slash c.
Proof. intros H c Hc. destruct (cp_comps _ H c Hc) as [_ Hs]. eapply all_chars_weaken, Hs. intros d [? _]%andb_true_iff. done. Qed.

Lemma clean_head l : clean_path l → ∃ d s, join "/" l = String d s ∧ Ascii.eqb d slash = false.
Proof.
  intros H. pose proof (clean_no_slash l H) as Hns. destruct l as [|x l]; [by destruct (cp_below _ H)|].
  destruct (cp_comps _ H x ltac:(by left)) as [Hne _]. specialize (Hns x ltac:(by left)). unfold no_slash in Hns.
  destruct x as [|d x]; [destruct Hne; by left|]. rewrite all_chars_cons, andb_true_iff, negb_true_iff in Hns.
  destruct Hns as [Hd _]. destruct l as [|y l]; [by exists d, x|]. exists d. eexists. by split.
Qed.

Lemma norm_name_clean l : clean_path l → norm_name (join "/" l) = join "/" l.
Proof.
  intros H. destruct (clean_head l H) as (d & s & Ed & Hd). unfold norm_name, normpath.
  assert (String slash "" = "/") as Hsl by done.
  change ("/" +:+ join "/" l) with (String slash (join "/" l)).
  assert (startswith "//" (String slash (join "/" l)) = false) as Hsw.
  { rewrite Ed. apply not_true_is_false. unfold startswith. cbn [String.prefix]. unfold slash in *.
    destruct (Ascii.ascii_dec _ _) as [_|]; [|done]. destruct (Ascii.ascii_dec _ _) as [<-|]; [|done].
    by rewrite Ascii.eqb_refl in Hd. }
  assert (startswith "/" (String slash (join "/" l)) = true) as Hsw1 by (by destruct (join "/" l)).
  change (Str.truthy (String slash (join "/" l))) with true. cbn [negb]. rewrite Hsw, Hsw1. cbn [andb].
  change (String slash (join "/" l)) with ("" +:+ String slash (join "/" l)). rewrite split_on_first by done.
  rewrite split_on_join by (try apply (cp_below _ H); apply clean_no_slash, H). cbn [foldl].
  change (norm_comp (Str.truthy "/") [] "") with (@nil string). change (Str.truthy "/") with true.
  rewrite norm_comps by (intros c Hc; by apply (cp_comps _ H)). rewrite app_nil_r, reverse_involutive.
  change ("/" +:+ join "/" l) with (String slash (join "/" l)). change (Str.truthy (String slash _)) with true. cbn iota.
  cbn [lstrip_char]. rewrite Ascii.eqb_refl, Ed. cbn [lstrip_char]. by rewrite Hd.
Qed.

Lemma rstrip_solid_app a s : all_chars Str.solid a = true → Str.rstrip s = s → Str.rstrip (a +:+ s) = a +:+ s.
Proof.
  induction a as [|c a IH]; [done|]. rewrite all_chars_cons, andb_true_iff. intros [Hc Ha] Hs.
  change (String c a +:+ s) with (String c (a +:+ s)). by apply Str.rstrip_solid, IH.
Qed.

(** The target of a path in normal form, of either kind, is the text itself. *)
Lemma target_clean kind l : kind = "file" ∨ kind = "dir" → clean_path l → 
  target (kind +:+ ":" +:+ join "/" l) = kind +:+ ":" +:+ join "/" l ∧
  kind_name (kind +:+ ":" +:+ join "/" l) = (kind, join "/" l).
Proof.
  intros Hk H. assert (all_chars (λ d, negb (Ascii.eqb d backslash)) (join "/" l) = true) as Hbs.
  { apply all_chars_join; [done|]. intros c Hc. destruct (cp_comps _ H c Hc) as [_ Hs].
    eapply all_chars_weaken, Hs. by intros d [_ ?]%andb_true_iff. }
  assert (partition colon (kind +:+ ":" +:+ join "/" l) = Some (kind, join "/" l)) as Hp.
  { change (kind +:+ ":" +:+ join "/" l) with (kind +:+ String colon (join "/" l)). apply partition_first.
    by destruct Hk as [-> | ->]. }
  split; [|unfold kind_name; by rewrite Hp].
  assert (Str.strip (kind +:+ ":" +:+ join "/" l) = kind +:+ ":" +:+ join "/" l) as Hst.
  { destruct Hk as [-> | ->]; apply Str.strip_solid; try done.
    - change (Str.rstrip ("ile:" +:+ join "/" l) = "ile:" +:+ join "/" l). apply rstrip_solid_app; [done|apply H].
    - change (Str.rstrip ("ir:" +:+ join "/" l) = "ir:" +:+ join "/" l). apply rstrip_solid_app; [done|apply H]. }
  unfold target. rewrite Hst, replace_none, Hp.
  - rewrite norm_name_clean by done. destruct Hk as [-> | ->]; done.
  - destruct Hk as [-> | ->].
    + change ("file" +:+ ":" +:+ join "/" l) with ("file:" +:+ join "/" l). by rewrite all_chars_app, Hbs.
    + change ("dir" +:+ ":" +:+ join "/" l) with ("dir:" +:+ join "/" l). by rewrite all_chars_app, Hbs.
Qed.

Lemma rstrip_char_app c a s : s ≠ "" → rstrip_char c s = s → rstrip_char c (a +:+ s) = a +:+ s.
Proof.
  intros Hne Hs. induction a as [|d a IH]; [done|]. change (String d a +:+ s) with (String d (a +:+ s)). cbn [rstrip_char].
  rewrite IH. destruct a as [|e a]; [|done]. change ("" +:+ s) with s. by destruct s.
Qed.

Lemma rstrip_char_none c s : all_chars (λ d, negb (Ascii.eqb d c)) s = true → rstrip_char c s = s.
Proof.
  induction s as [|d s IH]; [done|]. rewrite all_chars_cons, andb_true_iff, negb_true_iff. intros [Hd Hs].
  cbn [rstrip_char]. rewrite IH, Hd by done. by destruct s.
Qed.

Lemma rstrip_slash_join l : (∀ c, c ∈ l → c ≠ "" ∧ no_slash c) → rstrip_char slash (join "/" l) = join "/" l.
Proof.
  induction l as [|x [|y l] IH]; intros H; [done|apply rstrip_char_none, H; by left|].
  rewrite join_cons. apply rstrip_char_app; [done|]. apply (rstrip_char_app slash (String slash "")).
  - destruct (H y) as [Hy _]; [right; by left|]. destruct y; [done|]. by destruct l.
  - apply IH. intros c Hc. apply H. by right.
Qed.

Lemma prefix_app p s : String.prefix p (p +:+ s) = true.
Proof.
  induction p as [|c p IH]; [by destruct s|]. change (String c p +:+ s) with (String c (p +:+ s)). cbn [String.prefix].
  by destruct (Ascii.ascii_dec c c).
Qed.

Lemma str_app_assoc (a b c : string) : (a +:+ b) +:+ c = a +:+ b +:+ c.
Proof. induction a as [|d a IH]; [done|]. change (String d ((a +:+ b) +:+ c) = String d (a +:+ b +:+ c)). by rewrite IH. Qed.

Lemma join_app l1 l2 : l1 ≠ [] → l2 ≠ [] → join "/" (l1 ++ l2) = (join "/" l1 +:+ "/") +:+ join "/" l2.
Proof.
  induction l1 as [|x [|y l1] IH]; intros H1 H2; [done|..].
  - destruct l2 as [|y l2]; [done|]. change ([x] ++ y :: l2) with (x :: y :: l2). rewrite join_cons. cbn [join].
    by rewrite str_app_assoc.
  - change ((x :: y :: l1) ++ l2) with (x :: y :: (l1 ++ l2)). rewrite !join_cons. change (y :: l1 ++ l2) with ((y :: l1) ++ l2).
    rewrite IH by done. by rewrite !str_app_assoc.
Qed.

(** A file below a directory, or of its name, conflicts with it. *)
Lemma ancestor_conflicts dir file : clean_path dir → clean_path file → dir `prefix_of` file →
  targets_conflict ("dir:" +:+ join "/" dir) ("file:" +:+ join "/" file) = true.
Proof.
  intros Hd Hf [rest Hrest]. destruct (target_clean "dir" dir) as [Ht Hk]; [by right|done|].
  destruct (target_clean "file" file) as [Ht' Hk']; [by left|done|].
  unfold targets_conflict. change ("dir:" +:+ join "/" dir) with ("dir" +:+ ":" +:+ join "/" dir).
  change ("file:" +:+ join "/" file) with ("file" +:+ ":" +:+ join "/" file). rewrite Ht, Ht', Hk, Hk'.
  destruct (String.eqb_spec ("dir" +:+ ":" +:+ join "/" dir) ("file" +:+ ":" +:+ join "/" file)) as [E|_]; [done|].
  cbn [String.eqb andb]. change (String.eqb "dir" "dir" && String.eqb "file" "file") with true. cbn iota.
  unfold under_dir. rewrite rstrip_slash_join.
  - destruct (decide (rest = [])) as [->|Hne]; [rewrite app_nil_r in Hrest; subst; by rewrite String.eqb_refl|].
    subst file. rewrite join_app by (try apply (cp_below _ Hd); done). unfold startswith. rewrite prefix_app. by rewrite orb_true_r.
  - intros c Hc. split; [|by apply (clean_no_slash dir)]. destruct (cp_comps _ Hd c Hc) as [Hn _]. intros ->. apply Hn. by left.
Qed.

(** What the code found free of collisions has nothing in common. *)
Lemma no_collision_disjoint a b : no_collision a b → disjoint_writes a b.
Proof.
  intros H. split.
  - intros t Ha Hb. specialize (H t t Ha Hb). unfold targets_conflict in H. by rewrite String.eqb_refl in H.
  - intros dir file Hd Hf Hw Hp. pose proof (ancestor_conflicts dir file Hd Hf Hp) as Hc.
    destruct Hw as [[Ha Hb]|[Hb Ha]]; [|rewrite targets_conflict_sym in Hc]; by rewrite (H _ _ Ha Hb) in Hc.
Qed.

Lemma in_conflict_spec cs a b :
  in_conflict cs a b = true ↔ ∃ c, c ∈ cs ∧ ((c_left c = a ∧ c_right c = b) ∨ (c_left c = b ∧ c_right c = a)).
Proof.
  unfold in_conflict. rewrite existsb_exists. setoid_rewrite orb_true_iff. setoid_rewrite andb_true_iff.
  setoid_rewrite String.eqb_eq. setoid_rewrite list_elem_of_In. done.
Qed.

(** Nodes not recorded as a conflict collide nowhere. *)
Lemma conflicts_complete l a b :
  NoDup (ids l) → a ∈ l → b ∈ l → node_id a ≠ node_id b →
  in_conflict (conflicts_of l) (node_id a) (node_id b) = false → no_collision a b.
Proof.
  intros Hnd Ha Hb Hne Hc. apply not_true_iff_false in Hc. rewrite in_conflict_spec in Hc.
  assert (NoDup (py_sorted (ids l))) as Hsnd by (unfold py_sorted; by rewrite (merge_sort_Permutation String.le)).
  assert (∀ x y, x ∈ l → y ∈ l → (node_id x, node_id y) ∈ pairs (py_sorted (ids l)) →
            ¬ no_collision x y → mkConflict (node_id x) (node_id y) (collisions x y) ∈ conflicts_of l) as Hrec.
  { intros x y Hx Hy Hp Hd. unfold conflicts_of. apply list_elem_of_omap. eexists. split; [exact Hp|].
    unfold conflict_between. cbn [fst snd]. rewrite !find_node_elem by done. rewrite bool_decide_eq_false_2; [done|].
    by rewrite collisions_nil. }
  destruct (decide (collisions a b = [])) as [H|H]; [by apply collisions_nil|exfalso].
  rewrite collisions_nil in H. destruct (elem_of_pairs (py_sorted (ids l)) (node_id a) (node_id b)) as [Hp|Hp]; [done|done|..].
  - apply elem_of_py_sorted, elem_of_ids. by exists a.
  - apply elem_of_py_sorted, elem_of_ids. by exists b.
  - apply Hc. eexists. split; [by apply (Hrec a b)|]. by left.
  - apply Hc. eexists. split; [apply (Hrec b a); [done|done|done|]|by right]. intros Hd. by apply H, no_collision_sym.
Qed.

Lemma add_to_wave_spec cs i w waves : (w ≤ length waves)%nat →
  ∃ ws k, add_to_wave cs i w waves = Ok (ws, k) ∧ (w ≤ k)%nat ∧
    ws !! k = Some (default [] (waves !! k) ++ [i]) ∧
    (∀ p, p ∈ default [] (waves !! k) → in_conflict cs i p = false) ∧
    (∀ j, j ≠ k → ws !! j = waves !! j) ∧ mjoin ws ≡ₚ i :: mjoin waves.
Proof.
  revert w. induction waves as [|wave waves IH]; intros w Hw.
  { simpl in Hw. assert (w = 0%nat) as -> by lia. exists [[i]], 0%nat. split; [done|]. split; [lia|]. split; [done|].
    split; [intros p Hp; by apply not_elem_of_nil in Hp|]. split; [|done]. intros [|j] Hj; [done|]. by destruct j. }
  assert (∀ w' : nat, (w' ≤ length waves)%nat → (w = S w' ∨ (w = 0 ∧ w' = 0 ∧ forallb (λ peer, negb (in_conflict cs i peer)) wave = false))%nat →
    ∃ ws k, add_to_wave cs i w (wave :: waves) = Ok (ws, k) ∧ (w ≤ k)%nat ∧
    ws !! k = Some (default [] ((wave :: waves) !! k) ++ [i]) ∧
    (∀ p, p ∈ default [] ((wave :: waves) !! k) → in_conflict cs i p = false) ∧
    (∀ j, j ≠ k → ws !! j = (wave :: waves) !! j) ∧ mjoin ws ≡ₚ i :: mjoin (wave :: waves)) as Hstep.
  { intros w' Hw' Hcase. destruct (IH w' Hw') as (ws & k & Hadd & Hk & Hlk & Hpeers & Hother & Hjoin).
    exists (wave :: ws), (S k). split.
    { destruct Hcase as [->|(-> & -> & Hf)]; cbn [add_to_wave]; [|rewrite Hf]; by rewrite Hadd. }
    split; [lia|]. split; [done|]. split; [done|]. split.
    - intros [|j] Hj; [done|]. apply Hother. lia.
    - cbn [mjoin list_join]. rewrite Hjoin. by rewrite Permutation_middle. }
  destruct w as [|w]; [|apply (Hstep w); [simpl in Hw; lia|by left]].
  destruct (forallb (λ peer, negb (in_conflict cs i peer)) wave) eqn:Ef; [|apply (Hstep 0%nat); [lia|by right]].
  exists ((wave ++ [i]) :: waves), 0%nat. split; [cbn [add_to_wave]; by rewrite Ef|]. split; [lia|]. split; [done|]. split.
  - intros p Hp. rewrite forallb_forall in Ef. simpl in Hp. rewrite list_elem_of_In in Hp. by apply Ef, negb_true_iff in Hp.
  - split; [by intros [|j]|]. cbn [mjoin list_join]. rewrite <- app_assoc. simpl. by rewrite <- Permutation_middle.
Qed.

Lemma earliest_wave_spec (wave_of : gmap string nat) parents m :
  (∀ p, p ∈ parents → ∃ v, wave_of !! p = Some v ∧ (v < m)%nat) →
  ∃ w, earliest_wave wave_of parents = Ok w ∧ (w ≤ m)%nat ∧ ∀ p v, p ∈ parents → wave_of !! p = Some v → (v < w)%nat.
Proof.
  induction parents as [|p ps IH]; intros H; cbn [earliest_wave].
  { exists 0%nat. split; [done|]. split; [lia|]. intros p v Hp. by apply not_elem_of_nil in Hp. }
  destruct (H p) as (v & Hv & Hlt); [by left|]. destruct IH as (w & Hw & Hle & Hall); [intros q Hq; apply H; by right|].
  rewrite Hv, Hw. exists (Nat.max (S v) w). split; [done|]. split; [lia|].
  intros q u Hq Hu. apply elem_of_cons in Hq as [->|Hq]; [rewrite Hv in Hu; injection Hu as ->; lia|].
  specialize (Hall q u Hq Hu). lia.
Qed.

Lemma in_conflict_sym cs a b : in_conflict cs a b = in_conflict cs b a.
Proof. apply eq_true_iff_eq. rewrite !in_conflict_spec. naive_solver. Qed.

Lemma waves_inv_step l cs placed wave_of ws i n :
  waves_inv l cs placed wave_of ws → find_node l i = Some n → i ∉ placed → (∀ d, d ∈ depends_on n → d ∈ placed) →
  ∃ w ws' k, earliest_wave wave_of (depends_on n) = Ok w ∧ add_to_wave cs i w ws = Ok (ws', k) ∧
    waves_inv l cs (placed ++ [i]) (<[i:=k]> wave_of) ws'.
Proof.
  intros Hinv Hn Hi Hdeps.
  assert (∀ j w, wave_of !! j = Some w → j ∈ placed ∧ (w < length ws)%nat) as Hof.
  { intros j w Hj. apply (w_of _ _ _ _ _ Hinv) in Hj as (wv & Hwv & Hj). split; [|by eapply lookup_lt_Some].
    rewrite <- (w_join _ _ _ _ _ Hinv). apply list_elem_of_join. exists wv. split; [done|]. by eapply list_elem_of_lookup_2. }
  destruct (earliest_wave_spec wave_of (depends_on n) (length ws)) as (w & Hw & Hle & Hlt).
  { intros d Hd. destruct (w_placed _ _ _ _ _ Hinv d (Hdeps d Hd)) as [v Hv]. exists v. split; [done|]. by apply (Hof d). }
  destruct (add_to_wave_spec cs i w ws Hle) as (ws' & k & Hadd & Hk & Hlk & Hpeers & Hother & Hjoin).
  exists w, ws', k. split; [done|]. split; [done|].
  assert (∀ j v, wave_of !! j = Some v → j ≠ i) as Hne by (intros j v Hj ->; by apply Hof in Hj as [? _]).
  assert (∀ wv, wv ∈ ws' → wv = default [] (ws !! k) ++ [i] ∨ wv ∈ ws) as Hsplit.
  { intros wv [j Hj]%list_elem_of_lookup. destruct (decide (j = k)) as [->|Hjk]; [left; congruence|].
    right. rewrite Hother in Hj by done. by eapply list_elem_of_lookup_2. }
  assert (∀ j, j ∈ default [] (ws !! k) → ∃ wv, wv ∈ ws ∧ ws !! k = Some wv ∧ j ∈ wv) as Hold.
  { intros j Hj. destruct (ws !! k) as [wv|] eqn:E; [|by apply not_elem_of_nil in Hj]. exists wv. split; [|done].
    by eapply list_elem_of_lookup_2. }
  split.
  - rewrite Hjoin, (w_join _ _ _ _ _ Hinv). by rewrite Permutation_cons_append.
  - intros j v. rewrite lookup_insert. case_decide as Hij.
    + intros [= <-]. exists (default [] (ws !! k) ++ [i]). split; [done|]. apply elem_of_app. right. subst j. by left.
    + intros Hj. apply (w_of _ _ _ _ _ Hinv) in Hj as (wv & Hwv & Hj). destruct (decide (v = k)) as [->|Hvk].
      * exists (default [] (ws !! k) ++ [i]). split; [done|]. rewrite Hwv. apply elem_of_app. by left.
      * exists wv. rewrite Hother by done. done.
  - intros j [Hj|Hj%list_elem_of_singleton]%elem_of_app; rewrite lookup_insert; case_decide; [done| |done|by subst].
    by apply (w_placed _ _ _ _ _ Hinv).
  - intros j d v. rewrite lookup_insert. case_decide as Hij.
    + intros [= <-] Hd. subst j. unfold deps_in in Hd. rewrite Hn in Hd.
      destruct (w_placed _ _ _ _ _ Hinv d (Hdeps d Hd)) as [u Hu]. exists u.
      rewrite lookup_insert_ne by (intros ->; by apply Hi, Hdeps). split; [done|]. specialize (Hlt d u Hd Hu). lia.
    + intros Hj Hd. destruct (w_deps _ _ _ _ _ Hinv j d v Hj Hd) as (u & Hu & Huv). exists u. split; [|done].
      rewrite lookup_insert_ne; [done|]. intros ->. by destruct (Hne d u Hu).
  - intros wv a b Hwv Ha Hb Hab. destruct (Hsplit wv Hwv) as [->|Hwv']; [|by apply (w_apart _ _ _ _ _ Hinv wv)].
    apply elem_of_app in Ha as [Ha|Ha%list_elem_of_singleton], Hb as [Hb|Hb].
    + destruct (Hold a Ha) as (wv & Hin & Ek & Ha'). rewrite Ek in Hb. by apply (w_apart _ _ _ _ _ Hinv wv).
    + apply list_elem_of_singleton in Hb. subst b. rewrite in_conflict_sym. by apply Hpeers.
    + subst a. by apply Hpeers.
    + apply list_elem_of_singleton in Hb. congruence.
  - intros wv Hwv. destruct (Hsplit wv Hwv) as [->|Hwv']; [by destruct (default [] (ws !! k))|by apply (w_nonempty _ _ _ _ _ Hinv)].
Qed.

(** Placing the rest of a causal order never fails. *)
Lemma place_nodes_spec l cs placed rest wave_of ws :
  NoDup (placed ++ rest) → (∀ i, i ∈ rest → i ∈ ids l) → causal (deps_in l) (placed ++ rest) →
  (∀ i d, i ∈ rest → d ∈ deps_in l i → d ∈ placed ++ rest) → waves_inv l cs placed wave_of ws →
  ∃ wave_of' ws', place_nodes l cs rest wave_of ws = Ok ws' ∧ waves_inv l cs (placed ++ rest) wave_of' ws'.
Proof.
  revert placed wave_of ws. induction rest as [|i rest IH]; intros placed wave_of ws Hnd Hids Hc Hcl Hinv.
  { exists wave_of, ws. rewrite app_nil_r. done. }
  cbn [place_nodes]. destruct (proj1 (elem_of_ids l i)) as (n0 & Hn0 & Hid); [apply Hids; by left|].
  destruct (find_node l i) as [n|] eqn:En.
  2:{ unfold find_node in En. rewrite list_elem_of_In in Hn0. apply (find_none _ _ En) in Hn0. by apply String.eqb_neq in Hn0. }
  assert (i ∉ placed) as Hi.
  { apply NoDup_app in Hnd as (_ & Hd & _). intros Hi. apply (Hd i Hi). by left. }
  assert (∀ d, d ∈ depends_on n → d ∈ placed) as Hdeps.
  { intros d Hd. assert (d ∈ deps_in l i) as Hd' by (unfold deps_in; by rewrite En).
    assert (d ∈ take (length placed) (placed ++ i :: rest)) as H.
    { apply (Hc _ i); [|done|by apply (Hcl i); [by left|]]. by apply list_lookup_middle. }
    by rewrite take_app_length in H. }
  destruct (waves_inv_step _ _ _ _ _ _ _ Hinv En Hi Hdeps) as (w & ws1 & k & Hw & Hadd & Hinv1).
  cbn [or_raise rbind]. rewrite Hw. cbn [rbind]. rewrite Hadd. cbn [rbind fst snd].
  destruct (IH (placed ++ [i]) (<[i:=k]> wave_of) ws1) as (wo & ws' & H1 & H2).
  - by rewrite <- app_assoc.
  - intros j Hj. apply Hids. by right.
  - by rewrite <- app_assoc.
  - intros j d Hj Hd. rewrite <- app_assoc. apply (Hcl j d); [by right|done].
  - done.
  - exists wo, ws'. split; [done|]. by rewrite <- app_assoc in H2.
Qed.

Lemma waves_of_spec l o cs : nodes_wf l → deps_known l → o ≡ₚ ids l → causal (deps_in l) o →
  ∃ wave_of ws, waves_of l o cs = Ok (py_sorted <$> ws) ∧ waves_inv l cs o wave_of ws.
Proof.
  intros Hwf Hk Hp Hc. destruct (place_nodes_spec l cs [] o ∅ []) as (wo & ws & H & Hinv).
  - cbn [app]. rewrite Hp. apply (wf_ids l Hwf).
  - intros i. by rewrite Hp.
  - done.
  - intros i d _ Hd. cbn [app]. rewrite Hp. by apply (Hk i).
  - split; [done|intros i w Hi; by rewrite lookup_empty in Hi|intros i Hi; by apply not_elem_of_nil in Hi| | |].
    + intros i d w Hi. by rewrite lookup_empty in Hi.
    + intros wv a b Hw. by apply not_elem_of_nil in Hw.
    + intros wv Hw. by apply not_elem_of_nil in Hw.
  - exists wo, ws. split; [|done]. unfold waves_of. rewrite H. cbn [rbind].
    rewrite Listfilter_all; [done|]. intros wv Hwv. rewrite bool_decide_eq_false_2; [done|].
    by apply (w_nonempty _ _ _ _ _ Hinv).
Qed.

(** ** Compilation *)

Lemma length_remove_dups_NoDup (l : list string) : length (remove_dups l) = length l ↔ NoDup l.
Proof.
  assert (remove_dups l ⊆+ l) as Hsub.
  { apply NoDup_submseteq; [apply NoDup_remove_dups|]. intros x. by rewrite elem_of_remove_dups. }
  split; intros H.
  - rewrite <- (submseteq_length_Permutation _ _ Hsub) by lia. apply NoDup_remove_dups.
  - apply Permutation_length, NoDup_Permutation; [apply NoDup_remove_dups|done|]. intros x. by rewrite elem_of_remove_dups.
Qed.

Lemma ids_infer raw l : ids (infer_deps raw <$> l) = ids l.
Proof. unfold ids. rewrite <- list_fmap_compose. done. Qed.

Lemma compile_nodes_spec raw l : compile_nodes raw = Ok l →
  nodes_wf l ∧
  ∀ a b o, a ∈ l → b ∈ l → node_id a ≠ node_id b → o ∈ outputs a → o ∈ inputs b → node_id a ∈ depends_on b.
Proof.
  intros H. unfold compile_nodes in H. apply rbind_Ok in H as (norm & _ & H).
  apply plan_check_Ok in H as [Hb [= <-]]. apply andb_true_iff in Hb as [Hnd _].
  apply Nat.eqb_eq in Hnd. assert (length norm = length (ids norm)) as Hl by (unfold ids; by rewrite length_fmap).
  rewrite Hl in Hnd. apply length_remove_dups_NoDup in Hnd. split; [split|].
  - by rewrite ids_infer.
  - intros n Hn. apply list_elem_of_fmap in Hn as (m & -> & _). apply NoDup_sorted_set.
  - intros a b o Ha Hb Hne Ho Hi. apply list_elem_of_fmap in Ha as (a' & -> & Ha), Hb as (b' & -> & Hb).
    change (node_id a' ∈ sorted_set (depends_on b' ++ inferred norm b')). rewrite elem_of_sorted_set, elem_of_app. right.
    apply elem_of_ids. exists a'. split; [|done]. apply elem_of_Listfilter. split; [done|].
    apply andb_true_iff. split; [by apply negb_true_iff, String.eqb_neq|].
    apply existsb_exists. exists o. rewrite <- list_elem_of_In. split; [done|by apply bool_decide_eq_true_2].
Qed.

(** The nodes of a plan are those of [compile_nodes] in the order of their ids. *)
Lemma sorted_nodes_perm l : NoDup (ids l) → omap (find_node l) (py_sorted (ids l)) ≡ₚ l.
Proof.
  intros Hnd. apply NoDup_Permutation.
  - apply (NoDup_fmap_1 node_id). assert (∀ s, (∀ i, i ∈ s → i ∈ ids l) → node_id <$> omap (find_node l) s = s) as ->.
    + induction s as [|i s IH]; intros Hs; [done|]. cbn [omap list_omap].
      destruct (proj1 (elem_of_ids l i)) as (n & Hn & <-); [apply Hs; by left|]. rewrite find_node_elem by done.
      cbn [fmap list_fmap]. f_equal. apply IH. intros j Hj. apply Hs. by right.
    + unfold py_sorted. by rewrite (merge_sort_Permutation String.le).
    + intros i. by rewrite elem_of_py_sorted.
  - by apply (NoDup_fmap_1 node_id).
  - intros n. rewrite list_elem_of_omap. setoid_rewrite elem_of_py_sorted. split.
    + intros (i & _ & Hi). by apply find_node_Some in Hi as [? _].
    + intros Hn. exists (node_id n). split; [apply elem_of_ids; by exists n|by apply find_node_elem].
Qed.

Lemma compile_plan_Ok rq it raw p : compile_plan rq it raw = Ok p →
  ∃ l wave_of ws, compile_nodes raw = Ok l ∧ nodes_wf l ∧ deps_known l ∧ nodes p ≡ₚ l ∧
    (∀ i, deps_in (nodes p) i = deps_in l i) ∧ topological_order p ≡ₚ ids l ∧ causal (deps_in l) (topological_order p) ∧
    execution_waves p = py_sorted <$> ws ∧ waves_inv l (conflicts_of l) (topological_order p) wave_of ws.
Proof.
  intros H. unfold compile_plan in H. apply rbind_Ok in H as (i & _ & H).
  apply plan_check_Ok in H as [_ H]. apply plan_check_Ok in H as [_ H].
  apply rbind_Ok in H as (l & Hl & H). apply rbind_Ok in H as (o & Ho & H). apply rbind_Ok in H as (ws & Hws & H).
  destruct (compile_nodes_spec _ _ Hl) as [Hwf _]. destruct (topological_sound l o Hwf Ho) as (Hk & Hp & Hc).
  destruct (waves_of_spec l o (conflicts_of l) Hwf Hk Hp Hc) as (wo & ws' & Hws' & Hinv).
  rewrite Hws in Hws'. injection Hws' as ->. injection H as <-.
  exists l, wo, ws'. split; [done|]. split; [done|]. split; [done|].
  pose proof (sorted_nodes_perm l (wf_ids l Hwf)) as Hperm. split; [exact Hperm|]. split; [|done].
  intros j. unfold deps_in. cbn [nodes set_field]. rewrite (find_node_perm _ l j); [done| |done].
  unfold ids. rewrite Hperm. apply (wf_ids l Hwf).
Qed.

Lemma compile_plan_total rq it raw l : request_ok rq it → compile_nodes raw = Ok l →
  (deps_known l ∧ acyclic (deps_in l) (list_to_set (ids l)) → ∃ p, compile_plan rq it raw = Ok p) ∧
  (¬ (deps_known l ∧ acyclic (deps_in l) (list_to_set (ids l))) →
   ∃ r d, compile_plan rq it raw = Err (PlanError r d) ∧ r ∈ ["dependency_missing"; "dag_cycle"]).
Proof.
  intros ((i & Hi) & Hs & Hh & Hg & He) Hl. destruct (compile_nodes_spec _ _ Hl) as [Hwf _].
  rewrite <- Str.truthy_ne in Hs, Hh, Hg. unfold compile_plan. rewrite Hi. cbn [rbind]. rewrite Hs, Hh, Hg. cbn [andb plan_check rbind].
  assert (negb (Nat.eqb (length (rq_evidence rq)) 0) = true) as -> by (by destruct (rq_evidence rq)).
  cbn [plan_check rbind]. rewrite Hl. cbn [rbind]. split.
  - intros [Hk Hac]. destruct (topological_total l Hwf Hk Hac) as [o Ho].
    destruct (topological_sound l o Hwf Ho) as (_ & Hp & Hc).
    destruct (waves_of_spec l o (conflicts_of l) Hwf Hk Hp Hc) as (wo & ws & Hws & _).
    rewrite Ho. cbn [rbind]. rewrite Hws. cbn [rbind]. by eexists.
  - intros Hbad. destruct (topological l) as [o|e] eqn:Eo.
    + destruct Hbad. destruct (topological_sound l o Hwf Eo) as (Hk & Hp & Hc). split; [done|].
      apply (acyclic_perm _ _ _ Hp). by apply causal_acyclic.
    + apply topological_err in Eo as (r & d & -> & Hr). cbn [rbind]. by exists r, d.
Qed.

(** ** Drift *)

Lemma feeds_iff l n d : NoDup (ids l) → n ∈ l → d ∈ depends_on n ↔ feeds l d (node_id n).
Proof.
  intros Hnd Hn. unfold feeds. rewrite deps_in_elem by done. split; [|naive_solver].
  intros Hd. split; [done|]. apply elem_of_ids. by exists n.
Qed.

Lemma pass_skip l n s inv b inv' b' :
  (∀ d, d ∈ depends_on n → d ∈ inv → node_id n ∈ inv) →
  pass_post l s inv b inv' b' → pass_post l (n :: s) inv b inv' b'.
Proof.
  intros Hn [H1 H2 H3 H4 H5 H6]. split; try done.
  - intros i Hi. destruct (H3 i Hi) as [?|[? ?]]; [by left|right]. split; [by right|done].
  - intros Hr. destruct (H6 Hr) as [H6a H6b]. split; [done|].
    intros m d Hm. apply elem_of_cons in Hm as [->|Hm]; [by apply Hn|by apply H6b].
Qed.

Lemma pass_add l n s inv b inv' b' d :
  NoDup (inv ++ [node_id n]) → d ∈ inv → feeds l d (node_id n) →
  pass_post l s (inv ++ [node_id n]) true inv' b' → pass_post l (n :: s) inv b inv' b'.
Proof.
  intros Hnd Hd Hf [H1 H2 H3 H4 H5 H6]. specialize (H4 eq_refl). split; try done; [| | |by rewrite H4].
  - intros i Hi. apply H2, elem_of_app. by left.
  - intros i Hi. destruct (H3 i Hi) as [Hi'|(Hi' & j & Hj & Hji)].
    + apply elem_of_app in Hi' as [?|Hi'%list_elem_of_singleton]; [by left|right]. subst i.
      split; [by left|]. exists d. split; [done|]. by apply rtc_once.
    + right. split; [by right|]. apply elem_of_app in Hj as [Hj|Hj%list_elem_of_singleton]; [by exists j|]. subst j.
      exists d. split; [done|]. by apply rtc_l with (node_id n).
  - intros _. right. enough (length (inv ++ [node_id n]) ≤ length inv')%nat as Hle.
    { rewrite length_app in Hle. simpl in Hle. lia. }
    by apply submseteq_length, NoDup_submseteq.
Qed.

Lemma pass_spec l s inv b inv' b' : NoDup (ids l) → (∀ n, n ∈ s → n ∈ l) → NoDup inv →
  foldl invalidate_node (inv, b) s = (inv', b') → pass_post l s inv b inv' b'.
Proof.
  intros Hids. revert inv b. induction s as [|n s IH]; intros inv b Hs Hnd H.
  { cbn in H. injection H as <- <-. split; try done; [by left|by left|]. intros _. split; [done|].
    intros n d Hn. by apply not_elem_of_nil in Hn. }
  cbn [foldl] in H. unfold invalidate_node at 2 in H.
  assert (∀ m, m ∈ s → m ∈ l) as Hs' by (intros m Hm; apply Hs; by right).
  destruct (bool_decide_reflect (node_id n ∈ inv)) as [Hin|Hnin]; cbn [negb andb] in H.
  { apply pass_skip; [done|]. by apply IH. }
  destruct (existsb (λ d, bool_decide (d ∈ inv)) (depends_on n)) eqn:Ex.
  - apply existsb_exists in Ex as (d & Hd & Hdi). rewrite <- list_elem_of_In in Hd. apply bool_decide_eq_true in Hdi.
    assert (NoDup (inv ++ [node_id n])) as Hnd'.
    { apply NoDup_app. split; [done|]. split; [|apply NoDup_singleton]. intros i Hi Hi'.
      apply list_elem_of_singleton in Hi'. by subst i. }
    apply (pass_add l n s inv b inv' b' d); [done|done| |by apply IH]. apply feeds_iff; [done|apply Hs; by left|done].
  - apply pass_skip; [|by apply IH]. intros d Hd Hdi. exfalso. apply not_true_iff_false in Ex.
    apply Ex, existsb_exists. exists d. rewrite <- list_elem_of_In. split; [done|]. by apply bool_decide_eq_true_2.
Qed.

Lemma invalidate_spec l fuel inv : NoDup (ids l) → NoDup inv → (∀ i, i ∈ inv → i ∈ ids l) →
  (length l < fuel + length inv)%nat →
  ∀ i, i ∈ invalidate fuel l inv ↔ ∃ j, j ∈ inv ∧ rtc (feeds l) j i.
Proof.
  intros Hids. revert inv. induction fuel as [|fuel IH]; intros inv Hnd Hincl Hlen i.
  { exfalso. assert (length inv ≤ length (ids l))%nat as Hle by (by apply submseteq_length, NoDup_submseteq).
    unfold ids in Hle. rewrite length_fmap in Hle. lia. }
  cbn [invalidate]. destruct (foldl invalidate_node (inv, false) l) as [inv' b] eqn:E.
  apply (pass_spec l l) in E as [H1 H2 H3 _ H5 H6]; [|done..]. destruct b.
  - destruct (H5 eq_refl) as [?|Hlt]; [done|]. rewrite IH; [|done| |lia].
    + split.
      * intros (j & Hj & Hr). destruct (H3 j Hj) as [?|(_ & k & Hk & Hkj)]; [by exists j|].
        exists k. split; [done|]. by transitivity j.
      * intros (j & Hj & Hr). exists j. split; [by apply H2|done].
    + intros j Hj. destruct (H3 j Hj) as [?|[? _]]; [by apply Hincl|done].
  - destruct (H6 eq_refl) as [-> Hcl]. split; [intros Hi; by exists i|]. intros (j & Hj & Hr).
    induction Hr as [j|j k i [Hjk Hk] Hr IHr]; [done|]. apply IHr. apply elem_of_ids in Hk as (n & Hn & <-).
    apply (Hcl n j); [done| |done]. by rewrite deps_in_elem in Hjk.
Qed.

Lemma direct_drift_incl p g ch i : i ∈ direct_drift p g ch → i ∈ ids (nodes p).
Proof. unfold direct_drift. rewrite !elem_of_ids. intros (n & Hn & <-). apply elem_of_Listfilter in Hn as [Hn _]. by exists n. Qed.

Lemma elem_of_direct_drift p g ch i :
  i ∈ direct_drift p g ch ↔ ∃ n, n ∈ nodes p ∧ node_id n = i ∧
    ((∃ c, c ∈ context_refs n ∧ c ∈ ch) ∨ g ≠ fast_generation p ∧ generation_sensitive n = true).
Proof.
  unfold direct_drift. rewrite elem_of_ids. setoid_rewrite elem_of_Listfilter. setoid_rewrite orb_true_iff.
  setoid_rewrite andb_true_iff. setoid_rewrite negb_true_iff. setoid_rewrite String.eqb_neq.
  setoid_rewrite existsb_exists. setoid_rewrite bool_decide_eq_true. setoid_rewrite list_elem_of_In. naive_solver.
Qed.

(** The part of [compile_plan_Ok] about the plan itself. *)
Lemma plan_schedule_facts rq it raw p : compile_plan rq it raw = Ok p →
  NoDup (ids (nodes p)) ∧ topological_order p ≡ₚ ids (nodes p) ∧ ∀ g ch, NoDup (direct_drift p g ch).
Proof.
  intros H. destruct (compile_plan_Ok _ _ _ _ H) as (l & wo & ws & _ & Hwf & _ & Hp & _ & Ho & _).
  assert (ids (nodes p) ≡ₚ ids l) as Hids by (unfold ids; by rewrite Hp).
  assert (NoDup (ids (nodes p))) as Hnd by (rewrite Hids; apply (wf_ids l Hwf)).
  split; [done|]. split; [by rewrite Hids|]. intros g ch. by apply NoDup_Listfilter_fmap.
Qed.

Lemma invalidated_known l fuel inv i : (∀ j, j ∈ inv → j ∈ ids l) → NoDup (ids l) → NoDup inv → (length l < fuel + length inv)%nat →
  i ∈ invalidate fuel l inv → i ∈ ids l.
Proof.
  intros Hincl Hnd Hinv Hf Hi. apply invalidate_spec in Hi as (j & Hj & Hr); [|done..].
  apply rtc_inv_r in Hr as [->|(k & _ & _ & ?)]; [by apply Hincl|done].
Qed.

(** * Properties *)

(** C14: A compiled plan schedules its nodes correctly. Its topological order
    holds every node once, each after what it depends on; its execution waves
    hold every node once, each in a later wave than everything it depends on;
    of two nodes of one wave neither writes a target of the other, nor a directory
    below the root that lies above a file of the other or bears its name, read off
    the components of the two paths; and a node that consumes an output depends on
    every other node that produces it. (Nothing is claimed of a directory inside a
    directory, nor of the root: [dir_root_conflicts].) *)
Theorem plan_schedule_sound rq it raw p : compile_plan rq it raw = Ok p →
  (NoDup (ids (nodes p)) ∧ topological_order p ≡ₚ ids (nodes p) ∧ causal (deps_in (nodes p)) (topological_order p)) ∧
  (mjoin (execution_waves p) ≡ₚ ids (nodes p) ∧
   ∀ n d, n ∈ nodes p → d ∈ depends_on n →
     ∃ v w, in_wave (execution_waves p) d v ∧ in_wave (execution_waves p) (node_id n) w ∧ (v < w)%nat) ∧
  (∀ a b w, a ∈ nodes p → b ∈ nodes p → node_id a ≠ node_id b →
     in_wave (execution_waves p) (node_id a) w → in_wave (execution_waves p) (node_id b) w → disjoint_writes a b) ∧
  (∀ a b o, a ∈ nodes p → b ∈ nodes p → node_id a ≠ node_id b →
     o ∈ outputs a → o ∈ inputs b → node_id a ∈ depends_on b).
Proof.
  intros H. destruct (compile_plan_Ok _ _ _ _ H) as (l & wo & ws & Hl & Hwf & Hk & Hp & Hdeps & Ho & Hc & Hws & Hinv).
  destruct (compile_nodes_spec _ _ Hl) as [_ Hprod].
  assert (ids (nodes p) ≡ₚ ids l) as Hids by (unfold ids; by rewrite Hp).
  assert (∀ i w, in_wave (execution_waves p) i w ↔ in_wave ws i w) as Hin.
  { intros i w. rewrite Hws. unfold in_wave. setoid_rewrite list_lookup_fmap_Some. split.
    - intros (wv' & (wv & Heq & Hwv) & Hi). subst wv'. exists wv. by rewrite elem_of_py_sorted in Hi.
    - intros (wv & Hwv & Hi). exists (py_sorted wv). split; [by exists wv|by apply elem_of_py_sorted]. }
  split; [|split; [|split]].
  - split; [rewrite Hids; apply (wf_ids l Hwf)|]. split; [by rewrite Hids|]. intros k i d. rewrite Hdeps. by apply Hc.
  - split.
    + rewrite Hids, <- Ho, <- (w_join _ _ _ _ _ Hinv), Hws. clear. induction ws as [|wv ws IH]; [done|].
      cbn [fmap list_fmap mjoin list_join]. rewrite IH. unfold py_sorted. by rewrite (merge_sort_Permutation String.le).
    + intros n d Hn Hd. rewrite Hp in Hn. destruct (w_placed _ _ _ _ _ Hinv (node_id n)) as [w Hw].
      { rewrite Ho. apply elem_of_ids. by exists n. }
      rewrite <- (deps_in_elem l n (wf_ids l Hwf) Hn) in Hd.
      destruct (w_deps _ _ _ _ _ Hinv _ _ _ Hw Hd) as (v & Hv & Hlt). exists v, w. rewrite !Hin.
      split; [by apply (w_of _ _ _ _ _ Hinv)|]. split; [by apply (w_of _ _ _ _ _ Hinv)|done].
  - intros a b w Ha Hb Hne Hwa Hwb. rewrite Hin in Hwa, Hwb. rewrite Hp in Ha, Hb.
    destruct Hwa as (wv & Hwv & Ha'), Hwb as (wv' & Hwv' & Hb'). simplify_eq.
    apply no_collision_disjoint, (conflicts_complete l); [apply (wf_ids l Hwf)|done|done|done|].
    apply (w_apart _ _ _ _ _ Hinv wv); [by eapply list_elem_of_lookup_2|done|done|done].
  - intros a b o. rewrite !Hp. apply Hprod.
Qed.

Lemma demo_compiles : compile_plan demo_request demo_intent demo_nodes = Ok demo_plan.
Proof. vm_compute. reflexivity. Qed.

Lemma plan_schedule_sound_witness :
  compile_plan demo_request demo_intent demo_nodes = Ok demo_plan ∧
  execution_waves demo_plan = [["a"]; ["b"]; ["c"]; ["d"]] ∧
  causal (deps_in (nodes demo_plan)) (topological_order demo_plan).
Proof.
  split; [exact demo_compiles|]. split; [vm_compute; reflexivity|].
  exact (proj2 (proj2 (proj1 (plan_schedule_sound _ _ _ _ demo_compiles)))).
Defined.

(** Given a valid request and valid nodes, the compiler returns a plan
    exactly when every dependency, declared or inferred, is a node of the plan
    and the dependencies have no cycle; otherwise it raises [dependency_missing]
    or [dag_cycle]. No subscript of the wave placement fails. *)
Theorem compile_plan_exact rq it raw l : request_ok rq it → compile_nodes raw = Ok l →
  (deps_known l ∧ acyclic (deps_in l) (list_to_set (ids l)) ↔ ∃ p, compile_plan rq it raw = Ok p) ∧
  (∀ e, compile_plan rq it raw = Err e → ∃ r d, e = PlanError r d ∧ r ∈ ["dependency_missing"; "dag_cycle"]).
Proof.
  intros Hrq Hl. destruct (compile_plan_total rq it raw l Hrq Hl) as [Hyes Hno].
  destruct (compile_plan rq it raw) as [p|e] eqn:E.
  - split; [|done]. split; [by exists p|]. intros _.
    destruct (compile_plan_Ok _ _ _ _ E) as (l' & _ & _ & Hl' & _ & Hk & _ & _ & Ho & Hc & _).
    rewrite Hl in Hl'. injection Hl' as <-. split; [done|]. apply (acyclic_perm _ _ _ Ho). by apply causal_acyclic.
  - split.
    + split; [by intros H; apply Hyes|]. by intros [p ?].
    + intros e' [= <-]. destruct Hno as (r & d & [= ->] & Hr); [|by exists r, d]. intros H. by destruct (Hyes H).
Qed.

Lemma compile_plan_exact_witness :
  request_ok demo_request demo_intent ∧ compile_nodes demo_cycle = Ok demo_cycle_nodes ∧
  ¬ (deps_known demo_cycle_nodes ∧ acyclic (deps_in demo_cycle_nodes) (list_to_set (ids demo_cycle_nodes))).
Proof.
  assert (request_ok demo_request demo_intent) as H1 by (split; [eexists; reflexivity|by repeat split]).
  assert (compile_nodes demo_cycle = Ok demo_cycle_nodes) as H2 by (vm_compute; reflexivity).
  split; [exact H1|]. split; [exact H2|].
  intros H. apply (proj1 (compile_plan_exact _ _ _ _ H1 H2)) in H as [p Hp]. vm_compute in Hp. discriminate Hp.
Defined.

(** Drift of a compiled plan is computed exactly. The nodes it invalidates
    are those that a directly affected node reaches along the dependencies, in
    the order of the plan; a node is affected directly if it refers to a changed
    context or depends on the generation and that has moved. No reason is given
    exactly if neither the context hash, the generation nor any node is
    affected; then nothing is invalidated and replanning is refused. *)
Theorem drift_exact rq it raw p h g changed ev : compile_plan rq it raw = Ok p →
  let r := detect_drift p h g changed ev in
  (∀ i, i ∈ invalidated_nodes r ↔ ∃ j, j ∈ directly_affected r ∧ rtc (feeds (nodes p)) j i) ∧
  (∀ i, i ∈ directly_affected r ↔ ∃ n, n ∈ nodes p ∧ node_id n = i ∧
     ((∃ c, c ∈ context_refs n ∧ c ∈ strings changed) ∨ g ≠ fast_generation p ∧ generation_sensitive n = true)) ∧
  invalidated_nodes r `sublist_of` topological_order p ∧
  (reason_code r = None ↔ h = context_hash p ∧ g = fast_generation p ∧ directly_affected r = []) ∧
  (reason_code r = None → invalidated_nodes r = [] ∧
     ∀ new h' g', replan p r new h' g' = Err (PlanError "replan_without_observable_cause" "")).
Proof.
  intros H r. destruct (plan_schedule_facts _ _ _ _ H) as (Hnd & Ho & Hdnd).
  assert (∀ i, i ∈ directly_affected r ↔ i ∈ direct_drift p g (strings changed)) as Hdir.
  { intros i. unfold r, detect_drift. cbn [directly_affected]. by rewrite elem_of_py_sorted. }
  assert (directly_affected r = [] ↔ length (direct_drift p g (strings changed)) = 0%nat) as Hnil.
  { unfold r, detect_drift. cbn [directly_affected]. rewrite list_nil_iff. setoid_rewrite elem_of_py_sorted.
    rewrite <- list_nil_iff. by destruct (direct_drift _ _ _). }
  assert (∀ i, i ∈ invalidated_nodes r ↔ ∃ j, j ∈ directly_affected r ∧ rtc (feeds (nodes p)) j i) as Hinv.
  { intros i. setoid_rewrite Hdir. rewrite <- (invalidate_spec (nodes p) (S (length (nodes p)))); [|done|apply Hdnd|apply direct_drift_incl|lia].
    unfold r, detect_drift. cbn [invalidated_nodes]. rewrite elem_of_Listfilter, bool_decide_eq_true. split; [naive_solver|].
    intros Hi. split; [|done]. rewrite Ho. apply invalidated_known in Hi; [done|apply direct_drift_incl|done|done|lia]. }
  split; [exact Hinv|]. split; [intros i; rewrite Hdir; apply elem_of_direct_drift|].
  split; [apply Listfilter_sublist|].
  assert (reason_code r = None ↔ h = context_hash p ∧ g = fast_generation p ∧ directly_affected r = []) as Hreason.
  { rewrite Hnil. unfold r, detect_drift. cbn [reason_code].
    destruct (String.eqb_spec g (fast_generation p)) as [->|]; cbn [negb]; [|naive_solver].
    destruct (String.eqb_spec h (context_hash p)) as [->|]; cbn [negb orb]; [|naive_solver].
    destruct (Nat.eqb_spec (length (direct_drift p (fast_generation p) (strings changed))) 0); cbn [negb]; naive_solver. }
  split; [exact Hreason|]. intros Hr. split.
  - apply Hreason in Hr as (_ & _ & Hd). apply list_nil_iff. intros i (j & Hj & _)%Hinv. rewrite Hd in Hj. by apply not_elem_of_nil in Hj.
  - intros new h' g'. unfold replan. by rewrite Hr.
Qed.

Lemma drift_exact_witness :
  compile_plan demo_request demo_intent demo_nodes = Ok demo_plan ∧
  invalidated_nodes (detect_drift demo_plan "h0" "g1" [] ["e"]) = ["a"; "b"; "d"] ∧
  rtc (feeds (nodes demo_plan)) "a" "d".
Proof.
  split; [exact demo_compiles|].
  assert (invalidated_nodes (detect_drift demo_plan "h0" "g1" [] ["e"]) = ["a"; "b"; "d"]) as Hi by (vm_compute; reflexivity).
  split; [exact Hi|].
  destruct (proj1 (proj1 (drift_exact _ _ _ _ "h0" "g1" [] ["e"] demo_compiles) "d")) as (j & Hj & Hr).
  { rewrite Hi. right. right. by left. }
  assert (directly_affected (detect_drift demo_plan "h0" "g1" [] ["e"]) = ["a"]) as Hd by (vm_compute; reflexivity).
  rewrite Hd in Hj. apply list_elem_of_singleton in Hj. subst j. exact Hr.
Defined.

(** A directory target that names the root conflicts with no file, and nested
    directories do not conflict with each other. *)
Example dir_root_conflicts : targets_conflict "dir:/" "file:src/x.py" = false ∧ targets_conflict "dir:." "file:src/x.py" = false
  ∧ targets_conflict "dir:src" "file:src/x.py" = true ∧ targets_conflict "dir:src" "dir:src/sub" = false.
Proof. repeat split; vm_compute; reflexivity. Qed.
