(* ===== verification/ConflictLanes.v ===== *)
(** Conflict lanes of parallel tasks (the first part of
    [simplicio_loop/worktree_queue.py]): what a task touches, which tasks touch
    the same, and the lanes in which tasks that conflict, directly or through
    others, wait for each other. *)
From stdpp Require Import gmap sorting.
From S2P Require Import Prelude PyLib PyText.
Import Json.
Local Open Scope py_scope.

(** * Definitions *)

(** [re.sub(r"/+", "/", s)] *)
Fixpoint squash (s : string) : string :=
  match s with
  | EmptyString => ""
  | String c s' =>
      match squash s' with
      | String d _ as r => if Ascii.eqb c Text.slash && Ascii.eqb d Text.slash then r else String c r
      | EmptyString => String c ""
      end
  end.

(** [_norm] of a string *)
Definition norm (value : string) : string :=
  let text := squash (Text.replace Text.backslash Text.slash (Str.strip value)) in
  Text.lstrip_char Text.slash (Text.rstrip_char Text.slash (Str.lower text)).

(** [_sha256] *)
Definition sha256_json (v : json) : string := Sha256.hexdigest (dumps false v).

Record TaskSpec := mkTask {
  id : string; goal : string; files_affected : list string; symbols : list string; public_contracts : list string; migrations : list string }.

(** [[str(x) for x in (v or [])]]; [None] is the [TypeError] of a value that
    cannot be iterated. *)
Definition strings (v : json) : option (list string) := map Val.str <$> Val.iter (Val.or_else v (List [])).

(** [TaskSpec.from_mapping] *)
Definition from_mapping (raw : list (string * json)) : option TaskSpec :=
  files ← strings (Val.or_else (Val.get "files_affected" raw) (Val.get "plan_files" raw));
  syms ← strings (Val.get "symbols" raw);
  contracts ← strings (Val.or_else (Val.get "public_contracts" raw) (Val.get "contracts" raw));
  migs ← strings (Val.get "migrations" raw);
  Some (mkTask (Str.strip (Val.text (Val.get "id" raw))) (Val.text (Val.get "goal" raw)) files syms contracts migs).

Definition prefixed (prefix : string) (values : list string) : list string :=
  (λ v, prefix +:+ ":" +:+ norm v) <$> List.filter (λ v, Str.truthy (norm v)) values.
(** [TaskSpec.conflict_keys] *)
Definition conflict_keys (t : TaskSpec) : list string :=
  sorted_set (prefixed "path" (files_affected t) ++ prefixed "symbol" (symbols t) ++ prefixed "contract" (public_contracts t)
              ++ prefixed "migration" (migrations t)).

(** ** The conflict graph *)

Notation graph := (list (string * list string)).

(** [{task.id: set() for task in rows}], [{task.id: set(task.conflict_keys()) for task in rows}] *)
Definition no_edges (rows : list TaskSpec) : graph := foldl (λ g t, dput (id t) [] g) [] rows.
Definition key_sets (rows : list TaskSpec) : graph := foldl (λ g t, dput (id t) (conflict_keys t) g) [] rows.

(** [graph[a].add(b)] *)
Definition add_edge (a b : string) (g : graph) : graph :=
  let ns := default [] (dget a g) in dput a (if bool_decide (b ∈ ns) then ns else ns ++ [b]) g.

Definition intersect (keys : graph) (a b : string) : bool :=
  existsb (λ k, bool_decide (k ∈ default [] (dget b keys))) (default [] (dget a keys)).
Definition link (keys : graph) (g : graph) (p : TaskSpec * TaskSpec) : graph :=
  if intersect keys (id p.1) (id p.2) then add_edge (id p.2) (id p.1) (add_edge (id p.1) (id p.2) g) else g.

(** [conflict_graph] *)
Definition conflict_graph (rows : list TaskSpec) : graph :=
  (λ kn, (kn.1, sorted_set kn.2)) <$> foldl (link (key_sets rows)) (no_edges rows) (all_pairs rows).

(** ** Lanes *)

Definition neighbors (g : graph) (a : string) : list string := default [] (dget a g).

(** The loop over the stack, whose top comes first; [None] when the fuel is
    used up. *)
Fixpoint explore (fuel : nat) (g : graph) (stack component : list string) : option (list string) :=
  match stack, fuel with
  | [], _ => Some component
  | _, O => None
  | current :: stack', S fuel' =>
      if bool_decide (current ∈ component) then explore fuel' g stack' component
      else explore fuel' g (reverse (neighbors g current) ++ stack') (component ++ [current])
  end.

(** One round for each entry of the stack: a start, and every edge once. *)
Definition edges (g : graph) : nat := sum_list_with (λ kn, length kn.2) g.
Definition component (g : graph) (a : string) : option (list string) := explore (S (edges g)) g [a] [].

(** [lane-] and the first twelve digits of the hash of the sorted component. *)
Definition lane_name (members : list string) : string :=
  "lane-" +:+ String.substring 0 12 (sha256_json (List (Str <$> py_sorted members))).

Definition task_le (x y : TaskSpec) : Prop := String.le (id x) (id y).
#[export] Instance task_le_dec x y : Decision (task_le x y).
Proof. unfold task_le. apply _. Defined.

Definition assign_lane (g : graph) (lanes : option (list (string * string))) (t : TaskSpec) : option (list (string * string)) :=
  lanes ← lanes;
  if bool_decide (is_Some (dget (id t) lanes)) then Some lanes
  else
    members ← component g (id t);
    Some (foldl (λ d i, dput i (lane_name members) d) lanes members).

(** [conflict_lanes] *)
Definition conflict_lanes (rows : list TaskSpec) : option (list (string * string)) :=
  foldl (assign_lane (conflict_graph rows)) (Some []) (merge_sort task_le rows).

(** ** Specification *)

(** The row that counts for an id: the last that has it. *)
Definition last_row (rows : list TaskSpec) (a : string) : option TaskSpec := last (filter (λ t, id t = a) rows).

(** Two tasks with a conflict key in common. *)
Definition conflict (rows : list TaskSpec) (a b : string) : Prop :=
  a ≠ b ∧ ∃ x y k, last_row rows a = Some x ∧ last_row rows b = Some y ∧ k ∈ conflict_keys x ∧ k ∈ conflict_keys y.

(** Tasks that conflict through a chain of tasks. *)
Definition linked (rows : list TaskSpec) : string → string → Prop := rtc (conflict rows).

(** The hashes of the two components share their first twelve digits. *)
Definition lane_collision (rows : list TaskSpec) (a b : string) : Prop :=
  ∃ ca cb, component (conflict_graph rows) a = Some ca ∧ component (conflict_graph rows) b = Some cb ∧
    py_sorted ca ≠ py_sorted cb ∧ lane_name ca = lane_name cb.

(** What is left to visit: the edges of the tasks that were not. *)
Definition weight (g : graph) (c : list string) : nat := sum_list_with (λ kn, if bool_decide (kn.1 ∈ c) then 0%nat else length kn.2) g.

(** The lanes given so far: whole components, under their names. *)
Definition lanes_ok (rows : list TaskSpec) (lanes : list (string * string)) : Prop :=
  ∀ a l, dget a lanes = Some l → ∃ c, component (conflict_graph rows) a = Some c ∧ l = lane_name c ∧ ∀ b, b ∈ c → dget b lanes = Some l.

(** Examples: two tasks on one file under different names, a third by a contract. *)
Definition demo_tasks : list TaskSpec :=
  [mkTask "C" "" ["src/other.py"] [] ["api.v1"] []; mkTask "A" "" ["src//a.py "] [] [] []; mkTask "D" "" ["docs"] [] [] [];
   mkTask "B" "" ["\SRC\A.py"] [] ["API.v1"] []].

(** * Lemmas *)

Example demo_conflict_keys : conflict_keys (mkTask "B" "" ["\SRC\A.py"; " / "] ["F"] ["API.v1"] []) = ["contract:api.v1"; "path:src/a.py"; "symbol:f"].
Proof. vm_compute. reflexivity. Qed.
Example demo_graph : conflict_graph demo_tasks = [("C", ["B"]); ("A", ["B"]); ("D", []); ("B", ["A"; "C"])].
Proof. vm_compute. reflexivity. Qed.

(** ** Graphs *)

Lemma neighbors_put g a b ns : neighbors (dput a ns g) b = if decide (b = a) then ns else neighbors g b.
Proof. unfold neighbors. rewrite dget_put. by destruct (decide _). Qed.

Lemma add_edge_spec a b g x y : y ∈ neighbors (add_edge a b g) x ↔ y ∈ neighbors g x ∨ (x = a ∧ y = b).
Proof.
  unfold add_edge. fold (neighbors g a). rewrite neighbors_put. destruct (decide (x = a)) as [->|Hne]; [|naive_solver].
  case_bool_decide; [naive_solver|]. rewrite elem_of_app, list_elem_of_singleton. naive_solver.
Qed.

Lemma link_spec keys g p x y : y ∈ neighbors (link keys g p) x ↔
  y ∈ neighbors g x ∨ (intersect keys (id p.1) (id p.2) = true ∧ ((x = id p.1 ∧ y = id p.2) ∨ (x = id p.2 ∧ y = id p.1))).
Proof. unfold link. destruct (intersect _ _ _); [rewrite !add_edge_spec; naive_solver|naive_solver]. Qed.

Lemma links_spec keys l g x y : y ∈ neighbors (foldl (link keys) g l) x ↔
  y ∈ neighbors g x ∨ ∃ p, p ∈ l ∧ intersect keys (id p.1) (id p.2) = true ∧ ((x = id p.1 ∧ y = id p.2) ∨ (x = id p.2 ∧ y = id p.1)).
Proof.
  revert g. induction l as [|p l IH]; intros g; cbn [foldl].
  - split; [by left|]. intros [?|(p & Hp & _)]; [done|by apply not_elem_of_nil in Hp].
  - rewrite IH, link_spec. setoid_rewrite elem_of_cons. naive_solver.
Qed.

(** The dicts over the tasks. *)
Lemma last_row_cons t rows a : last_row (t :: rows) a =
  match last_row rows a with Some u => Some u | None => if decide (id t = a) then Some t else None end.
Proof.
  unfold last_row. rewrite filter_cons. destruct (decide (id t = a)); [|by destruct (last _)]. rewrite last_cons. by destruct (last _).
Qed.

Lemma last_row_Some rows a t : last_row rows a = Some t → t ∈ rows ∧ id t = a.
Proof. intros H%last_Some_elem_of. apply list_elem_of_filter in H. tauto. Qed.

Lemma last_row_is_Some rows t : t ∈ rows → is_Some (last_row rows (id t)).
Proof. intros Ht. apply last_is_Some. intros E. by apply (filter_nil_not_elem_of _ _ t) in E. Qed.

Lemma dget_tasks {V} (f : TaskSpec → V) rows (d : list (string * V)) a :
  dget a (foldl (λ g t, dput (id t) (f t) g) d rows) = match last_row rows a with Some t => Some (f t) | None => dget a d end.
Proof.
  revert d. induction rows as [|t rows IH]; intros d; [done|]. cbn [foldl]. rewrite IH, last_row_cons, dget_put.
  destruct (last_row rows a); [done|]. by destruct (decide (id t = a)), (decide (a = id t)).
Qed.

Lemma keys_of rows a : default [] (dget a (key_sets rows)) = from_option conflict_keys [] (last_row rows a).
Proof. unfold key_sets. rewrite (dget_tasks conflict_keys). by destruct (last_row rows a). Qed.

Lemma intersect_spec rows a b : intersect (key_sets rows) a b = true ↔
  ∃ x y k, last_row rows a = Some x ∧ last_row rows b = Some y ∧ k ∈ conflict_keys x ∧ k ∈ conflict_keys y.
Proof.
  unfold intersect. rewrite !keys_of, existsb_exists. setoid_rewrite bool_decide_eq_true. setoid_rewrite <- list_elem_of_In. split.
  - intros (k & Ha & Hb). destruct (last_row rows a) as [x|]; [|by apply not_elem_of_nil in Ha].
    destruct (last_row rows b) as [y|]; [|by apply not_elem_of_nil in Hb]. by exists x, y, k.
  - intros (x & y & k & -> & -> & ?). by exists k.
Qed.

Lemma no_edges_spec rows a : neighbors (no_edges rows) a = [].
Proof.
  unfold no_edges. assert (∀ g, (∀ a, neighbors g a = []) → ∀ a, neighbors (foldl (λ g t, dput (id t) [] g) g rows) a = []) as Hgen.
  { induction rows as [|t rows IH]; intros g Hg; [done|]. cbn [foldl]. apply IH. intros b. rewrite neighbors_put. by destruct (decide _). }
  by apply Hgen.
Qed.

Lemma neighbors_sorted g a : neighbors ((λ kn, (kn.1, sorted_set kn.2)) <$> g) a = sorted_set (neighbors g a).
Proof.
  unfold neighbors. rewrite dget_map. by destruct (dget a g).
Qed.

(** The graph has an edge between two tasks where they conflict. *)
Lemma conflict_graph_spec rows a b : a ≠ b → b ∈ neighbors (conflict_graph rows) a ↔ conflict rows a b.
Proof.
  intros Hne. unfold conflict_graph. rewrite neighbors_sorted, elem_of_sorted_set, links_spec, no_edges_spec. unfold conflict. split.
  - intros [H%not_elem_of_nil|(p & _ & (x & y & k & H)%intersect_spec & [[-> ->]|[-> ->]])]; [done| |]; (split; [done|]);
      [exists x, y, k|exists y, x, k]; tauto.
  - intros (_ & x & y & k & Ha & Hb & Hx & Hy). right.
    destruct (last_row_Some _ _ _ Ha) as [[i Hi]%list_elem_of_lookup <-], (last_row_Some _ _ _ Hb) as [[j Hj]%list_elem_of_lookup <-].
    destruct (Nat.lt_trichotomy i j) as [Hlt|[->|Hlt]]; [|congruence|].
    + exists (x, y). split; [apply elem_of_all_pairs; by exists i, j|]. split; [|by left]. apply intersect_spec. by exists x, y, k.
    + exists (y, x). split; [apply elem_of_all_pairs; by exists j, i|]. split; [|by right]. apply intersect_spec. by exists y, x, k.
Qed.

Lemma conflict_sym rows a b : conflict rows a b → conflict rows b a.
Proof. intros (Hne & x & y & k & H). split; [done|]. exists y, x, k. tauto. Qed.
#[export] Instance linked_sym rows : Symmetric (linked rows).
Proof. intros a b H. induction H as [a|a b c H _ IH]; [done|]. etransitivity; [exact IH|]. apply rtc_once. by apply conflict_sym. Qed.

(** ** Exploring *)

Lemma weight_visit g c a : NoDup g.*1 → a ∉ c → (weight g (c ++ [a]) + length (neighbors g a) = weight g c)%nat.
Proof.
  intros Hnd Ha. unfold weight, neighbors. induction g as [|[k ns] g IH]; [done|]. rewrite fmap_cons in Hnd. apply NoDup_cons in Hnd as [Hk Hnd].
  specialize (IH Hnd). cbn [sum_list_with fst snd]. rewrite dget_cons. destruct (decide (k = a)) as [->|Hne].
  - rewrite bool_decide_eq_true_2 by (apply elem_of_app; right; by left). rewrite bool_decide_eq_false_2 by done. cbn.
    assert (dget a g = None) as Hg by by apply dget_None. rewrite Hg in IH. cbn in IH. lia.
  - assert (bool_decide (k ∈ c ++ [a]) = bool_decide (k ∈ c)) as ->; [|lia].
    apply bool_decide_ext. rewrite elem_of_app, list_elem_of_singleton. naive_solver.
Qed.

Lemma weight_nil g : weight g [] = edges g.
Proof.
  unfold weight, edges. induction g as [|[k ns] g IH]; [done|]. cbn [sum_list_with fst snd]. rewrite bool_decide_eq_false_2 by apply not_elem_of_nil. by rewrite IH.
Qed.

Lemma explore_total fuel g stack c : NoDup g.*1 → (length stack + weight g c <= fuel)%nat → ∃ r, explore fuel g stack c = Some r.
Proof.
  intros Hnd. revert stack c. induction fuel as [|fuel IH]; intros [|a stack] c Hle; cbn [explore]; try (by eexists); [cbn in Hle; lia|].
  case_bool_decide as Ha; [apply IH; cbn in Hle; lia|]. apply IH. pose proof (weight_visit g c a Hnd Ha). rewrite length_app, length_reverse. cbn in Hle. lia.
Qed.

(** What is found is closed, and holds whatever the start and the edges keep. *)
Lemma explore_closed fuel g stack c r : explore fuel g stack c = Some r →
  (∀ a b, a ∈ c → b ∈ neighbors g a → b ∈ c ∨ b ∈ stack) →
  (∀ a, a ∈ c ∨ a ∈ stack → a ∈ r) ∧ (∀ a b, a ∈ r → b ∈ neighbors g a → b ∈ r).
Proof.
  revert stack c. induction fuel as [|fuel IH]; intros [|a stack] c; cbn [explore]; intros Hr Hinv; try done.
  1, 2: injection Hr as <-; split; [intros x [?|Hx]; [done|by apply not_elem_of_nil in Hx]|intros x y Hx Hy; destruct (Hinv x y Hx Hy) as [?|Hs]; [done|by apply not_elem_of_nil in Hs]].
  case_bool_decide as Ha.
  - apply IH in Hr as [H1 H2].
    + split; [|done]. intros x [?|[->|?]%elem_of_cons]; auto.
    + intros x y Hx Hy. destruct (Hinv x y Hx Hy) as [?|[->|?]%elem_of_cons]; auto.
  - apply IH in Hr as [H1 H2].
    + split; [|done]. intros x [?|[->|?]%elem_of_cons]; apply H1; rewrite ?elem_of_app; [left; by left|left; right; by left|right; by right].
    + intros x y. rewrite !elem_of_app, elem_of_reverse, !list_elem_of_singleton. intros [Hx| ->] Hy.
      * destruct (Hinv x y Hx Hy) as [?|[->|?]%elem_of_cons]; auto.
      * auto.
Qed.

Lemma explore_sound (P : string → Prop) fuel g stack c r : explore fuel g stack c = Some r →
  (∀ a b, P a → b ∈ neighbors g a → P b) → (∀ a, a ∈ c ∨ a ∈ stack → P a) → NoDup c → (∀ a, a ∈ r → P a) ∧ NoDup r.
Proof.
  intros Hr HP. revert stack c Hr. induction fuel as [|fuel IH]; intros [|a stack] c; cbn [explore]; intros Hr Hall Hnd; try done.
  1, 2: injection Hr as <-; split; [auto|done].
  case_bool_decide as Ha.
  - eapply IH; [exact Hr| |done]. intros x [?|?]; apply Hall; [by left|right; by right].
  - eapply IH; [exact Hr| |].
    + intros x. rewrite !elem_of_app, elem_of_reverse, !list_elem_of_singleton. intros [[?| ->]|[Hx|?]].
      * apply Hall. by left.
      * apply Hall. right. by left.
      * eapply HP; [|exact Hx]. apply Hall. right. by left.
      * apply Hall. right. by right.
    + apply NoDup_app. split; [done|]. split; [|apply NoDup_singleton]. intros x Hx ->%list_elem_of_singleton. done.
Qed.

Lemma graph_keys rows : NoDup (conflict_graph rows).*1.
Proof.
  unfold conflict_graph.
  assert (∀ g : graph, (fst <$> ((λ kn, (kn.1, sorted_set kn.2)) <$> g)) = g.*1) as -> by (intros g; rewrite <- list_fmap_compose; done).
  assert (∀ l g, NoDup g.*1 → NoDup (foldl (link (key_sets rows)) g l).*1) as Hl.
  { induction l as [|p l IH]; intros g Hg; [done|]. cbn [foldl]. apply IH. unfold link, add_edge. destruct (intersect _ _ _); [|done]. auto with py. }
  apply Hl. unfold no_edges. assert (∀ g : graph, NoDup g.*1 → NoDup (foldl (λ g t, dput (id t) [] g) g rows).*1) as Hr; [|apply Hr; constructor].
  clear Hl. induction rows as [|t rows IH]; intros g Hg; [done|]. cbn [foldl]. apply IH. auto with py.
Qed.

(** A component is the set of linked tasks. *)
Lemma component_spec rows a :
  ∃ c, component (conflict_graph rows) a = Some c ∧ NoDup c ∧ ∀ b, b ∈ c ↔ linked rows a b.
Proof.
  destruct (explore_total (S (edges (conflict_graph rows))) (conflict_graph rows) [a] []) as [c Hc]; [apply graph_keys| |].
  { by rewrite weight_nil. }
  exists c. split; [done|].
  destruct (explore_closed _ _ _ _ _ Hc) as [Hin Hcl]; [by intros x y Hx%not_elem_of_nil|].
  destruct (explore_sound (linked rows a) _ _ _ _ _ Hc) as [Hs Hndc].
  - intros x y Hx Hy. destruct (decide (x = y)) as [->|Hne]; [done|]. eapply rtc_r; [exact Hx|]. by apply conflict_graph_spec.
  - intros x [Hx%not_elem_of_nil| ->%list_elem_of_singleton]; [done|]. apply rtc_refl.
  - constructor.
  - split; [done|]. intros b. split; [apply Hs|]. intros Hb.
    assert (a ∈ c) as Ha by (apply Hin; right; by left). clear Hs Hc Hin. induction Hb as [x|x y z Hxy _ IH]; [done|].
    apply IH. apply (Hcl x); [done|]. apply conflict_graph_spec; [apply Hxy|done].
Qed.

(** ** Lanes *)

Lemma dget_lanes members l d i :
  dget i (foldl (λ d i, dput i l d) d members) = if bool_decide (i ∈ members) then Some l else dget i (d : list (string * string)).
Proof.
  revert d. induction members as [|m members IH]; intros d; cbn [foldl]; [by rewrite bool_decide_eq_false_2 by apply not_elem_of_nil|].
  rewrite IH. case_bool_decide as Hin; [by rewrite bool_decide_eq_true_2 by by right|]. rewrite dget_put. destruct (decide (i = m)) as [->|Hne].
  - by rewrite bool_decide_eq_true_2 by by left.
  - rewrite bool_decide_eq_false_2; [done|]. intros [?|?]%elem_of_cons; done.
Qed.

Lemma component_same rows a b ca cb :
  component (conflict_graph rows) a = Some ca → component (conflict_graph rows) b = Some cb → linked rows a b → py_sorted ca = py_sorted cb.
Proof.
  intros Ha Hb Hab. destruct (component_spec rows a) as (ca' & Ha' & Hna & Hca). destruct (component_spec rows b) as (cb' & Hb' & Hnb & Hcb).
  rewrite Ha in Ha'. injection Ha' as <-. rewrite Hb in Hb'. injection Hb' as <-. apply py_sorted_perm, NoDup_Permutation; [done|done|].
  intros x. rewrite Hca, Hcb. split; intros Hx; (etransitivity; [|exact Hx]); [by symmetry|done].
Qed.

Lemma assign_lane_ok rows lanes t : lanes_ok rows lanes →
  ∃ lanes', assign_lane (conflict_graph rows) (Some lanes) t = Some lanes' ∧ lanes_ok rows lanes' ∧ is_Some (dget (id t) lanes') ∧
    ∀ a, is_Some (dget a lanes) → is_Some (dget a lanes').
Proof.
  intros Hok. unfold assign_lane. cbn [mbind option_bind]. case_bool_decide as Ht; [by exists lanes|].
  destruct (component_spec rows (id t)) as (c & Hc & Hndc & Hin). rewrite Hc. cbn [mbind option_bind].
  eexists. split; [done|]. split; [|split].
  - intros a l. rewrite dget_lanes. case_bool_decide as Ha.
    + intros [= <-]. destruct (component_spec rows a) as (ca & Hca & _ & Hina). exists ca. split; [done|].
      assert (py_sorted ca = py_sorted c) as E by (apply (component_same rows a (id t)); [done|done|symmetry; by apply Hin]).
      split; [unfold lane_name; by rewrite E|]. intros b Hb. rewrite dget_lanes, bool_decide_eq_true_2; [done|].
      apply Hin. etransitivity; [by apply Hin|by apply Hina].
    + intros Hl. destruct (Hok a l Hl) as (ca & Hca & -> & Hb). exists ca. split; [done|]. split; [done|]. intros b Hbc.
      rewrite dget_lanes. case_bool_decide as Hbin; [|by apply Hb]. exfalso. apply Ha.
      destruct (component_spec rows a) as (ca' & Hca' & _ & Hina). rewrite Hca in Hca'. injection Hca' as <-.
      apply Hin. etransitivity; [by apply Hin|]. symmetry. by apply Hina.
  - rewrite dget_lanes, bool_decide_eq_true_2; [by eexists|]. apply Hin. apply rtc_refl.
  - intros a Ha. rewrite dget_lanes. by case_bool_decide.
Qed.

Lemma lanes_loop rows l lanes : lanes_ok rows lanes →
  ∃ lanes', foldl (assign_lane (conflict_graph rows)) (Some lanes) l = Some lanes' ∧ lanes_ok rows lanes' ∧
    (∀ t, t ∈ l → is_Some (dget (id t) lanes')) ∧ ∀ a, is_Some (dget a lanes) → is_Some (dget a lanes').
Proof.
  revert lanes. induction l as [|t l IH]; intros lanes Hok.
  { exists lanes. split; [done|]. split; [done|]. split; [|done]. by intros t Ht%not_elem_of_nil. }
  destruct (assign_lane_ok rows lanes t Hok) as (lanes1 & H1 & Hok1 & Ht & Hmono1). destruct (IH lanes1 Hok1) as (lanes2 & H2 & Hok2 & Hall & Hmono2).
  exists lanes2. cbn [foldl]. rewrite H1. split; [done|]. split; [done|]. split; [|auto].
  intros u [->|Hu]%elem_of_cons; auto.
Qed.

(** * Properties *)

(** C24: every task gets a lane, and two tasks get the same lane exactly when
    they are linked by a chain of tasks each of which has a conflict key in
    common with the next: lanes are the connected components of the conflicts,
    but for two components of these tasks whose hashes have the same first
    twelve digits. The keys of a task are those of the last row with its id: of
    rows that repeat an id the earlier ones count for nothing
    ([repeated_id_forgets]). The loop over the stack always ends. *)
Theorem lanes_exact rows :
  ∃ lanes, conflict_lanes rows = Some lanes ∧ (∀ t, t ∈ rows → is_Some (dget (id t) lanes)) ∧
    ∀ a b, a ∈ id <$> rows → b ∈ id <$> rows →
      (linked rows a b → dget a lanes = dget b lanes) ∧ (dget a lanes = dget b lanes → lane_collision rows a b ∨ linked rows a b).
Proof.
  destruct (lanes_loop rows (merge_sort task_le rows) []) as (lanes & Hl & Hok & Hall & _); [intros a l Hl; by rewrite dget_nil in Hl|].
  exists lanes. split; [done|]. assert (∀ t, t ∈ rows → is_Some (dget (id t) lanes)) as Hall'.
  { intros t Ht. apply Hall. by rewrite merge_sort_Permutation. }
  split; [done|]. intros a b (x & -> & Hx)%list_elem_of_fmap (y & -> & Hy)%list_elem_of_fmap.
  destruct (Hall' x Hx) as [la Hla], (Hall' y Hy) as [lb Hlb]. destruct (Hok _ _ Hla) as (ca & Hca & -> & Hma), (Hok _ _ Hlb) as (cb & Hcb & -> & _).
  rewrite Hla, Hlb. split.
  - intros Hxy. f_equal. unfold lane_name. by rewrite (component_same rows (id x) (id y) ca cb).
  - intros E%(inj Some). destruct (decide (py_sorted ca = py_sorted cb)) as [Es|Hne]; [right|left; by exists ca, cb].
    destruct (component_spec rows (id x)) as (ca' & Hca' & _ & Hina). destruct (component_spec rows (id y)) as (cb' & Hcb' & _ & Hinb).
    rewrite Hca in Hca'. injection Hca' as <-. rewrite Hcb in Hcb'. injection Hcb' as <-. apply Hina.
    rewrite <- elem_of_py_sorted, Es, elem_of_py_sorted. apply Hinb, rtc_refl.
Qed.

Lemma lanes_exact_witness : ∃ lanes, conflict_lanes demo_tasks = Some lanes ∧ is_Some (dget "A" lanes) ∧
  (dget "C" lanes = dget "A" lanes → lane_collision demo_tasks "C" "A" ∨ linked demo_tasks "C" "A").
Proof.
  destruct (lanes_exact demo_tasks) as (lanes & Hl & Hall & Hab).
  exists lanes. split; [exact Hl|]. split; [apply (Hall (mkTask "A" "" ["src//a.py "] [] [] [])); apply list_elem_of_In; vm_compute; tauto|].
  apply (Hab "C" "A"); apply list_elem_of_In; vm_compute; tauto.
Defined.

(** The keys of the first row of A are forgotten, and with them its conflict. *)
Example repeated_id_forgets :
  let rows := [mkTask "A" "" ["x.py"] [] [] []; mkTask "A" "" ["y.py"] [] [] []; mkTask "B" "" ["x.py"] [] [] []] in
  match conflict_lanes rows with Some lanes => dget "A" lanes ≠ dget "B" lanes | None => False end.
Proof. vm_compute. done. Qed.

(** A chain of conflicts, and a task on its own. *)
Example demo_lanes : match conflict_lanes demo_tasks with
  | Some lanes => dget "A" lanes = dget "C" lanes ∧ dget "A" lanes = dget "B" lanes ∧ dget "D" lanes ≠ dget "A" lanes
  | None => False end.
Proof. vm_compute. done. Qed.
