(* ===== verification/WorktreeQueue.v ===== *)
(** The worktree allocator and the composed merge queue (the class of
    [simplicio_loop/worktree_queue.py]), over the lanes of [ConflictLanes]. The
    state file, the receipts beside it and git are one world; git, the file
    system it works on, and the commands of a verification are parameters.
    Every method holds the file lock from its read to its write, so it is one
    step; a file that is not a valid state, and symbolic links, are left out. *)
From stdpp Require Import gmap.
From S2P Require Import Prelude PyLib PyText Effects ConflictLanes.
Import Json.
Local Open Scope Z_scope.
Local Open Scope py_scope.

(** * Definitions *)

Notation dict := (list (string * json)).

Definition SHARED_SCHEMA : string := "simplicio.shared-checkout-lock/v1".
Definition LEASE_SCHEMA : string := "simplicio.worktree-lease/v1".
Definition VERIFICATION_SCHEMA : string := "simplicio.composed-verification/v1".

(** ** Names *)

Definition slug_char (c : Ascii.ascii) : bool :=
  let n := Ascii.nat_of_ascii c in
  ((48 <=? n) && (n <=? 57) || (65 <=? n) && (n <=? 90) || (97 <=? n) && (n <=? 122) || (45 <=? n) && (n <=? 47) || (n =? 95))%nat.
Definition dash : Ascii.ascii := Ascii.ascii_of_nat 45.
Definition dot : Ascii.ascii := Ascii.ascii_of_nat 46.

(** [re.sub(r"[^A-Za-z0-9._/-]+", "-", s)]; [cut] says that the character before was replaced. *)
Fixpoint replace_runs (cut : bool) (s : string) : string :=
  match s with
  | EmptyString => ""
  | String c s' => if slug_char c then String c (replace_runs false s') else if cut then replace_runs true s' else String dash (replace_runs true s')
  end.

(** [s.strip("-.")] *)
Definition dash_or_dot (c : Ascii.ascii) : bool := Ascii.eqb c dash || Ascii.eqb c dot.
Fixpoint lstrip_dash (s : string) : string :=
  match s with String c s' => if dash_or_dot c then lstrip_dash s' else s | EmptyString => "" end.
Fixpoint rstrip_dash (s : string) : string :=
  match s with
  | EmptyString => ""
  | String c s' => match rstrip_dash s' with EmptyString => if dash_or_dot c then "" else String c "" | r => String c r end
  end.

(** [_slug] *)
Definition slug (value : string) : string :=
  let text := replace_runs false (if Str.truthy value then value else "task") in
  let text := lstrip_dash (rstrip_dash (Text.replace Text.slash dash text)) in
  String.substring 0 80 (if Str.truthy text then text else "task").

(** [needle in hay] *)
Fixpoint contains (needle hay : string) : bool :=
  String.prefix needle hay || match hay with EmptyString => false | String _ hay' => contains needle hay' end.

(** ** The world *)

(** A failed git command, or one that could not be run. *)
Inductive GitErr : Type := GitFailed (msg : string) | GitOsError (msg : string).
Definition git_msg (e : GitErr) : string := match e with GitFailed m | GitOsError m => m end.

Class Git (W : Type) : Type := {
  rev_parse : string → string → W → result GitErr string;     (* ref, cwd *)
  tree_sha_of : string → W → result GitErr string;            (* cwd *)
  porcelain : string → W → result GitErr string;              (* cwd *)
  isdir : string → W → bool;
  worktree_add_branch : string → string → string → W → W * result GitErr unit;   (* branch, path, base *)
  worktree_add : string → string → W → W * result GitErr unit;                   (* path, branch *)
  worktree_remove : string → W → W * result GitErr unit;
  branch_delete : string → W → W * result GitErr unit;
}.

Record State := mkState {
  base_sha : string;
  tasks : gmap string dict;
  lanes : gmap string string;
  merge_queue : list dict;
  receipts : list dict }.
#[export] Instance State_eta : Eta State := λ s, mkState (base_sha s) (tasks s) (lanes s) (merge_queue s) (receipts s).
Definition new_state : State := mkState "" ∅ ∅ [] [].

(** The state file, the files beside it, git, and how often the clock was read. *)
Record World (W : Type) := mkWorld { state : State; files : gmap string dict; git : W; ticks : nat }.
Arguments mkWorld {W}.
Arguments state {W}.
Arguments files {W}.
Arguments git {W}.
Arguments ticks {W}.
#[export] Instance World_eta W : Eta (World W) := λ w, mkWorld (state w) (files w) (git w) (ticks w).

(** The fields of a [WorktreeQueue]; [state_dir] is the directory of its state file. *)
Record Queue := mkQueue { repo_root : string; run_id : string; state_dir : string; worktree_root : string }.

Inductive QueueExn : Type :=
| ValueError (msg : string)
| KeyError (msg : string)
| RuntimeError (msg : string)
| GitRaised (e : GitErr).

Record Allocation := mkAllocation {
  a_task_id : string; a_run_id : string; a_mode : string; a_path : string; a_branch : string; a_base_sha : string; a_head_sha : string;
  a_tree_sha : string; a_lane : string; a_reattached : bool; a_lock_receipt : json; a_worktree_id : string; a_terminal_handle : string; a_lease_owner : string }.

Record CleanupReport := mkReport { r_task_id : string; r_removed : bool; r_failures : list string; r_path : string; r_branch : string }.

(** [a or b] for a text that may be missing. *)
Definition given (o : option string) : string := default "" o.
Definition or_text (a b : string) : string := if Str.truthy a then a else b.
Definition sub_dict (key : string) (d : dict) : dict := match Val.get key d with Obj x => x | _ => [] end.
Definition join2 (a b : string) : string := a +:+ "/" +:+ b.
Definition set_default (k : string) (v : json) (d : dict) : dict := match dget k d with Some _ => d | None => dput k v d end.
Definition status_of (d : dict) : json := Val.get "status" d.
Definition is_status (s : string) (d : dict) : bool := Val.eq (status_of d) (Str s).
(** [d1.update(d2)] *)
Definition update (d1 d2 : dict) : dict := foldl (λ d kv, dput kv.1 kv.2 d) d1 d2.
(** [{**body, "receipt_sha": _sha256(body)}] *)
Definition seal (body : dict) : dict := dput "receipt_sha" (Str (sha256_json (Obj body))) body.

(** The lanes of [conflict_lanes], which always returns. *)
Definition lanes_of (rows : list TaskSpec) : list (string * string) := default [] (conflict_lanes rows).

Section Queue.
Context {W : Type} `{Git W} (q : Queue) (now_text : nat → string).
Notation P := (prog (World W) QueueExn).

Definition now : P string := λ w, (w <| ticks := S (ticks w) |>, Ok (now_text (ticks w))).
Definition read : P State := λ w, (w, Ok (state w)).
Definition write (s : State) : P unit := λ w, (w <| state := s |>, Ok tt).
Definition write_file (path : string) (d : dict) : P unit := λ w, (w <| files := <[path := d]> (files w) |>, Ok tt).
Definition lift_git {A} (r : W → result GitErr A) : P A := λ w,
  (w, match r (git w) with Ok a => Ok a | Err e => Err (GitRaised e) end).
(** A git command that changes the repository. *)
Definition run_git (f : W → W * result GitErr unit) : P (result GitErr unit) := λ w,
  let (g, r) := f (git w) in (w <| git := g |>, Ok r).
Definition git_state : P W := λ w, (w, Ok (git w)).
Definition of_lock : P (gmap string dict) := λ w, (w, Ok (files w)).

Definition sha (ref cwd : string) : P string := lift_git (rev_parse ref cwd).
Definition tree_sha (cwd : string) : P string := lift_git (tree_sha_of cwd).
Definition branch_path (task_id : string) : string := join2 (worktree_root q) (slug task_id).
Definition branch_name (task_id : string) : string := "simplicio/" +:+ run_id q +:+ "/" +:+ slug task_id.
Definition worktree_id_of (task_id : string) : string := run_id q +:+ ":" +:+ slug task_id.

(** [base_sha or state.get("base_sha") or self._sha()], and the check that follows. *)
Definition frozen_base (s : State) (given_base : option string) : P string :=
  base ← (if Str.truthy (given given_base) then mret (given given_base)
          else if Str.truthy (base_sha s) then mret (base_sha s) else sha "HEAD" (repo_root q));
  _ ← raise_if (Str.truthy (base_sha s) && Str.truthy (given given_base) && negb (String.eqb (base_sha s) (given given_base)))
        (ValueError ("frozen base SHA mismatch: " +:+ given given_base +:+ " != " +:+ base_sha s));
  mret base.

(** ** Registration *)

Definition register_one (lane_map : list (string * string)) (t : TaskSpec) (s : State) : P State :=
  created ← now;
  let entry := default [("task_id", Str (id t)); ("run_id", Str (run_id q)); ("status", Str "planned"); ("mode", Str "worktree"); ("created_at", Str created)]
                 (tasks s !! id t) in
  let entry := dput "goal" (Str (goal t)) (dput "lane" (Str (default "" (dget (id t) lane_map)))
                 (dput "conflict_keys" (List (Str <$> conflict_keys t)) entry)) in
  mret (s <| tasks := <[id t := entry]> (tasks s) |>).
Fixpoint register_all (lane_map : list (string * string)) (rows : list TaskSpec) (s : State) : P State :=
  match rows with
  | [] => mret s
  | t :: rows' => s' ← register_one lane_map t s; register_all lane_map rows' s'
  end.

Definition register_tasks (rows : list TaskSpec) (given_base : option string) : P (list (string * string)) :=
  let lane_map := lanes_of rows in
  s ← read;
  base ← frozen_base s given_base;
  let s := s <| base_sha := or_text (base_sha s) base |> in
  let s := s <| lanes := foldl (λ m kv, <[kv.1 := kv.2]> m) (lanes s) lane_map |> in
  s ← register_all lane_map rows s;
  _ ← write s;
  mret lane_map.

(** ** Allocation *)

Definition held_lease (at_ : string) : json :=
  Obj [("schema", Str LEASE_SCHEMA); ("owner", Str (run_id q)); ("status", Str "held"); ("acquired_at", Str at_)].

(** [_entry] *)
Definition make_entry (t : TaskSpec) (path branch base head tree lane mode : string) (lock_receipt : json) : P dict :=
  created ← now;
  acquired ← now;
  mret [("task_id", Str (id t)); ("run_id", Str (run_id q)); ("mode", Str mode); ("path", Str path); ("branch", Str branch);
        ("base_sha", Str base); ("head_sha", Str head); ("tree_sha", Str tree); ("lane", Str lane); ("status", Str "allocated");
        ("owned", Bool true); ("created_at", Str created); ("lock_receipt", lock_receipt); ("conflict_keys", List (Str <$> conflict_keys t));
        ("worktree_id", Str (worktree_id_of (id t))); ("terminal_handle", Str ""); ("lease", held_lease acquired)].

(** [_allocation_from_entry] *)
Definition allocation_from_entry (e : dict) (reattached : bool) : Allocation :=
  mkAllocation (Val.str (Val.get "task_id" e)) (Val.str (Val.or_else (Val.get "run_id" e) (Str (run_id q))))
    (Val.str (Val.or_else (Val.get "mode" e) (Str "worktree"))) (Val.text (Val.get "path" e)) (Val.text (Val.get "branch" e)) (Val.text (Val.get "base_sha" e))
    (Val.text (Val.get "head_sha" e)) (Val.text (Val.get "tree_sha" e)) (Val.text (Val.get "lane" e)) reattached (Val.get "lock_receipt" e)
    (Val.text (Val.get "worktree_id" e)) (Val.text (Val.get "terminal_handle" e)) (Val.text (Val.get "owner" (sub_dict "lease" e))).

Definition lock_file : string := join2 (join2 (join2 (state_dir q) "shared-locks") (run_id q)) "shared-checkout.lock.json".

(** The lock is this task's: its hash, run, task and repository fit. *)
Definition owns_lock (task_id : string) (d : dict) : bool :=
  let supplied := Val.str (Val.get_or "receipt_sha" d (Str "")) in
  let body := ddel "receipt_sha" d in
  Str.truthy supplied && String.eqb supplied (sha256_json (Obj body)) && Val.eq (Val.get "run_id" body) (Str (run_id q))
    && Val.eq (Val.get "task_id" body) (Str task_id) && Val.eq (Val.get "repo_root" body) (Str (repo_root q)).

(** [_acquire_shared_receipt] *)
Definition acquire_shared_receipt (task_id : string) : P string :=
  fs ← of_lock;
  match fs !! lock_file with
  | Some old => if owns_lock task_id old then mret lock_file else raise (RuntimeError ("shared checkout lock is already owned: " +:+ lock_file))
  | None =>
      at_ ← now;
      _ ← write_file lock_file (seal [("schema", Str SHARED_SCHEMA); ("task_id", Str task_id); ("run_id", Str (run_id q));
            ("repo_root", Str (repo_root q)); ("acquired_at", Str at_)]);
      mret lock_file
  end.

(** [git worktree add], with the branch when it does not exist yet. *)
Definition add_worktree (branch path base : string) : P unit :=
  r ← run_git (worktree_add_branch branch path base);
  match r with
  | Ok _ => mret tt
  | Err (GitOsError m) => raise (GitRaised (GitOsError m))
  | Err (GitFailed m) =>
      if negb (contains "already exists" (Str.lower m)) then raise (GitRaised (GitFailed m))
      else
        g ← git_state;
        if isdir path g then raise (GitRaised (GitFailed m))
        else
          r ← run_git (worktree_add path branch);
          match r with Ok _ => mret tt | Err e => raise (GitRaised e) end
  end.

(** An entry that can be attached to again, and its path. *)
Definition attachable (e : option dict) : option (dict * string) :=
  match e with
  | Some e =>
      if negb (is_status "cleaned" e) && negb (is_status "cleanup-failed" e) && Val.truthy (Val.get "path" e) && Val.truthy (Val.get "branch" e)
      then Some (e, Val.text (Val.get "path" e)) else None
  | None => None
  end.

Definition reattach (task_id : string) (e : dict) (s : State) : P Allocation :=
  acquired ← now;
  let e := set_default "lease" (held_lease acquired) (set_default "terminal_handle" (Str "") (set_default "worktree_id" (Str (worktree_id_of task_id)) e)) in
  seen ← now;
  _ ← write (s <| tasks := <[task_id := dput "last_seen_at" (Str seen) e]> (tasks s) |>);
  mret (allocation_from_entry e true).

Definition allocate_new (t : TaskSpec) (s : State) (base lane isolation : string) : P Allocation :=
  entry ←
    (if String.eqb isolation "shared" then
       lock ← acquire_shared_receipt (id t);
       head ← sha "HEAD" (repo_root q);
       tree ← tree_sha (repo_root q);
       make_entry t (repo_root q) (branch_name (id t)) base head tree lane "shared" (Str lock)
     else
       let path := branch_path (id t) in
       _ ← add_worktree (branch_name (id t)) path base;
       head ← sha "HEAD" path;
       tree ← tree_sha path;
       make_entry t path (branch_name (id t)) base head tree lane "worktree" Null);
  _ ← write (s <| tasks := <[id t := entry]> (tasks s) |>);
  mret (allocation_from_entry entry false).

Definition allocate (t : TaskSpec) (given_base : option string) (isolation : string) (shared_policy : bool) : P Allocation :=
  _ ← raise_if (negb (Str.truthy (id t))) (ValueError "task id is required");
  _ ← raise_if (negb (bool_decide (isolation ∈ ["worktree"; "shared"]))) (ValueError "isolation must be 'worktree' or 'shared'");
  _ ← raise_if (String.eqb isolation "shared" && negb shared_policy) (ValueError "shared checkout requires explicit shared_policy=True");
  s ← read;
  base ← frozen_base s given_base;
  let s := s <| base_sha := or_text (base_sha s) base |> in
  let lane := or_text (given (lanes s !! id t)) (given (dget (id t) (lanes_of [t]))) in
  let s := s <| lanes := <[id t := lane]> (lanes s) |> in
  g ← git_state;
  match attachable (tasks s !! id t) with
  | Some (e, path) => if isdir path g then reattach (id t) e s else allocate_new t s base lane isolation
  | None => allocate_new t s base lane isolation
  end.

(** [tasks.get(task_id)], which is falsy when it is empty. *)
Definition entry_of (s : State) (task_id : string) : P dict :=
  match tasks s !! task_id with
  | Some (kv :: e) => mret (kv :: e)
  | _ => raise (KeyError ("unknown task: " +:+ task_id))
  end.
Definition path_of (e : dict) : string := or_text (Val.text (Val.get "path" e)) (repo_root q).
Definition put_entry (task_id : string) (e : dict) (s : State) : State := s <| tasks := <[task_id := e]> (tasks s) |>.

Definition snapshot (task_id : string) : P Allocation :=
  s ← read;
  e ← entry_of s task_id;
  head ← sha "HEAD" (path_of e);
  tree ← tree_sha (path_of e);
  seen ← now;
  let e := dput "last_seen_at" (Str seen) (dput "tree_sha" (Str tree) (dput "head_sha" (Str head) e)) in
  _ ← write (put_entry task_id e s);
  mret (allocation_from_entry e false).

Definition record_context (task_id : string) (context : dict) : P dict :=
  let task_id := Str.strip task_id in
  _ ← raise_if (negb (Str.truthy task_id)) (ValueError "task_id is required");
  let payload := set_default "task_id" (Str task_id) (set_default "schema" (Str "simplicio.operator-worktree-context/v1") context) in
  s ← read;
  e ← entry_of s task_id;
  let e := dput "operator_context" (Obj payload) e in
  let e := dput "terminal_handle" (Str (Val.text (Val.or_else (Val.get "terminal_handle" payload) (Val.get "terminal_handle" e)))) e in
  let lease := sub_dict "lease" e in
  at_ ← now;
  let owner := Val.str (Val.or_else (Val.or_else (Val.get "lease_owner" payload) (Val.get "owner" lease)) (Str (run_id q))) in
  let status := if Val.truthy (Val.get_or "active" payload (Bool true)) then "active" else "released" in
  let lease := update lease [("schema", Str LEASE_SCHEMA); ("owner", Str owner); ("status", Str status); ("updated_at", Str at_)] in
  recorded ← now;
  _ ← write (put_entry task_id (dput "context_recorded_at" (Str recorded) (dput "lease" (Obj lease) e)) s);
  mret payload.

Definition record_generation_binding (task_id : string) (binding : dict) : P dict :=
  let task_id := Str.strip task_id in
  _ ← raise_if (negb (Str.truthy task_id)) (ValueError "task_id is required");
  _ ← raise_if (negb (Val.eq (Val.get "schema" binding) (Str "simplicio.loop.generation-binding/v1"))) (ValueError "unsupported generation binding schema");
  _ ← raise_if (negb (String.eqb (Val.text (Val.get "candidate_id" binding)) task_id)) (ValueError "generation binding candidate mismatch");
  _ ← raise_if (negb (Str.truthy (Val.text (Val.get "canonical_cache_key" binding)))) (ValueError "generation binding canonical cache key is required");
  _ ← raise_if (negb (Str.truthy (Val.text (Val.get "mapper_generation" binding))) || negb (Str.truthy (Val.text (Val.get "fast_generation" binding))))
        (ValueError "generation binding generations are required");
  _ ← raise_if (negb (Str.truthy (Val.text (Val.get "receipt_hash" binding)))) (ValueError "generation binding receipt hash is required");
  s ← read;
  e ← entry_of s task_id;
  let previous := Val.get "generation_binding" e in
  _ ← raise_if (negb (Val.is_none previous) && negb (Val.eq previous (Obj binding))) (ValueError "generation binding is already pinned differently");
  recorded ← now;
  _ ← write (put_entry task_id (dput "generation_recorded_at" (Str recorded) (dput "generation_binding_hash" (Str (Val.str (Val.get "receipt_hash" binding)))
        (dput "generation_binding" (Obj binding) e))) s);
  mret binding.

(** ** The merge queue *)

(** [_write_repair_handoff] *)
Definition handoff_file (task_id : string) : string := join2 (join2 (join2 (state_dir q) "handoff") (run_id q)) (slug task_id +:+ ".json").
Definition write_repair_handoff (candidate : dict) (task_id current_base : string) : P string :=
  at_ ← now;
  _ ← write_file (handoff_file task_id)
        [("schema", Str "simplicio.merge-repair-handoff/v1"); ("created_at", Str at_); ("task_id", Val.get "task_id" candidate);
         ("run_id", Str (run_id q)); ("branch", Val.get "branch" candidate); ("head_sha", Val.get "head_sha" candidate);
         ("frozen_base_sha", Val.get "base_sha" candidate); ("current_base_sha", Str current_base); ("reason_code", Str "base-drift")];
  mret (handoff_file task_id).

Definition bound_fields (binding : dict) : json :=
  Obj ((λ k, (k, Val.get k binding)) <$> ["schema"; "mapper_generation"; "fast_generation"; "canonical_cache_key"; "overlay_path"; "receipt_hash"]).

Definition same_candidate (task_id head : string) (x : dict) : bool :=
  Val.eq (Val.get "task_id" x) (Str task_id) && Val.eq (Val.get "head_sha" x) (Str head).

Definition enqueue_merge (task_id target_ref : string) : P dict :=
  s ← read;
  e ← entry_of s task_id;
  current_base ← sha target_ref (repo_root q);
  head ← sha "HEAD" (path_of e);
  queued ← now;
  let candidate := [("task_id", Str task_id); ("run_id", Str (run_id q)); ("branch", Val.get "branch" e); ("base_sha", Val.get "base_sha" e);
                    ("head_sha", Str head); ("target_ref", Str target_ref); ("queued_at", Str queued); ("status", Str "queued")] in
  candidate ←
    match Val.get "generation_binding" e with
    | Null => mret candidate
    | v =>
        let binding := match v with Obj b => b | _ => [] end in
        _ ← raise_if (negb (String.eqb (Val.text (Val.get "candidate_id" binding)) task_id)) (ValueError "generation binding candidate mismatch");
        mret (dput "generation_binding" (bound_fields binding) candidate)
    end;
  ce ← (if negb (Val.eq (Str current_base) (Val.get "base_sha" e)) then
          let candidate := dput "reason_code" (Str "base-drift") (dput "status" (Str "repair-required") candidate) in
          path ← write_repair_handoff candidate task_id current_base;
          mret (dput "repair_handoff" (Str path) candidate, dput "status" (Str "repair-required") e)
        else mret (candidate, dput "status" (Str "queued") e));
  let '(candidate, e) := ce in
  let queue := if existsb (same_candidate task_id head) (merge_queue s) then merge_queue s else merge_queue s ++ [candidate] in
  _ ← write (put_entry task_id e s <| merge_queue := queue |>);
  mret candidate.

(** The last candidate of the task, with its place. *)
Definition of_task (task_id : string) (x : dict) : bool := Val.eq (Val.get "task_id" x) (Str task_id).
Fixpoint last_candidate (task_id : string) (queue : list dict) : option (nat * dict) :=
  match queue with
  | [] => None
  | x :: queue' =>
      match last_candidate task_id queue' with
      | Some (i, y) => Some (S i, y)
      | None => if of_task task_id x then Some (0%nat, x) else None
      end
  end.

Definition receipt_file (task_id receipt_sha : string) : string :=
  join2 (join2 (join2 (state_dir q) "receipts") (run_id q)) (slug task_id +:+ "-" +:+ String.substring 0 12 receipt_sha +:+ ".json").

(** [state.get("receipts", [])[-1].get("receipt_sha") if state.get("receipts") else ""] *)
Definition previous_receipt (s : State) : json := match last (receipts s) with Some r => Val.get "receipt_sha" r | None => Str "" end.

Definition verification_body (task_id suite : string) (passed : bool) (cand e details : dict) (previous : json) (at_ : string) : dict :=
  [("schema", Str VERIFICATION_SCHEMA); ("task_id", Str task_id); ("run_id", Str (run_id q)); ("suite", Str suite); ("passed", Bool passed);
   ("branch", Val.get "branch" cand); ("base_sha", Val.get "base_sha" cand); ("head_sha", Val.get "head_sha" cand);
   ("worktree_path", Val.or_else (Val.get "path" e) (Str "")); ("lane", Val.or_else (Val.get "lane" e) (Str ""));
   ("tree_sha", Val.or_else (Val.get "tree_sha" e) (Str "")); ("details", Obj details); ("previous_receipt_sha", previous); ("recorded_at", Str at_)].

Definition record_composed_verification (task_id : string) (passed : bool) (suite : string) (details : dict) : P dict :=
  s ← read;
  e ← entry_of s task_id;
  match last_candidate task_id (merge_queue s) with
  | None => raise (ValueError ("task is not queued for merge: " +:+ task_id))
  | Some (i, cand) =>
      _ ← raise_if (negb (is_status "queued" cand)) (ValueError ("candidate is not merge-queued: " +:+ Val.str (status_of cand)));
      at_ ← now;
      let body := verification_body task_id suite passed cand e details (previous_receipt s) at_ in
      let receipt := seal body in
      let sha_ := sha256_json (Obj body) in
      let path := receipt_file task_id sha_ in
      _ ← write_file path receipt;
      let receipt := dput "path" (Str path) receipt in
      let verdict := Str (if passed then "accepted" else "verification-failed") in
      let cand := dput "receipt_path" (Str path) (dput "receipt_sha" (Str sha_) (dput "status" verdict cand)) in
      _ ← write (put_entry task_id (dput "status" verdict e) s <| merge_queue := <[i := cand]> (merge_queue s) |> <| receipts := receipts s ++ [receipt] |>);
      mret receipt
  end.

Definition composed_candidates (s : State) : list dict := List.filter (is_status "accepted") (merge_queue s).

(** What one command returned: its code and its text, or that it could not be run. *)
Inductive Outcome : Type := Returned (code : Z) (out err : string) | NotRun (msg : string).
Definition outcome_dict (argv : list string) (o : Outcome) : dict :=
  match o with
  | Returned code out err =>
      [("command", List (Str <$> argv)); ("returncode", Int code); ("stdout", Str out); ("stderr", Str err);
       ("output_sha", Str (sha256_json (Obj [("stdout", Str out); ("stderr", Str err)])))]
  | NotRun msg => [("command", List (Str <$> argv)); ("returncode", Int 124); ("stderr", Str msg)]
  end.
Definition code_of (o : Outcome) : Z := match o with Returned code _ _ => code | NotRun _ => 124 end.

(** [subprocess.run], which may change the worktree; texts are already cut to
    their last 4000 characters. *)
Context (run_command : list string → string → W → W * Outcome).

Definition run_one (cwd : string) (argv : list string) : P (Z * dict) :=
  match argv with
  | [] => mret (2, [("command", List []); ("returncode", Int 2); ("stderr", Str "empty command")])
  | _ => λ w, let (g, o) := run_command argv cwd (git w) in (w <| git := g |>, Ok (code_of o, outcome_dict argv o))
  end.
Fixpoint run_all (cwd : string) (commands : list (list string)) : P (list (Z * dict)) :=
  match commands with
  | [] => mret []
  | c :: commands' => o ← run_one cwd c; os ← run_all cwd commands'; mret (o :: os)
  end.

Definition run_composed_verification (task_id : string) (commands : list (list string)) (suite : string) : P dict :=
  s ← read;
  e ← entry_of s task_id;
  outcomes ← run_all (path_of e) commands;
  let passed := negb (bool_decide (outcomes = [])) && forallb (λ o, o.1 =? 0) outcomes in
  record_composed_verification task_id passed suite
    [("commands", List ((λ o, Obj o.2) <$> outcomes)); ("all_checks_passed", Bool passed)].

(** ** Cleanup *)

Definition missing_fields (payload : dict) : list string :=
  List.filter (λ k, bool_decide (dget k payload = None)) ["worktree_id"; "terminal_handle"; "lease_owner"; "cleanup_decision"; "reason"].

Definition record_cleanup_receipt (task_id : string) (receipt : dict) : P dict :=
  let missing := missing_fields receipt in
  _ ← raise_if (negb (bool_decide (missing = []))) (ValueError ("cleanup receipt missing: " +:+ Text.join "," missing));
  _ ← raise_if (negb (Val.eq (Val.get "cleanup_decision" receipt) (Str "cleanup"))) (ValueError "cleanup receipt decision must be cleanup");
  let payload := seal (dput "task_id" (Str task_id) (set_default "schema" (Str "simplicio.worktree-cleanup-receipt/v1") receipt)) in
  s ← read;
  e ← entry_of s task_id;
  _ ← raise_if (negb (String.eqb (Val.str (Val.get "worktree_id" payload)) (Val.text (Val.get "worktree_id" e)))) (ValueError "cleanup receipt worktree_id mismatch");
  _ ← raise_if (negb (String.eqb (Val.str (Val.get "lease_owner" payload)) (Val.text (Val.get "owner" (sub_dict "lease" e))))) (ValueError "cleanup receipt lease_owner mismatch");
  _ ← raise_if (negb (String.eqb (Val.str (Val.get "terminal_handle" payload)) (Val.text (Val.get "terminal_handle" e)))) (ValueError "cleanup receipt terminal_handle mismatch");
  _ ← write (put_entry task_id (dput "cleanup_receipt_sha" (Val.get "receipt_sha" payload) (dput "cleanup_receipt" (Obj payload) e)) s);
  mret payload.

Definition failed (prefix : string) (e : GitErr) : string := prefix +:+ git_msg e.

(** What keeps a worktree from being removed. *)
Definition is_active (e : dict) : bool :=
  String.eqb (Str.lower (Val.text (Val.get "status" (sub_dict "lease" e)))) "active"
    || match Val.get "active" (sub_dict "operator_context" e) with Bool b => b | _ => false end.
Definition blockers (e : dict) (g : W) : list string :=
  let path := Val.text (Val.get "path" e) in
  let failures := if is_active e then ["active-worktree"] else [] in
  let failures :=
    if Str.truthy path && isdir path g && bool_decide (failures = []) then
      match porcelain path g with
      | Ok out => if Str.truthy out then failures ++ ["uncommitted-changes"] else failures
      | Err x => failures ++ [failed "status-unavailable: " x]
      end
    else failures in
  if negb (bool_decide (sub_dict "operator_context" e = [])) && bool_decide (failures = []) && negb (Val.truthy (Val.get "cleanup_receipt" e))
  then failures ++ ["missing-cleanup-receipt"] else failures.

(** The lock of a shared checkout is given back by the task that holds it. *)
Definition lock_failures (task_id : string) (d : dict) : list string :=
  let supplied := Val.str (Val.get_or "receipt_sha" d (Str "")) in
  let body := ddel "receipt_sha" d in
  if negb (Str.truthy supplied) || negb (String.eqb supplied (sha256_json (Obj body))) then ["lock-receipt-hash-mismatch"]
  else if negb (Val.eq (Val.get "run_id" body) (Str (run_id q))) || negb (Val.eq (Val.get "task_id" body) (Str task_id))
          || negb (Val.eq (Val.get "repo_root" body) (Str (repo_root q))) then ["lock-receipt-owner-mismatch"]
  else [].
Definition remove_file (path : string) : P unit := λ w, (w <| files := base.delete path (files w) |>, Ok tt).
Definition release_lock (task_id : string) (e : dict) : P (list string) :=
  let receipt := Val.text (Val.get "lock_receipt" e) in
  fs ← of_lock;
  match fs !! receipt with
  | Some d =>
      if negb (Str.truthy receipt) then mret []
      else if negb (String.eqb (Text.normpath receipt) (Text.normpath lock_file)) then mret ["lock-receipt-path-not-owned"]
      else
        match lock_failures task_id d with
        | [] => _ ← remove_file receipt; mret []
        | failures => mret failures
        end
  | None => mret []
  end.
Definition remove_worktree (path : string) : P (list string) :=
  g ← git_state;
  if negb (String.prefix (Text.normpath (worktree_root q) +:+ "/") (Text.normpath path)) then mret ["path-not-owned"]
  else if isdir path g then
    r ← run_git (worktree_remove path);
    mret match r with Ok _ => [] | Err x => [failed "worktree-remove: " x] end
  else mret [].
Definition remove_branch (branch : string) : P (list string) :=
  r ← run_git (branch_delete branch);
  match r with
  | Ok _ => mret []
  | Err (GitFailed m) => mret ["branch-remove: " +:+ m]
  | Err (GitOsError m) => raise (GitRaised (GitOsError m))
  end.

Definition closed (status : string) (failures : list string) (task_id : string) (e : dict) (s : State) : P unit :=
  at_ ← now;
  write (put_entry task_id (dput "cleanup_failures" (List (Str <$> failures)) (dput "cleanup_at" (Str at_) (dput "status" (Str status) e))) s).

Definition teardown (task_id : string) (delete_branch : bool) : P CleanupReport :=
  s ← read;
  match tasks s !! task_id with
  | None | Some [] => mret (mkReport task_id false ["unknown-task"] "" "")
  | Some e =>
      let path := Val.text (Val.get "path" e) in
      let branch := Val.text (Val.get "branch" e) in
      g ← git_state;
      match blockers e g with
      | f :: fs =>
          _ ← closed "cleanup-blocked" (f :: fs) task_id e s;
          mret (mkReport task_id false (f :: fs) path branch)
      | [] =>
          failures ← (if Val.eq (Val.get "mode" e) (Str "shared") then release_lock task_id e
                      else if Str.truthy path then remove_worktree path else mret []);
          more ← (if delete_branch && String.prefix ("simplicio/" +:+ run_id q +:+ "/") branch then remove_branch branch else mret []);
          let failures := failures ++ more in
          _ ← closed (if bool_decide (failures = []) then "cleaned" else "cleanup-failed") failures task_id e s;
          mret (mkReport task_id (bool_decide (failures = [])) failures path branch)
      end
  end.

(** [cleanup_orphans]: in the order of the names, by the state read first. *)
Definition orphans (s : State) (task_ids : list string) : list string :=
  let wanted := if bool_decide (task_ids = []) then (map_to_list (tasks s)).*1 else task_ids in
  List.filter (λ i, bool_decide (i ∈ wanted) && match tasks s !! i with
    | Some e => Val.truthy (Val.get "owned" e) && negb (is_status "cleaned" e) | None => false end) (py_sorted (map_to_list (tasks s)).*1).
Fixpoint teardown_all (ids : list string) : P (list CleanupReport) :=
  match ids with
  | [] => mret []
  | i :: ids' => r ← teardown i false; rs ← teardown_all ids'; mret (r :: rs)
  end.
Definition cleanup_orphans (task_ids : list string) : P (list CleanupReport) :=
  s ← read;
  teardown_all (orphans s task_ids).

(** ** What callers do with a queue, whatever it raises *)
Inductive Call : Type :=
| RegisterTasks (rows : list TaskSpec) (given_base : option string)
| Allocate (t : TaskSpec) (given_base : option string) (isolation : string) (shared_policy : bool)
| Snapshot (task_id : string)
| RecordContext (task_id : string) (context : dict)
| RecordGenerationBinding (task_id : string) (binding : dict)
| EnqueueMerge (task_id target_ref : string)
| RecordComposedVerification (task_id : string) (passed : bool) (suite : string) (details : dict)
| RunComposedVerification (task_id : string) (commands : list (list string)) (suite : string)
| RecordCleanupReceipt (task_id : string) (receipt : dict)
| Teardown (task_id : string) (delete_branch : bool)
| CleanupOrphans (task_ids : list string).

Definition discard {A} (m : P A) : P unit := _ ← m; mret tt.
Definition perform (c : Call) : P unit :=
  match c with
  | RegisterTasks rows b => discard (register_tasks rows b)
  | Allocate t b i p => discard (allocate t b i p)
  | Snapshot k => discard (snapshot k)
  | RecordContext k c => discard (record_context k c)
  | RecordGenerationBinding k b => discard (record_generation_binding k b)
  | EnqueueMerge k r => discard (enqueue_merge k r)
  | RecordComposedVerification k p s d => discard (record_composed_verification k p s d)
  | RunComposedVerification k cs s => discard (run_composed_verification k cs s)
  | RecordCleanupReceipt k r => discard (record_cleanup_receipt k r)
  | Teardown k d => discard (teardown k d)
  | CleanupOrphans ks => discard (cleanup_orphans ks)
  end.
(** Between two calls, git and the file system may change. *)
Definition after (cs : list (Call * (W → W))) (w : World W) : World W :=
  foldl (λ w cf, (perform cf.1 (w <| git := cf.2 (git w) |>)).1) w cs.
End Queue.

(** ** Specification *)

(** What git promises: an object that is found has a name. *)
Definition git_names {W} `{Git W} : Prop := ∀ ref cwd g h, rev_parse ref cwd g = Ok h → h ≠ "".

(** The base of an entry, once allocated, is the frozen one. *)
Definition entry_ok (base : string) (e : dict) : Prop := Val.get "base_sha" e = Null ∨ (base ≠ "" ∧ Val.get "base_sha" e = Str base).

(** The receipt of a verification of exactly this candidate. *)
Definition verdict_of (r c : dict) : Prop :=
  Val.get "receipt_sha" r = Val.get "receipt_sha" c ∧ Val.get "task_id" r = Val.get "task_id" c ∧
  Val.get "head_sha" r = Val.get "head_sha" c ∧ Val.get "base_sha" r = Val.get "base_sha" c.

(** A candidate that drifted waits for repair; any other is on the frozen base,
    and is judged by a receipt. *)
Definition candidate_ok (s : State) (c : dict) : Prop :=
  is_status "repair-required" c = true ∨
  (base_sha s ≠ "" ∧ Val.get "base_sha" c = Str (base_sha s) ∧
   (is_status "queued" c = true ∨
    ∃ r, r ∈ receipts s ∧ verdict_of r c ∧
      (is_status "accepted" c = true ∧ Val.get "passed" r = Bool true ∨ is_status "verification-failed" c = true ∧ Val.get "passed" r = Bool false))).

(** The receipts are a chain: each has its own hash and that of the one before. *)
Definition receipt_ok (previous : json) (r : dict) : Prop :=
  Val.get "previous_receipt_sha" r = previous ∧
  Val.get "receipt_sha" r = Str (sha256_json (Obj (ddel "receipt_sha" (ddel "path" r)))).
Fixpoint chain_ok (previous : json) (rs : list dict) : Prop :=
  match rs with
  | [] => True
  | r :: rs' => receipt_ok previous r ∧ chain_ok (Val.get "receipt_sha" r) rs'
  end.

Definition identity_of (c : dict) : json * json := (Val.get "task_id" c, Val.get "head_sha" c).

(** What no call undoes: a base that is frozen, receipts that were recorded,
    and candidates that were judged or wait for repair. *)
Record kept (s s' : State) : Prop := {
  kept_base : base_sha s ≠ "" → base_sha s' = base_sha s;
  kept_receipts : receipts s `prefix_of` receipts s';
  kept_verdicts : ∀ i c, merge_queue s !! i = Some c → is_status "queued" c = false → merge_queue s' !! i = Some c;
}.

Record queue_ok (s : State) : Prop := {
  ok_entries : ∀ k e, tasks s !! k = Some e → entry_ok (base_sha s) e;
  ok_candidates : ∀ c, c ∈ merge_queue s → candidate_ok s c;
  ok_unique : NoDup (identity_of <$> merge_queue s);
  ok_chain : chain_ok (Str "") (receipts s);
}.

Definition grows (s s' : State) : Prop := queue_ok s' ∧ kept s s'.
(** Started in the state [s], the program leaves one that is in order and keeps what was recorded. *)
Definition good {W A} (s : State) (m : prog (World W) QueueExn A) : Prop := ∀ w : World W, state w = s → grows s (state (m w).1).

(** *** Where an accepted candidate comes from *)
Section Origin.
Context {W : Type} `{Git W} (q : Queue) (now_text : nat → string) (run_command : list string → string → W → W * Outcome).

(** The commands, run one after the other in [cwd], all return 0; an empty one does not. *)
Fixpoint all_pass (cwd : string) (commands : list (list string)) (g : W) : bool :=
  match commands with
  | [] => true
  | [] :: _ => false
  | argv :: commands' => let (g', o) := run_command argv cwd g in (code_of o =? 0) && all_pass cwd commands' g'
  end.

(** A call that finds for the task [k]: it runs commands, at least one, in the
    worktree of the task, and all return 0; or its caller says that it passed. *)
Definition passes (g : W) (s : State) (k : string) (call : Call) : Prop :=
  match call with
  | RunComposedVerification k' commands _ =>
      k' = k ∧ commands ≠ [] ∧ ∃ e, tasks s !! k = Some e ∧ all_pass (path_of q e) commands g = true
  | RecordComposedVerification k' passed _ _ => k' = k ∧ passed = true
  | _ => False
  end.

(** In the repository [g] the worktree of the task [k] is at the candidate's
    commit, and the target at its base. *)
Definition queued_at (g : W) (s : State) (k ref : string) (x : dict) : Prop :=
  ∃ e h b, tasks s !! k = Some e ∧ rev_parse "HEAD" (path_of q e) g = Ok h ∧ rev_parse ref (repo_root q) g = Ok b ∧
    Val.get "task_id" x = Str k ∧ Val.get "head_sha" x = Str h ∧ Val.get "base_sha" x = Str b.

(** The same moments in a history: each is a call, with what came before it. *)
Definition moment (cs : list (Call * (W → W))) (w : World W) (call : Call) (before : list (Call * (W → W))) (g : W) : Prop :=
  ∃ f later, cs = before ++ (call, f) :: later ∧ g = f (git (after q now_text run_command before w)).
Definition was_queued (cs : list (Call * (W → W))) (w : World W) (x : dict) : Prop :=
  ∃ k ref before g, moment cs w (EnqueueMerge k ref) before g ∧ queued_at g (state (after q now_text run_command before w)) k ref x.
Definition was_verified (cs : list (Call * (W → W))) (w : World W) (x : dict) : Prop :=
  ∃ k call before g, moment cs w call before g ∧ Val.get "task_id" x = Str k ∧
    was_queued before w x ∧ passes g (state (after q now_text run_command before w)) k call.

(** What a call makes of the merge queue: nothing, a candidate more, or a
    verdict on one that is queued. *)
Inductive requeued (g : W) (s : State) (call : Call) : list dict → Prop :=
| rq_same : requeued g s call (merge_queue s)
| rq_queued k ref x : call = EnqueueMerge k ref → is_status "repair-required" x = true ∨ queued_at g s k ref x ∧ is_status "queued" x = true →
    requeued g s call (merge_queue s ++ [x])
| rq_judged k i x x' : merge_queue s !! i = Some x → is_status "queued" x = true → Val.get "task_id" x = Str k →
    identity_of x' = identity_of x → Val.get "base_sha" x' = Val.get "base_sha" x →
    is_status "verification-failed" x' = true ∨ passes g s k call → requeued g s call (<[i := x']> (merge_queue s)).
End Origin.

(** ** An example *)

(** A repository: the commit of the target, and the worktrees with theirs. *)
Record Repo := mkRepo { target : string; worktrees : list (string * string) }.
Definition demo_root : string := "/repo".
Definition named (h : string) : result GitErr string := if String.eqb h "" then Err (GitFailed "unknown revision") else Ok h.
#[export] Instance demo_git : Git Repo := {|
  rev_parse ref cwd g := if String.eqb cwd demo_root then named (target g) else named (default "" (dget cwd (worktrees g)));
  tree_sha_of cwd g := Ok "tree";
  porcelain path g := Ok "";
  isdir path g := String.eqb path demo_root || bool_decide (is_Some (dget path (worktrees g)));
  worktree_add_branch branch path base g :=
    if bool_decide (is_Some (dget path (worktrees g))) then (g, Err (GitFailed ("fatal: '" +:+ path +:+ "' already exists")))
    else (mkRepo (target g) (dput path base (worktrees g)), Ok tt);
  worktree_add path branch g := (g, Ok tt);
  worktree_remove path g := (mkRepo (target g) (ddel path (worktrees g)), Ok tt);
  branch_delete branch g := (g, Ok tt) |}.

Definition demo_queue : Queue := mkQueue demo_root "run" "/repo/.simplicio" "/repo/.simplicio/worktrees/run".
Definition demo_now (n : nat) : string := "2026-01-01T00:00:00Z".
Definition demo_run (argv : list string) (cwd : string) (g : Repo) : Repo * Outcome := (g, Returned (if bool_decide (argv = ["true"]) then 0 else 1) "" "").
Definition demo_world : World Repo := mkWorld new_state ∅ (mkRepo "base1" []) 0.
Definition same (g : Repo) : Repo := g.
(** The worker of [task] commits; the target moves. *)
Definition commits (task h : string) (g : Repo) : Repo := mkRepo (target g) (dput (branch_path demo_queue task) h (worktrees g)).
Definition moves_to (h : string) (g : Repo) : Repo := mkRepo h (worktrees g).
Definition task_a : TaskSpec := mkTask "A" "" ["src/a.py"] [] [] [].
Definition task_b : TaskSpec := mkTask "B" "" ["src/a.py"] [] [] [].
Definition demo_after : list (Call * (Repo → Repo)) → World Repo → World Repo := after demo_queue demo_now demo_run.

Definition demo_queued : World Repo := Eval vm_compute in demo_after [(Allocate task_a None "worktree" false, same); (EnqueueMerge "A" "HEAD", commits "A" "head1")] demo_world.
Definition demo_accepted : World Repo := Eval vm_compute in demo_after [(RunComposedVerification "A" [["true"]] "composed", same)] demo_queued.
Definition demo_candidate : dict := Eval vm_compute in default [] (head (merge_queue (state demo_accepted))).
Definition demo_calls : list (Call * (Repo → Repo)) :=
  [(Allocate task_a None "worktree" false, same); (EnqueueMerge "A" "HEAD", commits "A" "head1"); (RunComposedVerification "A" [["true"]] "composed", same)].
Definition demo_shared : World Repo := Eval vm_compute in demo_after [(Allocate task_a None "shared" true, same)] demo_world.
Definition demo_lock : dict := Eval vm_compute in default [] (files demo_shared !! lock_file demo_queue).
(** Its operator is still at work in the worktree of A. *)
Definition demo_busy : World Repo := Eval vm_compute in demo_after [(RecordContext "A" [("terminal_handle", Str "t1")], same)] demo_accepted.
Definition demo_entry : dict := Eval vm_compute in default [] (tasks (state demo_busy) !! "A").

(** * Lemmas *)

(** ** Fields *)

(** Fields that are read after others were set. *)
Ltac fields := repeat (rewrite Val.get_put_ne by done); rewrite ?Val.get_put_eq.

Lemma get_set_default k k' v d : k ≠ k' → Val.get k (set_default k' v d) = Val.get k d.
Proof. intros Hne. unfold set_default. destruct (dget k' d); [done|]. by rewrite Val.get_put_ne. Qed.

Lemma entry_ok_put base k v e : k ≠ "base_sha" → entry_ok base e → entry_ok base (dput k v e).
Proof. intros Hk. unfold entry_ok. by rewrite !Val.get_put_ne. Qed.
Lemma entry_ok_default base k v e : k ≠ "base_sha" → entry_ok base e → entry_ok base (set_default k v e).
Proof. intros Hk. unfold entry_ok. by rewrite !get_set_default. Qed.
Lemma entry_ok_base base base' e : base = "" ∨ base = base' → entry_ok base e → entry_ok base' e.
Proof. unfold entry_ok. intros [->| ->]; [intros [?|[? _]]; [by left|done]|done]. Qed.
Hint Resolve entry_ok_put entry_ok_default : py.

Lemma is_status_put s v d : is_status s (dput "status" v d) = Val.eq v (Str s).
Proof. unfold is_status, status_of. by rewrite Val.get_put_eq. Qed.
Lemma is_status_ne s k v d : k ≠ "status" → is_status s (dput k v d) = is_status s d.
Proof. intros Hk. unfold is_status, status_of. by rewrite Val.get_put_ne. Qed.

Lemma seal_body body : dget "receipt_sha" body = None → ddel "receipt_sha" (seal body) = body.
Proof. intros Hn. unfold seal. rewrite dput_new by by apply dget_None. apply ddel_snoc. by apply dget_None. Qed.

(** ** States *)

(** What the invariant needs of a change that leaves the queue alone. *)
Lemma queue_ok_tasks s base ts ls : queue_ok s → base_sha s = "" ∨ base_sha s = base →
  (∀ k e, ts !! k = Some e → entry_ok base e) → queue_ok (mkState base ts ls (merge_queue s) (receipts s)).
Proof.
  intros [H1 H2 H3 H4] Hb Hts. constructor; cbn; [done| |done|done].
  intros c Hc. destruct (H2 c Hc) as [?|(Hne & Hbase & Hrest)]; [by left|right]. destruct Hb as [Hb|Hb]; [done|]. cbn. rewrite <- Hb. done.
Qed.

Lemma queue_ok_entry s k e : queue_ok s → entry_ok (base_sha s) e → queue_ok (put_entry k e s).
Proof.
  intros Hok He. unfold put_entry. destruct s as [b ts ls mq rs]. apply (queue_ok_tasks (mkState b ts ls mq rs)); [done|by right|]. cbn.
  intros k' e'. rewrite lookup_insert_Some. intros [[_ <-]|[_ Hk]]; [done|by apply (ok_entries _ Hok k')].
Qed.

#[export] Instance kept_preorder : PreOrder kept.
Proof.
  split; [done|]. intros s1 s2 s3 [A1 A2 A3] [B1 B2 B3]. constructor; [|by etransitivity|auto].
  intros Hne. rewrite <- (A1 Hne). apply B1. by rewrite A1.
Qed.

Lemma grows_tasks s base ts ls : queue_ok s → base_sha s = "" ∨ base_sha s = base →
  (∀ k e, ts !! k = Some e → entry_ok base e) → grows s (mkState base ts ls (merge_queue s) (receipts s)).
Proof.
  intros Hok Hb Hts. split; [by apply queue_ok_tasks|]. constructor; cbn; [|done|done]. intros Hne. by destruct Hb as [?|?].
Qed.
Lemma grows_entry s k e : queue_ok s → entry_ok (base_sha s) e → grows s (put_entry k e s).
Proof. intros Hok He. split; [by apply queue_ok_entry|]. by constructor. Qed.

Lemma chain_snoc previous rs r : chain_ok previous rs →
  receipt_ok (match last rs with Some x => Val.get "receipt_sha" x | None => previous end) r → chain_ok previous (rs ++ [r]).
Proof.
  revert previous. induction rs as [|x rs IH]; intros previous; [done|]. cbn [chain_ok app]. intros [Hx Hrs] Hr. split; [done|].
  apply IH; [done|]. rewrite last_cons in Hr. by destruct (last rs).
Qed.

Lemma of_task_eq k c : of_task k c = true ↔ Val.get "task_id" c = Str k.
Proof. unfold of_task. apply Val.eq_Str_iff. Qed.

Lemma last_candidate_Some k queue i c : last_candidate k queue = Some (i, c) → queue !! i = Some c ∧ Val.get "task_id" c = Str k.
Proof.
  revert i. induction queue as [|x queue IH]; intros i; cbn [last_candidate]; [done|].
  destruct (last_candidate k queue) as [[j y]|] eqn:E.
  - intros [= <- ->]. by apply IH.
  - destruct (of_task k x) eqn:Ex; [|done]. intros [= <- <-]. split; [done|]. by apply of_task_eq.
Qed.

Section Ops.
Context {W : Type} `{Git W} (q : Queue) (now_text : nat → string) (run_command : list string → string → W → W * Outcome).
Context (Hgit : git_names (W := W)).
Implicit Types (w : World W) (s : State).
Notation good := (good (W := W)).

(** ** Parts that keep the state *)

Notation quiet := (keeps (S := World W) (E := QueueExn) state).

Lemma quiet_now : quiet (now now_text).
Proof. done. Qed.
Lemma quiet_read : quiet read.
Proof. done. Qed.
Lemma quiet_file p d : quiet (write_file p d).
Proof. done. Qed.
Lemma quiet_remove p : quiet (remove_file p).
Proof. done. Qed.
Lemma quiet_sha ref cwd : quiet (sha ref cwd).
Proof. done. Qed.
Lemma quiet_tree cwd : quiet (tree_sha cwd).
Proof. done. Qed.
Lemma quiet_git f : quiet (run_git f).
Proof. intros w. unfold run_git. by destruct (f (git w)). Qed.
Lemma quiet_git_state : quiet git_state.
Proof. done. Qed.
Lemma quiet_lock : quiet of_lock.
Proof. done. Qed.
Hint Resolve quiet_now quiet_read quiet_file quiet_remove quiet_sha quiet_tree quiet_git quiet_git_state quiet_lock : py.

(** Programs made of such parts. *)
Ltac quiet_parts := repeat first [done|solve [eauto with py nocore]|apply keeps_bind; [|intros ?]|apply keeps_raise|apply keeps_raise_if|apply keeps_ret|
  match goal with |- keeps _ (match ?x with _ => _ end) => destruct x end].

Lemma quiet_entry s k : quiet (entry_of s k).
Proof. unfold entry_of. quiet_parts. Qed.
Lemma quiet_frozen s b : quiet (frozen_base q s b).
Proof. unfold frozen_base. quiet_parts. Qed.
Lemma quiet_make_entry t p b ba h tr l m lr : quiet (make_entry q now_text t p b ba h tr l m lr).
Proof. unfold make_entry. quiet_parts. Qed.
Lemma quiet_acquire k : quiet (acquire_shared_receipt q now_text k).
Proof. unfold acquire_shared_receipt. quiet_parts. Qed.
Lemma quiet_add b p ba : quiet (add_worktree b p ba).
Proof. unfold add_worktree. quiet_parts. Qed.
Lemma quiet_handoff c k b : quiet (write_repair_handoff q now_text c k b).
Proof. unfold write_repair_handoff. quiet_parts. Qed.
Lemma quiet_release k e : quiet (release_lock q k e).
Proof. unfold release_lock. quiet_parts. Qed.
Lemma quiet_remove_worktree p : quiet (remove_worktree q p).
Proof. unfold remove_worktree. quiet_parts. Qed.
Lemma quiet_remove_branch b : quiet (remove_branch b).
Proof. unfold remove_branch. quiet_parts. Qed.
Lemma quiet_run_one cwd c : quiet (run_one run_command cwd c).
Proof. destruct c as [|x c]; [done|]. intros w. cbn. by destruct (run_command _ _ _). Qed.
Lemma quiet_run_all cwd cs : quiet (run_all run_command cwd cs).
Proof. induction cs as [|c cs IH]; [done|]. cbn [run_all]. apply keeps_bind; [apply quiet_run_one|]. intros o. apply keeps_bind; [done|]. quiet_parts. Qed.
Hint Resolve quiet_entry quiet_frozen quiet_make_entry quiet_acquire quiet_add quiet_handoff quiet_release quiet_remove_worktree quiet_remove_branch quiet_run_all : py.

(** ** What the parts return *)

Lemma bind_read {A} (f : State → prog (World W) QueueExn A) w : (read ≫= f) w = f (state w) w.
Proof. done. Qed.
Lemma bind_git_state {A} (f : W → prog (World W) QueueExn A) w : (git_state ≫= f) w = f (git w) w.
Proof. done. Qed.
Lemma bind_closed {A} st fs k e s (f : unit → prog (World W) QueueExn A) w : (closed now_text st fs k e s ≫= f) w =
  f tt (mkWorld (put_entry k (dput "cleanup_failures" (List (Str <$> fs)) (dput "cleanup_at" (Str (now_text (ticks w))) (dput "status" (Str st) e))) s)
    (files w) (git w) (S (ticks w))).
Proof. done. Qed.

Lemma wp_read {Q : result QueueExn State → World W → Prop} w : wp read Q w ↔ Q (Ok (state w)) w.
Proof. done. Qed.
Lemma wp_write s Q w : wp (write s) Q w ↔ Q (Ok tt) (w <| state := s |>).
Proof. done. Qed.

Lemma wp_clock Q w : wp (now now_text) Q w ↔ Q (Ok (now_text (ticks w))) (w <| ticks := S (ticks w) |>).
Proof. done. Qed.

Lemma wp_sha ref cwd (Q : result QueueExn string → World W → Prop) w :
  (∀ h, h ≠ "" → Q (Ok h) w) → (∀ e, Q (Err e) w) → wp (sha ref cwd) Q w.
Proof. intros H1 H2. unfold wp, sha, lift_git. cbn. destruct (rev_parse ref cwd (git w)) as [h|e] eqn:E; [|apply H2]. apply H1. by eapply Hgit. Qed.

(** It only reads. *)
Lemma frozen_read s b w : ∃ r, frozen_base q s b w = (w, r).
Proof.
  unfold frozen_base. assert (∀ base : string, ∃ r : result QueueExn string, (raise_if (S := World W) (Str.truthy (base_sha s) && Str.truthy (given b) && negb (String.eqb (base_sha s) (given b)))
      (ValueError ("frozen base SHA mismatch: " +:+ given b +:+ " != " +:+ base_sha s)) ≫= λ _ : unit, mret base) w = (w, r)) as Hgo.
  { intros base. unfold mbind, prog_bind. destruct (_ && _); by eexists. }
  unfold mbind at 1, prog_bind at 1. destruct (Str.truthy (given b)); [apply Hgo|]. destruct (Str.truthy (base_sha s)); [apply Hgo|].
  unfold sha, lift_git. destruct (rev_parse _ _ _); [apply Hgo|by eexists].
Qed.

Lemma wp_frozen s b (Q : result QueueExn string → World W → Prop) w :
  (∀ base, base ≠ "" → base_sha s = "" ∨ base_sha s = base → Q (Ok base) w) → (∀ e, Q (Err e) w) → wp (frozen_base q s b) Q w.
Proof.
  intros HQ He. unfold frozen_base. rewrite wp_bind.
  assert (∀ base, base ≠ "" → (Str.truthy (base_sha s) = true → given b ≠ "" ∧ base = given b ∨ base = base_sha s) →
    wp (raise_if (Str.truthy (base_sha s) && Str.truthy (given b) && negb (String.eqb (base_sha s) (given b)))
      (ValueError ("frozen base SHA mismatch: " +:+ given b +:+ " != " +:+ base_sha s)) ≫= λ _, mret base) Q w) as Hgo.
  { intros base Hb Hcase. rewrite wp_bind, wp_raise_if. split; [intros _; apply He|]. intros Hc. apply HQ; [done|].
    destruct (Str.truthy (base_sha s)) eqn:Es.
    - right. destruct (Hcase eq_refl) as [[Hg ->]| ->]; [|done]. rewrite (proj2 (Str.truthy_ne _) Hg) in Hc. cbn in Hc. by apply negb_false_iff, String.eqb_eq in Hc.
    - left. unfold Str.truthy in Es. by apply negb_false_iff, String.eqb_eq in Es. }
  destruct (Str.truthy (given b)) eqn:Eg; [apply Hgo; [by apply Str.truthy_ne|left; split; [by apply Str.truthy_ne|done]]|].
  destruct (Str.truthy (base_sha s)) eqn:Es; [apply Hgo; [by apply Str.truthy_ne|by right]|].
  apply wp_sha; [|apply He]. intros h Hh. apply Hgo; [done|]. done.
Qed.

Lemma wp_entry s k (Q : result QueueExn dict → World W → Prop) w :
  (∀ e, tasks s !! k = Some e → e ≠ [] → Q (Ok e) w) → (∀ x, Q (Err x) w) → wp (entry_of s k) Q w.
Proof. intros HQ He. unfold entry_of. destruct (tasks s !! k) as [[|kv e]|] eqn:E; [apply He| |apply He]. by apply HQ. Qed.

(** ** Every call keeps the invariant *)

Lemma grows_refl s : queue_ok s → grows s s.
Proof. by split. Qed.

Lemma good_quiet {A} s (m : prog (World W) QueueExn A) : queue_ok s → quiet m → good s m.
Proof. intros Hok Hm w <-. rewrite (Hm w). by apply grows_refl. Qed.

Lemma good_bind {A B} s (m : prog (World W) QueueExn A) (k : A → prog (World W) QueueExn B) :
  queue_ok s → quiet m → (∀ a, good s (k a)) → good s (m ≫= k).
Proof.
  intros Hok Hm Hk w Hw. unfold mbind, prog_bind. pose proof (Hm w) as Hs. destruct (m w) as [w' [a|e]]; cbn in *; [|rewrite Hs, Hw; by apply grows_refl].
  apply Hk. congruence.
Qed.

(** With what is known of the value. *)
Lemma good_bind_wp {A B} s (R : A → Prop) (m : prog (World W) QueueExn A) (k : A → prog (World W) QueueExn B) :
  queue_ok s → quiet m → (∀ w, state w = s → wp m (λ r _, match r with Ok a => R a | Err _ => True end) w) →
  (∀ a, R a → good s (k a)) → good s (m ≫= k).
Proof.
  intros Hok Hm HR Hk w Hw. unfold mbind, prog_bind. specialize (HR w Hw). unfold wp in HR. pose proof (Hm w) as Hs.
  destruct (m w) as [w' [a|e]]; cbn in *; [|rewrite Hs, Hw; by apply grows_refl]. apply Hk; [done|congruence].
Qed.

Lemma good_read {B} s (k : State → prog (World W) QueueExn B) : good s (k s) → good s (read ≫= k).
Proof. intros Hk w Hw. unfold mbind, prog_bind, read. rewrite Hw. by apply Hk. Qed.

Lemma good_write {B} s s' (k : unit → prog (World W) QueueExn B) : grows s s' → quiet (k tt) → good s (write s' ≫= k).
Proof. intros Hok Hk w _. unfold mbind, prog_bind, write. by rewrite (Hk _). Qed.

Lemma good_discard {A} s (m : prog (World W) QueueExn A) : good s m → good s (discard m).
Proof. intros Hm w Hw. specialize (Hm w Hw). unfold discard, mbind, prog_bind. destruct (m w) as [w' [a|e]]; done. Qed.

Lemma good_entry {B} s s0 k (f : dict → prog (World W) QueueExn B) :
  queue_ok s → queue_ok s0 → (∀ e, tasks s0 !! k = Some e → entry_ok (base_sha s0) e → good s (f e)) → good s (entry_of s0 k ≫= f).
Proof.
  intros Hok Hok0 Hf. apply (good_bind_wp s (λ e, tasks s0 !! k = Some e)); [done|auto with py| |].
  - intros w _. apply wp_entry; [by intros e He _|done].
  - intros e He. apply Hf; [done|]. by apply (ok_entries _ Hok0 k).
Qed.

Ltac good_part := apply good_bind; [assumption|solve [auto with py]|intros ?].
Ltac good_end := apply good_write; [|solve [quiet_parts]].

Lemma quiet_register lm rows s : quiet (register_all q now_text lm rows s).
Proof. revert s. induction rows as [|t rows IH]; intros s; [done|]. cbn [register_all]. apply keeps_bind; [|done]. unfold register_one. quiet_parts. Qed.
Hint Resolve quiet_register : py.

Lemma wp_register_all b lm rows s w : (∀ k e, tasks s !! k = Some e → entry_ok b e) →
  wp (register_all q now_text lm rows s) (λ r _, match r with
    | Ok s' => base_sha s' = base_sha s ∧ merge_queue s' = merge_queue s ∧ receipts s' = receipts s ∧ ∀ k e, tasks s' !! k = Some e → entry_ok b e
    | Err _ => True end) w.
Proof.
  revert s w. induction rows as [|t rows IH]; intros s w Hts; cbn [register_all]; [by rewrite wp_ret|].
  unfold register_one. rewrite wp_bind, wp_bind, wp_clock, wp_ret.
  set (s1 := s <| tasks := _ |>). eapply wp_mono; [apply (IH s1)|].
  - subst s1. cbn. intros k e. rewrite lookup_insert_Some. intros [[_ <-]|[_ Hk]]; [|by apply (Hts k)].
    apply entry_ok_put, entry_ok_put, entry_ok_put; [done..|]. destruct (tasks s !! id t) as [e0|] eqn:E; [by apply (Hts (id t))|]. by left.
  - intros [s'|e] w'; [|done]. done.
Qed.

Lemma good_register rows b s : queue_ok s → good s (register_tasks q now_text rows b).
Proof.
  intros Hok. unfold register_tasks. apply good_read.
  apply (good_bind_wp s (λ base, base ≠ "" ∧ (base_sha s = "" ∨ base_sha s = base))); [done|auto with py| |].
  { intros w _. apply wp_frozen; [by intros base|done]. }
  intros base [Hb Hcase]. cbv zeta. set (s1 := s <| base_sha := or_text (base_sha s) base |> <| lanes := _ |>).
  assert (base_sha s1 = base) as Hb1.
  { subst s1. cbn. unfold or_text. destruct Hcase as [->|E]; [done|]. rewrite E. by destruct (Str.truthy base). }
  apply (good_bind_wp s (λ s', base_sha s' = base ∧ merge_queue s' = merge_queue s ∧ receipts s' = receipts s ∧ ∀ k e, tasks s' !! k = Some e → entry_ok base e)); [done|auto with py| |].
  { intros w _. eapply wp_mono; [apply (wp_register_all base)|].
    - intros k e Hk. apply (entry_ok_base (base_sha s)); [done|]. by apply (ok_entries _ Hok k).
    - intros [s'|e] w'; [|done]. by rewrite Hb1. }
  intros [b' ts ls mq rs] (Hb' & Hmq & Hrs & Hts). cbn in *. subst. good_end. by apply grows_tasks.
Qed.

Lemma good_allocate t b iso p s : queue_ok s → good s (allocate q now_text t b iso p).
Proof.
  intros Hok. unfold allocate. good_part. good_part. good_part. apply good_read.
  apply (good_bind_wp s (λ base, base ≠ "" ∧ (base_sha s = "" ∨ base_sha s = base))); [done|auto with py| |].
  { intros w _. apply wp_frozen; [by intros base|done]. }
  intros base [Hb Hcase]. cbv zeta. apply good_bind; [done|auto with py|]. intros g.
  assert (or_text (base_sha s) base = base) as Hor.
  { unfold or_text. destruct Hcase as [->|E]; [done|]. rewrite E. by destruct (Str.truthy base). }
  set (s2 := (s <| base_sha := _ |>) <| lanes := _ |>).
  assert (s2 = mkState base (tasks s) (lanes s2) (merge_queue s) (receipts s)) as Es2 by (subst s2; cbn; by rewrite Hor).
  assert (∀ k e, tasks s !! k = Some e → entry_ok base e) as Hts.
  { intros k e Hk. apply (entry_ok_base (base_sha s)); [done|]. by apply (ok_entries _ Hok k). }
  assert (∀ e, entry_ok base e → grows s (s2 <| tasks := <[id t := e]> (tasks s2) |>)) as Hput.
  { intros e He. rewrite Es2. cbn. apply grows_tasks; [done|done|]. intros k e'. rewrite lookup_insert_Some. intros [[_ <-]|[_ Hk]]; [done|by apply (Hts k)]. }
  assert (∀ lane, good s (allocate_new q now_text t s2 base lane iso)) as Hnew.
  { intros lane. unfold allocate_new.
    apply (good_bind_wp s (λ e, Val.get "base_sha" e = Str base)); [done|destruct (String.eqb iso "shared"); quiet_parts| |].
    - intros w _.
      assert (∀ A (m : prog (World W) QueueExn A) k w, (∀ a w, wp (k a) (λ r _, match r with Ok e => Val.get "base_sha" e = Str base | Err _ => True end) w) →
        wp (m ≫= k) (λ r _, match r with Ok e => Val.get "base_sha" e = Str base | Err _ => True end) w) as Hb'.
      { intros A m k w' Hk. rewrite wp_bind. unfold wp at 1. destruct (m w').2; [apply Hk|done]. }
      destruct (String.eqb iso "shared"); repeat (apply Hb'; intros ? ?); done.
    - intros e He. good_end. apply Hput. right. done. }
  assert (∀ e path, attachable (tasks s2 !! id t) = Some (e, path) → entry_ok base e) as Hatt.
  { intros e path. rewrite Es2. cbn. destruct (tasks s !! id t) as [e0|] eqn:E; [|done]. unfold attachable. destruct (_ && _); [|done].
    intros [= <- _]. by apply (Hts (id t)). }
  destruct (attachable (tasks s2 !! id t)) as [[e path]|] eqn:E; [|done]. destruct (isdir path g); [|done].
  unfold reattach. good_part. good_part. good_end. apply Hput. apply entry_ok_put; [done|].
  apply entry_ok_default; [done|]. apply entry_ok_default; [done|]. apply entry_ok_default; [done|]. by apply (Hatt _ path).
Qed.

Lemma good_snapshot k s : queue_ok s → good s (snapshot q now_text k).
Proof.
  intros Hok. unfold snapshot. apply good_read. apply good_entry; [done|done|]. intros e _ He. do 3 good_part.
  good_end. apply grows_entry; [done|]. auto 10 with py.
Qed.

Lemma good_context k c s : queue_ok s → good s (record_context q now_text k c).
Proof.
  intros Hok. unfold record_context. good_part. apply good_read. apply good_entry; [done|done|]. intros e _ He. do 2 good_part.
  good_end. apply grows_entry; [done|]. auto 10 with py.
Qed.

Lemma good_binding k b s : queue_ok s → good s (record_generation_binding now_text k b).
Proof.
  intros Hok. unfold record_generation_binding. do 6 good_part. apply good_read. apply good_entry; [done|done|]. intros e _ He. do 2 good_part.
  good_end. apply grows_entry; [done|]. auto 10 with py.
Qed.

Lemma good_cleanup_receipt k r s : queue_ok s → good s (record_cleanup_receipt k r).
Proof.
  intros Hok. unfold record_cleanup_receipt. do 2 good_part. apply good_read. apply good_entry; [done|done|]. intros e _ He. do 3 good_part.
  good_end. apply grows_entry; [done|]. auto 10 with py.
Qed.

Lemma good_closed {B} st fs k e s (f : unit → prog (World W) QueueExn B) :
  queue_ok s → entry_ok (base_sha s) e → quiet (f tt) → good s (closed now_text st fs k e s ≫= f).
Proof.
  intros Hok He Hf w Hw. unfold closed, mbind at 1, prog_bind at 1. unfold mbind, prog_bind, now, write. cbn. rewrite (Hf _). cbn.
  apply grows_entry; [done|]. auto 10 with py.
Qed.

Lemma good_teardown k d s : queue_ok s → good s (teardown q now_text k d).
Proof.
  intros Hok. unfold teardown. apply good_read. destruct (tasks s !! k) as [[|kv e]|] eqn:E; [by apply good_quiet| |by apply good_quiet].
  pose proof (ok_entries _ Hok k _ E) as He. cbv zeta. good_part.
  destruct (blockers _ _) as [|f fs]; [|apply good_closed; [done|done|quiet_parts]].
  apply good_bind; [done|destruct (Val.eq _ _); [auto with py|destruct (Str.truthy _); auto with py]|]. intros failures.
  apply good_bind; [done|destruct (_ && _); auto with py|]. intros more. apply good_closed; [done|done|quiet_parts].
Qed.

Lemma good_teardown_all ks s : queue_ok s → good s (teardown_all q now_text ks).
Proof.
  revert s. induction ks as [|k ks IH]; intros s Hok; [by apply good_quiet|]. cbn [teardown_all]. intros w Hw. unfold mbind at 1, prog_bind at 1.
  pose proof (good_teardown k false s Hok w Hw) as H1. destruct (teardown q now_text k false w) as [w1 [r|x]]; cbn in H1; [|done]. destruct H1 as [Hok1 Hk1].
  unfold mbind, prog_bind. pose proof (IH _ Hok1 w1 eq_refl) as [Hok2 Hk2]. destruct (teardown_all q now_text ks w1) as [w2 [rs|x]]; (split; [done|by etransitivity]).
Qed.

(** ** The merge queue *)

Lemma candidate_more s c b ts ls mq rs : b = base_sha s → (∀ r, r ∈ receipts s → r ∈ rs) → candidate_ok s c → candidate_ok (mkState b ts ls mq rs) c.
Proof.
  intros -> Hrs [?|(Hne & Hb & Hc)]; [by left|right]. split; [done|]. split; [done|]. destruct Hc as [?|(r & Hr & Hv)]; [by left|right].
  exists r. split; [by apply Hrs|done].
Qed.

Lemma same_candidate_identity k h c : same_candidate k h c = true ↔ identity_of c = (Str k, Str h).
Proof. unfold same_candidate, identity_of. rewrite andb_true_iff, !Val.eq_Str_iff. split; [by intros [-> ->]|by intros [= -> ->]]. Qed.

Lemma good_enqueue k ref s : queue_ok s → good s (enqueue_merge q now_text k ref).
Proof.
  intros Hok. unfold enqueue_merge. apply good_read. apply good_entry; [done|done|]. intros e _ He.
  apply (good_bind_wp s (λ h, h ≠ "")); [done|auto with py|intros w _; by apply wp_sha|]. intros base Hbase. do 2 good_part.
  set (c0 := [("task_id", Str k); _; _; _; _; _; _; _]).
  apply (good_bind_wp s (λ c, identity_of c = (Str k, Str a) ∧ Val.get "base_sha" c = Val.get "base_sha" e ∧ is_status "queued" c = true)); [done|destruct (Val.get "generation_binding" e); quiet_parts| |].
  { intros w _. assert (∀ (b : dict) w, wp (raise_if (negb (String.eqb (Val.text (Val.get "candidate_id" b)) k)) (ValueError "generation binding candidate mismatch") ≫=
      λ _, mret (dput "generation_binding" (bound_fields b) c0)) (λ r _, match r with
        | Ok c => identity_of c = (Str k, Str a) ∧ Val.get "base_sha" c = Val.get "base_sha" e ∧ is_status "queued" c = true | Err _ => True end) w) as Hb.
    { intros b w'. rewrite wp_bind, wp_raise_if. split; [done|]. intros _. rewrite wp_ret. unfold identity_of, is_status, status_of. fields. done. }
    destruct (Val.get "generation_binding" e); apply Hb || done. }
  intros c (Hid & Hcb & Hq).
  apply (good_bind_wp s (λ ce, entry_ok (base_sha s) ce.2 ∧ identity_of ce.1 = (Str k, Str a) ∧ candidate_ok s ce.1)).
  { done. }
  { destruct (negb _); quiet_parts. }
  { intros w _. destruct (Val.eq (Str base) (Val.get "base_sha" e)) eqn:Eb; cbn [negb].
    - rewrite wp_ret. cbn. split; [auto with py|]. split; [done|]. right.
      assert (Val.get "base_sha" e = Str base) as Eb'. { destruct (Val.get "base_sha" e); try done. cbn in Eb. apply String.eqb_eq in Eb. by subst. }
      destruct He as [He|[Hne He]]; [congruence|]. rewrite Hcb. split; [done|]. split; [done|]. by left.
    - rewrite wp_bind. unfold write_repair_handoff. rewrite wp_bind, wp_clock, wp_bind. unfold write_file, wp at 1. cbn [fst snd]. rewrite wp_ret. cbn beta iota. rewrite wp_ret.
      cbn [fst snd]. split; [auto with py|]. unfold identity_of in *. fields. split; [done|]. left. rewrite !is_status_ne by done. by rewrite is_status_put. }
  intros [c' e'] (He' & Hid' & Hc'). cbn [fst snd] in *. good_end. split.
  2:{ constructor; cbn; [done|done|]. intros i x Hi _. destruct (existsb _ _); [done|]. by apply lookup_app_l_Some. }
  destruct Hok as [H1 H2 H3 H4]. unfold put_entry. constructor; cbn.
  - intros k' x. rewrite lookup_insert_Some. intros [[_ <-]|[_ Hk]]; [done|by apply (H1 k')].
  - intros x Hx. apply (candidate_more s); [done|done|]. destruct (existsb _ _); [by apply H2|]. apply elem_of_app in Hx as [Hx| ->%list_elem_of_singleton]; [by apply H2|done].
  - destruct (existsb _ _) eqn:Ex; [done|]. rewrite fmap_app. apply NoDup_app. split; [done|]. split; [|apply NoDup_singleton].
    intros x (y & -> & Hy)%list_elem_of_fmap Hin%list_elem_of_singleton. assert (same_candidate k a y = true) as Hs by (apply same_candidate_identity; congruence).
    apply not_true_iff_false in Ex. apply Ex, existsb_exists. exists y. split; [by apply list_elem_of_In|done].
  - done.
Qed.

Lemma receipt_written body path previous : Val.get "previous_receipt_sha" body = previous → dget "receipt_sha" body = None → dget "path" body = None →
  receipt_ok previous (dput "path" (Str path) (seal body)).
Proof.
  intros Hp Hr Hpath. split; [by unfold seal; fields|]. unfold seal at 1. fields. do 3 f_equal.
  rewrite dput_new by (apply dget_None; unfold seal; by rewrite dget_put_ne). rewrite ddel_snoc by (apply dget_None; unfold seal; by rewrite dget_put_ne).
  by rewrite seal_body.
Qed.

Lemma queue_ok_verdict s k e i c p sha_ path r :
  queue_ok s → entry_ok (base_sha s) e → merge_queue s !! i = Some c → Val.get "task_id" c = Str k →
  base_sha s ≠ "" → Val.get "base_sha" c = Str (base_sha s) →
  receipt_ok (previous_receipt s) r → Val.get "receipt_sha" r = sha_ → Val.get "task_id" r = Str k → Val.get "head_sha" r = Val.get "head_sha" c →
  Val.get "base_sha" r = Val.get "base_sha" c → Val.get "passed" r = Bool p →
  let verdict := Str (if p then "accepted" else "verification-failed") in
  queue_ok (put_entry k (dput "status" verdict e) s
    <| merge_queue := <[i := dput "receipt_path" path (dput "receipt_sha" sha_ (dput "status" verdict c))]> (merge_queue s) |> <| receipts := receipts s ++ [r] |>).
Proof.
  intros [H1 H2 H3 H4] He Hi Hck Hne Hcb Hr Hsha Hrk Hrh Hrb Hrp verdict. unfold put_entry. constructor; cbn.
  - intros k' x. rewrite lookup_insert_Some. intros [[_ <-]|[_ Hk]]; [auto with py|by apply (H1 k')].
  - intros x Hx. apply list_elem_of_lookup in Hx as [j Hj]. apply list_lookup_insert_Some in Hj as [(-> & <- & _)|[_ Hj]].
    + right. cbn. split; [done|]. fields. split; [done|]. right. exists r. split; [apply elem_of_app; right; by left|]. split.
      { unfold verdict_of. split; [by fields|]. split; [fields; congruence|]. by split; fields. }
      do 2 rewrite (is_status_ne "accepted") by done. do 2 rewrite (is_status_ne "verification-failed") by done. rewrite !is_status_put. subst verdict. destruct p; [by left|by right].
    + apply (candidate_more s); [done|intros r' Hr'; apply elem_of_app; by left|]. apply H2. by eapply list_elem_of_lookup_2.
  - rewrite list_fmap_insert. rewrite list_insert_id; [done|]. rewrite list_lookup_fmap, Hi. unfold identity_of. cbn. by fields.
  - by apply chain_snoc.
Qed.

Lemma good_record k p suite details s : queue_ok s → good s (record_composed_verification q now_text k p suite details).
Proof.
  intros Hok. unfold record_composed_verification. apply good_read. apply good_entry; [done|done|]. intros e _ He.
  destruct (last_candidate k (merge_queue s)) as [[i c]|] eqn:El; [|by apply good_quiet]. apply last_candidate_Some in El as [Hi Hck].
  destruct (is_status "queued" c) eqn:Eq; cbn [negb]; [|intros w <-; done]. good_part. good_part. cbv zeta.
  set (body := verification_body q k suite p c e details (previous_receipt s) a0). set (path := receipt_file q k (sha256_json (Obj body))). good_part.
  assert (candidate_ok s c) as Hc by (by apply (ok_candidates _ Hok), (list_elem_of_lookup_2 _ i)).
  destruct Hc as [Hc|(Hne & Hcb & _)].
  { unfold is_status in *. rewrite Val.eq_Str_iff in *. congruence. }
  good_end. split; [by apply queue_ok_verdict; try apply receipt_written|].
  constructor; cbn; [done|by eexists|]. intros j x Hj Hx. rewrite list_lookup_insert_ne; [done|]. intros <-. congruence.
Qed.

Lemma good_run k cs suite s : queue_ok s → good s (run_composed_verification q now_text run_command k cs suite).
Proof.
  intros Hok. unfold run_composed_verification. apply good_read. apply good_entry; [done|done|]. intros e _ He. good_part. by apply good_record.
Qed.

Lemma good_perform c s : queue_ok s → good s (perform q now_text run_command c).
Proof.
  intros Hok. destruct c; cbn [perform]; apply good_discard.
  - by apply good_register.
  - by apply good_allocate.
  - by apply good_snapshot.
  - by apply good_context.
  - by apply good_binding.
  - by apply good_enqueue.
  - by apply good_record.
  - by apply good_run.
  - by apply good_cleanup_receipt.
  - by apply good_teardown.
  - unfold cleanup_orphans. apply good_read. by apply good_teardown_all.
Qed.

Lemma after_ok cs w : queue_ok (state w) → grows (state w) (state (after q now_text run_command cs w)).
Proof.
  revert w. unfold after. induction cs as [|[c f] cs IH]; intros w Hok; [by apply grows_refl|]. cbn [foldl].
  destruct (good_perform c (state w) Hok (mkWorld (state w) (files w) (f (git w)) (ticks w)) eq_refl) as [Hok1 Hk1]. destruct (IH _ Hok1) as [Hok2 Hk2].
  split; [exact Hok2|]. etransitivity; [exact Hk1|exact Hk2].
Qed.
End Ops.

(** ** Where candidates come from *)

Section Origins.
Context {W : Type} `{Git W} (q : Queue) (now_text : nat → string) (run_command : list string → string → W → W * Outcome).
Implicit Types (w : World W) (s : State).

(** Started in the state [s], the program leaves the merge queue as it is. *)
Definition calm {A} s (m : prog (World W) QueueExn A) : Prop := ∀ w, state w = s → merge_queue (state (m w).1) = merge_queue s.
Notation quiet := (keeps (S := World W) (E := QueueExn) state).

Lemma calm_quiet {A} s (m : prog (World W) QueueExn A) : quiet m → calm s m.
Proof. intros Hm w <-. by rewrite (Hm w). Qed.
Lemma calm_bind {A B} s (m : prog (World W) QueueExn A) (k : A → prog (World W) QueueExn B) : quiet m → (∀ a, calm s (k a)) → calm s (m ≫= k).
Proof.
  intros Hm Hk w Hw. unfold mbind, prog_bind. pose proof (Hm w) as Hs. destruct (m w) as [w' [a|e]]; cbn in *; [apply Hk; congruence|congruence].
Qed.
Lemma calm_read {B} s (k : State → prog (World W) QueueExn B) : calm s (k s) → calm s (read ≫= k).
Proof. intros Hk w Hw. unfold mbind, prog_bind, read. rewrite Hw. by apply Hk. Qed.
Lemma calm_write {B} s s' (k : unit → prog (World W) QueueExn B) : merge_queue s' = merge_queue s → quiet (k tt) → calm s (write s' ≫= k).
Proof. intros Hq Hk w _. unfold mbind, prog_bind, write. by rewrite (Hk _). Qed.
Lemma calm_discard {A} s (m : prog (World W) QueueExn A) : calm s m → calm s (discard m).
Proof. intros Hm w Hw. specialize (Hm w Hw). unfold discard, mbind, prog_bind. destruct (m w) as [w' [a|e]]; done. Qed.
Lemma calm_closed {B} st fs k e s (f : unit → prog (World W) QueueExn B) : quiet (f tt) → calm s (closed now_text st fs k e s ≫= f).
Proof. intros Hf w Hw. unfold closed, mbind at 1, prog_bind at 1. unfold mbind, prog_bind, now, write. cbn. by rewrite (Hf _). Qed.

Hint Resolve quiet_now quiet_read quiet_file quiet_remove quiet_sha quiet_tree quiet_git quiet_git_state quiet_lock quiet_entry quiet_frozen
  quiet_make_entry quiet_acquire quiet_add quiet_handoff quiet_release quiet_remove_worktree quiet_remove_branch quiet_run_all quiet_register : py.
Ltac quiet_step := repeat first [done|solve [eauto with py nocore]|apply keeps_bind; [|intros ?]|apply keeps_raise|apply keeps_raise_if|apply keeps_ret|
  match goal with |- keeps _ (match ?x with _ => _ end) => destruct x end].
Ltac calm_step := repeat first
  [ apply calm_read | apply calm_closed; solve [quiet_step] | apply calm_write; [done|solve [quiet_step]]
  | apply calm_bind; [solve [quiet_step]|intros ?] | solve [apply calm_quiet; quiet_step]
  | match goal with |- calm _ (match ?x with _ => _ end) => destruct x end | progress cbv zeta ].

Lemma calm_register rows b s : calm s (register_tasks q now_text rows b).
Proof.
  unfold register_tasks. apply calm_read, calm_bind; [auto with py|]. intros base. cbv zeta. intros w Hw. unfold mbind at 1, prog_bind at 1.
  set (s1 := _ <| lanes := _ |>). assert (merge_queue s1 = merge_queue s) as <- by done.
  assert (∀ s w, wp (register_all q now_text (lanes_of rows) rows s) (λ r _, match r with Ok s' => merge_queue s' = merge_queue s | Err _ => True end) w) as Hall.
  { clear. generalize (lanes_of rows). intros lm. induction rows as [|t rs IH]; intros s w; cbn [register_all]; [by rewrite wp_ret|].
    unfold register_one. rewrite wp_bind, wp_bind, wp_clock, wp_ret. set (s1 := s <| tasks := _ |>). exact (IH s1 _). }
  specialize (Hall s1 w). unfold wp in Hall. pose proof (quiet_register q now_text (lanes_of rows) rows s1 w) as Hs.
  destruct (register_all _ _ _ _ _ w) as [w' [s'|e]]; cbn in *; [done|congruence].
Qed.

Lemma calm_allocate t b iso p s : calm s (allocate q now_text t b iso p).
Proof.
  unfold allocate. do 3 (apply calm_bind; [quiet_step|intros ?]). apply calm_read, calm_bind; [auto with py|]. intros base. cbv zeta.
  set (s1 := _ <| lanes := _ |>). unfold allocate_new, reattach. calm_step.
Qed.

Lemma calm_teardown k d s : calm s (teardown q now_text k d).
Proof. unfold teardown. calm_step. Qed.
Lemma calm_teardown_all ks s : calm s (teardown_all q now_text ks).
Proof.
  intros w Hw. revert w s Hw. induction ks as [|k ks IH]; intros w s Hw; [by subst|]. cbn [teardown_all]. unfold mbind at 1, prog_bind at 1.
  pose proof (calm_teardown k false s w Hw) as H1. destruct (teardown q now_text k false w) as [w1 [r|x]]; cbn in H1; [|done].
  unfold mbind, prog_bind. pose proof (IH w1 _ eq_refl) as H2. destruct (teardown_all q now_text ks w1) as [w2 [rs|x]]; cbn in *; congruence.
Qed.

(** Running commands gives one outcome for each. *)
Lemma run_all_spec cwd cs w : ∃ os w', run_all run_command cwd cs w = (w', Ok os) ∧ state w' = state w ∧
  (os = [] ↔ cs = []) ∧ forallb (λ o, o.1 =? 0) os = all_pass run_command cwd cs (git w).
Proof.
  revert w. induction cs as [|[|a argv] cs IH]; intros w; cbn [run_all all_pass].
  - by exists [], w.
  - destruct (IH w) as (os & w' & E & Hs & _ & _). eexists (_ :: os), w'.
    split; [unfold mbind, prog_bind; cbn [run_one]; unfold mret, prog_ret; by rewrite E|]. split; [exact Hs|]. by split.
  - unfold mbind, prog_bind. cbn [run_one]. destruct (run_command (a :: argv) cwd (git w)) as [g o].
    destruct (IH (w <| git := g |>)) as (os & w' & E & Hs & _ & Hp). eexists (_ :: os), w'. rewrite E. split; [done|]. split; [done|].
    split; [done|]. cbn [forallb fst]. by rewrite Hp.
Qed.

Lemma wp_ref ref cwd (Q : result QueueExn string → World W → Prop) w :
  (∀ h, rev_parse ref cwd (git w) = Ok h → Q (Ok h) w) → (∀ e, Q (Err e) w) → wp (sha ref cwd) Q w.
Proof. intros H1 H2. unfold wp, sha, lift_git. cbn. destruct (rev_parse ref cwd (git w)) as [h|e] eqn:E; [by apply H1|apply H2]. Qed.

Lemma record_requeues k p suite details g s call w : state w = s → (p = true → passes q run_command g s k call) →
  requeued q run_command g s call (merge_queue (state (record_composed_verification q now_text k p suite details w).1)).
Proof.
  intros <- Hp. change (wp (record_composed_verification q now_text k p suite details) (λ _ w', requeued q run_command g (state w) call (merge_queue (state w'))) w).
  unfold record_composed_verification. rewrite wp_bind, wp_read, wp_bind. apply wp_entry; [|intros; apply rq_same]. intros e _ _.
  destruct (last_candidate k (merge_queue (state w))) as [[i c]|] eqn:El; [|apply rq_same]. apply last_candidate_Some in El as [Hi Hck].
  rewrite wp_bind, wp_raise_if. split; intros Hq; [apply rq_same|]. apply negb_false_iff in Hq.
  rewrite wp_bind, wp_clock. cbv zeta. rewrite wp_bind. unfold write_file at 1, wp at 1. cbn [fst snd]. rewrite wp_bind, wp_write, wp_ret. cbn.
  apply (rq_judged _ _ _ _ _ k i c); [done|done|done|unfold identity_of; by fields|by fields|].
  destruct p; [by right; apply Hp|left]. rewrite !is_status_ne by done. by rewrite is_status_put.
Qed.

Lemma enqueue_requeues k ref s w : state w = s →
  requeued q run_command (git w) s (EnqueueMerge k ref) (merge_queue (state (enqueue_merge q now_text k ref w).1)).
Proof.
  intros <-. set (R := requeued q run_command (git w) (state w) (EnqueueMerge k ref)).
  change (wp (enqueue_merge q now_text k ref) (λ _ w', R (merge_queue (state w'))) w). assert (R (merge_queue (state w))) as Hsame by apply rq_same.
  unfold enqueue_merge. rewrite wp_bind, wp_read, wp_bind. apply wp_entry; [|done]. intros e He _.
  rewrite wp_bind. apply wp_ref; [|done]. intros b Hb. rewrite wp_bind. apply wp_ref; [|done]. intros h Hh. rewrite wp_bind, wp_clock.
  set (c0 := [("task_id", Str k); _; _; _; _; _; _; _]). rewrite wp_bind.
  apply (wp_mono _ (λ r w', state w' = state w ∧ match r with
    | Ok c => identity_of c = (Str k, Str h) ∧ Val.get "base_sha" c = Val.get "base_sha" e ∧ is_status "queued" c = true | Err _ => True end)).
  { assert (∀ (d : dict) w', state w' = state w → wp (raise_if (negb (String.eqb (Val.text (Val.get "candidate_id" d)) k)) (ValueError "generation binding candidate mismatch") ≫=
      λ _, mret (dput "generation_binding" (bound_fields d) c0)) (λ r w', state w' = state w ∧ match r with
        | Ok c => identity_of c = (Str k, Str h) ∧ Val.get "base_sha" c = Val.get "base_sha" e ∧ is_status "queued" c = true | Err _ => True end) w') as Hd.
    { intros d w' Hw'. rewrite wp_bind, wp_raise_if. split; [done|]. intros _. rewrite wp_ret. unfold identity_of, is_status, status_of. fields. done. }
    destruct (Val.get "generation_binding" e); by apply Hd || done. }
  intros [c|x] w1 [Hw1 Hc]; [|by rewrite Hw1]. destruct Hc as (Hid & Hcb & Hq). rewrite wp_bind.
  assert (∀ c' e' w', is_status "repair-required" c' = true ∨ queued_at q (git w) (state w) k ref c' ∧ is_status "queued" c' = true →
    wp (_ ← write (put_entry k e' (state w) <| merge_queue := if existsb (same_candidate k h) (merge_queue (state w)) then merge_queue (state w) else merge_queue (state w) ++ [c'] |>);
        mret c') (λ _ w', R (merge_queue (state w'))) w') as Hend.
  { intros c' e' w' Hc'. rewrite wp_bind, wp_write, wp_ret. cbn. destruct (existsb _ _); [done|]. by apply (rq_queued _ _ _ _ _ k ref). }
  destruct (Val.eq (Str b) (Val.get "base_sha" e)) eqn:Eb; cbn [negb].
  - rewrite wp_ret. apply Hend. right. split; [|done]. exists e, h, b. unfold identity_of in Hid. injection Hid as Hk Hhd.
    split_and!; [done..|]. rewrite Hcb. destruct (Val.get "base_sha" e); try done. cbn in Eb. apply String.eqb_eq in Eb. by subst.
  - rewrite wp_bind. unfold write_repair_handoff. rewrite wp_bind, wp_clock, wp_bind. unfold write_file, wp at 1. cbn [fst snd]. rewrite wp_ret. cbn beta iota. rewrite wp_ret.
    apply Hend. left. rewrite !is_status_ne by done. by rewrite is_status_put.
Qed.

Lemma perform_requeues c w : requeued q run_command (git w) (state w) c (merge_queue (state (perform q now_text run_command c w).1)).
Proof.
  assert (∀ A (m : prog (World W) QueueExn A), (discard m w).1 = (m w).1) as Hd.
  { intros A m. unfold discard, mbind, prog_bind. by destruct (m w) as [w' [a|e]]. }
  assert (∀ A (m : prog (World W) QueueExn A), calm (state w) m → requeued q run_command (git w) (state w) c (merge_queue (state (m w).1))) as Hcalm.
  { intros A m Hm. rewrite (Hm w eq_refl). apply rq_same. }
  destruct c; cbn [perform]; rewrite Hd.
  - apply Hcalm, calm_register.
  - apply Hcalm, calm_allocate.
  - apply Hcalm. unfold snapshot. calm_step.
  - apply Hcalm. unfold record_context. calm_step.
  - apply Hcalm. unfold record_generation_binding. calm_step.
  - by apply enqueue_requeues.
  - by apply record_requeues.
  - unfold run_composed_verification, mbind at 1, prog_bind at 1, read. unfold entry_of, mbind at 1, prog_bind at 1.
    destruct (tasks (state w) !! task_id) as [[|kv e]|] eqn:Ee; [apply rq_same| |apply rq_same]. cbn [mret prog_ret]. unfold mret, prog_ret.
    destruct (run_all_spec (path_of q (kv :: e)) commands w) as (os & w' & E & Hs & Hnil & Hp). unfold mbind, prog_bind. rewrite E. cbv zeta.
    apply record_requeues; [done|]. intros [Hne Hall]%andb_true_iff. split; [done|]. apply negb_true_iff, bool_decide_eq_false in Hne.
    split; [by rewrite <- Hnil|]. exists (kv :: e). by rewrite <- Hp.
  - apply Hcalm. unfold record_cleanup_receipt. calm_step.
  - apply Hcalm, calm_teardown.
  - apply Hcalm. unfold cleanup_orphans. apply calm_read, calm_teardown_all.
Qed.

(** *** Histories *)

Lemma after_snoc cs c f w : after q now_text run_command (cs ++ [(c, f)]) w =
  (perform q now_text run_command c ((after q now_text run_command cs w) <| git := f (git (after q now_text run_command cs w)) |>)).1.
Proof. unfold after. by rewrite foldl_app. Qed.

Lemma moment_more cs l w c before g : moment q now_text run_command cs w c before g → moment q now_text run_command (cs ++ l) w c before g.
Proof. intros (f & later & -> & ->). exists f, (later ++ l). by rewrite <- app_assoc. Qed.
Lemma moment_last cs c f w : moment q now_text run_command (cs ++ [(c, f)]) w c cs (f (git (after q now_text run_command cs w))).
Proof. by exists f, []. Qed.
Lemma queued_more cs l w x : was_queued q now_text run_command cs w x → was_queued q now_text run_command (cs ++ l) w x.
Proof. intros (k & ref & before & g & Hm & Hq). exists k, ref, before, g. split; [by apply moment_more|done]. Qed.
Lemma queued_same cs w x x' : identity_of x' = identity_of x → Val.get "base_sha" x' = Val.get "base_sha" x →
  was_queued q now_text run_command cs w x → was_queued q now_text run_command cs w x'.
Proof.
  intros [= E1 E2] E3 (k & ref & before & g & Hm & e & h & b & H1). exists k, ref, before, g. split; [done|]. exists e, h, b. by rewrite E1, E2, E3.
Qed.
Lemma verified_more cs l w x : was_verified q now_text run_command cs w x → was_verified q now_text run_command (cs ++ l) w x.
Proof. intros (k & c & before & g & Hm & H1). exists k, c, before, g. split; [by apply moment_more|done]. Qed.

Lemma status_unique a b x : is_status a x = true → is_status b x = true → a = b.
Proof. unfold is_status. rewrite !Val.eq_Str_iff. congruence. Qed.

(** What every candidate comes from. *)
Lemma origins cs w x : merge_queue (state w) = [] → x ∈ merge_queue (state (after q now_text run_command cs w)) →
  (is_status "repair-required" x = true ∨ was_queued q now_text run_command cs w x) ∧
  (is_status "accepted" x = true → was_verified q now_text run_command cs w x).
Proof.
  intros Hw. revert x. induction cs as [|[c f] cs IH] using rev_ind; intros x; [cbn; rewrite Hw; by intros ?%not_elem_of_nil|].
  rewrite after_snoc. set (w1 := after q now_text run_command cs w) in *. set (g := f (git w1)).
  assert (∀ y, y ∈ merge_queue (state w1) → (is_status "repair-required" y = true ∨ was_queued q now_text run_command (cs ++ [(c, f)]) w y) ∧
    (is_status "accepted" y = true → was_verified q now_text run_command (cs ++ [(c, f)]) w y)) as Hold.
  { intros y Hy. destruct (IH y Hy) as [H1 H2]. split; [destruct H1; [by left|right; by apply queued_more]|intros Ha; by apply verified_more, H2]. }
  pose proof (perform_requeues c (w1 <| git := g |>)) as Hr. change (git (w1 <| git := g |>)) with g in Hr. change (state (w1 <| git := g |>)) with (state w1) in Hr.
  destruct Hr as [|k ref y -> Hy|k i y y' Hi Hq Hk Hid Hb Hv]; [apply Hold| |].
  - rewrite elem_of_app, list_elem_of_singleton. intros [Hx| ->]; [by apply Hold|]. destruct Hy as [Hy|[Hat Hy]].
    + split; [by left|]. intros Ha. by pose proof (status_unique _ _ _ Hy Ha).
    + split; [right|intros Ha; by pose proof (status_unique _ _ _ Hy Ha)]. exists k, ref, cs, g. split; [apply moment_last|exact Hat].
  - intros [j Hj]%list_elem_of_lookup. apply list_lookup_insert_Some in Hj as [(-> & <- & _)|[_ Hj]]; [|by eapply Hold, list_elem_of_lookup_2].
    assert (was_queued q now_text run_command cs w y') as Hwq.
    { apply (queued_same _ _ y); [done|done|]. destruct (IH y) as [[Hrep|?] _]; [by eapply list_elem_of_lookup_2| |done]. by pose proof (status_unique _ _ _ Hq Hrep). }
    split; [right; by apply queued_more|]. intros Ha. destruct Hv as [Hf|Hp]; [by pose proof (status_unique _ _ _ Ha Hf)|].
    exists k, c, cs, g. split; [apply moment_last|]. split; [by injection Hid as -> _|]. done.
Qed.
End Origins.

Lemma new_state_ok : queue_ok new_state.
Proof. constructor; cbn; [by intros k e; rewrite lookup_empty|by intros c Hc%not_elem_of_nil|constructor|done]. Qed.

(** * Properties *)
Section Properties.
Context {W : Type} `{Git W} (q : Queue) (now_text : nat → string) (run_command : list string → string → W → W * Outcome).
Context (Hgit : git_names (W := W)).


(** no call undoes what was recorded: the frozen base stays, receipts are
    only added, each bound to the one before by its hash, and a candidate that
    was accepted, failed or sent to repair is never changed. *)
Theorem records_are_final cs cs' (w : World W) :
  state w = new_state →
  let s := state (after q now_text run_command cs w) in
  let s' := state (after q now_text run_command cs' (after q now_text run_command cs w)) in
  kept s s' ∧ chain_ok (Str "") (receipts s').
Proof.
  intros Hw s s'. destruct (after_ok q now_text run_command Hgit cs w) as [Hok _]; [rewrite Hw; apply new_state_ok|].
  destruct (after_ok q now_text run_command Hgit cs' (after q now_text run_command cs w) Hok) as [Hok' Hk]. split; [exact Hk|apply (ok_chain _ Hok')].
Qed.

(** a worktree that is in use, has changes that are not committed, or
    whose operator left no cleanup receipt is not touched by a teardown: no git
    command that changes anything is run, no file is removed, and the report
    says why. *)
Theorem teardown_protects k d (w : World W) e f fs :
  tasks (state w) !! k = Some e → e ≠ [] → blockers e (git w) = f :: fs →
  let '(w', r) := teardown q now_text k d w in
  git w' = git w ∧ files w' = files w ∧ (∃ rep, r = Ok rep ∧ r_removed rep = false ∧ r_failures rep = f :: fs) ∧
  ∃ e', tasks (state w') !! k = Some e' ∧ is_status "cleanup-blocked" e' = true ∧ Val.get "path" e' = Val.get "path" e.
Proof.
  intros Hk He Hb. unfold teardown. rewrite bind_read, Hk. destruct e as [|kv e]; [done|]. rewrite bind_git_state, Hb. rewrite bind_closed.
  split; [done|]. split; [done|]. split; [by eexists|]. eexists. split; [apply lookup_insert_eq|].
  rewrite !is_status_ne, is_status_put by done. split; [done|]. by fields.
Qed.

(** a shared checkout is given to one task: while another task holds its
    lock, allocating it again fails and changes neither the queue nor the
    lock, unless the task is already attached to a worktree. *)
Theorem shared_checkout_exclusive t b p (w : World W) d :
  Str.truthy (id t) = true → files w !! lock_file q = Some d → owns_lock q (id t) d = false → attachable (tasks (state w) !! id t) = None →
  let '(w', r) := allocate q now_text t b "shared" p w in
  (∃ e, r = Err e) ∧ state w' = state w ∧ files w' = files w ∧ git w' = git w.
Proof.
  intros Hid Hf Ho Ha. unfold allocate. rewrite Hid. cbn [negb].
  rewrite bind_raise_if, bind_raise_if. change (bool_decide ("shared" ∈ ["worktree"; "shared"])) with true. cbn [negb]. rewrite bind_raise_if.
  change (String.eqb "shared" "shared") with true. destruct p; cbn [negb andb]; [|done || by split; [eexists|]].
  rewrite bind_read. unfold mbind at 1, prog_bind at 1. destruct (frozen_read q (state w) b w) as [[base|e] ->]; [|by split; [eexists|]].
  cbv zeta. rewrite bind_git_state. set (s2 := _ <| lanes := _ |>). change (tasks s2) with (tasks (state w)). rewrite Ha.
  unfold allocate_new. change (String.eqb "shared" "shared") with true. cbn iota. unfold acquire_shared_receipt.
  unfold mbind, prog_bind, of_lock. rewrite Hf, Ho. by split; [eexists|].
Qed.
End Properties.

(** ** The example *)

Lemma demo_names : git_names (W := Repo).
Proof.
  intros ref cwd g h. cbn. unfold named. destruct (String.eqb cwd demo_root).
  - destruct (String.eqb_spec (target g) ""); [done|]. by intros [= <-].
  - destruct (String.eqb_spec (default "" (dget cwd (worktrees g))) ""); [done|]. by intros [= <-].
Qed.


Lemma demo_reaches : demo_after demo_calls demo_world = demo_accepted.
Proof. vm_compute. reflexivity. Qed.


Lemma records_are_final_witness : chain_ok (Str "") (receipts (state (demo_after demo_calls (demo_after [] demo_world)))).
Proof. exact (proj2 (records_are_final demo_queue demo_now demo_run demo_names [] demo_calls demo_world eq_refl)). Defined.

Lemma teardown_protects_witness : git (teardown demo_queue demo_now "A" false demo_busy).1 = git demo_busy.
Proof.
  pose proof (teardown_protects demo_queue demo_now "A" false demo_busy demo_entry "active-worktree" []) as Hp.
  destruct (teardown demo_queue demo_now "A" false demo_busy) as [w r]. apply Hp; [vm_compute; reflexivity|discriminate|vm_compute; reflexivity].
Defined.

Lemma shared_checkout_exclusive_witness : state (allocate demo_queue demo_now task_b None "shared" true demo_shared).1 = state demo_shared.
Proof.
  pose proof (shared_checkout_exclusive demo_queue demo_now task_b None true demo_shared demo_lock) as Hp.
  destruct (allocate demo_queue demo_now task_b None "shared" true demo_shared) as [w r].
  apply Hp; [reflexivity|vm_compute; reflexivity|vm_compute; reflexivity|vm_compute; reflexivity].
Defined.

(** ** What the code does not do *)

(** A candidate that is queued again after the target moved is reported as
    drifted, but the first one stays queued, and is accepted. *)
Lemma drift_is_forgotten :
  let w := demo_after [(EnqueueMerge "A" "HEAD", moves_to "base2")] demo_queued in
  let w' := demo_after [(RunComposedVerification "A" [["true"]] "composed", same)] w in
  match (enqueue_merge demo_queue demo_now "A" "HEAD" (mkWorld (state demo_queued) (files demo_queued) (moves_to "base2" (git demo_queued)) 9)).2 with
  | Ok c => is_status "repair-required" c = true | Err _ => False end ∧
  target (git w') = "base2" ∧ base_sha (state w') = "base1" ∧ length (composed_candidates (state w')) = 1%nat.
Proof. vm_compute. done. Qed.

(** A commit whose verification failed can be queued again, which says queued,
    but never verified again. *)
Lemma failed_stays_failed :
  let w := demo_after [(RunComposedVerification "A" [["false"]] "composed", same); (EnqueueMerge "A" "HEAD", same)] demo_queued in
  (match tasks (state w) !! "A" with Some e => is_status "queued" e = true | None => False end) ∧
  (record_composed_verification demo_queue demo_now "A" true "composed" [] w).2 = Err (ValueError "candidate is not merge-queued: verification-failed").
Proof. vm_compute. done. Qed.

(** The receipt names the commit that was queued, not the one whose worktree the commands ran in. *)
Lemma verifies_another_commit :
  let w := demo_after [(RunComposedVerification "A" [["true"]] "composed", commits "A" "head2")] demo_queued in
  (sha (H := demo_git) "HEAD" (branch_path demo_queue "A") w).2 = Ok "head2" ∧
  (match composed_candidates (state w) with c :: _ => Val.eq (Val.get "head_sha" c) (Str "head1") = true | [] => False end).
Proof. vm_compute. done. Qed.

(** A task that is queued after its teardown counts as attached again: it gets
    the shared checkout that another task has locked. *)
Lemma shared_checkout_twice :
  let w := demo_after [(Teardown "A" false, same); (EnqueueMerge "A" "HEAD", same); (Allocate task_b None "shared" true, same)] demo_shared in
  (match files w !! lock_file demo_queue with Some d => owns_lock demo_queue "B" d = true | None => False end) ∧
  (match (allocate demo_queue demo_now task_a None "shared" true w).2 with Ok a => a_path a = demo_root ∧ a_reattached a = true | Err _ => False end).
Proof. vm_compute. done. Qed.

(** Tasks whose names differ in a separator only share path and branch; the second cannot be allocated. *)
Lemma slugs_collide :
  branch_path demo_queue "ui/menu" = branch_path demo_queue "ui-menu" ∧ branch_name demo_queue "ui/menu" = branch_name demo_queue "ui-menu" ∧
  (match (allocate demo_queue demo_now (mkTask "ui-menu" "" [] [] [] []) None "worktree" false
     (demo_after [(Allocate (mkTask "ui/menu" "" [] [] [] []) None "worktree" false, same)] demo_world)).2 with Err (GitRaised _) => True | _ => False end).
Proof. vm_compute. done. Qed.

(** Lanes are those of one registration: tasks that conflict get different ones when they are registered apart. *)
Lemma lanes_forget_batches :
  let w := demo_after [(RegisterTasks [task_a] None, same); (RegisterTasks [task_b] None, same)] demo_world in
  lanes (state w) !! "A" ≠ lanes (state w) !! "B" ∧ dget "A" (lanes_of [task_a; task_b]) = dget "B" (lanes_of [task_a; task_b]).
Proof. vm_compute. done. Qed.
