(* ===== verification/FanoutWaves.v ===== *)
(** Fan-out of tasks over a repository (the planning part of
    [simplicio_loop/context_graph_fanout.py]): what a task touches, the order
    that dependencies and contention ask for, and the waves of tasks that may
    run side by side. *)
From stdpp Require Import gmap sorting.
From S2P Require Import Prelude PyLib PyText Graph.
Import Json.
Local Open Scope Z_scope.
Local Open Scope py_scope.

(** * Definitions *)

Definition SCHEMA : string := "simplicio.context-graph-fanout/v1".

Inductive FanoutExn : Type := ConflictGraphError (msg : string) | ValueError (msg : string).

Record TaskEnvelope := mkEnvelope {
  task_id : string; mutation_targets : list string; symbols : list string; reverse_dependencies : list string;
  tests : list string; resources : list string; depends_on : list string; authority_hash : string }.

(** [tuple(sorted({str(value).replace("\\", "/").strip() for value in values if str(value).strip()}))] *)
Definition slashes (v : string) : string := Text.replace Text.backslash Text.slash v.
Definition clean (values : list string) : list string :=
  sorted_set ((λ v, Str.strip (slashes v)) <$> List.filter (λ v, Str.truthy (Str.strip v)) values).

(** [TaskEnvelope.__post_init__] *)
Definition make_envelope (t : TaskEnvelope) : result FanoutExn TaskEnvelope :=
  if negb (Str.truthy (Str.strip (task_id t))) then Err (ValueError "task_id is required")
  else Ok (mkEnvelope (Str.strip (task_id t)) (clean (mutation_targets t)) (clean (symbols t)) (clean (reverse_dependencies t))
             (clean (tests t)) (clean (resources t)) (clean (depends_on t)) (Str.strip (authority_hash t))).

Definition texts (l : list string) : json := List (Str <$> l).
Definition fingerprint (t : TaskEnvelope) : string :=
  Sha256.hexdigest (dumps true (Obj [("task_id", Str (task_id t)); ("mutation_targets", texts (mutation_targets t)); ("symbols", texts (symbols t));
    ("reverse_dependencies", texts (reverse_dependencies t)); ("tests", texts (tests t)); ("resources", texts (resources t));
    ("depends_on", texts (depends_on t)); ("authority_hash", Str (authority_hash t))])).

(** ** The conflict graph *)

Record Reason := mkReason { code : string; confidence : string; hard : bool }.
(** What a task comes after, and for which reasons. *)
Record Row := mkRow { row_after : list string; row_reasons : list (string * list Reason) }.
Notation rows := (list (string * Row)).

Definition envelope_le (x y : TaskEnvelope) : Prop := String.le (task_id x) (task_id y).
#[export] Instance envelope_le_dec x y : Decision (envelope_le x y).
Proof. unfold envelope_le. apply _. Defined.
Definition in_order (tasks : list TaskEnvelope) : list TaskEnvelope := merge_sort envelope_le tasks.

Definition row_of (g : rows) (i : string) : Row := default (mkRow [] []) (dget i g).
Definition after_of (g : rows) (i : string) : list string := row_after (row_of g i).

(** [add] of [conflict_graph] *)
Definition add (before after : string) (r : Reason) (g : rows) : rows :=
  if String.eqb before after then g
  else
    let row := row_of g after in
    let a := if bool_decide (before ∈ row_after row) then row_after row else row_after row ++ [before] in
    dput after (mkRow a (dput before (default [] (dget before (row_reasons row)) ++ [r]) (row_reasons row))) g.

Definition explicit : Reason := mkReason "explicit_dependency" "certain" true.
Definition reversed : Reason := mkReason "reverse_dependency" "high" true.

Fixpoint add_explicit (ids : list string) (i : string) (deps : list string) (g : rows) : result FanoutExn rows :=
  match deps with
  | [] => Ok g
  | d :: deps' =>
      if bool_decide (d ∈ ids) then add_explicit ids i deps' (add d i explicit g)
      else Err (ConflictGraphError ("unknown dependency " +:+ d +:+ " for " +:+ i))
  end.
Definition add_reversed (ids : list string) (i : string) (deps : list string) (g : rows) : rows :=
  foldl (λ g d, if bool_decide (d ∈ ids) then add d i reversed g else g) g deps.
Fixpoint add_declared (ids : list string) (tasks : list TaskEnvelope) (g : rows) : result FanoutExn rows :=
  match tasks with
  | [] => Ok g
  | t :: tasks' =>
      let? g := add_explicit ids (task_id t) (depends_on t) g in
      add_declared ids tasks' (add_reversed ids (task_id t) (reverse_dependencies t) g)
  end.

Definition common (xs ys : list string) : bool := existsb (λ x, bool_decide (x ∈ ys)) xs.
(** What two tasks both touch. *)
Definition contention (l r : TaskEnvelope) : list Reason :=
  (if common (mutation_targets l) (mutation_targets r) then [mkReason "shared_mutation_target" "certain" true] else []) ++
  (if common (symbols l) (symbols r) then [mkReason "shared_symbol" "high" true] else []) ++
  (if common (tests l) (tests r) then [mkReason "test_contention" "medium" false] else []) ++
  (if common (resources l) (resources r) then [mkReason "resource_contention" "medium" false] else []).
Definition add_pair (g : rows) (p : TaskEnvelope * TaskEnvelope) : rows :=
  foldl (λ g r, add (task_id p.1) (task_id p.2) r g) g (contention p.1 p.2).

Definition reason_le (x y : Reason) : Prop :=
  (code x ≠ code y ∧ String.le (code x) (code y)) ∨ (code x = code y ∧ String.le (confidence x) (confidence y)).
#[export] Instance reason_le_dec x y : Decision (reason_le x y).
Proof. unfold reason_le. apply _. Defined.
Definition sort_row (r : Row) : Row :=
  mkRow (py_sorted (row_after r)) ((λ br, (br.1, merge_sort reason_le br.2)) <$> row_reasons r).

Definition ids (tasks : list TaskEnvelope) : list string := task_id <$> tasks.
Definition conflict_graph (tasks : list TaskEnvelope) : result FanoutExn rows :=
  if negb (bool_decide (NoDup (ids tasks))) then Err (ConflictGraphError "duplicate task id")
  else
    let g := (λ t, (task_id t, mkRow [] [])) <$> in_order tasks in
    let? g := add_declared (ids tasks) tasks g in
    let g := foldl add_pair g (all_pairs (in_order tasks)) in
    Ok ((λ ir, (ir.1, sort_row ir.2)) <$> g).

(** ** Waves *)

Definition ready (g : rows) (remaining : gset string) : list string :=
  py_sorted (List.filter (λ i, forallb (λ d, negb (bool_decide (d ∈ remaining))) (after_of g i)) (elements remaining)).

(** The loop of [execution_waves]; [None] when the fuel is used up. *)
Fixpoint waves_loop (fuel : nat) (g : rows) (capacity : Z) (remaining : gset string) : option (result FanoutExn (list (list string))) :=
  if bool_decide (remaining = ∅) then Some (Ok [])
  else
    match fuel with
    | O => None
    | S fuel' =>
        if bool_decide (ready g remaining = []) then Some (Err (ConflictGraphError "ambiguous or cyclic high-risk conflict"))
        else
          let wave := take (Z.to_nat capacity) (ready g remaining) in
          match waves_loop fuel' g capacity (remaining ∖ list_to_set wave) with
          | Some (Ok waves) => Some (Ok (wave :: waves))
          | r => r
          end
    end.

Record Waves := mkWaves { waves : list (list string); graph : rows; capacity_ : Z; task_count : nat }.

(** [execution_waves]: one round for each task is enough. *)
Definition execution_waves (tasks : list TaskEnvelope) (capacity : Z) : option (result FanoutExn Waves) :=
  if capacity <? 1 then Some (Err (ValueError "capacity must be positive"))
  else
    match conflict_graph tasks with
    | Err e => Some (Err e)
    | Ok g =>
        match waves_loop (length tasks) g capacity (list_to_set (ids tasks)) with
        | Some (Ok ws) => Some (Ok (mkWaves ws g capacity (length tasks)))
        | Some (Err e) => Some (Err e)
        | None => None
        end
    end.

(** ** Specification *)

(** The task [i] must wait for [d]: it depends on it, or [d] is a task that
    depends on it, or the two touch the same and [d] comes first by name. *)
Definition waits_for (tasks : list TaskEnvelope) (i d : string) : Prop :=
  d ≠ i ∧ ∃ t, t ∈ tasks ∧ task_id t = i ∧
    (d ∈ depends_on t ∨ (d ∈ reverse_dependencies t ∧ d ∈ ids tasks) ∨
     ∃ u, u ∈ tasks ∧ task_id u = d ∧ String.le d i ∧ contention u t ≠ []).

(** What the tasks ask for themselves. *)
Definition declared (known : list string) (tasks : list TaskEnvelope) (j d : string) : Prop :=
  ∃ t, t ∈ tasks ∧ task_id t = j ∧ d ≠ j ∧ (d ∈ depends_on t ∨ (d ∈ reverse_dependencies t ∧ d ∈ known)).

Definition names_known (tasks : list TaskEnvelope) : Prop := ∀ t d, t ∈ tasks → d ∈ depends_on t → d ∈ ids tasks.

(** Names are unique, dependencies known, and every set of tasks has one that
    waits for none of the others. *)
Definition orderable (tasks : list TaskEnvelope) : Prop :=
  NoDup (ids tasks) ∧ names_known tasks ∧
  ∀ Q : gset string, Q ⊆ list_to_set (ids tasks) → Q ≠ ∅ → ∃ i, i ∈ Q ∧ ∀ d, waits_for tasks i d → d ∉ Q.

(** What a plan promises. *)
Record plan_ok (tasks : list TaskEnvelope) (capacity : Z) (ws : list (list string)) : Prop := {
  plan_all : concat ws ≡ₚ ids tasks;
  plan_size : ∀ w, w ∈ ws → 1 <= Z.of_nat (length w) <= capacity;
  plan_order : ∀ k w i d, ws !! k = Some w → i ∈ w → waits_for tasks i d → d ∈ concat (take k ws);
  plan_apart : ∀ w t u, w ∈ ws → t ∈ tasks → u ∈ tasks → t ≠ u → task_id t ∈ w → task_id u ∈ w → contention t u = [];
  plan_eager : ∀ k w i, ws !! k = Some w → Z.of_nat (length w) < capacity → i ∈ concat (drop (S k) ws) →
    ∃ d, waits_for tasks i d ∧ d ∈ concat (drop k ws);
}.

(** The loop as a relation on what remains. *)
Inductive planned (g : rows) (n : nat) : gset string → list (list string) → Prop :=
| planned_nil : planned g n ∅ []
| planned_cons P w ws : w = take n (ready g P) → w ≠ [] → planned g n (P ∖ list_to_set w) ws → planned g n P (w :: ws).

(** An example: [b] waits for [a] by name, since both change [x.py]; [c] asks for [a]. *)
Definition demo_envelope (i : string) (targets deps : list string) : TaskEnvelope := mkEnvelope i targets [] [] [] [] deps "".
Definition demo_fanout : list TaskEnvelope :=
  [demo_envelope "c" [] ["a"]; demo_envelope "b" ["x.py"] []; demo_envelope "a" ["x.py"] []; demo_envelope "d" [] []].

(** * Lemmas *)

Example demo_fanout_waves :
  match execution_waves demo_fanout 2 with Some (Ok p) => waves p = [["a"; "d"]; ["b"; "c"]] | _ => False end.
Proof. vm_compute. reflexivity. Qed.

(** ** Edges *)

Lemma after_put g a r i : after_of (dput a r g) i = if decide (i = a) then row_after r else after_of g i.
Proof. unfold after_of, row_of. rewrite dget_put. by destruct (decide _). Qed.

Lemma add_spec b a r g i d : d ∈ after_of (add b a r g) i ↔ d ∈ after_of g i ∨ (b ≠ a ∧ i = a ∧ d = b).
Proof.
  unfold add. destruct (String.eqb_spec b a) as [->|Hne]; [naive_solver|]. rewrite after_put.
  destruct (decide (i = a)) as [->|Hia]; [|naive_solver]. cbn [row_after]. fold (after_of g a).
  case_bool_decide; [naive_solver|]. rewrite elem_of_app, list_elem_of_singleton. naive_solver.
Qed.

Lemma add_explicit_spec known i ds g g' : add_explicit known i ds g = Ok g' →
  (∀ d, d ∈ ds → d ∈ known) ∧ ∀ j d, d ∈ after_of g' j ↔ d ∈ after_of g j ∨ (j = i ∧ d ≠ i ∧ d ∈ ds).
Proof.
  revert g. induction ds as [|e ds IH]; intros g; cbn [add_explicit].
  - intros [= <-]. split; [by intros d ?%not_elem_of_nil|]. intros j d. rewrite elem_of_nil. naive_solver.
  - case_bool_decide as He; [|done]. intros [Hin Hg]%IH. setoid_rewrite elem_of_cons. split; [naive_solver|].
    intros j d. rewrite Hg, add_spec. naive_solver.
Qed.

Lemma add_explicit_total known i ds g : (∀ d, d ∈ ds → d ∈ known) → ∃ g', add_explicit known i ds g = Ok g'.
Proof.
  revert g. induction ds as [|e ds IH]; intros g Hin; cbn [add_explicit]; [by eexists|].
  setoid_rewrite elem_of_cons in Hin. rewrite bool_decide_eq_true_2 by auto. auto.
Qed.

Lemma add_reversed_spec known i ds g j d :
  d ∈ after_of (add_reversed known i ds g) j ↔ d ∈ after_of g j ∨ (j = i ∧ d ≠ i ∧ d ∈ ds ∧ d ∈ known).
Proof.
  unfold add_reversed. revert g. induction ds as [|e ds IH]; intros g; cbn [foldl]; [rewrite elem_of_nil; naive_solver|].
  rewrite IH, elem_of_cons. case_bool_decide; [rewrite add_spec|]; naive_solver.
Qed.

Lemma add_declared_spec known tasks g g' : add_declared known tasks g = Ok g' →
  (∀ t d, t ∈ tasks → d ∈ depends_on t → d ∈ known) ∧ ∀ j d, d ∈ after_of g' j ↔ d ∈ after_of g j ∨ declared known tasks j d.
Proof.
  unfold declared. revert g. induction tasks as [|t tasks IH]; intros g; cbn [add_declared].
  - intros [= <-]. setoid_rewrite elem_of_nil. naive_solver.
  - destruct (add_explicit _ _ _ g) as [g1|] eqn:E; [|done]. cbn [rbind]. apply add_explicit_spec in E as [Hk Hg1].
    intros [Hks Hg]%IH. setoid_rewrite elem_of_cons. split; [naive_solver|]. intros j d. rewrite Hg, add_reversed_spec, Hg1. naive_solver.
Qed.

Lemma add_declared_total known tasks g : (∀ t d, t ∈ tasks → d ∈ depends_on t → d ∈ known) → ∃ g', add_declared known tasks g = Ok g'.
Proof.
  revert g. induction tasks as [|t tasks IH]; intros g Hk; cbn [add_declared]; [by eexists|]. setoid_rewrite elem_of_cons in Hk.
  destruct (add_explicit_total known (task_id t) (depends_on t) g) as [g1 ->]; [by eauto|]. cbn [rbind]. eauto.
Qed.

Lemma add_declared_err known tasks g e : add_declared known tasks g = Err e → ∃ m, e = ConflictGraphError m.
Proof.
  assert (∀ i ds g e, add_explicit known i ds g = Err e → ∃ m, e = ConflictGraphError m) as Hx.
  { intros i ds. induction ds as [|d ds IH]; intros g' e'; cbn [add_explicit]; [done|]. case_bool_decide; [apply IH|]. intros [= <-]. by eexists. }
  revert g. induction tasks as [|t tasks IH]; intros g; cbn [add_declared]; [done|].
  destruct (add_explicit _ _ _ g) as [g1|] eqn:E; cbn [rbind]; [apply IH|]. intros [= <-]. by eapply Hx.
Qed.

Lemma add_pair_spec g p i d : d ∈ after_of (add_pair g p) i ↔
  d ∈ after_of g i ∨ (contention p.1 p.2 ≠ [] ∧ task_id p.1 ≠ task_id p.2 ∧ i = task_id p.2 ∧ d = task_id p.1).
Proof.
  unfold add_pair. generalize (contention p.1 p.2). intros rs. revert g. induction rs as [|r rs IH]; intros g; cbn [foldl]; [naive_solver|].
  rewrite IH, add_spec. naive_solver.
Qed.

Lemma add_pairs_spec g l i d : d ∈ after_of (foldl add_pair g l) i ↔
  d ∈ after_of g i ∨ ∃ p, p ∈ l ∧ contention p.1 p.2 ≠ [] ∧ task_id p.1 ≠ task_id p.2 ∧ i = task_id p.2 ∧ d = task_id p.1.
Proof.
  revert g. induction l as [|p l IH]; intros g; cbn [foldl]; [setoid_rewrite elem_of_nil; naive_solver|].
  rewrite IH, add_pair_spec. setoid_rewrite elem_of_cons. naive_solver.
Qed.

#[export] Instance envelope_le_total : Total envelope_le.
Proof. intros x y. apply (total String.le). Qed.
#[export] Instance envelope_le_trans : Transitive envelope_le.
Proof. intros x y z. unfold envelope_le. apply transitivity. Qed.

Lemma StronglySorted_lookup {A} (R : relation A) l i j x y :
  StronglySorted R l → (i < j)%nat → l !! i = Some x → l !! j = Some y → R x y.
Proof.
  intros Hl Hij Hi Hj. rewrite <- (take_drop j l) in Hl. eapply StronglySorted_app_1_elem_of; [exact Hl| |].
  - eapply list_elem_of_lookup_2 with (i := i). by rewrite lookup_take_lt.
  - eapply list_elem_of_lookup_2 with (i := 0%nat). by rewrite lookup_drop, Nat.add_0_r.
Qed.

Lemma same_task tasks x y : NoDup (ids tasks) → x ∈ tasks → y ∈ tasks → task_id x = task_id y → x = y.
Proof.
  intros Hnd [i Hi]%list_elem_of_lookup [j Hj]%list_elem_of_lookup E. assert (i = j) as <-; [|congruence].
  apply (NoDup_lookup (ids tasks) i j (task_id x)); [done| |]; unfold ids; rewrite list_lookup_fmap; [by rewrite Hi|by rewrite Hj, E].
Qed.

(** The pairs of the sorted tasks are the pairs in the order of their names. *)
Lemma in_order_pairs tasks u t : NoDup (ids tasks) →
  (u, t) ∈ all_pairs (in_order tasks) ↔ u ∈ tasks ∧ t ∈ tasks ∧ u ≠ t ∧ String.le (task_id u) (task_id t).
Proof.
  intros Hnd. assert (in_order tasks ≡ₚ tasks) as Hp by apply merge_sort_Permutation.
  assert (NoDup (in_order tasks)) as Hs by (rewrite Hp; by eapply NoDup_fmap_1).
  assert (StronglySorted envelope_le (in_order tasks)) as Hle.
  { apply (StronglySorted_merge_sort envelope_le). }
  rewrite <- (elem_of_Permutation_proper u _ _ Hp), <- (elem_of_Permutation_proper t _ _ Hp), elem_of_all_pairs. split.
  - intros (i & j & Hij & Hi & Hj). pose proof (list_elem_of_lookup_2 _ _ _ Hi). pose proof (list_elem_of_lookup_2 _ _ _ Hj).
    split_and!; [done|done| |exact (StronglySorted_lookup envelope_le _ i j u t Hle Hij Hi Hj)].
    intros ->. assert (i = j) by (eapply NoDup_lookup; done). lia.
  - intros ([i Hi]%list_elem_of_lookup & [j Hj]%list_elem_of_lookup & Hne & Hl).
    destruct (Nat.lt_trichotomy i j) as [?|[->|Hji]]; [by exists i, j|congruence|].
    assert (envelope_le t u) as Hl' by by exact (StronglySorted_lookup envelope_le _ j i t u Hle Hji Hj Hi).
    destruct Hne. apply (same_task tasks); [done| | |by apply (anti_symm String.le)].
    + rewrite <- (elem_of_Permutation_proper u _ _ Hp). by eapply list_elem_of_lookup_2.
    + rewrite <- (elem_of_Permutation_proper t _ _ Hp). by eapply list_elem_of_lookup_2.
Qed.

Lemma after_sorted g i : after_of ((λ ir, (ir.1, sort_row ir.2)) <$> g) i = py_sorted (after_of g i).
Proof.
  unfold after_of, row_of. rewrite dget_map. by destruct (dget i g).
Qed.

Lemma after_start l i : after_of ((λ t, (task_id t, mkRow [] [])) <$> l) i = [].
Proof.
  unfold after_of, row_of. induction l as [|t l IH]; [done|]. rewrite fmap_cons, dget_cons. by destruct (decide (task_id t = i)).
Qed.

(** The edges of the graph are the reasons to wait. *)
Lemma fanout_graph_spec tasks g : conflict_graph tasks = Ok g →
  NoDup (ids tasks) ∧ names_known tasks ∧ ∀ i d, d ∈ after_of g i ↔ waits_for tasks i d.
Proof.
  unfold conflict_graph. case_bool_decide as Hnd; [|done]. cbn [negb].
  destruct (add_declared _ tasks _) as [g1|] eqn:E; [|done]. cbn [rbind]. intros [= <-].
  apply add_declared_spec in E as [Hk Hg1]. split; [done|]. split; [done|]. intros i d.
  rewrite after_sorted, elem_of_py_sorted, add_pairs_spec, Hg1, after_start, elem_of_nil. unfold waits_for, declared. split.
  - intros [[[]|(t & Ht & Hi & Hne & H)]|([u t] & Hp & Hc & Hne & -> & ->)].
    + split; [done|]. exists t. tauto.
    + apply in_order_pairs in Hp as (Hu & Ht & _ & Hle); [|done]. cbn in *. split; [done|]. exists t. eauto 10.
  - intros (Hne & t & Ht & Hi & [H|[H|(u & Hu & Hd & Hle & Hc)]]); [by left; right; exists t; auto..|].
    right. exists (u, t). cbn. subst i d. split_and!; [|done..]. apply in_order_pairs; [done|]. split_and!; [done|done| |done]. by intros ->.
Qed.

Lemma conflict_graph_total tasks : NoDup (ids tasks) → names_known tasks → ∃ g, conflict_graph tasks = Ok g.
Proof.
  intros Hnd Hk. unfold conflict_graph. rewrite bool_decide_eq_true_2 by done. cbn [negb].
  destruct (add_declared_total (ids tasks) tasks ((λ t, (task_id t, mkRow [] [])) <$> in_order tasks)) as [g ->]; [exact Hk|]. by eexists.
Qed.

(** ** The loop *)

Lemma elem_of_ready g P i : i ∈ ready g P ↔ i ∈ P ∧ ∀ d, d ∈ after_of g i → d ∉ P.
Proof.
  unfold ready. rewrite elem_of_py_sorted, elem_of_Listfilter, elem_of_elements, forallb_forall. apply and_iff_compat_l.
  split; intros H d Hd.
  - apply list_elem_of_In, H, negb_true_iff, bool_decide_eq_false in Hd. done.
  - apply list_elem_of_In, H in Hd. by rewrite bool_decide_eq_false_2.
Qed.

Lemma NoDup_ready g P : NoDup (ready g P).
Proof. unfold ready, py_sorted. rewrite merge_sort_Permutation. apply NoDup_Listfilter, NoDup_elements. Qed.

Lemma size_minus_list (P : gset string) l : l ≠ [] → (∀ i, i ∈ l → i ∈ P) → (size (P ∖ list_to_set l) < size P)%nat.
Proof.
  intros Hl Hin. apply subset_size. split; [set_solver|]. destruct l as [|i l]; [done|].
  intros H. specialize (H i (Hin i ltac:(by left))). set_solver.
Qed.

Lemma elem_of_wave g n P i : i ∈ take n (ready g P) → i ∈ P ∧ ∀ d, d ∈ after_of g i → d ∉ P.
Proof. intros Hi. apply elem_of_ready. eapply elem_of_sublist; [done|]. apply sublist_take. Qed.

(** The loop returns, and what it returns is a plan or the proof of a cycle. *)
Lemma waves_loop_spec fuel g cap P : 1 <= cap → (size P <= fuel)%nat →
  ∃ r, waves_loop fuel g cap P = Some r ∧
    match r with Ok ws => planned g (Z.to_nat cap) P ws | Err e => (∃ m, e = ConflictGraphError m) ∧ ¬ acyclic (after_of g) P end.
Proof.
  intros Hcap. revert P. induction fuel as [|fuel IH]; intros P Hsz; cbn [waves_loop]; case_bool_decide as HP.
  1,3: exists (Ok []); subst P; split; [done|constructor].
  { destruct HP. apply leibniz_equiv, size_empty_inv. lia. }
  case_bool_decide as Hr.
  - eexists. split; [done|]. split; [by eexists|]. intros Hac. destruct (Hac P) as (i & Hi); [done|done|].
    apply elem_of_ready in Hi. rewrite Hr in Hi. by apply not_elem_of_nil in Hi.
  - set (w := take (Z.to_nat cap) (ready g P)).
    assert (w ≠ []) as Hw. { unfold w. destruct (ready g P); [done|]. by destruct (Z.to_nat cap) eqn:E; [lia|]. }
    assert (size (P ∖ list_to_set w) < size P)%nat as Hlt. { apply size_minus_list; [done|]. intros i Hi. by apply elem_of_wave in Hi as [? _]. }
    destruct (IH (P ∖ list_to_set w)) as ([ws|e] & -> & H); [lia| |]; eexists; (split; [done|]).
    + by econstructor.
    + destruct H as [? H]. split; [done|]. intros Hac. apply H. eapply acyclic_subseteq; [|done]. set_solver.
Qed.

Lemma planned_acyclic g n P ws : planned g n P ws → acyclic (after_of g) P.
Proof.
  induction 1 as [|P w ws -> Hw _ IH]; intros Q HQ Hne; [set_solver|].
  destruct (decide (∃ i, i ∈ Q ∧ i ∈ take n (ready g P))) as [(i & Hi & Hw')|Hno].
  - exists i. split; [done|]. intros d Hd Hdq. apply elem_of_wave in Hw' as [_ Hw']. by apply (Hw' d Hd), HQ.
  - apply IH; [|done]. intros i Hi. apply elem_of_difference. split; [by apply HQ|]. rewrite elem_of_list_to_set. intros ?. apply Hno. by exists i.
Qed.

Lemma planned_perm g n P ws : planned g n P ws → concat ws ≡ₚ elements P.
Proof.
  induction 1 as [|P w ws -> Hw _ IH]; [by rewrite elements_empty|]. cbn [concat]. rewrite IH.
  set (w := take n (ready g P)).
  assert (P = list_to_set w ∪ P ∖ list_to_set w) as E.
  { apply union_difference_L. intros i Hi. by apply elem_of_list_to_set, elem_of_wave in Hi as [? _]. }
  rewrite E at 2. rewrite elements_disj_union by set_solver. f_equiv. rewrite elements_list_to_set; [done|].
  eapply sublist_NoDup; [apply NoDup_ready|apply sublist_take].
Qed.

Lemma planned_elem g n P ws i : planned g n P ws → i ∈ concat ws ↔ i ∈ P.
Proof. intros H%planned_perm. rewrite (elem_of_Permutation_proper i _ _ H). apply elem_of_elements. Qed.

(** What the waves are at any place: those before are done, and the wave is
    the first [n] of those that are ready then. *)
Lemma planned_at g n P ws k w : planned g n P ws → ws !! k = Some w →
  ∃ P', w = take n (ready g P') ∧ w ≠ [] ∧ planned g n P' (drop k ws) ∧ planned g n (P' ∖ list_to_set w) (drop (S k) ws) ∧
    ∀ i, i ∈ P ↔ i ∈ P' ∨ i ∈ concat (take k ws).
Proof.
  intros H. revert k w. induction H as [|P w ws Ew Hw H IH]; intros [|k] w'; [done..| |].
  - intros [= <-]. exists P. split; [done|]. split; [done|]. rewrite drop_0. split; [by econstructor|]. split; [done|].
    cbn. setoid_rewrite elem_of_nil. naive_solver.
  - intros Hk. destruct (IH k w' Hk) as (P' & ? & ? & ? & ? & Hel). exists P'. split_and!; [done..|]. intros i. cbn [take concat].
    rewrite elem_of_app. specialize (Hel i). rewrite elem_of_difference, elem_of_list_to_set in Hel.
    destruct (decide (i ∈ w)) as [Hi|Hi]; [|naive_solver]. rewrite Ew in Hi. apply elem_of_wave in Hi as Hi'. naive_solver.
Qed.

(** ** Plans *)

Lemma common_sym xs ys : common xs ys = common ys xs.
Proof.
  apply eq_true_iff_eq. unfold common. rewrite !existsb_exists. setoid_rewrite bool_decide_eq_true. setoid_rewrite <- list_elem_of_In.
  by split; intros (x & ? & ?); exists x.
Qed.

Lemma contention_sym t u : contention t u = contention u t.
Proof. unfold contention. by rewrite (common_sym (mutation_targets t)), (common_sym (symbols t)), (common_sym (tests t)), (common_sym (resources t)). Qed.

Lemma waits_for_known tasks i d : names_known tasks → waits_for tasks i d → d ∈ ids tasks.
Proof. intros Hk (_ & t & Ht & _ & [H|[[_ H]|(u & Hu & <- & _)]]); [by apply (Hk t)|done|by apply list_elem_of_fmap_2]. Qed.

Lemma not_ready g P i : i ∈ P → i ∉ ready g P → ∃ d, d ∈ after_of g i ∧ d ∈ P.
Proof.
  intros Hi Hr. destruct (decide (Exists (.∈ P) (after_of g i))) as [(d & Hd & HP)%Exists_exists|Hno]; [by exists d|].
  destruct Hr. apply elem_of_ready. split; [done|]. intros d Hd HP. apply Hno, Exists_exists. by exists d.
Qed.

Section Plan.
Context (tasks : list TaskEnvelope) (g : rows) (capacity : Z) (ws : list (list string)).
Context (Hnd : NoDup (ids tasks)) (Hk : names_known tasks) (Hg : ∀ i d, d ∈ after_of g i ↔ waits_for tasks i d) (Hcap : 1 <= capacity).
Context (Hp : planned g (Z.to_nat capacity) (list_to_set (ids tasks)) ws).

Lemma wave_waits k w i d : ws !! k = Some w → i ∈ w → waits_for tasks i d → d ∈ concat (take k ws) ∧ d ∉ w.
Proof.
  intros Hw Hi Hd. destruct (planned_at _ _ _ _ _ _ Hp Hw) as (P' & Ew & _ & _ & _ & Hel). rewrite Ew in Hi. apply elem_of_wave in Hi as [_ Hi].
  assert (d ∉ P') as HP by (by apply Hi, Hg). split.
  - apply (waits_for_known _ _ _ Hk) in Hd. destruct (Hel d) as [H _]. destruct H as [?|?]; [by apply elem_of_list_to_set|done|done].
  - rewrite Ew. by intros [? _]%elem_of_wave.
Qed.

Lemma planned_ok : plan_ok tasks capacity ws.
Proof.
  split.
  - rewrite (planned_perm _ _ _ _ Hp). apply NoDup_Permutation; [apply NoDup_elements|done|]. intros x. by rewrite elem_of_elements, elem_of_list_to_set.
  - intros w [k Hw]%list_elem_of_lookup. destruct (planned_at _ _ _ _ _ _ Hp Hw) as (P' & Ew & Hne & _).
    assert (length w <= Z.to_nat capacity)%nat by (rewrite Ew, length_take; lia). destruct w; [done|]. cbn [length] in *. lia.
  - intros k w i d Hw Hi Hd. by apply (wave_waits k w i d).
  - intros w t u [k Hw]%list_elem_of_lookup Ht Hu Hne Htw Huw. destruct (contention t u) eqn:E; [done|]. exfalso.
    assert (task_id t ≠ task_id u) as Hid by (intros ?; by apply Hne, (same_task tasks)).
    destruct (total String.le (task_id t) (task_id u)) as [Hle|Hle].
    + apply (wave_waits k w (task_id u) (task_id t) Hw Huw); [|done]. split; [done|]. exists u. split_and!; [done..|].
      right; right. exists t. by rewrite E.
    + apply (wave_waits k w (task_id t) (task_id u) Hw Htw); [|done]. split; [done|]. exists t. split_and!; [done..|].
      right; right. exists u. by rewrite contention_sym, E.
  - intros k w i Hw Hlt Hi. destruct (planned_at _ _ _ _ _ _ Hp Hw) as (P' & Ew & _ & Hd & Hd' & _).
    rewrite (planned_elem _ _ _ _ i Hd') in Hi. apply elem_of_difference in Hi as [HiP Hi]. rewrite elem_of_list_to_set in Hi.
    assert (w = ready g P') as Er. { rewrite Ew in Hlt |- *. rewrite length_take in Hlt. apply take_ge. lia. }
    destruct (not_ready g P' i HiP) as (d & Hdi & HdP); [by rewrite <- Er|]. exists d. split; [by apply Hg|]. by apply (planned_elem _ _ _ _ _ Hd).
Qed.
End Plan.

(** * Properties *)

(** C27: planning always ends. It succeeds exactly when names are unique,
    dependencies are known and the reasons to wait have no cycle; then every
    task is in exactly one wave, no wave is empty or above the capacity, each
    task comes in a later wave than all it waits for, tasks of one wave touch
    nothing in common, and a task is only left out of a wave with room when it
    waits for one that is not done. *)
Theorem waves_exact tasks capacity : 1 <= capacity →
  ∃ r, execution_waves tasks capacity = Some r ∧
    match r with
    | Ok p => orderable tasks ∧ plan_ok tasks capacity (waves p)
    | Err e => ¬ orderable tasks ∧ ∃ m, e = ConflictGraphError m
    end.
Proof.
  intros Hcap. unfold execution_waves. destruct (Z.ltb_spec capacity 1) as [?|_]; [lia|].
  destruct (conflict_graph tasks) as [g|e] eqn:E.
  - apply fanout_graph_spec in E as (Hnd & Hk & Hg).
    assert (orderable tasks ↔ acyclic (after_of g) (list_to_set (ids tasks))) as Hor.
    { unfold orderable, acyclic. split.
      - intros (_ & _ & Ho) Q HQ Hne. destruct (Ho Q HQ Hne) as (i & Hi & Hd). exists i. split; [done|]. intros d Hdi. by apply Hd, Hg.
      - intros Ho. split; [done|]. split; [done|]. intros Q HQ Hne. destruct (Ho Q HQ Hne) as (i & Hi & Hd). exists i. split; [done|]. intros d Hdi. by apply Hd, Hg. }
    destruct (waves_loop_spec (length tasks) g capacity (list_to_set (ids tasks)) Hcap) as ([ws|e] & -> & H).
    { rewrite size_list_to_set by done. unfold ids. by rewrite length_fmap. }
    + eexists. split; [done|]. cbn [waves]. split; [by eapply Hor, planned_acyclic|]. by apply (planned_ok tasks g).
    + destruct H as [[m ->] Hn]. eexists. split; [done|]. split; [by intros ?%Hor|by exists m].
  - eexists. split; [done|]. split.
    + intros (Hnd & Hk & _). destruct (conflict_graph_total tasks Hnd Hk) as [g Hg]. congruence.
    + unfold conflict_graph in E. case_bool_decide; [|injection E as <-; by eexists]. cbn [negb] in E.
      destruct (add_declared _ _ _) as [?|e'] eqn:E'; [done|]. injection E as <-. by eapply add_declared_err.
Qed.

(** ** The example *)

Lemma waves_exact_witness : ∃ p, execution_waves demo_fanout 2 = Some (Ok p) ∧ plan_ok demo_fanout 2 (waves p).
Proof.
  destruct (waves_exact demo_fanout 2) as ([p|e] & E & H); [lia| |].
  - exists p. split; [exact E|exact (proj2 H)].
  - exfalso. revert E. vm_compute. discriminate.
Defined.

(** ** What the code does not do *)

(** A task that depends on one that comes later by name, and changes the same
    file, is refused as a cycle: the name orders the two the other way. *)
Lemma dependency_against_names :
  execution_waves [demo_envelope "a" ["x.py"] ["b"]; demo_envelope "b" ["x.py"] []] 4 =
    Some (Err (ConflictGraphError "ambiguous or cyclic high-risk conflict")).
Proof. vm_compute. reflexivity. Qed.

(** Contention that is not hard fails closed as well, as a high-risk conflict. *)
Lemma soft_conflicts_fail :
  let t i deps := mkEnvelope i [] [] [] ["suite"] [] deps "" in
  execution_waves [t "a" ["b"]; t "b" []] 4 = Some (Err (ConflictGraphError "ambiguous or cyclic high-risk conflict")) ∧
  Forall (λ r, hard r = false) (contention (t "a" ["b"]) (t "b" [])).
Proof. split; [vm_compute; reflexivity|]. repeat constructor. Qed.

(** A name with a backslash cannot be depended on: only the dependency is normalized. *)
Lemma backslash_unknown :
  match make_envelope (demo_envelope "a\b" [] []), make_envelope (demo_envelope "c" [] ["a\b"]) with
  | Ok t, Ok u => execution_waves [t; u] 4 = Some (Err (ConflictGraphError "unknown dependency a/b for c"))
  | _, _ => False
  end.
Proof. vm_compute. reflexivity. Qed.
