(* ===== verification/MapService.v ===== *)
(** The map service ([simplicio_loop/map_service.py]): identities of
    repositories and worktrees, the views that were built of them, and who
    still uses a view. Path resolution is a parameter; callbacks are a log of
    what they were called with. *)
From stdpp Require Import gmap.
From S2P Require Import Prelude PyLib PyText Effects.
Import Json.
Local Open Scope Z_scope.
Local Open Scope py_scope.

(** * Definitions *)

Definition PROTOCOL_SCHEMA : string := "simplicio.map-service/v1".

Inductive MapExn : Type :=
| MapServiceError (msg : string)
| AmbiguousRepositoryError (msg : string)
| UnknownRepositoryError (msg : string).

(** [_normalize]: the absolute path that the file system resolves a path to. *)
Class FileSystem := normalize : string → string.

(** The components of [os.path.commonpath]. *)
Definition components (p : string) : list string :=
  List.filter (λ c, Str.truthy c && negb (String.eqb c ".")) (Text.split_on Text.slash p).
Definition is_abs (p : string) : bool := Text.startswith "/" p.
Fixpoint shared_prefix (xs ys : list string) : list string :=
  match xs, ys with
  | x :: xs', y :: ys' => if String.eqb x y then x :: shared_prefix xs' ys' else []
  | _, _ => []
  end.
(** [None] is the [ValueError] of an absolute and a relative path. *)
Definition commonpath (a b : string) : option string :=
  if Bool.eqb (is_abs a) (is_abs b)
  then Some ((if is_abs a then "/" else "") +:+ Text.join "/" (shared_prefix (components a) (components b)))
  else None.
(** [_contains] *)
Definition contains (root path : string) : bool :=
  match commonpath root path with Some c => String.eqb c root | None => false end.

(** [_digest] *)
Definition digest (v : json) : string := Sha256.hexdigest (dumps false v).

(** ** Identities *)

Record RepositoryIdentity := mkIdentity {
  repository : string; canonical_root : string; default_branch : string; worktree_root : option string;
  base_sha : string; dirty : bool; dirty_fingerprint : string; mapper_config : json }.

Definition opt_text (o : option string) : json := match o with Some s => Str s | None => Null end.
Definition or_else (a b : string) : string := if Str.truthy a then a else b.

Section Registry.
Context `{FileSystem}.

(** [RepositoryIdentity.__post_init__] *)
Definition make_identity (i : RepositoryIdentity) : result MapExn RepositoryIdentity :=
  let worktree := match worktree_root i with Some w => if Str.truthy w then Some (normalize w) else None | None => None end in
  if negb (Str.truthy (Str.strip (repository i))) then Err (MapServiceError "repository is required")
  else if negb (Str.truthy (Str.strip (base_sha i))) then Err (MapServiceError "base_sha is required")
  else Ok (mkIdentity (Str.strip (repository i)) (normalize (canonical_root i)) (or_else (Str.strip (default_branch i)) "main") worktree
             (base_sha i) (dirty i) (dirty_fingerprint i) (mapper_config i)).

Definition key (i : RepositoryIdentity) : string :=
  digest (Obj [("repository", Str (repository i)); ("canonical_root", Str (canonical_root i)); ("default_branch", Str (default_branch i));
    ("worktree_root", opt_text (worktree_root i)); ("base_sha", Str (base_sha i)); ("dirty_fingerprint", Str (dirty_fingerprint i));
    ("mapper_config", mapper_config i)]).
Definition cache_namespace (i : RepositoryIdentity) : string := "repo:" +:+ repository i +:+ ":" +:+ default_branch i.
(** The root an identity stands for. *)
Definition root (i : RepositoryIdentity) : string :=
  match worktree_root i with Some w => if Str.truthy w then w else canonical_root i | None => canonical_root i end.
(** [matches]: how long the root is that holds the path. *)
Definition matches (path : string) (i : RepositoryIdentity) : option nat :=
  if contains (root i) (normalize path) then Some (String.length (root i)) else None.
Definition identity_dict (i : RepositoryIdentity) : json :=
  Obj [("repository", Str (repository i)); ("canonical_root", Str (canonical_root i)); ("default_branch", Str (default_branch i));
    ("worktree_root", opt_text (worktree_root i)); ("base_sha", Str (base_sha i)); ("dirty", Bool (dirty i));
    ("dirty_fingerprint", Str (dirty_fingerprint i)); ("mapper_config", mapper_config i); ("identity_key", Str (key i))].

(** ** Views *)

Record MapView := mkView {
  identity_key : string; mode : string; tree_hash : string; files : list string; cache_key : string; trace_id : string;
  version : Z; view_dirty : bool; valid : bool; references : Z }.
#[export] Instance MapView_eta : Eta MapView := λ v,
  mkView (identity_key v) (mode v) (tree_hash v) (files v) (cache_key v) (trace_id v) (version v) (view_dirty v) (valid v) (references v).

(** What a subscriber is told. *)
Record Event := mkEvent { ev_identity : string; ev_cache : string; ev_reason : string; ev_trace : string }.

Record Registry := mkRegistry {
  identities : list (string * RepositoryIdentity);
  views : list (string * MapView);
  subscriptions : list (string * string);
  counter : Z;
  delivered : list (string * Event) }.
#[export] Instance Registry_eta : Eta Registry := λ r, mkRegistry (identities r) (views r) (subscriptions r) (counter r) (delivered r).
Definition new_registry : Registry := mkRegistry [] [] [] 0 [].

Notation P := (prog Registry MapExn).
Definition state : P Registry := get_state.
Definition modify (f : Registry → Registry) : P unit := λ r, (f r, Ok tt).

Definition identity (k : string) : P RepositoryIdentity :=
  r ← state; match dget k (identities r) with Some i => mret i | None => raise (UnknownRepositoryError k) end.

(** [invalidate]: the views become invalid together, then the subscribers hear of each. *)
Definition stale (k : string) (v : MapView) : bool := String.eqb (identity_key v) k && valid v.
Definition expire (k : string) (v : MapView) : MapView := if stale k v then v <| valid := false |> else v.
Definition event_of (reason : string) (v : MapView) : Event := mkEvent (identity_key v) (cache_key v) reason (trace_id v).
Definition subscribers (k : string) (r : Registry) : list string := (List.filter (λ s, String.eqb s.2 k) (subscriptions r)).*1.
Definition invalidate (k reason : string) : P (list string) :=
  _ ← identity k;
  r ← state;
  let events := event_of reason <$> List.filter (stale k) (views r).*2 in
  _ ← modify (λ r, r <| views := (λ kv, (kv.1, expire k kv.2)) <$> views r |>);
  _ ← modify (λ r, r <| delivered := delivered r ++ (events ≫= λ e, (λ s, (s, e)) <$> subscribers k r) |>);
  mret (ev_cache <$> events).

Definition same_root (i j : RepositoryIdentity) : bool :=
  String.eqb (canonical_root i) (canonical_root j) && bool_decide (worktree_root i = worktree_root j).
(** The first identity of the same root under another key. *)
Definition superseded (i : RepositoryIdentity) (r : Registry) : option RepositoryIdentity :=
  List.find (λ j, same_root j i && negb (String.eqb (key j) (key i))) (identities r).*2.
Definition register (i : RepositoryIdentity) (transition : bool) : P string :=
  r ← state;
  _ ← match superseded i r with
      | Some j =>
          _ ← raise_if (negb (String.eqb (repository j) (repository i))) (AmbiguousRepositoryError "repository identity collision for the same root/worktree");
          _ ← raise_if (negb transition) (AmbiguousRepositoryError "repository identity transition requires transition=True");
          _ ← invalidate (key j) "branch_transition";
          modify (λ r, r <| identities := ddel (key j) (identities r) |>)
      | None => mret tt
      end;
  _ ← modify (λ r, r <| identities := dput (key i) i (identities r) |>);
  mret (key i).
Definition restore_identity (i : RepositoryIdentity) : P string :=
  _ ← modify (λ r, r <| identities := dput (key i) i (identities r) |>);
  mret (key i).

Definition matching (path : string) (is_ : list RepositoryIdentity) : list (nat * RepositoryIdentity) :=
  omap (λ i, (λ n, (n, i)) <$> matches path i) is_.
Definition resolve_repo (path : string) : P RepositoryIdentity :=
  r ← state;
  let found := matching path (identities r).*2 in
  if bool_decide (found = []) then raise (UnknownRepositoryError path)
  else
    let best := foldr Nat.max 0%nat found.*1 in
    match List.filter (λ ni, Nat.eqb ni.1 best) found with
    | [ni] => mret ni.2
    | _ => raise (AmbiguousRepositoryError path)
    end.

Definition view_key (k mode_ tree : string) (fs : list string) : string :=
  digest (Obj [("identity_key", Str k); ("mode", Str mode_); ("tree_hash", Str tree); ("files", List (Str <$> fs))]).
(** [_view]; [trace] is the trace id of the caller, or empty. *)
Definition build_view (k mode_ tree : string) (fs : list string) (trace : string) (d : bool) : P MapView :=
  _ ← raise_if (negb (bool_decide (mode_ ∈ ["canonical"; "overlay"]))) (MapServiceError "mode must be canonical or overlay");
  i ← identity k;
  let fs := sorted_set (normalize <$> fs) in
  _ ← modify (λ r, r <| counter := counter r + 1 |>);
  r ← state;
  let ck := view_key (key i) mode_ tree fs in
  let v := mkView (key i) mode_ tree fs ck (or_else trace (String.substring 0 16 (digest (Obj [("cache_key", Str ck)])))) (counter r) d true 0 in
  _ ← modify (λ r, r <| views := dput ck v (views r) |>);
  mret v.
Definition build_canonical (k tree : string) (fs : list string) (trace : string) : P MapView :=
  i ← identity k;
  build_view (key i) "canonical" tree fs trace false.
Definition build_overlay (k tree : string) (fs : list string) (trace : string) : P MapView :=
  i ← identity k;
  _ ← raise_if (negb (match worktree_root i with Some w => Str.truthy w | None => false end)) (MapServiceError "overlay requires a worktree_root");
  build_view (key i) "overlay" tree fs trace true.

Definition get_view (ck : string) (acquire : bool) : P MapView :=
  r ← state;
  match dget ck (views r) with
  | Some v =>
      if valid v then
        let v := if acquire then v <| references := references v + 1 |> else v in
        _ ← modify (λ r, r <| views := dput ck v (views r) |>);
        mret v
      else raise (UnknownRepositoryError "map view is missing or invalid")
  | None => raise (UnknownRepositoryError "map view is missing or invalid")
  end.
Definition subscribe (k : string) : P string :=
  _ ← identity k;
  r ← state;
  let token := String.substring 0 24 (digest (Obj [("identity_key", Str k); ("subscription", Int (Z.of_nat (length (subscriptions r)) + 1))])) in
  _ ← modify (λ r, r <| subscriptions := dput token k (subscriptions r) |>);
  mret token.
Definition release (ck : string) : P unit :=
  modify (λ r, match dget ck (views r) with
    | Some v => r <| views := dput ck (v <| references := Z.max 0 (references v - 1) |>) (views r) |>
    | None => r end).
Definition collectable (v : MapView) : bool := negb (valid v) && (references v =? 0).
Definition gc : P (list string) :=
  r ← state;
  let removed := (List.filter (λ kv, collectable kv.2) (views r)).*1 in
  _ ← modify (λ r, r <| views := foldr ddel (views r) removed |>);
  mret (py_sorted removed).
Definition forget (k : string) (v : MapView) : MapView := if String.eqb (identity_key v) k then v <| references := 0 |> else v.
Definition release_all (k : string) : P Z :=
  _ ← identity k;
  r ← state;
  _ ← modify (λ r, r <| views := (λ kv, (kv.1, forget k kv.2)) <$> views r |>);
  mret (zsum (references <$> List.filter (λ v, String.eqb (identity_key v) k) (views r).*2)).
End Registry.

(** ** What callers do with a registry, whatever it raises *)
Inductive Call : Type :=
| Register (i : RepositoryIdentity) (transition : bool)
| RestoreIdentity (i : RepositoryIdentity)
| BuildCanonical (k tree : string) (fs : list string) (trace : string)
| BuildOverlay (k tree : string) (fs : list string) (trace : string)
| GetView (ck : string) (acquire : bool)
| Subscribe (k : string)
| Release (ck : string)
| Invalidate (k reason : string)
| Collect
| ReleaseAll (k : string).

Definition ignore {A} (m : prog Registry MapExn A) : prog Registry MapExn unit := _ ← m; mret tt.
Definition perform `{FileSystem} (c : Call) : prog Registry MapExn unit :=
  match c with
  | Register i t => ignore (register i t)
  | RestoreIdentity i => ignore (restore_identity i)
  | BuildCanonical k t fs tr => ignore (build_canonical k t fs tr)
  | BuildOverlay k t fs tr => ignore (build_overlay k t fs tr)
  | GetView ck a => ignore (get_view ck a)
  | Subscribe k => ignore (subscribe k)
  | Release ck => release ck
  | Invalidate k reason => ignore (invalidate k reason)
  | Collect => ignore gc
  | ReleaseAll k => ignore (release_all k)
  end.
Definition after `{FileSystem} (cs : list Call) (r : Registry) : Registry := foldl (λ r c, (perform c r).1) r cs.

(** ** Specification *)

(** A view is stored under the hash of what it is a view of. *)
Record view_ok (r : Registry) (ck : string) (v : MapView) : Prop := {
  v_key : cache_key v = ck;
  v_content : ck = view_key (identity_key v) (mode v) (tree_hash v) (files v);
  v_references : 0 <= references v;
  v_version : 0 < version v <= counter r;
  v_identity : valid v = true → is_Some (dget (identity_key v) (identities r));
}.

Record registry_ok (r : Registry) : Prop := {
  r_identities : ∀ k i, dget k (identities r) = Some i → key i = k;
  r_unique : NoDup (identities r).*1;
  r_views : ∀ ck v, dget ck (views r) = Some v → view_ok r ck v;
  r_keys : NoDup (views r).*1;
  r_counter : 0 <= counter r;
}.

(** What an operation may do to the references of the views: nothing but take some back. *)
Definition no_more (r r' : Registry) : Prop :=
  ∀ ck v', dget ck (views r') = Some v' → references v' <= 0 ∨ ∃ v, dget ck (views r) = Some v ∧ references v' <= references v.

(** The identity at place [n] holds the path, and none holds it by a longer root. *)
Definition best_match `{FileSystem} (path : string) (is_ : list RepositoryIdentity) (n : nat) (i : RepositoryIdentity) : Prop :=
  is_ !! n = Some i ∧ ∃ len, matches path i = Some len ∧
    ∀ m j len', is_ !! m = Some j → matches path j = Some len' → (len' <= len)%nat.

(** An example: a repository and one of its worktrees. *)
Definition demo_fs : FileSystem := λ p, p.
Definition demo_repo : RepositoryIdentity := mkIdentity "repo" "/src" "main" None "abc" false "" Null.
Definition demo_worktree (n : string) : RepositoryIdentity := mkIdentity "repo" "/src" "main" (Some ("/src/wt" +:+ n)) "abc" true n Null.

(** The candidates of [resolve_repo] are the best matches. *)
Definition candidate `{FileSystem} (path : string) (best : nat) (i : RepositoryIdentity) : option (nat * RepositoryIdentity) :=
  if bool_decide (matches path i = Some best) then Some (best, i) else None.
Definition safe {A} (m : prog Registry MapExn A) : Prop := ∀ r, registry_ok r → registry_ok (m r).1 ∧ no_more r (m r).1.

(** A view that lost references, or its validity. *)
Definition less_view (v' v : MapView) : Prop := ∃ b n,
  v' = v <| valid := b |> <| references := n |> ∧ (b = true → valid v = true) ∧ 0 <= n <= references v.

Definition demo_views : list Call := [Register demo_repo true; BuildCanonical (key demo_repo) "tree" ["a.py"] ""].
Definition demo_next : RepositoryIdentity := mkIdentity "repo" "/src" "main" None "def" false "" Null.
Definition demo_registry : Registry := after (H := demo_fs) demo_views new_registry.

(** * Lemmas *)

Example demo_resolve :
  let r := after (H := demo_fs) [Register demo_repo true; Register (demo_worktree "1") true] new_registry in
  (resolve_repo (H := demo_fs) "/src/wt1/a.py" r).2 = Ok (demo_worktree "1") ∧ (resolve_repo (H := demo_fs) "/src/wt2" r).2 = Ok demo_repo ∧
  (resolve_repo (H := demo_fs) "/elsewhere" r).2 = Err (UnknownRepositoryError "/elsewhere").
Proof. vm_compute. done. Qed.

Section Lemmas.
Context `{FileSystem}.

(** ** States *)

Lemma less_view_refl v : 0 <= references v → less_view v v.
Proof. intros Hv. exists (valid v), (references v). split; [by destruct v|]. split; [done|lia]. Qed.

Lemma no_more_refl r : no_more r r.
Proof. intros ck v Hv. right. exists v. split; [done|lia]. Qed.

Lemma no_more_same r r' : views r' = views r → no_more r r'.
Proof. intros E ck v Hv. right. exists v. rewrite E in Hv. split; [done|lia]. Qed.

Lemma no_more_trans r1 r2 r3 : no_more r1 r2 → no_more r2 r3 → no_more r1 r3.
Proof.
  intros H12 H23 ck v3 Hv3. destruct (H23 ck v3 Hv3) as [?|(v2 & Hv2 & ?)]; [by left|].
  destruct (H12 ck v2 Hv2) as [?|(v1 & Hv1 & ?)]; [left; lia|right; exists v1; split; [done|lia]].
Qed.

(** Only identities, views and the counter matter. *)
Lemma registry_ok_ext r r' : identities r' = identities r → views r' = views r → counter r <= counter r' → registry_ok r → registry_ok r'.
Proof.
  intros Hi Hv Hc [H1 H2 H3 H4 H5]. split; rewrite ?Hi, ?Hv; [done..| |done|lia].
  intros ck v Hck. destruct (H3 ck v Hck) as [? ? ? ? Hid]. split; rewrite ?Hi; [done..|lia|done].
Qed.

(** Views that were only reduced, or deleted. *)
Lemma views_shrink r vs : registry_ok r → NoDup vs.*1 →
  (∀ ck v', dget ck vs = Some v' → ∃ v, dget ck (views r) = Some v ∧ less_view v' v) →
  registry_ok (r <| views := vs |>) ∧ no_more r (r <| views := vs |>).
Proof.
  intros [H1 H2 H3 H4 H5] Hnd Hvs. split.
  - split; [done|done| |done|done]. intros ck v' Hv'. destruct (Hvs ck v' Hv') as (v & Hv & b & n & -> & Hb & Hn).
    destruct (H3 ck v Hv) as [? ? ? ? Hid]. split; cbn; [done|done|lia|done|]. intros ?. apply Hid. auto.
  - intros ck v' Hv'. destruct (Hvs ck v' Hv') as (v & Hv & b & n & -> & Hb & Hn). right. exists v. split; [done|]. cbn. lia.
Qed.

Lemma views_map r f : registry_ok r → (∀ v, 0 <= references v → less_view (f v) v) →
  registry_ok (r <| views := (λ kv, (kv.1, f kv.2)) <$> views r |>) ∧ no_more r (r <| views := (λ kv, (kv.1, f kv.2)) <$> views r |>).
Proof.
  intros Hok Hf. apply views_shrink; [done|by rewrite map_keys; apply r_keys|]. intros ck v'. rewrite dget_map.
  intros (v & Hv & ->)%fmap_Some. exists v. split; [done|]. apply Hf, (v_references r ck v), (r_views r Hok ck v Hv).
Qed.

(** ** Operations *)

Lemma safe_ret {A} (a : A) : safe (mret a).
Proof. intros r Hr. split; [done|apply no_more_refl]. Qed.
Lemma safe_raise {A} e : safe (raise (A := A) e).
Proof. intros r Hr. split; [done|apply no_more_refl]. Qed.
Lemma safe_raise_if b e : safe (raise_if b e).
Proof. destruct b; [apply safe_raise|apply safe_ret]. Qed.
Lemma safe_bind {A B} (m : prog Registry MapExn A) (k : A → prog Registry MapExn B) : safe m → (∀ a, safe (k a)) → safe (m ≫= k).
Proof.
  intros Hm Hk r Hr. unfold mbind, prog_bind. specialize (Hm r Hr). destruct (m r) as [r1 [a|e]]; [|done]. destruct Hm as [Hr1 H1].
  destruct (Hk a r1 Hr1) as [? ?]. split; [done|]. by eapply no_more_trans.
Qed.
Lemma safe_state {B} (k : Registry → prog Registry MapExn B) : (∀ r, registry_ok r → registry_ok (k r r).1 ∧ no_more r (k r r).1) → safe (state ≫= k).
Proof. intros Hk r Hr. by apply Hk. Qed.
Lemma safe_modify f : (∀ r, registry_ok r → registry_ok (f r) ∧ no_more r (f r)) → safe (modify f).
Proof. intros Hf r Hr. by apply Hf. Qed.

Lemma identity_run k r : identity k r = (r, match dget k (identities r) with Some i => Ok i | None => Err (UnknownRepositoryError k) end).
Proof. unfold identity, state, get_state, mbind, prog_bind. by destruct (dget k (identities r)). Qed.
Lemma safe_identity k : safe (identity k).
Proof. intros r Hr. rewrite identity_run. split; [done|apply no_more_refl]. Qed.

Lemma bind_identity {B} k (f : RepositoryIdentity → prog Registry MapExn B) r : (identity k ≫= f) r =
  match dget k (identities r) with Some i => f i r | None => (r, Err (UnknownRepositoryError k)) end.
Proof. unfold mbind, prog_bind. rewrite identity_run. by destruct (dget k (identities r)). Qed.

(** [invalidate], run: the identity is there, and its views become invalid. *)
Lemma invalidate_run k reason r : let '(r', x) := invalidate k reason r in
  match dget k (identities r) with
  | None => r' = r ∧ x = Err (UnknownRepositoryError k)
  | Some _ => (∃ d, r' = r <| views := (λ kv, (kv.1, expire k kv.2)) <$> views r |> <| delivered := d |>) ∧
              x = Ok (cache_key <$> List.filter (stale k) (views r).*2)
  end.
Proof.
  unfold invalidate. rewrite bind_identity. destruct (dget k (identities r)) as [i|]; [|done].
  unfold mbind, prog_bind, state, get_state, modify, mret, prog_ret. split; [by eexists|]. f_equal. by rewrite <- list_fmap_compose.
Qed.

Lemma safe_invalidate k reason : safe (invalidate k reason).
Proof.
  intros r Hr. pose proof (invalidate_run k reason r) as Hi. destruct (invalidate k reason r) as [r' x].
  destruct (dget k (identities r)); [|destruct Hi as [-> _]; split; [done|apply no_more_refl]]. destruct Hi as [[d ->] _].
  destruct (views_map r (expire k) Hr) as [Hok Hn].
  { intros v Hv. unfold expire. destruct (stale k v); [|by apply less_view_refl]. exists false, (references v). split; [done|]. split; [done|lia]. }
  split; [|exact Hn]. by eapply registry_ok_ext; [..|exact Hok].
Qed.

Lemma put_identity_ok r i : registry_ok r → registry_ok (r <| identities := dput (key i) i (identities r) |>).
Proof.
  intros [H1 H2 H3 H4 H5]. split; [| |intros ck v Hv|done|done].
  - intros k j. cbn. rewrite dget_put. case_decide; [by intros [= <-]|apply H1].
  - by apply dput_NoDup.
  - destruct (H3 ck v Hv) as [? ? ? ? Hid]. split; cbn; [done..|]. intros Hval. rewrite dget_put. case_decide; [by eexists|by apply Hid].
Qed.

(** An identity without valid views can go. *)
Lemma del_identity_ok r k : registry_ok r → (∀ ck v, dget ck (views r) = Some v → identity_key v = k → valid v = false) →
  registry_ok (r <| identities := ddel k (identities r) |>).
Proof.
  intros [H1 H2 H3 H4 H5] Hv. split; [| |intros ck v Hck|done|done].
  - intros k' j. cbn. rewrite dget_del. case_decide; [done|apply H1].
  - cbn. rewrite ddel_keys. by apply NoDup_Listfilter.
  - destruct (H3 ck v Hck) as [? ? ? ? Hid]. split; cbn; [done..|]. intros Hval. rewrite dget_del. case_decide as E; [|by apply Hid].
    rewrite (Hv ck v Hck E) in Hval. done.
Qed.

Lemma safe_put_identity {B} i (m : prog Registry MapExn B) : safe m → safe (modify (λ r, r <| identities := dput (key i) i (identities r) |>) ≫= λ _, m).
Proof. intros Hm. apply safe_bind; [|done]. apply safe_modify. intros r Hr. split; [by apply put_identity_ok|by apply no_more_same]. Qed.

(** An identity is given up after its views. *)
Lemma safe_retire k reason : safe (_ ← invalidate k reason; modify (λ r, r <| identities := ddel k (identities r) |>)).
Proof.
  intros r Hr. destruct (safe_invalidate k reason r Hr) as [Hok Hn]. pose proof (invalidate_run k reason r) as Hi.
  unfold mbind, prog_bind. destruct (invalidate k reason r) as [r' [x|e]]; [|done]. unfold modify. cbn [fst] in *.
  destruct (dget k (identities r)); [|by destruct Hi]. destruct Hi as [[d E] _]. split; [|eapply no_more_trans; [exact Hn|by apply no_more_same]].
  apply del_identity_ok; [done|]. intros ck v Hv Hk. rewrite E in Hv. change (dget ck ((λ kv, (kv.1, expire k kv.2)) <$> views r) = Some v) in Hv. rewrite dget_map in Hv.
  apply fmap_Some in Hv as (v0 & Hv0 & ->). unfold expire, stale in *. destruct (String.eqb_spec (identity_key v0) k) as [E0|E0].
  - destruct (valid v0) eqn:Ev; [done|]. done.
  - destruct E0. by destruct (valid v0).
Qed.

Lemma safe_register i t : safe (register i t).
Proof.
  unfold register. apply safe_state. intros r Hr. apply safe_bind; [|intros []; apply safe_put_identity, safe_ret|done].
  destruct (superseded i r) as [j|]; [|apply safe_ret]. apply safe_bind; [apply safe_raise_if|intros []].
  apply safe_bind; [apply safe_raise_if|intros []]. apply safe_retire.
Qed.

Lemma safe_restore i : safe (restore_identity i).
Proof. apply safe_put_identity, safe_ret. Qed.

Lemma superseded_spec i r j : registry_ok r → superseded i r = Some j → dget (key j) (identities r) = Some j ∧ key j ≠ key i.
Proof.
  intros Hr [Hin Hj]%find_some. apply andb_true_iff in Hj as [_ Hne]. split.
  - apply list_elem_of_In, list_elem_of_fmap in Hin as ([k j'] & -> & Hin). cbn [fst snd] in *.
    pose proof (elem_of_dget k j' _ (r_unique r Hr) Hin) as Hk. by rewrite (r_identities r Hr k j' Hk).
  - intros E. rewrite E, String.eqb_refl in Hne. done.
Qed.

(** ** Views *)

(** A new view, which nobody uses yet. *)
Lemma put_view_ok r v : registry_ok r → cache_key v = view_key (identity_key v) (mode v) (tree_hash v) (files v) → references v = 0 →
  version v = counter r + 1 → is_Some (dget (identity_key v) (identities r)) →
  let r' := r <| counter := counter r + 1 |> <| views := dput (cache_key v) v (views r) |> in registry_ok r' ∧ no_more r r'.
Proof.
  intros [H1 H2 H3 H4 H5] Hk Href Hver Hid r'. split.
  - split; [done|done|intros ck w Hw|by apply dput_NoDup|cbn; lia]. cbn in Hw. rewrite dget_put in Hw. case_decide as E.
    + injection Hw as <-. subst ck. split; cbn; [done|done|lia|lia|done].
    + destruct (H3 ck w Hw) as [? ? ? ? ?]. split; cbn; [done..|lia|done].
  - intros ck w Hw. cbn in Hw. rewrite dget_put in Hw. case_decide as E; [injection Hw as <-; left; lia|]. right. exists w. split; [done|lia].
Qed.

(** [build_view], run: it asks for a registered identity, and stores what it
    returns as a view that nobody uses. *)
Lemma build_view_run k m tree fs tr d r : (m = "canonical" ∨ m = "overlay") → (∀ i, dget k (identities r) = Some i → key i = k) →
  let '(r', x) := build_view k m tree fs tr d r in
  match dget k (identities r) with
  | None => r' = r ∧ x = Err (UnknownRepositoryError k)
  | Some _ => ∃ v, x = Ok v ∧ r' = r <| counter := counter r + 1 |> <| views := dput (cache_key v) v (views r) |> ∧
      cache_key v = view_key k m tree (files v) ∧ identity_key v = k ∧ mode v = m ∧ tree_hash v = tree ∧
      references v = 0 ∧ valid v = true ∧ version v = counter r + 1
  end.
Proof.
  intros Hm Hk. unfold build_view. rewrite bool_decide_eq_true_2 by (rewrite !elem_of_cons; tauto). cbn [negb raise_if].
  unfold mbind at 1, prog_bind at 1. unfold mret at 1, prog_ret at 1. rewrite bind_identity.
  destruct (dget k (identities r)) as [i|]; [|done]. rewrite (Hk i) by done.
  unfold mbind, prog_bind, modify, state, get_state, mret, prog_ret. eexists. split; [done|]. by split_and!.
Qed.

Lemma safe_build_view k m tree fs tr d : (m = "canonical" ∨ m = "overlay") → safe (build_view k m tree fs tr d).
Proof.
  intros Hm r Hr. pose proof (build_view_run k m tree fs tr d r Hm (r_identities r Hr k)) as Hb. destruct (build_view k m tree fs tr d r) as [r' x].
  destruct (dget k (identities r)) as [i|] eqn:Ei; [|destruct Hb as [-> _]; split; [done|apply no_more_refl]].
  destruct Hb as (v & _ & -> & Hck & Hik & Hmo & Htr & Href & _ & Hver). apply put_view_ok; [done| |done|done|].
  - by rewrite Hik, Hmo, Htr.
  - rewrite Hik, Ei. by eexists.
Qed.

Lemma safe_build_canonical k tree fs tr : safe (build_canonical k tree fs tr).
Proof. apply safe_bind; [apply safe_identity|]. intros i. apply safe_build_view. by left. Qed.
Lemma safe_build_overlay k tree fs tr : safe (build_overlay k tree fs tr).
Proof.
  apply safe_bind; [apply safe_identity|]. intros i. apply safe_bind; [apply safe_raise_if|intros []]. apply safe_build_view. by right.
Qed.

(** [get_view], run. *)
Lemma get_view_run ck a r : get_view ck a r =
  match dget ck (views r) with
  | Some v =>
      if valid v then
        let v' := if a then v <| references := references v + 1 |> else v in (r <| views := dput ck v' (views r) |>, Ok v')
      else (r, Err (UnknownRepositoryError "map view is missing or invalid"))
  | None => (r, Err (UnknownRepositoryError "map view is missing or invalid"))
  end.
Proof.
  unfold get_view, mbind, prog_bind, state, get_state, modify. destruct (dget ck (views r)) as [v|]; [|done]. by destruct (valid v).
Qed.

(** A view that changes in its references only. *)
Lemma put_references_ok r ck v n : registry_ok r → dget ck (views r) = Some v → 0 <= n →
  registry_ok (r <| views := dput ck (v <| references := n |>) (views r) |>).
Proof.
  intros [H1 H2 H3 H4 H5] Hv Hn. split; [done|done|intros ck' w Hw|by apply dput_NoDup|done]. cbn in Hw. rewrite dget_put in Hw. case_decide as E.
  - injection Hw as <-. subst ck'. destruct (H3 ck v Hv) as [? ? ? ? ?]. by split.
  - destruct (H3 ck' w Hw) as [? ? ? ? ?]. by split.
Qed.

Lemma view_same v : v <| references := references v |> = v.
Proof. by destruct v. Qed.

Lemma get_view_ok ck a r : registry_ok r → registry_ok (get_view ck a r).1.
Proof.
  intros Hr. rewrite get_view_run. destruct (dget ck (views r)) as [v|] eqn:E; [|done]. destruct (valid v); [|done].
  pose proof (v_references _ _ _ (r_views r Hr ck v E)). destruct a; cbn [fst]; [apply put_references_ok; [done|done|lia]|].
  rewrite <- (view_same v). by apply put_references_ok.
Qed.

Lemma safe_peek ck : safe (get_view ck false).
Proof.
  intros r Hr. split; [by apply get_view_ok|]. rewrite get_view_run. destruct (dget ck (views r)) as [v|] eqn:E; [|apply no_more_refl].
  destruct (valid v); [|apply no_more_refl]. cbn [fst]. rewrite dput_same by done. by apply no_more_same.
Qed.

Lemma safe_subscribe k : safe (subscribe k).
Proof.
  apply safe_bind; [apply safe_identity|]. intros _. apply safe_state. intros r Hr. unfold modify, mbind, prog_bind. split; [|by apply no_more_same].
  by eapply registry_ok_ext; [..|exact Hr].
Qed.

Lemma safe_release ck : safe (release ck).
Proof.
  apply safe_modify. intros r Hr. destruct (dget ck (views r)) as [v|] eqn:E; [|split; [done|apply no_more_refl]].
  split; [apply put_references_ok; [done|done|lia]|]. intros ck' w Hw. cbn in Hw. rewrite dget_put in Hw. right. case_decide as E'.
  - injection Hw as <-. subst ck'. exists v. split; [done|]. cbn. pose proof (v_references _ _ _ (r_views r Hr ck v E)). lia.
  - exists w. split; [done|lia].
Qed.

Lemma dget_del_all {V} ck (ks : list string) (d : list (string * V)) : dget ck (foldr ddel d ks) = if bool_decide (ck ∈ ks) then None else dget ck d.
Proof.
  induction ks as [|k ks IH]; cbn [foldr]; [done|]. rewrite dget_del, IH. destruct (decide (ck = k)) as [->|Hne].
  - by rewrite bool_decide_eq_true_2 by (by left).
  - rewrite (bool_decide_ext (ck ∈ k :: ks) (ck ∈ ks)); [done|]. rewrite elem_of_cons. tauto.
Qed.

Lemma NoDup_del_all {V} (ks : list string) (d : list (string * V)) : NoDup d.*1 → NoDup (foldr ddel d ks).*1.
Proof. intros Hd. induction ks as [|k ks IH]; cbn [foldr]; [done|]. rewrite ddel_keys. by apply NoDup_Listfilter. Qed.

(** [gc] takes away exactly the views that are invalid and unused. *)
Lemma gc_run r : registry_ok r → let '(r', x) := gc r in
  r' = r <| views := views r' |> ∧ NoDup (views r').*1 ∧
  ∀ ck, dget ck (views r') = match dget ck (views r) with Some v => if collectable v then None else Some v | None => None end.
Proof.
  intros Hr. unfold gc, state, get_state, modify, mbind, prog_bind, mret, prog_ret. split; [done|]. split; [apply NoDup_del_all, (r_keys r Hr)|].
  intros ck. cbn [views]. change (dget ck (foldr ddel (views r) (List.filter (λ kv, collectable kv.2) (views r)).*1) = match dget ck (views r) with
    Some v => if collectable v then None else Some v | None => None end). rewrite dget_del_all.
  destruct (dget ck (views r)) as [v|] eqn:E; [|by case_bool_decide].
  rewrite (bool_decide_ext _ (collectable v = true)); [by destruct (collectable v)|]. rewrite list_elem_of_fmap. setoid_rewrite elem_of_Listfilter. split.
  - intros ([ck' w] & -> & Hin & Hc). cbn in *. rewrite (elem_of_dget ck' w (views r) (r_keys r Hr) Hin) in E. by injection E as <-.
  - intros Hc. exists (ck, v). split; [done|]. split; [by apply dget_Some_pair|done].
Qed.

Lemma safe_gc : safe gc.
Proof.
  intros r Hr. pose proof (gc_run r Hr) as Hg. destruct (gc r) as [r' x]. cbn [fst]. destruct Hg as (-> & Hnd & Hg). cbn in Hnd, Hg.
  apply views_shrink; [done|done|]. intros ck v'. rewrite Hg. destruct (dget ck (views r)) as [v|] eqn:E; [|done].
  destruct (collectable v); [done|]. intros [= <-]. exists v. split; [done|]. apply less_view_refl, (v_references r ck v), (r_views r Hr ck v E).
Qed.

Lemma safe_release_all k : safe (release_all k).
Proof.
  apply safe_bind; [apply safe_identity|]. intros _. apply safe_state. intros r Hr. apply (views_map r (forget k) Hr).
  intros v Hv. unfold forget. destruct (String.eqb _ _); [|by apply less_view_refl]. exists (valid v), 0. split; [by destruct v|]. split; [done|lia].
Qed.

Lemma safe_ignore {A} (m : prog Registry MapExn A) : safe m → safe (ignore m).
Proof. intros Hm. apply safe_bind; [done|intros; apply safe_ret]. Qed.

Lemma safe_perform c : match c with GetView _ true => False | _ => True end → safe (perform c).
Proof.
  destruct c as [| | | |ck []| | | | |]; cbn [perform]; intros Hc; first [done|try apply safe_ignore].
  all: auto using safe_register, safe_restore, safe_build_canonical, safe_build_overlay, safe_peek, safe_subscribe, safe_release, safe_invalidate, safe_gc, safe_release_all.
Qed.

Lemma perform_ok c r : registry_ok r → registry_ok (perform c r).1.
Proof.
  intros Hr. destruct c as [| | | |ck []| | | | |]; try (by apply safe_perform).
  cbn [perform]. unfold ignore. pose proof (get_view_ok ck true r Hr) as Hg. unfold mbind, prog_bind. by destruct (get_view ck true r) as [? [?|?]].
Qed.

Lemma map_registry_new_ok : registry_ok new_registry.
Proof. split; [done|constructor|done|constructor|done]. Qed.

Lemma registry_after_ok cs r : registry_ok r → registry_ok (after cs r).
Proof. revert r. induction cs as [|c cs IH]; intros r Hr; [done|]. by apply IH, perform_ok. Qed.

(** ** Resolution *)

(** How many elements of a list are kept, and where. *)
Lemma omap_places {A B} (f : A → option B) l :
  match omap f l with
  | [] => ∀ x, x ∈ l → f x = None
  | [y] => ∃ n x, l !! n = Some x ∧ f x = Some y ∧ ∀ m z, l !! m = Some z → is_Some (f z) → m = n
  | _ => ∃ n m x z, n ≠ m ∧ l !! n = Some x ∧ l !! m = Some z ∧ is_Some (f x) ∧ is_Some (f z)
  end.
Proof.
  induction l as [|x l IH]; [by intros x ?%not_elem_of_nil|]. cbn [omap list_omap]. change (list_omap _ _ f l) with (omap f l). destruct (f x) as [y|] eqn:E.
  - destruct (omap f l) as [|y1 [|y2 ys]].
    + exists 0%nat, x. split; [done|]. split; [done|]. intros [|m] z Hz Hf; [done|]. cbn in Hz. apply list_elem_of_lookup_2 in Hz.
      rewrite (IH z Hz) in Hf. by destruct Hf.
    + destruct IH as (n & x' & Hx' & Hf & _). exists 0%nat, (S n), x, x'. rewrite E, Hf. split_and!; [done|done|done|by eexists..].
    + destruct IH as (n & m & x1 & x2 & Hne & H1 & H2 & Hf1 & Hf2). exists (S n), (S m), x1, x2. split_and!; [congruence|done..].
  - destruct (omap f l) as [|y1 [|y2 ys]].
    + intros z [->|Hz]%elem_of_cons; [done|by apply IH].
    + destruct IH as (n & x' & Hx' & Hf & Hu). exists (S n), x'. split; [done|]. split; [done|]. intros [|m] z Hz Hfz; [|f_equal; by apply (Hu m z)].
      injection Hz as <-. rewrite E in Hfz. by destruct Hfz.
    + destruct IH as (n & m & x1 & x2 & Hne & H1 & H2 & Hf1 & Hf2). exists (S n), (S m), x1, x2. split_and!; [congruence|done..].
Qed.

Lemma foldr_max_ge (l : list nat) n : n ∈ l → (n <= foldr Nat.max 0 l)%nat.
Proof. induction l as [|m l IH]; [by intros ?%not_elem_of_nil|]. cbn [foldr]. intros [->|Hn]%elem_of_cons; [lia|specialize (IH Hn); lia]. Qed.
Lemma foldr_max_elem (l : list nat) : l ≠ [] → foldr Nat.max 0%nat l ∈ l.
Proof.
  induction l as [|m l IH]; [done|]. intros _. cbn [foldr]. destruct l as [|k l]; [cbn [foldr]; rewrite Nat.max_0_r; by left|].
  destruct (Nat.max_spec m (foldr Nat.max 0 (k :: l))%nat) as [[_ ->]|[_ ->]]; [right; by apply IH|by left].
Qed.

Lemma candidates_of path best is_ : List.filter (λ ni, Nat.eqb ni.1 best) (matching path is_) = omap (candidate path best) is_.
Proof.
  unfold matching. induction is_ as [|i is_ IH]; [done|]. cbn [omap list_omap].
  change (list_omap _ _ (candidate path best) is_) with (omap (candidate path best) is_).
  unfold candidate at 1. destruct (matches path i) as [n|]; cbn [fmap option_fmap option_map]; [|exact IH].
  cbn [List.filter fst]. destruct (Nat.eqb_spec n best) as [->|Hne].
  - rewrite bool_decide_eq_true_2 by done. f_equal. exact IH.
  - rewrite bool_decide_eq_false_2 by congruence. exact IH.
Qed.

Lemma elem_of_matching path is_ n i : (n, i) ∈ matching path is_ ↔ i ∈ is_ ∧ matches path i = Some n.
Proof.
  unfold matching. rewrite list_elem_of_omap. setoid_rewrite fmap_Some. split.
  - intros (j & Hj & m & Hm & [= -> ->]). done.
  - intros [Hi Hm]. exists i. split; [done|]. by exists n.
Qed.

Lemma best_matches path is_ n i : matching path is_ ≠ [] →
  let best := foldr Nat.max 0%nat (matching path is_).*1 in is_ !! n = Some i → matches path i = Some best → best_match path is_ n i.
Proof.
  intros Hne best Hi Hb. split; [done|]. exists best. split; [done|]. intros m j len' Hj Hl. apply foldr_max_ge. apply list_elem_of_fmap.
  exists (len', j). split; [done|]. apply elem_of_matching. split; [by eapply list_elem_of_lookup_2|done].
Qed.

Lemma best_match_max path is_ n i : best_match path is_ n i → matches path i = Some (foldr Nat.max 0%nat (matching path is_).*1).
Proof.
  intros (Hi & len & Hl & Hmax). rewrite Hl. f_equal. apply Nat.le_antisymm.
  - apply foldr_max_ge. apply list_elem_of_fmap. exists (len, i). split; [done|]. apply elem_of_matching. split; [by eapply list_elem_of_lookup_2|done].
  - assert (matching path is_ ≠ []) as Hne.
    { intros E. assert ((len, i) ∈ matching path is_) as Hin by (apply elem_of_matching; split; [by eapply list_elem_of_lookup_2|done]).
      rewrite E in Hin. by apply not_elem_of_nil in Hin. }
    assert ((matching path is_).*1 ≠ []) as Hm by (by destruct (matching path is_)).
    apply foldr_max_elem, list_elem_of_fmap in Hm as ([m j] & -> & Hin).
    apply elem_of_matching in Hin as [[k Hk]%list_elem_of_lookup Hm]. by apply (Hmax k j m).
Qed.
End Lemmas.

(** * Properties *)
Section Properties.
Context `{FileSystem}.

(** resolution by path is exact: it answers with the one identity whose
    root is the longest that holds the path, it says unknown when none holds
    it, and ambiguous when two hold it by roots of the same length; it changes
    nothing. *)
Theorem resolve_exact path r :
  let '(r', x) := resolve_repo path r in
  let all := (identities r).*2 in
  r' = r ∧ match x with
  | Ok i => ∃ n, best_match path all n i ∧ ∀ m j, best_match path all m j → m = n
  | Err (UnknownRepositoryError _) => ∀ i, i ∈ all → matches path i = None
  | Err (AmbiguousRepositoryError _) => ∃ n m i j, n ≠ m ∧ best_match path all n i ∧ best_match path all m j
  | Err (MapServiceError _) => False
  end.
Proof.
  unfold resolve_repo, mbind, prog_bind, state, get_state. case_bool_decide as Hne.
  - split; [done|]. intros i Hi. destruct (matches path i) as [n|] eqn:E; [|done]. exfalso.
    assert ((n, i) ∈ matching path (identities r).*2) as Hin by (by apply elem_of_matching). rewrite Hne in Hin. by apply not_elem_of_nil in Hin.
  - set (best := foldr Nat.max 0%nat _). rewrite candidates_of. pose proof (omap_places (candidate path best) (identities r).*2) as Hp.
    assert (∀ i, is_Some (candidate path best i) ↔ matches path i = Some best) as Hc.
    { intros i. unfold candidate. case_bool_decide; split; [done|by eexists|by intros [??]|done]. }
    destruct (omap (candidate path best) (identities r).*2) as [|ni [|ni' nis]]; (split; [done|]).
    + exfalso. assert ((matching path (identities r).*2).*1 ≠ []) as Hm by (by destruct (matching path (identities r).*2)).
      apply foldr_max_elem, list_elem_of_fmap in Hm as ([m j] & Em & Hin).
      apply elem_of_matching in Hin as [Hj Hm]. assert (is_Some (candidate path best j)) as [y Hy] by (apply Hc; rewrite Hm; f_equal; symmetry; exact Em).
      rewrite (Hp j Hj) in Hy. done.
    + destruct Hp as (n & i & Hi & Hf & Hu). exists n. assert (matches path i = Some best) as Hm by (apply Hc; rewrite Hf; by eexists).
      unfold candidate in Hf. case_bool_decide; [|done]. injection Hf as <-. split; [by apply best_matches|].
      intros m j Hj. apply (Hu m j); [apply Hj|]. apply Hc. by apply (best_match_max path _ m).
    + destruct Hp as (n & m & i & j & Hnm & Hi & Hj & Hfi%Hc & Hfj%Hc). exists n, m, i, j. split; [done|]. split; by apply best_matches.
Qed.

(** when a repository moves on, the identity it replaces is gone at once:
    it is registered no more, none of its views is handed out again, and
    nothing can be built for it; the new identity is registered. *)
Theorem transition_retires i j r : registry_ok r → superseded i r = Some j → repository j = repository i →
  let '(r', x) := register i true r in
  x = Ok (key i) ∧ dget (key i) (identities r') = Some i ∧ dget (key j) (identities r') = None ∧
  (∀ ck v a, dget ck (views r) = Some v → identity_key v = key j → ¬ is_ok (get_view ck a r').2) ∧
  ∀ tree fs tr, (build_canonical (key j) tree fs tr r').2 = Err (UnknownRepositoryError (key j)) ∧
                (build_overlay (key j) tree fs tr r').2 = Err (UnknownRepositoryError (key j)).
Proof.
  intros Hr Hs Hrep. destruct (superseded_spec i r j Hr Hs) as [Hj Hne].
  pose proof (invalidate_run (key j) "branch_transition" r) as Hi. unfold register, state, get_state.
  unfold mbind at 1, prog_bind at 1. rewrite Hs, Hrep, String.eqb_refl. cbn [negb raise_if].
  unfold mbind, prog_bind, mret, prog_ret. destruct (invalidate (key j) "branch_transition" r) as [r1 x]. rewrite Hj in Hi.
  destruct Hi as [[d ->] ->]. unfold modify. set (r' := _ <| identities := dput _ _ _ |>).
  assert (∀ k, dget k (identities r') = if decide (k = key i) then Some i else if decide (k = key j) then None else dget k (identities r)) as Hids.
  { intros k. unfold r'. cbn [identities]. change (dget k (dput (key i) i (ddel (key j) (identities r))) = if decide (k = key i) then Some i else
      if decide (k = key j) then None else dget k (identities r)). rewrite dget_put. case_decide; [done|]. by rewrite dget_del. }
  assert (dget (key j) (identities r') = None) as Hgone by (rewrite Hids, decide_False, decide_True; done).
  split; [done|]. split; [by rewrite Hids, decide_True|]. split; [done|]. split.
  - intros ck v a Hv Hk. rewrite get_view_run. change (views r') with ((λ kv, (kv.1, expire (key j) kv.2)) <$> views r). rewrite dget_map, Hv.
    unfold expire, stale. cbn [fmap option_fmap option_map]. rewrite Hk, String.eqb_refl. cbn [andb]. destruct (valid v) eqn:E; cbn; [|rewrite E]; intros [].
  - intros tree fs tr. unfold build_canonical, build_overlay. by rewrite !bind_identity, Hgone.
Qed.
End Properties.

(** ** The example *)

Lemma transition_retires_witness : dget (key demo_repo) (identities (register demo_next true demo_registry).1) = None.
Proof.
  pose proof (transition_retires (H := demo_fs) demo_next demo_repo demo_registry (registry_after_ok (H := demo_fs) demo_views new_registry map_registry_new_ok)) as Ht.
  destruct (register demo_next true demo_registry) as [r' x]. apply Ht; [vm_compute; reflexivity|reflexivity].
Defined.

(** ** What the code does not do *)

(** Building a view again forgets who uses it: it is collected while it is held. *)
Lemma rebuild_forgets_users :
  let ck := view_key (key demo_repo) "canonical" "tree" ["a.py"] in
  let build := BuildCanonical (key demo_repo) "tree" ["a.py"] "" in
  let r := after (H := demo_fs) [GetView ck true; GetView ck true; build; GetView ck true; Release ck] demo_registry in
  (references <$> dget ck (views r)) = Some 0 ∧
  (gc (after (H := demo_fs) [Invalidate (key demo_repo) "drift"] r)).2 = Ok [ck].
Proof. vm_compute. done. Qed.
