(* ===== verification/MapBindings.v ===== *)
(** The views that worktrees hold while tasks are worked on (the lifecycle part
    of [simplicio_loop/context_graph_fanout.py], over the registry of
    [MapService]): a client that remembers its canonical views, and the manager
    that binds a canonical view and an overlay to a task and gives both back. *)
From stdpp Require Import gmap.
From S2P Require Import Prelude PyLib PyText Effects MapService.
From S2P Require FanoutWaves.
Import Json.
Local Open Scope Z_scope.
Local Open Scope py_scope.

(** * Definitions *)

Inductive BindExn : Type := ConflictGraphError (msg : string) | MapRaised (e : MapExn).

Record MapViewHandle := mkHandle {
  h_status : string; h_cache_key : string; h_trace_id : string; h_identity_key : string; h_tree_hash : string; h_mode : string;
  h_cache_hit : bool; h_fallback : bool; h_reason_code : string; h_schema : string; h_config : string }.

Record WorktreeMapBinding := mkBinding {
  b_task_id : string; b_owner_id : string; b_authority_hash : string; canonical : MapViewHandle; overlay : MapViewHandle;
  overlay_files : list string; generation : Z }.

Record Metrics := mkMetrics { binds : Z; cache_hits : Z; overlay_count : Z; drift_replans : Z; releases : Z; recoveries : Z }.
#[export] Instance Metrics_eta : Eta Metrics := λ m,
  mkMetrics (binds m) (cache_hits m) (overlay_count m) (drift_replans m) (releases m) (recoveries m).

(** The key under which a client remembers a canonical view. *)
Notation HandleKey := (string * string * list string)%type.

(** The registry, the handles of the client, and the bindings of the manager. *)
Record World := mkWorld {
  reg : Registry; handles : gmap HandleKey MapViewHandle; bindings : list (string * WorktreeMapBinding); metrics : Metrics }.
#[export] Instance World_eta : Eta World := λ w, mkWorld (reg w) (handles w) (bindings w) (metrics w).
Definition new_world (r : Registry) : World := mkWorld r ∅ [] (mkMetrics 0 0 0 0 0 0).

(** [json.dumps(v, sort_keys=True)], with spaces after the separators. *)
Fixpoint spaced (v : json) : string :=
  match v with
  | List l => "[" +:+ Text.join ", " (map spaced l) +:+ "]"
  | Obj fields =>
      let items := map (λ '(k, v), (k, spaced v)) fields in
      "{" +:+ Text.join ", " ((λ '(k, v), quote true k +:+ ": " +:+ v) <$> merge_sort key_le items) +:+ "}"
  | v => dumps true v
  end.
Definition config_hash (i : RepositoryIdentity) : string := Sha256.hexdigest (spaced (mapper_config i)).

Definition degraded (mode_ : string) : MapViewHandle :=
  mkHandle "degraded" "" "" "" "" mode_ false true "map_service_unavailable" "simplicio.map-service/v1" "".
Definition ready_handle (v : MapView) (hit : bool) (config : string) : MapViewHandle :=
  mkHandle "ready" (cache_key v) (trace_id v) (identity_key v) (tree_hash v) (mode v) hit false "" "simplicio.map-service/v1" config.
Definition is_ready (h : MapViewHandle) : bool := String.eqb (h_status h) "ready".

Section Client.
(** [connected]: the client has a registry. *)
Context `{FileSystem} (connected : bool).
Notation P := (prog World BindExn).

Definition modify_world (f : World → World) : P unit := λ w, (f w, Ok tt).
(** A call of the registry. *)
Definition on_registry {A} (m : prog Registry MapExn A) : P A :=
  zoom reg (λ r w, w <| reg := r |>) (rescue MapRaised m).

(** [try: ... except ... else: ...], with the exception as a value. *)
Definition attempt {A} (m : P A) : P (result BindExn A) := λ w, let (w', r) := m w in (w', Ok r).

Definition cleaned (fs : list string) : list string := FanoutWaves.clean fs.

(** A view that was built is taken once, with the configuration of its identity. *)
Definition acquire_built (k : string) (build : prog Registry MapExn MapView) : P MapViewHandle :=
  v ← on_registry build;
  v ← on_registry (get_view (cache_key v) true);
  i ← on_registry (identity k);
  mret (ready_handle v false (config_hash i)).

(** [CanonicalMapClient.request_canonical] *)
Definition build_new (hk : HandleKey) (k tree : string) (fs : list string) : P MapViewHandle :=
  h ← acquire_built k (build_canonical k tree fs "");
  _ ← modify_world (λ w, w <| handles := <[hk := h]> (handles w) |>);
  mret h.
Definition request_canonical (k tree : string) (fs : list string) : P MapViewHandle :=
  let hk := (k, tree, cleaned fs) in
  w ← get_state;
  if negb connected then mret (degraded "canonical")
  else
    match handles w !! hk with
    | Some existing =>
        r ← attempt (on_registry (get_view (h_cache_key existing) true));
        match r with
        | Ok v => i ← on_registry (identity k); mret (ready_handle v true (config_hash i))
        | Err _ => _ ← modify_world (λ w, w <| handles := base.delete hk (handles w) |>); build_new hk k tree (cleaned fs)
        end
    | None => build_new hk k tree (cleaned fs)
    end.

(** [CanonicalMapClient.request_overlay] *)
Definition request_overlay (k tree : string) (fs : list string) : P MapViewHandle :=
  if negb connected then mret (degraded "overlay") else acquire_built k (MapService.build_overlay k tree fs "").

(** [CanonicalMapClient.release] *)
Definition release_handle (h : MapViewHandle) : P unit :=
  _ ← (if connected && Str.truthy (h_cache_key h) then on_registry (MapService.release (h_cache_key h)) else mret tt);
  modify_world (λ w, w <| handles := filter (λ kh, h_cache_key kh.2 ≠ h_cache_key h) (handles w) |>).

(** ** The manager *)

Definition slashed (fs : list string) : list string := sorted_set (FanoutWaves.slashes <$> fs).
Definition reason_or (h : MapViewHandle) (s : string) : string := if Str.truthy (h_reason_code h) then h_reason_code h else s.

(** [except BaseException: release; raise] *)
Definition or_release {A} (h : MapViewHandle) (m : P A) : P A := try_except m (λ e, Some (_ ← release_handle h; raise e)).

Definition bind (task : FanoutWaves.TaskEnvelope) (owner canonical_identity canonical_tree : string) (canonical_files : list string)
    (worktree_identity overlay_tree : string) (dirty_files : list string) : P WorktreeMapBinding :=
  let id := FanoutWaves.task_id task in
  _ ← raise_if (negb (Str.truthy (FanoutWaves.authority_hash task))) (ConflictGraphError "mutation authority is required before worktree allocation");
  let normalized := slashed dirty_files in
  w ← get_state;
  _ ← raise_if (bool_decide (is_Some (dget id (bindings w)))) (ConflictGraphError "task already has an active map binding");
  c ← request_canonical canonical_identity canonical_tree canonical_files;
  _ ← raise_if (negb (is_ready c)) (ConflictGraphError (reason_or c "canonical_map_unavailable"));
  o ← or_release c (request_overlay worktree_identity overlay_tree normalized);
  _ ← (if negb (is_ready o) then _ ← release_handle c; raise (ConflictGraphError (reason_or o "overlay_map_unavailable")) else mret tt);
  let b := mkBinding id owner (FanoutWaves.authority_hash task) c o normalized 1 in
  _ ← modify_world (λ w, w <| bindings := dput id b (bindings w) |>
        <| metrics ::= λ m, m <| binds := binds m + 1 |> <| cache_hits := cache_hits m + (if h_cache_hit c then 1 else 0) |>
                              <| overlay_count := overlay_count m + Z.of_nat (length normalized) |> |>);
  mret b.

Definition replan_drift (id overlay_tree : string) (dirty_files : list string) : P WorktreeMapBinding :=
  w ← get_state;
  match dget id (bindings w) with
  | None => raise (ConflictGraphError "task has no active map binding")
  | Some b =>
      _ ← release_handle (overlay b);
      o ← request_overlay (h_identity_key (overlay b)) overlay_tree dirty_files;
      let b' := mkBinding (b_task_id b) (b_owner_id b) (b_authority_hash b) (canonical b) o (slashed dirty_files) (generation b + 1) in
      _ ← modify_world (λ w, w <| bindings := dput id b' (bindings w) |> <| metrics ::= λ m, m <| drift_replans := drift_replans m + 1 |> |>);
      mret b'
  end.

Definition release_binding (id : string) : P bool :=
  w ← get_state;
  match dget id (bindings w) with
  | None => mret false
  | Some b =>
      _ ← modify_world (λ w, w <| bindings := ddel id (bindings w) |>);
      _ ← release_handle (overlay b);
      _ ← release_handle (canonical b);
      _ ← modify_world (λ w, w <| metrics ::= λ m, m <| releases := releases m + 1 |> |>);
      mret true
  end.

(** [recover_owner]: over the items there were at the start. *)
Fixpoint recover_each (owner : string) (items : list (string * WorktreeMapBinding)) : P (list string) :=
  match items with
  | [] => mret []
  | (id, b) :: items' =>
      gone ← (if String.eqb (b_owner_id b) owner then release_binding id else mret false);
      rest ← recover_each owner items';
      mret (if gone : bool then id :: rest else rest)
  end.
Definition recover_owner (owner : string) : P (list string) :=
  w ← get_state;
  released ← recover_each owner (bindings w);
  _ ← modify_world (λ w, w <| metrics ::= λ m, m <| recoveries := recoveries m + 1 |> |>);
  mret (py_sorted released).

(** [status]: how many bindings there are, of which tasks, and the metrics. *)
Definition status (w : World) : nat * list string * Metrics := (length (bindings w), py_sorted (bindings w).*1, metrics w).

(** ** What happens around a manager: its methods, whatever they raise, and
    what others do to the registry, short of taking views *)
Inductive Event : Type :=
| Bind (task : FanoutWaves.TaskEnvelope) (owner ck ct : string) (cf : list string) (wk ot : string) (df : list string)
| Replan (id ot : string) (df : list string)
| ReleaseBinding (id : string)
| Recover (owner : string)
| Elsewhere (c : Call).
Definition takes (c : Call) : bool := match c with GetView _ true => true | _ => false end.

Definition drop_result {A} (m : P A) : P unit := _ ← m; mret tt.
Definition happen (e : Event) : P unit :=
  match e with
  | Bind t o ck ct cf wk ot df => drop_result (bind t o ck ct cf wk ot df)
  | Replan id ot df => drop_result (replan_drift id ot df)
  | ReleaseBinding id => drop_result (release_binding id)
  | Recover o => drop_result (recover_owner o)
  | Elsewhere c => if takes c then mret tt else on_registry (perform c)
  end.
Definition history (es : list Event) (w : World) : World := foldl (λ w e, (happen e w).1) w es.
End Client.

(** ** Specification *)

(** How many of the handles of a binding are of the view [ck]. *)
Definition one (ck ck' : string) : Z := if String.eqb ck ck' then 1 else 0.
Definition holds (ck : string) (b : WorktreeMapBinding) : Z := one (h_cache_key (canonical b)) ck + one (h_cache_key (overlay b)) ck.
Definition holders (ck : string) (w : World) : Z := dsum (holds ck) (bindings w).

(** The handle is of a view that was ready, under the hash of what it is of. *)
Definition handle_ok (m : string) (h : MapViewHandle) : Prop :=
  h_status h = "ready" ∧ h_mode h = m ∧ ∃ fs, h_cache_key h = view_key (h_identity_key h) m (h_tree_hash h) fs.
Definition binding_ok (id : string) (b : WorktreeMapBinding) : Prop :=
  b_task_id b = id ∧ b_authority_hash b ≠ "" ∧ 1 <= generation b ∧ handle_ok "canonical" (canonical b) ∧ handle_ok "overlay" (overlay b).

(** No view has more references than handles that bindings hold, and [extra]. *)
Record accounted (extra : string → Z) (w : World) : Prop := {
  a_registry : registry_ok (reg w);
  a_counted : ∀ ck v, dget ck (views (reg w)) = Some v → references v <= holders ck w + extra ck;
  a_extra : ∀ ck, 0 <= holders ck w + extra ck;
  a_bindings : ∀ id b, dget id (bindings w) = Some b → binding_ok id b;
  a_keys : NoDup (bindings w).*1;
}.

(** [accounted], and every binding that was made is there or was released. *)
Definition world_ok (w : World) : Prop :=
  accounted (λ _, 0) w ∧ binds (metrics w) = Z.of_nat (length (bindings w)) + releases (metrics w).

(** The client remembers a handle whose hash is that of a view of something else. *)
Definition collision (w : World) : Prop := ∃ k tree fs h v,
  handles w !! (k, tree, fs) = Some h ∧ dget (h_cache_key h) (views (reg w)) = Some v ∧ (identity_key v ≠ k ∨ mode v ≠ "canonical").

(** The worlds that a client and a manager get to from a fresh start. *)
Inductive reachable `{FileSystem} : World → Prop :=
| reach_new : reachable (new_world new_registry)
| reach_step w e : reachable w → ¬ collision w → reachable (happen true e w).1.

(** What a step leaves as it was. *)
Definition still (w w' : World) : Prop := bindings w' = bindings w ∧ metrics w' = metrics w.
Definition more (e : string → Z) (ck : string) : string → Z := λ k, e k + one ck k.
Definition less (e : string → Z) (ck : string) : string → Z := λ k, e k - one ck k.

(** A build for [k]: it asks for the identity, and leaves a view that is not used. *)
Definition builds (k m : string) (b : prog Registry MapExn MapView) : Prop := ∀ r, registry_ok r →
  let '(r', x) := b r in
  match x with
  | Err _ => r' = r
  | Ok v => is_Some (dget k (identities r')) ∧ registry_ok r' ∧ no_more r r' ∧ views r' = dput (cache_key v) v (views r) ∧
      valid v = true ∧ mode v = m ∧ references v = 0
  end.

(** The references of a view. *)
Definition refs (ck : string) (w : World) : Z := match dget ck (views (reg w)) with Some v => references v | None => 0 end.
(** The view of the handle is there, valid, with one reference more than it
    had, if it was reused, and with one if it was built. *)
Definition taken (h : MapViewHandle) (w w' : World) : Prop := ∃ v,
  dget (h_cache_key h) (views (reg w')) = Some v ∧ valid v = true ∧ references v = 1 + (if h_cache_hit h then refs (h_cache_key h) w else 0).
(** The other views are as they were. *)
Definition apart (ck : string) (w w' : World) : Prop := ∀ ck', ck' ≠ ck → dget ck' (views (reg w')) = dget ck' (views (reg w)).

(** What a request leaves: one more reference for the handle, or nothing. *)
Definition requested (m : string) (e : string → Z) (w : World) (p : World * result BindExn MapViewHandle) : Prop :=
  still w p.1 ∧ match p.2 with
  | Ok h => accounted (more e (h_cache_key h)) p.1 ∧ handle_ok m h ∧ taken h w p.1 ∧ apart (h_cache_key h) w p.1
  | Err _ => accounted e p.1 end.

(** An example: two worktrees of one repository. *)
Definition demo_world : World := new_world (after (H := demo_fs) [Register demo_repo true; Register (demo_worktree "1") true; Register (demo_worktree "2") true] new_registry).
Definition demo_task (n : string) : FanoutWaves.TaskEnvelope := FanoutWaves.mkEnvelope n [] [] [] [] [] [] "auth".
Definition demo_bind (n : string) (wt : string) : Event :=
  Bind (demo_task n) "worker" (key demo_repo) "tree" ["a.py"] (key (demo_worktree wt)) ("tree-" +:+ wt) ["a.py"].
Definition demo_history (es : list Event) : World := history (H := demo_fs) true es demo_world.
Definition demo_start : World := history (H := demo_fs) true [Elsewhere (Register demo_repo true); Elsewhere (Register (demo_worktree "1") true)] (new_world new_registry).
Definition demo_view : string := view_key (key demo_repo) "canonical" "tree" ["a.py"].
Definition demo_bound : World := history (H := demo_fs) true [demo_bind "a" "1"] demo_start.

(** * Lemmas *)

Example demo_reuse :
  let w := demo_history [demo_bind "a" "1"; demo_bind "b" "2"] in
  (bindings w).*1 = ["a"; "b"] ∧ cache_hits (metrics w) = 1 ∧ map (λ kv, references kv.2) (views (reg w)) = [2; 1; 1].
Proof. vm_compute. done. Qed.

Section Lemmas.
Context `{FileSystem}.

(** ** Accounts *)

Lemma one_range ck k : 0 <= one ck k <= 1.
Proof. unfold one. destruct (String.eqb _ _); lia. Qed.
Lemma one_eq ck : one ck ck = 1.
Proof. unfold one. by rewrite String.eqb_refl. Qed.

Lemma holders_nonneg ck w : 0 <= holders ck w.
Proof. apply dsum_nonneg. intros b. unfold holds. pose proof (one_range (h_cache_key (canonical b)) ck). pose proof (one_range (h_cache_key (overlay b)) ck). lia. Qed.

Lemma still_holders ck w w' : still w w' → holders ck w' = holders ck w.
Proof. unfold holders. by intros [-> _]. Qed.

#[export] Instance still_preorder : PreOrder still.
Proof. split; [by split|]. intros x y z [E1 E2] [E3 E4]. split; congruence. Qed.

Lemma accounted_weaken e e' w : accounted e w → (∀ ck, e ck <= e' ck) → accounted e' w.
Proof.
  intros [H1 H2 H3 H4 H5] He. split; [done| | |done|done].
  - intros ck v Hv. specialize (H2 ck v Hv). specialize (He ck). lia.
  - intros ck. specialize (H3 ck). specialize (He ck). lia.
Qed.

(** A registry that took no references. *)
Lemma accounted_registry e w r : accounted e w → registry_ok r → no_more (reg w) r → accounted e (w <| reg := r |>).
Proof.
  intros [H1 H2 H3 H4 H5] Hr Hn. split; [done| |done|done|done]. intros ck v' Hv'. change (holders ck (w <| reg := r |>)) with (holders ck w).
  specialize (H3 ck). destruct (Hn ck v' Hv') as [?|(v & Hv & ?)]; [lia|]. specialize (H2 ck v Hv). lia.
Qed.

Lemma on_registry_run {A} (m : prog Registry MapExn A) w : on_registry m w =
  (w <| reg := (m (reg w)).1 |>, match (m (reg w)).2 with Ok a => Ok a | Err e => Err (MapRaised e) end).
Proof. unfold on_registry, zoom, rescue. by destruct (m (reg w)) as [r [a|e]]. Qed.

Lemma accounted_safe {A} e (m : prog Registry MapExn A) w : accounted e w → safe m →
  accounted e (on_registry m w).1 ∧ still w (on_registry m w).1.
Proof.
  intros Hw Hm. rewrite on_registry_run. cbn [fst]. destruct (Hm (reg w) (a_registry _ _ Hw)) as [Hr Hn]. split; [by apply accounted_registry|done].
Qed.

(** ** Taking and giving back *)

Lemma accounted_get e ck v w : accounted e w → dget ck (views (reg w)) = Some v → valid v = true →
  ∃ v', on_registry (get_view ck true) w = (w <| reg := ((reg w) <| views := dput ck v' (views (reg w)) |>) |>, Ok v') ∧
    v' = v <| references := references v + 1 |> ∧ accounted (more e ck) (w <| reg := ((reg w) <| views := dput ck v' (views (reg w)) |>) |>).
Proof.
  intros Hw Hv Hval. eexists. rewrite on_registry_run, get_view_run, Hv, Hval. split; [done|]. split; [done|].
  destruct Hw as [H1 H2 H3 H4 H5]. pose proof (v_references _ _ _ (r_views _ H1 ck v Hv)).
  split; [by apply put_references_ok; [|done|lia]| | |done|done].
  - intros ck' v' Hv'. unfold more. change (holders ck' _) with (holders ck' w) at 1. cbn in Hv'. rewrite dget_put in Hv'. case_decide as E.
    + injection Hv' as <-. subst ck'. rewrite one_eq. specialize (H2 ck v Hv). change (references v + 1 <= holders ck w + (e ck + 1)). lia.
    + specialize (H2 ck' v' Hv'). pose proof (one_range ck ck'). change (references v' <= holders ck' w + (e ck' + one ck ck')). lia.
  - intros ck'. specialize (H3 ck'). pose proof (one_range ck ck'). unfold more. change (0 <= holders ck' w + (e ck' + one ck ck')). lia.
Qed.

Lemma accounted_handles e w hs : accounted e w → accounted e (w <| handles := hs |>).
Proof. by intros [? ? ? ? ?]. Qed.

Lemma handle_ok_ne m h : handle_ok m h → Str.truthy (h_cache_key h) = true.
Proof. intros (_ & _ & fs & ->). apply Str.truthy_ne. apply Sha256.hexdigest_ne. Qed.

Lemma view_handle r ck v hit c : view_ok r ck v → handle_ok (mode v) (ready_handle v hit c).
Proof. intros [Hk Hc _ _ _]. split; [done|]. split; [done|]. exists (files v). cbn [h_cache_key ready_handle h_identity_key h_tree_hash]. congruence. Qed.

(** Giving back a handle that is accounted for. *)
Lemma release_handle_spec e m h w : accounted e w → handle_ok m h → 1 <= holders (h_cache_key h) w + e (h_cache_key h) →
  ∃ w', release_handle true h w = (w', Ok tt) ∧ still w w' ∧ accounted (less e (h_cache_key h)) w'.
Proof.
  intros Hw Hh Hone. unfold release_handle. rewrite (handle_ok_ne m h Hh). cbn [andb]. set (ck := h_cache_key h) in *.
  destruct (accounted_safe e (release ck) w Hw (safe_release ck)) as [Hw' Hs].
  unfold mbind, prog_bind. rewrite on_registry_run in *. unfold release, modify in *. cbn [fst snd] in *. unfold modify_world. eexists. split; [done|].
  split; [done|]. apply accounted_handles. destruct Hw' as [H1 H2 H3 H4 H5]. split; [done| | |done|done].
  - intros ck' v' Hv'. specialize (H2 ck' v' Hv'). unfold less, one. destruct (String.eqb_spec ck ck') as [<-|Hne]; [|lia].
    cbn [reg] in Hv'. change (holders ck (w <| reg := _ |>)) with (holders ck w) in *. clear H2.
    change (dget ck (views (match dget ck (views (reg w)) with Some v => (reg w) <| views := dput ck (v <| references := Z.max 0 (references v - 1) |>) (views (reg w)) |> | None => reg w end)) = Some v') in Hv'.
    destruct (dget ck (views (reg w))) as [v|] eqn:E; [|congruence]. cbn [views] in Hv'.
    change (dget ck (dput ck (v <| references := Z.max 0 (references v - 1) |>) (views (reg w))) = Some v') in Hv'. rewrite dget_put_eq in Hv'. injection Hv' as <-.
    pose proof (a_counted _ _ Hw ck v E). change (Z.max 0 (references v - 1) <= holders ck w + (e ck - 1)). lia.
  - intros ck'. specialize (H3 ck'). unfold less, one. change (holders ck' (w <| reg := _ |>)) with (holders ck' w) in *.
    destruct (String.eqb_spec ck ck') as [<-|Hne]; lia.
Qed.

(** ** Requests *)

Lemma build_view_builds k m tree fs tr d r : (m = "canonical" ∨ m = "overlay") → registry_ok r →
  let '(r', x) := build_view k m tree fs tr d r in
  match x with
  | Err _ => r' = r
  | Ok v => is_Some (dget k (identities r')) ∧ registry_ok r' ∧ no_more r r' ∧ views r' = dput (cache_key v) v (views r) ∧ valid v = true ∧ mode v = m ∧
      references v = 0
  end.
Proof.
  intros Hm Hr. pose proof (build_view_run k m tree fs tr d r Hm (r_identities r Hr k)) as Hb. pose proof (safe_build_view k m tree fs tr d Hm r Hr) as [Hok Hn].
  destruct (build_view k m tree fs tr d r) as [r' x]. cbn [fst] in *. destruct (dget k (identities r)) as [i|] eqn:Ei; [|by destruct Hb as [-> ->]].
  destruct Hb as (v & -> & E & _ & _ & Hmo & _ & Href & Hval & _). split_and!; [|done|done| |done|done|done]; rewrite E; [|done].
  change (is_Some (dget k (identities r))). rewrite Ei. by eexists.
Qed.

Lemma canonical_builds k tree fs tr : builds k "canonical" (build_canonical k tree fs tr).
Proof.
  intros r Hr. unfold build_canonical. rewrite bind_identity. destruct (dget k (identities r)) as [i|] eqn:E; [|done].
  rewrite (r_identities r Hr k i E). apply build_view_builds; [by left|done].
Qed.

Lemma overlay_builds k tree fs tr : builds k "overlay" (MapService.build_overlay k tree fs tr).
Proof.
  intros r Hr. unfold MapService.build_overlay. rewrite bind_identity. destruct (dget k (identities r)) as [i|] eqn:E; [|done].
  rewrite (r_identities r Hr k i E). unfold raise_if. destruct (negb _); [done|]. unfold mbind, prog_bind, mret, prog_ret.
  apply build_view_builds; [by right|done].
Qed.

Lemma requested_start m e w w0 p : still w w0 → reg w0 = reg w → requested m e w0 p → requested m e w p.
Proof. intros Hs Hreg [Hs' Hp]. split; [by etransitivity|]. unfold taken, apart, refs in *. by rewrite Hreg in Hp. Qed.

Lemma acquire_built_spec e k m b w : accounted e w → builds k m b → requested m e w (acquire_built k b w).
Proof.
  intros Hw Hb. pose proof (Hb (reg w) (a_registry _ _ Hw)) as H1. unfold acquire_built. unfold mbind at 1, prog_bind at 1. rewrite on_registry_run.
  destruct (b (reg w)) as [r1 [v|x]]; cbn [fst snd]; [|subst r1; split; [done|by destruct w]]. destruct H1 as (Hid & Hr1 & Hn & Hviews & Hval & Hm & Href).
  assert (dget (cache_key v) (views r1) = Some v) as Hv by (by rewrite Hviews, dget_put_eq).
  assert (accounted e (w <| reg := r1 |>)) as Hw1 by (by apply accounted_registry). set (w1 := w <| reg := r1 |>) in *.
  destruct (accounted_get e (cache_key v) v w1 Hw1 Hv Hval) as (v' & Eg & Ev & Hw2). unfold mbind, prog_bind. rewrite Eg.
  rewrite on_registry_run, identity_run. cbn [fst snd]. set (w2 := w1 <| reg := _ |>) in *.
  change (dget k (identities (reg w2))) with (dget k (identities r1)). destruct Hid as [i Hi]. rewrite Hi. unfold mret, prog_ret.
  assert (w2 <| reg := reg w2 |> = w2) as -> by done.
  assert (cache_key v' = cache_key v) as Ek by (by rewrite Ev). split; [done|]. cbn [fst snd h_cache_key ready_handle]. rewrite Ek. split; [done|].
  pose proof (view_handle (reg w2) (cache_key v) v' false (config_hash i)) as Hh. rewrite Ev in Hh |- *. change (mode (v <| references := references v + 1 |>)) with (mode v) in Hh.
  assert (dget (cache_key v) (views (reg w2)) = Some (v <| references := references v + 1 |>)) as Hv2.
  { change (dget (cache_key v) (dput (cache_key v) v' (views r1)) = Some (v <| references := references v + 1 |>)). by rewrite dget_put_eq, Ev. }
  rewrite Hm in Hh. split; [by apply Hh, (r_views _ (a_registry _ _ Hw2))|]. split.
  - exists (v <| references := references v + 1 |>). cbn [h_cache_key ready_handle h_cache_hit].
    change (cache_key (v <| references := references v + 1 |>)) with (cache_key v). split; [exact Hv2|]. split; [exact Hval|].
    change (references v + 1 = 1 + 0). lia.
  - intros ck Hck. cbn [h_cache_key ready_handle] in Hck. change (cache_key (v <| references := references v + 1 |>)) with (cache_key v) in Hck.
    change (dget ck (dput (cache_key v) v' (views r1)) = dget ck (views (reg w))). by rewrite dget_put_ne, Hviews, dget_put_ne.
Qed.

Lemma requested_then m e w p : requested m e w p → ∀ hk,
  requested m e w (let '(w', x) := p in match x with Ok h => (_ ← modify_world (λ w, w <| handles := <[hk := h]> (handles w) |>); mret h) w' | Err x => (w', Err x) end).
Proof. destruct p as [w' [h|x]]; [|done]. intros [Hs (Hw & Hh)] hk. split; [exact Hs|]. split; [by apply accounted_handles|exact Hh]. Qed.

Lemma build_new_spec e hk k tree fs w : accounted e w → requested "canonical" e w (build_new hk k tree fs w).
Proof.
  intros Hw. pose proof (requested_then _ _ _ _ (acquire_built_spec e k "canonical" _ w Hw (canonical_builds k tree fs "")) hk) as Hr.
  unfold build_new. unfold mbind at 1, prog_bind at 1. by destruct (acquire_built k _ w) as [w' [h|x]].
Qed.

Lemma request_canonical_spec e k tree fs w : accounted e w → ¬ collision w → requested "canonical" e w (request_canonical true k tree fs w).
Proof.
  intros Hw Hc. unfold request_canonical. unfold mbind at 1, prog_bind at 1. unfold get_state. cbn [negb].
  destruct (handles w !! (k, tree, cleaned fs)) as [h|] eqn:Eh; [|by apply build_new_spec].
  unfold mbind at 1, prog_bind at 1. unfold attempt.
  destruct (dget (h_cache_key h) (views (reg w))) as [v|] eqn:Ev; [destruct (valid v) eqn:Eval|].
  - destruct (accounted_get e _ v w Hw Ev Eval) as (v' & Eg & Ev' & Hw2). rewrite Eg. unfold mbind, prog_bind. rewrite on_registry_run, identity_run. cbn [fst snd].
    set (w2 := w <| reg := _ |>) in *. change (identities (reg w2)) with (identities (reg w)).
    assert (identity_key v = k ∧ mode v = "canonical") as [Hik Hmo].
    { split; apply dec_stable; intros Hne; apply Hc; exists k, tree, (cleaned fs), h, v; auto. }
    pose proof (r_views _ (a_registry _ _ Hw) _ _ Ev) as Hv. destruct (v_identity _ _ _ Hv Eval) as [i Hi]. rewrite Hik in Hi. rewrite Hi. unfold mret, prog_ret.
    assert (w2 <| reg := reg w2 |> = w2) as -> by done. pose proof (v_key _ _ _ Hv) as Hck.
    split; [done|]. cbn [fst snd h_cache_key ready_handle]. rewrite Ev'. change (cache_key (v <| references := references v + 1 |>)) with (cache_key v). rewrite Hck.
    split; [done|]. pose proof (view_handle (reg w2) (h_cache_key h) (v <| references := references v + 1 |>) true (config_hash i)) as Hh.
    assert (dget (h_cache_key h) (views (reg w2)) = Some (v <| references := references v + 1 |>)) as Hv2.
    { change (dget (h_cache_key h) (dput (h_cache_key h) v' (views (reg w))) = Some (v <| references := references v + 1 |>)). by rewrite dget_put_eq, Ev'. }
    change (mode (v <| references := references v + 1 |>)) with (mode v) in Hh. rewrite Hmo in Hh. split; [by apply Hh, (r_views _ (a_registry _ _ Hw2))|].
    assert (h_cache_key (ready_handle (v <| references := references v + 1 |>) true (config_hash i)) = h_cache_key h) as Ehk by exact Hck. split.
    + exists (v <| references := references v + 1 |>). rewrite Ehk. split; [exact Hv2|]. split; [exact Eval|].
      cbn [h_cache_hit ready_handle]. unfold refs. rewrite Ev. change (references v + 1 = 1 + references v). lia.
    + intros ck Hck'.
      change (dget ck (dput (h_cache_key h) v' (views (reg w))) = dget ck (views (reg w))). by rewrite dget_put_ne.
  - rewrite on_registry_run, get_view_run, Ev, Eval. cbn [fst snd]. unfold mbind, prog_bind, modify_world.
    assert (w <| reg := reg w |> = w) as -> by (by destruct w). eapply requested_start; [| |by apply build_new_spec, accounted_handles]; done.
  - rewrite on_registry_run, get_view_run, Ev. cbn [fst snd]. unfold mbind, prog_bind, modify_world.
    assert (w <| reg := reg w |> = w) as -> by (by destruct w). eapply requested_start; [| |by apply build_new_spec, accounted_handles]; done.
Qed.

Lemma request_overlay_spec e k tree fs w : accounted e w → requested "overlay" e w (request_overlay true k tree fs w).
Proof. intros Hw. unfold request_overlay. cbn [negb]. apply acquire_built_spec; [done|apply overlay_builds]. Qed.

(** ** The bindings *)

Lemma accounted_put e e' w w' id b : accounted e w → binding_ok id b → reg w' = reg w → bindings w' = dput id b (bindings w) →
  (∀ ck, e ck <= e' ck + holds ck b - dval (holds ck) id (bindings w)) → accounted e' w'.
Proof.
  intros [H1 H2 H3 H4 H5] Hb Hreg Hbs He.
  assert (∀ ck, holders ck w + e ck <= holders ck w' + e' ck) as Hle.
  { intros ck. unfold holders. rewrite Hbs, dsum_put by done. specialize (He ck). lia. }
  split; rewrite ?Hreg, ?Hbs; [done| | | |by apply dput_NoDup].
  - intros ck v Hv. specialize (H2 ck v Hv). specialize (Hle ck). lia.
  - intros ck. specialize (H3 ck). specialize (Hle ck). lia.
  - intros id' b'. rewrite dget_put. case_decide; [intros [= <-]; by subst id'|apply H4].
Qed.

Lemma accounted_del e w id b : accounted e w → dget id (bindings w) = Some b →
  accounted (λ ck, e ck + holds ck b) (w <| bindings := ddel id (bindings w) |>).
Proof.
  intros [H1 H2 H3 H4 H5] Hb. set (w' := w <| bindings := _ |>).
  assert (∀ ck, holders ck w' = holders ck w - holds ck b) as Hle.
  { intros ck. unfold holders. change (bindings w') with (ddel id (bindings w)). rewrite dsum_del by done. unfold dval. by rewrite Hb. }
  split; [done| | | |].
  - intros ck v Hv. specialize (H2 ck v Hv). rewrite Hle. lia.
  - intros ck. specialize (H3 ck). rewrite Hle. lia.
  - intros id' b'. change (bindings w') with (ddel id (bindings w)). rewrite dget_del. case_decide; [done|apply H4].
  - change (bindings w') with (ddel id (bindings w)). rewrite ddel_keys. by apply NoDup_Listfilter.
Qed.

Lemma length_put {V} id (b : V) d : NoDup d.*1 → Z.of_nat (length (dput id b d)) = Z.of_nat (length d) - dval (λ _, 1) id d + 1.
Proof. intros Hd. by rewrite <- !dsum_one, dsum_put. Qed.
Lemma length_del {V} id (d : list (string * V)) : NoDup d.*1 → Z.of_nat (length (ddel id d)) = Z.of_nat (length d) - dval (λ _, 1) id d.
Proof. intros Hd. by rewrite <- !dsum_one, dsum_del. Qed.

Lemma accounted_metrics e w f : accounted e w → accounted e (w <| metrics ::= f |>).
Proof. by intros [? ? ? ? ?]. Qed.

Lemma still_ok w w' : world_ok w → still w w' → accounted (λ _, 0) w' → world_ok w'.
Proof. intros [_ Hm] [Eb Em] Hw'. split; [done|]. by rewrite Eb, Em. Qed.

Lemma handle_ready m h : handle_ok m h → is_ready h = true.
Proof. intros [E _]. unfold is_ready. by rewrite E. Qed.

Lemma less_more e ck k : less (more e ck) ck k = e k.
Proof. unfold less, more. lia. Qed.

(** [bind]: both views are taken, or none. *)
Lemma bind_spec task owner ck ct cf wk ot df w : world_ok w → ¬ collision w →
  let '(w', x) := bind true task owner ck ct cf wk ot df w in
  world_ok w' ∧ match x with
  | Ok b => let id := FanoutWaves.task_id task in dget id (bindings w) = None ∧ bindings w' = dput id b (bindings w) ∧ binding_ok id b ∧
      b_owner_id b = owner ∧ b_authority_hash b = FanoutWaves.authority_hash task ∧ generation b = 1 ∧
      (h_cache_key (canonical b) ≠ h_cache_key (overlay b) → taken (canonical b) w w' ∧ taken (overlay b) w w')
  | Err _ => still w w'
  end.
Proof.
  intros Hok Hc. destruct (Hok) as [Hw Hm]. unfold bind. set (id := FanoutWaves.task_id task).
  rewrite bind_raise_if. destruct (Str.truthy (FanoutWaves.authority_hash task)) eqn:Ea; cbn [negb]; [|by split].
  rewrite bind_get, bind_raise_if. case_bool_decide as Hid; [by split|]. rewrite bind_run. pose proof (request_canonical_spec (λ _, 0) ck ct cf w Hw Hc) as Hr.
  destruct (request_canonical true ck ct cf w) as [w1 [c|x]]; [|destruct Hr; split; [by apply (still_ok w)|done]]. destruct Hr as [Hs1 (Hw1 & Hcok & Htc & Hapc)]. cbn [fst snd] in *.
  rewrite bind_raise_if, (handle_ready _ _ Hcok). cbn [negb]. rewrite bind_run. unfold or_release, try_except. pose proof (request_overlay_spec _ wk ot (slashed df) w1 Hw1) as Hr.
  destruct (request_overlay true wk ot (slashed df) w1) as [w2 [o|x]]; destruct Hr as [Hs2 Hr]; cbn [fst snd] in *.
  - destruct Hr as (Hw2 & Ho & Hto & Hapo). rewrite (handle_ready _ _ Ho). cbn [negb]. unfold mbind, prog_bind, mret, prog_ret, modify_world.
    set (b := mkBinding id owner (FanoutWaves.authority_hash task) c o (slashed df) 1).
    assert (bindings w2 = bindings w) as Eb by (destruct Hs1 as [E1 _], Hs2 as [E2 _]; congruence).
    assert (metrics w2 = metrics w) as Em by (destruct Hs1 as [_ E1], Hs2 as [_ E2]; congruence).
    assert (∀ f : WorktreeMapBinding → Z, dval f id (bindings w) = 0) as Hnone.
    { intros f. unfold dval. destruct (dget id (bindings w)); [|done]. destruct Hid. by eexists. }
    assert (binding_ok id b) as Hbok.
    { split; [reflexivity|]. split; [by apply Str.truthy_ne|]. split; [cbn [generation b]; lia|exact (conj Hcok Ho)]. }
    split; [split|].
    + eapply (accounted_put _ _ w2 _ id b); [exact Hw2|exact Hbok|reflexivity|reflexivity|].
      intros k. rewrite Eb, Hnone. unfold more, holds. cbn [canonical overlay b]. lia.
    + change (binds (metrics w2) + 1 = Z.of_nat (length (dput id b (bindings w2))) + releases (metrics w2)).
      rewrite Eb, Em, length_put by apply (a_keys _ _ Hw). rewrite Hnone. lia.
    + cbv zeta. fold id. split; [by destruct (dget id (bindings w)); [destruct Hid; eexists|]|].
      split; [change (dput id b (bindings w2) = dput id b (bindings w)); by rewrite Eb|]. split; [exact Hbok|]. do 3 (split; [reflexivity|]).
      cbn [canonical overlay b]. intros Hne. unfold taken, refs in *. cbn [reg]. split.
      * destruct Htc as (v & Hv & Hrest). exists v. rewrite <- Hv. split; [by apply Hapo|done].
      * destruct Hto as (v & Hv & Hval & Href). exists v. split; [exact Hv|]. split; [exact Hval|]. rewrite Href, Hapc; [done|]. congruence.
  - pose proof (holders_nonneg (h_cache_key c) w2).
    destruct (release_handle_spec _ "canonical" c w2 Hr Hcok) as (w3 & E3 & Hs3 & Hw3); [unfold more; rewrite one_eq; lia|].
    unfold mbind, prog_bind. rewrite E3. unfold raise. assert (still w w3) as Hs by (by etransitivity; [etransitivity|]). split; [|exact Hs]. apply (still_ok w); [done|exact Hs|].
    eapply accounted_weaken; [exact Hw3|]. intros k. rewrite less_more. lia.
Qed.

(** [replan_drift]: the overlay is given back before the next one is asked for. *)
Lemma replan_ok id ot df w : world_ok w → world_ok (replan_drift true id ot df w).1.
Proof.
  intros Hok. destruct (Hok) as [Hw Hm]. unfold replan_drift. rewrite bind_get.
  destruct (dget id (bindings w)) as [b|] eqn:Eb; [|done]. destruct (a_bindings _ _ Hw id b Eb) as (Hid & Hauth & Hgen & Hcb & Hob).
  assert (1 <= holders (h_cache_key (overlay b)) w + 0) as Hone.
  { unfold holders. pose proof (dsum_del (holds (h_cache_key (overlay b))) id (bindings w) (a_keys _ _ Hw)) as Hd. unfold dval in Hd. rewrite Eb in Hd.
    unfold holds in Hd at 3. rewrite one_eq in Hd. pose proof (one_range (h_cache_key (canonical b)) (h_cache_key (overlay b))).
    assert (0 <= dsum (holds (h_cache_key (overlay b))) (ddel id (bindings w))); [|lia].
    apply dsum_nonneg. intros b'. unfold holds. pose proof (one_range (h_cache_key (canonical b')) (h_cache_key (overlay b))).
    pose proof (one_range (h_cache_key (overlay b')) (h_cache_key (overlay b))). lia. }
  destruct (release_handle_spec _ "overlay" (overlay b) w Hw Hob Hone) as (w1 & E1 & Hs1 & Hw1).
  rewrite bind_run, E1, bind_run.
  pose proof (request_overlay_spec _ (h_identity_key (overlay b)) ot df w1 Hw1) as Hr.
  destruct (request_overlay true (h_identity_key (overlay b)) ot df w1) as [w2 [o|x]]; destruct Hr as [Hs2 Hr]; cbn [fst snd] in *.
  - destruct Hr as (Hw2 & Ho & _). unfold mbind, prog_bind, mret, prog_ret, modify_world. cbn [fst]. set (b' := mkBinding _ _ _ _ _ _ _).
    assert (bindings w2 = bindings w) as Ebs by (destruct Hs1 as [? _], Hs2 as [? _]; congruence).
    assert (metrics w2 = metrics w) as Em by (destruct Hs1 as [_ ?], Hs2 as [_ ?]; congruence).
    split.
    + eapply (accounted_put _ _ w2 _ id b'); [exact Hw2| |done|done|].
      * split; [exact Hid|]. split; [exact Hauth|]. split; [cbn [generation b']; lia|exact (conj Hcb Ho)].
      * intros k. rewrite Ebs. unfold dval. rewrite Eb. unfold more, less, holds. cbn [canonical overlay b']. lia.
    + change (binds (metrics w2) = Z.of_nat (length (dput id b' (bindings w2))) + releases (metrics w2)).
      rewrite Ebs, Em, length_put by apply (a_keys _ _ Hw). unfold dval. rewrite Eb. lia.
  - apply (still_ok w); [done|by etransitivity|]. eapply accounted_weaken; [exact Hr|]. intros k. unfold less. pose proof (one_range (h_cache_key (overlay b)) k). lia.
Qed.

Lemma release_binding_ok id w : world_ok w → world_ok (release_binding true id w).1.
Proof.
  intros Hok. destruct (Hok) as [Hw Hm]. unfold release_binding. rewrite bind_get.
  destruct (dget id (bindings w)) as [b|] eqn:Eb; [|done]. destruct (a_bindings _ _ Hw id b Eb) as (_ & _ & _ & Hcb & Hob).
  rewrite bind_run. unfold modify_world at 1. set (w1 := w <| bindings := _ |>).
  assert (accounted (λ ck, 0 + holds ck b) w1) as Hw1 by (by apply accounted_del).
  destruct (release_handle_spec _ "overlay" (overlay b) w1 Hw1 Hob) as (w2 & E2 & Hs2 & Hw2).
  { pose proof (holders_nonneg (h_cache_key (overlay b)) w1). unfold holds. rewrite one_eq. pose proof (one_range (h_cache_key (canonical b)) (h_cache_key (overlay b))). lia. }
  rewrite bind_run, E2.
  destruct (release_handle_spec _ "canonical" (canonical b) w2 Hw2 Hcb) as (w3 & E3 & Hs3 & Hw3).
  { pose proof (holders_nonneg (h_cache_key (canonical b)) w2). unfold less, holds. rewrite one_eq. lia. }
  rewrite bind_run, E3. unfold mbind, prog_bind, modify_world, mret, prog_ret. cbn [fst].
  assert (still w1 w3) as [Ebs Em] by (by etransitivity). split.
  - apply accounted_metrics. eapply accounted_weaken; [exact Hw3|]. intros k. unfold less, holds. lia.
  - change (binds (metrics w3) = Z.of_nat (length (bindings w3)) + (releases (metrics w3) + 1)). rewrite Ebs, Em.
    change (binds (metrics w) = Z.of_nat (length (ddel id (bindings w))) + (releases (metrics w) + 1)). rewrite length_del by apply (a_keys _ _ Hw).
    unfold dval. rewrite Eb. lia.
Qed.

Lemma recover_each_ok owner items w : world_ok w → world_ok (recover_each true owner items w).1.
Proof.
  revert w. induction items as [|[id b] items IH]; intros w Hok; [done|]. cbn [recover_each]. rewrite bind_run.
  assert (∀ w x, world_ok w → world_ok ((rest ← recover_each true owner items; mret (if x : bool then id :: rest else rest)) w).1) as Hrest.
  { intros w0 x Hw0. unfold mbind, prog_bind. specialize (IH w0 Hw0). by destruct (recover_each true owner items w0) as [w1 [l|y]]. }
  destruct (String.eqb (b_owner_id b) owner); [|by apply Hrest]. pose proof (release_binding_ok id w Hok) as Hr.
  destruct (release_binding true id w) as [w1 [x|y]]; [by apply Hrest|done].
Qed.

Lemma happen_ok e w : world_ok w → ¬ collision w → world_ok (happen true e w).1.
Proof.
  intros Hok Hc. assert (∀ A (m : prog World BindExn A), world_ok (m w).1 → world_ok (drop_result m w).1) as Hd.
  { intros A m Hm. unfold drop_result, mbind, prog_bind. by destruct (m w) as [? [?|?]]. }
  destruct e as [t o ck ct cf wk ot df|id ot df|id|o|c]; cbn [happen]; [apply Hd; pose proof (bind_spec t o ck ct cf wk ot df w Hok Hc) as Hb; by destruct (bind true t o ck ct cf wk ot df w); destruct Hb|by apply Hd, replan_ok|by apply Hd, release_binding_ok| |].
  - apply Hd. unfold recover_owner. rewrite bind_get, bind_run. pose proof (recover_each_ok o (bindings w) w Hok) as Hr.
    destruct (recover_each true o (bindings w) w) as [w1 [l|y]]; [|done]. cbn [fst] in Hr.
    unfold mbind, prog_bind, modify_world, mret, prog_ret. destruct Hr as [Hw Hm]. split; [by apply accounted_metrics|exact Hm].
  - destruct (takes c) eqn:Et; [done|]. destruct (accounted_safe (λ _, 0) (perform c) w (proj1 Hok)) as [Hw Hs]; [|by apply (still_ok w)].
    apply safe_perform. by destruct c as [| | | |? []| | | | |].
Qed.

Lemma new_world_ok : world_ok (new_world new_registry).
Proof. split; [|done]. split; [apply map_registry_new_ok|done|done|done|constructor]. Qed.

Lemma world_reachable_ok w : reachable w → world_ok w.
Proof. induction 1 as [|w e _ IH Hc]; [apply new_world_ok|by apply happen_ok]. Qed.
End Lemmas.

(** * Properties *)
Section Properties.
Context `{FileSystem}.

(** C31: no reference is left behind. Whatever tasks bind, replan, release or
    leave to a recovery, with requests that fail at any point, and whatever others
    do to the registry short of taking views: a view never has more references than
    bindings hold it, every binding that was made is active or was released, and
    once none is active an invalidated identity leaves nothing behind. And a bind
    takes its references: after it both views of the task are there and valid, each
    with one reference, or with one more than before when the client had its handle.
    Here the hash of no handle that the client remembers is that of a view of
    something else ([collision]), nor are those of the two views the same. (The
    other way round the count fails: a view that is built again starts from no
    reference, whoever holds it, [shared_view_collected].) *)
Theorem no_reference_leaks w : reachable w →
  (∀ ck v, dget ck (views (reg w)) = Some v → 0 <= references v <= holders ck w) ∧
  binds (metrics w) = Z.of_nat (length (bindings w)) + releases (metrics w) ∧
  (bindings w = [] → ∀ k reason, is_ok (invalidate k reason (reg w)).2 →
    ∀ ck v, dget ck (views (gc (invalidate k reason (reg w)).1).1) = Some v → identity_key v ≠ k) ∧
  (¬ collision w → ∀ task owner ck ct cf wk ot df,
    let '(w', x) := bind true task owner ck ct cf wk ot df w in
    match x with
    | Ok b => h_cache_key (canonical b) ≠ h_cache_key (overlay b) → taken (canonical b) w w' ∧ taken (overlay b) w w'
    | Err _ => True
    end).
Proof.
  intros Hok%world_reachable_ok. pose proof Hok as [Hw Hm]. assert (∀ ck v, dget ck (views (reg w)) = Some v → 0 <= references v <= holders ck w) as Hrange.
  { intros ck v Hv. pose proof (a_counted _ _ Hw ck v Hv). pose proof (v_references _ _ _ (r_views _ (a_registry _ _ Hw) ck v Hv)). cbn beta in *. lia. }
  split; [exact Hrange|]. split; [exact Hm|]. split.
  2:{ intros Hc task owner ck ct cf wk ot df. pose proof (bind_spec task owner ck ct cf wk ot df w Hok Hc) as Hb.
      destruct (bind true task owner ck ct cf wk ot df w) as [w' [b|x]]; [|done]. apply Hb. }
  intros Hnone k reason Hinv ck v Hv Hk.
  pose proof (safe_invalidate k reason (reg w) (a_registry _ _ Hw)) as [Hr1 _]. pose proof (invalidate_run k reason (reg w)) as Hi.
  destruct (invalidate k reason (reg w)) as [r1 x]. cbn [fst snd] in *. destruct (dget k (identities (reg w))); [|by destruct Hi as [_ ->]].
  destruct Hi as [[d Er1] _]. pose proof (gc_run r1 Hr1) as Hg. destruct (gc r1) as [r2 y]. cbn [fst] in Hv. destruct Hg as (_ & _ & Hg). rewrite Hg in Hv.
  destruct (dget ck (views r1)) as [v1|] eqn:E1; [|done]. destruct (collectable v1) eqn:Ec; [done|]. injection Hv as ->. rewrite Er1 in E1.
  change (dget ck ((λ kv, (kv.1, expire k kv.2)) <$> views (reg w)) = Some v) in E1. rewrite dget_map in E1. apply fmap_Some in E1 as (v0 & E0 & ->).
  assert (holders ck w = 0) as Hz by (unfold holders; by rewrite Hnone).
  assert (references v0 = 0) as H0 by (pose proof (Hrange ck v0 E0); lia).
  assert (identity_key v0 = k) as Hk0. { revert Hk. unfold expire. by destruct (stale k v0). }
  revert Ec. unfold expire, stale. rewrite Hk0, String.eqb_refl. cbn [andb]. destruct (valid v0) eqn:Ev.
  - change (collectable (v0 <| valid := false |>)) with (references v0 =? 0). by rewrite H0.
  - unfold collectable. rewrite Ev, H0. done.
Qed.

(** a task is bound to both of its views or to none. It needs an authority
    and must not be bound already; then it gets a canonical view and an overlay
    that were ready, each under the hash of what it is of. When anything fails
    the bindings and the counts are as before, and what was taken is given back. *)
Theorem bind_all_or_nothing task owner ck ct cf wk ot df w : reachable w → ¬ collision w →
  let '(w', x) := bind true task owner ck ct cf wk ot df w in
  let id := FanoutWaves.task_id task in
  (∀ ck v, dget ck (views (reg w')) = Some v → references v <= holders ck w') ∧
  match x with
  | Ok b => dget id (bindings w) = None ∧ FanoutWaves.authority_hash task ≠ "" ∧ bindings w' = dput id b (bindings w) ∧ binding_ok id b ∧
      b_owner_id b = owner ∧ generation b = 1
  | Err _ => bindings w' = bindings w ∧ metrics w' = metrics w
  end.
Proof.
  intros Hw%world_reachable_ok Hc. pose proof (bind_spec task owner ck ct cf wk ot df w Hw Hc) as Hb.
  destruct (bind true task owner ck ct cf wk ot df w) as [w' [b|e]]; destruct Hb as [[Hw' _] Hb].
  - destruct Hb as (Hid & Hbs & Hbok & Hown & Hauth & Hgen). split; [intros k v Hv; pose proof (a_counted _ _ Hw' k v Hv); cbn beta in *; lia|].
    split; [exact Hid|]. split; [rewrite <- Hauth; apply Hbok|]. destruct Hgen. split_and!; assumption.
  - split; [intros k v Hv; pose proof (a_counted _ _ Hw' k v Hv); cbn beta in *; lia|]. exact Hb.
Qed.
End Properties.

(** ** The example *)

(** Worlds without a handle have no collision, so the first steps are reachable. *)
Lemma no_handles w : handles w = ∅ → ¬ collision w.
Proof. intros Hw (k & tree & fs & h & v & Hh & _). rewrite Hw in Hh. by rewrite lookup_empty in Hh. Qed.

Lemma bindings_demo_reachable : reachable (H := demo_fs) demo_start.
Proof.
  apply (reach_step (H := demo_fs)); [|apply no_handles; vm_compute; reflexivity]. apply (reach_step (H := demo_fs)); [|apply no_handles; reflexivity].
  apply (reach_new (H := demo_fs)).
Qed.

Lemma demo_start_apart : ¬ collision demo_start.
Proof. apply no_handles. vm_compute. reflexivity. Qed.

Lemma demo_bound_reachable : reachable (H := demo_fs) demo_bound.
Proof. apply (reach_step (H := demo_fs)); [exact bindings_demo_reachable|exact demo_start_apart]. Qed.

Lemma no_reference_leaks_witness :
  match dget demo_view (views (reg demo_bound)) with Some v => 0 <= references v <= holders demo_view demo_bound | None => False end.
Proof.
  destruct (dget demo_view (views (reg demo_bound))) as [v|] eqn:E.
  - exact (proj1 (no_reference_leaks (H := demo_fs) demo_bound demo_bound_reachable) demo_view v E).
  - vm_compute in E. discriminate E.
Defined.

Lemma bind_all_or_nothing_witness :
  match (bind (H := demo_fs) true (demo_task "a") "worker" (key demo_repo) "tree" ["a.py"] (key (demo_worktree "1")) "tree-1" ["a.py"] demo_start).2 with
  | Ok b => binding_ok "a" b | Err _ => False end.
Proof.
  pose proof (bind_all_or_nothing (H := demo_fs) (demo_task "a") "worker" (key demo_repo) "tree" ["a.py"] (key (demo_worktree "1")) "tree-1" ["a.py"] demo_start bindings_demo_reachable demo_start_apart) as Hb.
  destruct (bind (H := demo_fs) true (demo_task "a") "worker" (key demo_repo) "tree" ["a.py"] (key (demo_worktree "1")) "tree-1" ["a.py"] demo_start) as [w' [b|e]] eqn:E.
  - exact (proj1 (proj2 (proj2 (proj2 (proj2 Hb))))).
  - exfalso. assert (is_ok (bind (H := demo_fs) true (demo_task "a") "worker" (key demo_repo) "tree" ["a.py"] (key (demo_worktree "1")) "tree-1" ["a.py"] demo_start).2 = true) as Ht
      by (vm_compute; reflexivity). rewrite E in Ht. discriminate Ht.
Defined.

(** ** What the code does not do *)

(** Releasing one task makes the client forget a canonical view that others
    hold; the next bind builds it again, without them, and it is collected
    while a task is still bound to it. *)
Lemma shared_view_collected :
  let w := demo_history [demo_bind "a" "1"; demo_bind "b" "2"; ReleaseBinding "a"; demo_bind "c" "1"; ReleaseBinding "c";
                         Elsewhere (Invalidate (key demo_repo) "drift"); Elsewhere Collect] in
  match dget "b" (bindings w) with
  | Some b => dget (h_cache_key (canonical b)) (views (reg w)) = None
  | None => False
  end.
Proof. vm_compute. done. Qed.

(** Two tasks in one worktree share the overlay, but it is built twice and
    counted once: the drift of one takes it from the other. *)
Lemma shared_overlay_collected :
  let w := demo_history [demo_bind "left" "1"; demo_bind "right" "1"; Replan "left" "tree-2" ["b.py"];
                         Elsewhere (Invalidate (key (demo_worktree "1")) "overlay_drift"); Elsewhere Collect] in
  match dget "right" (bindings w) with
  | Some b => dget (h_cache_key (overlay b)) (views (reg w)) = None
  | None => False
  end.
Proof. vm_compute. done. Qed.

(** A replan that fails has given the overlay back, and the task stays bound to it. *)
Lemma failed_replan_gives_back :
  let moved := mkIdentity "repo" "/src" "main" (Some "/src/wt1") "def" true "1" Null in
  let w := demo_history [demo_bind "a" "1"; Elsewhere (Register moved true)] in
  let '(w', x) := replan_drift (H := demo_fs) true "a" "tree-2" ["b.py"] w in
  is_ok x = false ∧ dget "a" (bindings w') = dget "a" (bindings w) ∧
  match dget "a" (bindings w') with Some b => (references <$> dget (h_cache_key (overlay b)) (views (reg w'))) = Some 0 | None => False end.
Proof. vm_compute. done. Qed.
