(* ===== verification/LeaseStore.v ===== *)
(** The fenced resource leases ([simplicio_loop/slot_lease.py]), projected from
    the operations journal of [Journal]. Every operation is the store's loop:
    replay, project, decide at the time of the clock, append with the sequence
    number that was replayed. Times are floats with integer values, so that
    their [repr] in the hashed receipts is exact. *)
From stdpp Require Import pretty.
From S2P Require Import Prelude PyLib PyText Journal.
Local Open Scope Z_scope.
Local Open Scope py_scope.

(** * Definitions *)

Definition LEASE_SCHEMA : string := "simplicio.capability-lease/v1".
Definition RECEIPT_SCHEMA : string := "simplicio.capability-lease-receipt/v1".

(** [LeaseError], [LeaseConflict], [StaleFence] and the [ValueError] of bad
    arguments. *)
Inductive LeaseExn : Type :=
| LeaseError (msg : string)
| LeaseConflict (msg : string)
| StaleFence (msg : string)
| LeaseValueError (msg : string).

Notation leased := (result LeaseExn).

Record CapabilityLease := mkLease {
  resource_key : string;
  owner_id : string;
  attempt : Z;
  fence : Z;
  issued_at : Z;
  heartbeat_at : Z;
  expires_at : Z;
  state : string;
}.
#[export] Instance CapabilityLease_eta : Eta CapabilityLease := λ l,
  mkLease (resource_key l) (owner_id l) (attempt l) (fence l) (issued_at l) (heartbeat_at l) (expires_at l) (state l).

(** [_digest] *)
Definition digest (v : Json.json) : string := "sha256:" +:+ Sha256.hexdigest (Json.dumps true v).

Record Receipt := mkReceipt {
  r_event : string;
  r_observed_at : Z;
  r_lease : CapabilityLease;
  r_reason : option string;
  r_hash : string;
}.
#[export] Instance Receipt_eta : Eta Receipt := λ r,
  mkReceipt (r_event r) (r_observed_at r) (r_lease r) (r_reason r) (r_hash r).

Definition receipt_body (r : Receipt) : Json.json :=
  let l := r_lease r in
  Json.Obj [
    ("schema", Json.Str RECEIPT_SCHEMA); ("event", Json.Str (r_event r)); ("observed_at", Json.Float (r_observed_at r));
    ("resource_key", Json.Str (resource_key l)); ("owner_id", Json.Str (owner_id l)); ("attempt", Json.Int (attempt l));
    ("fence", Json.Int (fence l)); ("expires_at", Json.Float (expires_at l)); ("state", Json.Str (state l));
    ("reason", match r_reason r with Some s => Json.Str s | None => Json.Null end)].

(** [_receipt] *)
Definition receipt_of (event : string) (l : CapabilityLease) (observed_at : Z) (reason : option string) : Receipt :=
  let r := mkReceipt event observed_at l reason "" in r <| r_hash := digest (receipt_body r) |>.

(** ** Events and their projection *)

Inductive LeaseOperation : Type := acquired | heartbeated | released | marked_stale | invalidated.

(** [ForeignEvent] is an event of another schema or operation. *)
Inductive LeaseEvent : Type :=
| LeaseChange (operation : LeaseOperation) (key : string) (lease : CapabilityLease) (receipt : Receipt)
| MutationCommitted (key value_key : string) (value : Json.json) (fence : Z) (receipt : Receipt)
| ForeignEvent.

Record LeaseState := mkState {
  leases : list (string * CapabilityLease);
  counters : gmap string Z;
  protected : gmap string (gmap string (Json.json * Z));
  receipts : list Receipt;
}.
#[export] Instance LeaseState_eta : Eta LeaseState := λ s,
  mkState (leases s) (counters s) (protected s) (receipts s).

Definition empty_state : LeaseState := mkState [] ∅ ∅ [].

Definition apply_event (s : LeaseState) (e : LeaseEvent) : leased LeaseState :=
  match e with
  | LeaseChange _ key lease receipt =>
      Ok (s <| leases ::= dput key lease |>
            <| counters ::= λ c, <[key := Z.max (get0 c key) (fence lease)]> c |>
            <| receipts ::= λ rs, rs ++ [receipt] |>)
  | MutationCommitted key value_key value f receipt =>
      Ok (s <| protected ::= λ p, <[key := <[value_key := (value, f)]> (default ∅ (p !! key))]> p |>
            <| receipts ::= λ rs, rs ++ [receipt] |>)
  | ForeignEvent => Err (LeaseError "lease journal contains an unknown event")
  end.

(** ** Operations *)

(** The operations inside their loops; [MarkStale] and [InvalidateOwner] carry
    the receipts of their turns so far. *)
Inductive LeaseOp : Type :=
| Acquire (key owner : string) (ttl : Z)
| Heartbeat (key owner : string) (f ttl : Z)
| PutValue (key owner : string) (f : Z) (value_key : string) (value : Json.json)
| Release (key owner : string) (f : Z)
| MarkStale (sofar : list Receipt)
| Invalidate (key reason : string)
| InvalidateOwner (owner reason : string) (sofar : list Receipt).

Inductive LeaseReply : Type :=
| LeaseGranted (lease : CapabilityLease) (receipt : Receipt)
| ValueCommitted (value_key : string) (fence : Z) (receipt : Receipt)
| Receipts (l : list Receipt)
| NoLease.

Definition ttl_of (max_ttl ttl : Z) : leased Z :=
  if (ttl <=? 0) || (max_ttl <? ttl) then Err (LeaseValueError ("ttl_seconds must be in (0, " +:+ pretty max_ttl +:+ "]"))
  else Ok ttl.

(** The checks before the loops of [acquire], [heartbeat] and [invalidate_owner]. *)
Definition acquire (max_ttl : Z) (key owner : string) (ttl : Z) : leased LeaseOp :=
  let key := Str.strip key in
  let owner := Str.strip owner in
  if negb (Str.truthy key) || negb (Str.truthy owner) then Err (LeaseValueError "resource_key and owner_id are required")
  else let? ttl := ttl_of max_ttl ttl in Ok (Acquire key owner ttl).
Definition heartbeat (max_ttl : Z) (key owner : string) (f ttl : Z) : leased LeaseOp :=
  let? ttl := ttl_of max_ttl ttl in Ok (Heartbeat key owner f ttl).
Definition invalidate_owner (owner reason : string) : leased LeaseOp :=
  let owner := Str.strip owner in
  if negb (Str.truthy owner) then Err (LeaseValueError "owner_id is required") else Ok (InvalidateOwner owner reason []).

Definition active_at (l : CapabilityLease) (now : Z) : bool := String.eqb (state l) "active" && (now <? expires_at l).

(** [_require_current] *)
Definition require_current (s : LeaseState) (key owner : string) (f now : Z) : leased CapabilityLease :=
  match dget key (leases s) with
  | None => Err (StaleFence "resource has no lease")
  | Some l =>
      if negb (active_at l now) then Err (StaleFence "lease expired")
      else if negb (String.eqb (owner_id l) owner) || negb (fence l =? f) then Err (StaleFence "owner or fencing token is stale")
      else Ok l
  end.

Notation decided := (TurnOutcome LeaseEvent LeaseReply LeaseOp).

Definition change (operation : LeaseOperation) (event : string) (l : CapabilityLease) (now : Z) : decided :=
  let r := receipt_of event l now None in
  Append (LeaseChange operation (resource_key l) l r) (inl (LeaseGranted l r)).

Definition acquire_turn (key owner : string) (ttl : Z) (s : LeaseState) (now : Z) : leased decided :=
  let current := dget key (leases s) in
  let busy := match current with Some l => active_at l now | None => false end in
  match busy, current with
  | true, Some l =>
      Err (LeaseConflict (key +:+ " held by " +:+ owner_id l +:+ " until " +:+ pretty (expires_at l) +:+ ".0"))
  | _, _ =>
      let att := match current with Some l => attempt l + 1 | None => 1 end in
      Ok (change acquired "acquired" (mkLease key owner att (get0 (counters s) key + 1) now now (now + ttl) "active") now)
  end.

Definition heartbeat_turn (key owner : string) (f ttl : Z) (s : LeaseState) (now : Z) : leased decided :=
  let? l := require_current s key owner f now in
  let l' := mkLease (resource_key l) (owner_id l) (attempt l) (fence l) (issued_at l) now (now + ttl) "active" in
  let r := receipt_of "heartbeat" l' now None in
  Ok (Append (LeaseChange heartbeated key l' r) (inl (LeaseGranted l' r))).

Definition put_turn (key owner : string) (f : Z) (value_key : string) (value : Json.json) (s : LeaseState) (now : Z) : leased decided :=
  let? l := require_current s key owner f now in
  let r := receipt_of "mutation_committed" l now None in
  Ok (Append (MutationCommitted key value_key value f r) (inl (ValueCommitted value_key f r))).

Definition release_turn (key owner : string) (f : Z) (s : LeaseState) (now : Z) : leased decided :=
  let? l := require_current s key owner f now in
  let l' := l <| state := "released" |> in
  let r := receipt_of "released" l' now None in
  Ok (Append (LeaseChange released key l' r) (inl (LeaseGranted l' r))).

(** [next(lease for lease in state["leases"].values() if ...)] *)
Definition first_lease (P : CapabilityLease → bool) (s : LeaseState) : option CapabilityLease :=
  List.find P (leases s).*2.

Definition mark_stale_turn (sofar : list Receipt) (s : LeaseState) (now : Z) : leased decided :=
  match first_lease (λ l, String.eqb (state l) "active" && (expires_at l <=? now)) s with
  | None => Ok (Return (Receipts sofar))
  | Some l =>
      let l' := l <| state := "stale" |> in
      let r := receipt_of "marked_stale" l' now (Some "heartbeat_expired") in
      Ok (Append (LeaseChange marked_stale (resource_key l) l' r) (inr (MarkStale (sofar ++ [r]))))
  end.

Definition invalidate_turn (key reason : string) (s : LeaseState) (now : Z) : leased decided :=
  match dget key (leases s) with
  | None => Ok (Return NoLease)
  | Some l =>
      let l' := l <| state := if String.eqb (state l) "active" then "stale" else state l |> in
      let r := receipt_of "invalidated" l' now (Some reason) in
      Ok (Append (LeaseChange invalidated key l' r) (inl (LeaseGranted l' r)))
  end.

Definition invalidate_owner_turn (owner reason : string) (sofar : list Receipt) (s : LeaseState) (now : Z) : leased decided :=
  match first_lease (λ l, String.eqb (owner_id l) owner && String.eqb (state l) "active") s with
  | None => Ok (Return (Receipts sofar))
  | Some l =>
      let l' := l <| state := "stale" |> in
      let r := receipt_of "invalidated" l' now (Some reason) in
      Ok (Append (LeaseChange invalidated (resource_key l) l' r) (inr (InvalidateOwner owner reason (sofar ++ [r]))))
  end.

Definition lease_turn (op : LeaseOp) (s : LeaseState) (now : Z) : leased decided :=
  match op with
  | Acquire key owner ttl => acquire_turn key owner ttl s now
  | Heartbeat key owner f ttl => heartbeat_turn key owner f ttl s now
  | PutValue key owner f value_key value => put_turn key owner f value_key value s now
  | Release key owner f => release_turn key owner f s now
  | MarkStale sofar => mark_stale_turn sofar s now
  | Invalidate key reason => invalidate_turn key reason s now
  | InvalidateOwner owner reason sofar => invalidate_owner_turn owner reason sofar s now
  end.

Definition lease_check (max_ttl : Z) (op : LeaseOp) : leased LeaseOp :=
  match op with
  | Acquire key owner ttl => acquire max_ttl key owner ttl
  | Heartbeat key owner f ttl => heartbeat max_ttl key owner f ttl
  | MarkStale _ => Ok (MarkStale [])
  | InvalidateOwner owner reason _ => invalidate_owner owner reason
  | _ => Ok op
  end.

(** [for _ in range(32)], or [while True]. *)
Definition lease_tries (op : LeaseOp) : option nat :=
  match op with MarkStale _ | InvalidateOwner _ _ _ => None | _ => Some 32%nat end.

Definition contended_message (op : LeaseOp) : string :=
  match op with
  | Acquire _ _ _ => "lease acquisition remained contended"
  | Heartbeat _ _ _ _ => "lease heartbeat remained contended"
  | PutValue _ _ _ _ _ => "protected mutation remained contended"
  | Release _ _ _ => "lease release remained contended"
  | _ => "lease invalidation remained contended"
  end.

(** [LeaseStore] as a client of the journal; [_state] is [project LeaseStore]. *)
Definition LeaseStore (max_ttl : Z) : Client LeaseEvent LeaseState LeaseExn LeaseOp LeaseReply :=
  mkClient empty_state apply_event (lease_check max_ttl) lease_turn lease_tries (LeaseError "lease journal is invalid")
    (λ op, LeaseError (contended_message op)) (λ msg, LeaseError ("lease journal append failed: " +:+ msg)).

(** ** Reading *)

Section Reads.
Context {J : Type} `{!JournalOps J LeaseEvent} (max_ttl : Z) (j : J).

Definition current_state : leased LeaseState :=
  if rp_valid (replay j) then project (LeaseStore max_ttl) (rp_events (replay j)) else Err (LeaseError "lease journal is invalid").

(** [read] *)
Definition read (key value_key : string) : leased (option Json.json) :=
  let? s := current_state in
  Ok (fst <$> (default ∅ (protected s !! key) : gmap string (Json.json * Z)) !! value_key).

Record Effective := mkEffective {
  ef_lease : CapabilityLease;
  ef_expires_in : Z;
  ef_conflict : bool;
}.

(** [_effective] *)
Definition effective (l : CapabilityLease) (now : Z) : Effective :=
  let st := if String.eqb (state l) "active" && (expires_at l <=? now) then "stale" else state l in
  mkEffective (l <| state := st |>) (Z.max 0 (expires_at l - now)) (String.eqb st "active").

Definition list_leases (prefix : string) (now : Z) : leased (list Effective) :=
  let? s := current_state in
  Ok (omap (λ k, if Text.startswith prefix k then (λ l, effective l now) <$> dget k (leases s) else None)
        (py_sorted (leases s).*1)).

(** [status], with [age_seconds]. *)
Definition status (key : string) (now : Z) : leased (option (Effective * Z)) :=
  let? s := current_state in
  Ok ((λ l, (effective l now, Z.max 0 (now - issued_at l))) <$> dget key (leases s)).

Definition receipts_of (key : string) : leased (list Receipt) :=
  let? s := current_state in Ok (List.filter (λ r, String.eqb (resource_key (r_lease r)) key) (receipts s)).

(** [reclaim]: [mark_stale], then [acquire], with no other process in between. *)
Definition reclaim (fuel : nat) (key owner : string) (ttl now : Z) : J * leased LeaseReply :=
  match run_alone (LeaseStore max_ttl) fuel j (MarkStale []) now with
  | (j', Err x) => (j', Err x)
  | (j', Ok _) =>
      match acquire max_ttl key owner ttl with
      | Err x => (j', Err x)
      | Ok op => run_alone (LeaseStore max_ttl) fuel j' op now
      end
  end.
End Reads.

(** * Specification *)

(** A lock per resource with an owner, a fence and a time it is held until, the
    last fence granted per resource, and the values written under the locks. *)
Record Lock := mkLock {
  lk_owner : string;
  lk_fence : Z;
  lk_until : Z;
  lk_live : bool;
}.

Record LockState := mkLocks {
  locks : gmap string Lock;
  granted : gmap string Z;
  cells : gmap string (gmap string (Json.json * Z));
}.
#[export] Instance LockState_eta : Eta LockState := λ s, mkLocks (locks s) (granted s) (cells s).

Definition held (σ : LockState) (key owner : string) (f now : Z) : Prop :=
  ∃ l, locks σ !! key = Some l ∧ lk_live l = true ∧ now < lk_until l ∧ lk_owner l = owner ∧ lk_fence l = f.

Definition set_lock (key : string) (l : Lock) (σ : LockState) : LockState := σ <| locks ::= <[key := l]> |>.
Definition retired (l : Lock) : Lock := mkLock (lk_owner l) (lk_fence l) (lk_until l) false.

(** How an operation ends: a new lock with its fence, done, or an exception. *)
Inductive Verdict : Type :=
| Granted (fence : Z)
| Done
| Refused.

(** One atomic operation on the locks at the time [now]. *)
Inductive lock_step (σ : LockState) (now : Z) : LeaseOp → Verdict → LockState → Prop :=
| lock_grant key owner ttl : (∀ o f, ¬ held σ key o f now) →
    let f := get0 (granted σ) key + 1 in
    lock_step σ now (Acquire key owner ttl) (Granted f)
      (set_lock key (mkLock owner f (now + ttl) true) (σ <| granted ::= <[key := f]> |>))
| lock_busy key owner ttl o f : held σ key o f now → lock_step σ now (Acquire key owner ttl) Refused σ
| lock_extend key owner f ttl : held σ key owner f now →
    lock_step σ now (Heartbeat key owner f ttl) Done (set_lock key (mkLock owner f (now + ttl) true) σ)
| lock_no_extend key owner f ttl : ¬ held σ key owner f now → lock_step σ now (Heartbeat key owner f ttl) Refused σ
| lock_write key owner f vk v : held σ key owner f now →
    lock_step σ now (PutValue key owner f vk v) Done
      (σ <| cells ::= λ cs, <[key := <[vk := (v, f)]> (default ∅ (cs !! key))]> cs |>)
| lock_no_write key owner f vk v : ¬ held σ key owner f now → lock_step σ now (PutValue key owner f vk v) Refused σ
| lock_release key owner f l : held σ key owner f now → locks σ !! key = Some l →
    lock_step σ now (Release key owner f) Done (set_lock key (retired l) σ)
| lock_no_release key owner f : ¬ held σ key owner f now → lock_step σ now (Release key owner f) Refused σ
| lock_expire sofar key l : locks σ !! key = Some l → lk_live l = true → lk_until l <= now →
    lock_step σ now (MarkStale sofar) Done (set_lock key (retired l) σ)
| lock_none_expired sofar : (∀ key l, locks σ !! key = Some l → lk_live l = true → now < lk_until l) →
    lock_step σ now (MarkStale sofar) Done σ
| lock_revoke key reason l : locks σ !! key = Some l → lock_step σ now (Invalidate key reason) Done (set_lock key (retired l) σ)
| lock_no_revoke key reason : locks σ !! key = None → lock_step σ now (Invalidate key reason) Done σ
| lock_revoke_owner owner reason sofar key l : locks σ !! key = Some l → lk_live l = true → lk_owner l = owner →
    lock_step σ now (InvalidateOwner owner reason sofar) Done (set_lock key (retired l) σ)
| lock_none_owned owner reason sofar : (∀ key l, locks σ !! key = Some l → lk_live l = true → lk_owner l ≠ owner) →
    lock_step σ now (InvalidateOwner owner reason sofar) Done σ.

Definition no_locks : LockState := mkLocks ∅ ∅ ∅.

Notation LeaseAction := (Action (E:=LeaseEvent) (X:=LeaseExn) (Op:=LeaseOp) (Out:=LeaseReply)).

(** What the store's decision means for the caller. *)
Definition verdict (d : leased decided) : Verdict :=
  match d with
  | Err _ => Refused
  | Ok (Append (LeaseChange acquired _ l _) _) => Granted (fence l)
  | Ok _ => Done
  end.

Inductive lock_run : list LeaseAction → LockState → Prop :=
| lock_run_nil : lock_run [] no_locks
| lock_run_snoc log σ a σ' : lock_run log σ → lock_step σ (a_now a) (a_op a) (verdict (a_decision a)) σ' →
    lock_run (log ++ [a]) σ'.

(** The lock a lease stands for, and the locks a projected state stands for. *)
Definition lock_of (l : CapabilityLease) : Lock :=
  mkLock (owner_id l) (fence l) (expires_at l) (String.eqb (state l) "active").

Record represents (s : LeaseState) (σ : LockState) : Prop := {
  rep_lock : ∀ k, locks σ !! k = lock_of <$> dget k (leases s);
  rep_granted : granted σ = counters s;
  rep_cells : cells σ = protected s;
}.

Record lease_wf (s : LeaseState) : Prop := {
  lw_nodup : NoDup (leases s).*1;
  lw_key : ∀ k l, dget k (leases s) = Some l → resource_key l = k;
  lw_fence : ∀ k l, dget k (leases s) = Some l → counters s !! k = Some (fence l);
}.

(** [a] grants [key] to [owner] with fence [f]; [a] writes under it. *)
Definition grants (key owner : string) (f : Z) (a : LeaseAction) : Prop :=
  ∃ ttl, a_op a = Acquire key owner ttl ∧ verdict (a_decision a) = Granted f.
Definition writes (key owner : string) (f : Z) (a : LeaseAction) : Prop :=
  ∃ vk v, a_op a = PutValue key owner f vk v ∧ verdict (a_decision a) = Done.

(** * Examples *)

(** [w1] takes the slot, writes, lets its lease expire; [w2] takes it over; the
    late write of [w1] comes back. *)
Definition demo_calls : list (positive * LeaseOp * Z) := [
  (1%positive, Acquire "slot" "w1" 10, 100); (1%positive, PutValue "slot" "w1" 1 "result" (Json.Int 1), 101);
  (2%positive, Acquire "slot" "w2" 10, 105); (2%positive, MarkStale [], 111); (2%positive, Acquire "slot" "w2" 10, 112);
  (1%positive, PutValue "slot" "w1" 1 "result" (Json.Int 2), 113); (2%positive, PutValue "slot" "w2" 2 "result" (Json.Int 3), 114)].
Definition demo_world : World (J:=MemJournal LeaseEvent) := play (LeaseStore 60) 4 (start_world (mkMem [])) demo_calls.
Definition demo_write : LeaseAction :=
  default (mkAction 1%positive (MarkStale []) 0 (Ok (Return NoLease))) (w_log demo_world !! 7%nat).
Definition demo_verdicts : list (positive * Verdict) := (λ a, (a_pid a, verdict (a_decision a))) <$> w_log demo_world.

(** * Lemmas *)

Lemma held_lock s σ key owner f now : represents s σ →
  held σ key owner f now ↔
  ∃ l, dget key (leases s) = Some l ∧ active_at l now = true ∧ owner_id l = owner ∧ fence l = f.
Proof.
  intros Hrep. unfold held, active_at. rewrite (rep_lock s σ Hrep). split.
  - intros (k & Hk & Hl & Hu & Ho & Hf). apply fmap_Some in Hk as (l & Hl' & ->). exists l.
    cbn in Hl, Hu, Ho, Hf. rewrite Hl. split; [done|]. split; [by apply Z.ltb_lt|done].
  - intros (l & Hl & Ha & Ho & Hf). apply andb_true_iff in Ha as [Ha Hb]. exists (lock_of l). rewrite Hl.
    apply Z.ltb_lt in Hb. by rewrite <- Ha.
Qed.

Lemma require_current_Ok s σ key owner f now l : represents s σ →
  require_current s key owner f now = Ok l → held σ key owner f now ∧ dget key (leases s) = Some l ∧ owner_id l = owner ∧ fence l = f.
Proof.
  intros Hrep H. unfold require_current in H. destruct (dget key (leases s)) as [l'|] eqn:El; [|done].
  destruct (active_at l' now) eqn:Ea; cbn [negb] in H; [|done].
  destruct (String.eqb_spec (owner_id l') owner) as [Ho|]; cbn [negb orb] in H; [|done].
  destruct (Z.eqb_spec (fence l') f) as [Hf|]; cbn [negb] in H; [|done]. injection H as <-.
  split; [|done]. rewrite held_lock by done. by exists l'.
Qed.

Lemma require_current_Err s σ key owner f now x : represents s σ →
  require_current s key owner f now = Err x → ¬ held σ key owner f now.
Proof.
  intros Hrep H. rewrite held_lock by done. intros (l & Hl & Ha & Ho & Hf). unfold require_current in H.
  rewrite Hl, Ha in H. cbn [negb] in H. rewrite Ho, String.eqb_refl, Hf, Z.eqb_refl in H. done.
Qed.

(** What an event does to the locks. *)
Lemma represents_change s σ op key l r s' :
  represents s σ → apply_event s (LeaseChange op key l r) = Ok s' →
  represents s' (set_lock key (lock_of l) (σ <| granted ::= <[key := Z.max (get0 (counters s) key) (fence l)]> |>)).
Proof.
  intros [H1 H2 H3] H. injection H as <-. split; cbn.
  - intros k. rewrite lookup_insert, dget_put. repeat case_decide; naive_solver.
  - by rewrite H2.
  - done.
Qed.

(** A renewed or retired lease keeps its fence. *)
Lemma represents_keep s σ op key l l' r s' :
  represents s σ → lease_wf s → dget key (leases s) = Some l → fence l' = fence l →
  apply_event s (LeaseChange op key l' r) = Ok s' → represents s' (set_lock key (lock_of l') σ).
Proof.
  intros Hrep Hwf Hl Hf H. apply (represents_change s σ) in H; [|done].
  assert (granted σ = <[key := Z.max (get0 (counters s) key) (fence l')]> (granted σ)) as Hg.
  { rewrite (rep_granted s σ Hrep). pose proof (lw_fence s Hwf key l Hl) as Hc. rewrite (get0_Some _ _ _ Hc), Hf, Z.max_id.
    by rewrite insert_id. }
  destruct σ as [lo g ce]. cbn in Hg. destruct H as [H1 H2 H3]. split; [exact H1| |exact H3]. cbn in H2 |- *. by rewrite <- H2.
Qed.

Lemma represents_write s σ key vk v f r s' :
  represents s σ → apply_event s (MutationCommitted key vk v f r) = Ok s' →
  represents s' (σ <| cells ::= λ cs, <[key := <[vk := (v, f)]> (default ∅ (cs !! key))]> cs |>).
Proof. intros [H1 H2 H3] H. injection H as <-. split; cbn; [done|done|]. by rewrite H3. Qed.

(** The leases a change writes keep their key and carry the counter's fence. *)
Lemma lease_wf_change s op key l r s' :
  lease_wf s → resource_key l = key → get0 (counters s) key <= fence l →
  apply_event s (LeaseChange op key l r) = Ok s' → lease_wf s'.
Proof.
  intros [H1 H2 H3] Hk Hf H. injection H as <-. split; cbn.
  - by apply dput_NoDup.
  - intros k l'. rewrite dget_put. case_decide as E; [|by apply H2]. intros [= <-]. by subst.
  - intros k l'. rewrite dget_put, lookup_insert. case_decide as E.
    + intros [= <-]. rewrite decide_True by done. f_equal. lia.
    + rewrite decide_False by done. by apply H3.
Qed.

Lemma lease_wf_keep s op key l l' r s' :
  lease_wf s → dget key (leases s) = Some l → resource_key l' = resource_key l → fence l' = fence l →
  apply_event s (LeaseChange op key l' r) = Ok s' → lease_wf s'.
Proof.
  intros Hwf Hl Hk Hf. apply lease_wf_change; [done|rewrite Hk; by apply (lw_key s Hwf)|].
  rewrite (get0_Some _ _ _ (lw_fence s Hwf key l Hl)). lia.
Qed.

Lemma lease_wf_write s key vk v f r s' :
  lease_wf s → apply_event s (MutationCommitted key vk v f r) = Ok s' → lease_wf s'.
Proof. intros [H1 H2 H3] H. injection H as <-. by split. Qed.

Lemma first_lease_Some s P l : lease_wf s → first_lease P s = Some l → dget (resource_key l) (leases s) = Some l ∧ P l = true.
Proof.
  intros Hwf H. unfold first_lease in H. apply find_some in H as [Hin HP]. split; [|done].
  rewrite <- list_elem_of_In in Hin. apply list_elem_of_fmap in Hin as ([k l'] & -> & Hin). cbn [snd].
  apply (elem_of_dget k l' _ (lw_nodup s Hwf)) in Hin. by rewrite (lw_key s Hwf k l' Hin).
Qed.

Lemma first_lease_None s P k l : first_lease P s = None → dget k (leases s) = Some l → P l = false.
Proof.
  intros H Hl. apply (find_none _ _ H). rewrite <- list_elem_of_In. apply (list_elem_of_fmap_2 snd _ (k, l)). by apply dget_Some_pair.
Qed.

Lemma retired_lock l st : st ≠ "active" → lock_of (l <| state := st |>) = retired (lock_of l).
Proof. intros H. unfold lock_of, retired. cbn. by rewrite (proj2 (String.eqb_neq _ _) H). Qed.

(** ** Every turn is a step of the specification *)

Definition turn_refines (s : LeaseState) (σ : LockState) (now : Z) (op : LeaseOp) (d : leased decided) : Prop :=
  match d with
  | Ok (Append e _) =>
      ∃ s' σ', apply_event s e = Ok s' ∧ represents s' σ' ∧ lease_wf s' ∧ lock_step σ now op (verdict d) σ'
  | _ => lock_step σ now op (verdict d) σ
  end.

(** A turn that rewrites a known lease, keeping its key and fence. *)
Lemma turn_keep s σ now op o key l l' r next :
  represents s σ → lease_wf s → dget key (leases s) = Some l → resource_key l' = resource_key l → fence l' = fence l →
  o ≠ acquired → lock_step σ now op Done (set_lock key (lock_of l') σ) →
  turn_refines s σ now op (Ok (Append (LeaseChange o key l' r) next)).
Proof.
  intros Hrep Hwf Hl Hk Hf Ho Hstep. destruct (apply_event s (LeaseChange o key l' r)) as [s'|] eqn:Hs'; [|done].
  exists s', (set_lock key (lock_of l') σ). split; [done|]. split; [by apply (represents_keep s σ o key l l' r)|].
  split; [by apply (lease_wf_keep s o key l l' r)|]. by destruct o.
Qed.

Lemma acquire_refines s σ key owner ttl now : represents s σ → lease_wf s →
  turn_refines s σ now (Acquire key owner ttl) (acquire_turn key owner ttl s now).
Proof.
  intros Hrep Hwf.
  assert (∀ att, (∀ o f, ¬ held σ key o f now) →
    turn_refines s σ now (Acquire key owner ttl)
      (Ok (change acquired "acquired" (mkLease key owner att (get0 (counters s) key + 1) now now (now + ttl) "active") now))) as Hgrant.
  { intros att Hfree. unfold change. cbn [resource_key]. set (l := mkLease _ _ _ _ _ _ _ _). set (r := receipt_of _ _ _ _).
    destruct (apply_event s (LeaseChange acquired key l r)) as [s'|] eqn:Hs'; [|done]. exists s'. eexists. split; [exact Hs'|].
    split; [exact (represents_change _ _ _ _ _ _ _ Hrep Hs')|].
    split; [by apply (lease_wf_change s acquired key l r); [done|done|cbn; lia|]|].
    replace (Z.max (get0 (counters s) key) (fence l)) with (get0 (granted σ) key + 1) by (rewrite (rep_granted s σ Hrep); cbn; lia).
    cbn [verdict fence l]. rewrite <- (rep_granted s σ Hrep). unfold lock_of. cbn.
    rewrite <- (rep_granted s σ Hrep). by apply lock_grant. }
  unfold acquire_turn. destruct (dget key (leases s)) as [l|] eqn:El; [destruct (active_at l now) eqn:Ea|].
  - apply (lock_busy _ _ _ _ _ (owner_id l) (fence l)). rewrite held_lock by done. by exists l.
  - apply Hgrant. intros o f. rewrite held_lock by done. intros (l' & Hl' & Ha & _). congruence.
  - apply Hgrant. intros o f. rewrite held_lock by done. intros (l' & Hl' & Ha & _). congruence.
Qed.

Lemma heartbeat_refines s σ key owner f ttl now : represents s σ → lease_wf s →
  turn_refines s σ now (Heartbeat key owner f ttl) (heartbeat_turn key owner f ttl s now).
Proof.
  intros Hrep Hwf. unfold heartbeat_turn. destruct (require_current s key owner f now) as [l|x] eqn:E; cbn [rbind].
  - apply (require_current_Ok s σ) in E as (Hheld & Hl & Ho & Hf); [|done].
    apply (turn_keep s σ now _ _ key l); try done. unfold lock_of. cbn. rewrite Ho, Hf. by apply lock_extend.
  - apply (require_current_Err s σ) in E; [|done]. by apply lock_no_extend.
Qed.

Lemma put_refines s σ key owner f vk v now : represents s σ → lease_wf s →
  turn_refines s σ now (PutValue key owner f vk v) (put_turn key owner f vk v s now).
Proof.
  intros Hrep Hwf. unfold put_turn. destruct (require_current s key owner f now) as [l|x] eqn:E; cbn [rbind].
  - apply (require_current_Ok s σ) in E as (Hheld & Hl & Ho & Hf); [|done].
    set (r := receipt_of _ _ _ _). destruct (apply_event s (MutationCommitted key vk v f r)) as [s'|] eqn:Hs'; [|done].
    exists s'. eexists. split; [exact Hs'|]. split; [exact (represents_write _ _ _ _ _ _ _ _ Hrep Hs')|].
    split; [by apply (lease_wf_write s key vk v f r)|]. by apply lock_write.
  - apply (require_current_Err s σ) in E; [|done]. by apply lock_no_write.
Qed.

Lemma release_refines s σ key owner f now : represents s σ → lease_wf s →
  turn_refines s σ now (Release key owner f) (release_turn key owner f s now).
Proof.
  intros Hrep Hwf. unfold release_turn. destruct (require_current s key owner f now) as [l|x] eqn:E; cbn [rbind].
  - apply (require_current_Ok s σ) in E as (Hheld & Hl & Ho & Hf); [|done].
    apply (turn_keep s σ now _ _ key l); try done. rewrite retired_lock by done.
    apply (lock_release _ _ _ owner f); [done|]. by rewrite (rep_lock s σ Hrep), Hl.
  - apply (require_current_Err s σ) in E; [|done]. by apply lock_no_release.
Qed.

Lemma locks_lookup s σ k l : represents s σ → dget k (leases s) = Some l → locks σ !! k = Some (lock_of l).
Proof. intros Hrep Hl. by rewrite (rep_lock s σ Hrep), Hl. Qed.

Lemma mark_stale_refines s σ sofar now : represents s σ → lease_wf s →
  turn_refines s σ now (MarkStale sofar) (mark_stale_turn sofar s now).
Proof.
  intros Hrep Hwf. unfold mark_stale_turn. destruct (first_lease _ s) as [l|] eqn:E.
  - apply first_lease_Some in E as [Hl HP]; [|done]. apply andb_true_iff in HP as [Ha He]. apply Z.leb_le in He.
    apply (turn_keep s σ now _ _ _ l); try done. rewrite retired_lock by done.
    apply lock_expire; [by apply (locks_lookup s σ)|done|done].
  - apply lock_none_expired. intros k lk Hk Hlive. rewrite (rep_lock s σ Hrep) in Hk.
    apply fmap_Some in Hk as (l & Hl & ->). apply (first_lease_None _ _ _ _ E) in Hl. cbn in Hlive |- *. rewrite Hlive in Hl.
    by apply Z.leb_gt.
Qed.

Lemma invalidate_refines s σ key reason now : represents s σ → lease_wf s →
  turn_refines s σ now (Invalidate key reason) (invalidate_turn key reason s now).
Proof.
  intros Hrep Hwf. unfold invalidate_turn. destruct (dget key (leases s)) as [l|] eqn:El.
  - apply (turn_keep s σ now _ _ key l); try done. rewrite retired_lock.
    + apply lock_revoke. by apply (locks_lookup s σ).
    + by destruct (String.eqb_spec (state l) "active").
  - apply lock_no_revoke. by rewrite (rep_lock s σ Hrep), El.
Qed.

Lemma invalidate_owner_refines s σ owner reason sofar now : represents s σ → lease_wf s →
  turn_refines s σ now (InvalidateOwner owner reason sofar) (invalidate_owner_turn owner reason sofar s now).
Proof.
  intros Hrep Hwf. unfold invalidate_owner_turn. destruct (first_lease _ s) as [l|] eqn:E.
  - apply first_lease_Some in E as [Hl HP]; [|done]. apply andb_true_iff in HP as [Ho Ha]. apply String.eqb_eq in Ho.
    apply (turn_keep s σ now _ _ _ l); try done. rewrite retired_lock by done.
    by apply lock_revoke_owner; [apply (locks_lookup s σ)|..].
  - apply lock_none_owned. intros k lk Hk Hlive. rewrite (rep_lock s σ Hrep) in Hk.
    apply fmap_Some in Hk as (l & Hl & ->). apply (first_lease_None _ _ _ _ E) in Hl. cbn in Hlive |- *. rewrite Hlive, andb_true_r in Hl.
    by apply String.eqb_neq.
Qed.

Lemma lease_turn_refines s σ op now : represents s σ → lease_wf s → turn_refines s σ now op (lease_turn op s now).
Proof.
  intros Hrep Hwf. destruct op; cbn [lease_turn];
    [apply acquire_refines|apply heartbeat_refines|apply put_refines|apply release_refines
    |apply mark_stale_refines|apply invalidate_refines|apply invalidate_owner_refines]; done.
Qed.

(** A serial run of the store is a run of the locks. *)
Lemma serial_lock_run max_ttl evs log :
  serial (LeaseStore max_ttl) [] log evs → (∀ a, a ∈ log → issued (LeaseStore max_ttl) (a_op a)) →
  ∃ s, project (LeaseStore max_ttl) evs = Ok s ∧ ∃ σ, represents s σ ∧ lease_wf s ∧ lock_run log σ.
Proof.
  intros Hser Hiss. refine (serial_inv (LeaseStore max_ttl) (λ log s, ∃ σ, represents s σ ∧ lease_wf s ∧ lock_run log σ) log evs Hser Hiss _ _).
  - exists no_locks. split; [split; cbn; [intros k; by rewrite lookup_empty|done..]|].
    split; [split; cbn; [constructor|done..]|constructor].
  - clear. intros log s a _ (σ & Hrep & Hwf & Hrun) Ha. pose proof (lease_turn_refines s σ (a_op a) (a_now a) Hrep Hwf) as Ht.
    cbn [turn LeaseStore] in Ha. rewrite Ha in Ht. unfold turn_refines in Ht. destruct (a_decision a) as [[o|e next]|x] eqn:Ed.
    + exists σ. split; [done|]. split; [done|]. apply (lock_run_snoc _ σ); [done|]. by rewrite Ed.
    + destruct Ht as (s' & σ' & Happ & Hrep' & Hwf' & Hstep). exists s'. split; [done|]. exists σ'.
      split; [done|]. split; [done|]. apply (lock_run_snoc _ σ); [done|]. by rewrite Ed.
    + exists σ. split; [done|]. split; [done|]. apply (lock_run_snoc _ σ); [done|]. by rewrite Ed.
Qed.

(** ** Fences *)

Lemma lock_run_snoc_inv log a σ : lock_run (log ++ [a]) σ → ∃ σ1, lock_run log σ1 ∧ lock_step σ1 (a_now a) (a_op a) (verdict (a_decision a)) σ.
Proof.
  intros H. inv H as [Heq|log' σ1 a' σ' Hrun Hstep Heq]; [by destruct log|].
  apply app_inj_tail in Heq as [-> ->]. by exists σ1.
Qed.

Lemma lock_run_split l1 a l2 σ : lock_run (l1 ++ a :: l2) σ →
  ∃ σ1 σ2, lock_run l1 σ1 ∧ lock_step σ1 (a_now a) (a_op a) (verdict (a_decision a)) σ2.
Proof.
  revert σ. induction l2 as [|b l2 IH] using rev_ind; intros σ H.
  - apply lock_run_snoc_inv in H as (σ1 & ? & ?). by exists σ1, σ.
  - rewrite app_comm_cons, app_assoc in H. apply lock_run_snoc_inv in H as (σ1 & H & _). by apply (IH σ1).
Qed.

(** Every fence granted is at most the last one, which is the lock's. *)
Record fence_inv (log : list LeaseAction) (σ : LockState) : Prop := {
  fi_le : ∀ a k o f, a ∈ log → grants k o f a → f <= get0 (granted σ) k;
  fi_lock : ∀ k l, locks σ !! k = Some l → lk_fence l = get0 (granted σ) k ∧ ∃ a, a ∈ log ∧ grants k (lk_owner l) (lk_fence l) a;
}.

(** A step either grants the next fence or keeps the owner and fence of every lock. *)
Definition keeps_fences (σ σ' : LockState) : Prop :=
  granted σ' = granted σ ∧
  ∀ k l, locks σ' !! k = Some l → ∃ l0, locks σ !! k = Some l0 ∧ lk_owner l0 = lk_owner l ∧ lk_fence l0 = lk_fence l.

Lemma keeps_fences_set σ key l l0 : locks σ !! key = Some l0 → lk_owner l0 = lk_owner l → lk_fence l0 = lk_fence l →
  keeps_fences σ (set_lock key l σ).
Proof.
  intros H0 Ho Hf. split; [done|]. intros k l'. cbn. rewrite lookup_insert. case_decide as E; [|by eauto].
  intros [= <-]. subst k. by exists l0.
Qed.

Lemma keeps_fences_locks σ σ' : granted σ' = granted σ → locks σ' = locks σ → keeps_fences σ σ'.
Proof. intros Hg Hl. split; [done|]. intros k l. rewrite Hl. by eauto. Qed.

Lemma lock_step_fences σ now op v σ' : lock_step σ now op v σ' →
  (∃ k o ttl f, op = Acquire k o ttl ∧ f = get0 (granted σ) k + 1 ∧ v = Granted f ∧
     σ' = set_lock k (mkLock o f (now + ttl) true) (σ <| granted ::= <[k := f]> |>)) ∨
  ((∀ f, v ≠ Granted f) ∧ keeps_fences σ σ').
Proof.
  destruct 1; [left; by repeat eexists|right; (split; [done|])..]; try by apply keeps_fences_locks.
  - destruct H as (l & Hl & _ & _ & <- & <-). by apply (keeps_fences_set _ _ _ l).
  - by apply (keeps_fences_set _ _ _ l).
  - by apply (keeps_fences_set _ _ _ l).
  - by apply (keeps_fences_set _ _ _ l).
  - by apply (keeps_fences_set _ _ _ l).
Qed.

Lemma lock_run_fences log σ : lock_run log σ → fence_inv log σ.
Proof.
  induction 1 as [|log σ a σ' Hrun [H1 H2] Hstep].
  { split; [intros a k o f Ha; by apply not_elem_of_nil in Ha|intros k l; cbn; by rewrite lookup_empty]. }
  apply lock_step_fences in Hstep as [(key & owner & ttl & f & Hop & Hf & Hv & ->)|[Hv [Hg Hl]]]; split.
  - intros b k o g Hb Hg. cbn. rewrite get0_insert. apply elem_of_app in Hb as [Hb|Hb%list_elem_of_singleton].
    + pose proof (H1 b k o g Hb Hg). case_decide as E; [subst k; lia|done].
    + subst b. destruct Hg as (ttl' & Hop' & Hv'). rewrite Hop in Hop'. injection Hop' as -> -> ->.
      rewrite Hv in Hv'. injection Hv' as ->. rewrite decide_True by done. lia.
  - intros k l. cbn. rewrite lookup_insert, get0_insert. case_decide as E.
    + intros [= <-]. cbn. split; [done|]. exists a. split; [apply elem_of_app; right; by left|]. subst k. by exists ttl.
    + intros Hk. destruct (H2 k l Hk) as (Hfe & b & Hb & Hgr). split; [done|]. exists b. split; [apply elem_of_app; by left|done].
  - intros b k o f Hb Hgr. rewrite Hg. apply elem_of_app in Hb as [Hb|Hb%list_elem_of_singleton]; [by apply (H1 b k o)|].
    subst b. destruct Hgr as (ttl & _ & Hv'). by destruct (Hv f).
  - intros k l Hk. destruct (Hl k l Hk) as (l0 & Hl0 & Ho & Hf). destruct (H2 k l0 Hl0) as (Hfe & b & Hb & Hgr).
    rewrite <- Ho, <- Hf, Hg. split; [done|]. exists b. split; [apply elem_of_app; by left|done].
Qed.

(** What a lock admits, by the fences granted before. *)
Lemma lock_step_grants σ a σ' k o f : lock_step σ (a_now a) (a_op a) (verdict (a_decision a)) σ' → grants k o f a →
  f = get0 (granted σ) k + 1 ∧ ∀ o' f', ¬ held σ k o' f' (a_now a).
Proof.
  intros Hstep (ttl & Hop & Hv). rewrite Hop, Hv in Hstep. inv Hstep. done.
Qed.

Lemma lock_step_writes σ a σ' k o f : lock_step σ (a_now a) (a_op a) (verdict (a_decision a)) σ' → writes k o f a → held σ k o f (a_now a).
Proof. intros Hstep (vk & v & Hop & Hv). rewrite Hop, Hv in Hstep. by inv Hstep. Qed.

(** * Properties *)

Section Properties.
Context {J : Type} `{!JournalOps J LeaseEvent, !JournalLaws J LeaseEvent} (max_ttl : Z).

(** C2: The lease store refines atomic locks, whatever its processes interleave
    and however often they collide on the journal. In every world they reach
    from a fresh journal, the turns that took effect are, in order, a run of the
    locks, each with the time its process had read: a lock is granted only when
    free, with the next fence; extended, written under and released only by its
    live holder; expired, revoked otherwise. The state projected from the journal
    is the state of the locks, a read returns what was last written, and a
    successful reply is always that of a turn in the run. *)
Theorem lease_store_refines (w : World (J:=J)) : reachable (LeaseStore max_ttl) w →
  ∃ s σ, current_state max_ttl (w_journal w) = Ok s ∧ represents s σ ∧ lock_run (w_log w) σ ∧
    (∀ key vk, read max_ttl (w_journal w) key vk = Ok (fst <$> (default ∅ (cells σ !! key) : gmap string (Json.json * Z)) !! vk)) ∧
    (∀ pid o, (pid, Ok o) ∈ w_results w → ∃ a, a ∈ w_log w ∧ a_pid a = pid ∧
       (a_decision a = Ok (Return o) ∨ ∃ e, a_decision a = Ok (Append e (inl o)))).
Proof.
  intros Hw. destruct (reachable_serial _ w Hw) as (Hser & Hv & Hiss & Hres).
  destruct (serial_lock_run _ _ _ Hser Hiss) as (s & Hs & σ & Hrep & _ & Hrun). exists s, σ.
  assert (current_state max_ttl (w_journal w) = Ok s) as Hc by (unfold current_state; by rewrite Hv).
  split; [exact Hc|]. split; [done|]. split; [done|]. split; [|exact Hres].
  intros key vk. unfold read. rewrite Hc. cbn [rbind]. by rewrite (rep_cells s σ Hrep).
Qed.

(** C6: Fencing. Take any moment in the run of a world the store reaches. A
    fence granted there is larger than every fence granted on the resource
    before; a write that takes effect there carries a fence at least as large as
    all of them, and it is by the owner that was granted that fence. So once a
    lock has passed to a new holder, no write of an older one ever lands. *)
Theorem lease_fencing (w : World (J:=J)) l1 b l2 : reachable (LeaseStore max_ttl) w → w_log w = l1 ++ b :: l2 →
  (∀ a k o f o' g, a ∈ l1 → grants k o f a → grants k o' g b → f < g) ∧
  (∀ a k o f o' g, a ∈ l1 → grants k o f a → writes k o' g b → f <= g) ∧
  (∀ k o g, writes k o g b → ∃ a, a ∈ l1 ∧ grants k o g a).
Proof.
  intros Hw Hlog. destruct (reachable_serial _ w Hw) as (Hser & _ & Hiss & _).
  destruct (serial_lock_run _ _ _ Hser Hiss) as (s & _ & σ & _ & _ & Hrun). rewrite Hlog in Hrun.
  destruct (lock_run_split _ _ _ _ Hrun) as (σ1 & σ2 & Hrun1 & Hstep). destruct (lock_run_fences _ _ Hrun1) as [H1 H2].
  split; [|split].
  - intros a k o f o' g Ha Hf Hg. destruct (lock_step_grants _ _ _ _ _ _ Hstep Hg) as [-> _]. pose proof (H1 a k o f Ha Hf). lia.
  - intros a k o f o' g Ha Hf Hg. apply (lock_step_writes _ _ _ _ _ _ Hstep) in Hg as (l & Hl & _ & _ & _ & <-).
    destruct (H2 k l Hl) as [-> _]. by apply (H1 a k o).
  - intros k o g Hg. apply (lock_step_writes _ _ _ _ _ _ Hstep) in Hg as (l & Hl & _ & _ & <- & <-).
    by destruct (H2 k l Hl) as [_ ?].
Qed.
End Properties.

Lemma lease_demo_reachable : reachable (LeaseStore 60) demo_world.
Proof.
  exists (mkMem []). split; [split; reflexivity|]. apply (play_reachable (LeaseStore 60) 4). intros op. by destruct op.
Qed.

Lemma lease_store_refines_witness :
  reachable (LeaseStore 60) demo_world ∧
  demo_verdicts = [(1, Granted 1); (1, Done); (2, Refused); (2, Done); (2, Done); (2, Granted 2); (1, Refused); (2, Done)]%positive ∧
  ∃ σ, lock_run (w_log demo_world) σ.
Proof.
  split; [exact lease_demo_reachable|]. split; [vm_compute; reflexivity|].
  destruct (lease_store_refines 60 demo_world lease_demo_reachable) as (s & σ & _ & _ & H & _). exists σ. exact H.
Defined.

Lemma lease_fencing_witness :
  reachable (LeaseStore 60) demo_world ∧ w_log demo_world = take 7 (w_log demo_world) ++ demo_write :: drop 8 (w_log demo_world) ∧
  writes "slot" "w2" 2 demo_write ∧ ∃ a, a ∈ take 7 (w_log demo_world) ∧ grants "slot" "w2" 2 a.
Proof.
  assert (w_log demo_world = take 7 (w_log demo_world) ++ demo_write :: drop 8 (w_log demo_world)) as H by (vm_compute; reflexivity).
  assert (writes "slot" "w2" 2 demo_write) as Hw by (exists "result", (Json.Int 3); split; vm_compute; reflexivity).
  split; [exact lease_demo_reachable|]. split; [exact H|]. split; [exact Hw|].
  exact (proj2 (proj2 (lease_fencing 60 demo_world _ _ _ lease_demo_reachable H)) "slot" "w2" 2 Hw).
Defined.

(** [acquire] strips its names, the other operations look them up as they are. *)
Example padded_names :
  acquire 60 " slot " "w" 10 = Ok (Acquire "slot" "w" 10) ∧ heartbeat 60 " slot " "w2" 2 10 = Ok (Heartbeat " slot " "w2" 2 10) ∧
  snd (run_alone (LeaseStore 60) 1 (w_journal demo_world) (Heartbeat " slot " "w2" 2 10) 115) = Err (StaleFence "resource has no lease").
Proof. repeat split; vm_compute; reflexivity. Qed.
