(* ===== verification/BudgetLedger.v ===== *)
(** The shared run budget ([simplicio_loop/budget.py]): reservations against the
    limits of a run, settled with the usage measured, by several processes over
    the operations journal of [Journal]; and the context-pack reference with its
    continuation deltas. Times are floats with integer values. *)
From S2P Require Import Prelude PyLib Journal.
Local Open Scope Z_scope.
Local Open Scope py_scope.

(** * Definitions *)

(** [BudgetError], [BudgetExceeded], [UnknownReservation] and the [ValueError]
    of bad arguments. *)
Inductive BudgetExn : Type :=
| BudgetError (msg : string)
| BudgetExceeded (msg : string)
| UnknownReservation (id : string)
| BudgetValueError (msg : string).

Notation budgeted := (result BudgetExn).

Record RunBudget := mkBudget {
  run_id : string;
  token_limit : Z;
  call_limit : Z;
  cost_limit_micros : Z;
  latency_limit_ms : Z;
  exhaustion_policy : string;
}.
#[export] Instance RunBudget_eq_dec : EqDecision RunBudget.
Proof. solve_decision. Defined.

Definition POLICIES : list string := ["stop"; "compress"; "serial"; "downgrade"; "escalate"].

(** [RunBudget.__post_init__] *)
Definition RunBudget_check (b : RunBudget) : budgeted unit :=
  if negb (Str.truthy (Str.strip (run_id b))) then Err (BudgetValueError "run_id must not be empty")
  else
    match List.find (λ nv, nv.2 <? 0) [("token_limit", token_limit b); ("call_limit", call_limit b);
                                       ("cost_limit_micros", cost_limit_micros b); ("latency_limit_ms", latency_limit_ms b)] with
    | Some (name, _) => Err (BudgetValueError (name +:+ " must be non-negative"))
    | None => if bool_decide (exhaustion_policy b ∈ POLICIES) then Ok tt else Err (BudgetValueError "unsupported exhaustion policy")
    end.

(** An amount of the four resources: an estimate, a usage, a total. *)
Record Amount := mkAmount {
  tokens : Z;
  calls : Z;
  cost_micros : Z;
  latency_ms : Z;
}.
#[export] Instance Amount_eq_dec : EqDecision Amount.
Proof. solve_decision. Defined.

Definition amount_zero : Amount := mkAmount 0 0 0 0.
Definition amount_add (a b : Amount) : Amount :=
  mkAmount (tokens a + tokens b) (calls a + calls b) (cost_micros a + cost_micros b) (latency_ms a + latency_ms b).
Definition amount_sub (a b : Amount) : Amount :=
  mkAmount (tokens a - tokens b) (calls a - calls b) (cost_micros a - cost_micros b) (latency_ms a - latency_ms b).
Definition negative (a : Amount) : bool := (tokens a <? 0) || (calls a <? 0) || (cost_micros a <? 0) || (latency_ms a <? 0).

Inductive ReservationState : Type := reserved | settled | cancelled.
#[export] Instance ReservationState_eq_dec : EqDecision ReservationState.
Proof. solve_decision. Defined.

Record Reservation := mkReservation {
  rv_id : string;
  rv_run_id : string;
  rv_work_item_id : string;
  rv_estimate : Amount;
  rv_state : ReservationState;
  rv_created_at : Z;
  rv_expires_at : option Z;
}.
#[export] Instance Reservation_eta : Eta Reservation := λ r,
  mkReservation (rv_id r) (rv_run_id r) (rv_work_item_id r) (rv_estimate r) (rv_state r) (rv_created_at r) (rv_expires_at r).
#[export] Instance Reservation_eq_dec : EqDecision Reservation.
Proof. solve_decision. Defined.

Record Settlement := mkSettlement {
  st_id : string;
  st_run_id : string;
  st_work_item_id : string;
  st_usage : Amount;
  st_status : string;
}.
#[export] Instance Settlement_eq_dec : EqDecision Settlement.
Proof. solve_decision. Defined.

(** ** Events and their projection *)

(** [OtherEvent] has the schema of the ledger and another type; [ForeignEvent]
    another schema. *)
Inductive BudgetEvent : Type :=
| Initialized (envelope : RunBudget)
| Reserved (r : Reservation)
| Settled (s : Settlement)
| Cancelled (id : string)
| OtherEvent
| ForeignEvent.

Record LedgerState := mkLedger {
  envelope : option RunBudget;
  reservations : gmap string Reservation;
  settlements : gmap string Settlement;
  spent : Amount;
}.
#[export] Instance LedgerState_eta : Eta LedgerState := λ s,
  mkLedger (envelope s) (reservations s) (settlements s) (spent s).

Definition empty_ledger : LedgerState := mkLedger None ∅ ∅ amount_zero.

Definition set_state (id : string) (st : ReservationState) (s : LedgerState) : LedgerState :=
  s <| reservations ::= alter (λ r, r <| rv_state := st |>) id |>.

Definition apply_event (s : LedgerState) (e : BudgetEvent) : budgeted LedgerState :=
  match e with
  | ForeignEvent => Err (BudgetError "budget journal contains an unknown event")
  | OtherEvent => Ok s
  | Initialized env =>
      if match envelope s with Some env' => negb (bool_decide (env' = env)) | None => false end
      then Err (BudgetError "run budget is immutable after freeze")
      else Ok (s <| envelope := Some env |>)
  | Reserved r =>
      if match reservations s !! rv_id r with Some prior => negb (bool_decide (prior = r)) | None => false end
      then Err (BudgetError "reservation journal conflict")
      else Ok (s <| reservations ::= <[rv_id r := r]> |>)
  | Settled st =>
      match settlements s !! st_id st with
      | Some prior => if bool_decide (prior = st) then Ok s else Err (BudgetError "settlement journal conflict")
      | None =>
          match reservations s !! st_id st with
          | None => Err (BudgetError "settlement references unknown reservation")
          | Some _ =>
              Ok (set_state (st_id st) settled s <| spent ::= λ a, amount_add a (st_usage st) |>
                    <| settlements ::= <[st_id st := st]> |>)
          end
      end
  | Cancelled id =>
      match reservations s !! id with
      | None => Err (BudgetError "cancellation references unknown reservation")
      | Some _ => Ok (set_state id cancelled s)
      end
  end.

(** The check that ends [_state]. *)
Definition require_envelope (s : LedgerState) : budgeted unit :=
  match envelope s with Some _ => Ok tt | None => Err (BudgetError "run budget envelope is not initialized") end.

(** ** Operations *)

(** The sums of [_totals] over the open reservations, [tokens] to [latency]. *)
Definition open_amount (f : Amount → Z) (r : Reservation) : Z :=
  if bool_decide (rv_state r = reserved) then f (rv_estimate r) else 0.
Definition reserved_amount (s : LedgerState) : Amount :=
  mkAmount (msum (open_amount tokens) (reservations s)) (msum (open_amount calls) (reservations s))
    (msum (open_amount cost_micros) (reservations s)) (msum (open_amount latency_ms) (reservations s)).
(** [_totals] *)
Definition totals (s : LedgerState) : Amount * Amount := (spent s, reserved_amount s).

(** [_exceeds]: a limit of zero binds for tokens only. *)
Definition exceeds (b : RunBudget) (t : Amount * Amount) (a : Amount) : bool :=
  let '(sp, re) := t in
  (token_limit b <? tokens sp + tokens re + tokens a)
  || (negb (call_limit b =? 0) && (call_limit b <? calls sp + calls re + calls a))
  || (negb (cost_limit_micros b =? 0) && (cost_limit_micros b <? cost_micros sp + cost_micros re + cost_micros a))
  || (negb (latency_limit_ms b =? 0) && (latency_limit_ms b <? latency_ms sp + latency_ms re + latency_ms a)).

Inductive BudgetOp : Type :=
| EnsureEnvelope
| Reserve (id work_item : string) (a : Amount) (expires_at : option Z)
| Settle (id : string) (a : Amount) (status : string)
| Cancel (id : string).

Inductive BudgetReply : Type :=
| EnvelopeReady
| ReservationReply (r : Reservation)
| SettlementReply (s : Settlement)
| CancelReply (b : bool).

Notation decided := (TurnOutcome BudgetEvent BudgetReply BudgetOp).

(** The checks of the arguments before the loops. *)
Definition reserve (id work_item : string) (a : Amount) (expires_at : option Z) : budgeted BudgetOp :=
  if negb (Str.truthy (Str.strip id)) || negb (Str.truthy (Str.strip work_item)) || negative a
  then Err (BudgetValueError "reservation ids and estimates must be valid") else Ok (Reserve id work_item a expires_at).
Definition settle (id : string) (a : Amount) (status : string) : budgeted BudgetOp :=
  if negative a then Err (BudgetValueError "usage must be non-negative") else Ok (Settle id a status).

(** [_ensure_envelope] *)
Definition ensure_turn (b : RunBudget) (s : LedgerState) : budgeted decided :=
  match envelope s with
  | Some env => if bool_decide (env = b) then Ok (Return EnvelopeReady) else Err (BudgetError "run budget is immutable after freeze")
  | None => Ok (Append (Initialized b) (inl EnvelopeReady))
  end.

Definition reserve_turn (b : RunBudget) (id work_item : string) (a : Amount) (expires_at : option Z) (s : LedgerState) (now : Z) :
    budgeted decided :=
  match reservations s !! id with
  | Some prior =>
      if bool_decide (rv_run_id prior = run_id b ∧ rv_work_item_id prior = work_item ∧ rv_estimate prior = a)
      then Ok (Return (ReservationReply prior)) else Err (BudgetError "reservation id reused with different estimate")
  | None =>
      if exceeds b (totals s) a then Err (BudgetExceeded "shared run budget exhausted")
      else let r := mkReservation id (run_id b) work_item a reserved now expires_at in
           Ok (Append (Reserved r) (inl (ReservationReply r)))
  end.

Definition settle_turn (b : RunBudget) (id : string) (a : Amount) (status : string) (s : LedgerState) : budgeted decided :=
  match settlements s !! id with
  | Some prior => Ok (Return (SettlementReply prior))
  | None =>
      match reservations s !! id with
      | None => Err (UnknownReservation id)
      | Some r =>
          if negb (bool_decide (rv_state r = reserved)) then Err (BudgetError "reservation is not settleable")
          else if exceeds b (spent s, amount_sub (reserved_amount s) (rv_estimate r)) a
          then Err (BudgetExceeded "late usage receipt would overspend shared run budget")
          else let st := mkSettlement id (run_id b) (rv_work_item_id r) a status in
               Ok (Append (Settled st) (inl (SettlementReply st)))
      end
  end.

Definition cancel_turn (id : string) (s : LedgerState) : budgeted decided :=
  match reservations s !! id with
  | None => Err (UnknownReservation id)
  | Some r => if negb (bool_decide (rv_state r = reserved)) then Ok (Return (CancelReply false))
              else Ok (Append (Cancelled id) (inl (CancelReply true)))
  end.

Definition budget_turn (b : RunBudget) (op : BudgetOp) (s : LedgerState) (now : Z) : budgeted decided :=
  match op with
  | EnsureEnvelope => ensure_turn b s
  | Reserve id work_item a expires_at => let? _ := require_envelope s in reserve_turn b id work_item a expires_at s now
  | Settle id a status => let? _ := require_envelope s in settle_turn b id a status s
  | Cancel id => let? _ := require_envelope s in cancel_turn id s
  end.

Definition contended_message (op : BudgetOp) : string :=
  match op with
  | EnsureEnvelope => "budget envelope remained contended"
  | Reserve _ _ _ _ => "budget reservation remained contended"
  | Settle _ _ _ => "budget settlement remained contended"
  | Cancel _ => "budget cancellation remained contended"
  end.

Definition budget_check (op : BudgetOp) : budgeted BudgetOp :=
  match op with
  | Reserve id work_item a expires_at => reserve id work_item a expires_at
  | Settle id a status => settle id a status
  | _ => Ok op
  end.

(** [BudgetLedger] as a client of the journal; [_state] is its projection and
    the check of the envelope. *)
Definition BudgetLedger (b : RunBudget) : Client BudgetEvent LedgerState BudgetExn BudgetOp BudgetReply :=
  mkClient empty_ledger apply_event budget_check (budget_turn b) (λ _, Some 32%nat) (BudgetError "budget journal is invalid")
    (λ op, BudgetError (contended_message op)) (λ msg, BudgetError ("budget journal append failed: " +:+ msg)).

(** [snapshot] *)
Record Snapshot := mkSnapshot {
  sn_spent : Amount;
  sn_reserved : Amount;
  sn_remaining_tokens : Z;
}.
Definition snapshot (b : RunBudget) (s : LedgerState) : budgeted Snapshot :=
  let? _ := require_envelope s in
  Ok (mkSnapshot (spent s) (reserved_amount s) (Z.max 0 (token_limit b - tokens (spent s) - tokens (reserved_amount s)))).

(** ** Context packs and continuation deltas *)

Record ContextPackRef := mkPack {
  pack_hash : string;
  goal_hash : string;
  relevant_fingerprint : string;
  pack_revision : Z;
}.

(** [_json] and [context_pack_ref] *)
Definition budget_json (v : list (string * Json.json)) : string := Json.dumps false (Json.Obj v).
Definition context_pack_ref (goal : string) (policy : list (string * Json.json)) (acceptance : list string)
    (fingerprint : string) (rev : Z) : ContextPackRef :=
  let stable := [("goal", Json.Str goal); ("policy", Json.Obj policy); ("acceptance", Json.List (Json.Str <$> acceptance))] in
  mkPack (Sha256.hexdigest (budget_json stable)) (Sha256.hexdigest goal) fingerprint rev.

(** An event with its [seq], [None] when that is not an integer. *)
Record Row := mkRow {
  row_seq : option Z;
  row_body : Json.json;
}.
Definition seq_of (r : Row) : Z := default 0 (row_seq r).
Definition row_le (x y : Row) : Prop := seq_of x <= seq_of y.
#[export] Instance row_le_dec x y : Decision (row_le x y).
Proof. unfold row_le. apply _. Defined.

Record Delta := mkDelta {
  dl_cursor : Z;
  dl_next_cursor : Z;
  dl_pack : ContextPackRef;
  dl_full : bool;
  dl_events : list Row;
}.

(** [continuation_delta] *)
Definition continuation_delta (events : list Row) (cursor : Z) (pack : ContextPackRef) (force_full : bool) : budgeted Delta :=
  if cursor <? 0 then Err (BudgetValueError "acknowledged_cursor must be non-negative")
  else if existsb (λ r, match row_seq r with Some q => q <? 1 | None => true end) events
  then Err (BudgetError "continuation events require positive integer seq")
  else
    let rows := merge_sort row_le events in
    let delta := if force_full then rows else List.filter (λ r, cursor <? seq_of r) rows in
    Ok (mkDelta cursor (foldl Z.max cursor (seq_of <$> delta)) pack force_full delta).

(** * Specification *)

Inductive Resource : Type := Tokens | Calls | Cost | Latency.

Definition part (x : Resource) : Amount → Z :=
  match x with Tokens => tokens | Calls => calls | Cost => cost_micros | Latency => latency_ms end.

(** The limit of a resource; a limit of zero is none, but for tokens. *)
Definition limit (b : RunBudget) (x : Resource) : option Z :=
  let nonzero z := if z =? 0 then None else Some z in
  match x with
  | Tokens => Some (token_limit b)
  | Calls => nonzero (call_limit b)
  | Cost => nonzero (cost_limit_micros b)
  | Latency => nonzero (latency_limit_ms b)
  end.

(** The open reservations and the usage settled stay within the limits. *)
Definition reserved_of (x : Resource) (s : LedgerState) : Z := msum (open_amount (part x)) (reservations s).
Definition within (b : RunBudget) (s : LedgerState) : Prop :=
  ∀ x l, limit b x = Some l → part x (spent s) + reserved_of x s <= l.

Record ledger_wf (b : RunBudget) (s : LedgerState) : Prop := {
  lw_envelope : envelope s = None ∨ envelope s = Some b;
  lw_id : ∀ id r, reservations s !! id = Some r → rv_id r = id ∧ ∀ x, 0 <= part x (rv_estimate r);
  lw_settled : ∀ id st, settlements s !! id = Some st → st_id st = id ∧ ∃ r, reservations s !! id = Some r ∧ rv_state r = settled;
  lw_state : ∀ id r, reservations s !! id = Some r → rv_state r = settled → is_Some (settlements s !! id);
  lw_spent : ∀ x, part x (spent s) = msum (λ st, part x (st_usage st)) (settlements s);
  lw_within : within b s;
}.

(** * Examples *)

Definition demo_budget : RunBudget := mkBudget "run" 100 0 0 0 "stop".
Definition demo_amount (t : Z) : Amount := mkAmount t 1 0 0.
Definition demo_calls : list (positive * BudgetOp * Z) := [
  (1%positive, EnsureEnvelope, 1); (2%positive, EnsureEnvelope, 1); (1%positive, Reserve "a" "w1" (demo_amount 60) None, 2);
  (2%positive, Reserve "b" "w2" (demo_amount 50) None, 3); (1%positive, Settle "a" (demo_amount 30) "completed", 4);
  (2%positive, Reserve "b" "w2" (demo_amount 50) None, 5); (1%positive, Settle "b" (demo_amount 80) "completed", 6);
  (2%positive, Cancel "b", 7)].
Definition demo_world : World (J:=MemJournal BudgetEvent) := play (BudgetLedger demo_budget) 2 (start_world (mkMem [])) demo_calls.
Definition demo_pack : ContextPackRef := context_pack_ref "goal" [] ["ac"] "fp" 1.
Definition demo_rows : list Row := [mkRow (Some 2) Json.Null; mkRow (Some 1) Json.Null; mkRow (Some 3) Json.Null].

(** * Lemmas *)

Lemma part_add x a b : part x (amount_add a b) = part x a + part x b.
Proof. by destruct x. Qed.

Lemma part_sub x a b : part x (amount_sub a b) = part x a - part x b.
Proof. by destruct x. Qed.

Lemma part_reserved x s : part x (reserved_amount s) = reserved_of x s.
Proof. by destruct x. Qed.

Lemma negative_false a : negative a = false ↔ ∀ x, 0 <= part x a.
Proof.
  unfold negative. rewrite !orb_false_iff, !Z.ltb_ge. split.
  - intros (((? & ?) & ?) & ?) x. by destruct x.
  - intros H. repeat split; [apply (H Tokens)|apply (H Calls)|apply (H Cost)|apply (H Latency)].
Qed.

Lemma over_nonzero l z : negb (l =? 0) && (l <? z) = false ↔ ∀ l', (if l =? 0 then None else Some l) = Some l' → z <= l'.
Proof. destruct (Z.eqb_spec l 0); cbn [negb andb]; [naive_solver|]. rewrite Z.ltb_ge. naive_solver. Qed.

Lemma exceeds_false b sp re a :
  exceeds b (sp, re) a = false ↔ ∀ x l, limit b x = Some l → part x sp + part x re + part x a <= l.
Proof.
  unfold exceeds. rewrite !orb_false_iff, !over_nonzero, Z.ltb_ge. split.
  - intros (((H1 & H2) & H3) & H4) x l. destruct x; cbn [limit part]; [by intros [= <-]|apply H2|apply H3|apply H4].
  - intros H. repeat split; [by apply (H Tokens)|apply (H Calls)|apply (H Cost)|apply (H Latency)].
Qed.

(** ** The events keep the ledger well formed *)

Lemma lw_initialized b s s' : ledger_wf b s → envelope s = None → apply_event s (Initialized b) = Ok s' → ledger_wf b s'.
Proof. intros [H1 H2 H3 H4 H5 H6] He H. cbn in H. rewrite He in H. injection H as <-. split; try done. by right. Qed.

Lemma lw_reserved b s s' r : ledger_wf b s → reservations s !! rv_id r = None → rv_state r = reserved →
  (∀ x, 0 <= part x (rv_estimate r)) → exceeds b (totals s) (rv_estimate r) = false →
  apply_event s (Reserved r) = Ok s' → ledger_wf b s'.
Proof.
  intros [H1 H2 H3 H4 H5 H6] Hnew Hst Hpos Hex H. cbn in H. rewrite Hnew in H. injection H as <-.
  unfold totals in Hex. rewrite exceeds_false in Hex. split; cbn; [done| | | |done|].
  - intros id r'. rewrite lookup_insert. case_decide as E; [|by apply H2]. intros [= <-]. by subst.
  - intros id st Hs. destruct (H3 id st Hs) as (Hid & r' & Hr' & Hs'). split; [done|]. exists r'. split; [|done].
    rewrite lookup_insert_ne; [done|]. congruence.
  - intros id r'. rewrite lookup_insert. case_decide; [|by apply H4]. intros [= <-]. by rewrite Hst.
  - intros x l Hl. specialize (Hex x l Hl). rewrite part_reserved in Hex. unfold reserved_of in *. cbn.
    rewrite msum_insert by done. unfold open_amount at 1. rewrite bool_decide_eq_true_2 by done. lia.
Qed.

(** Closing an open reservation takes its estimate out. *)
Lemma reserved_of_close x s id r st : reservations s !! id = Some r → rv_state r = reserved → st ≠ reserved →
  reserved_of x (set_state id st s) = reserved_of x s - part x (rv_estimate r).
Proof.
  intros Hr Hs Hst. unfold reserved_of, set_state. cbn. rewrite alter_alt, Hr.
  rewrite (msum_replace _ _ _ r) by done. unfold open_amount at 2 3. cbn.
  rewrite bool_decide_eq_true_2, bool_decide_eq_false_2 by done. lia.
Qed.

(** The states of the reservations after one of them is closed. *)
Lemma lookup_close s id st i r : reservations (set_state id st s) !! i = Some r →
  ∃ r0, reservations s !! i = Some r0 ∧ rv_id r = rv_id r0 ∧ rv_estimate r = rv_estimate r0 ∧
    rv_state r = if decide (i = id) then st else rv_state r0.
Proof.
  cbn. rewrite lookup_alter. intros H. destruct (decide (i = id)) as [->|Hne].
  - rewrite decide_True in H by done. apply fmap_Some in H as (r0 & Hr0 & ->). by exists r0.
  - rewrite decide_False in H by congruence. by exists r.
Qed.

Lemma lw_settled_event b s s' st r : ledger_wf b s → settlements s !! st_id st = None → reservations s !! st_id st = Some r →
  rv_state r = reserved → (∀ x, 0 <= part x (st_usage st)) →
  exceeds b (spent s, amount_sub (reserved_amount s) (rv_estimate r)) (st_usage st) = false →
  apply_event s (Settled st) = Ok s' → ledger_wf b s'.
Proof.
  intros Hwf Hnew Hr Hst Hpos Hex H. cbn in H. rewrite Hnew, Hr in H. injection H as <-.
  rewrite exceeds_false in Hex. destruct Hwf as [H1 H2 H3 H4 H5 H6].
  split; cbn; [done| | | | |].
  - intros i r' Hi. apply (lookup_close s (st_id st) settled) in Hi as (r0 & Hr0 & -> & -> & _). by apply H2.
  - intros i st'. rewrite lookup_insert. case_decide as E.
    + intros [= <-]. split; [done|]. exists (r <| rv_state := settled |>). subst i. split; [|done]. cbn. rewrite lookup_alter_eq, Hr. done.
    + intros Hs. destruct (H3 i st' Hs) as (Hid & r0 & Hr0 & Hs0). split; [done|]. exists r0. split; [|done].
      cbn. by rewrite lookup_alter_ne by congruence.
  - intros i r' Hi Hs. rewrite lookup_insert. case_decide as E; [done|].
    apply (lookup_close s (st_id st) settled) in Hi as (r0 & Hr0 & _ & _ & Hs'). rewrite decide_False in Hs' by congruence.
    apply (H4 i r0 Hr0). congruence.
  - intros x. rewrite part_add, msum_insert by done. rewrite H5. lia.
  - intros x l Hl. specialize (Hex x l Hl). rewrite part_sub, part_reserved in Hex.
    change (part x (amount_add (spent s) (st_usage st)) + reserved_of x (set_state (st_id st) settled s) <= l).
    rewrite part_add, (reserved_of_close x s (st_id st) r settled) by done. lia.
Qed.

Lemma lw_cancelled b s s' id r : ledger_wf b s → reservations s !! id = Some r → rv_state r = reserved →
  apply_event s (Cancelled id) = Ok s' → ledger_wf b s'.
Proof.
  intros Hwf Hr Hst H. cbn in H. rewrite Hr in H. injection H as <-. destruct Hwf as [H1 H2 H3 H4 H5 H6].
  split; cbn; [done| | | |done|].
  - intros i r' Hi. apply (lookup_close s id cancelled) in Hi as (r0 & Hr0 & -> & -> & _). by apply H2.
  - intros i st Hs. destruct (H3 i st Hs) as (Hid & r0 & Hr0 & Hs0). split; [done|]. exists r0. split; [|done].
    cbn. rewrite lookup_alter_ne; [done|]. intros ->. congruence.
  - intros i r' Hi Hs. apply (lookup_close s id cancelled) in Hi as (r0 & Hr0 & _ & _ & Hs').
    destruct (decide (i = id)); [congruence|]. apply (H4 i r0 Hr0). congruence.
  - intros x l Hl. specialize (H6 x l Hl). 
    change (part x (spent s) + reserved_of x (set_state id cancelled s) <= l). rewrite (reserved_of_close x s id r cancelled) by done. destruct (H2 id r Hr) as [_ Hpos]. specialize (Hpos x). lia.
Qed.

(** ** The turns *)

(** What the checks before the loops leave. *)
Definition checked (op : BudgetOp) : Prop :=
  match op with
  | Reserve _ _ a _ | Settle _ a _ => ∀ x, 0 <= part x a
  | _ => True
  end.

Lemma issued_checked b op : issued (BudgetLedger b) op → checked op.
Proof.
  induction 1 as [op op' H|op s now e op' _ _ H].
  - cbn [check BudgetLedger] in H. destruct op; cbn [budget_check] in H; unfold reserve, settle in H.
    + by injection H as <-.
    + destruct (negb _ || negb _ || negative a) eqn:E; [done|]. injection H as <-.
      apply orb_false_iff in E as [_ E]. exact (proj1 (negative_false a) E).
    + destruct (negative a) eqn:E; [done|]. injection H as <-. exact (proj1 (negative_false a) E).
    + by injection H as <-.
  - exfalso. cbn [turn BudgetLedger] in H. destruct op; cbn [budget_turn] in H; unfold ensure_turn, reserve_turn, settle_turn, cancel_turn in H;
      try (destruct (require_envelope s); cbn [rbind] in H; [|done]); repeat case_match; simplify_eq.
Qed.

Lemma turn_keeps_ledger b op s now e next : ledger_wf b s → checked op → budget_turn b op s now = Ok (Append e next) →
  ∃ s', apply_event s e = Ok s' ∧ ledger_wf b s'.
Proof.
  intros Hwf Hc H. enough (∀ s', apply_event s e = Ok s' → ledger_wf b s') as Hwf'.
  { destruct (apply_event s e) as [s'|x] eqn:E; [exists s'; by eauto|exfalso]. clear Hwf'.
    destruct op; cbn [budget_turn] in H; unfold ensure_turn, reserve_turn, settle_turn, cancel_turn in H;
      try (destruct (require_envelope s); cbn [rbind] in H; [|done]); repeat case_match; simplify_eq/=;
      repeat case_match; simplify_eq/=. }
  intros s' Hs'. destruct op; cbn [budget_turn] in H; try (destruct (require_envelope s); cbn [rbind] in H; [|done]).
  - unfold ensure_turn in H. repeat case_match; simplify_eq. by apply (lw_initialized b s).
  - unfold reserve_turn in H. repeat case_match; simplify_eq. refine (lw_reserved b s s' _ Hwf _ _ _ _ Hs'); [done|done|exact Hc|done].
  - unfold settle_turn in H. repeat case_match; simplify_eq.
    zbool. refine (lw_settled_event b s s' _ _ Hwf _ _ _ _ _ Hs'); [done|done|done|exact Hc|done].
  - unfold cancel_turn in H. repeat case_match; simplify_eq.
    zbool. by apply (lw_cancelled b s s' id r).
Qed.

(** ** Deltas *)

Lemma foldl_max_ge l c : c <= foldl Z.max c l ∧ ∀ z, z ∈ l → z <= foldl Z.max c l.
Proof.
  revert c. induction l as [|z l IH]; intros c; cbn [foldl]; [split; [lia|intros z Hz; by apply not_elem_of_nil in Hz]|].
  destruct (IH (Z.max c z)) as [H1 H2]. split; [lia|]. intros z' [->|Hz]%elem_of_cons; [lia|by apply H2].
Qed.

Lemma foldl_max_le l c m : c <= m → (∀ z, z ∈ l → z <= m) → foldl Z.max c l <= m.
Proof.
  revert c. induction l as [|z l IH]; intros c Hc Hl; cbn [foldl]; [done|].
  apply IH; [|intros z' Hz'; apply Hl; by right]. specialize (Hl z ltac:(by left)). lia.
Qed.

(** The rows a delta takes, up to their order. *)
Lemma merge_sort_filter P (l : list Row) : List.filter P (merge_sort row_le l) ≡ₚ List.filter P l.
Proof. by rewrite (merge_sort_Permutation row_le l). Qed.

Lemma continuation_delta_Ok events cursor pack d : continuation_delta events cursor pack false = Ok d →
  dl_events d = List.filter (λ r, cursor <? seq_of r) (merge_sort row_le events) ∧
  dl_next_cursor d = foldl Z.max cursor (seq_of <$> dl_events d).
Proof. unfold continuation_delta. intros H. repeat case_match; simplify_eq. done. Qed.

#[export] Instance row_le_total : Total row_le.
Proof. intros x y. unfold row_le. lia. Qed.

#[export] Instance row_le_trans : Transitive row_le.
Proof. intros x y z. unfold row_le. lia. Qed.

Lemma budget_limit_nonneg b x l : RunBudget_check b = Ok tt → limit b x = Some l → 0 <= l.
Proof.
  unfold RunBudget_check. intros H Hl. case_match; [done|]. destruct (List.find _ _) as [[]|] eqn:E; [done|].
  assert (∀ nv, nv ∈ [("token_limit", token_limit b); ("call_limit", call_limit b);
    ("cost_limit_micros", cost_limit_micros b); ("latency_limit_ms", latency_limit_ms b)] → 0 <= nv.2) as Hall.
  { intros nv Hnv. rewrite list_elem_of_In in Hnv. apply (find_none _ _ E) in Hnv. by apply Z.ltb_ge in Hnv. }
  destruct x; cbn in Hl; repeat case_match; simplify_eq.
  - apply (Hall ("token_limit", _)). set_solver.
  - apply (Hall ("call_limit", _)). set_solver.
  - apply (Hall ("cost_limit_micros", _)). set_solver.
  - apply (Hall ("latency_limit_ms", _)). set_solver.
Qed.

(** * Properties *)

(** C12: The shared budget is never overspent. Whatever the processes of a run
    interleave on its journal, the projection of the journal never fails, the
    usage settled so far is exactly the sum over the settlements, a reservation
    is settled at most once and then by a recorded settlement, and for every
    limited resource the usage settled plus the estimates still reserved stay
    within the limit, late usage receipts included. *)
Theorem budget_never_overspent {J} `{!JournalOps J BudgetEvent, !JournalLaws J BudgetEvent} b (w : World (J:=J)) :
  RunBudget_check b = Ok tt → reachable (BudgetLedger b) w →
  ∃ s, project (BudgetLedger b) (rp_events (replay (w_journal w))) = Ok s ∧ ledger_wf b s.
Proof.
  intros Hb Hw. destruct (reachable_serial _ w Hw) as (Hser & _ & Hiss & _).
  refine (serial_inv (BudgetLedger b) (λ _ s, ledger_wf b s) (w_log w) _ Hser Hiss _ _).
  - split; cbn; [by left|done..|by intros []|]. intros x l Hl. unfold reserved_of. cbn. rewrite msum_empty.
    apply (budget_limit_nonneg b _ _ Hb) in Hl. destruct x; cbn; lia.
  - intros log s a Hop Hwf Ha. apply issued_checked in Hop. destruct (a_decision a) as [[o|e next]|x]; [done| |done].
    exact (turn_keeps_ledger b (a_op a) s (a_now a) e next Hwf Hop Ha).
Qed.

Lemma budget_never_overspent_witness :
  RunBudget_check demo_budget = Ok tt ∧ reachable (BudgetLedger demo_budget) demo_world ∧
  w_results demo_world !! 3%nat = Some (2%positive, Err (BudgetExceeded "shared run budget exhausted")) ∧
  w_results demo_world !! 6%nat = Some (1%positive, Err (BudgetExceeded "late usage receipt would overspend shared run budget")) ∧
  ∃ s, project (BudgetLedger demo_budget) (rp_events (replay (w_journal demo_world))) = Ok s ∧ ledger_wf demo_budget s.
Proof.
  assert (reachable (BudgetLedger demo_budget) demo_world) as Hw.
  { exists (mkMem []). split; [split; reflexivity|]. apply (play_reachable (BudgetLedger demo_budget) 2). intros op. by destruct op. }
  split; [reflexivity|]. split; [exact Hw|]. split; [vm_compute; reflexivity|]. split; [vm_compute; reflexivity|].
  exact (budget_never_overspent demo_budget demo_world eq_refl Hw).
Defined.

(** Continuation deltas lose nothing and repeat nothing. A reader that takes
    a delta, then another from the cursor it was given, after more events with
    later numbers were written, has between the two the events after its first
    cursor, each once and none else; and the first delta comes in the order of
    its numbers. *)
Theorem deltas_compose events more cursor pack d1 d2 :
  continuation_delta events cursor pack false = Ok d1 →
  continuation_delta (events ++ more) (dl_next_cursor d1) pack false = Ok d2 →
  (∀ x y, x ∈ events → y ∈ more → seq_of x < seq_of y) → (∀ y, y ∈ more → cursor < seq_of y) →
  dl_events d1 ++ dl_events d2 ≡ₚ List.filter (λ r, cursor <? seq_of r) (events ++ more) ∧ StronglySorted row_le (dl_events d1).
Proof.
  intros H1 H2 Hlater Hmore. apply continuation_delta_Ok in H1 as (He1 & Hn1), H2 as (He2 & _).
  rewrite He1, He2. split; [|apply StronglySorted_Listfilter, (StronglySorted_merge_sort row_le)].
  rewrite !merge_sort_filter, !List.filter_app.
  assert (List.filter (λ r, dl_next_cursor d1 <? seq_of r) events = []) as ->.
  { apply list_nil_iff. intros r (Hr & Hlt)%elem_of_Listfilter. apply Z.ltb_lt in Hlt.
    destruct (decide (cursor < seq_of r)) as [Hc|Hc].
    - assert (seq_of r <= dl_next_cursor d1); [|lia]. rewrite Hn1. apply foldl_max_ge, list_elem_of_fmap_2. rewrite He1.
      rewrite merge_sort_filter. apply elem_of_Listfilter. split; [done|by apply Z.ltb_lt].
    - rewrite Hn1 in Hlt. pose proof (proj1 (foldl_max_ge (seq_of <$> dl_events d1) cursor)). lia. }
  apply Permutation_app_head. cbn [app]. rewrite (Listfilter_all _ more), Listfilter_all; [done|..].
  - intros y Hy. by apply Z.ltb_lt, Hmore.
  - intros y Hy. apply Z.ltb_lt. rewrite Hn1. enough (foldl Z.max cursor (seq_of <$> dl_events d1) <= seq_of y - 1) by lia.
    apply foldl_max_le; [specialize (Hmore y Hy); lia|]. intros z (r & -> & Hr)%list_elem_of_fmap.
    rewrite He1, merge_sort_filter in Hr. apply elem_of_Listfilter in Hr as [Hr _]. specialize (Hlater r y Hr Hy). lia.
Qed.

Lemma deltas_compose_witness :
  continuation_delta demo_rows 1 demo_pack false = Ok (mkDelta 1 3 demo_pack false [mkRow (Some 2) Json.Null; mkRow (Some 3) Json.Null]) ∧
  continuation_delta (demo_rows ++ [mkRow (Some 5) Json.Null; mkRow (Some 4) Json.Null]) 3 demo_pack false
    = Ok (mkDelta 3 5 demo_pack false [mkRow (Some 4) Json.Null; mkRow (Some 5) Json.Null]) ∧
  StronglySorted row_le [mkRow (Some 2) Json.Null; mkRow (Some 3) Json.Null].
Proof.
  assert (continuation_delta demo_rows 1 demo_pack false
    = Ok (mkDelta 1 3 demo_pack false [mkRow (Some 2) Json.Null; mkRow (Some 3) Json.Null])) as H1 by reflexivity.
  assert (continuation_delta (demo_rows ++ [mkRow (Some 5) Json.Null; mkRow (Some 4) Json.Null]) 3 demo_pack false
    = Ok (mkDelta 3 5 demo_pack false [mkRow (Some 4) Json.Null; mkRow (Some 5) Json.Null])) as H2 by reflexivity.
  split; [exact H1|]. split; [exact H2|].
  refine (proj2 (deltas_compose _ _ _ _ _ _ H1 H2 _ _)).
  - assert (Forall (λ x, Forall (λ y, seq_of x < seq_of y) [mkRow (Some 5) Json.Null; mkRow (Some 4) Json.Null]) demo_rows) as H
      by (repeat constructor).
    intros x y Hx Hy. rewrite Forall_forall in H. specialize (H x Hx). rewrite Forall_forall in H. exact (H y Hy).
  - assert (Forall (λ y, 1 < seq_of y) [mkRow (Some 5) Json.Null; mkRow (Some 4) Json.Null]) as H by (repeat constructor).
    rewrite Forall_forall in H. exact H.
Defined.
