(* ===== verification/AttemptJournal.v ===== *)
(** The journal of attempts ([simplicio_loop/attempt_journal.py]): typed
    observations with a hash chain, an append that is idempotent by event
    identifier, and the exchange of observations between journals. The lock
    makes an operation atomic. *)
From stdpp Require Import pretty.
From S2P Require Import Prelude PyLib PyText PyJson.
Import Json.
Local Open Scope Z_scope.
Local Open Scope py_scope.

(** * Definitions *)

Notation object := (list (string * json)).

Definition SCHEMA : string := "simplicio.loop-observation/v1".
Definition EVENT_KINDS : list string := ["hypothesis"; "action"; "tool_execution"; "validation"; "failure"; "observation"; "decision"].
Definition CLAIM_TYPES : list string := ["MEASURED"; "UNVERIFIED"; "ESTIMATED"].

Inductive AttemptExn : Type := AttemptJournalError (msg : string) | KeyError (key : string) | TypeError | AttributeError.

(** [_hash] *)
Definition hash_of (value : object) : string := Sha256.hexdigest (Json.dumps false (Obj value)).

(** [_text] *)
Definition text (v : json) (name : string) : result AttemptExn string :=
  let e := Err (AttemptJournalError (name +:+ " must be a non-empty string")) in
  match v with Str s => if Str.truthy (Str.strip s) then Ok (Str.strip s) else e | _ => e end.

(** ** Observations *)

(** The arguments of [build_observation]. *)
Record Observed := mkObserved {
  ob_run_id : json;
  ob_work_item_id : json;
  ob_attempt_id : json;
  ob_actor : json;
  ob_kind : json;
  ob_payload : json;
  ob_sequence : json;
  ob_event_id : json;
  ob_causation_id : json;
  ob_claim_type : json;
  ob_ac_ids : json;
  ob_observed_at : json;
}.

Definition is_criterion (v : json) : bool := match v with Str s => Str.truthy (Str.strip s) | _ => false end.

(** [payload.get("failure_fingerprint", payload.get("fingerprint"))], as it is or derived. *)
Definition failure_fingerprint (payload : object) : result AttemptExn string :=
  let supplied := Val.get_or "failure_fingerprint" payload (Val.get "fingerprint" payload) in
  if Val.truthy supplied then text supplied "failure_fingerprint" else Ok (String.substring 0 12 (hash_of payload)).

Definition build_observation (o : Observed) : result AttemptExn object :=
  match ob_sequence o with
  | Int sequence =>
      if sequence <? 1 then Err (AttemptJournalError "sequence must be a positive integer")
      else
        let? kind := text (ob_kind o) "kind" in
        if negb (bool_decide (kind ∈ EVENT_KINDS)) then Err (AttemptJournalError ("unsupported observation kind: " +:+ kind))
        else
          match ob_payload o with
          | Obj payload =>
              let? claim := text (ob_claim_type o) "claim_type" in
              let claim := Text.upper claim in
              if negb (bool_decide (claim ∈ CLAIM_TYPES)) then Err (AttemptJournalError ("unsupported claim_type: " +:+ claim))
              else
                let? criteria := or_raise (Val.iter (Val.or_else (ob_ac_ids o) (List []))) TypeError in
                if negb (forallb is_criterion criteria) then Err (AttemptJournalError "ac_ids must contain non-empty strings")
                else
                  let? event_id := text (ob_event_id o) "event_id" in
                  let? run_id := text (ob_run_id o) "run_id" in
                  let? work_item_id := text (ob_work_item_id o) "work_item_id" in
                  let? attempt_id := text (ob_attempt_id o) "attempt_id" in
                  let? actor := text (ob_actor o) "actor" in
                  let? causation_id := text (Val.or_else (ob_causation_id o) (ob_event_id o)) "causation_id" in
                  let event :=
                    [("schema", Str SCHEMA); ("sequence", Int sequence); ("event_id", Str event_id); ("run_id", Str run_id); ("work_item_id", Str work_item_id);
                     ("attempt_id", Str attempt_id); ("actor", Str actor); ("kind", Str kind); ("causation_id", Str causation_id); ("claim_type", Str claim);
                     ("ac_ids", List criteria); ("payload", Obj payload)] in
                  let? failure := if String.eqb kind "failure" then let? f := failure_fingerprint payload in Ok [("failure_fingerprint", Str f)] else Ok [] in
                  let? observed := if Val.is_none (ob_observed_at o) then Ok [] else let? t := text (ob_observed_at o) "observed_at" in Ok [("observed_at", Str t)] in
                  Ok (event ++ failure ++ observed)
          | _ => Err (AttemptJournalError "payload must be an object")
          end
  | _ => Err (AttemptJournalError "sequence must be a positive integer")
  end.

Definition REQUIRED : list string := ["event_id"; "run_id"; "work_item_id"; "attempt_id"; "actor"; "kind"; "causation_id"; "claim_type"; "ac_ids"; "payload"].

(** The arguments that an envelope spells. *)
Definition observed_of (sequence : json) (event : object) : Observed :=
  mkObserved (Val.get "run_id" event) (Val.get "work_item_id" event) (Val.get "attempt_id" event) (Val.get "actor" event) (Val.get "kind" event)
    (Val.get "payload" event) sequence (Val.get "event_id" event) (Val.get "causation_id" event) (Val.get "claim_type" event) (Val.get "ac_ids" event)
    (Val.get "observed_at" event).

(** The fields of the envelope that are not checked. *)
Definition extra_fields (checked event : object) : object := List.filter (λ kv, bool_decide (dget kv.1 checked = None :> option json)) event.

Definition validate_observation (v : json) : result AttemptExn object :=
  match v with
  | Obj event =>
      if negb (Val.eq (Val.get "schema" event) (Str SCHEMA)) then Err (AttemptJournalError "unsupported observation schema")
      else
        match List.find (λ f, bool_decide (dget f event = None :> option json)) REQUIRED with
        | Some f => Err (AttemptJournalError ("observation missing " +:+ f))
        | None =>
            let? sequence := or_raise (dget "sequence" event) (KeyError "sequence") in
            let? checked := build_observation (observed_of sequence event) in
            if Val.eq (Val.get "kind" event) (Str "failure") && negb (Val.eq (Val.get "failure_fingerprint" event) (Val.get "failure_fingerprint" checked))
            then Err (AttemptJournalError "failure fingerprint mismatch")
            else Ok (checked ++ extra_fields checked event)
        end
  | _ => Err (AttemptJournalError "unsupported observation schema")
  end.

(** ** The journal *)

(** A line of the file: blank, a document, or what is no JSON. *)
Inductive Line : Type := Blank | Doc (v : json) | Garbage.

(** A text holds a character at which [str.splitlines] breaks and which
    [json.dumps] does not escape: U+0085, U+2028, U+2029. *)
Fixpoint breaks (s : string) : bool :=
  match s with
  | String a s' =>
      match s' with
      | String b (String c _) => (Nat.eqb (Ascii.nat_of_ascii a) 226 && Nat.eqb (Ascii.nat_of_ascii b) 128 && ((Nat.eqb (Ascii.nat_of_ascii c) 168) || Nat.eqb (Ascii.nat_of_ascii c) 169))
      | _ => false
      end || match s' with String b _ => Nat.eqb (Ascii.nat_of_ascii a) 194 && Nat.eqb (Ascii.nat_of_ascii b) 133 | _ => false end || breaks s'
  | EmptyString => false
  end.
(** The lines of a row that is written: one, unless its text breaks. *)
Definition line_of (row : object) : Line := if breaks (Json.dumps false (Obj row)) then Garbage else Doc (Obj row).

(** [_read] *)
Fixpoint read_lines (n : Z) (ls : list Line) : result AttemptExn (list object) :=
  match ls with
  | [] => Ok []
  | Blank :: ls' => read_lines (n + 1) ls'
  | Garbage :: _ => Err (AttemptJournalError ("invalid JSON at journal line " +:+ pretty n))
  | Doc (Obj row) :: ls' => let? rows := read_lines (n + 1) ls' in Ok (row :: rows)
  | Doc _ :: _ => Err (AttemptJournalError ("journal line " +:+ pretty n +:+ " is not an object"))
  end.
Definition read (ls : list Line) : result AttemptExn (list object) := read_lines 1 ls.

Definition name_of (row : object) : string := Val.str (Val.get_or "event_id" row (Str "?")).
(** [row.get("prev_hash", "")], [row.get("hash", "")] *)
Definition get_text (key : string) (row : object) : json := Val.get_or key row (Str "").

(** The loop of [_verify]. *)
Fixpoint verify_from (expected : Z) (previous : json) (rows : list object) : result AttemptExn unit :=
  match rows with
  | [] => Ok tt
  | row :: rows' =>
      let? _ := validate_observation (Obj row) in
      if negb (Val.eq (Val.get "sequence" row) (Int expected)) || negb (Val.eq (get_text "prev_hash" row) previous) then
        Err (AttemptJournalError ("journal sequence/hash gap at " +:+ name_of row))
      else
        let recorded := Val.get "hash" row in
        if negb (Val.eq recorded (Str (hash_of (ddel "hash" row)))) then Err (AttemptJournalError ("journal hash mismatch at " +:+ name_of row))
        else verify_from (expected + 1) recorded rows'
  end.
Definition verify (rows : list object) : result AttemptExn unit := verify_from 1 (Str "") rows.

(** [replay], which is [export]. *)
Definition replay (ls : list Line) : result AttemptExn (list object) := let? rows := read ls in let? _ := verify rows in Ok rows.

Definition LINKS : list string := ["sequence"; "prev_hash"; "hash"].
Definition core (event : object) : object := List.filter (λ kv, negb (bool_decide (kv.1 ∈ LINKS))) event.

(** The row of a normalized event after some rows. *)
Definition linked (rows : list object) (normalized : object) : object :=
  let body := ddel "prev_hash" (ddel "hash" normalized) in
  let body := dput "sequence" (Int (Z.of_nat (length rows) + 1)) body in
  let body := dput "prev_hash" (match last rows with Some row => get_text "hash" row | None => Str "" end) body in
  dput "hash" (Str (hash_of body)) body.

(** [append]: the row, and the lines that are left. *)
Definition append (ls : list Line) (event : json) : result AttemptExn (object * list Line) :=
  let? normalized := validate_observation event in
  let? rows := replay ls in
  match List.find (λ prior, Val.eq (Val.get "event_id" prior) (Val.get "event_id" normalized)) rows with
  | Some prior =>
      if Val.eq (Obj (core prior)) (Obj (core normalized)) then Ok (prior, ls)
      else Err (AttemptJournalError "event_id already exists with a different envelope")
  | None => let row := linked rows normalized in Ok (row, ls ++ [line_of row])
  end.

(** [import_events]: an exception leaves what was appended before it. *)
Fixpoint import_events (ls : list Line) (events : list json) : list Line * result AttemptExn (list object) :=
  match events with
  | [] => (ls, Ok [])
  | event :: events' =>
      match append ls event with
      | Err e => (ls, Err e)
      | Ok (row, ls) => let '(ls, r) := import_events ls events' in (ls, let? rows := r in Ok (row :: rows))
      end
  end.

(** [import_legacy]: the observation of a row of the human journal. *)
Definition legacy_event (index : Z) (old : object) (run_id work_item_id attempt_id actor : json) : result AttemptExn object :=
  let gate := Str.lower (Val.str (Val.get_or "gate" old (Str "blocked"))) in
  let kind := if String.eqb gate "pass" then "validation" else if String.eqb gate "fail" then "failure" else "observation" in
  let name := Str ("legacy-" +:+ pretty index) in
  build_observation (mkObserved run_id work_item_id attempt_id actor (Str kind) (Obj [("legacy", Obj old)]) (Int index) name name
                       (Str (if String.eqb gate "pass" then "MEASURED" else "UNVERIFIED")) Null Null).
Fixpoint import_legacy (ls : list Line) (index : Z) (source : list Line) (run_id work_item_id attempt_id actor : json) : list Line * result AttemptExn (list object) :=
  match source with
  | [] => (ls, Ok [])
  | Blank :: source' => import_legacy ls (index + 1) source' run_id work_item_id attempt_id actor
  | Garbage :: _ => (ls, Err (AttemptJournalError ("invalid legacy JSON at line " +:+ pretty index)))
  | Doc (Obj old) :: source' =>
      match (let? event := legacy_event index old run_id work_item_id attempt_id actor in append ls (Obj event)) with
      | Err e => (ls, Err e)
      | Ok (row, ls) =>
          let '(ls, r) := import_legacy ls (index + 1) source' run_id work_item_id attempt_id actor in (ls, let? rows := r in Ok (row :: rows))
      end
  | Doc _ :: _ => (ls, Err AttributeError)
  end.

(** * Specification *)

Definition some_text (s : string) : Prop := Str.strip s = s ∧ s ≠ "".

(** An observation as [build_observation] leaves it. *)
Inductive built : object → Prop :=
| built_intro sequence event_id run_id work_item_id attempt_id actor kind causation_id claim criteria payload failure observed :
    1 <= sequence → Forall some_text [event_id; run_id; work_item_id; attempt_id; actor; kind; causation_id] →
    kind ∈ EVENT_KINDS → claim ∈ CLAIM_TYPES → forallb is_criterion criteria = true →
    (if String.eqb kind "failure" then ∃ f, failure_fingerprint payload = Ok f ∧ failure = [("failure_fingerprint", Str f)] else failure = []) →
    (observed = [] ∨ ∃ t, some_text t ∧ observed = [("observed_at", Str t)]) →
    built ([("schema", Str SCHEMA); ("sequence", Int sequence); ("event_id", Str event_id); ("run_id", Str run_id); ("work_item_id", Str work_item_id);
            ("attempt_id", Str attempt_id); ("actor", Str actor); ("kind", Str kind); ("causation_id", Str causation_id); ("claim_type", Str claim);
            ("ac_ids", List criteria); ("payload", Obj payload)] ++ failure ++ observed).

(** An envelope as [validate_observation] leaves it: the extra fields are not
    among the checked ones. *)
Inductive normal : object → Prop :=
| normal_intro checked extras : built checked → (∀ k, k ∈ extras.*1 → dget k checked = None) →
    (dget "observed_at" checked = None → Val.get "observed_at" extras = Null) → normal (checked ++ extras).

(** A row whose text is one line. *)
Definition unbroken (row : object) : Prop := breaks (Json.dumps false (Obj row)) = false.

(** The keys of the dicts in a document are distinct, as those of Python are. *)
Fixpoint uniq (v : json) : bool :=
  match v with
  | List l => forallb uniq l
  | Obj d => bool_decide (NoDup d.*1) && forallb (λ kv, uniq kv.2) d
  | _ => true
  end.

(** The journals that appends lead to; one that raises leaves the file. *)
Inductive reachable : list Line → Prop :=
| reachable_empty : reachable []
| reachable_append ls event row ls' : reachable ls → uniq event = true → append ls event = Ok (row, ls') → reachable ls'.

Definition lines_of (rows : list object) : list Line := (λ row, Doc (Obj row)) <$> rows.

Definition demo_fields (id note : string) : object :=
  [("schema", Str SCHEMA); ("sequence", Int 9); ("event_id", Str id); ("run_id", Str "run"); ("work_item_id", Str " item "); ("attempt_id", Str "a1"); ("actor", Str "agent");
   ("kind", Str "failure"); ("causation_id", Null); ("claim_type", Str "measured"); ("ac_ids", List []); ("payload", Obj [("note", Str note)])].
(** A failure carries its fingerprint. *)
Definition demo_event (id note : string) : object :=
  demo_fields id note ++ [("failure_fingerprint", Str (ok_or "" (failure_fingerprint [("note", Str note)]))); ("hash", Str "of another journal"); ("trace", Int 7)].
Definition demo_row : object := (ok_or ([], []) (append [] (Obj (demo_event "e1" "broken")))).1.
Definition demo_lines : list Line := (ok_or ([], []) (append [] (Obj (demo_event "e1" "broken")))).2.
(** U+2028 *)
Definition separator : string := String (Ascii.ascii_of_nat 226) (String (Ascii.ascii_of_nat 128) (String (Ascii.ascii_of_nat 168) "")).

(** * Lemmas *)

Lemma field_text_Ok v name s : text v name = Ok s → some_text s.
Proof.
  unfold text. destruct v as [| | | |t| |]; try done. destruct (Str.truthy _) eqn:E; [|done]. intros [= <-]. split; [apply Str.strip_idemp|by apply Str.truthy_ne].
Qed.
Lemma text_again s name : some_text s → text (Str s) name = Ok s.
Proof. intros [Hs Hn]. unfold text. by rewrite Hs, (proj2 (Str.truthy_ne _) Hn). Qed.

Lemma build_Ok o e : build_observation o = Ok e → built e ∧ (dget "observed_at" e = None → Val.is_none (ob_observed_at o) = true) ∧ dget "payload" e = Some (ob_payload o).
Proof.
  unfold build_observation. destruct (ob_sequence o) as [| |n| | | |]; try done. destruct (n <? 1) eqn:En; [done|]. apply Z.ltb_ge in En.
  intros (kind & Hkind & H)%rbind_Ok. destruct (negb (bool_decide (kind ∈ _))) eqn:Ek; [done|]. destruct (ob_payload o) as [| | | | | |payload] eqn:Epay; try done.
  apply rbind_Ok in H as (claim & Hclaim & H). destruct (negb (bool_decide (Text.upper claim ∈ _))) eqn:Ec; [done|].
  apply rbind_Ok in H as (criteria & _ & H). destruct (negb (forallb _ _)) eqn:Ecr; [done|].
  apply rbind_Ok in H as (event_id & He & (run_id & Hr & (work_item_id & Hw & (attempt_id & Ha & (actor & Hac & (causation_id & Hca & H)%rbind_Ok)%rbind_Ok)%rbind_Ok)%rbind_Ok)%rbind_Ok).
  apply rbind_Ok in H as (failure & Hf & (observed & Ho & H)%rbind_Ok). zbool.
  pose proof (field_text_Ok _ _ _ Hkind). pose proof (field_text_Ok _ _ _ He). pose proof (field_text_Ok _ _ _ Hr). pose proof (field_text_Ok _ _ _ Hw). pose proof (field_text_Ok _ _ _ Ha).
  pose proof (field_text_Ok _ _ _ Hac). pose proof (field_text_Ok _ _ _ Hca). injection H as <-. split; [apply built_intro; try done|split; [|done]].
  - by rewrite !Forall_cons, Forall_nil.
  - destruct (String.eqb kind "failure"); [|by injection Hf as <-]. apply rbind_Ok in Hf as (f & Hf & [= <-]). by exists f.
  - destruct (Val.is_none _); [injection Ho as <-; by left|]. apply rbind_Ok in Ho as (t & Ht & [= <-]). right. exists t. split; [by eapply field_text_Ok|done].
  - destruct (Val.is_none _); [done|]. apply rbind_Ok in Ho as (t & Ht & [= <-]).
    destruct (String.eqb kind "failure"); [apply rbind_Ok in Hf as (f & _ & [= <-]); discriminate|injection Hf as <-; discriminate].
Qed.

Definition USED : list string :=
  ["run_id"; "work_item_id"; "attempt_id"; "actor"; "kind"; "payload"; "event_id"; "causation_id"; "claim_type"; "ac_ids"; "observed_at"].

Lemma claim_upper c : c ∈ CLAIM_TYPES → some_text c ∧ Text.upper c = c.
Proof. unfold CLAIM_TYPES. intros H. repeat (apply elem_of_cons in H as [->|H]; [done|]). by apply not_elem_of_nil in H. Qed.

Lemma built_again e0 d sequence : built e0 → 1 <= sequence → (∀ k, k ∈ USED → Val.get k d = Val.get k e0) →
  build_observation (observed_of (Int sequence) d) = Ok (dput "sequence" (Int sequence) e0).
Proof.
  intros [seq event_id run_id work_item_id attempt_id actor kind causation_id claim criteria payload failure observed Hseq Htexts Hkind Hclaim Hcrit Hfail Hobs] Hs Hd.
  set (e := _ ++ failure ++ observed) in Hd. unfold observed_of.
  rewrite (Hd "run_id"), (Hd "work_item_id"), (Hd "attempt_id"), (Hd "actor"), (Hd "kind"), (Hd "payload"), (Hd "event_id"), (Hd "causation_id"), (Hd "claim_type"), (Hd "ac_ids"), (Hd "observed_at") by (unfold USED; by_compute).
  clear Hd. assert (Val.get "observed_at" e = match observed with [] => Null | kv :: _ => kv.2 end) as ->.
  { unfold e. destruct (String.eqb kind "failure"); [destruct Hfail as (f & _ & ->)|subst failure]; destruct Hobs as [->|(t & _ & ->)]; reflexivity. }
  rewrite !Forall_cons, Forall_nil in Htexts. destruct Htexts as (H1 & H2 & H3 & H4 & H5 & H6 & H7 & _). destruct (claim_upper claim Hclaim) as [Hc Hu].
  unfold build_observation. cbn [ob_sequence ob_run_id ob_work_item_id ob_attempt_id ob_actor ob_kind ob_payload ob_event_id ob_causation_id ob_claim_type ob_ac_ids ob_observed_at].
  rewrite (proj2 (Z.ltb_ge _ _) Hs). change (Val.get "kind" e) with (Str kind). change (Val.get "payload" e) with (Obj payload). change (Val.get "claim_type" e) with (Str claim).
  change (Val.get "ac_ids" e) with (List criteria). change (Val.get "event_id" e) with (Str event_id). change (Val.get "run_id" e) with (Str run_id).
  change (Val.get "work_item_id" e) with (Str work_item_id). change (Val.get "attempt_id" e) with (Str attempt_id). change (Val.get "actor" e) with (Str actor).
  change (Val.get "causation_id" e) with (Str causation_id).
  rewrite (text_again kind _ H6). cbn [rbind]. rewrite bool_decide_eq_true_2 by done. cbn [negb]. rewrite (text_again claim _ Hc). cbn [rbind]. rewrite Hu, bool_decide_eq_true_2 by done. cbn [negb].
  assert (or_raise (Val.iter (Val.or_else (List criteria) (List []))) TypeError = Ok criteria) as -> by (unfold Val.or_else; by destruct criteria). cbn [rbind]. rewrite Hcrit. cbn [negb].
  rewrite (text_again event_id _ H1), (text_again run_id _ H2), (text_again work_item_id _ H3), (text_again attempt_id _ H4), (text_again actor _ H5). cbn [rbind].
  assert (Val.or_else (Str causation_id) (Str event_id) = Str causation_id) as -> by (unfold Val.or_else; cbn [Val.truthy]; destruct H7 as [_ Hn]; by rewrite (proj2 (Str.truthy_ne _) Hn)).
  rewrite (text_again causation_id _ H7). cbn [rbind].
  destruct (String.eqb kind "failure"); [destruct Hfail as (f & Hf & ->); rewrite Hf|subst failure]; cbn [rbind];
    (destruct Hobs as [->|(t & Ht & ->)]; cbn [Val.is_none snd]; [|rewrite (text_again t _ Ht)]; reflexivity).
Qed.

(** ** Normal envelopes *)

(** What is in an observation. *)
Record has (e : object) : Prop := {
  has_schema : dget "schema" e = Some (Str SCHEMA);
  has_sequence : ∃ n, dget "sequence" e = Some (Int n) ∧ 1 <= n;
  has_event_id : ∃ s, dget "event_id" e = Some (Str s);
  has_required : List.find (λ f, bool_decide (dget f e = None :> option json)) REQUIRED = None;
  has_used k : k ∈ USED → k ≠ "observed_at" → dget k e ≠ None;
  has_no_links : dget "hash" e = None ∧ dget "prev_hash" e = None;
  has_failure : Val.eq (Val.get "kind" e) (Str "failure") = true → ∃ f, dget "failure_fingerprint" e = Some (Str f);
}.

Lemma built_has e : built e → has e.
Proof.
  intros [seq event_id run_id work_item_id attempt_id actor kind causation_id claim criteria payload failure observed Hseq Htexts Hkind Hclaim Hcrit Hfail Hobs].
  constructor; [done|by exists seq|by exists event_id|done| | |].
  - intros k Hk Hne. unfold USED in Hk. repeat (apply elem_of_cons in Hk as [->|Hk]; [done|]). by apply not_elem_of_nil in Hk.
  - destruct (String.eqb kind "failure"); [destruct Hfail as (f & _ & ->)|subst failure]; destruct Hobs as [->|(t & _ & ->)]; done.
  - intros H. change (String.eqb kind "failure" = true) in H. rewrite H in Hfail. destruct Hfail as (f & _ & ->). by exists f.
Qed.

Lemma built_sequence e n : built e → 1 <= n → built (dput "sequence" (Int n) e).
Proof.
  intros [seq event_id run_id work_item_id attempt_id actor kind causation_id claim criteria payload failure observed Hseq Htexts Hkind Hclaim Hcrit Hfail Hobs] Hn.
  exact (built_intro n event_id run_id work_item_id attempt_id actor kind causation_id claim criteria payload failure observed Hn Htexts Hkind Hclaim Hcrit Hfail Hobs).
Qed.

Lemma normal_has checked extras : built checked → (∀ k, k ∈ extras.*1 → dget k checked = None) →
  (dget "observed_at" checked = None → Val.get "observed_at" extras = Null) →
  ∀ k, k ∈ USED → Val.get k (checked ++ extras) = Val.get k checked.
Proof.
  intros Hb%built_has Hex Hobs k Hk. unfold Val.get. destruct (decide (k = "observed_at")) as [->|Hne].
  - destruct (dget "observed_at" checked) eqn:E; [by rewrite dget_app_some, E by congruence|]. rewrite dget_app_none by done. by apply Hobs.
  - rewrite dget_app_some; [done|]. by apply (has_used _ Hb).
Qed.

Lemma extra_fields_app checked extras : (∀ k, k ∈ extras.*1 → dget k checked = None) → extra_fields checked (checked ++ extras) = extras.
Proof.
  intros Hex. unfold extra_fields. rewrite List.filter_app. rewrite (proj2 (filter_nil _ _)).
  - cbn. apply Listfilter_all. intros [k v] Hin. cbn. apply bool_decide_eq_true, Hex. apply list_elem_of_fmap. by exists (k, v).
  - intros [k v] Hin. cbn. apply bool_decide_eq_false. intros H%dget_None. apply H. apply list_elem_of_fmap. by exists (k, v).
Qed.

(** An envelope that was validated is valid, and is itself again. *)
Lemma normal_validate e : normal e → validate_observation (Obj e) = Ok e.
Proof.
  intros [checked extras Hb Hex Hobs]. pose proof (built_has _ Hb) as Hh. destruct (has_sequence _ Hh) as (n & Hn & Hn1). unfold validate_observation.
  assert (Val.get "schema" (checked ++ extras) = Str SCHEMA) as -> by (unfold Val.get; rewrite dget_app, (has_schema _ Hh); done). cbn [Val.eq]. rewrite String.eqb_refl. cbn [negb].
  assert (List.find (λ f, bool_decide (dget f (checked ++ extras) = None :> option json)) REQUIRED = None) as ->.
  { pose proof (has_required _ Hh) as Hreq. generalize dependent REQUIRED. intros l. induction l as [|f l IH]; [done|]. cbn. rewrite dget_app.
    destruct (dget f checked); [|done]. done. }
  rewrite dget_app, Hn. cbn [or_raise rbind]. rewrite (built_again checked) by (done || by apply normal_has). rewrite (dput_same _ _ _ Hn). cbn [rbind].
  rewrite extra_fields_app by done.
  assert (Val.get "kind" (checked ++ extras) = Val.get "kind" checked) as -> by (apply normal_has; [done..|unfold USED; by_compute]).
  destruct (Val.eq (Val.get "kind" checked) (Str "failure")) eqn:Ek; cbn [andb]; [|done]. destruct (has_failure _ Hh Ek) as (f & Hf).
  assert (Val.get "failure_fingerprint" (checked ++ extras) = Str f) as -> by (unfold Val.get; by rewrite dget_app, Hf).
  assert (Val.get "failure_fingerprint" checked = Str f) as -> by (unfold Val.get; by rewrite Hf). cbn [Val.eq]. by rewrite String.eqb_refl.
Qed.

Lemma validate_normal v e : validate_observation v = Ok e → normal e.
Proof.
  unfold validate_observation. destruct v as [| | | | | |event]; try done. destruct (negb _); [done|]. destruct (List.find _ _); [done|].
  intros (seq & _ & (checked & Hb & H)%rbind_Ok)%rbind_Ok. destruct (_ && _); [done|]. injection H as <-. apply build_Ok in Hb as (Hb & Hnone & _).
  constructor; [done| |].
  - intros k (kv & -> & Hin)%list_elem_of_fmap. apply elem_of_Listfilter in Hin as [_ Hin]. by apply bool_decide_eq_true in Hin.
  - intros Hobs. apply Hnone in Hobs as Hn. cbn in Hn. unfold Val.get.
    assert (dget "observed_at" (extra_fields checked event) = dget "observed_at" event) as ->.
    { pose proof (dget_filter_key (λ f, bool_decide (dget f checked = None :> option json)) "observed_at" event) as E. cbv beta in E. rewrite bool_decide_eq_true_2 in E by done. exact E. }
    unfold Val.get in Hn. by destruct (dget "observed_at" event) as [[]|].
Qed.

(** ** Rows *)

Lemma core_app d e : core (d ++ e) = core d ++ core e.
Proof. apply List.filter_app. Qed.
Lemma core_ddel k d : k ∈ LINKS → core (ddel k d) = core d.
Proof.
  intros Hk. unfold core, ddel. induction d as [|[i v] d IH]; [done|]. cbn [List.filter fst]. destruct (String.eqb_spec i k) as [->|Hne]; cbn [negb List.filter fst]; rewrite IH; [|done].
  by rewrite bool_decide_eq_true_2.
Qed.
Lemma core_dput k v d : k ∈ LINKS → core (dput k v d) = core d.
Proof.
  intros Hk. unfold core. induction d as [|[i w] d IH]; cbn [dput]; [cbn [List.filter fst]; by rewrite bool_decide_eq_true_2|].
  destruct (String.eqb_spec i k) as [->|Hne]; cbn [List.filter fst]; [by rewrite bool_decide_eq_true_2|]. by rewrite IH.
Qed.

Definition last_hash (rows : list object) : json := match last rows with Some row => get_text "hash" row | None => Str "" end.

(** The shape of a row: the checked fields with the number of the row, the
    extra fields, the links. *)
Lemma linked_shape rows checked extras : built checked → (∀ k, k ∈ extras.*1 → dget k checked = None) →
  let n := Int (Z.of_nat (length rows) + 1) in
  let body := (dput "sequence" n checked ++ ddel "prev_hash" (ddel "hash" extras)) ++ [("prev_hash", last_hash rows)] in
  linked rows (checked ++ extras) = body ++ [("hash", Str (hash_of body))].
Proof.
  intros Hb%built_has Hex n body. unfold linked. fold (last_hash rows). destruct (has_no_links _ Hb) as [Hh Hp].
  rewrite !ddel_app, (ddel_none "hash" checked), (ddel_none "prev_hash" checked) by done.
  destruct (has_sequence _ Hb) as (s & Hs & _). assert (dget "sequence" checked ≠ None) as Hseq by congruence. rewrite dput_app by done. fold n.
  assert (∀ k, dget k checked = None → dget k (ddel "prev_hash" (ddel "hash" extras)) = None → dget k (dput "sequence" n checked ++ ddel "prev_hash" (ddel "hash" extras)) = None) as Hfresh.
  { intros k H1 H2. rewrite dget_app_none; [done|]. by apply dput_keys_same. }
  rewrite (dput_new "prev_hash") by (apply dget_None, Hfresh; [done|by rewrite dget_del, decide_True]). fold body.
  rewrite dput_new; [done|]. apply dget_None. unfold body. rewrite dget_app_none; [done|]. apply Hfresh; [done|]. rewrite dget_del, decide_False by done. by rewrite dget_del, decide_True.
Qed.

(** What a row is. *)
Record row_after (rows : list object) (row : object) : Prop := {
  ra_normal : normal row;
  ra_sequence : dget "sequence" row = Some (Int (Z.of_nat (length rows) + 1));
  ra_prev : dget "prev_hash" row = Some (last_hash rows);
  ra_hash : dget "hash" row = Some (Str (hash_of (ddel "hash" row)));
}.

Lemma linked_row rows e : normal e → row_after rows (linked rows e) ∧ core (linked rows e) = core e ∧ Val.get "event_id" (linked rows e) = Val.get "event_id" e ∧
  ∀ rows', linked rows' (linked rows e) = linked rows' e.
Proof.
  intros [checked extras Hb Hex Hobs]. pose proof (built_has _ Hb) as Hh. set (n := Z.of_nat (length rows) + 1). set (checked' := dput "sequence" (Int n) checked).
  assert (built checked') as Hb' by (apply built_sequence; [done|unfold n; lia]). pose proof (built_has _ Hb') as Hh'.
  destruct (has_sequence _ Hh) as (s & Hs & _). assert (dget "sequence" checked ≠ None) as Hseq by congruence.
  rewrite linked_shape by done. cbv zeta. fold n. fold checked'. set (mid := ddel "prev_hash" (ddel "hash" extras)). set (body := (checked' ++ mid) ++ _).
  assert (body ++ [("hash", Str (hash_of body))] = checked' ++ (mid ++ [("prev_hash", last_hash rows); ("hash", Str (hash_of body))])) as Eshape.
  { unfold body at 1. by rewrite <- !app_assoc. }
  assert (∀ k, k ∈ mid.*1 → k ∈ extras.*1 ∧ k ≠ "hash" ∧ k ≠ "prev_hash") as Hmid.
  { intros k. unfold mid. rewrite !ddel_keys. intros [[Hk H1]%elem_of_Listfilter H2]%elem_of_Listfilter. apply negb_true_iff, String.eqb_neq in H1, H2. done. }
  assert (∀ k, k ∈ (mid ++ [("prev_hash", last_hash rows); ("hash", Str (hash_of body))]).*1 → dget k checked' = None) as Hex'.
  { intros k. rewrite fmap_app, elem_of_app. intros [Hk|Hk].
    - apply dput_keys_same; [done|]. apply Hex. by destruct (Hmid k Hk).
    - destruct (has_no_links _ Hh') as [H1 H2]. cbn in Hk. apply elem_of_cons in Hk as [->|[->|Hk%not_elem_of_nil]%elem_of_cons]; done. }
  assert ("hash" ∉ body.*1) as Hnohash.
  { unfold body. rewrite !fmap_app, !elem_of_app. intros [[Hk|Hk]|Hk]; [destruct (has_no_links _ Hh') as [H1 _]; by apply dget_None in H1|by destruct (Hmid _ Hk) as (_ & ? & _)|].
    by apply elem_of_cons in Hk as [Hk|Hk%not_elem_of_nil]. }
  split; [constructor|split; [|split]].
  - rewrite Eshape. constructor; [done|done|]. intros Ho. assert (dget "observed_at" checked = None) as Ho' by (by apply (dput_keys_same "sequence" (Int n))).
    apply Hobs in Ho'. assert (dget "observed_at" mid = dget "observed_at" extras) as Em by (unfold mid; rewrite !dget_del, !decide_False by done; done).
    unfold Val.get in Ho' |- *. rewrite dget_app, Em. by destruct (dget "observed_at" extras).
  - rewrite Eshape, dget_app_some; unfold checked'; by rewrite dget_put_eq.
  - rewrite dget_snoc, decide_False by done. unfold body. rewrite dget_snoc; [done|]. rewrite fmap_app, elem_of_app. intros [Hk|Hk].
    + destruct (has_no_links _ Hh') as [_ H2]. by apply dget_None in H2.
    + by destruct (Hmid _ Hk) as (_ & _ & ?).
  - rewrite dget_snoc, decide_True, ddel_app, ddel_none by (done || by apply dget_None). by rewrite app_nil_r.
  - rewrite Eshape, !core_app. unfold checked', mid. rewrite core_dput, !core_ddel by by_compute. cbn. by rewrite app_nil_r.
  - rewrite Eshape. unfold Val.get. destruct (has_event_id _ Hh) as (t & Ht). rewrite !dget_app_some by (unfold checked'; rewrite ?dget_put_ne by done; congruence).
    unfold checked'. by rewrite dget_put_ne.
  - intros rows'. rewrite Eshape, !linked_shape by done. cbv zeta. unfold checked'. rewrite dput_dput. fold checked'.
    assert (ddel "prev_hash" (ddel "hash" (mid ++ [("prev_hash", last_hash rows); ("hash", Str (hash_of body))])) = mid) as ->; [|done].
    rewrite !ddel_app, (ddel_none "hash" mid), (ddel_none "prev_hash" mid) by (apply dget_None; intros Hk; by destruct (Hmid _ Hk) as (_ & ? & ?)). cbn. by rewrite app_nil_r.
Qed.

(** ** Journals *)

(** Rows that were appended one after the other, each with a new identifier. *)
Inductive journal : list object → Prop :=
| journal_nil : journal []
| journal_snoc rows e : journal rows → normal e → uniq (Obj e) = true → unbroken (linked rows e) →
    (∀ prior, prior ∈ rows → Val.eq (Val.get "event_id" prior) (Val.get "event_id" e) = false) → journal (rows ++ [linked rows e]).

Lemma verify_snoc rows row : ∀ n p, verify_from n p rows = Ok tt →
  verify_from n p (rows ++ [row]) = verify_from (n + Z.of_nat (length rows)) (match last rows with Some r => Val.get "hash" r | None => p end) [row].
Proof.
  induction rows as [|r rows IH]; intros n p; [cbn [app length last]; by rewrite Z.add_0_r|]. intros H. cbn [verify_from app] in H |- *.
  destruct (validate_observation (Obj r)); [|done]. cbn [rbind] in H |- *. destruct (_ || _); [done|]. destruct (negb _); [done|]. rewrite (IH _ _ H). rewrite last_cons. cbn [length].
  replace (n + Z.of_nat (S (length rows))) with (n + 1 + Z.of_nat (length rows)) by lia. by destruct (last rows).
Qed.

Lemma verify_row rows row h : row_after rows row → last_hash rows = Str h → verify_from (1 + Z.of_nat (length rows)) (Str h) [row] = Ok tt.
Proof.
  intros [Hn Hs Hp Hh] Hl. cbn [verify_from]. rewrite (normal_validate _ Hn). cbn [rbind].
  assert (Val.get "sequence" row = Int (Z.of_nat (length rows) + 1)) as -> by (unfold Val.get; by rewrite Hs).
  assert (get_text "prev_hash" row = Str h) as -> by (unfold get_text, Val.get_or; by rewrite Hp).
  assert (Val.get "hash" row = Str (hash_of (ddel "hash" row))) as -> by (unfold Val.get; by rewrite Hh).
  set (d := hash_of _). clearbody d. cbn [Val.eq Val.number]. by rewrite (Z.add_comm 1), Z.eqb_refl, !String.eqb_refl.
Qed.

Lemma journal_last rows : journal rows → ∃ h, last_hash rows = Str h ∧ match last rows with Some r => Val.get "hash" r | None => Str "" end = Str h.
Proof.
  intros [|rs e _ Hn _ _ _]; [by exists ""|]. destruct (linked_row rs e Hn) as ([_ _ _ Hh] & _). unfold last_hash, get_text, Val.get_or, Val.get. rewrite last_snoc, Hh. by eexists.
Qed.

Lemma journal_verifies rows : journal rows → verify rows = Ok tt.
Proof.
  induction 1 as [|rows e Hj IH Hn _ _ _]; [done|]. unfold verify in *. rewrite (verify_snoc _ _ _ _ IH). destruct (journal_last _ Hj) as (h & Hl & ->).
  apply verify_row; [|done]. by apply linked_row.
Qed.

Lemma read_lines_of rows : ∀ n, read_lines n (lines_of rows) = Ok rows.
Proof. induction rows as [|row rows IH]; intros n; [done|]. change (lines_of (row :: rows)) with (Doc (Obj row) :: lines_of rows). cbn [read_lines]. by rewrite IH. Qed.

Lemma journal_replays rows : journal rows → replay (lines_of rows) = Ok rows.
Proof. intros Hj. unfold replay, read. rewrite read_lines_of. cbn [rbind]. by rewrite journal_verifies. Qed.

(** [append] on a journal. *)
Lemma append_new rows e : journal rows → normal e → (∀ prior, prior ∈ rows → Val.eq (Val.get "event_id" prior) (Val.get "event_id" e) = false) →
  append (lines_of rows) (Obj e) = Ok (linked rows e, lines_of rows ++ [line_of (linked rows e)]).
Proof.
  intros Hj Hn Hid. unfold append. rewrite (normal_validate _ Hn). cbn [rbind]. rewrite (journal_replays _ Hj). cbn [rbind]. by rewrite (proj2 (Listfind_none _ _) Hid).
Qed.

Lemma lines_snoc rows row : unbroken row → lines_of rows ++ [line_of row] = lines_of (rows ++ [row]).
Proof. intros Hu. unfold lines_of, line_of. unfold unbroken in Hu. by rewrite Hu, fmap_app. Qed.

Lemma append_cases rows v row ls : journal rows → append (lines_of rows) v = Ok (row, ls) → ∃ e, validate_observation v = Ok e ∧
  ((ls = lines_of rows ∧ Val.eq (Obj (core row)) (Obj (core e)) = true ∧
    List.find (λ prior, Val.eq (Val.get "event_id" prior) (Val.get "event_id" e)) rows = Some row) ∨
   (row = linked rows e ∧ ls = lines_of rows ++ [line_of row] ∧ ∀ prior, prior ∈ rows → Val.eq (Val.get "event_id" prior) (Val.get "event_id" e) = false)).
Proof.
  intros Hj. unfold append. intros (e & He & H)%rbind_Ok. rewrite (journal_replays _ Hj) in H. cbn [rbind] in H. exists e. split; [done|].
  destruct (List.find _ rows) as [prior|] eqn:Ef.
  - destruct (Val.eq (Obj (core prior)) _) eqn:Ec; [|done]. injection H as <- <-. by left.
  - injection H as <- <-. right. split; [done|]. split; [done|]. by apply Listfind_none.
Qed.

Lemma uniq_refl v : uniq v = true → Val.eq v v = true.
Proof.
  induction v as [| | | | |l IH|d IH] using json_nested_ind; intros Hu; try done.
  - by destruct b.
  - apply Z.eqb_refl.
  - apply Z.eqb_refl.
  - apply String.eqb_refl.
  - apply Val.eq_list_refl. intros v Hv. rewrite Forall_forall in IH. apply IH; [done|]. cbn in Hu. rewrite forallb_forall in Hu. by apply Hu, list_elem_of_In.
  - cbn in Hu. apply andb_true_iff in Hu as [Hnd%bool_decide_eq_true Hu]. apply Val.eq_obj_refl; [done|]. intros k v Hin. rewrite Forall_forall in IH. apply (IH (k, v)); [done|].
    rewrite forallb_forall in Hu. by apply (Hu (k, v)), list_elem_of_In.
Qed.

Lemma uniq_obj d : uniq (Obj d) = true ↔ NoDup d.*1 ∧ ∀ k v, (k, v) ∈ d → uniq v = true.
Proof.
  cbn. rewrite andb_true_iff, bool_decide_eq_true, forallb_forall. split; intros [Hnd H]; split; try done.
  - intros k v Hin. by apply (H (k, v)), list_elem_of_In.
  - intros [k v] Hin. apply (H k). by apply list_elem_of_In.
Qed.

Lemma uniq_core d : uniq (Obj d) = true → uniq (Obj (core d)) = true.
Proof.
  rewrite !uniq_obj. intros [Hnd H]. split; [by apply NoDup_Listfilter_fmap|]. intros k v [Hin _]%elem_of_Listfilter. by apply (H k).
Qed.

Lemma built_uniq e : built e → (∀ p, dget "payload" e = Some p → uniq p = true) → uniq (Obj e) = true.
Proof.
  intros [seq event_id run_id work_item_id attempt_id actor kind causation_id claim criteria payload failure observed Hseq Htexts Hkind Hclaim Hcrit Hfail Hobs] Hp.
  assert (uniq (List criteria) = true) as Hc.
  { cbn. apply forallb_forall. intros v Hv. rewrite forallb_forall in Hcrit. specialize (Hcrit v Hv). by destruct v. }
  specialize (Hp (Obj payload) eq_refl). cbn [uniq] in Hc, Hp. apply andb_true_iff in Hp as [Hp1 Hp2]. cbn [uniq].
  apply andb_true_iff. split.
  - apply bool_decide_eq_true. destruct (String.eqb kind "failure"); [destruct Hfail as (f & _ & ->)|subst failure]; (destruct Hobs as [->|(t & _ & ->)]; cbn; by_compute).
  - destruct (String.eqb kind "failure"); [destruct Hfail as (f & _ & ->)|subst failure]; (destruct Hobs as [->|(t & _ & ->)]; cbn [app forallb snd uniq]; by rewrite Hc, Hp1, Hp2).
Qed.

Lemma validate_uniq v e : validate_observation v = Ok e → uniq v = true → uniq (Obj e) = true.
Proof.
  intros H Hv. pose proof (validate_normal _ _ H) as Hn. unfold validate_observation in H. destruct v as [| | | | | |event]; try done. destruct (negb _); [done|]. destruct (List.find _ _); [done|].
  apply rbind_Ok in H as (seq & _ & (checked & Hb & H)%rbind_Ok). destruct (_ && _); [done|]. injection H as <-. apply build_Ok in Hb as (Hb & _ & Hpay).
  apply uniq_obj in Hv as [Hnd Hv]. assert (uniq (Obj checked) = true) as Hc.
  { apply built_uniq; [done|]. intros p Hp. rewrite Hpay in Hp. injection Hp as <-. cbn. unfold Val.get. destruct (dget "payload" event) as [p|] eqn:Ep; [|done].
    by apply (Hv "payload"), dget_Some_pair. }
  apply uniq_obj in Hc as [Hndc Hc]. apply uniq_obj. rewrite fmap_app. split.
  - apply NoDup_app. split; [done|]. split; [|by apply NoDup_Listfilter_fmap].
    intros k Hk (kv & -> & [_ Hin]%elem_of_Listfilter)%list_elem_of_fmap. apply bool_decide_eq_true, dget_None in Hin. done.
  - intros k w [Hin|[Hin _]%elem_of_Listfilter]%elem_of_app; [by apply (Hc k)|by apply (Hv k)].
Qed.

Lemma read_lines_garbage rows : ∀ n, ∃ e, read_lines n (lines_of rows ++ [Garbage]) = Err e.
Proof.
  induction rows as [|row rows IH]; intros n; [by eexists|]. change (lines_of (row :: rows) ++ [Garbage]) with (Doc (Obj row) :: (lines_of rows ++ [Garbage])).
  cbn [read_lines]. destruct (IH (n + 1)) as [e ->]. by exists e.
Qed.

(** A line that is no JSON makes the journal unreadable, and nothing is appended to it. *)
Lemma garbage_replays rows : ∃ e, replay (lines_of rows ++ [Garbage]) = Err e.
Proof. unfold replay, read. destruct (read_lines_garbage rows 1) as [e ->]. by exists e. Qed.
Lemma garbage_append rows v : ∃ e, append (lines_of rows ++ [Garbage]) v = Err e.
Proof.
  unfold append. destruct (validate_observation v) as [x|e]; [|by exists e]. cbn [rbind]. destruct (garbage_replays rows) as [e ->]. by exists e.
Qed.

(** A journal that appends lead to is one of rows that are lines, or was made
    unreadable by the last append. *)
Lemma reachable_cases ls : reachable ls → (∃ rows, ls = lines_of rows ∧ journal rows) ∨
  ∃ rows e, ls = lines_of rows ++ [Garbage] ∧ journal rows ∧ ¬ unbroken (linked rows e) ∧ ∃ v, append (lines_of rows) v = Ok (linked rows e, ls) ∧ reachable (lines_of rows).
Proof.
  induction 1 as [|ls v row ls' Hr IH Hv Ha]; [left; exists []; split; [done|constructor]|].
  destruct IH as [(rows & -> & Hj)|(rows & e & -> & _)]; [|by destruct (garbage_append rows v) as [e' He']; rewrite He' in Ha].
  destruct (append_cases _ _ _ _ Hj Ha) as (e & He & [(-> & _)|(-> & E & Hid)]); [left; by exists rows|].
  destruct (breaks (Json.dumps false (Obj (linked rows e)))) eqn:Eb.
  - right. exists rows, e. assert (ls' = lines_of rows ++ [Garbage]) as Els by (rewrite E; unfold line_of; by rewrite Eb).
    split; [done|]. split; [done|]. split; [unfold unbroken; congruence|]. by exists v.
  - left. exists (rows ++ [linked rows e]). subst ls'. split; [by apply lines_snoc|].
    apply journal_snoc; [done|by eapply validate_normal|by eapply validate_uniq|done|done].
Qed.

Lemma reachable_journal ls v p : reachable ls → append ls v = Ok p → ∃ rows, ls = lines_of rows ∧ journal rows.
Proof.
  intros [H|(rows & e & -> & _)]%reachable_cases Ha; [done|]. by destruct (garbage_append rows v) as [e' He']; rewrite He' in Ha.
Qed.

Lemma journal_row rows row : journal rows → row ∈ rows → normal row ∧ uniq (Obj (core row)) = true.
Proof.
  induction 1 as [|rows e Hj IH Hn Hu _ _]; [by intros H%not_elem_of_nil|]. intros [Hin| ->%list_elem_of_singleton]%elem_of_app; [by apply IH|].
  destruct (linked_row rows e Hn) as ([Hn' _ _ _] & -> & _). split; [done|]. by apply uniq_core.
Qed.

Lemma normal_event_id e : normal e → ∃ s, Val.get "event_id" e = Str s.
Proof. intros [checked extras Hb _ _]. destruct (has_event_id _ (built_has _ Hb)) as (s & Hs). exists s. unfold Val.get. by rewrite dget_app, Hs. Qed.

(** An envelope with the identifier of a row, after it was appended. *)
Lemma append_again rows row v e : journal rows → validate_observation v = Ok e →
  List.find (λ prior, Val.eq (Val.get "event_id" prior) (Val.get "event_id" e)) rows = Some row →
  append (lines_of rows) v = if Val.eq (Obj (core row)) (Obj (core e)) then Ok (row, lines_of rows) else Err (AttemptJournalError "event_id already exists with a different envelope").
Proof. intros Hj Hv Hf. unfold append. rewrite Hv. cbn [rbind]. rewrite (journal_replays _ Hj). cbn [rbind]. by rewrite Hf. Qed.

(** The journal that a successful [append] leaves, and where its row is in it. *)
Lemma append_result rows v row ls : journal rows → uniq v = true → append (lines_of rows) v = Ok (row, ls) → unbroken row →
  ∃ rows' e, ls = lines_of rows' ∧ journal rows' ∧ validate_observation v = Ok e ∧ normal row ∧ Val.get "event_id" row = Val.get "event_id" e ∧
    Val.eq (Obj (core row)) (Obj (core e)) = true ∧ Val.eq (Obj (core row)) (Obj (core row)) = true ∧
    List.find (λ prior, Val.eq (Val.get "event_id" prior) (Val.get "event_id" e)) rows' = Some row.
Proof.
  intros Hj Hv Ha Hu. destruct (append_cases _ _ _ _ Hj Ha) as (e & He & Hcase). pose proof (validate_normal _ _ He) as Hn. pose proof (validate_uniq _ _ He Hv) as Hue.
  destruct (normal_event_id _ Hn) as (s & Hs). destruct Hcase as [(-> & Hc & Hf)|(-> & -> & Hid)].
  - exists rows, e. apply List.find_some in Hf as Hf'. destruct Hf' as [Hin%list_elem_of_In Hid]. destruct (journal_row _ _ Hj Hin) as [Hnr Hur].
    destruct (normal_event_id _ Hnr) as (t & Ht). rewrite Hs, Ht in Hid |- *. cbn in Hid. apply String.eqb_eq in Hid as ->. rewrite Hs in Hf.
    repeat (split; [done|]). split; [by apply uniq_refl|done].
  - exists (rows ++ [linked rows e]), e. destruct (linked_row rows e Hn) as ([Hn' _ _ _] & Hcore & Hev & _).
    assert (Val.eq (Obj (core e)) (Obj (core e)) = true) as Hrefl by by apply uniq_refl, uniq_core.
    split; [by apply lines_snoc|]. split; [by apply journal_snoc|]. split; [done|]. split; [done|]. split; [done|]. rewrite Hcore. split; [done|]. split; [done|].
    apply Listfind_last; [done|]. rewrite Hev, Hs. apply String.eqb_refl.
Qed.

(** ** Export and import *)

Lemma import_snoc events v : ∀ ls, import_events ls (events ++ [v]) =
  match import_events ls events with
  | (ls', Ok rows) => match append ls' v with Ok (row, ls'') => (ls'', Ok (rows ++ [row])) | Err e => (ls', Err e) end
  | (ls', Err e) => (ls', Err e)
  end.
Proof.
  induction events as [|w events IH]; intros ls; cbn [app import_events]; [destruct (append ls v) as [[row ls']|]; done|].
  destruct (append ls w) as [[row ls']|]; [|done]. rewrite IH. destruct (import_events ls' events) as [ls'' [rows|]]; cbn; [|done]. destruct (append ls'' v) as [[row' ls3]|]; done.
Qed.

Lemma journal_imports rows : journal rows → import_events [] (Obj <$> rows) = (lines_of rows, Ok rows).
Proof.
  induction 1 as [|rows e Hj IH Hn _ Hu Hid]; [done|]. rewrite fmap_app. change (Obj <$> [linked rows e]) with [Obj (linked rows e)]. rewrite import_snoc, IH.
  destruct (linked_row rows e Hn) as ([Hn' _ _ _] & _ & Hev & Hagain). rewrite append_new; [|done|done|intros prior Hp; rewrite Hev; by apply Hid].
  rewrite Hagain. by rewrite lines_snoc.
Qed.

(** * Properties *)

(** An append is idempotent by identifier: after it succeeded, the same
    envelope, and also the row it became, gives that row and changes nothing,
    and an envelope with its identifier and another core is refused. *)
Theorem append_idempotent ls v row ls' : reachable ls → uniq v = true → append ls v = Ok (row, ls') → unbroken row →
  append ls' v = Ok (row, ls') ∧ append ls' (Obj row) = Ok (row, ls') ∧
  ∀ v' e', validate_observation v' = Ok e' → Val.get "event_id" e' = Val.get "event_id" row → Val.eq (Obj (core row)) (Obj (core e')) = false →
    append ls' v' = Err (AttemptJournalError "event_id already exists with a different envelope").
Proof.
  intros Hr Hv Ha Hu. destruct (reachable_journal _ _ _ Hr Ha) as (rows & -> & Hj). destruct (append_result _ _ _ _ Hj Hv Ha Hu) as (rows' & e & -> & Hj' & He & Hn & Hid & Hc & Hrefl & Hf).
  split; [by rewrite (append_again _ _ _ _ Hj' He Hf), Hc|]. rewrite <- Hid in Hf. split.
  - by rewrite (append_again _ _ _ _ Hj' (normal_validate _ Hn) Hf), Hrefl.
  - intros v' e' He' Hid' Hne. rewrite <- Hid' in Hf. by rewrite (append_again _ _ _ _ Hj' He' Hf), Hne.
Qed.

(** C32: A journal that appends made can be replayed, and what it exports is
    imported into an empty journal row by row, with the same numbers, links and
    hashes: the copy has the same lines. There is one exception, and it is the last
    append: when the text of its row holds U+0085, U+2028 or U+2029, which are
    written as they are and at which the reader breaks lines, every later replay
    and every later append raises. (A document is one of Python: the keys of its
    dicts are distinct.) *)
Theorem export_import ls : reachable ls →
  (∃ rows, replay ls = Ok rows ∧ import_events [] (Obj <$> rows) = (ls, Ok rows)) ∨
  (∃ ls0 v row, reachable ls0 ∧ append ls0 v = Ok (row, ls) ∧ breaks (Json.dumps false (Obj row)) = true ∧
     (∃ e, replay ls = Err e) ∧ ∀ v', ∃ e, append ls v' = Err e).
Proof.
  intros [(rows & -> & Hj)|(rows & e & -> & Hj & Hb & v & Ha & Hr)]%reachable_cases.
  - left. exists rows. split; [by apply journal_replays|by apply journal_imports].
  - right. exists (lines_of rows), v, (linked rows e). split; [done|]. split; [done|]. split; [by apply not_false_is_true|].
    split; [apply garbage_replays|apply garbage_append].
Qed.

(** * Examples *)

Lemma append_idempotent_witness : append [] (Obj (demo_event "e1" "broken")) = Ok (demo_row, demo_lines) ∧
  append demo_lines (Obj (demo_event "e1" "broken")) = Ok (demo_row, demo_lines) ∧
  append demo_lines (Obj (demo_event "e1" "mended")) = Err (AttemptJournalError "event_id already exists with a different envelope").
Proof.
  assert (append [] (Obj (demo_event "e1" "broken")) = Ok (demo_row, demo_lines)) as H by (vm_compute; reflexivity).
  assert (uniq (Obj (demo_event "e1" "broken")) = true) as Hv by (vm_compute; reflexivity).
  assert (unbroken demo_row) as Hu by (vm_compute; reflexivity).
  split; [exact H|]. destruct (append_idempotent _ _ _ _ reachable_empty Hv H Hu) as (H1 & _ & _). split; [exact H1|]. vm_compute. reflexivity.
Defined.

Lemma export_import_witness : reachable demo_lines ∧ ∃ rows, replay demo_lines = Ok rows ∧ import_events [] (Obj <$> rows) = (demo_lines, Ok rows).
Proof.
  assert (append [] (Obj (demo_event "e1" "broken")) = Ok (demo_row, demo_lines)) as H by (vm_compute; reflexivity).
  assert (uniq (Obj (demo_event "e1" "broken")) = true) as Hv by (vm_compute; reflexivity).
  assert (reachable demo_lines) as Hr by (exact (reachable_append _ _ _ _ reachable_empty Hv H)).
  split; [exact Hr|]. destruct (export_import _ Hr) as [Hok|(ls0 & v & row & _ & _ & _ & [e He] & _)]; [exact Hok|].
  vm_compute in He. discriminate He.
Defined.

(** A text with a line separator is appended, and the journal is unreadable. *)
Example separator_breaks_journal : ∃ row ls, append [] (Obj (demo_event "e1" separator)) = Ok (row, ls) ∧ replay ls = Err (AttemptJournalError "invalid JSON at journal line 1").
Proof.
  exists (ok_or ([], []) (append [] (Obj (demo_event "e1" separator)))).1, (ok_or ([], []) (append [] (Obj (demo_event "e1" separator)))).2. split; vm_compute; reflexivity.
Qed.

(** An envelope without a sequence is not refused as the other fields are. *)
Example missing_sequence : validate_observation (Obj (ddel "sequence" (demo_event "e1" ""))) = Err (KeyError "sequence") ∧
  validate_observation (Obj (ddel "actor" (demo_event "e1" ""))) = Err (AttemptJournalError "observation missing actor").
Proof. split; vm_compute; reflexivity. Qed.

(** The identifiers of migrated rows are those of every migration. *)
Example second_migration_refused :
  let source gate := [Doc (Obj [("gate", Str gate)])] in
  let ls := (import_legacy [] 1 (source "pass") (Str "run") (Str "item") (Str "a1") (Str "agent")).1 in
  is_ok (replay ls) ∧ (import_legacy ls 1 (source "fail") (Str "run-2") (Str "item") (Str "a1") (Str "agent")).2 =
    Err (AttemptJournalError "event_id already exists with a different envelope").
Proof. split; vm_compute; reflexivity. Qed.
