(* ===== verification/TypedRecovery.v ===== *)
(** Typed retries ([simplicio_loop/typed_recovery.py]): an operation is called
    again only after a transient failure, within a budget of attempts and time;
    every attempt has a larger fence than the ones before; and a journal with a
    hash chain remembers which keys have succeeded. Times are integers of one
    unit, the spread of the delays is rational. *)
From Stdlib Require Import QArith Qminmax Lqa.
From stdpp Require Import pretty.
From S2P Require Import Prelude PyLib PyText Effects.
Import Json.
Local Open Scope Z_scope.
Local Open Scope py_scope.

(** * Definitions *)

Notation object := (list (string * json)).

Definition RECEIPT_SCHEMA : string := "simplicio.recovery-receipt/v1".

Inductive FailureClass : Type := TRANSIENT | PERMANENT | POLICY | SEMANTIC | EFFECT_UNKNOWN.
#[export] Instance FailureClass_eq_dec : EqDecision FailureClass.
Proof. solve_decision. Defined.
Definition class_value (c : FailureClass) : string :=
  match c with TRANSIENT => "transient" | PERMANENT => "permanent" | POLICY => "policy" | SEMANTIC => "semantic" | EFFECT_UNKNOWN => "effect_unknown" end.

(** What an operation raises: [RecoveryFailure], or an exception with the names
    of its type and of the types it extends, and its [code] when it has one. *)
Inductive Exn : Type :=
| RecoveryFailure (failure_class : FailureClass) (code : string)
| Other (name : string) (bases : list string) (code : option string).

Definition is_instance (names : list string) (name : string) (bases : list string) : bool := existsb (λ n, bool_decide (n ∈ names)) (name :: bases).
Definition classify_failure (e : Exn) : FailureClass :=
  match e with
  | RecoveryFailure c _ => c
  | Other n bs _ =>
      if is_instance ["TimeoutError"; "ConnectionError"] n bs then TRANSIENT
      else if is_instance ["PermissionError"; "FileNotFoundError"; "ValueError"; "TypeError"] n bs then PERMANENT
      else EFFECT_UNKNOWN
  end.
Definition code_of (e : Exn) : string := match e with RecoveryFailure _ c => c | Other n _ c => default n c end.

(** What [run] raises: the journal is not valid, or not readable; a row does not
    have the form of a row; a result that [json.dumps] refuses; the operation
    was cancelled, or the process stopped in it; the reconciler raised. *)
Inductive RunExn : Type := InvalidJournal (line : Z) | NotJson | BadRow | NotSerializable | CancelledError | Killed | ReconcilerRaised | ValueError (msg : string).

Record RetryPolicy := mkPolicy {
  max_attempts : Z;
  max_elapsed : Z;
  base_backoff : Z;
  max_backoff : Z;
  jitter_ratio : Q;
}.
(** [__post_init__] *)
Definition make_policy (p : RetryPolicy) : result RunExn RetryPolicy :=
  if (max_attempts p <? 1) || (max_elapsed p <=? 0) then Err (ValueError "retry budget must be positive")
  else if (base_backoff p <? 0) || (max_backoff p <? 0) then Err (ValueError "backoff cannot be negative")
  else if negb (Qle_bool 0 (jitter_ratio p) && Qle_bool (jitter_ratio p) 1) then Err (ValueError "jitter_ratio must be between zero and one")
  else Ok p.

Record AttemptContext := mkContext {
  task_id : string;
  idempotency_key : string;
  attempt_id : string;
  parent_attempt_id : string;
  attempt : Z;
  fence : Z;
}.

(** ** The journal *)

(** [_hash]: the keys are sorted. *)
Definition hash_of (value : object) : string := Sha256.hexdigest (Json.dumps true (Obj value)).

(** A line of the file: nothing, the document of a row, or what is no JSON. *)
Inductive Line : Type := Blank | Row (d : object) | Torn.

(** One round of the loop of [_read]. *)
Definition read_line (state : list object * string) (nl : Z * Line) : result RunExn (list object * string) :=
  let '(rows, previous) := state in
  match nl.2 with
  | Blank => Ok state
  | Torn => Err NotJson
  | Row row =>
      let body := ddel "receipt_hash" row in
      let digest := Val.get "receipt_hash" row in
      if negb (Val.eq (Val.get "schema" row) (Str RECEIPT_SCHEMA)) || negb (Val.eq (Val.get "sequence" row) (Int (Z.of_nat (length rows) + 1)))
         || negb (Val.eq (Val.get_or "previous_hash" row (Str "")) (Str previous)) || negb (Val.eq digest (Str (hash_of body)))
      then Err (InvalidJournal nl.1)
      else Ok (rows ++ [row], Val.str digest)
  end.
Fixpoint numbered (n : Z) (ls : list Line) : list (Z * Line) := match ls with [] => [] | l :: ls' => (n, l) :: numbered (n + 1) ls' end.
Definition read_file (ls : list Line) : result RunExn (list object) :=
  let? state := foldl (λ acc nl, let? state := acc in read_line state nl) (Ok ([], "")) (numbered 1 ls) in
  Ok state.1.

(** [rows[-1]["receipt_hash"] if rows else ""] *)
Definition previous_hash (rows : list object) : result RunExn json :=
  match last rows with Some row => or_raise (dget "receipt_hash" row) BadRow | None => Ok (Str "") end.
Definition row_body (rows : list object) (previous : json) (event : string) (now : Z) (payload : object) : object :=
  [("schema", Str RECEIPT_SCHEMA); ("sequence", Int (Z.of_nat (length rows) + 1)); ("previous_hash", previous); ("event", Str event);
   ("observed_at_ns", Int now)] ++ payload.
Definition sealed (body : object) : object := body ++ [("receipt_hash", Str (hash_of body))].

(** [v in {"succeeded", "reconciled"}] *)
Definition is_success (v : json) : result RunExn bool :=
  match v with Str s => Ok (bool_decide (s ∈ ["succeeded"; "reconciled"])) | List _ | Obj _ => Err BadRow | _ => Ok false end.
(** [completed], on the rows from the last one. *)
Fixpoint find_success (key : string) (rows : list object) : result RunExn (option object) :=
  match rows with
  | [] => Ok None
  | row :: rows' =>
      if Val.eq (Val.get "idempotency_key" row) (Str key) then
        let? event := or_raise (dget "event" row) BadRow in
        let? success := is_success event in
        if success then Ok (Some row) else find_success key rows'
      else find_success key rows'
  end.
Definition completed (key : string) (rows : list object) : result RunExn (option object) := find_success key (reverse rows).

(** [max_fence]; [int] takes numbers and numerals. *)
Fixpoint fences_of (task : string) (rows : list object) : result RunExn (list Z) :=
  match rows with
  | [] => Ok []
  | row :: rows' =>
      if Val.eq (Val.get "task_id" row) (Str task) then
        let? f := or_raise (Val.to_float (Val.get_or "fence" row (Int 0))) BadRow in
        let? fs := fences_of task rows' in Ok (f :: fs)
      else fences_of task rows'
  end.
Definition maximum (l : list Z) : Z := match l with [] => 0 | x :: l' => foldl Z.max x l' end.
Definition max_fence (task : string) (rows : list object) : result RunExn Z := let? fs := fences_of task rows in Ok (maximum fs).

(** ** The controller *)

(** The rows of the controller and the lines of the file; how often the clocks
    were read; the operations that were called and the delays that were slept. *)
Record World := mkWorld {
  rows : list object;
  file : list Line;
  ticks : nat;
  calls : list AttemptContext;
  sleeps : list Q;
}.
#[export] Instance World_eta : Eta World := λ w, mkWorld (rows w) (file w) (ticks w) (calls w) (sleeps w).

(** What an operation does: it returns a value, which may not be JSON; it
    raises; it is cancelled; the process stops. What a reconciler does. *)
Inductive Outcome : Type := Returned (v : option json) | Raised (e : Exn) | Cancelled | Stopped.
Inductive Reconciled : Type := Reported (outcome : object) | ReconcileFailed.

(** What [run] returns; the fields with fixed values are left out. *)
Inductive RunResult : Type :=
| Succeeded (source : string) (attempts : Z) (receipt : object)
| Blocked (attempts : Z) (receipt : object)
| Replan (attempts : Z) (receipt : object)
| Failed (reason_code : string) (attempts : Z) (receipt : object).

(** [_delay], with its [int.from_bytes(..., "big")]. *)
Definition from_bytes (bs : list Z) : Z := foldl (λ acc b, acc * 256 + b) 0 bs.
Definition unit_of (task : string) (n : Z) : Q := Qmake (from_bytes (take 8 (Sha256.sha256 (Sha256.bytes_of_string (task +:+ ":" +:+ pretty n))))) (2 ^ 64 - 1)%positive.
Definition raw_delay (p : RetryPolicy) (n : Z) : Z := Z.min (max_backoff p) (base_backoff p * 2 ^ Z.max 0 (n - 1)).
Definition delay (p : RetryPolicy) (task : string) (n : Z) : Q :=
  let raw := raw_delay p n in
  if (raw =? 0) || Qeq_bool (jitter_ratio p) 0 then inject_Z raw
  else (inject_Z raw * (1 - jitter_ratio p + 2 * jitter_ratio p * unit_of task n))%Q.

(** [v is True] *)
Definition is_true (v : json) : bool := match v with Bool b => b | _ => false end.

Section Controller.
Context (clock time_ns : nat → Z) (p : RetryPolicy).
Notation P := (prog World RunExn).

Definition tick (c : nat → Z) : P Z := λ w, (w <| ticks := S (ticks w) |>, Ok (c (ticks w))).

(** [append]; the row that is returned is a copy. *)
Definition append (event : string) (payload : object) : P object :=
  w ← get_state;
  previous ← of_result (previous_hash (rows w));
  now ← tick time_ns;
  let row := sealed (row_body (rows w) previous event now payload) in
  w ← get_state;
  _ ← put_state (w <| file ::= λ ls, ls ++ [Row row] |> <| rows ::= λ rs, rs ++ [row] |>);
  mret row.

(** The fields that the rows of an attempt share. *)
Definition attempt_fields (c : AttemptContext) : object :=
  [("task_id", Str (task_id c)); ("idempotency_key", Str (idempotency_key c)); ("attempt_id", Str (attempt_id c)); ("attempt", Int (attempt c)); ("fence", Int (fence c))].

Section Run.
Context (task key : string) (operation : AttemptContext → Outcome) (reconcile : option (string → Reconciled)).

Definition call (c : AttemptContext) : P Outcome := w ← get_state; _ ← put_state (w <| calls ::= λ cs, cs ++ [c] |>); mret (operation c).
Definition sleep (d : Q) : P unit := w ← get_state; put_state (w <| sleeps ::= λ ds, ds ++ [d] |>).

(** After a failure with an unknown effect. *)
Definition settle (c : AttemptContext) (failure : object) : P RunResult :=
  match reconcile with
  | None => mret (Blocked (attempt c) failure)
  | Some r =>
      match r key with
      | ReconcileFailed => raise ReconcilerRaised
      | Reported outcome =>
          if is_true (Val.get "committed" outcome) then
            receipt ← append "reconciled" (attempt_fields c ++ [("effect_receipt", Obj outcome)]);
            mret (Succeeded "reconciliation" (attempt c) receipt)
          else mret (Blocked (attempt c) failure)
      end
  end.

Definition attempt_name (n f : Z) : string := task +:+ "-attempt-" +:+ pretty n +:+ "-fence-" +:+ pretty f.

(** The loop; [None] when it ends without an answer, with the attempts made. *)
Fixpoint attempts_loop (left : nat) (n : Z) (parent : string) (f started executed : Z) : P (option RunResult * Z) :=
  match left with
  | O => mret (None, executed)
  | S left' =>
      now ← tick clock;
      let remaining := max_elapsed p - (now - started) in
      if remaining <=? 0 then mret (None, executed)
      else
        let c := mkContext task key (attempt_name n (f + 1)) parent n (f + 1) in
        _ ← append "attempt_started" (attempt_fields c ++ [("parent_attempt_id", Str parent)]);
        outcome ← call c;
        match outcome with
        | Stopped => raise Killed
        | Cancelled => _ ← append "cancelled" (attempt_fields c); raise CancelledError
        | Returned None => raise NotSerializable
        | Returned (Some v) =>
            receipt ← append "succeeded" (attempt_fields c ++ [("result", v)]);
            mret (Some (Succeeded "execution" n receipt), n)
        | Raised e =>
            failure ← append "attempt_failed" (attempt_fields c ++ [("failure_class", Str (class_value (classify_failure e))); ("code", Str (code_of e))]);
            match classify_failure e with
            | EFFECT_UNKNOWN => answer ← settle c failure; mret (Some answer, n)
            | SEMANTIC => mret (Some (Replan n failure), n)
            | PERMANENT | POLICY => mret (Some (Failed (class_value (classify_failure e)) n failure), n)
            | TRANSIENT =>
                if max_attempts p <=? n then mret (None, n)
                else
                  let d := Qmin (delay p task n) (inject_Z (Z.max 0 remaining)) in
                  _ ← (if Qeq_bool d 0 then mret tt else sleep d);
                  attempts_loop left' (n + 1) (attempt_id c) (f + 1) started n
            end
        end
  end.

Definition run : P RunResult :=
  w ← get_state;
  prior ← of_result (completed key (rows w));
  match prior with
  | Some receipt => mret (Succeeded "idempotency_receipt" 0 receipt)
  | None =>
      started ← tick clock;
      w ← get_state;
      f ← of_result (max_fence task (rows w));
      '(answer, executed) ← attempts_loop (Z.to_nat (max_attempts p)) 1 "" f started 0;
      match answer with
      | Some r => mret r
      | None =>
          now ← tick clock;
          receipt ← append "budget_exhausted"
            [("task_id", Str task); ("idempotency_key", Str key); ("attempts", Int executed); ("elapsed_seconds", Float (Z.max 0 (now - started)))];
          mret (Failed "retry_budget_exhausted" executed receipt)
      end
  end.
End Run.

(** A new controller reads the file. *)
Definition reload : P unit := w ← get_state; rs ← of_result (read_file (file w)); put_state (w <| rows := rs |>).
End Controller.

(** * Specification *)

(** What happens: a controller runs an operation, with its own policy and
    clocks; a new controller reads the file. *)
Inductive step (w : World) : World → Prop :=
| step_run clock time_ns p task key operation reconcile r w' : run clock time_ns p task key operation reconcile w = (w', r) → step w w'
| step_reload w' : reload w = (w', Ok tt) → step w w'.
Definition nothing : World := mkWorld [] [] 0 [] [].
Definition reachable (w : World) : Prop := rtc step nothing w.

(** A row that the controller has written. *)
Definition own_row (row : object) : Prop :=
  (∃ e, dget "event" row = Some (Str e)) ∧ (dget "fence" row = None ∨ ∃ n, dget "fence" row = Some (Int n)) ∧ ∃ h, dget "receipt_hash" row = Some (Str h).
Definition fence_row (task : string) (n : Z) (row : object) : Prop := dget "task_id" row = Some (Str task) ∧ dget "fence" row = Some (Int n).

(** The rows that are read from lines, and the last hash. *)
Definition read_state (ls : list Line) : result RunExn (list object * string) :=
  foldl (λ acc nl, let? state := acc in read_line state nl) (Ok ([], "")) (numbered 1 ls).

Definition of_task (task : string) (cs : list AttemptContext) : list AttemptContext := List.filter (λ c, String.eqb (task_id c) task) cs.

Record world_ok (w : World) : Prop := {
  wo_read : ∃ previous, read_state (file w) = Ok (rows w, previous) ∧ previous_hash (rows w) = Ok (Str previous);
  wo_rows : Forall own_row (rows w);
  wo_calls c : c ∈ calls w → ∃ row, row ∈ rows w ∧ fence_row (task_id c) (fence c) row;
  wo_fences task : StronglySorted Z.lt (fence <$> of_task task (calls w));
}.

(** A success of a key is on record. *)
Definition recorded (key : string) (row : object) : Prop :=
  dget "idempotency_key" row = Some (Str key) ∧ ∃ e, dget "event" row = Some (Str e) ∧ e ∈ ["succeeded"; "reconciled"].

Definition transient (operation : AttemptContext → Outcome) (c : AttemptContext) : Prop := ∃ e, operation c = Raised e ∧ classify_failure e = TRANSIENT.

(** What the reconciler says of a key. *)
Definition committed (reconcile : option (string → Reconciled)) (key : string) : Prop :=
  ∃ r outcome, reconcile = Some r ∧ r key = Reported outcome ∧ is_true (Val.get "committed" outcome) = true.

(** The answer that an outcome of the last attempt has. *)
Definition explains (key : string) (reconcile : option (string → Reconciled)) (o : Outcome) (n : Z) (r : result RunExn RunResult) : Prop :=
  match o with
  | Returned (Some v) => ∃ receipt, r = Ok (Succeeded "execution" n receipt) ∧ dget "result" receipt = Some v
  | Returned None => r = Err NotSerializable
  | Cancelled => r = Err CancelledError
  | Stopped => r = Err Killed
  | Raised e =>
      match classify_failure e with
      | TRANSIENT => ∃ receipt, r = Ok (Failed "retry_budget_exhausted" n receipt)
      | PERMANENT | POLICY => ∃ receipt, r = Ok (Failed (class_value (classify_failure e)) n receipt)
      | SEMANTIC => ∃ receipt, r = Ok (Replan n receipt)
      | EFFECT_UNKNOWN =>
          (committed reconcile key ∧ ∃ receipt, r = Ok (Succeeded "reconciliation" n receipt)) ∨
          (¬ committed reconcile key ∧ ((∃ receipt, r = Ok (Blocked n receipt)) ∨ r = Err ReconcilerRaised))
      end
  end.

Definition demo_policy : RetryPolicy := mkPolicy 3 30 1000 1000 (1 # 10).
(** An operation that times out once. *)
Definition demo_operation (c : AttemptContext) : Outcome := if attempt c =? 1 then Raised (Other "TimeoutError" [] None) else Returned (Some (Str "done")).
Definition always (o : Outcome) (c : AttemptContext) : Outcome := o.
Definition demo_run (operation : AttemptContext → Outcome) (w : World) : World * result RunExn RunResult :=
  run (λ _, 0) (λ _, 0) demo_policy "task" "key" operation None w.
Definition demo_done : World := (demo_run demo_operation nothing).1.
Definition demo_receipt : object := default [] (last (rows demo_done)).

(** * Lemmas *)

Lemma numbered_snoc n ls l : numbered n (ls ++ [l]) = numbered n ls ++ [(n + Z.of_nat (length ls), l)].
Proof.
  revert n. induction ls as [|m ls IH]; intros n; cbn [numbered app length]; [by rewrite Z.add_0_r|]. rewrite IH. do 4 f_equal. lia.
Qed.

Lemma read_state_snoc ls l state : read_state ls = Ok state → read_state (ls ++ [l]) = read_line state (1 + Z.of_nat (length ls), l).
Proof. unfold read_state. intros H. by rewrite numbered_snoc, foldl_app, H. Qed.

Lemma read_file_state ls : read_file ls = let? s := read_state ls in Ok s.1.
Proof. done. Qed.

(** A payload of the controller. *)
Definition payload_ok (payload : object) : Prop :=
  "receipt_hash" ∉ payload.*1 ∧ (dget "fence" payload = None ∨ ∃ n, dget "fence" payload = Some (Int n)).

Definition header : list string := ["schema"; "sequence"; "previous_hash"; "event"; "observed_at_ns"].

Lemma sealed_get rs previous event now payload k : payload_ok payload → k ∉ header → k ≠ "receipt_hash" →
  dget k (sealed (row_body rs previous event now payload)) = dget k payload.
Proof.
  intros [Hp _] Hk Hr. unfold sealed. rewrite dget_app.
  assert (dget k (row_body rs previous event now payload) = dget k payload) as ->.
  { unfold row_body. unfold header in Hk. cbn [app]. rewrite !dget_cons. repeat rewrite decide_False by set_solver. done. }
  destruct (dget k payload); [done|]. rewrite dget_cons, decide_False by congruence. done.
Qed.

Lemma sealed_event rs previous event now payload : dget "event" (sealed (row_body rs previous event now payload)) = Some (Str event).
Proof. done. Qed.

Lemma sealed_hash rs previous event now payload : payload_ok payload →
  let body := row_body rs previous event now payload in
  dget "receipt_hash" (sealed body) = Some (Str (hash_of body)) ∧ ddel "receipt_hash" (sealed body) = body.
Proof.
  intros [Hp _] body. assert ("receipt_hash" ∉ body.*1) as Hb.
  { unfold body, row_body. rewrite fmap_app, elem_of_app. intros [H|H]; [|done]. revert H. by_compute. }
  unfold sealed. rewrite dget_snoc, decide_True by done. split; [done|]. by apply ddel_snoc.
Qed.

Lemma sealed_reads rs previous event now payload n : payload_ok payload → previous_hash rs = Ok (Str previous) →
  let row := sealed (row_body rs (Str previous) event now payload) in
  read_line (rs, previous) (n, Row row) = Ok (rs ++ [row], hash_of (row_body rs (Str previous) event now payload)).
Proof.
  intros Hp Hprev row. destruct (sealed_hash rs (Str previous) event now payload Hp) as [Hd Hb].
  assert (Val.get "receipt_hash" row = Str (hash_of (row_body rs (Str previous) event now payload))) as Hg by (unfold Val.get, row; by rewrite Hd).
  assert (Val.get "schema" row = Str RECEIPT_SCHEMA) as H1 by done. assert (Val.get "sequence" row = Int (Z.of_nat (length rs) + 1)) as H2 by done.
  assert (Val.get_or "previous_hash" row (Str "") = Str previous) as H3 by done. change (ddel "receipt_hash" row = row_body rs (Str previous) event now payload) in Hb.
  clearbody row. unfold read_line. cbn [fst snd]. rewrite Hg, Hb, H1, H2, H3. set (h := hash_of _). clearbody h.
  cbn [Val.eq Val.number]. by rewrite !String.eqb_refl, Z.eqb_refl.
Qed.

Lemma sealed_own rs previous event now payload : payload_ok payload → own_row (sealed (row_body rs previous event now payload)).
Proof.
  intros Hp. split; [|split].
  - exists event. apply sealed_event.
  - rewrite sealed_get by (done || by_compute). apply Hp.
  - destruct (sealed_hash rs previous event now payload Hp) as [H _]. by eexists.
Qed.

Lemma previous_hash_sealed rs0 rs previous event now payload : payload_ok payload →
  previous_hash (rs0 ++ [sealed (row_body rs previous event now payload)]) = Ok (Str (hash_of (row_body rs previous event now payload))).
Proof. intros Hp. unfold previous_hash. rewrite last_snoc. destruct (sealed_hash rs previous event now payload Hp) as [-> _]. done. Qed.

(** What [append] does to a world. *)
Record appended (event : string) (payload : object) (w : World) (row : object) (w' : World) : Prop := {
  ap_ok : world_ok w';
  ap_rows : rows w' = rows w ++ [row];
  ap_calls : calls w' = calls w;
  ap_sleeps : sleeps w' = sleeps w;
  ap_event : dget "event" row = Some (Str event);
  ap_get k : k ∉ header → k ≠ "receipt_hash" → dget k row = dget k payload;
}.

Lemma world_ok_more w ls rs previous t : world_ok w → read_state ls = Ok (rs, previous) → previous_hash rs = Ok (Str previous) → rows w `prefix_of` rs →
  Forall own_row rs → world_ok (mkWorld rs ls t (calls w) (sleeps w)).
Proof.
  intros [_ _ Hc Hf] Hread Hprev [k ->] Hrs. constructor; cbn; [by eexists|done| |done].
  intros c (row & Hin & Hrow)%Hc. exists row. split; [|done]. apply elem_of_app. by left.
Qed.

Lemma append_spec time_ns event payload w : world_ok w → payload_ok payload →
  ∃ w' row, append time_ns event payload w = (w', Ok row) ∧ appended event payload w row w'.
Proof.
  intros Hw Hp. destruct (wo_read w Hw) as (previous & Hread & Hprev). set (row := sealed (row_body (rows w) (Str previous) event (time_ns (ticks w)) payload)).
  exists (mkWorld (rows w ++ [row]) (file w ++ [Row row]) (S (ticks w)) (calls w) (sleeps w)), row. split.
  - unfold append. erewrite bind_ok by reflexivity. rewrite Hprev. erewrite bind_ok by reflexivity. erewrite bind_ok by reflexivity. reflexivity.
  - pose proof (sealed_own (rows w) (Str previous) event (time_ns (ticks w)) payload Hp) as Hown.
    constructor; cbn; [|done|done|done|done|intros k; by apply sealed_get].
    eapply world_ok_more; [done| | |by eexists|].
    + rewrite (read_state_snoc _ _ _ Hread). by apply sealed_reads.
    + exact (previous_hash_sealed _ _ _ _ _ _ Hp).
    + apply Forall_app. split; [apply (wo_rows w Hw)|by constructor].
Qed.

Lemma wp_append time_ns event payload w (Q : result RunExn object → World → Prop) : world_ok w → payload_ok payload →
  (∀ w' row, appended event payload w row w' → Q (Ok row) w') → wp (append time_ns event payload) Q w.
Proof. intros Hw Hp HQ. destruct (append_spec time_ns event payload w Hw Hp) as (w' & row & E & Ha). unfold wp. rewrite E. by apply HQ. Qed.

Lemma wp_tick c w (Q : result RunExn Z → World → Prop) : wp (tick c) Q w ↔ Q (Ok (c (ticks w))) (w <| ticks := S (ticks w) |>).
Proof. done. Qed.

(** The parts of a world that the operations of the program keep. *)
Lemma world_ok_ticks w t : world_ok w → world_ok (w <| ticks := t |>).
Proof. by intros []. Qed.
Lemma world_ok_sleeps w f : world_ok w → world_ok (w <| sleeps ::= f |>).
Proof. by intros []. Qed.

Lemma attempt_payload_ok c extra : "receipt_hash" ∉ extra.*1 → payload_ok (attempt_fields c ++ extra).
Proof. intros H. split; [rewrite fmap_app, elem_of_app; intros [Hk|Hk]; [|done]; revert Hk; by_compute|]. right. by exists (fence c). Qed.

Lemma attempt_payload_get c extra : dget "task_id" (attempt_fields c ++ extra) = Some (Str (task_id c)) ∧ dget "fence" (attempt_fields c ++ extra) = Some (Int (fence c)) ∧
  dget "idempotency_key" (attempt_fields c ++ extra) = Some (Str (idempotency_key c)).
Proof. done. Qed.

Lemma world_ok_call w c : world_ok w → (∃ row, row ∈ rows w ∧ fence_row (task_id c) (fence c) row) →
  (∀ c', c' ∈ calls w → task_id c' = task_id c → fence c' < fence c) → world_ok (w <| calls ::= λ cs, cs ++ [c] |>).
Proof.
  intros [Hr Ho Hc Hf] Hrow Hlt. constructor; cbn; [done|done| |].
  - intros c' [Hin| ->%list_elem_of_singleton]%elem_of_app; [by apply Hc|done].
  - intros task. unfold of_task. rewrite List.filter_app. cbn [List.filter]. destruct (String.eqb_spec (task_id c) task) as [Ht|]; [|rewrite app_nil_r; apply Hf].
    rewrite fmap_app. cbn. apply StronglySorted_app. split; [|split; [apply Hf|by repeat constructor]].
    intros x y (c' & -> & Hin)%list_elem_of_fmap ->%list_elem_of_singleton. apply elem_of_Listfilter in Hin as [Hin Heq]. apply String.eqb_eq in Heq. apply Hlt; congruence.
Qed.

Section Loop.
Context (clock time_ns : nat → Z) (p : RetryPolicy) (task key : string) (operation : AttemptContext → Outcome) (reconcile : option (string → Reconciled)).

(** The fences of a task that are on record. *)
Definition fences_below (f : Z) (rs : list object) : Prop := ∀ row m, row ∈ rs → fence_row task m row → m <= f.

(** What a part of the loop does: the attempts [cs], numbered from [n], of
    which all but the last fail transiently, and an answer the last one explains. *)
Definition answer_ok (cs : list AttemptContext) (n : Z) (r : result RunExn (option RunResult * Z)) (w' : World) : Prop :=
  match r with
  | Ok (None, k) => Forall (transient operation) cs ∧ k = n - 1 + Z.of_nat (length cs)
  | Ok (Some a, _) =>
      ∃ cs0 c, cs = cs0 ++ [c] ∧ Forall (transient operation) cs0 ∧ explains key reconcile (operation c) (attempt c) (Ok a) ∧
        ∀ s m receipt, a = Succeeded s m receipt → Exists (recorded key) (rows w')
  | Err x => ∃ cs0 c, cs = cs0 ++ [c] ∧ Forall (transient operation) cs0 ∧ explains key reconcile (operation c) (attempt c) (Err x)
  end.
Record loop_post (left : nat) (n f : Z) (w : World) (r : result RunExn (option RunResult * Z)) (w' : World) : Prop := {
  lp_ok : world_ok w';
  lp_rows : rows w `prefix_of` rows w';
  lp_calls : ∃ cs, calls w' = calls w ++ cs ∧ (length cs <= left)%nat ∧
    (∀ i c, cs !! i = Some c → attempt c = n + Z.of_nat i ∧ fence c = f + 1 + Z.of_nat i ∧ task_id c = task ∧ idempotency_key c = key) ∧ answer_ok cs n r w';
}.

Lemma appended_recorded event c extra w row w' : appended event (attempt_fields c ++ extra) w row w' → idempotency_key c = key →
  event ∈ ["succeeded"; "reconciled"] → Exists (recorded key) (rows w').
Proof.
  intros Ha Hk He. rewrite (ap_rows _ _ _ _ _ Ha), Exists_app. right. constructor. split.
  - rewrite (ap_get _ _ _ _ _ Ha) by by_compute. by rewrite <- Hk.
  - exists event. split; [apply (ap_event _ _ _ _ _ Ha)|done].
Qed.

Lemma settle_spec c failure w : world_ok w → idempotency_key c = key → 
  wp (settle time_ns key reconcile c failure) (λ r w', world_ok w' ∧ rows w `prefix_of` rows w' ∧ calls w' = calls w ∧
    (committed reconcile key ∧ (∃ receipt, r = Ok (Succeeded "reconciliation" (attempt c) receipt)) ∧ Exists (recorded key) (rows w') ∨
     ¬ committed reconcile key ∧ ((∃ receipt, r = Ok (Blocked (attempt c) receipt)) ∨ r = Err ReconcilerRaised))) w.
Proof.
  intros Hw Hk. unfold settle, committed. destruct reconcile as [r|].
  2:{ apply wp_ret. split; [done|]. split; [done|]. split; [done|]. right. split; [by intros (? & ? & ? & _)|]. left. by eexists. }
  destruct (r key) as [outcome|] eqn:Er.
  2:{ apply wp_raise. split; [done|]. split; [done|]. split; [done|]. right. split; [|by right]. intros (? & ? & [= <-] & H & _). by rewrite Er in H. }
  destruct (is_true (Val.get "committed" outcome)) eqn:Ec.
  - rewrite wp_bind. apply wp_append; [done|apply attempt_payload_ok; by_compute|]. intros w' receipt Ha. apply wp_ret. pose proof (ap_rows _ _ _ _ _ Ha) as Hr.
    split; [apply (ap_ok _ _ _ _ _ Ha)|]. split; [by eexists|]. split; [apply (ap_calls _ _ _ _ _ Ha)|]. left. split; [by exists r, outcome|]. split; [by eexists|].
    eapply appended_recorded; [exact Ha|done|by_compute].
  - apply wp_ret. split; [done|]. split; [done|]. split; [done|]. right. split; [|left; by eexists]. intros (? & ? & [= <-] & H & Ht). rewrite Er in H. injection H as <-. congruence.
Qed.

(** The state in which an attempt's outcome is handled. *)
Record attempted (f : Z) (w : World) (c : AttemptContext) (w1 : World) : Prop := {
  at_ok : world_ok w1;
  at_rows : rows w `prefix_of` rows w1;
  at_calls : calls w1 = calls w ++ [c];
  at_fences : fences_below (f + 1) (rows w1);
}.

Lemma wp_attempt {A} n parent f w (k : Outcome → prog World RunExn A) Q :
  let c := mkContext task key (attempt_name task n (f + 1)) parent n (f + 1) in
  world_ok w → fences_below f (rows w) → (∀ w1, attempted f w c w1 → wp (k (operation c)) Q w1) →
  wp (append time_ns "attempt_started" (attempt_fields c ++ [("parent_attempt_id", Str parent)]) ≫= λ _, call operation c ≫= k) Q w.
Proof.
  intros c Hw Hf HQ. rewrite wp_bind. apply wp_append; [done|apply attempt_payload_ok; by_compute|]. intros w1 row Ha. pose proof (ap_rows _ _ _ _ _ Ha) as Hr. pose proof (ap_calls _ _ _ _ _ Ha) as Hc.
  assert (fence_row task (f + 1) row) as Hrow by (split; rewrite (ap_get _ _ _ _ _ Ha) by by_compute; done).
  change (wp (k (operation c)) Q (w1 <| calls ::= λ cs, cs ++ [c] |>)). apply HQ. constructor.
  - apply world_ok_call; [apply (ap_ok _ _ _ _ _ Ha)| |].
    + exists row. split; [rewrite Hr; apply elem_of_app; right; by left|done].
    + rewrite Hc. intros c' Hin Ht. destruct (wo_calls w Hw c' Hin) as (row' & Hin' & Hrow'). rewrite Ht in Hrow'. pose proof (Hf row' _ Hin' Hrow') as Hle. cbn. lia.
  - cbn. rewrite Hr. by eexists.
  - cbn. by rewrite Hc.
  - cbn. rewrite Hr. intros row' m [Hin| ->%list_elem_of_singleton]%elem_of_app Hrow'; [pose proof (Hf row' m Hin Hrow'); lia|].
    destruct Hrow as [_ Hfr], Hrow' as [_ Hfr']. assert (f + 1 = m) by congruence. lia.
Qed.

(** An attempt that ends the loop. *)
Lemma loop_post_last left n f w c w1 r w2 : attempted f w c w1 → attempt c = n → fence c = f + 1 → task_id c = task → idempotency_key c = key →
  world_ok w2 → rows w1 `prefix_of` rows w2 → calls w2 = calls w1 → answer_ok [c] n r w2 → loop_post (S left) n f w r w2.
Proof.
  intros Ha Hn Hf Ht Hk Hw2 Hr2 Hc2 Hans. constructor; [done|etransitivity; [apply (at_rows _ _ _ _ Ha)|done]|]. exists [c]. split; [by rewrite Hc2, (at_calls _ _ _ _ Ha)|].
  split; [cbn; lia|]. split; [|done]. intros [|i] c'; [intros [= <-]; cbn; rewrite Z.add_0_r, Z.add_0_r; done|done].
Qed.

(** An attempt after which the loop goes on. *)
Lemma loop_post_more left n f w c w1 w2 r w' : attempted f w c w1 → attempt c = n → fence c = f + 1 → task_id c = task → idempotency_key c = key →
  transient operation c → rows w1 `prefix_of` rows w2 → calls w2 = calls w1 →
  loop_post left (n + 1) (f + 1) w2 r w' → loop_post (S left) n f w r w'.
Proof.
  intros Ha Hn Hf Ht Hk Htr Hr2 Hc2 [Hok Hrows (cs & Hcs & Hlen & Hnum & Hans)]. constructor; [done| |].
  - etransitivity; [apply (at_rows _ _ _ _ Ha)|]. by etransitivity.
  - exists (c :: cs). split; [rewrite Hcs, Hc2, (at_calls _ _ _ _ Ha), <- app_assoc; done|]. split; [cbn; lia|]. split.
    + intros [|i] c'; cbn; [intros [= <-]; rewrite !Z.add_0_r; done|]. intros H%Hnum. destruct H as (H1 & H2 & H3 & H4). repeat split; [lia|lia|done|done].
    + destruct r as [[[a|] k]|x]; cbn in Hans |- *.
      * destruct Hans as (cs0 & c0 & -> & Htr0 & Hex). exists (c :: cs0), c0. split; [done|]. split; [by constructor|done].
      * destruct Hans as [Htr0 ->]. split; [by constructor|]. lia.
      * destruct Hans as (cs0 & c0 & -> & Htr0 & Hex). exists (c :: cs0), c0. split; [done|]. split; [by constructor|done].
Qed.

(** A row of a known kind is written at the end of an attempt. *)
Lemma wp_last_row {A} f w c w1 event extra (k : object → prog World RunExn A) Q : attempted f w c w1 →
  "receipt_hash" ∉ extra.*1 → (∀ w2 row, appended event (attempt_fields c ++ extra) w1 row w2 → wp (k row) Q w2) →
  wp (append time_ns event (attempt_fields c ++ extra) ≫= k) Q w1.
Proof. intros Ha He HQ. rewrite wp_bind. apply wp_append; [apply (at_ok _ _ _ _ Ha)|by apply attempt_payload_ok|done]. Qed.

Lemma appended_prefix event payload w row w' : appended event payload w row w' → world_ok w' ∧ rows w `prefix_of` rows w' ∧ calls w' = calls w.
Proof. intros []. split; [done|]. split; [|done]. rewrite ap_rows0. by eexists. Qed.

Lemma loop_spec left : ∀ n parent f started w, world_ok w → fences_below f (rows w) →
  wp (attempts_loop clock time_ns p task key operation reconcile left n parent f started (n - 1)) (loop_post left n f w) w.
Proof.
  induction left as [|left IH]; intros n parent f started w Hw Hf.
  { apply wp_ret. constructor; [done|done|]. exists []. rewrite app_nil_r. split; [done|]. split; [done|]. split; [done|]. cbn. split; [done|lia]. }
  cbn [attempts_loop]. rewrite wp_bind, wp_tick. set (w0 := w <| ticks := S (ticks w) |>). assert (world_ok w0) as Hw0 by by apply world_ok_ticks.
  set (remaining := max_elapsed p - _). clearbody remaining.
  destruct (remaining <=? 0).
  { apply wp_ret. constructor; [done|done|]. exists []. rewrite app_nil_r. split; [done|]. split; [cbn; lia|]. split; [done|]. cbn. split; [done|lia]. }
  apply wp_attempt; [done|done|]. intros w1 Ha. set (c := mkContext task key _ _ _ _) in *.
  assert (∀ r w', loop_post (S left) n f w0 r w' → loop_post (S left) n f w r w') as Hback by (by intros r w' []).
  destruct (operation c) as [[v|]|e| |] eqn:Eo.
  - eapply wp_last_row; [exact Ha|by_compute|]. intros w2 row Happ. apply wp_ret, Hback. destruct (appended_prefix _ _ _ _ _ Happ) as (Hok2 & Hr2 & Hc2).
    eapply loop_post_last; try done. exists [], c. split; [done|]. split; [done|]. split.
    + rewrite Eo. exists row. split; [done|]. rewrite (ap_get _ _ _ _ _ Happ) by by_compute. done.
    + intros s m receipt [= <- <- <-]. eapply appended_recorded; [exact Happ|done|by_compute].
  - apply wp_raise, Hback. eapply loop_post_last; try done; [apply (at_ok _ _ _ _ Ha)|]. exists [], c. rewrite Eo. done.
  - eapply wp_last_row; [exact Ha|by_compute|]. intros w2 row Happ. destruct (appended_prefix _ _ _ _ _ Happ) as (Hok2 & Hr2 & Hc2).
    destruct (classify_failure e) eqn:Ee.
    + destruct (max_attempts p <=? n) eqn:En.
      * apply wp_ret, Hback. eapply loop_post_last; try done. cbn. split; [|lia]. constructor; [|done]. by exists e.
      * apply Z.leb_gt in En. rewrite wp_bind. set (d := Qmin _ _). clearbody d.
        cut (∀ ds, wp (attempts_loop clock time_ns p task key operation reconcile left (n + 1) (attempt_id c) (f + 1) started n) (loop_post (S left) n f w) (w2 <| sleeps := ds |>)).
        { intros Hcut. destruct (Qeq_bool d 0); [specialize (Hcut (sleeps w2)); by destruct w2|]. apply Hcut. }
        intros ds. assert (world_ok (w2 <| sleeps := ds |>)) as Hw2 by (apply (world_ok_sleeps _ (λ _, ds)), Hok2).
        assert (fences_below (f + 1) (rows (w2 <| sleeps := ds |>))) as Hf2.
        { cbn. rewrite (ap_rows _ _ _ _ _ Happ). intros row' m [Hin| ->%list_elem_of_singleton]%elem_of_app Hrow'; [by apply (at_fences _ _ _ _ Ha row')|].
          destruct Hrow' as [_ Hm]. rewrite (ap_get _ _ _ _ _ Happ) in Hm by by_compute. injection Hm as <-. done. }
        pose proof (IH (n + 1) (attempt_id c) (f + 1) started (w2 <| sleeps := ds |>) Hw2 Hf2) as HIH. rewrite Z.add_simpl_r in HIH.
        eapply wp_mono; [exact HIH|]. intros r w' Hpost. apply Hback. assert (rows w1 `prefix_of` rows (w2 <| sleeps := ds |>)) as Hr2' by exact Hr2. assert (calls (w2 <| sleeps := ds |>) = calls w1) as Hc2' by exact Hc2.
        assert (transient operation c) as Htr by by exists e. set (w3 := w2 <| sleeps := ds |>) in *. by apply (loop_post_more left n f w0 c w1 w3).
    + apply wp_ret, Hback. eapply loop_post_last; try done. exists [], c. split; [done|]. split; [done|]. split; [|done]. rewrite Eo. cbn. rewrite Ee. by eexists.
    + apply wp_ret, Hback. eapply loop_post_last; try done. exists [], c. split; [done|]. split; [done|]. split; [|done]. rewrite Eo. cbn. rewrite Ee. by eexists.
    + apply wp_ret, Hback. eapply loop_post_last; try done. exists [], c. split; [done|]. split; [done|]. split; [|done]. rewrite Eo. cbn. rewrite Ee. by eexists.
    + rewrite wp_bind. eapply wp_mono; [apply (settle_spec c row w2); done|]. intros r w3 (Hok3 & Hr3 & Hc3 & Hres).
      assert (rows w1 `prefix_of` rows w3) as Hr13 by by etransitivity. assert (calls w3 = calls w1) as Hc13 by congruence.
      destruct Hres as [(Hcom & (receipt & ->) & Hrec)|(Hcom & [(receipt & ->)| ->])].
      * apply wp_ret, Hback. eapply loop_post_last; try done. exists [], c. split; [done|]. split; [done|]. split; [rewrite Eo; cbn; rewrite Ee; left; split; [done|by eexists]|done].
      * apply wp_ret, Hback. eapply loop_post_last; try done. exists [], c. split; [done|]. split; [done|]. split; [rewrite Eo; cbn; rewrite Ee; right; split; [done|left; by eexists]|done].
      * apply Hback. eapply loop_post_last; try done. exists [], c. split; [done|]. split; [done|]. rewrite Eo. cbn. rewrite Ee. right. split; [done|by right].
  - rewrite <- (app_nil_r (attempt_fields c)). eapply wp_last_row; [exact Ha|by_compute|]. intros w2 row Happ. destruct (appended_prefix _ _ _ _ _ Happ) as (Hok2 & Hr2 & Hc2).
    apply wp_raise, Hback. eapply loop_post_last; try done. exists [], c. rewrite Eo. done.
  - apply wp_raise, Hback. eapply loop_post_last; try done; [apply (at_ok _ _ _ _ Ha)|]. exists [], c. rewrite Eo. done.
Qed.
End Loop.

(** ** A whole run *)

Lemma get_Str k (d : object) s : Val.eq (Val.get k d) (Str s) = true ↔ dget k d = Some (Str s).
Proof. rewrite Val.eq_Str_iff. unfold Val.get. destruct (dget k d) as [v|]; cbn; naive_solver. Qed.

Lemma find_success_spec key rs : Forall own_row rs →
  match find_success key rs with
  | Ok (Some row) => row ∈ rs ∧ recorded key row
  | Ok None => ¬ Exists (recorded key) rs
  | Err _ => False
  end.
Proof.
  induction 1 as [|row rs Hrow _ IH]; [by intros H%Exists_nil|]. cbn [find_success].
  assert (¬ recorded key row → match find_success key rs with Ok (Some r) => r ∈ row :: rs ∧ recorded key r | Ok None => ¬ Exists (recorded key) (row :: rs) | Err _ => False end) as Hno.
  { intros Hn. destruct (find_success key rs) as [[r|]|]; [split; [right|]; apply IH|rewrite Exists_cons; naive_solver|done]. }
  destruct (Val.eq (Val.get "idempotency_key" row) (Str key)) eqn:Ek.
  2:{ apply Hno. intros [Hk _]. apply get_Str in Hk. congruence. }
  destruct Hrow as ((e & He) & _). rewrite He. cbn [or_raise rbind is_success]. case_bool_decide as Hs.
  - split; [by left|]. split; [by apply get_Str|by exists e].
  - apply Hno. intros (_ & e' & He' & Hin). rewrite He in He'. injection He' as <-. done.
Qed.

Lemma completed_spec key rs : Forall own_row rs →
  match completed key rs with
  | Ok (Some row) => row ∈ rs ∧ recorded key row
  | Ok None => ¬ Exists (recorded key) rs
  | Err _ => False
  end.
Proof.
  intros H. unfold completed. assert (Forall own_row (reverse rs)) as Hr by by apply Forall_reverse. pose proof (find_success_spec key _ Hr) as Hf.
  destruct (find_success key (reverse rs)) as [[row|]|]; [by rewrite elem_of_reverse in Hf| |done].
  rewrite !Exists_exists in *. setoid_rewrite elem_of_reverse in Hf. done.
Qed.

Lemma maximum_ge l x : x ∈ l → x <= maximum l.
Proof.
  assert (∀ l b, b <= foldl Z.max b l ∧ ∀ y, y ∈ l → y <= foldl Z.max b l) as H.
  { clear. induction l as [|z l IH]; intros b; cbn; [split; [lia|]; by intros y Hy%not_elem_of_nil|]. destruct (IH (Z.max b z)) as [H1 H2]. split; [lia|].
    intros y [->|Hy]%elem_of_cons; [lia|by apply H2]. }
  destruct l as [|b l]; [by intros Hx%not_elem_of_nil|]. destruct (H l b) as [H1 H2]. cbn. intros [->|Hx]%elem_of_cons; [done|by apply H2].
Qed.

Lemma fences_of_spec task rs : Forall own_row rs → ∃ fs, fences_of task rs = Ok fs ∧ ∀ row m, row ∈ rs → fence_row task m row → m ∈ fs.
Proof.
  induction 1 as [|row rs Hrow _ (fs & Hfs & Hin)]; [exists []; split; [done|]; by intros row m Hr%not_elem_of_nil|]. cbn [fences_of]. rewrite Hfs.
  destruct (Val.eq (Val.get "task_id" row) (Str task)) eqn:Et.
  - destruct Hrow as (_ & Hf & _). unfold Val.get_or. destruct Hf as [Hf|(n & Hf)]; rewrite Hf; cbn [Val.to_float or_raise rbind].
    + exists (0 :: fs). split; [done|]. intros row' m [->|Hr]%elem_of_cons Hm; [destruct Hm; congruence|right; by eapply Hin].
    + exists (n :: fs). split; [done|]. intros row' m [->|Hr]%elem_of_cons Hm; [destruct Hm as [_ Hm]; rewrite Hf in Hm; injection Hm as <-; by left|right; by eapply Hin].
  - exists fs. split; [done|]. intros row' m [->|Hr]%elem_of_cons Hm; [|by eapply Hin]. destruct Hm as [Hm _]. apply get_Str in Hm. congruence.
Qed.

Lemma max_fence_spec task rs : Forall own_row rs → ∃ f, max_fence task rs = Ok f ∧ fences_below task f rs.
Proof.
  intros (fs & Hfs & Hin)%(fences_of_spec task). exists (maximum fs). unfold max_fence. rewrite Hfs. split; [done|]. intros row m Hr Hm. by eapply maximum_ge, Hin.
Qed.

(** What one run does, when nothing is on record for its key. *)
Definition run_result (key : string) (operation : AttemptContext → Outcome) (reconcile : option (string → Reconciled)) (cs : list AttemptContext) (r : result RunExn RunResult) : Prop :=
  match last cs with
  | Some c => Forall (transient operation) (removelast cs) ∧ explains key reconcile (operation c) (Z.of_nat (length cs)) r
  | None => ∃ receipt, r = Ok (Failed "retry_budget_exhausted" 0 receipt)
  end.

Record run_post (p : RetryPolicy) (task key : string) (operation : AttemptContext → Outcome) (reconcile : option (string → Reconciled)) (w : World) (r : result RunExn RunResult) (w' : World) : Prop := {
  rp_ok : world_ok w';
  rp_rows : rows w `prefix_of` rows w';
  rp_known : Exists (recorded key) (rows w) → w' = w ∧ ∃ receipt, receipt ∈ rows w ∧ recorded key receipt ∧ r = Ok (Succeeded "idempotency_receipt" 0 receipt);
  rp_calls : ¬ Exists (recorded key) (rows w) → ∃ cs, calls w' = calls w ++ cs ∧ Z.of_nat (length cs) <= Z.max 0 (max_attempts p) ∧
    (∀ c, c ∈ cs → task_id c = task ∧ idempotency_key c = key) ∧ run_result key operation reconcile cs r;
  rp_success s n receipt : r = Ok (Succeeded s n receipt) → Exists (recorded key) (rows w');
}.

Lemma explains_transient key reconcile operation c n receipt : transient operation c → explains key reconcile (operation c) n (Ok (Failed "retry_budget_exhausted" n receipt)).
Proof. intros (e & -> & He). cbn. rewrite He. by eexists. Qed.

Lemma run_wp clock time_ns p task key operation reconcile w : world_ok w →
  wp (run clock time_ns p task key operation reconcile) (run_post p task key operation reconcile w) w.
Proof.
  intros Hw. unfold run. rewrite wp_bind. unfold wp at 1. cbn [get_state fst snd]. rewrite wp_of_result.
  pose proof (completed_spec key (rows w) (wo_rows w Hw)) as Hcomp. destruct (completed key (rows w)) as [[receipt|]|] eqn:Ecomp; [| |done].
  - apply wp_ret. destruct Hcomp as [Hin Hrec]. assert (Exists (recorded key) (rows w)) as Hex by (apply Exists_exists; by exists receipt).
    constructor; [done|done| |done|done]. intros _. split; [done|]. by exists receipt.
  - rewrite wp_bind, wp_tick. set (w0 := w <| ticks := S (ticks w) |>). assert (world_ok w0) as Hw0 by by apply world_ok_ticks.
    rewrite wp_bind. unfold wp at 1. cbn [get_state fst snd]. rewrite wp_of_result.
    destruct (max_fence_spec task (rows w0) (wo_rows w0 Hw0)) as (f & -> & Hf). rewrite wp_bind.
    eapply wp_mono; [apply (loop_spec clock time_ns p task key operation reconcile _ 1 "" f _ w0 Hw0 Hf)|].
    intros r w1 [Hok1 Hrows1 (cs & Hcs & Hlen & Hnum & Hans)]. change (rows w0) with (rows w) in Hrows1. change (calls w0) with (calls w) in Hcs.
    assert (Z.of_nat (length cs) <= Z.max 0 (max_attempts p)) as Hlen' by lia.
    assert (∀ c, c ∈ cs → task_id c = task ∧ idempotency_key c = key) as Hkeys by (intros c [i Hi]%list_elem_of_lookup_1; by destruct (Hnum i c Hi) as (_ & _ & ?)).
    assert (∀ cs0 c, cs = cs0 ++ [c] → attempt c = Z.of_nat (length cs)) as Hlast.
    { intros cs0 c ->. destruct (Hnum (length cs0) c) as [-> _]; [by apply list_lookup_middle|]. rewrite length_app. cbn. lia. }
    destruct r as [[[a|] k]|x]; cbn [answer_ok] in Hans.
    + apply wp_ret. destruct Hans as (cs0 & c & Heq & Htr & Hex & Hsucc). rewrite (Hlast _ _ Heq) in Hex. constructor; [done|done|done| |].
      * intros _. exists cs. split; [done|]. split; [done|]. split; [done|]. unfold run_result. by rewrite Heq, last_snoc, removelast_last, <- Heq.
      * intros s n receipt [= ->]. by eapply Hsucc.
    + destruct Hans as [Htr ->]. rewrite wp_bind, wp_tick. rewrite wp_bind. apply wp_append; [by apply world_ok_ticks|split; [by_compute|by left]|].
      intros w2 receipt Happ. apply wp_ret. pose proof (ap_rows _ _ _ _ _ Happ) as Hr2. pose proof (ap_calls _ _ _ _ _ Happ) as Hc2. constructor; [apply (ap_ok _ _ _ _ _ Happ)| |done| |done].
      * rewrite Hr2. etransitivity; [exact Hrows1|by eexists].
      * intros _. exists cs. split; [by rewrite Hc2|]. split; [done|]. split; [done|]. unfold run_result. destruct (last cs) as [c|] eqn:El; [|apply last_None in El as ->; by eexists].
        apply last_Some in El as [cs0 ->]. rewrite removelast_last. apply Forall_app in Htr as [Htr0 Htr]. split; [done|]. rewrite Forall_singleton in Htr.
        change (1 - 1 + Z.of_nat (length (cs0 ++ [c]))) with (Z.of_nat (length (cs0 ++ [c]))). by apply explains_transient.
    + destruct Hans as (cs0 & c & Heq & Htr & Hex). rewrite (Hlast _ _ Heq) in Hex.
      assert (∀ y, explains key reconcile (operation c) (Z.of_nat (length cs)) (Err y) → run_result key operation reconcile cs (Err y)) as Hres.
      { intros y Hy. unfold run_result. by rewrite Heq, last_snoc, removelast_last, <- Heq. }
      apply Hres in Hex. constructor; [done|done|done| |done]. intros _. by exists cs.
Qed.

Lemma run_post_of clock time_ns p task key operation reconcile w w' r : world_ok w → run clock time_ns p task key operation reconcile w = (w', r) →
  run_post p task key operation reconcile w r w'.
Proof. intros Hw H. pose proof (run_wp clock time_ns p task key operation reconcile w Hw) as Hs. unfold wp in Hs. by rewrite H in Hs. Qed.

Lemma reload_same w w' : world_ok w → reload w = (w', Ok tt) → w' = w.
Proof.
  intros Hw H. destruct (wo_read w Hw) as (previous & Hr & _). unfold reload in H. erewrite bind_ok in H by reflexivity.
  rewrite read_file_state, Hr in H. cbn [rbind fst] in H. erewrite bind_ok in H by reflexivity. injection H as <-. by destruct w.
Qed.

Lemma world_step_ok w w' : world_ok w → step w w' → world_ok w' ∧ rows w `prefix_of` rows w'.
Proof.
  intros Hw [clock time_ns p task key operation reconcile r w1 H|w1 H].
  - destruct (run_post_of _ _ _ _ _ _ _ _ _ _ Hw H). done.
  - by rewrite (reload_same _ _ Hw H).
Qed.

Lemma steps_ok w w' : world_ok w → rtc step w w' → world_ok w' ∧ rows w `prefix_of` rows w'.
Proof.
  intros Hw H. induction H as [w|w w1 w2 H12 _ IH]; [done|]. destruct (world_step_ok _ _ Hw H12) as [Hw1 Hp]. destruct (IH Hw1) as [Hw2 Hp2]. split; [done|]. by etransitivity.
Qed.

Lemma reachable_ok w : reachable w → world_ok w.
Proof.
  intros H. eapply steps_ok; [|exact H]. constructor; [by exists ""|constructor|by intros c Hc%not_elem_of_nil|intros task; constructor].
Qed.

Lemma Exists_prefix {A} (Q : A → Prop) (l k : list A) : l `prefix_of` k → Exists Q l → Exists Q k.
Proof. intros [r ->] H. apply Exists_app. by left. Qed.

(** ** Delays *)

Lemma from_bytes_bounds bs : Forall (λ b, 0 <= b <= 255) bs → 0 <= from_bytes bs < 256 ^ Z.of_nat (length bs).
Proof.
  unfold from_bytes. assert (∀ l acc, Forall (λ b, 0 <= b <= 255) l → 0 <= acc →
    0 <= foldl (λ acc b, acc * 256 + b) acc l < (acc + 1) * 256 ^ Z.of_nat (length l)) as H.
  { induction l as [|b l IH]; intros acc Hall Hacc; [cbn; lia|]. apply Forall_cons in Hall as [Hb Hall]. cbn [foldl length].
    destruct (IH (acc * 256 + b) Hall) as [H1 H2]; [lia|]. split; [done|]. rewrite Nat2Z.inj_succ, Z.pow_succ_r by lia.
    eapply Z.lt_le_trans; [exact H2|]. pose proof (Z.pow_pos_nonneg 256 (Z.of_nat (length l))). nia. }
  intros Hbs. specialize (H bs 0 Hbs). lia.
Qed.

Lemma unit_bounds task n : (0 <= unit_of task n <= 1)%Q.
Proof.
  unfold unit_of. set (bs := take 8 _). assert (Forall (λ b, 0 <= b <= 255) bs) as Hb by (apply Forall_take, Sha256.sha256_bytes).
  assert (length bs = 8%nat) as Hl by (unfold bs; rewrite length_take, Sha256.sha256_length; done). clearbody bs.
  apply from_bytes_bounds in Hb. rewrite Hl in Hb. change (256 ^ Z.of_nat 8) with 18446744073709551616 in Hb. split.
  - unfold Qle. cbn [Qnum Qden]. lia.
  - unfold Qle. cbn [Qnum Qden]. change (Zpos (2 ^ 64 - 1)%positive) with 18446744073709551615. lia.
Qed.

Lemma raw_delay_bounds p n : 0 <= base_backoff p → 0 <= max_backoff p → 0 <= raw_delay p n <= max_backoff p.
Proof. intros Hb Hm. unfold raw_delay. pose proof (Z.pow_nonneg 2 (Z.max 0 (n - 1))). nia. Qed.

(** * Properties *)

(** C18: A run is decided by its last attempt: all attempts before it failed
    transiently, there are at most [max_attempts] of them, and the answer is the
    one its outcome has. A key that is on record is answered from the journal,
    with no attempt and no change. *)
Theorem run_exact clock time_ns p task key operation reconcile w w' r :
  reachable w → run clock time_ns p task key operation reconcile w = (w', r) →
  (Exists (recorded key) (rows w) → w' = w ∧ ∃ receipt, receipt ∈ rows w ∧ recorded key receipt ∧ r = Ok (Succeeded "idempotency_receipt" 0 receipt)) ∧
  (¬ Exists (recorded key) (rows w) → ∃ cs, calls w' = calls w ++ cs ∧ Z.of_nat (length cs) <= Z.max 0 (max_attempts p) ∧
     (∀ c, c ∈ cs → task_id c = task ∧ idempotency_key c = key) ∧ run_result key operation reconcile cs r).
Proof. intros Hw%reachable_ok H. by destruct (run_post_of _ _ _ _ _ _ _ _ _ _ Hw H). Qed.

(** C28: A success is final: once a run has reported success for a key, every
    later run with that key, whatever happened in between and whatever it would
    run, succeeds from the receipt without an attempt. *)
Theorem success_is_final clock time_ns p task key operation reconcile w w1 s n receipt w2 :
  reachable w → run clock time_ns p task key operation reconcile w = (w1, Ok (Succeeded s n receipt)) → rtc step w1 w2 →
  ∀ clock' time_ns' p' task' operation' reconcile', ∃ receipt', recorded key receipt' ∧
    run clock' time_ns' p' task' key operation' reconcile' w2 = (w2, Ok (Succeeded "idempotency_receipt" 0 receipt')).
Proof.
  intros Hw%reachable_ok H Hs clock' time_ns' p' task' operation' reconcile'. destruct (run_post_of _ _ _ _ _ _ _ _ _ _ Hw H) as [Hw1 _ _ _ Hrec].
  destruct (steps_ok _ _ Hw1 Hs) as [Hw2 Hp]. pose proof (Exists_prefix _ _ _ Hp (Hrec s n receipt eq_refl)) as Hex.
  destruct (run clock' time_ns' p' task' key operation' reconcile' w2) as [w3 r] eqn:Hr. destruct (run_post_of _ _ _ _ _ _ _ _ _ _ Hw2 Hr) as [_ _ Hk _ _].
  destruct (Hk Hex) as (-> & receipt' & _ & Hrc & ->). by exists receipt'.
Qed.

(** Whatever ran, and however often the controller was replaced: the journal
    on disk is valid and is what the controller knows, and the attempts of a
    task have strictly increasing fences, each of them on record. *)
Theorem fences_increase w task : reachable w →
  read_file (file w) = Ok (rows w) ∧ StronglySorted Z.lt (fence <$> of_task task (calls w)) ∧
  ∀ c, c ∈ calls w → ∃ row, row ∈ rows w ∧ fence_row (task_id c) (fence c) row.
Proof.
  intros [(previous & Hr & _) _ Hc Hf]%reachable_ok. split; [by rewrite read_file_state, Hr|]. by split.
Qed.

(** With a valid policy a delay is between the bounded exponential one less
    the jitter and that one plus the jitter. *)
Theorem backoff_bounds p task n : make_policy p = Ok p →
  (inject_Z (raw_delay p n) * (1 - jitter_ratio p) <= delay p task n <= inject_Z (raw_delay p n) * (1 + jitter_ratio p))%Q ∧ 0 <= raw_delay p n <= max_backoff p.
Proof.
  unfold make_policy. destruct (_ || _); [done|]. destruct ((base_backoff p <? 0) || _) eqn:Eb; [done|]. destruct (negb _) eqn:Ej; [done|]. intros _.
  apply orb_false_iff in Eb as [Eb1%Z.ltb_ge Eb2%Z.ltb_ge]. apply negb_false_iff, andb_true_iff in Ej as [Ej1%Qle_bool_iff Ej2%Qle_bool_iff]. pose proof (raw_delay_bounds p n Eb1 Eb2) as Hraw. split; [|done].
  assert (0 <= inject_Z (raw_delay p n))%Q as Hq by (change 0%Q with (inject_Z 0); rewrite <- Zle_Qle; lia).
  unfold delay. set (q := inject_Z (raw_delay p n)) in *. set (j := jitter_ratio p) in *. destruct (unit_bounds task n) as [Hu1 Hu2]. set (u := unit_of task n) in *. clearbody q j u.
  assert (0 <= q * j)%Q as Hqj by by apply Qmult_le_0_compat.
  destruct (_ || _).
  - split; lra.
  - assert (0 <= q * j * u)%Q as H1 by by apply Qmult_le_0_compat. assert (0 <= q * j * (1 - u))%Q as H2 by (apply Qmult_le_0_compat; [done|lra]). split; nra.
Qed.

(** * Examples *)

Lemma run_exact_witness : ¬ Exists (recorded "key") (rows nothing) ∧
  ∃ cs, calls demo_done = calls nothing ++ cs ∧ Z.of_nat (length cs) <= Z.max 0 (max_attempts demo_policy) ∧
    (∀ c, c ∈ cs → task_id c = "task" ∧ idempotency_key c = "key") ∧ run_result "key" demo_operation None cs (Ok (Succeeded "execution" 2 demo_receipt)).
Proof.
  assert (run (λ _, 0) (λ _, 0) demo_policy "task" "key" demo_operation None nothing = (demo_done, Ok (Succeeded "execution" 2 demo_receipt))) as H by (vm_compute; reflexivity).
  assert (¬ Exists (recorded "key") (rows nothing)) as Hn by (intros Hx; inversion Hx).
  split; [exact Hn|]. destruct (run_exact _ _ _ _ _ _ _ _ _ _ (rtc_refl _ _) H) as [_ Hc]. exact (Hc Hn).
Defined.

Lemma success_is_final_witness : ∃ receipt', recorded "key" receipt' ∧
  run (λ _, 0) (λ _, 0) demo_policy "other" "key" (always Stopped) None demo_done = (demo_done, Ok (Succeeded "idempotency_receipt" 0 receipt')).
Proof.
  assert (run (λ _, 0) (λ _, 0) demo_policy "task" "key" demo_operation None nothing = (demo_done, Ok (Succeeded "execution" 2 demo_receipt))) as H by (vm_compute; reflexivity).
  exact (success_is_final _ _ _ _ _ _ _ _ _ _ _ _ _ (rtc_refl _ _) H (rtc_refl _ _) (λ _, 0) (λ _, 0) demo_policy "other" (always Stopped) None).
Defined.

Lemma fences_increase_witness : reachable demo_done ∧ fence <$> of_task "task" (calls demo_done) = [1; 2] ∧ StronglySorted Z.lt (fence <$> of_task "task" (calls demo_done)).
Proof.
  assert (reachable demo_done) as Hr.
  { eapply rtc_l; [|apply rtc_refl]. apply (step_run _ (λ _, 0) (λ _, 0) demo_policy "task" "key" demo_operation None (demo_run demo_operation nothing).2). vm_compute. reflexivity. }
  split; [exact Hr|]. split; [vm_compute; reflexivity|]. destruct (fences_increase _ "task" Hr) as (_ & Hs & _). exact Hs.
Defined.

Lemma backoff_bounds_witness : make_policy demo_policy = Ok demo_policy ∧ 0 <= raw_delay demo_policy 3 <= max_backoff demo_policy.
Proof.
  assert (make_policy demo_policy = Ok demo_policy) as H by (vm_compute; reflexivity).
  split; [exact H|]. destruct (backoff_bounds demo_policy "task" 3 H) as [_ Hd]. exact Hd.
Defined.

(** An operation that times out is called again, though it may have had its
    effect: only other failures have an unknown effect. *)
Example timeout_is_retried : length (calls (demo_run (always (Raised (Other "TimeoutError" [] None))) nothing).1) = 3%nat.
Proof. vm_compute. reflexivity. Qed.

(** A key whose effect is unknown, an attempt during which the process stopped,
    and a success whose result is not JSON: the next run calls the operation
    again, without a reconciliation. *)
Example unknown_effect_runs_again :
  (∀ o, o ∈ [Raised (Other "OSError" [] None); Stopped; Returned None] →
   length (calls (run (λ _, 0) (λ _, 0) demo_policy "task" "key" (always (Returned (Some Null))) (Some (λ _, Reported [("committed", Bool true)]))
                   (demo_run (always o) nothing).1).1) = 2%nat).
Proof. rewrite <- Forall_forall. repeat constructor. Qed.

(** A line that was cut by a crash makes the journal unreadable. *)
Lemma torn_line_unreadable w : reachable w → read_file (file w ++ [Torn]) = Err NotJson.
Proof. intros [(previous & Hr & _) _ _ _]%reachable_ok. by rewrite read_file_state, (read_state_snoc _ _ _ Hr). Qed.

(** Two controllers on one file: each numbers its rows on its own. *)
Example two_controllers : ¬ is_ok (read_file (file (demo_run demo_operation ((demo_run demo_operation nothing).1 <| rows := [] |>)).1)).
Proof. vm_compute. done. Qed.

(** The jitter is added after the bound. *)
Example delay_exceeds_bound : Qle_bool (delay demo_policy "task" 4) (inject_Z (max_backoff demo_policy)) = false.
Proof. vm_compute. reflexivity. Qed.
