(* ===== verification/TechnicalDebt.v ===== *)
(** Notices of technical debt ([simplicio_loop/technical_debt.py]): what may be
    recorded as one, and the directory that keeps them: an append-only ledger,
    an index by fingerprint, the state and the progress of the run. The files
    are their documents; a write is all or nothing, and a call may stop between
    its writes. *)
From S2P Require Import Prelude PyLib PyText.
Import Json.
Local Open Scope Z_scope.
Local Open Scope py_scope.

(** * Definitions *)

Definition SCHEMA : string := "simplicio.technical-debt/v1".
Definition STATUSES : list string := ["OPEN"; "ACKNOWLEDGED"; "RESOLVED"].
Definition SEVERITIES : list string := ["low"; "medium"; "high"].
Definition NON_BLOCKING_REASON_CODES : list string :=
  ["fanout_disabled"; "fanout_adapter_unavailable"; "fanout_serial_fallback"; "not_git_checkout"; "missing_plan_targets";
   "overlapping_task_impacts"; "worktree_adapter_unavailable"; "worktree_preflight_failed"; "optional_capability_unavailable";
   "telemetry_degraded"; "reporting_degraded"; "quarantined_item"].
Definition HARD_BLOCKER_REASON_CODES : list string :=
  ["hard_constraint_violation"; "budget_exhausted"; "source_drift"; "mutation_authority_invalid"; "planning_not_ready"; "stale_fence";
   "invalid_receipt"; "receipt_invalid"; "privacy_violation"; "unauthorized"; "safety_violation"; "mandatory_quality_failed";
   "network_paused"; "remote_worker_timeout"].

Definition fingerprint_of (reason_code stage source work_item_id scope : string) : string :=
  Sha256.hexdigest (Text.join "|" (Str.strip <$> [reason_code; stage; source; work_item_id; scope])).
Definition is_hard_blocker (reason_code : string) : bool := bool_decide (Str.strip reason_code ∈ HARD_BLOCKER_REASON_CODES).
Definition is_non_blocking_reason (reason_code : string) : bool := bool_decide (Str.strip reason_code ∈ NON_BLOCKING_REASON_CODES).

(** A notice; ["blocking"] is false in all of them. *)
Record Notice := mkNotice {
  debt_id : string;
  fingerprint : string;
  run_id : string;
  work_item_id : string;
  scope : string;
  stage : string;
  source : string;
  reason_code : string;
  severity : string;
  message : string;
  next_action : string;
  status : string;
  receipt : string;
  first_seen : string;
  last_seen : string;
  occurrences : Z;
}.
#[export] Instance Notice_eta : Eta Notice := λ n,
  mkNotice (debt_id n) (fingerprint n) (run_id n) (work_item_id n) (scope n) (stage n) (source n) (reason_code n) (severity n)
    (message n) (next_action n) (status n) (receipt n) (first_seen n) (last_seen n) (occurrences n).

Inductive DebtExn : Type := ValueError (msg : string).

(** The arguments of [build_notice] and [record_notice]. *)
Record Observed := mkObserved {
  ob_run_id : string;
  ob_reason_code : string;
  ob_stage : string;
  ob_source : string;
  ob_message : string;
  ob_next_action : string;
  ob_work_item_id : string;
  ob_severity : string;
  ob_scope : string;
  ob_receipt : string;
}.

Definition build_notice (o : Observed) (blocking : bool) (timestamp : string) : result DebtExn Notice :=
  let code := Str.strip (ob_reason_code o) in
  if negb (Str.truthy code) then Err (ValueError "technical-debt reason_code is required")
  else if is_hard_blocker code then Err (ValueError ("hard-blocker reason cannot be recorded as technical debt: " +:+ code))
  else if blocking then Err (ValueError "technical-debt notices must have blocking=False")
  else if negb (bool_decide (ob_severity o ∈ SEVERITIES)) then Err (ValueError ("severity must be one of " +:+ Text.join ", " SEVERITIES))
  else
    let fp := fingerprint_of code (ob_stage o) (ob_source o) (ob_work_item_id o) (ob_scope o) in
    Ok (mkNotice ("debt-" +:+ String.substring 0 16 fp) fp (ob_run_id o) (ob_work_item_id o)
          (if Str.truthy (ob_scope o) then ob_scope o else "run") (ob_stage o) (ob_source o) code (ob_severity o) (ob_message o)
          (ob_next_action o) "OPEN" (ob_receipt o) timestamp timestamp 1).

(** The document of a notice. *)
Definition notice_dict (n : Notice) : list (string * json) :=
  [("schema", Str SCHEMA); ("debt_id", Str (debt_id n)); ("fingerprint", Str (fingerprint n)); ("run_id", Str (run_id n));
   ("work_item_id", Str (work_item_id n)); ("scope", Str (scope n)); ("stage", Str (stage n)); ("source", Str (source n));
   ("reason_code", Str (reason_code n)); ("severity", Str (severity n)); ("message", Str (message n)); ("next_action", Str (next_action n));
   ("blocking", Bool false); ("status", Str (status n)); ("receipt", Str (receipt n)); ("first_seen", Str (first_seen n));
   ("last_seen", Str (last_seen n)); ("occurrences", Int (occurrences n))].

(** The directory: the index ([None] when it is missing or cannot be read), the
    ledger, the state of the run when it has one ([[]] when it cannot be read),
    the events of its progress. *)
Record DebtDir := mkDir {
  index_file : option (list (string * Notice));
  ledger : list Notice;
  state_file : option (list (string * json));
  events : list (list (string * json));
}.
#[export] Instance DebtDir_eta : Eta DebtDir := λ d, mkDir (index_file d) (ledger d) (state_file d) (events d).

(** The ledger as an index. *)
Definition recovered (rows : list Notice) : list (string * Notice) :=
  foldl (λ d n, if Str.truthy (fingerprint n) then dput (fingerprint n) n d else d) [] rows.
(** [_read_index] *)
Definition read_index (d : DebtDir) : list (string * Notice) :=
  match index_file d with Some index => index | None => recovered (ledger d) end.

(** The notice that is recorded, for one that is there already. *)
Definition seen_again (o : Observed) (previous : Notice) (now : string) : Notice :=
  previous <| last_seen := now |>
           <| occurrences := (if occurrences previous =? 0 then 1 else occurrences previous) + 1 |>
           <| status := if bool_decide (status previous ∈ STATUSES) then status previous else "OPEN" |>
           <| message := if Str.truthy (ob_message o) then ob_message o else message previous |>
           <| next_action := if Str.truthy (ob_next_action o) then ob_next_action o else next_action previous |>.

(** [state.json]: the notice replaces the one with its fingerprint. *)
Definition debts_of (state : list (string * json)) : list json :=
  match Val.or_else (Val.get "technical_debts" state) (List []) with List l => l | _ => [] end.
Definition other_debt (fp : string) (v : json) : bool := match v with Obj d => negb (Val.eq (Val.get "fingerprint" d) (Str fp)) | _ => false end.
Definition with_debt (n : Notice) (state : list (string * json)) : list (string * json) :=
  let state := dput "technical_debts" (List (List.filter (other_debt (fingerprint n)) (debts_of state) ++ [Obj (notice_dict n)])) state in
  if Val.eq (Val.get "phase" state) (Str "blocked") then state else dput "degraded" (Bool true) state.
Definition debt_event (o : Observed) (n : Notice) (state : list (string * json)) (now : string) : list (string * json) :=
  [("schema", Str "simplicio.progress/v1"); ("kind", Str "technical_debt"); ("phase", Val.get_or "phase" state (Str "executing"));
   ("run_id", Str (if Str.truthy (ob_run_id o) then ob_run_id o else Val.text (Val.get "run_id" state))); ("task_id", Str (ob_work_item_id o));
   ("status", Str "DEBT"); ("reason_code", Str (reason_code n)); ("technical_debt", Obj (notice_dict n)); ("receipt", Str (ob_receipt o)); ("ts", Str now)].

(** The writes of [record_notice], in order. *)
Definition append_observation (n : Notice) (d : DebtDir) : DebtDir := d <| ledger ::= λ l, l ++ [n] |>.
Definition write_index (index : list (string * Notice)) (d : DebtDir) : DebtDir := d <| index_file := Some (sort_dict index) |>.
Definition write_state (n : Notice) (d : DebtDir) : DebtDir := d <| state_file ::= fmap (with_debt n) |>.
Definition append_progress (o : Observed) (n : Notice) (now : string) (d : DebtDir) : DebtDir :=
  match state_file d with Some state => d <| events ::= λ l, l ++ [debt_event o n state now] |> | None => d end.

(** The notice and the writes, given the readings of the clock. *)
Definition record_writes (d : DebtDir) (o : Observed) (t1 t2 t3 : string) : result DebtExn (Notice * list (DebtDir → DebtDir)) :=
  let? notice := build_notice o false t1 in
  let index := read_index d in
  let notice := match dget (fingerprint notice) index with Some previous => seen_again o previous t2 | None => notice end in
  let index := dput (fingerprint notice) notice index in
  Ok (notice, [append_observation notice; write_index index; write_state notice; append_progress o notice t3]).
Definition run_writes (ws : list (DebtDir → DebtDir)) (d : DebtDir) : DebtDir := foldl (λ d w, w d) d ws.
Definition record_notice (d : DebtDir) (o : Observed) (t1 t2 t3 : string) : result DebtExn (Notice * DebtDir) :=
  let? nw := record_writes d o t1 t2 t3 in Ok (nw.1, run_writes nw.2 d).

(** The order of [sorted] by two texts. *)
Definition seen_le (n m : Notice) : Prop := first_seen n ≠ first_seen m ∧ String.le (first_seen n) (first_seen m) ∨ first_seen n = first_seen m ∧ String.le (debt_id n) (debt_id m).
#[export] Instance seen_le_dec n m : Decision (seen_le n m).
Proof. unfold seen_le. apply _. Defined.
Definition read_notices (d : DebtDir) (only : option string) : list Notice :=
  merge_sort seen_le (List.filter (λ n, match only with Some s => negb (Str.truthy s) || String.eqb (status n) s | None => true end) (read_index d).*2).

Record Summary := mkSummary { sm_count : Z; sm_open_count : Z; sm_by_severity : list (string * Z); sm_notices : list Notice }.
Definition is_open (n : Notice) : bool := bool_decide (status n ∈ ["OPEN"; "ACKNOWLEDGED"]).
Definition summarize_notices (rows : list Notice) : Summary :=
  let open_rows := List.filter is_open rows in
  mkSummary (Z.of_nat (length rows)) (Z.of_nat (length open_rows))
    ((λ s, (s, Z.of_nat (length (List.filter (λ n, String.eqb (severity n) s) open_rows)))) <$> SEVERITIES) rows.

(** * Specification *)

Definition rows_of (fp : string) (d : DebtDir) : list Notice := List.filter (λ n, String.eqb (fingerprint n) fp) (ledger d).

(** What happens to the directory: a notice is recorded; the index is lost; the
    run writes its own state and progress. *)
Inductive debt_step (d : DebtDir) : DebtDir → Prop :=
| debt_record o t1 t2 t3 n d' : record_notice d o t1 t2 t3 = Ok (n, d') → debt_step d d'
| debt_index_lost : debt_step d (d <| index_file := None |>)
| debt_run s l : debt_step d (d <| state_file := s |> <| events := l |>).

Definition debt_reachable (d : DebtDir) : Prop := ∃ s l, rtc debt_step (mkDir None [] s l) d.

Record debt_ok (d : DebtDir) : Prop := {
  do_nodup : NoDup (read_index d).*1;
  do_last fp : dget fp (read_index d) = last (rows_of fp d);
  do_counted fp n : last (rows_of fp d) = Some n → occurrences n = Z.of_nat (length (rows_of fp d));
  do_rows n : n ∈ ledger d → fingerprint n ≠ "" ∧ is_hard_blocker (reason_code n) = false ∧ status n ∈ STATUSES;
}.

Definition demo_observed : Observed := mkObserved "run" "telemetry_degraded" "execute" "telemetry" "no sink" "configure it" "" "low" "run" "".
Definition demo_dir : DebtDir := mkDir None [] None [].
Definition no_notice : Notice := mkNotice "" "" "" "" "" "" "" "" "" "" "" "" "" "" "" 0.
Definition demo_record (d : DebtDir) : DebtDir := (ok_or (no_notice, d) (record_notice d demo_observed "t1" "t2" "t3")).2.
(** The index is lost between two calls. *)
Definition demo_twice : DebtDir := demo_record (demo_record demo_dir <| index_file := None |>).
(** The call stops after its first write. *)
Definition demo_stopped (d : DebtDir) : DebtDir := run_writes (take 1 (ok_or (no_notice, []) (record_writes d demo_observed "t1" "t2" "t3")).2) d.

(** * Lemmas *)

Lemma build_notice_Ok o b t n : build_notice o b t = Ok n →
  fingerprint n ≠ "" ∧ is_hard_blocker (reason_code n) = false ∧ status n = "OPEN" ∧ occurrences n = 1.
Proof.
  unfold build_notice. destruct (negb _); [done|]. destruct (is_hard_blocker _) eqn:Eh; [done|]. destruct b; [done|]. destruct (negb _); [done|].
  intros [= <-]. cbn. split; [apply Sha256.hexdigest_ne|done].
Qed.

Lemma recovered_snoc rows n : recovered (rows ++ [n]) = if Str.truthy (fingerprint n) then dput (fingerprint n) n (recovered rows) else recovered rows.
Proof. unfold recovered. by rewrite foldl_app. Qed.

Lemma recovered_last rows : Forall (λ n, fingerprint n ≠ "") rows →
  NoDup (recovered rows).*1 ∧ ∀ fp, dget fp (recovered rows) = last (List.filter (λ n, String.eqb (fingerprint n) fp) rows).
Proof.
  induction rows as [|n rows IH] using rev_ind; intros Hr; [split; [constructor|done]|].
  apply Forall_app in Hr as [Hr Hn]. rewrite Forall_singleton in Hn. destruct (IH Hr) as [Hnd Hl].
  rewrite recovered_snoc, (proj2 (Str.truthy_ne _) Hn). split; [by apply dput_NoDup|]. intros fp. rewrite dget_put, List.filter_app. cbn [List.filter].
  destruct (String.eqb_spec (fingerprint n) fp) as [<-|Hne]; [by rewrite decide_True, last_snoc by done|].
  rewrite decide_False, app_nil_r by congruence. apply Hl.
Qed.

Lemma rows_of_snoc fp d n : List.filter (λ n, String.eqb (fingerprint n) fp) (ledger d ++ [n]) = rows_of fp d ++ (if String.eqb (fingerprint n) fp then [n] else []).
Proof. unfold rows_of. rewrite List.filter_app. cbn [List.filter]. done. Qed.

Lemma debt_ok_record d o t1 t2 t3 n d' : debt_ok d → record_notice d o t1 t2 t3 = Ok (n, d') → debt_ok d'.
Proof.
  intros [Hnd Hlast Hcnt Hrows] Hrec. unfold record_notice, record_writes in Hrec. destruct (build_notice o false t1) as [n0|] eqn:Eb; [|done].
  cbn [rbind fst snd] in Hrec. set (n1 := match dget (fingerprint n0) (read_index d) with Some previous => _ | None => n0 end) in *.
  destruct (build_notice_Ok _ _ _ _ Eb) as (Hfp & Hhard & Hst & Hocc).
  assert (fingerprint n1 = fingerprint n0 ∧ is_hard_blocker (reason_code n1) = false ∧ status n1 ∈ STATUSES ∧
    occurrences n1 = Z.of_nat (length (rows_of (fingerprint n0) d)) + 1) as (Hf1 & Hh1 & Hs1 & Ho1).
  { unfold n1. destruct (dget (fingerprint n0) (read_index d)) as [p|] eqn:Ep.
    - rewrite Hlast in Ep. pose proof (Hcnt _ _ Ep) as Hc. apply last_Some_elem_of in Ep as Hin. unfold rows_of in Hin.
      rewrite elem_of_Listfilter in Hin. destruct Hin as [Hin Heq]. apply String.eqb_eq in Heq. destruct (Hrows p Hin) as (_ & Hh & Hstat).
      cbn. split; [done|]. split; [done|]. split; [by rewrite bool_decide_eq_true_2|].
      assert (rows_of (fingerprint n0) d ≠ []) as Hne by (intros E; by rewrite E in Ep).
      destruct (rows_of (fingerprint n0) d); [done|]. rewrite Hc. cbn [length]. rewrite (proj2 (Z.eqb_neq _ _)) by lia. done.
    - rewrite Hlast in Ep. apply last_None in Ep. rewrite Ep, Hst, Hocc. repeat split; [done|]. unfold STATUSES. by left. }
  clearbody n1. injection Hrec as _ Hd'.
  assert (∀ fp, rows_of fp d' =
    rows_of fp d ++ if String.eqb (fingerprint n1) fp then [n1] else []) as Hro.
  { intros fp. rewrite <- rows_of_snoc, <- Hd'. unfold rows_of, run_writes, append_progress. cbn. by destruct (state_file d). }
  assert (read_index d' =
    sort_dict (dput (fingerprint n1) n1 (read_index d))) as Hri.
  { rewrite <- Hd'. unfold run_writes, append_progress. cbn. by destruct (state_file d). }
  constructor.
  - rewrite Hri. by apply sort_dict_NoDup, dput_NoDup.
  - intros fp. rewrite Hri, Hro, dget_sort_dict by by apply dput_NoDup. rewrite dget_put. destruct (String.eqb_spec (fingerprint n1) fp) as [<-|Hne].
    + by rewrite decide_True, last_snoc.
    + by rewrite decide_False, app_nil_r by congruence.
  - intros fp m. rewrite Hro. destruct (String.eqb_spec (fingerprint n1) fp) as [<-|Hne].
    + rewrite last_snoc, length_app, Hf1. intros [= <-]. rewrite Ho1. cbn [length]. lia.
    + rewrite app_nil_r. apply Hcnt.
  - intros m. assert (ledger d' = ledger d ++ [n1]) as ->.
    { rewrite <- Hd'. unfold run_writes, append_progress. cbn. by destruct (state_file d). }
    rewrite elem_of_app, list_elem_of_singleton. intros [Hm| ->]; [by apply Hrows|]. by rewrite Hf1.
Qed.

Lemma debt_ok_step d d' : debt_step d d' → debt_ok d → debt_ok d'.
Proof.
  intros Hs Hok. destruct Hs as [o t1 t2 t3 n d' Hr| |s l].
  - by eapply debt_ok_record.
  - destruct Hok as [Hnd Hlast Hcnt Hrows].
    assert (Forall (λ n, fingerprint n ≠ "") (ledger d)) as Hf by (rewrite Forall_forall; intros n Hn; by apply Hrows).
    destruct (recovered_last _ Hf) as [H1 H2]. by constructor.
  - destruct Hok. by constructor.
Qed.

Lemma debt_ok_reachable d : debt_reachable d → debt_ok d.
Proof.
  intros (s & l & Hr). assert (debt_ok (mkDir None [] s l)) as H0 by (constructor; try done; [constructor|intros n Hn; by apply not_elem_of_nil in Hn]).
  induction Hr as [|x y z Hxy _ IH]; [done|]. by apply IH, (debt_ok_step x).
Qed.

(** * Properties *)

(** The ledger is the authority: whatever was recorded, and even if the index
    was lost in between, the index holds for each fingerprint the last row of the
    ledger, which counts the rows there are; and no hard blocker is ever recorded
    as a debt. *)
Theorem ledger_is_authority d fp : debt_reachable d →
  dget fp (read_index d) = dget fp (recovered (ledger d)) ∧
  match dget fp (read_index d) with
  | Some n => n ∈ ledger d ∧ fingerprint n = fp ∧ is_hard_blocker (reason_code n) = false ∧ occurrences n = Z.of_nat (length (rows_of fp d))
  | None => rows_of fp d = []
  end.
Proof.
  intros Hr%debt_ok_reachable. destruct Hr as [Hnd Hlast Hcnt Hrows].
  assert (Forall (λ n, fingerprint n ≠ "") (ledger d)) as Hf by (rewrite Forall_forall; intros n Hn; by apply Hrows).
  rewrite Hlast. split; [symmetry; by apply recovered_last|].
  destruct (last (rows_of fp d)) as [n|] eqn:El; [|by apply last_None].
  pose proof (Hcnt _ _ El) as Hc. apply last_Some_elem_of in El as Hin. unfold rows_of in Hin. rewrite elem_of_Listfilter in Hin. destruct Hin as [Hin Heq].
  apply String.eqb_eq in Heq. by destruct (Hrows n Hin) as (_ & Hh & _).
Qed.

(** * Examples *)

Lemma ledger_is_authority_witness : debt_reachable demo_twice ∧
  occurrences <$> dget (fingerprint_of "telemetry_degraded" "execute" "telemetry" "" "run") (read_index demo_twice) = Some 2 ∧
  dget "" (read_index demo_twice) = dget "" (recovered (ledger demo_twice)).
Proof.
  assert (debt_reachable demo_twice) as Hr.
  { exists None, []. eapply rtc_l; [|eapply rtc_l; [|eapply rtc_l; [|apply rtc_refl]]].
    - apply (debt_record _ demo_observed "t1" "t2" "t3" (ok_or (no_notice, demo_dir) (record_notice demo_dir demo_observed "t1" "t2" "t3")).1 (demo_record demo_dir)). vm_compute. reflexivity.
    - apply debt_index_lost.
    - apply (debt_record _ demo_observed "t1" "t2" "t3" (ok_or (no_notice, demo_dir) (record_notice (demo_record demo_dir <| index_file := None |>) demo_observed "t1" "t2" "t3")).1 demo_twice). vm_compute. reflexivity. }
  split; [exact Hr|]. split; [vm_compute; reflexivity|]. destruct (ledger_is_authority demo_twice "" Hr) as [H _]. exact H.
Defined.

(** A call that stops after its first write leaves the old index, which is
    readable: the row of the ledger is not seen again, and the next call counts
    its observation with the same number. *)
Example stopped_call_is_forgotten :
  let d := demo_record (demo_stopped (demo_record demo_dir)) in
  length (ledger d) = 3%nat ∧ occurrences <$> (read_index d).*2 = [2] ∧ occurrences <$> ledger d = [1; 2; 2].
Proof. vm_compute. done. Qed.

(** The fields of a fingerprint may hold the separator. *)
Example fingerprint_ambiguous scope : fingerprint_of "telemetry|execute" "sink" "s" "" scope = fingerprint_of "telemetry" "execute|sink" "s" "" scope.
Proof. reflexivity. Qed.
