(* ===== verification/ControlPolicy.v ===== *)
(** The control policy ([simplicio_loop/control_policy.py] and
    [recovery_policy.py]): one snapshot of a run to one decision. A snapshot is a
    JSON document whose floats are multiples of a sixteenth: [Float z] is the float
    z/16 in this file. The weights are quarters, so the drift candidate is an
    integer of sixty-fourths. The sentences that explain a decision are left out. *)
From stdpp Require Import pretty.
From S2P Require Import Prelude PyLib PyText TechnicalDebt.
Import Json.
Local Open Scope Z_scope.
Local Open Scope py_scope.

(** * Definitions *)

Notation document := (list (string * json)).

(** [ValueError] of [recovery_stage]; [KeyError] of [item["id"]]; the errors of
    the run time for a value of the wrong form. *)
Inductive PolicyExn : Type :=
| PolicyValueError (msg : string)
| MissingId
| BadValue.

(** [float(v)], in sixteenths, and [int(v)], which drops a fraction. *)
Definition sixteenths (v : json) : option Z := match v with Float z => Some z | _ => Z.mul 16 <$> Val.to_float v end.
Definition whole (v : json) : option Z := match v with Float z => Some (Z.quot z 16) | _ => Val.to_float v end.

(** [float(d.get(key) or 0)] *)
Definition number_of (d : document) (key : string) : result PolicyExn Z :=
  or_raise (sixteenths (Val.or_else (Val.get key d) (Int 0))) BadValue.
(** [int(d.get(key) or n)] *)
Definition int_of (d : document) (key : string) (n : Z) : result PolicyExn Z :=
  or_raise (whole (Val.or_else (Val.get key d) (Int n))) BadValue.

(** [str(v or "")] *)
Definition fractions : list string :=
  ["0"; "0625"; "125"; "1875"; "25"; "3125"; "375"; "4375"; "5"; "5625"; "625"; "6875"; "75"; "8125"; "875"; "9375"].
Fixpoint repr (v : json) : string :=
  match v with
  | Float z => (if z <? 0 then "-" else "") +:+ pretty (Z.abs z / 16) +:+ "." +:+ default "" (fractions !! Z.to_nat (Z.abs z mod 16))
  | List l => "[" +:+ Text.join ", " (map repr l) +:+ "]"
  | Obj d => "{" +:+ Text.join ", " (map (λ '(k, v), Val.repr_string k +:+ ": " +:+ repr v) d) +:+ "}"
  | v => Val.repr v
  end.
Definition text_of (v : json) : string := if Val.truthy v then match v with Str s => s | v => repr v end else "".

(** [v == w] *)
Fixpoint scaled (v : json) : json :=
  match v with
  | Int z => Int (16 * z)
  | Bool b => Int (if b then 16 else 0)
  | Float z => Int z
  | List l => List (map scaled l)
  | Obj d => Obj (map (λ '(k, v), (k, scaled v)) d)
  | v => v
  end.
Definition same (v w : json) : bool := Val.eq (scaled v) (scaled w).

(** ** The recovery policy *)

Definition RECOVERABLE : list (string * list string) :=
  [("live_lock", ["diagnose_ownership"; "bounded_wait"]); ("operator_failure", ["capability_check"; "bounded_repair"]);
   ("provider_failure", ["capability_check"; "bounded_repair"]); ("post_merge_residual", ["requery_source"; "review_and_close"])].

Inductive Recovery : Type :=
| RecoveryContinue (reason : string) (attempt max_attempts : Z) (action : string) (allowed : list string)
| RecoveryBlocked (reason : string) (attempts max_attempts : Z) (allowed : list string).

Definition recovery_stage (blocker : string) (attempts max_attempts : Z) : result PolicyExn Recovery :=
  let key := Str.lower (Str.strip blocker) in
  match dget key RECOVERABLE with
  | None => Ok (RecoveryBlocked "external_authority_blocked" attempts max_attempts [])
  | Some actions =>
      if (attempts <? 0) || (max_attempts <? 1) then Err (PolicyValueError "recovery attempt bounds must be positive")
      else if max_attempts <=? attempts then Ok (RecoveryBlocked (key +:+ "_recovery_exhausted") attempts max_attempts actions)
      else Ok (RecoveryContinue (key +:+ "_recovery_pending") (attempts + 1) max_attempts
                 (match actions !! Z.to_nat attempts with Some a => a | None => default "" (last actions) end) actions)
  end.

(** ** Drift *)

Record PolicyWeights := mkWeights { wa : Z; wb : Z; wc : Z; wd : Z; we : Z }.
Definition DEFAULT_WEIGHTS : PolicyWeights := mkWeights 4 4 4 1 4.

Definition compute_v (projection : document) (w : PolicyWeights) : result PolicyExn Z :=
  let? a := number_of projection "acs_open" in
  let? b := number_of projection "verifiers_failed" in
  let? c := number_of projection "effects_unverified" in
  let? d := number_of projection "backlog" in
  let? e := number_of projection "retry_amplification" in
  Ok (wa w * a + wb w * b + wc w * c + wd w * d + we w * e).

(** [f"{v:.6f}"] of [v] sixty-fourths: six digits are all there are. *)
Definition fixed6 (v : Z) : string :=
  (if v <? 0 then "-" else "") +:+ pretty (Z.abs v / 64) +:+ "." +:+ String.substring 1 6 (pretty (1000000 + Z.abs v mod 64 * 15625)).

Definition state_signature (entry : document) (w : PolicyWeights) : result PolicyExn string :=
  let supplied := Str.strip (text_of (Val.get "state_signature" entry)) in
  if Str.truthy supplied then Ok supplied else let? v := compute_v entry w in Ok (fixed6 v).

(** The mappings that [for row in v] goes through. *)
Definition mappings (v : json) : result PolicyExn (list document) :=
  match v with
  | List l => Ok (omap (λ x, match x with Obj d => Some d | _ => None end) l)
  | Str _ | Obj _ => Ok []
  | _ => Err BadValue
  end.

Fixpoint map_result {A B} (f : A → result PolicyExn B) (l : list A) : result PolicyExn (list B) :=
  match l with
  | [] => Ok []
  | x :: l' => let? y := f x in let? ys := map_result f l' in Ok (y :: ys)
  end.

Inductive DriftState : Type := PROGRESS | STALL | OSCILLATION.
#[export] Instance DriftState_eq_dec : EqDecision DriftState.
Proof. solve_decision. Defined.
Record Drift := mkDrift { dr_state : DriftState; dr_v : Z; dr_delta : Z; dr_repeat : Z; dr_signature : string }.

(** A cycle of the given period at the end of the trail, which is not constant. *)
Definition cycles (trail : list string) (period : nat) : bool :=
  if (length trail <? period * 2)%nat then false
  else
    let window := drop (length trail - period * 2) trail in
    bool_decide (take period window = drop period window) && (1 <? length (remove_dups (take period window)))%nat.
Definition oscillation (trail : list string) : option nat := List.find (cycles trail) [2; 3; 4]%nat.

(** How many signatures at the end are the current one. *)
Fixpoint leading (sig : string) (l : list string) : nat :=
  match l with
  | x :: l' => if String.eqb x sig then S (leading sig l') else 0
  | [] => 0
  end.

Definition classify_drift (history : list document) (current : document) (w : PolicyWeights) (stall_threshold : Z) : result PolicyExn Drift :=
  let? signatures := map_result (λ row, state_signature row w) history in
  let? current_sig := state_signature current w in
  let? v_t := compute_v current w in
  let? previous_v := match last history with Some row => let? v := compute_v row w in Ok (Some v) | None => Ok None end in
  let delta_v := match previous_v with Some p => v_t - p | None => 0 end in
  let trail := signatures ++ [current_sig] in
  match oscillation trail with
  | Some period => Ok (mkDrift OSCILLATION v_t delta_v (Z.of_nat period) current_sig)
  | None =>
      let repeat := Z.of_nat (leading current_sig (reverse trail)) in
      if (delta_v <? 0) && (repeat <? stall_threshold) then Ok (mkDrift PROGRESS v_t delta_v repeat current_sig)
      else if stall_threshold <=? repeat then Ok (mkDrift STALL v_t delta_v repeat current_sig)
      else Ok (mkDrift PROGRESS v_t delta_v repeat current_sig)
  end.

(** ** Candidates *)

(** [set(v or ())]: what is iterated, which must be hashable. *)
Definition elements_of (v : json) : result PolicyExn (list json) :=
  match Val.or_else v (List []) with
  | List l => if existsb (λ x, match x with List _ | Obj _ => true | _ => false end) l then Err BadValue else Ok l
  | Str s => Ok (Str <$> Text.characters s)
  | Obj d => Ok (Str <$> d.*1)
  | _ => Err BadValue
  end.
Definition meet (l m : list json) : bool := existsb (λ x, existsb (same x) m) l.

(** [_conflicts] *)
Definition conflicts (a b : document) : result PolicyExn bool :=
  let? a_writes := elements_of (Val.get "writes" a) in
  let? b_writes := elements_of (Val.get "writes" b) in
  let? b_reads := elements_of (Val.get "reads" b) in
  let? a_reads := elements_of (Val.get "reads" a) in
  Ok (meet a_writes (b_reads ++ b_writes) || meet b_writes (a_reads ++ a_writes)).

(** [i["id"]] *)
Definition id_of (i : document) : result PolicyExn json := or_raise (dget "id" i) MissingId.
Definition has_id (group : list json) (v : json) : bool := existsb (same v) group.

(** [[i for i in items if i["id"] in group]] *)
Fixpoint members (items : list document) (group : list json) : result PolicyExn (list document) :=
  match items with
  | [] => Ok []
  | i :: items' => let? v := id_of i in let? rest := members items' group in Ok (if has_id group v then i :: rest else rest)
  end.
Fixpoint any_conflict (item : document) (others : list document) : result PolicyExn bool :=
  match others with
  | [] => Ok false
  | o :: others' => let? c := conflicts item o in if c then Ok true else any_conflict item others'
  end.

(** The groups with the item in the first one that has room and no conflict, if
    there is one. *)
Fixpoint place (items : list document) (cap : Z) (item : document) (groups : list (list json)) : result PolicyExn (option (list (list json))) :=
  match groups with
  | [] => Ok None
  | g :: groups' =>
      let later := let? r := place items cap item groups' in Ok (cons g <$> r) in
      if cap <=? Z.of_nat (length g) then later
      else
        let? ms := members items g in
        let? c := any_conflict item ms in
        if c then later else let? v := id_of item in Ok (Some ((g ++ [v]) :: groups'))
  end.
Fixpoint group_loop (items : list document) (cap : Z) (l : list document) (groups : list (list json)) : result PolicyExn (list (list json)) :=
  match l with
  | [] => Ok groups
  | item :: l' =>
      let? placed := place items cap item groups in
      let? groups := match placed with Some gs => Ok gs | None => let? v := id_of item in Ok (groups ++ [[v]]) end in
      group_loop items cap l' groups
  end.

Record Grouping := mkGrouping { gr_groups : list (list json); gr_concurrency : Z; gr_serial : bool }.

Definition rising (signal : document) : bool :=
  existsb (λ k, Val.truthy (Val.get k signal)) ["errors_rising"; "queue_rising"; "memory_rising"; "io_rising"].
Definition group_cap (signal : document) (prior_group_size : Z) : Z := if rising signal then 1 else Z.max 1 (prior_group_size + 1).
Definition largest (groups : list (list json)) : Z := match groups with [] => 1 | _ => foldr Z.max 0 ((λ g, Z.of_nat (length g)) <$> groups) end.

Definition group_candidates (items : list document) (signal : document) (prior_group_size : Z) : result PolicyExn Grouping :=
  let? groups := group_loop items (group_cap signal prior_group_size) items [] in
  let serial := forallb (λ g, Nat.eqb (length g) 1) groups in
  Ok (mkGrouping groups (largest groups) (serial || match items with [] => true | _ => false end)).

(** ** The decision *)

Inductive Verdict : Type :=
| CONTINUE_SERIAL | CONTINUE_PARALLEL | OBSERVE_WAIT | REPLAN | ESCALATE | STOP_SUCCESS | STOP_BLOCKED | STOP_BUDGET | STOP_UNSAFE.
#[export] Instance Verdict_eq_dec : EqDecision Verdict.
Proof. solve_decision. Defined.

Record LoopDecision := mkDecision {
  ld_decision : Verdict;
  ld_reason : string;
  ld_v : option Z;
  ld_delta : option Z;
  ld_drift : option DriftState;
  ld_recovery : option Recovery;
  ld_grouping : option Grouping;
  ld_debts : list document;
}.

(** [_technical_debts] *)
Definition technical_debts (projection : document) : list document :=
  let raw := Val.or_else (Val.get_or "technical_debts" projection (Val.get "technical_debt" projection)) (List []) in
  let items := match raw with Obj d => [Obj d] | List l => l | _ => [] end in
  omap (λ x, match x with
             | Obj d => match Val.get "blocking" d with Bool true => None | _ => Some d end
             | _ => None
             end) items.

(** [dict(d.get(key) or {})], also of a list of pairs. A key that is no text is
    one that is never asked for. *)
Definition pair_of (v : json) : result PolicyExn (json * json) :=
  match Val.iter v with
  | Some [k; x] => match k with List _ | Obj _ => Err BadValue | _ => Ok (k, x) end
  | _ => Err BadValue
  end.
Definition put_pair (m : document) (kx : json * json) : document := match kx.1 with Str k => dput k kx.2 m | _ => m end.
Definition mapping_of (d : document) (key : string) : result PolicyExn document :=
  match Val.or_else (Val.get key d) (Obj []) with
  | Obj m => Ok m
  | List l => let? pairs := map_result pair_of l in Ok (foldl put_pair [] pairs)
  | _ => Err BadValue
  end.
(** [d.get(key, True)] as a condition *)
Definition holds (key : string) (d : document) : bool := Val.truthy (Val.get_or key d (Bool true)).

Definition safe (hard : document) : bool := holds "safe" hard && holds "authorized" hard && holds "privacy_ok" hard.
Definition deferred (maintenance : document) : bool :=
  Val.eq (Val.get "mode" maintenance) (Str "maintenance_deferred") || Val.eq (Val.get "disposition" maintenance) (Str "backlog_only").

Definition stop (v : Verdict) (reason : string) : LoopDecision := mkDecision v reason None None None None None [].

(** A run that is blocked: the part of [decide] from the blocker on. *)
Definition decide_blocked (projection : document) (blocker_reason : string) (debts : list document) (w : PolicyWeights) : result PolicyExn LoopDecision :=
  let blocker_type := Str.lower (Str.strip (text_of (Val.get "blocker_type" projection))) in
  let? recovery :=
    if Str.truthy blocker_type then
      let? attempts := int_of projection "recovery_attempts" 0 in
      let? max_attempts := int_of projection "recovery_max_attempts" 2 in
      let? r := recovery_stage blocker_type attempts max_attempts in Ok (Some r)
    else Ok None in
  match recovery with
  | Some (RecoveryContinue _ _ _ _ _ as r) =>
      let? v := compute_v projection w in Ok (mkDecision CONTINUE_SERIAL "recovery_pending" (Some v) (Some 0) None (Some r) None debts)
  | _ =>
      let blocker_reason :=
        match recovery with
        | Some (RecoveryBlocked reason _ _ _) => if Str.truthy blocker_reason then blocker_reason else reason
        | _ => blocker_reason
        end in
      let? v := compute_v projection w in
      if negb (match debts with [] => true | _ => false end)
         && (negb (Str.truthy blocker_reason) || is_non_blocking_reason blocker_reason && negb (is_hard_blocker blocker_reason)) then
        Ok (mkDecision CONTINUE_SERIAL "technical_debt_notified" (Some v) (Some 0) None None None debts)
      else
        Ok (mkDecision STOP_BLOCKED (if Str.truthy blocker_reason then blocker_reason else "external_dependency_blocked") (Some v) (Some 0) None None None [])
  end.

(** The part on the drift. *)
Definition decide_drift (projection : document) (debts : list document) (w : PolicyWeights) (stall_threshold cooldown : Z) : result PolicyExn LoopDecision :=
  let? history := mappings (Val.or_else (Val.get "history" projection) (List [])) in
  let? drift := classify_drift history projection w stall_threshold in
  let decided v reason grouping := mkDecision v reason (Some (dr_v drift)) (Some (dr_delta drift)) (Some (dr_state drift)) None grouping debts in
  if negb (bool_decide (dr_state drift = PROGRESS)) then
    if dr_repeat drift <? cooldown then Ok (decided OBSERVE_WAIT "hysteresis_hold" None)
    else if bool_decide (dr_state drift = OSCILLATION) then Ok (decided ESCALATE "oscillation_detected" None)
    else Ok (decided REPLAN "stall_escalation" None)
  else
    let? items := mappings (Val.or_else (Val.get "candidates" projection) (List [])) in
    let? signal := mapping_of projection "capacity_signal" in
    let? grouping := group_candidates items signal 1 in
    if gr_serial grouping then Ok (decided CONTINUE_SERIAL "no_conflict_free_parallelism" (Some grouping))
    else Ok (decided CONTINUE_PARALLEL "conflict_free_groups" (Some grouping)).

Definition decide (projection : document) (w : PolicyWeights) (stall_threshold cooldown : Z) : result PolicyExn LoopDecision :=
  let? hard := mapping_of projection "hard_constraints" in
  if negb (safe hard) then Ok (stop STOP_UNSAFE "hard_constraint_violation")
  else if negb (holds "within_budget" hard) then Ok (stop STOP_BUDGET "budget_exhausted")
  else
    let? maintenance := mapping_of projection "maintenance" in
    if deferred maintenance then Ok (stop STOP_BLOCKED "maintenance_deferred")
    else
      let debts := technical_debts projection in
      let? acs_open := int_of projection "acs_open" 0 in
      let? verifiers_failed := int_of projection "verifiers_failed" 0 in
      let? effects_unverified := int_of projection "effects_unverified" 0 in
      if (acs_open =? 0) && (verifiers_failed =? 0) && (effects_unverified =? 0) then
        let? v := compute_v projection w in Ok (mkDecision STOP_SUCCESS "verified" (Some v) (Some 0) None None None debts)
      else
        let blocker_reason := Str.strip (text_of (Val.get "blocked_reason" projection)) in
        if Val.truthy (Val.get "blocked" projection) || Str.truthy blocker_reason then decide_blocked projection blocker_reason debts w
        else decide_drift projection debts w stall_threshold cooldown.

(** * Specification *)

(** The trail ends in a cycle of length [k], twice, that is not constant. *)
Definition ends_in_cycle (trail : list string) (k : nat) : Prop :=
  ∃ pre c, trail = pre ++ c ++ c ∧ length c = k ∧ ∃ x y, x ∈ c ∧ y ∈ c ∧ x ≠ y.
(** The trail ends in at least [n] times [sig]. *)
Definition ends_in_run (trail : list string) (sig : string) (n : Z) : Prop := ∃ pre, trail = pre ++ replicate (Z.to_nat n) sig.

(** The signatures of a run, the current one last. *)
Definition trail_of (history : list document) (current : document) (w : PolicyWeights) (trail : list string) : Prop :=
  ∃ sigs sig, map_result (λ row, state_signature row w) history = Ok sigs ∧ state_signature current w = Ok sig ∧ trail = sigs ++ [sig].

(** The items carry these names, which are distinct. *)
Definition named (items : list document) (names : list string) : Prop := Forall2 (λ i n, dget "id" i = Some (Str n)) items names ∧ NoDup names.
(** Neither writes what the other one reads or writes. *)
Definition apart (i j : document) : Prop := conflicts i j = Ok false ∨ conflicts j i = Ok false.

(** A group in order: small enough, of named items that are apart. *)
Record group_ok (items : list document) (cap : Z) (g : list string) : Prop := {
  go_size : (1 <= length g)%nat ∧ Z.of_nat (length g) <= Z.max 1 cap;
  go_apart m n i j : m ∈ g → n ∈ g → m ≠ n → i ∈ items → j ∈ items → dget "id" i = Some (Str m) → dget "id" j = Some (Str n) → apart i j;
}.

Definition demo_items : list document :=
  [[("id", Str "a"); ("writes", List [Str "x"])]; [("id", Str "b"); ("reads", List [Str "x"])]; [("id", Str "c"); ("writes", List [Str "y"])]].
Definition demo_projection (acs : Z) (history : list Z) : document :=
  [("acs_open", Int acs); ("history", List ((λ n, Obj [("acs_open", Int n)]) <$> history)); ("candidates", List (Obj <$> demo_items))].

(** * Lemmas *)

(** ** Drift *)

Lemma not_constant (c : list string) : (1 < length (remove_dups c))%nat ↔ ∃ x y, x ∈ c ∧ y ∈ c ∧ x ≠ y.
Proof.
  split.
  - intros Hl. pose proof (NoDup_remove_dups c) as Hnd. destruct (remove_dups c) as [|x [|y l]] eqn:E; cbn in Hl; [lia|lia|].
    assert (∀ z, z ∈ x :: y :: l → z ∈ c) as Hin by (intros z; rewrite <- E; apply elem_of_remove_dups).
    exists x, y. split; [apply Hin; by left|]. split; [apply Hin; by do 2 constructor|]. apply NoDup_cons in Hnd as [Hx _]. intros ->. apply Hx. by left.
  - intros (x & y & Hx & Hy & Hne). rewrite <- elem_of_remove_dups in Hx, Hy. destruct (remove_dups c) as [|a [|b l]]; cbn; [by apply not_elem_of_nil in Hx| |lia].
    apply list_elem_of_singleton in Hx, Hy. congruence.
Qed.

Lemma cycles_spec trail k : cycles trail k = true ↔ ends_in_cycle trail k.
Proof.
  unfold cycles, ends_in_cycle. destruct (Nat.ltb_spec (length trail) (k * 2)) as [Hl|Hl].
  - split; [done|]. intros (pre & c & -> & Hc & _). rewrite !length_app in Hl. lia.
  - cbv zeta. rewrite andb_true_iff, bool_decide_eq_true, Nat.ltb_lt, not_constant. set (n := (length trail - k * 2)%nat).
    assert (length (drop n trail) = (k * 2)%nat) as Hw by (rewrite length_drop; lia).
    split.
    + intros [Heq Hc]. exists (take n trail), (take k (drop n trail)). split; [|split; [rewrite length_take; lia|done]].
      rewrite Heq at 2. by rewrite take_drop, take_drop.
    + intros (pre & c & -> & Hc & Hd). assert (n = length pre) as -> by (unfold n; rewrite !length_app; lia).
      rewrite drop_app_length, <- Hc, take_app_length, drop_app_length. done.
Qed.

Lemma oscillation_None trail : oscillation trail = None ↔ ∀ k, k ∈ [2; 3; 4]%nat → ¬ ends_in_cycle trail k.
Proof.
  unfold oscillation. split.
  - intros Hf k Hk Hc. apply cycles_spec in Hc. rewrite list_elem_of_In in Hk. pose proof (find_none _ _ Hf k Hk). congruence.
  - intros Hn. destruct (List.find _ _) as [k|] eqn:E; [|done]. apply find_some in E as [Hk Hc]. rewrite <- list_elem_of_In in Hk.
    apply cycles_spec in Hc. by destruct (Hn k Hk).
Qed.

Lemma oscillation_Some trail k : oscillation trail = Some k → (2 <= k)%nat ∧ k ∈ [2; 3; 4]%nat ∧ ends_in_cycle trail k.
Proof.
  unfold oscillation. intros E. apply find_some in E as [Hk Hc]. split; [cbn in Hk; lia|]. rewrite list_elem_of_In. split; [done|]. by apply cycles_spec.
Qed.

Lemma leading_spec sig l n : (n <= leading sig l)%nat ↔ ∃ suf, l = replicate n sig ++ suf.
Proof.
  revert l. induction n as [|n IH]; intros l; [split; [by exists l|lia]|]. split.
  - destruct l as [|x l]; cbn [leading]; [lia|]. destruct (String.eqb_spec x sig) as [->|]; [|lia]. intros Hn.
    apply le_S_n, IH in Hn as [suf ->]. by exists suf.
  - intros [suf ->]. cbn [replicate app leading]. rewrite String.eqb_refl. apply le_n_S, IH. by eexists.
Qed.

Lemma run_spec trail sig n : Z.max 0 n <= Z.of_nat (leading sig (reverse trail)) ↔ ends_in_run trail sig n.
Proof.
  unfold ends_in_run. transitivity (Z.to_nat n <= leading sig (reverse trail))%nat; [lia|]. rewrite leading_spec. split.
  - intros [suf Hs]. exists (reverse suf). rewrite <- (reverse_involutive trail), Hs, reverse_app, reverse_replicate. done.
  - intros [pre ->]. exists (reverse pre). by rewrite reverse_app, reverse_replicate.
Qed.

Lemma leading_pos sigs sig : 1 <= Z.of_nat (leading sig (reverse (sigs ++ [sig]))).
Proof. rewrite reverse_snoc. cbn [leading]. rewrite String.eqb_refl. lia. Qed.

(** What [classify_drift] returns, when it returns. *)
Lemma classify_inv history current w th d : classify_drift history current w th = Ok d →
  ∃ sigs v p, map_result (λ row, state_signature row w) history = Ok sigs ∧ state_signature current w = Ok (dr_signature d) ∧ compute_v current w = Ok v ∧
    (match last history with Some row => compute_v row w = Ok p | None => p = v end) ∧ dr_v d = v ∧ dr_delta d = v - p ∧
    let trail := sigs ++ [dr_signature d] in let n := Z.of_nat (leading (dr_signature d) (reverse trail)) in
    match oscillation trail with
    | Some k => dr_state d = OSCILLATION ∧ dr_repeat d = Z.of_nat k
    | None => dr_repeat d = n ∧ dr_state d = if th <=? n then STALL else PROGRESS
    end.
Proof.
  unfold classify_drift. intros (sigs & Hs & (sig & Hc & (v & Hv & (pv & Hp & Hd)%rbind_Ok)%rbind_Ok)%rbind_Ok)%rbind_Ok.
  assert (∃ p, (match last history with Some row => compute_v row w = Ok p | None => p = v end) ∧ match pv with Some p => v - p | None => 0 end = v - p) as (p & Hp1 & Hp2).
  { destruct (last history) as [row|]; [|injection Hp as <-; exists v; split; [done|lia]]. apply rbind_Ok in Hp as (p & Hrow & [= <-]). by exists p. }
  exists sigs, v, p. rewrite Hp2 in Hd. cbv zeta in Hd. destruct (oscillation (sigs ++ [sig])) as [k|] eqn:Eo.
  - injection Hd as <-. cbn [dr_signature dr_state dr_repeat dr_v dr_delta]. by rewrite Eo.
  - set (n := Z.of_nat (leading sig (reverse (sigs ++ [sig])))) in *. destruct ((v - p <? 0) && (n <? th)) eqn:E1.
    + injection Hd as <-. cbn [dr_signature dr_state dr_repeat dr_v dr_delta]. rewrite Eo. fold n. zbool. rewrite (proj2 (Z.leb_gt _ _)) by lia. done.
    + destruct (th <=? n) eqn:E2; injection Hd as <-; cbn [dr_signature dr_state dr_repeat dr_v dr_delta]; rewrite Eo; fold n; by rewrite E2.
Qed.

(** ** Groups *)

Section Groups.
Context (items : list document) (names : list string) (Hnamed : named items names).
Context (Hsets : Forall (λ i, ∃ r s, elements_of (Val.get "reads" i) = Ok r ∧ elements_of (Val.get "writes" i) = Ok s) items).
Context (cap : Z) (Hcap : 1 <= cap).
Notation strs := (fmap (M := list) (fmap (M := list) Str)).

Lemma item_named i : i ∈ items → ∃ n, n ∈ names ∧ dget "id" i = Some (Str n).
Proof using Hnamed.
  destruct Hnamed as [Hf _]. intros Hi. apply list_elem_of_lookup in Hi as [k Hk]. destruct (Forall2_lookup_l _ _ _ _ _ Hf Hk) as (n & Hn & Hid).
  exists n. split; [by eapply list_elem_of_lookup_2|done].
Qed.

Lemma item_unique i j n : i ∈ items → j ∈ items → dget "id" i = Some (Str n) → dget "id" j = Some (Str n) → i = j.
Proof using Hnamed.
  destruct Hnamed as [Hf Hnd]. intros Hi Hj Ei Ej. apply list_elem_of_lookup in Hi as [k Hk], Hj as [l Hl].
  destruct (Forall2_lookup_l _ _ _ _ _ Hf Hk) as (m & Hm & E1), (Forall2_lookup_l _ _ _ _ _ Hf Hl) as (m' & Hm' & E2).
  assert (m = n) as -> by congruence. assert (m' = n) as -> by congruence. pose proof (NoDup_lookup _ _ _ _ Hnd Hm Hm'). congruence.
Qed.

Lemma has_id_strs g n : has_id (Str <$> g) (Str n) = true ↔ n ∈ g.
Proof.
  unfold has_id. induction g as [|m g IH]; cbn [fmap list_fmap existsb]; [split; [done|intros H; by apply not_elem_of_nil in H]|].
  unfold same at 1. cbn [scaled Val.eq]. rewrite orb_true_iff, String.eqb_eq, elem_of_cons, IH. done.
Qed.

Lemma members_Ok l g : (∀ i, i ∈ l → i ∈ items) → ∃ ms, members l (Str <$> g) = Ok ms ∧
  (∀ i, i ∈ ms → i ∈ items) ∧ ∀ i m, i ∈ l → dget "id" i = Some (Str m) → m ∈ g → i ∈ ms.
Proof using Hnamed.
  induction l as [|i l IH]; intros Hl; [exists []; split; [done|]; split; [intros i Hi|intros i m Hi]; by apply not_elem_of_nil in Hi|].
  destruct IH as (ms & Hms & Hin & Hall); [intros j Hj; apply Hl; by right|]. destruct (item_named i) as (n & Hn & Hid); [apply Hl; by left|].
  cbn [members]. unfold id_of. rewrite Hid. cbn [or_raise rbind]. rewrite Hms. cbn [rbind]. eexists. split; [reflexivity|].
  destruct (has_id (Str <$> g) (Str n)) eqn:Eh.
  - split; [intros j [->|Hj]%elem_of_cons; [apply Hl; by left|by apply Hin]|]. intros j m [->|Hj]%elem_of_cons Ej Hm; [by left|right; by eapply Hall].
  - split; [done|]. intros j m [->|Hj]%elem_of_cons Ej Hm; [|by eapply Hall]. assert (m = n) as -> by congruence. apply has_id_strs in Hm. congruence.
Qed.

Lemma conflicts_Ok i j : i ∈ items → j ∈ items → ∃ b, conflicts i j = Ok b.
Proof using Hsets.
  rewrite Forall_forall in Hsets. intros Hi Hj. destruct (Hsets i Hi) as (r1 & w1 & E1 & E2), (Hsets j Hj) as (r2 & w2 & E3 & E4).
  unfold conflicts. rewrite E1, E2, E3, E4. by eexists.
Qed.

Lemma any_conflict_Ok i ms : i ∈ items → (∀ j, j ∈ ms → j ∈ items) → ∃ b, any_conflict i ms = Ok b ∧ (b = false → ∀ j, j ∈ ms → conflicts i j = Ok false).
Proof using Hsets.
  intros Hi. induction ms as [|j ms IH]; intros Hms; [exists false; split; [done|]; intros _ j Hj; by apply not_elem_of_nil in Hj|].
  destruct (conflicts_Ok i j Hi (Hms j ltac:(by left))) as [b Hb]. cbn [any_conflict]. rewrite Hb. cbn [rbind]. destruct b; [by exists true|].
  destruct IH as (b & Hb' & Hall); [intros k Hk; apply Hms; by right|]. exists b. split; [done|]. intros -> k [->|Hk]%elem_of_cons; [done|by apply Hall].
Qed.

Lemma place_Ok item n gs : item ∈ items → dget "id" item = Some (Str n) → n ∉ concat gs → Forall (group_ok items cap) gs →
  ∃ r, place items cap item (strs gs) = Ok r ∧
    match r with
    | None => True
    | Some groups' => ∃ gs', groups' = strs gs' ∧ concat gs' ≡ₚ n :: concat gs ∧ Forall (group_ok items cap) gs'
    end.
Proof using Hnamed Hsets Hcap.
  intros Hi Hid Hn Hok. induction gs as [|g gs IH]; [by exists None|]. apply Forall_cons in Hok as [Hg Hgs].
  cbn [concat] in Hn. rewrite elem_of_app in Hn. destruct IH as (r & Hr & Hspec); [tauto|done|].
  assert (∃ r, (let? r := place items cap item (strs gs) in Ok (cons (Str <$> g) <$> r)) = Ok r ∧
    match r with None => True | Some groups' => ∃ gs', groups' = strs gs' ∧ concat gs' ≡ₚ n :: concat (g :: gs) ∧ Forall (group_ok items cap) gs' end) as Hlater.
  { rewrite Hr. cbn [rbind]. eexists. split; [reflexivity|]. destruct r as [groups'|]; [|done]. destruct Hspec as (gs' & -> & Hp & Hok').
    exists (g :: gs'). split; [done|]. split; [|by constructor]. cbn [concat]. rewrite Hp. by rewrite Permutation_middle. }
  cbn [fmap list_fmap place]. fold (strs gs). rewrite length_fmap. destruct (cap <=? Z.of_nat (length g)) eqn:Ec; [exact Hlater|].
  destruct (members_Ok items g ltac:(done)) as (ms & Hms & Hin & Hall). rewrite Hms. cbn [rbind].
  destruct (any_conflict_Ok item ms Hi Hin) as (b & Hb & Hno). rewrite Hb. cbn [rbind]. destruct b; [exact Hlater|].
  unfold id_of. rewrite Hid. cbn [or_raise rbind]. eexists. split; [reflexivity|]. exists ((g ++ [n]) :: gs).
  split; [cbn [fmap list_fmap]; by rewrite fmap_app|]. split; [cbn [concat]; rewrite <- app_assoc; symmetry; apply Permutation_middle|]. constructor; [|done].
  destruct Hg as [[Hg1 Hg2] Hap]. zbool. constructor; [rewrite length_app; cbn [length]; lia|].
  intros m m' i j Hm Hm' Hne Hii Hij Ei Ej. rewrite elem_of_app, list_elem_of_singleton in Hm, Hm'.
  destruct Hm as [Hm| ->], Hm' as [Hm'| ->]; [by apply (Hap m m')| | |done].
  - right. assert (j = item) as -> by by eapply item_unique. apply (Hno eq_refl). by eapply Hall.
  - left. assert (i = item) as -> by by eapply item_unique. apply (Hno eq_refl). by eapply Hall.
Qed.

Lemma group_loop_Ok l ns gs : Forall2 (λ i n, dget "id" i = Some (Str n)) l ns → (∀ i, i ∈ l → i ∈ items) → NoDup (ns ++ concat gs) → Forall (group_ok items cap) gs →
  ∃ gs', group_loop items cap l (strs gs) = Ok (strs gs') ∧ concat gs' ≡ₚ ns ++ concat gs ∧ Forall (group_ok items cap) gs'.
Proof using Hnamed Hsets Hcap.
  intros Hl. revert gs. induction Hl as [|i n l ns Hid Hl IH]; intros gs Hin Hnd Hok; [by exists gs|].
  cbn [group_loop]. cbn [app] in Hnd. apply NoDup_cons in Hnd as [Hn Hnd]. rewrite elem_of_app in Hn.
  destruct (place_Ok i n gs) as (r & Hr & Hspec); [apply Hin; by left|done|tauto|done|]. rewrite Hr. cbn [rbind].
  destruct r as [groups'|].
  - destruct Hspec as (gs1 & -> & Hp & Hok1). cbn [rbind]. destruct (IH gs1) as (gs' & Hrun & Hp' & Hok'); [intros j Hj; apply Hin; by right| |done|].
    + rewrite Hp, <- Permutation_middle. apply NoDup_cons. rewrite elem_of_app. done.
    + exists gs'. split; [done|]. split; [|done]. rewrite Hp', Hp. cbn [app]. by rewrite Permutation_middle.
  - unfold id_of. rewrite Hid. cbn [or_raise rbind]. change [[Str n]] with (strs [[n]]). rewrite <- fmap_app.
    assert (concat (gs ++ [[n]]) ≡ₚ n :: concat gs) as Hp by (rewrite concat_app; cbn; by rewrite Permutation_app_comm).
    destruct (IH (gs ++ [[n]])) as (gs' & Hrun & Hp' & Hok'); [intros j Hj; apply Hin; by right| | |].
    + rewrite Hp, <- Permutation_middle. apply NoDup_cons. rewrite elem_of_app. done.
    + apply Forall_app. split; [done|]. constructor; [|constructor]. constructor; [cbn; lia|].
      intros m m' j k Hm Hm' Hne. apply list_elem_of_singleton in Hm, Hm'. congruence.
    + exists gs'. split; [done|]. split; [|done]. rewrite Hp', Hp. cbn [app]. by rewrite Permutation_middle.
Qed.
End Groups.

Lemma largest_bound groups n : 1 <= n → Forall (λ g : list json, Z.of_nat (length g) <= n) groups → largest groups <= n.
Proof.
  intros Hn Hg. unfold largest. destruct groups as [|g groups]; [done|]. revert Hg. generalize (g :: groups). intros l.
  induction 1 as [|x l Hx _ IH]; cbn [fmap list_fmap foldr]; lia.
Qed.

Lemma group_loop_sizes items cap l groups groups' : 1 <= cap → Forall (λ g : list json, Z.of_nat (length g) <= cap) groups → group_loop items cap l groups = Ok groups' →
  Forall (λ g : list json, Z.of_nat (length g) <= cap) groups'.
Proof.
  intros Hcap. assert (∀ item gs gs', Forall (λ g : list json, Z.of_nat (length g) <= cap) gs → place items cap item gs = Ok (Some gs') →
    Forall (λ g : list json, Z.of_nat (length g) <= cap) gs') as Hplace.
  { intros item gs. induction gs as [|g gs IH]; intros gs' Hg; [done|]. apply Forall_cons in Hg as [Hg Hgs]. cbn [place]. cbv zeta.
    assert ((let? r := place items cap item gs in Ok (cons g <$> r)) = Ok (Some gs') → Forall (λ g : list json, Z.of_nat (length g) <= cap) gs') as Hl.
    { intros (r & Hr & E)%rbind_Ok. destruct r as [r|]; [|done]. injection E as <-. constructor; [done|]. by apply IH. }
    destruct (cap <=? _) eqn:Ec; [done|]. intros (ms & _ & (c & _ & Hc)%rbind_Ok)%rbind_Ok. destruct c; [by apply Hl|].
    apply rbind_Ok in Hc as (v & _ & [= <-]). constructor; [|done]. rewrite length_app. cbn. zbool. lia. }
  revert groups. induction l as [|i l IH]; intros groups Hg; cbn [group_loop]; [by intros [= <-]|].
  intros (r & Hr & (gs & Hgs & Hl)%rbind_Ok)%rbind_Ok. apply (IH gs); [|done]. destruct r as [gs1|].
  - injection Hgs as <-. by eapply Hplace.
  - apply rbind_Ok in Hgs as (v & _ & [= <-]). apply Forall_app. split; [done|]. constructor; [cbn; lia|constructor].
Qed.

(** ** Decisions *)

Lemma decide_inv p w th cd r hard : mapping_of p "hard_constraints" = Ok hard → decide p w th cd = Ok r →
  if negb (safe hard) then ld_decision r = STOP_UNSAFE
  else if negb (holds "within_budget" hard) then ld_decision r = STOP_BUDGET
  else ∃ maintenance acs ver eff, mapping_of p "maintenance" = Ok maintenance ∧
    if deferred maintenance then ld_decision r = STOP_BLOCKED
    else int_of p "acs_open" 0 = Ok acs ∧ int_of p "verifiers_failed" 0 = Ok ver ∧ int_of p "effects_unverified" 0 = Ok eff ∧
      if (acs =? 0) && (ver =? 0) && (eff =? 0) then ld_decision r = STOP_SUCCESS
      else if Val.truthy (Val.get "blocked" p) || Str.truthy (Str.strip (text_of (Val.get "blocked_reason" p))) then
        decide_blocked p (Str.strip (text_of (Val.get "blocked_reason" p))) (technical_debts p) w = Ok r
      else decide_drift p (technical_debts p) w th cd = Ok r.
Proof.
  intros Hh. unfold decide. rewrite Hh. cbn [rbind]. destruct (negb (safe hard)); [by intros [= <-]|]. destruct (negb _); [by intros [= <-]|].
  intros (m & Hm & Hr)%rbind_Ok. destruct (deferred m) eqn:Ed; [injection Hr as <-; exists m, 0, 0, 0; by rewrite Ed|].
  apply rbind_Ok in Hr as (a & Ha & (b & Hb & (c & Hc & Hr)%rbind_Ok)%rbind_Ok). exists m, a, b, c. rewrite Ed. split; [done|]. split; [done|]. split; [done|]. split; [done|].
  destruct (_ && _ && _); [|by destruct (_ || _)]. by apply rbind_Ok in Hr as (v & _ & [= <-]).
Qed.

Lemma decide_blocked_inv p reason debts w r : decide_blocked p reason debts w = Ok r →
  ld_decision r = CONTINUE_SERIAL ∧ (debts ≠ [] ∨ is_Some (ld_recovery r)) ∧ ld_grouping r = None ∨ ld_decision r = STOP_BLOCKED ∧ ld_grouping r = None.
Proof.
  unfold decide_blocked. intros (rec & _ & Hr)%rbind_Ok. destruct rec as [[]|].
  - apply rbind_Ok in Hr as (v & _ & [= <-]). left. cbn. by eauto.
  - cbv zeta in Hr. apply rbind_Ok in Hr as (v & _ & Hr). destruct debts; cbn [negb andb] in Hr; [injection Hr as <-; by right|].
    destruct (_ || _); injection Hr as <-; [left|right]; cbn; by eauto.
  - cbv zeta in Hr. apply rbind_Ok in Hr as (v & _ & Hr). destruct debts; cbn [negb andb] in Hr; [injection Hr as <-; by right|].
    destruct (_ || _); injection Hr as <-; [left|right]; cbn; by eauto.
Qed.

Lemma decide_drift_inv p debts w th cd r : decide_drift p debts w th cd = Ok r →
  ∃ history d, mappings (Val.or_else (Val.get "history" p) (List [])) = Ok history ∧ classify_drift history p w th = Ok d ∧
    match dr_state d with
    | PROGRESS => ∃ items signal g, mappings (Val.or_else (Val.get "candidates" p) (List [])) = Ok items ∧ mapping_of p "capacity_signal" = Ok signal ∧
        group_candidates items signal 1 = Ok g ∧ ld_grouping r = Some g ∧ ld_decision r = if gr_serial g then CONTINUE_SERIAL else CONTINUE_PARALLEL
    | STALL => ld_grouping r = None ∧ ld_decision r = if dr_repeat d <? cd then OBSERVE_WAIT else REPLAN
    | OSCILLATION => ld_grouping r = None ∧ ld_decision r = if dr_repeat d <? cd then OBSERVE_WAIT else ESCALATE
    end.
Proof.
  unfold decide_drift. intros (h & Hh & (d & Hd & Hr)%rbind_Ok)%rbind_Ok. exists h, d. split; [done|]. split; [done|].
  destruct (dr_state d) eqn:Es; cbn [bool_decide negb] in Hr.
  - rewrite bool_decide_eq_true_2 in Hr by done. cbn [negb] in Hr. apply rbind_Ok in Hr as (items & Hi & (signal & Hs & (g & Hg & Hr)%rbind_Ok)%rbind_Ok).
    exists items, signal, g. split; [done|]. split; [done|]. split; [done|]. destruct (gr_serial g); by injection Hr as <-.
  - rewrite !bool_decide_eq_false_2 in Hr by done. cbn [negb] in Hr. destruct (dr_repeat d <? cd); by injection Hr as <-.
  - rewrite bool_decide_eq_false_2 in Hr by done. cbn [negb] in Hr. rewrite bool_decide_eq_true_2 in Hr by done. destruct (dr_repeat d <? cd); by injection Hr as <-.
Qed.

Lemma drift_decision p debts w th cd r : decide_drift p debts w th cd = Ok r →
  ld_decision r ∈ [CONTINUE_SERIAL; CONTINUE_PARALLEL; OBSERVE_WAIT; REPLAN; ESCALATE].
Proof.
  intros (h & d & _ & _ & Hd)%decide_drift_inv. apply list_elem_of_In. cbn. destruct (dr_state d).
  - destruct Hd as (items & signal & g & _ & _ & _ & _ & ->). destruct (gr_serial g); tauto.
  - destruct Hd as [_ ->]. destruct (_ <? _); tauto.
  - destruct Hd as [_ ->]. destruct (_ <? _); tauto.
Qed.

(** * Properties *)

(** C39: Hard constraints come first and no weight, threshold or drift outruns
    them. When a decision is returned, it is to stop as unsafe exactly if a safety,
    authority or privacy constraint failed, to stop for the budget exactly if those
    hold and the run is out of budget, and to stop with success exactly if besides
    maintenance is not deferred and the counts of open criteria, of failed verifiers
    and of unverified effects are zero as whole numbers: int() drops a fraction
    towards zero, so that half a criterion is none ([half_open_is_success]). *)
Theorem decide_priorities p w th cd r hard : mapping_of p "hard_constraints" = Ok hard → decide p w th cd = Ok r →
  (ld_decision r = STOP_UNSAFE ↔ safe hard = false) ∧
  (ld_decision r = STOP_BUDGET ↔ safe hard = true ∧ holds "within_budget" hard = false) ∧
  (ld_decision r = STOP_SUCCESS ↔ safe hard = true ∧ holds "within_budget" hard = true ∧
     (∃ maintenance, mapping_of p "maintenance" = Ok maintenance ∧ deferred maintenance = false) ∧
     int_of p "acs_open" 0 = Ok 0 ∧ int_of p "verifiers_failed" 0 = Ok 0 ∧ int_of p "effects_unverified" 0 = Ok 0).
Proof.
  intros Hh Hr. pose proof (decide_inv _ _ _ _ _ _ Hh Hr) as Hi. destruct (safe hard); cbn [negb] in Hi; [|rewrite Hi; naive_solver].
  destruct (holds "within_budget" hard); cbn [negb] in Hi; [|rewrite Hi; naive_solver].
  destruct Hi as (m & a & b & c & Hm & Hi). destruct (deferred m) eqn:Ed.
  { rewrite Hi. split; [done|]. split; [by split; [|intros []]|]. split; [done|]. intros (_ & _ & (m' & Hm' & Hd') & _). congruence. }
  destruct Hi as (Ha & Hb & Hc & Hi). destruct ((a =? 0) && (b =? 0) && (c =? 0)) eqn:Ez.
  - rewrite Hi. zbool. subst. split; [done|]. split; [naive_solver|]. split; [|done]. intros _. eauto 10.
  - assert (ld_decision r ∈ [CONTINUE_SERIAL; CONTINUE_PARALLEL; OBSERVE_WAIT; REPLAN; ESCALATE; STOP_BLOCKED]) as Hd.
    { apply list_elem_of_In. cbn. destruct (_ || _).
      - apply decide_blocked_inv in Hi as [(-> & _)|[-> _]]; tauto.
      - apply drift_decision in Hi. rewrite list_elem_of_In in Hi. cbn in Hi. tauto. }
    assert (¬ (int_of p "acs_open" 0 = Ok 0 ∧ int_of p "verifiers_failed" 0 = Ok 0 ∧ int_of p "effects_unverified" 0 = Ok 0)) as Hno.
    { intros (Ha' & Hb' & Hc'). rewrite Ha in Ha'. rewrite Hb in Hb'. rewrite Hc in Hc'. injection Ha' as ->. injection Hb' as ->. by injection Hc' as ->. }
    rewrite list_elem_of_In in Hd. cbn in Hd. destruct (ld_decision r); naive_solver.
Qed.

(** The classification of the drift, by the trail of signatures alone: it
    oscillates exactly if the trail ends in a cycle of length two, three or four,
    twice, that is not constant; else it has stalled exactly if the trail ends in
    as many equal signatures as the threshold says; else it progresses. *)
Theorem classify_drift_exact history current w th d trail : classify_drift history current w th = Ok d → trail_of history current w trail →
  (dr_state d = OSCILLATION ↔ ∃ k, k ∈ [2; 3; 4]%nat ∧ ends_in_cycle trail k) ∧
  (dr_state d = STALL ↔ (∀ k, k ∈ [2; 3; 4]%nat → ¬ ends_in_cycle trail k) ∧ ends_in_run trail (dr_signature d) th).
Proof.
  intros Hd (sigs' & sig & Hs' & Hc' & ->). apply classify_inv in Hd as (sigs & v & p & Hs & Hc & _ & _ & _ & _ & Hx).
  rewrite Hs in Hs'. injection Hs' as <-. rewrite Hc in Hc'. injection Hc' as <-. cbv zeta in Hx. rewrite <- run_spec.
  destruct (oscillation _) as [k|] eqn:Eo.
  - destruct Hx as [-> _]. apply oscillation_Some in Eo as (_ & Hk & Hcyc). split; [split; [by eauto|done]|]. split; [done|]. intros [Hn _]. by destruct (Hn k Hk).
  - destruct Hx as [_ ->]. pose proof (proj1 (oscillation_None _) Eo) as Hno. set (n := Z.of_nat _). destruct (Z.leb_spec th n); (split; [split; [done|naive_solver]|]); split; try done.
    + intros _. split; [done|]. lia.
    + intros [_ Hr]. lia.
Qed.

(** Groups partition the candidates: every candidate is in one group, groups
    are within the cap, and of two candidates of a group neither writes what the
    other reads or writes. Grouping returns for all candidates with names and sets
    of texts. *)
Theorem groups_sound items names signal prior : named items names →
  Forall (λ i, ∃ r s, elements_of (Val.get "reads" i) = Ok r ∧ elements_of (Val.get "writes" i) = Ok s) items →
  ∃ (g : Grouping) (gs : list (list string)), group_candidates items signal prior = Ok g ∧ gr_groups g = fmap (M := list) (fmap (M := list) Str) gs ∧ concat gs ≡ₚ names ∧
    Forall (group_ok items (group_cap signal prior)) gs ∧
    (gr_serial g = true ↔ Forall (λ g, length g = 1%nat) gs).
Proof.
  intros Hn Hs. assert (1 <= group_cap signal prior) as Hcap by (unfold group_cap; destruct (rising signal); lia).
  destruct (group_loop_Ok items names Hn Hs _ Hcap items names []) as (gs & Hrun & Hp & Hok); [apply Hn|done|rewrite app_nil_r; apply Hn|constructor|].
  rewrite app_nil_r in Hp. unfold group_candidates. cbn [fmap list_fmap] in Hrun. rewrite Hrun. cbn [rbind]. eexists _, gs. split; [reflexivity|]. cbn [gr_groups gr_serial].
  split; [done|]. split; [done|]. split; [done|].
  assert (forallb (λ g, Nat.eqb (length g) 1) (fmap (M := list) (fmap (M := list) Str) gs) = true ↔ Forall (λ g, length g = 1%nat) gs) as Hall.
  { rewrite forallb_forall, Forall_forall. setoid_rewrite <- list_elem_of_In. split.
    - intros H g Hg. specialize (H (Str <$> g)). rewrite length_fmap, Nat.eqb_eq in H. apply H. by apply list_elem_of_fmap_2.
    - intros H g (g' & -> & Hg)%list_elem_of_fmap. rewrite length_fmap. apply Nat.eqb_eq. by apply H. }
  rewrite orb_true_iff, Hall. split; [intros [H|H]; [done|]|by left].
  destruct items; [|done]. destruct Hn as [Hf _]. apply Forall2_nil_inv_l in Hf as ->. apply Permutation_nil_r in Hp.
  destruct Hok as [|g gs Hg]; [constructor|]. apply go_size in Hg as [Hg _]. destruct g; [cbn in Hg; lia|done].
Qed.

(** The controller never recommends more than two at a time, and with a
    threshold of at least the cooldown and a cooldown of at most two, the
    defaults, never to wait: the additive increase and the hysteresis that the
    module describes are out of reach of [decide]. *)
Theorem concurrency_at_most_two p w th cd r hard : mapping_of p "hard_constraints" = Ok hard → decide p w th cd = Ok r →
  (∀ g, ld_grouping r = Some g → gr_concurrency g <= 2) ∧ (cd <= 2 → cd <= th → ld_decision r ≠ OBSERVE_WAIT).
Proof.
  intros Hh Hr. pose proof (decide_inv _ _ _ _ _ _ Hh Hr) as Hi. destruct (negb (safe hard)) eqn:E1.
  { split; [|by rewrite Hi]. unfold decide in Hr. rewrite Hh in Hr. cbn [rbind] in Hr. rewrite E1 in Hr. by injection Hr as <-. }
  destruct (negb (holds _ hard)) eqn:E2.
  { split; [|by rewrite Hi]. unfold decide in Hr. rewrite Hh in Hr. cbn [rbind] in Hr. rewrite E1, E2 in Hr. by injection Hr as <-. }
  destruct Hi as (m & a & b & c & Hm & Hi). destruct (deferred m) eqn:Ed.
  { split; [|by rewrite Hi]. unfold decide in Hr. rewrite Hh in Hr. cbn [rbind] in Hr. rewrite E1, E2, Hm in Hr. cbn [rbind] in Hr. rewrite Ed in Hr. by injection Hr as <-. }
  destruct Hi as (Ha & Hb & Hc & Hi). destruct (_ && _ && _) eqn:Ez.
  { split; [|by rewrite Hi]. unfold decide in Hr. rewrite Hh in Hr. cbn [rbind] in Hr. rewrite E1, E2, Hm in Hr. cbn [rbind] in Hr. rewrite Ed, Ha, Hb, Hc in Hr. cbn [rbind] in Hr.
    rewrite Ez in Hr. by apply rbind_Ok in Hr as (v & _ & [= <-]). }
  destruct (_ || _); [apply decide_blocked_inv in Hi as [(-> & _ & ->)|[-> ->]]; done|].
  apply decide_drift_inv in Hi as (h & d & Hh' & Hd & Hx). apply classify_inv in Hd as (sigs & v & q & _ & _ & _ & _ & _ & _ & Hst). cbv zeta in Hst.
  assert (cd <= 2 → cd <= th → dr_state d ≠ PROGRESS → cd <= dr_repeat d) as Hrep.
  { intros H2 Hth Hne. destruct (oscillation _) as [k|] eqn:Eo.
    - destruct Hst as [_ ->]. apply oscillation_Some in Eo as (Hk & _). lia.
    - destruct Hst as [-> Hs]. destruct (Z.leb_spec th (Z.of_nat (leading (dr_signature d) (reverse (sigs ++ [dr_signature d]))))); [lia|congruence]. }
  destruct (dr_state d).
  - destruct Hx as (items & signal & g & _ & _ & Hg & -> & ->). split; [|by destruct (gr_serial g)]. intros g' [= <-].
    unfold group_candidates in Hg. apply rbind_Ok in Hg as (groups & Hl & [= <-]). cbn [gr_concurrency]. apply largest_bound; [lia|].
    assert (1 <= group_cap signal 1 <= 2) as Hcap by (unfold group_cap; destruct (rising signal); lia).
    eapply Forall_impl; [eapply group_loop_sizes; [|apply Forall_nil_2|exact Hl]; lia|]. intros x Hx. cbn in Hx. lia.
  - destruct Hx as [-> ->]. split; [done|]. intros H2 Hth. rewrite (proj2 (Z.ltb_ge _ _)) by (by apply Hrep). done.
  - destruct Hx as [-> ->]. split; [done|]. intros H2 Hth. rewrite (proj2 (Z.ltb_ge _ _)) by (by apply Hrep). done.
Qed.

(** Recovery is bounded: a blocker is to be recovered from exactly if it is a
    known one and fewer attempts were made than allowed; the action is one of those
    allowed for it. *)
Theorem recovery_bounded blocker attempts max_attempts r : recovery_stage blocker attempts max_attempts = Ok r →
  match r with
  | RecoveryContinue _ attempt _ action allowed =>
      0 <= attempts < max_attempts ∧ attempt = attempts + 1 ∧ action ∈ allowed ∧ dget (Str.lower (Str.strip blocker)) RECOVERABLE = Some allowed
  | RecoveryBlocked _ _ _ allowed => (dget (Str.lower (Str.strip blocker)) RECOVERABLE = None ∧ allowed = []) ∨ max_attempts <= attempts
  end.
Proof.
  unfold recovery_stage. destruct (dget _ RECOVERABLE) as [actions|] eqn:Ed; [|intros [= <-]; by left]. destruct (_ || _) eqn:Eb; [done|]. zbool.
  destruct (Z.leb_spec max_attempts attempts); intros [= <-]; [by right|]. split; [lia|]. split; [done|]. split; [|done].
  destruct (actions !! Z.to_nat attempts) as [a|] eqn:Ea; [by eapply list_elem_of_lookup_2|].
  assert (actions ≠ []) as Hne by (intros ->; apply dget_Some_pair in Ed; cbn in Ed; set_solver). destruct actions as [|a l _] using rev_ind; [done|]. rewrite last_snoc. cbn. rewrite elem_of_app. right. by left.
Qed.

(** * Examples *)

Lemma decide_priorities_witness :
  let p := dput "hard_constraints" (Obj [("within_budget", Bool false)]) (demo_projection 0 []) in
  ld_decision <$> (match decide p DEFAULT_WEIGHTS 3 2 with Ok r => Some r | Err _ => None end) = Some STOP_BUDGET ∧
  ∃ r, ld_decision r = STOP_BUDGET ∧ ld_decision r ≠ STOP_SUCCESS.
Proof.
  intros p. assert (mapping_of p "hard_constraints" = Ok [("within_budget", Bool false)]) as Hh by reflexivity.
  assert (decide p DEFAULT_WEIGHTS 3 2 = Ok (stop STOP_BUDGET "budget_exhausted")) as Hr by reflexivity.
  destruct (decide_priorities p DEFAULT_WEIGHTS 3 2 _ _ Hh Hr) as (_ & [_ H2] & _). split; [reflexivity|].
  exists (stop STOP_BUDGET "budget_exhausted"). split; [apply H2; split; reflexivity|discriminate].
Defined.

Lemma classify_drift_exact_witness :
  let history := [[("acs_open", Int 3)]; [("acs_open", Int 2)]; [("acs_open", Int 3)]] in
  ∃ k, k ∈ [2; 3; 4]%nat ∧ ends_in_cycle ["3.000000"; "2.000000"; "3.000000"; "2.000000"] k.
Proof.
  intros history. assert (trail_of history [("acs_open", Int 2)] DEFAULT_WEIGHTS ["3.000000"; "2.000000"; "3.000000"; "2.000000"]) as Ht.
  { exists ["3.000000"; "2.000000"; "3.000000"], "2.000000". split; [vm_compute; reflexivity|]. split; [vm_compute; reflexivity|reflexivity]. }
  assert (classify_drift history [("acs_open", Int 2)] DEFAULT_WEIGHTS 3 = Ok (mkDrift OSCILLATION 128 (-64) 2 "2.000000")) as Hd by (vm_compute; reflexivity).
  destruct (classify_drift_exact _ _ _ _ _ _ Hd Ht) as [[H _] _]. apply H. reflexivity.
Defined.

Lemma groups_sound_witness : ∃ g gs, group_candidates demo_items [] 1 = Ok g ∧ gr_groups g = fmap (M := list) (fmap (M := list) Str) gs ∧ concat gs ≡ₚ ["a"; "b"; "c"] ∧
  gr_groups g = [[Str "a"; Str "c"]; [Str "b"]].
Proof.
  assert (named demo_items ["a"; "b"; "c"]) as Hn by (split; [repeat constructor|by_compute]).
  assert (Forall (λ i, ∃ r s, elements_of (Val.get "reads" i) = Ok r ∧ elements_of (Val.get "writes" i) = Ok s) demo_items) as Hs.
  { repeat constructor; eexists _, _; split; reflexivity. }
  destruct (groups_sound demo_items ["a"; "b"; "c"] [] 1 Hn Hs) as (g & gs & Hg & Hgs & Hp & _). exists g, gs. split; [exact Hg|]. split; [exact Hgs|]. split; [exact Hp|].
  assert (group_candidates demo_items [] 1 = Ok (mkGrouping [[Str "a"; Str "c"]; [Str "b"]] 2 false)) as E by (vm_compute; reflexivity).
  rewrite Hg in E. injection E as ->. reflexivity.
Defined.

Lemma concurrency_at_most_two_witness : ∃ r, decide (demo_projection 2 [1]) DEFAULT_WEIGHTS 3 2 = Ok r ∧ ld_decision r = CONTINUE_PARALLEL ∧ ld_decision r ≠ OBSERVE_WAIT.
Proof.
  assert (mapping_of (demo_projection 2 [1]) "hard_constraints" = Ok []) as Hh by reflexivity.
  assert (decide (demo_projection 2 [1]) DEFAULT_WEIGHTS 3 2 = Ok (mkDecision CONTINUE_PARALLEL "conflict_free_groups" (Some 128) (Some 64) (Some PROGRESS) None
    (Some (mkGrouping [[Str "a"; Str "c"]; [Str "b"]] 2 false)) [])) as Hr by (vm_compute; reflexivity).
  eexists. split; [exact Hr|]. split; [reflexivity|]. destruct (concurrency_at_most_two _ _ _ _ _ _ Hh Hr) as [_ H]. apply H; discriminate.
Defined.

Lemma recovery_bounded_witness : ∃ r, recovery_stage " Live_Lock " 1 2 = Ok r ∧
  match r with
  | RecoveryContinue _ attempt _ action allowed => 0 <= 1 < 2 ∧ attempt = 1 + 1 ∧ action ∈ allowed ∧ dget (Str.lower (Str.strip " Live_Lock ")) RECOVERABLE = Some allowed
  | RecoveryBlocked _ _ _ allowed => (dget (Str.lower (Str.strip " Live_Lock ")) RECOVERABLE = None ∧ allowed = []) ∨ 2 <= 1
  end.
Proof.
  assert (recovery_stage " Live_Lock " 1 2 = Ok (RecoveryContinue "live_lock_recovery_pending" 2 2 "bounded_wait" ["diagnose_ownership"; "bounded_wait"])) as Hr by (vm_compute; reflexivity).
  eexists. split; [exact Hr|]. exact (recovery_bounded _ _ _ _ Hr).
Defined.

(** A run whose drift candidate grows is said to progress. *)
Example growing_drift_is_progress :
  dr_state <$> (match classify_drift [[("acs_open", Int 1)]] [("acs_open", Int 5)] DEFAULT_WEIGHTS 3 with Ok d => Some d | Err _ => None end) = Some PROGRESS.
Proof. vm_compute. reflexivity. Qed.

(** One whose candidate falls, under the same supplied signature, is said to stall. *)
Example falling_drift_may_stall :
  let row n := [("acs_open", Int n); ("state_signature", Str "s")] in
  match classify_drift [row 9; row 8] (row 7) DEFAULT_WEIGHTS 3 with Ok d => Some (dr_state d, dr_delta d) | Err _ => None end = Some (STALL, -64).
Proof. vm_compute. reflexivity. Qed.

(** Half a criterion is open and counts in the drift candidate, and the run stops with success. *)
Example half_open_is_success :
  (match decide [("acs_open", Float 8)] DEFAULT_WEIGHTS 3 2 with Ok r => Some (ld_decision r, ld_v r) | Err _ => None end) = Some (STOP_SUCCESS, Some 32) ∧
  fixed6 32 = "0.500000".
Proof. split; vm_compute; reflexivity. Qed.

(** Nothing is open, but maintenance is deferred: the run is blocked. *)
Example deferred_before_success :
  (match decide [("maintenance", Obj [("mode", Str "maintenance_deferred")])] DEFAULT_WEIGHTS 3 2 with Ok r => Some (ld_decision r) | Err _ => None end) = Some STOP_BLOCKED.
Proof. vm_compute. reflexivity. Qed.

(** Constraints that are given as pairs are read as a mapping. *)
Example constraints_as_pairs :
  (match decide [("hard_constraints", List [List [Str "safe"; Bool false]])] DEFAULT_WEIGHTS 3 2 with Ok r => Some (ld_decision r) | Err _ => None end) = Some STOP_UNSAFE ∧
  text_of (List [Float 8; Int 3]) = "[0.5, 3]" ∧ same (Float 16) (Bool true) = true ∧ fixed6 (-65) = "-1.015625".
Proof. repeat split; vm_compute; reflexivity. Qed.
