(* ===== verification/Convergence.v ===== *)
(** The semantic convergence controller ([simplicio_loop/semantic_convergence.py]):
    typed progress signals, the merge with the loop's own evidence, and the
    state machine that stalls, replans, reroutes, escalates and drains. Signals
    arrive as JSON documents; times are floats with integer values. *)
From S2P Require Import Prelude PyLib PyText.
Import Text.
Local Open Scope Z_scope.
Local Open Scope py_scope.

(** * Definitions *)

Definition SCHEMA : string := "simplicio.progress-signal/v1".
Definition CONTROLLER_SCHEMA : string := "simplicio.semantic-convergence/v1".

Inductive ControllerState : Type :=
| PROGRESSING | STALLED | REPLAN | REROUTE | ESCALATE | DRAIN | WAITING | BLOCKED | FAILED | VERIFIED.
#[export] Instance ControllerState_eq_dec : EqDecision ControllerState.
Proof. solve_decision. Defined.

Definition value (s : ControllerState) : string :=
  match s with
  | PROGRESSING => "PROGRESSING" | STALLED => "STALLED" | REPLAN => "REPLAN" | REROUTE => "REROUTE" | ESCALATE => "ESCALATE"
  | DRAIN => "DRAIN" | WAITING => "WAITING" | BLOCKED => "BLOCKED" | FAILED => "FAILED" | VERIFIED => "VERIFIED"
  end.

Definition TERMINAL_STATES : list ControllerState := [BLOCKED; FAILED; VERIFIED].

(** [_ALLOWED] *)
Definition ALLOWED (s : ControllerState) : list ControllerState :=
  match s with
  | PROGRESSING => [PROGRESSING; STALLED; WAITING; BLOCKED; FAILED; VERIFIED]
  | STALLED => [STALLED; REPLAN; WAITING; BLOCKED; FAILED; VERIFIED]
  | REPLAN => [REPLAN; REROUTE; BLOCKED; FAILED; VERIFIED]
  | REROUTE => [REROUTE; ESCALATE; BLOCKED; FAILED; VERIFIED]
  | ESCALATE => [ESCALATE; DRAIN; BLOCKED; FAILED; VERIFIED]
  | DRAIN => [DRAIN; PROGRESSING; STALLED; BLOCKED; FAILED; VERIFIED]
  | WAITING => [WAITING; PROGRESSING; STALLED; BLOCKED; FAILED; VERIFIED]
  | BLOCKED => [BLOCKED]
  | FAILED => [FAILED]
  | VERIFIED => [VERIFIED]
  end.

Definition SEMANTIC_KEYS : list string :=
  ["task_frontier"; "files_hash"; "diff_hash"; "tree_hash"; "validation"; "receipts"; "blockers"; "tool_result";
   "user_input"; "delivery"; "external_state"].

(** [SignalError], [TransitionError], and what [float()] of a bad deadline raises. *)
Inductive ConvergenceExn : Type :=
| SignalError (msg : string)
| TransitionError (msg : string)
| FloatError.

Notation converged := (result ConvergenceExn).
Notation fields := (list (string * Json.json)).

(** [_digest] *)
Definition digest (v : Json.json) : string := Sha256.hexdigest (Json.dumps true v).

(** [{key: source[key] for key in _SEMANTIC_KEYS if key in source}] *)
Definition pick (source : fields) : fields := omap (λ k, (λ v, (k, v)) <$> dget k source) SEMANTIC_KEYS.

(** [_semantic_values] *)
Definition semantic_values (raw : fields) : converged fields :=
  match Val.or_else (Val.get "semantic" raw) (Val.or_else (Val.get "changes" raw) (Json.Obj [])) with
  | Json.Obj source => Ok (pick source)
  | _ => Err (SignalError "semantic changes must be a mapping, not prose")
  end.

Record ProgressSignal := mkSignal {
  signal_id : string;
  source : string;
  sg_evidence_id : string;
  sg_evidence_hash : string;
  sg_semantic : fields;
  strategy_hash : string;
  outcome : string;
  action : string;
  wait : fields;
}.

Record EvidenceSnapshot := mkEvidence {
  evidence_id : string;
  evidence_hash : string;
  semantic : fields;
  acceptance_verified : bool;
  delivery_verified : bool;
  external_changed : bool;
}.

Definition semantic_hash (e : EvidenceSnapshot) : string := digest (Json.Obj (semantic e)).

(** [normalize_signal] *)
Definition normalize_signal (raw : Json.json) : converged ProgressSignal :=
  match raw with
  | Json.Obj r =>
      if negb (match Val.get "schema" r with Json.Str s => String.eqb s SCHEMA | _ => false end)
      then Err (SignalError "signal schema must be simplicio.progress-signal/v1")
      else
        let id := Str.strip (Val.text (Val.get "signal_id" r)) in
        let src := Str.strip (Val.text (Val.get "source" r)) in
        if negb (Str.truthy id) || negb (bool_decide (src ∈ ["agent"; "loop"]))
        then Err (SignalError "signal_id and source (agent or loop) are required")
        else
          match Val.get "evidence" r with
          | Json.Obj ev =>
              let eid := Str.strip (Val.text (Val.get "id" ev)) in
              let ehash := Str.strip (Val.text (Val.get "hash" ev)) in
              if negb (Str.truthy eid) && negb (Str.truthy ehash)
              then Err (SignalError "typed signal requires a concrete evidence id or hash")
              else
                let? sem := semantic_values r in
                match Val.or_else (Val.get "wait" r) (Json.Obj []) with
                | Json.Obj w =>
                    Ok (mkSignal id src (if Str.truthy eid then eid else ehash)
                          (if Str.truthy ehash then ehash else digest (Json.Obj ev)) sem
                          (Val.text (Val.get "strategy_hash" r))
                          (Str.lower (Val.str (Val.or_else (Val.get "outcome" r) (Json.Str "progress"))))
                          (Str.lower (Val.text (Val.get "action" r))) w)
                | _ => Err (SignalError "wait must be a mapping")
                end
          | _ => Err (SignalError "typed signal requires evidence id/hash")
          end
  | _ => Err (SignalError "signal schema must be simplicio.progress-signal/v1")
  end.

(** [merge_evidence] *)
Definition merge_evidence (sg : ProgressSignal) (loop : fields) : EvidenceSnapshot :=
  let extra := Val.or_else (Val.get "semantic" loop) (Val.or_else (Val.get "changes" loop) (Json.Obj [])) in
  let sem := match extra with
             | Json.Obj e => foldl (λ d kv, dput kv.1 kv.2 d) (sg_semantic sg) (pick e)
             | _ => sg_semantic sg
             end in
  let first_of k rest := if Val.truthy (Val.get k loop) then Val.str (Val.get k loop) else rest in
  let eid := first_of "evidence_id" (first_of "evidence_hash" (sg_evidence_id sg)) in
  let ehash := first_of "evidence_hash" (if Str.truthy (sg_evidence_hash sg) then sg_evidence_hash sg else digest (Json.Obj sem)) in
  mkEvidence eid ehash sem (Val.truthy (Val.get "acceptance_verified" loop)) (Val.truthy (Val.get "delivery_verified" loop))
    (Val.truthy (Val.get "external_changed" loop)).

(** ** The controller *)

Record Transition := mkTransition {
  t_from : ControllerState;
  t_to : ControllerState;
  t_reason : string;
  t_evidence_id : string;
  t_evidence_hash : string;
}.

Record ConvergenceController := mkController {
  state : ControllerState;
  stall_window : Z;
  replans : Z;
  reroutes : Z;
  escalations : Z;
  attempts : Z;
  max_replans : Z;
  max_reroutes : Z;
  max_escalations : Z;
  max_attempts : Z;
  last_semantic_hash : string;
  last_strategy_hash : string;
  transitions : list Transition;
}.
#[export] Instance ConvergenceController_eta : Eta ConvergenceController := λ c,
  mkController (state c) (stall_window c) (replans c) (reroutes c) (escalations c) (attempts c) (max_replans c) (max_reroutes c)
    (max_escalations c) (max_attempts c) (last_semantic_hash c) (last_strategy_hash c) (transitions c).

(** A new controller, its caps given or the defaults. *)
Definition new_controller (mrp mrr mes mat : Z) : ConvergenceController :=
  mkController PROGRESSING 0 0 0 0 0 mrp mrr mes mat "" "" [].
Definition default_controller : ConvergenceController := new_controller 3 3 2 20.

Record Receipt := mkReceipt {
  rc_state : ControllerState;
  rc_reason : string;
  rc_semantic_changed : bool;
  rc_stall_window : Z;
  rc_counters : Z * Z * Z * Z;
  rc_transition : Transition;
  rc_evidence_id : string;
  rc_evidence_hash : string;
}.

(** [_receipt] *)
Definition receipt (c : ConvergenceController) (e : EvidenceSnapshot) (t : Transition) (reason : string) (changed : bool) : Receipt :=
  mkReceipt (state c) reason changed (stall_window c) (replans c, reroutes c, escalations c, attempts c) t (evidence_id e) (evidence_hash e).

Notation reply := (ConvergenceController * converged Receipt)%type.

(** [transition] followed by the receipt, as [step] always calls it. *)
Definition transition (c : ConvergenceController) (target : ControllerState) (e : EvidenceSnapshot) (reason : string) (changed : bool) : reply :=
  if negb (Str.truthy (evidence_id e)) && negb (Str.truthy (evidence_hash e))
  then (c, Err (TransitionError "every transition needs concrete evidence"))
  else if negb (bool_decide (target ∈ ALLOWED (state c)))
  then (c, Err (TransitionError ("invalid transition " +:+ value (state c) +:+ "->" +:+ value target)))
  else
    let row := mkTransition (state c) target reason (evidence_id e) (evidence_hash e) in
    let c := c <| state := target |> <| transitions ::= λ ts, ts ++ [row] |> in
    (c, Ok (receipt c e row reason changed)).

(** The branch of a signal that is not valid: the state is set before the row is
    written. *)
Definition invalid_signal (c : ConvergenceController) (raw : Json.json) (msg : string) : reply :=
  let raw_id := match raw with Json.Obj r => Val.str (Val.or_else (Val.get "signal_id" r) (Json.Str "invalid")) | _ => "invalid" end in
  let e := mkEvidence raw_id (digest raw) [] false false false in
  let c := c <| state := FAILED |> in
  let row := mkTransition (state c) (state c) ("invalid_signal:" +:+ msg) (evidence_id e) (evidence_hash e) in
  let c := c <| transitions ::= λ ts, ts ++ [row] |> in
  (c, Ok (receipt c e row (t_reason row) false)).

(** The outcome [waiting]. *)
Definition waiting_step (c : ConvergenceController) (sg : ProgressSignal) (e : EvidenceSnapshot) (changed : bool) (now : option Z) : reply :=
  let is_none k := match Val.get k (wait sg) with Json.Null => true | _ => false end in
  if negb (Val.truthy (Val.get "condition" (wait sg))) || is_none "heartbeat" || is_none "deadline"
  then transition c FAILED e "invalid_wait_contract" changed
  else
    match now with
    | None => transition c WAITING e "explicit_wait" changed
    | Some now =>
        match Val.to_float (Val.get "deadline" (wait sg)) with
        | None => (c, Err FloatError)
        | Some deadline =>
            if deadline <=? now then transition c BLOCKED e "wait_deadline_expired" changed
            else transition c WAITING e "explicit_wait" changed
        end
    end.

(** The ladder for every other outcome: the controller with its counters moved,
    the target and the reason. *)
Definition ladder (c : ConvergenceController) (sg : ProgressSignal) (e : EvidenceSnapshot) (changed : bool) :
    ConvergenceController * ControllerState * string :=
  match state c with
  | PROGRESSING => if changed then (c, PROGRESSING, "semantic_progress") else (c, STALLED, "semantic_stall")
  | STALLED =>
      let strategy_changed := Str.truthy (strategy_hash sg) && negb (String.eqb (strategy_hash sg) (last_strategy_hash c)) in
      if String.eqb (action sg) "replan" && strategy_changed && (replans c <? max_replans c)
      then (c <| replans ::= Z.succ |> <| last_strategy_hash := strategy_hash sg |>, REPLAN, "strategy_changed")
      else (c, STALLED, "replan_requires_strategy_delta")
  | REPLAN =>
      if String.eqb (action sg) "reroute" && (reroutes c <? max_reroutes c)
      then (c <| reroutes ::= Z.succ |>, REROUTE, "bounded_reroute") else (c, REPLAN, "awaiting_reroute")
  | REROUTE =>
      if String.eqb (action sg) "escalate" && (escalations c <? max_escalations c)
      then (c <| escalations ::= Z.succ |>, ESCALATE, "bounded_escalation") else (c, REROUTE, "awaiting_escalation")
  | ESCALATE => if String.eqb (action sg) "drain" then (c, DRAIN, "drain_after_escalation") else (c, ESCALATE, "awaiting_drain")
  | DRAIN => if changed then (c, PROGRESSING, "drain_made_progress") else (c, STALLED, "drain_stalled")
  | _ => if external_changed e || changed then (c, PROGRESSING, "external_state_changed") else (c, STALLED, "no_observable_delta")
  end.

(** The step of a valid signal. *)
Definition valid_step (c : ConvergenceController) (sg : ProgressSignal) (e : EvidenceSnapshot) (now : option Z) : reply :=
  if bool_decide (state c ∈ TERMINAL_STATES) then transition c (state c) e "terminal_state_preserved" false
  else
    let changed := negb (String.eqb (semantic_hash e) (last_semantic_hash c)) in
    let c := c <| last_semantic_hash := semantic_hash e |> <| attempts ::= Z.succ |> in
    if max_attempts c <? attempts c then transition c BLOCKED e "attempt_cap_exhausted" changed
    else if String.eqb (outcome sg) "blocked" then transition c BLOCKED e "explicit_blocker" changed
    else if String.eqb (outcome sg) "failed" then transition c FAILED e "explicit_failure" changed
    else if String.eqb (outcome sg) "verified" then
      if negb (acceptance_verified e && delivery_verified e)
      then transition c STALLED e "verified_requires_acceptance_and_delivery_evidence" changed
      else transition c VERIFIED e "acceptance_and_delivery_verified" changed
    else if String.eqb (outcome sg) "waiting" then waiting_step c sg e changed now
    else
      let '(c, target, reason) := ladder c sg e changed in
      let c := c <| stall_window := if bool_decide (target = STALLED) then stall_window c + 1 else 0 |> in
      transition c target e reason changed.

(** [step] *)
Definition step (c : ConvergenceController) (raw : Json.json) (loop : fields) (now : option Z) : reply :=
  match normalize_signal raw with
  | Err (SignalError msg) => invalid_signal c raw msg
  | Err x => (c, Err x)
  | Ok sg => valid_step c sg (merge_evidence sg loop) now
  end.

(** * Specification *)

(** The controller after a sequence of calls of [step]. *)
Definition Call : Type := Json.json * fields * option Z.
Definition call (c : ConvergenceController) (x : Call) : ConvergenceController := (step c x.1.1 x.1.2 x.2).1.
Definition run (c : ConvergenceController) (xs : list Call) : ConvergenceController := foldl call c xs.

(** [b] may follow [a] in the record of transitions: it starts where [a] ended,
    or it is the row of a signal that was not valid. *)
Definition follows (a : ControllerState) (b : Transition) : Prop := t_from b = a ∨ (t_from b = FAILED ∧ t_to b = FAILED).

Fixpoint linked (a : ControllerState) (ts : list Transition) : Prop :=
  match ts with
  | [] => True
  | t :: ts' => follows a t ∧ linked (t_to t) ts'
  end.
Definition end_of (a : ControllerState) (ts : list Transition) : ControllerState := default a (t_to <$> last ts).

Record controller_ok (c : ConvergenceController) : Prop := {
  ok_replans : 0 <= replans c <= max_replans c;
  ok_reroutes : 0 <= reroutes c <= max_reroutes c;
  ok_escalations : 0 <= escalations c <= max_escalations c;
  ok_attempts : 0 <= attempts c;
  ok_stall : 0 <= stall_window c;
  ok_allowed : ∀ t, t ∈ transitions c → t_to t ∈ ALLOWED (t_from t);
  ok_linked : linked PROGRESSING (transitions c);
  ok_state : state c = end_of PROGRESSING (transitions c);
}.

Definition terminal (s : ControllerState) : bool := bool_decide (s ∈ TERMINAL_STATES).

(** The states that a premature [verified], or a [waiting], cannot leave by the
    table. *)
Definition no_stall (s : ControllerState) : bool := bool_decide (s ∈ [REPLAN; REROUTE; ESCALATE]).
Definition no_wait (s : ControllerState) : bool := bool_decide (s ∈ [REPLAN; REROUTE; ESCALATE; DRAIN]).

(** A waiting signal with a complete contract that has not expired. *)
Definition waits (sg : ProgressSignal) (now : option Z) : Prop :=
  Val.truthy (Val.get "condition" (wait sg)) = true ∧ Val.get "heartbeat" (wait sg) ≠ Json.Null ∧
  Val.get "deadline" (wait sg) ≠ Json.Null ∧
  match now with None => True | Some t => ∃ d, Val.to_float (Val.get "deadline" (wait sg)) = Some d ∧ t < d end.

(** * Examples *)

Definition demo_signal (i strategy out act : string) (sem : fields) : Json.json := Json.Obj [
  ("schema", Json.Str SCHEMA); ("signal_id", Json.Str i); ("source", Json.Str "agent");
  ("evidence", Json.Obj [("id", Json.Str ("ev-" +:+ i))]); ("semantic", Json.Obj sem); ("strategy_hash", Json.Str strategy);
  ("outcome", Json.Str out); ("action", Json.Str act)].
Definition demo_diff (s : string) : fields := [("diff_hash", Json.Str s)].
(** Progress, a stall, a replan with a new strategy, a reroute. *)
Definition demo_calls : list Call := [
  (demo_signal "1" "" "progress" "" (demo_diff "a"), [], None); (demo_signal "2" "" "progress" "" (demo_diff "a"), [], None);
  (demo_signal "3" "s2" "progress" "replan" (demo_diff "a"), [], None); (demo_signal "4" "s2" "progress" "reroute" (demo_diff "a"), [], None)].
Definition demo_verified : Json.json := demo_signal "9" "" "verified" "" (demo_diff "z").
Definition demo_proof : fields := [("acceptance_verified", Json.Bool true); ("delivery_verified", Json.Bool true)].
Definition demo_finish : list Call := [(demo_verified, demo_proof, None)].
Definition demo_small : ConvergenceController := new_controller 1 1 1 2.

(** * Lemmas *)

Lemma merge_evidence_id raw sg loop : normalize_signal raw = Ok sg → evidence_id (merge_evidence sg loop) ≠ "".
Proof.
  intros H. assert (sg_evidence_id sg ≠ "") as Hid.
  { unfold normalize_signal in H. destruct raw as [| | | | | |r]; try done. case_match; [done|].
    case_match; [done|]. destruct (Val.get "evidence" r) as [| | | | | |ev]; try done.
    set (eid := Str.strip (Val.text (Val.get "id" ev))) in *. set (ehash := Str.strip (Val.text (Val.get "hash" ev))) in *.
    destruct (Str.truthy eid) eqn:E1, (Str.truthy ehash) eqn:E2; cbn [negb andb] in H; try done;
      apply rbind_Ok in H as (sem & _ & H); destruct (Val.or_else _ _); try done; injection H as <-; by apply Str.truthy_ne. }
  unfold merge_evidence. cbn [evidence_id].
  destruct (Val.truthy (Val.get "evidence_id" loop)) eqn:E1; [by apply Val.str_nonempty|].
  destruct (Val.truthy (Val.get "evidence_hash" loop)) eqn:E2; [by apply Val.str_nonempty|done].
Qed.

Lemma normalize_signal_exn raw x : normalize_signal raw = Err x → ∃ msg, x = SignalError msg.
Proof.
  unfold normalize_signal, semantic_values. intros H.
  repeat (case_match; cbn [rbind] in H; try (injection H as <-; by eexists); try done).
Qed.

Lemma blocked_allowed s : s ∉ TERMINAL_STATES → BLOCKED ∈ ALLOWED s.
Proof. destruct s; intros Ht; try (destruct Ht; by_compute); by_compute. Qed.

Lemma terminal_allowed s : s ∈ TERMINAL_STATES → s ∈ ALLOWED s.
Proof. destruct s; intros _; by_compute. Qed.

(** A transition either refuses and changes nothing, or adds one row. *)
Lemma transition_spec c target e reason ch : evidence_id e ≠ "" →
  (target ∉ ALLOWED (state c) ∧
   transition c target e reason ch = (c, Err (TransitionError ("invalid transition " +:+ value (state c) +:+ "->" +:+ value target)))) ∨
  (target ∈ ALLOWED (state c) ∧ ∃ row rc, t_from row = state c ∧ t_to row = target ∧
   transition c target e reason ch = (c <| state := target |> <| transitions ::= λ ts, ts ++ [row] |>, Ok rc)).
Proof.
  intros He. apply Str.truthy_ne in He. unfold transition. rewrite He. cbn [negb andb].
  destruct (bool_decide_reflect (target ∈ ALLOWED (state c))); cbn [negb]; [right|left; done].
  split; [done|]. eexists (mkTransition _ _ _ _ _), _. done.
Qed.

Lemma linked_snoc a ts t : linked a ts → follows (end_of a ts) t → linked a (ts ++ [t]).
Proof.
  revert a. induction ts as [|u ts IH]; intros a Hl Hf; [by split|]. destruct Hl as [Hu Hl]. split; [done|].
  apply IH; [done|]. unfold end_of in *. rewrite last_cons in Hf. by destruct (last ts).
Qed.

Lemma end_of_snoc a ts t : end_of a (ts ++ [t]) = t_to t.
Proof. unfold end_of. by rewrite last_snoc. Qed.

Lemma controller_ok_row c row s : controller_ok c → t_to row = s → follows (state c) row → t_to row ∈ ALLOWED (t_from row) →
  controller_ok (c <| state := s |> <| transitions ::= λ ts, ts ++ [row] |>).
Proof.
  intros [H1 H2 H3 H4 H5 H6 H7 H8] Hs Hf Ha. split; cbn; [done..| | |].
  - intros t [Ht|Ht%list_elem_of_singleton]%elem_of_app; [by apply H6|by subst t].
  - apply linked_snoc; [done|]. rewrite <- H8. exact Hf.
  - rewrite <- Hs. symmetry. apply end_of_snoc.
Qed.

Lemma transition_ok c target e reason ch : controller_ok c → evidence_id e ≠ "" → controller_ok (transition c target e reason ch).1.
Proof.
  intros Hc He. destruct (transition_spec c target e reason ch He) as [[_ ->]|(Ha & row & rc & Hfrom & Hto & ->)]; [done|].
  apply controller_ok_row; [done|done|by left|]. by rewrite Hfrom, Hto.
Qed.

Lemma waiting_ok c sg e ch now : controller_ok c → evidence_id e ≠ "" → controller_ok (waiting_step c sg e ch now).1.
Proof.
  intros Hc He. unfold waiting_step. destruct (negb _ || _ || _); [by apply transition_ok|].
  destruct now as [now|]; [|by apply transition_ok]. destruct (Val.to_float _) as [d|]; [|done].
  destruct (d <=? now); by apply transition_ok.
Qed.

Lemma ladder_ok c sg e ch : controller_ok c → controller_ok (ladder c sg e ch).1.1.
Proof.
  intros Hc. unfold ladder. destruct (state c) eqn:Es; repeat case_match; try done; cbn [fst];
    destruct Hc as [H1 H2 H3 H4 H5 H6 H7 H8]; zbool; split; cbn; try done; try lia; by rewrite Es.
Qed.

(** The ladder climbs by the table only. *)
Lemma ladder_allowed c sg e ch : state c ∉ TERMINAL_STATES → state (ladder c sg e ch).1.1 = state c ∧ (ladder c sg e ch).1.2 ∈ ALLOWED (state c).
Proof.
  intros Ht. unfold ladder. destruct (state c) eqn:Es; try (destruct Ht; by_compute); repeat case_match; cbn; rewrite ?Es; (split; [done|by_compute]).
Qed.

Lemma counted_ok c h : controller_ok c → controller_ok (c <| last_semantic_hash := h |> <| attempts ::= Z.succ |>).
Proof. intros [H1 H2 H3 H4 H5 H6 H7 H8]. split; cbn; try done. lia. Qed.

Lemma stalled_ok c w : controller_ok c → 0 <= w → controller_ok (c <| stall_window := w |>).
Proof. intros [H1 H2 H3 H4 H5 H6 H7 H8] Hw. by split. Qed.

Lemma valid_step_ok c sg e now : controller_ok c → evidence_id e ≠ "" → controller_ok (valid_step c sg e now).1.
Proof.
  intros Hc He. unfold valid_step. case_bool_decide; [by apply transition_ok|]. cbv zeta. apply (counted_ok _ (semantic_hash e)) in Hc.
  set (c1 := c <| last_semantic_hash := _ |> <| attempts ::= _ |>) in *.
  generalize (negb (String.eqb (semantic_hash e) (last_semantic_hash c))). intros ch.
  destruct (max_attempts c1 <? attempts c1); [by apply transition_ok|].
  destruct (String.eqb (outcome sg) "blocked"); [by apply transition_ok|].
  destruct (String.eqb (outcome sg) "failed"); [by apply transition_ok|].
  destruct (String.eqb (outcome sg) "verified"); [destruct (negb (acceptance_verified e && delivery_verified e)); by apply transition_ok|].
  destruct (String.eqb (outcome sg) "waiting"); [by apply waiting_ok|].
  pose proof (ladder_ok c1 sg e ch Hc) as Hl. destruct (ladder c1 sg e ch) as [[c2 target] reason]. cbn [fst] in Hl.
  apply transition_ok; [|done]. apply stalled_ok; [done|]. case_bool_decide; [destruct Hl; lia|done].
Qed.

Lemma step_ok c raw loop now : controller_ok c → controller_ok (step c raw loop now).1.
Proof.
  intros Hc. unfold step. destruct (normalize_signal raw) as [sg|[msg|msg|]] eqn:En; [| |done|done].
  - apply valid_step_ok; [done|]. by apply (merge_evidence_id raw).
  - unfold invalid_signal. cbn [fst]. apply controller_ok_row; [|done|right; done|by_compute].
    destruct Hc. split; done.
Qed.

Lemma run_ok c xs : controller_ok c → controller_ok (run c xs).
Proof. unfold run. revert c. induction xs as [|x xs IH]; intros c Hc; [done|]. cbn [foldl]. apply IH. by apply step_ok. Qed.

Lemma new_controller_ok mrp mrr mes mat : 0 <= mrp → 0 <= mrr → 0 <= mes → controller_ok (new_controller mrp mrr mes mat).
Proof. intros. split; cbn; try lia; try done. intros t Ht. by apply not_elem_of_nil in Ht. Qed.

(** ** How a step moves the state and the attempts *)

Lemma transition_attempts c target e reason ch : attempts (transition c target e reason ch).1 = attempts c ∧
  max_attempts (transition c target e reason ch).1 = max_attempts c.
Proof. unfold transition. by repeat case_match. Qed.

Lemma ladder_attempts c sg e ch : attempts (ladder c sg e ch).1.1 = attempts c ∧ max_attempts (ladder c sg e ch).1.1 = max_attempts c.
Proof. unfold ladder. by repeat case_match. Qed.

Lemma valid_step_attempts c sg e now : state c ∉ TERMINAL_STATES → evidence_id e ≠ "" →
  let c' := (valid_step c sg e now).1 in
  attempts c' = attempts c + 1 ∧ max_attempts c' = max_attempts c ∧ (max_attempts c < attempts c + 1 → state c' = BLOCKED).
Proof.
  intros Ht He c'. subst c'. unfold valid_step. rewrite bool_decide_eq_false_2 by done. cbv zeta.
  set (c1 := c <| last_semantic_hash := _ |> <| attempts ::= _ |>).
  assert (attempts c1 = attempts c + 1 ∧ max_attempts c1 = max_attempts c ∧ state c1 = state c) as (Ha & Hm & Hs) by done.
  clearbody c1. generalize (negb (String.eqb (semantic_hash e) (last_semantic_hash c))). intros ch.
  assert (∀ target reason, let c' := (transition c1 target e reason ch).1 in
    attempts c' = attempts c + 1 ∧ max_attempts c' = max_attempts c) as Htr.
  { intros target reason. cbv zeta. destruct (transition_attempts c1 target e reason ch) as [-> ->]. lia. }
  destruct (Z.ltb_spec (max_attempts c1) (attempts c1)) as [Hlt|Hge].
  { destruct (Htr BLOCKED "attempt_cap_exhausted") as [H1 H2]. split; [done|]. split; [done|]. intros _.
    destruct (transition_spec c1 BLOCKED e "attempt_cap_exhausted" ch He) as [[Hno _]|(_ & row & rc & _ & _ & ->)]; [|done].
    destruct Hno. rewrite Hs. by apply blocked_allowed. }
  match goal with |- attempts ?x = _ ∧ _ => enough (attempts x = attempts c + 1 ∧ max_attempts x = max_attempts c) as [H1 H2] end.
  { split; [exact H1|]. split; [exact H2|]. lia. }
  destruct (String.eqb (outcome sg) "blocked"); [apply Htr|]. destruct (String.eqb (outcome sg) "failed"); [apply Htr|].
  destruct (String.eqb (outcome sg) "verified"); [destruct (negb (acceptance_verified e && delivery_verified e)); apply Htr|].
  destruct (String.eqb (outcome sg) "waiting").
  - unfold waiting_step. destruct (negb _ || _ || _); [apply Htr|]. destruct now as [now|]; [|apply Htr].
    destruct (Val.to_float _) as [d|]; [destruct (d <=? now); apply Htr|]. cbn [fst]. lia.
  - destruct (ladder_attempts c1 sg e ch) as [H1 H2]. destruct (ladder c1 sg e ch) as [[c2 target] reason]. cbn [fst] in H1, H2.
    destruct (transition_attempts (c2 <| stall_window := if bool_decide (target = STALLED) then stall_window c2 + 1 else 0 |>) target e reason ch)
      as [-> ->]. cbn. lia.
Qed.

Lemma transition_self c e reason ch : state c ∈ TERMINAL_STATES → evidence_id e ≠ "" → state (transition c (state c) e reason ch).1 = state c.
Proof.
  intros Ht He. destruct (transition_spec c (state c) e reason ch He) as [[Hno _]|(_ & row & rc & _ & _ & ->)]; [|done].
  destruct Hno. by apply terminal_allowed.
Qed.

(** A terminal state stays terminal; only an invalid signal changes it. *)
Lemma step_terminal c raw loop now : state c ∈ TERMINAL_STATES →
  state (step c raw loop now).1 = match normalize_signal raw with Ok _ => state c | Err _ => FAILED end.
Proof.
  intros Ht. unfold step. destruct (normalize_signal raw) as [sg|x] eqn:En.
  - unfold valid_step. rewrite bool_decide_eq_true_2 by done. apply transition_self; [done|]. by apply (merge_evidence_id raw).
  - destruct (normalize_signal_exn raw x En) as [msg ->]. done.
Qed.

Lemma run_progress c xs : state c ∉ TERMINAL_STATES → attempts c <= max_attempts c →
  state (run c xs) ∈ TERMINAL_STATES ∨
  (attempts (run c xs) = attempts c + Z.of_nat (length xs) ∧ attempts (run c xs) <= max_attempts c).
Proof.
  revert c. induction xs as [|[[raw loop] now] xs IH]; intros c Hc Hle; [right; cbn; lia|].
  change (run c ((raw, loop, now) :: xs)) with (run (step c raw loop now).1 xs).
  assert (∀ ys d, state d ∈ TERMINAL_STATES → state (run d ys) ∈ TERMINAL_STATES) as Hstay.
  { clear. intros ys. induction ys as [|[[raw loop] now] ys IH]; intros d Hd; [done|]. apply IH. unfold call. cbn [fst snd].
    rewrite step_terminal by done. destruct (normalize_signal raw); [done|by_compute]. }
  destruct (decide (state (step c raw loop now).1 ∈ TERMINAL_STATES)) as [Ht|Ht]; [left; by apply Hstay|].
  unfold step in *. destruct (normalize_signal raw) as [sg|x] eqn:En.
  - destruct (valid_step_attempts c sg (merge_evidence sg loop) now Hc (merge_evidence_id raw sg loop En)) as (H1 & H2 & H3).
    assert (attempts c + 1 <= max_attempts c) as Hle'.
    { destruct (decide (max_attempts c < attempts c + 1)) as [Hlt|]; [|lia]. destruct Ht. rewrite (H3 Hlt). by_compute. }
    destruct (IH (valid_step c sg (merge_evidence sg loop) now).1 Ht) as [?|[? ?]]; [lia|by left|right]. cbn [length]. lia.
  - destruct Ht. destruct (normalize_signal_exn raw x En) as [msg ->]. by_compute.
Qed.

(** ** Verification *)

Lemma transition_state c target e reason ch : evidence_id e ≠ "" →
  state (transition c target e reason ch).1 = target ∨ state (transition c target e reason ch).1 = state c.
Proof. intros He. destruct (transition_spec c target e reason ch He) as [[_ ->]|(_ & row & rc & _ & _ & ->)]; [by right|by left]. Qed.

Lemma ladder_not_verified c sg e ch : (ladder c sg e ch).1.2 ≠ VERIFIED.
Proof. unfold ladder. by repeat case_match. Qed.

Lemma valid_step_verified c sg e now : state c ≠ VERIFIED → evidence_id e ≠ "" → state (valid_step c sg e now).1 = VERIFIED →
  outcome sg = "verified" ∧ acceptance_verified e = true ∧ delivery_verified e = true.
Proof.
  intros Hc He. unfold valid_step. case_bool_decide as Ht; [by rewrite transition_self|]. cbv zeta.
  set (c1 := c <| last_semantic_hash := _ |> <| attempts ::= _ |>). assert (state c1 = state c) as Hs by done. clearbody c1.
  generalize (negb (String.eqb (semantic_hash e) (last_semantic_hash c))). intros ch.
  assert (∀ d target reason, state d = state c → target ≠ VERIFIED → state (transition d target e reason ch).1 ≠ VERIFIED) as Hno.
  { intros d target reason Hd Htg. destruct (transition_state d target e reason ch He) as [->| ->]; congruence. }
  destruct (max_attempts c1 <? attempts c1); [by intros []%Hno|]. destruct (String.eqb (outcome sg) "blocked"); [by intros []%Hno|].
  destruct (String.eqb (outcome sg) "failed"); [by intros []%Hno|].
  destruct (String.eqb_spec (outcome sg) "verified") as [Ho|_].
  { destruct (acceptance_verified e), (delivery_verified e); cbn [andb negb]; intros H; try done; by apply Hno in H. }
  destruct (String.eqb (outcome sg) "waiting").
  - unfold waiting_step. destruct (negb _ || _ || _); [by intros []%Hno|]. destruct now as [now|]; [|by intros []%Hno].
    destruct (Val.to_float _) as [d|]; [destruct (d <=? now); by intros []%Hno|]. cbn [fst]. congruence.
  - pose proof (ladder_not_verified c1 sg e ch) as Hl. rewrite <- Hs in Ht. destruct (ladder_allowed c1 sg e ch Ht) as [Hls _].
    destruct (ladder c1 sg e ch) as [[c2 target] reason]. cbn [fst snd] in *. intros []%Hno; [by rewrite <- Hs|done].
Qed.

(** ** Exceptions *)

Definition raises (r : reply) : Prop := ∃ msg, r.2 = Err (TransitionError msg).

Lemma transition_raises c target e reason ch : evidence_id e ≠ "" → raises (transition c target e reason ch) ↔ target ∉ ALLOWED (state c).
Proof.
  intros He. destruct (transition_spec c target e reason ch He) as [[Hno ->]|(Ha & row & rc & _ & _ & ->)].
  - split; [done|]. intros _. by eexists.
  - split; [intros [msg Hmsg]; done|done].
Qed.

Lemma stalled_allowed s : s ∉ TERMINAL_STATES → STALLED ∉ ALLOWED s ↔ no_stall s = true.
Proof. destruct s; intros Ht; try (destruct Ht; by_compute); (split; intros H; [|by_compute || discriminate H]); try reflexivity; destruct H; by_compute. Qed.

Lemma waiting_allowed s : s ∉ TERMINAL_STATES → WAITING ∉ ALLOWED s ↔ no_wait s = true.
Proof. destruct s; intros Ht; try (destruct Ht; by_compute); (split; intros H; [|by_compute || discriminate H]); try reflexivity; destruct H; by_compute. Qed.

Lemma final_allowed s t : s ∉ TERMINAL_STATES → t ∈ TERMINAL_STATES → t ∈ ALLOWED s.
Proof. destruct s, t; intros Hs Ht; try (destruct Hs; by_compute); try by_compute; exfalso; revert Ht; by_compute. Qed.

Lemma null_or_not v : (match v with Json.Null => true | _ => false end = false) ↔ v ≠ Json.Null.
Proof. destruct v; split; done. Qed.

(** Transitions to a final state never raise. *)
Lemma final_raises c t e reason ch (P : Prop) : state c ∉ TERMINAL_STATES → evidence_id e ≠ "" → t ∈ TERMINAL_STATES → ¬ P →
  raises (transition c t e reason ch) ↔ P.
Proof.
  intros Hc He Ht HP. rewrite transition_raises by done. split; [|done]. intros H. destruct H. by apply final_allowed.
Qed.

Lemma waiting_raises c sg e ch now : state c ∉ TERMINAL_STATES → evidence_id e ≠ "" →
  raises (waiting_step c sg e ch now) ↔ waits sg now ∧ no_wait (state c) = true.
Proof.
  intros Ht He. pose proof (waiting_allowed _ Ht) as Hw. unfold waiting_step, waits.
  destruct (negb (Val.truthy (Val.get "condition" (wait sg))) || _ || _) eqn:E.
  - apply final_raises; [done|done|by_compute|]. intros ((H1 & H2 & H3 & _) & _).
    rewrite <- null_or_not in H2, H3. rewrite H1, H2, H3 in E. done.
  - apply orb_false_iff in E as [[E1 E2]%orb_false_iff E3]. apply negb_false_iff in E1. apply null_or_not in E2, E3.
    destruct now as [now|]; [|rewrite transition_raises, Hw by done; naive_solver].
    destruct (Val.to_float (Val.get "deadline" (wait sg))) as [dl|] eqn:Ed; [|split; [by intros [msg ?]|naive_solver]].
    destruct (Z.leb_spec dl now).
    + apply final_raises; [done|done|by_compute|]. intros ((_ & _ & _ & d' & [= <-] & ?) & _). lia.
    + rewrite transition_raises, Hw by done. naive_solver.
Qed.

(** * Properties *)

(** C17: The controller always ends. With a cap of [mat] attempts, any [mat + 1]
    calls of [step] or more, whatever their signals, evidence and clock, and
    whether or not some of them raise, leave it blocked, failed or verified. *)
Theorem controller_terminates mrp mrr mes mat xs : 0 <= mat → mat < Z.of_nat (length xs) →
  state (run (new_controller mrp mrr mes mat) xs) ∈ TERMINAL_STATES.
Proof.
  intros Hm Hlen. destruct (run_progress (new_controller mrp mrr mes mat) xs) as [?|[H1 H2]]; [|done|done|cbn in *; lia].
  cbn. set_solver.
Qed.

Lemma controller_terminates_witness :
  0 <= 2 ∧ 2 < Z.of_nat (length demo_calls) ∧ state (run demo_small demo_calls) ∈ TERMINAL_STATES.
Proof. split; [done|]. split; [done|]. exact (controller_terminates 1 1 1 2 demo_calls ltac:(done) ltac:(done)). Defined.

(** Nothing is verified without evidence. If a controller ends in VERIFIED,
    one of its calls was a valid signal with the outcome [verified] whose loop
    evidence says that both acceptance and delivery are verified; no prose and
    no signal of the agent alone gets there. *)
Theorem verified_needs_evidence mrp mrr mes mat xs : state (run (new_controller mrp mrr mes mat) xs) = VERIFIED →
  ∃ raw loop now sg, (raw, loop, now) ∈ xs ∧ normalize_signal raw = Ok sg ∧ outcome sg = "verified" ∧
    Val.truthy (Val.get "acceptance_verified" loop) = true ∧ Val.truthy (Val.get "delivery_verified" loop) = true.
Proof.
  intros H. assert (∀ c, state c ≠ VERIFIED → state (run c xs) = VERIFIED →
    ∃ raw loop now sg, (raw, loop, now) ∈ xs ∧ normalize_signal raw = Ok sg ∧ outcome sg = "verified" ∧
    Val.truthy (Val.get "acceptance_verified" loop) = true ∧ Val.truthy (Val.get "delivery_verified" loop) = true) as Hrun;
    [|refine (Hrun (new_controller mrp mrr mes mat) _ H); intros E; discriminate E].
  clear H. induction xs as [|[[raw loop] now] xs IH]; intros c Hc H; [done|].
  change (run c ((raw, loop, now) :: xs)) with (run (step c raw loop now).1 xs) in H.
  destruct (decide (state (step c raw loop now).1 = VERIFIED)) as [Hv|Hv].
  - unfold step in Hv. destruct (normalize_signal raw) as [sg|x] eqn:En.
    + apply valid_step_verified in Hv as (Ho & Ha & Hd); [|done|by apply (merge_evidence_id raw)].
      exists raw, loop, now, sg. split; [by left|]. done.
    + destruct (normalize_signal_exn raw x En) as [msg ->]. done.
  - destruct (IH _ Hv H) as (r & l & n & sg & Hin & ?). exists r, l, n, sg. split; [by right|done].
Qed.

Lemma verified_needs_evidence_witness :
  state (run default_controller demo_finish) = VERIFIED ∧
  ∃ raw loop now sg, (raw, loop, now) ∈ demo_finish ∧ normalize_signal raw = Ok sg ∧ outcome sg = "verified" ∧
    Val.truthy (Val.get "acceptance_verified" loop) = true ∧ Val.truthy (Val.get "delivery_verified" loop) = true.
Proof.
  assert (state (run default_controller demo_finish) = VERIFIED) as H by (vm_compute; reflexivity).
  split; [exact H|]. exact (verified_needs_evidence 3 3 2 20 _ H).
Defined.

(** Well-formedness. Whatever the calls, the counters of a controller stay
    between zero and their caps, every recorded transition is one the table
    allows, each starts where the one before ended unless it is the row of an
    invalid signal (which claims to start in FAILED), and the state is where the
    last one ended. *)
Theorem controller_wf mrp mrr mes mat xs : 0 <= mrp → 0 <= mrr → 0 <= mes → controller_ok (run (new_controller mrp mrr mes mat) xs).
Proof. intros. by apply run_ok, new_controller_ok. Qed.

Lemma controller_wf_witness :
  0 <= 3 ∧ 0 <= 2 ∧ t_to <$> transitions (run default_controller demo_calls) = [PROGRESSING; STALLED; REPLAN; REROUTE] ∧
  controller_ok (run default_controller demo_calls).
Proof.
  split; [done|]. split; [done|]. split; [vm_compute; reflexivity|].
  exact (controller_wf 3 3 2 20 demo_calls ltac:(done) ltac:(done) ltac:(done)).
Defined.

(** Exactly when a call of [step] raises instead of giving a receipt: the
    attempt counts, and either a signal says [verified] without the evidence
    while the controller is in REPLAN, REROUTE or ESCALATE, or a complete
    waiting contract arrives there or in DRAIN. The table allows neither move,
    and [step] does not catch the error. *)
Theorem step_raises_exact c raw loop now :
  raises (step c raw loop now) ↔
  state c ∉ TERMINAL_STATES ∧ attempts c < max_attempts c ∧ ∃ sg, normalize_signal raw = Ok sg ∧
    let e := merge_evidence sg loop in
    ((outcome sg = "verified" ∧ acceptance_verified e && delivery_verified e = false ∧ no_stall (state c) = true) ∨
     (outcome sg = "waiting" ∧ waits sg now ∧ no_wait (state c) = true)).
Proof.
  unfold step. destruct (normalize_signal raw) as [sg|x] eqn:En.
  2:{ destruct (normalize_signal_exn raw x En) as [msg ->]. split; [by intros [m Hm]|naive_solver]. }
  pose proof (merge_evidence_id raw sg loop En) as He. set (e := merge_evidence sg loop) in *. cbv zeta.
  unfold valid_step. case_bool_decide as Ht.
  { rewrite transition_raises by done. split; [intros H; destruct H; by apply terminal_allowed|naive_solver]. }
  cbv zeta. set (c1 := c <| last_semantic_hash := _ |> <| attempts ::= _ |>).
  assert (state c1 = state c ∧ attempts c1 = attempts c + 1 ∧ max_attempts c1 = max_attempts c) as (Hs & Ha & Hm) by done. clearbody c1.
  generalize (negb (String.eqb (semantic_hash e) (last_semantic_hash c))). intros ch. rewrite <- Hs in Ht |- *.
  destruct (Z.ltb_spec (max_attempts c1) (attempts c1)).
  { apply final_raises; [done|done|by_compute|]. intros (_ & ? & _). lia. }
  assert (attempts c < max_attempts c) as Hlt by lia.
  assert (∀ P : ProgressSignal → Prop, (∃ sg', Ok sg = Ok (E:=ConvergenceExn) sg' ∧ P sg') ↔ P sg) as Hsg by naive_solver.
  transitivity ((outcome sg = "verified" ∧ acceptance_verified e && delivery_verified e = false ∧ no_stall (state c1) = true) ∨
     (outcome sg = "waiting" ∧ waits sg now ∧ no_wait (state c1) = true)); [|subst e; naive_solver].
  destruct (String.eqb_spec (outcome sg) "blocked") as [->|]; [apply final_raises; [done|done|by_compute|naive_solver]|].
  destruct (String.eqb_spec (outcome sg) "failed") as [->|]; [apply final_raises; [done|done|by_compute|naive_solver]|].
  destruct (String.eqb_spec (outcome sg) "verified") as [->|].
  { destruct (acceptance_verified e && delivery_verified e); cbn [negb]; [apply final_raises; [done|done|by_compute|naive_solver]|].
    rewrite transition_raises, stalled_allowed by done. naive_solver. }
  destruct (String.eqb_spec (outcome sg) "waiting") as [->|]; [rewrite waiting_raises by done; naive_solver|].
  split; [|naive_solver]. destruct (ladder_allowed c1 sg e ch Ht) as [Hls Hla]. destruct (ladder c1 sg e ch) as [[c2 target] reason].
  cbn [fst snd] in *. rewrite transition_raises by done. intros Hn. destruct Hn. cbn [state set_field]. by rewrite <- Hls in Hla.
Qed.

(** An invalid signal turns even a verified controller into a failed one. *)
Example invalid_signal_unverifies :
  let c := run default_controller demo_finish in state c = VERIFIED ∧ state (step c (Json.Str "done") [] None).1 = FAILED.
Proof. split; vm_compute; reflexivity. Qed.
