(* ===== verification/FlowSemantics.v ===== *)
(** The converge and drain decisions ([simplicio_loop/flow_semantics.py]): pure
    functions of the attempts of one work item and of the polls of a queue. *)
From S2P Require Import Prelude PyLib PyText.
Local Open Scope Z_scope.

(** * Definitions *)

Notation fields := (list (string * Json.json)).

(** [_result]: the fields that differ and the extra ones. *)
Record Flow := mkFlow {
  fl_mode : string;
  fl_status : string;
  fl_reason : string;
  fl_extra : fields;
}.

(** The rows of a sequence that are mappings, [None] when one is not. *)
Fixpoint mappings (l : list Json.json) : option (list fields) :=
  match l with
  | [] => Some []
  | Json.Obj d :: l' => (λ ds, d :: ds) <$> mappings l'
  | _ :: _ => None
  end.

(** ** Converge *)

Definition fingerprint_of (row : fields) : string :=
  Str.strip (Val.text (Val.or_else (Val.get "failure_fingerprint" row) (Val.get "fingerprint" row))).

(** The loop over the reversed rows: how many end with the fingerprint. *)
Fixpoint repeats (fingerprint : string) (reversed : list fields) : Z :=
  match reversed with
  | [] => 0
  | row :: rows => if String.eqb (fingerprint_of row) fingerprint then 1 + repeats fingerprint rows else 0
  end.

Definition strategy_of (row : fields) : Json.json := Val.get_or "strategy_id" row (Val.get "strategy" row).
Definition is_null (v : Json.json) : bool := match v with Json.Null => true | _ => false end.

Definition strategy_changed (latest : fields) (previous : option fields) : bool :=
  Val.truthy (Val.get "strategy_changed" latest) ||
  match previous with
  | None => false
  | Some p => negb (is_null (strategy_of p)) && negb (is_null (strategy_of latest)) && negb (Val.eq (strategy_of p) (strategy_of latest))
  end.

(** [evaluate_converge] *)
Definition evaluate_converge (attempts : Json.json) (max_attempts stall_threshold : Z) : Flow :=
  let result := mkFlow "converge" in
  match attempts with
  | Json.List l =>
      if (max_attempts <? 1) || (stall_threshold <? 1) then result "BLOCKED" "limits_invalid" []
      else
        match mappings l with
        | None => result "BLOCKED" "attempt_invalid" []
        | Some rows =>
            let count := ("attempt_count", Json.Int (Z.of_nat (length rows))) in
            match reverse rows with
            | [] => result "CONTINUE" "no_attempts" [count]
            | latest :: before =>
                if Val.truthy (Val.get "verified" latest) then result "COMPLETE" "verified" [count; ("strategy_changed", Json.Bool false)]
                else if max_attempts <=? Z.of_nat (length rows) then result "ESCALATE" "attempt_cap" [count]
                else
                  let fingerprint := fingerprint_of latest in
                  let repeat := if Str.truthy fingerprint then repeats fingerprint (latest :: before) else 0 in
                  let changed := strategy_changed latest (head before) in
                  let extra := [count; ("failure_fingerprint", Json.Str fingerprint); ("repeat_count", Json.Int repeat);
                                ("strategy_changed", Json.Bool changed)] in
                  if stall_threshold <=? repeat then
                    if changed then result "RETRY" "strategy_changed" extra else result "ESCALATE" "stall_escalation" extra
                  else result "RETRY" (if Val.truthy (Val.get "changed" latest) then "attempt_failed" else "no_progress") extra
            end
        end
  | _ => result "BLOCKED" "attempts_invalid" []
  end.

(** ** Drain *)

(** [_items] *)
Definition items (v : Json.json) : list string :=
  match v with
  | Json.Obj d => sorted_set (List.filter Str.truthy d.*1)
  | Json.Str s => if Str.truthy s then [s] else []
  | Json.List l => sorted_set (List.filter Str.truthy (Val.str <$> l))
  | _ => []
  end.

Record Quarantined := mkQuarantined {
  q_id : string;
  q_reason : string;
  q_dead_ends : list string;
}.

Definition quarantine (item : Json.json) : Quarantined :=
  match item with
  | Json.Obj d =>
      mkQuarantined (Val.text (Val.or_else (Val.get "id" d) (Val.get "item_id" d)))
        (Val.str (Val.or_else (Val.get "reason" d) (Json.Str "blocked"))) (items (Val.get "dead_ends" d))
  | v => mkQuarantined (Val.str v) "blocked" []
  end.

Definition blocked_of (poll : fields) : list Quarantined :=
  match Val.or_else (Val.get "blocked" poll) (Json.List []) with
  | Json.Obj d => [quarantine (Json.Obj d)]
  | Json.List l => quarantine <$> l
  | _ => []
  end.

(** The order of [(id, reason, dead_ends)]. *)
Fixpoint strings_leb (l m : list string) : bool :=
  match l, m with
  | [], _ => true
  | _ :: _, [] => false
  | x :: l', y :: m' => if String.eqb x y then strings_leb l' m' else String.leb x y
  end.
Definition quarantined_leb (x y : Quarantined) : bool :=
  strings_leb ([q_id x; q_reason x] ++ q_dead_ends x) ([q_id y; q_reason y] ++ q_dead_ends y).
Definition quarantined_le (x y : Quarantined) : Prop := quarantined_leb x y = true.
#[export] Instance quarantined_le_dec x y : Decision (quarantined_le x y).
Proof. unfold quarantined_le. apply _. Defined.

Definition quarantined_json (q : Quarantined) : Json.json := Json.Obj [
  ("id", Json.Str (q_id q)); ("reason", Json.Str (q_reason q)); ("dead_ends", Json.List (Json.Str <$> q_dead_ends q))].
Definition debt_json (q : Quarantined) : Json.json := Json.Obj [
  ("schema", Json.Str "simplicio.technical-debt/v1"); ("debt_id", Json.Str ("quarantined-" +:+ q_id q));
  ("reason_code", Json.Str "quarantined_item"); ("work_item_id", Json.Str (q_id q)); ("message", Json.Str (q_reason q));
  ("next_action", Json.Str "inspect dead_ends and retry or replan this item"); ("blocking", Json.Bool false);
  ("status", Json.Str "OPEN"); ("dead_ends", Json.List (Json.Str <$> q_dead_ends q))].

Record DrainScan := mkScan {
  quarantined : list Quarantined;
  late : list string;
  previous_empty : bool;
  empty_tail : Z;
}.

(** One round of the loop over the polls. *)
Definition is_empty (poll : fields) : bool :=
  Nat.eqb (length (items (Val.get "ready" poll))) 0 && Nat.eqb (length (items (Val.get "active" poll))) 0.
Definition scan_poll (s : DrainScan) (poll : fields) : DrainScan :=
  let ready := items (Val.get "ready" poll) in
  mkScan (quarantined s ++ blocked_of poll)
    (if previous_empty s && negb (Nat.eqb (length ready) 0) then late s ++ ready else late s)
    (is_empty poll) (if is_empty poll then empty_tail s + 1 else 0).
Definition scan (polls : list fields) : DrainScan := foldl scan_poll (mkScan [] [] false 0) polls.

(** [evaluate_drain] *)
Definition evaluate_drain (rounds : Json.json) (k : Z) : Flow :=
  let result := mkFlow "drain" in
  match rounds with
  | Json.List l =>
      if k <? 1 then result "BLOCKED" "limit_invalid" []
      else
        match mappings l with
        | None => result "BLOCKED" "round_invalid" []
        | Some polls =>
            let s := scan polls in
            let q := merge_sort quarantined_le (quarantined s) in
            let common := [("quarantined", Json.List (quarantined_json <$> q)); ("technical_debts", Json.List (debt_json <$> q))] in
            let late_ids := sorted_set (late s) in
            let empty := ("empty_rounds", Json.Int (empty_tail s)) in
            let late_field := ("late_arrivals", Json.List (Json.Str <$> late_ids)) in
            if negb (Nat.eqb (length late_ids) 0) then result "CONTINUE" "late_arrival" ([late_field; empty] ++ common)
            else if k <=? empty_tail s then result "DRAINED" "drain_verified" ([empty; late_field] ++ common)
            else result "CONTINUE" "source_not_quiet" ([empty; ("required_empty_rounds", Json.Int k); late_field] ++ common)
        end
  | _ => result "BLOCKED" "rounds_invalid" []
  end.

(** * Specification *)

(** The last [n] polls are empty; some poll brings ready items right after an
    empty one. *)
Definition quiet_for (n : nat) (polls : list fields) : Prop :=
  (n ≤ length polls)%nat ∧ ∀ p, p ∈ drop (length polls - n) polls → is_empty p = true.
Definition arrives_late (polls : list fields) : Prop :=
  ∃ i p q, polls !! i = Some p ∧ polls !! S i = Some q ∧ is_empty p = true ∧ items (Val.get "ready" q) ≠ [].

(** The last [n] attempts failed in the same way. *)
Definition fails_alike (n : nat) (rows : list fields) : Prop :=
  (n ≤ length rows)%nat ∧ ∃ f, f ≠ "" ∧ ∀ r, r ∈ drop (length rows - n) rows → fingerprint_of r = f.

(** * Examples *)

Definition demo_poll (ready active : list string) : fields :=
  [("ready", Json.List (Json.Str <$> ready)); ("active", Json.List (Json.Str <$> active)); ("blocked", Json.List [Json.Str "b"])].
Definition demo_polls : list fields := [demo_poll ["x"] []; demo_poll [] ["x"]; demo_poll [] []; demo_poll [] []].
Definition demo_late : list fields := [demo_poll [] []; demo_poll ["y"] []; demo_poll [] []; demo_poll [] []].
Definition demo_attempt (f : string) (s : Z) : fields := [("failure_fingerprint", Json.Str f); ("strategy_id", Json.Int s)].

(** * Lemmas *)

Lemma mappings_objs (l : list fields) : mappings (Json.Obj <$> l) = Some l.
Proof. induction l as [|d l IH]; [done|]. cbn [mappings fmap list_fmap]. change (list_fmap _ _ Json.Obj l) with (Json.Obj <$> l). by rewrite IH. Qed.

Lemma scan_snoc polls p : scan (polls ++ [p]) = scan_poll (scan polls) p.
Proof. unfold scan. by rewrite foldl_snoc. Qed.

Lemma previous_empty_scan polls : previous_empty (scan polls) = match last polls with Some p => is_empty p | None => false end.
Proof. induction polls as [|p polls _] using rev_ind; [done|]. by rewrite scan_snoc, last_snoc. Qed.

Lemma drop_snoc {A} n (l : list A) x : (n ≤ length l)%nat → drop n (l ++ [x]) = drop n l ++ [x].
Proof. intros H. rewrite drop_app_le; done. Qed.

Lemma empty_tail_scan polls (n : nat) : quiet_for n polls ↔ Z.of_nat n <= empty_tail (scan polls).
Proof.
  revert n. induction polls as [|p polls IH] using rev_ind; intros n.
  { unfold quiet_for. cbn. split; [intros [H _]; lia|]. intros H. split; [lia|]. intros q Hq.
    assert (n = 0%nat) as -> by lia. by apply not_elem_of_nil in Hq. }
  rewrite scan_snoc. unfold scan_poll. cbn [empty_tail]. destruct n as [|n].
  { assert (0 <= empty_tail (scan polls)) as H0.
    { apply (IH 0%nat). split; [lia|]. intros q Hq. rewrite Nat.sub_0_r, drop_all in Hq. by apply not_elem_of_nil in Hq. }
    split; [intros _; destruct (is_empty p); lia|]. intros _. split; [lia|]. intros q Hq. rewrite Nat.sub_0_r, drop_all in Hq. by apply not_elem_of_nil in Hq. }
  assert (quiet_for (S n) (polls ++ [p]) ↔ quiet_for n polls ∧ is_empty p = true) as ->.
  { unfold quiet_for. rewrite length_app. cbn [length]. replace (length polls + 1 - S n)%nat with (length polls - n)%nat by lia.
    rewrite drop_snoc by lia. split.
    - intros [Hn H]. split; [split; [lia|]|].
      + intros q Hq. apply H, elem_of_app. by left.
      + apply H, elem_of_app. right. by left.
    - intros [[Hn H] Hp]. split; [lia|]. intros q [Hq|Hq%list_elem_of_singleton]%elem_of_app; [by apply H|by subst q]. }
  rewrite IH. destruct (is_empty p); [|split; [by intros [_ ?]|lia]]. split; [intros [? _]; lia|]. intros H. split; [lia|done].
Qed.

Lemma late_scan polls : late (scan polls) ≠ [] ↔ arrives_late polls.
Proof.
  induction polls as [|p polls IH] using rev_ind.
  { split; [done|]. intros (i & q & _ & Hq & _). by rewrite lookup_nil in Hq. }
  rewrite scan_snoc. unfold scan_poll. cbn [late]. rewrite previous_empty_scan.
  assert (arrives_late (polls ++ [p]) ↔ arrives_late polls ∨
    ∃ q, last polls = Some q ∧ is_empty q = true ∧ items (Val.get "ready" p) ≠ []) as ->.
  { split.
    - intros (i & q & r & Hi & Hr & Hq & Hne). destruct (decide (S i < length polls)%nat) as [Hlt|Hge].
      + left. rewrite !lookup_app_l in Hi, Hr by lia. by exists i, q, r.
      + right. assert (S i = length polls) as Hlen by (apply lookup_lt_Some in Hr; rewrite length_app in Hr; cbn in Hr; lia).
        rewrite Hlen, list_lookup_middle in Hr by done. injection Hr as <-. exists q. split; [|done].
        rewrite lookup_app_l in Hi by lia. rewrite last_lookup, <- Hlen. done.
    - intros [(i & q & r & Hi & Hr & H)|(q & Hl & Hq & Hne)].
      + exists i, q, r. rewrite !lookup_app_l; [done|by eapply lookup_lt_Some..].
      + rewrite last_lookup in Hl. destruct (length polls) as [|n] eqn:Hn; [by destruct polls|]. cbn [pred] in Hl. exists n, q, p.
        rewrite lookup_app_l by lia. rewrite (list_lookup_middle polls [] p (S n)) by done. done. }
  rewrite <- IH. destruct (last polls) as [q|]; [|cbn; split; [by left|]; by intros [?|(q & ? & _)]].
  destruct (is_empty q) eqn:Eq; cbn [andb].
  2:{ split; [by left|]. intros [?|(q0 & [= <-] & ? & _)]; [done|congruence]. }
  destruct (items (Val.get "ready" p)) as [|i its] eqn:Ei; cbn [length Nat.eqb negb].
  { split; [by left|]. by intros [?|(q0 & _ & _ & ?)]. }
  split; [|by destruct (late (scan polls))]. intros _. right. by exists q.
Qed.

Lemma length_nil_dec {A} (l : list A) : Nat.eqb (length l) 0 = true ↔ l = [].
Proof. by destruct l. Qed.

(** ** Repeated failures *)

Lemma repeats_ge f l : (∀ n, (n ≤ length l)%nat → (∀ r, r ∈ take n l → fingerprint_of r = f) → Z.of_nat n <= repeats f l) ∧
  ∀ n : nat, Z.of_nat n <= repeats f l → (n ≤ length l)%nat ∧ ∀ r, r ∈ take n l → fingerprint_of r = f.
Proof.
  induction l as [|r l [IH1 IH2]]; cbn [repeats].
  { split; [intros n Hn _; cbn in Hn; lia|]. intros n Hn. assert (n = 0%nat) as -> by lia. split; [done|]. intros r Hr. by apply not_elem_of_nil in Hr. }
  split.
  - intros [|n] Hn H; [case_match; [|lia]|].
    + assert (0 <= repeats f l) by (apply (IH1 0%nat); [lia|intros x Hx; by apply not_elem_of_nil in Hx]). lia.
    + cbn in Hn, H. rewrite (H r) by by left. rewrite String.eqb_refl.
      assert (Z.of_nat n <= repeats f l); [|lia]. apply IH1; [lia|]. intros x Hx. apply H. by right.
  - intros [|n] Hn; [split; [lia|intros x Hx; by apply not_elem_of_nil in Hx]|].
    destruct (String.eqb_spec (fingerprint_of r) f) as [Hf|]; [|lia]. destruct (IH2 n) as [Hl H]; [lia|]. cbn. split; [lia|].
    intros x [->|Hx]%elem_of_cons; [done|by apply H].
Qed.

Lemma fails_alike_repeats n rows latest before : reverse rows = latest :: before → (1 ≤ n)%nat →
  fails_alike n rows ↔
  Z.of_nat n <= (if Str.truthy (fingerprint_of latest) then repeats (fingerprint_of latest) (latest :: before) else 0).
Proof.
  intros Hrev Hn. assert (length (latest :: before) = length rows) as Hlen by by rewrite <- Hrev, length_reverse.
  assert (∀ r, r ∈ drop (length rows - n) rows ↔ r ∈ take n (latest :: before)) as Hin.
  { intros r. rewrite <- Hrev, take_reverse. by rewrite elem_of_reverse. }
  unfold fails_alike. setoid_rewrite Hin. rewrite <- Hlen. destruct (repeats_ge (fingerprint_of latest) (latest :: before)) as [H1 H2].
  assert (latest ∈ take n (latest :: before)) as Hl by (destruct n; [lia|by left]).
  split.
  - intros (Hle & f & Hf & H). rewrite (H latest Hl) in *. rewrite (proj2 (Str.truthy_ne f) Hf). by apply H1.
  - destruct (Str.truthy (fingerprint_of latest)) eqn:Et; [|lia]. intros H. destruct (H2 n H) as [Hle Hall]. split; [done|].
    exists (fingerprint_of latest). split; [by apply Str.truthy_ne|done].
Qed.

(** * Properties *)

(** When a queue is drained. On polls that are mappings, with [k] at least
    one, the verdict is DRAINED exactly if the last [k] polls were empty (nothing
    ready, nothing active) and in no poll of the whole history ready items
    arrived right after an empty one; otherwise the queue goes on. Blocked items
    never change the verdict. *)
Theorem drain_exact polls k : (1 ≤ k)%nat →
  let r := evaluate_drain (Json.List (Json.Obj <$> polls)) (Z.of_nat k) in
  (fl_status r = "DRAINED" ↔ quiet_for k polls ∧ ¬ arrives_late polls) ∧
  (fl_status r = "DRAINED" ∨ fl_status r = "CONTINUE") ∧
  (fl_reason r = "late_arrival" ↔ arrives_late polls).
Proof.
  intros Hk r. subst r. unfold evaluate_drain. destruct (Z.ltb_spec (Z.of_nat k) 1); [lia|]. rewrite mappings_objs. cbv zeta.
  rewrite empty_tail_scan, <- late_scan, <- sorted_set_nil. destruct (Nat.eqb (length (sorted_set (late (scan polls)))) 0) eqn:E; cbn [negb].
  - apply length_nil_dec in E. rewrite E. destruct (Z.leb_spec (Z.of_nat k) (empty_tail (scan polls))); cbn [fl_status fl_reason]; split.
    + split; [|done]. intros _. split; [lia|]. by intros H'.
    + split; [by left|]. split; [done|]. by intros H'.
    + split; [done|]. intros [? _]. lia.
    + split; [by right|]. split; [done|]. by intros H'.
  - cbn [fl_status fl_reason]. assert (sorted_set (late (scan polls)) ≠ []) as Hne by (intros H'; by rewrite H' in E).
    split; [split; [done|]; intros [_ H']; by destruct H'|]. split; [by right|done].
Qed.

Lemma drain_exact_witness :
  (1 ≤ 2)%nat ∧ quiet_for 2 demo_polls ∧ fl_reason (evaluate_drain (Json.List (Json.Obj <$> demo_late)) 2) = "late_arrival" ∧
  ¬ arrives_late demo_polls.
Proof.
  assert (fl_status (evaluate_drain (Json.List (Json.Obj <$> demo_polls)) (Z.of_nat 2)) = "DRAINED") as Hs by (vm_compute; reflexivity).
  destruct (proj1 (proj1 (drain_exact demo_polls 2 ltac:(lia))) Hs) as [H1 H2].
  split; [lia|]. split; [exact H1|]. split; [vm_compute; reflexivity|exact H2].
Defined.

(** When a work item is complete, escalated or retried. On attempts that are
    mappings, with caps at least one: COMPLETE exactly if the latest attempt is
    verified; ESCALATE exactly if it is not and either the cap on attempts is
    reached or the last [stall] attempts failed with one fingerprint and the
    strategy did not change; RETRY in every other case with an attempt. *)
Theorem converge_exact rows latest before cap stall : reverse rows = latest :: before → 1 <= cap → (1 ≤ stall)%nat →
  let r := evaluate_converge (Json.List (Json.Obj <$> rows)) cap (Z.of_nat stall) in
  let verified := Val.truthy (Val.get "verified" latest) in
  (fl_status r = "COMPLETE" ↔ verified = true) ∧
  (fl_status r = "ESCALATE" ↔ verified = false ∧
     (cap <= Z.of_nat (length rows) ∨ fails_alike stall rows ∧ strategy_changed latest (head before) = false)) ∧
  (fl_status r = "COMPLETE" ∨ fl_status r = "ESCALATE" ∨ fl_status r = "RETRY").
Proof.
  intros Hrev Hcap Hstall r verified. subst r. unfold evaluate_converge.
  destruct (Z.ltb_spec cap 1); [lia|]. destruct (Z.ltb_spec (Z.of_nat stall) 1); [lia|]. cbn [orb].
  rewrite mappings_objs, Hrev. fold verified. rewrite (fails_alike_repeats stall rows latest before Hrev Hstall).
  destruct verified; [cbn [fl_status]; naive_solver|].
  destruct (Z.leb_spec cap (Z.of_nat (length rows))); [cbn [fl_status]; naive_solver|]. cbv zeta.
  destruct (Z.leb_spec (Z.of_nat stall) (if Str.truthy (fingerprint_of latest) then repeats (fingerprint_of latest) (latest :: before) else 0)) as [Hge|Hlt].
  - destruct (strategy_changed latest (head before)); cbn [fl_status]; (split; [naive_solver|]); (split; [|naive_solver]); split; try done.
    + intros [_ [?|[_ ?]]]; [lia|done].
    + intros _. split; [done|]. by right.
  - cbn [fl_status]. split; [naive_solver|]. split; [|naive_solver]. split; [done|]. intros [_ [?|[? _]]]; lia.
Qed.

Lemma converge_exact_witness :
  reverse [demo_attempt "f" 1; demo_attempt "f" 1] = [demo_attempt "f" 1; demo_attempt "f" 1] ∧ 1 <= 5 ∧ (1 ≤ 2)%nat ∧
  fails_alike 2 [demo_attempt "f" 1; demo_attempt "f" 1].
Proof.
  split; [reflexivity|]. split; [lia|]. split; [lia|].
  assert (fl_status (evaluate_converge (Json.List (Json.Obj <$> [demo_attempt "f" 1; demo_attempt "f" 1])) 5 (Z.of_nat 2)) = "ESCALATE") as Hs
    by (vm_compute; reflexivity).
  destruct (proj1 (proj1 (proj2 (converge_exact [demo_attempt "f" 1; demo_attempt "f" 1] (demo_attempt "f" 1) [demo_attempt "f" 1] 5 2
    eq_refl ltac:(lia) ltac:(lia)))) Hs) as [_ [H|[H _]]]; [cbn in H; lia|exact H].
Defined.
